(* ===== verification/_CoqProject ===== *)
-Q . S2P
Prelude.v
RustStr.v
Errors.v
Segments.v
TurnFinalizer.v
PhraseChunker.v
UtteranceAssembler.v
TranscriptCleanup.v
SpeechText.v
ProtocolQuality.v
Quality.v
Privacy.v
Context.v
MemoryProtocol.v
MemoryRetrieval.v
Bytes.v
Pcm.v
LanguageInput.v
CaptureTiming.v
Decimals.v
ClientTiming.v
Audio.v
SidecarCodec.v
TurnEvents.v
StreamingTurn.v
StreamingTurnProofs.v
TurnGuarantees.v
TurnRuntime.v
TurnRuntimeProofs.v
TurnLifecycle.v
RecordingSafety.v
Chunks.v
Recorder.v
Reader.v
Recording.v
RecorderInvariants.v
Reconciliation.v
Alignment.v
AlignmentPairs.v
AlignmentWalk.v
AlignmentReport.v
AlignmentClaims.v
ClientValues.v
ClientVoice.v
ClientCommands.v
MediaLease.v
ClientWire.v
ClientDecoding.v
ClientEncoding.v
RecordingReport.v
MemoryViews.v
WavPcm.v
WavPcmClaims.v
Base64.v
TextProcessing.v
TextProcessingClaims.v
VoiceOutbox.v
VoiceState.v
VoiceLoop.v
VoiceSession.v
VoiceDelivery.v
VoiceInvariant.v
VoiceSegments.v
VoiceTurns.v
VoiceSafety.v
VoiceClaims.v
CaptureRecording.v
CaptureIsolation.v
Database.v
MemoryStore.v
PeopleStore.v
MemorySchema.v
MemoryStoreProofs.v
MemoryRely.v
MemoryStoreSafety.v
MemoryStoreCalls.v
MemoryStoreRetrieval.v
PeopleStoreSafety.v
MemoryStoreClaims.v
Framing.v
