(* ===== verification/Prelude.v ===== *)
(** * Conversation Runtime SDK: verification development

    The Conversation Runtime SDK is a local-first runtime for interruptible
    voice conversations. A gateway process ([apps/runtime-gateway]) speaks
    length-prefixed frames with a client; the runtime ([crates/runtime]) owns
    turns, pacing, cancellation, the bounded conversation history and the
    sealed recording of a session; the adapters ([crates/model-adapters]) bring
    captured audio, recognition hypotheses and language models; the protocol
    crate ([crates/protocol]) holds the data they exchange.

    This library models the runtime's own logic as executable definitions,
    translated function by function from the source, and proves what makes it
    correct.

    ** How the parts interact

    Captured PCM frames ([Audio]) with the coordinates of their clock
    ([CaptureTiming]) go to the recognizer, whose hypotheses the turn finalizer
    ([TurnFinalizer]) turns into one committed transcript per utterance, and,
    when the session is recorded, to the recorder ([Recorder]), which watches
    its limits ([RecordingSafety]). A committed transcript, or a typed message,
    begins a turn in the shared context ([Context]), which asks the quality
    controller ([Quality]) for the controls and the guidance of the reply and
    for the history sent to the model, and retrieves memories for it
    ([MemoryRetrieval], [LanguageInput]) from a database that several processes
    may use at once ([MemoryStore]). The streamed reply is cut into phrases
    ([PhraseChunker]) or utterances ([UtteranceAssembler]), made speakable
    ([SpeechText]), synthesized and played while it is still generated
    ([StreamingTurn]), and the completed exchange is added to the history; the
    runtime ([TurnRuntime]) starts, interrupts and aborts turns so that they
    exclude each other. A voice session is allowed only under a validated policy
    ([Privacy]); its loop ([VoiceLoop]) drives the finalizer, starts and
    interrupts turns, and publishes events to its client ([VoiceOutbox]), while
    a task beside it records the capture ([CaptureRecording]). After a session,
    its recording is read back ([Reader]), adopted, cut into windows for
    diarization ([Reconciliation]) and aligned with the clocks ([Alignment]). The
    client's commands ([ClientCommands]) and the gateway's messages
    ([ClientWire]) are JSON in the frames of the gateway's pipe ([Framing]).

    ** Files, sources and theorems

    - [Prelude]: machine integers at their width with saturating and checked
      arithmetic, [result], the [exec] type for Rust panics and exhausted fuel,
      shared tactics and list lemmas. [RustStr]: Rust strings as lists of
      Unicode scalar values with UTF-8 byte offsets; a slice off a character
      boundary is a panic. [Bytes]: big-endian fields, hexadecimal and strict
      UTF-8. [Errors]: [protocol/src/error.rs], [ids.rs].
    - [TurnFinalizer]: [runtime/src/turn_finalizer.rs]. [Utterance] is an
      abstract machine that keeps the list of hypotheses heard since an utterance
      began, when the speaker fell silent and whether the transcript was given.
      The finalizer simulates it call by call ([Represents]), so over every
      sequence of calls the two commit the same transcripts; it commits at most
      once per utterance, and never before the configured silence.
    - [Segments], [PhraseChunker], [UtteranceAssembler]:
      [runtime/src/phrase_chunker.rs], [utterance_assembler.rs]. On any stream
      of deltas the cut never panics or runs out of fuel, every piece is within
      the byte limit, and the pieces are the text, whitespace apart.
    - [ProtocolQuality], [Quality]: [protocol/src/quality.rs] and
      [runtime/src/conversation_quality.rs]. The history stays within 16
      exchanges and 32 KiB through every operation, [resolve_turn] is total, and
      completing a turn keeps the longest suffix that fits.
    - [Context]: [runtime/src/conversation_context.rs]. Its critical sections
      are the steps of a transition system; over every interleaving, turn
      identifiers are consecutive, and a turn's outcome is claimed once.
    - [TranscriptCleanup]: [runtime/src/transcript_cleanup.rs]. Every removal
      meets its rule's threshold and is where the rule looks (a run of three, a
      loop of five in ten, the end of the transcript), repetitions keep a unit
      of the same words, and the counts are those of the removed units. [SpeechText]: [speech_text.rs]; the
      normalization terminates without a panic and never lengthens the text.
    - [MemoryProtocol], [MemoryRetrieval], [LanguageInput]:
      [protocol/src/memory.rs], [memory/src/retrieval.rs],
      [model-adapters/src/language_model.rs], [generation_language.rs]. A
      retrieval selects exactly the presentable records that fit, by rank, and
      the input built from a begun turn and a retrieval is always accepted.
    - [Database], [MemoryStore], [PeopleStore], [MemorySchema]:
      [memory/src/sqlite.rs], [provider.rs], [people.rs], [signatures.rs],
      [sqlite/people.rs], [sqlite/signatures.rs] and the two migrations. A call
      is a sequence of atomic accesses to the tables ([prog]), a transaction
      ([Tx]) takes effect as a whole or not at all, and any statement may fail.
      [MemoryRely] is a rely-guarantee logic for calls among other calls: a
      world is a database with the calls under way, which step in any order and
      stop at any moment. [MemoryStoreProofs], [MemoryStoreSafety],
      [MemoryStoreCalls], [MemoryStoreRetrieval] and [PeopleStoreSafety] prove
      that every call keeps the invariant of the tables and changes a memory
      only with its revision; [PeopleStoreSafety] also that a stored signature
      reads back. [MemoryStoreClaims]: a revision identifies a version, an
      approval binds the content it was given for, every row reads back, a
      retrieval shows only approved memories, people stay consistent, and the
      upgrade of an old file keeps its memories.
    - [TurnEvents], [StreamingTurn]: [runtime/src/streaming_turn.rs] from
      [run_streaming_turn] on, with [protocol/src/event.rs]. The generation task
      and the speech worker are a transition system: the program counter of a
      task is the [await] it is suspended at, a label says which branch of the
      [select!] is taken and what the adapter answered, and [step] is a
      function, so every interleaving and every behaviour of model,
      synthesizer, output and consumer is a list of labels.
      [StreamingTurnProofs] has the invariant, [TurnGuarantees] what follows:
      text, utterances, requests, frames and events agree at every moment, a
      completed turn spoke everything and every frame of it was accepted by the
      output, an interruption takes effect, and nothing else is reported as a
      cancellation.
    - [TurnRuntime], [TurnRuntimeProofs], [TurnLifecycle]: the rest of
      [streaming_turn.rs] and [generation.rs], over [Context] and
      [StreamingTurn]. Calls are a pool of state machines that step one critical
      section at a time; the invariant is who owns the conversation, the guard
      and the slot. A turn gives everything back before its end is published,
      an abort does so wherever it hit, the runtime is then usable at once, and
      the guard grants the permits of the one running turn, which discharges the
      assumption the streaming turn makes about it.
    - [Privacy]: [protocol/src/privacy.rs], [runtime/src/voice_privacy.rs]. The
      validation decides exactly the documented contract of a policy, and its
      summary is faithful to the components.
    - [Pcm], [Audio], [CaptureTiming]: [model-adapters/src/audio_frame.rs],
      [capture_timing.rs]. The binary forms of the timing values are inverse to
      their decoders in both directions; a clock domain that was left is never
      admitted again.
    - [SidecarCodec]: [model-adapters/src/macos_voice_sidecar/codec.rs], the
      frames exchanged with the process that owns the microphone, with the JSON
      structs and what their derives accept. An encoded frame is read back, its
      prefixes ask for more and its extensions are refused; bytes are a PCM
      frame exactly when they are its encoding; a transcript with a character
      JSON escapes is refused, because its text is borrowed.
    - [RecordingSafety]: [runtime/src/recording_safety.rs]. Each limit warns at
      most once, a silence stop follows the configured quiet stretch, and the
      number of health reports is bounded.
    - [Chunks], [Recorder], [Reader], [Recording], [RecorderInvariants]:
      [runtime/src/session_recording.rs]. [Chunks] has the records, their
      decoder, the media timeline and the validation of timed recordings;
      [Recorder] the writing half over oracles for the clock and the file
      system, [Reader] the reading half. [Recording] proves that whatever
      call succeeds or fails, a recorder is incomplete or its file replays to
      its own timeline, and that a file cut at any byte reads back as the whole
      chunks before the cut. [RecorderInvariants] proves, over any calls and any
      failures, that no nonce is used twice, that a damaged file is never
      authorized, and that adopting a closed file agrees with the live finalize
      (the one exception, the format of a refused first frame, is shown too).
    - [Reconciliation]: the window cutting of
      [runtime/src/recording_reconciliation.rs] and the windows of
      [model-adapters/src/diarization.rs]. Whatever the diarizer answers, what
      it was handed is the recorded audio in order, cut at sample boundaries,
      never across a gap, at the media position of its samples; a recording
      that was given a capability passes the preflight.
    - [ClientTiming], [Alignment], [AlignmentPairs], [AlignmentWalk],
      [AlignmentReport], [AlignmentClaims]: [protocol/src/client_timing.rs],
      [runtime/src/recording_alignment.rs]. The walk with two cursors and six
      clock pairs reports what a specification with all pairs at hand says, in
      pages that pass the client's validation; an estimate of the wall clock
      encloses the line through the pairs around the frame. [Decimals]:
      parsing and printing of decimal numbers.
    - [ClientValues], [ClientVoice], [ClientCommands], [MediaLease],
      [ClientWire]: [protocol/src/client_*.rs], [voice_event.rs],
      [utterance_capture.rs]. [ClientDecoding]: a decoded command is
      well-formed, and decoding never panics; [ClientEncoding]: what is sent is
      bounded, known to its version, and an error tells nothing but its kind and
      stage; [RecordingReport]: a finalized recording's summary always passes
      the validation; [MemoryViews]: so do the answers about memories, and the
      pages of the listing cover the table.
    - [WavPcm], [WavPcmClaims], [Base64]: [model-adapters/src/wav_pcm.rs],
      [speech.rs], [base64.rs]. The decoder's frames carry the audio of the
      container, all of it and in order; base64 is undone by its decoding.
    - [TextProcessing], [TextProcessingClaims]: [runtime/src/text_processing.rs].
      The check of an answer decides whether it conforms to the schema; what is
      returned is read from everything the model streamed for the last of at
      most two requests, and no two calls share an identity.
    - [VoiceOutbox], [VoiceState], [VoiceLoop], [VoiceSession]:
      [runtime/src/voice_session.rs]. A method of the loop is a computation on
      its state that may panic ([M]); what [select!] comes back with is a list of
      signals, and a signal whose branch is not polled does not come. Ghost
      fields collect what was published, what was answered and what happened to
      turns. [VoiceDelivery] has weakest preconditions for these computations
      and the invariant of the channel, the queue of reliable events and the
      kept partials; [VoiceInvariant] the invariant of the loop;
      [VoiceSegments], [VoiceTurns] and [VoiceSafety] that every handler returns
      and keeps it. [VoiceClaims]: a session ends once and at its end, reliable
      events arrive in order and within bounds, one response runs at a time and
      to the words of a transcript that was published, playback is reported as
      it went.
    - [CaptureRecording], [CaptureIsolation]: the recording task of
      [voice_session.rs] over [Recorder] and [RecordingSafety]. Whatever the
      loop does, the recording is the one the recorder makes of the captured
      media alone; a loop that missed input is told so in its place.
    - [Framing]: [runtime-gateway/src/framing.rs]. A written frame reads back
      however the transport splits it; a length outside the bounds and a stream
      that ends inside a frame are refused.

    ** Parameters

    Code that is not in the repository is a type class or an argument:
    [UnicodeTables] (the large Unicode tables), [RecordingCrypto] (AES-256-GCM,
    SHA-256 and HMAC of [ring]), [World] (the clock, the answers of the file
    system, free disk space), [Sha256], [SerdeJson], [ClientJson], [PageJson] and
    [JsonFloats] (JSON text to and from values, its length, and the equality of
    its numbers), and [SignatureCrypto] (the digest and cipher of voice
    signatures). The texts of the migrations, of which the store needs the
    checksums, are arguments. The laws assumed are in [UnicodeLaws],
    [RecordingCryptoLaws], [SignatureCryptoLaws], [RecordingOpenLaws],
    [Sha256Laws], [SerdeJsonLaws], [PageJsonLaws] and [JsonTextLaws]; [ascii_tables], [tag_crypto] and
    [bit_json] are among the instances that satisfy them, and the witnesses run
    on such instances.

    Tasks that run beside the one modelled are its environment: [ChannelEnv] and
    [SessionEnv] (the client that reads the events, the clock, the turns that are
    started, interrupted, drained and aborted, the tasks awaited at the end) and
    [RecordingEnv] (the loop and the reader of the notices); [Env] is what the
    database engine and the random generator answer during one access. Each use
    may be answered in any way. The one law, [SessionEnvLaws], says that no generation
    is used twice; [VoiceClaims.context_generations_fresh] proves it of an
    environment whose turns are reserved in the conversation's context.

    ** Fuel

    A loop of the source that is not structural takes fuel. The chunkers' push
    loops get the length of the buffer, which every cut shortens; the loops of
    the readers get the length of the input and one more, since every chunk
    takes at least its four bytes of length; the splitting of a frame into
    windows gets the length of its audio; the walks over the chunks of a WAV
    file get its length, since a chunk header takes eight bytes. Running out of fuel is a value of its
    own ([exec]) and the theorems state that it does not happen.

    Transition systems have no fuel: a run is a finite list of labels.

    ** Not modelled

    Of the asynchronous runtime: the poll order inside one [await], the
    scheduler (any interleaving of steps is allowed), and calls of [start_turn]
    and [abort_turn] that are dropped halfway. The drivers of devices, processes
    and HTTP services and the other processes (TypeScript, Swift, Python) are
    effects on the outside with little logic of their own. SQLite itself is
    taken at what it documents of the statements the store makes; the store's
    checks of paths and its making of files are left out. In the upgrade of an
    old file each step fails or not as a whole.
    Left out for their size, though they have logic that could be modelled in the
    same way: the text-only turn and its speech worker, the gateway's session
    and media server (apart from its answers about memories) and the rules of its
    configuration file. Of the voice session, the time of the clock and of the
    timers is left open: any order of signals is allowed, also one in which a
    deadline comes late or early. *)

From Stdlib Require Export ZArith Lia.
From stdpp Require Export prelude list.

#[export] Set Default Proof Using "Type".
Global Open Scope Z_scope.

(** ** Machine integers

    A Rust unsigned integer is a [Z] within its width. *)

Definition u8_max : Z := 2 ^ 8 - 1.
Definition u16_max : Z := 2 ^ 16 - 1.
Definition u32_max : Z := 2 ^ 32 - 1.
Definition u64_max : Z := 2 ^ 64 - 1.
Definition usize_max : Z := u64_max.
Definition i64_min : Z := - 2 ^ 63.
Definition i64_max : Z := 2 ^ 63 - 1.
Definition i128_min : Z := - 2 ^ 127.
Definition i128_max : Z := 2 ^ 127 - 1.

Definition is_u8 (x : Z) : Prop := 0 <= x <= u8_max.
Definition is_u16 (x : Z) : Prop := 0 <= x <= u16_max.
Definition is_u32 (x : Z) : Prop := 0 <= x <= u32_max.
Definition is_u64 (x : Z) : Prop := 0 <= x <= u64_max.

(** [u64::saturating_add], [saturating_sub] and [saturating_mul]. *)
Definition saturating_add (a b : Z) : Z := Z.min u64_max (a + b).
Definition saturating_sub (a b : Z) : Z := Z.max 0 (a - b).
Definition saturating_mul (a b : Z) : Z := Z.min u64_max (a * b).

(** [u64::checked_add], [checked_sub] and [checked_mul]. *)
Definition checked_add (a b : Z) : option Z :=
  if a + b <=? u64_max then Some (a + b) else None.
Definition checked_sub (a b : Z) : option Z :=
  if 0 <=? a - b then Some (a - b) else None.
Definition checked_mul (a b : Z) : option Z :=
  if a * b <=? u64_max then Some (a * b) else None.

(** ** Errors and effects *)

(** [Result<T, E>]. *)
Inductive result (A E : Type) : Type :=
| Ok (value : A)
| Err (error : E).
Arguments Ok {A E} _.
Arguments Err {A E} _.

Definition is_ok {A E} (r : result A E) : bool :=
  match r with Ok _ => true | Err _ => false end.

Definition result_bind {A B E} (r : result A E) (f : A -> result B E) : result B E :=
  match r with Ok a => f a | Err e => Err e end.

Definition result_map {A B E} (f : A -> B) (r : result A E) : result B E :=
  match r with Ok a => Ok (f a) | Err e => Err e end.

(** [Option::ok_or_else]. *)
Definition ok_or {A E} (o : option A) (e : E) : result A E :=
  match o with Some a => Ok a | None => Err e end.

(** A computation that may also panic (a failed [expect], an index out of
    range, a slice that is not on a character boundary) or run out of the fuel
    given to a loop. Theorems about it conclude [Val _]. *)
Inductive exec (A : Type) : Type :=
| Val (value : A)
| Panics
| Fuel_out.
Arguments Val {A} _.
Arguments Panics {A}.
Arguments Fuel_out {A}.

Definition exec_bind {A B} (c : exec A) (f : A -> exec B) : exec B :=
  match c with Val a => f a | Panics => Panics | Fuel_out => Fuel_out end.

(** [Option::unwrap] or an indexing operation: [None] panics. *)
Definition expect {A} (o : option A) : exec A :=
  match o with Some a => Val a | None => Panics end.

Declare Scope rust_scope.
Delimit Scope rust_scope with rust.
Notation "'let?' x := r 'in' k" := (result_bind r (fun x => k))
  (at level 10, x binder, r at level 100, k at level 200) : rust_scope.
Notation "'let!' x := r 'in' k" := (exec_bind r (fun x => k))
  (at level 10, x binder, r at level 100, k at level 200) : rust_scope.
Notation "'require' b 'else' e 'in' k" := (if b then k else Err e)
  (at level 10, b at level 100, e at level 100, k at level 200) : rust_scope.
Global Open Scope rust_scope.

(** [Option::or], [Option::or_else]. *)
Definition opt_or {A} (a b : option A) : option A :=
  match a with Some _ => a | None => b end.

(** [Option::is_some_and], [Option::is_none_or]. *)
Definition is_some_and {A} (o : option A) (p : A -> bool) : bool :=
  match o with Some a => p a | None => false end.
Definition is_none_or {A} (o : option A) (p : A -> bool) : bool :=
  match o with Some a => p a | None => true end.
Definition is_some {A} (o : option A) : bool :=
  match o with Some _ => true | None => false end.
Definition is_none {A} (o : option A) : bool := negb (is_some o).

(** The length of a [Vec] or slice. *)
Definition zlen {A} (l : list A) : Z := Z.of_nat (length l).

(** [slice::last] and [VecDeque::back]. *)
Definition back {A} (l : list A) : option A := last l.

#[export] Instance result_eq_dec {A E} `{EqDecision A} `{EqDecision E} : EqDecision (result A E).
Proof. solve_decision. Defined.
#[export] Instance exec_eq_dec {A} `{EqDecision A} : EqDecision (exec A).
Proof. solve_decision. Defined.

(** ** Automation *)

Create HintDb runtime.
Create Rewrite HintDb runtime.

(** Turn the boolean tests of the code into the propositions they decide. *)
Ltac breflect :=
  repeat match goal with
  | H : andb _ _ = true |- _ => apply andb_prop in H; destruct H
  | H : orb _ _ = false |- _ => apply orb_false_elim in H; destruct H
  | H : negb _ = true |- _ => apply negb_true_iff in H
  | H : negb _ = false |- _ => apply negb_false_iff in H
  | H : (_ <=? _) = true |- _ => apply Z.leb_le in H
  | H : (_ <=? _) = false |- _ => apply Z.leb_gt in H
  | H : (_ <? _) = true |- _ => apply Z.ltb_lt in H
  | H : (_ <? _) = false |- _ => apply Z.ltb_ge in H
  | H : (_ =? _) = true |- _ => apply Z.eqb_eq in H
  | H : (_ =? _) = false |- _ => apply Z.eqb_neq in H
  | H : bool_decide _ = true |- _ => apply bool_decide_eq_true in H
  | H : bool_decide _ = false |- _ => apply bool_decide_eq_false in H
  end.

(** Split every conditional of the goal, keeping the guard as a proposition. *)
Ltac split_ifs :=
  repeat match goal with
  | |- context [if ?b then _ else _] => destruct b eqn:?; breflect
  end.

(** Split every conditional of a hypothesis. *)
Ltac split_ifs_in H :=
  repeat match type of H with
  | context [if ?b then _ else _] => destruct b eqn:?; breflect
  end.

(** Split the matches and conditionals of [H], discarding absurd branches. *)
Ltac inv_branches H :=
  repeat (match type of H with
          | context [match ?x with _ => _ end] => destruct x eqn:?; breflect
          end; simplify_eq/=).

Ltac unfold_ints :=
  unfold is_u8, is_u16, is_u32, is_u64, saturating_add, saturating_sub, saturating_mul,
    u8_max, u16_max, u32_max, u64_max, usize_max, i64_min, i64_max, i128_min, i128_max in *.

Ltac ints := unfold_ints; lia.

(** ** Lemmas on integers, options and lists *)

Lemma saturating_add_spec a b :
  0 <= a -> 0 <= b -> is_u64 (saturating_add a b) /\
  (saturating_add a b = a + b \/ saturating_add a b = u64_max /\ u64_max < a + b).
Proof. ints. Qed.

Lemma saturating_add_is_u64 a b : 0 <= a -> 0 <= b -> is_u64 (saturating_add a b).
Proof. ints. Qed.

Lemma saturating_sub_is_u64 a b : is_u64 a -> 0 <= b -> is_u64 (saturating_sub a b).
Proof. ints. Qed.

Lemma checked_add_Some a b c :
  checked_add a b = Some c <-> c = a + b /\ a + b <= u64_max.
Proof. unfold checked_add. split_ifs; split; intros; intuition (simplify_eq; lia || f_equal; lia). Qed.

Lemma checked_sub_Some a b c :
  checked_sub a b = Some c <-> c = a - b /\ b <= a.
Proof. unfold checked_sub. split_ifs; split; intros; intuition (simplify_eq; lia || f_equal; lia). Qed.

#[export] Hint Resolve saturating_add_is_u64 saturating_sub_is_u64 : runtime.

Lemma zlen_nil {A} : zlen (@nil A) = 0.
Proof. done. Qed.

Lemma zlen_cons {A} (x : A) l : zlen (x :: l) = 1 + zlen l.
Proof. unfold zlen. simpl. lia. Qed.

Lemma zlen_app {A} (l k : list A) : zlen (l ++ k) = zlen l + zlen k.
Proof. unfold zlen. rewrite length_app. lia. Qed.

Lemma zlen_nonneg {A} (l : list A) : 0 <= zlen l.
Proof. unfold zlen. lia. Qed.

#[export] Hint Rewrite @zlen_nil @zlen_cons @zlen_app : runtime.
#[export] Hint Resolve zlen_nonneg : runtime.

Lemma result_bind_Ok {A B E} (r : result A E) (f : A -> result B E) b :
  result_bind r f = Ok b <-> exists a, r = Ok a /\ f a = Ok b.
Proof. destruct r; simpl; naive_solver. Qed.

Lemma exec_bind_Val {A B} (c : exec A) (f : A -> exec B) b :
  exec_bind c f = Val b <-> exists a, c = Val a /\ f a = Val b.
Proof. destruct c; simpl; naive_solver. Qed.

Lemma Ok_inj {A E} (a b : A) : @Ok A E a = Ok b -> a = b.
Proof. congruence. Qed.
