(* ===== verification/RustStr.v ===== *)
(** * Rust strings

    A Rust [String] is well-formed UTF-8, that is, a sequence of Unicode scalar
    values together with the byte offsets at which each one starts. The
    development represents it as the list of scalar values; byte lengths and
    byte offsets are computed with [len_utf8], and a slice or a [drain] at an
    offset that is not a character boundary is [None], where Rust panics.

    [char::is_whitespace] is the Unicode White_Space property, written out.
    The parts of the Unicode tables that are too large to write out
    ([char::is_alphanumeric], [char::is_numeric], [str::to_lowercase]) are the
    operations of the class [UnicodeTables]; [ascii_tables] is an instance. *)

From Stdlib Require Ascii String.
From S2P Require Import Prelude.
Export String.StringSyntax.

Abbreviation rchar := Z (only parsing).
Abbreviation rstr := (list Z) (only parsing).

(** [char::len_utf8]. *)
Definition len_utf8 (c : rchar) : Z :=
  if c <? 0x80 then 1 else if c <? 0x800 then 2 else if c <? 0x10000 then 3 else 4.

(** [str::len]: the number of UTF-8 bytes. *)
Fixpoint blen (s : rstr) : Z :=
  match s with
  | [] => 0
  | c :: s' => len_utf8 c + blen s'
  end.

(** *** Literals: the scalar values of a UTF-8 encoded literal *)

Definition byte_of_ascii (a : Ascii.ascii) : Z := Z.of_N (Ascii.N_of_ascii a).

Fixpoint utf8_decode (bs : list Z) : rstr :=
  match bs with
  | [] => []
  | b :: r1 =>
      if b <? 0x80 then b :: utf8_decode r1
      else match r1 with
           | [] => []
           | b1 :: r2 =>
               if b <? 0xE0 then (b - 0xC0) * 64 + (b1 - 0x80) :: utf8_decode r2
               else match r2 with
                    | [] => []
                    | b2 :: r3 =>
                        if b <? 0xF0
                        then (b - 0xE0) * 4096 + (b1 - 0x80) * 64 + (b2 - 0x80) :: utf8_decode r3
                        else match r3 with
                             | [] => []
                             | b3 :: r4 =>
                                 (b - 0xF0) * 262144 + (b1 - 0x80) * 4096
                                   + (b2 - 0x80) * 64 + (b3 - 0x80) :: utf8_decode r4
                             end
                    end
           end
  end.

(** A string literal of the source. *)
Definition lit (s : String.string) : rstr :=
  utf8_decode (map byte_of_ascii (String.list_ascii_of_string s)).

(** A character literal of the source. *)
Definition chr (s : String.string) : rchar := hd 0 (lit s).

Arguments lit s%_string_scope : simpl never.
Arguments chr s%_string_scope : simpl never.

(** *** Character classes *)

(** [char::is_whitespace]: the White_Space property. *)
Definition is_whitespace (c : rchar) : bool :=
  ((0x09 <=? c) && (c <=? 0x0D)) || (c =? 0x20) || (c =? 0x85) || (c =? 0xA0) ||
  (c =? 0x1680) || ((0x2000 <=? c) && (c <=? 0x200A)) || (c =? 0x2028) ||
  (c =? 0x2029) || (c =? 0x202F) || (c =? 0x205F) || (c =? 0x3000).

Definition is_ascii_digit (c : rchar) : bool := (0x30 <=? c) && (c <=? 0x39).
Definition is_ascii_uppercase (c : rchar) : bool := (0x41 <=? c) && (c <=? 0x5A).
Definition is_ascii_lowercase (c : rchar) : bool := (0x61 <=? c) && (c <=? 0x7A).
Definition is_ascii_alphabetic (c : rchar) : bool := is_ascii_uppercase c || is_ascii_lowercase c.

(** [char::to_ascii_lowercase]. *)
Definition ascii_lower (c : rchar) : rchar := if is_ascii_uppercase c then c + 32 else c.

(** [matches!(c, 'a' | 'b' | ..)]. *)
Definition char_in (set : rstr) (c : rchar) : bool := existsb (Z.eqb c) set.

(** *** Trimming *)

(** [str::trim_start_matches]. *)
Fixpoint trim_start_matches (p : rchar -> bool) (s : rstr) : rstr :=
  match s with
  | [] => []
  | c :: s' => if p c then trim_start_matches p s' else s
  end.

(** [str::trim_end_matches]. *)
Fixpoint trim_end_matches (p : rchar -> bool) (s : rstr) : rstr :=
  match s with
  | [] => []
  | c :: s' =>
      match trim_end_matches p s' with
      | [] => if p c then [] else [c]
      | t => c :: t
      end
  end.

(** [str::trim_matches], [trim], [trim_start], [trim_end]. *)
Definition trim_matches (p : rchar -> bool) (s : rstr) : rstr :=
  trim_end_matches p (trim_start_matches p s).
Definition trim_start (s : rstr) : rstr := trim_start_matches is_whitespace s.
Definition trim_end (s : rstr) : rstr := trim_end_matches is_whitespace s.
Definition trim (s : rstr) : rstr := trim_matches is_whitespace s.

(** [str::is_empty]. *)
Definition is_empty {A} (s : list A) : bool := match s with [] => true | _ => false end.

(** [s.trim().is_empty()]. *)
Definition is_blank (s : rstr) : bool := is_empty (trim s).

(** *** Byte offsets *)

(** [str::char_indices], from byte offset [i]. *)
Fixpoint char_indices_from (i : Z) (s : rstr) : list (Z * rchar) :=
  match s with
  | [] => []
  | c :: s' => (i, c) :: char_indices_from (i + len_utf8 c) s'
  end.
Definition char_indices (s : rstr) : list (Z * rchar) := char_indices_from 0 s.

(** [str::split_at] at a byte offset: [None] when the offset is out of range
    or inside a character. [&s[..n]], [&s[n..]] and [s.drain(..n)] are its two
    halves. *)
Fixpoint split_at_byte (n : Z) (s : rstr) : option (rstr * rstr) :=
  if n =? 0 then Some ([], s)
  else match s with
       | [] => None
       | c :: s' =>
           if n <? len_utf8 c then None
           else match split_at_byte (n - len_utf8 c) s' with
                | Some (a, b) => Some (c :: a, b)
                | None => None
                end
       end.

(** *** Searching *)

(** [str::starts_with] and [str::strip_prefix] with a string pattern. *)
Fixpoint strip_prefix (pat s : rstr) : option rstr :=
  match pat, s with
  | [], _ => Some s
  | _ :: _, [] => None
  | p :: pat', c :: s' => if p =? c then strip_prefix pat' s' else None
  end.
Definition starts_with (pat s : rstr) : bool := is_some (strip_prefix pat s).

(** [str::strip_suffix] and [str::ends_with]. *)
Definition strip_suffix (pat s : rstr) : option rstr :=
  match strip_prefix (rev pat) (rev s) with Some r => Some (rev r) | None => None end.
Definition ends_with (pat s : rstr) : bool := is_some (strip_suffix pat s).

(** [str::find] with a character pattern: the byte offset of the first match. *)
Fixpoint find_char_from (i : Z) (c : rchar) (s : rstr) : option Z :=
  match s with
  | [] => None
  | d :: s' => if d =? c then Some i else find_char_from (i + len_utf8 d) c s'
  end.
Definition find_char (c : rchar) (s : rstr) : option Z := find_char_from 0 c s.

(** [str::contains] with a string pattern. *)
Fixpoint contains (pat s : rstr) : bool :=
  starts_with pat s || match s with [] => false | _ :: s' => contains pat s' end.

(** [str::match_indices]: the byte offsets of the non-overlapping matches of a
    two-character pattern, from left to right. *)
Fixpoint match_indices2_from (i : Z) (a b : rchar) (s : rstr) : list Z :=
  match s with
  | [] => []
  | c :: s' =>
      match s' with
      | d :: s'' =>
          if (c =? a) && (d =? b)
          then i :: match_indices2_from (i + len_utf8 c + len_utf8 d) a b s''
          else match_indices2_from (i + len_utf8 c) a b s'
      | [] => []
      end
  end.

(** *** Splitting and joining *)

(** [str::split] on the characters satisfying [p]. *)
Fixpoint split_by (p : rchar -> bool) (s : rstr) : list rstr :=
  match s with
  | [] => [[]]
  | c :: s' =>
      if p c then [] :: split_by p s'
      else match split_by p s' with
           | w :: ws => (c :: w) :: ws
           | [] => [[c]]
           end
  end.

(** [str::split_whitespace]: the non-empty pieces between whitespace. *)
Definition split_whitespace (s : rstr) : list rstr :=
  List.filter (fun w => negb (is_empty w)) (split_by is_whitespace s).

(** [str::split_inclusive] on line feeds. *)
Fixpoint split_inclusive_lf (s : rstr) : list rstr :=
  match s with
  | [] => []
  | c :: s' =>
      if c =? 0x0A then [c] :: split_inclusive_lf s'
      else match split_inclusive_lf s' with
           | l :: ls => (c :: l) :: ls
           | [] => [[c]]
           end
  end.

(** [str::lines]: the pieces without their line feed, and without a carriage
    return right before it. *)
Definition line_of_piece (piece : rstr) : rstr :=
  match strip_suffix [0x0A] piece with
  | None => piece
  | Some l => match strip_suffix [0x0D] l with Some l' => l' | None => l end
  end.
Definition lines (s : rstr) : list rstr := map line_of_piece (split_inclusive_lf s).

(** [\[String\]::join]. *)
Fixpoint join (sep : rstr) (ws : list rstr) : rstr :=
  match ws with
  | [] => []
  | [w] => w
  | w :: ws' => w ++ sep ++ join sep ws'
  end.

(** [\[String\]::concat]. *)
Definition str_concat (ws : list rstr) : rstr := concat ws.

(** [usize::to_string] and [u64::to_string]: decimal digits. *)
Fixpoint decimal_digits (fuel : nat) (n : Z) (acc : rstr) : rstr :=
  match fuel with
  | O => acc
  | S fuel' =>
      let acc' := 0x30 + n mod 10 :: acc in
      if n / 10 =? 0 then acc' else decimal_digits fuel' (n / 10) acc'
  end.
Definition decimal (n : Z) : rstr :=
  if n <? 0 then 0x2D :: decimal_digits 40 (- n) [] else decimal_digits 40 n [].

Arguments decimal n : simpl never.

(** *** The Unicode tables used through the standard library *)

Class UnicodeTables : Type := {
  is_alphanumeric : rchar -> bool;
  is_numeric : rchar -> bool;
  to_lowercase : rstr -> rstr;
}.

(** What the standard library documents about those operations and the code
    relies on. *)
Class UnicodeLaws (U : UnicodeTables) : Prop := {
  alphanumeric_not_whitespace : forall c, is_alphanumeric c = true -> is_whitespace c = false;
  numeric_alphanumeric : forall c, is_numeric c = true -> is_alphanumeric c = true;
  to_lowercase_ascii : forall s,
    (forall c, c ∈ s -> 0 <= c < 128) -> to_lowercase s = map ascii_lower s;
}.

(** An instance that knows the ASCII range, and treats every character from
    U+00C0 that is not whitespace as a letter. *)
Definition ascii_tables : UnicodeTables := {|
  is_alphanumeric c :=
    is_ascii_digit c || is_ascii_alphabetic c || ((0x4E00 <=? c) && (c <=? 0x9FFF))
    || ((0xC0 <=? c) && (c <=? 0x24F));
  is_numeric := is_ascii_digit;
  to_lowercase := map ascii_lower;
|}.

(** *** UTF-8 encoding, which relates the representation to Rust's bytes *)

Definition is_scalar (c : rchar) : Prop := 0 <= c <= 0x10FFFF.

Definition utf8_encode_char (c : rchar) : list Z :=
  if c <? 0x80 then [c]
  else if c <? 0x800 then [0xC0 + c / 64; 0x80 + c mod 64]
  else if c <? 0x10000 then [0xE0 + c / 4096; 0x80 + (c / 64) mod 64; 0x80 + c mod 64]
  else [0xF0 + c / 262144; 0x80 + (c / 4096) mod 64; 0x80 + (c / 64) mod 64; 0x80 + c mod 64].

Definition utf8_encode (s : rstr) : list Z := concat (map utf8_encode_char s).

(** ** Lemmas *)

Lemma len_utf8_pos c : 1 <= len_utf8 c <= 4.
Proof. unfold len_utf8. split_ifs; lia. Qed.

Lemma blen_nonneg s : 0 <= blen s.
Proof. induction s as [|c s IH]; simpl; [lia|]. pose proof (len_utf8_pos c). lia. Qed.

Lemma blen_app s t : blen (s ++ t) = blen s + blen t.
Proof. induction s as [|c s IH]; simpl; lia. Qed.

Lemma blen_zlen s : zlen s <= blen s <= 4 * zlen s.
Proof.
  induction s as [|c s IH]; simpl; rewrite ?zlen_nil, ?zlen_cons; [lia|].
  pose proof (len_utf8_pos c). lia.
Qed.

Lemma blen_0 s : blen s = 0 -> s = [].
Proof. destruct s as [|c s]; simpl; [done|]. pose proof (len_utf8_pos c). pose proof (blen_nonneg s). lia. Qed.

Lemma utf8_encode_char_length c : zlen (utf8_encode_char c) = len_utf8 c.
Proof. unfold utf8_encode_char, len_utf8. split_ifs; done. Qed.

Lemma utf8_encode_length s : zlen (utf8_encode s) = blen s.
Proof.
  induction s as [|c s IH]; [done|].
  unfold utf8_encode in *. simpl. rewrite zlen_app, utf8_encode_char_length. lia.
Qed.

Lemma utf8_decode_encode s : Forall is_scalar s -> utf8_decode (utf8_encode s) = s.
Proof.
  induction 1 as [|c s Hc _ IH]; [done|].
  unfold utf8_encode in *. simpl. unfold utf8_encode_char, is_scalar in *.
  split_ifs; cbn [app utf8_decode]; rewrite IH;
    repeat match goal with
    | |- context [?a <? ?b] =>
        first [rewrite (proj2 (Z.ltb_lt a b)) by (Z.div_mod_to_equations; lia)
              |rewrite (proj2 (Z.ltb_ge a b)) by (Z.div_mod_to_equations; lia)]
    end; f_equal; Z.div_mod_to_equations; lia.
Qed.

(** *** Splitting at byte offsets *)

Lemma split_at_byte_app a b : split_at_byte (blen a) (a ++ b) = Some (a, b).
Proof.
  induction a as [|c a IH]; [by destruct b|]. cbn [app split_at_byte blen].
  pose proof (len_utf8_pos c). pose proof (blen_nonneg a).
  split_ifs; try lia. replace (len_utf8 c + blen a - len_utf8 c) with (blen a) by lia. by rewrite IH.
Qed.

Lemma split_at_byte_sound n s a b :
  split_at_byte n s = Some (a, b) -> s = a ++ b /\ n = blen a.
Proof.
  revert n a. induction s as [|c s IH]; intros n a H; cbn [split_at_byte] in H.
  - split_ifs_in H; by simplify_eq/=.
  - split_ifs_in H; simplify_eq/=; [done|].
    destruct (split_at_byte _ _) as [[a' b']|] eqn:E; simplify_eq/=.
    apply IH in E as [-> E]. split; [done|lia].
Qed.

Lemma split_at_byte_Some n s a b :
  split_at_byte n s = Some (a, b) <-> s = a ++ b /\ n = blen a.
Proof. split; [apply split_at_byte_sound|]. intros [-> ->]. apply split_at_byte_app. Qed.

Lemma split_at_byte_all s : split_at_byte (blen s) s = Some (s, []).
Proof. apply split_at_byte_Some. by rewrite app_nil_r. Qed.

(** A byte offset of a string is a character boundary. *)
Definition is_char_boundary (n : Z) (s : rstr) : Prop := exists a b, s = a ++ b /\ n = blen a.

Lemma is_char_boundary_split n s :
  is_char_boundary n s <-> exists a b, split_at_byte n s = Some (a, b).
Proof. unfold is_char_boundary. by setoid_rewrite split_at_byte_Some. Qed.

Lemma char_indices_from_spec i s k c :
  (k, c) ∈ char_indices_from i s <-> exists a b, s = a ++ c :: b /\ k = i + blen a.
Proof.
  revert i. induction s as [|d s IH]; intros i; simpl.
  - split; [intros H; inversion H|]. intros (a & b & H & _). by destruct a.
  - rewrite elem_of_cons, IH. split.
    + intros [H|(a & b & -> & ->)].
      * simplify_eq. exists [], s. simpl. split; [done|lia].
      * exists (d :: a), b. simpl. split; [done|lia].
    + intros (a & b & H & ->). destruct a as [|x a]; simpl in *; simplify_eq.
      * left. f_equal. lia.
      * right. exists a, b. split; [done|lia].
Qed.

(** *** Trimming *)

Lemma trim_start_matches_decomp p s :
  exists pre, s = pre ++ trim_start_matches p s /\ Forall (fun c => p c = true) pre.
Proof.
  induction s as [|c s IH]; simpl; [by exists []|].
  destruct (p c) eqn:E; [|by exists []].
  destruct IH as (pre & Hs & Hpre). exists (c :: pre). split; [by rewrite Hs at 1|by constructor].
Qed.

Lemma trim_end_matches_decomp p s :
  exists post, s = trim_end_matches p s ++ post /\ Forall (fun c => p c = true) post.
Proof.
  induction s as [|c s (post & Hs & Hpost)]; simpl; [by exists []|].
  destruct (trim_end_matches p s) as [|d t] eqn:E.
  - destruct (p c) eqn:Ec.
    + exists (c :: post). simpl in *. subst. split; [done|by constructor].
    + exists post. simpl in *. by subst.
  - exists post. split; [by rewrite Hs at 1|done].
Qed.

Lemma trim_decomp s :
  exists pre post, s = pre ++ trim s ++ post /\
    Forall (fun c => is_whitespace c = true) pre /\ Forall (fun c => is_whitespace c = true) post.
Proof.
  unfold trim, trim_matches.
  destruct (trim_start_matches_decomp is_whitespace s) as (pre & Hs & Hpre).
  destruct (trim_end_matches_decomp is_whitespace (trim_start_matches is_whitespace s))
    as (post & Ht & Hpost).
  exists pre, post. by rewrite <- Ht, <- Hs.
Qed.

Lemma trim_blen s : blen (trim s) <= blen s.
Proof.
  destruct (trim_decomp s) as (pre & post & Hs & _). rewrite Hs at 2. rewrite !blen_app.
  pose proof (blen_nonneg pre). pose proof (blen_nonneg post). lia.
Qed.

Lemma trim_start_matches_all p s : Forall (fun c => p c = true) s -> trim_start_matches p s = [].
Proof. induction 1 as [|c s Hc _ IH]; simpl; [done|]. by rewrite Hc. Qed.

Lemma trim_start_matches_head p s c t : trim_start_matches p s = c :: t -> p c = false.
Proof. induction s as [|d s IH]; simpl; [done|]. split_ifs; naive_solver. Qed.

Lemma trim_end_matches_last p s c t : trim_end_matches p s = t ++ [c] -> p c = false.
Proof.
  revert t. induction s as [|d s IH]; intros t; simpl; [by destruct t|].
  destruct (trim_end_matches p s) as [|e u] eqn:E.
  - split_ifs; [by destruct t|]. destruct t as [|? []]; intros; by simplify_eq/=.
  - destruct t as [|? t]; intros; simplify_eq/=. by eapply IH.
Qed.

(** [s.trim().is_empty()] decides that every character is whitespace. *)
Lemma is_blank_spec s : is_blank s = true <-> Forall (fun c => is_whitespace c = true) s.
Proof.
  unfold is_blank. split.
  - intros H. destruct (trim_decomp s) as (pre & post & Hs & Hpre & Hpost).
    destruct (trim s); [|done]. rewrite Hs. by apply Forall_app.
  - intros H. unfold trim, trim_matches. by rewrite trim_start_matches_all.
Qed.

Lemma is_blank_app s t : is_blank (s ++ t) = is_blank s && is_blank t.
Proof.
  apply eq_bool_prop_intro. rewrite !Is_true_true, andb_true_iff, !is_blank_spec. apply Forall_app.
Qed.

Lemma is_blank_trim s : is_blank (trim s) = is_blank s.
Proof.
  destruct (trim_decomp s) as (pre & post & Hs & Hpre & Hpost). rewrite Hs at 2.
  rewrite !is_blank_app. apply is_blank_spec in Hpre, Hpost. by rewrite Hpre, Hpost, andb_true_r.
Qed.

Lemma not_blank_trim s : is_blank s = false -> trim s <> [].
Proof. unfold is_blank. by destruct (trim s). Qed.

#[export] Hint Resolve blen_nonneg len_utf8_pos : runtime.
