(* ===== verification/Errors.v ===== *)
(** * Identifiers and failures of the protocol crate

    [crates/protocol/src/error.rs] and [crates/protocol/src/ids.rs]: the stage
    and kind of a runtime failure, its message, and the numeric identifiers of
    turns, generations, sessions and utterances. *)

From S2P Require Import Prelude RustStr.

(** [protocol::error]. *)
Inductive RuntimeStage : Type :=
| Stage_Runtime
| Stage_PrivacyPolicy
| Stage_AudioCapture
| Stage_SpeechRecognizer
| Stage_LanguageModel
| Stage_SpeechSynthesizer
| Stage_AudioOutput
| Stage_VoiceSidecar
| Stage_ContinuousAudioOutput
| Stage_Memory.

Definition RuntimeStage_as_str (s : RuntimeStage) : rstr :=
  match s with
  | Stage_Runtime => lit "runtime"
  | Stage_PrivacyPolicy => lit "privacy_policy"
  | Stage_AudioCapture => lit "audio_capture"
  | Stage_SpeechRecognizer => lit "speech_recognizer"
  | Stage_LanguageModel => lit "language_model"
  | Stage_SpeechSynthesizer => lit "speech_synthesizer"
  | Stage_AudioOutput => lit "audio_output"
  | Stage_VoiceSidecar => lit "voice_sidecar"
  | Stage_ContinuousAudioOutput => lit "continuous_audio_output"
  | Stage_Memory => lit "memory"
  end.

Inductive RuntimeErrorKind : Type :=
| Kind_Adapter
| Kind_Configuration
| Kind_InvalidState.

Record RuntimeError : Type := RuntimeError_new {
  kind : RuntimeErrorKind;
  stage : RuntimeStage;
  message : rstr;
}.

(** [Result<T, RuntimeError>]. *)
Abbreviation rresult A := (result A RuntimeError) (only parsing).

(** [protocol::ids]: each identifier is a [u64]. *)
Record TurnId : Type := TurnId_new { TurnId_get : Z }.
Record GenerationId : Type := GenerationId_new { GenerationId_get : Z }.
Record SessionId : Type := SessionId_new { SessionId_get : Z }.
Record UtteranceId : Type := UtteranceId_new { UtteranceId_get : Z }.

#[export] Instance RuntimeStage_eq_dec : EqDecision RuntimeStage.
Proof. solve_decision. Defined.
#[export] Instance RuntimeErrorKind_eq_dec : EqDecision RuntimeErrorKind.
Proof. solve_decision. Defined.
#[export] Instance RuntimeError_eq_dec : EqDecision RuntimeError.
Proof. solve_decision. Defined.
#[export] Instance TurnId_eq_dec : EqDecision TurnId.
Proof. solve_decision. Defined.
#[export] Instance GenerationId_eq_dec : EqDecision GenerationId.
Proof. solve_decision. Defined.
#[export] Instance SessionId_eq_dec : EqDecision SessionId.
Proof. solve_decision. Defined.
#[export] Instance UtteranceId_eq_dec : EqDecision UtteranceId.
Proof. solve_decision. Defined.

(** [Display] of an identifier: its decimal value. *)
Definition TurnId_display (t : TurnId) : rstr := decimal (TurnId_get t).
Definition GenerationId_display (g : GenerationId) : rstr := decimal (GenerationId_get g).
