(* ===== verification/Segments.v ===== *)
(** * Segments of a text buffer

    Facts shared by the two components that cut streamed text at byte offsets
    ([PhraseChunker] and [UtteranceAssembler]): what makes a byte offset a
    usable end of a segment, and the last character start within a limit. *)

From S2P Require Import Prelude RustStr.

(** [end] cuts a non-empty segment of at most [limit] bytes off the front. *)
Definition segment_end (limit : Z) (buf : rstr) (e : Z) : Prop :=
  exists a b, buf = a ++ b /\ a <> [] /\ e = blen a /\ blen a <= limit.

(** The last character start at most [limit], or [acc] when there is none. *)
Fixpoint last_start_within (limit acc : Z) (cs : list (Z * rchar)) : Z :=
  match cs with
  | [] => acc
  | (index, _) :: cs' => if limit <? index then acc else last_start_within limit index cs'
  end.

(** What a sequence of cuts did: the segments cut off, in order. *)
Definition cuts (limit : Z) (segs : list rstr) (whole rest : rstr) : Prop :=
  whole = concat segs ++ rest /\ Forall (fun s => s <> [] /\ blen s <= limit) segs.

Lemma segment_end_split limit buf e :
  segment_end limit buf e ->
  exists a b, split_at_byte e buf = Some (a, b) /\ buf = a ++ b /\ a <> [] /\ blen a <= limit.
Proof.
  intros (a & b & -> & Ha & -> & Hl). exists a, b. split_and!; try done. apply split_at_byte_app.
Qed.

Lemma segment_end_whole limit buf : buf <> [] -> blen buf <= limit -> segment_end limit buf (blen buf).
Proof. intros Hb Hl. exists buf, []. by rewrite app_nil_r. Qed.

Lemma segment_end_char limit pre c post :
  blen pre + len_utf8 c <= limit -> segment_end limit (pre ++ c :: post) (blen pre + len_utf8 c).
Proof.
  intros H. exists (pre ++ [c]), post. rewrite <- app_assoc, blen_app. simpl.
  split_and!; [done| |lia|lia]. by destruct pre.
Qed.

Lemma last_start_within_suffix limit pre post acc :
  pre <> [] -> limit < blen (pre ++ post) ->
  (blen pre <= limit \/ segment_end limit (pre ++ post) acc) ->
  segment_end limit (pre ++ post) (last_start_within limit acc (char_indices_from (blen pre) post)).
Proof.
  revert pre acc. induction post as [|c post IH]; intros pre acc Hpre Hlen Hacc; simpl.
  - rewrite app_nil_r in Hlen. destruct Hacc as [?|?]; [lia|done].
  - split_ifs; [destruct Hacc; [lia|done]|].
    replace (blen pre + len_utf8 c) with (blen (pre ++ [c])) by (rewrite blen_app; simpl; lia).
    replace (pre ++ c :: post) with ((pre ++ [c]) ++ post) in * by by rewrite <- app_assoc.
    apply IH; [by destruct pre|done|]. right. exists pre, ([c] ++ post).
    rewrite app_assoc. done.
Qed.

(** When the buffer is longer than the limit and the limit holds any one
    character, the last character start within the limit ends a segment. *)
Lemma last_start_within_end limit buf :
  4 <= limit -> limit < blen buf ->
  segment_end limit buf (last_start_within limit 0 (char_indices buf)).
Proof.
  intros H4 Hlen. destruct buf as [|c buf]; [simpl in Hlen; lia|].
  pose proof (len_utf8_pos c). unfold char_indices. simpl. split_ifs; [lia|].
  replace (len_utf8 c) with (blen [c]) by (simpl; lia).
  apply (last_start_within_suffix limit [c] buf); [done|done|]. left. simpl. lia.
Qed.

Lemma cuts_nil limit buf : cuts limit [] buf buf.
Proof. split; [done|constructor]. Qed.

Lemma cuts_cons limit a segs b rest :
  a <> [] -> blen a <= limit -> cuts limit segs b rest -> cuts limit (a :: segs) (a ++ b) rest.
Proof. intros Ha Hl [-> Hs]. split; [simpl; by rewrite app_assoc|by constructor]. Qed.

Lemma cuts_app limit segs1 segs2 w1 r1 d r2 :
  cuts limit segs1 w1 r1 -> cuts limit segs2 (r1 ++ d) r2 -> cuts limit (segs1 ++ segs2) (w1 ++ d) r2.
Proof.
  intros [-> H1] [H2 H3]. split; [|by apply Forall_app].
  by rewrite concat_app, <- !app_assoc, H2.
Qed.

Lemma not_blank_nonempty s : is_blank s = false -> s <> [].
Proof. by destruct s. Qed.
