(* ===== verification/TurnFinalizer.v ===== *)
(** * Turn finalization

    [crates/runtime/src/turn_finalizer.rs], with the recognition hypotheses of
    [crates/model-adapters/src/recognition.rs] and the voice activity of
    [crates/protocol/src/voice_event.rs].

    The finalizer turns a stream of recognition hypotheses and voice activity
    into at most one final transcript per utterance: it keeps the last
    engine-final text of every recognition segment, waits for the configured
    silence after the end of speech, and then commits the concatenation.

    The theorems relate it to [Utterance], an abstract machine that keeps the
    list of the hypotheses heard and reads the text off it when the silence is
    over: the finalizer simulates it over every sequence of its operations. *)

From S2P Require Import Prelude RustStr Errors.

Record RecognitionHypothesis : Type := {
  hyp_segment_id : Z;
  hyp_text : rstr;
  hyp_engine_final : bool;
}.

Definition partial (segment_id : Z) (text : rstr) : RecognitionHypothesis :=
  {| hyp_segment_id := segment_id; hyp_text := text; hyp_engine_final := false |}.
Definition engine_final (segment_id : Z) (text : rstr) : RecognitionHypothesis :=
  {| hyp_segment_id := segment_id; hyp_text := text; hyp_engine_final := true |}.

Inductive VoiceActivity : Type :=
| SpeechStarted (at_ms : Z)
| SpeechContinued (at_ms : Z)
| SpeechEnded (at_ms : Z)
| CaptureDiscontinuity (at_ms : Z).

Record FinalizedTranscript : Type := {
  ft_segment_id : Z;
  ft_text : rstr;
}.

Record TurnFinalizer : Type := {
  final_silence_ms : Z;
  segment_id : option Z;
  committed : list rstr;
  display_candidate : option rstr;
  engine_final_candidate : option rstr;
  speech_ended_at_ms : option Z;
  finalized : bool;
}.

#[export] Instance RecognitionHypothesis_eq_dec : EqDecision RecognitionHypothesis.
Proof. solve_decision. Defined.
#[export] Instance FinalizedTranscript_eq_dec : EqDecision FinalizedTranscript.
Proof. solve_decision. Defined.

Definition new (final_silence_ms : Z) : rresult TurnFinalizer :=
  if final_silence_ms =? 0 then
    Err (RuntimeError_new Kind_Configuration Stage_Runtime
           (lit "turn finalization silence duration must be non-zero"))
  else
    Ok {| final_silence_ms := final_silence_ms;
          segment_id := None;
          committed := [];
          display_candidate := None;
          engine_final_candidate := None;
          speech_ended_at_ms := None;
          finalized := false |}.

Definition observe_hypothesis (f : TurnFinalizer) (value : RecognitionHypothesis) (at_ms : Z)
  : bool * TurnFinalizer :=
  if f.(finalized) || is_blank value.(hyp_text) then (false, f)
  else
    let id := value.(hyp_segment_id) in
    let text := value.(hyp_text) in
    let changed := negb (bool_decide (f.(segment_id) = Some id)) in
    let committed' :=
      if changed then
        match f.(engine_final_candidate) with
        | Some c => f.(committed) ++ [c]
        | None => f.(committed)
        end
      else f.(committed) in
    let candidate' := if changed then None else f.(engine_final_candidate) in
    (true,
     {| final_silence_ms := f.(final_silence_ms);
        segment_id := if changed then Some id else f.(segment_id);
        committed := committed';
        display_candidate := Some text;
        engine_final_candidate := if value.(hyp_engine_final) then Some text else candidate';
        speech_ended_at_ms := f.(speech_ended_at_ms);
        finalized := f.(finalized) |}).

Definition observe_activity (f : TurnFinalizer) (value : VoiceActivity) : TurnFinalizer :=
  match value with
  | SpeechStarted at_ms =>
      let previous_utterance_expired :=
        is_some_and f.(speech_ended_at_ms)
          (fun ended_at_ms => saturating_add ended_at_ms f.(final_silence_ms) <=? at_ms) in
      if f.(finalized) || previous_utterance_expired then
        {| final_silence_ms := f.(final_silence_ms);
           segment_id := None;
           committed := [];
           display_candidate := None;
           engine_final_candidate := None;
           speech_ended_at_ms := None;
           finalized := false |}
      else
        {| final_silence_ms := f.(final_silence_ms);
           segment_id := f.(segment_id);
           committed := f.(committed);
           display_candidate := f.(display_candidate);
           engine_final_candidate := f.(engine_final_candidate);
           speech_ended_at_ms := None;
           finalized := f.(finalized) |}
  | SpeechContinued _ =>
      {| final_silence_ms := f.(final_silence_ms);
         segment_id := f.(segment_id);
         committed := f.(committed);
         display_candidate := f.(display_candidate);
         engine_final_candidate := f.(engine_final_candidate);
         speech_ended_at_ms := None;
         finalized := f.(finalized) |}
  | SpeechEnded at_ms =>
      {| final_silence_ms := f.(final_silence_ms);
         segment_id := f.(segment_id);
         committed := f.(committed);
         display_candidate := f.(display_candidate);
         engine_final_candidate := f.(engine_final_candidate);
         speech_ended_at_ms := Some at_ms;
         finalized := f.(finalized) |}
  | CaptureDiscontinuity _ => f
  end.

Definition observe_discontinuity (f : TurnFinalizer) : TurnFinalizer :=
  {| final_silence_ms := f.(final_silence_ms);
     segment_id := None;
     committed := [];
     display_candidate := None;
     engine_final_candidate := None;
     speech_ended_at_ms := None;
     finalized := false |}.

Definition display_text (f : TurnFinalizer) : option rstr := f.(display_candidate).

Definition remaining_silence_ms (f : TurnFinalizer) (now_ms : Z) : option Z :=
  if f.(finalized) then None
  else match f.(speech_ended_at_ms) with
       | Some ended_at_ms =>
           Some (saturating_sub (saturating_add ended_at_ms f.(final_silence_ms)) now_ms)
       | None => None
       end.

Definition finalize_ready (f : TurnFinalizer) (now_ms : Z)
  : option FinalizedTranscript * TurnFinalizer :=
  if f.(finalized) then (None, f)
  else match f.(segment_id), f.(speech_ended_at_ms) with
       | Some id, Some ended_at_ms =>
           if now_ms <? saturating_add ended_at_ms f.(final_silence_ms) then (None, f)
           else match f.(engine_final_candidate) with
                | Some candidate =>
                    let text := str_concat f.(committed) ++ candidate in
                    if is_blank text then (None, f)
                    else
                      (Some {| ft_segment_id := id; ft_text := text |},
                       {| final_silence_ms := f.(final_silence_ms);
                          segment_id := f.(segment_id);
                          committed := f.(committed);
                          display_candidate := f.(display_candidate);
                          engine_final_candidate := f.(engine_final_candidate);
                          speech_ended_at_ms := f.(speech_ended_at_ms);
                          finalized := true |})
                | None => (None, f)
                end
       | _, _ => (None, f)
       end.

(** ** Traces of operations *)

Inductive op : Type :=
| Op_hypothesis (value : RecognitionHypothesis) (at_ms : Z)
| Op_activity (value : VoiceActivity)
| Op_discontinuity
| Op_finalize (now_ms : Z).

(** One call, with the transcript it commits, if any. *)
Definition step (f : TurnFinalizer) (o : op) : option FinalizedTranscript * TurnFinalizer :=
  match o with
  | Op_hypothesis v at_ms => (None, snd (observe_hypothesis f v at_ms))
  | Op_activity v => (None, observe_activity f v)
  | Op_discontinuity => (None, observe_discontinuity f)
  | Op_finalize now_ms => finalize_ready f now_ms
  end.

(** A sequence of calls, with everything they commit, oldest first. *)
Fixpoint run (f : TurnFinalizer) (ops : list op) : list FinalizedTranscript * TurnFinalizer :=
  match ops with
  | [] => ([], f)
  | o :: ops' =>
      let '(out, f1) := step f o in
      let '(outs, f2) := run f1 ops' in
      (match out with Some t => t :: outs | None => outs end, f2)
  end.

(** An operation that can open the next utterance. *)
Definition opens_utterance (o : op) : bool :=
  match o with
  | Op_activity (SpeechStarted _) | Op_discontinuity => true
  | _ => false
  end.

(** ** The abstract utterance: what its hypotheses say *)

(** The last engine-final text of each maximal run of hypotheses of one
    segment, with the segment of the last run. A partial hypothesis opens a run
    without contributing text. *)
Fixpoint segment_runs (current : option (Z * option rstr)) (done : list rstr)
    (hs : list RecognitionHypothesis) : list rstr * option (Z * option rstr) :=
  match hs with
  | [] => (done, current)
  | h :: hs' =>
      let final := if h.(hyp_engine_final) then Some h.(hyp_text) else None in
      match current with
      | Some (id, last_final) =>
          if id =? h.(hyp_segment_id)
          then segment_runs (Some (id, opt_or final last_final)) done hs'
          else segment_runs (Some (h.(hyp_segment_id), final))
                 (done ++ match last_final with Some t => [t] | None => [] end) hs'
      | None => segment_runs (Some (h.(hyp_segment_id), final)) done hs'
      end
  end.

(** The text of an utterance: every earlier segment's final, then the last
    segment's, which must have one. *)
Definition utterance_text (hs : list RecognitionHypothesis) : option FinalizedTranscript :=
  match segment_runs None [] hs with
  | (earlier, Some (id, Some last_final)) =>
      Some {| ft_segment_id := id; ft_text := concat earlier ++ last_final |}
  | _ => None
  end.

(** The utterance being heard: its hypotheses in the order they arrived, the
    time since when the speaker is silent, and whether its transcript was
    given. *)
Record Utterance : Type := {
  u_heard : list RecognitionHypothesis;
  u_silent_since : option Z;
  u_given : bool;
}.

Definition fresh_utterance : Utterance :=
  {| u_heard := []; u_silent_since := None; u_given := false |}.

(** The silence of [silence] ms after the end of speech is over at [now]. *)
Definition silence_over (silence : Z) (u : Utterance) (now : Z) : bool :=
  match u.(u_silent_since) with
  | Some ended => saturating_add ended silence <=? now
  | None => false
  end.

(** A hypothesis is heard unless it is blank or its utterance is over. *)
Definition hears (u : Utterance) (h : RecognitionHypothesis) : bool :=
  negb u.(u_given) && negb (is_blank h.(hyp_text)).

(** One call on the abstract utterance: speech after a given transcript or
    after the silence belongs to the next utterance, a discontinuity forgets
    what was heard, and the transcript is given once, when the silence is
    over. *)
Definition utterance_step (silence : Z) (u : Utterance) (o : op)
  : option FinalizedTranscript * Utterance :=
  match o with
  | Op_hypothesis h _ =>
      (None, if hears u h
             then {| u_heard := u.(u_heard) ++ [h];
                     u_silent_since := u.(u_silent_since); u_given := false |}
             else u)
  | Op_activity (SpeechStarted at_ms) =>
      (None, if u.(u_given) || silence_over silence u at_ms then fresh_utterance
             else {| u_heard := u.(u_heard); u_silent_since := None; u_given := false |})
  | Op_activity (SpeechContinued _) =>
      (None, {| u_heard := u.(u_heard); u_silent_since := None; u_given := u.(u_given) |})
  | Op_activity (SpeechEnded at_ms) =>
      (None, {| u_heard := u.(u_heard); u_silent_since := Some at_ms; u_given := u.(u_given) |})
  | Op_activity (CaptureDiscontinuity _) => (None, u)
  | Op_discontinuity => (None, fresh_utterance)
  | Op_finalize now =>
      if negb u.(u_given) && silence_over silence u now then
        match utterance_text u.(u_heard) with
        | Some t => (Some t, {| u_heard := u.(u_heard);
                                u_silent_since := u.(u_silent_since); u_given := true |})
        | None => (None, u)
        end
      else (None, u)
  end.

Fixpoint utterance_run (silence : Z) (u : Utterance) (ops : list op)
  : list FinalizedTranscript * Utterance :=
  match ops with
  | [] => ([], u)
  | o :: ops' =>
      let '(out, u1) := utterance_step silence u o in
      let '(outs, u2) := utterance_run silence u1 ops' in
      (match out with Some t => t :: outs | None => outs end, u2)
  end.

(** ** Invariant *)

(** A finalized utterance has a segment, a silence mark and a non-blank text;
    every kept text is non-blank. *)
Definition wf (f : TurnFinalizer) : Prop :=
  f.(final_silence_ms) <> 0 /\
  Forall (fun t => is_blank t = false) f.(committed) /\
  (forall t, f.(engine_final_candidate) = Some t -> is_blank t = false) /\
  (f.(engine_final_candidate) <> None -> f.(segment_id) <> None) /\
  (f.(segment_id) = None -> f.(committed) = []) /\
  (f.(finalized) = true -> f.(engine_final_candidate) <> None).

(** The time of the last end of speech that no later activity undid. *)
Definition speech_end_after (ended : option Z) (o : op) : option Z :=
  match o with
  | Op_activity (SpeechEnded t) => Some t
  | Op_activity (SpeechStarted _) | Op_activity (SpeechContinued _) | Op_discontinuity => None
  | _ => ended
  end.

(** ** Simulation between the finalizer and the abstract utterance *)

Definition abs_current (f : TurnFinalizer) : option (Z * option rstr) :=
  match f.(segment_id) with
  | Some id => Some (id, f.(engine_final_candidate))
  | None => None
  end.

Lemma new_fresh s f : new s = Ok f ->
  f.(final_silence_ms) = s /\ f.(segment_id) = None /\ f.(committed) = [] /\
  f.(engine_final_candidate) = None /\ f.(speech_ended_at_ms) = None /\ f.(finalized) = false.
Proof. unfold new. intros H. split_ifs_in H; by simplify_eq/=. Qed.

Lemma new_wf s f : new s = Ok f -> wf f.
Proof. unfold new. intros H. split_ifs_in H; simplify_eq/=. split_and!; simpl; try done. Qed.

Lemma segment_runs_snoc hs h current earlier :
  segment_runs current earlier (hs ++ [h]) =
  let '(earlier', current') := segment_runs current earlier hs in
  segment_runs current' earlier' [h].
Proof.
  revert current earlier. induction hs as [|h0 hs IH]; intros current earlier; [done|].
  cbn [segment_runs app]. destruct current as [[id last_final]|]; [|apply IH].
  destruct (id =? hyp_segment_id h0); apply IH.
Qed.

(** The finalizer keeps of an utterance what is needed to give its transcript. *)
Record Represents (silence : Z) (u : Utterance) (f : TurnFinalizer) : Prop := {
  rep_silence : f.(final_silence_ms) = silence;
  rep_runs : segment_runs None [] u.(u_heard) = (f.(committed), abs_current f);
  rep_candidate : f.(segment_id) = None -> f.(engine_final_candidate) = None;
  rep_not_blank : forall t, f.(engine_final_candidate) = Some t -> is_blank t = false;
  rep_display : f.(display_candidate) = hyp_text <$> last u.(u_heard);
  rep_ended : f.(speech_ended_at_ms) = u.(u_silent_since);
  rep_given : f.(finalized) = u.(u_given);
}.

Lemma Represents_fresh silence f :
  f.(final_silence_ms) = silence -> f.(segment_id) = None -> f.(committed) = [] ->
  f.(display_candidate) = None -> f.(engine_final_candidate) = None ->
  f.(speech_ended_at_ms) = None -> f.(finalized) = false ->
  Represents silence fresh_utterance f.
Proof.
  intros H1 H2 H3 H4 H5 H6 H7.
  constructor; cbn; unfold abs_current; by rewrite ?H2, ?H3, ?H5.
Qed.

Lemma observe_hypothesis_represents silence u f h t :
  Represents silence u f ->
  fst (observe_hypothesis f h t) = hears u h /\
  Represents silence (snd (utterance_step silence u (Op_hypothesis h t)))
    (snd (observe_hypothesis f h t)).
Proof.
  intros R. pose proof R as [R1 R2 R3 R4 R5 R6 R7]. unfold observe_hypothesis, hears. cbn [utterance_step snd].
  unfold hears. rewrite <- R7.
  destruct (finalized f) eqn:Ef; [done|]. destruct (is_blank (hyp_text h)) eqn:Eb; [done|].
  cbn [orb negb andb]. split; [done|]. constructor; cbn; try done; [|..].
  - rewrite segment_runs_snoc, R2. unfold abs_current. cbn.
    destruct (segment_id f) as [id|] eqn:Es.
    + case_bool_decide as Hid; cbn [negb]; simplify_eq.
      * rewrite Z.eqb_refl. by destruct (hyp_engine_final h).
      * rewrite (proj2 (Z.eqb_neq _ _)) by congruence.
        destruct (hyp_engine_final h), (engine_final_candidate f); by rewrite ?app_nil_r.
    + rewrite (R3 eq_refl), bool_decide_eq_false_2 by done. by destruct (hyp_engine_final h).
  - by case_bool_decide as Hid; cbn [negb]; rewrite ?Hid.
  - intros t0. destruct (hyp_engine_final h); [intros; by simplify_eq|].
    destruct (negb _); [done|]. apply R4.
  - by rewrite last_snoc.
Qed.

Lemma observe_activity_represents silence u f v :
  Represents silence u f ->
  Represents silence (snd (utterance_step silence u (Op_activity v))) (observe_activity f v).
Proof.
  intros R. pose proof R as [R1 R2 R3 R4 R5 R6 R7]. destruct v; cbn; [|by constructor|by constructor|done].
  rewrite R7. unfold silence_over. rewrite R6, R1.
  replace (is_some_and _ _) with (match u_silent_since u with
    | Some ended => saturating_add ended silence <=? at_ms | None => false end)
    by by destruct (u_silent_since u).
  destruct (u_given u) eqn:Eg; [by apply Represents_fresh|]. cbn [orb].
  destruct (match u_silent_since u with Some _ => _ | None => _ end);
    [by apply Represents_fresh|by constructor].
Qed.

Lemma str_concat_not_blank ts t :
  is_blank t = false -> is_blank (str_concat ts ++ t) = false.
Proof. intros H. by rewrite is_blank_app, H, andb_false_r. Qed.

Lemma finalize_ready_represents silence u f now :
  Represents silence u f ->
  fst (finalize_ready f now) = fst (utterance_step silence u (Op_finalize now)) /\
  Represents silence (snd (utterance_step silence u (Op_finalize now)))
    (snd (finalize_ready f now)).
Proof.
  intros R. pose proof R as [R1 R2 R3 R4 R5 R6 R7]. unfold finalize_ready. cbn [utterance_step].
  unfold silence_over, utterance_text. rewrite R7, R2, R6, R1. unfold abs_current.
  destruct (u_given u) eqn:Eg; [done|]. cbn [negb andb].
  destruct (segment_id f) as [id|] eqn:Es.
  2: { destruct (match u_silent_since u with Some _ => _ | None => _ end); done. }
  destruct (u_silent_since u) as [ended|] eqn:Ee; [|done].
  rewrite Z.ltb_antisym. destruct (saturating_add ended silence <=? now); [|done]. cbn [negb].
  destruct (engine_final_candidate f) as [c|] eqn:Ec; [|done].
  rewrite str_concat_not_blank by eauto.
  split; [done|]. constructor; cbn; unfold abs_current; cbn; rewrite ?Es, ?Ec; try done.
  rewrite R2. unfold abs_current. by rewrite Es, Ec.
Qed.

Lemma step_represents silence u f o :
  Represents silence u f ->
  fst (step f o) = fst (utterance_step silence u o) /\
  Represents silence (snd (utterance_step silence u o)) (snd (step f o)).
Proof.
  intros R. destruct o as [h t|v| |now]; cbn [step fst snd].
  - split; [done|]. by apply observe_hypothesis_represents.
  - split; [by destruct v|]. by apply observe_activity_represents.
  - split; [done|]. apply Represents_fresh; try done. apply R.
  - by apply finalize_ready_represents.
Qed.

Lemma run_represents silence ops u f :
  Represents silence u f ->
  fst (run f ops) = fst (utterance_run silence u ops) /\
  Represents silence (snd (utterance_run silence u ops)) (snd (run f ops)).
Proof.
  revert u f. induction ops as [|o ops IH]; intros u f R; [done|].
  cbn [run utterance_run]. destruct (step_represents silence u f o R) as [H1 H2].
  destruct (step f o) as [out f1], (utterance_step silence u o) as [out' u1]. cbn in H1, H2. subst out'.
  destruct (IH u1 f1 H2) as [H3 H4].
  destruct (run f1 ops), (utterance_run silence u1 ops). cbn in *. by subst.
Qed.

Lemma observe_hypothesis_wf f h t : wf f -> wf (snd (observe_hypothesis f h t)).
Proof.
  intros (H1 & H2 & H3 & H4 & H5 & H6). unfold observe_hypothesis.
  destruct (finalized f || is_blank (hyp_text h)) eqn:E; [done|]. breflect.
  unfold wf; cbn. split_and!; try done.
  - destruct (negb _); [|done]. destruct (engine_final_candidate f) eqn:Ec; [|done].
    apply Forall_app. split; [done|]. constructor; [|done]. by apply H3.
  - intros t0. destruct (hyp_engine_final h); [intros; by simplify_eq|].
    destruct (negb _); [done|]. apply H3.
  - intros _. destruct (segment_id f) eqn:Es; case_bool_decide; done.
  - destruct (segment_id f) eqn:Es; case_bool_decide; done.
  - congruence.
Qed.

Lemma observe_activity_wf f v : wf f -> wf (observe_activity f v).
Proof.
  intros (H1 & H2 & H3 & H4 & H5 & H6). destruct v; cbn; [|done..].
  split_ifs; unfold wf; cbn; split_and!; done.
Qed.

Lemma observe_discontinuity_wf f : wf f -> wf (observe_discontinuity f).
Proof. intros (H1 & _). unfold wf; cbn; split_and!; done. Qed.

Lemma finalize_ready_wf f now : wf f -> wf (snd (finalize_ready f now)).
Proof.
  intros Hwf. unfold finalize_ready.
  destruct (finalized f) eqn:?, (segment_id f) eqn:?, (speech_ended_at_ms f) eqn:?; try done.
  split_ifs; [done|]. destruct (engine_final_candidate f) eqn:Ec; [|done]. split_ifs; [done|].
  destruct Hwf as (H1 & H2 & H3 & H4 & H5 & H6). unfold wf; cbn.
  rewrite Ec in *. split_and!; naive_solver.
Qed.

Lemma step_wf f o : wf f -> wf (snd (step f o)).
Proof.
  destruct o; simpl; eauto using observe_hypothesis_wf, observe_activity_wf,
    observe_discontinuity_wf, finalize_ready_wf.
Qed.

Lemma run_wf f ops : wf f -> wf (snd (run f ops)).
Proof.
  revert f. induction ops as [|o ops IH]; intros f H; simpl; [done|].
  pose proof (step_wf f o H) as Hs. destruct (step f o) as [out f1]. simpl in Hs.
  specialize (IH f1 Hs). by destruct (run f1 ops).
Qed.

(** Committing is possible exactly when the gate is open. *)
Lemma finalize_ready_Some f now t f' :
  finalize_ready f now = (Some t, f') ->
  f.(finalized) = false /\ f'.(finalized) = true /\
  exists ended, f.(speech_ended_at_ms) = Some ended /\
    saturating_add ended f.(final_silence_ms) <= now.
Proof.
  unfold finalize_ready. intros H.
  destruct (finalized f) eqn:?, (segment_id f) eqn:?, (speech_ended_at_ms f) as [e|] eqn:?; try done.
  split_ifs_in H; [done|]. destruct (engine_final_candidate f) eqn:?; [|done].
  split_ifs_in H; simplify_eq/=. eauto.
Qed.

Lemma finalize_ready_None f now f' :
  finalize_ready f now = (None, f') -> f' = f.
Proof.
  unfold finalize_ready. intros H.
  destruct (finalized f) eqn:?, (segment_id f) eqn:?, (speech_ended_at_ms f) as [e|] eqn:?; try by simplify_eq.
  split_ifs_in H; [by simplify_eq|]. destruct (engine_final_candidate f) eqn:?; [|by simplify_eq].
  split_ifs_in H; by simplify_eq.
Qed.

Lemma step_finalized f o out f1 :
  step f o = (out, f1) ->
  (match out with Some _ => 1%nat | None => 0%nat end +
   (if f1.(finalized) then 0 else 1) <=
   (if f.(finalized) then 0 else 1) + (if opens_utterance o then 1 else 0))%nat.
Proof.
  destruct o as [v t|v| |now]; simpl; intros H.
  - simplify_eq. unfold observe_hypothesis. destruct (finalized f) eqn:E; simpl; [by rewrite E|].
    destruct (is_blank _); simpl; rewrite ?E; lia.
  - simplify_eq. destruct v; simpl; try (destruct (finalized f); lia).
    destruct (finalized f); simpl; [lia|]. destruct (is_some_and _ _); simpl; lia.
  - simplify_eq. simpl. lia.
  - destruct out as [t|].
    + apply finalize_ready_Some in H as (-> & -> & _). lia.
    + apply finalize_ready_None in H as ->. lia.
Qed.

Lemma run_commit_bound f ops :
  (length (fst (run f ops)) + (if (snd (run f ops)).(finalized) then 0 else 1) <=
   (if f.(finalized) then 0 else 1) + length (List.filter opens_utterance ops))%nat.
Proof.
  revert f. induction ops as [|o ops IH]; intros f; simpl; [lia|].
  destruct (step f o) as [out f1] eqn:Es. apply step_finalized in Es. specialize (IH f1).
  destruct (run f1 ops) as [outs f2]. simpl in *.
  destruct out, (opens_utterance o); simpl in *; lia.
Qed.

Lemma step_speech_end f o :
  (snd (step f o)).(speech_ended_at_ms) = speech_end_after f.(speech_ended_at_ms) o /\
  (snd (step f o)).(final_silence_ms) = f.(final_silence_ms).
Proof.
  destruct o as [v t|v| |now]; simpl.
  - unfold observe_hypothesis. by split_ifs.
  - destruct v; simpl; try done. by split_ifs.
  - done.
  - destruct (finalize_ready f now) as [[t|] f'] eqn:E; [|by apply finalize_ready_None in E as ->].
    revert E. unfold finalize_ready. intros H.
    destruct (finalized f), (segment_id f), (speech_ended_at_ms f) eqn:?; try done.
    split_ifs_in H; [done|]. destruct (engine_final_candidate f); [|done].
    split_ifs_in H; by simplify_eq/=.
Qed.

Lemma run_speech_end ops f :
  (snd (run f ops)).(speech_ended_at_ms) = fold_left speech_end_after ops f.(speech_ended_at_ms) /\
  (snd (run f ops)).(final_silence_ms) = f.(final_silence_ms).
Proof.
  revert f. induction ops as [|o ops IH]; intros f; simpl; [done|].
  destruct (step_speech_end f o) as [H1 H2]. destruct (step f o) as [out f1]. simpl in *.
  specialize (IH f1). destruct (run f1 ops). simpl in *. by rewrite <- H1, <- H2.
Qed.

(** ** Properties *)

(** C14. Refinement: over every sequence of calls (hypotheses, voice activity,
    discontinuities and finalizations in any order, any number of utterances) a
    new finalizer commits exactly the transcripts the abstract utterance gives,
    in the same order: once per utterance, when the configured silence since
    the last end of speech is over, the last engine-final text of every
    recognition segment heard since the utterance began, and nothing when the
    last segment has only partial hypotheses. After the calls it shows the last
    hypothesis heard, accepts exactly the hypotheses the utterance hears, and
    announces the silence still to wait, or none when the transcript was given
    or the speaker is not silent. *)
Theorem finalizer_refines_utterance silence f0 ops :
  new silence = Ok f0 ->
  let f := snd (run f0 ops) in
  let u := snd (utterance_run silence fresh_utterance ops) in
  fst (run f0 ops) = fst (utterance_run silence fresh_utterance ops) /\
  display_text f = hyp_text <$> last u.(u_heard) /\
  (forall h at_ms, fst (observe_hypothesis f h at_ms) = hears u h) /\
  (forall now, remaining_silence_ms f now =
     if u.(u_given) then None
     else (fun ended => saturating_sub (saturating_add ended silence) now)
            <$> u.(u_silent_since)).
Proof.
  intros Hnew. destruct (run_represents silence ops fresh_utterance f0) as [Hout R].
  { revert Hnew. unfold new. intros H. split_ifs_in H; simplify_eq. by apply Represents_fresh. }
  split_and!; [done|apply R|intros h t; by apply (observe_hypothesis_represents silence)|].
  intros now. unfold remaining_silence_ms.
  rewrite (rep_given _ _ _ R), (rep_ended _ _ _ R), (rep_silence _ _ _ R).
  by repeat case_match.
Qed.

(** Two utterances, one with two segments and a blank hypothesis, then one cut
    by a discontinuity, then a second transcript. *)
Lemma finalizer_refines_utterance_witness :
  let ops :=
    [Op_hypothesis (engine_final 1 (lit " early")) 0; Op_hypothesis (partial 2 (lit " la")) 10;
     Op_activity (SpeechEnded 50); Op_activity (SpeechContinued 60); Op_finalize 700;
     Op_hypothesis (partial 2 (lit "  ")) 710; Op_hypothesis (engine_final 2 (lit " late")) 720;
     Op_activity (SpeechEnded 750); Op_finalize 1349; Op_finalize 1350; Op_finalize 1400;
     Op_activity (SpeechStarted 1500); Op_hypothesis (engine_final 3 (lit "lost")) 1510;
     Op_discontinuity; Op_hypothesis (engine_final 4 (lit "kept")) 1600;
     Op_activity (SpeechEnded 1700); Op_finalize 2300] in
  exists f0, new 600 = Ok f0 /\
    fst (run f0 ops) =
      [{| ft_segment_id := 2; ft_text := lit " early late" |};
       {| ft_segment_id := 4; ft_text := lit "kept" |}].
Proof.
  intros ops. eexists. split; [reflexivity|].
  rewrite (proj1 (finalizer_refines_utterance 600 _ ops eq_refl)). vm_compute. reflexivity.
Defined.

(** At most one transcript is committed per utterance: over any sequence of
    calls, the number of commits is at most one more than the number of speech
    starts and discontinuities, the only operations that open an utterance. *)
Theorem finalizer_one_commit_per_utterance f ops :
  (length (fst (run f ops)) <= S (length (List.filter opens_utterance ops)))%nat.
Proof. pose proof (run_commit_bound f ops). destruct (finalized f); lia. Qed.

(** The silence gate: whatever calls came before, a commit at [now_ms]
    means that the last activity was an end of speech, that no speech start,
    continuation or discontinuity came after it, and that the whole configured
    silence has passed on the clock; the remaining silence is then zero. *)
Theorem finalizer_silence_gate silence f0 ops now t :
  new silence = Ok f0 ->
  fst (finalize_ready (snd (run f0 ops)) now) = Some t ->
  exists ended, fold_left speech_end_after ops None = Some ended /\
    saturating_add ended silence <= now /\
    remaining_silence_ms (snd (run f0 ops)) now = Some 0.
Proof.
  intros Hnew Hfin. destruct (new_fresh _ _ Hnew) as (Hs & _ & _ & _ & Hsp & _).
  destruct (run_speech_end ops f0) as [Hend Hsil]. set (f := snd (run f0 ops)) in *.
  destruct (finalize_ready f now) as [o f'] eqn:E. simpl in Hfin. subst o.
  apply finalize_ready_Some in E as (Hf & _ & ended & Hen & Hle).
  exists ended. rewrite <- Hsp, <- Hend, Hen. rewrite Hsil, Hs in Hle. split_and!; [done|done|].
  unfold remaining_silence_ms. rewrite Hf, Hen, Hsil, Hs. f_equal. unfold saturating_sub. lia.
Qed.

Lemma finalizer_silence_gate_witness :
  exists f0 t, new 600 = Ok f0 /\
    let ops := [Op_hypothesis (engine_final 1 (lit "hi")) 0; Op_activity (SpeechEnded 50)] in
    fst (finalize_ready (snd (run f0 ops)) 650) = Some t /\
    exists ended, fold_left speech_end_after ops None = Some ended /\
      saturating_add ended 600 <= 650 /\
      remaining_silence_ms (snd (run f0 ops)) 650 = Some 0.
Proof.
  do 2 eexists. split; [reflexivity|]. split; [reflexivity|].
  apply (finalizer_silence_gate 600 _ _ 650 {| ft_segment_id := 1; ft_text := lit "hi" |});
    reflexivity.
Defined.
