(* ===== verification/PhraseChunker.v ===== *)
(** * Phrase chunking

    [crates/runtime/src/phrase_chunker.rs]: streamed text deltas are cut into
    phrases for speech synthesis, preferring sentence ends, then soft
    boundaries, then the last character that fits the hard byte limit.

    The theorems show that the chunker never panics or loops, that it loses
    nothing but surrounding whitespace, and that no phrase exceeds the limit. *)

From S2P Require Import Prelude RustStr Errors Segments.

Definition DEFAULT_SOFT_LIMIT_BYTES : Z := 96.
Definition DEFAULT_HARD_LIMIT_BYTES : Z := 192.
Definition MAX_UTF8_SCALAR_BYTES : Z := 4.

Record PhraseChunkingConfig : Type := {
  soft_limit_bytes : Z;
  hard_limit_bytes : Z;
}.

Definition configuration_error (message : rstr) : RuntimeError :=
  RuntimeError_new Kind_Configuration Stage_Runtime message.

Definition PhraseChunkingConfig_new (soft hard : Z) : rresult PhraseChunkingConfig :=
  if soft =? 0 then
    Err (configuration_error (lit "phrase soft byte limit must be non-zero"))
  else if hard =? 0 then
    Err (configuration_error (lit "phrase hard byte limit must be non-zero"))
  else if hard <? soft then
    Err (configuration_error (lit "phrase soft byte limit must not exceed hard byte limit"))
  else if hard <? MAX_UTF8_SCALAR_BYTES then
    Err (configuration_error
      (lit "phrase hard byte limit must be at least 4 to preserve UTF-8 scalar boundaries"))
  else Ok {| soft_limit_bytes := soft; hard_limit_bytes := hard |}.

Definition PhraseChunkingConfig_default : PhraseChunkingConfig :=
  {| soft_limit_bytes := DEFAULT_SOFT_LIMIT_BYTES; hard_limit_bytes := DEFAULT_HARD_LIMIT_BYTES |}.

Record PhraseChunker : Type := {
  config : PhraseChunkingConfig;
  buffer : rstr;
}.

Definition PhraseChunker_new (config : PhraseChunkingConfig) : PhraseChunker :=
  {| config := config; buffer := [] |}.

Definition is_sentence_boundary (character : rchar) : bool :=
  char_in (lit ".!?。！？") character.

Definition is_soft_boundary (character : rchar) : bool :=
  is_whitespace character || char_in (lit ",:;，：；") character.

Definition hard_split_end (c : PhraseChunker) : Z :=
  if blen c.(buffer) <=? c.(config).(hard_limit_bytes) then blen c.(buffer)
  else
    let end_ := last_start_within c.(config).(hard_limit_bytes) 0 (char_indices c.(buffer)) in
    if end_ =? 0 then
      match nth_error (char_indices c.(buffer)) 1 with
      | Some (index, _) => index
      | None => blen c.(buffer)
      end
    else end_.

(** The loop of [next_segment_end] over the characters: [inl] is an early
    return at the hard limit, [inr] the boundaries seen when the buffer ends. *)
Fixpoint scan (c : PhraseChunker) (preferred_end soft_end eligible_soft_end : option Z)
    (cs : list (Z * rchar)) : option Z + option Z * option Z :=
  match cs with
  | [] => inr (preferred_end, eligible_soft_end)
  | (index, character) :: cs' =>
      let end_ := index + len_utf8 character in
      if c.(config).(hard_limit_bytes) <? end_ then
        inl (opt_or preferred_end (opt_or soft_end (Some (hard_split_end c))))
      else
        let preferred_end :=
          if (character =? 0x0A) || is_sentence_boundary character
          then Some end_ else preferred_end in
        let soft_end' := if is_soft_boundary character then Some end_ else soft_end in
        let eligible_soft_end :=
          if is_soft_boundary character && (c.(config).(soft_limit_bytes) <=? end_)
          then Some end_ else eligible_soft_end in
        if c.(config).(hard_limit_bytes) <=? end_ then
          inl (opt_or preferred_end (opt_or soft_end' (Some (hard_split_end c))))
        else scan c preferred_end soft_end' eligible_soft_end cs'
  end.

Definition next_segment_end (c : PhraseChunker) : option Z :=
  match scan c None None None (char_indices c.(buffer)) with
  | inl r => r
  | inr (preferred_end, eligible_soft_end) =>
      if c.(config).(soft_limit_bytes) <=? blen c.(buffer)
      then opt_or preferred_end eligible_soft_end
      else None
  end.

(** [self.buffer.drain(..end)] panics off a character boundary. *)
Definition drain_segment (c : PhraseChunker) (end_ : Z) : exec (option rstr * PhraseChunker) :=
  let! '(segment, rest) := expect (split_at_byte end_ c.(buffer)) in
  let segment := trim segment in
  Val (if is_empty segment then None else Some segment,
       {| config := c.(config); buffer := rest |}).

Fixpoint push_loop (fuel : nat) (c : PhraseChunker) (phrases : list rstr)
  : exec (list rstr * PhraseChunker) :=
  match next_segment_end c with
  | None => Val (phrases, c)
  | Some end_ =>
      match fuel with
      | O => Fuel_out
      | S fuel' =>
          let! '(phrase, c') := drain_segment c end_ in
          push_loop fuel' c'
            (match phrase with Some p => phrases ++ [p] | None => phrases end)
      end
  end.

(** Every turn of the loop drains at least one character, so the length of the
    buffer is enough fuel. *)
Definition push_delta (c : PhraseChunker) (delta : rstr) : exec (list rstr * PhraseChunker) :=
  let c := {| config := c.(config); buffer := c.(buffer) ++ delta |} in
  push_loop (length c.(buffer)) c [].

Definition finish (c : PhraseChunker) : exec (option rstr) :=
  let! '(phrase, _) := drain_segment c (blen c.(buffer)) in
  Val phrase.

(** A whole stream: every delta, then the end of the text. *)
Fixpoint stream (c : PhraseChunker) (deltas : list rstr) : exec (list rstr) :=
  match deltas with
  | [] =>
      let! last := finish c in
      Val (match last with Some p => [p] | None => [] end)
  | d :: deltas' =>
      let! '(phrases, c') := push_delta c d in
      let! rest := stream c' deltas' in
      Val (phrases ++ rest)
  end.

(** ** Invariants *)

(** A configuration accepted by [PhraseChunkingConfig_new]. *)
Definition valid_config (cfg : PhraseChunkingConfig) : Prop :=
  0 < cfg.(soft_limit_bytes) <= cfg.(hard_limit_bytes) /\ 4 <= cfg.(hard_limit_bytes).

(** The phrases spoken for a list of cut segments: trimmed, blank ones dropped. *)
Definition phrases_of (segs : list rstr) : list rstr :=
  List.filter (fun p => negb (is_empty p)) (map trim segs).

Lemma PhraseChunkingConfig_new_valid soft hard cfg :
  0 <= soft -> 0 <= hard -> PhraseChunkingConfig_new soft hard = Ok cfg -> valid_config cfg.
Proof.
  intros Hs Hh H. unfold PhraseChunkingConfig_new, MAX_UTF8_SCALAR_BYTES in H.
  split_ifs_in H; simplify_eq. unfold valid_config. simpl. lia.
Qed.

Lemma hard_split_end_ok c :
  valid_config c.(config) -> c.(buffer) <> [] ->
  segment_end c.(config).(hard_limit_bytes) c.(buffer) (hard_split_end c).
Proof.
  intros [Hc H4] Hb. unfold hard_split_end. split_ifs.
  - by apply segment_end_whole.
  - destruct (last_start_within_end (hard_limit_bytes (config c)) (buffer c) H4)
      as (a & b & _ & Ha & He & _); [lia|]. destruct Ha. apply blen_0. congruence.
  - by apply last_start_within_end.
Qed.

(** Both early returns pick a boundary seen so far, or the hard split. *)
Lemma opt_or_end c p s e :
  valid_config c.(config) -> c.(buffer) <> [] ->
  (forall x, p = Some x \/ s = Some x -> segment_end c.(config).(hard_limit_bytes) c.(buffer) x) ->
  opt_or p (opt_or s (Some (hard_split_end c))) = Some e ->
  segment_end c.(config).(hard_limit_bytes) c.(buffer) e.
Proof.
  intros Hv Hb Hps H. destruct p, s; simplify_eq/=; eauto using hard_split_end_ok.
Qed.

Lemma scan_ok c pre post p s e :
  valid_config c.(config) -> c.(buffer) = pre ++ post ->
  (forall x, p = Some x \/ s = Some x \/ e = Some x ->
     segment_end c.(config).(hard_limit_bytes) c.(buffer) x) ->
  blen pre < c.(config).(hard_limit_bytes) ->
  match scan c p s e (char_indices_from (blen pre) post) with
  | inl r => exists x, r = Some x /\ segment_end c.(config).(hard_limit_bytes) c.(buffer) x
  | inr (p', e') => blen c.(buffer) < c.(config).(hard_limit_bytes) /\
      forall x, p' = Some x \/ e' = Some x -> segment_end c.(config).(hard_limit_bytes) c.(buffer) x
  end.
Proof.
  intros Hv. revert pre p s e. induction post as [|ch post IH]; intros pre p s e Hb Hps Hlt; cbn [char_indices_from scan].
  { split; [by rewrite Hb, app_nil_r|]. naive_solver. }
  assert (c.(buffer) <> []) as Hne by (rewrite Hb; by destruct pre).
  destruct (hard_limit_bytes (config c) <? blen pre + len_utf8 ch) eqn:E1; breflect.
  { destruct (opt_or p (opt_or s (Some (hard_split_end c)))) eqn:Eo;
      [|destruct p, s; discriminate Eo].
    eexists. split; [done|]. eapply opt_or_end; [done|done| |done]. naive_solver. }
  assert (segment_end c.(config).(hard_limit_bytes) c.(buffer) (blen pre + len_utf8 ch)) as Hend
    by (rewrite Hb; by apply segment_end_char).
  set (p' := if _ || _ then _ else p). set (s' := if is_soft_boundary ch then _ else s).
  set (e' := if _ && _ then _ else e).
  assert (forall x, p' = Some x \/ s' = Some x \/ e' = Some x ->
    segment_end c.(config).(hard_limit_bytes) c.(buffer) x) as Hps'.
  { intros x Hx. unfold p', s', e' in Hx. clearbody p' s' e'. revert Hx.
    split_ifs; intros [?|[?|?]]; simplify_eq; eauto. }
  clearbody p' s' e'. split_ifs.
  { destruct (opt_or p' (opt_or s' (Some (hard_split_end c)))) eqn:Eo;
      [|destruct p', s'; discriminate Eo].
    eexists. split; [done|]. eapply opt_or_end; [done|done| |done]. naive_solver. }
  replace (blen pre + len_utf8 ch) with (blen (pre ++ [ch])) by (rewrite blen_app; simpl; lia).
  apply IH; [by rewrite <- app_assoc|done|]. rewrite blen_app. simpl. lia.
Qed.

Lemma next_segment_end_ok c :
  valid_config c.(config) ->
  match next_segment_end c with
  | Some e => segment_end c.(config).(hard_limit_bytes) c.(buffer) e
  | None => blen c.(buffer) < c.(config).(hard_limit_bytes)
  end.
Proof.
  intros Hv. pose proof Hv as [Hc H4]. unfold next_segment_end.
  pose proof (scan_ok c [] c.(buffer) None None None Hv eq_refl) as Hs. simpl in Hs.
  destruct (scan _ _ _ _ _) as [r|[p e]].
  - destruct Hs as (x & -> & ?); [naive_solver|lia|done].
  - destruct Hs as (Hlt & Hx); [naive_solver|lia|].
    split_ifs; [|done]. destruct p, e; simpl; eauto.
Qed.

Lemma drain_segment_ok c e :
  segment_end c.(config).(hard_limit_bytes) c.(buffer) e ->
  exists a b, c.(buffer) = a ++ b /\ a <> [] /\ blen a <= c.(config).(hard_limit_bytes) /\
    drain_segment c e =
      Val (if is_empty (trim a) then None else Some (trim a), {| config := c.(config); buffer := b |}).
Proof.
  intros (a & b & Hsp & Hb & Ha & Hl)%segment_end_split. exists a, b. split_and!; [done..|].
  unfold drain_segment. by rewrite Hsp.
Qed.

Lemma phrases_of_cons a segs phrases :
  match (if is_empty (trim a) then None else Some (trim a)) with
  | Some p => phrases ++ [p] | None => phrases end ++ phrases_of segs =
  phrases ++ phrases_of (a :: segs).
Proof. unfold phrases_of. simpl. destruct (trim a); simpl; [done|]. by rewrite <- app_assoc. Qed.

Lemma push_loop_ok fuel c phrases :
  valid_config c.(config) -> (length c.(buffer) <= fuel)%nat ->
  exists segs rest,
    push_loop fuel c phrases =
      Val (phrases ++ phrases_of segs, {| config := c.(config); buffer := rest |}) /\
    cuts c.(config).(hard_limit_bytes) segs c.(buffer) rest /\
    blen rest < c.(config).(hard_limit_bytes).
Proof.
  intros Hv. revert c phrases Hv. induction fuel as [|fuel IH]; intros c phrases Hv Hf;
    pose proof (next_segment_end_ok c Hv) as Hn; cbn [push_loop];
    destruct (next_segment_end c) as [e|].
  - apply drain_segment_ok in Hn as (a & b & Hb & Ha & _). rewrite Hb, length_app in Hf.
    destruct a; simpl in Hf; [done|lia].
  - exists [], c.(buffer). unfold phrases_of. rewrite app_nil_r. destruct c. auto using cuts_nil.
  - apply drain_segment_ok in Hn as (a & b & Hb & Ha & Hl & ->). cbn [exec_bind].
    destruct (IH {| config := config c; buffer := b |}
      (match (if is_empty (trim a) then None else Some (trim a)) with
       | Some p => phrases ++ [p] | None => phrases end)) as (segs & rest & -> & Hcut & Hlt); [done| |].
    { simpl. rewrite Hb, length_app in Hf. destruct a; simpl in Hf; [done|lia]. }
    exists (a :: segs), rest. rewrite phrases_of_cons, Hb. auto using cuts_cons.
  - exists [], c.(buffer). unfold phrases_of. rewrite app_nil_r. destruct c. auto using cuts_nil.
Qed.

Lemma push_delta_ok c delta :
  valid_config c.(config) ->
  exists segs rest,
    push_delta c delta = Val (phrases_of segs, {| config := c.(config); buffer := rest |}) /\
    cuts c.(config).(hard_limit_bytes) segs (c.(buffer) ++ delta) rest /\
    blen rest < c.(config).(hard_limit_bytes).
Proof.
  intros Hv. unfold push_delta.
  apply (push_loop_ok _ {| config := config c; buffer := buffer c ++ delta |} []); [done|simpl; lia].
Qed.

Lemma finish_ok c :
  finish c = Val (if is_empty (trim c.(buffer)) then None else Some (trim c.(buffer))).
Proof. unfold finish, drain_segment. by rewrite split_at_byte_all. Qed.

Lemma phrases_of_app s1 s2 : phrases_of (s1 ++ s2) = phrases_of s1 ++ phrases_of s2.
Proof. unfold phrases_of. by rewrite map_app, List.filter_app. Qed.

Lemma stream_ok deltas c :
  valid_config c.(config) -> blen c.(buffer) < c.(config).(hard_limit_bytes) ->
  exists segs, stream c deltas = Val (phrases_of segs) /\
    cuts c.(config).(hard_limit_bytes) segs (c.(buffer) ++ concat deltas) [].
Proof.
  intros Hv. revert c Hv. induction deltas as [|d deltas IH]; intros c Hv Hlt; cbn [stream concat].
  - rewrite finish_ok. cbn [exec_bind]. rewrite app_nil_r. destruct (buffer c) as [|ch s] eqn:E.
    + exists []. split; [done|]. apply cuts_nil.
    + exists [ch :: s]. split; [unfold phrases_of; cbn [map List.filter]; by destruct (trim (ch :: s))|].
      rewrite <- (app_nil_r (ch :: s)) at 2. apply cuts_cons; [done|lia|apply cuts_nil].
  - destruct (push_delta_ok c d Hv) as (segs & rest & -> & Hcut & Hr). cbn [exec_bind].
    destruct (IH {| config := config c; buffer := rest |} Hv Hr) as (segs' & -> & Hcut').
    exists (segs ++ segs'). cbn [exec_bind]. rewrite phrases_of_app. split; [done|].
    rewrite app_assoc. by eapply cuts_app.
Qed.

Lemma phrases_of_bound limit segs p :
  Forall (fun s => s <> [] /\ blen s <= limit) segs -> p ∈ phrases_of segs ->
  blen p <= limit /\ is_blank p = false.
Proof.
  intros Hs Hp. unfold phrases_of in Hp. rewrite list_elem_of_In, List.filter_In, List.in_map_iff in Hp.
  destruct Hp as ((s & <- & Hin) & Hne). apply list_elem_of_In in Hin.
  rewrite Forall_forall in Hs. apply Hs in Hin as [_ Hl]. pose proof (trim_blen s).
  split; [lia|]. rewrite is_blank_trim. unfold is_blank. by apply negb_true_iff.
Qed.

(** ** Properties *)

(** C29. Chunking a whole stream never panics and always terminates, and it
    loses nothing but whitespace: the concatenated deltas are cut into
    contiguous segments, each within the hard limit, and the phrases are those
    segments trimmed, the blank ones dropped, in order. *)
Theorem phrase_stream_conserves_text soft hard cfg deltas :
  0 <= soft -> 0 <= hard -> PhraseChunkingConfig_new soft hard = Ok cfg ->
  exists segs,
    stream (PhraseChunker_new cfg) deltas = Val (phrases_of segs) /\
    concat segs = concat deltas /\
    Forall (fun s => s <> [] /\ blen s <= cfg.(hard_limit_bytes)) segs /\
    Forall (fun p => blen p <= cfg.(hard_limit_bytes) /\ is_blank p = false) (phrases_of segs).
Proof.
  intros Hs Hh Hcfg. apply PhraseChunkingConfig_new_valid in Hcfg as Hv; [|done..].
  destruct (stream_ok deltas (PhraseChunker_new cfg)) as (segs & Hst & Hcut & Hf);
    [done|simpl; destruct Hv; lia|]. exists segs. simpl in *.
  rewrite app_nil_r in Hcut. split_and!; [done..|]. apply Forall_forall. intros p.
  by apply phrases_of_bound.
Qed.

Lemma phrase_stream_conserves_text_witness :
  let deltas := [lit "One. Two? Three! Four. Five? "; lit "Six! Seven. Eight!"] in
  0 <= 12 /\ 0 <= 24 /\ exists cfg, PhraseChunkingConfig_new 12 24 = Ok cfg /\
  stream (PhraseChunker_new cfg) deltas =
    Val [lit "One. Two? Three! Four."; lit "Five? Six! Seven."; lit "Eight!"] /\
  exists segs, stream (PhraseChunker_new cfg) deltas = Val (phrases_of segs) /\
    concat segs = concat deltas /\
    Forall (fun s => s <> [] /\ blen s <= cfg.(hard_limit_bytes)) segs /\
    Forall (fun p => blen p <= cfg.(hard_limit_bytes) /\ is_blank p = false) (phrases_of segs).
Proof.
  intros deltas. split; [lia|]. split; [lia|]. eexists. split; [reflexivity|].
  split; [vm_compute; reflexivity|].
  apply (phrase_stream_conserves_text 12 24); [lia|lia|reflexivity].
Defined.
