(* ===== verification/UtteranceAssembler.v ===== *)
(** * Utterance assembly

    [crates/runtime/src/utterance_assembler.rs]: streamed text is grouped into
    utterances for synthesis, cut at paragraph breaks, then at safe
    punctuation, then at the hard byte limit. Unlike the phrase chunker the cut
    text is kept as it is; only the final remainder is trimmed. *)

From S2P Require Import Prelude RustStr Errors Segments.

Definition DEFAULT_SOFT_LIMIT_BYTES : Z := 384.
Definition DEFAULT_HARD_LIMIT_BYTES : Z := 1024.
Definition MAX_UTF8_SCALAR_BYTES : Z := 4.

Record UtteranceAssembler : Type := {
  soft_limit_bytes : Z;
  hard_limit_bytes : Z;
  buffer : rstr;
}.

Definition configuration_error (message : rstr) : RuntimeError :=
  RuntimeError_new Kind_Configuration Stage_Runtime message.

Definition UtteranceAssembler_new (soft hard : Z) : rresult UtteranceAssembler :=
  if soft =? 0 then
    Err (configuration_error (lit "utterance soft byte limit must be non-zero"))
  else if hard =? 0 then
    Err (configuration_error (lit "utterance hard byte limit must be non-zero"))
  else if hard <? soft then
    Err (configuration_error (lit "utterance soft byte limit must not exceed hard byte limit"))
  else if hard <? MAX_UTF8_SCALAR_BYTES then
    Err (configuration_error
      (lit "utterance hard byte limit must be at least 4 to preserve UTF-8 scalar boundaries"))
  else Ok {| soft_limit_bytes := soft; hard_limit_bytes := hard; buffer := [] |}.

Definition UtteranceAssembler_default : UtteranceAssembler :=
  {| soft_limit_bytes := DEFAULT_SOFT_LIMIT_BYTES;
     hard_limit_bytes := DEFAULT_HARD_LIMIT_BYTES;
     buffer := [] |}.

Definition with_buffer (a : UtteranceAssembler) (b : rstr) : UtteranceAssembler :=
  {| soft_limit_bytes := a.(soft_limit_bytes);
     hard_limit_bytes := a.(hard_limit_bytes);
     buffer := b |}.

Definition is_safe_boundary (character : rchar) : bool :=
  is_whitespace character || char_in (lit ".!?。！？,:;，：；") character.

(** [Iterator::take_while]. *)
Fixpoint take_while {A} (p : A -> bool) (l : list A) : list A :=
  match l with
  | [] => []
  | x :: l' => if p x then x :: take_while p l' else []
  end.

Definition paragraph_boundaries (input : rstr) (hard : Z) : list Z :=
  take_while (fun e => e <=? hard)
    (map (fun index => index + 2) (match_indices2_from 0 0x0A 0x0A input)).

Definition safe_boundaries (input : rstr) (hard : Z) : list Z :=
  omap (fun '(index, character) =>
          let end_ := index + len_utf8 character in
          if (end_ <=? hard) && is_safe_boundary character then Some end_ else None)
       (char_indices input).

Definition hard_split_end (a : UtteranceAssembler) : Z :=
  if blen a.(buffer) <=? a.(hard_limit_bytes) then blen a.(buffer)
  else
    let end_ := last_start_within a.(hard_limit_bytes) 0 (char_indices a.(buffer)) in
    if 0 <? end_ then end_
    else match nth_error (char_indices a.(buffer)) 1 with
         | Some (index, _) => index
         | None => blen a.(buffer)
         end.

Definition next_utterance_end (a : UtteranceAssembler) : option Z :=
  if blen a.(buffer) <? a.(soft_limit_bytes) then None
  else
    let paragraphs := paragraph_boundaries a.(buffer) a.(hard_limit_bytes) in
    match find (fun e => e <=? a.(soft_limit_bytes)) (rev paragraphs) with
    | Some e => Some e
    | None =>
        match find (fun e => e <=? a.(hard_limit_bytes)) paragraphs with
        | Some e => Some e
        | None =>
            let safe := safe_boundaries a.(buffer) a.(hard_limit_bytes) in
            if blen a.(buffer) <? a.(hard_limit_bytes)
            then find (fun e => a.(soft_limit_bytes) <=? e) (rev safe)
            else opt_or (last safe) (Some (hard_split_end a))
        end
    end.

Definition drain_utterance (a : UtteranceAssembler) (end_ : Z) (trimmed : bool)
  : exec (option rstr * UtteranceAssembler) :=
  let! '(utterance, rest) := expect (split_at_byte end_ a.(buffer)) in
  Val (if is_blank utterance then None
       else if trimmed then Some (trim utterance) else Some utterance,
       with_buffer a rest).

Fixpoint push_loop (fuel : nat) (a : UtteranceAssembler) (utterances : list rstr)
  : exec (list rstr * UtteranceAssembler) :=
  match next_utterance_end a with
  | None => Val (utterances, a)
  | Some end_ =>
      match fuel with
      | O => Fuel_out
      | S fuel' =>
          let! '(utterance, a') := drain_utterance a end_ false in
          let utterances :=
            match utterance with Some u => utterances ++ [u] | None => utterances end in
          if blen a'.(buffer) <? a'.(hard_limit_bytes) then Val (utterances, a')
          else push_loop fuel' a' utterances
      end
  end.

(** Every turn of the loop drains at least one character. *)
Definition push_delta (a : UtteranceAssembler) (delta : rstr)
  : exec (list rstr * UtteranceAssembler) :=
  let a := with_buffer a (a.(buffer) ++ delta) in
  push_loop (length a.(buffer)) a [].

Definition finish (a : UtteranceAssembler) : exec (option rstr) :=
  let! '(utterance, _) := drain_utterance a (blen a.(buffer)) true in
  Val utterance.

(** A whole stream: every delta, then the end of the text. *)
Fixpoint stream (a : UtteranceAssembler) (deltas : list rstr) : exec (list rstr * option rstr) :=
  match deltas with
  | [] =>
      let! last := finish a in
      Val ([], last)
  | d :: deltas' =>
      let! '(utterances, a') := push_delta a d in
      let! '(rest, last) := stream a' deltas' in
      Val (utterances ++ rest, last)
  end.

(** ** Invariants *)

(** Limits accepted by [UtteranceAssembler_new]. *)
Definition valid_limits (a : UtteranceAssembler) : Prop :=
  0 < a.(soft_limit_bytes) <= a.(hard_limit_bytes) /\ 4 <= a.(hard_limit_bytes).

(** The utterances kept of a list of cut segments. *)
Definition kept (segs : list rstr) : list rstr := List.filter (fun s => negb (is_blank s)) segs.

Lemma UtteranceAssembler_new_valid soft hard a :
  0 <= soft -> 0 <= hard -> UtteranceAssembler_new soft hard = Ok a ->
  valid_limits a /\ a.(buffer) = [].
Proof.
  intros Hs Hh H. unfold UtteranceAssembler_new, MAX_UTF8_SCALAR_BYTES in H.
  split_ifs_in H; simplify_eq. unfold valid_limits. simpl. split; [lia|done].
Qed.

Lemma take_while_elem {A} (p : A -> bool) l x : x ∈ take_while p l -> x ∈ l /\ p x = true.
Proof.
  induction l as [|y l IH]; simpl; [intros H; inversion H|]. destruct (p y) eqn:E.
  - rewrite !elem_of_cons. naive_solver.
  - intros H; inversion H.
Qed.

Lemma find_elem {A} (p : A -> bool) l x : find p l = Some x -> x ∈ l /\ p x = true.
Proof. intros H. apply List.find_some in H as [Hin Hp]. by rewrite list_elem_of_In. Qed.

Lemma match_indices2_spec n pre post x y i :
  (length post <= n)%nat -> i ∈ match_indices2_from (blen pre) x y post ->
  exists u v, pre ++ post = u ++ x :: y :: v /\ i = blen u.
Proof.
  revert pre post. induction n as [|n IH]; intros pre post Hn Hi;
    [destruct post; simpl in *; [inversion Hi|lia]|].
  destruct post as [|c [|d post]]; cbn [match_indices2_from] in Hi; [inversion Hi..|].
  destruct ((c =? x) && (d =? y)) eqn:E; breflect; subst.
  - apply elem_of_cons in Hi as [->|Hi]; [by exists pre, post|].
    replace (blen pre + len_utf8 x + len_utf8 y) with (blen (pre ++ [x; y])) in Hi
      by (rewrite blen_app; simpl; lia).
    apply IH in Hi as (u & v & Huv & ->); [|simpl in *; lia]. exists u, v.
    by rewrite <- app_assoc in Huv.
  - replace (blen pre + len_utf8 c) with (blen (pre ++ [c])) in Hi by (rewrite blen_app; simpl; lia).
    apply (IH (pre ++ [c]) (d :: post)) in Hi as (u & v & Huv & ->); [|simpl in *; lia]. exists u, v.
    by rewrite <- app_assoc in Huv.
Qed.

Lemma paragraph_boundaries_ok input hard e :
  e ∈ paragraph_boundaries input hard -> segment_end hard input e.
Proof.
  intros H. apply take_while_elem in H as [H Hle]. breflect.
  rewrite list_elem_of_In, List.in_map_iff in H. destruct H as (i & <- & Hi). apply list_elem_of_In in Hi.
  apply (match_indices2_spec (length input) []) in Hi as (u & v & Huv & ->); [|done].
  simpl in Huv. exists (u ++ [0x0A; 0x0A]), v. rewrite <- app_assoc, blen_app. simpl.
  split_and!; [done|by destruct u|done|done].
Qed.

Lemma safe_boundaries_ok input hard e :
  e ∈ safe_boundaries input hard -> segment_end hard input e.
Proof.
  unfold safe_boundaries. rewrite list_elem_of_omap. intros ([i c] & Hin & H).
  split_ifs_in H; simplify_eq. apply char_indices_from_spec in Hin as (a & b & -> & ->).
  by apply segment_end_char.
Qed.

Lemma utterance_hard_split_end_ok a :
  valid_limits a -> a.(buffer) <> [] ->
  segment_end a.(hard_limit_bytes) a.(buffer) (hard_split_end a).
Proof.
  intros [Hc H4] Hb. unfold hard_split_end.
  destruct (blen (buffer a) <=? hard_limit_bytes a) eqn:E; breflect; [by apply segment_end_whole|].
  pose proof (last_start_within_end (hard_limit_bytes a) (buffer a) H4 E) as Hend.
  split_ifs; [done|]. destruct Hend as (x & y & _ & Hx & He & _). destruct Hx. apply blen_0.
  pose proof (blen_nonneg x). lia.
Qed.

Lemma find_rev_elem {A} (p : A -> bool) l x : find p (rev l) = Some x -> x ∈ l.
Proof. intros [H _]%find_elem. rewrite list_elem_of_In, <- List.in_rev in H. by apply list_elem_of_In. Qed.

Lemma next_utterance_end_ok a :
  valid_limits a ->
  match next_utterance_end a with
  | Some e => segment_end a.(hard_limit_bytes) a.(buffer) e
  | None => blen a.(buffer) < a.(hard_limit_bytes)
  end.
Proof.
  intros Hv. pose proof Hv as [Hc H4]. unfold next_utterance_end.
  destruct (blen (buffer a) <? soft_limit_bytes a) eqn:Es; breflect; [lia|].
  destruct (find _ (rev (paragraph_boundaries _ _))) eqn:E1;
    [by apply find_rev_elem, paragraph_boundaries_ok in E1|].
  destruct (find _ (paragraph_boundaries _ _)) eqn:E2;
    [by apply find_elem in E2 as [E2%paragraph_boundaries_ok _]|].
  destruct (blen (buffer a) <? hard_limit_bytes a) eqn:Eh; breflect.
  - destruct (find _ (rev (safe_boundaries _ _))) eqn:E3; [|done].
    by apply find_rev_elem, safe_boundaries_ok in E3.
  - destruct (last (safe_boundaries _ _)) eqn:E3; simpl.
    + apply last_Some_elem_of in E3. by apply safe_boundaries_ok.
    + apply utterance_hard_split_end_ok; [done|]. intros He. rewrite He in *. simpl in *. lia.
Qed.

Lemma drain_utterance_ok a e t :
  segment_end a.(hard_limit_bytes) a.(buffer) e ->
  exists x y, a.(buffer) = x ++ y /\ x <> [] /\ blen x <= a.(hard_limit_bytes) /\
    drain_utterance a e t =
      Val (if is_blank x then None else if t then Some (trim x) else Some x, with_buffer a y).
Proof.
  intros (x & y & Hsp & Hb & Hx & Hl)%segment_end_split. exists x, y. split_and!; [done..|].
  unfold drain_utterance. by rewrite Hsp.
Qed.

Lemma kept_cons x segs us :
  match (if is_blank x then None else Some x) with Some u => us ++ [u] | None => us end ++ kept segs =
  us ++ kept (x :: segs).
Proof. unfold kept. simpl. destruct (is_blank x); simpl; [done|]. by rewrite <- app_assoc. Qed.

Lemma utterance_push_loop_ok fuel a us :
  valid_limits a -> (length a.(buffer) <= fuel)%nat ->
  exists segs rest,
    push_loop fuel a us = Val (us ++ kept segs, with_buffer a rest) /\
    cuts a.(hard_limit_bytes) segs a.(buffer) rest /\ blen rest < a.(hard_limit_bytes).
Proof.
  revert a us. induction fuel as [|fuel IH]; intros a us Hv Hf;
    pose proof (next_utterance_end_ok a Hv) as Hn; cbn [push_loop];
    destruct (next_utterance_end a) as [e|].
  - destruct (drain_utterance_ok a e false Hn) as (x & y & Hb & Hx & _). rewrite Hb, length_app in Hf.
    destruct x; simpl in Hf; [done|lia].
  - exists [], a.(buffer). unfold kept. rewrite app_nil_r. destruct a. auto using cuts_nil.
  - destruct (drain_utterance_ok a e false Hn) as (x & y & Hb & Hx & Hl & ->). cbn [exec_bind].
    cbn [buffer hard_limit_bytes with_buffer]. destruct (blen y <? hard_limit_bytes a) eqn:Ey; breflect.
    + exists [x], y. rewrite <- kept_cons, Hb. unfold kept at 1. rewrite app_nil_r.
      split_and!; [done|apply cuts_cons; auto using cuts_nil|done].
    + destruct (IH (with_buffer a y)
        (match (if is_blank x then None else Some x) with Some u => us ++ [u] | None => us end))
        as (segs & rest & -> & Hcut & Hlt); [done| |].
      { simpl. rewrite Hb, length_app in Hf. destruct x; simpl in Hf; [done|lia]. }
      exists (x :: segs), rest. rewrite kept_cons, Hb. auto using cuts_cons.
  - exists [], a.(buffer). unfold kept. rewrite app_nil_r. destruct a. auto using cuts_nil.
Qed.

Lemma utterance_push_delta_ok a delta :
  valid_limits a ->
  exists segs rest,
    push_delta a delta = Val (kept segs, with_buffer a rest) /\
    cuts a.(hard_limit_bytes) segs (a.(buffer) ++ delta) rest /\ blen rest < a.(hard_limit_bytes).
Proof.
  intros Hv. unfold push_delta.
  apply (utterance_push_loop_ok _ (with_buffer a (buffer a ++ delta)) []); [done|simpl; lia].
Qed.

Lemma utterance_finish_ok a :
  finish a = Val (if is_blank a.(buffer) then None else Some (trim a.(buffer))).
Proof. unfold finish, drain_utterance. by rewrite split_at_byte_all. Qed.

Lemma utterance_stream_ok deltas a :
  valid_limits a -> blen a.(buffer) < a.(hard_limit_bytes) ->
  exists segs rest,
    stream a deltas = Val (kept segs, if is_blank rest then None else Some (trim rest)) /\
    cuts a.(hard_limit_bytes) segs (a.(buffer) ++ concat deltas) rest /\
    blen rest < a.(hard_limit_bytes).
Proof.
  revert a. induction deltas as [|d deltas IH]; intros a Hv Hlt; cbn [stream concat].
  - rewrite utterance_finish_ok. exists [], a.(buffer). rewrite app_nil_r. auto using cuts_nil.
  - destruct (utterance_push_delta_ok a d Hv) as (segs & rest & -> & Hcut & Hr). cbn [exec_bind].
    destruct (IH (with_buffer a rest) Hv Hr) as (segs' & rest' & -> & Hcut' & Hr').
    exists (segs ++ segs'), rest'. cbn [exec_bind]. unfold kept. rewrite List.filter_app.
    rewrite app_assoc. split_and!; [done|by eapply cuts_app|done].
Qed.

(** ** Properties *)

(** Assembling a whole stream never panics and always terminates: the
    concatenated deltas are exactly the cut segments followed by the remainder;
    each segment is non-empty and within the hard limit, the utterances are the
    segments that are not blank, untouched, and the final utterance is the
    trimmed remainder, which is shorter than the hard limit. *)
Theorem utterance_stream_conserves_text soft hard a deltas :
  0 <= soft -> 0 <= hard -> UtteranceAssembler_new soft hard = Ok a ->
  exists segs rest,
    stream a deltas = Val (kept segs, if is_blank rest then None else Some (trim rest)) /\
    concat segs ++ rest = concat deltas /\
    Forall (fun s => s <> [] /\ blen s <= a.(hard_limit_bytes)) segs /\
    blen rest < a.(hard_limit_bytes).
Proof.
  intros Hs Hh Ha. destruct (UtteranceAssembler_new_valid _ _ _ Hs Hh Ha) as [Hv Hb].
  destruct (utterance_stream_ok deltas a Hv) as (segs & rest & Hst & [Hcut Hf] & Hr);
    [rewrite Hb; simpl; destruct Hv; lia|].
  exists segs, rest. rewrite Hb in Hcut. by split_and!.
Qed.

Lemma utterance_stream_conserves_text_witness :
  let deltas := [lit "你好世界。第二段"; lit ",x  "] in
  0 <= 6 /\ 0 <= 9 /\ exists a, UtteranceAssembler_new 6 9 = Ok a /\
  stream a deltas = Val ([lit "你好世"; lit "界。"; lit "第二段"], Some (lit ",x")) /\
  exists segs rest,
    stream a deltas = Val (kept segs, if is_blank rest then None else Some (trim rest)) /\
    concat segs ++ rest = concat deltas /\
    Forall (fun s => s <> [] /\ blen s <= a.(hard_limit_bytes)) segs /\
    blen rest < a.(hard_limit_bytes).
Proof.
  intros deltas. split; [lia|]. split; [lia|]. eexists. split; [reflexivity|].
  split; [vm_compute; reflexivity|].
  apply (utterance_stream_conserves_text 6 9); [lia|lia|reflexivity].
Defined.
