(* ===== verification/TranscriptCleanup.v ===== *)
(** * Cleanup of a recognized transcript

    [crates/runtime/src/transcript_cleanup.rs]: before a final transcript can
    start a turn, it is cut into units (sentences and bracketed noise markers)
    and the units that a recognizer is known to invent are removed: subtitle
    credits, immediate repetitions, loops with filler in between, trailing noise
    and noise markers.

    The theorems show that the cut loses nothing, that cleaning never panics or
    loops, that its result and its counts are those of the units it removed, and
    that every removal meets the thresholds and the positions of its rule: a
    repetition is in a run of three, a loop in a stretch where its phrase occurs
    five times, and only the end is trimmed, of fillers only five at least. *)

From S2P Require Import Prelude RustStr.

(** ** Counts *)

Record TranscriptCleanupRemovals : Type := {
  known_hallucinations : Z;
  repeated_units : Z;
  interleaved_loop_units : Z;
  trailing_noise_units : Z;
  noise_markers : Z;
}.

Definition no_removals : TranscriptCleanupRemovals :=
  {| known_hallucinations := 0; repeated_units := 0; interleaved_loop_units := 0;
     trailing_noise_units := 0; noise_markers := 0 |}.

#[export] Instance TranscriptCleanupRemovals_eq_dec : EqDecision TranscriptCleanupRemovals.
Proof. solve_decision. Defined.

Record TranscriptCleanupStats : Type := {
  finals_cleaned : Z;
  finals_dropped : Z;
  total_removals : TranscriptCleanupRemovals;
}.

Inductive TranscriptCleanup : Type :=
| Unchanged
| Cleaned (text : rstr) (removals : TranscriptCleanupRemovals)
| Dropped (removals : TranscriptCleanupRemovals).

Definition add_removals (a b : TranscriptCleanupRemovals) : TranscriptCleanupRemovals :=
  {| known_hallucinations := a.(known_hallucinations) + b.(known_hallucinations);
     repeated_units := a.(repeated_units) + b.(repeated_units);
     interleaved_loop_units := a.(interleaved_loop_units) + b.(interleaved_loop_units);
     trailing_noise_units := a.(trailing_noise_units) + b.(trailing_noise_units);
     noise_markers := a.(noise_markers) + b.(noise_markers) |}.

(** [TranscriptCleanupCounters::record], under its mutex. The totals are [u64];
    they count words heard, and their overflow is left aside. *)
Definition record (stats : TranscriptCleanupStats) (cleanup : TranscriptCleanup) : TranscriptCleanupStats :=
  match cleanup with
  | Unchanged => stats
  | Cleaned _ removals =>
      {| finals_cleaned := stats.(finals_cleaned) + 1; finals_dropped := stats.(finals_dropped);
         total_removals := add_removals stats.(total_removals) removals |}
  | Dropped removals =>
      {| finals_cleaned := stats.(finals_cleaned); finals_dropped := stats.(finals_dropped) + 1;
         total_removals := add_removals stats.(total_removals) removals |}
  end.

(** ** Word lists *)

Definition NOISE_WORDS : list rstr := 
  [lit "crying"; lit "laughter"; lit "laughing"; lit "applause"; lit "growling"; lit "music";
   lit "sobbing"; lit "cheering"; lit "sighing"; lit "clapping"; lit "coughing"; lit "sneezing";
   lit "gasping"; lit "whispering"; lit "mumbling"; lit "humming"; lit "breathing"; lit "silence";
   lit "snoring"; lit "yelling"; lit "screaming"; lit "blank_audio"; lit "inaudible"; lit "noise";
   lit "crosstalk"; lit "typing"; lit "static"; lit "beep"; lit "ringing"; lit "śmiech";
   lit "risas"; lit "musik"; lit "musique"; lit "musica"; lit "música"; lit "muzyka"; lit "applaus";
   lit "aplausos"; lit "applausi"; lit "oklaski"; lit "ruido"; lit "geräusch"; lit "stille";
   lit "silencio"; lit "cisza"; lit "rires"; lit "rire"; lit "gelächter"; lit "weeping"].

Definition KNOWN_HALLUCINATION_PHRASES : list rstr := 
  [lit "thank you for watching"; lit "thanks for watching"; lit "thank you so much for watching";
   lit "please subscribe to our channel"; lit "please subscribe"; lit "please like and subscribe";
   lit "like and subscribe"; lit "smash that like button"; lit "don't forget to subscribe";
   lit "see you in the next video"; lit "subtitles by the amara.org community";
   lit "transcribed by the amara.org community"; lit "translated by the amara.org community";
   lit "the amara.org community"; lit "amara.org community"; lit "captions by the cyclope"].

Definition HALLUCINATION_UNIT_PREFIXES : list rstr := [lit "transcripted by"; lit "captions by"; lit "captioned by"; lit "subtitles by"].

Definition MIN_REPEAT_RUN : nat := 3.
Definition LOOP_WINDOW : nat := 10.
Definition LOOP_MIN_OCCURRENCES : nat := 5.
Definition LOOP_MIN_REGION : nat := 6.
Definition MIN_TRAILING_FILLER_RUN : nat := 5.

(** [\[&str\]::contains]. *)
Definition str_in (s : rstr) (l : list rstr) : bool := existsb (fun t => bool_decide (s = t)) l.

Inductive Rule : Type :=
| KnownHallucination
| Repeated
| InterleavedLoop
| TrailingNoise
| NoiseMarker.

#[export] Instance Rule_eq_dec : EqDecision Rule.
Proof. solve_decision. Defined.

Record Unit_ : Type := {
  raw : rstr;
  noise_marker : bool;
  key : list rstr;
  removed : option Rule;
}.

Definition content (u : Unit_) : rstr := trim u.(raw).

Definition remove (rule : Rule) (u : Unit_) : Unit_ :=
  {| raw := u.(raw); noise_marker := u.(noise_marker); key := u.(key); removed := Some rule |}.

(** [&s\[from..to\]]. *)
Definition str_slice (from to : Z) (s : rstr) : option rstr :=
  match split_at_byte to s with
  | Some (a, _) => option_map snd (split_at_byte from a)
  | None => None
  end.

Section Cleanup.
Context `{UnicodeTables}.

(** ** Cutting into units *)

Definition is_noise_marker (text : rstr) : exec bool :=
  let text := default text (strip_suffix (lit ".") text) in
  let bracketed := (starts_with (lit "[") text && ends_with (lit "]") text)
    || (starts_with (lit "(") text && ends_with (lit ")") text) in
  if negb bracketed || (blen text <? 2) then Val false
  else
    let! inner := expect (str_slice 1 (blen text - 1) text) in
    if forallb (fun c => is_ascii_digit c || (c =? chr ":")) inner then Val false
    else
      let words := split_whitespace inner in
      Val ((1 <=? zlen words) && (zlen words <=? 4) && (blen inner <=? 40)
           && is_some_and (back words) (fun word => str_in (to_lowercase word) NOISE_WORDS)).

Definition noise_marker_end (text : rstr) (start : Z) : exec (option Z) :=
  let! '(_, rest) := expect (split_at_byte start text) in
  match rest with
  | [] => Val None
  | c :: _ =>
      let close := if c =? chr "[" then Some (chr "]") else if c =? chr "(" then Some (chr ")") else None in
      match close with
      | None => Val None
      | Some close =>
          match find_char close rest with
          | None => Val None
          | Some close_at =>
              let! '(marker, _) := expect (split_at_byte (close_at + 1) rest) in
              let! noise := is_noise_marker marker in
              if negb noise then Val None
              else
                let stop := start + close_at + 1 in
                let! '(_, tail) := expect (split_at_byte stop text) in
                Val (Some (if starts_with (lit ".") tail then stop + 1 else stop))
          end
      end
  end.

(** A character after which the next content starts a unit. *)
Definition ends_unit (character : rchar) (rest : list (Z * rchar)) : bool :=
  if char_in (lit "。！？") character then true
  else if char_in (lit ".!?…") character then
    match rest with [] => true | (_, next) :: _ => is_whitespace next end
  else false.

(** The loop of [split_units] over the characters left; the ones before [skip]
    belong to a marker and are passed over. *)
Fixpoint units_loop (text : rstr) (chars : list (Z * rchar)) (skip start : Z) (cut_at_next_content : bool)
    (units : list rstr) : exec (list rstr * Z) :=
  match chars with
  | [] => Val (units, start)
  | (index, character) :: chars =>
      if index <? skip then units_loop text chars skip start cut_at_next_content units
      else
        let! marker_end := noise_marker_end text index in
        let! '(units, start) :=
          if (cut_at_next_content && negb (is_whitespace character)) || is_some marker_end then
            let! pending := expect (str_slice start index text) in
            Val (if is_blank pending then (units, start) else (units ++ [pending], index))
          else Val (units, start) in
        let cut := cut_at_next_content && is_whitespace character in
        match marker_end with
        | Some stop => units_loop text chars stop start true units
        | None => units_loop text chars skip start (cut || ends_unit character chars) units
        end
  end.

Definition split_units (text : rstr) : exec (list rstr) :=
  let! '(units, start) := units_loop text (char_indices text) 0 0 false [] in
  if start <? blen text then
    let! '(_, last) := expect (split_at_byte start text) in Val (units ++ [last])
  else Val units.

(** ** Keys *)

Definition is_always_noise (text : rstr) : bool :=
  str_in (to_lowercase (trim text)) ([lit "[music]"; lit "[blank_audio]"; lit "[silence]"; lit "music"]).

Definition repetition_key (text : rstr) : list rstr :=
  List.filter (fun word => negb (is_empty word))
    (map (fun word =>
            let word := to_lowercase word in
            if existsb is_numeric word then word
            else trim_matches (fun c => negb (is_alphanumeric c)) word)
       (split_whitespace text)).

Definition make_unit (raw : rstr) : exec Unit_ :=
  let! marker := is_noise_marker (trim raw) in
  Val {| raw := raw; noise_marker := marker; key := repetition_key raw; removed := None |}.

Fixpoint make_units (raws : list rstr) : exec (list Unit_) :=
  match raws with
  | [] => Val []
  | raw :: rest =>
      let! u := make_unit raw in
      let! us := make_units rest in
      Val (u :: us)
  end.

(** ** Rules

    [alive] borrows the units not removed yet; a rule updates them in place. *)

Definition is_alive (u : Unit_) : bool := is_none u.(removed).

Definition alive (units : list Unit_) : list Unit_ := List.filter is_alive units.

(** The units with the borrowed ones replaced by their updates. *)
Fixpoint write_back (units updated : list Unit_) : list Unit_ :=
  match units with
  | [] => []
  | u :: units =>
      if is_alive u then
        match updated with
        | v :: updated => v :: write_back units updated
        | [] => u :: units
        end
      else u :: write_back units updated
  end.

Definition is_known_hallucination (u : Unit_) : bool :=
  let lowered := map (fun c => if c =? 0x2019 then chr "'" else c) (to_lowercase (content u)) in
  let normalized := trim (trim_end_matches (char_in (lit ".!?,;:")) lowered) in
  negb (is_empty normalized)
  && (str_in normalized KNOWN_HALLUCINATION_PHRASES
      || existsb (fun prefix => starts_with prefix normalized) HALLUCINATION_UNIT_PREFIXES).

Definition strip_known_hallucinations (units : list Unit_) : list Unit_ :=
  write_back units (map (fun u =>
    if u.(noise_marker) then u
    else if is_known_hallucination u then remove KnownHallucination u else u) (alive units)).

(** The units directly after a first one that have its key, and the rest. *)
Fixpoint same_key_run (k : list rstr) (units : list Unit_) : list Unit_ * list Unit_ :=
  match units with
  | [] => ([], [])
  | u :: rest =>
      if bool_decide (u.(key) = k) then
        let '(run, rest) := same_key_run k rest in (u :: run, rest)
      else ([], units)
  end.

(** The loop of [collapse_repeated_units] from the unit at [index]; it passes
    at least one unit a turn. *)
Fixpoint repeat_loop (fuel : nat) (units : list Unit_) : exec (list Unit_) :=
  match units with
  | [] => Val []
  | u :: rest =>
      match fuel with
      | O => Fuel_out
      | S fuel =>
          if is_always_noise (content u) || is_empty u.(key) then
            let! rest := repeat_loop fuel rest in Val (u :: rest)
          else
            let '(run, rest) := same_key_run u.(key) rest in
            let run := if bool_decide (MIN_REPEAT_RUN <= 1 + length run)%nat then map (remove Repeated) run else run in
            let! rest := repeat_loop fuel rest in
            Val (u :: run ++ rest)
      end
  end.

Definition collapse_repeated_units (units : list Unit_) : exec (list Unit_) :=
  let! updated := repeat_loop (length (alive units)) (alive units) in
  Val (write_back units updated).

(** *** Interleaved loops *)

Definition is_filler (text : rstr) : bool :=
  str_in text (
  [lit "okay"; lit "ok"; lit "yeah"; lit "yes"; lit "right"; lit "so"; lit "and"; lit "but";
   lit "well"; lit "uh"; lit "um"; lit "hmm"; lit "mhm"]).

Arguments is_filler text : simpl never.

(** [str::cmp]: the order of UTF-8 bytes is the order of scalar values. *)
Fixpoint str_cmp (a b : rstr) : comparison :=
  match a, b with
  | [], [] => Eq
  | [], _ => Lt
  | _, [] => Gt
  | x :: a, y :: b => match x ?= y with Eq => str_cmp a b | c => c end
  end.

(** [*frequency.entry(phrase).or_default() += 1] on a [BTreeMap]. *)
Fixpoint bump (phrase : rstr) (frequency : list (rstr * nat)) : list (rstr * nat) :=
  match frequency with
  | [] => [(phrase, 1%nat)]
  | (p, n) :: rest =>
      match str_cmp phrase p with
      | Eq => (p, S n) :: rest
      | Lt => (phrase, 1%nat) :: frequency
      | Gt => (p, n) :: bump phrase rest
      end
  end.

Definition window_frequency (window : list rstr) : list (rstr * nat) :=
  foldl (fun m text => if negb (is_filler text) && negb (is_empty text) then bump text m else m) [] window.

(** [Iterator::max_by]: the later of two equal entries. *)
Definition max_entry (a b : rstr * nat) : rstr * nat :=
  match Nat.compare a.2 b.2 with
  | Gt => a
  | Lt => b
  | Eq => match str_cmp a.1 b.1 with Gt => a | _ => b end
  end.

Definition dominant (window : list rstr) : option rstr :=
  match window_frequency window with
  | [] => None
  | e :: es =>
      let best := foldl max_entry e es in
      if bool_decide (LOOP_MIN_OCCURRENCES <= best.2)%nat then Some best.1 else None
  end.

(** The index of the first text equal to [phrase]. *)
Fixpoint position (phrase : rstr) (texts : list rstr) : option nat :=
  match texts with
  | [] => None
  | t :: rest => if bool_decide (t = phrase) then Some 0%nat else option_map S (position phrase rest)
  end.

Definition text_at (texts : list rstr) (i : nat) : rstr := nth i texts [].

Fixpoint grow_region (fuel : nat) (texts : list rstr) (phrase : rstr) (region_end : nat) : exec nat :=
  if bool_decide (region_end < length texts)%nat then
    match fuel with
    | O => Fuel_out
    | S fuel =>
        if bool_decide (text_at texts region_end = phrase) || is_filler (text_at texts region_end) then
          grow_region fuel texts phrase (region_end + 1)
        else
          match position phrase (take 3 (drop region_end texts)) with
          | Some gap =>
              if bool_decide (gap <= 2)%nat then grow_region fuel texts phrase (region_end + gap + 1)
              else Val region_end
          | None => Val region_end
          end
    end
  else Val region_end.

(** The marks of a region: its first occurrence of the phrase stays. *)
Fixpoint mark_region (phrase : rstr) (texts : list rstr) (marks : list bool) (kept_first : bool) : list bool :=
  match texts, marks with
  | t :: texts, m :: marks =>
      if negb kept_first && bool_decide (t = phrase) then m :: mark_region phrase texts marks true
      else (m || bool_decide (t = phrase) || is_filler t) :: mark_region phrase texts marks kept_first
  | _, _ => marks
  end.

Definition occurrences (phrase : rstr) (texts : list rstr) : nat :=
  length (List.filter (fun t => bool_decide (t = phrase)) texts).

Definition mark_span (phrase : rstr) (texts : list rstr) (marks : list bool) (start region_end : nat) : list bool :=
  take start marks
  ++ mark_region phrase (take (region_end - start) (drop start texts))
       (take (region_end - start) (drop start marks)) false
  ++ drop region_end marks.

Fixpoint loop_scan (fuel : nat) (texts : list rstr) (start : nat) (marks : list bool) : exec (list bool) :=
  if bool_decide (start + LOOP_WINDOW <= length texts)%nat then
    match fuel with
    | O => Fuel_out
    | S fuel =>
        match dominant (take LOOP_WINDOW (drop start texts)) with
        | Some phrase =>
            let! region_end := grow_region (length texts) texts phrase (start + LOOP_WINDOW) in
            let region := take (region_end - start) (drop start texts) in
            if bool_decide (LOOP_MIN_OCCURRENCES <= occurrences phrase region)%nat
               && bool_decide (LOOP_MIN_REGION <= region_end - start)%nat
            then loop_scan fuel texts region_end (mark_span phrase texts marks start region_end)
            else loop_scan fuel texts (start + 1) marks
        | None => loop_scan fuel texts (start + 1) marks
        end
    end
  else Val marks.

Definition key_text (u : Unit_) : rstr := join (lit " ") u.(key).

Definition apply_marks (units : list Unit_) (marks : list bool) : list Unit_ :=
  zip_with (fun u (m : bool) => if m then remove InterleavedLoop u else u) units marks.

Definition collapse_interleaved_loops (units : list Unit_) : exec (list Unit_) :=
  let borrowed := alive units in
  if bool_decide (length borrowed < LOOP_MIN_REGION)%nat then Val units
  else
    let texts := map key_text borrowed in
    let! marks := loop_scan (length texts) texts 0 (replicate (length borrowed) false) in
    Val (write_back units (apply_marks borrowed marks)).

(** *** Trailing noise and markers *)

Definition is_trailing_filler (text : rstr) : bool :=
  str_in (to_lowercase text) ([lit "you"; lit "okay."; lit "yeah."]).

(** [units.iter().rev().take_while(p).count()]. *)
Fixpoint leading {A} (p : A -> bool) (l : list A) : nat :=
  match l with
  | [] => 0
  | x :: l => if p x then S (leading p l) else 0
  end.
Definition trailing {A} (p : A -> bool) (l : list A) : nat := leading p (rev l).

Definition trim_from (borrowed : list Unit_) : nat :=
  let noise_from := (length borrowed - trailing (fun u => is_always_noise (content u)) borrowed)%nat in
  let filler_from :=
    (noise_from - trailing (fun u => is_trailing_filler (content u)) (take noise_from borrowed))%nat in
  if bool_decide (MIN_TRAILING_FILLER_RUN <= noise_from - filler_from)%nat then filler_from else noise_from.

Definition trim_trailing_noise (units : list Unit_) : list Unit_ :=
  let borrowed := alive units in
  let n := trim_from borrowed in
  write_back units (take n borrowed ++ map (remove TrailingNoise) (drop n borrowed)).

Definition strip_noise_markers (units : list Unit_) : list Unit_ :=
  write_back units (map (fun u => if u.(noise_marker) then remove NoiseMarker u else u) (alive units)).

(** ** Cleaning *)

Definition count_rule (r : TranscriptCleanupRemovals) (rule : Rule) : TranscriptCleanupRemovals :=
  add_removals r
    {| known_hallucinations := if bool_decide (rule = KnownHallucination) then 1 else 0;
       repeated_units := if bool_decide (rule = Repeated) then 1 else 0;
       interleaved_loop_units := if bool_decide (rule = InterleavedLoop) then 1 else 0;
       trailing_noise_units := if bool_decide (rule = TrailingNoise) then 1 else 0;
       noise_markers := if bool_decide (rule = NoiseMarker) then 1 else 0 |}.

Definition count_removals (units : list Unit_) : TranscriptCleanupRemovals :=
  foldl (fun r u => match u.(removed) with Some rule => count_rule r rule | None => r end) no_removals units.

(** The rules in their order. *)
Definition apply_rules (units : list Unit_) : exec (list Unit_) :=
  let units := strip_known_hallucinations units in
  let! units := collapse_repeated_units units in
  let! units := collapse_interleaved_loops units in
  let units := trim_trailing_noise units in
  Val (strip_noise_markers units).

(** The units of a text after every rule. *)
Definition cleaned_units (text : rstr) : exec (list Unit_) :=
  let! raws := split_units text in
  let! units := make_units raws in
  apply_rules units.

Definition clean_final_transcript (text : rstr) : exec TranscriptCleanup :=
  let! units := cleaned_units text in
  let removals := count_removals units in
  if bool_decide (removals = no_removals) then Val Unchanged
  else
    let kept := trim (str_concat (map raw (alive units))) in
    Val (if existsb is_alphanumeric kept then Cleaned kept removals else Dropped removals).

(** ** The cut *)

Lemma starts_with_char c s : starts_with [c] s = true -> exists r, s = c :: r.
Proof. unfold starts_with. destruct s as [|d s]; cbn; [done|]. destruct (c =? d) eqn:E; [|done]. breflect. subst. by exists s. Qed.

Lemma ends_with_char c s : ends_with [c] s = true -> exists r, s = r ++ [c].
Proof.
  unfold ends_with, strip_suffix. cbn. destruct (rev s) as [|d r] eqn:R; [done|]. destruct (c =? d) eqn:E; [|done].
  breflect. subst. exists (rev r). by rewrite <- (rev_involutive s), R.
Qed.

Lemma find_char_from_spec i c s n :
  find_char_from i c s = Some n -> exists l r, s = l ++ c :: r /\ n = i + blen l.
Proof.
  revert i. induction s as [|d s IH]; intros i; cbn; [done|]. split_ifs.
  - intros [= <-]. subst. exists [], s. split; [done|]. cbn. lia.
  - intros (l & r & -> & ->)%IH. exists (d :: l), r. split; [done|]. cbn. lia.
Qed.

Lemma str_slice_mid a m b : str_slice (blen a) (blen (a ++ m)) (a ++ m ++ b) = Some m.
Proof. unfold str_slice. by rewrite app_assoc, split_at_byte_app, split_at_byte_app. Qed.

Lemma bracketed_inner c d s :
  len_utf8 c = 1 -> len_utf8 d = 1 -> starts_with [c] s = true -> ends_with [d] s = true -> 2 <= blen s ->
  exists m, str_slice 1 (blen s - 1) s = Some m.
Proof.
  intros Hc Hd (r & ->)%starts_with_char (l & E)%ends_with_char Hl.
  destruct l as [|c' m]; cbn in E; simplify_eq.
  - cbn in Hl. lia.
  - exists m. change (c' :: m ++ [d]) with ([c'] ++ m ++ [d]). rewrite <- (str_slice_mid [c'] m [d]).
    f_equal; cbn; rewrite ?blen_app; cbn; lia.
Qed.

Lemma is_noise_marker_total text : exists b, is_noise_marker text = Val b.
Proof.
  unfold is_noise_marker. set (t := default text _). destruct (negb _ || _) eqn:B; [by eexists|]. breflect.
  assert (exists m, str_slice 1 (blen t - 1) t = Some m) as [m ->].
  { apply orb_prop in H0 as [[A1 A2]%andb_prop|[A1 A2]%andb_prop].
    - by apply (bracketed_inner (chr "[") (chr "]")).
    - by apply (bracketed_inner (chr "(") (chr ")")). }
  cbn. destruct (forallb _ _); by eexists.
Qed.

(** A marker starts with a bracket, and looking for one never panics. *)
Lemma noise_marker_end_ok a rest :
  exists r, noise_marker_end (a ++ rest) (blen a) = Val r /\
    (is_some r = true -> exists c s, rest = c :: s /\ is_whitespace c = false).
Proof.
  unfold noise_marker_end. rewrite split_at_byte_app. cbn [expect exec_bind].
  destruct rest as [|c s]; [by eexists|]. set (close := if c =? chr "[" then _ else _).
  assert (Hclose : forall d, close = Some d -> len_utf8 d = 1 /\ is_whitespace c = false).
  { unfold close. intros d. split_ifs; intros; by simplify_eq. }
  destruct close as [d|]; [|by eexists]. destruct (Hclose d eq_refl) as [Hd Hc].
  destruct (find_char d (c :: s)) as [n|] eqn:F; [|by eexists].
  apply find_char_from_spec in F as (l & r & E & ->). rewrite E.
  assert (Hn : 0 + blen l + 1 = blen (l ++ [d])) by (rewrite blen_app; cbn; lia).
  rewrite Hn. replace (l ++ d :: r) with ((l ++ [d]) ++ r) by by rewrite <- app_assoc.
  rewrite split_at_byte_app. cbn [expect exec_bind].
  destruct (is_noise_marker_total (l ++ [d])) as [b ->]. cbn [exec_bind]. destruct b; [|by eexists].
  cbn [negb]. replace (blen a + (0 + blen l) + 1) with (blen (a ++ (l ++ [d]))) by (rewrite !blen_app in *; cbn in *; lia).
  rewrite (app_assoc a (l ++ [d]) r), split_at_byte_app. cbn [expect exec_bind]. eexists. split; [done|].
  intros _. exists c, s. by rewrite <- app_assoc, E.
Qed.

Definition nonblank (s : rstr) : Prop := is_blank s = false.

Lemma nonblank_head c s : is_whitespace c = false -> nonblank (c :: s).
Proof.
  intros Hc. unfold nonblank. destruct (is_blank _) eqn:E; [|done]. apply is_blank_spec in E.
  apply Forall_cons in E as [E _]. congruence.
Qed.

Lemma units_loop_ok text rest :
  forall a p skip cut units, text = a ++ p ++ rest -> concat units = a -> Forall nonblank units ->
  (a <> [] -> nonblank (p ++ rest)) ->
  exists us a' q, units_loop text (char_indices_from (blen (a ++ p)) rest) skip (blen a) cut units
      = Val (us, blen a') /\
    text = a' ++ q /\ concat us = a' /\ Forall nonblank us /\ (a' <> [] -> nonblank q).
Proof.
  induction rest as [|c rest IH]; intros a p skip cut units Ht Hu Hn Ha; cbn [char_indices_from units_loop].
  { exists units, a, p. rewrite app_nil_r in Ht, Ha. done. }
  assert (step : forall skip cut, exists us a' q,
    units_loop text (char_indices_from (blen (a ++ p) + len_utf8 c) rest) skip (blen a) cut units
      = Val (us, blen a') /\ text = a' ++ q /\ concat us = a' /\ Forall nonblank us /\ (a' <> [] -> nonblank q)).
  { intros sk ct. destruct (IH a (p ++ [c]) sk ct units) as (us & a' & q & E & R); try done.
    - by rewrite <- app_assoc.
    - by rewrite <- app_assoc.
    - exists us, a', q. split; [|done]. rewrite <- E. f_equal. rewrite !blen_app. cbn. f_equal. lia. }
  destruct (_ <? _); [apply step|].
  assert (Ht' : text = (a ++ p) ++ c :: rest) by by rewrite <- app_assoc.
  destruct (noise_marker_end_ok (a ++ p) (c :: rest)) as (r & Hr & Hm). rewrite <- Ht' in Hr. rewrite Hr.
  cbn [exec_bind]. destruct (_ || _) eqn:Hcut.
  2:{ cbn [exec_bind]. destruct r; apply step. }
  assert (Hws : is_whitespace c = false).
  { apply orb_prop in Hcut as [[_ Hc]%andb_prop|Hc]; [by breflect|]. destruct (Hm Hc) as (? & ? & ? & ?). by simplify_eq. }
  assert (Hs : str_slice (blen a) (blen (a ++ p)) text = Some p) by (rewrite Ht; apply str_slice_mid).
  rewrite Hs. cbn [expect exec_bind]. destruct (is_blank p) eqn:Hp; cbn [exec_bind].
  { destruct r; apply step. }
  assert (next : forall skip cut, exists us a' q,
    units_loop text (char_indices_from (blen (a ++ p) + len_utf8 c) rest) skip (blen (a ++ p)) cut (units ++ [p])
      = Val (us, blen a') /\ text = a' ++ q /\ concat us = a' /\ Forall nonblank us /\ (a' <> [] -> nonblank q)).
  { intros sk ct. destruct (IH (a ++ p) [c] sk ct (units ++ [p])) as (us & a' & q & E & R); try done.
    - rewrite concat_app. cbn. by rewrite Hu, app_nil_r.
    - apply Forall_app. split; [done|]. by repeat constructor.
    - intros _. by apply nonblank_head.
    - exists us, a', q. split; [|done]. rewrite <- E. f_equal. rewrite !blen_app. cbn. f_equal. lia. }
  destruct r; apply next.
Qed.

Lemma split_units_ok text :
  exists units, split_units text = Val units /\ concat units = text /\ (nonblank text -> Forall nonblank units).
Proof.
  unfold split_units, char_indices. destruct (units_loop_ok text text [] [] 0 false []) as (us & a & q & E & Ht & Hc & Hn & Hq);
    try done.
  cbn in E. rewrite E. cbn [exec_bind]. assert (Hl : blen text = blen a + blen q) by by rewrite Ht, blen_app.
  pose proof (blen_nonneg q). destruct (_ <? _) eqn:L; breflect.
  - assert (Hs : split_at_byte (blen a) text = Some (a, q)) by by apply split_at_byte_Some.
    rewrite Hs. cbn. eexists. split; [done|]. split.
    + rewrite concat_app. cbn. by rewrite app_nil_r, Hc, <- Ht.
    + intros Hb. apply Forall_app. split; [done|]. constructor; [|constructor]. destruct a; [|by apply Hq].
      cbn in Ht. by rewrite <- Ht.
  - assert (q = []) as -> by (apply blen_0; lia). rewrite app_nil_r in Ht. exists us. split; [done|]. split; [by rewrite Hc|done].
Qed.

(** ** What the rules do to the units *)

(** A unit some rules later: its text is the same, and a removal is final. *)
Definition later (u v : Unit_) : Prop :=
  v = u \/ (u.(removed) = None /\ exists rule, v = remove rule u).

Lemma later_refl u : later u u.
Proof. by left. Qed.

Lemma later_all units : Forall2 later units units.
Proof. induction units; constructor; [apply later_refl|done]. Qed.

Lemma later_remove rule u : u.(removed) = None -> later u (remove rule u).
Proof. intros H'. right. split; [done|]. by eexists. Qed.

Lemma later_fields u v : later u v -> v.(raw) = u.(raw) /\ v.(key) = u.(key) /\ v.(noise_marker) = u.(noise_marker).
Proof. by intros [->|(_ & rule & ->)]. Qed.

Lemma alive_removed units : Forall (fun u => u.(removed) = None) (alive units).
Proof.
  induction units as [|u units IH]; cbn; [constructor|]. destruct (is_alive u) eqn:E; [|done].
  constructor; [|done]. unfold is_alive in E. by destruct (removed u).
Qed.

Lemma is_alive_removed u : is_alive u = true <-> u.(removed) = None.
Proof. unfold is_alive. by destruct (removed u). Qed.

Lemma write_back_later units updated :
  Forall2 later (alive units) updated -> Forall2 later units (write_back units updated).
Proof.
  revert updated. induction units as [|u units IH]; intros updated F; cbn in *; [constructor|].
  destruct (is_alive u).
  - inversion F; subst. constructor; [done|]. by apply IH.
  - constructor; [apply later_refl|]. by apply IH.
Qed.

Lemma Forall2_map_later f (units : list Unit_) :
  Forall (fun u => later u (f u)) units -> Forall2 later units (map f units).
Proof. induction 1; cbn; by constructor. Qed.

(** What a removal says about the unit, the repetitions apart. *)
Definition justified (u : Unit_) : Prop :=
  match u.(removed) with
  | Some KnownHallucination => is_known_hallucination u = true /\ u.(noise_marker) = false
  | Some TrailingNoise => is_always_noise (content u) = true \/ is_trailing_filler (content u) = true
  | Some NoiseMarker => u.(noise_marker) = true
  | Some Repeated | Some InterleavedLoop | None => True
  end.

Lemma unremoved_justified u : u.(removed) = None -> justified u.
Proof. intros E. unfold justified. by rewrite E. Qed.

(** *** Repetitions and loops keep a representative *)

Definition is_repetition (u : Unit_) : bool :=
  bool_decide (u.(removed) = Some Repeated) || bool_decide (u.(removed) = Some InterleavedLoop).

Definition heard (seen : list rstr) (t : rstr) : Prop := is_filler t = true \/ t ∈ seen.

(** Every unit removed for repetition has the words of an earlier one that is
    not, or is a filler word. *)
Fixpoint represented (seen : list rstr) (units : list Unit_) : Prop :=
  match units with
  | [] => True
  | u :: units =>
      if is_repetition u then heard seen (key_text u) /\ represented seen units
      else represented (key_text u :: seen) units
  end.

Lemma heard_mono seen seen' t : (forall x, x ∈ seen -> heard seen' x) -> heard seen t -> heard seen' t.
Proof. intros S [Hf|Hf]; [by left|by apply S]. Qed.

Lemma represented_mono units : forall seen seen',
  (forall x, x ∈ seen -> heard seen' x) -> represented seen units -> represented seen' units.
Proof.
  induction units as [|u units IH]; intros seen seen' S R; cbn in *; [done|]. destruct (is_repetition u).
  - destruct R as [R1 R2]. split; [by eapply heard_mono|by eapply IH].
  - eapply IH; [|exact R]. intros x [->|Hx]%elem_of_cons; [right; by left|].
    destruct (S x Hx) as [?|?]; [by left|right; by right].
Qed.

Lemma not_repetition_alive u : u.(removed) = None -> is_repetition u = false.
Proof. unfold is_repetition. by intros ->. Qed.

Lemma later_key_text u v : later u v -> key_text v = key_text u.
Proof. intros (_ & E & _)%later_fields. unfold key_text. by rewrite E. Qed.

Lemma write_back_represented units : forall updated seen0 seen1,
  represented seen0 units -> Forall2 later (alive units) updated ->
  (forall t, t ∈ seen0 -> heard seen1 t) -> represented seen1 updated ->
  represented seen1 (write_back units updated).
Proof.
  induction units as [|u units IH]; intros updated seen0 seen1 R F S U; cbn in *; [done|].
  destruct (is_alive u) eqn:A.
  - apply is_alive_removed in A. rewrite (not_repetition_alive u A) in R.
    inversion F as [|? v ? vs Hl Hs]; subst. cbn in *. pose proof (later_key_text _ _ Hl) as Hk.
    destruct (is_repetition v) eqn:V.
    + destruct U as [U1 U2]. split; [done|]. eapply IH; [exact R|done| |done].
      intros t [->|Ht]%elem_of_cons; [by rewrite <- Hk|by apply S].
    + eapply IH; [exact R|done| |done]. rewrite Hk. intros t [->|Ht]%elem_of_cons; [right; by left|].
      destruct (S t Ht); [by left|right; by right].
  - cbn. destruct (is_repetition u).
    + destruct R as [R1 R2]. split; [by eapply heard_mono|]. by eapply IH.
    + eapply IH; [exact R|done| |].
      * intros t [->|Ht]%elem_of_cons; [right; by left|]. destruct (S t Ht); [by left|right; by right].
      * eapply represented_mono; [|exact U]. intros t Ht. right. by right.
Qed.

(** Updates by other rules do not matter to it. *)
Lemma represented_no_repetition seen units :
  Forall (fun u => is_repetition u = false) units -> represented seen units.
Proof. intros F. revert seen. induction F as [|u units Hu F IH]; intros seen; cbn; [done|]. by rewrite Hu. Qed.

(** *** Repeated units *)

Lemma same_key_run_spec k units run rest :
  same_key_run k units = (run, rest) ->
  units = run ++ rest /\ Forall (fun u => u.(key) = k) run.
Proof.
  revert run rest. induction units as [|u units IH]; intros run rest E; cbn in E; [by simplify_eq|].
  destruct (bool_decide _) eqn:B; breflect; [|by simplify_eq]. destruct (same_key_run k units) as [r s].
  simplify_eq. destruct (IH _ _ eq_refl) as [-> F]. split; [done|by constructor].
Qed.

Lemma represented_run seen t run rest :
  t ∈ seen -> Forall (fun u => key_text u = t /\ u.(removed) = None) run ->
  forall b : bool, (forall seen', seen ⊆ seen' -> represented seen' rest) ->
  represented seen ((if b then map (remove Repeated) run else run) ++ rest).
Proof.
  intros Ht F b R. revert seen Ht R. induction F as [|u run [Hk Hr] F IH]; intros seen Ht R.
  - destruct b; by apply R.
  - destruct b; cbn.
    + split; [right; by unfold key_text in *; cbn; rewrite Hk|]. by apply (IH seen).
    + rewrite (not_repetition_alive u Hr). apply (IH (key_text u :: seen)); [by right|].
      intros seen' S. apply R. set_solver.
Qed.

Lemma repeat_loop_ok fuel units :
  (length units <= fuel)%nat -> Forall (fun u => u.(removed) = None) units ->
  exists updated, repeat_loop fuel units = Val updated /\ Forall2 later units updated /\
    (forall seen, represented seen updated) /\ Forall justified updated.
Proof.
  revert units. induction fuel as [|fuel IH]; intros units L F; (destruct units as [|u rest]; [by exists []|]);
    [cbn in L; lia|]. cbn [repeat_loop]. apply Forall_cons in F as [Hu F]. cbn in L. destruct (_ || _).
  - destruct (IH rest) as (updated & -> & A & B & C); [lia|done|]. exists (u :: updated). split; [done|].
    split; [constructor; [apply later_refl|done]|]. split; [|constructor; [by apply unremoved_justified|done]].
    intros seen. cbn. rewrite (not_repetition_alive u Hu). apply B.
  - destruct (same_key_run (key u) rest) as [run rest'] eqn:E. apply same_key_run_spec in E as [-> K].
    rewrite length_app in L. apply Forall_app in F as [F1 F2].
    destruct (IH rest') as (updated & -> & A & B & C); [lia|done|]. cbn [exec_bind]. set (b := bool_decide _).
    exists (u :: (if b then map (remove Repeated) run else run) ++ updated). split; [done|]. split; [|split].
    + constructor; [apply later_refl|]. apply Forall2_app; [|done]. destruct b.
      * apply Forall2_map_later. eapply Forall_impl; [exact F1|]. intros v. apply later_remove.
      * apply later_all.
    + intros seen. cbn. rewrite (not_repetition_alive u Hu).
      apply (represented_run _ (key_text u)); [by left| |intros; apply B].
      apply Forall_forall. intros v Hv. rewrite Forall_forall in K, F1. split; [|by apply F1].
      unfold key_text. by rewrite (K v Hv).
    + constructor; [by apply unremoved_justified|]. apply Forall_app. split; [|done].
      destruct b; [apply Forall_map; by apply Forall_true|].
      eapply Forall_impl; [exact F1|]. intros v. apply unremoved_justified.
Qed.

(** *** Interleaved loops *)

Lemma grow_region_ok fuel texts phrase region_end :
  (length texts - region_end <= fuel)%nat -> (region_end <= length texts)%nat ->
  exists e, grow_region fuel texts phrase region_end = Val e /\ (region_end <= e <= length texts)%nat.
Proof.
  revert region_end. induction fuel as [|fuel IH]; intros r L B; cbn [grow_region];
    destruct (bool_decide _) eqn:D; breflect; try (exists r; split; [done|lia]); [lia|].
  destruct (_ || _).
  - destruct (IH (r + 1)%nat) as (e & -> & He); [lia..|]. exists e. split; [done|lia].
  - destruct (position phrase (take 3 (drop r texts))) as [gap|] eqn:P; [|exists r; split; [done|lia]].
    assert (Hg : (gap < length (take 3 (drop r texts)))%nat).
    { clear -P. revert gap P. induction (take 3 (drop r texts)) as [|t l IH]; intros gap P; cbn in *; [done|].
      destruct (bool_decide _); [simplify_eq; lia|]. destruct (position phrase l) as [n|]; [|done].
      cbn in P. simplify_eq. specialize (IH n eq_refl). lia. }
    rewrite length_take, length_drop in Hg. destruct (bool_decide _); [|exists r; split; [done|lia]].
    destruct (IH (r + gap + 1)%nat) as (e & -> & He); [lia..|]. exists e. split; [done|lia].
Qed.

(** The marks of a list of texts: every marked one was heard before. *)
Fixpoint marks_ok (seen texts : list rstr) (marks : list bool) : Prop :=
  match texts, marks with
  | t :: texts, m :: marks =>
      if m : bool then heard seen t /\ marks_ok seen texts marks else marks_ok (t :: seen) texts marks
  | [], [] => True
  | _, _ => False
  end.

Lemma marks_ok_mono texts : forall marks seen seen',
  (forall x, x ∈ seen -> heard seen' x) -> marks_ok seen texts marks -> marks_ok seen' texts marks.
Proof.
  induction texts as [|t texts IH]; intros [|m marks] seen seen' S M; cbn in *; try done. destruct m.
  - destruct M as [M1 M2]. split; [by eapply heard_mono|by eapply IH].
  - eapply IH; [|exact M]. intros x [->|Hx]%elem_of_cons; [right; by left|].
    destruct (S x Hx); [by left|right; by right].
Qed.

Lemma marks_ok_app t1 : forall m1 seen t2 m2,
  marks_ok seen t1 m1 -> marks_ok [] t2 m2 -> marks_ok seen (t1 ++ t2) (m1 ++ m2).
Proof.
  induction t1 as [|t t1 IH]; intros [|m m1] seen t2 m2 A B; cbn in *; try done.
  - eapply marks_ok_mono; [|exact B]. intros x Hx. by apply elem_of_nil in Hx.
  - destruct m; [destruct A; split; [done|]|]; by apply IH.
Qed.

Lemma marks_ok_false texts : forall seen, marks_ok seen texts (replicate (length texts) false).
Proof. induction texts; intros seen; cbn; auto. Qed.

Lemma mark_region_ok phrase texts : forall seen kept,
  (kept = true -> phrase ∈ seen) ->
  marks_ok seen texts (mark_region phrase texts (replicate (length texts) false) kept).
Proof.
  induction texts as [|t texts IH]; intros seen kept K; cbn; [done|]. destruct (negb kept && _) eqn:E.
  - breflect. subst t. apply IH. intros _. by left.
  - cbn. destruct (bool_decide (t = phrase)) eqn:P; breflect.
    + subst t. rewrite andb_true_r in E. breflect. subst kept. cbn. split; [right; by apply K|by apply IH].
    + cbn. destruct (is_filler t) eqn:F; [split; [by left|by apply IH]|]. apply IH. intros. right. by apply K.
Qed.

Lemma marks_ok_length seen texts marks : marks_ok seen texts marks -> length marks = length texts.
Proof.
  revert seen marks. induction texts as [|t texts IH]; intros seen [|m marks]; cbn; try done.
  destruct m; [intros [_ M]|intros M]; f_equal; by eapply IH.
Qed.

Lemma mark_span_replicate phrase texts marks start e :
  length marks = start -> (start <= e <= length texts)%nat ->
  mark_span phrase texts (marks ++ replicate (length texts - start) false) start e =
  (marks ++ mark_region phrase (take (e - start) (drop start texts))
     (replicate (length (take (e - start) (drop start texts))) false) false)
  ++ replicate (length texts - e) false.
Proof.
  intros Hm He. unfold mark_span. rewrite <- app_assoc. f_equal; [by rewrite take_app_length' by done|].
  rewrite drop_app_length' by done. rewrite length_take, length_drop, take_replicate. f_equal.
  rewrite drop_app_ge by lia. rewrite drop_replicate. f_equal. lia.
Qed.

Lemma loop_scan_ok fuel texts : forall start marks,
  (length texts - start <= fuel)%nat -> (start <= length texts)%nat ->
  marks_ok [] (take start texts) marks ->
  exists marks', loop_scan fuel texts start (marks ++ replicate (length texts - start) false) = Val marks' /\
    marks_ok [] texts marks'.
Proof.
  assert (stop : forall start marks, (start <= length texts)%nat -> marks_ok [] (take start texts) marks ->
    marks_ok [] texts (marks ++ replicate (length texts - start) false)).
  { intros start marks B M. rewrite <- (take_drop start texts) at 1. apply marks_ok_app; [done|].
    rewrite <- length_drop. apply marks_ok_false. }
  induction fuel as [|fuel IH]; intros start marks L B M; cbn [loop_scan];
    destruct (bool_decide (start + LOOP_WINDOW <= length texts)%nat) eqn:D; breflect; eauto;
    unfold LOOP_WINDOW in *; [lia|].
  assert (step : exists marks', loop_scan fuel texts (start + 1) (marks ++ replicate (length texts - start) false)
    = Val marks' /\ marks_ok [] texts marks').
  { replace (length texts - start)%nat with (1 + (length texts - (start + 1)))%nat by lia.
    cbn [replicate Nat.add]. change (false :: ?l) with ([false] ++ l). rewrite app_assoc. apply IH; [lia..|].
    destruct (lookup_lt_is_Some_2 texts start) as [t Ht]; [lia|].
    rewrite Nat.add_1_r, (take_S_r _ _ _ Ht). by apply marks_ok_app. }
  destruct (dominant _) as [phrase|]; [|done].
  destruct (grow_region_ok (length texts) texts phrase (start + 10)) as (e & -> & He); [lia..|]. cbn [exec_bind].
  destruct (_ && _); [|done].
  assert (Hm : length marks = start) by (rewrite (marks_ok_length _ _ _ M), length_take; lia).
  rewrite mark_span_replicate by (done || lia). apply IH; [lia..|].
  replace (take e texts) with (take start texts ++ take (e - start) (drop start texts)).
  - apply marks_ok_app; [done|]. by apply mark_region_ok.
  - rewrite take_take_drop. f_equal. lia.
Qed.

Lemma apply_marks_represented units : forall marks seen,
  Forall (fun u => u.(removed) = None) units -> marks_ok seen (map key_text units) marks ->
  represented seen (apply_marks units marks) /\ Forall2 later units (apply_marks units marks) /\
  Forall justified (apply_marks units marks).
Proof.
  induction units as [|u units IH]; intros [|m marks] seen F M; cbn in *; try done.
  apply Forall_cons in F as [Hu F]. destruct m; cbn.
  - destruct M as [M1 M2]. destruct (IH marks seen F M2) as (A & B & C).
    split_and!; [exact (conj M1 A)|constructor; [by apply later_remove|done]|by constructor].
  - rewrite (not_repetition_alive u Hu). destruct (IH marks _ F M) as (A & B & C).
    split_and!; [done|constructor; [apply later_refl|done]|constructor; [by apply unremoved_justified|done]].
Qed.

(** *** Every rule *)

(** One rule applied to the borrowed units. *)
Record sound_update (units updated : list Unit_) : Prop := {
  su_later : Forall2 later units updated;
  su_represented : represented [] updated;
  su_justified : Forall justified updated;
}.

Record sound (units : list Unit_) : Prop := {
  so_represented : represented [] units;
  so_justified : Forall justified units;
}.

Lemma write_back_justified units : forall updated,
  Forall justified units -> Forall justified updated -> Forall justified (write_back units updated).
Proof.
  induction units as [|u units IH]; intros updated F U; cbn; [constructor|]. apply Forall_cons in F as [Hu F].
  destruct (is_alive u).
  - destruct updated as [|v updated]; [by constructor|]. apply Forall_cons in U as [Hv U].
    constructor; [done|]. by apply IH.
  - constructor; [done|]. by apply IH.
Qed.

Lemma write_back_sound units updated :
  sound units -> sound_update (alive units) updated ->
  sound (write_back units updated) /\ Forall2 later units (write_back units updated).
Proof.
  intros [S1 S2] [U1 U2 U3]. split; [|by apply write_back_later]. split; [|by apply write_back_justified].
  eapply write_back_represented; try done. intros t Ht. by apply elem_of_nil in Ht.
Qed.

(** A rule that looks at the units one by one. *)
Lemma sound_map f units :
  (forall u, u.(removed) = None ->
     later u (f u) /\ is_repetition (f u) = false /\ justified (f u)) ->
  Forall (fun u => u.(removed) = None) units -> sound_update units (map f units).
Proof.
  intros Hf F. split.
  - apply Forall2_map_later. eapply Forall_impl; [exact F|]. intros u Hu. by apply Hf.
  - apply represented_no_repetition, Forall_map. eapply Forall_impl; [exact F|]. intros u Hu. by apply Hf.
  - apply Forall_map. eapply Forall_impl; [exact F|]. intros u Hu. by apply Hf.
Qed.

Lemma unremoved_ok u : u.(removed) = None -> later u u /\ is_repetition u = false /\ justified u.
Proof. intros E. split; [apply later_refl|]. split; [by apply not_repetition_alive|by apply unremoved_justified]. Qed.

Lemma strip_known_sound units :
  sound units -> sound (strip_known_hallucinations units) /\ Forall2 later units (strip_known_hallucinations units).
Proof.
  intros S. apply write_back_sound; [done|]. apply sound_map; [|apply alive_removed]. intros u E.
  destruct (noise_marker u) eqn:N; [by apply unremoved_ok|].
  destruct (is_known_hallucination u) eqn:K; [|by apply unremoved_ok]. split; [by apply later_remove|]. by split.
Qed.

Lemma strip_markers_sound units :
  sound units -> sound (strip_noise_markers units) /\ Forall2 later units (strip_noise_markers units).
Proof.
  intros S. apply write_back_sound; [done|]. apply sound_map; [|apply alive_removed]. intros u E.
  destruct (noise_marker u) eqn:N; [|by apply unremoved_ok]. split; [by apply later_remove|]. by split.
Qed.

Lemma leading_spec {A} (p : A -> bool) l : Forall (fun x => p x = true) (take (leading p l) l).
Proof. induction l as [|x l IH]; cbn; [constructor|]. destruct (p x) eqn:E; cbn; by constructor. Qed.

Lemma leading_length {A} (p : A -> bool) l : (leading p l <= length l)%nat.
Proof. induction l as [|x l IH]; cbn; [lia|]. destruct (p x); cbn; lia. Qed.

Lemma trailing_spec {A} (p : A -> bool) l :
  Forall (fun x => p x = true) (drop (length l - trailing p l) l) /\ (trailing p l <= length l)%nat.
Proof.
  pose proof (leading_length p (rev l)) as L. rewrite length_rev in L. split; [|done].
  pose proof (leading_spec p (rev l)) as F. apply Forall_rev in F. unfold trailing. rewrite firstn_rev in F.
  by rewrite rev_involutive in F.
Qed.

Lemma trim_from_noise borrowed :
  Forall (fun u => is_always_noise (content u) = true \/ is_trailing_filler (content u) = true)
    (drop (trim_from borrowed) borrowed).
Proof.
  unfold trim_from. set (noise := fun u => is_always_noise (content u)). set (filler := fun u => is_trailing_filler (content u)).
  destruct (trailing_spec noise borrowed) as [N1 N2]. set (n := (length borrowed - trailing noise borrowed)%nat) in *.
  destruct (trailing_spec filler (take n borrowed)) as [F1 F2].
  rewrite length_take in F1, F2. replace (n `min` length borrowed)%nat with n in F1, F2 by lia.
  assert (N3 : Forall (fun u => is_always_noise (content u) = true \/ is_trailing_filler (content u) = true) (drop n borrowed))
    by (eapply Forall_impl; [exact N1|]; intros u; by left).
  destruct (bool_decide _); [|done]. rewrite <- (take_drop n borrowed) at 2. rewrite drop_app_le by (rewrite length_take; lia).
  apply Forall_app. split; [|done]. eapply Forall_impl; [exact F1|]. intros u. by right.
Qed.

Lemma trim_trailing_sound units :
  sound units -> sound (trim_trailing_noise units) /\ Forall2 later units (trim_trailing_noise units).
Proof.
  intros S. apply write_back_sound; [done|]. pose proof (alive_removed units) as F.
  pose proof (trim_from_noise (alive units)) as N. set (n := trim_from (alive units)) in *.
  rewrite <- (take_drop n (alive units)) in F. apply Forall_app in F as [F1 F2].
  rewrite <- (take_drop n (alive units)) at 1. split.
  - apply Forall2_app; [apply later_all|]. apply Forall2_map_later. eapply Forall_impl; [exact F2|]. intros u. apply later_remove.
  - apply represented_no_repetition, Forall_app. split.
    + eapply Forall_impl; [exact F1|]. intros u. apply not_repetition_alive.
    + apply Forall_map. by apply Forall_true.
  - apply Forall_app. split.
    + eapply Forall_impl; [exact F1|]. intros u E. by apply unremoved_ok.
    + apply Forall_map. exact N.
Qed.


Lemma collapse_repeated_sound units :
  sound units -> exists units', collapse_repeated_units units = Val units' /\ sound units' /\ Forall2 later units units'.
Proof.
  intros S. unfold collapse_repeated_units.
  destruct (repeat_loop_ok (length (alive units)) (alive units)) as (updated & -> & A & B & C); [done|apply alive_removed|].
  eexists. split; [done|]. by apply write_back_sound.
Qed.

Lemma collapse_loops_sound units :
  sound units -> exists units', collapse_interleaved_loops units = Val units' /\ sound units' /\ Forall2 later units units'.
Proof.
  intros S. unfold collapse_interleaved_loops. destruct (bool_decide _); [exists units; split_and!; [done..|apply later_all]|].
  destruct (loop_scan_ok (length (map key_text (alive units))) (map key_text (alive units)) 0 []) as (marks & E & M);
    [lia..|done|]. rewrite length_map, Nat.sub_0_r in E. rewrite length_map. cbn in E. rewrite E. cbn [exec_bind].
  destruct (apply_marks_represented (alive units) marks [] (alive_removed _) M) as (A & B & C).
  eexists. split; [done|]. by apply write_back_sound.
Qed.

Lemma later_trans us vs ws : Forall2 later us vs -> Forall2 later vs ws -> Forall2 later us ws.
Proof.
  intros A. revert ws. induction A as [|u v us vs Huv A IH]; intros ws B; inversion B as [|? w ? ws' Hvw B']; subst; constructor.
  - destruct Huv as [->|(E & r & ->)]; [done|]. destruct Hvw as [->|(E' & _)]; [right; by eauto|done].
  - by apply IH.
Qed.

Lemma apply_rules_sound units :
  Forall (fun u => u.(removed) = None) units ->
  exists units', apply_rules units = Val units' /\ sound units' /\ Forall2 later units units'.
Proof.
  intros F. assert (S0 : sound units).
  { split; [apply represented_no_repetition|]; eapply Forall_impl; try exact F; intros u E; by apply unremoved_ok. }
  unfold apply_rules. destruct (strip_known_sound units S0) as [S1 L1].
  destruct (collapse_repeated_sound _ S1) as (u2 & -> & S2 & L2).
  cbn [exec_bind]. destruct (collapse_loops_sound _ S2) as (u3 & -> & S3 & L3). cbn [exec_bind].
  destruct (trim_trailing_sound _ S3) as [S4 L4]. destruct (strip_markers_sound _ S4) as [S5 L5].
  eexists. split; [done|]. split; [done|]. by do 4 (eapply later_trans; [|done]).
Qed.

Lemma make_units_ok raws :
  exists units, make_units raws = Val units /\ map raw units = raws /\
    Forall (fun u => u.(removed) = None /\ u.(key) = repetition_key u.(raw)) units.
Proof.
  induction raws as [|r raws IH]; cbn; [by exists []|]. destruct IH as (units & -> & E & F). unfold make_unit.
  destruct (is_noise_marker_total (trim r)) as [b ->]. cbn. eexists. split; [done|]. cbn. rewrite E. split; [done|].
  by constructor.
Qed.

Lemma cleaned_units_ok text :
  exists units, cleaned_units text = Val units /\ concat (map raw units) = text /\ sound units /\
    (nonblank text -> Forall (fun u => nonblank u.(raw)) units).
Proof.
  destruct (split_units_ok text) as (raws & E1 & C & N). destruct (make_units_ok raws) as (given & E2 & R & F).
  destruct (apply_rules_sound given) as (units & E3 & S & L).
  { eapply Forall_impl; [exact F|]. by intros u [? _]. }
  exists units. unfold cleaned_units. rewrite E1. cbn [exec_bind]. rewrite E2. cbn [exec_bind]. rewrite E3.
  assert (M : map raw units = raws).
  { rewrite <- R. clear -L. induction L as [|u v us vs Huv L IH]; [done|]. cbn. rewrite IH. f_equal. by apply later_fields. }
  split_and!; [done|by rewrite M|done|]. intros Hn. apply Forall_map. rewrite M. by apply N.
Qed.

(** *** The reasons of the rules that look at several units

    The rules are applied one after the other, each to the units the earlier
    ones left. *)

Definition stage (rule : Rule) : nat :=
  match rule with
  | KnownHallucination => 0
  | Repeated => 1
  | InterleavedLoop => 2
  | TrailingNoise => 3
  | NoiseMarker => 4
  end.

(** The units a rule looked at: the ones no earlier rule removed. *)
Definition seen_by (rule : Rule) (units : list Unit_) : list Unit_ :=
  List.filter (fun u => match u.(removed) with
                        | Some r => bool_decide (stage rule <= stage r)%nat
                        | None => true
                        end) units.

(** The unit at [i] is in a run of at least three units with the same words,
    one after the other, of which every one but the first is removed. *)
Definition in_repeated_run (units : list Unit_) (i : nat) : Prop :=
  exists start stop k, (start < i < stop)%nat /\ (start + 3 <= stop)%nat /\ k <> [] /\
    forall j, (start <= j < stop)%nat -> exists v, units !! j = Some v /\ v.(key) = k /\
      (v.(removed) = Some Repeated <-> j <> start).

(** The unit at [i] is in a stretch of at least ten units in which a phrase
    that is no filler occurs at least five times; the unit is a filler word, or
    it is the phrase and an earlier occurrence in the stretch stays. *)
Definition in_loop (units : list Unit_) (i : nat) : Prop :=
  exists start stop phrase, (start <= i < stop)%nat /\ (stop <= length units)%nat /\
    (start + 10 <= stop)%nat /\ is_filler phrase = false /\
    (5 <= occurrences phrase (take (stop - start) (drop start (map key_text units))))%nat /\
    exists u, units !! i = Some u /\
      (is_filler (key_text u) = true \/
       key_text u = phrase /\ exists j v, (start <= j < i)%nat /\ units !! j = Some v /\
         key_text v = phrase /\ v.(removed) <> Some InterleavedLoop).

(** What is trimmed is the end of the units: noise, before it fillers when
    there are at least five of them in a row. *)
Definition trimmed_at_the_end (units : list Unit_) : Prop :=
  exists kept fillers noise, units = kept ++ fillers ++ noise /\
    Forall (fun u => u.(removed) <> Some TrailingNoise) kept /\
    Forall (fun u => u.(removed) = Some TrailingNoise /\ is_trailing_filler (content u) = true) fillers /\
    Forall (fun u => u.(removed) = Some TrailingNoise /\ is_always_noise (content u) = true) noise /\
    (fillers = [] \/ 5 <= length fillers)%nat.

(** A unit one rule later, and any number of rules later. *)
Definition by_stage (n : nat) (u v : Unit_) : Prop :=
  v = u \/ (u.(removed) = None /\ exists rule, stage rule = n /\ v = remove rule u).
Definition later_from (n : nat) (u v : Unit_) : Prop :=
  v = u \/ (u.(removed) = None /\ exists rule, (n <= stage rule)%nat /\ v = remove rule u).
Definition removed_before (n : nat) (units : list Unit_) : Prop :=
  Forall (fun u => forall r, u.(removed) = Some r -> (stage r < n)%nat) units.

Lemma by_stage_all n units : Forall2 (by_stage n) units units.
Proof. induction units; constructor; [by left|done]. Qed.

Lemma by_stage_map n f units :
  (forall u, u.(removed) = None -> by_stage n u (f u)) ->
  Forall (fun u => u.(removed) = None) units -> Forall2 (by_stage n) units (map f units).
Proof. intros Hf. induction 1; cbn; constructor; auto. Qed.

Lemma by_stage_remove rule u : u.(removed) = None -> by_stage (stage rule) u (remove rule u).
Proof. intros Hu. right. eauto. Qed.

Lemma write_back_by_stage n units : forall updated,
  Forall2 (by_stage n) (alive units) updated -> Forall2 (by_stage n) units (write_back units updated).
Proof.
  induction units as [|u units IH]; intros updated F; cbn in *; [constructor|].
  destruct (is_alive u); [inversion F; subst|]; constructor; auto; by left.
Qed.

Lemma by_stage_before n units updated :
  removed_before n units -> Forall2 (by_stage n) units updated -> removed_before (S n) updated.
Proof.
  unfold removed_before. induction 2 as [|u v us vs Huv F IH]; [constructor|]. apply Forall_cons in H0 as [Hu H0].
  constructor; [|by apply IH]. intros r Hr. destruct Huv as [->|(_ & rule & <- & ->)]; [by apply Hu in Hr; lia|].
  cbn in Hr. simplify_eq. lia.
Qed.

Lemma later_from_trans n us vs ws :
  Forall2 (by_stage n) us vs -> Forall2 (later_from (S n)) vs ws -> Forall2 (later_from n) us ws.
Proof.
  intros A. revert ws. induction A as [|u v us vs Huv A IH]; intros ws B; inversion B as [|? w ? ws' Hvw B']; subst;
    constructor; [|by apply IH].
  destruct Huv as [->|(E & r & Hr & ->)].
  - destruct Hvw as [->|(E & r & Hr & ->)]; [by left|]. right. split; [done|]. exists r. split; [lia|done].
  - destruct Hvw as [->|(E' & _)]; [|done]. right. split; [done|]. exists r. split; [lia|done].
Qed.

Lemma later_from_all n units : Forall2 (later_from n) units units.
Proof. induction units; constructor; [by left|done]. Qed.

(** The units a rule looked at, in the end, are its updates some rules later. *)
Lemma seen_by_write_back rule units : forall updated final,
  removed_before (stage rule) units -> Forall2 (by_stage (stage rule)) (alive units) updated ->
  Forall2 (later_from (S (stage rule))) (write_back units updated) final ->
  Forall2 (later_from (S (stage rule))) updated (seen_by rule final).
Proof.
  unfold removed_before. induction units as [|u units IH]; intros updated final Hb Hu Hf; cbn in *.
  { inversion Hu; subst. inversion Hf; subst. constructor. }
  apply Forall_cons in Hb as [Hub Hb]. destruct (is_alive u) eqn:A.
  - inversion Hu as [|? v ? vs Huv Hus]; subst. inversion Hf as [|? w ? ws Hvw Hws]; subst. cbn.
    assert (S : match w.(removed) with Some r => bool_decide (stage rule <= stage r)%nat | None => true end = true).
    { apply is_alive_removed in A. destruct Hvw as [->|(E & r & Hr & ->)]; cbn; [|by apply bool_decide_true; lia].
      destruct Huv as [->|(_ & r & Hr & ->)]; [by rewrite A|]. cbn. apply bool_decide_true. lia. }
    rewrite S. constructor; [done|]. by apply IH.
  - unfold is_alive in A. destruct (removed u) as [r|] eqn:R; [|done].
    inversion Hf as [|? w ? ws Hvw Hws]; subst. destruct Hvw as [->|(E & _)]; [|congruence].
    cbn. rewrite R, bool_decide_false by (specialize (Hub r eq_refl); lia). by apply IH.
Qed.

Lemma later_from_lookup n us vs i v :
  Forall2 (later_from n) us vs -> vs !! i = Some v -> exists u, us !! i = Some u /\ later_from n u v.
Proof. intros F L. by destruct (Forall2_lookup_r _ _ _ _ _ F L) as (u & ? & ?); eauto. Qed.

Lemma later_from_key n u v : later_from n u v -> v.(key) = u.(key) /\ content v = content u.
Proof. by intros [->|(_ & r & _ & ->)]. Qed.

Lemma later_from_removed n u v rule :
  later_from n u v -> (stage rule < n)%nat -> v.(removed) = Some rule <-> u.(removed) = Some rule.
Proof.
  intros [->|(E & r & Hr & ->)] Hn; [done|]. cbn. rewrite E. split; [|done]. intros. simplify_eq. lia.
Qed.

(** A run of repeated units, seen some rules later. *)
Lemma in_repeated_run_later us vs i :
  Forall2 (later_from 2) us vs -> in_repeated_run us i -> in_repeated_run vs i.
Proof.
  intros F (start & stop & k & B & L & N & R). exists start, stop, k. split_and!; [lia..|done|].
  intros j Hj. destruct (R j Hj) as (u & Hu & Hk & Hr).
  destruct (Forall2_lookup_l _ _ _ _ _ F Hu) as (v & Hv & Huv). exists v.
  rewrite (proj1 (later_from_key _ _ _ Huv)), (later_from_removed _ _ _ Repeated Huv) by (cbn; lia). done.
Qed.

Lemma later_from_key_texts n us vs :
  Forall2 (later_from n) us vs -> map key_text vs = map key_text us.
Proof.
  induction 1 as [|u v us vs Huv F IH]; [done|]. cbn. rewrite IH. f_equal. unfold key_text.
  by rewrite (proj1 (later_from_key _ _ _ Huv)).
Qed.

Lemma in_loop_later us vs i :
  Forall2 (later_from 3) us vs -> in_loop us i -> in_loop vs i.
Proof.
  intros F (start & stop & phrase & B & L & W & Hf & O & u & Hu & C). exists start, stop, phrase.
  rewrite (later_from_key_texts _ _ _ F). rewrite <- (Forall2_length _ _ _ F). split_and!; [lia..|done|done|].
  destruct (Forall2_lookup_l _ _ _ _ _ F Hu) as (v & Hv & Huv). exists v. split; [done|].
  unfold key_text in *. rewrite (proj1 (later_from_key _ _ _ Huv)).
  destruct C as [C|(C & j & w & Hj & Hw & Kw & Rw)]; [by left|right]. split; [done|].
  destruct (Forall2_lookup_l _ _ _ _ _ F Hw) as (x & Hx & Hwx). exists j, x.
  rewrite (proj1 (later_from_key _ _ _ Hwx)), (later_from_removed _ _ _ InterleavedLoop Hwx) by (cbn; lia). done.
Qed.

Lemma trimmed_at_the_end_later us vs :
  Forall2 (later_from 4) us vs -> trimmed_at_the_end us -> trimmed_at_the_end vs.
Proof.
  intros F (kept & fillers & noise & -> & K & L & N & T).
  apply Forall2_app_inv_l in F as (kept' & rest & FK & F & ->).
  apply Forall2_app_inv_l in F as (fillers' & noise' & FL & FN & ->).
  exists kept', fillers', noise'. split; [done|].
  assert (R : forall u v, later_from 4 u v -> v.(removed) = Some TrailingNoise <-> u.(removed) = Some TrailingNoise)
    by (intros u v Huv; apply (later_from_removed _ _ _ TrailingNoise Huv); cbn; lia).
  split_and!.
  - clear -FK K R. induction FK as [|u v us vs Huv FK IH]; [constructor|].
    apply Forall_cons in K as [Ku K]. constructor; [by rewrite (R _ _ Huv)|by apply IH].
  - clear -FL L R. induction FL as [|u v us vs Huv FK IH]; [constructor|].
    apply Forall_cons in L as [Lu L].
    constructor; [by rewrite (R _ _ Huv), (proj2 (later_from_key _ _ _ Huv))|by apply IH].
  - clear -FN N R. induction FN as [|u v us vs Huv FK IH]; [constructor|].
    apply Forall_cons in N as [Nu N].
    constructor; [by rewrite (R _ _ Huv), (proj2 (later_from_key _ _ _ Huv))|by apply IH].
  - apply Forall2_length in FL. destruct T as [->|T]; [left; by destruct fillers'|right; lia].
Qed.

Lemma in_repeated_run_app us vs i : in_repeated_run vs i -> in_repeated_run (us ++ vs) (length us + i).
Proof.
  intros (start & stop & k & B & L & N & R). exists (length us + start)%nat, (length us + stop)%nat, k.
  split_and!; [lia..|done|]. intros j Hj. destruct (R (j - length us)%nat) as (v & Hv & Hk & Hr); [lia|].
  exists v. rewrite lookup_app_r by lia. split_and!; [done..|]. rewrite Hr. lia.
Qed.

(** The run that starts at a unit and of which the others are removed. *)
Lemma in_repeated_run_here u run rest i :
  u.(removed) = None -> u.(key) <> [] -> Forall (fun v => v.(key) = u.(key)) run ->
  (3 <= 1 + length run)%nat -> (0 < i <= length run)%nat ->
  in_repeated_run (u :: map (remove Repeated) run ++ rest) i.
Proof.
  intros Hu Hk Hrun Hl Hi. exists 0%nat, (S (length run)), u.(key). split_and!; [lia..|done|].
  intros [|j] Hj; [exists u; by rewrite Hu|].
  destruct (lookup_lt_is_Some_2 run j) as [v Hv]; [lia|]. exists (remove Repeated v).
  assert (L : (u :: map (remove Repeated) run ++ rest) !! S j = Some (remove Repeated v)).
  { rewrite lookup_cons, lookup_app_l by (rewrite length_map; lia). by rewrite list_lookup_fmap, Hv. }
  rewrite Forall_lookup in Hrun. split; [done|]. split; [exact (Hrun j v Hv)|done].
Qed.

Lemma repeat_loop_reasons fuel : forall units updated,
  repeat_loop fuel units = Val updated -> Forall (fun u => u.(removed) = None) units ->
  Forall2 (by_stage 1) units updated /\
  forall i u, updated !! i = Some u -> u.(removed) = Some Repeated -> in_repeated_run updated i.
Proof.
  induction fuel as [|fuel IH]; intros [|u rest] updated E F; cbn [repeat_loop] in E; simplify_eq; [done..|].
  apply Forall_cons in F as [Hu F]. destruct (_ || _) eqn:K.
  - destruct (repeat_loop fuel rest) as [upd| |] eqn:E1; cbn in E; simplify_eq.
    destruct (IH _ _ E1 F) as [A B]. split; [constructor; [by left|done]|].
    intros [|i] v Hv Hr; [cbn in Hv; simplify_eq; congruence|]. apply (in_repeated_run_app [u]). by eapply B.
  - apply orb_false_iff in K as [_ K]. destruct (same_key_run (key u) rest) as [run rest'] eqn:S.
    apply same_key_run_spec in S as [-> R]. apply Forall_app in F as [F1 F2].
    destruct (repeat_loop fuel rest') as [upd| |] eqn:E1; cbn [exec_bind] in E; simplify_eq.
    destruct (IH _ _ E1 F2) as [A B]. set (b := bool_decide _). split.
    + constructor; [by left|]. apply Forall2_app; [|done]. destruct b; [|apply by_stage_all].
      apply by_stage_map; [|done]. intros v. apply (by_stage_remove Repeated).
    + intros i v Hv Hr. set (run' := if b then _ else _) in *.
      assert (Hlen : length run' = length run) by (unfold run'; destruct b; by rewrite ?length_map).
      destruct (decide (i <= length run)%nat) as [Hi|Hi].
      * destruct i as [|i]; [cbn in Hv; simplify_eq; congruence|]. rewrite lookup_cons in Hv.
        rewrite lookup_app_l in Hv by lia. unfold run' in *. destruct b eqn:Eb.
        -- unfold b in Eb. breflect. apply in_repeated_run_here; try done; [|lia]. by destruct (key u).
        -- rewrite Forall_lookup in F1. apply F1 in Hv. congruence.
      * rewrite app_comm_cons in Hv |- *. rewrite lookup_app_r in Hv by (cbn; lia).
        replace i with (length (u :: run') + (i - length (u :: run')))%nat by (cbn; lia).
        apply in_repeated_run_app. by eapply B.
Qed.

(** The marks of a scan: unmarked texts, and stretches dominated by a phrase. *)
Inductive Looped : list rstr -> list bool -> Prop :=
| Looped_nil : Looped [] []
| Looped_keep t texts marks : Looped texts marks -> Looped (t :: texts) (false :: marks)
| Looped_stretch phrase region texts marks :
    is_filler phrase = false -> (10 <= length region)%nat -> (5 <= occurrences phrase region)%nat ->
    Looped texts marks ->
    Looped (region ++ texts)
      (mark_region phrase region (replicate (length region) false) false ++ marks).

Lemma bump_entries phrase frequency :
  Forall (fun e => is_filler e.1 = false) frequency -> is_filler phrase = false ->
  Forall (fun e => is_filler e.1 = false) (bump phrase frequency).
Proof.
  intros F Hp. induction F as [|[p n] rest He F IH]; cbn; [by repeat constructor|].
  destruct (str_cmp phrase p); by repeat constructor.
Qed.

Lemma window_frequency_entries window :
  Forall (fun e => is_filler e.1 = false) (window_frequency window).
Proof.
  unfold window_frequency. induction window as [|t window IH] using rev_ind; [constructor|].
  rewrite foldl_app. cbn [foldl]. destruct (is_filler t) eqn:E; cbn [negb andb]; [done|].
  destruct (negb (is_empty t)); [by apply bump_entries|done].
Qed.

Lemma dominant_not_filler window phrase : dominant window = Some phrase -> is_filler phrase = false.
Proof.
  unfold dominant. pose proof (window_frequency_entries window) as F.
  destruct (window_frequency window) as [|e es]; [done|]. apply Forall_cons in F as [He F].
  assert (B : is_filler (foldl max_entry e es).1 = false).
  { revert e He. induction F as [|x es Hx F IH]; intros e He; [done|]. cbn. apply IH.
    unfold max_entry. destruct (Nat.compare _ _); [destruct (str_cmp _ _)|..]; done. }
  destruct (bool_decide _); [|done]. by intros [= <-].
Qed.

Lemma Looped_false texts : Looped texts (replicate (length texts) false).
Proof. induction texts; cbn; by constructor. Qed.

Lemma mark_region_length phrase ts : forall ms kept,
  length ms = length ts -> length (mark_region phrase ts ms kept) = length ts.
Proof.
  induction ts as [|t ts IH]; intros [|m ms] kept E; cbn in *; try done.
  destruct (_ && _); cbn; f_equal; apply IH; lia.
Qed.

Lemma loop_scan_looped fuel texts : forall start marks marks',
  length marks = start -> (start <= length texts)%nat ->
  loop_scan fuel texts start (marks ++ replicate (length texts - start) false) = Val marks' ->
  exists m, marks' = marks ++ m /\ Looped (drop start texts) m.
Proof.
  induction fuel as [|fuel IH]; intros start marks marks' Hm B E; cbn [loop_scan] in E;
    destruct (bool_decide (start + LOOP_WINDOW <= length texts)%nat) eqn:D; breflect; simplify_eq E;
    try (intros; subst marks'; eexists; split; [done|]; rewrite <- length_drop; apply Looped_false).
  clear E. intros E.
  assert (step : loop_scan fuel texts (start + 1) (marks ++ replicate (length texts - start) false) = Val marks' ->
    exists m, marks' = marks ++ m /\ Looped (drop start texts) m).
  { unfold LOOP_WINDOW in D. replace (length texts - start)%nat with (1 + (length texts - (start + 1)))%nat by lia.
    cbn [replicate Nat.add]. change (false :: ?l) with ([false] ++ l). rewrite app_assoc. intros E'.
    apply IH in E' as (m & -> & L); [|rewrite length_app; cbn; lia|lia].
    destruct (lookup_lt_is_Some_2 texts start) as [t Ht]; [lia|].
    exists (false :: m). rewrite <- app_assoc. split; [done|]. rewrite (drop_S _ _ _ Ht).
    constructor. by rewrite <- Nat.add_1_r. }
  destruct (dominant _) as [phrase|] eqn:Ed; [|by apply step].
  destruct (grow_region_ok (length texts) texts phrase (start + LOOP_WINDOW)) as (e & Eg & He);
    [unfold LOOP_WINDOW in *; lia..|]. rewrite Eg in E. cbn [exec_bind] in E.
  destruct (_ && _) eqn:C; [|by apply step]. apply andb_prop in C as [C _]. breflect.
  rewrite mark_span_replicate in E by (done || lia). unfold LOOP_WINDOW in *.
  set (region := take (e - start) (drop start texts)) in *.
  assert (Hr : length region = (e - start)%nat) by (unfold region; rewrite length_take, length_drop; lia).
  apply IH in E as (m & -> & L); [|rewrite length_app, mark_region_length by (by rewrite length_replicate); lia|lia].
  eexists. rewrite <- app_assoc. split; [done|].
  replace (drop start texts) with (region ++ drop e texts).
  - apply Looped_stretch; [by eapply dominant_not_filler|lia|exact C|done].
  - unfold region. rewrite <- (take_drop (e - start) (drop start texts)) at 2. f_equal. rewrite drop_drop. f_equal. lia.
Qed.

Lemma apply_marks_lookup units marks i u m :
  units !! i = Some u -> marks !! i = Some m ->
  apply_marks units marks !! i = Some (if m : bool then remove InterleavedLoop u else u).
Proof. intros Hu Hm. unfold apply_marks. by rewrite lookup_zip_with, Hu, Hm. Qed.

Lemma Looped_length texts marks : Looped texts marks -> length marks = length texts.
Proof.
  induction 1 as [| |phrase region texts marks Hf Hw Ho L IH]; cbn; [done|lia|]. by rewrite !length_app, IH, mark_region_length by (by rewrite length_replicate).
Qed.

(** Inside a stretch: what is marked is a filler, or the phrase after one of
    its occurrences that is not. *)
Lemma mark_region_marked phrase region : forall kept i,
  mark_region phrase region (replicate (length region) false) kept !! i = Some true ->
  exists t, region !! i = Some t /\
    (is_filler t = true \/ t = phrase /\ (kept = true \/ exists j, (j < i)%nat /\ region !! j = Some phrase /\
       mark_region phrase region (replicate (length region) false) kept !! j = Some false)).
Proof.
  induction region as [|t region IH]; intros kept i; cbn [mark_region length replicate]; [done|].
  destruct (negb kept && bool_decide (t = phrase)) eqn:E.
  - breflect. subst t. destruct i as [|i]; [done|]. rewrite lookup_cons. intros (t & Ht & C)%IH.
    exists t. split; [done|]. destruct C as [C|[C _]]; [by left|right]. split; [done|]. right.
    exists 0%nat. split_and!; [lia|done..].
  - cbn [orb]. destruct i as [|i]; rewrite lookup_cons.
    + intros [= [C|C]%orb_prop]; exists t; (split; [done|]); [|by left]. right. breflect. subst t.
      rewrite bool_decide_true, andb_true_r in E by done. split; [done|]. left. by destruct kept.
    + intros (u & Hu & C)%IH. exists u. split; [done|]. destruct C as [C|(C & [K|(j & Hj & Hp & Hm)])]; [by left| |].
      * right. split; [done|by left].
      * right. split; [done|]. right. exists (S j). split_and!; [lia|done..].
Qed.

(** The text at [i] is marked for a reason. *)
Definition in_stretch (texts : list rstr) (marks : list bool) (i : nat) : Prop :=
  exists start stop phrase, (start <= i < stop)%nat /\ (stop <= length texts)%nat /\ (start + 10 <= stop)%nat /\
    is_filler phrase = false /\ (5 <= occurrences phrase (take (stop - start) (drop start texts)))%nat /\
    exists t, texts !! i = Some t /\
      (is_filler t = true \/
       t = phrase /\ exists j, (start <= j < i)%nat /\ texts !! j = Some phrase /\ marks !! j = Some false).

Lemma in_stretch_app pre texts pm marks i :
  length pm = length pre -> in_stretch texts marks i ->
  in_stretch (pre ++ texts) (pm ++ marks) (length pre + i).
Proof.
  intros Hp (start & stop & phrase & B & L & W & Hf & O & t & Ht & C).
  exists (length pre + start)%nat, (length pre + stop)%nat, phrase. rewrite length_app.
  split_and!; [lia..|done| |].
  - rewrite drop_app_ge by lia. replace (length pre + start - length pre)%nat with start by lia.
      by replace (length pre + stop - (length pre + start))%nat with (stop - start)%nat by lia.
  - exists t. rewrite lookup_app_r by lia. rewrite Nat.add_comm, Nat.add_sub. split; [done|].
      destruct C as [C|(C & j & Hj & Hp' & Hm)]; [by left|right]. split; [done|]. exists (length pre + j)%nat.
      rewrite !lookup_app_r by lia. rewrite Hp, !(Nat.add_comm (length pre)), !Nat.add_sub. split_and!; [lia..|done|done].
Qed.

Lemma Looped_marked texts marks :
  Looped texts marks -> forall i, marks !! i = Some true -> in_stretch texts marks i.
Proof.
  induction 1 as [|t texts marks L IH|phrase region texts marks Hf Hw Ho L IH]; intros i Hi; [done| |].
  - destruct i as [|i]; [done|]. rewrite lookup_cons in Hi. apply (in_stretch_app [t] texts [false] marks i); [done|by apply IH].
  - set (pm := mark_region _ _ _ _) in *.
    assert (Hpm : length pm = length region) by (apply mark_region_length; by rewrite length_replicate).
    destruct (decide (i < length region)%nat) as [Hr|Hr].
    + rewrite lookup_app_l in Hi by lia. destruct (mark_region_marked _ _ _ _ Hi) as (t & Ht & C).
      exists 0%nat, (length region), phrase. rewrite length_app, drop_0, Nat.sub_0_r, take_app_length.
      split_and!; [lia..|done|done|]. exists t. rewrite lookup_app_l by lia. split; [done|].
      destruct C as [C|(C & [?|(j & Hj & Hp & Hm)])]; [by left|done|right]. split; [done|]. exists j.
      rewrite !lookup_app_l by lia. split_and!; [lia..|done|done].
    + rewrite lookup_app_r in Hi by lia. replace i with (length region + (i - length region))%nat by lia.
      rewrite Hpm in Hi. apply in_stretch_app; [done|by apply IH].
Qed.

Lemma loops_reasons units marks i u :
  Forall (fun u => u.(removed) = None) units -> Looped (map key_text units) marks ->
  apply_marks units marks !! i = Some u -> u.(removed) = Some InterleavedLoop ->
  in_loop (apply_marks units marks) i.
Proof.
  intros F L Hu Hr. pose proof (Looped_length _ _ L) as Hl. rewrite length_map in Hl.
  assert (K : map key_text (apply_marks units marks) = map key_text units).
  { clear -Hl. revert marks Hl. induction units as [|v units IH]; intros [|m marks] E; cbn in *; try done.
    rewrite IH by lia. f_equal. by destruct m. }
  pose proof Hu as Hi. unfold apply_marks in Hi. apply lookup_zip_with_Some in Hi as (v & m & -> & Hv & Hm).
  rewrite Forall_lookup in F. destruct m; [|by rewrite (F _ _ Hv) in Hr].
  destruct (Looped_marked _ _ L i Hm) as (start & stop & phrase & B & T & W & Hf & O & t & Ht & C).
  exists start, stop, phrase. rewrite K. rewrite length_map in T.
  assert (Hla : length (apply_marks units marks) = length units)
    by (rewrite <- (length_map key_text), K; apply length_map).
  rewrite list_lookup_fmap, Hv in Ht. cbn in Ht. simplify_eq. split_and!; [lia..|done|done|].
  eexists. split; [exact Hu|]. destruct C as [C|(C & j & Hj & Hp & Hm')]; [by left|right]. split; [done|].
  rewrite list_lookup_fmap in Hp. destruct (units !! j) as [w|] eqn:Hw; [|done]. cbn in Hp. simplify_eq.
  exists j, w. rewrite (apply_marks_lookup _ _ _ _ _ Hw Hm'). split_and!; [lia..|done|congruence|].
  by rewrite (F _ _ Hw).
Qed.

Lemma trim_reasons borrowed :
  Forall (fun u => u.(removed) = None) borrowed ->
  let n := trim_from borrowed in
  trimmed_at_the_end (take n borrowed ++ map (remove TrailingNoise) (drop n borrowed)).
Proof.
  intros F. unfold trim_from.
  set (noise := fun u => is_always_noise (content u)). set (filler := fun u => is_trailing_filler (content u)).
  destruct (trailing_spec noise borrowed) as [N1 N2]. set (n := (length borrowed - trailing noise borrowed)%nat) in *.
  destruct (trailing_spec filler (take n borrowed)) as [F1 F2].
  rewrite length_take in F1, F2. replace (n `min` length borrowed)%nat with n in F1, F2 by lia.
  set (m := (n - trailing filler (take n borrowed))%nat) in *.
  assert (Hk : forall k, Forall (fun u => u.(removed) <> Some TrailingNoise) (take k borrowed)).
  { intros k. apply Forall_take. eapply Forall_impl; [exact F|]. intros u E. cbn. by rewrite E. }
  assert (Hn : Forall (fun u => u.(removed) = Some TrailingNoise /\ is_always_noise (content u) = true)
    (map (remove TrailingNoise) (drop n borrowed))).
  { apply Forall_map. eapply Forall_impl; [exact N1|]. done. }
  case_bool_decide as B.
  - exists (take m borrowed), (map (remove TrailingNoise) (drop m (take n borrowed))),
      (map (remove TrailingNoise) (drop n borrowed)). split_and!; [|done| |done|].
    + f_equal. rewrite <- map_app. f_equal. rewrite <- (take_drop n borrowed) at 1.
      by rewrite drop_app_le by (rewrite length_take; lia).
    + apply Forall_map. eapply Forall_impl; [exact F1|]. done.
    + right. rewrite length_map, length_drop, length_take. unfold MIN_TRAILING_FILLER_RUN in B. lia.
  - exists (take n borrowed), [], (map (remove TrailingNoise) (drop n borrowed)). split_and!; [done..|by left].
Qed.

(** What the final units say of the rules that look at several units. *)
Record reasons (units : list Unit_) : Prop := {
  re_run : forall i u, seen_by Repeated units !! i = Some u -> u.(removed) = Some Repeated ->
    in_repeated_run (seen_by Repeated units) i;
  re_loop : forall i u, seen_by InterleavedLoop units !! i = Some u -> u.(removed) = Some InterleavedLoop ->
    in_loop (seen_by InterleavedLoop units) i;
  re_trim : trimmed_at_the_end (seen_by TrailingNoise units);
}.

Lemma strip_known_by_stage units :
  Forall2 (by_stage 0) units (strip_known_hallucinations units).
Proof.
  apply write_back_by_stage, by_stage_map; [|apply alive_removed]. intros u Hu.
  destruct (noise_marker u); [by left|]. destruct (is_known_hallucination u); [|by left].
  by apply (by_stage_remove KnownHallucination).
Qed.

Lemma trim_by_stage units :
  let n := trim_from (alive units) in
  Forall2 (by_stage 3) (alive units) (take n (alive units) ++ map (remove TrailingNoise) (drop n (alive units))).
Proof.
  intros n. pose proof (alive_removed units) as F. rewrite <- (take_drop n (alive units)) in F |- * at 1.
  apply Forall_app in F as [_ F]. apply Forall2_app; [apply by_stage_all|].
  apply by_stage_map; [|done]. intros u. apply (by_stage_remove TrailingNoise).
Qed.

Lemma strip_markers_by_stage units :
  Forall2 (by_stage 4) units (strip_noise_markers units).
Proof.
  apply write_back_by_stage, by_stage_map; [|apply alive_removed]. intros u Hu.
  destruct (noise_marker u); [|by left]. by apply (by_stage_remove NoiseMarker).
Qed.

Lemma apply_marks_by_stage units : forall marks,
  Forall (fun u => u.(removed) = None) units -> length marks = length units ->
  Forall2 (by_stage 2) units (apply_marks units marks).
Proof.
  induction units as [|u units IH]; intros [|m marks] F E; cbn in *; try done.
  apply Forall_cons in F as [Hu F]. constructor; [|by apply IH; [|lia]].
  destruct m; [by apply (by_stage_remove InterleavedLoop)|by left].
Qed.

(** The loop rule: it writes updates back for which it has reasons. *)
Lemma collapse_loops_reasons units units' :
  collapse_interleaved_loops units = Val units' ->
  exists updated, units' = write_back units updated /\ Forall2 (by_stage 2) (alive units) updated /\
    forall i u, updated !! i = Some u -> u.(removed) = Some InterleavedLoop -> in_loop updated i.
Proof.
  unfold collapse_interleaved_loops. pose proof (alive_removed units) as F. destruct (bool_decide _).
  { intros [= <-]. exists (alive units). split_and!; [|apply by_stage_all|].
    - clear. induction units as [|u units IH]; cbn; [done|].
      destruct (is_alive u); f_equal; exact IH.
    - intros i u Hu Hr. rewrite Forall_lookup in F. by rewrite (F _ _ Hu) in Hr. }
  destruct (loop_scan _ _ _ _) as [marks| |] eqn:E; cbn [exec_bind]; [|done..]. intros [= <-].
  replace (replicate (length (alive units)) false)
    with ([] ++ replicate (length (map key_text (alive units)) - 0) false) in E
    by by rewrite length_map, Nat.sub_0_r.
  destruct (loop_scan_looped _ _ 0 [] marks eq_refl ltac:(lia) E) as (m & -> & L).
  cbn [app] in *. rewrite drop_0 in L. exists (apply_marks (alive units) m). split_and!; [done| |].
  - apply apply_marks_by_stage; [done|]. by rewrite (Looped_length _ _ L), length_map.
  - intros i u Hu Hr. by eapply loops_reasons.
Qed.

Lemma apply_rules_reasons units final :
  Forall (fun u => u.(removed) = None) units -> apply_rules units = Val final -> reasons final.
Proof.
  intros F E. unfold apply_rules in E. set (u1 := strip_known_hallucinations units) in *.
  assert (B1 : removed_before 1 u1).
  { eapply by_stage_before; [|apply strip_known_by_stage]. eapply Forall_impl; [exact F|].
    intros u Hu r Hr. cbn in Hr. congruence. }
  destruct (collapse_repeated_units u1) as [u2| |] eqn:E2; cbn [exec_bind] in E; [|done..].
  unfold collapse_repeated_units in E2. destruct (repeat_loop _ _) as [upd2| |] eqn:R2; cbn [exec_bind] in E2; [|done..].
  injection E2 as <-. destruct (repeat_loop_reasons _ _ _ R2 (alive_removed _)) as [S2 W2].
  pose proof (write_back_by_stage 1 u1 upd2 S2) as L2. pose proof (by_stage_before 1 _ _ B1 L2) as B2.
  set (u2 := write_back u1 upd2) in *.
  destruct (collapse_interleaved_loops u2) as [u3| |] eqn:E3; cbn [exec_bind] in E; [|done..].
  destruct (collapse_loops_reasons _ _ E3) as (upd3 & -> & S3 & W3).
  pose proof (write_back_by_stage 2 u2 upd3 S3) as L3. pose proof (by_stage_before 2 _ _ B2 L3) as B3.
  set (u3 := write_back u2 upd3) in *.
  pose proof (trim_by_stage u3) as S4. pose proof (trim_reasons (alive u3) (alive_removed _)) as W4. cbn zeta in S4, W4.
  unfold trim_trailing_noise in E. set (upd4 := take _ _ ++ _) in *.
  pose proof (write_back_by_stage 3 u3 upd4 S4) as L4. set (u4 := write_back u3 upd4) in *.
  injection E as <-. pose proof (strip_markers_by_stage u4) as L5.
  assert (T4 : Forall2 (later_from 4) u4 (strip_noise_markers u4)) by (eapply later_from_trans; [done|apply later_from_all]).
  assert (T3 : Forall2 (later_from 3) u3 (strip_noise_markers u4)) by by eapply later_from_trans.
  assert (T2 : Forall2 (later_from 2) u2 (strip_noise_markers u4)) by by eapply later_from_trans.
  pose proof (seen_by_write_back Repeated u1 upd2 _ B1 S2 T2) as V2.
  pose proof (seen_by_write_back InterleavedLoop u2 upd3 _ B2 S3 T3) as V3.
  pose proof (seen_by_write_back TrailingNoise u3 upd4 _ B3 S4 T4) as V4.
  split.
  - intros i v Hv Hr. destruct (later_from_lookup _ _ _ _ _ V2 Hv) as (u & Hu & Huv).
    apply (in_repeated_run_later upd2); [done|]. apply (W2 i u Hu).
    by apply (later_from_removed _ _ _ Repeated Huv); [cbn; lia|].
  - intros i v Hv Hr. destruct (later_from_lookup _ _ _ _ _ V3 Hv) as (u & Hu & Huv).
    apply (in_loop_later upd3); [done|]. apply (W3 i u Hu).
    by apply (later_from_removed _ _ _ InterleavedLoop Huv); [cbn; lia|].
  - by eapply trimmed_at_the_end_later.
Qed.

Lemma cleaned_units_reasons text units : cleaned_units text = Val units -> reasons units.
Proof.
  unfold cleaned_units. intros E. destruct (split_units text) as [raws| |]; cbn [exec_bind] in E; [|done..].
  destruct (make_units_ok raws) as (given & E2 & _ & F). rewrite E2 in E. cbn [exec_bind] in E.
  eapply apply_rules_reasons; [|exact E]. eapply Forall_impl; [exact F|]. by intros u [? _].
Qed.

(** *** Counting *)

Definition removed_by (rule : Rule) (units : list Unit_) : Z :=
  zlen (List.filter (fun u => bool_decide (u.(removed) = Some rule)) units).

Definition counts (r : TranscriptCleanupRemovals) (units : list Unit_) : Prop :=
  r = {| known_hallucinations := removed_by KnownHallucination units; repeated_units := removed_by Repeated units;
         interleaved_loop_units := removed_by InterleavedLoop units;
         trailing_noise_units := removed_by TrailingNoise units; noise_markers := removed_by NoiseMarker units |}.

Lemma removed_by_snoc rule units u :
  removed_by rule (units ++ [u])
  = removed_by rule units + if bool_decide (u.(removed) = Some rule) then 1 else 0.
Proof.
  unfold removed_by. rewrite List.filter_app, zlen_app. cbn. by destruct (bool_decide _).
Qed.

Lemma count_removals_ok units : counts (count_removals units) units.
Proof.
  unfold counts, count_removals. induction units as [|u units IH] using rev_ind; [done|].
  rewrite foldl_app. cbn [foldl]. rewrite IH, !removed_by_snoc. destruct (removed u) as [rule|] eqn:E.
  - unfold count_rule, add_removals. cbn. f_equal; f_equal; by destruct rule.
  - f_equal; by rewrite Z.add_0_r.
Qed.

Lemma removed_by_cons rule u units :
  removed_by rule (u :: units) = (if bool_decide (u.(removed) = Some rule) then 1 else 0) + removed_by rule units.
Proof. unfold removed_by. cbn. destruct (bool_decide _); by rewrite ?zlen_cons. Qed.

Lemma removed_by_none units : (forall rule, removed_by rule units = 0) <-> alive units = units.
Proof.
  split.
  - induction units as [|u units IH]; intros Z; [done|]. cbn. destruct (is_alive u) eqn:A.
    + f_equal. apply IH. intros rule. specialize (Z rule). rewrite removed_by_cons in Z.
      apply is_alive_removed in A. rewrite A, bool_decide_false in Z by done. lia.
    + unfold is_alive, is_none in A. destruct (removed u) as [rule|] eqn:R; [|done]. specialize (Z rule).
      rewrite removed_by_cons, R, bool_decide_true in Z by done. unfold removed_by in Z.
      pose proof (zlen_nonneg (List.filter (fun u => bool_decide (removed u = Some rule)) units)). lia.
  - intros Ha rule. pose proof (alive_removed units) as F. rewrite Ha in F. clear Ha.
    induction F as [|u units Hu F IH]; [done|]. by rewrite removed_by_cons, Hu, bool_decide_false, IH by done.
Qed.

Lemma no_removals_alive units : count_removals units = no_removals <-> alive units = units.
Proof.
  rewrite (count_removals_ok units), <- removed_by_none. unfold no_removals. split.
  - intros [= A B C D E]. by intros [].
  - intros Z. by rewrite !Z.
Qed.

Lemma represented_lookup units : forall seen i u,
  represented seen units -> units !! i = Some u -> is_repetition u = true ->
  heard seen (key_text u) \/
  exists j v, (j < i)%nat /\ units !! j = Some v /\ is_repetition v = false /\ key_text v = key_text u.
Proof.
  induction units as [|w units IH]; intros seen i u R L Hu; [done|]. cbn in R. destruct i as [|i]; cbn in L.
  - simplify_eq. rewrite Hu in R. left. apply R.
  - destruct (is_repetition w) eqn:W.
    + destruct (IH seen i u (proj2 R) L Hu) as [?|(j & v & ? & E)]; [by left|].
      right. exists (S j), v. split; [lia|exact E].
    + destruct (IH _ i u R L Hu) as [[?|[Hk|?]%elem_of_cons]|(j & v & ? & E)].
      * left. by left.
      * right. exists 0%nat, w. split_and!; [lia|done..].
      * left. by right.
      * right. exists (S j), v. split; [lia|exact E].
Qed.

(** ** Claims *)

(** Cleaning accounts for every unit. For every text, cleaning terminates
    without a panic; its units concatenate to the text and none is blank unless
    the text is; it reports [Unchanged] exactly when no unit is removed, the
    kept text is the remaining units in order, trimmed, and is dropped exactly
    when it has no letter or digit; and each count is the number of units its
    rule removed. *)
Theorem cleanup_accounts_for_every_unit text :
  exists units, cleaned_units text = Val units /\ concat (map raw units) = text /\
    (is_blank text = true \/ Forall (fun u => is_blank u.(raw) = false) units) /\
    exists cleanup, clean_final_transcript text = Val cleanup /\
      let kept := trim (str_concat (map raw (alive units))) in
      match cleanup with
      | Unchanged => alive units = units
      | Cleaned result removals =>
          alive units <> units /\ result = kept /\ existsb is_alphanumeric kept = true /\ counts removals units
      | Dropped removals =>
          alive units <> units /\ existsb is_alphanumeric kept = false /\ counts removals units
      end.
Proof.
  destruct (cleaned_units_ok text) as (units & E & C & _ & N). exists units. split_and!; [done|done| |].
  { destruct (is_blank text) eqn:B; [by left|right]. by apply N. }
  unfold clean_final_transcript. rewrite E. cbn [exec_bind]. destruct (bool_decide _) eqn:D; breflect.
  - eexists. split; [done|]. by apply no_removals_alive.
  - assert (alive units <> units) by (intros A; by apply D, no_removals_alive).
    pose proof (count_removals_ok units). destruct (existsb _ _) eqn:X; eexists; (split; [done|]); by split_and!.
Qed.

(** C37. No removal without a reason. A unit removed as a known hallucination is
    one of the listed phrases, and one removed as a marker is a noise marker.
    Among the units the earlier rules left: a unit removed as repeated is in a
    run of at least three consecutive units with the same words and is not its
    first, which stays; a unit removed as a loop is in a stretch of at least ten
    units in which a phrase that is no filler occurs at least five times, and it
    is a filler word or a later occurrence of the phrase; what is trimmed is
    exactly the end of the transcript, noise preceded by fillers only when there
    are at least five of them in a row. So a unit removed for repetition is a
    filler word or has the words of an earlier unit not removed for
    repetition. *)
Theorem cleanup_removals_justified text :
  exists units, cleaned_units text = Val units /\ concat (map raw units) = text /\ Forall justified units /\
    (forall i u, seen_by Repeated units !! i = Some u -> u.(removed) = Some Repeated ->
       in_repeated_run (seen_by Repeated units) i) /\
    (forall i u, seen_by InterleavedLoop units !! i = Some u -> u.(removed) = Some InterleavedLoop ->
       in_loop (seen_by InterleavedLoop units) i) /\
    trimmed_at_the_end (seen_by TrailingNoise units) /\
    forall i u, units !! i = Some u -> is_repetition u = true ->
      is_filler (key_text u) = true \/
      exists j v, (j < i)%nat /\ units !! j = Some v /\ is_repetition v = false /\ key_text v = key_text u.
Proof.
  destruct (cleaned_units_ok text) as (units & E & C & [R J] & _). exists units.
  destruct (cleaned_units_reasons text units E) as [R1 R2 R3]. split_and!; [done..|].
  intros i u L Hu. destruct (represented_lookup units [] i u R L Hu) as [[?|?]|?]; [by left| |by right].
  by apply elem_of_nil in H0.
Qed.
End Cleanup.

(** Runs of the definitions. *)
Example cleanup_keeps_numbers :
  @clean_final_transcript ascii_tables (lit "Turn it to 3. Turn it to 4. Turn it to 3.") = Val Unchanged.
Proof. vm_compute. reflexivity. Qed.

Example cleanup_of_credits :
  @clean_final_transcript ascii_tables (lit "[music] Thanks for watching!")
  = Val (Dropped {| known_hallucinations := 1; repeated_units := 0; interleaved_loop_units := 0;
                    trailing_noise_units := 1; noise_markers := 0 |}).
Proof. vm_compute. reflexivity. Qed.

Example cleanup_of_a_loop :
  @clean_final_transcript ascii_tables (lit "a. ok. b. a. a. ok. a. a. c. a. d. e.")
  = Val (Cleaned (lit "a. b. c. d. e.")
      {| known_hallucinations := 0; repeated_units := 0; interleaved_loop_units := 7;
         trailing_noise_units := 0; noise_markers := 0 |}).
Proof. vm_compute. reflexivity. Qed.
