(* ===== verification/SpeechText.v ===== *)
(** * Text for speech

    [crates/runtime/src/speech_text.rs]: an utterance is stripped of the
    Markdown that should not be spoken (fences, headings, list markers, code and
    emphasis delimiters) and its lines are joined before it is synthesized.

    Offsets into the text are byte offsets, as in the source, and a slice off a
    character boundary panics; the theorems show that it never happens, that the
    recursion ends, and that the spoken text is never longer than its source. *)

From S2P Require Import Prelude RustStr.

(** ** Delimiters *)

(** [take_while] over the bytes of an ASCII character. *)
Fixpoint run_length (c : rchar) (s : rstr) : Z :=
  match s with
  | d :: s => if d =? c then 1 + run_length c s else 0
  | [] => 0
  end.

Definition asterisk_run_length (input : rstr) : Z := run_length (chr "*") input.

(** [&input\[from..to\]]. *)
Definition slice_range (from to : Z) (input : rstr) : exec rstr :=
  let! '(head, _) := expect (split_at_byte to input) in
  let! '(_, mid) := expect (split_at_byte from head) in
  Val mid.

Definition can_open_asterisks (input : rstr) (start width : Z) : exec bool :=
  let! '(before, _) := expect (split_at_byte start input) in
  let! '(_, after) := expect (split_at_byte (start + width) input) in
  let previous := last before in
  let following := head after in
  Val (is_some_and following (fun c => negb (is_whitespace c))
       && negb ((width =? 1) && is_some_and previous is_ascii_digit && is_some_and following is_ascii_digit)).

Definition can_close_asterisks (input : rstr) (start : Z) : exec bool :=
  let! '(before, _) := expect (split_at_byte start input) in
  Val (is_some_and (last before) (fun c => negb (is_whitespace c))).

(** The end of a code span that starts at the head of [remaining]. *)
Definition code_span (remaining : rstr) : option (rstr * Z) :=
  match strip_prefix (lit "`") remaining with
  | Some rest => match find_char (chr "`") rest with Some stop => Some (rest, stop) | None => None end
  | None => None
  end.

(** The loops advance the cursor by at least a byte a turn; the bytes left are
    fuel enough. *)
Fixpoint find_closing_asterisks (fuel : nat) (input : rstr) (cursor width : Z) : exec (option Z) :=
  if cursor <? blen input then
    match fuel with
    | O => Fuel_out
    | S fuel =>
        let! '(_, remaining) := expect (split_at_byte cursor input) in
        match code_span remaining with
        | Some (_, stop) => find_closing_asterisks fuel input (cursor + stop + 2) width
        | None =>
            if starts_with (lit "*") remaining then
              let run := asterisk_run_length remaining in
              let! closes := if run =? width then can_close_asterisks input cursor else Val false in
              if closes : bool then Val (Some cursor)
              else find_closing_asterisks fuel input (cursor + run) width
            else
              let! c := expect (head remaining) in
              find_closing_asterisks fuel input (cursor + len_utf8 c) width
        end
    end
  else Val None.

(** Where the emphasis opened at [cursor] closes, if it is one. *)
Definition emphasis_end (fuel : nat) (input : rstr) (cursor width : Z) : exec (option Z) :=
  if (width =? 1) || (width =? 2) then
    let! opens := can_open_asterisks input cursor width in
    if opens : bool then find_closing_asterisks fuel input (cursor + width) width else Val None
  else Val None.

Fixpoint strip_loop (fuel : nat) (input : rstr) (cursor : Z) (normalized : rstr) : exec rstr :=
  if cursor <? blen input then
    match fuel with
    | O => Fuel_out
    | S fuel =>
        let! '(_, remaining) := expect (split_at_byte cursor input) in
        match code_span remaining with
        | Some (rest, stop) =>
            let! '(code, _) := expect (split_at_byte stop rest) in
            strip_loop fuel input (cursor + stop + 2) (normalized ++ code)
        | None =>
            if starts_with (lit "*") remaining then
              let width := asterisk_run_length remaining in
              let! close := emphasis_end (length input) input cursor width in
              match close with
              | Some stop =>
                  let! inner := slice_range (cursor + width) stop input in
                  let! inner := strip_loop fuel inner 0 [] in
                  strip_loop fuel input (stop + width) (normalized ++ inner)
              | None =>
                  let! '(stars, _) := expect (split_at_byte width remaining) in
                  strip_loop fuel input (cursor + width) (normalized ++ stars)
              end
            else
              let! c := expect (head remaining) in
              strip_loop fuel input (cursor + len_utf8 c) (normalized ++ [c])
        end
    end
  else Val normalized.

Definition strip_paired_delimiters (input : rstr) : exec rstr := strip_loop (length input) input 0 [].

(** ** Lines *)

(** The loop of [is_thematic_break] over the characters that are not
    whitespace. *)
Fixpoint thematic_loop (chars : rstr) (marker : option rchar) (count : Z) : bool :=
  match chars with
  | [] => 3 <=? count
  | c :: chars =>
      if negb (char_in (lit "*-_") c) then false
      else if is_some_and marker (fun m => negb (m =? c)) then false
      else thematic_loop chars (Some c) (count + 1)
  end.

Definition is_thematic_break (line : rstr) : bool :=
  thematic_loop (List.filter (fun c => negb (is_whitespace c)) line) None 0.

Definition strip_line_prefixes (line : rstr) : exec (rstr * bool) :=
  if bool_decide (line = lit "#") || is_thematic_break line then Val ([], false)
  else
    let heading_length := run_length (chr "#") line in
    let! is_heading :=
      if (1 <=? heading_length) && (heading_length <=? 6) then
        let! '(_, rest) := expect (split_at_byte heading_length line) in
        Val (is_some_and (head rest) is_whitespace)
      else Val false in
    let! line :=
      if is_heading : bool then
        let! '(_, rest) := expect (split_at_byte heading_length line) in Val (trim_start rest)
      else Val line in
    Val match strip_prefix (lit "*") line with
        | Some rest =>
            if is_some_and (head rest) is_whitespace then (trim_start rest, is_heading) else (line, is_heading)
        | None => (line, is_heading)
        end.

(** [take_while(u8::is_ascii_digit).count()]. *)
Fixpoint digit_count (s : rstr) : Z :=
  match s with
  | d :: s => if is_ascii_digit d then 1 + digit_count s else 0
  | [] => 0
  end.

(** The text after an ordinal's separator and whitespace. *)
Definition after_separator (separator rest : rstr) : option rstr :=
  match strip_prefix separator rest with
  | Some rest => if is_some_and (head rest) is_whitespace then Some (trim_start rest) else None
  | None => None
  end.

Definition strip_heading_ordinal (input : rstr) : exec rstr :=
  let n := digit_count input in
  if n =? 0 then Val input
  else
    let! '(_, rest) := expect (split_at_byte n input) in
    Val (default input (opt_or (after_separator (lit ".") rest) (after_separator (lit "、") rest))).

Definition is_sentence_ending (c : rchar) : bool := char_in (lit ".!?。！？") c.

(** The characters of a heading: decorative quotes go, the first full-width
    colon becomes a comma. *)
Fixpoint decorate (is_heading : bool) (chars : rstr) (converted_heading_colon : bool) : rstr :=
  match chars with
  | [] => []
  | c :: chars =>
      if char_in (lit "《》〈〉「」『』【】") c && is_heading then decorate is_heading chars converted_heading_colon
      else if (c =? chr "：") && (is_heading && negb converted_heading_colon)
      then chr "，" :: decorate is_heading chars true
      else c :: decorate is_heading chars converted_heading_colon
  end.

Definition normalize_decorative_speech (input : rstr) (is_heading : bool) (source_byte_limit : Z) : exec rstr :=
  let! input := if is_heading then strip_heading_ordinal input else Val input in
  let normalized := trim (decorate is_heading input false) in
  Val (if is_heading && negb (is_empty normalized) && negb (is_some_and (last normalized) is_sentence_ending) then
         if saturating_add (blen normalized) (len_utf8 (chr "。")) <=? source_byte_limit
         then normalized ++ lit "。"
         else if saturating_add (blen normalized) 1 <=? source_byte_limit
         then normalized ++ lit "."
         else normalized
       else normalized).

(** One line, [None] when it is not spoken. *)
Definition normalize_line (line : rstr) : exec (option rstr) :=
  let trimmed := trim line in
  if starts_with (lit "```") trimmed && is_empty (trim_matches (Z.eqb (chr "`")) trimmed) then Val None
  else
    let! '(line, is_heading) := strip_line_prefixes trimmed in
    let! line := strip_paired_delimiters line in
    let! line := normalize_decorative_speech line is_heading (blen trimmed) in
    let line := trim line in
    Val (if is_empty line then None else Some line).

Fixpoint normalize_lines (ls : list rstr) : exec (list rstr) :=
  match ls with
  | [] => Val []
  | l :: ls =>
      let! line := normalize_line l in
      let! rest := normalize_lines ls in
      Val (match line with Some line => line :: rest | None => rest end)
  end.

Definition normalize_speech_text (input : rstr) : exec (option rstr) :=
  let! normalized := normalize_lines (lines input) in
  let normalized := join (lit " ") normalized in
  Val (if is_empty normalized then None else Some normalized).

(** ** Delimiters never panic and only delete *)

Lemma find_char_spec c s n : find_char c s = Some n -> exists l r, s = l ++ c :: r /\ n = blen l.
Proof.
  unfold find_char. enough (G : forall i, find_char_from i c s = Some n -> exists l r, s = l ++ c :: r /\ n = i + blen l)
    by (intros (l & r & -> & ->)%G; by exists l, r).
  induction s as [|d s IH]; intros i; cbn; [done|]. split_ifs.
  - intros [= <-]. subst. exists [], s. split; [done|]. cbn. lia.
  - intros (l & r & -> & ->)%IH. exists (d :: l), r. split; [done|]. cbn. lia.
Qed.

Lemma run_length_split c s :
  len_utf8 c = 1 -> exists run rest, s = run ++ rest /\ blen run = run_length c s /\
    Z.of_nat (length run) = run_length c s.
Proof.
  intros Hc. induction s as [|d s IH]; cbn; [by exists [], []|]. destruct (d =? c) eqn:E; [|by exists [], (d :: s)].
  breflect. subst d. destruct IH as (run & rest & -> & Hb & Hl). exists (c :: run), rest. cbn. split_and!; [done|lia..].
Qed.

Lemma run_length_nonneg c s : 0 <= run_length c s.
Proof. induction s; cbn; [done|]. split_ifs; lia. Qed.

Lemma starts_with_star s : starts_with (lit "*") s = true -> exists r, s = chr "*" :: r /\ 1 <= asterisk_run_length s.
Proof.
  unfold starts_with. change (lit "*") with [chr "*"]. destruct s as [|d s]; [done|]. cbn [strip_prefix].
  destruct (chr "*" =? d) eqn:E; [|done]. breflect. subst d. intros _. exists s. split; [done|].
  unfold asterisk_run_length. pose proof (run_length_nonneg (chr "*") s). cbn [run_length]. rewrite Z.eqb_refl. lia.
Qed.

Lemma code_span_spec remaining rest stop :
  code_span remaining = Some (rest, stop) ->
  exists code z, remaining = chr "`" :: code ++ chr "`" :: z /\ rest = code ++ chr "`" :: z /\ stop = blen code.
Proof.
  unfold code_span. change (lit "`") with [chr "`"]. destruct remaining as [|d s]; [done|]. cbn [strip_prefix].
  destruct (chr "`" =? d) eqn:E; [|done]. breflect. subst d.
  destruct (find_char _ s) as [n|] eqn:F; [|done]. intros [= <- <-].
  apply find_char_spec in F as (code & z & -> & ->). by exists code, z.
Qed.

Lemma split_at_2 a b : split_at_byte (blen a) (a ++ b) = Some (a, b).
Proof. apply split_at_byte_app. Qed.

Lemma span_blen (code : rstr) : blen (chr "`" :: code ++ [chr "`"]) = blen code + 2.
Proof. cbn [blen]. rewrite blen_app. assert (len_utf8 (chr "`") = 1) by reflexivity. cbn [blen]. lia. Qed.

Lemma can_close_ok a r : exists b, can_close_asterisks (a ++ r) (blen a) = Val b.
Proof. unfold can_close_asterisks. rewrite split_at_2. by eexists. Qed.

Lemma can_open_ok a run r : exists b, can_open_asterisks (a ++ run ++ r) (blen a) (blen run) = Val b.
Proof.
  unfold can_open_asterisks. rewrite split_at_2. cbn [expect exec_bind]. rewrite <- blen_app, app_assoc, split_at_2.
  by eexists.
Qed.

(** A closing run is found at a character boundary, [width] asterisks wide. *)
Lemma find_closing_ok fuel : forall input a r width,
  input = a ++ r -> (length r <= fuel)%nat ->
  exists res, find_closing_asterisks fuel input (blen a) width = Val res /\
    forall stop, res = Some stop -> exists m run z, r = m ++ run ++ z /\ stop = blen (a ++ m) /\ blen run = width.
Proof.
  induction fuel as [|fuel IH]; intros input a r width E L.
  { destruct r; [|cbn in L; lia]. rewrite app_nil_r in E. subst input. exists None. cbn. by rewrite Z.ltb_irrefl. }
  cbn [find_closing_asterisks]. destruct (blen a <? blen input) eqn:B; [|by exists None].
  destruct r as [|c r']. { rewrite E, app_nil_r, Z.ltb_irrefl in B. done. }
  assert (step : forall p q, c :: r' = p ++ q -> p <> [] -> exists res,
    find_closing_asterisks fuel input (blen (a ++ p)) width = Val res /\
    forall stop, res = Some stop -> exists m run z, c :: r' = m ++ run ++ z /\ stop = blen (a ++ m) /\ blen run = width).
  { intros p q Hpq Hp. destruct (IH input (a ++ p) q width) as (res & Hr & Hs).
    - by rewrite E, Hpq, app_assoc.
    - apply (f_equal length) in Hpq. rewrite length_app in Hpq. destruct p; [done|]. cbn in *. lia.
    - exists res. split; [done|]. intros stop Hst. destruct (Hs stop Hst) as (m & run & z & -> & -> & ?).
      exists (p ++ m), run, z. by rewrite Hpq, !app_assoc. }
  assert (Hsp : split_at_byte (blen a) input = Some (a, c :: r')) by (rewrite E; apply split_at_2).
  rewrite Hsp. cbn [expect exec_bind]. destruct (code_span (c :: r')) as [[rest stop]|] eqn:CS.
  - apply code_span_spec in CS as (code & z & Hr & _ & ->).
    destruct (step (chr "`" :: code ++ [chr "`"]) z) as (res & Hres & Hs); [by rewrite Hr; cbn; rewrite <- app_assoc|done|].
    exists res. split; [|done]. rewrite <- Hres. f_equal. rewrite blen_app, span_blen. lia.
  - destruct (starts_with _ _) eqn:SW.
    + apply starts_with_star in SW as (r'' & _ & Hrun).
      destruct (run_length_split (chr "*") (c :: r') eq_refl) as (run & z & Hz & Hb & Hl).
      fold (asterisk_run_length (c :: r')) in Hb, Hl.
      assert (closing : exists b, (if asterisk_run_length (c :: r') =? width then can_close_asterisks input (blen a) else Val false)
        = Val b /\ (b = true -> asterisk_run_length (c :: r') = width)).
      { destruct (_ =? width) eqn:W; breflect; [|by exists false]. destruct (can_close_ok a (c :: r')) as [b Hc].
        exists b. by rewrite E, Hc. }
      destruct closing as (b & -> & Hb'). cbn [exec_bind]. destruct b.
      * eexists. split; [done|]. intros stop [= <-]. exists [], run, z. rewrite app_nil_r. split_and!; [done..|]. rewrite Hb. by apply Hb'.
      * destruct (step run z) as (res & Hres & Hs); [done|intros ->; cbn [length] in Hl; lia|].
        exists res. split; [|done]. rewrite <- Hres, blen_app. f_equal. lia.
    + cbn [head expect exec_bind]. destruct (step [c] r') as (res & Hres & Hs); [done..|].
      exists res. split; [|done]. rewrite <- Hres, blen_app. cbn. f_equal. lia.
Qed.

Lemma emphasis_end_ok a run r :
  1 <= blen run ->
  exists res, emphasis_end (length (a ++ run ++ r)) (a ++ run ++ r) (blen a) (blen run) = Val res /\
    forall stop, res = Some stop -> exists m run' z, r = m ++ run' ++ z /\ stop = blen (a ++ run ++ m) /\ blen run' = blen run.
Proof.
  intros H. unfold emphasis_end. destruct (_ || _); [|by exists None].
  destruct (can_open_ok a run r) as [b ->]. cbn [exec_bind]. destruct b; [|by exists None].
  destruct (find_closing_ok (length (a ++ run ++ r)) (a ++ run ++ r) (a ++ run) r (blen run)) as (res & Hr & Hs);
    [by rewrite app_assoc|rewrite !length_app; lia|].
  exists res. split; [by rewrite <- Hr, blen_app|]. intros stop Hst. destruct (Hs stop Hst) as (m & run' & z & -> & -> & ?).
  exists m, run', z. by rewrite <- app_assoc.
Qed.

Lemma slice_range_ok (a m z : rstr) : slice_range (blen a) (blen (a ++ m)) (a ++ m ++ z) = Val m.
Proof. unfold slice_range. by rewrite app_assoc, !split_at_2; cbn; rewrite split_at_2. Qed.

(** Stripping deletes characters and nothing else. *)
Lemma strip_loop_ok fuel : forall input a r acc,
  input = a ++ r -> (length r <= fuel)%nat ->
  exists out, strip_loop fuel input (blen a) acc = Val (acc ++ out) /\ out `sublist_of` r.
Proof.
  induction fuel as [|fuel IH]; intros input a r acc E L.
  { destruct r; [|cbn in L; lia]. rewrite app_nil_r in E. subst input. exists []. cbn. by rewrite Z.ltb_irrefl, app_nil_r. }
  cbn [strip_loop]. destruct (blen a <? blen input) eqn:B.
  2:{ exists []. rewrite app_nil_r. split; [done|apply sublist_nil_l]. }
  destruct r as [|c r']. { rewrite E, app_nil_r, Z.ltb_irrefl in B. done. }
  (* past [p], having kept [k] of it *)
  assert (step : forall p q k, c :: r' = p ++ q -> p <> [] -> k `sublist_of` p -> exists out,
    strip_loop fuel input (blen (a ++ p)) (acc ++ k) = Val (acc ++ out) /\ out `sublist_of` c :: r').
  { intros p q k Hpq Hp Hk. destruct (IH input (a ++ p) q (acc ++ k)) as (out & Ho & Hs).
    - by rewrite E, Hpq, app_assoc.
    - apply (f_equal length) in Hpq. rewrite length_app in Hpq. destruct p; [done|]. cbn in *. lia.
    - exists (k ++ out). rewrite app_assoc. split; [done|]. rewrite Hpq. by apply sublist_app. }
  assert (Hsp : split_at_byte (blen a) input = Some (a, c :: r')) by (rewrite E; apply split_at_2).
  rewrite Hsp. cbn [expect exec_bind]. destruct (code_span (c :: r')) as [[rest stop]|] eqn:CS.
  - apply code_span_spec in CS as (code & z & Hr & -> & ->). rewrite split_at_2. cbn [expect exec_bind].
    destruct (step (chr "`" :: code ++ [chr "`"]) z code) as (out & Ho & Hs); [by rewrite Hr; cbn; rewrite <- app_assoc|done| |].
    { apply sublist_cons, sublist_inserts_r. done. }
    exists out. split; [|done]. rewrite <- Ho. f_equal. rewrite blen_app, span_blen. lia.
  - destruct (starts_with _ _) eqn:SW.
    + apply starts_with_star in SW as (r'' & _ & Hrun).
      destruct (run_length_split (chr "*") (c :: r') eq_refl) as (run & z & Hz & Hb & Hl).
      fold (asterisk_run_length (c :: r')) in Hb, Hl. rewrite <- Hb in *.
      assert (Hne : run <> []) by (intros ->; cbn in Hrun; lia).
      destruct (emphasis_end_ok a run z Hrun) as (res & Hres & Hspec). rewrite <- Hz, <- E in Hres. rewrite Hres.
      cbn [exec_bind]. destruct res as [stop|].
      * destruct (Hspec stop eq_refl) as (m & run' & z' & -> & -> & Hb').
        assert (Hsl : slice_range (blen a + blen run) (blen (a ++ run ++ m)) input = Val m).
        { rewrite E, Hz, <- blen_app, (app_assoc a), (app_assoc a). apply slice_range_ok. }
        rewrite Hsl. cbn [exec_bind]. apply (f_equal length) in Hz as Hlen. rewrite !length_app in Hlen.
        assert (1 <= length run)%nat by (destruct run; [done|cbn; lia]).
        destruct (IH m [] m []) as (inner & Hi & Hsub); [done|cbn in L, Hlen; lia|]. cbn [blen app] in Hi. rewrite Hi.
        cbn [exec_bind]. destruct (step (run ++ m ++ run') z' inner) as (out & Ho & Hs).
        { by rewrite Hz, <- !app_assoc. }
        { by destruct run. }
        { apply sublist_inserts_l, sublist_inserts_r. done. }
        exists out. split; [|done]. rewrite <- Ho. f_equal. rewrite !blen_app. lia.
      * rewrite Hz, split_at_2. cbn [expect exec_bind].
        destruct (step run z run) as (out & Ho & Hs); [done..|]. exists out. rewrite <- Hz. split; [|done]. by rewrite <- Ho, blen_app.
    + cbn [head expect exec_bind]. destruct (step [c] r' [c]) as (out & Ho & Hs); [done..|].
      exists out. split; [|done]. rewrite <- Ho, blen_app. cbn. f_equal. lia.
Qed.

Lemma strip_paired_ok input : exists out, strip_paired_delimiters input = Val out /\ out `sublist_of` input.
Proof. apply (strip_loop_ok (length input) input [] input []); done. Qed.

(** ** Lines are spoken within their length *)

Lemma sublist_blen (s t : rstr) : s `sublist_of` t -> blen s <= blen t.
Proof. induction 1; cbn [blen]; [lia|lia|]. pose proof (len_utf8_pos x). lia. Qed.

Lemma suffix_trim_start s : trim_start s `suffix_of` s.
Proof. destruct (trim_start_matches_decomp is_whitespace s) as (pre & Hs & _). by exists pre. Qed.

Lemma suffix_strip_prefix pat : forall s r, strip_prefix pat s = Some r -> r `suffix_of` s.
Proof.
  induction pat as [|p pat IH]; intros [|c s] r; cbn [strip_prefix]; intros H; simplify_eq; [done..|].
  destruct (p =? c); [|done]. by apply suffix_cons_r, IH.
Qed.

Lemma suffix_blen (s t : rstr) : s `suffix_of` t -> blen s <= blen t.
Proof. intros [k ->]. rewrite blen_app. pose proof (blen_nonneg k). lia. Qed.

Lemma split_run c s :
  len_utf8 c = 1 -> exists run rest, split_at_byte (run_length c s) s = Some (run, rest) /\ rest `suffix_of` s.
Proof.
  intros Hc. destruct (run_length_split c s Hc) as (run & rest & Hs & Hb & _). exists run, rest.
  pose proof (split_at_2 run rest) as H. rewrite <- Hs, Hb in H. split; [done|by exists run].
Qed.

(** Prefixes of a line are dropped; what is left is its end. *)
Lemma strip_line_prefixes_ok line :
  exists l h, strip_line_prefixes line = Val (l, h) /\ l `suffix_of` line.
Proof.
  unfold strip_line_prefixes. destruct (_ || _); [exists [], false; split; [done|apply suffix_nil]|].
  destruct (split_run (chr "#") line eq_refl) as (run & rest & Hsp & Hsuf).
  set (n := run_length _ _) in *. set (ih := if _ && _ then _ else Val false).
  assert (exists h, ih = Val h) as [h ->].
  { unfold ih. destruct (_ && _); [rewrite Hsp; by eexists|by eexists]. }
  cbn [exec_bind]. assert (exists l, (if h then let! '(_, rest) := expect (split_at_byte n line) in Val (trim_start rest) else Val line) = Val l
    /\ l `suffix_of` line) as (l & -> & Hl).
  { destruct h; [|by exists line]. rewrite Hsp. exists (trim_start rest). split; [done|]. etrans; [apply suffix_trim_start|done]. }
  cbn [exec_bind]. destruct (strip_prefix _ l) as [r|] eqn:P; [|by exists l, h].
  destruct (is_some_and _ _); [|by exists l, h]. exists (trim_start r), h. split; [done|].
  etrans; [apply suffix_trim_start|]. etrans; [by eapply suffix_strip_prefix|done].
Qed.

Lemma after_separator_suffix sep rest r : after_separator sep rest = Some r -> r `suffix_of` rest.
Proof.
  unfold after_separator. destruct (strip_prefix sep rest) eqn:P; [|done]. destruct (is_some_and _ _); [|done].
  intros [= <-]. etrans; [apply suffix_trim_start|by eapply suffix_strip_prefix].
Qed.

Lemma digit_len c : is_ascii_digit c = true -> len_utf8 c = 1.
Proof. unfold is_ascii_digit, len_utf8. intros H. breflect. destruct (c <? _) eqn:E; breflect; [done|lia]. Qed.

Lemma split_digits s : exists ds rest, s = ds ++ rest /\ blen ds = digit_count s.
Proof.
  induction s as [|c s (ds & rest & IH & Hb)]; cbn [digit_count]; [by exists [], []|].
  destruct (is_ascii_digit c) eqn:D; [|by exists [], (c :: s)]. exists (c :: ds), rest. cbn [blen]. apply digit_len in D.
  split; [by rewrite IH at 1|lia].
Qed.

Lemma strip_heading_ordinal_ok input :
  exists out, strip_heading_ordinal input = Val out /\ out `suffix_of` input.
Proof.
  unfold strip_heading_ordinal. destruct (_ =? 0); [by exists input|].
  destruct (split_digits input) as (ds & rest & Hs & Hb). pose proof (split_at_2 ds rest) as H.
  rewrite <- Hs, Hb in H. rewrite H. cbn [expect exec_bind].
  eexists. split; [done|]. assert (Hr : rest `suffix_of` input) by (by exists ds).
  destruct (after_separator (lit ".") rest) eqn:A; cbn [opt_or default].
  - etrans; [by eapply after_separator_suffix|done].
  - destruct (after_separator (lit "、") rest) eqn:A'; cbn; [|reflexivity]. etrans; [by eapply after_separator_suffix|done].
Qed.

Lemma decorate_blen h chars : forall conv, blen (decorate h chars conv) <= blen chars.
Proof.
  induction chars as [|c chars IH]; intros conv; cbn [decorate]; [lia|].
  destruct (char_in _ c && h); [cbn [blen]; pose proof (len_utf8_pos c); specialize (IH conv); lia|].
  destruct ((c =? _) && _) eqn:C; cbn [blen]; [|specialize (IH conv); lia]. breflect. subst c.
  specialize (IH true). assert (len_utf8 (chr "：") = 3 /\ len_utf8 (chr "，") = 3) as [-> ->] by done. lia.
Qed.

Lemma saturating_fits a b limit : limit < u64_max -> saturating_add a b <= limit -> a + b <= limit.
Proof. ints. Qed.

Lemma normalize_decorative_ok input h limit :
  blen input <= limit -> limit < u64_max ->
  exists out, normalize_decorative_speech input h limit = Val out /\ blen out <= limit.
Proof.
  intros Hin Hlim. unfold normalize_decorative_speech.
  assert (exists s, (if h then strip_heading_ordinal input else Val input) = Val s /\ blen s <= limit) as (s & -> & Hs).
  { destruct h; [|by exists input]. destruct (strip_heading_ordinal_ok input) as (o & -> & ?%suffix_blen). exists o. split; [done|lia]. }
  cbn [exec_bind]. eexists. split; [done|].
  assert (Hn : blen (trim (decorate h s false)) <= limit)
    by (pose proof (trim_blen (decorate h s false)); pose proof (decorate_blen h s false); lia).
  destruct (_ && _); [|done]. destruct (_ <=? limit) eqn:L1; [|destruct (saturating_add _ 1 <=? limit) eqn:L2; [|done]];
    rewrite blen_app; breflect; (eapply Z.le_trans; [|by eapply saturating_fits]); done.
Qed.

Lemma trim_nonblank_ends s : trim s <> [] ->
  is_some_and (head (trim s)) is_whitespace = false /\ is_some_and (last (trim s)) is_whitespace = false.
Proof.
  intros Hne. unfold trim, trim_matches in *. split.
  - destruct (trim_end_matches_decomp is_whitespace (trim_start_matches is_whitespace s)) as (post & Hs & _).
    destruct (trim_end_matches _ _) as [|c t] eqn:E; [done|]. cbn. by eapply trim_start_matches_head.
  - destruct (trim_end_matches _ _) as [|c t] eqn:E using rev_ind; [done|]. rewrite last_snoc. cbn. by eapply trim_end_matches_last.
Qed.

(** A spoken line: no wider than its source, without outer whitespace. *)
Definition spoken_line (limit : Z) (l : rstr) : Prop :=
  blen l <= limit /\ l <> [] /\
  is_some_and (head l) is_whitespace = false /\ is_some_and (last l) is_whitespace = false.

Lemma normalize_line_ok line :
  blen line < u64_max ->
  exists out, normalize_line line = Val out /\ forall l, out = Some l -> spoken_line (blen line) l.
Proof.
  intros Hl. pose proof (trim_blen line). unfold normalize_line. destruct (_ && _); [by exists None|].
  destruct (strip_line_prefixes_ok (trim line)) as (l & h & -> & Hs%suffix_blen). cbn [exec_bind].
  destruct (strip_paired_ok l) as (l' & -> & Hs'%sublist_blen). cbn [exec_bind].
  destruct (normalize_decorative_ok l' h (blen (trim line))) as (l'' & -> & Hs''); [lia|lia|]. cbn [exec_bind].
  eexists. split; [done|]. intros t. destruct (trim l'') eqn:E; [done|]. cbn. intros [= <-].
  assert (Hne : trim l'' <> []) by (by rewrite E). rewrite <- E. unfold spoken_line. pose proof (trim_blen l'').
  split_and!; [lia|done|by apply trim_nonblank_ends..].
Qed.

(** ** The text as a whole *)

(** The bytes of lines and of a separator after each. *)
Fixpoint joined_weight (ws : list rstr) : Z :=
  match ws with [] => 0 | w :: ws => blen w + 1 + joined_weight ws end.

Definition lf_ended (p : rstr) : bool := bool_decide (last p = Some 0x0A).

Lemma strip_suffix_snoc x p c : strip_suffix [x] (p ++ [c]) = if x =? c then Some p else None.
Proof.
  unfold strip_suffix. change (rev [x]) with [x]. rewrite rev_app_distr. cbn. destruct (x =? c); [|done]. by rewrite rev_involutive.
Qed.

Lemma strip_suffix_blen x p l : strip_suffix [x] p = Some l -> blen l <= blen p.
Proof.
  destruct p as [|c p _] using rev_ind; [done|]. rewrite strip_suffix_snoc, blen_app. cbn [blen]. pose proof (len_utf8_pos c).
  destruct (x =? c); intros [= <-]. lia.
Qed.

Lemma line_of_piece_weight p : blen (line_of_piece p) + 1 <= blen p + (if lf_ended p then 0 else 1).
Proof.
  unfold line_of_piece. destruct p as [|c p _] using rev_ind; [done|]. rewrite strip_suffix_snoc.
  unfold lf_ended. rewrite last_snoc. destruct (10 =? c) eqn:E; breflect; [subst c|case_bool_decide; simplify_eq; lia].
  rewrite bool_decide_true by done. rewrite blen_app. cbn [blen]. assert (len_utf8 10 = 1) by done.
  destruct (strip_suffix [13] p) eqn:S; [apply strip_suffix_blen in S|]; lia.
Qed.

Lemma lf_ended_cons c p : c <> 0x0A -> lf_ended (c :: p) = lf_ended p.
Proof. intros Hc. unfold lf_ended. destruct p; [|done]. cbn. apply bool_decide_ext. naive_solver. Qed.

Lemma lines_weight s : joined_weight (lines s) <= blen s + 1.
Proof.
  unfold lines. enough (G : forall ps, joined_weight (map line_of_piece ps) <=
    foldr (fun p acc => blen p + (if lf_ended p then 0 else 1) + acc) 0 ps).
  { etrans; [apply G|]. clear G. induction s as [|c s IH]; cbn [split_inclusive_lf]; [done|]. cbn [blen].
    destruct (c =? 10) eqn:E; breflect.
    - subst c. cbn [foldr blen]. assert (len_utf8 10 = 1) as -> by done. change (lf_ended [10]) with true. cbn -[foldr]. lia.
    - destruct (split_inclusive_lf s) as [|l ls]; cbn [foldr blen] in *; rewrite lf_ended_cons by done; [|lia].
      pose proof (blen_nonneg s). destruct (lf_ended _); lia. }
  induction ps as [|p ps IH]; cbn [map joined_weight foldr]; [done|]. pose proof (line_of_piece_weight p). lia.
Qed.

Lemma join_blen ws : blen (join (lit " ") ws) <= Z.max 0 (joined_weight ws - 1).
Proof.
  induction ws as [|w [|v ws] IH]; cbn [join joined_weight blen] in *; [done|lia|].
  rewrite !blen_app. assert (blen (lit " ") = 1) as -> by done. pose proof (blen_nonneg v).
  enough (0 <= joined_weight ws) by lia. clear. induction ws as [|u ws IH]; cbn; [done|]. pose proof (blen_nonneg u). lia.
Qed.

Lemma joined_weight_nonneg ws : 0 <= joined_weight ws.
Proof. induction ws as [|w ws IH]; cbn; [done|]. pose proof (blen_nonneg w). lia. Qed.

(** What a spoken text is: at most [limit] bytes, without outer whitespace. *)
Lemma join_spoken ws limit :
  Forall (spoken_line limit) ws -> ws <> [] ->
  exists h l, head (join (lit " ") ws) = Some h /\ last (join (lit " ") ws) = Some l /\
    is_whitespace h = false /\ is_whitespace l = false.
Proof.
  induction 1 as [|w ws (_ & Hne & Hh & Hl) Hws IH]; [done|]. intros _.
  destruct w as [|h w]; [done|]. destruct ws as [|v ws].
  - cbn [join]. destruct (last (h :: w)) as [l|] eqn:L; [by exists h, l|by apply last_None in L].
  - destruct IH as (h' & l' & _ & Hl' & _ & ?); [done|]. exists h, l'.
    change (join _ _) with ((h :: w) ++ lit " " ++ join (lit " ") (v :: ws)). split_and!; [done| |done..].
    rewrite !last_app, Hl'. done.
Qed.

Lemma normalize_lines_ok ls :
  joined_weight ls <= u64_max ->
  exists out, normalize_lines ls = Val out /\ joined_weight out <= joined_weight ls /\ Forall (spoken_line u64_max) out.
Proof.
  induction ls as [|l ls IH]; cbn [normalize_lines joined_weight]; [by exists []|]. intros H.
  pose proof (blen_nonneg l). pose proof (joined_weight_nonneg ls).
  destruct (normalize_line_ok l) as (o & -> & Ho); [lia|]. cbn [exec_bind].
  destruct IH as (out & -> & Hw & Hf); [lia|]. cbn [exec_bind]. eexists. split; [done|].
  destruct o as [t|]; [|split; [lia|done]]. destruct (Ho t eq_refl) as (Hb & Hr). cbn [joined_weight].
  split; [lia|]. constructor; [|done]. split; [lia|done].
Qed.

(** ** Text without markup *)

(** A character that no rule of the normalization is about. *)
Definition plain_char (c : rchar) : bool := negb (char_in (lit "`*#-_") c) && negb (c =? 0x0A).

Lemma plain_not c d : plain_char c = true -> char_in (lit "`*#-_") d = true -> c <> d.
Proof. unfold plain_char. intros Hc Hd ->. rewrite Hd in Hc. done. Qed.

Lemma strip_loop_plain fuel : forall input a r acc,
  input = a ++ r -> (length r <= fuel)%nat -> Forall (fun c => plain_char c = true) r ->
  strip_loop fuel input (blen a) acc = Val (acc ++ r).
Proof.
  induction fuel as [|fuel IH]; intros input a r acc E L Hr.
  { destruct r; [|cbn in L; lia]. rewrite app_nil_r in *. subst input. cbn. by rewrite Z.ltb_irrefl. }
  cbn [strip_loop]. destruct r as [|c r']; [rewrite app_nil_r in *; subst input; by rewrite Z.ltb_irrefl|].
  rewrite E at 1. rewrite blen_app. cbn [blen]. pose proof (len_utf8_pos c). pose proof (blen_nonneg r').
  destruct (_ <? _) eqn:B; breflect; [|lia].
  assert (Hsp : split_at_byte (blen a) input = Some (a, c :: r')) by (rewrite E; apply split_at_2).
  rewrite Hsp. cbn [expect exec_bind]. inversion Hr as [|? ? Hc Hr']; subst.
  assert (code_span (c :: r') = None) as ->.
  { unfold code_span. change (lit "`") with [chr "`"]. cbn [strip_prefix]. destruct (chr "`" =? c) eqn:Q; [|done].
    breflect. subst c. done. }
  assert (starts_with (lit "*") (c :: r') = false) as ->.
  { unfold starts_with. change (lit "*") with [chr "*"]. cbn [strip_prefix]. destruct (chr "*" =? c) eqn:Q; [|done].
    breflect. subst c. done. }
  cbn [head expect exec_bind]. replace (blen a + len_utf8 c) with (blen (a ++ [c])) by (rewrite blen_app; cbn [blen]; lia).
  rewrite (IH _ _ r'); [by rewrite <- app_assoc|by rewrite <- app_assoc|cbn in L; lia|done].
Qed.

Lemma Forall_trim (P : rchar -> Prop) s : Forall P s -> Forall P (trim s).
Proof.
  destruct (trim_decomp s) as (pre & post & Hs & _). rewrite Hs at 1. by intros (_ & (? & _)%Forall_app)%Forall_app.
Qed.

Lemma trim_fixed s : s <> [] -> is_some_and (head s) is_whitespace = false ->
  is_some_and (last s) is_whitespace = false -> trim s = s.
Proof.
  intros Hne Hh Hl. destruct s as [|c s]; [done|]. unfold trim, trim_matches. cbn [trim_start_matches]. cbn in Hh. rewrite Hh.
  clear Hh Hne. revert c Hl. induction s as [|d s IH]; intros c Hl; cbn in *; [by rewrite Hl|]. by rewrite IH.
Qed.

Lemma trim_idem s : trim (trim s) = trim s.
Proof.
  destruct (trim s) as [|c t] eqn:E; [done|]. assert (Hne : trim s <> []) by (by rewrite E).
  apply trim_nonblank_ends in Hne as [? ?]. rewrite E in *. by apply trim_fixed.
Qed.

Lemma thematic_is_markup c : char_in (lit "*-_") c = true -> char_in (lit "`*#-_") c = true.
Proof.
  unfold char_in. rewrite !existsb_exists. intros (d & Hd & E). exists d. split; [|done].
  change (lit "*-_") with [42; 45; 95] in Hd. change (lit "`*#-_") with [96; 42; 35; 45; 95]. cbn in *. tauto.
Qed.

Lemma decorate_plain s b : decorate false s b = s.
Proof. induction s as [|c s IH]; cbn [decorate]; [done|]. rewrite !andb_false_r. by rewrite IH. Qed.

Lemma normalize_line_plain line :
  Forall (fun c => plain_char c = true) line ->
  normalize_line line = Val (if is_blank line then None else Some (trim line)).
Proof.
  intros Hl%Forall_trim. unfold normalize_line, is_blank. pose proof (trim_idem line) as trim_t. destruct (trim line) as [|c t'] eqn:Et; [by vm_compute|].
  inversion Hl as [|? ? Hc Ht']; simplify_eq. assert (N : forall d, char_in (lit "`*#-_") d = true -> (d =? c) = false).
  { intros d Hd. apply Z.eqb_neq. intros ->. by eapply plain_not. }
  assert (starts_with (lit "```") (c :: t') = false) as ->.
  { unfold starts_with. change (lit "```") with [chr "`"; chr "`"; chr "`"]. cbn [strip_prefix]. by rewrite N. }
  cbn [andb]. unfold strip_line_prefixes.
  assert (bool_decide (c :: t' = lit "#") = false) as ->.
  { apply bool_decide_false. change (lit "#") with [chr "#"]. intros [= -> _]. done. }
  assert (is_thematic_break (c :: t') = false) as ->.
  { unfold is_thematic_break. assert (is_whitespace c = false) as Hw.
    { assert (trim line <> []) as [Hh _]%trim_nonblank_ends by (by rewrite Et). by rewrite Et in Hh. }
    cbn [List.filter]. rewrite Hw. cbn [negb thematic_loop]. destruct (char_in (lit "*-_") c) eqn:Q; [|done].
    exfalso. apply (plain_not c c Hc); [|done]. by apply thematic_is_markup. }
  cbn [orb run_length]. rewrite (Z.eqb_sym c), N by done. cbn [Z.leb Z.compare andb exec_bind].
  change (lit "*") with [chr "*"]. cbn [strip_prefix]. rewrite N by done. cbn [exec_bind].
  unfold strip_paired_delimiters. rewrite (strip_loop_plain _ _ [] (c :: t') []) by done. cbn [app exec_bind].
  unfold normalize_decorative_speech. cbn [exec_bind andb]. rewrite decorate_plain, !trim_t. done.
Qed.

Lemma split_inclusive_plain s :
  Forall (fun c => plain_char c = true) s -> s <> [] -> split_inclusive_lf s = [s].
Proof.
  induction 1 as [|c s Hc Hs IH]; [done|]. intros _. cbn [split_inclusive_lf].
  unfold plain_char in Hc. apply andb_prop in Hc as [_ Hc%negb_true_iff]. rewrite Hc.
  destruct s as [|d s]; [done|]. by rewrite IH.
Qed.

Lemma lines_plain s : Forall (fun c => plain_char c = true) s -> s <> [] -> lines s = [s].
Proof.
  intros Hs Hne. unfold lines. rewrite split_inclusive_plain by done. cbn. f_equal. unfold line_of_piece.
  destruct s as [|c s _] using rev_ind; [done|]. rewrite strip_suffix_snoc. destruct (10 =? c) eqn:E; [|done]. breflect. subst c.
  apply Forall_app in Hs as [_ Hs]. by inversion Hs.
Qed.

(** ** Totality *)

Lemma speech_text_ok (input : rstr) (fits : blen input < u64_max) :
  exists out, normalize_speech_text input = Val out /\
    (forall t, out = Some t -> blen t <= blen input /\ t <> [] /\ trim t = t) /\
    (Forall (fun c => plain_char c = true) input -> out = if is_blank input then None else Some (trim input)).
Proof.
  unfold normalize_speech_text. pose proof (lines_weight input) as Hw. pose proof (blen_nonneg input).
  destruct (normalize_lines_ok (lines input)) as (ls & Hls & Hw' & Hf); [lia|].
  rewrite Hls. cbn [exec_bind]. eexists. split; [done|]. split.
  - intros t. pose proof (join_blen ls) as Hj. destruct ls as [|l ls]; [done|].
    destruct (join_spoken (l :: ls) u64_max Hf) as (h & z & Hh & Hz & ? & ?); [done|].
    destruct (join (lit " ") (l :: ls)) as [|c j] eqn:J; [done|]. cbn [is_empty]. intros [= <-].
    split_and!; [lia|done|]. apply trim_fixed; [done|..]; [by rewrite Hh|by rewrite Hz].
  - intros Hp. destruct input as [|c input']; [simpl in Hls; by simplify_eq|].
    rewrite lines_plain in Hls by done. cbn [normalize_lines] in Hls. rewrite normalize_line_plain in Hls by done.
    cbn [exec_bind] in Hls. unfold is_blank in *. destruct (trim (c :: input')) eqn:T; cbn in Hls; by simplify_eq.
Qed.

(** Normalizing a text for speech ends without a panic on every text a
    machine can hold (no slice falls inside a character, no index overflows);
    what is spoken is never longer than the source, never empty and never
    starts or ends with whitespace; and a single line that uses none of the
    markup characters is spoken as it is, trimmed, or not at all when blank. *)
Theorem speech_text_total (input : rstr) (fits : blen input < u64_max) :
  exists out, normalize_speech_text input = Val out /\
    (forall t, out = Some t -> blen t <= blen input /\ t <> [] /\ trim t = t) /\
    (Forall (fun c => plain_char c = true) input -> out = if is_blank input then None else Some (trim input)).
Proof. by apply speech_text_ok. Qed.

Lemma speech_text_total_witness :
  normalize_speech_text (lit " plain words ") = Val (Some (lit "plain words")) /\
  exists out, normalize_speech_text (lit " plain words ") = Val out /\
    (forall t, out = Some t -> blen t <= 13 /\ t <> [] /\ trim t = t).
Proof.
  split; [vm_compute; reflexivity|].
  destruct (speech_text_total (lit " plain words ") ltac:(vm_compute; reflexivity)) as (out & H1 & H2 & _).
  exists out. split; [exact H1|exact H2].
Defined.

(** The behaviour on the inputs of the source's tests. *)

Example heading_ends_sentence :
  normalize_speech_text (lit "### API: https://host/a at 10:30") = Val (Some (lit "API: https://host/a at 10:30。")).
Proof. vm_compute. reflexivity. Qed.

Example nested_emphasis_and_code :
  normalize_speech_text (lit "**say `hello`** and *keep **nested** natural*.") = Val (Some (lit "say hello and keep nested natural.")).
Proof. vm_compute. reflexivity. Qed.

Example asterisk_inside_code :
  normalize_speech_text (lit "*say `2*3`*") = Val (Some (lit "say 2*3")).
Proof. vm_compute. reflexivity. Qed.

Example heading_quotes_and_colon :
  normalize_speech_text (lit "### 故事名：《第25小时的雨》") = Val (Some (lit "故事名，第25小时的雨。")).
Proof. vm_compute. reflexivity. Qed.

Example heading_ordinal :
  normalize_speech_text (lit "#### 1. 初遇：咖啡馆的旧雨伞") = Val (Some (lit "初遇，咖啡馆的旧雨伞。")).
Proof. vm_compute. reflexivity. Qed.

Example unpaired_asterisks_kept :
  normalize_speech_text (lit "***nested**") = Val (Some (lit "***nested**")).
Proof. vm_compute. reflexivity. Qed.

