(* ===== verification/ProtocolQuality.v ===== *)
(** * Conversation quality types of the protocol crate

    [crates/protocol/src/quality.rs]: persona levels and profiles, conversation
    modes, response controls, signals, messages and the quality decision, with
    their validating constructors. *)

From S2P Require Import Prelude RustStr Errors.

Definition MAX_HISTORY_MESSAGE_COUNT : Z := 32.
Definition MAX_HISTORY_BYTES : Z := 32 * 1024.
Definition MAX_CONVERSATION_MESSAGE_BYTES : Z := 16 * 1024.

Definition quality_error (message : rstr) : RuntimeError :=
  RuntimeError_new Kind_Configuration Stage_Runtime message.

(** A persona level is a [u8] within [0..=100]. *)
Record PersonaLevel : Type := PersonaLevel_raw { PersonaLevel_get : Z }.

Definition PersonaLevel_new (value : Z) : rresult PersonaLevel :=
  if 100 <? value then Err (quality_error (lit "persona level must be within 0..=100"))
  else Ok (PersonaLevel_raw value).

Record PersonaProfile : Type := PersonaProfile_new {
  warmth : PersonaLevel;
  humor : PersonaLevel;
  teasing : PersonaLevel;
  initiative : PersonaLevel;
  directness : PersonaLevel;
  intimacy : PersonaLevel;
  verbosity : PersonaLevel;
  follow_up_frequency : PersonaLevel;
}.

(** The spoken budget a persona buys, in [u16] arithmetic. *)
Definition PersonaProfile_maximum_spoken_seconds (p : PersonaProfile) : Z :=
  let verbosity := PersonaLevel_get p.(verbosity) in
  let expansive_bonus := saturating_sub verbosity 60 * 3 in
  10 + verbosity * 7 / 10 + expansive_bonus.

Definition PersonaProfile_default : PersonaProfile :=
  PersonaProfile_new
    (PersonaLevel_raw 80) (PersonaLevel_raw 60) (PersonaLevel_raw 40) (PersonaLevel_raw 35)
    (PersonaLevel_raw 80) (PersonaLevel_raw 30) (PersonaLevel_raw 20) (PersonaLevel_raw 25).

Inductive ConversationMode : Type :=
| DirectAnswer
| Companionship
| Brainstorming
| Reflective.

Definition ConversationMode_as_str (m : ConversationMode) : rstr :=
  match m with
  | DirectAnswer => lit "direct_answer"
  | Companionship => lit "companionship"
  | Brainstorming => lit "brainstorming"
  | Reflective => lit "reflective"
  end.

Inductive SpeechPace : Type :=
| Measured
| Natural
| Brisk.

Definition SpeechPace_as_str (p : SpeechPace) : rstr :=
  match p with
  | Measured => lit "measured"
  | Natural => lit "natural"
  | Brisk => lit "brisk"
  end.

Inductive VoiceResponseMode : Type :=
| Automatic
| ExternalGate.

Definition VoiceResponseMode_as_str (m : VoiceResponseMode) : rstr :=
  match m with
  | Automatic => lit "automatic"
  | ExternalGate => lit "external_gate"
  end.

Definition VoiceResponseMode_parse (value : rstr) : option VoiceResponseMode :=
  if bool_decide (value = lit "automatic") then Some Automatic
  else if bool_decide (value = lit "external_gate") then Some ExternalGate
  else None.

Inductive FollowUpPolicy : Type :=
| Never
| Contextual
| Allowed.

Definition FollowUpPolicy_as_str (p : FollowUpPolicy) : rstr :=
  match p with
  | Never => lit "never"
  | Contextual => lit "contextual"
  | Allowed => lit "allowed"
  end.

Inductive SilencePolicy : Type :=
| AllowWithoutFiller.

Definition SilencePolicy_as_str (p : SilencePolicy) : rstr :=
  match p with AllowWithoutFiller => lit "allow_without_filler" end.

Record ResponseControls : Type := {
  maximum_spoken_seconds : Z;
  controls_directness : PersonaLevel;
  pace : SpeechPace;
  follow_up_policy : FollowUpPolicy;
  silence_policy : SilencePolicy;
}.

Definition ResponseControls_new (seconds : Z) (d : PersonaLevel) (p : SpeechPace)
    (f : FollowUpPolicy) (s : SilencePolicy) : rresult ResponseControls :=
  if seconds =? 0 then
    Err (quality_error (lit "maximum spoken seconds must be greater than zero"))
  else
    Ok {| maximum_spoken_seconds := seconds;
          controls_directness := d;
          pace := p;
          follow_up_policy := f;
          silence_policy := s |}.

Definition ResponseControls_default : exec ResponseControls :=
  match ResponseControls_new 20 (PersonaLevel_raw 80) Natural Contextual AllowWithoutFiller with
  | Ok c => Val c
  | Err _ => Panics
  end.

Inductive ConversationSignal : Type :=
| Interrupted
| ShorterRequested
| StopExplaining
| QuestionRejected
| Hesitation
| RapidTopicChange.

Definition ConversationSignal_as_str (s : ConversationSignal) : rstr :=
  match s with
  | Interrupted => lit "interrupted"
  | ShorterRequested => lit "shorter_requested"
  | StopExplaining => lit "stop_explaining"
  | QuestionRejected => lit "question_rejected"
  | Hesitation => lit "hesitation"
  | RapidTopicChange => lit "rapid_topic_change"
  end.

Inductive ConversationRole : Type :=
| User
| Assistant.

Definition ConversationRole_as_str (r : ConversationRole) : rstr :=
  match r with
  | User => lit "user"
  | Assistant => lit "assistant"
  end.

Record ConversationMessage : Type := {
  role : ConversationRole;
  text : rstr;
}.

Definition ConversationMessage_new (role : ConversationRole) (text : rstr)
  : rresult ConversationMessage :=
  if is_blank text then Err (quality_error (lit "conversation message must not be empty"))
  else if MAX_CONVERSATION_MESSAGE_BYTES <? blen text then
    Err (quality_error (lit "conversation message exceeds 16 KiB"))
  else Ok {| role := role; text := text |}.

Inductive ContextSource : Type :=
| SavedPersona
| RecentHistory
| CurrentTurn
| BargeIn
| TemporaryCorrection.

Definition ContextSource_as_str (s : ContextSource) : rstr :=
  match s with
  | SavedPersona => lit "saved_persona"
  | RecentHistory => lit "recent_history"
  | CurrentTurn => lit "current_turn"
  | BargeIn => lit "barge_in"
  | TemporaryCorrection => lit "temporary_correction"
  end.

#[export] Instance PersonaLevel_eq_dec : EqDecision PersonaLevel.
Proof. solve_decision. Defined.
#[export] Instance PersonaProfile_eq_dec : EqDecision PersonaProfile.
Proof. solve_decision. Defined.
#[export] Instance ConversationMode_eq_dec : EqDecision ConversationMode.
Proof. solve_decision. Defined.
#[export] Instance SpeechPace_eq_dec : EqDecision SpeechPace.
Proof. solve_decision. Defined.
#[export] Instance FollowUpPolicy_eq_dec : EqDecision FollowUpPolicy.
Proof. solve_decision. Defined.
#[export] Instance SilencePolicy_eq_dec : EqDecision SilencePolicy.
Proof. solve_decision. Defined.
#[export] Instance ResponseControls_eq_dec : EqDecision ResponseControls.
Proof. solve_decision. Defined.
#[export] Instance ConversationSignal_eq_dec : EqDecision ConversationSignal.
Proof. solve_decision. Defined.
#[export] Instance ConversationRole_eq_dec : EqDecision ConversationRole.
Proof. solve_decision. Defined.
#[export] Instance ConversationMessage_eq_dec : EqDecision ConversationMessage.
Proof. solve_decision. Defined.
#[export] Instance ContextSource_eq_dec : EqDecision ContextSource.
Proof. solve_decision. Defined.

Record QualityDecision : Type := {
  turn_id : TurnId;
  mode : ConversationMode;
  controls : ResponseControls;
  signals : list ConversationSignal;
  history_message_count : Z;
  decision_context_sources : list ContextSource;
}.

(** [unique]: the first occurrence of each value, in order. *)
Definition unique {A} `{EqDecision A} (values : list A) : list A :=
  fold_left (fun acc value => if bool_decide (value ∈ acc) then acc else acc ++ [value]) values [].

Definition QualityDecision_new (turn_id : TurnId) (mode : ConversationMode)
    (controls : ResponseControls)
    (signals : list ConversationSignal) (history_message_count : Z)
    (context_sources : list ContextSource) : rresult QualityDecision :=
  if MAX_HISTORY_MESSAGE_COUNT <? history_message_count then
    Err (quality_error (lit "quality history exceeds sixteen exchanges"))
  else
    Ok {| turn_id := turn_id;
          mode := mode;
          controls := controls;
          signals := unique signals;
          history_message_count := history_message_count;
          decision_context_sources := unique context_sources |}.

(** A name between double quotes. *)
Definition quoted (name : rstr) : rstr := [0x22] ++ name ++ [0x22].

Definition json_names (names : list rstr) : rstr := join (lit ",") (map quoted names).

Definition metric_json (d : QualityDecision) : rstr :=
  lit "{" ++ quoted (lit "turn_id") ++ lit ":" ++ decimal (TurnId_get d.(turn_id)) ++
  lit "," ++ quoted (lit "mode") ++ lit ":" ++ quoted (ConversationMode_as_str d.(mode)) ++
  lit "," ++ quoted (lit "controls") ++ lit ":{" ++
  quoted (lit "maximum_spoken_seconds") ++ lit ":" ++
    decimal d.(controls).(maximum_spoken_seconds) ++
  lit "," ++ quoted (lit "directness") ++ lit ":" ++
    decimal (PersonaLevel_get d.(controls).(controls_directness)) ++
  lit "," ++ quoted (lit "pace") ++ lit ":" ++ quoted (SpeechPace_as_str d.(controls).(pace)) ++
  lit "," ++ quoted (lit "follow_up_policy") ++ lit ":" ++
    quoted (FollowUpPolicy_as_str d.(controls).(follow_up_policy)) ++
  lit "," ++ quoted (lit "silence_policy") ++ lit ":" ++
    quoted (SilencePolicy_as_str d.(controls).(silence_policy)) ++
  lit "}," ++ quoted (lit "signals") ++ lit ":[" ++
    json_names (map ConversationSignal_as_str d.(signals)) ++
  lit "]," ++ quoted (lit "history_message_count") ++ lit ":" ++
    decimal d.(history_message_count) ++
  lit "," ++ quoted (lit "context_sources") ++ lit ":[" ++
    json_names (map ContextSource_as_str d.(decision_context_sources)) ++ lit "]}".

#[export] Instance QualityDecision_eq_dec : EqDecision QualityDecision.
Proof. solve_decision. Defined.

(** ** Lemmas *)

Lemma unique_spec {A} `{EqDecision A} (l acc : list A) :
  NoDup acc ->
  let r := fold_left (fun acc v => if bool_decide (v ∈ acc) then acc else acc ++ [v]) l acc in
  NoDup r /\ forall x, x ∈ r <-> x ∈ acc \/ x ∈ l.
Proof.
  revert acc. induction l as [|v l IH]; intros acc Hacc; simpl.
  - split; [done|]. set_solver.
  - case_bool_decide as Hv.
    + destruct (IH acc Hacc) as [H1 H2]. split; [done|]. intros x. rewrite H2. set_solver.
    + destruct (IH (acc ++ [v])) as [H1 H2].
      { apply NoDup_app. split_and!; [done|set_solver|apply NoDup_singleton]. }
      split; [done|]. intros x. rewrite H2. set_solver.
Qed.

Lemma unique_NoDup {A} `{EqDecision A} (l : list A) : NoDup (unique l).
Proof. apply (unique_spec l []). constructor. Qed.

Lemma elem_of_unique {A} `{EqDecision A} (x : A) l : x ∈ unique l <-> x ∈ l.
Proof. destruct (unique_spec l []) as [_ H]; [constructor|]. unfold unique. rewrite H. set_solver. Qed.

Lemma PersonaProfile_maximum_spoken_seconds_range p :
  is_u8 (PersonaLevel_get p.(verbosity)) ->
  10 <= PersonaProfile_maximum_spoken_seconds p <= u16_max.
Proof.
  intros H. unfold PersonaProfile_maximum_spoken_seconds. unfold_ints.
  Z.div_mod_to_equations. lia.
Qed.

Lemma ConversationMessage_new_Ok r t m :
  ConversationMessage_new r t = Ok m <->
  m = {| role := r; text := t |} /\ is_blank t = false /\ blen t <= MAX_CONVERSATION_MESSAGE_BYTES.
Proof.
  unfold ConversationMessage_new. destruct (is_blank t); [naive_solver|]. split_ifs; naive_solver lia.
Qed.
