(* ===== verification/Quality.v ===== *)
(** * The conversation quality controller

    [crates/runtime/src/conversation_quality.rs]: bounded completed history,
    signal detection, the per-turn response controls and the guidance handed to
    the language model. An operation that can fail returns its result beside
    the state it leaves; [exec] marks the places where the source panics (an
    [expect], an unsigned subtraction).

    The theorems give the invariant of the bounded history and its preservation
    by every operation, the totality of [resolve_turn], the spoken budget it
    grants, and what each way of ending a turn does to the history. *)

From S2P Require Import Prelude RustStr Errors ProtocolQuality.

Definition MAX_HISTORY_EXCHANGES : Z := MAX_HISTORY_MESSAGE_COUNT / 2.
Definition SHORT_PROMPT_CHARACTERS : Z := 24.
Definition SHORT_PROMPT_WORDS : Z := 6.
Definition SHORT_RESPONSE_SECONDS : Z := 8.
Definition EXPANSIVE_VERBOSITY_THRESHOLD : Z := 60.

Record ResolvedConversationQuality : Type := {
  resolved_persona : PersonaProfile;
  resolved_decision : QualityDecision;
  resolved_history : list ConversationMessage;
  resolved_system_guidance : rstr;
  resolved_relationship_guidance : rstr;
}.

Record CompletedExchange : Type := {
  user : ConversationMessage;
  assistant : ConversationMessage;
  bytes : Z;
}.

Record PendingTurn : Type := {
  pending_turn_id : TurnId;
  pending_user : ConversationMessage;
}.

(** [ConversationContextExchange] of the protocol crate: a completed exchange
    a client seeds. *)
Record ConversationContextExchange : Type := {
  exchange_user : rstr;
  exchange_assistant : rstr;
}.

Record ConversationQualityController : Type := {
  saved_persona : PersonaProfile;
  default_controls : ResponseControls;
  default_mode : ConversationMode;
  history : list CompletedExchange;
  history_bytes : Z;
  pending_turn : option PendingTurn;
  interruption_pending : bool;
  last_decision : option QualityDecision;
}.

#[export] Instance ConversationContextExchange_eq_dec : EqDecision ConversationContextExchange.
Proof. solve_decision. Defined.

Definition state_error (message : rstr) : RuntimeError :=
  RuntimeError_new Kind_InvalidState Stage_Runtime message.

Definition controller_new (p : PersonaProfile) (c : ResponseControls) (m : ConversationMode)
  : ConversationQualityController :=
  {| saved_persona := p;
     default_controls := c;
     default_mode := m;
     history := [];
     history_bytes := 0;
     pending_turn := None;
     interruption_pending := false;
     last_decision := None |}.

(** Field updates. *)
Definition set_history (c : ConversationQualityController) (h : list CompletedExchange) (b : Z)
  : ConversationQualityController :=
  {| saved_persona := c.(saved_persona); default_controls := c.(default_controls);
     default_mode := c.(default_mode); history := h; history_bytes := b;
     pending_turn := c.(pending_turn); interruption_pending := c.(interruption_pending);
     last_decision := c.(last_decision) |}.
Definition set_pending (c : ConversationQualityController) (p : option PendingTurn)
  : ConversationQualityController :=
  {| saved_persona := c.(saved_persona); default_controls := c.(default_controls);
     default_mode := c.(default_mode); history := c.(history); history_bytes := c.(history_bytes);
     pending_turn := p; interruption_pending := c.(interruption_pending);
     last_decision := c.(last_decision) |}.
Definition set_interruption (c : ConversationQualityController) (b : bool)
  : ConversationQualityController :=
  {| saved_persona := c.(saved_persona); default_controls := c.(default_controls);
     default_mode := c.(default_mode); history := c.(history); history_bytes := c.(history_bytes);
     pending_turn := c.(pending_turn); interruption_pending := b;
     last_decision := c.(last_decision) |}.
Definition set_decision (c : ConversationQualityController) (d : QualityDecision)
  : ConversationQualityController :=
  {| saved_persona := c.(saved_persona); default_controls := c.(default_controls);
     default_mode := c.(default_mode); history := c.(history); history_bytes := c.(history_bytes);
     pending_turn := c.(pending_turn); interruption_pending := c.(interruption_pending);
     last_decision := Some d |}.

Definition history_messages (c : ConversationQualityController) : list ConversationMessage :=
  flat_map (fun exchange => [exchange.(user); exchange.(assistant)]) c.(history).

Definition clear_history (c : ConversationQualityController) : ConversationQualityController :=
  set_history c [] 0.

(** The loop of [replace_completed_history]. *)
Fixpoint build_history (exchanges : list ConversationContextExchange)
    (replacement : list CompletedExchange) (replacement_bytes : Z)
  : rresult (list CompletedExchange * Z) :=
  match exchanges with
  | [] => Ok (replacement, replacement_bytes)
  | exchange :: exchanges' =>
      let? user := ConversationMessage_new User exchange.(exchange_user) in
      let? assistant := ConversationMessage_new Assistant exchange.(exchange_assistant) in
      let? bytes := ok_or (checked_add (blen user.(text)) (blen assistant.(text)))
                      (state_error (lit "completed history byte count overflowed")) in
      let? replacement_bytes := ok_or (checked_add replacement_bytes bytes)
                      (state_error (lit "completed history byte count overflowed")) in
      if MAX_HISTORY_BYTES <? replacement_bytes then
        Err (state_error (lit "completed history exceeded 32768 UTF-8 bytes"))
      else
        build_history exchanges'
          (replacement ++ [{| user := user; assistant := assistant; bytes := bytes |}])
          replacement_bytes
  end.

Definition replace_completed_history (c : ConversationQualityController)
    (exchanges : list ConversationContextExchange)
  : rresult unit * ConversationQualityController :=
  if is_some c.(pending_turn) then
    (Err (state_error (lit "a quality-controlled turn is still pending")), c)
  else if is_empty exchanges || (MAX_HISTORY_EXCHANGES <? zlen exchanges) then
    (Err (state_error (lit "completed history must contain between one and " ++
       decimal MAX_HISTORY_EXCHANGES ++ lit " exchanges")), c)
  else match build_history exchanges [] 0 with
       | Ok (replacement, replacement_bytes) => (Ok tt, set_history c replacement replacement_bytes)
       | Err e => (Err e, c)
       end.

Definition set_persona (c : ConversationQualityController) (persona : PersonaProfile)
    (mode : ConversationMode) : rresult unit * ConversationQualityController :=
  if is_some c.(pending_turn) then
    (Err (state_error (lit "a quality-controlled turn is still pending")), c)
  else match ResponseControls_new (PersonaProfile_maximum_spoken_seconds persona)
               persona.(directness) Natural Contextual AllowWithoutFiller with
       | Err e => (Err e, c)
       | Ok controls =>
           let changed := negb (bool_decide (c.(saved_persona) = persona))
                          || negb (bool_decide (c.(default_mode) = mode)) in
           let c' :=
             {| saved_persona := persona; default_controls := controls; default_mode := mode;
                history := c.(history); history_bytes := c.(history_bytes);
                pending_turn := c.(pending_turn); interruption_pending := c.(interruption_pending);
                last_decision := c.(last_decision) |} in
           (Ok tt, if changed then clear_history c' else c')
       end.

Definition previous_assistant_ended_with_question (c : ConversationQualityController) : bool :=
  is_some_and (back c.(history)) (fun exchange =>
    is_some_and (last (trim_end exchange.(assistant).(text))) (char_in (lit "?？"))).

Definition is_short_prompt (input : rstr) : bool :=
  let word_count := zlen (split_whitespace input) in
  (zlen input <=? SHORT_PROMPT_CHARACTERS)
  || ((1 <? word_count) && (word_count <=? SHORT_PROMPT_WORDS)).

Definition has_signal (s : ConversationSignal) (signals : list ConversationSignal) : bool :=
  bool_decide (s ∈ signals).

Definition resolve_controls (c : ConversationQualityController) (transcript : rstr)
    (signals : list ConversationSignal) : rresult ResponseControls :=
  let default_seconds := c.(default_controls).(maximum_spoken_seconds) in
  let expansive :=
    EXPANSIVE_VERBOSITY_THRESHOLD <=? PersonaLevel_get c.(saved_persona).(verbosity) in
  let reduced_budget :=
    if expansive then Z.max (default_seconds / 2) SHORT_RESPONSE_SECONDS
    else SHORT_RESPONSE_SECONDS in
  let seconds :=
    if is_short_prompt transcript then Z.min default_seconds reduced_budget else default_seconds in
  let explicit_brevity := has_signal ShorterRequested signals || has_signal StopExplaining signals in
  let seconds :=
    if explicit_brevity then
      Z.min (Z.min seconds SHORT_RESPONSE_SECONDS) (Z.max (default_seconds / 2) 1)
    else if has_signal Interrupted signals then
      Z.min (Z.min seconds reduced_budget) (Z.max (default_seconds / 2) 1)
    else seconds in
  let hesitant := has_signal Hesitation signals in
  let rejected := has_signal QuestionRejected signals in
  ResponseControls_new seconds
    c.(default_controls).(controls_directness)
    (if hesitant then Measured else c.(default_controls).(pace))
    (if hesitant || rejected then Never else c.(default_controls).(follow_up_policy))
    c.(default_controls).(silence_policy).

Definition contains_any (input : rstr) (phrases : list rstr) : bool :=
  existsb (fun phrase => contains phrase input) phrases.

Definition is_explicit_question_rejection (input : rstr) : bool :=
  bool_decide (input ∈
    [lit "no"; lit "no thanks"; lit "i'd rather not"; lit "i would rather not";
     lit "don't ask me that"; lit "do not ask me that"; lit "not answering that";
     lit "不想回答"; lit "别问了"]).

Definition context_sources (signals : list ConversationSignal) (history_is_empty : bool)
  : list ContextSource :=
  [SavedPersona] ++ (if history_is_empty then [] else [RecentHistory]) ++ [CurrentTurn] ++
  (if has_signal Interrupted signals then [BargeIn] else []) ++
  (if has_signal ShorterRequested signals || has_signal StopExplaining signals
      || has_signal QuestionRejected signals || has_signal RapidTopicChange signals
   then [TemporaryCorrection] else []).

Definition relationship_guidance (history_is_empty : bool) : rstr :=
  if history_is_empty then
    lit "Use only the current turn to establish tone; do not imply shared history or earned familiarity."
  else
    lit "Let warmth and familiarity reflect only the supplied shared context, user reciprocity, pacing, and rapport; do not manufacture closeness.".

Definition system_guidance (persona : PersonaProfile) (decision : QualityDecision)
    (relationship : rstr) : rstr :=
  let level (l : PersonaLevel) := decimal (PersonaLevel_get l) in
  lit "Saved persona levels (0-100): warmth=" ++ level persona.(warmth) ++
  lit ", humor=" ++ level persona.(humor) ++
  lit ", teasing=" ++ level persona.(teasing) ++
  lit ", initiative=" ++ level persona.(initiative) ++
  lit ", directness=" ++ level persona.(directness) ++
  lit ", intimacy=" ++ level persona.(intimacy) ++
  lit ", verbosity=" ++ level persona.(verbosity) ++
  lit ", follow_up_frequency=" ++ level persona.(follow_up_frequency) ++
  lit ". Intimacy may shape tone only when supported by shared context and reciprocity; " ++
  lit "intimacy never authorizes affection by itself. " ++
  lit "Use " ++ ConversationMode_as_str decision.(mode) ++
  lit " mode. Keep spoken output within " ++
  decimal decision.(controls).(maximum_spoken_seconds) ++
  lit " seconds. Use " ++ SpeechPace_as_str decision.(controls).(pace) ++
  lit " pace and " ++ level decision.(controls).(controls_directness) ++
  lit " directness. Follow-up policy is " ++
  FollowUpPolicy_as_str decision.(controls).(follow_up_policy) ++
  lit ". Silence may remain without filler. " ++ relationship ++
  (if has_signal QuestionRejected decision.(signals)
   then lit " Do not repeat or rephrase the rejected question." else []) ++
  (if has_signal RapidTopicChange decision.(signals)
   then lit " Follow the new topic without returning to the previous one." else []) ++
  (if has_signal Hesitation decision.(signals)
   then lit " Leave the user room to continue without pressure." else []) ++
  (if has_signal Interrupted decision.(signals)
   then lit " Resume only what the user currently requests." else []).

Definition take_pending (c : ConversationQualityController) (turn_id : TurnId)
  : rresult PendingTurn * ConversationQualityController :=
  match c.(pending_turn) with
  | Some pending =>
      if bool_decide (pending.(pending_turn_id) = turn_id)
      then (Ok pending, set_pending c None)
      else (Err (state_error (lit "quality turn " ++ TurnId_display pending.(pending_turn_id) ++
                   lit " is pending, not turn " ++ TurnId_display turn_id)), c)
  | None => (Err (state_error (lit "there is no pending quality-controlled turn")), c)
  end.

(** The loop of [enforce_history_bounds]: the [expect] and the unsigned
    subtraction panic when their conditions fail. *)
Fixpoint enforce_history_bounds (h : list CompletedExchange) (b : Z)
  : exec (list CompletedExchange * Z) :=
  if (MAX_HISTORY_EXCHANGES <? zlen h) || (MAX_HISTORY_BYTES <? b) then
    match h with
    | [] => Panics
    | removed :: h' =>
        if b <? removed.(bytes) then Panics
        else enforce_history_bounds h' (b - removed.(bytes))
    end
  else Val (h, b).

Definition complete_turn (c : ConversationQualityController) (turn_id : TurnId)
    (assistant_output : rstr) : exec (rresult unit * ConversationQualityController) :=
  match take_pending c turn_id with
  | (Err e, c) => Val (Err e, c)
  | (Ok pending, c) =>
      if MAX_HISTORY_BYTES <? blen assistant_output then Val (Ok tt, c)
      else match ConversationMessage_new Assistant assistant_output with
           | Err e => Val (Err e, c)
           | Ok assistant =>
               let bytes := blen pending.(pending_user).(text) + blen assistant.(text) in
               if MAX_HISTORY_BYTES <? bytes then Val (Ok tt, c)
               else
                 let! '(h, b) := enforce_history_bounds
                   (c.(history) ++ [{| user := pending.(pending_user);
                                       assistant := assistant; bytes := bytes |}])
                   (c.(history_bytes) + bytes) in
                 Val (Ok tt, set_history c h b)
           end
  end.

Definition discard_turn (c : ConversationQualityController) (turn_id : TurnId)
  : rresult unit * ConversationQualityController :=
  match take_pending c turn_id with
  | (Ok _, c) => (Ok tt, c)
  | (Err e, c) => (Err e, c)
  end.

Definition interrupt_turn (c : ConversationQualityController) (turn_id : TurnId)
  : rresult unit * ConversationQualityController :=
  match take_pending c turn_id with
  | (Ok _, c) => (Ok tt, set_interruption c true)
  | (Err e, c) => (Err e, c)
  end.

(** Signal detection reads the transcript through the Unicode tables. *)
Section Detection.
Context `{U : UnicodeTables}.

Definition normalize (input : rstr) : rstr :=
  to_lowercase (trim_matches (char_in (lit ".,!?;:。，！？；：")) (trim input)).

Definition contains_token (input : rstr) (tokens : list rstr) : bool :=
  existsb (fun word => bool_decide (word ∈ tokens))
    (split_by (fun character => negb (is_alphanumeric character)) input).

Definition detect_signals (transcript : rstr) (previous_assistant_asked_question : bool)
  : list ConversationSignal :=
  let normalized := normalize transcript in
  (if contains_any normalized
        [lit "shorter"; lit "briefly"; lit "keep it short"; lit "简短一点"; lit "说短点"]
   then [ShorterRequested] else []) ++
  (if contains_any normalized
        [lit "stop explaining"; lit "don't explain"; lit "do not explain";
         lit "no more explanation"; lit "别解释了"; lit "不要解释"]
   then [StopExplaining] else []) ++
  (if previous_assistant_asked_question && is_explicit_question_rejection normalized
   then [QuestionRejected] else []) ++
  (if contains (lit "...") normalized || contains (lit "…") normalized
      || contains_token normalized [lit "um"; lit "uh"; lit "hmm"; lit "呃"; lit "嗯"]
   then [Hesitation] else []) ++
  (if contains_any normalized
        [lit "different topic"; lit "change the subject"; lit "switch topics"; lit "new topic";
         lit "talk about something else"; lit "let's move on"; lit "换个话题"; lit "换一个话题";
         lit "不聊这个"; lit "先不说这个"; lit "说点别的"; lit "聊点别的"]
   then [RapidTopicChange] else []).

Definition resolve_turn (c : ConversationQualityController) (turn_id : TurnId)
    (transcript : rstr) (mode : option ConversationMode)
  : rresult (option ResolvedConversationQuality) * ConversationQualityController :=
  if is_some c.(pending_turn) then
    (Err (state_error (lit "a quality-controlled turn is still pending")), c)
  else if is_blank transcript then (Ok None, c)
  else match ConversationMessage_new User transcript with
  | Err e => (Err e, c)
  | Ok user =>
      let detected := detect_signals user.(text) (previous_assistant_ended_with_question c) in
      let signals := if c.(interruption_pending) then Interrupted :: detected else detected in
      let c := if c.(interruption_pending) then set_interruption c false else c in
      let c := if has_signal RapidTopicChange signals then clear_history c else c in
      match resolve_controls c user.(text) signals with
      | Err e => (Err e, c)
      | Ok controls =>
          let mode := match mode with Some m => m | None => c.(default_mode) end in
          let messages := history_messages c in
          let sources := context_sources signals (is_empty messages) in
          match QualityDecision_new turn_id mode controls signals (zlen messages) sources with
          | Err e => (Err e, c)
          | Ok decision =>
              let relationship := relationship_guidance (is_empty messages) in
              let guidance := system_guidance c.(saved_persona) decision relationship in
              let c := set_pending c
                (Some {| pending_turn_id := turn_id; pending_user := user |}) in
              let c := set_decision c decision in
              (Ok (Some {| resolved_persona := c.(saved_persona);
                           resolved_decision := decision;
                           resolved_history := messages;
                           resolved_system_guidance := guidance;
                           resolved_relationship_guidance := relationship |}), c)
          end
      end
  end.

End Detection.

(** ** Operations as a state machine *)

Inductive quality_op : Type :=
| Resolve (turn_id : TurnId) (transcript : rstr) (mode : option ConversationMode)
| Complete (turn_id : TurnId) (output : rstr)
| Discard (turn_id : TurnId)
| Interrupt (turn_id : TurnId)
| Seed (exchanges : list ConversationContextExchange)
| SetPersona (persona : PersonaProfile) (mode : ConversationMode).

Definition apply_op `{U : UnicodeTables} (c : ConversationQualityController) (o : quality_op)
  : exec ConversationQualityController :=
  match o with
  | Resolve id transcript mode => Val (snd (resolve_turn c id transcript mode))
  | Complete id output => let! '(_, c') := complete_turn c id output in Val c'
  | Discard id => Val (snd (discard_turn c id))
  | Interrupt id => Val (snd (interrupt_turn c id))
  | Seed exchanges => Val (snd (replace_completed_history c exchanges))
  | SetPersona persona mode => Val (snd (set_persona c persona mode))
  end.

Fixpoint apply_ops `{U : UnicodeTables} (c : ConversationQualityController) (ops : list quality_op)
  : exec ConversationQualityController :=
  match ops with
  | [] => Val c
  | o :: ops' => let! c' := apply_op c o in apply_ops c' ops'
  end.

(** ** Invariant *)

Definition sum_bytes (h : list CompletedExchange) : Z := foldr (fun e acc => e.(bytes) + acc) 0 h.

(** A message accepted by [ConversationMessage_new]. *)
Definition wf_message (m : ConversationMessage) : Prop :=
  is_blank m.(text) = false /\ blen m.(text) <= MAX_CONVERSATION_MESSAGE_BYTES.

Definition wf_exchange (e : CompletedExchange) : Prop :=
  wf_message e.(user) /\ wf_message e.(assistant) /\
  e.(user).(role) = User /\ e.(assistant).(role) = Assistant /\
  e.(bytes) = blen e.(user).(text) + blen e.(assistant).(text).

Definition in_bounds (h : list CompletedExchange) : Prop :=
  zlen h <= MAX_HISTORY_EXCHANGES /\ sum_bytes h <= MAX_HISTORY_BYTES.

Definition wf (c : ConversationQualityController) : Prop :=
  Forall wf_exchange c.(history) /\ c.(history_bytes) = sum_bytes c.(history) /\
  in_bounds c.(history) /\ 0 < c.(default_controls).(maximum_spoken_seconds) /\
  (forall p, c.(pending_turn) = Some p ->
     wf_message p.(pending_user) /\ p.(pending_user).(role) = User).

(** A persona level is a [u8]. *)
Definition valid_op (o : quality_op) : Prop :=
  match o with
  | SetPersona persona _ => is_u8 (PersonaLevel_get persona.(verbosity))
  | _ => True
  end.

(** ** Lemmas *)

Lemma wf_message_new r t m :
  ConversationMessage_new r t = Ok m -> wf_message m /\ m.(role) = r /\ m.(text) = t.
Proof. by intros (-> & H1 & H2)%ConversationMessage_new_Ok. Qed.

Lemma wf_exchange_bytes e : wf_exchange e -> 0 <= e.(bytes) <= MAX_HISTORY_BYTES.
Proof.
  intros ([_ H1] & [_ H2] & _ & _ & ->). pose proof (blen_nonneg (text (user e))).
  pose proof (blen_nonneg (text (assistant e))).
  unfold MAX_CONVERSATION_MESSAGE_BYTES, MAX_HISTORY_BYTES in *. lia.
Qed.

Lemma sum_bytes_app h k : sum_bytes (h ++ k) = sum_bytes h + sum_bytes k.
Proof. induction h as [|e h IH]; simpl; lia. Qed.

Lemma sum_bytes_nonneg h : Forall wf_exchange h -> 0 <= sum_bytes h.
Proof. induction 1 as [|e h He _ IH]; simpl; [lia|]. apply wf_exchange_bytes in He. lia. Qed.

Lemma enforce_history_bounds_ok h :
  Forall wf_exchange h ->
  exists d k, h = d ++ k /\ enforce_history_bounds h (sum_bytes h) = Val (k, sum_bytes k) /\
    in_bounds k /\ (forall d' x, d = d' ++ [x] -> ~ in_bounds (x :: k)).
Proof.
  induction 1 as [|e h He Hh IH].
  - exists [], []. split_and!; [done|done|unfold in_bounds; done|]. intros d' x H. by destruct d'.
  - cbn [enforce_history_bounds]. destruct (_ || _) eqn:E.
    + apply wf_exchange_bytes in He. pose proof (sum_bytes_nonneg h Hh).
      cbn [sum_bytes foldr]. fold (sum_bytes h).
      rewrite (proj2 (Z.ltb_ge _ _)) by lia.
      replace (bytes e + sum_bytes h - bytes e) with (sum_bytes h) by lia.
      destruct IH as (d & k & -> & Hv & Hb & Hmax). exists (e :: d), k.
      split_and!; [done|done|done|]. intros d' x Hd. destruct d' as [|y d']; simplify_eq/=; [|by eapply Hmax].
      intros [H1 H2]. apply orb_true_iff in E. unfold sum_bytes in *. simpl in *. destruct E; breflect; lia.
    + breflect. exists [], (e :: h). split_and!; [done|done|done|]. intros d' x Hd. by destruct d'.
Qed.

Lemma build_history_ok es repl rb h b :
  Forall wf_exchange repl -> rb = sum_bytes repl -> sum_bytes repl <= MAX_HISTORY_BYTES ->
  build_history es repl rb = Ok (h, b) ->
  Forall wf_exchange h /\ b = sum_bytes h /\ b <= MAX_HISTORY_BYTES /\ zlen h = zlen repl + zlen es.
Proof.
  revert repl rb. induction es as [|e es IH]; intros repl rb Hw Hb Hm; cbn [build_history].
  - intros [= <- <-]. rewrite zlen_nil. split_and!; try done; lia.
  - rewrite result_bind_Ok. intros (u & Hu & H). rewrite result_bind_Ok in H. destruct H as (a & Ha & H).
    apply wf_message_new in Hu as (Hu1 & Hu2 & _), Ha as (Ha1 & Ha2 & _).
    destruct (checked_add (blen _) _) as [x|] eqn:Ex; [|done].
    apply checked_add_Some in Ex as [-> _]. cbn [result_bind ok_or] in H.
    destruct (checked_add rb _) as [y|] eqn:Ey; [|done]. apply checked_add_Some in Ey as [-> _].
    cbn [result_bind ok_or] in H. split_ifs_in H; [done|].
    apply IH in H as (H1 & H2 & H3 & H4).
    + rewrite zlen_app, !zlen_cons, zlen_nil in *. split_and!; try done; lia.
    + apply Forall_app. split; [done|]. constructor; [|done]. unfold wf_exchange. by split_and!.
    + rewrite sum_bytes_app. simpl. lia.
    + rewrite sum_bytes_app. simpl. lia.
Qed.

Lemma take_pending_Ok c id p c' :
  take_pending c id = (Ok p, c') ->
  c.(pending_turn) = Some p /\ p.(pending_turn_id) = id /\ c' = set_pending c None.
Proof.
  unfold take_pending. intros H. destruct (pending_turn c) as [q|] eqn:E; [|done].
  case_bool_decide; by simplify_eq.
Qed.

Lemma take_pending_Err c id e c' : take_pending c id = (Err e, c') -> c' = c.
Proof.
  unfold take_pending. intros H. destruct (pending_turn c) as [q|] eqn:E; [|by simplify_eq].
  case_bool_decide; by simplify_eq.
Qed.

Lemma take_pending_wf c id : wf c -> wf (snd (take_pending c id)).
Proof.
  intros H. destruct (take_pending c id) as [[p|e] c'] eqn:E; simpl.
  - apply take_pending_Ok in E as (_ & _ & ->). destruct H as (?&?&?&?&_). by split_and!.
  - by apply take_pending_Err in E as ->.
Qed.

Lemma clear_history_wf c : wf c -> wf (clear_history c).
Proof. intros (_&_&_&?&?). unfold wf, clear_history, in_bounds. cbn. by split_and!. Qed.

Lemma set_interruption_wf c b : wf c -> wf (set_interruption c b).
Proof. done. Qed.

Lemma complete_turn_ok c id out :
  wf c -> exists r c', complete_turn c id out = Val (r, c') /\ wf c'.
Proof.
  intros Hwf. unfold complete_turn. pose proof (take_pending_wf c id Hwf) as Hwf1.
  destruct (take_pending c id) as [[p|e] c1] eqn:Et; simpl in Hwf1; [|eauto].
  apply take_pending_Ok in Et as (Hp & Hid & _). split_ifs; [eauto|].
  destruct (ConversationMessage_new Assistant out) as [a|e] eqn:Ea; [|eauto].
  split_ifs; [eauto|]. apply wf_message_new in Ea as (Ha & Har & _).
  destruct Hwf as (_ & _ & _ & _ & Hpend). destruct (Hpend _ Hp) as [Hpm Hpr].
  destruct Hwf1 as (H1 & H2 & H3 & H4 & H5).
  set (e := {| user := _; assistant := _; bytes := _ |}).
  destruct (enforce_history_bounds_ok (history c1 ++ [e])) as (d & k & Hdk & Hen & Hb & _).
  { apply Forall_app. split; [done|]. constructor; [|done]. unfold wf_exchange. by split_and!. }
  rewrite sum_bytes_app in Hen. simpl in Hen. rewrite Z.add_0_r, <- H2 in Hen. rewrite Hen.
  cbn [exec_bind]. do 2 eexists. split; [done|]. unfold wf; cbn. split_and!; [|done..].
  assert (Forall wf_exchange (history c1 ++ [e])) as Hall.
  { apply Forall_app. split; [done|]. constructor; [|done]. unfold wf_exchange. by split_and!. }
  rewrite Hdk in Hall. by apply Forall_app in Hall as [_ ?].
Qed.

Lemma resolve_controls_ok c t sigs :
  0 < c.(default_controls).(maximum_spoken_seconds) ->
  exists k, resolve_controls c t sigs = Ok k /\
    1 <= k.(maximum_spoken_seconds) <= c.(default_controls).(maximum_spoken_seconds) /\
    ((ShorterRequested ∈ sigs \/ StopExplaining ∈ sigs) ->
       k.(maximum_spoken_seconds) <= SHORT_RESPONSE_SECONDS).
Proof.
  intros Hpos. unfold resolve_controls, ResponseControls_new, SHORT_RESPONSE_SECONDS.
  set (s := if _ || _ then _ else _).
  set (d := maximum_spoken_seconds (default_controls c)) in *.
  assert (1 <= s <= d) as Hs.
  { unfold s. split_ifs; Z.div_mod_to_equations; lia. }
  rewrite (proj2 (Z.eqb_neq s 0)) by lia. eexists. split; [done|]. cbn. split; [lia|].
  intros Hb. unfold s, has_signal.
  replace (_ || _) with true; [lia|]. symmetry. apply orb_true_iff.
  destruct Hb; [left|right]; by apply bool_decide_eq_true.
Qed.

Section Resolution.
Context `{U : UnicodeTables}.

Lemma detect_signals_not_interrupted t b : Interrupted ∉ detect_signals t b.
Proof. unfold detect_signals. rewrite !not_elem_of_app. split_and!; split_ifs; set_solver. Qed.

Lemma history_messages_length c : zlen (history_messages c) = 2 * zlen c.(history).
Proof.
  unfold history_messages. induction (history c) as [|e h IH]; [done|].
  cbn [flat_map app]. rewrite !zlen_cons. lia.
Qed.

(** What a successful resolution is, in terms of the signals it acted on. *)
Lemma resolve_turn_Ok c id t m :
  wf c -> c.(pending_turn) = None -> is_blank t = false -> blen t <= MAX_CONVERSATION_MESSAGE_BYTES ->
  exists k r c',
    let detected := detect_signals t (previous_assistant_ended_with_question c) in
    let sigs := if c.(interruption_pending) then Interrupted :: detected else detected in
    let c1 := if has_signal RapidTopicChange sigs then clear_history c else c in
    resolve_turn c id t m = (Ok (Some r), c') /\ wf c' /\
    resolve_controls (if has_signal RapidTopicChange sigs
       then clear_history (if c.(interruption_pending) then set_interruption c false else c)
       else if c.(interruption_pending) then set_interruption c false else c) t sigs = Ok k /\
    r.(resolved_decision).(controls) = k /\
    r.(resolved_decision).(signals) = unique sigs /\
    r.(resolved_history) = history_messages c1 /\
    c'.(history) = c1.(history) /\ c'.(interruption_pending) = false /\
    c'.(pending_turn) = Some {| pending_turn_id := id; pending_user := {| role := User; text := t |} |}.
Proof.
  intros Hwf Hp Hb Hl. unfold resolve_turn. rewrite Hp, Hb. cbn [is_some].
  assert (ConversationMessage_new User t = Ok {| role := User; text := t |}) as ->
    by by apply ConversationMessage_new_Ok.
  cbn [text]. set (detected := detect_signals _ _).
  set (sigs := if interruption_pending c then _ else _).
  set (c0 := if interruption_pending c then set_interruption c false else c).
  set (c1 := if has_signal RapidTopicChange sigs then _ else c0).
  assert (wf c1 /\ c1.(interruption_pending) = false /\
    c1.(history) = (if has_signal RapidTopicChange sigs then clear_history c else c).(history))
    as (Hwf1 & Hint & Hh).
  { unfold c1, c0. destruct (interruption_pending c) eqn:Ei, (has_signal RapidTopicChange sigs);
      split_and!; auto using clear_history_wf. }
  pose proof Hwf1 as (H1 & H2 & H3 & H4 & H5).
  destruct (resolve_controls_ok c1 t sigs H4) as (k & Hk & _).
  rewrite Hk. unfold QualityDecision_new.
  rewrite (proj2 (Z.ltb_ge _ _)).
  2:{ rewrite history_messages_length. destruct H3 as [H3 _].
      unfold MAX_HISTORY_EXCHANGES, MAX_HISTORY_MESSAGE_COUNT in *. change (32 / 2) with 16 in H3. lia. }
  do 3 eexists. cbv zeta. split; [done|]. split_and!; try done.
  - unfold wf, set_decision, set_pending; cbn. split_and!; try done.
    intros p [= <-]. cbn. done.
  - unfold history_messages. cbn. by rewrite Hh.
Qed.

Lemma resolve_turn_wf c id t m : wf c -> wf (snd (resolve_turn c id t m)).
Proof.
  intros Hwf. destruct (pending_turn c) as [p|] eqn:Ep.
  { unfold resolve_turn. by rewrite Ep. }
  destruct (is_blank t) eqn:Eb.
  { unfold resolve_turn. by rewrite Ep, Eb. }
  destruct (decide (blen t <= MAX_CONVERSATION_MESSAGE_BYTES)) as [Hl|Hl].
  - destruct (resolve_turn_Ok c id t m) as (k & r & c' & -> & ? & _); done.
  - unfold resolve_turn, ConversationMessage_new. rewrite Ep, Eb. cbn [is_some].
    by rewrite (proj2 (Z.ltb_lt _ _)) by lia.
Qed.

Lemma apply_op_wf c o : wf c -> valid_op o -> exists c', apply_op c o = Val c' /\ wf c'.
Proof.
  intros Hwf Ho. destruct o as [id t m|id out|id|id|es|p m]; cbn [apply_op].
  - eauto using resolve_turn_wf.
  - destruct (complete_turn_ok c id out Hwf) as (r & c' & -> & Hc'). cbn [exec_bind]. eauto.
  - eexists. split; [done|]. unfold discard_turn. pose proof (take_pending_wf c id Hwf).
    by destruct (take_pending c id) as [[]].
  - eexists. split; [done|]. unfold interrupt_turn. pose proof (take_pending_wf c id Hwf).
    by destruct (take_pending c id) as [[]].
  - eexists. split; [done|]. unfold replace_completed_history. split_ifs; [done..|].
    destruct (build_history es [] 0) as [[h b]|] eqn:Eb; [|done].
    apply build_history_ok in Eb as (E1 & -> & E3 & E4); [|by constructor|done|done].
    destruct Hwf as (_ & _ & _ & H4 & H5). unfold wf, set_history, in_bounds; cbn.
    rewrite zlen_nil in E4. split_and!; try done. lia.
  - eexists. split; [done|]. unfold set_persona, ResponseControls_new. split_ifs; [done..| |].
    all: pose proof (PersonaProfile_maximum_spoken_seconds_range p Ho).
    all: destruct Hwf as (W1 & W2 & W3 & W4 & W5); unfold wf, in_bounds, clear_history, set_history; cbn.
    all: split_and!; try done; try apply W3; lia.
Qed.

End Resolution.

Lemma complete_turn_records c id p out :
  wf c -> c.(pending_turn) = Some p -> p.(pending_turn_id) = id ->
  is_blank out = false -> blen out <= MAX_CONVERSATION_MESSAGE_BYTES ->
  exists c' dropped exchange,
    complete_turn c id out = Val (Ok tt, c') /\ c'.(pending_turn) = None /\
    exchange.(user) = p.(pending_user) /\ exchange.(assistant).(text) = out /\
    c.(history) ++ [exchange] = dropped ++ c'.(history) /\
    (exists older, c'.(history) = older ++ [exchange]) /\ in_bounds c'.(history) /\
    (forall d x, dropped = d ++ [x] -> ~ in_bounds (x :: c'.(history))).
Proof.
  intros Hwf Hp Hid Hb Hl. pose proof Hwf as (H1 & H2 & H3 & H4 & H5).
  destruct (H5 _ Hp) as [[Hpb Hpl] Hpr]. unfold complete_turn, take_pending.
  rewrite Hp, bool_decide_eq_true_2 by done. rewrite (proj2 (Z.ltb_ge _ _))
    by (unfold MAX_CONVERSATION_MESSAGE_BYTES, MAX_HISTORY_BYTES in *; lia).
  assert (ConversationMessage_new Assistant out = Ok {| role := Assistant; text := out |}) as ->
    by by apply ConversationMessage_new_Ok.
  cbn [text]. rewrite (proj2 (Z.ltb_ge _ _))
    by (unfold MAX_CONVERSATION_MESSAGE_BYTES, MAX_HISTORY_BYTES in *; lia).
  set (e := {| user := _; assistant := _; bytes := _ |}). cbn [history history_bytes set_pending].
  assert (wf_exchange e) as He by (unfold wf_exchange, wf_message; by split_and!).
  destruct (enforce_history_bounds_ok (history c ++ [e])) as (d & k & Hdk & Hen & Hbd & Hmax).
  { apply Forall_app. split; [done|]. by constructor. }
  rewrite sum_bytes_app in Hen. simpl in Hen. rewrite Z.add_0_r, <- H2 in Hen. rewrite Hen.
  cbn [exec_bind]. do 2 eexists. exists e. split; [done|]. cbn. split_and!; try done.
  destruct (exists_last (l := k)) as (older & x & Hx).
  { intros ->. rewrite app_nil_r in Hdk. apply (Hmax (history c) e); [done|].
    apply wf_exchange_bytes in He. clearbody e. split; [by compute|]. unfold sum_bytes. simpl. lia. }
  subst k. rewrite app_assoc in Hdk. apply app_inj_2 in Hdk as [_ [= <-]]; [|done]. by exists older.
Qed.

(** ** Properties *)

(** C33. From a new controller with a positive spoken budget, every sequence of
    turns, completions, interruptions, seeds and persona changes runs without a
    panic (the [expect] and the byte subtraction of the history bounds cannot
    fail), and the history it leaves is within sixteen exchanges and 32768
    bytes, with an exact byte count. *)
Theorem quality_history_bounded (U : UnicodeTables) p k m ops :
  0 < k.(maximum_spoken_seconds) -> Forall valid_op ops ->
  exists c, apply_ops (controller_new p k m) ops = Val c /\
    zlen c.(history) <= 16 /\ c.(history_bytes) <= 32768 /\
    c.(history_bytes) = sum_bytes c.(history) /\ Forall wf_exchange c.(history).
Proof.
  intros Hk Hops.
  assert (exists c, apply_ops (controller_new p k m) ops = Val c /\ wf c) as (c & Hc & Hwf).
  { assert (wf (controller_new p k m)) as Hwf by (unfold wf, in_bounds; cbn; by split_and!).
    revert Hwf. generalize (controller_new p k m). induction Hops as [|o ops Ho _ IH]; intros c Hwf.
    - by exists c.
    - destruct (apply_op_wf c o Hwf Ho) as (c' & Hc' & Hwf'). cbn [apply_ops]. rewrite Hc'. by apply IH. }
  exists c. destruct Hwf as (H1 & H2 & [H3 H4] & _). split_and!; try done. by rewrite H2.
Qed.

Lemma quality_history_bounded_witness :
  let k := {| maximum_spoken_seconds := 20; controls_directness := PersonaLevel_raw 80;
              pace := Natural; follow_up_policy := Contextual; silence_policy := AllowWithoutFiller |} in
  let ops := [Resolve (TurnId_new 1) (lit "hi") None; Complete (TurnId_new 1) (lit "hello?");
              Resolve (TurnId_new 2) (lit "no") None; Interrupt (TurnId_new 2);
              SetPersona PersonaProfile_default Reflective] in
  0 < k.(maximum_spoken_seconds) /\ Forall valid_op ops /\
  exists c, apply_ops (U := ascii_tables) (controller_new PersonaProfile_default k DirectAnswer) ops = Val c /\
    zlen c.(history) <= 16 /\ c.(history_bytes) <= 32768 /\
    c.(history_bytes) = sum_bytes c.(history) /\ Forall wf_exchange c.(history).
Proof.
  intros k ops. assert (Forall valid_op ops) by (repeat constructor; simpl; unfold_ints; lia).
  split; [simpl; lia|]. split; [done|].
  apply (quality_history_bounded ascii_tables PersonaProfile_default k DirectAnswer ops); [simpl; lia|done].
Defined.

(** In a well-formed controller with no pending turn, every transcript that
    is not blank and fits a message resolves. The granted budget is positive and
    never above the default; an explicit request for brevity caps it at eight
    seconds; a topic change is answered without history; the pending
    interruption is reported exactly once; no signal is repeated. *)
Theorem resolve_turn_total (U : UnicodeTables) c id t m :
  wf c -> c.(pending_turn) = None -> is_blank t = false -> blen t <= MAX_CONVERSATION_MESSAGE_BYTES ->
  exists r c', resolve_turn c id t m = (Ok (Some r), c') /\ wf c' /\
    c'.(pending_turn) = Some {| pending_turn_id := id; pending_user := {| role := User; text := t |} |} /\
    let s := r.(resolved_decision).(signals) in
    let seconds := r.(resolved_decision).(controls).(maximum_spoken_seconds) in
    1 <= seconds <= c.(default_controls).(maximum_spoken_seconds) /\
    ((ShorterRequested ∈ s \/ StopExplaining ∈ s) -> seconds <= 8) /\
    (RapidTopicChange ∈ s -> r.(resolved_history) = [] /\ c'.(history) = []) /\
    (RapidTopicChange ∉ s -> r.(resolved_history) = history_messages c /\ c'.(history) = c.(history)) /\
    (Interrupted ∈ s <-> c.(interruption_pending) = true) /\ c'.(interruption_pending) = false /\
    NoDup s.
Proof.
  intros Hwf Hp Hb Hl. destruct (resolve_turn_Ok c id t m Hwf Hp Hb Hl)
    as (k & r & c' & Hr & Hwf' & Hk & Hck & Hs & Hh & Hh' & Hi & Hpend).
  exists r, c'. split; [done|]. split; [done|]. split; [done|]. cbv zeta.
  rewrite Hs, Hck. clear Hr Hck Hs. pose proof Hwf as (_ & _ & _ & Hd & _).
  set (sigs := if interruption_pending c then _ else _) in *.
  assert (forall s, s ∈ sigs <-> has_signal s sigs = true) as Hhas
    by (intros; unfold has_signal; by rewrite bool_decide_eq_true).
  match type of Hk with resolve_controls ?cc _ _ = _ =>
    assert (default_controls cc = default_controls c) as Hdc
      by (destruct (has_signal RapidTopicChange sigs), (interruption_pending c); done);
    destruct (resolve_controls_ok cc t sigs) as (k' & Hk' & Hrange & Hbr); [by rewrite Hdc|] end.
  rewrite Hk in Hk'. simplify_eq. rewrite Hdc in Hrange.
  split; [done|]. rewrite !elem_of_unique. split; [done|]. split_and!; [..|done|apply unique_NoDup].
  - intros E%Hhas. rewrite E in Hh, Hh'. done.
  - rewrite Hhas, not_true_iff_false. intros E. by rewrite E in Hh, Hh'.
  - unfold sigs. pose proof (detect_signals_not_interrupted t (previous_assistant_ended_with_question c)).
    destruct (interruption_pending c); [set_solver|]. split; [set_solver|done].
Qed.

Lemma resolve_turn_total_witness :
  let k := {| maximum_spoken_seconds := 20; controls_directness := PersonaLevel_raw 80;
              pace := Natural; follow_up_policy := Contextual; silence_policy := AllowWithoutFiller |} in
  let c := controller_new PersonaProfile_default k DirectAnswer in
  let t := lit "Um... new topic, and keep it short" in
  wf c /\ c.(pending_turn) = None /\ is_blank t = false /\ blen t <= MAX_CONVERSATION_MESSAGE_BYTES /\
  exists r c', resolve_turn (U := ascii_tables) c (TurnId_new 1) t None = (Ok (Some r), c') /\
    r.(resolved_decision).(signals) = [ShorterRequested; Hesitation; RapidTopicChange] /\
    r.(resolved_decision).(controls).(maximum_spoken_seconds) <= 8.
Proof.
  intros k c t.
  assert (wf c) as Hwf by (unfold wf, in_bounds; cbn; by split_and!).
  assert (blen t <= MAX_CONVERSATION_MESSAGE_BYTES) as Hl by (vm_compute; discriminate).
  split_and!; [done|done|reflexivity|done|].
  destruct (resolve_turn_total ascii_tables c (TurnId_new 1) t None Hwf eq_refl eq_refl Hl)
    as (r & c' & Hr & _ & _ & _ & Hbrief & _). exists r, c'. split; [exact Hr|].
  assert (r.(resolved_decision).(signals) = [ShorterRequested; Hesitation; RapidTopicChange]) as Hs.
  { vm_compute in Hr. injection Hr as <- _. reflexivity. }
  split; [exact Hs|]. apply Hbrief. rewrite Hs. left. apply list_elem_of_here.
Defined.

(** Completing the pending turn with an output that fits a message records
    the exchange: the new history is the longest suffix of the old history
    followed by the new exchange that stays within both bounds, so the newest
    exchange is always kept and only the oldest ones are dropped. *)
Theorem complete_turn_keeps_longest_suffix c id p out :
  wf c -> c.(pending_turn) = Some p -> p.(pending_turn_id) = id ->
  is_blank out = false -> blen out <= MAX_CONVERSATION_MESSAGE_BYTES ->
  exists c' dropped exchange,
    complete_turn c id out = Val (Ok tt, c') /\ c'.(pending_turn) = None /\
    exchange.(user) = p.(pending_user) /\ exchange.(assistant).(text) = out /\
    c.(history) ++ [exchange] = dropped ++ c'.(history) /\
    (exists older, c'.(history) = older ++ [exchange]) /\ in_bounds c'.(history) /\
    (forall d x, dropped = d ++ [x] -> ~ in_bounds (x :: c'.(history))).
Proof. apply complete_turn_records. Qed.

Lemma complete_turn_keeps_longest_suffix_witness :
  let k := {| maximum_spoken_seconds := 20; controls_directness := PersonaLevel_raw 80;
              pace := Natural; follow_up_policy := Contextual; silence_policy := AllowWithoutFiller |} in
  let p := {| pending_turn_id := TurnId_new 1; pending_user := {| role := User; text := lit "hi" |} |} in
  let c := set_pending (controller_new PersonaProfile_default k DirectAnswer) (Some p) in
  wf c /\ c.(pending_turn) = Some p /\ p.(pending_turn_id) = TurnId_new 1 /\
  is_blank (lit "hello") = false /\ blen (lit "hello") <= MAX_CONVERSATION_MESSAGE_BYTES /\
  exists c' dropped exchange,
    complete_turn c (TurnId_new 1) (lit "hello") = Val (Ok tt, c') /\ c'.(pending_turn) = None /\
    exchange.(user) = p.(pending_user) /\ exchange.(assistant).(text) = lit "hello" /\
    c.(history) ++ [exchange] = dropped ++ c'.(history) /\
    (exists older, c'.(history) = older ++ [exchange]) /\ in_bounds c'.(history) /\
    (forall d x, dropped = d ++ [x] -> ~ in_bounds (x :: c'.(history))).
Proof.
  intros k p c.
  assert (wf c) as Hwf.
  { unfold wf, in_bounds; cbn. split_and!; try done. intros q [= <-]. by vm_compute. }
  assert (blen (lit "hello") <= MAX_CONVERSATION_MESSAGE_BYTES) as Hl by (vm_compute; discriminate).
  split_and!; [done|done|done|reflexivity|done|].
  apply (complete_turn_keeps_longest_suffix c (TurnId_new 1) p (lit "hello")); done.
Defined.
