(* ===== verification/Privacy.v ===== *)
(** * Privacy policy

    [crates/protocol/src/privacy.rs] (profiles, privacy modes, execution
    locations, component descriptors, the voice session policy) and
    [crates/runtime/src/voice_privacy.rs] (the validation of a policy before
    any adapter is used). *)

From Stdlib Require Import Sorting.Sorted Sorting.Permutation.
From S2P Require Import Prelude RustStr Errors.

Inductive RuntimeProfile : Type :=
| Offline
| Online.

Definition RuntimeProfile_as_str (p : RuntimeProfile) : rstr :=
  match p with Offline => lit "offline" | Online => lit "online" end.

Definition RuntimeProfile_parse (value : rstr) : option RuntimeProfile :=
  if bool_decide (value = lit "offline") then Some Offline
  else if bool_decide (value = lit "online") then Some Online
  else None.

Inductive PrivacyMode : Type :=
| LocalOnly
| Hybrid
| Cloud.

Definition PrivacyMode_parse (value : rstr) : option PrivacyMode :=
  if bool_decide (value = lit "local_only") then Some LocalOnly
  else if bool_decide (value = lit "hybrid") then Some Hybrid
  else if bool_decide (value = lit "cloud") then Some Cloud
  else None.

Inductive ExecutionLocation : Type :=
| Local
| Remote.

Definition ExecutionLocation_parse (value : rstr) : option ExecutionLocation :=
  if bool_decide (value = lit "local") then Some Local
  else if bool_decide (value = lit "remote") then Some Remote
  else None.

Inductive ComponentKind : Type :=
| SpeechRecognition
| LanguageModel
| SpeechSynthesis
| AudioIo
| Tool
| Memory
| Telemetry
| Diarization.

Record ComponentDescriptor : Type := ComponentDescriptor_new {
  component_kind : ComponentKind;
  provider : rstr;
  execution : ExecutionLocation;
}.

Record VoiceSessionPolicy : Type := {
  policy_session_id : SessionId;
  privacy_mode : PrivacyMode;
  speech_start_ms : Z;
  policy_final_silence_ms : Z;
  components : list ComponentDescriptor;
}.

Record PrivacySummary : Type := PrivacySummary_new {
  summary_privacy_mode : PrivacyMode;
  summary_components : list ComponentDescriptor;
}.

#[export] Instance RuntimeProfile_eq_dec : EqDecision RuntimeProfile.
Proof. solve_decision. Defined.
#[export] Instance PrivacyMode_eq_dec : EqDecision PrivacyMode.
Proof. solve_decision. Defined.
#[export] Instance ExecutionLocation_eq_dec : EqDecision ExecutionLocation.
Proof. solve_decision. Defined.
#[export] Instance ComponentKind_eq_dec : EqDecision ComponentKind.
Proof. solve_decision. Defined.
#[export] Instance ComponentDescriptor_eq_dec : EqDecision ComponentDescriptor.
Proof. solve_decision. Defined.

Definition policy_error (message : rstr) : RuntimeError :=
  RuntimeError_new Kind_Configuration Stage_PrivacyPolicy message.

Definition blank_provider (c : ComponentDescriptor) : bool := is_blank c.(provider).

Definition VoiceSessionPolicy_new (session_id : SessionId) (mode : PrivacyMode)
    (speech_start final_silence : Z) (components : list ComponentDescriptor)
  : rresult VoiceSessionPolicy :=
  if SessionId_get session_id =? 0 then
    Err (policy_error (lit "voice session identity must not be zero"))
  else if is_empty components then
    Err (policy_error (lit "voice session policy requires a component"))
  else if negb ((100 <=? speech_start) && (speech_start <=? 1000)) then
    Err (policy_error (lit "speech start threshold is outside the supported range"))
  else if negb ((200 <=? final_silence) && (final_silence <=? 3000)) then
    Err (policy_error (lit "final silence threshold is outside the supported range"))
  else if existsb blank_provider components then
    Err (policy_error (lit "component provider must not be empty"))
  else
    Ok {| policy_session_id := session_id;
          privacy_mode := mode;
          speech_start_ms := speech_start;
          policy_final_silence_ms := final_silence;
          components := components |}.

(** ** [voice_privacy.rs] *)

Definition PRIMARY_KINDS : list ComponentKind := [SpeechRecognition; LanguageModel; SpeechSynthesis].

Definition privacy_error (message : rstr) : RuntimeError :=
  RuntimeError_new Kind_Configuration Stage_PrivacyPolicy message.

Definition is_kind (k : ComponentKind) (c : ComponentDescriptor) : bool :=
  bool_decide (c.(component_kind) = k).
Definition is_location (l : ExecutionLocation) (c : ComponentDescriptor) : bool :=
  bool_decide (c.(execution) = l).
Definition is_primary (c : ComponentDescriptor) : bool :=
  bool_decide (c.(component_kind) ∈ PRIMARY_KINDS).

Definition component_count (components : list ComponentDescriptor) (kind : ComponentKind) : Z :=
  zlen (List.filter (is_kind kind) components).

Definition component_kind_order (kind : ComponentKind) : Z :=
  match kind with
  | SpeechRecognition => 0
  | LanguageModel => 1
  | SpeechSynthesis => 2
  | AudioIo => 3
  | Tool => 4
  | Memory => 5
  | Telemetry => 6
  | Diarization => 7
  end.

(** [slice::sort_by_key], a stable sort. *)
Fixpoint insert_by_key {A} (key : A -> Z) (x : A) (l : list A) : list A :=
  match l with
  | [] => [x]
  | y :: l' => if key x <=? key y then x :: l else y :: insert_by_key key x l'
  end.
Definition sort_by_key {A} (key : A -> Z) (l : list A) : list A :=
  foldr (insert_by_key key) [] l.

Definition validate_voice_policy (policy : VoiceSessionPolicy) : rresult PrivacySummary :=
  let components := policy.(components) in
  if existsb blank_provider components then
    Err (privacy_error (lit "voice policy contains an empty provider identifier"))
  else if existsb (fun kind => negb (component_count components kind =? 1))
            (PRIMARY_KINDS ++ [AudioIo]) then
    Err (privacy_error
      (lit "voice policy requires exactly one descriptor for each required component kind"))
  else
    let primary_components := List.filter is_primary components in
    let local_primary_count := zlen (List.filter (is_location Local) primary_components) in
    let remote_primary_count := zlen (List.filter (is_location Remote) primary_components) in
    let? _ :=
      match policy.(privacy_mode) with
      | LocalOnly =>
          if existsb (fun c => negb (is_location Local c)) components then
            Err (privacy_error (lit "local-only voice policy requires local execution"))
          else Ok tt
      | Hybrid =>
          if (local_primary_count =? 0) || (remote_primary_count =? 0) then
            Err (privacy_error (lit "hybrid voice policy requires local and remote primary components"))
          else Ok tt
      | Cloud =>
          if negb (remote_primary_count =? zlen PRIMARY_KINDS) then
            Err (privacy_error (lit "cloud voice policy requires remote primary components"))
          else Ok tt
      end in
    Ok (PrivacySummary_new policy.(privacy_mode)
          (sort_by_key (fun c => component_kind_order c.(component_kind)) components)).

(** ** What a policy must satisfy *)

(** Exactly one component of a kind. *)
Definition unique_component (k : ComponentKind) (cs : list ComponentDescriptor) : Prop :=
  exists pre c post, cs = pre ++ c :: post /\ c.(component_kind) = k /\
    forall d, d ∈ pre ++ post -> d.(component_kind) <> k.

Definition placement_ok (mode : PrivacyMode) (cs : list ComponentDescriptor) : Prop :=
  match mode with
  | LocalOnly => forall c, c ∈ cs -> c.(execution) = Local
  | Hybrid =>
      (exists c, c ∈ cs /\ c.(component_kind) ∈ PRIMARY_KINDS /\ c.(execution) = Local) /\
      (exists c, c ∈ cs /\ c.(component_kind) ∈ PRIMARY_KINDS /\ c.(execution) = Remote)
  | Cloud => forall c, c ∈ cs -> c.(component_kind) ∈ PRIMARY_KINDS -> c.(execution) = Remote
  end.

Definition admissible (p : VoiceSessionPolicy) : Prop :=
  (forall c, c ∈ p.(components) -> is_blank c.(provider) = false) /\
  (forall k, k ∈ [SpeechRecognition; LanguageModel; SpeechSynthesis; AudioIo] ->
     unique_component k p.(components)) /\
  placement_ok p.(privacy_mode) p.(components).

(** ** Lemmas *)

Lemma existsb_false {A} (p : A -> bool) l : existsb p l = false <-> forall x, x ∈ l -> p x = false.
Proof.
  induction l as [|y l IH]; simpl; [set_solver|].
  rewrite orb_false_iff, IH. split; [|set_solver]. intros [H1 H2] x. rewrite elem_of_cons. naive_solver.
Qed.

Lemma insert_by_key_perm {A} (key : A -> Z) x l : Permutation (insert_by_key key x l) (x :: l).
Proof.
  induction l as [|y l IH]; simpl; [done|]. split_ifs; [done|].
  rewrite IH. apply perm_swap.
Qed.

Lemma sort_by_key_perm {A} (key : A -> Z) l : Permutation (sort_by_key key l) l.
Proof.
  induction l as [|x l IH]; simpl; [done|]. rewrite insert_by_key_perm. by constructor.
Qed.

Lemma insert_by_key_sorted {A} (key : A -> Z) x l :
  StronglySorted (fun a b => key a <= key b) l ->
  StronglySorted (fun a b => key a <= key b) (insert_by_key key x l).
Proof.
  induction 1 as [|y l Hs IH Hy]; simpl.
  - repeat constructor.
  - split_ifs.
    + constructor; [by constructor|]. constructor; [done|].
      eapply List.Forall_impl; [|exact Hy]. simpl. lia.
    + constructor; [done|]. rewrite insert_by_key_perm. constructor; [lia|done].
Qed.

Lemma sort_by_key_sorted {A} (key : A -> Z) l :
  StronglySorted (fun a b => key a <= key b) (sort_by_key key l).
Proof. induction l as [|x l IH]; simpl; [constructor|]. by apply insert_by_key_sorted. Qed.

Lemma insert_by_key_filter {A} (key : A -> Z) (k : Z) x l :
  List.filter (fun z => key z =? k) (insert_by_key key x l) =
  List.filter (fun z => key z =? k) (x :: l).
Proof.
  induction l as [|y l IH]; [done|]. cbn [insert_by_key]. split_ifs; [done|].
  cbn [List.filter] in *. rewrite IH. split_ifs; done || lia.
Qed.

(** Stability: equal keys keep their order. *)
Lemma sort_by_key_stable {A} (key : A -> Z) (k : Z) l :
  List.filter (fun x => key x =? k) (sort_by_key key l) = List.filter (fun x => key x =? k) l.
Proof.
  induction l as [|x l IH]; [done|]. cbn [sort_by_key foldr]. rewrite insert_by_key_filter.
  cbn [List.filter]. by rewrite <- IH.
Qed.

Lemma component_count_1 cs k : component_count cs k = 1 <-> unique_component k cs.
Proof.
  unfold component_count, unique_component. induction cs as [|c cs IH]; simpl.
  - split; [done|]. intros (pre & ? & ? & H & _). by destruct pre.
  - unfold is_kind at 1. case_bool_decide as Hk.
    + rewrite zlen_cons. split.
      * intros H. exists [], c, cs. split_and!; [done..|]. intros d Hd Hdk.
        assert (List.filter (is_kind k) cs = []) as E by (destruct (List.filter _ cs); [done|]; rewrite zlen_cons in H; pose proof (zlen_nonneg l); lia).
        assert (d ∈ List.filter (is_kind k) cs) as Hin; [|rewrite E in Hin; set_solver].
        apply list_elem_of_In, List.filter_In. split; [by apply list_elem_of_In|]. by apply bool_decide_eq_true.
      * intros (pre & d & post & Heq & Hd & Hall). destruct pre as [|e pre]; simplify_eq/=.
        -- replace (List.filter _ _) with (@nil ComponentDescriptor); [done|]. symmetry.
           destruct (List.filter _ post) as [|e l] eqn:E; [done|].
           assert (e ∈ List.filter (is_kind (component_kind d)) post) as Hin by (rewrite E; set_solver).
           apply list_elem_of_In, List.filter_In in Hin as [Hin Hb]. unfold is_kind in Hb. breflect.
           by destruct (Hall e); [apply list_elem_of_In|].
        -- by destruct (Hall e); [set_solver|].
    + rewrite IH. split.
      * intros (pre & d & post & -> & Hd & Hall). exists (c :: pre), d, post. split_and!; [done..|].
        intros e He. simpl in He. rewrite elem_of_cons in He. destruct He as [->|He]; [done|by apply Hall].
      * intros (pre & d & post & Heq & Hd & Hall). destruct pre as [|e pre]; simplify_eq/=.
        exists pre, d, post. split_and!; [done..|]. intros e' He'. apply Hall. set_solver.
Qed.

Lemma zlen_0 {A} (l : list A) : zlen l = 0 <-> l = [].
Proof. destruct l; [done|]. rewrite zlen_cons. pose proof (zlen_nonneg l). split; [lia|done]. Qed.

Lemma filter_nonempty {A} (p : A -> bool) l : List.filter p l <> [] <-> exists x, x ∈ l /\ p x = true.
Proof.
  split.
  - destruct (List.filter p l) as [|x m] eqn:E; [done|]. intros _. exists x.
    assert (In x (List.filter p l)) as H by (rewrite E; by left).
    apply List.filter_In in H as [H1 H2]. split; [by apply list_elem_of_In|done].
  - intros (x & Hx & Hp) E. assert (In x (List.filter p l)) as H; [|by rewrite E in H].
    apply List.filter_In. split; [by apply list_elem_of_In|done].
Qed.

Lemma primary_at_location l cs :
  zlen (List.filter (is_location l) (List.filter is_primary cs)) <> 0 <->
  exists c, c ∈ cs /\ c.(component_kind) ∈ PRIMARY_KINDS /\ c.(execution) = l.
Proof.
  rewrite zlen_0, filter_nonempty. split.
  - intros (c & Hc & Hl). apply list_elem_of_In, List.filter_In in Hc as [Hc Hp].
    unfold is_location, is_primary in *. breflect. exists c. by rewrite list_elem_of_In.
  - intros (c & Hc & Hp & Hl). exists c. unfold is_location. split; [|by apply bool_decide_eq_true].
    apply list_elem_of_In, List.filter_In. split; [by apply list_elem_of_In|].
    unfold is_primary. by apply bool_decide_eq_true.
Qed.

(** The primary components are one per primary kind. *)
Lemma primary_count cs :
  (forall k, k ∈ PRIMARY_KINDS -> component_count cs k = 1) ->
  zlen (List.filter is_primary cs) = 3.
Proof.
  intros H. assert (zlen (List.filter is_primary cs) =
    component_count cs SpeechRecognition + component_count cs LanguageModel + component_count cs SpeechSynthesis) as ->.
  { clear H. unfold component_count. induction cs as [|c cs IH]; simpl; [done|].
    assert (is_primary c = is_kind SpeechRecognition c || is_kind LanguageModel c
      || is_kind SpeechSynthesis c) as -> by (by destruct c as [[] ? ?]).
    destruct (is_kind SpeechRecognition c) eqn:E1, (is_kind LanguageModel c) eqn:E2,
      (is_kind SpeechSynthesis c) eqn:E3; simpl; rewrite ?zlen_cons; try lia;
      unfold is_kind in *; breflect; congruence. }
  rewrite !H; [done|unfold PRIMARY_KINDS; set_solver..].
Qed.

Lemma filter_full {A} (p : A -> bool) l : zlen (List.filter p l) = zlen l <-> forall x, x ∈ l -> p x = true.
Proof.
  induction l as [|y l IH]; simpl; [set_solver|].
  assert (zlen (List.filter p l) <= zlen l) as Hle.
  { clear. induction l as [|y l IH]; simpl; [done|]. destruct (p y); rewrite ?zlen_cons; lia. }
  destruct (p y) eqn:E; rewrite ?zlen_cons.
  - split.
    + intros H x. rewrite elem_of_cons. intros [->|Hx]; [done|]. apply IH; [lia|done].
    + intros H. rewrite (proj2 IH); [done|]. intros x Hx. apply H. set_solver.
  - split; [lia|]. intros H. rewrite (H y) in E by set_solver. done.
Qed.

(** The placement check of the code decides [placement_ok]. *)
Lemma placement_check mode cs :
  (forall k, k ∈ PRIMARY_KINDS -> component_count cs k = 1) ->
  let primary := List.filter is_primary cs in
  match mode with
  | LocalOnly => existsb (fun c => negb (is_location Local c)) cs
  | Hybrid => (zlen (List.filter (is_location Local) primary) =? 0)
              || (zlen (List.filter (is_location Remote) primary) =? 0)
  | Cloud => negb (zlen (List.filter (is_location Remote) primary) =? zlen PRIMARY_KINDS)
  end = false <-> placement_ok mode cs.
Proof.
  intros Hone primary. destruct mode; simpl.
  - rewrite existsb_false. apply forall_proper. intros c. unfold is_location.
    rewrite negb_false_iff, bool_decide_eq_true. done.
  - rewrite orb_false_iff, !Z.eqb_neq. unfold primary. by rewrite !primary_at_location.
  - rewrite negb_false_iff, Z.eqb_eq. change (zlen PRIMARY_KINDS) with 3.
    rewrite <- (primary_count cs Hone). fold primary. rewrite filter_full.
    unfold primary, is_location, is_primary. split.
    + intros H c Hc Hp. specialize (H c). rewrite bool_decide_eq_true in H. apply H.
      apply list_elem_of_In, List.filter_In. split; [by apply list_elem_of_In|by apply bool_decide_eq_true].
    + intros H c Hc. apply list_elem_of_In, List.filter_In in Hc as [Hc Hp]. breflect.
      apply bool_decide_eq_true, H; [by apply list_elem_of_In|done].
Qed.

(** ** Properties *)

(** C34. [validate_voice_policy] decides the privacy contract: it accepts a
    policy exactly when every provider is named, each of recognition, language
    model, synthesis and audio has exactly one descriptor, and the placement
    matches the privacy mode (every component local, both kinds of primary
    component present, or every primary component remote). The summary then
    lists the same components, in order of kind, descriptors of one kind in
    their original order. *)
Theorem voice_policy_decides_contract p :
  (exists s, validate_voice_policy p = Ok s) <-> admissible p.
Proof.
  unfold validate_voice_policy, admissible.
  destruct (existsb blank_provider (components p)) eqn:Eb.
  { split; [by intros [? ?]|]. intros (H & _). exfalso.
    rewrite (proj2 (existsb_false blank_provider (components p)) H) in Eb. done. }
  destruct (existsb _ (PRIMARY_KINDS ++ [AudioIo])) eqn:Ek.
  { split; [by intros [? ?]|]. intros (_ & H & _). exfalso. apply not_false_iff_true in Ek.
    apply Ek, existsb_false. intros k Hk.
    rewrite negb_false_iff, Z.eqb_eq. by apply component_count_1, H. }
  rewrite existsb_false in Eb. rewrite existsb_false in Ek.
  assert (forall k, k ∈ PRIMARY_KINDS ++ [AudioIo] -> component_count (components p) k = 1) as Hone.
  { intros k Hk. apply Ek in Hk. by rewrite negb_false_iff, Z.eqb_eq in Hk. }
  pose proof (placement_check (privacy_mode p) (components p)) as Hpl.
  split.
  - intros [s Hs]. split; [by apply Eb|]. split; [intros k Hk; by apply component_count_1, Hone|].
    apply Hpl; [intros; apply Hone; set_solver|]. revert Hs. destruct (privacy_mode p); simpl; by split_ifs.
  - intros (_ & _ & H). apply Hpl in H; [|intros; apply Hone; set_solver].
    destruct (privacy_mode p); simpl in *; rewrite H; eauto.
Qed.

(** The accepted summary states the policy's mode and exactly its
    components, sorted by kind and stable within a kind. *)
Theorem voice_policy_summary_faithful p s :
  validate_voice_policy p = Ok s ->
  s.(summary_privacy_mode) = p.(privacy_mode) /\
  Permutation s.(summary_components) p.(components) /\
  StronglySorted (fun a b => component_kind_order a.(component_kind) <= component_kind_order b.(component_kind))
    s.(summary_components) /\
  forall k, List.filter (is_kind k) s.(summary_components) = List.filter (is_kind k) p.(components).
Proof.
  unfold validate_voice_policy. intros H. destruct (existsb blank_provider _); [done|].
  destruct (existsb _ (PRIMARY_KINDS ++ _)); [done|].
  apply result_bind_Ok in H as (u & _ & H). simplify_eq/=.
  split_and!; [done|apply sort_by_key_perm|apply sort_by_key_sorted|]. intros k.
  pose proof (sort_by_key_stable (fun c => component_kind_order (component_kind c))
    (component_kind_order k) (components p)) as Hst.
  assert (forall l, List.filter (fun x => component_kind_order (component_kind x) =? component_kind_order k) l
    = List.filter (is_kind k) l) as E.
  { intros l. apply List.filter_ext. intros c. unfold is_kind.
    by destruct (component_kind c), k. }
  by rewrite !E in Hst.
Qed.

Lemma voice_policy_summary_faithful_witness :
  let c k := ComponentDescriptor_new k (lit "local") Local in
  let p := {| policy_session_id := SessionId_new 1; privacy_mode := LocalOnly; speech_start_ms := 200;
              policy_final_silence_ms := 600;
              components := [c AudioIo; c SpeechSynthesis; c Memory; c LanguageModel; c SpeechRecognition] |} in
  exists s, validate_voice_policy p = Ok s /\
    Permutation s.(summary_components) p.(components).
Proof.
  intros c p. eexists. split; [vm_compute; reflexivity|].
  eapply (voice_policy_summary_faithful p). vm_compute. reflexivity.
Defined.
