(* ===== verification/Context.v ===== *)
(** * The shared conversation context

    [crates/runtime/src/conversation_context.rs]: typed and spoken turns share
    one lifecycle (which turn is active, the last identifier issued, the last
    applied seed) and one quality controller, each behind its own mutex.

    Every critical section of the lifecycle mutex is one definition
    ([reserve_turn], [begin_outcome], [finish_outcome], [release_turn]); the
    public operations compose them with the quality controller's operations.
    Concurrent tasks interleave at those critical sections, and a task may be
    dropped between two of them, so the safety theorems are stated over every
    sequence of critical sections, whichever tasks they come from. *)

From S2P Require Import Prelude RustStr Errors ProtocolQuality Quality Privacy.

Inductive ConversationTurnSource : Type :=
| Text
| Voice (session_id : SessionId).

Record ConversationTurnIdentity : Type := {
  identity_turn_id : TurnId;
  identity_generation_id : GenerationId;
}.

Record PreparedConversationTurn : Type := {
  prepared_identity : ConversationTurnIdentity;
  prepared_transcript : rstr;
  prepared_resolved : ResolvedConversationQuality;
}.

Record ActiveConversationTurn : Type := {
  active_identity : ConversationTurnIdentity;
  active_source : ConversationTurnSource;
  finalizing : bool;
}.

Record AppliedContextSeed : Type := {
  operation_id : rstr;
  seed_exchanges : list ConversationContextExchange;
}.

Record ConversationLifecycle : Type := {
  sequence : Z;
  active : option ActiveConversationTurn;
  last_seed : option AppliedContextSeed;
}.

#[export] Instance ConversationTurnIdentity_eq_dec : EqDecision ConversationTurnIdentity.
Proof. solve_decision. Defined.

Definition lifecycle_default : ConversationLifecycle :=
  {| sequence := 0; active := None; last_seed := None |}.

Definition set_active (l : ConversationLifecycle) (a : option ActiveConversationTurn)
  : ConversationLifecycle :=
  {| sequence := l.(sequence); active := a; last_seed := l.(last_seed) |}.

Definition runtime_error (message : rstr) : RuntimeError :=
  RuntimeError_new Kind_InvalidState Stage_Runtime message.

Definition display_identity (i : ConversationTurnIdentity) : rstr :=
  lit "turn " ++ TurnId_display i.(identity_turn_id) ++
  lit " generation " ++ GenerationId_display i.(identity_generation_id).

(** ** Critical sections of the lifecycle *)

Definition active_turn (l : ConversationLifecycle) : option ConversationTurnIdentity :=
  active_identity <$> l.(active).

Definition reserve_turn (l : ConversationLifecycle) (source : ConversationTurnSource)
  : rresult ConversationTurnIdentity * ConversationLifecycle :=
  match l.(active) with
  | Some a =>
      (Err (runtime_error (display_identity a.(active_identity) ++ lit " is still active")), l)
  | None =>
      match checked_add l.(sequence) 1 with
      | None => (Err (runtime_error (lit "conversation turn sequence overflow")), l)
      | Some s =>
          let identity := {| identity_turn_id := TurnId_new s;
                             identity_generation_id := GenerationId_new s |} in
          (Ok identity,
           {| sequence := s;
              active := Some {| active_identity := identity; active_source := source;
                                finalizing := false |};
              last_seed := l.(last_seed) |})
      end
  end.

Definition begin_outcome (l : ConversationLifecycle) (identity : ConversationTurnIdentity)
    (reclaim_interrupted : bool) : rresult bool * ConversationLifecycle :=
  match l.(active) with
  | Some a =>
      if bool_decide (a.(active_identity) = identity) then
        if negb a.(finalizing) then
          (Ok false, set_active l (Some {| active_identity := a.(active_identity);
                                           active_source := a.(active_source);
                                           finalizing := true |}))
        else if reclaim_interrupted then (Ok true, l)
        else (Err (runtime_error (lit "conversation turn outcome is already being finalized")), l)
      else
        (Err (runtime_error (display_identity a.(active_identity) ++ lit " is active, not " ++
                             display_identity identity)), l)
  | None => (Err (runtime_error (lit "there is no active conversation turn")), l)
  end.

Definition finish_outcome (l : ConversationLifecycle) (identity : ConversationTurnIdentity)
    (r : rresult unit) : rresult unit * ConversationLifecycle :=
  match r with
  | Ok tt =>
      if is_some_and l.(active) (fun a =>
           bool_decide (a.(active_identity) = identity) && a.(finalizing))
      then (Ok tt, set_active l None)
      else (Err (runtime_error (lit "conversation turn ownership changed during finalization")), l)
  | Err error =>
      if is_some_and l.(active) (fun a => bool_decide (a.(active_identity) = identity))
      then (Err error, set_active l None)
      else (Err error, l)
  end.

Definition release_turn (l : ConversationLifecycle) (identity : ConversationTurnIdentity)
  : ConversationLifecycle :=
  if is_some_and l.(active) (fun a => bool_decide (a.(active_identity) = identity))
  then set_active l None else l.

(** ** The operations of the context *)

Section Context.
Context `{U : UnicodeTables}.
(** A memory provider and where it says it runs. *)
Context {Provider : Type} (execution_location : Provider -> ExecutionLocation).

Record ConversationContext : Type := {
  lifecycle : ConversationLifecycle;
  quality : ConversationQualityController;
  memory : option Provider;
}.

Definition context_new (quality : ConversationQualityController) : ConversationContext :=
  {| lifecycle := lifecycle_default; quality := quality; memory := None |}.

Definition with_lifecycle (x : ConversationContext) (l : ConversationLifecycle)
  : ConversationContext :=
  {| lifecycle := l; quality := x.(quality); memory := x.(memory) |}.
Definition with_quality (x : ConversationContext) (q : ConversationQualityController)
  : ConversationContext :=
  {| lifecycle := x.(lifecycle); quality := q; memory := x.(memory) |}.

Definition with_memory_provider (x : ConversationContext) (provider : Provider)
    (language_execution : ExecutionLocation) : rresult ConversationContext :=
  if negb (bool_decide (execution_location provider = Local))
     || negb (bool_decide (language_execution = Local)) then
    Err (RuntimeError_new Kind_Configuration Stage_Memory
           (lit "memory context requires local memory and language execution"))
  else
    Ok {| lifecycle := x.(lifecycle); quality := x.(quality); memory := Some provider |}.

Definition apply_persona (x : ConversationContext) (persona : PersonaProfile)
    (mode : ConversationMode) : rresult unit * ConversationContext :=
  let '(r, q) := set_persona x.(quality) persona mode in (r, with_quality x q).

Definition persona_snapshot (x : ConversationContext) : PersonaProfile * ConversationMode :=
  (x.(quality).(saved_persona), x.(quality).(default_mode)).

Definition seed_completed_history (x : ConversationContext) (op_id : rstr)
    (exchanges : list ConversationContextExchange) : rresult unit * ConversationContext :=
  let l := x.(lifecycle) in
  if is_some l.(active) then
    (Err (runtime_error (lit "conversation history cannot be seeded while a turn is active")), x)
  else if is_empty op_id || (64 <? blen op_id) then
    (Err (runtime_error
       (lit "context seed operation identifier must contain between 1 and 64 UTF-8 bytes")), x)
  else
    let apply :=
      match replace_completed_history x.(quality) exchanges with
      | (Ok tt, q) =>
          (Ok tt,
           with_lifecycle (with_quality x q)
             {| sequence := l.(sequence); active := l.(active);
                last_seed := Some {| operation_id := op_id; seed_exchanges := exchanges |} |})
      | (Err e, q) => (Err e, with_quality x q)
      end in
    match l.(last_seed) with
    | Some seed =>
        if bool_decide (seed.(operation_id) = op_id) then
          if bool_decide (seed.(seed_exchanges) = exchanges) then (Ok tt, x)
          else (Err (runtime_error
                  (lit "context seed operation identifier was reused with different content")), x)
        else apply
    | None => apply
    end.

Definition begin_turn (x : ConversationContext) (source : ConversationTurnSource)
    (transcript : rstr) : rresult PreparedConversationTurn * ConversationContext :=
  match reserve_turn x.(lifecycle) source with
  | (Err e, l) => (Err e, with_lifecycle x l)
  | (Ok identity, l) =>
      let x := with_lifecycle x l in
      let '(resolved, q) := resolve_turn x.(quality) identity.(identity_turn_id) transcript None in
      let x := with_quality x q in
      match resolved with
      | Ok (Some resolved) =>
          (Ok {| prepared_identity := identity; prepared_transcript := transcript;
                 prepared_resolved := resolved |}, x)
      | Ok None =>
          (Err (runtime_error (lit "a conversation turn transcript cannot be empty")),
           with_lifecycle x (release_turn x.(lifecycle) identity))
      | Err error => (Err error, with_lifecycle x (release_turn x.(lifecycle) identity))
      end
  end.

Definition context_complete_turn (x : ConversationContext) (identity : ConversationTurnIdentity)
    (assistant : rstr) : exec (rresult unit * ConversationContext) :=
  match begin_outcome x.(lifecycle) identity false with
  | (Err e, l) => Val (Err e, with_lifecycle x l)
  | (Ok _, l) =>
      let x := with_lifecycle x l in
      let! '(r, q) := complete_turn x.(quality) identity.(identity_turn_id) assistant in
      let x := with_quality x q in
      let '(r, l) := finish_outcome x.(lifecycle) identity r in
      Val (r, with_lifecycle x l)
  end.

Definition context_discard_turn (x : ConversationContext) (identity : ConversationTurnIdentity)
    (interrupted : bool) : rresult unit * ConversationContext :=
  match begin_outcome x.(lifecycle) identity true with
  | (Err e, l) => (Err e, with_lifecycle x l)
  | (Ok reclaimed, l) =>
      let x := with_lifecycle x l in
      let '(r, q) :=
        if interrupted then interrupt_turn x.(quality) identity.(identity_turn_id)
        else discard_turn x.(quality) identity.(identity_turn_id) in
      let r := if reclaimed then (match r with Ok _ => r | Err _ => Ok tt end) else r in
      let x := with_quality x q in
      let '(r, l) := finish_outcome x.(lifecycle) identity r in
      (r, with_lifecycle x l)
  end.

End Context.
Arguments ConversationContext Provider : clear implicits.

(** ** Interleavings of the critical sections *)

Inductive lifecycle_op : Type :=
| Reserve (source : ConversationTurnSource)
| Begin (identity : ConversationTurnIdentity) (reclaim : bool)
| Finish (identity : ConversationTurnIdentity) (r : rresult unit)
| Release (identity : ConversationTurnIdentity).

Inductive lifecycle_out : Type :=
| Issued (identity : ConversationTurnIdentity)
| Claimed (identity : ConversationTurnIdentity)
| Quiet.

#[export] Instance lifecycle_out_eq_dec : EqDecision lifecycle_out.
Proof. solve_decision. Defined.

(** One critical section, with the identity it issues or claims for the first
    time. *)
Definition lifecycle_step (l : ConversationLifecycle) (o : lifecycle_op)
  : lifecycle_out * ConversationLifecycle :=
  match o with
  | Reserve source =>
      match reserve_turn l source with
      | (Ok identity, l') => (Issued identity, l')
      | (Err _, l') => (Quiet, l')
      end
  | Begin identity reclaim =>
      match begin_outcome l identity reclaim with
      | (Ok false, l') => (Claimed identity, l')
      | (_, l') => (Quiet, l')
      end
  | Finish identity r => (Quiet, snd (finish_outcome l identity r))
  | Release identity => (Quiet, release_turn l identity)
  end.

Fixpoint lifecycle_run (l : ConversationLifecycle) (ops : list lifecycle_op)
  : list lifecycle_out * ConversationLifecycle :=
  match ops with
  | [] => ([], l)
  | o :: ops' =>
      let '(out, l1) := lifecycle_step l o in
      let '(outs, l2) := lifecycle_run l1 ops' in
      (out :: outs, l2)
  end.

(** The identities issued, in order, and the identity with number [n]. *)
Definition issued (outs : list lifecycle_out) : list ConversationTurnIdentity :=
  omap (fun o => match o with Issued i => Some i | _ => None end) outs.
Definition nth_identity (n : Z) : ConversationTurnIdentity :=
  {| identity_turn_id := TurnId_new n; identity_generation_id := GenerationId_new n |}.

(** The active turn is the last one issued. *)
Definition lifecycle_inv (l : ConversationLifecycle) : Prop :=
  0 <= l.(sequence) <= u64_max /\
  forall a, l.(active) = Some a -> a.(active_identity) = nth_identity l.(sequence).

(** How many first claims of an identity can still succeed. *)
Definition claims_left (l : ConversationLifecycle) (i : ConversationTurnIdentity) : nat :=
  if bool_decide (l.(sequence) < TurnId_get i.(identity_turn_id))
     || is_some_and l.(active) (fun a =>
          bool_decide (a.(active_identity) = i) && negb a.(finalizing))
  then 1 else 0.

(** ** Lemmas *)

Lemma lifecycle_inv_clear l : lifecycle_inv l -> lifecycle_inv (set_active l None).
Proof. intros [Hs _]. split; [done|]. by intros a Ha. Qed.

Lemma lifecycle_step_spec l o out l' :
  lifecycle_inv l -> lifecycle_step l o = (out, l') ->
  lifecycle_inv l' /\ last_seed l' = last_seed l /\
  match out with
  | Issued i => i = nth_identity (l.(sequence) + 1) /\ l'.(sequence) = l.(sequence) + 1 /\
      l.(active) = None /\ exists s, l'.(active) = Some {| active_identity := i; active_source := s; finalizing := false |}
  | Claimed i => l'.(sequence) = l.(sequence) /\
      exists a, l.(active) = Some a /\ a.(active_identity) = i /\ a.(finalizing) = false /\
      exists s, l'.(active) = Some {| active_identity := i; active_source := s; finalizing := true |}
  | Quiet => l'.(sequence) = l.(sequence) /\ (l'.(active) = l.(active) \/ l'.(active) = None)
  end.
Proof.
  intros Hinv H. pose proof Hinv as [Hs Ha].
  destruct o as [src|i rc|i r|i]; cbn [lifecycle_step] in H.
  - unfold reserve_turn in H. destruct (active l) as [a|] eqn:Ea; [simplify_eq; by rewrite Ea; auto|].
    destruct (checked_add (sequence l) 1) as [s|] eqn:Es; [|simplify_eq; by rewrite Ea; auto].
    apply checked_add_Some in Es as [-> Es]. simplify_eq. unfold lifecycle_inv. cbn.
    split_and!; try done; try lia; [|by eexists]. by intros a [= <-].
  - unfold begin_outcome in H. destruct (active l) as [a|] eqn:Ea; [|simplify_eq; by rewrite Ea; auto].
    case_bool_decide as Hi; [|simplify_eq; by rewrite Ea; auto].
    destruct (finalizing a) eqn:Ef; simpl in H; [destruct rc; simplify_eq; by rewrite Ea; auto|].
    simplify_eq. split; [split; [done|]|]; cbn.
    + intros b Hb. simplify_eq/=. by apply Ha.
    + split; [done|]. split; [done|]. exists a. split_and!; try done. by eexists.
  - unfold finish_outcome in H. destruct r as [[]|e]; simplify_eq;
      (destruct (is_some_and _ _); cbn; by auto using lifecycle_inv_clear).
  - unfold release_turn in H. simplify_eq.
    destruct (is_some_and _ _); cbn; by auto using lifecycle_inv_clear.
Qed.

Lemma lifecycle_step_inv l o : lifecycle_inv l -> lifecycle_inv (snd (lifecycle_step l o)).
Proof.
  intros H. destruct (lifecycle_step l o) as [out l'] eqn:E. by apply lifecycle_step_spec in E as [? _].
Qed.

Lemma lifecycle_run_issued ops l :
  lifecycle_inv l ->
  let '(outs, l') := lifecycle_run l ops in
  lifecycle_inv l' /\
  issued outs = map nth_identity (seqZ (l.(sequence) + 1) (l'.(sequence) - l.(sequence))) /\
  l.(sequence) <= l'.(sequence).
Proof.
  revert l. induction ops as [|o ops IH]; intros l Hinv; cbn [lifecycle_run].
  - rewrite Z.sub_diag. split_and!; [done|done|lia].
  - destruct (lifecycle_step l o) as [out l1] eqn:Es.
    apply lifecycle_step_spec in Es as (Hinv1 & _ & Hout); [|done].
    specialize (IH l1 Hinv1). destruct (lifecycle_run l1 ops) as [outs l2].
    destruct IH as (Hinv2 & Hiss & Hle). destruct out as [i|i|]; cbn [issued omap list_omap].
    + destruct Hout as (-> & Hs & _). split_and!; [done| |lia].
      fold (issued outs). rewrite Hiss, Hs.
      rewrite (seqZ_cons (l.(sequence) + 1)) by lia. cbn [map]. f_equal.
      f_equal. f_equal; lia.
    + destruct Hout as (Hs & _). fold (issued outs). rewrite Hiss, <- Hs. split_and!; [done|done|lia].
    + destruct Hout as (Hs & _). fold (issued outs). rewrite Hiss, <- Hs. split_and!; [done|done|lia].
Qed.

Lemma claims_left_step l o out l' i :
  lifecycle_inv l -> lifecycle_step l o = (out, l') ->
  ((if bool_decide (out = Claimed i) then 1 else 0) + claims_left l' i <= claims_left l i)%nat.
Proof.
  intros Hinv H. pose proof Hinv as [Hs Ha]. apply lifecycle_step_spec in H as (Hinv' & _ & Hout); [|done].
  unfold claims_left. destruct out as [j|j|].
  - destruct Hout as (-> & Hseq & Hnone & s & Hact). rewrite Hact, Hseq, Hnone. cbn.
    rewrite bool_decide_eq_false_2 by done. rewrite orb_false_r.
    destruct (bool_decide (nth_identity _ = i)) eqn:Ei; breflect; subst; cbn; rewrite ?andb_true_r.
    + rewrite !(bool_decide_eq_true_2 (sequence l < _)) by lia. destruct (_ || _); lia.
    + rewrite orb_false_r. repeat case_bool_decide; lia.
  - destruct Hout as (Hseq & a & Hact & Hid & Hfin & s & Hact'). rewrite Hact, Hact', Hseq. cbn.
    rewrite andb_false_r, orb_false_r. specialize (Ha a Hact). rewrite Hid in Ha. subst j.
    destruct (bool_decide (Claimed (active_identity a) = Claimed i)) eqn:Ei; breflect.
    + simplify_eq. rewrite Hfin, (bool_decide_eq_true_2 (active_identity a = active_identity a)) by done.
      cbn. rewrite orb_true_r. rewrite bool_decide_eq_false_2; [lia|]. rewrite Ha. cbn. lia.
    + rewrite (bool_decide_eq_false_2 (active_identity a = i)) by congruence. cbn. rewrite orb_false_r. lia.
  - destruct Hout as (Hseq & Hact). rewrite bool_decide_eq_false_2 by done. rewrite Hseq.
    destruct Hact as [->| ->]; [lia|]. cbn. rewrite orb_false_r.
    destruct (bool_decide _); cbn; [lia|]. destruct (is_some_and _ _); lia.
Qed.

Lemma claims_left_run ops l i :
  lifecycle_inv l ->
  (length (List.filter (fun o => bool_decide (o = Claimed i)) (fst (lifecycle_run l ops))) <= claims_left l i)%nat.
Proof.
  revert l. induction ops as [|o ops IH]; intros l Hinv; cbn [lifecycle_run]; [cbn; lia|].
  pose proof (lifecycle_step_inv l o Hinv) as Hinv1.
  destruct (lifecycle_step l o) as [out l1] eqn:Es. cbn in Hinv1.
  apply (claims_left_step _ _ _ _ i Hinv) in Es. specialize (IH l1 Hinv1).
  destruct (lifecycle_run l1 ops) as [outs l2]. cbn in *.
  destruct (bool_decide (out = Claimed i)); cbn; lia.
Qed.

Lemma lifecycle_default_inv : lifecycle_inv lifecycle_default.
Proof. unfold lifecycle_inv. cbn. split; [ints|done]. Qed.

(** A resolution that prepares no turn leaves a well-formed controller as it
    was. *)
Lemma resolve_turn_refused `{U : UnicodeTables} c id t m r c' :
  wf c -> resolve_turn c id t m = (r, c') -> (forall q, r <> Ok (Some q)) -> c' = c.
Proof.
  intros Hwf H Hr. destruct (pending_turn c) as [p|] eqn:Ep.
  { unfold resolve_turn in H. rewrite Ep in H. by simplify_eq/=. }
  destruct (is_blank t) eqn:Eb.
  { unfold resolve_turn in H. rewrite Ep, Eb in H. by simplify_eq/=. }
  destruct (decide (blen t <= MAX_CONVERSATION_MESSAGE_BYTES)) as [Hl|Hl].
  - destruct (resolve_turn_Ok c id t m) as (k & q & c1 & E & _); try done.
    rewrite H in E. simplify_eq. by destruct (Hr q).
  - unfold resolve_turn, ConversationMessage_new in H. rewrite Ep, Eb in H. cbn [is_some] in H.
    rewrite (proj2 (Z.ltb_lt _ _)) in H by lia. by simplify_eq/=.
Qed.

Lemma reserve_turn_idle l src :
  l.(active) = None -> 0 <= l.(sequence) < u64_max ->
  reserve_turn l src =
    (Ok (nth_identity (l.(sequence) + 1)),
     {| sequence := l.(sequence) + 1;
        active := Some {| active_identity := nth_identity (l.(sequence) + 1);
                          active_source := src; finalizing := false |};
        last_seed := l.(last_seed) |}).
Proof.
  intros Ha Hs. unfold reserve_turn, checked_add. rewrite Ha, (proj2 (Z.leb_le _ _)) by lia. done.
Qed.

Lemma discard_or_interrupt_history c id b :
  let '(r, c') := if b : bool then interrupt_turn c id else discard_turn c id in
  history c' = history c.
Proof.
  destruct b; unfold interrupt_turn, discard_turn;
    destruct (take_pending c id) as [[p|e] c1] eqn:E;
    try apply take_pending_Err in E; try apply take_pending_Ok in E as (_ & _ & E); by subst.
Qed.

(** ** Properties *)

(** Whatever way concurrent tasks interleave their critical sections, and
    wherever they are dropped, the turns issued are numbered consecutively from
    one without overflow, turn and generation identifiers agree, and the active
    turn, if there is one, is always the last one issued. *)
Theorem turn_identities_consecutive ops :
  let '(outs, l) := lifecycle_run lifecycle_default ops in
  issued outs = map nth_identity (seqZ 1 l.(sequence)) /\ 0 <= l.(sequence) <= u64_max /\
  forall a, l.(active) = Some a -> a.(active_identity) = nth_identity l.(sequence).
Proof.
  pose proof (lifecycle_run_issued ops lifecycle_default lifecycle_default_inv) as H.
  destruct (lifecycle_run _ ops) as [outs l]. destruct H as ([H1 H2] & H3 & _).
  cbn in H3. rewrite Z.sub_0_r in H3. done.
Qed.

(** Under every interleaving, the outcome of a turn is claimed for the
    first time at most once: two completions of one turn can never both begin,
    and a completion never begins after a discard did. *)
Theorem turn_outcome_claimed_once ops i :
  (length (List.filter (fun o => bool_decide (o = Claimed i))
     (fst (lifecycle_run lifecycle_default ops))) <= 1)%nat.
Proof.
  pose proof (claims_left_run ops lifecycle_default i lifecycle_default_inv).
  unfold claims_left in *. destruct (_ || _); lia.
Qed.

(** A turn that is begun on an idle context and completed with an output
    that fits a message leaves the context idle again, one identifier further,
    with exactly that exchange as the newest of its history; while it is active
    every other turn is refused without any change. *)
Theorem turn_begin_complete (U : UnicodeTables) (P : Type) (x : ConversationContext P) src t out :
  wf x.(quality) -> x.(quality).(pending_turn) = None -> x.(lifecycle).(active) = None ->
  0 <= x.(lifecycle).(sequence) < u64_max ->
  is_blank t = false -> blen t <= MAX_CONVERSATION_MESSAGE_BYTES ->
  is_blank out = false -> blen out <= MAX_CONVERSATION_MESSAGE_BYTES ->
  exists prepared x1 x2 older e,
    begin_turn x src t = (Ok prepared, x1) /\
    prepared.(prepared_identity) = nth_identity (x.(lifecycle).(sequence) + 1) /\
    (forall src' t', exists err, begin_turn x1 src' t' = (Err err, x1)) /\
    context_complete_turn x1 prepared.(prepared_identity) out = Val (Ok tt, x2) /\
    x2.(lifecycle).(active) = None /\ x2.(lifecycle).(sequence) = x.(lifecycle).(sequence) + 1 /\
    x2.(quality).(pending_turn) = None /\
    x2.(quality).(history) = older ++ [e] /\ e.(user).(text) = t /\ e.(assistant).(text) = out.
Proof.
  intros Hwf Hp Ha Hs Hb Hl Hbo Hlo.
  set (id := nth_identity (x.(lifecycle).(sequence) + 1)).
  destruct (resolve_turn_Ok x.(quality) id.(identity_turn_id) t None Hwf Hp Hb Hl)
    as (k & r & q1 & Hr & Hwf1 & _ & _ & _ & _ & _ & _ & Hp1).
  destruct (complete_turn_records q1 id.(identity_turn_id) _ out Hwf1 Hp1 eq_refl Hbo Hlo)
    as (q2 & dropped & e & Hc & Hp2 & Hu & Has & _ & (older & Hh) & _).
  unfold begin_turn at 1. rewrite reserve_turn_idle by done. fold id. cbn [quality with_lifecycle].
  rewrite Hr. do 3 eexists. exists older, e. split; [done|]. cbn [prepared_identity].
  split; [done|]. split.
  { intros src' t'. unfold begin_turn, reserve_turn. cbn. by eexists. }
  clearbody id. unfold context_complete_turn, begin_outcome. cbn -[complete_turn].
  rewrite bool_decide_eq_true_2 by done. cbn -[complete_turn]. rewrite Hc. cbn. rewrite bool_decide_eq_true_2 by done. cbn. split; [done|].
  rewrite Hu. by split_and!.
Qed.

Lemma turn_begin_complete_witness :
  let k := {| maximum_spoken_seconds := 20; controls_directness := PersonaLevel_raw 80;
              pace := Natural; follow_up_policy := Contextual; silence_policy := AllowWithoutFiller |} in
  let x : ConversationContext unit := context_new (controller_new PersonaProfile_default k DirectAnswer) in
  wf x.(quality) /\ x.(lifecycle).(active) = None /\
  exists prepared x1 x2 older e,
    begin_turn (U := ascii_tables) x Text (lit "hi") = (Ok prepared, x1) /\
    context_complete_turn x1 prepared.(prepared_identity) (lit "hello") = Val (Ok tt, x2) /\
    x2.(quality).(history) = older ++ [e] /\ e.(user).(text) = lit "hi".
Proof.
  intros k x.
  assert (wf x.(quality)) as Hwf by (unfold wf, in_bounds; cbn; by split_and!).
  split; [done|]. split; [done|].
  destruct (turn_begin_complete ascii_tables unit x Text (lit "hi") (lit "hello") Hwf eq_refl eq_refl)
    as (prepared & x1 & x2 & older & e & H1 & _ & _ & H2 & _ & _ & _ & H3 & H4 & _);
    [cbn; ints|reflexivity|vm_compute; discriminate|reflexivity|vm_compute; discriminate|].
  exists prepared, x1, x2, older, e. exact (conj H1 (conj H2 (conj H3 H4))).
Defined.

(** A discard always frees the conversation: whether or not an earlier
    finalization of the same turn was dropped halfway, discarding or
    interrupting the active turn leaves no turn active and the history as it
    was, and it reports success when it reclaimed such a finalization. *)
Theorem discard_always_releases (P : Type) (x : ConversationContext P) a interrupted :
  x.(lifecycle).(active) = Some a ->
  let '(r, x') := context_discard_turn x a.(active_identity) interrupted in
  x'.(lifecycle).(active) = None /\ x'.(lifecycle).(sequence) = x.(lifecycle).(sequence) /\
  x'.(quality).(history) = x.(quality).(history) /\
  (a.(finalizing) = true -> r = Ok tt).
Proof.
  intros Ha. unfold context_discard_turn, begin_outcome. rewrite Ha, bool_decide_eq_true_2 by done.
  pose proof (discard_or_interrupt_history (quality x) (identity_turn_id (active_identity a)) interrupted) as Hh.
  destruct (finalizing a) eqn:Ef; cbn;
    destruct (if interrupted then _ else _) as [r q] eqn:E; cbn in *.
  - destruct r as [[]|e]; cbn; rewrite Ha; cbn; rewrite bool_decide_eq_true_2, Ef by done; by cbn.
  - destruct r as [[]|e]; cbn; rewrite bool_decide_eq_true_2 by done; by cbn.
Qed.

Lemma discard_always_releases_witness :
  let k := {| maximum_spoken_seconds := 20; controls_directness := PersonaLevel_raw 80;
              pace := Natural; follow_up_policy := Contextual; silence_policy := AllowWithoutFiller |} in
  let a := {| active_identity := nth_identity 1; active_source := Text; finalizing := true |} in
  let x : ConversationContext unit :=
    with_lifecycle (context_new (controller_new PersonaProfile_default k DirectAnswer))
      {| sequence := 1; active := Some a; last_seed := None |} in
  x.(lifecycle).(active) = Some a /\ fst (context_discard_turn x (nth_identity 1) true) = Ok tt.
Proof.
  intros k a x. split; [reflexivity|].
  pose proof (discard_always_releases unit x a true eq_refl) as H.
  change (nth_identity 1) with (active_identity a).
  destruct (context_discard_turn x (active_identity a) true) as [r x'].
  destruct H as (_ & _ & _ & H). apply H. reflexivity.
Defined.

(** A turn that cannot be begun leaves no trace but a consumed identifier:
    the quality controller and the active turn are exactly what they were. *)
Theorem failed_begin_turn_leaves_no_trace (U : UnicodeTables) (P : Type)
    (x : ConversationContext P) src t e x' :
  wf x.(quality) -> begin_turn x src t = (Err e, x') ->
  x'.(quality) = x.(quality) /\ x'.(lifecycle).(active) = x.(lifecycle).(active) /\
  x'.(lifecycle).(last_seed) = x.(lifecycle).(last_seed).
Proof.
  intros Hwf H. unfold begin_turn, reserve_turn in H.
  destruct (active (lifecycle x)) as [a|] eqn:Ea; [by simplify_eq/=|].
  destruct (checked_add _ _) as [s|] eqn:Es; [|by simplify_eq/=]. cbn in H.
  destruct (resolve_turn (quality x) (TurnId_new s) t None) as [r q] eqn:Er.
  assert ((forall z, r <> Ok (Some z)) -> q = quality x) as Hq
    by (intros; by eapply resolve_turn_refused).
  destruct r as [[z|]|err]; simplify_eq/=; rewrite Hq by done;
    unfold release_turn; cbn; rewrite bool_decide_eq_true_2 by done; by cbn.
Qed.

Lemma failed_begin_turn_leaves_no_trace_witness :
  let k := {| maximum_spoken_seconds := 20; controls_directness := PersonaLevel_raw 80;
              pace := Natural; follow_up_policy := Contextual; silence_policy := AllowWithoutFiller |} in
  let x : ConversationContext unit := context_new (controller_new PersonaProfile_default k DirectAnswer) in
  wf x.(quality) /\ exists e x', begin_turn (U := ascii_tables) x Text (lit "  ") = (Err e, x') /\
    x'.(quality) = x.(quality).
Proof.
  intros k x.
  assert (wf x.(quality)) as Hwf by (unfold wf, in_bounds; cbn; by split_and!).
  split; [done|]. do 2 eexists. split; [vm_compute; reflexivity|].
  eapply (failed_begin_turn_leaves_no_trace ascii_tables unit x Text (lit "  "));
    [exact Hwf|vm_compute; reflexivity].
Defined.

(** Seeding is idempotent: after a seed is applied, repeating the same
    operation succeeds without any change, and reusing its identifier with
    different content is refused without any change. *)
Theorem seed_idempotent (P : Type) (x : ConversationContext P) op es x' :
  seed_completed_history x op es = (Ok tt, x') ->
  seed_completed_history x' op es = (Ok tt, x') /\
  forall es', es' <> es -> exists e, seed_completed_history x' op es' = (Err e, x').
Proof.
  unfold seed_completed_history at 1. intros H.
  destruct (active (lifecycle x)) as [a|] eqn:Ea; [done|]. cbn [is_some] in H.
  destruct (is_empty op || (64 <? blen op)) eqn:Eo; [done|].
  assert (active (lifecycle x') = None /\ last_seed (lifecycle x') =
    Some {| operation_id := op; seed_exchanges := es |}) as [Ha' Hl'].
  { destruct (last_seed (lifecycle x)) as [seed|] eqn:El.
    - case_bool_decide as Hid.
      + case_bool_decide; simplify_eq. rewrite Ea, El. by destruct seed.
      + destruct (replace_completed_history _ _) as [[[]|] q]; by simplify_eq/=.
    - destruct (replace_completed_history _ _) as [[[]|] q]; by simplify_eq/=. }
  unfold seed_completed_history. rewrite Ha', Eo, Hl'. cbn.
  rewrite bool_decide_eq_true_2 by done. split; [by rewrite bool_decide_eq_true_2|].
  intros es' Hne. rewrite bool_decide_eq_false_2 by done. by eexists.
Qed.

Lemma seed_idempotent_witness :
  let k := {| maximum_spoken_seconds := 20; controls_directness := PersonaLevel_raw 80;
              pace := Natural; follow_up_policy := Contextual; silence_policy := AllowWithoutFiller |} in
  let x : ConversationContext unit := context_new (controller_new PersonaProfile_default k DirectAnswer) in
  let es := [{| exchange_user := lit "hi"; exchange_assistant := lit "hello" |}] in
  exists x', seed_completed_history x (lit "op-1") es = (Ok tt, x') /\
    seed_completed_history x' (lit "op-1") es = (Ok tt, x').
Proof.
  intros k x es. eexists. split; [vm_compute; reflexivity|].
  eapply (seed_idempotent unit x (lit "op-1") es). vm_compute. reflexivity.
Defined.
