(* ===== verification/MemoryProtocol.v ===== *)
(** * Controlled memory: the protocol's records

    [crates/protocol/src/memory.rs]: identifiers, timestamps, provenance,
    approvals, retention, drafts, patches and records of the long-term memory,
    with the checks their constructors make, and the requests, items and traces
    of a retrieval. The digest of the [sha2] crate is a parameter. *)

From S2P Require Import Prelude RustStr Errors.

Definition MAX_MEMORY_CONTENT_BYTES : Z := 4 * 1024.
Definition MAX_MEMORY_RETRIEVAL_ITEMS : Z := 8.
Definition MAX_MEMORY_RETRIEVAL_BYTES : Z := 8 * 1024.
Definition MAX_MEMORY_QUERY_BYTES : Z := 16 * 1024.
Definition MAX_WORKING_RETENTION_MILLIS : Z := 24 * 60 * 60 * 1000.
Definition MAX_SOURCE_IDENTIFIER_BYTES : Z := 512.
Definition MAX_ACTOR_BYTES : Z := 256.
Definition MAX_DIGEST_BYTES : Z := 256.
Definition MAX_CONFIRMATION_IDENTIFIER_BYTES : Z := 512.

Definition memory_error (message : rstr) : RuntimeError :=
  RuntimeError_new Kind_Configuration Stage_Memory message.

(** ** Identifiers and scalars *)

Record MemoryId : Type := MemoryId_raw { MemoryId_get : Z }.
Record RetrievalTraceId : Type := RetrievalTraceId_raw { RetrievalTraceId_get : Z }.
Record PersonId : Type := PersonId_raw { PersonId_get : Z }.
Record UnixTimestampMillis : Type := UnixTimestampMillis_raw { millis : Z }.
Record MemoryConfidence : Type := MemoryConfidence_raw { confidence_get : Z }.

(** The constructor [checked_id!] generates for each identifier. *)
Definition checked_id {A} (label : rstr) (make : Z -> A) (value : Z) : rresult A :=
  if value =? 0 then Err (memory_error (label ++ lit " must be non-zero")) else Ok (make value).

Definition MemoryId_new : Z -> rresult MemoryId := checked_id (lit "memory identifier") MemoryId_raw.
Definition RetrievalTraceId_new : Z -> rresult RetrievalTraceId :=
  checked_id (lit "retrieval trace identifier") RetrievalTraceId_raw.
Definition PersonId_new : Z -> rresult PersonId := checked_id (lit "person identifier") PersonId_raw.
Definition PersonId_OWNER : PersonId := PersonId_raw 1.

Definition UnixTimestampMillis_new (value : Z) : rresult UnixTimestampMillis :=
  if value <? 0 then Err (memory_error (lit "timestamp must be non-negative"))
  else Ok (UnixTimestampMillis_raw value).

Definition MemoryConfidence_new (value : Z) : rresult MemoryConfidence :=
  if 1000 <? value then Err (memory_error (lit "memory confidence exceeds 1000"))
  else Ok (MemoryConfidence_raw value).

(** ** Kinds and states *)

Inductive MemoryKind : Type :=
| Working
| Episodic
| Semantic
| Identity
| Relationship.

Definition MemoryKind_as_str (k : MemoryKind) : rstr :=
  match k with
  | Working => lit "working"
  | Episodic => lit "episodic"
  | Semantic => lit "semantic"
  | Identity => lit "identity"
  | Relationship => lit "relationship"
  end.

Definition requires_approval (k : MemoryKind) : bool :=
  match k with Identity | Relationship => true | _ => false end.

Inductive MemoryState : Type :=
| State_Candidate
| State_Active
| State_Expired.

Definition MemoryState_as_str (s : MemoryState) : rstr :=
  match s with
  | State_Candidate => lit "candidate"
  | State_Active => lit "active"
  | State_Expired => lit "expired"
  end.

Inductive MemoryProvenanceKind : Type :=
| UserProvided
| UserEdited
| CompletedExchange
| ApplicationImported.

Definition MemoryProvenanceKind_as_str (k : MemoryProvenanceKind) : rstr :=
  match k with
  | UserProvided => lit "user_provided"
  | UserEdited => lit "user_edited"
  | CompletedExchange => lit "completed_exchange"
  | ApplicationImported => lit "application_imported"
  end.

Inductive MemoryRetrievalReason : Type :=
| PinnedMatch
| ExactPhrase
| SharedTerm
| RecentWorking.

Definition MemoryRetrievalReason_as_str (r : MemoryRetrievalReason) : rstr :=
  match r with
  | PinnedMatch => lit "pinned_match"
  | ExactPhrase => lit "exact_phrase"
  | SharedTerm => lit "shared_term"
  | RecentWorking => lit "recent_working"
  end.

#[export] Instance MemoryId_eq_dec : EqDecision MemoryId.
Proof. solve_decision. Defined.
#[export] Instance PersonId_eq_dec : EqDecision PersonId.
Proof. solve_decision. Defined.
#[export] Instance UnixTimestampMillis_eq_dec : EqDecision UnixTimestampMillis.
Proof. solve_decision. Defined.
#[export] Instance MemoryKind_eq_dec : EqDecision MemoryKind.
Proof. solve_decision. Defined.
#[export] Instance MemoryState_eq_dec : EqDecision MemoryState.
Proof. solve_decision. Defined.
#[export] Instance MemoryProvenanceKind_eq_dec : EqDecision MemoryProvenanceKind.
Proof. solve_decision. Defined.
#[export] Instance MemoryRetrievalReason_eq_dec : EqDecision MemoryRetrievalReason.
Proof. solve_decision. Defined.

(** ** Texts *)

Definition bounded_text (value : rstr) (maximum_bytes : Z) (empty_message overflow_message : rstr) : rresult rstr :=
  if is_blank value then Err (memory_error empty_message)
  else if maximum_bytes <? blen value then Err (memory_error overflow_message)
  else Ok value.

Definition validate_content (content : rstr) : rresult rstr :=
  bounded_text content MAX_MEMORY_CONTENT_BYTES (lit "memory content must not be empty")
    (lit "memory content exceeds 4 KiB").

Definition validate_revision (revision : Z) : rresult unit :=
  if revision =? 0 then Err (memory_error (lit "memory revision must be non-zero")) else Ok tt.

(** [.map(f).transpose()]. *)
Definition transpose_map {A B E} (f : A -> result B E) (o : option A) : result (option B) E :=
  match o with Some a => let? b := f a in Ok (Some b) | None => Ok None end.

(** ** Provenance and approval *)

Record MemoryProvenance : Type := {
  provenance_kind : MemoryProvenanceKind;
  source_id : rstr;
  source_timestamp : UnixTimestampMillis;
  provenance_actor : rstr;
  provenance_digest : option rstr;
}.

Definition MemoryProvenance_new (kind : MemoryProvenanceKind) (source_id : rstr)
    (source_timestamp : UnixTimestampMillis) (actor : rstr) (digest : option rstr) : rresult MemoryProvenance :=
  let? source_id := bounded_text source_id MAX_SOURCE_IDENTIFIER_BYTES
      (lit "memory provenance source identifier must not be empty")
      (lit "memory provenance source identifier exceeds 512 bytes") in
  let? actor := bounded_text actor MAX_ACTOR_BYTES
      (lit "memory provenance actor must not be empty") (lit "memory provenance actor exceeds 256 bytes") in
  let? digest := transpose_map (fun d => bounded_text d MAX_DIGEST_BYTES
      (lit "memory content digest must not be empty") (lit "memory content digest exceeds 256 bytes")) digest in
  Ok {| provenance_kind := kind; source_id := source_id; source_timestamp := source_timestamp;
        provenance_actor := actor; provenance_digest := digest |}.

Record MemoryApproval : Type := {
  confirmation_id : rstr;
  approval_actor : rstr;
  confirmed_at : UnixTimestampMillis;
  expected_revision : Z;
}.

Definition MemoryApproval_new (confirmation_id actor : rstr) (confirmed_at : UnixTimestampMillis)
    (expected_revision : Z) : rresult MemoryApproval :=
  let? confirmation_id := bounded_text confirmation_id MAX_CONFIRMATION_IDENTIFIER_BYTES
      (lit "memory confirmation identifier must not be empty")
      (lit "memory confirmation identifier exceeds 512 bytes") in
  let? actor := bounded_text actor MAX_ACTOR_BYTES
      (lit "memory approval actor must not be empty") (lit "memory approval actor exceeds 256 bytes") in
  let? _ := validate_revision expected_revision in
  Ok {| confirmation_id := confirmation_id; approval_actor := actor; confirmed_at := confirmed_at;
        expected_revision := expected_revision |}.

Record MemoryApprovalEvidence : Type := {
  evidence_confirmation_id : rstr;
  evidence_actor : rstr;
  evidence_confirmed_at : UnixTimestampMillis;
  approved_revision : Z;
  evidence_digest : rstr;
}.

(** [format!("{:x}", Sha256::digest(bytes))]. *)
Class Sha256 : Type := sha256_hex : list Z -> rstr.

Definition is_ascii_hexdigit (c : rchar) : bool :=
  is_ascii_digit c || ((0x41 <=? c) && (c <=? 0x46)) || ((0x61 <=? c) && (c <=? 0x66)).

(** A SHA-256 digest is 32 bytes; its hexadecimal form has 64 digits. *)
Class Sha256Laws (S : Sha256) : Prop := {
  sha256_length : forall b, length (sha256_hex b) = 64%nat;
  sha256_hexdigits : forall b, forallb is_ascii_hexdigit (sha256_hex b) = true;
}.

Definition content_digest `{Sha256} (content : rstr) : rstr :=
  lit "sha256:" ++ sha256_hex (utf8_encode content).

(** [value\[7..\]] is a slice of a text that starts with seven ASCII
    characters; a byte of a character that is not ASCII is not a digit. *)
Definition is_sha256_digest (value : rstr) : bool :=
  (blen value =? 71)
  && match strip_prefix (lit "sha256:") value with
     | Some rest => forallb is_ascii_hexdigit rest
     | None => false
     end.

Definition evidence_for `{Sha256} (a : MemoryApproval) (content : rstr) : MemoryApprovalEvidence :=
  {| evidence_confirmation_id := a.(confirmation_id); evidence_actor := a.(approval_actor);
     evidence_confirmed_at := a.(confirmed_at); approved_revision := a.(expected_revision);
     evidence_digest := content_digest content |}.

Definition matches_content `{Sha256} (e : MemoryApprovalEvidence) (content : rstr) : bool :=
  bool_decide (e.(evidence_digest) = content_digest content).

Definition from_stored (confirmation_id actor : rstr) (confirmed_at : UnixTimestampMillis)
    (approved_revision : Z) (digest : rstr) : rresult MemoryApprovalEvidence :=
  let? approval := MemoryApproval_new confirmation_id actor confirmed_at approved_revision in
  let? digest := bounded_text digest MAX_DIGEST_BYTES
      (lit "memory approval content digest must not be empty")
      (lit "memory approval content digest exceeds 256 bytes") in
  if negb (is_sha256_digest digest) then Err (memory_error (lit "memory approval content digest is invalid"))
  else Ok {| evidence_confirmation_id := approval.(MemoryProtocol.confirmation_id);
             evidence_actor := approval.(approval_actor); evidence_confirmed_at := confirmed_at;
             MemoryProtocol.approved_revision := approved_revision; evidence_digest := digest |}.

(** ** Retention *)

Inductive MemoryRetention : Type :=
| Retention_Working (expires_at : UnixTimestampMillis)
| Retention_Session (session_id : SessionId)
| Retention_Until (expires_at : UnixTimestampMillis)
| Retention_UntilDeleted.

Definition MemoryRetention_as_str (r : MemoryRetention) : rstr :=
  match r with
  | Retention_Working _ => lit "working"
  | Retention_Session _ => lit "session"
  | Retention_Until _ => lit "until"
  | Retention_UntilDeleted => lit "until_deleted"
  end.

Definition retention_expires_at (r : MemoryRetention) : option UnixTimestampMillis :=
  match r with
  | Retention_Working e | Retention_Until e => Some e
  | Retention_Session _ | Retention_UntilDeleted => None
  end.

Definition retention_session_id (r : MemoryRetention) : option SessionId :=
  match r with Retention_Session s => Some s | _ => None end.

(** [i64::checked_sub]. *)
Definition checked_sub_i64 (a b : Z) : option Z :=
  if (i64_min <=? a - b) && (a - b <=? i64_max) then Some (a - b) else None.

Definition validate_retention (kind : MemoryKind) (created_at : UnixTimestampMillis)
    (retention : MemoryRetention) : rresult unit :=
  match kind, retention with
  | Working, Retention_Working expires_at =>
      let? duration := ok_or (checked_sub_i64 expires_at.(millis) created_at.(millis))
          (memory_error (lit "working memory expiry precedes creation")) in
      if duration <=? 0 then Err (memory_error (lit "working memory expiry must follow creation"))
      else if MAX_WORKING_RETENTION_MILLIS <? duration then
        Err (memory_error (lit "working memory retention exceeds 24 hours"))
      else Ok tt
  | Working, _ => Err (memory_error (lit "working memory requires working retention"))
  | _, Retention_Working _ => Err (memory_error (lit "working retention requires working memory"))
  | _, Retention_Until expires_at =>
      if expires_at.(millis) <=? created_at.(millis)
      then Err (memory_error (lit "memory expiry must follow creation")) else Ok tt
  | _, _ => Ok tt
  end.

(** ** Drafts, patches and records *)

Record MemoryDraft : Type := {
  draft_kind : MemoryKind;
  draft_content : rstr;
  draft_provenance : MemoryProvenance;
  draft_confidence : MemoryConfidence;
  draft_created_at : UnixTimestampMillis;
  draft_retention : MemoryRetention;
  draft_subject : PersonId;
}.

Definition MemoryDraft_new (kind : MemoryKind) (content : rstr) (provenance : MemoryProvenance)
    (confidence : MemoryConfidence) (created_at : UnixTimestampMillis) (retention : MemoryRetention)
  : rresult MemoryDraft :=
  let? content := validate_content content in
  let? _ := validate_retention kind created_at retention in
  Ok {| draft_kind := kind; draft_content := content; draft_provenance := provenance;
        draft_confidence := confidence; draft_created_at := created_at; draft_retention := retention;
        draft_subject := PersonId_OWNER |}.

Definition draft_with_subject (d : MemoryDraft) (subject : PersonId) : MemoryDraft :=
  {| draft_kind := d.(draft_kind); draft_content := d.(draft_content); draft_provenance := d.(draft_provenance);
     draft_confidence := d.(draft_confidence); draft_created_at := d.(draft_created_at);
     draft_retention := d.(draft_retention); draft_subject := subject |}.

Definition initial_state (d : MemoryDraft) : MemoryState :=
  if requires_approval d.(draft_kind) then State_Candidate else State_Active.

Record MemoryPatch : Type := {
  patch_expected_revision : Z;
  patch_content : option rstr;
  patch_confidence : option MemoryConfidence;
  patch_retention : option MemoryRetention;
  edited_at : UnixTimestampMillis;
  patch_provenance : MemoryProvenance;
}.

Definition MemoryPatch_new (expected_revision : Z) (content : option rstr) (confidence : option MemoryConfidence)
    (retention : option MemoryRetention) (edited_at : UnixTimestampMillis) (provenance : MemoryProvenance)
  : rresult MemoryPatch :=
  let? _ := validate_revision expected_revision in
  if is_none content && is_none confidence && is_none retention then
    Err (memory_error (lit "memory patch must change at least one field"))
  else
    let? content := transpose_map validate_content content in
    if negb (bool_decide (provenance.(provenance_kind) = UserEdited)) then
      Err (memory_error (lit "memory patch provenance must be user edited"))
    else
      Ok {| patch_expected_revision := expected_revision; patch_content := content; patch_confidence := confidence;
            patch_retention := retention; MemoryProtocol.edited_at := edited_at; patch_provenance := provenance |}.

Record MemoryRecord : Type := {
  record_id : MemoryId;
  record_draft : MemoryDraft;
  record_state : MemoryState;
  updated_at : UnixTimestampMillis;
  pinned : bool;
  revision : Z;
  approval : option MemoryApprovalEvidence;
  last_used_at : option UnixTimestampMillis;
  last_retrieval_reason : option MemoryRetrievalReason;
}.

Definition MemoryRecord_new `{Sha256} (id : MemoryId) (draft : MemoryDraft) (state : MemoryState)
    (updated_at : UnixTimestampMillis) (pinned : bool) (revision : Z) (approval : option MemoryApprovalEvidence)
    (last_used_at : option UnixTimestampMillis) (last_retrieval_reason : option MemoryRetrievalReason)
  : rresult MemoryRecord :=
  let? _ := validate_revision revision in
  if updated_at.(millis) <? draft.(draft_created_at).(millis) then
    Err (memory_error (lit "memory update precedes creation"))
  else if is_some_and last_used_at (fun t => t.(millis) <? draft.(draft_created_at).(millis)) then
    Err (memory_error (lit "memory last use precedes creation"))
  else if pinned && bool_decide (draft.(draft_kind) = Working) then
    Err (memory_error (lit "working memory cannot be pinned"))
  else if is_some_and approval (fun e =>
            negb (bool_decide (e.(evidence_digest) = content_digest draft.(draft_content)))
            || (updated_at.(millis) <? e.(evidence_confirmed_at).(millis))
            || (revision <=? e.(approved_revision))) then
    Err (memory_error (lit "memory approval evidence is invalid"))
  else if requires_approval draft.(draft_kind) && bool_decide (state = State_Active) && is_none approval then
    Err (memory_error (lit "active identity or relationship memory requires approval evidence"))
  else
    Ok {| record_id := id; record_draft := draft; record_state := state; MemoryProtocol.updated_at := updated_at;
          MemoryProtocol.pinned := pinned; MemoryProtocol.revision := revision;
          MemoryProtocol.approval := approval; MemoryProtocol.last_used_at := last_used_at;
          MemoryProtocol.last_retrieval_reason := last_retrieval_reason |}.

Definition record_kind (r : MemoryRecord) : MemoryKind := r.(record_draft).(draft_kind).
Definition record_content (r : MemoryRecord) : rstr := r.(record_draft).(draft_content).
Definition record_created_at (r : MemoryRecord) : UnixTimestampMillis := r.(record_draft).(draft_created_at).
Definition record_retention (r : MemoryRecord) : MemoryRetention := r.(record_draft).(draft_retention).
Definition record_confidence (r : MemoryRecord) : MemoryConfidence := r.(record_draft).(draft_confidence).

(** ** Retrieval requests, items and traces *)

Record MemoryRetrievalRequest : Type := {
  request_turn_id : TurnId;
  query : rstr;
  now : UnixTimestampMillis;
  maximum_items : Z;
  maximum_bytes : Z;
  request_subject : option PersonId;
}.

Definition MemoryRetrievalRequest_new (turn_id : TurnId) (query : rstr) (now : UnixTimestampMillis)
    (maximum_items maximum_bytes : Z) : rresult MemoryRetrievalRequest :=
  let? query := bounded_text query MAX_MEMORY_QUERY_BYTES
      (lit "memory retrieval query must not be empty") (lit "memory retrieval query exceeds 16 KiB") in
  if negb ((1 <=? maximum_items) && (maximum_items <=? MAX_MEMORY_RETRIEVAL_ITEMS)) then
    Err (memory_error (lit "memory retrieval item limit must be 1 through 8"))
  else if negb ((1 <=? maximum_bytes) && (maximum_bytes <=? MAX_MEMORY_RETRIEVAL_BYTES)) then
    Err (memory_error (lit "memory retrieval byte limit must be 1 through 8192"))
  else
    Ok {| request_turn_id := turn_id; MemoryProtocol.query := query; MemoryProtocol.now := now;
          MemoryProtocol.maximum_items := maximum_items; MemoryProtocol.maximum_bytes := maximum_bytes;
          request_subject := None |}.

Record MemoryContextItem : Type := {
  item_memory_id : MemoryId;
  item_kind : MemoryKind;
  item_content : rstr;
  item_reason : MemoryRetrievalReason;
}.

Definition MemoryContextItem_new (memory_id : MemoryId) (kind : MemoryKind) (content : rstr)
    (reason : MemoryRetrievalReason) : rresult MemoryContextItem :=
  let? content := validate_content content in
  Ok {| item_memory_id := memory_id; item_kind := kind; item_content := content; item_reason := reason |}.

Record MemoryTraceItem : Type := {
  ordinal : Z;
  trace_memory_id : MemoryId;
  trace_kind : MemoryKind;
  trace_reason : MemoryRetrievalReason;
  content_bytes : Z;
}.

Definition MemoryTraceItem_new (ordinal : Z) (memory_id : MemoryId) (kind : MemoryKind)
    (reason : MemoryRetrievalReason) (content_bytes : Z) : rresult MemoryTraceItem :=
  if MAX_MEMORY_RETRIEVAL_ITEMS <=? ordinal then
    Err (memory_error (lit "memory trace ordinal exceeds item limit"))
  else if negb ((1 <=? content_bytes) && (content_bytes <=? MAX_MEMORY_CONTENT_BYTES)) then
    Err (memory_error (lit "memory trace content byte count is invalid"))
  else
    Ok {| MemoryProtocol.ordinal := ordinal; trace_memory_id := memory_id; trace_kind := kind;
          trace_reason := reason; MemoryProtocol.content_bytes := content_bytes |}.

Record MemoryTraceExclusions : Type := MemoryTraceExclusions_new {
  by_state : Z;
  by_expiry : Z;
  by_relevance : Z;
  by_item_limit : Z;
  by_byte_limit : Z;
}.

Record MemoryRetrievalTrace : Type := {
  trace_id : RetrievalTraceId;
  trace_turn_id : TurnId;
  trace_created_at : UnixTimestampMillis;
  trace_items : list MemoryTraceItem;
  exclusions : MemoryTraceExclusions;
}.

(** The loop over the items: ordinals contiguous, no memory twice. *)
Fixpoint check_trace_items (prior : list MemoryTraceItem) (items : list MemoryTraceItem) : rresult unit :=
  match items with
  | [] => Ok tt
  | item :: rest =>
      if negb (item.(ordinal) =? zlen prior) then
        Err (memory_error (lit "memory trace item order is not contiguous"))
      else if existsb (fun p => bool_decide (p.(trace_memory_id) = item.(trace_memory_id))) prior then
        Err (memory_error (lit "memory trace contains a duplicate memory"))
      else check_trace_items (prior ++ [item]) rest
  end.

(** [try_fold(0, |total, x| total.checked_add(x))]. *)
Fixpoint checked_sum (total : Z) (xs : list Z) : option Z :=
  match xs with
  | [] => Some total
  | x :: xs => match checked_add total x with Some t => checked_sum t xs | None => None end
  end.

Definition MemoryRetrievalTrace_new (trace_id : RetrievalTraceId) (turn_id : TurnId)
    (created_at : UnixTimestampMillis) (items : list MemoryTraceItem) (exclusions : MemoryTraceExclusions)
  : rresult MemoryRetrievalTrace :=
  if MAX_MEMORY_RETRIEVAL_ITEMS <? zlen items then
    Err (memory_error (lit "memory trace item count exceeds 8"))
  else
    let? _ := check_trace_items [] items in
    match checked_sum 0 (map content_bytes items) with
    | None => Err (memory_error (lit "memory trace byte count overflowed"))
    | Some used_bytes =>
        if MAX_MEMORY_RETRIEVAL_BYTES <? used_bytes then
          Err (memory_error (lit "memory trace byte count exceeds 8192"))
        else Ok {| MemoryProtocol.trace_id := trace_id; trace_turn_id := turn_id; trace_created_at := created_at;
                   trace_items := items; MemoryProtocol.exclusions := exclusions |}
    end.

Definition selected_items (t : MemoryRetrievalTrace) : Z := zlen t.(trace_items).
Definition used_bytes (t : MemoryRetrievalTrace) : Z := foldr Z.add 0 (map content_bytes t.(trace_items)).

Record MemoryInspection : Type := {
  inspected : MemoryRecord;
  sources : list MemoryProvenance;
  approvals : list MemoryApprovalEvidence;
}.

#[export] Instance MemoryProvenance_eq_dec : EqDecision MemoryProvenance.
Proof. solve_decision. Defined.
#[export] Instance MemoryApprovalEvidence_eq_dec : EqDecision MemoryApprovalEvidence.
Proof. solve_decision. Defined.

Definition MemoryInspection_new (record : MemoryRecord) (sources : list MemoryProvenance)
    (approvals : list MemoryApprovalEvidence) : rresult MemoryInspection :=
  if is_empty sources then Err (memory_error (lit "memory inspection requires provenance"))
  else if negb (bool_decide (last sources = Some record.(record_draft).(draft_provenance))) then
    Err (memory_error (lit "memory inspection latest provenance does not match record"))
  else if is_some_and record.(approval) (fun a => negb (bool_decide (last approvals = Some a))) then
    Err (memory_error (lit "memory inspection current approval does not match approval history"))
  else Ok {| inspected := record; MemoryProtocol.sources := sources; MemoryProtocol.approvals := approvals |}.
