(* ===== verification/MemoryRetrieval.v ===== *)
(** * Controlled memory: choosing what a turn may see

    [crates/memory/src/retrieval.rs]: the records of the store are filtered,
    ranked and cut to the limits of the request; and the part of
    [SqliteMemoryStore::retrieve] ([crates/memory/src/sqlite.rs]) that turns a
    selection into context items and a trace. The scanned
    records and the identifier of the trace are arguments; [MemoryStore] has the
    transaction that reads the ones and makes the other.

    A cancellation token is a function of the number of times it was asked,
    since another thread may cancel it at any moment. *)

From Stdlib Require Import Sorting.Sorted.
From S2P Require Import Prelude RustStr Errors MemoryProtocol.

(** [memory::error]. *)
Inductive MemoryStoreErrorKind : Type :=
| InvalidPath
| NotInitialized
| UnsupportedSchema
| InvalidDatabase
| NotFound
| Conflict
| Busy
| Cancelled
| LimitExceeded
| Storage
| KeyUnavailable
| KeyMismatch.

Record MemoryStoreError : Type := MemoryStoreError_new {
  store_error_kind : MemoryStoreErrorKind;
  store_error_message : rstr;
}.

Definition cancelled : MemoryStoreError := MemoryStoreError_new Cancelled (lit "memory retrieval was cancelled").

(** [invalid_database_error] of the store. *)
Definition invalid_database_error : MemoryStoreError :=
  MemoryStoreError_new InvalidDatabase (lit "memory database identity or schema is invalid").

Abbreviation mresult A := (result A MemoryStoreError) (only parsing).

Record MemoryRetrieval : Type := MemoryRetrieval_new {
  retrieved_items : list MemoryContextItem;
  retrieved_trace : MemoryRetrievalTrace;
}.

Record RankedMemory : Type := { ranked_record : MemoryRecord; ranked_reason : MemoryRetrievalReason }.

Record RankedSelection : Type := { selected : list RankedMemory; selection_exclusions : MemoryTraceExclusions }.

(** ** Standard library *)

(** [slice::sort_by], which is stable. *)
Fixpoint insert_by {A} (cmp : A -> A -> comparison) (x : A) (l : list A) : list A :=
  match l with
  | [] => [x]
  | y :: l' => match cmp x y with Gt => y :: insert_by cmp x l' | _ => x :: l end
  end.
Fixpoint sort_by {A} (cmp : A -> A -> comparison) (l : list A) : list A :=
  match l with [] => [] | x :: l => insert_by cmp x (sort_by cmp l) end.

(** [Vec::dedup]. *)
Fixpoint dedup {A} `{EqDecision A} (l : list A) : list A :=
  match l with
  | x :: ((y :: _) as l') => if bool_decide (x = y) then dedup l' else x :: dedup l'
  | _ => l
  end.

(** [Ord] of strings: by bytes, which is by characters in UTF-8. *)
Fixpoint str_cmp (s t : rstr) : comparison :=
  match s, t with
  | [], [] => Eq
  | [], _ => Lt
  | _, [] => Gt
  | c :: s, d :: t => match c ?= d with Eq => str_cmp s t | o => o end
  end.

(** [Ordering::then_with]. *)
Definition then_with (a b : comparison) : comparison := match a with Eq => b | _ => a end.

(** ** Search units *)

Section Retrieval.
Context `{U : UnicodeTables}.

Definition normalize (value : rstr) : rstr := to_lowercase (trim value).

Definition is_ascii (s : rstr) : bool := forallb (fun c => c <? 128) s.

(** [windows(2)]. *)
Fixpoint windows2 (l : rstr) : list rstr :=
  match l with
  | a :: ((b :: _) as l') => [a; b] :: windows2 l'
  | _ => []
  end.

(** The units of a run of letters and digits: the run itself when ASCII, its
    only character, or every pair of neighbours. *)
Definition run_units (run : rstr) : list rstr :=
  if is_ascii run then [run]
  else match run with [c] => [[c]] | _ => windows2 run end.

Fixpoint units_of (run : rstr) (chars : rstr) : list rstr :=
  match chars with
  | [] => []
  | c :: chars =>
      if is_alphanumeric c then units_of (run ++ [c]) chars
      else if is_empty run then units_of run chars
      else run_units run ++ units_of [] chars
  end.

Definition search_units (value : rstr) : list rstr :=
  dedup (sort_by str_cmp (units_of [] (value ++ [chr " "]))).

(** ** Ranking *)

Definition reason_priority (r : MemoryRetrievalReason) : Z :=
  match r with PinnedMatch => 4 | ExactPhrase => 3 | SharedTerm => 2 | RecentWorking => 1 end.

Definition check_cancellation (cancellation : nat -> bool) (poll : nat) : mresult unit :=
  if cancellation poll then Err cancelled else Ok tt.

Definition from_the_future (record : MemoryRecord) (now : UnixTimestampMillis) : bool :=
  (now.(millis) <? (record_created_at record).(millis))
  || (now.(millis) <? record.(updated_at).(millis))
  || is_some_and record.(last_used_at) (fun t => now.(millis) <? t.(millis)).

Definition expired (record : MemoryRecord) (now : UnixTimestampMillis) : bool :=
  bool_decide (record.(record_state) = State_Expired)
  || is_some_and (retention_expires_at (record_retention record)) (fun e => e.(millis) <=? now.(millis)).

Definition reason_for (record : MemoryRecord) (normalized_query : rstr) (query_units : list rstr)
  : option MemoryRetrievalReason :=
  let normalized_content := normalize (record_content record) in
  let exact := contains normalized_query normalized_content || contains normalized_content normalized_query in
  let shared :=
    if exact then false
    else let content_units := search_units normalized_content in
         existsb (fun unit => bool_decide (unit ∈ content_units)) query_units in
  if record.(pinned) && (exact || shared) then Some PinnedMatch
  else if exact then Some ExactPhrase
  else if shared then Some SharedTerm
  else if bool_decide (record_kind record = Working) then Some RecentWorking
  else None.

(** What becomes of a record before the limits. *)
Inductive verdict : Type :=
| Excluded_state
| Excluded_expiry
| Excluded_relevance
| Eligible (reason : MemoryRetrievalReason).

Definition judge (normalized_query : rstr) (query_units : list rstr) (now : UnixTimestampMillis)
    (record : MemoryRecord) : verdict :=
  if from_the_future record now then Excluded_state
  else if expired record now then Excluded_expiry
  else if negb (bool_decide (record.(record_state) = State_Active)) then Excluded_state
  else match reason_for record normalized_query query_units with
       | None => Excluded_relevance
       | Some reason => Eligible reason
       end.

Record ranking : Type := { ranked : list RankedMemory; n_state : Z; n_expiry : Z; n_relevance : Z }.

Fixpoint rank_loop (cancellation : nat -> bool) (poll : nat) (judge : MemoryRecord -> verdict)
    (records : list MemoryRecord) (acc : ranking) : mresult ranking :=
  match records with
  | [] => Ok acc
  | record :: records =>
      let? _ := check_cancellation cancellation poll in
      rank_loop cancellation (S poll) judge records
        match judge record with
        | Excluded_state => {| ranked := acc.(ranked); n_state := acc.(n_state) + 1;
                               n_expiry := acc.(n_expiry); n_relevance := acc.(n_relevance) |}
        | Excluded_expiry => {| ranked := acc.(ranked); n_state := acc.(n_state);
                                n_expiry := acc.(n_expiry) + 1; n_relevance := acc.(n_relevance) |}
        | Excluded_relevance => {| ranked := acc.(ranked); n_state := acc.(n_state);
                                   n_expiry := acc.(n_expiry); n_relevance := acc.(n_relevance) + 1 |}
        | Eligible reason =>
            {| ranked := acc.(ranked) ++ [{| ranked_record := record; ranked_reason := reason |}];
               n_state := acc.(n_state); n_expiry := acc.(n_expiry); n_relevance := acc.(n_relevance) |}
        end
  end.

(** [last_used_at().unwrap_or(created_at())]. *)
Definition last_touch (r : MemoryRecord) : Z :=
  (default (record_created_at r) r.(last_used_at)).(millis).

Definition rank_cmp (left right : RankedMemory) : comparison :=
  let l := left.(ranked_record) in let r := right.(ranked_record) in
  then_with (reason_priority right.(ranked_reason) ?= reason_priority left.(ranked_reason))
    (then_with ((record_confidence r).(confidence_get) ?= (record_confidence l).(confidence_get))
      (then_with (last_touch r ?= last_touch l)
        (l.(record_id).(MemoryId_get) ?= r.(record_id).(MemoryId_get)))).

(** ** The limits *)

Record cut : Type := { kept_items : list RankedMemory; kept_bytes : Z; n_items : Z; n_bytes : Z }.

Fixpoint cut_loop (cancellation : nat -> bool) (poll : nat) (maximum_items maximum_bytes : Z)
    (items : list RankedMemory) (acc : cut) : mresult cut :=
  match items with
  | [] => Ok acc
  | item :: items =>
      let? _ := check_cancellation cancellation poll in
      cut_loop cancellation (S poll) maximum_items maximum_bytes items
        (if zlen acc.(kept_items) =? maximum_items then
           {| kept_items := acc.(kept_items); kept_bytes := acc.(kept_bytes);
              n_items := acc.(n_items) + 1; n_bytes := acc.(n_bytes) |}
         else match checked_add acc.(kept_bytes) (blen (record_content item.(ranked_record))) with
              | None => {| kept_items := acc.(kept_items); kept_bytes := acc.(kept_bytes);
                           n_items := acc.(n_items); n_bytes := acc.(n_bytes) + 1 |}
              | Some next_bytes =>
                  if maximum_bytes <? next_bytes then
                    {| kept_items := acc.(kept_items); kept_bytes := acc.(kept_bytes);
                       n_items := acc.(n_items); n_bytes := acc.(n_bytes) + 1 |}
                  else
                    {| kept_items := acc.(kept_items) ++ [item]; kept_bytes := next_bytes;
                       n_items := acc.(n_items); n_bytes := acc.(n_bytes) |}
              end)
  end.

Definition select_records (records : list MemoryRecord) (query : rstr) (now : UnixTimestampMillis)
    (maximum_items maximum_bytes : Z) (cancellation : nat -> bool) : mresult RankedSelection :=
  let? _ := check_cancellation cancellation 0 in
  let normalized_query := normalize query in
  let query_units := search_units normalized_query in
  let? r := rank_loop cancellation 1 (judge normalized_query query_units now) records
      {| ranked := []; n_state := 0; n_expiry := 0; n_relevance := 0 |} in
  let? c := cut_loop cancellation (S (length records)) maximum_items maximum_bytes (sort_by rank_cmp r.(ranked))
      {| kept_items := []; kept_bytes := 0; n_items := 0; n_bytes := 0 |} in
  Ok {| selected := c.(kept_items);
        selection_exclusions :=
          MemoryTraceExclusions_new r.(n_state) r.(n_expiry) r.(n_relevance) c.(n_items) c.(n_bytes) |}.

(** ** From a selection to what the turn gets *)

Definition map_db {A} (r : rresult A) : mresult A :=
  match r with Ok a => Ok a | Err _ => Err invalid_database_error end.

(** The writes of the loop to the database are left out. *)
Fixpoint build_items (cancellation : nat -> bool) (poll : nat) (ordinal : Z) (selected : list RankedMemory)
  : mresult (list MemoryContextItem * list MemoryTraceItem) :=
  match selected with
  | [] => Ok ([], [])
  | s :: rest =>
      let? _ := check_cancellation cancellation poll in
      let r := s.(ranked_record) in
      let? item := map_db (MemoryContextItem_new r.(record_id) (record_kind r) (record_content r) s.(ranked_reason)) in
      let? traced := map_db (MemoryTraceItem_new ordinal r.(record_id) (record_kind r) s.(ranked_reason)
                               (blen (record_content r))) in
      let? '(items, traces) := build_items cancellation (S poll) (ordinal + 1) rest in
      Ok (item :: items, traced :: traces)
  end.

(** [cancellation] counts its polls from the end of the selection. *)
Definition build_retrieval (cancellation : nat -> bool) (trace_id : RetrievalTraceId)
    (request : MemoryRetrievalRequest) (selection : RankedSelection) : mresult MemoryRetrieval :=
  let? _ := check_cancellation cancellation 0 in
  let? '(items, traces) := build_items cancellation 1 0 selection.(selected) in
  let? _ := check_cancellation cancellation (S (length selection.(selected))) in
  let? trace := map_db (MemoryRetrievalTrace_new trace_id request.(request_turn_id) request.(now) traces
                          selection.(selection_exclusions)) in
  Ok (MemoryRetrieval_new items trace).
End Retrieval.

(** ** Sorting *)

Section Sorting.
Context {A : Type} (cmp : A -> A -> comparison).

Definition cmp_le (x y : A) : Prop := cmp x y <> Gt.

Lemma insert_by_Permutation x l : insert_by cmp x l ≡ₚ x :: l.
Proof. induction l as [|y l IH]; cbn; [done|]. destruct (cmp x y); [done..|]. rewrite IH. by constructor. Qed.

Lemma sort_by_Permutation l : sort_by cmp l ≡ₚ l.
Proof. induction l as [|x l IH]; cbn; [done|]. by rewrite insert_by_Permutation, IH. Qed.

Context (total : forall x y, cmp x y = Gt -> cmp_le y x) (trans : forall x y z, cmp_le x y -> cmp_le y z -> cmp_le x z).

Lemma insert_by_sorted x l : StronglySorted cmp_le l -> StronglySorted cmp_le (insert_by cmp x l).
Proof using total trans.
  induction 1 as [|y l Hs IH Hy]; cbn; [by repeat constructor|].
  destruct (cmp x y) eqn:E; try (constructor; [by constructor|]; constructor;
    [unfold cmp_le; congruence|]; eapply Forall_impl; [done|]; intros z Hz; eapply trans; [unfold cmp_le; by rewrite E|done]).
  constructor; [done|]. rewrite insert_by_Permutation. constructor; [by apply total|done].
Qed.

Lemma sort_by_sorted l : StronglySorted cmp_le (sort_by cmp l).
Proof using total trans. induction l; cbn; [constructor|]. by apply insert_by_sorted. Qed.
End Sorting.

Definition rank_le : RankedMemory -> RankedMemory -> Prop := cmp_le rank_cmp.

Lemma rank_cmp_lex l r :
  rank_le l r <->
  let key (x : RankedMemory) := (reason_priority x.(ranked_reason), confidence_get (record_confidence x.(ranked_record)),
                                 last_touch x.(ranked_record), MemoryId_get x.(ranked_record).(record_id)) in
  let '(p, c, t, i) := key l in let '(p', c', t', i') := key r in
  p' < p \/ p' = p /\ (c' < c \/ c' = c /\ (t' < t \/ t' = t /\ i <= i')).
Proof.
  unfold rank_le, cmp_le, rank_cmp, then_with. cbn.
  repeat match goal with |- context [?a ?= ?b] => destruct (Z.compare_spec a b) end; split; intros; try congruence; lia.
Qed.

Lemma rank_le_trans x y z : rank_le x y -> rank_le y z -> rank_le x z.
Proof. rewrite !rank_cmp_lex. cbn. lia. Qed.

Lemma rank_total x y : rank_cmp x y = Gt -> rank_le y x.
Proof.
  intros H. destruct (rank_cmp y x) eqn:E; try (unfold rank_le, cmp_le; congruence). exfalso.
  assert (~ rank_le x y) as Hx by (unfold rank_le, cmp_le; congruence).
  assert (~ rank_le y x) as Hy by (unfold rank_le, cmp_le; congruence). rewrite rank_cmp_lex in Hx, Hy. cbn in *. lia.
Qed.

(** ** Filtering *)

Section Selection.
Context (verdict_of : MemoryRecord -> verdict).

(** The records the filter lets through, with their reasons. *)
Definition eligible (records : list MemoryRecord) : list RankedMemory :=
  omap (fun r => match verdict_of r with
                 | Eligible reason => Some {| ranked_record := r; ranked_reason := reason |}
                 | _ => None
                 end) records.

Lemma rank_loop_Ok cancel records : forall poll acc r,
  rank_loop cancel poll verdict_of records acc = Ok r ->
  r.(ranked) = acc.(ranked) ++ eligible records /\
  zlen r.(ranked) + r.(n_state) + r.(n_expiry) + r.(n_relevance) =
    zlen acc.(ranked) + acc.(n_state) + acc.(n_expiry) + acc.(n_relevance) + zlen records.
Proof.
  induction records as [|x records IH]; intros poll acc r; cbn [rank_loop].
  { intros [= <-]. rewrite app_nil_r, zlen_nil. split; [done|lia]. }
  unfold check_cancellation. destruct (cancel poll); [done|]. cbn [result_bind]. intros H.
  apply IH in H as [Hr Hn]. rewrite zlen_cons. cbn [eligible omap list_omap].
  destruct (verdict_of x); cbn in *; rewrite Hr; (split; [by rewrite <- ?app_assoc|]);
    rewrite Hr in Hn; rewrite ?zlen_app, ?zlen_cons, ?zlen_nil in *; lia.
Qed.

Lemma rank_loop_uncancelled cancel records :
  (forall i, cancel i = false) -> forall poll acc, exists r, rank_loop cancel poll verdict_of records acc = Ok r.
Proof.
  intros Hc. induction records as [|x records IH]; intros poll acc; cbn [rank_loop]; [by eexists|].
  unfold check_cancellation. rewrite Hc. cbn [result_bind]. apply IH.
Qed.
End Selection.

(** ** The limits *)

Definition content_size (x : RankedMemory) : Z := blen (record_content x.(ranked_record)).
Definition total_size (l : list RankedMemory) : Z := foldr (fun x n => content_size x + n) 0 l.

Lemma total_size_app l k : total_size (l ++ k) = total_size l + total_size k.
Proof. induction l as [|x l IH]; cbn; [done|]. unfold total_size in *. lia. Qed.

Lemma total_size_nonneg l : 0 <= total_size l.
Proof. induction l as [|x l IH]; cbn; [done|]. pose proof (blen_nonneg (record_content (ranked_record x))). unfold total_size, content_size in *. lia. Qed.

Section Cut.
Context (maximum_items maximum_bytes : Z).

(** Whether [x] still fits after the items [l]. *)
Definition room (l : list RankedMemory) (x : RankedMemory) : bool :=
  (zlen l <? maximum_items) && (total_size l + content_size x <=? maximum_bytes).

(** The items kept of a list when [kept] were kept before. *)
Fixpoint fill (kept : list RankedMemory) (items : list RankedMemory) : list RankedMemory :=
  match items with
  | [] => kept
  | x :: items => fill (if room kept x then kept ++ [x] else kept) items
  end.

Context (items_nonneg : 0 <= maximum_items) (bytes_u64 : maximum_bytes <= u64_max).

Lemma cut_loop_Ok cancel items : forall poll acc c,
  cut_loop cancel poll maximum_items maximum_bytes items acc = Ok c ->
  acc.(kept_bytes) = total_size acc.(kept_items) -> zlen acc.(kept_items) <= maximum_items ->
  c.(kept_items) = fill acc.(kept_items) items /\
  zlen c.(kept_items) + c.(n_items) + c.(n_bytes) = zlen acc.(kept_items) + acc.(n_items) + acc.(n_bytes) + zlen items.
Proof using bytes_u64.
  induction items as [|x items IH]; intros poll acc c; cbn [cut_loop fill].
  { intros [= <-] _ _. rewrite zlen_nil. split; [done|lia]. }
  unfold check_cancellation. destruct (cancel poll); [done|]. cbn [result_bind]. intros H Hb Hl.
  pose proof (total_size_nonneg (kept_items acc)) as Ht.
  fold (content_size x) in H. unfold room. destruct (zlen (kept_items acc) =? maximum_items) eqn:E; breflect.
  - apply IH in H as [-> Hn]; [|done..]. cbn in *. rewrite zlen_cons. rewrite (proj2 (Z.ltb_ge _ _)) by lia. split; [done|lia].
  - rewrite (proj2 (Z.ltb_lt _ _)) by lia. cbn [andb]. rewrite Hb in H.
    destruct (checked_add _ _) as [n|] eqn:C; [apply checked_add_Some in C as [-> C]|unfold checked_add in C].
    + destruct (maximum_bytes <? _) eqn:M; breflect.
      * apply IH in H as [-> Hn]; [|done..]. cbn [kept_items n_items n_bytes] in *. rewrite zlen_cons.
        rewrite (proj2 (Z.leb_gt _ _)) by lia. split; [done|lia].
      * apply IH in H as [-> Hn]; cbn [kept_items kept_bytes n_items n_bytes] in *.
        -- rewrite zlen_app, !zlen_cons, zlen_nil in *. rewrite (proj2 (Z.leb_le _ _)) by lia. split; [done|lia].
        -- rewrite total_size_app. unfold total_size. cbn [foldr]. lia.
        -- rewrite zlen_app, zlen_cons, zlen_nil. lia.
    + destruct (_ <=? u64_max) eqn:O in C; [done|]. breflect. apply IH in H as [-> Hn]; [|done..]. cbn in *.
      rewrite zlen_cons. rewrite (proj2 (Z.leb_gt _ _)) by lia. split; [done|lia].
Qed.

Lemma cut_loop_uncancelled cancel items :
  (forall i, cancel i = false) -> forall poll acc, exists c, cut_loop cancel poll maximum_items maximum_bytes items acc = Ok c.
Proof.
  intros Hc. induction items as [|x items IH]; intros poll acc; cbn [cut_loop]; [by eexists|].
  unfold check_cancellation. rewrite Hc. cbn [result_bind]. apply IH.
Qed.

Lemma fill_app items : forall kept more, fill kept (items ++ more) = fill (fill kept items) more.
Proof. induction items; intros; cbn; auto. Qed.

Lemma fill_sublist items : forall kept, exists l, fill kept items = kept ++ l /\ l `sublist_of` items.
Proof.
  induction items as [|x items IH]; intros kept; cbn [fill]; [exists []; by rewrite app_nil_r|].
  destruct (room kept x).
  - destruct (IH (kept ++ [x])) as (l & -> & Hl). exists (x :: l). rewrite <- app_assoc. split; [done|by apply sublist_skip].
  - destruct (IH kept) as (l & -> & Hl). exists l. split; [done|by apply sublist_cons].
Qed.

Lemma fill_bounds items : forall kept,
  zlen kept <= maximum_items -> total_size kept <= maximum_bytes ->
  zlen (fill kept items) <= maximum_items /\ total_size (fill kept items) <= maximum_bytes.
Proof.
  induction items as [|x items IH]; intros kept Hl Hb; cbn [fill]; [done|]. apply IH.
  - destruct (room kept x) eqn:R; [|done]. unfold room in R. breflect. rewrite zlen_app, zlen_cons, zlen_nil. lia.
  - destruct (room kept x) eqn:R; [|done]. unfold room in R. breflect. rewrite total_size_app. cbn. unfold total_size, content_size in *. lia.
Qed.
End Cut.

Lemma select_records_Ok `{UnicodeTables} records query now mi mb cancel sel :
  0 <= mi -> 0 <= mb <= u64_max -> select_records records query now mi mb cancel = Ok sel ->
  let judged := judge (normalize query) (search_units (normalize query)) now in
  let ranking := sort_by rank_cmp (eligible judged records) in
  sel.(selected) = fill mi mb [] ranking /\
  let e := sel.(selection_exclusions) in
  zlen records = zlen sel.(selected) + e.(by_state) + e.(by_expiry) + e.(by_relevance) + e.(by_item_limit) + e.(by_byte_limit).
Proof.
  intros Hi Hb. unfold select_records, check_cancellation. destruct (cancel 0%nat); [done|]. cbn [result_bind].
  set (judged := judge _ _ now). destruct (rank_loop _ _ _ _ _) as [r|] eqn:R; [|done]. cbn [result_bind].
  apply rank_loop_Ok in R as [Hr Hn]. cbn in Hr, Hn. rewrite Hr in *.
  destruct (cut_loop _ _ _ _ _ _) as [c|] eqn:C; [|done]. intros [= <-]. cbn.
  apply cut_loop_Ok in C as [Hk Hc]; [|lia|done|done]. cbn in Hk, Hc. split; [done|].
  assert (zlen (sort_by rank_cmp (eligible judged records)) = zlen (eligible judged records))
    by (unfold zlen; by rewrite sort_by_Permutation). change (zlen []) with 0 in *. lia.
Qed.

Lemma eligible_spec judged records x :
  x ∈ eligible judged records <-> x.(ranked_record) ∈ records /\ judged x.(ranked_record) = Eligible x.(ranked_reason).
Proof.
  unfold eligible. rewrite list_elem_of_omap. split.
  - intros (r & Hr & E). destruct (judged r) eqn:J; [done..|]. simplify_eq. cbn. by rewrite J.
  - intros [Hr E]. exists (ranked_record x). rewrite E. by destruct x.
Qed.

(** What it takes for a record to be shown to a turn. *)
Definition presentable `{UnicodeTables} (query : rstr) (now : UnixTimestampMillis) (x : RankedMemory) : Prop :=
  x.(ranked_record).(record_state) = State_Active /\
  expired x.(ranked_record) now = false /\ from_the_future x.(ranked_record) now = false /\
  reason_for x.(ranked_record) (normalize query) (search_units (normalize query)) = Some x.(ranked_reason).

Lemma judge_presentable `{UnicodeTables} query now x :
  judge (normalize query) (search_units (normalize query)) now x.(ranked_record) = Eligible x.(ranked_reason)
  <-> presentable query now x.
Proof.
  unfold judge, presentable. destruct (from_the_future _ _), (expired _ _); try naive_solver.
  case_bool_decide; cbn [negb]; [|naive_solver]. destruct (reason_for _ _ _); naive_solver.
Qed.

(** A retrieval shows a turn exactly what it may: the presentable records
    (active, neither expired nor from the future, relevant for the stated
    reason), best rank first, each kept if and only if it fits after the better
    ones that were kept. The selection respects both limits, and every scanned
    record is either selected or counted in exactly one exclusion. *)
Theorem retrieval_selection_sound (U : UnicodeTables) records query now mi mb cancel sel
  (items : 0 <= mi) (bytes : 0 <= mb <= u64_max)
  (selection : select_records records query now mi mb cancel = Ok sel) :
  (exists ranking, StronglySorted rank_le ranking /\
     (forall x, x ∈ ranking <-> x.(ranked_record) ∈ records /\ presentable query now x) /\
     sel.(selected) `sublist_of` ranking /\
     (forall better x worse, ranking = better ++ x :: worse ->
        exists before after, sel.(selected) = before ++ (if room mi mb before x then [x] else []) ++ after /\
          before `sublist_of` better /\ after `sublist_of` worse)) /\
  zlen sel.(selected) <= mi /\ total_size sel.(selected) <= mb /\
  let e := sel.(selection_exclusions) in
  zlen records = zlen sel.(selected) + e.(by_state) + e.(by_expiry) + e.(by_relevance) + e.(by_item_limit) + e.(by_byte_limit).
Proof.
  apply select_records_Ok in selection as [Hs Hn]; [|done..]. rewrite Hs in *.
  set (judged := judge _ _ now) in *.
  destruct (fill_bounds mi mb (sort_by rank_cmp (eligible judged records)) []) as [Hl Ht]; [done|cbn; lia|].
  split; [|done]. exists (sort_by rank_cmp (eligible judged records)).
  split; [apply sort_by_sorted; [apply rank_total|apply rank_le_trans]|]. split.
  { intros x. rewrite sort_by_Permutation, eligible_spec. by rewrite <- judge_presentable. }
  split; [by destruct (fill_sublist mi mb (sort_by rank_cmp (eligible judged records)) []) as (l & -> & Hsub)|].
  intros better x worse ->. rewrite fill_app. cbn [fill].
  destruct (fill_sublist mi mb better []) as (before & Hb & Hsb). cbn [app] in Hb. rewrite Hb.
  destruct (fill_sublist mi mb worse (if room mi mb before x then before ++ [x] else before)) as (after & -> & Hsa).
  exists before, after. split; [|done]. destruct (room mi mb before x); by rewrite <- ?app_assoc.
Qed.

Definition sample_memory (id : Z) (kind : MemoryKind) (content : rstr) (pin : bool) : MemoryRecord :=
  let t := UnixTimestampMillis_raw 5 in
  {| record_id := MemoryId_raw id;
     record_draft :=
       {| draft_kind := kind; draft_content := content;
          draft_provenance := {| provenance_kind := UserProvided; source_id := lit "note"; source_timestamp := t;
                                 provenance_actor := lit "owner"; provenance_digest := None |};
          draft_confidence := MemoryConfidence_raw 500; draft_created_at := t;
          draft_retention := Retention_UntilDeleted; draft_subject := PersonId_OWNER |};
     record_state := State_Active; updated_at := t; pinned := pin; revision := 1; approval := None;
     last_used_at := None; last_retrieval_reason := None |}.

(** Three notes, of which two are relevant and one fits. *)
Definition sample_records : list MemoryRecord :=
  [sample_memory 1 Semantic (lit "likes green tea") false; sample_memory 2 Semantic (lit "plays chess") false;
   sample_memory 3 Semantic (lit "tea at five") true].

Definition sample_selection : RankedSelection :=
  {| selected := [{| ranked_record := sample_memory 3 Semantic (lit "tea at five") true; ranked_reason := PinnedMatch |}];
     selection_exclusions := MemoryTraceExclusions_new 0 0 1 0 1 |}.

Lemma retrieval_selection_sound_witness :
  select_records (U := ascii_tables) sample_records (lit "Tea?") (UnixTimestampMillis_raw 9) 4 20 (fun _ => false) = Ok sample_selection /\
  zlen sample_selection.(selected) <= 4 /\ total_size sample_selection.(selected) <= 20.
Proof.
  assert (H : select_records (U := ascii_tables) sample_records (lit "Tea?") (UnixTimestampMillis_raw 9) 4 20 (fun _ => false)
    = Ok sample_selection) by (vm_compute; reflexivity).
  split; [exact H|].
  destruct (retrieval_selection_sound ascii_tables sample_records (lit "Tea?") (UnixTimestampMillis_raw 9) 4 20 (fun _ => false)
    sample_selection ltac:(lia) ltac:(vm_compute; split; discriminate) H) as (_ & H1 & H2 & _).
  split; [exact H1|exact H2].
Defined.

(** ** Building the retrieval *)

(** A record as its constructor leaves it. *)
Definition wf_record (r : MemoryRecord) : Prop :=
  is_blank (record_content r) = false /\ blen (record_content r) <= MAX_MEMORY_CONTENT_BYTES.

Lemma MemoryDraft_new_wf kind content prov conf created ret d :
  MemoryDraft_new kind content prov conf created ret = Ok d ->
  is_blank d.(draft_content) = false /\ blen d.(draft_content) <= MAX_MEMORY_CONTENT_BYTES.
Proof.
  unfold MemoryDraft_new, validate_content, bounded_text. intros H. destruct (is_blank content) eqn:B; [done|].
  destruct (MAX_MEMORY_CONTENT_BYTES <? blen content) eqn:L; [done|]. cbn [result_bind] in H.
  destruct (validate_retention _ _ _); [|done]. cbn [result_bind] in H. simplify_eq. cbn. breflect. done.
Qed.

Lemma not_blank_blen s : is_blank s = false -> 1 <= blen s.
Proof.
  intros H. pose proof (blen_nonneg s). destruct (decide (blen s = 0)) as [E|]; [|lia]. apply blen_0 in E. by subst.
Qed.

Definition context_item (x : RankedMemory) : MemoryContextItem :=
  {| item_memory_id := x.(ranked_record).(record_id); item_kind := record_kind x.(ranked_record);
     item_content := record_content x.(ranked_record); item_reason := x.(ranked_reason) |}.

Definition trace_item (n : Z) (x : RankedMemory) : MemoryTraceItem :=
  {| ordinal := n; trace_memory_id := x.(ranked_record).(record_id); trace_kind := record_kind x.(ranked_record);
     trace_reason := x.(ranked_reason); content_bytes := content_size x |}.

Lemma build_items_Ok cancel sel : (forall i, cancel i = false) ->
  Forall (fun x => wf_record x.(ranked_record)) sel -> forall poll n,
  n + zlen sel <= MAX_MEMORY_RETRIEVAL_ITEMS ->
  build_items cancel poll n sel = Ok (map context_item sel, imap (fun k x => trace_item (n + Z.of_nat k) x) sel).
Proof.
  intros Hc. induction 1 as [|x sel [Hb Hl] Hsel IH]; intros poll n Hn; [done|]. rewrite zlen_cons in Hn.
  pose proof (zlen_nonneg sel). pose proof (not_blank_blen _ Hb). cbn [build_items]. unfold check_cancellation. rewrite Hc. cbn [result_bind].
  unfold MemoryContextItem_new, validate_content, bounded_text, MemoryTraceItem_new. rewrite Hb.
  rewrite (proj2 (Z.ltb_ge _ _)) by done. cbn [result_bind map_db].
  rewrite (proj2 (Z.leb_gt _ _)) by lia. rewrite !(proj2 (Z.leb_le _ _)) by lia. cbn [andb negb map_db result_bind].
  rewrite IH by lia. cbn [result_bind map]. do 2 f_equal. cbn [imap]. f_equal.
  - unfold trace_item, content_size. by rewrite Z.add_0_r.
  - apply imap_ext. intros k y _. cbn. f_equal. lia.
Qed.

Lemma check_trace_items_Ok sel : NoDup (map (fun x => x.(ranked_record).(record_id)) sel) ->
  check_trace_items [] (imap (fun k x => trace_item (0 + Z.of_nat k) x) sel) = Ok tt.
Proof.
  enough (G : forall prior, NoDup (map trace_memory_id prior ++ map (fun x => x.(ranked_record).(record_id)) sel) ->
    check_trace_items prior (imap (fun k x => trace_item (zlen prior + Z.of_nat k) x) sel) = Ok tt) by (intros H; by apply (G [])).
  induction sel as [|x sel IH]; intros prior Hnd; [done|]. cbn [imap check_trace_items trace_item ordinal trace_memory_id map] in *.
  rewrite Z.add_0_r, Z.eqb_refl. cbn [negb].
  assert (existsb (fun p => bool_decide (trace_memory_id p = record_id (ranked_record x))) prior = false) as ->.
  { apply not_true_iff_false. rewrite existsb_exists. intros (p & Hp & E). breflect.
    apply NoDup_app in Hnd as (_ & Hnd & _). apply (Hnd (trace_memory_id p)); [by apply list_elem_of_fmap_2, list_elem_of_In|].
    rewrite E. constructor. }
  replace (imap _ sel) with (imap (fun k y => trace_item (zlen (prior ++ [trace_item (zlen prior) x]) + Z.of_nat k) y) sel).
  2:{ apply imap_ext. intros k y _. unfold compose. f_equal. rewrite zlen_app, zlen_cons, zlen_nil. lia. }
  apply IH. rewrite map_app, <- app_assoc. done.
Qed.

Lemma checked_sum_sizes sel : forall n total, 0 <= total -> total + total_size sel <= u64_max ->
  checked_sum total (map content_bytes (imap (fun k x => trace_item (n + Z.of_nat k) x) sel)) = Some (total + total_size sel).
Proof.
  induction sel as [|x sel IH]; intros n total H0 Ht; cbn [imap map checked_sum]; [by rewrite Z.add_0_r|].
  pose proof (total_size_nonneg sel). pose proof (blen_nonneg (record_content (ranked_record x))) as Hx. fold (content_size x) in Hx.
  change (total_size (x :: sel)) with (content_size x + total_size sel) in *. cbn [content_bytes trace_item].
  unfold checked_add. rewrite (proj2 (Z.leb_le _ _)) by lia.
  rewrite (imap_ext _ (fun k y => trace_item (n + 1 + Z.of_nat k) y)) by (intros; unfold compose; f_equal; lia).
  rewrite IH by lia. f_equal. lia.
Qed.

(** A selection of well-formed records builds, item for item. *)
Lemma build_retrieval_Ok cancel tid req sel : (forall i, cancel i = false) ->
  Forall (fun x => wf_record x.(ranked_record)) sel.(selected) ->
  NoDup (map (fun x => x.(ranked_record).(record_id)) sel.(selected)) ->
  zlen sel.(selected) <= MAX_MEMORY_RETRIEVAL_ITEMS -> total_size sel.(selected) <= MAX_MEMORY_RETRIEVAL_BYTES ->
  exists r, build_retrieval cancel tid req sel = Ok r /\ r.(retrieved_items) = map context_item sel.(selected) /\
    r.(retrieved_trace).(trace_turn_id) = req.(request_turn_id).
Proof.
  intros Hc Hwf Hnd Hl Hb. unfold build_retrieval, check_cancellation. rewrite !Hc. cbn [result_bind].
  rewrite build_items_Ok by done. cbn [result_bind]. unfold MemoryRetrievalTrace_new.
  rewrite (proj2 (Z.ltb_ge _ _)) by (unfold zlen in *; rewrite length_imap; done).
  rewrite check_trace_items_Ok by done. cbn [result_bind].
  rewrite checked_sum_sizes by (unfold MAX_MEMORY_RETRIEVAL_BYTES in *; ints).
  rewrite (proj2 (Z.ltb_ge _ _)) by lia. cbn [map_db result_bind]. by eexists.
Qed.
