(* ===== verification/Bytes.v ===== *)
(** * Byte strings

    Fixed-width big-endian integers ([to_be_bytes] and [from_be_bytes]),
    slices, hexadecimal spellings and strict UTF-8, as the binary formats of
    the runtime use them. A byte is a [Z] between 0 and 255. *)

From S2P Require Import Prelude RustStr.

Definition is_byte (b : Z) : Prop := 0 <= b < 256.

(** [to_be_bytes] of an unsigned integer of [n] bytes. *)
Fixpoint be_bytes (n : nat) (v : Z) : list Z :=
  match n with
  | O => []
  | S n' => be_bytes n' (v / 256) ++ [v mod 256]
  end.

(** [from_be_bytes] of an unsigned integer. *)
Definition be_value (bs : list Z) : Z := fold_left (fun acc b => acc * 256 + b) bs 0.

(** [i64::to_be_bytes] and [i64::from_be_bytes]: two's complement. *)
Definition i64_be_bytes (v : Z) : list Z := be_bytes 8 (v mod 2 ^ 64).
Definition i64_of_be (bs : list Z) : Z :=
  let u := be_value bs in if u <? 2 ^ 63 then u else u - 2 ^ 64.

(** [&bytes[from..to]] of a slice known to be long enough. *)
Definition slice (from to : nat) (bs : list Z) : list Z := take (to - from) (drop from bs).

(** [bytes[i]] of a slice known to be long enough. *)
Definition byte_at (i : nat) (bs : list Z) : Z := nth i bs 0.

(** [String::from_utf8] and [str::from_utf8]: shortest-form encodings of
    Unicode scalar values only. *)
Definition is_unicode_scalar (c : Z) : bool :=
  ((0 <=? c) && (c <? 0xD800)) || ((0xE000 <=? c) && (c <=? 0x10FFFF)).

Definition from_utf8 (bs : list Z) : option rstr :=
  let s := utf8_decode bs in
  if forallb is_unicode_scalar s && bool_decide (utf8_encode s = bs) then Some s else None.

(** ** Hexadecimal *)

Definition is_lowercase_hex_byte (b : Z) : bool :=
  is_ascii_digit b || ((97 <=? b) && (b <=? 102)).

(** [char::from_digit(_, 16)] of a nibble. *)
Definition hex_digit (n : Z) : Z := if n <? 10 then 48 + n else 87 + n.

(** [char::to_digit(16)] of a lowercase hexadecimal digit. *)
Definition hex_value (b : Z) : Z := if b <? 58 then b - 48 else b - 87.

Definition lowercase_hex (bytes : list Z) : rstr :=
  concat (map (fun b => [hex_digit (Z.shiftr b 4); hex_digit (Z.land b 15)]) bytes).

Fixpoint hex_pairs (bs : list Z) : list Z :=
  match bs with
  | high :: low :: rest => hex_value high * 16 + hex_value low :: hex_pairs rest
  | _ => []
  end.

Definition decode_hex (n : nat) (value : rstr) : option (list Z) :=
  let bs := utf8_encode value in
  if bool_decide (length bs = (n * 2)%nat) && forallb is_lowercase_hex_byte bs
  then Some (hex_pairs bs) else None.

(** ** Lemmas *)

Lemma be_bytes_length n v : length (be_bytes n v) = n.
Proof. revert v. induction n as [|n IH]; intros v; simpl; [done|]. rewrite length_app, IH. simpl. lia. Qed.

Lemma be_value_app bs cs : be_value (bs ++ cs) = be_value bs * 256 ^ zlen cs + be_value cs.
Proof.
  induction cs as [|c cs IH] using rev_ind.
  - rewrite app_nil_r, zlen_nil. unfold be_value at 3. simpl. lia.
  - rewrite app_assoc. unfold be_value in *. rewrite (fold_left_app _ (bs ++ cs)), IH.
    rewrite (fold_left_app _ cs). cbn [fold_left]. rewrite zlen_app. change (zlen [c]) with 1.
    rewrite Z.pow_add_r, Z.pow_1_r by (apply zlen_nonneg || lia). lia.
Qed.

Lemma be_value_bytes n v : 0 <= v < 256 ^ Z.of_nat n -> be_value (be_bytes n v) = v.
Proof.
  revert v. induction n as [|n IH]; intros v Hv.
  - simpl in *. cbn. lia.
  - cbn [be_bytes]. rewrite be_value_app, IH.
    + change (zlen [v mod 256]) with 1. rewrite Z.pow_1_r. unfold be_value. simpl.
      pose proof (Z.div_mod v 256). lia.
    + rewrite Nat2Z.inj_succ, Z.pow_succ_r in Hv by lia. split.
      * apply Z.div_pos; lia.
      * apply Z.div_lt_upper_bound; lia.
Qed.

Lemma be_bytes_bytes n v : Forall is_byte (be_bytes n v).
Proof.
  revert v. induction n as [|n IH]; intros v; simpl; [constructor|].
  apply Forall_app_2; [done|]. apply Forall_singleton. unfold is_byte. apply Z.mod_pos_bound. lia.
Qed.

Lemma be_value_bounds bs : Forall is_byte bs -> 0 <= be_value bs < 256 ^ zlen bs.
Proof.
  induction bs as [|b bs IH] using rev_ind; intros H; [done|].
  apply Forall_app in H as [H Hb]. specialize (IH H). inversion_clear Hb as [|? ? Hb' _].
  unfold is_byte in Hb'. rewrite be_value_app, zlen_app.
  change (zlen [b]) with 1. rewrite Z.pow_add_r, Z.pow_1_r by (apply zlen_nonneg || lia).
  change (be_value [b]) with b. nia.
Qed.

(** A byte string is the encoding of its value: decoding loses nothing. *)
Lemma be_bytes_value bs : Forall is_byte bs -> be_bytes (length bs) (be_value bs) = bs.
Proof.
  induction bs as [|b bs IH] using rev_ind; intros H; [done|].
  apply Forall_app in H as [H Hb]. inversion_clear Hb as [|? ? Hb' _]. unfold is_byte in Hb'.
  replace (length (bs ++ [b])) with (S (length bs)) by (rewrite length_app; simpl; lia). cbn [be_bytes].
  rewrite be_value_app. change (zlen [b]) with 1. rewrite Z.pow_1_r.
  change (be_value [b]) with b. rewrite Z.div_add_l, Z.div_small, Z.add_0_r, IH by (done || lia).
  f_equal. f_equal. rewrite Z.add_comm, Z.mod_add by lia. by apply Z.mod_small.
Qed.

Lemma i64_roundtrip v : - 2 ^ 63 <= v < 2 ^ 63 -> i64_of_be (i64_be_bytes v) = v.
Proof.
  intros Hv. unfold i64_of_be, i64_be_bytes.
  rewrite be_value_bytes by (apply Z.mod_pos_bound; lia).
  destruct (decide (0 <= v)).
  - rewrite Z.mod_small by lia. split_ifs; lia.
  - replace (v mod 2 ^ 64) with (v + 2 ^ 64) by (symmetry; rewrite <- (Z.mod_add _ 1) by lia; apply Z.mod_small; lia).
    split_ifs; lia.
Qed.

Lemma slice_app_l n (a b : list Z) : length a = n -> slice 0 n (a ++ b) = a.
Proof. intros <-. unfold slice. rewrite drop_0, Nat.sub_0_r. apply take_app_length. Qed.

Lemma slice_skip n m (a b : list Z) :
  length a = n -> (n <= m)%nat -> forall k, (m <= k)%nat -> slice m k (a ++ b) = slice (m - n) (k - n) b.
Proof.
  intros <- Hm k Hk. unfold slice. rewrite drop_app_ge by done. f_equal. lia.
Qed.

Lemma from_utf8_encode s :
  forallb is_unicode_scalar s = true -> from_utf8 (utf8_encode s) = Some s.
Proof.
  intros H. unfold from_utf8. rewrite utf8_decode_encode, H.
  - by rewrite bool_decide_true.
  - rewrite forallb_forall in H. apply Forall_forall. intros c Hc%list_elem_of_In%H.
    unfold is_unicode_scalar, is_scalar in *. lia.
Qed.

Lemma from_utf8_Some bs s : from_utf8 bs = Some s -> utf8_encode s = bs /\ forallb is_unicode_scalar s = true.
Proof. unfold from_utf8. split_ifs; intros; simplify_eq. breflect. by split. Qed.

Lemma hex_digit_ok n : 0 <= n < 16 ->
  is_lowercase_hex_byte (hex_digit n) = true /\ hex_value (hex_digit n) = n /\ 48 <= hex_digit n < 103.
Proof.
  intros H. unfold hex_digit, is_lowercase_hex_byte, is_ascii_digit, hex_value.
  split_and!; split_ifs; lia.
Qed.

Lemma utf8_encode_ascii s : Forall (fun c => 0 <= c < 128) s -> utf8_encode s = s.
Proof.
  induction 1 as [|c s Hc H IH]; [done|]. unfold utf8_encode in *. simpl. rewrite IH.
  unfold utf8_encode_char. by rewrite (proj2 (Z.ltb_lt _ _)) by lia.
Qed.

Lemma nibbles b : is_byte b -> 0 <= Z.shiftr b 4 < 16 /\ 0 <= Z.land b 15 < 16 /\
  Z.shiftr b 4 * 16 + Z.land b 15 = b.
Proof.
  unfold is_byte. intros H. rewrite Z.shiftr_div_pow2 by lia. change (2 ^ 4) with 16.
  change 15 with (Z.ones 4). rewrite Z.land_ones by lia. change (2 ^ 4) with 16.
  pose proof (Z.mod_pos_bound b 16). pose proof (Z.div_mod b 16).
  assert (0 <= b / 16 < 16) by (split; [apply Z.div_pos|apply Z.div_lt_upper_bound]; lia). lia.
Qed.

Lemma lowercase_hex_ascii bs : Forall is_byte bs ->
  Forall (fun c => 0 <= c < 128) (lowercase_hex bs) /\
  forallb is_lowercase_hex_byte (lowercase_hex bs) = true /\
  length (lowercase_hex bs) = (length bs * 2)%nat /\ hex_pairs (lowercase_hex bs) = bs.
Proof.
  unfold lowercase_hex. induction 1 as [|b bs Hb H IH]; [done|]. simpl.
  destruct IH as (A & B & C & D). destruct (nibbles b Hb) as (Hh & Hl & Hv).
  destruct (hex_digit_ok _ Hh) as (H1 & H2 & H3), (hex_digit_ok _ Hl) as (L1 & L2 & L3).
  rewrite H1, L1, H2, L2, B, C, D, Hv. split_and!; [|done..].
  repeat constructor; try done; lia.
Qed.

Lemma decode_hex_lowercase_hex bs :
  Forall is_byte bs -> decode_hex (length bs) (lowercase_hex bs) = Some bs.
Proof.
  intros H. destruct (lowercase_hex_ascii bs H) as (A & B & C & D).
  unfold decode_hex. rewrite utf8_encode_ascii by done. by rewrite bool_decide_true, B, D.
Qed.

Lemma slice_all n (a : list Z) : length a = n -> slice 0 n a = a.
Proof. intros <-. unfold slice. rewrite drop_0, Nat.sub_0_r. apply take_ge. lia. Qed.

Lemma slice_length from to bs :
  (from <= to <= length bs)%nat -> length (slice from to bs) = (to - from)%nat.
Proof. intros H. unfold slice. rewrite length_take, length_drop. lia. Qed.

Lemma slice_bytes from to bs : Forall is_byte bs -> Forall is_byte (slice from to bs).
Proof. intros H. unfold slice. by apply Forall_take, Forall_drop. Qed.

(** Adjacent slices join. *)
Lemma slice_join a b c bs : (a <= b <= c)%nat -> slice a b bs ++ slice b c bs = slice a c bs.
Proof.
  intros H. unfold slice. replace (drop b bs) with (drop (b - a) (drop a bs))
    by (rewrite drop_drop; f_equal; lia).
  replace (c - a)%nat with ((b - a) + (c - b))%nat by lia.
  generalize (drop a bs) (b - a)%nat (c - b)%nat. clear. intros l n m.
  rewrite <- (take_drop n (take (n + m) l)). rewrite take_take, Nat.min_l by lia.
  f_equal. rewrite <- take_drop_commute. done.
Qed.

Lemma slice_cons i bs : (i < length bs)%nat -> slice i (S i) bs = [byte_at i bs].
Proof.
  intros H. unfold slice, byte_at. replace (S i - i)%nat with 1%nat by lia.
  rewrite <- (take_drop i bs) at 2. rewrite app_nth2; rewrite length_take_le by lia; [|lia].
  rewrite Nat.sub_diag. destruct (drop i bs) eqn:E; [|done].
  apply (f_equal length) in E. rewrite length_drop in E. simpl in E. lia.
Qed.

(** Encoding the value of a slice gives the slice back. *)
Lemma be_bytes_slice n from bs :
  Forall is_byte bs -> (from + n <= length bs)%nat ->
  be_bytes n (be_value (slice from (from + n) bs)) = slice from (from + n) bs.
Proof.
  intros Hb Hl. rewrite <- (be_bytes_value (slice from (from + n) bs)) at 2 by by apply slice_bytes.
  rewrite slice_length by lia. f_equal. lia.
Qed.

Lemma be_value_slice_bounds n from bs :
  Forall is_byte bs -> (from + n <= length bs)%nat ->
  0 <= be_value (slice from (from + n) bs) < 256 ^ Z.of_nat n.
Proof.
  intros Hb Hl. pose proof (be_value_bounds _ (slice_bytes from (from + n) bs Hb)) as H.
  unfold zlen in H. rewrite slice_length in H by lia.
  replace (from + n - from)%nat with n in H by lia. done.
Qed.

(** Read one field of a concatenation of fixed-width fields. *)
Ltac read_field :=
  repeat first
    [ rewrite slice_app_l by (apply be_bytes_length || reflexivity)
    | rewrite slice_all by (apply be_bytes_length || reflexivity)
    | erewrite slice_skip; [|apply be_bytes_length || reflexivity|cbn; lia|cbn; lia]; cbn [Nat.sub] ].

Definition bytes_ok (bs : list Z) : bool := forallb (fun b => (0 <=? b) && (b <? 256)) bs.

Lemma bytes_ok_sound bs : bytes_ok bs = true -> Forall is_byte bs.
Proof.
  unfold bytes_ok. rewrite forallb_forall. intros H. apply Forall_forall.
  intros b Hb%list_elem_of_In%H. unfold is_byte. lia.
Qed.
