(* ===== verification/Pcm.v ===== *)
(** * PCM formats

    [crates/model-adapters/src/audio_frame.rs]: the sample format, rate and
    channel count of a stream of PCM audio; [AdapterError] of
    [crates/model-adapters/src/lib.rs]. *)

From S2P Require Import Prelude RustStr Errors.

Definition MAX_PCM_FRAME_BYTES : Z := 64 * 1024.

Inductive PcmSampleFormat : Type :=
| Signed16LittleEndian
| Float32LittleEndian.

Definition bytes_per_sample (f : PcmSampleFormat) : Z :=
  match f with
  | Signed16LittleEndian => 2
  | Float32LittleEndian => 4
  end.

Record PcmFormat : Type := {
  sample_rate_hz : Z;
  channels : Z;
  sample_format : PcmSampleFormat;
}.

#[export] Instance PcmSampleFormat_eq_dec : EqDecision PcmSampleFormat.
Proof. solve_decision. Defined.
#[export] Instance PcmFormat_eq_dec : EqDecision PcmFormat.
Proof. solve_decision. Defined.

(** An adapter's failure: its message, and the stage when it states one. *)
Record AdapterError : Type := {
  adapter_message : rstr;
  adapter_stage : option RuntimeStage;
}.

Definition AdapterError_new (message : rstr) : AdapterError :=
  {| adapter_message := message; adapter_stage := None |}.

Definition PcmFormat_new (rate ch : Z) (f : PcmSampleFormat) : result PcmFormat AdapterError :=
  if rate =? 0 then Err (AdapterError_new (lit "PCM sample rate must be greater than zero"))
  else if ch =? 0 then Err (AdapterError_new (lit "PCM channels must be greater than zero"))
  else Ok {| sample_rate_hz := rate; channels := ch; sample_format := f |}.

Definition frame_alignment_bytes (f : PcmFormat) : result Z AdapterError :=
  ok_or (checked_mul f.(channels) (bytes_per_sample f.(sample_format)))
    (AdapterError_new (lit "PCM frame alignment overflowed")).

(** ** Well-formed formats *)

(** A format the constructor accepts: a positive rate and channel count of
    their widths. *)
Definition wf_format (f : PcmFormat) : Prop :=
  0 < f.(sample_rate_hz) <= u32_max /\ 0 < f.(channels) <= u16_max.

Lemma frame_alignment_bytes_Ok f :
  wf_format f -> frame_alignment_bytes f = Ok (f.(channels) * bytes_per_sample f.(sample_format)) /\
    2 <= f.(channels) * bytes_per_sample f.(sample_format).
Proof.
  intros [_ H]. unfold frame_alignment_bytes, checked_mul.
  assert (f.(channels) * bytes_per_sample f.(sample_format) <= u64_max /\
          2 <= f.(channels) * bytes_per_sample f.(sample_format)) as [H1 H2]
    by (destruct (sample_format f); cbn [bytes_per_sample]; ints).
  by rewrite (proj2 (Z.leb_le _ _) H1).
Qed.

Lemma PcmFormat_new_wf rate ch f fmt :
  is_u32 rate -> is_u16 ch -> PcmFormat_new rate ch f = Ok fmt ->
  wf_format fmt /\ fmt = {| sample_rate_hz := rate; channels := ch; sample_format := f |}.
Proof. unfold PcmFormat_new. intros ? ? H. split_ifs_in H; simplify_eq. split; [|done]. split; cbn; ints. Qed.

Lemma PcmFormat_new_of f :
  wf_format f -> PcmFormat_new f.(sample_rate_hz) f.(channels) f.(sample_format) = Ok f.
Proof.
  intros [Hr Hc]. unfold PcmFormat_new. rewrite !(proj2 (Z.eqb_neq _ _)) by lia. by destruct f.
Qed.
