(* ===== verification/LanguageInput.v ===== *)
(** * Requests to the language model

    [crates/model-adapters/src/language_model.rs] and [generation_language.rs]:
    the input of a generation with its byte budgets, the requests that carry it
    and the text deltas that come back; and the theorem that the input a turn
    builds from a prepared conversation and from a memory retrieval is never
    refused by them.

    [serde_json], which decides whether a response schema is an object, is a
    parameter. *)

From S2P Require Import Prelude RustStr Errors Pcm ProtocolQuality Quality Privacy Context MemoryProtocol MemoryRetrieval.

Definition MAX_RUNTIME_GUIDANCE_BYTES : Z := 4 * 1024.
Definition MAX_LANGUAGE_MODEL_INPUT_BYTES : Z := 64 * 1024.
Definition MAX_RESPONSE_SCHEMA_BYTES : Z := 8 * 1024.

Abbreviation aresult A := (result A AdapterError) (only parsing).

Record LanguageModelInput : Type := {
  input_transcript : rstr;
  recent_messages : list ConversationMessage;
  quality_decision : option QualityDecision;
  runtime_guidance : option rstr;
  memory_items : list MemoryContextItem;
  response_schema : option rstr;
}.

Definition text_only (transcript : rstr) : LanguageModelInput :=
  {| input_transcript := transcript; recent_messages := []; quality_decision := None; runtime_guidance := None;
     memory_items := []; response_schema := None |}.

Definition validate_input_text (text : rstr) : aresult unit :=
  if is_blank text then Err (AdapterError_new (lit "language-model input cannot be empty"))
  else if MAX_CONVERSATION_MESSAGE_BYTES <? blen text then
    Err (AdapterError_new (lit "language-model input exceeds 16 KiB"))
  else Ok tt.

Definition instructed (instructions text : rstr) : aresult LanguageModelInput :=
  let? _ := validate_input_text text in
  if is_blank instructions then Err (AdapterError_new (lit "language-model instructions cannot be empty"))
  else if MAX_RUNTIME_GUIDANCE_BYTES <? blen instructions then
    Err (AdapterError_new (lit "language-model instructions exceed 4 KiB"))
  else
    Ok {| input_transcript := text; recent_messages := []; quality_decision := None;
          runtime_guidance := Some instructions; memory_items := []; response_schema := None |}.

(** [is_json_object]: [serde_json::from_str] succeeds with an object. *)
Definition with_response_schema (is_json_object : rstr -> bool) (i : LanguageModelInput) (schema : rstr)
  : aresult LanguageModelInput :=
  if MAX_RESPONSE_SCHEMA_BYTES <? blen schema then Err (AdapterError_new (lit "response schema exceeds 8 KiB"))
  else if negb (is_json_object schema) then Err (AdapterError_new (lit "response schema must be a JSON object"))
  else
    Ok {| input_transcript := i.(input_transcript); recent_messages := i.(recent_messages);
          quality_decision := i.(quality_decision); runtime_guidance := i.(runtime_guidance);
          memory_items := i.(memory_items); response_schema := Some schema |}.

(** The loop over the memory items: no memory twice. *)
Fixpoint has_duplicate (prior items : list MemoryContextItem) : bool :=
  match items with
  | [] => false
  | item :: rest =>
      existsb (fun p => bool_decide (p.(item_memory_id) = item.(item_memory_id))) prior
      || has_duplicate (prior ++ [item]) rest
  end.

(** [Option::and_then]. *)
Definition and_then {A B} (o : option A) (f : A -> option B) : option B :=
  match o with Some a => f a | None => None end.

Definition with_quality_and_memory (transcript : rstr) (recent : list ConversationMessage)
    (decision : QualityDecision) (guidance : rstr) (memory : list MemoryContextItem) : aresult LanguageModelInput :=
  let? _ := validate_input_text transcript in
  if MAX_HISTORY_MESSAGE_COUNT <? zlen recent then
    Err (AdapterError_new (lit "language-model history exceeds sixteen exchanges"))
  else
    let history_bytes := checked_sum 0 (map (fun m => blen m.(text)) recent) in
    if is_none_or history_bytes (fun b => MAX_HISTORY_BYTES <? b) then
      Err (AdapterError_new (lit "language-model history exceeds 32 KiB"))
    else if is_blank guidance then Err (AdapterError_new (lit "runtime quality guidance cannot be empty"))
    else if MAX_RUNTIME_GUIDANCE_BYTES <? blen guidance then
      Err (AdapterError_new (lit "runtime quality guidance exceeds 4 KiB"))
    else if MAX_MEMORY_RETRIEVAL_ITEMS <? zlen memory then
      Err (AdapterError_new (lit "language-model memory exceeds eight items"))
    else
      let memory_bytes := checked_sum 0 (map (fun m => blen m.(item_content)) memory) in
      if is_none_or memory_bytes (fun b => MAX_MEMORY_RETRIEVAL_BYTES <? b) then
        Err (AdapterError_new (lit "language-model memory exceeds 8 KiB"))
      else if has_duplicate [] memory then
        Err (AdapterError_new (lit "language-model memory contains a duplicate item"))
      else
        let aggregate_bytes :=
          and_then (and_then (checked_add (blen transcript) (default 0 history_bytes))
                      (fun total => checked_add total (blen guidance)))
            (fun total => checked_add total (default 0 memory_bytes)) in
        if is_none_or aggregate_bytes (fun b => MAX_LANGUAGE_MODEL_INPUT_BYTES <? b) then
          Err (AdapterError_new (lit "language-model aggregate input exceeds 64 KiB"))
        else
          Ok {| input_transcript := transcript; recent_messages := recent; quality_decision := Some decision;
                runtime_guidance := Some guidance; memory_items := memory; response_schema := None |}.

Definition input_with_quality (transcript : rstr) (recent : list ConversationMessage) (decision : QualityDecision)
    (guidance : rstr) : aresult LanguageModelInput :=
  with_quality_and_memory transcript recent decision guidance [].

Definition with_memory_items (i : LanguageModelInput) (memory : list MemoryContextItem) : aresult LanguageModelInput :=
  let? decision := ok_or i.(quality_decision) (AdapterError_new (lit "language-model memory requires quality input")) in
  let? guidance := ok_or i.(runtime_guidance) (AdapterError_new (lit "language-model memory requires runtime guidance")) in
  let? rebuilt := with_quality_and_memory i.(input_transcript) i.(recent_messages) decision guidance memory in
  Ok {| input_transcript := rebuilt.(input_transcript); recent_messages := rebuilt.(recent_messages);
        quality_decision := rebuilt.(quality_decision); runtime_guidance := rebuilt.(runtime_guidance);
        memory_items := rebuilt.(memory_items); response_schema := i.(response_schema) |}.

Definition validate_decision_turn (turn_id : TurnId) (i : LanguageModelInput) : aresult unit :=
  if is_some_and i.(quality_decision) (fun d => negb (bool_decide (d.(ProtocolQuality.turn_id) = turn_id))) then
    Err (AdapterError_new (lit "quality decision turn does not match language-model request"))
  else Ok tt.

Record LanguageModelRequest : Type := { lm_turn_id : TurnId; lm_input : LanguageModelInput }.

Definition LanguageModelRequest_from_input (turn_id : TurnId) (i : LanguageModelInput) : aresult LanguageModelRequest :=
  let? _ := validate_decision_turn turn_id i in Ok {| lm_turn_id := turn_id; lm_input := i |}.

Record GenerationLanguageRequest : Type := {
  gl_turn_id : TurnId;
  gl_generation_id : GenerationId;
  gl_input : LanguageModelInput;
}.

Definition GenerationLanguageRequest_from_input (turn_id : TurnId) (generation_id : GenerationId)
    (i : LanguageModelInput) : aresult GenerationLanguageRequest :=
  let? _ := validate_decision_turn turn_id i in
  Ok {| gl_turn_id := turn_id; gl_generation_id := generation_id; gl_input := i |}.

Record GenerationTextDelta : Type := {
  delta_turn_id : TurnId;
  delta_generation_id : GenerationId;
  delta : rstr;
}.

(** ** Byte budgets *)

Lemma checked_sum_nonneg xs : forall total, 0 <= total -> Forall (Z.le 0) xs -> total + foldr Z.add 0 xs <= u64_max ->
  checked_sum total xs = Some (total + foldr Z.add 0 xs).
Proof.
  induction xs as [|x xs IH]; intros total H0 Hxs Ht; cbn in *; [by rewrite Z.add_0_r|].
  inversion Hxs as [|? ? Hx Hxs']; subst. assert (0 <= foldr Z.add 0 xs).
  { clear -Hxs'. induction Hxs' as [|y ys Hy _ IHys]; cbn; lia. }
  unfold checked_add. rewrite (proj2 (Z.leb_le _ _)) by lia. rewrite IH by (done || lia). f_equal. lia.
Qed.

Lemma sum_blen {A} (f : A -> rstr) l : Forall (Z.le 0) (map (fun x => blen (f x)) l).
Proof. apply Forall_map, Forall_true. intros x. apply blen_nonneg. Qed.

(** What a transcript, a history, a guidance and a memory must satisfy. *)
Definition fits_budget (transcript : rstr) (recent : list ConversationMessage) (guidance : rstr)
    (memory : list MemoryContextItem) : Prop :=
  is_blank transcript = false /\ blen transcript <= MAX_CONVERSATION_MESSAGE_BYTES /\
  zlen recent <= MAX_HISTORY_MESSAGE_COUNT /\
  foldr Z.add 0 (map (fun m => blen m.(text)) recent) <= MAX_HISTORY_BYTES /\
  is_blank guidance = false /\ blen guidance <= MAX_RUNTIME_GUIDANCE_BYTES /\
  zlen memory <= MAX_MEMORY_RETRIEVAL_ITEMS /\
  foldr Z.add 0 (map (fun m => blen m.(item_content)) memory) <= MAX_MEMORY_RETRIEVAL_BYTES /\
  NoDup (map item_memory_id memory).

Lemma has_duplicate_NoDup memory : forall prior,
  NoDup (map item_memory_id prior ++ map item_memory_id memory) -> has_duplicate prior memory = false.
Proof.
  induction memory as [|m memory IH]; intros prior Hnd; cbn [has_duplicate]; [done|]. apply orb_false_iff. split.
  - apply not_true_iff_false. rewrite existsb_exists. intros (p & Hp & E). breflect.
    apply NoDup_app in Hnd as (_ & Hnd & _). apply (Hnd (item_memory_id p)); [by apply list_elem_of_fmap_2, list_elem_of_In|].
    rewrite E. constructor.
  - apply IH. rewrite map_app, <- app_assoc. done.
Qed.

(** The four budgets of 16, 32, 4 and 8 KiB are within the aggregate of 64. *)
Lemma with_quality_and_memory_Ok t recent d g memory :
  fits_budget t recent g memory ->
  with_quality_and_memory t recent d g memory =
  Ok {| input_transcript := t; recent_messages := recent; quality_decision := Some d; runtime_guidance := Some g;
        memory_items := memory; response_schema := None |}.
Proof.
  intros (H1 & H2 & H3 & H4 & H5 & H6 & H7 & H8 & H9). unfold with_quality_and_memory, validate_input_text.
  pose proof (blen_nonneg t). pose proof (blen_nonneg g).
  pose proof (sum_blen text recent) as Hr. pose proof (sum_blen item_content memory) as Hm.
  unfold MAX_CONVERSATION_MESSAGE_BYTES, MAX_HISTORY_BYTES, MAX_RUNTIME_GUIDANCE_BYTES, MAX_MEMORY_RETRIEVAL_BYTES,
    MAX_LANGUAGE_MODEL_INPUT_BYTES, MAX_HISTORY_MESSAGE_COUNT in *.
  assert (G : forall xs, Forall (Z.le 0) xs -> 0 <= foldr Z.add 0 xs).
  { clear. induction 1; cbn; lia. }
  pose proof (G _ Hr). pose proof (G _ Hm). clear G.
  rewrite H1, H5, (proj2 (Z.ltb_ge _ (blen t))), (proj2 (Z.ltb_ge _ (zlen recent))), (proj2 (Z.ltb_ge _ (blen g))),
    (proj2 (Z.ltb_ge _ (zlen memory))), has_duplicate_NoDup by done. cbn [result_bind].
  rewrite !checked_sum_nonneg by (done || ints). rewrite !Z.add_0_l. cbn [is_none_or default].
  rewrite (proj2 (Z.ltb_ge _ _)) by done. rewrite (proj2 (Z.ltb_ge _ _)) by done.
  cbn [default]. unfold id, checked_add. rewrite (proj2 (Z.leb_le _ _)) by ints. cbn [and_then].
  rewrite (proj2 (Z.leb_le _ _)) by ints. cbn [and_then]. rewrite (proj2 (Z.leb_le _ _)) by ints. cbn [is_none_or].
  by rewrite (proj2 (Z.ltb_ge _ _)) by lia.
Qed.

(** ** What a resolved turn hands over *)

Lemma decimal_digits_blen fuel : forall n acc, blen (decimal_digits fuel n acc) <= blen acc + Z.of_nat fuel.
Proof.
  induction fuel as [|fuel IH]; intros n acc; [cbn; lia|]. rewrite Nat2Z.inj_succ. cbn [decimal_digits].
  assert (E : blen (0x30 + n mod 10 :: acc) = 1 + blen acc).
  { cbn [blen]. enough (len_utf8 (0x30 + n mod 10) = 1) by lia. unfold len_utf8.
    pose proof (Z.mod_pos_bound n 10). by rewrite (proj2 (Z.ltb_lt _ _)) by lia. }
  destruct (n / 10 =? 0); [lia|]. specialize (IH (n / 10) (0x30 + n mod 10 :: acc)). lia.
Qed.

Lemma decimal_blen n : blen (decimal n) <= 41.
Proof.
  unfold decimal. destruct (n <? 0); [|pose proof (decimal_digits_blen 40 n []); cbn [blen] in *; lia].
  pose proof (decimal_digits_blen 40 (- n) []). cbn [blen] in *. assert (len_utf8 45 = 1) as -> by done. lia.
Qed.

Lemma mode_blen m : blen (ConversationMode_as_str m) <= 20.
Proof. destruct m; by vm_compute. Qed.
Lemma pace_blen p : blen (SpeechPace_as_str p) <= 20.
Proof. destruct p; by vm_compute. Qed.
Lemma follow_up_blen p : blen (FollowUpPolicy_as_str p) <= 20.
Proof. destruct p; by vm_compute. Qed.
Lemma relationship_blen b : blen (relationship_guidance b) <= 200.
Proof. destruct b; by vm_compute. Qed.

Ltac lit_blen :=
  repeat match goal with
  | |- context [blen (lit ?s)] => let n := eval vm_compute in (blen (lit s)) in change (blen (lit s)) with n
  end.

Lemma system_guidance_fits p d b : blen (system_guidance p d (relationship_guidance b)) <= MAX_RUNTIME_GUIDANCE_BYTES.
Proof.
  unfold system_guidance, MAX_RUNTIME_GUIDANCE_BYTES. cbv zeta. rewrite !blen_app.
  assert (T : forall (c : bool) s n, blen s <= n -> 0 <= n -> blen (if c then s else []) <= n) by (intros []; cbn; lia).
  repeat match goal with
  | |- context [blen (decimal ?n)] => pose proof (decimal_blen n); generalize dependent (blen (decimal n)); intros
  end.
  pose proof (mode_blen d.(mode)). pose proof (pace_blen d.(controls).(pace)).
  pose proof (follow_up_blen d.(controls).(follow_up_policy)). pose proof (relationship_blen b).
  repeat match goal with
  | |- context [blen (if ?c then lit ?s else [])] =>
      pose proof (T c (lit s) 200 ltac:(by vm_compute) ltac:(done)); generalize dependent (blen (if c then lit s else [])); intros
  end.
  lit_blen. lia.
Qed.

Lemma system_guidance_not_blank p d r : is_blank (system_guidance p d r) = false.
Proof. unfold system_guidance. cbv zeta. rewrite is_blank_app. by replace (is_blank (lit _)) with false by (by vm_compute). Qed.

Lemma history_bytes_sum h : Forall wf_exchange h ->
  foldr Z.add 0 (map (fun m => blen m.(text)) (flat_map (fun e => [e.(user); e.(assistant)]) h)) = sum_bytes h.
Proof.
  induction 1 as [|e h (_ & _ & _ & _ & Hb) _ IH]; [done|]. cbn [flat_map app map foldr]. rewrite IH.
  change (sum_bytes (e :: h)) with (bytes e + sum_bytes h). lia.
Qed.

(** The transcript, history and guidance of a resolved turn fit the budgets,
    and its decision is about that turn. *)
Lemma resolve_turn_fits `{U : UnicodeTables} c id t m r c' :
  wf c -> resolve_turn c id t m = (Ok (Some r), c') ->
  r.(resolved_decision).(ProtocolQuality.turn_id) = id /\
  fits_budget t r.(resolved_history) r.(resolved_system_guidance) [].
Proof.
  intros Hwf. unfold resolve_turn. destruct (pending_turn c); [done|]. cbn [is_some].
  destruct (is_blank t) eqn:B; [done|]. destruct (ConversationMessage_new User t) as [u|] eqn:M; [|done].
  apply wf_message_new in M as ([_ Hl] & _ & <-).
  set (sigs := if interruption_pending c then _ else _). set (c0 := if interruption_pending c then _ else c).
  set (c1 := if has_signal RapidTopicChange sigs then _ else _).
  assert (Hwf1 : wf c1).
  { unfold c1, c0. destruct (has_signal _ _), (interruption_pending c); auto using clear_history_wf. }
  destruct (resolve_controls c1 (text u) sigs) as [k|]; [|done].
  unfold QualityDecision_new. destruct (MAX_HISTORY_MESSAGE_COUNT <? zlen (history_messages c1)) eqn:L; [done|].
  intros [= <- <-]. cbn [resolved_decision ProtocolQuality.turn_id resolved_history resolved_system_guidance].
  destruct Hwf1 as (H1 & H2 & [_ H3] & _). breflect. split; [done|]. unfold fits_budget.
  split_and!; [done|done|done| |apply system_guidance_not_blank|apply system_guidance_fits|done|done|constructor].
  unfold history_messages. by rewrite history_bytes_sum.
Qed.

Lemma begin_turn_resolves `{U : UnicodeTables} (P : Type) (x x' : ConversationContext P) src t prepared :
  begin_turn x src t = (Ok prepared, x') ->
  prepared.(prepared_transcript) = t /\
  exists q, resolve_turn x.(quality) prepared.(prepared_identity).(identity_turn_id) t None
            = (Ok (Some prepared.(prepared_resolved)), q).
Proof.
  unfold begin_turn. destruct (reserve_turn _ _) as [[id|] l]; [|done]. cbn [quality with_lifecycle].
  destruct (resolve_turn _ _ _ _) as [[[r|]|] q] eqn:E; [|done..]. intros [= <- <-]. cbn. split; [done|]. by exists q.
Qed.

(** The input [start_turn] builds from a prepared turn. *)
Definition prepared_input (prepared : PreparedConversationTurn) : aresult LanguageModelInput :=
  input_with_quality prepared.(prepared_transcript) prepared.(prepared_resolved).(resolved_history)
    prepared.(prepared_resolved).(resolved_decision) prepared.(prepared_resolved).(resolved_system_guidance).

Lemma prepared_input_Ok `{U : UnicodeTables} (P : Type) (x x' : ConversationContext P) src t prepared :
  wf x.(quality) -> begin_turn x src t = (Ok prepared, x') ->
  exists i, prepared_input prepared = Ok i /\ i.(input_transcript) = t /\
    i.(quality_decision) = Some prepared.(prepared_resolved).(resolved_decision) /\
    validate_decision_turn prepared.(prepared_identity).(identity_turn_id) i = Ok tt /\
    (forall memory, zlen memory <= MAX_MEMORY_RETRIEVAL_ITEMS ->
       foldr Z.add 0 (map (fun m => blen m.(item_content)) memory) <= MAX_MEMORY_RETRIEVAL_BYTES ->
       NoDup (map item_memory_id memory) ->
       exists i', with_memory_items i memory = Ok i' /\ i'.(memory_items) = memory /\ i'.(input_transcript) = t /\
         validate_decision_turn prepared.(prepared_identity).(identity_turn_id) i' = Ok tt).
Proof.
  intros Hwf (Ht & q & Hr)%begin_turn_resolves. apply resolve_turn_fits in Hr as [Hid Hfit]; [|done].
  unfold prepared_input, input_with_quality. rewrite Ht, with_quality_and_memory_Ok by done.
  eexists. split; [done|]. cbn [input_transcript quality_decision]. unfold validate_decision_turn at 1. cbn [quality_decision is_some_and].
  rewrite bool_decide_eq_true_2 by done. cbn [negb]. split_and!; [done..|]. intros memory M1 M2 M3.
  unfold with_memory_items. cbn [quality_decision runtime_guidance ok_or result_bind input_transcript recent_messages response_schema].
  destruct Hfit as (F1 & F2 & F3 & F4 & F5 & F6 & _). rewrite with_quality_and_memory_Ok by (by split_and!). cbn [result_bind].
  eexists. split_and!; [done..|]. unfold validate_decision_turn. cbn. by rewrite bool_decide_eq_true_2.
Qed.

Lemma context_items_sizes sel :
  foldr Z.add 0 (map (fun m => blen m.(item_content)) (map context_item sel)) = total_size sel.
Proof. induction sel as [|x sel IH]; [done|]. cbn [map foldr total_size]. by rewrite IH. Qed.

Lemma sublist_map {A B} (f : A -> B) (l k : list A) : l `sublist_of` k -> map f l `sublist_of` map f k.
Proof. induction 1; cbn; by constructor. Qed.

Lemma eligible_ids judged records :
  map (fun x => x.(ranked_record).(record_id)) (eligible judged records) `sublist_of` map record_id records.
Proof.
  unfold eligible. induction records as [|r records IH]; [constructor|]. cbn [omap list_omap map].
  destruct (judged r); try (by apply sublist_cons). cbn. by apply sublist_skip.
Qed.

(** A selection inherits the store's well-formedness and its distinct
    identifiers. *)
Lemma selected_wf `{U : UnicodeTables} records query now mi mb cancel sel :
  0 <= mi -> 0 <= mb <= u64_max -> select_records records query now mi mb cancel = Ok sel ->
  Forall wf_record records -> NoDup (map record_id records) ->
  Forall (fun x => wf_record x.(ranked_record)) sel.(selected) /\
  NoDup (map (fun x => x.(ranked_record).(record_id)) sel.(selected)) /\
  zlen sel.(selected) <= mi /\ total_size sel.(selected) <= mb.
Proof.
  intros Hi Hb Hs Hwf Hnd. apply select_records_Ok in Hs as [Hs _]; [|done..]. rewrite Hs.
  set (el := eligible _ records). destruct (fill_sublist mi mb (sort_by rank_cmp el) []) as (l & Hl & Hsub). cbn [app] in Hl.
  destruct (fill_bounds mi mb (sort_by rank_cmp el) []) as [? ?]; [done|cbn; lia|]. rewrite Hl in *. split_and!; [| |done..].
  - apply Forall_forall. intros x Hx. eapply elem_of_sublist in Hx; [|done]. rewrite sort_by_Permutation in Hx.
    apply eligible_spec in Hx as [Hx _]. rewrite Forall_forall in Hwf. by apply Hwf.
  - eapply sublist_NoDup; [|by apply sublist_map]. rewrite sort_by_Permutation. eapply sublist_NoDup; [done|apply eligible_ids].
Qed.

Lemma request_limits turn query now mi mb req :
  MemoryRetrievalRequest_new turn query now mi mb = Ok req ->
  req = {| request_turn_id := turn; MemoryProtocol.query := query; MemoryProtocol.now := now; maximum_items := mi;
           maximum_bytes := mb; request_subject := None |} /\
  1 <= mi <= MAX_MEMORY_RETRIEVAL_ITEMS /\ 1 <= mb <= MAX_MEMORY_RETRIEVAL_BYTES.
Proof.
  unfold MemoryRetrievalRequest_new, bounded_text. destruct (is_blank query); [done|]. destruct (_ <? blen query); [done|].
  cbn [result_bind]. destruct (negb _) eqn:E1; [done|]. destruct (negb ((1 <=? mb) && _)) eqn:E2; [done|]. intros [= <-].
  breflect. split_and!; done.
Qed.

Lemma select_records_uncancelled `{U : UnicodeTables} records query now mi mb :
  exists sel, select_records records query now mi mb (fun _ => false) = Ok sel.
Proof.
  unfold select_records. cbn [check_cancellation result_bind].
  match goal with |- context [rank_loop ?c ?p ?v ?r ?a] => destruct (rank_loop_uncancelled v c r (fun _ => eq_refl) p a) as [rk ->] end.
  cbn [result_bind].
  match goal with |- context [cut_loop ?c ?p ?i ?b ?l ?a] => destruct (cut_loop_uncancelled i b c l (fun _ => eq_refl) p a) as [ct ->] end.
  by eexists.
Qed.

(** What a turn sends to the language model is never refused for its size
    or its identity: the input built from any turn the context prepared is
    accepted, and so is the input after any retrieval whose request was valid,
    from a store of well-formed records with distinct identifiers, provided
    nobody cancels; the retrieval itself, its items and its trace are then
    always produced. *)
Theorem language_input_accepted (U : UnicodeTables) (P : Type) (x x' : ConversationContext P) src t prepared
    records req query now mi mb tid
  (quality_wf : wf x.(quality)) (begun : begin_turn x src t = (Ok prepared, x'))
  (request : MemoryRetrievalRequest_new prepared.(prepared_identity).(identity_turn_id) query now mi mb = Ok req)
  (store_wf : Forall wf_record records) (store_ids : NoDup (map record_id records)) :
  exists input sel retrieval input' final,
    prepared_input prepared = Ok input /\
    select_records records req.(MemoryProtocol.query) req.(MemoryProtocol.now) req.(maximum_items) req.(maximum_bytes)
      (fun _ => false) = Ok sel /\
    build_retrieval (fun _ => false) tid req sel = Ok retrieval /\
    with_memory_items input retrieval.(retrieved_items) = Ok input' /\
    GenerationLanguageRequest_from_input prepared.(prepared_identity).(identity_turn_id)
      prepared.(prepared_identity).(identity_generation_id) input' = Ok final /\
    final.(gl_input).(input_transcript) = t /\
    final.(gl_input).(memory_items) = map context_item sel.(selected) /\
    retrieval.(retrieved_trace).(trace_turn_id) = prepared.(prepared_identity).(identity_turn_id).
Proof.
  destruct (prepared_input_Ok P x x' src t prepared quality_wf begun) as (input & Hi & Ht & _ & _ & Hmem).
  apply request_limits in request as (-> & Hmi & Hmb). cbn [MemoryProtocol.query MemoryProtocol.now maximum_items maximum_bytes].
  destruct (select_records_uncancelled records query now mi mb) as [sel Hsel].
  destruct (selected_wf records query now mi mb (fun _ => false) sel) as (S1 & S2 & S3 & S4); [lia|unfold MAX_MEMORY_RETRIEVAL_BYTES in *; ints|done..|].
  destruct (build_retrieval_Ok (fun _ => false) tid {| request_turn_id := identity_turn_id (prepared_identity prepared);
    MemoryProtocol.query := query; MemoryProtocol.now := now; maximum_items := mi; maximum_bytes := mb; request_subject := None |} sel)
    as (retr & Hr & Hitems & Htr); [done..|lia|lia|].
  destruct (Hmem (map context_item sel.(selected))) as (input' & Hm & Hmi' & Ht' & Hv).
  { unfold zlen in *. rewrite length_map. lia. }
  { rewrite context_items_sizes. lia. }
  { by rewrite map_map. }
  exists input, sel, retr, input'. unfold GenerationLanguageRequest_from_input. rewrite Hv. eexists.
  split_and!; [done..|by rewrite Hitems|done|done|done|done].
Qed.

Definition sample_context : ConversationContext unit :=
  context_new (controller_new PersonaProfile_default
    {| maximum_spoken_seconds := 20; controls_directness := PersonaLevel_raw 80; pace := Natural;
       follow_up_policy := Contextual; silence_policy := AllowWithoutFiller |} DirectAnswer).

Lemma sample_ids : NoDup (map record_id sample_records).
Proof. cbn. repeat constructor; rewrite ?elem_of_cons; set_solver. Qed.

Lemma language_input_accepted_witness :
  exists prepared x' input sel retrieval input',
    begin_turn (U := ascii_tables) sample_context Text (lit "tea?") = (Ok prepared, x') /\
    prepared_input prepared = Ok input /\
    select_records (U := ascii_tables) sample_records (lit "Tea") (UnixTimestampMillis_raw 9) 4 20 (fun _ => false) = Ok sel /\
    build_retrieval (fun _ => false) (RetrievalTraceId_raw 1)
      {| request_turn_id := identity_turn_id (prepared_identity prepared); query := lit "Tea";
         now := UnixTimestampMillis_raw 9; maximum_items := 4; maximum_bytes := 20; request_subject := None |} sel = Ok retrieval /\
    with_memory_items input retrieval.(retrieved_items) = Ok input'.
Proof.
  destruct (begin_turn (U := ascii_tables) sample_context Text (lit "tea?")) as [[prepared|e] x'] eqn:B;
    [|vm_compute in B; discriminate].
  assert (Hwf : wf sample_context.(quality)) by (unfold wf, in_bounds; cbn; by split_and!).
  assert (Hr : Forall wf_record sample_records) by (repeat constructor; vm_compute; discriminate).
  destruct (language_input_accepted ascii_tables unit sample_context x' Text (lit "tea?") prepared sample_records _
    (lit "Tea") (UnixTimestampMillis_raw 9) 4 20 (RetrievalTraceId_raw 1) Hwf B eq_refl Hr sample_ids)
    as (input & sel & retr & input' & final & H1 & H2 & H3 & H4 & _).
  exists prepared, x', input, sel, retr, input'. split_and!; [reflexivity|exact H1|exact H2|exact H3|exact H4].
Defined.
