(* ===== verification/CaptureTiming.v ===== *)
(** * Capture timing

    [crates/model-adapters/src/capture_timing.rs]: the coordinates a capture
    source states for its frames, their validation and their binary forms, the
    history of clock domains, and the boundary at which a capture finishes. *)

From stdpp Require Import gmap.
From S2P Require Import Prelude RustStr Errors Bytes Pcm.

Definition CAPTURE_TIMING_BYTES : nat := 88.
Definition MAX_CAPTURE_IDENTIFIER_BYTES : Z := 64.
Definition MAX_CAPTURE_CLOCK_DOMAINS : Z := 256.
Definition MAX_RECORDING_TIMING_RECORDS : Z := 1000000.
Definition MAX_RECORDING_TIMING_BYTES : Z := 128 * 1024 * 1024.
Definition CLOCK_PAIR_CADENCE_NS : Z := 1000000000.
Definition MAX_CLOCK_BRACKET_NS : Z := 5000000.
Definition MAX_CLOCK_PAIR_GAP_NS : Z := 2000000000.
Definition MAX_CLOCK_RESIDUAL_NS : Z := 10000000.

Definition invalid : AdapterError := AdapterError_new (lit "capture timing was malformed").

Abbreviation aresult A := (result A AdapterError).

(** [char::is_control]: the category Cc. *)
Definition is_control (c : rchar) : bool :=
  ((0 <=? c) && (c <=? 0x1F)) || ((0x7F <=? c) && (c <=? 0x9F)).

Definition validate_capture_identifier (value : rstr) : aresult unit :=
  if is_empty value || (MAX_CAPTURE_IDENTIFIER_BYTES <? blen value) || existsb is_control value
  then Err invalid else Ok tt.

(** ** Clock domains *)

Record CaptureDomainHistory : Type := {
  admitted : gset rstr;
  current : option rstr;
}.

Definition CaptureDomainHistory_default : CaptureDomainHistory :=
  {| admitted := ∅; current := None |}.

Definition admit_domain (h : CaptureDomainHistory) (domain : rstr) : aresult CaptureDomainHistory :=
  let? _ := validate_capture_identifier domain in
  if bool_decide (h.(current) = Some domain) then Ok h
  else if bool_decide (domain ∈ h.(admitted)) then
    Err (AdapterError_new (lit "capture clock domain was retired"))
  else if MAX_CAPTURE_CLOCK_DOMAINS <=? Z.of_nat (size h.(admitted)) then
    Err (AdapterError_new (lit "capture clock domain limit exceeded"))
  else Ok {| admitted := {[domain]} ∪ h.(admitted); current := Some domain |}.

(** ** Frame provenance *)

Inductive CaptureMappingQuality : Type :=
| NominalFrameEndpointInterpolation
| UnknownClock
| UnknownPriming
| FilterEdge
| IncompleteSourceCoverage.

#[export] Instance CaptureMappingQuality_eq_dec : EqDecision CaptureMappingQuality.
Proof. solve_decision. Defined.

Definition CaptureMappingQuality_code (q : CaptureMappingQuality) : Z :=
  match q with
  | NominalFrameEndpointInterpolation => 1
  | UnknownClock => 2
  | UnknownPriming => 3
  | FilterEdge => 4
  | IncompleteSourceCoverage => 5
  end.

Definition CaptureMappingQuality_decode (code : Z) : aresult CaptureMappingQuality :=
  if code =? 1 then Ok NominalFrameEndpointInterpolation
  else if code =? 2 then Ok UnknownClock
  else if code =? 3 then Ok UnknownPriming
  else if code =? 4 then Ok FilterEdge
  else if code =? 5 then Ok IncompleteSourceCoverage
  else Err invalid.

Record NominalCaptureSpan : Type := {
  host_start_ns : Z;
  host_end_ns : Z;
  rounding_envelope_ns : Z;
  capture_uncertainty_ns : option Z;
}.

Record FrameProvenance : Type := {
  capture_epoch : Z;
  sequence : Z;
  output_start_sample : Z;
  sample_count : Z;
  source_start_numerator : Z;
  source_end_numerator : Z;
  source_denominator : Z;
  source_rate_hz : Z;
  quality : CaptureMappingQuality;
  span : option NominalCaptureSpan;
}.

Definition FrameProvenance_validate (p : FrameProvenance) : aresult unit :=
  let? finish := ok_or (checked_add p.(output_start_sample) p.(sample_count)) invalid in
  if (p.(capture_epoch) =? 0) || (p.(sequence) =? 0) || (p.(sample_count) =? 0)
     || (p.(source_denominator) =? 0) || (p.(source_rate_hz) =? 0)
     || negb (bool_decide (checked_mul p.(output_start_sample) p.(source_rate_hz)
                           = Some p.(source_start_numerator)))
     || negb (bool_decide (checked_mul finish p.(source_rate_hz) = Some p.(source_end_numerator)))
     || negb (Bool.eqb (is_some p.(span))
                (bool_decide (p.(quality) = NominalFrameEndpointInterpolation)))
  then Err invalid
  else match p.(span) with
  | Some s =>
      if (s.(host_start_ns) =? 0) || (s.(host_end_ns) <=? s.(host_start_ns)) then Err invalid
      else Ok tt
  | None => Ok tt
  end.

Definition validate_pcm (p : FrameProvenance) (format : PcmFormat) (length : Z) : aresult unit :=
  let? _ := FrameProvenance_validate p in
  let bytes := match frame_alignment_bytes format with
    | Ok alignment => checked_mul p.(sample_count) alignment
    | Err _ => None
    end in
  if negb (p.(source_denominator) =? format.(sample_rate_hz)) || negb (bool_decide (bytes = Some length))
  then Err invalid else Ok tt.

(** The flag byte: a span is present, and its uncertainty is. *)
Definition span_flags (s : option NominalCaptureSpan) : Z :=
  match s with
  | None => 0
  | Some s => if is_some s.(capture_uncertainty_ns) then 3 else 1
  end.

(** The 32 bytes of the span, zero when there is none. *)
Definition span_bytes (s : option NominalCaptureSpan) : list Z :=
  match s with
  | None => replicate 32 0
  | Some s =>
      be_bytes 8 s.(host_start_ns) ++ be_bytes 8 s.(host_end_ns) ++
      be_bytes 8 s.(rounding_envelope_ns) ++
      be_bytes 8 (default 0 s.(capture_uncertainty_ns))
  end.

(** The fields are written at offsets 4, 12, 20, 28, 32, 40, 48, 52 and 56: one
    after the other, behind the four bytes of version, flags, quality and
    reserve. *)
Definition FrameProvenance_encode (p : FrameProvenance) : aresult (list Z) :=
  let? _ := FrameProvenance_validate p in
  Ok ([1; span_flags p.(span); CaptureMappingQuality_code p.(quality); 0] ++
      be_bytes 8 p.(capture_epoch) ++ be_bytes 8 p.(sequence) ++
      be_bytes 8 p.(output_start_sample) ++ be_bytes 4 p.(sample_count) ++
      be_bytes 8 p.(source_start_numerator) ++ be_bytes 8 p.(source_end_numerator) ++
      be_bytes 4 p.(source_denominator) ++ be_bytes 4 p.(source_rate_hz) ++
      span_bytes p.(span)).

Definition u64_at (offset : nat) (bytes : list Z) : Z := be_value (slice offset (offset + 8) bytes).
Definition u32_at (offset : nat) (bytes : list Z) : Z := be_value (slice offset (offset + 4) bytes).

(** The span of a decoded frame, as the flag byte announces it. *)
Definition decode_span (bytes : list Z) : option NominalCaptureSpan :=
  if negb (Z.land (byte_at 1 bytes) 1 =? 0) then
    Some {| host_start_ns := u64_at 56 bytes;
            host_end_ns := u64_at 64 bytes;
            rounding_envelope_ns := u64_at 72 bytes;
            capture_uncertainty_ns :=
              if negb (Z.land (byte_at 1 bytes) 2 =? 0) then Some (u64_at 80 bytes) else None |}
  else None.

Definition FrameProvenance_decode (bytes : list Z) : aresult FrameProvenance :=
  if negb (bool_decide (length bytes = CAPTURE_TIMING_BYTES)) || negb (byte_at 0 bytes =? 1)
     || negb ((byte_at 1 bytes =? 0) || (byte_at 1 bytes =? 1) || (byte_at 1 bytes =? 3))
     || negb (byte_at 3 bytes =? 0)
  then Err invalid
  else if ((byte_at 1 bytes =? 0) && existsb (fun b => negb (b =? 0)) (drop 56 bytes))
     || ((Z.land (byte_at 1 bytes) 2 =? 0) && negb (u64_at 80 bytes =? 0))
  then Err invalid
  else
    let? q := CaptureMappingQuality_decode (byte_at 2 bytes) in
    let value := {|
      capture_epoch := u64_at 4 bytes;
      sequence := u64_at 12 bytes;
      output_start_sample := u64_at 20 bytes;
      sample_count := u32_at 28 bytes;
      source_start_numerator := u64_at 32 bytes;
      source_end_numerator := u64_at 40 bytes;
      source_denominator := u32_at 48 bytes;
      source_rate_hz := u32_at 52 bytes;
      quality := q;
      span := decode_span bytes |} in
    let? _ := FrameProvenance_validate value in
    Ok value.

(** ** The cursor over a variable-length record *)

Definition cursor_take (count : nat) (remaining : list Z) : aresult (list Z * list Z) :=
  if bool_decide (length remaining < count)%nat then Err invalid
  else Ok (take count remaining, drop count remaining).

Definition cursor_byte (remaining : list Z) : aresult (Z * list Z) :=
  let? '(head, tail) := cursor_take 1 remaining in Ok (byte_at 0 head, tail).

Definition cursor_u64 (remaining : list Z) : aresult (Z * list Z) :=
  let? '(head, tail) := cursor_take 8 remaining in Ok (be_value head, tail).

Definition cursor_i64 (remaining : list Z) : aresult (Z * list Z) :=
  let? '(head, tail) := cursor_take 8 remaining in Ok (i64_of_be head, tail).

Definition cursor_id (remaining : list Z) : aresult (rstr * list Z) :=
  let? '(length, remaining) := cursor_byte remaining in
  if (length =? 0) || (MAX_CAPTURE_IDENTIFIER_BYTES <? length) then Err invalid
  else
    let? '(bytes, remaining) := cursor_take (Z.to_nat length) remaining in
    let? value := ok_or (from_utf8 bytes) invalid in
    let? _ := validate_capture_identifier value in
    Ok (value, remaining).

Definition cursor_finish (remaining : list Z) : aresult unit :=
  if is_empty remaining then Ok tt else Err invalid.

Definition put_id (id : rstr) : list Z := (blen id mod 256) :: utf8_encode id.

(** ** Epochs *)

Record CaptureEpoch : Type := {
  bridge_session_id : rstr;
  epoch_clock_domain_id : rstr;
  epoch_capture_epoch : Z;
}.

Definition CaptureEpoch_validate (e : CaptureEpoch) : aresult unit :=
  let? _ := validate_capture_identifier e.(bridge_session_id) in
  let? _ := validate_capture_identifier e.(epoch_clock_domain_id) in
  if e.(epoch_capture_epoch) =? 0 then Err invalid else Ok tt.

Definition CaptureEpoch_encode (e : CaptureEpoch) : aresult (list Z) :=
  let? _ := CaptureEpoch_validate e in
  Ok (put_id e.(bridge_session_id) ++ put_id e.(epoch_clock_domain_id) ++
      be_bytes 8 e.(epoch_capture_epoch) ++ [1]).

Definition CaptureEpoch_decode (bytes : list Z) : aresult CaptureEpoch :=
  let? '(bridge, c) := cursor_id bytes in
  let? '(domain, c) := cursor_id c in
  let? '(epoch, c) := cursor_u64 c in
  let value := {| bridge_session_id := bridge; epoch_clock_domain_id := domain;
                  epoch_capture_epoch := epoch |} in
  let? '(b, c) := cursor_byte c in
  if negb (b =? 1) then Err invalid
  else
    let? _ := cursor_finish c in
    let? _ := CaptureEpoch_validate value in
    Ok value.

Record TimedCapture : Type := {
  timed_epoch : CaptureEpoch;
  timed_frame : FrameProvenance;
}.

(** ** The boundary at which a capture finishes *)

Record CaptureFinishBoundary : Type := {
  boundary_session_id : SessionId;
  boundary_capture_epoch : Z;
  boundary_frame : option (Z * Z);
  final_clock_pair_sequence : Z;
}.

Definition CaptureFinishBoundary_new (session : SessionId) (epoch : Z) (frame_present : bool)
    (last_frame_sequence output_end_sample final_pair : Z) : aresult CaptureFinishBoundary :=
  let? frame :=
    if frame_present then
      if (0 <? last_frame_sequence) && (0 <? output_end_sample)
      then Ok (Some (last_frame_sequence, output_end_sample)) else Err invalid
    else if (last_frame_sequence =? 0) && (output_end_sample =? 0) then Ok None else Err invalid in
  if (epoch =? 0) || (final_pair =? 0) then Err invalid
  else Ok {| boundary_session_id := session; boundary_capture_epoch := epoch;
             boundary_frame := frame; final_clock_pair_sequence := final_pair |}.

(** ** Clock pairs *)

Record CaptureClockPair : Type := {
  pair_clock_domain_id : rstr;
  wall_epoch : Z;
  pair_sequence : Z;
  host_before_ns : Z;
  local_unix_ns : Z;
  host_after_ns : Z;
  wall_resolution_ns : Z;
  external_utc_accuracy_ns : option Z;
}.

Definition CaptureClockPair_validate (p : CaptureClockPair) : aresult unit :=
  let? _ := validate_capture_identifier p.(pair_clock_domain_id) in
  if (p.(wall_epoch) =? 0) || (p.(pair_sequence) =? 0) || (p.(host_before_ns) =? 0)
     || (p.(host_after_ns) <? p.(host_before_ns))
  then Err invalid else Ok tt.

Definition midpoint_twice (p : CaptureClockPair) : Z := p.(host_before_ns) + p.(host_after_ns).

Definition CaptureClockPair_encode (p : CaptureClockPair) : aresult (list Z) :=
  let? _ := CaptureClockPair_validate p in
  Ok (put_id p.(pair_clock_domain_id) ++
      be_bytes 8 p.(wall_epoch) ++ be_bytes 8 p.(pair_sequence) ++ be_bytes 8 p.(host_before_ns) ++
      i64_be_bytes p.(local_unix_ns) ++
      be_bytes 8 p.(host_after_ns) ++ be_bytes 8 p.(wall_resolution_ns) ++
      [if is_some p.(external_utc_accuracy_ns) then 1 else 0] ++
      be_bytes 8 (default 0 p.(external_utc_accuracy_ns))).

Definition CaptureClockPair_decode (bytes : list Z) : aresult CaptureClockPair :=
  let? '(domain, c) := cursor_id bytes in
  let? '(wall, c) := cursor_u64 c in
  let? '(seq, c) := cursor_u64 c in
  let? '(before, c) := cursor_u64 c in
  let? '(unix, c) := cursor_i64 c in
  let? '(after, c) := cursor_u64 c in
  let? '(resolution, c) := cursor_u64 c in
  let? '(present, c) := cursor_byte c in
  let? '(bound, c) := cursor_u64 c in
  let? accuracy :=
    if present =? 0 then if bound =? 0 then Ok None else Err invalid
    else if present =? 1 then Ok (Some bound) else Err invalid in
  let? _ := cursor_finish c in
  let pair := {| pair_clock_domain_id := domain; wall_epoch := wall; pair_sequence := seq;
                 host_before_ns := before; local_unix_ns := unix; host_after_ns := after;
                 wall_resolution_ns := resolution; external_utc_accuracy_ns := accuracy |} in
  let? _ := CaptureClockPair_validate pair in
  Ok pair.

(** ** Discontinuities and metadata *)

Inductive CaptureDiscontinuityReason : Type :=
| SourceDrop
| SequenceHole
| Reconnect
| Pause
| EpochReset
| MissingTiming
| InconsistentCoordinates
| SourceDiscontinuity
| AlignmentLimitExceeded.

Definition CaptureDiscontinuityReason_code (r : CaptureDiscontinuityReason) : Z :=
  match r with
  | SourceDrop => 1
  | SequenceHole => 2
  | Reconnect => 3
  | Pause => 4
  | EpochReset => 5
  | MissingTiming => 6
  | InconsistentCoordinates => 7
  | SourceDiscontinuity => 8
  | AlignmentLimitExceeded => 9
  end.

Definition CaptureDiscontinuityReason_decode (code : Z) : aresult CaptureDiscontinuityReason :=
  if code =? 1 then Ok SourceDrop
  else if code =? 2 then Ok SequenceHole
  else if code =? 3 then Ok Reconnect
  else if code =? 4 then Ok Pause
  else if code =? 5 then Ok EpochReset
  else if code =? 6 then Ok MissingTiming
  else if code =? 7 then Ok InconsistentCoordinates
  else if code =? 8 then Ok SourceDiscontinuity
  else if code =? 9 then Ok AlignmentLimitExceeded
  else Err invalid.

Inductive CaptureMetadata : Type :=
| Metadata_Epoch (epoch : CaptureEpoch)
| Metadata_ClockPair (pair : CaptureClockPair)
| Metadata_Discontinuity (capture_epoch : Z) (reason : CaptureDiscontinuityReason).

#[local] Arguments u64_at : simpl never.
#[local] Arguments u32_at : simpl never.
#[local] Arguments be_bytes : simpl never.
#[local] Arguments byte_at : simpl never.
#[local] Arguments slice : simpl never.
#[local] Arguments FrameProvenance_validate : simpl never.

(** ** Widths *)

Definition opt_u64 (o : option Z) : Prop := forall z, o = Some z -> is_u64 z.

Record wf_span (s : NominalCaptureSpan) : Prop := {
  wfs_start : is_u64 s.(host_start_ns);
  wfs_end : is_u64 s.(host_end_ns);
  wfs_rounding : is_u64 s.(rounding_envelope_ns);
  wfs_uncertainty : opt_u64 s.(capture_uncertainty_ns);
}.

Record wf_provenance (p : FrameProvenance) : Prop := {
  wfp_epoch : is_u64 p.(capture_epoch);
  wfp_sequence : is_u64 p.(sequence);
  wfp_output : is_u64 p.(output_start_sample);
  wfp_count : is_u32 p.(sample_count);
  wfp_source_start : is_u64 p.(source_start_numerator);
  wfp_source_end : is_u64 p.(source_end_numerator);
  wfp_denominator : is_u32 p.(source_denominator);
  wfp_rate : is_u32 p.(source_rate_hz);
  wfp_span : forall s, p.(span) = Some s -> wf_span s;
}.

(** A Rust [String]. *)
Definition wf_string (s : rstr) : Prop := forallb is_unicode_scalar s = true.

Record wf_epoch (e : CaptureEpoch) : Prop := {
  wfe_bridge : wf_string e.(bridge_session_id);
  wfe_domain : wf_string e.(epoch_clock_domain_id);
  wfe_epoch : is_u64 e.(epoch_capture_epoch);
}.

Record wf_pair (p : CaptureClockPair) : Prop := {
  wfc_domain : wf_string p.(pair_clock_domain_id);
  wfc_wall : is_u64 p.(wall_epoch);
  wfc_sequence : is_u64 p.(pair_sequence);
  wfc_before : is_u64 p.(host_before_ns);
  wfc_unix : i64_min <= p.(local_unix_ns) <= i64_max;
  wfc_after : is_u64 p.(host_after_ns);
  wfc_resolution : is_u64 p.(wall_resolution_ns);
  wfc_accuracy : opt_u64 p.(external_utc_accuracy_ns);
}.

Lemma u64_be v : is_u64 v -> be_value (be_bytes 8 v) = v.
Proof. intros H. apply be_value_bytes. ints. Qed.

Lemma u32_be v : is_u32 v -> be_value (be_bytes 4 v) = v.
Proof. intros H. apply be_value_bytes. ints. Qed.

Lemma u64_at_u64 k bs : Forall is_byte bs -> (k + 8 <= length bs)%nat -> is_u64 (u64_at k bs).
Proof. intros Hb Hl. pose proof (be_value_slice_bounds 8 k bs Hb Hl). unfold u64_at. ints. Qed.

Lemma u32_at_u32 k bs : Forall is_byte bs -> (k + 4 <= length bs)%nat -> is_u32 (u32_at k bs).
Proof. intros Hb Hl. pose proof (be_value_slice_bounds 4 k bs Hb Hl). unfold u32_at. ints. Qed.

Lemma quality_decode_code q : CaptureMappingQuality_decode (CaptureMappingQuality_code q) = Ok q.
Proof. by destruct q. Qed.

Lemma quality_code_decode c q : CaptureMappingQuality_decode c = Ok q -> CaptureMappingQuality_code q = c.
Proof. unfold CaptureMappingQuality_decode. intros H. split_ifs_in H; simplify_eq; simpl; lia. Qed.

(** ** Frame provenance *)

Lemma span_bytes_length s : length (span_bytes s) = 32%nat.
Proof. destruct s; cbn [span_bytes]; [|done]. by rewrite !length_app, !be_bytes_length. Qed.

Lemma provenance_encode_length p bs : FrameProvenance_encode p = Ok bs -> length bs = CAPTURE_TIMING_BYTES.
Proof.
  unfold FrameProvenance_encode. intros (u & _ & <-%Ok_inj)%result_bind_Ok.
  by rewrite !length_app, !be_bytes_length, span_bytes_length.
Qed.

(** What the fixed-offset reader sees in an encoded frame. *)
Lemma provenance_decode_encode p bs :
  wf_provenance p -> FrameProvenance_encode p = Ok bs -> FrameProvenance_decode bs = Ok p.
Proof.
  intros [H1 H2 H3 H4 H5 H6 H7 H8 Hs] He.
  pose proof (provenance_encode_length p bs He) as Hlen.
  unfold FrameProvenance_encode in He. destruct (FrameProvenance_validate p) as [[]|] eqn:Hv; [|done].
  apply Ok_inj in He.
  assert (B : byte_at 0 bs = 1 /\ byte_at 1 bs = span_flags p.(span) /\
              byte_at 2 bs = CaptureMappingQuality_code p.(quality) /\ byte_at 3 bs = 0)
    by (by subst bs).
  destruct B as (B0 & B1 & B2 & B3).
  assert (F : u64_at 4 bs = p.(capture_epoch) /\ u64_at 12 bs = p.(sequence) /\
    u64_at 20 bs = p.(output_start_sample) /\ u32_at 28 bs = p.(sample_count) /\
    u64_at 32 bs = p.(source_start_numerator) /\ u64_at 40 bs = p.(source_end_numerator) /\
    u32_at 48 bs = p.(source_denominator) /\ u32_at 52 bs = p.(source_rate_hz)).
  { subst bs. unfold u64_at, u32_at. cbn [Nat.add].
    split_and!; read_field; first [by apply u64_be|by apply u32_be]. }
  destruct F as (F1 & F2 & F3 & F4 & F5 & F6 & F7 & F8).
  unfold FrameProvenance_decode. rewrite bool_decide_true by done. rewrite B0, B1, B2, B3.
  rewrite quality_decode_code. cbn [result_bind]. rewrite F1, F2, F3, F4, F5, F6, F7, F8.
  unfold decode_span. rewrite B1. destruct p as [pe ps po pc pss pse pd pr pq [sp|]]; cbn in *.
  - destruct (Hs sp eq_refl) as [S1 S2 S3 S4].
    assert (G : u64_at 56 bs = sp.(host_start_ns) /\ u64_at 64 bs = sp.(host_end_ns) /\
      u64_at 72 bs = sp.(rounding_envelope_ns) /\
      u64_at 80 bs = default 0 sp.(capture_uncertainty_ns)).
    { subst bs. unfold u64_at. cbn [Nat.add]. split_and!; read_field; apply u64_be; try done.
      destruct (capture_uncertainty_ns sp) as [z|]; [by apply S4|cbn; ints]. }
    destruct G as (-> & -> & -> & G4). rewrite G4.
    destruct sp as [s1 s2 s3 [z|]]; cbn in *;
      change (Z.land 3 2) with 2; change (Z.land 3 1) with 1; change (Z.land 1 2) with 0;
      change (Z.land 1 1) with 1; cbn; by rewrite Hv.
  - assert (G : drop 56 bs = replicate 32 0) by (subst bs; done).
    assert (G4 : u64_at 80 bs = 0) by (subst bs; done).
    rewrite G, G4. change (Z.land 0 2) with 0. change (Z.land 0 1) with 0. cbn. by rewrite Hv.
Qed.

Lemma all_zero bs : existsb (fun b => negb (b =? 0)) bs = false -> bs = replicate (length bs) 0.
Proof.
  induction bs as [|b bs IH]; simpl; [done|]. intros [H1 H2]%orb_false_elim. breflect. subst.
  f_equal. by apply IH.
Qed.

Lemma slice_drop n m (bs : list Z) : length bs = m -> slice n m bs = drop n bs.
Proof. intros <-. unfold slice. apply take_ge. rewrite length_drop. lia. Qed.

(** The span read back is written to the bytes it was read from. *)
Lemma decode_span_bytes bs :
  Forall is_byte bs -> length bs = CAPTURE_TIMING_BYTES ->
  byte_at 1 bs = 0 \/ byte_at 1 bs = 1 \/ byte_at 1 bs = 3 ->
  (byte_at 1 bs =? 0) && existsb (fun b => negb (b =? 0)) (drop 56 bs) = false ->
  (Z.land (byte_at 1 bs) 2 =? 0) && negb (u64_at 80 bs =? 0) = false ->
  span_bytes (decode_span bs) = slice 56 88 bs /\ span_flags (decode_span bs) = byte_at 1 bs.
Proof.
  intros Hb Hlen Hf Hz0 Hz1. unfold decode_span.
  assert (J : be_bytes 8 (u64_at 56 bs) ++ be_bytes 8 (u64_at 64 bs) ++
              be_bytes 8 (u64_at 72 bs) ++ be_bytes 8 (u64_at 80 bs) = slice 56 88 bs).
  { unfold u64_at. rewrite !be_bytes_slice by (try done; rewrite Hlen; unfold CAPTURE_TIMING_BYTES; lia).
    cbn [Nat.add]. rewrite !slice_join by lia. done. }
  destruct Hf as [E|[E|E]]; rewrite E in *; cbn [Z.eqb andb] in *.
  - cbn. split; [|done]. rewrite slice_drop by done. rewrite (all_zero _ Hz0).
    by rewrite length_drop, Hlen.
  - change (Z.land 1 2) with 0 in *. change (Z.land 1 1) with 1. cbn in *. split; [|done]. breflect.
    rewrite <- J, Hz1. done.
  - change (Z.land 3 2) with 2 in *. change (Z.land 3 1) with 1. cbn in *. by split.
Qed.

(** The reader accepts only what the writer would have written. *)
Lemma provenance_encode_decode p bs :
  Forall is_byte bs -> FrameProvenance_decode bs = Ok p ->
  FrameProvenance_encode p = Ok bs /\ wf_provenance p.
Proof.
  intros Hb. unfold FrameProvenance_decode.
  destruct (bool_decide (length bs = CAPTURE_TIMING_BYTES)) eqn:Hlen; [|done].
  apply bool_decide_eq_true in Hlen. cbn [negb orb].
  destruct (negb (byte_at 0 bs =? 1)) eqn:B0; [done|]. cbn [orb].
  destruct (negb (_ || _ || _)) eqn:B1; [done|]. cbn [orb].
  destruct (negb (byte_at 3 bs =? 0)) eqn:B3; [done|].
  destruct ((_ =? 0) && existsb _ _ || _) eqn:BZ; [done|]. apply orb_false_elim in BZ as [BZ0 BZ1].
  destruct (CaptureMappingQuality_decode (byte_at 2 bs)) as [q|] eqn:Q; [|done]. cbn [result_bind].
  set (v := Build_FrameProvenance _ _ _ _ _ _ _ _ _ _).
  destruct (FrameProvenance_validate v) as [[]|] eqn:Hv; [|done]. intros <-%Ok_inj.
  assert (HL : forall k n, (k + n <= 88)%nat -> (k + n <= length bs)%nat) by (rewrite Hlen; done).
  apply negb_false_iff in B1. breflect.
  assert (Hf : byte_at 1 bs = 0 \/ byte_at 1 bs = 1 \/ byte_at 1 bs = 3) by lia.
  destruct (decode_span_bytes bs Hb Hlen Hf BZ0 BZ1) as [Hsb Hsf].
  apply quality_code_decode in Q. split.
  - unfold FrameProvenance_encode. rewrite Hv. cbn [result_bind]. f_equal. unfold v.
    cbn [capture_epoch sequence output_start_sample sample_count source_start_numerator
      source_end_numerator source_denominator source_rate_hz quality span].
    rewrite Hsb, Hsf, Q. unfold u64_at, u32_at.
    rewrite !be_bytes_slice by (try done; apply HL; lia). cbn [Nat.add].
    change [1; byte_at 1 bs; byte_at 2 bs; 0] with ([1] ++ [byte_at 1 bs] ++ [byte_at 2 bs] ++ [0]).
    rewrite <- B0 at 1. rewrite <- B3.
    rewrite <- !slice_cons by (rewrite Hlen; unfold CAPTURE_TIMING_BYTES; lia).
    rewrite <- !app_assoc, !slice_join by lia. apply slice_all, Hlen.
  - split; try (first [apply u64_at_u64|apply u32_at_u32]; solve [done|apply HL; lia]).
    cbn [span v]. unfold decode_span. intros s Hs. split_ifs_in Hs; simplify_eq.
    all: split; try (apply u64_at_u64; solve [done|apply HL; lia]).
    all: cbn; intros z ?; simplify_eq; apply u64_at_u64; solve [done|apply HL; lia].
Qed.

(** ** The cursor *)

Lemma cursor_take_app n (a b : list Z) : length a = n -> cursor_take n (a ++ b) = Ok (a, b).
Proof.
  intros <-. unfold cursor_take. rewrite bool_decide_false by (rewrite length_app; lia).
  by rewrite take_app_length, drop_app_length.
Qed.

Lemma cursor_take_Ok n bs a b : cursor_take n bs = Ok (a, b) -> bs = a ++ b /\ length a = n.
Proof.
  unfold cursor_take. split_ifs; intros; simplify_eq. rewrite take_drop, length_take. split; [done|lia].
Qed.

Lemma cursor_byte_app b rest : cursor_byte (b :: rest) = Ok (b, rest).
Proof. done. Qed.

Lemma cursor_byte_Ok bs b rest : cursor_byte bs = Ok (b, rest) -> bs = b :: rest.
Proof.
  unfold cursor_byte. intros ([h t] & [-> Hl]%cursor_take_Ok & H)%result_bind_Ok. simplify_eq.
  destruct h as [|b [|]]; done.
Qed.

Lemma cursor_u64_app v rest : is_u64 v -> cursor_u64 (be_bytes 8 v ++ rest) = Ok (v, rest).
Proof.
  intros H. unfold cursor_u64. rewrite cursor_take_app by apply be_bytes_length.
  cbn [result_bind]. by rewrite u64_be.
Qed.

Lemma cursor_u64_Ok bs v rest :
  Forall is_byte bs -> cursor_u64 bs = Ok (v, rest) ->
  bs = be_bytes 8 v ++ rest /\ is_u64 v /\ Forall is_byte rest.
Proof.
  intros Hb. unfold cursor_u64. intros ([h t] & [-> Hl]%cursor_take_Ok & H)%result_bind_Ok. simplify_eq.
  apply Forall_app in Hb as [Hh Ht]. split_and!; [|..|done].
  - rewrite <- Hl. by rewrite be_bytes_value.
  - pose proof (be_value_bounds h Hh). unfold zlen in *. rewrite Hl in *. ints.
Qed.

Lemma cursor_i64_app v rest : i64_min <= v <= i64_max -> cursor_i64 (i64_be_bytes v ++ rest) = Ok (v, rest).
Proof.
  intros H. unfold cursor_i64. rewrite cursor_take_app by apply be_bytes_length.
  cbn [result_bind]. rewrite i64_roundtrip; [done|ints].
Qed.

Lemma cursor_i64_Ok bs v rest :
  Forall is_byte bs -> cursor_i64 bs = Ok (v, rest) ->
  bs = i64_be_bytes v ++ rest /\ i64_min <= v <= i64_max /\ Forall is_byte rest.
Proof.
  intros Hb. unfold cursor_i64. intros ([h t] & [-> Hl]%cursor_take_Ok & H)%result_bind_Ok. simplify_eq.
  apply Forall_app in Hb as [Hh Ht]. pose proof (be_value_bounds h Hh) as Hv. unfold zlen in Hv. rewrite Hl in Hv.
  unfold i64_of_be, i64_be_bytes. split_and!; [|split_ifs; ints..|done].
  f_equal. rewrite <- (be_bytes_value h) at 1 by done. rewrite Hl. f_equal. split_ifs.
  - rewrite Z.mod_small; lia.
  - rewrite <- (Z.mod_add _ 1) by lia. rewrite Z.mod_small; lia.
Qed.

Lemma cursor_id_app id rest :
  wf_string id -> validate_capture_identifier id = Ok tt ->
  cursor_id (put_id id ++ rest) = Ok (id, rest).
Proof.
  intros Hw Hv. unfold cursor_id, put_id. cbn [app]. rewrite cursor_byte_app. cbn [result_bind].
  pose proof Hv as Hv'. unfold validate_capture_identifier in Hv'. destruct (_ || _) eqn:E in Hv'; [done|].
  breflect. pose proof (blen_nonneg id). unfold MAX_CAPTURE_IDENTIFIER_BYTES in *. rewrite Z.mod_small by lia.
  assert (blen id <> 0) by (intros ->%blen_0; done).
  rewrite (proj2 (Z.eqb_neq _ _)), (proj2 (Z.ltb_ge _ _)) by lia. cbn [orb].
  rewrite cursor_take_app.
  - cbn [result_bind]. rewrite from_utf8_encode by done. cbn [ok_or result_bind].
    by rewrite Hv.
  - pose proof (utf8_encode_length id). unfold zlen in *. lia.
Qed.

Lemma cursor_id_Ok bs id rest :
  Forall is_byte bs -> cursor_id bs = Ok (id, rest) ->
  bs = put_id id ++ rest /\ wf_string id /\ validate_capture_identifier id = Ok tt /\ Forall is_byte rest.
Proof.
  intros Hb. unfold cursor_id. intros ([n t] & ->%cursor_byte_Ok & H)%result_bind_Ok.
  destruct (_ || _) eqn:E; [done|]. breflect. inversion_clear Hb as [|? ? Hn Ht]. unfold is_byte in Hn.
  apply result_bind_Ok in H as ([h t'] & [-> Hl]%cursor_take_Ok & H).
  apply result_bind_Ok in H as (value & Hu & H). destruct (from_utf8 h) as [s|] eqn:Hs; [|done].
  cbn in Hu. simplify_eq. apply from_utf8_Some in Hs as [<- Hw].
  apply result_bind_Ok in H as ([] & Hv & H). simplify_eq. apply Forall_app in Ht as [_ Ht].
  split_and!; [|done..]. unfold put_id. cbn [app]. f_equal.
  pose proof (utf8_encode_length id) as HL. unfold zlen in HL. rewrite Hl in HL.
  rewrite <- HL, Z2Nat.id by lia. by rewrite Z.mod_small.
Qed.

(** ** Epochs and clock pairs *)

Lemma epoch_validate_ids e :
  CaptureEpoch_validate e = Ok tt ->
  validate_capture_identifier e.(bridge_session_id) = Ok tt /\
  validate_capture_identifier e.(epoch_clock_domain_id) = Ok tt.
Proof.
  unfold CaptureEpoch_validate. intros ([] & H1 & H)%result_bind_Ok.
  by apply result_bind_Ok in H as ([] & H2 & _).
Qed.

Lemma epoch_decode_encode e bs :
  wf_epoch e -> CaptureEpoch_encode e = Ok bs -> CaptureEpoch_decode bs = Ok e.
Proof.
  intros [W1 W2 W3]. unfold CaptureEpoch_encode. intros ([] & Hv & <-%Ok_inj)%result_bind_Ok.
  destruct (epoch_validate_ids e Hv) as [V1 V2].
  unfold CaptureEpoch_decode. rewrite cursor_id_app by done. cbn [result_bind].
  rewrite cursor_id_app by done. cbn [result_bind]. rewrite cursor_u64_app by done.
  cbn [result_bind]. rewrite cursor_byte_app. cbn. destruct e; cbn in *. by rewrite Hv.
Qed.

Lemma epoch_encode_decode e bs :
  Forall is_byte bs -> CaptureEpoch_decode bs = Ok e -> CaptureEpoch_encode e = Ok bs /\ wf_epoch e.
Proof.
  intros Hb. unfold CaptureEpoch_decode.
  intros ([b c] & (-> & W1 & V1 & Hc)%cursor_id_Ok & H)%result_bind_Ok; [|done].
  apply result_bind_Ok in H as ([d c2] & (-> & W2 & V2 & Hc2)%cursor_id_Ok & H); [|done].
  apply result_bind_Ok in H as ([n c3] & (-> & W3 & Hc3)%cursor_u64_Ok & H); [|done].
  apply result_bind_Ok in H as ([x c4] & ->%cursor_byte_Ok & H).
  destruct (negb (x =? 1)) eqn:E; [done|]. breflect. subst x.
  apply result_bind_Ok in H as ([] & Hf & H). unfold cursor_finish in Hf.
  destruct c4; [|done]. apply result_bind_Ok in H as ([] & Hv & <-%Ok_inj).
  split; [|by split]. unfold CaptureEpoch_encode. by rewrite Hv.
Qed.

Lemma pair_decode_encode p bs :
  wf_pair p -> CaptureClockPair_encode p = Ok bs -> CaptureClockPair_decode bs = Ok p.
Proof.
  intros [W1 W2 W3 W4 W5 W6 W7 W8]. unfold CaptureClockPair_encode.
  intros ([] & Hv & <-%Ok_inj)%result_bind_Ok.
  assert (V : validate_capture_identifier p.(pair_clock_domain_id) = Ok tt).
  { unfold CaptureClockPair_validate in Hv. by apply result_bind_Ok in Hv as ([] & V & _). }
  unfold CaptureClockPair_decode. rewrite cursor_id_app by done. cbn [result_bind].
  rewrite !cursor_u64_app by done. cbn [result_bind].
  rewrite cursor_u64_app by done. cbn [result_bind]. rewrite cursor_u64_app by done. cbn [result_bind].
  rewrite cursor_i64_app by done. cbn [result_bind]. rewrite cursor_u64_app by done. cbn [result_bind].
  rewrite cursor_u64_app by done. cbn [result_bind app]. rewrite cursor_byte_app. cbn [result_bind].
  rewrite <- (app_nil_r (be_bytes 8 _)), cursor_u64_app.
  - cbn [result_bind]. destruct p as [? ? ? ? ? ? ? [z|]]; cbn in *; by rewrite Hv.
  - destruct (external_utc_accuracy_ns p) as [z|]; [by apply W8|cbn; ints].
Qed.

Lemma pair_encode_decode p bs :
  Forall is_byte bs -> CaptureClockPair_decode bs = Ok p ->
  CaptureClockPair_encode p = Ok bs /\ wf_pair p.
Proof.
  intros Hb. unfold CaptureClockPair_decode.
  intros ([d c] & (-> & W1 & V1 & Hc)%cursor_id_Ok & H)%result_bind_Ok; [|done].
  apply result_bind_Ok in H as ([n1 c1] & (-> & W2 & Hc1)%cursor_u64_Ok & H); [|done].
  apply result_bind_Ok in H as ([n2 c2] & (-> & W3 & Hc2)%cursor_u64_Ok & H); [|done].
  apply result_bind_Ok in H as ([n3 c3] & (-> & W4 & Hc3)%cursor_u64_Ok & H); [|done].
  apply result_bind_Ok in H as ([n4 c4] & (-> & W5 & Hc4)%cursor_i64_Ok & H); [|done].
  apply result_bind_Ok in H as ([n5 c5] & (-> & W6 & Hc5)%cursor_u64_Ok & H); [|done].
  apply result_bind_Ok in H as ([n6 c6] & (-> & W7 & Hc6)%cursor_u64_Ok & H); [|done].
  apply result_bind_Ok in H as ([x c7] & ->%cursor_byte_Ok & H). inversion_clear Hc6 as [|? ? Hx Hc7].
  apply result_bind_Ok in H as ([n7 c8] & (-> & W8 & Hc8)%cursor_u64_Ok & H); [|done].
  apply result_bind_Ok in H as (acc & Ha & H). apply result_bind_Ok in H as ([] & Hf & H).
  unfold cursor_finish in Hf. destruct c8; [|done]. apply result_bind_Ok in H as ([] & Hv & <-%Ok_inj).
  assert (A : x = (if is_some acc then 1 else 0) /\ n7 = default 0 acc /\ opt_u64 acc).
  { inv_branches Ha; (split_and!; [done..|intros z ?; by simplify_eq]). }
  destruct A as (-> & -> & A). split; [|by split].
  unfold CaptureClockPair_encode. rewrite Hv. cbn [result_bind]. by rewrite app_nil_r.
Qed.

(** ** Sequences of clock domains *)

Fixpoint admit_all (h : CaptureDomainHistory) (ds : list rstr) : aresult CaptureDomainHistory :=
  match ds with
  | [] => Ok h
  | d :: rest => let? h' := admit_domain h d in admit_all h' rest
  end.

Lemma admit_all_snoc h ds d :
  admit_all h (ds ++ [d]) = (let? h' := admit_all h ds in admit_domain h' d).
Proof.
  revert h. induction ds as [|x ds IH]; intros h; simpl.
  - by destruct (admit_domain h d).
  - destruct (admit_domain h x); simpl; [apply IH|done].
Qed.

Lemma admit_domain_Ok h d h' :
  admit_domain h d = Ok h' ->
  h.(current) = Some d /\ h' = h \/
  d ∉ h.(admitted) /\ Z.of_nat (size h.(admitted)) < MAX_CAPTURE_CLOCK_DOMAINS /\
    h' = {| admitted := {[d]} ∪ h.(admitted); current := Some d |}.
Proof.
  unfold admit_domain. intros ([] & _ & H)%result_bind_Ok.
  split_ifs_in H; simplify_eq; breflect; auto.
Qed.

(** The history is the set of the domains admitted and the last of them. *)
Lemma admit_all_history ds h :
  admit_all CaptureDomainHistory_default ds = Ok h ->
  h.(admitted) = list_to_set ds /\ h.(current) = last ds /\
  Z.of_nat (size h.(admitted)) <= MAX_CAPTURE_CLOCK_DOMAINS.
Proof.
  revert h. induction ds as [|d ds IH] using rev_ind; intros h; [simpl; intros; by simplify_eq|].
  rewrite admit_all_snoc. intros (h0 & H0 & H)%result_bind_Ok. destruct (IH h0 H0) as (A & B & C).
  rewrite list_to_set_app_L, last_snoc. simpl. rewrite (right_id_L ∅ (∪)).
  apply admit_domain_Ok in H as [[Hc ->]|(Hn & Hs & ->)]; cbn [admitted current].
  - rewrite Hc in B. symmetry in B. apply last_Some_elem_of in B.
    split_and!; [|done|done]. rewrite A. set_solver.
  - split_and!; [rewrite A; set_solver|done|]. rewrite size_union, size_singleton by set_solver. lia.
Qed.

Lemma domain_runs ds h :
  admit_all CaptureDomainHistory_default ds = Ok h ->
  forall i j k d, (i < j < k)%nat -> ds !! i = Some d -> ds !! k = Some d -> ds !! j = Some d.
Proof.
  revert h. induction ds as [|x ds IH] using rev_ind; intros h; [done|].
  rewrite admit_all_snoc. intros (h0 & H0 & H)%result_bind_Ok i j k d Hijk Hi Hk.
  destruct (admit_all_history ds h0 H0) as (A & B & _).
  apply lookup_lt_Some in Hk as Hlt. rewrite length_app in Hlt. simpl in Hlt.
  rewrite !lookup_app_l in * by lia.
  destruct (decide (k < length ds)%nat) as [Hk'|Hk'].
  - rewrite lookup_app_l in Hk by lia. by eapply (IH h0 H0 i j k).
  - assert (k = length ds) as -> by lia. rewrite list_lookup_middle in Hk by done. simplify_eq.
    apply admit_domain_Ok in H as [[Hc _]|[Hn _]].
    + rewrite Hc, last_lookup in B. symmetry in B.
      destruct (decide (j = pred (length ds))) as [->|]; [done|].
      apply (IH h0 H0 i j (pred (length ds)) d); [lia|done..].
    + destruct Hn. rewrite A. apply elem_of_list_to_set. by eapply list_elem_of_lookup_2.
Qed.

(** ** Claims *)

(** The binary forms of capture timing lose nothing: whatever the writer
    encodes (a frame's provenance, an epoch, a clock pair of values within
    their widths), the reader decodes to the same value. *)
Theorem capture_codecs_roundtrip :
  (forall p bs, wf_provenance p -> FrameProvenance_encode p = Ok bs -> FrameProvenance_decode bs = Ok p) /\
  (forall e bs, wf_epoch e -> CaptureEpoch_encode e = Ok bs -> CaptureEpoch_decode bs = Ok e) /\
  (forall p bs, wf_pair p -> CaptureClockPair_encode p = Ok bs -> CaptureClockPair_decode bs = Ok p).
Proof.
  split_and!; intros *; [apply provenance_decode_encode|apply epoch_decode_encode|apply pair_decode_encode].
Qed.

(** The binary forms are canonical: a byte string the reader accepts is
    exactly the one the writer produces for the value read, so no two byte
    strings stand for one record, and every value read is within its widths. *)
Theorem capture_codecs_canonical bs :
  Forall is_byte bs ->
  (forall p, FrameProvenance_decode bs = Ok p -> FrameProvenance_encode p = Ok bs /\ wf_provenance p) /\
  (forall e, CaptureEpoch_decode bs = Ok e -> CaptureEpoch_encode e = Ok bs /\ wf_epoch e) /\
  (forall p, CaptureClockPair_decode bs = Ok p -> CaptureClockPair_encode p = Ok bs /\ wf_pair p).
Proof.
  intros H. split_and!; intros *;
    [by apply provenance_encode_decode|by apply epoch_encode_decode|by apply pair_encode_decode].
Qed.

Definition sample_provenance : FrameProvenance :=
  {| capture_epoch := 1; sequence := 7; output_start_sample := 480; sample_count := 160;
     source_start_numerator := 480 * 48000; source_end_numerator := 640 * 48000;
     source_denominator := 16000; source_rate_hz := 48000;
     quality := NominalFrameEndpointInterpolation;
     span := Some {| host_start_ns := 10; host_end_ns := 20; rounding_envelope_ns := 1;
                     capture_uncertainty_ns := Some 5 |} |}.

Definition sample_provenance_bytes : list Z :=
  match FrameProvenance_encode sample_provenance with Ok bs => bs | Err _ => [] end.

Lemma capture_codecs_roundtrip_witness :
  FrameProvenance_decode sample_provenance_bytes = Ok sample_provenance.
Proof.
  apply (proj1 capture_codecs_roundtrip); [|reflexivity].
  split; cbn; try ints. intros s Hs. injection Hs as <-.
  split; cbn; try ints. intros z Hz. injection Hz as <-. ints.
Defined.

Lemma capture_codecs_canonical_witness :
  FrameProvenance_decode sample_provenance_bytes = Ok sample_provenance /\
  FrameProvenance_encode sample_provenance = Ok sample_provenance_bytes.
Proof.
  assert (H : FrameProvenance_decode sample_provenance_bytes = Ok sample_provenance) by reflexivity.
  split; [exact H|].
  refine (proj1 (proj1 (capture_codecs_canonical sample_provenance_bytes _) _ H)).
  apply bytes_ok_sound. reflexivity.
Defined.

(** A clock domain is never resurrected: when a sequence of domains is
    admitted, at most 256 distinct ones are held, and a domain that was left
    for another is never admitted again, so the occurrences of each domain are
    contiguous. *)
Theorem clock_domains_never_resurrected ds h :
  admit_all CaptureDomainHistory_default ds = Ok h ->
  Z.of_nat (size h.(admitted)) <= MAX_CAPTURE_CLOCK_DOMAINS /\
  h.(admitted) = list_to_set ds /\ h.(current) = last ds /\
  (forall i j k d, (i < j < k)%nat -> ds !! i = Some d -> ds !! k = Some d -> ds !! j = Some d).
Proof.
  intros H. destruct (admit_all_history ds h H) as (A & B & C).
  split_and!; try done. exact (domain_runs ds h H).
Qed.

Lemma clock_domains_never_resurrected_witness :
  exists h, admit_all CaptureDomainHistory_default [lit "a"; lit "a"; lit "b"] = Ok h /\
    h.(current) = Some (lit "b").
Proof.
  destruct (admit_all CaptureDomainHistory_default [lit "a"; lit "a"; lit "b"]) as [h|] eqn:E;
    [|vm_compute in E; discriminate].
  exists h. split; [reflexivity|].
  exact (proj1 (proj2 (proj2 (clock_domains_never_resurrected _ h E)))).
Defined.
