(* ===== verification/Decimals.v ===== *)
(** * Decimal numbers as the standard library parses and prints them

    [str::parse::<u64>], [str::parse::<i64>] and their agreement with
    [to_string] ([decimal]). *)

From S2P Require Import Prelude RustStr.

Local Open Scope Z_scope.

(** The value of a string of digits read after [v]. *)
Definition dec_value (v : Z) (s : rstr) : Z := fold_left (fun v c => v * 10 + (c - 0x30)) s v.

(** A non-empty string of ASCII digits. *)
Definition digits (s : rstr) : option Z :=
  if negb (is_empty s) && forallb is_ascii_digit s then Some (dec_value 0 s) else None.

(** [parse::<u64>]: an optional plus sign, digits, and a value within the type. *)
Definition parse_u64 (s : rstr) : option Z :=
  let body := match s with 0x2B :: rest => rest | _ => s end in
  n ← digits body; if n <=? u64_max then Some n else None.

Definition parse_i64 (s : rstr) : option Z :=
  n ← (match s with
       | 0x2B :: rest => digits rest
       | 0x2D :: rest => Z.opp <$> digits rest
       | _ => digits s
       end);
  if (i64_min <=? n) && (n <=? i64_max) then Some n else None.

(** ** Printing and parsing *)

Lemma decimal_digits_value fuel n acc :
  0 <= n < 10 ^ Z.of_nat fuel -> dec_value 0 (decimal_digits fuel n acc) = dec_value n acc.
Proof.
  revert n acc. induction fuel as [|fuel IH]; intros n acc H.
  - cbn. change (10 ^ Z.of_nat 0) with 1 in H. by replace n with 0 by lia.
  - rewrite Nat2Z.inj_succ, Z.pow_succ_r in H by lia. cbn [decimal_digits].
    pose proof (Z.div_mod n 10 ltac:(lia)). destruct (n / 10 =? 0) eqn:E; breflect.
    + unfold dec_value. cbn [fold_left]. f_equal. lia.
    + rewrite IH by (split; [apply Z.div_pos|apply Z.div_lt_upper_bound]; lia).
      unfold dec_value. cbn [fold_left]. f_equal. lia.
Qed.

Lemma decimal_digits_digits fuel n acc :
  0 <= n -> forallb is_ascii_digit acc = true -> forallb is_ascii_digit (decimal_digits fuel n acc) = true.
Proof.
  revert n acc. induction fuel as [|fuel IH]; intros n acc Hn Ha; [done|]. cbn [decimal_digits].
  assert (D : forallb is_ascii_digit (48 + n mod 10 :: acc) = true).
  { cbn. rewrite Ha, andb_true_r. unfold is_ascii_digit. pose proof (Z.mod_pos_bound n 10). apply andb_true_intro. split; apply Z.leb_le; lia. }
  destruct (_ =? 0); [done|]. apply IH; [by apply Z.div_pos|done].
Qed.

Lemma decimal_digits_not_nil fuel n acc : (fuel <> 0)%nat \/ acc <> [] -> decimal_digits fuel n acc <> [].
Proof.
  revert n acc. induction fuel as [|fuel IH]; intros n acc H; [by destruct H|]. cbn [decimal_digits].
  destruct (_ =? 0); [done|]. apply IH. by right.
Qed.

Lemma digits_decimal_digits n : 0 <= n < 10 ^ 40 -> digits (decimal_digits 40 n []) = Some n.
Proof.
  intros H. unfold digits. rewrite decimal_digits_digits by (done || lia). rewrite decimal_digits_value by done.
  assert (N : decimal_digits 40 n [] <> []) by (apply decimal_digits_not_nil; by left). by destruct (decimal_digits 40 n []).
Qed.

Lemma decimal_digits_sign fuel n acc :
  0 <= n -> forallb is_ascii_digit acc = true ->
  forall c s, decimal_digits fuel n acc = c :: s -> c <> 0x2B /\ c <> 0x2D.
Proof.
  intros Hn Ha c s E. pose proof (decimal_digits_digits fuel n acc Hn Ha) as D. rewrite E in D. cbn in D. unfold is_ascii_digit in D. breflect. lia.
Qed.

(** What [to_string] prints, [parse] reads. *)
Lemma parse_u64_decimal n : is_u64 n -> parse_u64 (decimal n) = Some n.
Proof.
  intros H. unfold parse_u64, decimal. rewrite (proj2 (Z.ltb_ge _ _)) by ints. pose proof (digits_decimal_digits n ltac:(ints)) as D.
  destruct (decimal_digits 40 n []) as [|c s] eqn:E; [done|]. destruct (decimal_digits_sign 40 n [] ltac:(ints) eq_refl c s E) as [N _].
  assert (M : match c :: s with 43 :: rest => rest | _ => c :: s end = c :: s)
    by (destruct c as [|p|p]; try done; do 6 (try destruct p as [p|p|]; try done)).
  rewrite M, D. cbn. by rewrite (proj2 (Z.leb_le _ _)) by ints.
Qed.

Lemma parse_i64_decimal n : i64_min <= n <= i64_max -> parse_i64 (decimal n) = Some n.
Proof.
  intros H. unfold parse_i64, decimal. destruct (n <? 0) eqn:L; breflect.
  - rewrite digits_decimal_digits by ints. cbn. rewrite Z.opp_involutive. by rewrite !(proj2 (Z.leb_le _ _)) by ints.
  - pose proof (digits_decimal_digits n ltac:(ints)) as D.
    destruct (decimal_digits 40 n []) as [|c s] eqn:E; [done|]. destruct (decimal_digits_sign 40 n [] ltac:(ints) eq_refl c s E) as [N1 N2].
    assert (M : match c :: s with 43 :: rest => digits rest | 45 :: rest => Z.opp <$> digits rest | _ => digits (c :: s) end = digits (c :: s))
      by (destruct c as [|p|p]; try done; do 6 (try destruct p as [p|p|]; try done)).
    rewrite M, D. cbn. by rewrite !(proj2 (Z.leb_le _ _)) by ints.
Qed.

(** ** Shape of a printed number *)

Lemma decimal_digits_length fuel n acc k : (1 <= k)%nat -> 0 <= n < 10 ^ Z.of_nat k ->
  (length (decimal_digits fuel n acc) <= k + length acc)%nat.
Proof.
  revert n acc k. induction fuel as [|fuel IH]; intros n acc k K H; cbn [decimal_digits]; [lia|].
  destruct (_ =? 0) eqn:E; breflect; [cbn [length]; lia|].
  destruct k as [|[|k]]; [lia| |].
  - exfalso. apply E. apply Z.div_small. lia.
  - specialize (IH (n / 10) (48 + n mod 10 :: acc) (S k) ltac:(lia)). cbn [length] in IH.
    rewrite Nat2Z.inj_succ, Z.pow_succ_r in H by lia.
    assert (0 <= n / 10 < 10 ^ Z.of_nat (S k)) as B%IH by (split; [apply Z.div_pos; lia|apply Z.div_lt_upper_bound; lia]). lia.
Qed.

Lemma decimal_text n k : (1 <= k)%nat -> 0 <= n < 10 ^ Z.of_nat k ->
  forallb is_ascii_digit (decimal n) = true /\ (length (decimal n) <= k)%nat /\ decimal n <> [].
Proof.
  intros K H. unfold decimal. rewrite (proj2 (Z.ltb_ge _ _)) by lia. split; [|split].
  - apply decimal_digits_digits; [lia|done].
  - pose proof (decimal_digits_length 40 n [] k K H). cbn [length] in *. lia.
  - apply decimal_digits_not_nil. by left.
Qed.

Lemma decimal_digits_head fuel n acc : 0 < n < 10 ^ Z.of_nat fuel ->
  exists d rest, decimal_digits fuel n acc = d :: rest /\ 49 <= d <= 57.
Proof.
  revert n acc. induction fuel as [|fuel IH]; intros n acc H; [change (10 ^ Z.of_nat 0) with 1 in H; lia|].
  rewrite Nat2Z.inj_succ, Z.pow_succ_r in H by lia. cbn [decimal_digits]. destruct (_ =? 0) eqn:E; breflect.
  - eexists _, _. split; [done|]. Z.div_mod_to_equations. lia.
  - apply IH. split; [|apply Z.div_lt_upper_bound; lia]. assert (0 <= n / 10) by (apply Z.div_pos; lia). lia.
Qed.

(** No leading zero. *)
Lemma decimal_head n : 0 < n < 10 ^ 40 -> exists d rest, decimal n = d :: rest /\ 49 <= d <= 57.
Proof. intros H. unfold decimal. rewrite (proj2 (Z.ltb_ge _ _)) by lia. by apply decimal_digits_head. Qed.
