(* ===== verification/ClientTiming.v ===== *)
(** * The client's view of a recording's alignment

    [crates/protocol/src/client_timing.rs]: the pages, entries and completion
    sent to a client that asks how the frames of a recording relate to the
    capture and wall clocks, with the validation of each. Numbers are decimal
    strings, and must be written the way [to_string] writes them.

    The length of a page's JSON is [serde_json]'s and is a parameter. *)

From S2P Require Import Prelude RustStr Bytes Errors Decimals CaptureTiming.

Local Open Scope Z_scope.

(** The error enum of [client_wire.rs]. The JSON error that is kept is always the
    same one, without any part of the payload. *)
Inductive ClientWireError : Type :=
| InvalidJson
| UnsupportedProtocolVersion (version : Z)
| InvalidRequestId
| InvalidTranscript
| InvalidConversationContext
| InvalidIdentifier
| InvalidRuntimeErrorCode
| InvalidRuntimeStatus
| InvalidVoiceEvent
| MismatchedVoiceIdentity
| InvalidMemoryResponse
| InvalidPersonaState
| InvalidRecordingSummary
| InvalidFinalizedRecordingCapability
| InvalidRecordingHandle
| InvalidRecordingReconciliation
| InvalidTextProcessingRequest
| InvalidProcessedText
| InvalidMediaLease
| PayloadTooLarge (actual maximum : Z)
| UnsupportedRuntimeEvent (event : rstr).

Abbreviation wresult A := (result A ClientWireError) (only parsing).

Definition wire_invalid : ClientWireError := InvalidRecordingSummary.

Definition MAX_ALIGNMENT_PAGE_ENTRIES : Z := 64.
Definition MAX_ALIGNMENT_PAGE_BYTES : Z := 32 * 1024.

(** ** Checks on strings *)

Definition client_identifier (value : rstr) : wresult unit :=
  if is_empty value || (64 <? blen value) || existsb is_control value then Err wire_invalid else Ok tt.

Definition client_hex (value : rstr) (len : Z) : bool :=
  (blen value =? len) && forallb is_lowercase_hex_byte (utf8_encode value).

(** [decimal]: a [u64] written canonically. *)
Definition client_decimal (value : rstr) (positive : bool) : wresult Z :=
  let? number := ok_or (parse_u64 value) wire_invalid in
  if negb (bool_decide (decimal number = value)) || (positive && (number =? 0)) then Err wire_invalid else Ok number.

Definition signed_decimal (value : rstr) : wresult Z :=
  let? number := ok_or (parse_i64 value) wire_invalid in
  if negb (bool_decide (decimal number = value)) then Err wire_invalid else Ok number.

Definition optional_decimal (value : option rstr) : wresult unit :=
  match value with
  | Some value => let? _ := client_decimal value false in Ok tt
  | None => Ok tt
  end.

Definition one_of (names : list rstr) (value : rstr) : bool := existsb (fun n => bool_decide (n = value)) names.

Definition REASONS : list rstr :=
  [lit "source_drop"; lit "sequence_hole"; lit "reconnect"; lit "pause"; lit "epoch_reset"; lit "missing_timing";
   lit "inconsistent_coordinates"; lit "source_discontinuity"; lit "alignment_limit_exceeded"; lit "audio_missing";
   lit "capture_alignment_missing"; lit "wall_alignment_missing"; lit "wall_clock_discontinuity"; lit "clock_pair_gap";
   lit "clock_bracket_exceeded"; lit "missing_clock_pair"; lit "clock_domain_mismatch"; lit "arithmetic_overflow";
   lit "local_wall_timestamp_estimate"; lit "unavailable_legacy"].

(** Some value is unknown or repeats an earlier one of [seen]. *)
Fixpoint bad_reason (seen values : list rstr) : bool :=
  match values with
  | [] => false
  | value :: rest => negb (one_of REASONS value) || one_of seen value || bad_reason (seen ++ [value]) rest
  end.

Definition validate_reasons (values : list rstr) : wresult unit :=
  if (zlen REASONS <? zlen values) || bad_reason [] values then Err wire_invalid else Ok tt.

(** [str::split]. *)
Fixpoint split_char (c : rchar) (s : rstr) : list rstr :=
  match s with
  | [] => [[]]
  | d :: rest =>
      if d =? c then [] :: split_char c rest
      else match split_char c rest with
           | piece :: pieces => (d :: piece) :: pieces
           | [] => [[d]]
           end
  end.

Definition validate_capture_format (value : rstr) : wresult unit :=
  if 64 <? blen value then Err wire_invalid
  else match split_char 0x2F value with
  | [kind; rate; channels; duration] =>
      if negb (one_of [lit "pcm_s16le"; lit "pcm_f32le"] kind) then Err wire_invalid
      else
        let? rate := client_decimal rate true in
        let? channels := client_decimal channels true in
        let? duration := ok_or (strip_suffix (lit "ms") duration) wire_invalid in
        let? duration := client_decimal duration true in
        if (u32_max <? rate) || (u16_max <? channels) || (u32_max <? duration) then Err wire_invalid else Ok tt
  | _ => Err wire_invalid
  end.

Definition validate_capture_identity (value : rstr) : wresult unit := client_identifier value.

(** ** Values *)

Record ClientRecordingIdentity : Type := {
  id_source_session_id : rstr;
  id_recording_handle : rstr;
  id_sha256 : rstr;
}.

Definition ClientRecordingIdentity_validate (v : ClientRecordingIdentity) : wresult unit :=
  let? _ := client_decimal v.(id_source_session_id) true in
  if negb (client_hex v.(id_recording_handle) 32) || negb (client_hex v.(id_sha256) 64) then Err wire_invalid else Ok tt.

Record ClientAlignmentPolicy : Type := {
  policy_name : rstr;
  cadence_target_ns : rstr;
  policy_maximum_bracket_ns : rstr;
  maximum_pair_gap_ns : rstr;
  maximum_residual_ns : rstr;
}.

#[export] Instance ClientAlignmentPolicy_eq_dec : EqDecision ClientAlignmentPolicy.
Proof. solve_decision. Defined.

Definition ClientAlignmentPolicy_default : ClientAlignmentPolicy :=
  {| policy_name := lit "local-wall-estimate/v1"; cadence_target_ns := lit "1000000000";
     policy_maximum_bracket_ns := lit "5000000"; maximum_pair_gap_ns := lit "2000000000";
     maximum_residual_ns := lit "10000000" |}.

Record ClientCaptureEpoch : Type := {
  ce_bridge_session_id : rstr;
  ce_clock_domain_id : rstr;
  ce_capture_epoch : rstr;
}.

Definition ClientCaptureEpoch_validate (e : ClientCaptureEpoch) : wresult unit :=
  let? _ := client_identifier e.(ce_bridge_session_id) in
  let? _ := client_identifier e.(ce_clock_domain_id) in
  let? _ := client_decimal e.(ce_capture_epoch) true in
  Ok tt.

Record ClientNominalCaptureSpan : Type := {
  cs_host_start_ns : rstr;
  cs_host_end_ns : rstr;
  cs_rounding_envelope_ns : rstr;
  cs_capture_uncertainty_ns : option rstr;
}.

Record ClientFrameProvenance : Type := {
  cf_capture_epoch : rstr;
  cf_sequence : rstr;
  cf_output_start_sample : rstr;
  cf_sample_count : Z;
  cf_source_start_numerator : rstr;
  cf_source_end_numerator : rstr;
  cf_source_denominator : Z;
  cf_source_rate_hz : Z;
  cf_quality : rstr;
  cf_span : option ClientNominalCaptureSpan;
}.

Definition QUALITIES : list rstr :=
  [lit "nominal_frame_endpoint_interpolation"; lit "unknown_clock"; lit "unknown_priming"; lit "filter_edge";
   lit "incomplete_source_coverage"].

Definition ClientFrameProvenance_validate (f : ClientFrameProvenance) : wresult unit :=
  let? _ := client_decimal f.(cf_capture_epoch) true in
  let? _ := client_decimal f.(cf_sequence) true in
  let? start := client_decimal f.(cf_output_start_sample) false in
  let? source_start := client_decimal f.(cf_source_start_numerator) false in
  let? source_end := client_decimal f.(cf_source_end_numerator) false in
  if (f.(cf_sample_count) =? 0) || (f.(cf_source_denominator) =? 0) || (f.(cf_source_rate_hz) =? 0)
     || negb (bool_decide (checked_mul start f.(cf_source_rate_hz) = Some source_start))
     || negb (bool_decide ((v ← checked_add start f.(cf_sample_count); checked_mul v f.(cf_source_rate_hz)) = Some source_end))
     || negb (one_of QUALITIES f.(cf_quality))
     || negb (Bool.eqb (is_some f.(cf_span)) (bool_decide (f.(cf_quality) = lit "nominal_frame_endpoint_interpolation")))
  then Err wire_invalid
  else match f.(cf_span) with
  | Some s =>
      let? start := client_decimal s.(cs_host_start_ns) true in
      let? finish := client_decimal s.(cs_host_end_ns) true in
      if finish <=? start then Err wire_invalid
      else
        let? _ := client_decimal s.(cs_rounding_envelope_ns) false in
        optional_decimal s.(cs_capture_uncertainty_ns)
  | None => Ok tt
  end.

Record ClientCaptureClockPair : Type := {
  cp_clock_domain_id : rstr;
  cp_wall_epoch : rstr;
  cp_sequence : rstr;
  cp_host_before_ns : rstr;
  cp_local_unix_ns : rstr;
  cp_host_after_ns : rstr;
  cp_wall_resolution_ns : rstr;
  cp_external_utc_accuracy_ns : option rstr;
}.

Definition ClientCaptureClockPair_validate (p : ClientCaptureClockPair) : wresult unit :=
  let? _ := client_identifier p.(cp_clock_domain_id) in
  let? _ := client_decimal p.(cp_wall_epoch) true in
  let? _ := client_decimal p.(cp_sequence) true in
  let? before := client_decimal p.(cp_host_before_ns) true in
  let? after := client_decimal p.(cp_host_after_ns) true in
  if after <? before then Err wire_invalid
  else
    let? _ := signed_decimal p.(cp_local_unix_ns) in
    let? _ := client_decimal p.(cp_wall_resolution_ns) false in
    optional_decimal p.(cp_external_utc_accuracy_ns).

Record ClientWallEstimate : Type := {
  cw_quality : rstr;
  cw_policy_id : rstr;
  local_start_ns : rstr;
  local_end_ns : rstr;
  cw_wall_epoch : rstr;
  cw_wall_run : rstr;
  maximum_bracket_ns : rstr;
  maximum_resolution_ns : rstr;
  model_allowance_ns : rstr;
  interpolation_rounding_ns : rstr;
  capture_rounding_ns : rstr;
  cw_capture_uncertainty_ns : option rstr;
  cw_external_utc_accuracy_ns : option rstr;
  overall_physical_accuracy_ns : option rstr;
}.

Definition ClientWallEstimate_validate (w : ClientWallEstimate) : wresult unit :=
  if negb (bool_decide (w.(cw_quality) = lit "local_wall_estimate"))
     || negb (bool_decide (w.(cw_policy_id) = lit "local-wall-estimate/v1"))
     || is_some w.(overall_physical_accuracy_ns)
  then Err wire_invalid
  else
    let? start := signed_decimal w.(local_start_ns) in
    let? finish := signed_decimal w.(local_end_ns) in
    if (finish <? start) || negb (bool_decide (w.(model_allowance_ns) = lit "10000000")) then Err wire_invalid
    else
      let? bracket := client_decimal w.(maximum_bracket_ns) false in
      if 5000000 <? bracket then Err wire_invalid
      else
        let? _ := client_decimal w.(cw_wall_epoch) true in
        let? _ := client_decimal w.(cw_wall_run) true in
        let? _ := client_decimal w.(maximum_bracket_ns) false in
        let? _ := client_decimal w.(maximum_resolution_ns) false in
        let? _ := client_decimal w.(interpolation_rounding_ns) false in
        let? _ := client_decimal w.(capture_rounding_ns) false in
        let? _ := optional_decimal w.(cw_capture_uncertainty_ns) in
        optional_decimal w.(cw_external_utc_accuracy_ns).

(** ** Entries and pages *)

Record FrameEntry : Type := {
  fe_media_start_sample : rstr;
  fe_media_end_sample : rstr;
  fe_sample_rate_hz : Z;
  fe_gap_offset_ms : rstr;
  fe_epoch : option ClientCaptureEpoch;
  fe_provenance : option ClientFrameProvenance;
  fe_capture_status : rstr;
  fe_wall : option ClientWallEstimate;
  fe_reasons : list rstr;
}.

Inductive ClientAlignmentEntry : Type :=
| Entry_Epoch (epoch : ClientCaptureEpoch)
| Entry_ClockPair (pair : ClientCaptureClockPair)
| Entry_Frame (frame : FrameEntry)
| Entry_Discontinuity (capture_epoch reason : rstr)
| Entry_AudioGap (started_at_ms : rstr) (ended_at_ms : option rstr) (reason : rstr)
| Entry_AlignmentLimit.

Definition FrameEntry_validate (f : FrameEntry) : wresult unit :=
  let? start := client_decimal f.(fe_media_start_sample) false in
  let? finish := client_decimal f.(fe_media_end_sample) false in
  let? _ := client_decimal f.(fe_gap_offset_ms) false in
  if (finish <=? start) || (f.(fe_sample_rate_hz) =? 0)
     || negb (one_of [lit "available"; lit "capture_alignment_missing"] f.(fe_capture_status))
  then Err wire_invalid
  else
    let? _ := match f.(fe_epoch) with Some e => ClientCaptureEpoch_validate e | None => Ok tt end in
    let? _ := match f.(fe_provenance) with
              | Some p =>
                  let? _ := ClientFrameProvenance_validate p in
                  if negb (p.(cf_source_denominator) =? f.(fe_sample_rate_hz))
                     || negb (p.(cf_sample_count) =? finish - start)
                     || is_none_or f.(fe_epoch) (fun e => negb (bool_decide (e.(ce_capture_epoch) = p.(cf_capture_epoch))))
                  then Err wire_invalid else Ok tt
              | None => Ok tt
              end in
    if bool_decide (f.(fe_capture_status) = lit "available")
       && is_none_or f.(fe_provenance) (fun p => is_none p.(cf_span))
    then Err wire_invalid
    else
      let? _ := match f.(fe_wall) with
                | Some w =>
                    if negb (bool_decide (f.(fe_capture_status) = lit "available")) then Err wire_invalid
                    else ClientWallEstimate_validate w
                | None => Ok tt
                end in
      validate_reasons f.(fe_reasons).

Definition ClientAlignmentEntry_validate (e : ClientAlignmentEntry) : wresult unit :=
  match e with
  | Entry_Epoch epoch => ClientCaptureEpoch_validate epoch
  | Entry_ClockPair p => ClientCaptureClockPair_validate p
  | Entry_AlignmentLimit => Ok tt
  | Entry_Discontinuity capture_epoch reason =>
      let? _ := client_decimal capture_epoch true in
      validate_reasons [reason]
  | Entry_AudioGap started_at_ms ended_at_ms reason =>
      let? start := client_decimal started_at_ms false in
      let? finish := match ended_at_ms with
                     | Some v => let? v := client_decimal v false in Ok (Some v)
                     | None => Ok None
                     end in
      if is_some_and finish (fun finish => finish <? start) || negb (bool_decide (reason = lit "capture_discontinuity"))
      then Err wire_invalid else Ok tt
  | Entry_Frame f => FrameEntry_validate f
  end.

Record ClientRecordingAlignmentPage : Type := {
  page_source : ClientRecordingIdentity;
  page_index : rstr;
  page_policy : ClientAlignmentPolicy;
  page_entries : list ClientAlignmentEntry;
}.

(** [serde_json::to_vec(page).len()], when the serialization succeeds. *)
Class PageJson : Type := page_json_len : ClientRecordingAlignmentPage -> option Z.

Fixpoint validate_entries (entries : list ClientAlignmentEntry) : wresult unit :=
  match entries with
  | [] => Ok tt
  | e :: rest => let? _ := ClientAlignmentEntry_validate e in validate_entries rest
  end.

Definition ClientRecordingAlignmentPage_validate `{PageJson} (p : ClientRecordingAlignmentPage) : wresult unit :=
  let? _ := ClientRecordingIdentity_validate p.(page_source) in
  let? _ := client_decimal p.(page_index) false in
  if negb (bool_decide (p.(page_policy) = ClientAlignmentPolicy_default)) || is_empty p.(page_entries)
     || (MAX_ALIGNMENT_PAGE_ENTRIES <? zlen p.(page_entries))
  then Err wire_invalid
  else
    let? _ := validate_entries p.(page_entries) in
    let? size := ok_or (page_json_len p) wire_invalid in
    if MAX_ALIGNMENT_PAGE_BYTES <? size then Err wire_invalid else Ok tt.

Record ClientRecordingAlignmentComplete : Type := {
  complete_source : ClientRecordingIdentity;
  page_count : rstr;
  coverage_status : rstr;
  warnings : list rstr;
  traversal_succeeded : bool;
}.

Definition ClientRecordingAlignmentComplete_validate (c : ClientRecordingAlignmentComplete) : wresult unit :=
  let? _ := ClientRecordingIdentity_validate c.(complete_source) in
  let? _ := client_decimal c.(page_count) false in
  if negb (one_of [lit "available"; lit "partial"; lit "unavailable_legacy"] c.(coverage_status))
     || negb c.(traversal_succeeded)
  then Err wire_invalid
  else validate_reasons c.(warnings).
