(* ===== verification/Audio.v ===== *)
(** * Audio frames

    [crates/model-adapters/src/audio_frame.rs]: a bounded, sample-aligned frame
    of PCM audio with the capture timing it may carry; [pcm_duration_ms] and
    [exact_media_ms] of [crates/runtime/src/session_recording.rs], the two
    clocks computed from sample counts. *)

From S2P Require Import Prelude RustStr Errors Pcm CaptureTiming.

Record AudioFrame : Type := {
  frame_turn_id : TurnId;
  frame_generation_id : GenerationId;
  frame_utterance_id : UtteranceId;
  frame_sequence : Z;
  format : PcmFormat;
  frame_bytes : list Z;
  capture_timing : option TimedCapture;
}.

Definition AudioFrame_new (t : TurnId) (g : GenerationId) (u : UtteranceId) (sequence : Z)
    (format : PcmFormat) (bytes : list Z) : result AudioFrame AdapterError :=
  if is_empty bytes then Err (AdapterError_new (lit "PCM frame bytes must not be empty"))
  else if MAX_PCM_FRAME_BYTES <? zlen bytes then
    Err (AdapterError_new (lit "PCM frame bytes exceeded 64 KiB"))
  else
    let? alignment := frame_alignment_bytes format in
    if negb (zlen bytes mod alignment =? 0) then
      Err (AdapterError_new (lit "PCM frame bytes were not sample aligned"))
    else
      Ok {| frame_turn_id := t; frame_generation_id := g; frame_utterance_id := u;
            frame_sequence := sequence; format := format; frame_bytes := bytes;
            capture_timing := None |}.

Definition with_capture_timing (f : AudioFrame) (timing : TimedCapture)
  : result AudioFrame AdapterError :=
  let? _ := CaptureEpoch_validate timing.(timed_epoch) in
  let? _ := validate_pcm timing.(timed_frame) f.(format) (zlen f.(frame_bytes)) in
  if negb (timing.(timed_epoch).(epoch_capture_epoch) =? timing.(timed_frame).(capture_epoch))
     || negb (f.(frame_sequence) =? timing.(timed_frame).(sequence)) then
    Err (AdapterError_new (lit "capture timing identity did not match frame"))
  else
    Ok {| frame_turn_id := f.(frame_turn_id); frame_generation_id := f.(frame_generation_id);
          frame_utterance_id := f.(frame_utterance_id); frame_sequence := f.(frame_sequence);
          format := f.(format); frame_bytes := f.(frame_bytes); capture_timing := Some timing |}.

Definition next_sequence (f : AudioFrame) : result Z AdapterError :=
  ok_or (checked_add f.(frame_sequence) 1) (AdapterError_new (lit "PCM frame sequence overflowed")).

(** [u64::try_from(x).unwrap_or(u64::MAX)] of a non-negative value. *)
Definition clamp_u64 (x : Z) : Z := if x <=? u64_max then x else u64_max.

(** A [samples * 1000 / rate] duration, the division in [u128]. *)
Definition pcm_duration_ms (format : PcmFormat) (bytes : Z) : Z :=
  match frame_alignment_bytes format with
  | Err _ => 0
  | Ok alignment =>
      if alignment =? 0 then 0
      else
        let samples := bytes / alignment in
        clamp_u64 (samples * 1000 / format.(sample_rate_hz))
  end.

Definition recovery_error : RuntimeError :=
  RuntimeError_new Kind_InvalidState Stage_AudioCapture
    (lit "finalized recording authorization or content is invalid").

Definition exact_media_ms (samples rate gap_ms : Z) : rresult Z :=
  if rate =? 0 then Err recovery_error
  else
    let audio := samples * 1000 / rate in
    if u64_max <? audio then Err recovery_error
    else ok_or (checked_add audio gap_ms) recovery_error.

(** ** Well-formed formats and frames *)

Definition wf_frame (f : AudioFrame) : Prop :=
  wf_format f.(format) /\ 0 < zlen f.(frame_bytes) <= MAX_PCM_FRAME_BYTES /\
  zlen f.(frame_bytes) mod (f.(format).(channels) * bytes_per_sample f.(format).(sample_format)) = 0.

Lemma AudioFrame_new_wf t g u s f bytes fr :
  wf_format f -> AudioFrame_new t g u s f bytes = Ok fr -> wf_frame fr /\ fr.(frame_bytes) = bytes.
Proof.
  intros Hf H. unfold AudioFrame_new in H. destruct (frame_alignment_bytes_Ok f Hf) as [E _].
  rewrite E in H. destruct bytes as [|b bytes]; [done|]. cbn [is_empty result_bind] in H.
  split_ifs_in H; simplify_eq. unfold wf_frame. cbn [format frame_bytes]. rewrite zlen_cons in *.
  pose proof (zlen_nonneg bytes). split_and!; try done; lia.
Qed.

Lemma pcm_duration_ms_nonneg f n : wf_format f -> 0 <= n -> is_u64 (pcm_duration_ms f n).
Proof.
  intros Hf Hn. unfold pcm_duration_ms. destruct (frame_alignment_bytes_Ok f Hf) as [-> Ha].
  rewrite (proj2 (Z.eqb_neq _ _)) by lia. destruct Hf as [Hr _]. unfold clamp_u64.
  assert (0 <= n / (channels f * bytes_per_sample (sample_format f)) * 1000 / sample_rate_hz f).
  { apply Z.div_pos; [|lia]. apply Z.mul_nonneg_nonneg; [|lia]. apply Z.div_pos; lia. }
  split_ifs; ints.
Qed.

Lemma exact_media_ms_Ok samples rate gap ms :
  exact_media_ms samples rate gap = Ok ms <->
  rate <> 0 /\ samples * 1000 / rate <= u64_max /\
  samples * 1000 / rate + gap <= u64_max /\ ms = samples * 1000 / rate + gap.
Proof.
  unfold exact_media_ms. split_ifs; [naive_solver|naive_solver lia|].
  destruct (checked_add _ _) as [x|] eqn:E.
  - apply checked_add_Some in E as [-> E]. cbn. naive_solver.
  - cbn. split; [done|]. intros (_ & _ & H & _). unfold checked_add in E.
    by rewrite (proj2 (Z.leb_le _ _)) in E.
Qed.
