(* ===== verification/SidecarCodec.v ===== *)
(** * The codec of the voice sidecar

    [crates/model-adapters/src/macos_voice_sidecar/codec.rs]: frames of a
    version, a kind and a bounded payload, which is JSON for control frames and
    a fixed binary header with PCM for audio frames.

    [serde_json] is a parameter: it turns a list of fields into text and text
    into tokens. What the [derive]s of the payload structs do with the fields
    (names, [deny_unknown_fields], missing and repeated fields, a [&str] that
    must be borrowed from the text) is written out here, since the structs are
    declared in the source. *)

From S2P Require Import Prelude RustStr Bytes Errors Pcm CaptureTiming Audio TurnFinalizer.
From stdpp Require Import countable.

Local Open Scope Z_scope.

(** ** JSON *)

Inductive Scalar : Type :=
| J_u64 (v : Z)
| J_str (s : rstr)
| J_bool (b : bool).

(** What a field of the text holds: an integer that fits [u64]; a string, and
    whether the text holds it unescaped, so that it can be borrowed; a boolean;
    an object with one field that is null; anything else. *)
Inductive Token : Type :=
| T_u64 (v : Z)
| T_str (s : rstr) (borrowed : bool)
| T_bool (b : bool)
| T_null_field (name : rstr)
| T_other.

(** The whole text: an object, with its fields in order, or an array. *)
Inductive Json : Type :=
| Object (fields : list (rstr * Token))
| Array (elements : list Token).

Class SerdeJson : Type := {
  json_to_vec : list (rstr * Scalar) -> option (list Z);
  json_from_str : rstr -> option Json;
}.

(** The characters JSON writes with a backslash. *)
Definition needs_escape (c : Z) : bool := (c =? 34) || (c =? 92) || (c <? 32).

Definition token (v : Scalar) : Token :=
  match v with
  | J_u64 v => T_u64 v
  | J_str s => T_str s (negb (existsb needs_escape s))
  | J_bool b => T_bool b
  end.

Definition scalar_ok (v : Scalar) : Prop :=
  match v with
  | J_u64 v => is_u64 v
  | J_str s => forallb is_unicode_scalar s = true
  | J_bool _ => True
  end.

(** Text that was written is read back as its fields. *)
Class SerdeJsonLaws `{SerdeJson} : Prop := {
  json_written : forall fs, Forall (fun f => scalar_ok f.2) fs ->
    exists s, forallb is_unicode_scalar s = true /\ json_to_vec fs = Some (utf8_encode s) /\
      json_from_str s = Some (Object (map (fun f => (f.1, token f.2)) fs));
}.

(** ** The derived instances *)

Class Serialize (A : Type) : Type := to_fields : A -> list (rstr * Scalar).
Class Deserialize (A : Type) : Type := of_json : Json -> option A.

(** A field that is there exactly once. *)
Definition field (name : rstr) (fs : list (rstr * Token)) : option Token :=
  match List.filter (fun f => bool_decide (f.1 = name)) fs with
  | [(_, t)] => Some t
  | _ => None
  end.

(** The fields of a struct with [deny_unknown_fields]: those of an object, whose
    names must be the struct's, or the elements of an array in their order. *)
Definition struct_fields (names : list rstr) (v : Json) : option (list (rstr * Token)) :=
  match v with
  | Object fs => if forallb (fun f => existsb (fun n => bool_decide (f.1 = n)) names) fs then Some fs else None
  | Array ts => if Nat.eqb (length ts) (length names) then Some (combine names ts) else None
  end.

Definition as_u64 (t : Token) : option Z := match t with T_u64 v => Some v | _ => None end.
Definition as_bool (t : Token) : option bool := match t with T_bool b => Some b | _ => None end.
Definition as_string (t : Token) : option rstr := match t with T_str s _ => Some s | _ => None end.
Definition as_borrowed_str (t : Token) : option rstr := match t with T_str s true => Some s | _ => None end.

(** A unit variant: its name, or an object that maps its name to null. *)
Definition as_variant {A} (variants : list (rstr * A)) (t : Token) : option A :=
  match t with
  | T_str s _ | T_null_field s => snd <$> List.find (fun v => bool_decide (v.1 = s)) variants
  | _ => None
  end.

Record StartSessionDto : Type := { ss_session_id : Z; ss_speech_start_ms : Z; ss_final_silence_ms : Z }.
Record SessionDto : Type := { s_session_id : Z }.
Record CaptureIdentityDto : Type := { ci_session_id : Z; ci_operation_id : Z }.
Record FlushIdentityDto : Type := { fi_session_id : Z; fi_generation_id : Z; fi_operation_id : Z }.
Record MediaIdentityDto : Type :=
  { mi_session_id : Z; mi_turn_id : Z; mi_generation_id : Z; mi_utterance_id : Z; mi_sequence : Z }.
Inductive VoiceActivityKindDto : Type := Started | Continued | Ended_ | Discontinuity.
Record VoiceActivityDto : Type := { va_session_id : Z; va_activity : VoiceActivityKindDto; va_at_ms : Z }.
Record TranscriptHypothesisDto : Type :=
  { th_session_id : Z; th_segment_id : Z; th_text : rstr; th_engine_final : bool }.
(** Serialized from references ([AudioDeviceStatusRefDto]), read as [String]s. *)
Record AudioDeviceStatusDto : Type := { ad_session_id : Z; ad_input_label : rstr; ad_output_label : rstr }.

Inductive FailureStageDto : Type :=
| F_Runtime | F_PrivacyPolicy | F_AudioCapture | F_SpeechRecognizer | F_LanguageModel | F_SpeechSynthesizer
| F_AudioOutput | F_VoiceSidecar | F_ContinuousAudioOutput.

Inductive SidecarFailureCode : Type :=
| PermissionDenied | InvalidState | MalformedFrame | AudioDeviceUnavailable | RecognitionFailed | PlaybackFailed | Internal.

Record FailureDto : Type := { fd_session_id : Z; fd_stage : FailureStageDto; fd_code : SidecarFailureCode }.

Definition VoiceActivityKindDto_name (k : VoiceActivityKindDto) : rstr :=
  match k with
  | Started => lit "speech_started"
  | Continued => lit "speech_continued"
  | Ended_ => lit "speech_ended"
  | Discontinuity => lit "capture_discontinuity"
  end.

Definition FailureStageDto_name (s : FailureStageDto) : rstr :=
  match s with
  | F_Runtime => lit "runtime"
  | F_PrivacyPolicy => lit "privacy_policy"
  | F_AudioCapture => lit "audio_capture"
  | F_SpeechRecognizer => lit "speech_recognizer"
  | F_LanguageModel => lit "language_model"
  | F_SpeechSynthesizer => lit "speech_synthesizer"
  | F_AudioOutput => lit "audio_output"
  | F_VoiceSidecar => lit "voice_sidecar"
  | F_ContinuousAudioOutput => lit "continuous_audio_output"
  end.

Definition SidecarFailureCode_name (c : SidecarFailureCode) : rstr :=
  match c with
  | PermissionDenied => lit "permission_denied"
  | InvalidState => lit "invalid_state"
  | MalformedFrame => lit "malformed_frame"
  | AudioDeviceUnavailable => lit "audio_device_unavailable"
  | RecognitionFailed => lit "recognition_failed"
  | PlaybackFailed => lit "playback_failed"
  | Internal => lit "internal"
  end.

Definition voice_activity_variants : list (rstr * VoiceActivityKindDto) :=
  map (fun k => (VoiceActivityKindDto_name k, k)) [Started; Continued; Ended_; Discontinuity].
Definition failure_stage_variants : list (rstr * FailureStageDto) :=
  map (fun k => (FailureStageDto_name k, k))
    [F_Runtime; F_PrivacyPolicy; F_AudioCapture; F_SpeechRecognizer; F_LanguageModel; F_SpeechSynthesizer; F_AudioOutput;
     F_VoiceSidecar; F_ContinuousAudioOutput].
Definition failure_code_variants : list (rstr * SidecarFailureCode) :=
  map (fun k => (SidecarFailureCode_name k, k))
    [PermissionDenied; InvalidState; MalformedFrame; AudioDeviceUnavailable; RecognitionFailed; PlaybackFailed; Internal].

#[export] Instance serialize_start_session : Serialize StartSessionDto := fun v =>
  [(lit "session_id", J_u64 v.(ss_session_id)); (lit "speech_start_ms", J_u64 v.(ss_speech_start_ms));
   (lit "final_silence_ms", J_u64 v.(ss_final_silence_ms))].
#[export] Instance serialize_session : Serialize SessionDto := fun v => [(lit "session_id", J_u64 v.(s_session_id))].
#[export] Instance serialize_capture_identity : Serialize CaptureIdentityDto := fun v =>
  [(lit "session_id", J_u64 v.(ci_session_id)); (lit "operation_id", J_u64 v.(ci_operation_id))].
#[export] Instance serialize_flush_identity : Serialize FlushIdentityDto := fun v =>
  [(lit "session_id", J_u64 v.(fi_session_id)); (lit "generation_id", J_u64 v.(fi_generation_id));
   (lit "operation_id", J_u64 v.(fi_operation_id))].
#[export] Instance serialize_media_identity : Serialize MediaIdentityDto := fun v =>
  [(lit "session_id", J_u64 v.(mi_session_id)); (lit "turn_id", J_u64 v.(mi_turn_id));
   (lit "generation_id", J_u64 v.(mi_generation_id)); (lit "utterance_id", J_u64 v.(mi_utterance_id));
   (lit "sequence", J_u64 v.(mi_sequence))].
#[export] Instance serialize_voice_activity : Serialize VoiceActivityDto := fun v =>
  [(lit "session_id", J_u64 v.(va_session_id)); (lit "activity", J_str (VoiceActivityKindDto_name v.(va_activity)));
   (lit "at_ms", J_u64 v.(va_at_ms))].
#[export] Instance serialize_transcript : Serialize TranscriptHypothesisDto := fun v =>
  [(lit "session_id", J_u64 v.(th_session_id)); (lit "segment_id", J_u64 v.(th_segment_id));
   (lit "text", J_str v.(th_text)); (lit "engine_final", J_bool v.(th_engine_final))].
#[export] Instance serialize_audio_device : Serialize AudioDeviceStatusDto := fun v =>
  [(lit "session_id", J_u64 v.(ad_session_id)); (lit "input_label", J_str v.(ad_input_label));
   (lit "output_label", J_str v.(ad_output_label))].
#[export] Instance serialize_failure : Serialize FailureDto := fun v =>
  [(lit "session_id", J_u64 v.(fd_session_id)); (lit "stage", J_str (FailureStageDto_name v.(fd_stage)));
   (lit "code", J_str (SidecarFailureCode_name v.(fd_code)))].

#[export] Instance deserialize_start_session : Deserialize StartSessionDto := fun v =>
  fs ← struct_fields [lit "session_id"; lit "speech_start_ms"; lit "final_silence_ms"] v;
  s ← field (lit "session_id") fs ≫= as_u64;
  a ← field (lit "speech_start_ms") fs ≫= as_u64;
  b ← field (lit "final_silence_ms") fs ≫= as_u64;
  Some {| ss_session_id := s; ss_speech_start_ms := a; ss_final_silence_ms := b |}.
#[export] Instance deserialize_session : Deserialize SessionDto := fun v =>
  fs ← struct_fields [lit "session_id"] v;
  s ← field (lit "session_id") fs ≫= as_u64;
  Some {| s_session_id := s |}.
#[export] Instance deserialize_capture_identity : Deserialize CaptureIdentityDto := fun v =>
  fs ← struct_fields [lit "session_id"; lit "operation_id"] v;
  s ← field (lit "session_id") fs ≫= as_u64;
  o ← field (lit "operation_id") fs ≫= as_u64;
  Some {| ci_session_id := s; ci_operation_id := o |}.
#[export] Instance deserialize_flush_identity : Deserialize FlushIdentityDto := fun v =>
  fs ← struct_fields [lit "session_id"; lit "generation_id"; lit "operation_id"] v;
  s ← field (lit "session_id") fs ≫= as_u64;
  g ← field (lit "generation_id") fs ≫= as_u64;
  o ← field (lit "operation_id") fs ≫= as_u64;
  Some {| fi_session_id := s; fi_generation_id := g; fi_operation_id := o |}.
#[export] Instance deserialize_media_identity : Deserialize MediaIdentityDto := fun v =>
  fs ← struct_fields [lit "session_id"; lit "turn_id"; lit "generation_id"; lit "utterance_id"; lit "sequence"] v;
  s ← field (lit "session_id") fs ≫= as_u64;
  t ← field (lit "turn_id") fs ≫= as_u64;
  g ← field (lit "generation_id") fs ≫= as_u64;
  u ← field (lit "utterance_id") fs ≫= as_u64;
  q ← field (lit "sequence") fs ≫= as_u64;
  Some {| mi_session_id := s; mi_turn_id := t; mi_generation_id := g; mi_utterance_id := u; mi_sequence := q |}.
#[export] Instance deserialize_voice_activity : Deserialize VoiceActivityDto := fun v =>
  fs ← struct_fields [lit "session_id"; lit "activity"; lit "at_ms"] v;
  s ← field (lit "session_id") fs ≫= as_u64;
  a ← field (lit "activity") fs ≫= as_variant voice_activity_variants;
  m ← field (lit "at_ms") fs ≫= as_u64;
  Some {| va_session_id := s; va_activity := a; va_at_ms := m |}.
(** [text: &'a str] with [serde(borrow)]. *)
#[export] Instance deserialize_transcript : Deserialize TranscriptHypothesisDto := fun v =>
  fs ← struct_fields [lit "session_id"; lit "segment_id"; lit "text"; lit "engine_final"] v;
  s ← field (lit "session_id") fs ≫= as_u64;
  g ← field (lit "segment_id") fs ≫= as_u64;
  t ← field (lit "text") fs ≫= as_borrowed_str;
  f ← field (lit "engine_final") fs ≫= as_bool;
  Some {| th_session_id := s; th_segment_id := g; th_text := t; th_engine_final := f |}.
(** The labels are [String]s. *)
#[export] Instance deserialize_audio_device : Deserialize AudioDeviceStatusDto := fun v =>
  fs ← struct_fields [lit "session_id"; lit "input_label"; lit "output_label"] v;
  s ← field (lit "session_id") fs ≫= as_u64;
  i ← field (lit "input_label") fs ≫= as_string;
  o ← field (lit "output_label") fs ≫= as_string;
  Some {| ad_session_id := s; ad_input_label := i; ad_output_label := o |}.
#[export] Instance deserialize_failure : Deserialize FailureDto := fun v =>
  fs ← struct_fields [lit "session_id"; lit "stage"; lit "code"] v;
  s ← field (lit "session_id") fs ≫= as_u64;
  g ← field (lit "stage") fs ≫= as_variant failure_stage_variants;
  c ← field (lit "code") fs ≫= as_variant failure_code_variants;
  Some {| fd_session_id := s; fd_stage := g; fd_code := c |}.

(** ** Frames *)

Definition PROTOCOL_VERSION : Z := 1.
Definition HEADER_BYTES : Z := 8.
Definition AUDIO_METADATA_BYTES : Z := 48.
Definition MAX_CONTROL_PAYLOAD_BYTES : Z := 65536.
Definition MAX_AUDIO_PAYLOAD_BYTES : Z := AUDIO_METADATA_BYTES + MAX_PCM_FRAME_BYTES.

Inductive SidecarFrameKind : Type :=
| K_StartSession | K_StartCapture | K_FlushGeneration | K_Shutdown | K_PauseCapture | K_ResumeCapture | K_AudioFrame
| K_Ready | K_VoiceActivity | K_TranscriptHypothesis | K_PlaybackAccepted | K_PlaybackRendered | K_PlaybackFlushed
| K_CaptureStarted | K_CapturePaused | K_CaptureResumed | K_AudioDeviceStatus | K_Failure | K_ShutdownComplete.

#[export] Instance SidecarFrameKind_eq_dec : EqDecision SidecarFrameKind.
Proof. solve_decision. Defined.

Definition code (k : SidecarFrameKind) : Z :=
  match k with
  | K_StartSession => 0x0001
  | K_StartCapture => 0x0002
  | K_FlushGeneration => 0x0003
  | K_Shutdown => 0x0004
  | K_PauseCapture => 0x0005
  | K_ResumeCapture => 0x0006
  | K_AudioFrame => 0x0100
  | K_Ready => 0x8001
  | K_VoiceActivity => 0x8002
  | K_TranscriptHypothesis => 0x8003
  | K_PlaybackAccepted => 0x8004
  | K_PlaybackRendered => 0x8005
  | K_PlaybackFlushed => 0x8006
  | K_CaptureStarted => 0x8007
  | K_CapturePaused => 0x8008
  | K_CaptureResumed => 0x8009
  | K_AudioDeviceStatus => 0x800a
  | K_Failure => 0x80fe
  | K_ShutdownComplete => 0x80ff
  end.

Definition maximum_payload_bytes (k : SidecarFrameKind) : Z :=
  match k with K_AudioFrame => MAX_AUDIO_PAYLOAD_BYTES | _ => MAX_CONTROL_PAYLOAD_BYTES end.

Inductive SidecarControl : Type :=
| StartSession (session_id : SessionId) (speech_start_ms final_silence_ms : Z)
| StartCapture (session_id : SessionId) (operation_id : Z)
| PauseCapture (session_id : SessionId) (operation_id : Z)
| ResumeCapture (session_id : SessionId) (operation_id : Z)
| FlushGeneration (session_id : SessionId) (generation_id : GenerationId) (operation_id : Z)
| Shutdown (session_id : SessionId)
| Ready (session_id : SessionId)
| Control_VoiceActivity (session_id : SessionId) (activity : VoiceActivity)
| TranscriptHypothesis (session_id : SessionId) (hypothesis : RecognitionHypothesis)
| PlaybackAccepted (session_id : SessionId) (t : TurnId) (g : GenerationId) (u : UtteranceId) (sequence : Z)
| PlaybackRendered (session_id : SessionId) (t : TurnId) (g : GenerationId) (u : UtteranceId) (sequence : Z)
| PlaybackFlushed (session_id : SessionId) (generation_id : GenerationId) (operation_id : Z)
| CaptureStarted (session_id : SessionId) (operation_id : Z)
| CapturePaused (session_id : SessionId) (operation_id : Z)
| CaptureResumed (session_id : SessionId) (operation_id : Z)
| AudioDeviceStatus (session_id : SessionId) (input_label output_label : rstr)
| Failure (session_id : SessionId) (stage : RuntimeStage) (code : SidecarFailureCode)
| ShutdownComplete (session_id : SessionId).

Definition control_kind (c : SidecarControl) : SidecarFrameKind :=
  match c with
  | StartSession _ _ _ => K_StartSession
  | StartCapture _ _ => K_StartCapture
  | PauseCapture _ _ => K_PauseCapture
  | ResumeCapture _ _ => K_ResumeCapture
  | FlushGeneration _ _ _ => K_FlushGeneration
  | Shutdown _ => K_Shutdown
  | Ready _ => K_Ready
  | Control_VoiceActivity _ _ => K_VoiceActivity
  | TranscriptHypothesis _ _ => K_TranscriptHypothesis
  | PlaybackAccepted _ _ _ _ _ => K_PlaybackAccepted
  | PlaybackRendered _ _ _ _ _ => K_PlaybackRendered
  | PlaybackFlushed _ _ _ => K_PlaybackFlushed
  | CaptureStarted _ _ => K_CaptureStarted
  | CapturePaused _ _ => K_CapturePaused
  | CaptureResumed _ _ => K_CaptureResumed
  | AudioDeviceStatus _ _ _ => K_AudioDeviceStatus
  | Failure _ _ _ => K_Failure
  | ShutdownComplete _ => K_ShutdownComplete
  end.

Inductive SidecarFramePayload : Type :=
| Control (control : SidecarControl)
| AudioPayload (session_id : SessionId) (frame : AudioFrame).

Record SidecarFrame : Type := { version : Z; payload : SidecarFramePayload }.

Definition frame_control (c : SidecarControl) : SidecarFrame := {| version := PROTOCOL_VERSION; payload := Control c |}.
Definition frame_audio (s : SessionId) (f : AudioFrame) : SidecarFrame :=
  {| version := PROTOCOL_VERSION; payload := AudioPayload s f |}.

Definition frame_kind (f : SidecarFrame) : SidecarFrameKind :=
  match f.(payload) with Control c => control_kind c | AudioPayload _ _ => K_AudioFrame end.

Definition as_control (f : SidecarFrame) : option SidecarControl :=
  match f.(payload) with Control c => Some c | AudioPayload _ _ => None end.

Definition as_audio (f : SidecarFrame) : option (SessionId * AudioFrame) :=
  match f.(payload) with Control _ => None | AudioPayload s a => Some (s, a) end.

Inductive SidecarCodecError : Type :=
| NeedMoreData (required available : Z)
| TruncatedFrame (required available : Z)
| UnknownVersion (version : Z)
| UnknownKind (kind : Z)
| PayloadTooLarge (kind : SidecarFrameKind) (declared maximum : Z)
| PcmPayloadTooLarge (declared maximum : Z)
| PayloadLengthOverflow
| InvalidControlUtf8
| InvalidControlJson
| InvalidAudioMetadata (message : rstr)
| UnknownSampleFormat (format : Z)
| UnsupportedFailureStage
| TrailingBytes (count : Z).

Abbreviation cresult A := (result A SidecarCodecError) (only parsing).

Definition kind_try_from (value : Z) : cresult SidecarFrameKind :=
  if value =? 0x0001 then Ok K_StartSession
  else if value =? 0x0002 then Ok K_StartCapture
  else if value =? 0x0003 then Ok K_FlushGeneration
  else if value =? 0x0004 then Ok K_Shutdown
  else if value =? 0x0005 then Ok K_PauseCapture
  else if value =? 0x0006 then Ok K_ResumeCapture
  else if value =? 0x0100 then Ok K_AudioFrame
  else if value =? 0x8001 then Ok K_Ready
  else if value =? 0x8002 then Ok K_VoiceActivity
  else if value =? 0x8003 then Ok K_TranscriptHypothesis
  else if value =? 0x8004 then Ok K_PlaybackAccepted
  else if value =? 0x8005 then Ok K_PlaybackRendered
  else if value =? 0x8006 then Ok K_PlaybackFlushed
  else if value =? 0x8007 then Ok K_CaptureStarted
  else if value =? 0x8008 then Ok K_CapturePaused
  else if value =? 0x8009 then Ok K_CaptureResumed
  else if value =? 0x800a then Ok K_AudioDeviceStatus
  else if value =? 0x80fe then Ok K_Failure
  else if value =? 0x80ff then Ok K_ShutdownComplete
  else Err (UnknownKind value).

Definition validate_payload_length (k : SidecarFrameKind) (declared : Z) : cresult unit :=
  if maximum_payload_bytes k <? declared then Err (PayloadTooLarge k declared (maximum_payload_bytes k)) else Ok tt.

Definition require_operation_id (operation_id : Z) : cresult unit :=
  if operation_id =? 0 then Err InvalidControlJson else Ok tt.

Definition require_capture_identity (s : SessionId) (operation_id : Z) : cresult unit :=
  if SessionId_get s =? 0 then Err InvalidControlJson else require_operation_id operation_id.

Definition FailureStageDto_try_from (s : RuntimeStage) : cresult FailureStageDto :=
  match s with
  | Stage_Runtime => Ok F_Runtime
  | Stage_PrivacyPolicy => Ok F_PrivacyPolicy
  | Stage_AudioCapture => Ok F_AudioCapture
  | Stage_SpeechRecognizer => Ok F_SpeechRecognizer
  | Stage_LanguageModel => Ok F_LanguageModel
  | Stage_SpeechSynthesizer => Ok F_SpeechSynthesizer
  | Stage_AudioOutput => Ok F_AudioOutput
  | Stage_VoiceSidecar => Ok F_VoiceSidecar
  | Stage_ContinuousAudioOutput => Ok F_ContinuousAudioOutput
  | _ => Err UnsupportedFailureStage
  end.

Definition RuntimeStage_from (s : FailureStageDto) : RuntimeStage :=
  match s with
  | F_Runtime => Stage_Runtime
  | F_PrivacyPolicy => Stage_PrivacyPolicy
  | F_AudioCapture => Stage_AudioCapture
  | F_SpeechRecognizer => Stage_SpeechRecognizer
  | F_LanguageModel => Stage_LanguageModel
  | F_SpeechSynthesizer => Stage_SpeechSynthesizer
  | F_AudioOutput => Stage_AudioOutput
  | F_VoiceSidecar => Stage_VoiceSidecar
  | F_ContinuousAudioOutput => Stage_ContinuousAudioOutput
  end.

(** ** Audio payloads *)

Definition read_u64 (offset : nat) (p : list Z) : Z := be_value (slice offset (offset + 8) p).
Definition read_u32 (offset : nat) (p : list Z) : Z := be_value (slice offset (offset + 4) p).
Definition read_u16 (offset : nat) (p : list Z) : Z := be_value (slice offset (offset + 2) p).

Definition decode_sample_format (c : Z) : cresult PcmSampleFormat :=
  if c =? 1 then Ok Signed16LittleEndian
  else if c =? 2 then Ok Float32LittleEndian
  else Err (UnknownSampleFormat c).

Definition map_err {A E F} (r : result A E) (e : F) : result A F := match r with Ok a => Ok a | Err _ => Err e end.

Definition decode_audio_payload (p : list Z) : cresult (SessionId * AudioFrame) :=
  let pcm_length := saturating_sub (zlen p) AUDIO_METADATA_BYTES in
  if MAX_PCM_FRAME_BYTES <? pcm_length then Err (PcmPayloadTooLarge pcm_length MAX_PCM_FRAME_BYTES)
  else if zlen p <? AUDIO_METADATA_BYTES then
    Err (InvalidAudioMetadata (lit "audio payload is shorter than 48-byte metadata"))
  else
    let s := SessionId_new (read_u64 0 p) in
    let t := TurnId_new (read_u64 8 p) in
    let g := GenerationId_new (read_u64 16 p) in
    let u := UtteranceId_new (read_u64 24 p) in
    let sequence := read_u64 32 p in
    let sample_rate_hz := read_u32 40 p in
    let channels := read_u16 44 p in
    let? sample_format := decode_sample_format (read_u16 46 p) in
    if sample_rate_hz =? 0 then Err (InvalidAudioMetadata (lit "PCM sample rate must be greater than zero"))
    else if channels =? 0 then Err (InvalidAudioMetadata (lit "PCM channels must be greater than zero"))
    else
      let pcm := drop 48 p in
      if is_empty pcm then Err (InvalidAudioMetadata (lit "PCM frame bytes must not be empty"))
      else
        let? alignment := ok_or (checked_mul channels (bytes_per_sample sample_format))
                            (InvalidAudioMetadata (lit "PCM frame alignment overflowed")) in
        if negb (zlen pcm mod alignment =? 0) then
          Err (InvalidAudioMetadata (lit "PCM frame bytes were not sample aligned"))
        else
          let? format := map_err (PcmFormat_new sample_rate_hz channels sample_format)
                           (InvalidAudioMetadata (lit "PCM format validation failed")) in
          let? frame := map_err (AudioFrame_new t g u sequence format pcm)
                          (InvalidAudioMetadata (lit "PCM frame validation failed")) in
          Ok (s, frame).

Definition sample_format_number (f : PcmSampleFormat) : Z :=
  match f with Signed16LittleEndian => 1 | Float32LittleEndian => 2 end.

Definition encode_audio_payload (s : SessionId) (f : AudioFrame) : cresult (list Z) :=
  if MAX_PCM_FRAME_BYTES <? zlen f.(frame_bytes) then
    Err (PcmPayloadTooLarge (zlen f.(frame_bytes)) MAX_PCM_FRAME_BYTES)
  else
    let? payload_length := ok_or (checked_add AUDIO_METADATA_BYTES (zlen f.(frame_bytes))) PayloadLengthOverflow in
    let? _ := validate_payload_length K_AudioFrame payload_length in
    Ok (be_bytes 8 (SessionId_get s) ++ be_bytes 8 (TurnId_get f.(frame_turn_id)) ++
        be_bytes 8 (GenerationId_get f.(frame_generation_id)) ++ be_bytes 8 (UtteranceId_get f.(frame_utterance_id)) ++
        be_bytes 8 f.(frame_sequence) ++ be_bytes 4 f.(format).(sample_rate_hz) ++ be_bytes 2 f.(format).(channels) ++
        be_bytes 2 (sample_format_number f.(format).(sample_format)) ++ f.(frame_bytes)).

(** ** Control payloads *)

Section Control.
Context `{J : SerdeJson}.

Definition serialize {A} `{Serialize A} (value : A) : cresult (list Z) :=
  ok_or (json_to_vec (to_fields value)) InvalidControlJson.

Definition deserialize A `{Deserialize A} (json : rstr) : cresult A :=
  ok_or (json_from_str json ≫= of_json) InvalidControlJson.

Definition capture_identity (s : SessionId) (operation_id : Z) : cresult (list Z) :=
  let? _ := require_capture_identity s operation_id in
  serialize {| ci_session_id := SessionId_get s; ci_operation_id := operation_id |}.

Definition flush_identity (s : SessionId) (g : GenerationId) (operation_id : Z) : cresult (list Z) :=
  serialize {| fi_session_id := SessionId_get s; fi_generation_id := GenerationId_get g; fi_operation_id := operation_id |}.

Definition media_identity (s : SessionId) (t : TurnId) (g : GenerationId) (u : UtteranceId) (sequence : Z)
  : cresult (list Z) :=
  serialize {| mi_session_id := SessionId_get s; mi_turn_id := TurnId_get t; mi_generation_id := GenerationId_get g;
               mi_utterance_id := UtteranceId_get u; mi_sequence := sequence |}.

Definition encode_control (c : SidecarControl) : cresult (list Z) :=
  match c with
  | StartSession s speech_start_ms final_silence_ms =>
      serialize {| ss_session_id := SessionId_get s; ss_speech_start_ms := speech_start_ms;
                   ss_final_silence_ms := final_silence_ms |}
  | Shutdown s | Ready s | ShutdownComplete s => serialize {| s_session_id := SessionId_get s |}
  | StartCapture s o | PauseCapture s o | ResumeCapture s o | CaptureStarted s o | CapturePaused s o | CaptureResumed s o =>
      capture_identity s o
  | FlushGeneration s g o | PlaybackFlushed s g o => flush_identity s g o
  | PlaybackAccepted s t g u q | PlaybackRendered s t g u q => media_identity s t g u q
  | Control_VoiceActivity s activity =>
      let '(a, at_ms) :=
        match activity with
        | SpeechStarted m => (Started, m)
        | SpeechContinued m => (Continued, m)
        | SpeechEnded m => (Ended_, m)
        | CaptureDiscontinuity m => (Discontinuity, m)
        end in
      serialize {| va_session_id := SessionId_get s; va_activity := a; va_at_ms := at_ms |}
  | TranscriptHypothesis s h =>
      serialize {| th_session_id := SessionId_get s; th_segment_id := h.(hyp_segment_id); th_text := h.(hyp_text);
                   th_engine_final := h.(hyp_engine_final) |}
  | AudioDeviceStatus s i o =>
      serialize {| ad_session_id := SessionId_get s; ad_input_label := i; ad_output_label := o |}
  | Failure s stage c =>
      let? stage := FailureStageDto_try_from stage in
      serialize {| fd_session_id := SessionId_get s; fd_stage := stage; fd_code := c |}
  end.

Definition decode_session (make : SessionId -> SidecarControl) (json : rstr) : cresult SidecarControl :=
  let? v := deserialize SessionDto json in
  Ok (make (SessionId_new v.(s_session_id))).

Definition decode_capture_identity (make : SessionId -> Z -> SidecarControl) (json : rstr) : cresult SidecarControl :=
  let? v := deserialize CaptureIdentityDto json in
  let s := SessionId_new v.(ci_session_id) in
  let? _ := require_capture_identity s v.(ci_operation_id) in
  Ok (make s v.(ci_operation_id)).

Definition decode_flush_identity (make : SessionId -> GenerationId -> Z -> SidecarControl) (json : rstr)
  : cresult SidecarControl :=
  let? v := deserialize FlushIdentityDto json in
  Ok (make (SessionId_new v.(fi_session_id)) (GenerationId_new v.(fi_generation_id)) v.(fi_operation_id)).

Definition decode_media_identity
    (make : SessionId -> TurnId -> GenerationId -> UtteranceId -> Z -> SidecarControl) (json : rstr)
  : cresult SidecarControl :=
  let? v := deserialize MediaIdentityDto json in
  Ok (make (SessionId_new v.(mi_session_id)) (TurnId_new v.(mi_turn_id)) (GenerationId_new v.(mi_generation_id))
        (UtteranceId_new v.(mi_utterance_id)) v.(mi_sequence)).

Definition decode_control (k : SidecarFrameKind) (p : list Z) : cresult SidecarControl :=
  let? json := ok_or (from_utf8 p) InvalidControlUtf8 in
  match k with
  | K_StartSession =>
      let? v := deserialize StartSessionDto json in
      Ok (StartSession (SessionId_new v.(ss_session_id)) v.(ss_speech_start_ms) v.(ss_final_silence_ms))
  | K_Shutdown => decode_session Shutdown json
  | K_Ready => decode_session Ready json
  | K_ShutdownComplete => decode_session ShutdownComplete json
  | K_StartCapture => decode_capture_identity StartCapture json
  | K_PauseCapture => decode_capture_identity PauseCapture json
  | K_ResumeCapture => decode_capture_identity ResumeCapture json
  | K_CaptureStarted => decode_capture_identity CaptureStarted json
  | K_CapturePaused => decode_capture_identity CapturePaused json
  | K_CaptureResumed => decode_capture_identity CaptureResumed json
  | K_FlushGeneration => decode_flush_identity FlushGeneration json
  | K_PlaybackFlushed => decode_flush_identity PlaybackFlushed json
  | K_PlaybackAccepted => decode_media_identity PlaybackAccepted json
  | K_PlaybackRendered => decode_media_identity PlaybackRendered json
  | K_VoiceActivity =>
      let? v := deserialize VoiceActivityDto json in
      Ok (Control_VoiceActivity (SessionId_new v.(va_session_id))
            (match v.(va_activity) with
             | Started => SpeechStarted v.(va_at_ms)
             | Continued => SpeechContinued v.(va_at_ms)
             | Ended_ => SpeechEnded v.(va_at_ms)
             | Discontinuity => CaptureDiscontinuity v.(va_at_ms)
             end))
  | K_TranscriptHypothesis =>
      let? v := deserialize TranscriptHypothesisDto json in
      Ok (TranscriptHypothesis (SessionId_new v.(th_session_id))
            (if v.(th_engine_final) then engine_final v.(th_segment_id) v.(th_text)
             else partial v.(th_segment_id) v.(th_text)))
  | K_AudioDeviceStatus =>
      let? v := deserialize AudioDeviceStatusDto json in
      Ok (AudioDeviceStatus (SessionId_new v.(ad_session_id)) v.(ad_input_label) v.(ad_output_label))
  | K_Failure =>
      let? v := deserialize FailureDto json in
      Ok (Failure (SessionId_new v.(fd_session_id)) (RuntimeStage_from v.(fd_stage)) v.(fd_code))
  | K_AudioFrame => Err InvalidControlJson
  end.

(** ** Whole frames *)

Definition encode_frame (f : SidecarFrame) : cresult (list Z) :=
  let kind := frame_kind f in
  let? p := match f.(payload) with
            | Control c => encode_control c
            | AudioPayload s f => encode_audio_payload s f
            end in
  let? _ := validate_payload_length kind (zlen p) in
  let? payload_length := (if zlen p <=? u32_max then Ok (zlen p) else Err PayloadLengthOverflow) in
  let? _ := ok_or (checked_add HEADER_BYTES (zlen p)) PayloadLengthOverflow in
  Ok (be_bytes 2 f.(version) ++ be_bytes 2 (code kind) ++ be_bytes 4 payload_length ++ p).

Definition decode_frame (bs : list Z) : cresult SidecarFrame :=
  if zlen bs <? HEADER_BYTES then Err (NeedMoreData HEADER_BYTES (zlen bs))
  else
    let version := be_value (slice 0 2 bs) in
    if negb (version =? PROTOCOL_VERSION) then Err (UnknownVersion version)
    else
      let? kind := kind_try_from (be_value (slice 2 4 bs)) in
      let declared := be_value (slice 4 8 bs) in
      let? _ := validate_payload_length kind declared in
      let? required := ok_or (checked_add HEADER_BYTES declared) PayloadLengthOverflow in
      if zlen bs <? required then Err (NeedMoreData required (zlen bs))
      else if required <? zlen bs then Err (TrailingBytes (zlen bs - required))
      else
        let p := drop 8 bs in
        if bool_decide (kind = K_AudioFrame) then
          let? '(s, f) := decode_audio_payload p in
          Ok {| version := version; payload := AudioPayload s f |}
        else
          let? c := decode_control kind p in
          Ok {| version := version; payload := Control c |}.

Definition decode_frame_at_eof (bs : list Z) : cresult SidecarFrame :=
  match decode_frame bs with
  | Err (NeedMoreData required available) => Err (TruncatedFrame required available)
  | r => r
  end.

End Control.

(** ** Well-formed frames *)

Definition text_ok (s : rstr) : Prop := forallb is_unicode_scalar s = true.

(** Every field is of its Rust type. *)
Definition control_ok (c : SidecarControl) : Prop :=
  match c with
  | StartSession s a b => is_u64 (SessionId_get s) /\ is_u64 a /\ is_u64 b
  | StartCapture s o | PauseCapture s o | ResumeCapture s o | CaptureStarted s o | CapturePaused s o | CaptureResumed s o =>
      is_u64 (SessionId_get s) /\ is_u64 o
  | FlushGeneration s g o | PlaybackFlushed s g o =>
      is_u64 (SessionId_get s) /\ is_u64 (GenerationId_get g) /\ is_u64 o
  | Shutdown s | Ready s | ShutdownComplete s | Failure s _ _ => is_u64 (SessionId_get s)
  | Control_VoiceActivity s a =>
      is_u64 (SessionId_get s) /\
      match a with SpeechStarted m | SpeechContinued m | SpeechEnded m | CaptureDiscontinuity m => is_u64 m end
  | TranscriptHypothesis s h => is_u64 (SessionId_get s) /\ is_u64 h.(hyp_segment_id) /\ text_ok h.(hyp_text)
  | PlaybackAccepted s t g u q | PlaybackRendered s t g u q =>
      is_u64 (SessionId_get s) /\ is_u64 (TurnId_get t) /\ is_u64 (GenerationId_get g) /\ is_u64 (UtteranceId_get u) /\ is_u64 q
  | AudioDeviceStatus s i o => is_u64 (SessionId_get s) /\ text_ok i /\ text_ok o
  end.

(** A transcript without a character that JSON escapes. *)
Definition plain_transcript (c : SidecarControl) : bool :=
  match c with TranscriptHypothesis _ h => negb (existsb needs_escape h.(hyp_text)) | _ => true end.

Definition audio_ok (s : SessionId) (f : AudioFrame) : Prop :=
  is_u64 (SessionId_get s) /\ is_u64 (TurnId_get f.(frame_turn_id)) /\ is_u64 (GenerationId_get f.(frame_generation_id)) /\
  is_u64 (UtteranceId_get f.(frame_utterance_id)) /\ is_u64 f.(frame_sequence) /\ wf_frame f /\
  f.(capture_timing) = None.

Definition frame_ok (f : SidecarFrame) : Prop :=
  f.(version) = PROTOCOL_VERSION /\
  match f.(payload) with
  | Control c => control_ok c
  | AudioPayload s f => audio_ok s f
  end.

Definition carried (f : SidecarFrame) : bool := match f.(payload) with Control c => plain_transcript c | _ => true end.

(** ** Control payloads *)

Lemma kind_try_from_code k : kind_try_from (code k) = Ok k.
Proof. by destruct k. Qed.

Lemma kind_try_from_inv c k : kind_try_from c = Ok k -> code k = c.
Proof. unfold kind_try_from. intros H. split_ifs_in H; simplify_eq; breflect; done. Qed.

Lemma code_u16 k : is_u16 (code k).
Proof. destruct k; cbn; ints. Qed.

Lemma stage_roundtrip s d : FailureStageDto_try_from s = Ok d -> RuntimeStage_from d = s.
Proof. by destruct s; intros [= <-]. Qed.

(** A struct whose derives agree. *)
Class DtoRoundtrip (A : Type) `{Serialize A} `{Deserialize A} (plain : A -> bool) : Prop :=
  dto_roundtrip : forall v : A, of_json (Object (map (fun f => (f.1, token f.2)) (to_fields v))) = if plain v then Some v else None.

#[export] Instance start_session_roundtrip : DtoRoundtrip StartSessionDto (fun _ => true).
Proof. intros []. vm_compute. reflexivity. Qed.
#[export] Instance session_roundtrip : DtoRoundtrip SessionDto (fun _ => true).
Proof. intros []. vm_compute. reflexivity. Qed.
#[export] Instance capture_identity_roundtrip : DtoRoundtrip CaptureIdentityDto (fun _ => true).
Proof. intros []. vm_compute. reflexivity. Qed.
#[export] Instance flush_identity_roundtrip : DtoRoundtrip FlushIdentityDto (fun _ => true).
Proof. intros []. vm_compute. reflexivity. Qed.
#[export] Instance media_identity_roundtrip : DtoRoundtrip MediaIdentityDto (fun _ => true).
Proof. intros []. vm_compute. reflexivity. Qed.
#[export] Instance voice_activity_roundtrip : DtoRoundtrip VoiceActivityDto (fun _ => true).
Proof. intros [? [] ?]; vm_compute; reflexivity. Qed.
#[export] Instance audio_device_roundtrip : DtoRoundtrip AudioDeviceStatusDto (fun _ => true).
Proof. intros []. vm_compute. reflexivity. Qed.
#[export] Instance failure_roundtrip : DtoRoundtrip FailureDto (fun _ => true).
Proof. intros [? s c]. destruct s; destruct c; vm_compute; reflexivity. Qed.
#[export] Instance transcript_roundtrip :
  DtoRoundtrip TranscriptHypothesisDto (fun v => negb (existsb needs_escape v.(th_text))).
Proof.
  intros [s g t f]. unfold to_fields, serialize_transcript. cbn [th_text th_session_id th_segment_id th_engine_final map token fst snd].
  generalize (negb (existsb needs_escape t)). intros []; vm_compute; reflexivity.
Qed.

(** Every field of a struct is of its type. *)
Ltac fields_ok :=
  destruct_and?; 
  repeat (apply Forall_cons_2; [cbn; first [done|assumption|reflexivity
    |by match goal with d : FailureStageDto |- _ => destruct d end
    |by match goal with c : SidecarFailureCode |- _ => destruct c end]|]); apply Forall_nil_2.

Section Laws.
Context `{J : SerdeJson} {L : SerdeJsonLaws}.

(** What was serialized deserializes, unless it holds an escaped text that must
    be borrowed. *)
Lemma serialize_deserialize {A} `{DtoRoundtrip A plain} (v : A) p :
  Forall (fun f => scalar_ok f.2) (to_fields v) -> serialize v = Ok p ->
  exists s, from_utf8 p = Some s /\ deserialize A s = if plain v then Ok v else Err InvalidControlJson.
Proof using L.
  intros Hok E. destruct (json_written (to_fields v) Hok) as (s & Hs & Hv & Hf). unfold serialize in E. rewrite Hv in E.
  cbn in E. simplify_eq. exists s. split; [by apply from_utf8_encode|]. unfold deserialize. rewrite Hf. cbn.
  rewrite dto_roundtrip. by destruct (plain v).
Qed.

Lemma capture_roundtrip make s o p :
  is_u64 (SessionId_get s) -> is_u64 o -> capture_identity s o = Ok p ->
  exists json, from_utf8 p = Some json /\ decode_capture_identity make json = Ok (make s o).
Proof using L.
  intros Hs Ho E. unfold capture_identity in E. destruct (require_capture_identity s o) as [[]|] eqn:R; [|done]. cbn [result_bind] in E.
  apply serialize_deserialize in E as (json & H1 & H2); [|fields_ok]. exists json. split; [done|].
  unfold decode_capture_identity. rewrite H2. cbn [result_bind ci_session_id ci_operation_id]. destruct s as [s]. cbn in R |- *. by rewrite R.
Qed.

Ltac read_back E :=
  apply serialize_deserialize in E as (json & H1 & H2); [|fields_ok];
  unfold decode_control; rewrite H1; cbn [ok_or result_bind];
  unfold decode_session, decode_flush_identity, decode_media_identity; rewrite H2; cbn [result_bind].

Lemma control_roundtrip c p :
  control_ok c -> encode_control c = Ok p ->
  decode_control (control_kind c) p = if plain_transcript c then Ok c else Err InvalidControlJson.
Proof using L.
  intros Hok E. destruct c; cbn [control_ok encode_control control_kind plain_transcript] in *.
  2-4, 13-15: destruct Hok as [Hs Ho]; eapply capture_roundtrip in E as (json & H1 & H2); [|done..];
    unfold decode_control; rewrite H1; exact H2.
  - read_back E. by destruct session_id.
  - unfold flush_identity in E. read_back E. by destruct session_id, generation_id.
  - read_back E. by destruct session_id.
  - read_back E. by destruct session_id.
  - destruct activity; read_back E; by destruct session_id.
  - read_back E. destruct (negb _); [|done]. destruct session_id, hypothesis as [? ? []]; done.
  - unfold media_identity in E. read_back E. by destruct session_id, t, g, u.
  - unfold media_identity in E. read_back E. by destruct session_id, t, g, u.
  - unfold flush_identity in E. read_back E. by destruct session_id, generation_id.
  - read_back E. by destruct session_id.
  - destruct (FailureStageDto_try_from stage) as [d|] eqn:D; [|done]. cbn [result_bind] in E. read_back E.
    apply stage_roundtrip in D as <-. by destruct session_id.
  - read_back E. by destruct session_id.
Qed.

End Laws.

(** ** Audio payloads *)

Lemma zlen_be n v : zlen (be_bytes n v) = Z.of_nat n.
Proof. unfold zlen. by rewrite be_bytes_length. Qed.

Lemma be_u64 v : is_u64 v -> be_value (be_bytes 8 v) = v.
Proof. intros H. apply be_value_bytes. ints. Qed.
Lemma be_u32 v : is_u32 v -> be_value (be_bytes 4 v) = v.
Proof. intros H. apply be_value_bytes. ints. Qed.
Lemma be_u16 v : is_u16 v -> be_value (be_bytes 2 v) = v.
Proof. intros H. apply be_value_bytes. ints. Qed.

Lemma AudioFrame_new_of t g u q fmt bs :
  wf_format fmt -> 0 < zlen bs <= MAX_PCM_FRAME_BYTES ->
  zlen bs mod (fmt.(channels) * bytes_per_sample fmt.(sample_format)) = 0 ->
  AudioFrame_new t g u q fmt bs =
    Ok {| frame_turn_id := t; frame_generation_id := g; frame_utterance_id := u; frame_sequence := q; format := fmt;
          frame_bytes := bs; capture_timing := None |}.
Proof.
  intros Hf Hl Ha. unfold AudioFrame_new. destruct (frame_alignment_bytes_Ok fmt Hf) as [E _]. rewrite E.
  destruct bs; [unfold zlen in Hl; cbn in Hl; lia|]. cbn [is_empty result_bind]. rewrite (proj2 (Z.ltb_ge _ _)) by lia. by rewrite Ha.
Qed.

Lemma decode_sample_format_number f : decode_sample_format (sample_format_number f) = Ok f.
Proof. by destruct f. Qed.

(** The fields of an encoded audio payload. *)
Lemma audio_payload_fields s t g u q rate ch fmt bs :
  is_u64 s -> is_u64 t -> is_u64 g -> is_u64 u -> is_u64 q -> is_u32 rate -> is_u16 ch -> is_u16 fmt ->
  let p := be_bytes 8 s ++ be_bytes 8 t ++ be_bytes 8 g ++ be_bytes 8 u ++ be_bytes 8 q ++ be_bytes 4 rate ++
           be_bytes 2 ch ++ be_bytes 2 fmt ++ bs in
  read_u64 0 p = s /\ read_u64 8 p = t /\ read_u64 16 p = g /\ read_u64 24 p = u /\ read_u64 32 p = q /\
  read_u32 40 p = rate /\ read_u16 44 p = ch /\ read_u16 46 p = fmt /\ drop 48 p = bs /\ zlen p = 48 + zlen bs.
Proof.
  intros ? ? ? ? ? ? ? ? p. unfold read_u64, read_u32, read_u16, p. split_and!.
  all: try (read_field; apply be_u64; done). all: try (read_field; apply be_u32; done). all: try (read_field; apply be_u16; done).
  - done.
  - rewrite !zlen_app, !zlen_be. lia.
Qed.

Lemma audio_roundtrip s f p :
  audio_ok s f -> encode_audio_payload s f = Ok p -> decode_audio_payload p = Ok (s, f).
Proof.
  intros (H1 & H2 & H3 & H4 & H5 & (Hf & Hl & Ha) & Ht) E. unfold encode_audio_payload in E.
  rewrite (proj2 (Z.ltb_ge _ _)) in E by lia. destruct (checked_add _ _) as [n|]; [|done]. cbn [ok_or result_bind] in E.
  destruct (validate_payload_length _ _); [|done]. cbn [result_bind] in E. apply Ok_inj in E. subst p.
  destruct Hf as [Hr Hc].
  destruct (audio_payload_fields (SessionId_get s) (TurnId_get f.(frame_turn_id)) (GenerationId_get f.(frame_generation_id))
    (UtteranceId_get f.(frame_utterance_id)) f.(frame_sequence) f.(format).(sample_rate_hz) f.(format).(channels)
    (sample_format_number f.(format).(sample_format)) f.(frame_bytes))
    as (F1 & F2 & F3 & F4 & F5 & F6 & F7 & F8 & F9 & F10); try done; try ints; [destruct (sample_format _); cbn; ints|].
  lazymatch type of F10 with zlen ?x = _ => set (p := x) in * end. unfold decode_audio_payload. rewrite F1, F2, F3, F4, F5, F6, F7, F8, F9, F10.
  unfold AUDIO_METADATA_BYTES, saturating_sub. rewrite (proj2 (Z.ltb_ge _ _)) by lia. rewrite (proj2 (Z.ltb_ge _ _)) by lia.
  rewrite decode_sample_format_number. cbn [result_bind]. rewrite !(proj2 (Z.eqb_neq _ _)) by lia.
  destruct (frame_alignment_bytes_Ok f.(format)) as [Al _]; [by split|]. unfold frame_alignment_bytes in Al.
  destruct (checked_mul _ _); [|done]. cbn [ok_or] in Al |- *. injection Al as ->. cbn [result_bind].
  assert (Ne : is_empty (frame_bytes f) = false).
  { destruct (frame_bytes f); [unfold zlen in Hl; cbn in Hl; lia|done]. }
  rewrite Ne, Ha. cbn [negb Z.eqb].
  rewrite PcmFormat_new_of by by split. cbn [map_err result_bind]. rewrite AudioFrame_new_of by (done || by split).
  cbn [map_err result_bind]. destruct s, f as [[] [] [] ? ? ? ?]. cbn in *. by subst.
Qed.

Lemma be_bytes_read n from p :
  Forall is_byte p -> (from + n <= length p)%nat -> be_bytes n (be_value (slice from (from + n) p)) = slice from (from + n) p.
Proof. apply be_bytes_slice. Qed.

Lemma decode_sample_format_Ok c f : decode_sample_format c = Ok f -> c = sample_format_number f.
Proof. unfold decode_sample_format. intros H. split_ifs_in H; simplify_eq; breflect; done. Qed.

(** Every accepted audio payload is the encoding of what was decoded. *)
Lemma audio_canonical p s f :
  Forall is_byte p -> decode_audio_payload p = Ok (s, f) -> encode_audio_payload s f = Ok p /\ audio_ok s f.
Proof.
  intros Hb H. unfold decode_audio_payload in H. cbn zeta in H.
  destruct (_ <? saturating_sub _ _) eqn:L1; [done|]. destruct (zlen p <? _) eqn:L2; [done|].
  unfold saturating_sub, AUDIO_METADATA_BYTES in *. breflect.
  assert (Len : (48 <= length p)%nat) by (unfold zlen in L2; lia).
  assert (U : forall k, (k + 8 <= 48)%nat -> is_u64 (read_u64 k p))
    by (intros k Hk; pose proof (be_value_slice_bounds 8 k p Hb ltac:(lia)); unfold read_u64; ints).
  assert (U4 : is_u32 (read_u32 40 p)) by (pose proof (be_value_slice_bounds 4 40 p Hb ltac:(lia)); unfold read_u32; ints).
  assert (U2 : is_u16 (read_u16 44 p)) by (pose proof (be_value_slice_bounds 2 44 p Hb ltac:(lia)); unfold read_u16; ints).
  destruct (decode_sample_format _) as [sf|] eqn:Sf; [|done]. cbn [result_bind] in H. apply decode_sample_format_Ok in Sf.
  destruct (read_u32 40 p =? 0) eqn:R; [done|]. destruct (read_u16 44 p =? 0) eqn:C; [done|]. destruct (is_empty _); [done|].
  destruct (checked_mul _ _); [|done]. cbn [ok_or result_bind] in H. destruct (negb _); [done|].
  destruct (PcmFormat_new _ _ _) as [fmt|] eqn:Pf; [|done]. cbn [map_err result_bind] in H.
  apply PcmFormat_new_wf in Pf as [Wf ->]; [|done..].
  destruct (AudioFrame_new _ _ _ _ _ _) as [fr|] eqn:Af; [|done]. cbn [map_err result_bind] in H. simplify_eq.
  pose proof (AudioFrame_new_wf _ _ _ _ _ _ _ Wf Af) as [Wfr Bs]. pose proof Wfr as (_ & Hl & _).
  assert (Shape : f = {| frame_turn_id := TurnId_new (read_u64 8 p); frame_generation_id := GenerationId_new (read_u64 16 p);
    frame_utterance_id := UtteranceId_new (read_u64 24 p); frame_sequence := read_u64 32 p;
    format := {| sample_rate_hz := read_u32 40 p; channels := read_u16 44 p; sample_format := sf |};
    frame_bytes := drop 48 p; capture_timing := None |}).
  { unfold AudioFrame_new in Af. destruct (is_empty _); [done|]. destruct (_ <? zlen _); [done|].
    destruct (frame_alignment_bytes _); [|done]. cbn [result_bind] in Af. destruct (negb _); [done|]. by simplify_eq. }
  split.
  - unfold encode_audio_payload. rewrite (proj2 (Z.ltb_ge _ _)) by lia. unfold checked_add, validate_payload_length, AUDIO_METADATA_BYTES.
    rewrite (proj2 (Z.leb_le _ _)) by (unfold MAX_PCM_FRAME_BYTES in *; ints). cbn [ok_or result_bind maximum_payload_bytes].
    unfold MAX_AUDIO_PAYLOAD_BYTES, AUDIO_METADATA_BYTES. rewrite (proj2 (Z.ltb_ge _ _)) by lia. cbn [result_bind]. f_equal.
    rewrite Shape. cbn [frame_turn_id frame_generation_id frame_utterance_id frame_sequence format frame_bytes sample_rate_hz channels sample_format].
    rewrite <- Sf. unfold read_u64, read_u32, read_u16. cbn -[be_bytes be_value slice Nat.add drop app].
    rewrite (be_bytes_read 8 0 p), (be_bytes_read 8 8 p), (be_bytes_read 8 16 p), (be_bytes_read 8 24 p), (be_bytes_read 8 32 p),
      (be_bytes_read 4 40 p), (be_bytes_read 2 44 p), (be_bytes_read 2 46 p) by (done || lia). cbn [Nat.add].
    rewrite !app_assoc, !slice_join by lia. unfold slice. rewrite drop_0, Nat.sub_0_r. apply take_drop.
  - unfold audio_ok. rewrite Shape in Wfr |- *. cbn [SessionId_get TurnId_get GenerationId_get UtteranceId_get frame_turn_id frame_generation_id frame_utterance_id
      frame_sequence capture_timing]. split_and!; first [done | apply U; lia].
Qed.

(** ** Whole frames *)

Definition header (k : SidecarFrameKind) (n : Z) : list Z := be_bytes 2 PROTOCOL_VERSION ++ be_bytes 2 (code k) ++ be_bytes 4 n.

Lemma header_length k n : length (header k n) = 8%nat.
Proof. unfold header. by rewrite !length_app, !be_bytes_length. Qed.

Lemma zlen_header k n : zlen (header k n) = 8.
Proof. unfold zlen. by rewrite header_length. Qed.

Lemma maximum_payload_bounds k : 0 < maximum_payload_bytes k < 2 ^ 31.
Proof. by destruct k. Qed.

Lemma validate_payload_length_Ok k n : validate_payload_length k n = Ok tt <-> n <= maximum_payload_bytes k.
Proof. unfold validate_payload_length. split; [intros H; split_ifs_in H; breflect; [done|lia]|]. intros H. by rewrite (proj2 (Z.ltb_ge _ _)) by lia. Qed.

Lemma header_fields k n rest :
  0 <= n <= maximum_payload_bytes k ->
  be_value (slice 0 2 (header k n ++ rest)) = PROTOCOL_VERSION /\ be_value (slice 2 4 (header k n ++ rest)) = code k /\
  be_value (slice 4 8 (header k n ++ rest)) = n /\ drop 8 (header k n ++ rest) = rest.
Proof.
  intros H. pose proof (maximum_payload_bounds k). unfold header. rewrite <- !app_assoc. split_and!.
  - read_field. by apply be_u16.
  - read_field. apply be_u16, code_u16.
  - read_field. apply be_u32. ints.
  - done.
Qed.

Section Frames.
Context `{J : SerdeJson}.

Definition decode_payload (k : SidecarFrameKind) (p : list Z) : cresult SidecarFrame :=
  if bool_decide (k = K_AudioFrame) then
    let? '(s, f) := decode_audio_payload p in Ok (frame_audio s f)
  else let? c := decode_control k p in Ok (frame_control c).

(** What is read after a header depends on how many bytes follow it. *)
Lemma decode_frame_after_header k n rest :
  0 <= n <= maximum_payload_bytes k ->
  decode_frame (header k n ++ rest) =
    if zlen rest <? n then Err (NeedMoreData (HEADER_BYTES + n) (HEADER_BYTES + zlen rest))
    else if n <? zlen rest then Err (TrailingBytes (zlen rest - n))
    else decode_payload k rest.
Proof.
  intros H. destruct (header_fields k n rest H) as (F1 & F2 & F3 & F4). pose proof (zlen_nonneg rest).
  pose proof (maximum_payload_bounds k). unfold decode_frame. rewrite F1, F2, F3, F4, zlen_app, zlen_header. unfold HEADER_BYTES, checked_add.
  rewrite (proj2 (Z.ltb_ge _ _)) by lia. cbn [negb Z.eqb]. rewrite Z.eqb_refl. cbn [negb]. rewrite kind_try_from_code. cbn [result_bind].
  rewrite (proj2 (validate_payload_length_Ok k n)) by lia. cbn [result_bind]. rewrite (proj2 (Z.leb_le _ _)) by ints. cbn [ok_or result_bind].
  replace (8 + zlen rest <? 8 + n) with (zlen rest <? n) by (destruct (Z.ltb_spec (zlen rest) n), (Z.ltb_spec (8 + zlen rest) (8 + n)); lia).
  replace (8 + n <? 8 + zlen rest) with (n <? zlen rest) by (destruct (Z.ltb_spec n (zlen rest)), (Z.ltb_spec (8 + n) (8 + zlen rest)); lia).
  replace (8 + zlen rest - (8 + n)) with (zlen rest - n) by lia. by unfold decode_payload.
Qed.

Definition encode_payload (f : SidecarFrame) : cresult (list Z) :=
  match f.(payload) with Control c => encode_control c | AudioPayload s f => encode_audio_payload s f end.

Lemma encode_frame_Ok f bs :
  f.(version) = PROTOCOL_VERSION ->
  encode_frame f = Ok bs <->
  exists p, encode_payload f = Ok p /\ zlen p <= maximum_payload_bytes (frame_kind f) /\ bs = header (frame_kind f) (zlen p) ++ p.
Proof.
  intros V. unfold encode_frame. fold (encode_payload f). pose proof (maximum_payload_bounds (frame_kind f)). split.
  - intros E. destruct (encode_payload f) as [p|]; [|done]. cbn [result_bind] in E. exists p.
    destruct (validate_payload_length _ _) as [[]|] eqn:Vl; [|done]. apply validate_payload_length_Ok in Vl. cbn [result_bind] in E.
    destruct (zlen p <=? u32_max); [|done]. cbn [result_bind] in E. destruct (checked_add _ _); [|done]. cbn [ok_or result_bind] in E.
    apply Ok_inj in E. subst bs. split_and!; [done..|]. unfold header. by rewrite V, <- !app_assoc.
  - intros (p & -> & Hl & ->). cbn [result_bind]. rewrite (proj2 (validate_payload_length_Ok _ _)) by done. cbn [result_bind].
    pose proof (zlen_nonneg p). rewrite (proj2 (Z.leb_le _ _)) by ints. unfold checked_add, HEADER_BYTES. cbn [result_bind].
    rewrite (proj2 (Z.leb_le _ _)) by ints. cbn [ok_or result_bind]. unfold header. by rewrite V, <- !app_assoc.
Qed.

(** A prefix of a frame asks for more, never more than the frame has. *)
Lemma prefix_needs_more k p m :
  zlen p <= maximum_payload_bytes k -> let bs := header k (zlen p) ++ p in
  (m < length bs)%nat ->
  exists required, Z.of_nat m < required <= zlen bs /\ decode_frame (take m bs) = Err (NeedMoreData required (Z.of_nat m)).
Proof.
  intros Hl bs Hm. subst bs. assert (Hz : zlen (take m (header k (zlen p) ++ p)) = Z.of_nat m)
    by (unfold zlen at 1; rewrite length_take, Nat.min_l by lia; done).
  rewrite zlen_app, zlen_header. destruct (decide (m < 8)%nat) as [S|S].
  - exists HEADER_BYTES. pose proof (zlen_nonneg p). unfold HEADER_BYTES. split; [lia|]. unfold decode_frame. rewrite Hz.
    by rewrite (proj2 (Z.ltb_lt _ _)) by (unfold HEADER_BYTES; lia).
  - rewrite take_app, header_length in Hz |- *. rewrite (take_ge (header _ _)) in Hz |- * by (rewrite header_length; lia).
    rewrite length_app, header_length in Hm. rewrite zlen_app, zlen_header in Hz. rewrite decode_frame_after_header by (pose proof (zlen_nonneg p); lia).
    assert (Hp : zlen p = Z.of_nat (length p)) by done. exists (HEADER_BYTES + zlen p). unfold HEADER_BYTES. split; [lia|].
    rewrite (proj2 (Z.ltb_lt _ _)) by lia. by rewrite Hz.
Qed.

Lemma extra_bytes_are_trailing k p more :
  zlen p <= maximum_payload_bytes k -> more <> [] ->
  decode_frame (header k (zlen p) ++ p ++ more) = Err (TrailingBytes (zlen more)).
Proof.
  intros Hl Hm. pose proof (zlen_nonneg p). assert (0 < zlen more) by (destruct more; [done|rewrite zlen_cons; pose proof (zlen_nonneg more); lia]).
  rewrite decode_frame_after_header by lia. rewrite zlen_app. rewrite (proj2 (Z.ltb_ge _ _)) by lia. rewrite (proj2 (Z.ltb_lt _ _)) by lia.
  do 2 f_equal. lia.
Qed.

End Frames.

Section Claims.
Context `{J : SerdeJson} {L : SerdeJsonLaws}.

Lemma encoded_decodes f bs :
  frame_ok f -> encode_frame f = Ok bs -> decode_frame bs = if carried f then Ok f else Err InvalidControlJson.
Proof using L.
  intros [V Hok] E. apply encode_frame_Ok in E as (p & Ep & Hl & ->); [|done]. rewrite decode_frame_after_header by (pose proof (zlen_nonneg p); lia).
  rewrite Z.ltb_irrefl. destruct f as [v [c|s a]]; cbn in V, Hok, Ep |- *; subst v; unfold decode_payload, carried; cbn [frame_kind payload].
  - rewrite bool_decide_eq_false_2 by by destruct c. rewrite (control_roundtrip c p Hok Ep). cbn [payload]. by destruct (plain_transcript c).
  - rewrite bool_decide_eq_true_2 by done. by rewrite (audio_roundtrip s a p Hok Ep).
Qed.

(** C36. A frame whose fields fit their types and that encodes is read back
    exactly, unless it is a transcript with a character JSON escapes (an audio
    frame has no capture timing here: the wire has no place for it); each
    strict prefix of the bytes asks for more bytes, never for more than the
    frame has (and at the end of the input is reported as truncated), and bytes
    after the frame are counted and refused. *)
Theorem sidecar_frames_read_back f bs :
  frame_ok f -> encode_frame f = Ok bs ->
  (carried f = true -> decode_frame bs = Ok f) /\
  (forall m, (m < length bs)%nat -> exists required, Z.of_nat m < required <= zlen bs /\
     decode_frame (take m bs) = Err (NeedMoreData required (Z.of_nat m)) /\
     decode_frame_at_eof (take m bs) = Err (TruncatedFrame required (Z.of_nat m))) /\
  (forall more, more <> [] -> decode_frame (bs ++ more) = Err (TrailingBytes (zlen more))).
Proof using L.
  intros Hok E. split_and!.
  - intros C. by rewrite (encoded_decodes f bs Hok E), C.
  - intros m Hm. apply encode_frame_Ok in E as (p & _ & Hl & ->); [|apply Hok].
    destruct (prefix_needs_more _ p m Hl Hm) as (r & Hr & D). exists r. split; [done|]. split; [done|]. unfold decode_frame_at_eof. by rewrite D.
  - intros more Hm. apply encode_frame_Ok in E as (p & _ & Hl & ->); [|apply Hok]. rewrite <- app_assoc. by apply extra_bytes_are_trailing.
Qed.

(** C39. A hypothesis of the recognizer whose text has a quote, a backslash or a
    control character encodes to a frame that is refused as invalid JSON, though
    the frame is well formed and the JSON is valid. *)
Theorem escaped_transcript_is_refused s h bs :
  control_ok (TranscriptHypothesis s h) -> existsb needs_escape h.(hyp_text) = true ->
  encode_frame (frame_control (TranscriptHypothesis s h)) = Ok bs ->
  decode_frame bs = Err InvalidControlJson /\
  exists json, from_utf8 (drop 8 bs) = Some json /\ is_Some (json_from_str json).
Proof using L.
  intros Hok He E. assert (F : frame_ok (frame_control (TranscriptHypothesis s h))) by by split.
  split; [rewrite (encoded_decodes _ _ F E); unfold carried; cbn [frame_control payload plain_transcript]; by rewrite He|].
  apply encode_frame_Ok in E as (p & Ep & Hl & ->); [|done]. cbn [encode_payload frame_control payload encode_control] in Ep.
  destruct Hok as (H1 & H2 & H3).
  destruct (json_written (to_fields {| th_session_id := SessionId_get s; th_segment_id := hyp_segment_id h; th_text := hyp_text h;
    th_engine_final := hyp_engine_final h |})) as (j & Hj & Hv & Hf); [fields_ok|].
  unfold serialize in Ep. rewrite Hv in Ep. apply Ok_inj in Ep. subst p. exists j. rewrite drop_app_length' by by rewrite header_length.
  rewrite from_utf8_encode by done. by rewrite Hf.
Qed.

End Claims.

Lemma well_formed_audio_encodes `{SerdeJson} s f :
  audio_ok s f -> exists bs, encode_frame (frame_audio s f) = Ok bs.
Proof.
  intros (_ & _ & _ & _ & _ & (_ & Hl & _) & _). assert (E : exists p, encode_audio_payload s f = Ok p /\ zlen p = 48 + zlen f.(frame_bytes)).
  { unfold encode_audio_payload, checked_add, validate_payload_length, AUDIO_METADATA_BYTES. rewrite (proj2 (Z.ltb_ge _ _)) by lia.
    rewrite (proj2 (Z.leb_le _ _)) by (unfold MAX_PCM_FRAME_BYTES in *; ints). cbn [ok_or result_bind maximum_payload_bytes].
    unfold MAX_AUDIO_PAYLOAD_BYTES, AUDIO_METADATA_BYTES. rewrite (proj2 (Z.ltb_ge _ _)) by lia. cbn [result_bind].
    eexists. split; [done|]. rewrite !zlen_app, !zlen_be. lia. }
  destruct E as (p & E & Hp). eexists. apply encode_frame_Ok; [done|]. exists p. split_and!; [done| |done].
  cbn. unfold MAX_AUDIO_PAYLOAD_BYTES, AUDIO_METADATA_BYTES. lia.
Qed.

(** What an accepted frame says of the bytes. *)
Lemma decode_frame_Ok `{SerdeJson} bs f :
  Forall is_byte bs -> decode_frame bs = Ok f ->
  exists k p, f.(version) = PROTOCOL_VERSION /\ bs = header k (zlen p) ++ p /\ zlen p <= maximum_payload_bytes k /\ decode_payload k p = Ok f.
Proof.
  intros Hb D. unfold decode_frame in D. destruct (zlen bs <? HEADER_BYTES) eqn:L8; [done|]. cbn zeta in D.
  destruct (negb (_ =? PROTOCOL_VERSION)) eqn:V; [done|].
  destruct (kind_try_from _) as [k|] eqn:K; [|done]. cbn [result_bind] in D.
  destruct (validate_payload_length _ _) as [[]|] eqn:Vl; [|done]. apply validate_payload_length_Ok in Vl. cbn [result_bind] in D.
  destruct (checked_add _ _) as [r|] eqn:Ca; [|done]. cbn [ok_or result_bind] in D. unfold checked_add in Ca. split_ifs_in Ca; simplify_eq.
  destruct (_ <? HEADER_BYTES + _) eqn:L1; [done|]. destruct (_ + _ <? _) eqn:L2; [done|]. unfold HEADER_BYTES in *. breflect.
  assert (Len : (8 <= length bs)%nat) by (unfold zlen in *; lia).
  assert (Zd : zlen (drop 8 bs) = be_value (slice 4 8 bs)) by (unfold zlen in *; rewrite length_drop; lia).
  exists k, (drop 8 bs). rewrite Zd. split_and!; [|  |done|].
  - destruct (bool_decide _); [destruct (decode_audio_payload _) as [[]|]|destruct (decode_control _ _)]; cbn [result_bind] in D; simplify_eq; done.
  - pose proof (be_bytes_read 2 0 bs Hb ltac:(lia)) as R1. pose proof (be_bytes_read 2 2 bs Hb ltac:(lia)) as R2.
    pose proof (be_bytes_read 4 4 bs Hb ltac:(lia)) as R3. cbn [Nat.add] in R1, R2, R3.
    unfold header. rewrite (kind_try_from_inv _ _ K), <- V, R1, R2, R3, !slice_join by lia.
    unfold slice. rewrite drop_0, Nat.sub_0_r. by rewrite take_drop.
  - unfold decode_payload. rewrite V in D. done.
Qed.

(** Bytes are accepted as a frame of PCM exactly when they are the encoding
    of that frame and the frame is well formed (its PCM not empty, sample
    aligned and within the limit, and no capture timing), so no two encodings
    are read as the same frame; and every well-formed frame has an encoding. *)
Theorem audio_frame_encoding_is_canonical `{SerdeJson} bs s f :
  Forall is_byte bs ->
  (decode_frame bs = Ok (frame_audio s f) <-> encode_frame (frame_audio s f) = Ok bs /\ audio_ok s f) /\
  (audio_ok s f -> exists bs', encode_frame (frame_audio s f) = Ok bs').
Proof.
  intros Hb. split; [|apply well_formed_audio_encodes]. split.
  - intros D. destruct (decode_frame_Ok _ _ Hb D) as (k & p & _ & -> & Hl & Dp). unfold decode_payload in Dp.
    case_bool_decide as K; [|destruct (decode_control _ _); done]. subst k.
    destruct (decode_audio_payload p) as [[s' f']|] eqn:A; [|done]. cbn in Dp. simplify_eq.
    apply audio_canonical in A as [E Ok]; [|by apply Forall_app in Hb as [_ Hb]]. split; [|done]. apply encode_frame_Ok; [done|]. by exists p.
  - intros [E Ok]. apply encode_frame_Ok in E as (p & Ep & Hl & ->); [|done]. rewrite decode_frame_after_header by (pose proof (zlen_nonneg p); done).
    rewrite Z.ltb_irrefl. unfold decode_payload. cbn [frame_audio frame_kind payload]. rewrite bool_decide_eq_true_2 by done.
    by rewrite (audio_roundtrip s f p Ok Ep).
Qed.

(** ** A JSON library that satisfies the laws *)

#[export] Instance Scalar_eq_dec : EqDecision Scalar.
Proof. solve_decision. Defined.

#[export] Instance Scalar_countable : Countable Scalar.
Proof.
  refine (inj_countable' (fun v => match v with J_u64 v => inl v | J_str s => inr (inl s) | J_bool b => inr (inr b) end)
    (fun x : Z + (rstr + bool) => match x with inl v => J_u64 v | inr (inl s) => J_str s | inr (inr b) => J_bool b end) _).
  by intros [].
Defined.

Fixpoint bits (p : positive) : rstr :=
  match p with xI p => 49 :: bits p | xO p => 48 :: bits p | xH => [] end.
Fixpoint of_bits (s : rstr) : positive :=
  match s with [] => xH | c :: s => if c =? 49 then xI (of_bits s) else xO (of_bits s) end.

Lemma of_bits_bits p : of_bits (bits p) = p.
Proof. induction p; cbn; by rewrite ?IHp. Qed.

Lemma bits_scalars p : forallb is_unicode_scalar (bits p) = true.
Proof. by induction p. Qed.

Definition bit_json : SerdeJson :=
  {| json_to_vec fs := Some (utf8_encode (bits (encode fs)));
     json_from_str s := fs ← decode (A := list (rstr * Scalar)) (of_bits s); Some (Object (map (fun f => (f.1, token f.2)) fs)) |}.

#[export] Instance bit_json_laws : @SerdeJsonLaws bit_json.
Proof.
  constructor. intros fs _. exists (bits (encode fs)). split_and!; [apply bits_scalars|done|].
  unfold json_from_str, bit_json. rewrite of_bits_bits, decode_encode. done.
Qed.

Definition sample_status : SidecarFrame := frame_control (AudioDeviceStatus (SessionId_new 7) (lit "a\b") (lit "c")).
Definition sample_hypothesis : RecognitionHypothesis := partial 3 [72; 34; 105; 34].
Definition sample_pcm : AudioFrame :=
  {| frame_turn_id := TurnId_new 1; frame_generation_id := GenerationId_new 2; frame_utterance_id := UtteranceId_new 3;
     frame_sequence := 4; format := {| sample_rate_hz := 48000; channels := 1; sample_format := Signed16LittleEndian |};
     frame_bytes := [1; 2; 3; 4]; capture_timing := None |}.

Definition ok_or_nil (r : cresult (list Z)) : list Z := match r with Ok bs => bs | Err _ => [] end.
Definition is_ok (r : cresult (list Z)) : bool := match r with Ok _ => true | Err _ => false end.

Lemma is_ok_Ok r : is_ok r = true -> r = Ok (ok_or_nil r).
Proof. by destruct r. Qed.

Lemma sample_status_encodes : @encode_frame bit_json sample_status = Ok (ok_or_nil (@encode_frame bit_json sample_status)).
Proof. apply is_ok_Ok. vm_compute. reflexivity. Qed.

Lemma sample_hypothesis_encodes :
  let f := frame_control (TranscriptHypothesis (SessionId_new 7) sample_hypothesis) in
  @encode_frame bit_json f = Ok (ok_or_nil (@encode_frame bit_json f)).
Proof. apply is_ok_Ok. vm_compute. reflexivity. Qed.

Lemma sidecar_frames_read_back_witness :
  let bs := ok_or_nil (@encode_frame bit_json sample_status) in
  frame_ok sample_status /\ @decode_frame bit_json bs = Ok sample_status.
Proof.
  assert (Hok : frame_ok sample_status) by (vm_compute; intuition congruence).
  split; [exact Hok|]. apply (@sidecar_frames_read_back bit_json bit_json_laws sample_status _ Hok sample_status_encodes). reflexivity.
Defined.

Lemma escaped_transcript_is_refused_witness :
  let c := TranscriptHypothesis (SessionId_new 7) sample_hypothesis in
  control_ok c /\ @decode_frame bit_json (ok_or_nil (@encode_frame bit_json (frame_control c))) = Err InvalidControlJson.
Proof.
  assert (Hok : control_ok (TranscriptHypothesis (SessionId_new 7) sample_hypothesis)) by (vm_compute; intuition congruence).
  split; [exact Hok|].
  apply (@escaped_transcript_is_refused bit_json bit_json_laws (SessionId_new 7) sample_hypothesis _ Hok eq_refl sample_hypothesis_encodes).
Defined.

Lemma audio_frame_encoding_is_canonical_witness :
  let bs := ok_or_nil (@encode_frame bit_json (frame_audio (SessionId_new 7) sample_pcm)) in
  zlen bs = 60 /\ @decode_frame bit_json bs = Ok (frame_audio (SessionId_new 7) sample_pcm).
Proof.
  split; [reflexivity|].
  apply (@audio_frame_encoding_is_canonical bit_json _ (SessionId_new 7) sample_pcm).
  - apply bytes_ok_sound. reflexivity.
  - split; [reflexivity|]. vm_compute. intuition congruence.
Defined.
