(* ===== verification/TurnEvents.v ===== *)
(** * Events of a turn and how a turn ends

    [crates/protocol/src/event.rs] and [PlaybackState] of [voice_event.rs]: what
    the runtime tells the consumer of a turn; the outcomes inside a streaming
    turn and the terminal events made of them, the check of an audio frame and
    the receipts of the audio output ([crates/runtime/src/streaming_turn.rs],
    [crates/model-adapters/src/streaming_speech.rs],
    [continuous_audio_output.rs]). *)

From S2P Require Import Prelude RustStr Errors Pcm CaptureTiming Audio ProtocolQuality MemoryProtocol MemoryRetrieval Context.

Inductive RuntimeTimingMilestone : Type :=
| FirstTextDelta
| FirstSynthesisRequest
| FirstPlayableAudio.

Inductive PlaybackState : Type :=
| Playback_Accepted
| Playback_Rendered
| Playback_Flushed.

Inductive RuntimeEvent : Type :=
| TurnStarted (turn : TurnId)
| TranscriptFinal (turn : TurnId) (words : rstr)
| TextDelta (turn : TurnId) (delta : rstr)
| TextCompleted (turn : TurnId) (words : rstr)
| Timing (turn : TurnId) (milestone : RuntimeTimingMilestone) (elapsed_ms : Z)
| SpeechStarted (turn : TurnId)
| SpeechCompleted (turn : TurnId)
| Playback (turn : TurnId) (generation : GenerationId) (state : PlaybackState)
| QualityResolved (decision : QualityDecision)
| MemoryRetrieved (trace : MemoryRetrievalTrace)
| TurnCompleted (turn : TurnId)
| TurnCancelled (turn : TurnId)
| TurnFailed (turn : TurnId) (error : RuntimeError).

Definition event_turn_id (e : RuntimeEvent) : TurnId :=
  match e with
  | TurnStarted t | TranscriptFinal t _ | TextDelta t _ | TextCompleted t _ | Timing t _ _ | SpeechStarted t
  | SpeechCompleted t | Playback t _ _ | TurnCompleted t | TurnCancelled t | TurnFailed t _ => t
  | QualityResolved d => d.(ProtocolQuality.turn_id)
  | MemoryRetrieved t => t.(trace_turn_id)
  end.

Definition is_terminal (e : RuntimeEvent) : bool :=
  match e with TurnCompleted _ | TurnCancelled _ | TurnFailed _ _ => true | _ => false end.

(** [continuous_audio_output::PlaybackReceipt]. *)
Record PlaybackReceipt : Type := { receipt_generation_id : GenerationId; receipt_state : PlaybackState }.

(** [streaming_speech::StreamingSpeechRequest]. *)
Record StreamingSpeechRequest : Type := {
  speech_turn_id : TurnId;
  speech_generation_id : GenerationId;
  speech_utterance_id : UtteranceId;
  speech_text : rstr;
}.

#[export] Instance PlaybackState_eq_dec : EqDecision PlaybackState.
Proof. solve_decision. Defined.

(** ** Outcomes *)

Inductive SendOutcome : Type :=
| Send_Sent
| Send_Interrupted
| Send_Closed
| Send_Stale.

Inductive SpeechOutcome : Type :=
| Speech_Completed
| Speech_Interrupted
| Speech_Failed (stage : RuntimeStage) (error : AdapterError)
| Speech_EventStreamClosed.

(** [tokio::task::JoinError]: the task panicked or was aborted. *)
Inductive JoinError : Type := Task_panicked.

Abbreviation joined := (result SpeechOutcome JoinError) (only parsing).

Definition adapter_runtime_error (stage : RuntimeStage) (e : AdapterError) : RuntimeError :=
  RuntimeError_new Kind_Adapter stage e.(adapter_message).

Definition adapter_failure (t : TurnId) (stage : RuntimeStage) (e : AdapterError) : RuntimeEvent :=
  TurnFailed t (adapter_runtime_error stage e).

Definition runtime_failure (t : TurnId) (message : rstr) : RuntimeEvent := TurnFailed t (runtime_error message).

Definition memory_failure (t : TurnId) (e : MemoryStoreError) : RuntimeEvent :=
  let message :=
    match e.(store_error_kind) with
    | InvalidPath => lit "memory provider path is invalid"
    | NotInitialized => lit "memory provider is not initialized"
    | UnsupportedSchema => lit "memory provider schema is unsupported"
    | InvalidDatabase => lit "memory provider database is invalid"
    | NotFound => lit "memory provider record was not found"
    | Conflict => lit "memory provider request conflicted"
    | Busy => lit "memory provider is busy"
    | Cancelled => lit "memory retrieval was cancelled"
    | LimitExceeded => lit "memory retrieval scan limit was exceeded"
    | Storage | KeyUnavailable | KeyMismatch => lit "memory provider operation failed"
    end in
  TurnFailed t (RuntimeError_new Kind_Adapter Stage_Memory message).

Definition timing_event (t : TurnId) (milestone : RuntimeTimingMilestone) (elapsed_ms : Z) : RuntimeEvent :=
  Timing t milestone (clamp_u64 elapsed_ms).

Definition terminal_from_speech (t : TurnId) (outcome : joined) : RuntimeEvent :=
  match outcome with
  | Err _ => runtime_failure t (lit "streaming speech worker task failed")
  | Ok Speech_Completed => TurnCompleted t
  | Ok Speech_Interrupted => TurnCancelled t
  | Ok (Speech_Failed stage e) => adapter_failure t stage e
  | Ok Speech_EventStreamClosed => runtime_failure t (lit "streaming speech event consumer closed")
  end.

Definition validate_frame (f : AudioFrame) (t : TurnId) (g : GenerationId) (u : UtteranceId)
    (expected_sequence : Z) (negotiated_format : option PcmFormat) : result unit AdapterError :=
  if negb (bool_decide (f.(frame_turn_id) = t)) then
    Err (AdapterError_new (lit "audio frame turn identity mismatch"))
  else if negb (bool_decide (f.(frame_generation_id) = g)) then
    Err (AdapterError_new (lit "audio frame generation identity mismatch"))
  else if negb (bool_decide (f.(frame_utterance_id) = u)) then
    Err (AdapterError_new (lit "audio frame utterance identity mismatch"))
  else if negb (f.(frame_sequence) =? expected_sequence) then
    Err (AdapterError_new (lit "audio frame sequence gap: expected " ++ decimal expected_sequence ++
           lit ", received " ++ decimal f.(frame_sequence)))
  else if is_some_and negotiated_format (fun format => negb (bool_decide (f.(Audio.format) = format))) then
    Err (AdapterError_new (lit "audio frame format changed"))
  else Ok tt.

Lemma validate_frame_Ok f t g u n fmt :
  validate_frame f t g u n fmt = Ok tt <->
  f.(frame_turn_id) = t /\ f.(frame_generation_id) = g /\ f.(frame_utterance_id) = u /\ f.(frame_sequence) = n /\
  (forall format, fmt = Some format -> f.(Audio.format) = format).
Proof.
  unfold validate_frame. repeat case_bool_decide; cbn [negb]; try naive_solver.
  destruct (_ =? n) eqn:E; breflect; cbn [negb]; [|naive_solver].
  destruct fmt as [format|]; cbn [is_some_and]; [case_bool_decide; cbn [negb]|]; naive_solver.
Qed.
