(* ===== verification/StreamingTurn.v ===== *)
(** * A streaming turn

    [crates/runtime/src/streaming_turn.rs]: the task that generates text
    ([run_streaming_turn]) and the speech worker it feeds
    ([run_streaming_speech]), which share the bounded channel of events, the
    bounded queue of utterances, the mutex of the generation guard and two
    cancellation tokens.

    A turn is a transition system. The program counter of a task is the [await]
    it is suspended at, with the variables that are live there; a step runs the
    task from one [await] to the next. A label says which branch of the
    [select!] is taken and what the awaited adapter answered, so that [step] is
    a function and every interleaving and every adapter behaviour is a sequence
    of labels. The consumer of the events may read or go away, and an
    interruption may come, at any moment.

    [biased] polls the branches in order, on several threads: a branch may be
    taken when it is ready and no earlier branch was ready when the task last
    suspended ([view]); a flag raised in between may or may not be noticed. *)

From S2P Require Import Prelude RustStr Errors Pcm CaptureTiming Audio ProtocolQuality MemoryProtocol MemoryRetrieval LanguageInput Context UtteranceAssembler SpeechText TurnEvents.

Definition EVENT_BUFFER_SIZE : Z := 32.
Definition UTTERANCE_QUEUE_CAPACITY : Z := 2.
Definition DEFAULT_MAX_RESPONSE_BYTES : Z := 64 * 1024.

(** What a [StreamingTurnTask] is about; the adapters answer through labels. *)
Record StreamingTurnTask : Type := {
  task_turn_id : TurnId;
  task_generation_id : GenerationId;
  task_language_input : LanguageModelInput;
  task_has_memory : bool;
}.

Record QueuedUtterance : Type := { utterance_id : UtteranceId; utterance_text : rstr }.

(** ** Selecting a branch *)

Inductive branch : Type :=
| B_external    (* [external_interruption.cancelled()] *)
| B_work        (* [work_cancellation.cancelled()] *)
| B_closed      (* [events.closed()] *)
| B_worker      (* [&mut speech_worker] *)
| B_op.         (* the awaited operation *)

#[export] Instance branch_eq_dec : EqDecision branch.
Proof. solve_decision. Defined.

Record flags : Type := { f_external : bool; f_work : bool; f_closed : bool; f_worker : bool }.

Definition raised (f : flags) (b : branch) : bool :=
  match b with
  | B_external => f.(f_external)
  | B_work => f.(f_work)
  | B_closed => f.(f_closed)
  | B_worker => f.(f_worker)
  | B_op => true
  end.

(** [select! { biased; .. }] with the branches [order], then the operation. *)
Fixpoint may_take (order : list branch) (view now : flags) (b : branch) : bool :=
  match order with
  | [] => bool_decide (b = B_op)
  | x :: order =>
      if bool_decide (b = x) then raised now x else negb (raised view x) && may_take order view now b
  end.

(** What the world answers to the operation a task awaits. *)
Inductive answer : Type :=
| A_done
| A_elapsed (ms : Z)                                              (* [started_at.elapsed()] *)
| A_memory (r : result MemoryRetrieval MemoryStoreError)
| A_stream (panics : bool)                                         (* a call of [stream] *)
| A_delta (item : option (result GenerationTextDelta AdapterError))
| A_frame (item : option (result AudioFrame AdapterError))
| A_permit (granted : bool)                                        (* the guard is this generation's *)
| A_receipt (r : result PlaybackReceipt AdapterError)
| A_panic.

(** ** Shared state *)

Inductive task_name : Type := Generation | Speech.

#[export] Instance task_name_eq_dec : EqDecision task_name.
Proof. solve_decision. Defined.

Record pipeline : Type := {
  external : bool;                   (* external_interruption *)
  work : bool;                       (* work_cancellation *)
  closed : bool;                     (* the consumer dropped the event receiver *)
  unread : Z;                        (* events in the channel *)
  reserved : Z;                      (* permits held *)
  events : list RuntimeEvent;        (* every event handed to the channel *)
  sender : bool;                     (* the utterance sender is alive *)
  queue : list QueuedUtterance;      (* utterances in the queue *)
  queued : list QueuedUtterance;     (* every utterance sent *)
  permit : option task_name;         (* holder of the generation mutex *)
  requests : list StreamingSpeechRequest;  (* calls of the synthesizer *)
  enqueued : list AudioFrame;        (* calls of the audio output *)
  generated_text : rstr;
}.

Definition raise_external (p : pipeline) : pipeline :=
  {| external := true; work := p.(work); closed := p.(closed); unread := p.(unread); reserved := p.(reserved);
     events := p.(events); sender := p.(sender); queue := p.(queue); queued := p.(queued); permit := p.(permit);
     requests := p.(requests); enqueued := p.(enqueued); generated_text := p.(generated_text) |}.

Definition cancel_work (p : pipeline) : pipeline :=
  {| external := p.(external); work := true; closed := p.(closed); unread := p.(unread); reserved := p.(reserved);
     events := p.(events); sender := p.(sender); queue := p.(queue); queued := p.(queued); permit := p.(permit);
     requests := p.(requests); enqueued := p.(enqueued); generated_text := p.(generated_text) |}.

Definition close_events (p : pipeline) : pipeline :=
  {| external := p.(external); work := p.(work); closed := true; unread := p.(unread); reserved := p.(reserved);
     events := p.(events); sender := p.(sender); queue := p.(queue); queued := p.(queued); permit := p.(permit);
     requests := p.(requests); enqueued := p.(enqueued); generated_text := p.(generated_text) |}.

(** Change the occupancy of the channel and append what was handed to it. *)
Definition channel (p : pipeline) (d_unread d_reserved : Z) (es : list RuntimeEvent) : pipeline :=
  {| external := p.(external); work := p.(work); closed := p.(closed); unread := p.(unread) + d_unread;
     reserved := p.(reserved) + d_reserved; events := p.(events) ++ es; sender := p.(sender); queue := p.(queue);
     queued := p.(queued); permit := p.(permit); requests := p.(requests); enqueued := p.(enqueued);
     generated_text := p.(generated_text) |}.

Definition drop_sender (p : pipeline) : pipeline :=
  {| external := p.(external); work := p.(work); closed := p.(closed); unread := p.(unread); reserved := p.(reserved);
     events := p.(events); sender := false; queue := p.(queue); queued := p.(queued); permit := p.(permit);
     requests := p.(requests); enqueued := p.(enqueued); generated_text := p.(generated_text) |}.

Definition set_queue (p : pipeline) (q : list QueuedUtterance) (sent : list QueuedUtterance) : pipeline :=
  {| external := p.(external); work := p.(work); closed := p.(closed); unread := p.(unread); reserved := p.(reserved);
     events := p.(events); sender := p.(sender); queue := q; queued := p.(queued) ++ sent; permit := p.(permit);
     requests := p.(requests); enqueued := p.(enqueued); generated_text := p.(generated_text) |}.

Definition set_permit (p : pipeline) (holder : option task_name) : pipeline :=
  {| external := p.(external); work := p.(work); closed := p.(closed); unread := p.(unread); reserved := p.(reserved);
     events := p.(events); sender := p.(sender); queue := p.(queue); queued := p.(queued); permit := holder;
     requests := p.(requests); enqueued := p.(enqueued); generated_text := p.(generated_text) |}.

Definition log_request (p : pipeline) (r : StreamingSpeechRequest) : pipeline :=
  {| external := p.(external); work := p.(work); closed := p.(closed); unread := p.(unread); reserved := p.(reserved);
     events := p.(events); sender := p.(sender); queue := p.(queue); queued := p.(queued); permit := p.(permit);
     requests := p.(requests) ++ [r]; enqueued := p.(enqueued); generated_text := p.(generated_text) |}.

Definition log_frame (p : pipeline) (f : AudioFrame) : pipeline :=
  {| external := p.(external); work := p.(work); closed := p.(closed); unread := p.(unread); reserved := p.(reserved);
     events := p.(events); sender := p.(sender); queue := p.(queue); queued := p.(queued); permit := p.(permit);
     requests := p.(requests); enqueued := p.(enqueued) ++ [f]; generated_text := p.(generated_text) |}.

Definition push_text (p : pipeline) (s : rstr) : pipeline :=
  {| external := p.(external); work := p.(work); closed := p.(closed); unread := p.(unread); reserved := p.(reserved);
     events := p.(events); sender := p.(sender); queue := p.(queue); queued := p.(queued); permit := p.(permit);
     requests := p.(requests); enqueued := p.(enqueued); generated_text := p.(generated_text) ++ s |}.

(** The guard of the generation mutex is dropped. *)
Definition release (p : pipeline) (who : task_name) : pipeline :=
  set_permit p (if bool_decide (p.(permit) = Some who) then None else p.(permit)).

Definition has_room (p : pipeline) (n : Z) : bool := p.(unread) + p.(reserved) + n <=? EVENT_BUFFER_SIZE.

(** ** The speech worker *)

Inductive speech_pc : Type :=
| W_idle                                                            (* not spawned *)
| W_recv                                                            (* [utterances.recv()] *)
| W_reserve (u : QueuedUtterance)                                   (* [send_event_pair]: [reserve_many(2)] *)
| W_pair_first (u : QueuedUtterance)
| W_pair_second (u : QueuedUtterance)
| W_stream (u : QueuedUtterance)                                    (* the call of the synthesizer *)
| W_frames (u : QueuedUtterance) (expected : Z) (received : bool)   (* [frames.recv()] *)
| W_playable (u : QueuedUtterance) (expected : Z) (f : AudioFrame)  (* [send_event] *)
| W_permit (u : QueuedUtterance) (expected : Z) (f : AudioFrame)    (* [generation_guard.permit] *)
| W_enqueue (u : QueuedUtterance) (expected : Z)                    (* [enqueue] *)
| W_await_enqueue (o : SpeechOutcome)                               (* a cancelled [enqueue] *)
| W_accepted (u : QueuedUtterance) (expected : Z) (s : PlaybackState)  (* [send_event] *)
| W_cleanup (o : SpeechOutcome)                                     (* [cleanup_frame_stream] *)
| W_completed                                                       (* [send_event] *)
| W_done (o : joined).

Record speech_worker : Type := {
  w_pc : speech_pc;
  w_view : flags;
  emitted_speech_started : bool;
  emitted_first_playable : bool;
  emitted_first_accepted : bool;
  negotiated_format : option PcmFormat;
}.

Definition w_goto (w : speech_worker) (pc : speech_pc) : speech_worker :=
  {| w_pc := pc; w_view := w.(w_view); emitted_speech_started := w.(emitted_speech_started);
     emitted_first_playable := w.(emitted_first_playable); emitted_first_accepted := w.(emitted_first_accepted);
     negotiated_format := w.(negotiated_format) |}.

Definition w_mark (w : speech_worker) (started playable accepted : bool) (format : option PcmFormat) : speech_worker :=
  {| w_pc := w.(w_pc); w_view := w.(w_view); emitted_speech_started := w.(emitted_speech_started) || started;
     emitted_first_playable := w.(emitted_first_playable) || playable;
     emitted_first_accepted := w.(emitted_first_accepted) || accepted;
     negotiated_format := opt_or w.(negotiated_format) format |}.

(** The order of the branches in most of the [select!]s. *)
Definition stop_order : list branch := [B_external; B_work; B_closed].

(** [send_event]: [None] while the channel is full. *)
Definition send_event (p : pipeline) (view now : flags) (b : branch) (e : RuntimeEvent)
  : option (SendOutcome * pipeline) :=
  if may_take stop_order view now b then
    match b with
    | B_external | B_work => Some (Send_Interrupted, p)
    | B_closed => Some (Send_Closed, p)
    | _ => if p.(closed) then Some (Send_Closed, p)
           else if has_room p 1 then Some (Send_Sent, channel p 1 0 [e]) else None
    end
  else None.

(** [events.reserve_many(n)] in a [select!]. *)
Definition reserve_many (p : pipeline) (view now : flags) (b : branch) (n : Z) : option (SendOutcome * pipeline) :=
  if may_take stop_order view now b then
    match b with
    | B_external | B_work => Some (Send_Interrupted, p)
    | B_closed => Some (Send_Closed, p)
    | _ => if p.(closed) then Some (Send_Closed, p)
           else if has_room p n then Some (Send_Sent, channel p 0 n []) else None
    end
  else None.

(** A reserved permit is used. *)
Definition send_permit (p : pipeline) (e : RuntimeEvent) : pipeline := channel p 1 (-1) [e].

Section Turn.
Context (T : StreamingTurnTask).

(** The worker returns and drops what it holds. *)
Definition w_return (p : pipeline) (w : speech_worker) (o : joined) : option (pipeline * speech_worker) :=
  Some (release p Speech, w_goto w (W_done o)).

(** Where a failed [send_event] inside the frame loop leads. *)
Definition w_send_failed (p : pipeline) (w : speech_worker) (o : SendOutcome) : option (pipeline * speech_worker) :=
  match o with
  | Send_Closed => Some (p, w_goto w (W_cleanup Speech_EventStreamClosed))
  | _ => Some (p, w_goto w (W_cleanup Speech_Interrupted))
  end.

(** The next frame of an utterance. *)
Definition w_frame (p : pipeline) (w : speech_worker) (u : QueuedUtterance) (expected : Z)
    (item : result AudioFrame AdapterError) : option (pipeline * speech_worker) :=
  match item with
  | Err e => Some (p, w_goto w (W_cleanup (Speech_Failed Stage_SpeechSynthesizer e)))
  | Ok f =>
      match validate_frame f T.(task_turn_id) T.(task_generation_id) u.(utterance_id) expected w.(negotiated_format) with
      | Err e => Some (p, w_goto w (W_cleanup (Speech_Failed Stage_SpeechSynthesizer e)))
      | Ok _ =>
          let w := w_mark w false false false (Some f.(Audio.format)) in
          match next_sequence f with
          | Err e => Some (p, w_goto w (W_cleanup (Speech_Failed Stage_SpeechSynthesizer e)))
          | Ok next =>
              Some (p, w_goto w (if w.(emitted_first_playable) then W_permit u next f else W_playable u next f))
          end
      end
  end.

(** The receipt of an [enqueue]. *)
Definition w_receipt (p : pipeline) (w : speech_worker) (u : QueuedUtterance) (expected : Z)
    (r : result PlaybackReceipt AdapterError) : option (pipeline * speech_worker) :=
  let failed e := Some (p, w_goto w (W_cleanup (Speech_Failed Stage_ContinuousAudioOutput e))) in
  match r with
  | Ok receipt =>
      if negb (bool_decide (receipt.(receipt_generation_id) = T.(task_generation_id))) then
        failed (AdapterError_new (lit "continuous audio receipt identity mismatch"))
      else if negb (bool_decide (receipt.(receipt_state) = Playback_Accepted)) then
        failed (AdapterError_new (lit "continuous audio enqueue did not return playback acceptance"))
      else if w.(emitted_first_accepted) then Some (release p Speech, w_goto w (W_frames u expected true))
      else Some (p, w_goto w (W_accepted u expected receipt.(receipt_state)))
  | Err e =>
      if p.(external) || p.(work) then Some (p, w_goto w (W_cleanup Speech_Interrupted)) else failed e
  end.

Definition worker_step (p : pipeline) (w : speech_worker) (now : flags) (b : branch) (a : answer)
  : option (pipeline * speech_worker) :=
  let may order := may_take order w.(w_view) now b in
  match w.(w_pc) with
  | W_idle | W_done _ => None
  | W_recv =>
      if may stop_order then
        match b with
        | B_external | B_work => w_return p w (Ok Speech_Interrupted)
        | B_closed => w_return p w (Ok Speech_EventStreamClosed)
        | _ =>
            match p.(queue) with
            | u :: q =>
                Some (set_queue p q [], w_goto w (if w.(emitted_speech_started) then W_stream u else W_reserve u))
            | [] =>
                if p.(sender) then None
                else if w.(emitted_speech_started) then Some (p, w_goto w W_completed)
                else w_return p w (Ok Speech_Completed)
            end
        end
      else None
  | W_reserve u =>
      match reserve_many p w.(w_view) now b 2 with
      | Some (Send_Sent, p) => Some (p, w_goto w (W_pair_first u))
      | Some (Send_Closed, p) => w_return p w (Ok Speech_EventStreamClosed)
      | Some (_, p) => w_return p w (Ok Speech_Interrupted)
      | None => None
      end
  | W_pair_first u => Some (send_permit p (SpeechStarted T.(task_turn_id)), w_goto w (W_pair_second u))
  | W_pair_second u =>
      match a with
      | A_elapsed ms =>
          Some (send_permit p (timing_event T.(task_turn_id) FirstSynthesisRequest ms),
                w_goto (w_mark w true false false None) (W_stream u))
      | _ => None
      end
  | W_stream u =>
      match a with
      | A_stream panics =>
          let p := log_request p {| speech_turn_id := T.(task_turn_id); speech_generation_id := T.(task_generation_id);
                                    speech_utterance_id := u.(utterance_id); speech_text := u.(utterance_text) |} in
          if panics : bool then
            w_return p w (Ok (Speech_Failed Stage_SpeechSynthesizer
                               (AdapterError_new (lit "streaming speech adapter panicked"))))
          else Some (p, w_goto w (W_frames u 0 false))
      | _ => None
      end
  | W_frames u expected received =>
      if may stop_order then
        match b, a with
        | B_external, _ | B_work, _ => Some (p, w_goto w (W_cleanup Speech_Interrupted))
        | B_closed, _ => Some (p, w_goto w (W_cleanup Speech_EventStreamClosed))
        | _, A_frame (Some item) => w_frame p w u expected item
        | _, A_frame None =>
            if received then Some (p, w_goto w W_recv)
            else w_return p w (Ok (Speech_Failed Stage_SpeechSynthesizer
                                    (AdapterError_new (lit "streaming speech returned no audio frames"))))
        | _, _ => None
        end
      else None
  | W_playable u expected f =>
      match a with
      | A_elapsed ms =>
          match send_event p w.(w_view) now b (timing_event T.(task_turn_id) FirstPlayableAudio ms) with
          | Some (Send_Sent, p) => Some (p, w_goto (w_mark w false true false None) (W_permit u expected f))
          | Some (o, p) => w_send_failed p w o
          | None => None
          end
      | _ => None
      end
  | W_permit u expected f =>
      if may [B_external; B_work] then
        match b, a with
        | B_external, _ | B_work, _ => Some (p, w_goto w (W_cleanup Speech_Interrupted))
        | _, A_permit granted =>
            if is_some p.(permit) then None
            else if granted : bool then Some (log_frame (set_permit p (Some Speech)) f, w_goto w (W_enqueue u expected))
            else Some (p, w_goto w (W_cleanup Speech_Interrupted))
        | _, _ => None
        end
      else None
  | W_enqueue u expected =>
      if may stop_order then
        match b, a with
        | B_external, _ | B_work, _ => Some (p, w_goto w (W_await_enqueue Speech_Interrupted))
        | B_closed, _ => Some (p, w_goto w (W_await_enqueue Speech_EventStreamClosed))
        | _, A_receipt r => w_receipt p w u expected r
        | _, A_panic => w_return p w (Err Task_panicked)
        | _, _ => None
        end
      else None
  | W_await_enqueue o =>
      match a with
      | A_receipt _ => Some (p, w_goto w (W_cleanup o))
      | A_panic => w_return p w (Err Task_panicked)
      | _ => None
      end
  | W_accepted u expected state =>
      match send_event p w.(w_view) now b (Playback T.(task_turn_id) T.(task_generation_id) state) with
      | Some (Send_Sent, p) =>
          Some (release p Speech, w_goto (w_mark w false false true None) (W_frames u expected true))
      | Some (o, p) => w_send_failed p w o
      | None => None
      end
  | W_cleanup o => match a with A_frame None => w_return p w (Ok o) | A_frame _ => Some (p, w) | _ => None end
  | W_completed =>
      match send_event p w.(w_view) now b (SpeechCompleted T.(task_turn_id)) with
      | Some (Send_Sent, p) => w_return p w (Ok Speech_Completed)
      | Some (Send_Closed, p) => w_return p w (Ok Speech_EventStreamClosed)
      | Some (_, p) => w_return p w (Ok Speech_Interrupted)
      | None => None
      end
  end.

(** ** The generation task *)

Inductive generation_pc : Type :=
| G_transcript                                                      (* [send_event] *)
| G_quality                                                         (* [send_event] *)
| G_memory                                                          (* the retrieval *)
| G_memory_cancelled (t : RuntimeEvent)                             (* [retrieval.await] after a cancellation *)
| G_memory_publish (i : LanguageModelInput) (trace : MemoryRetrievalTrace)  (* [send_event] *)
| G_start (i : LanguageModelInput)                                  (* the worker is spawned, the model called *)
| G_loop                                                            (* [deltas.recv()] *)
| G_reserve (d : GenerationTextDelta)                               (* [publish_text_delta]: [reserve_many] *)
| G_permit (d : GenerationTextDelta)                                (* [generation_guard.permit] *)
| G_first (d : GenerationTextDelta)                                 (* the first permit is used *)
| G_publish (d : GenerationTextDelta)                               (* the last permit is used *)
| G_utterances (us : list rstr) (final : bool)                      (* the loop over assembled utterances *)
| G_send (q : QueuedUtterance) (us : list rstr) (final : bool)      (* [queue_utterance]: [utterances.send] *)
| G_wait_worker                                                     (* [speech_worker.await], then its outcome decides *)
| G_stop (t : RuntimeEvent) (drained : bool)                        (* [stop_streaming_pipeline] *)
| G_clean (t : RuntimeEvent)                                        (* [cleanup_language_stream] *)
| G_final                                                           (* the speech drain *)
| G_final_interrupted                                               (* [speech_worker.await] *)
| G_join (t : RuntimeEvent)                                         (* [speech_worker.await], outcome ignored *)
| G_done (t : RuntimeEvent)
| G_panicked.

Record generation : Type := {
  g_pc : generation_pc;
  g_view : flags;
  assembler : UtteranceAssembler;
  response_bytes : Z;
  emitted_first_text : bool;
  next_utterance_id : Z;
}.

Record turn : Type := { pipe : pipeline; speech : speech_worker; gen : generation }.

Definition g_goto (g : generation) (pc : generation_pc) : generation :=
  {| g_pc := pc; g_view := g.(g_view); assembler := g.(assembler); response_bytes := g.(response_bytes);
     emitted_first_text := g.(emitted_first_text); next_utterance_id := g.(next_utterance_id) |}.

(** [stop_streaming_pipeline] begins, and the turn will end with [t]. *)
Definition g_stop (p : pipeline) (g : generation) (t : RuntimeEvent) : option (pipeline * generation) :=
  Some (drop_sender (cancel_work p), g_goto g (G_stop t false)).

(** The worker's outcome decides the end: cancel, then clean up the model. *)
Definition g_worker_finished (p : pipeline) (g : generation) (o : joined) : option (pipeline * generation) :=
  Some (drop_sender (cancel_work p), g_goto g (G_clean (terminal_from_speech T.(task_turn_id) o))).

Definition finished (w : speech_worker) : option joined := match w.(w_pc) with W_done o => Some o | _ => None end.

(** [send_event] before the loop: on failure the turn ends. *)
Definition g_send (p : pipeline) (g : generation) (now : flags) (b : branch) (e : RuntimeEvent)
    (next : generation_pc) (closed_message stale_message : rstr) : option (pipeline * generation) :=
  match send_event p g.(g_view) now b e with
  | Some (Send_Sent, p) => Some (p, g_goto g next)
  | Some (Send_Interrupted, p) => Some (p, g_goto g (G_done (TurnCancelled T.(task_turn_id))))
  | Some (Send_Closed, p) => Some (p, g_goto g (G_done (runtime_failure T.(task_turn_id) closed_message)))
  | Some (Send_Stale, p) => Some (p, g_goto g (G_done (runtime_failure T.(task_turn_id) stale_message)))
  | None => None
  end.

(** An item of the language stream. *)
Definition g_delta (p : pipeline) (g : generation) (item : option (result GenerationTextDelta AdapterError))
  : option (pipeline * generation) :=
  let language_failure e := adapter_failure T.(task_turn_id) Stage_LanguageModel e in
  match item with
  | Some (Ok d) =>
      if negb (bool_decide (d.(delta_turn_id) = T.(task_turn_id)))
         || negb (bool_decide (d.(delta_generation_id) = T.(task_generation_id))) then
        g_stop p g (language_failure (AdapterError_new (lit "generation language delta identity mismatch")))
      else if saturating_sub DEFAULT_MAX_RESPONSE_BYTES g.(response_bytes) <? blen d.(delta) then
        g_stop p g (language_failure (AdapterError_new
          (lit "generation language response exceeds the maximum size of " ++ decimal DEFAULT_MAX_RESPONSE_BYTES ++
           lit " bytes")))
      else
        Some (p, {| g_pc := G_reserve d; g_view := g.(g_view); assembler := g.(assembler);
                    response_bytes := g.(response_bytes) + blen d.(delta);
                    emitted_first_text := g.(emitted_first_text); next_utterance_id := g.(next_utterance_id) |})
  | Some (Err e) => g_stop p g (language_failure e)
  | None =>
      match finish g.(assembler) with
      | Val (Some u) => Some (p, g_goto g (G_utterances [u] true))
      | Val None => Some (drop_sender p, g_goto g G_final)
      | _ => Some (p, g_goto g G_panicked)
      end
  end.

(** The publication of a delta, and what follows a published one. *)
Definition permit_count (g : generation) : Z := if g.(emitted_first_text) then 1 else 2.

Definition g_published (p : pipeline) (g : generation) (d : GenerationTextDelta) : pipeline * generation :=
  let p := push_text (release (send_permit p (TextDelta d.(delta_turn_id) d.(delta))) Generation) d.(delta) in
  match push_delta g.(assembler) d.(delta) with
  | Val (us, a) =>
      (p, {| g_pc := G_utterances us false; g_view := g.(g_view); assembler := a; response_bytes := g.(response_bytes);
             emitted_first_text := true; next_utterance_id := g.(next_utterance_id) |})
  | _ => (p, g_goto g G_panicked)
  end.

(** [queue_utterance] up to its [select!]. *)
Definition g_next_utterance (p : pipeline) (g : generation) (us : list rstr) (final : bool)
  : option (pipeline * generation) :=
  match us with
  | [] => if final then Some (drop_sender p, g_goto g G_final) else Some (p, g_goto g G_loop)
  | u :: us =>
      match normalize_speech_text u with
      | Val None => Some (p, g_goto g (G_utterances us final))
      | Val (Some words) =>
          match checked_add g.(next_utterance_id) 1 with
          | None => g_stop p g (adapter_failure T.(task_turn_id) Stage_Runtime
                                 (AdapterError_new (lit "utterance identifier overflowed")))
          | Some incremented =>
              Some (p, {| g_pc := G_send {| utterance_id := UtteranceId_new g.(next_utterance_id); utterance_text := words |}
                                    us final;
                          g_view := g.(g_view); assembler := g.(assembler); response_bytes := g.(response_bytes);
                          emitted_first_text := g.(emitted_first_text); next_utterance_id := incremented |})
          end
      | _ => Some (p, g_goto g G_panicked)
      end
  end.

(** The call of the language model. *)
Definition g_call_model (p : pipeline) (g : generation) (i : LanguageModelInput) (panics : bool)
  : option (pipeline * generation) :=
  let fail e :=
    Some (drop_sender (cancel_work p), g_goto g (G_join (adapter_failure T.(task_turn_id) Stage_LanguageModel e))) in
  match GenerationLanguageRequest_from_input T.(task_turn_id) T.(task_generation_id) i with
  | Err e => fail e
  | Ok _ => if panics then fail (AdapterError_new (lit "generation language adapter panicked"))
            else Some (p, g_goto g G_loop)
  end.

(** The result of a memory retrieval. *)
Definition g_memory (p : pipeline) (g : generation) (r : result MemoryRetrieval MemoryStoreError)
  : option (pipeline * generation) :=
  match r with
  | Ok retrieval =>
      match with_memory_items T.(task_language_input) retrieval.(retrieved_items) with
      | Ok i => Some (p, g_goto g (G_memory_publish i retrieval.(retrieved_trace)))
      | Err e => Some (p, g_goto g (G_done (adapter_failure T.(task_turn_id) Stage_Memory e)))
      end
  | Err e =>
      Some (p, g_goto g (G_done (if p.(external) || p.(work) then TurnCancelled T.(task_turn_id)
                                 else memory_failure T.(task_turn_id) e)))
  end.

Definition generation_step (p : pipeline) (w : speech_worker) (g : generation) (now : flags) (b : branch) (a : answer)
  : option (pipeline * generation) :=
  let may order := may_take order g.(g_view) now b in
  let t := T.(task_turn_id) in
  match g.(g_pc) with
  | G_done _ | G_panicked => None
  | G_transcript =>
      g_send p g now b (TranscriptFinal t T.(task_language_input).(input_transcript)) G_quality
        (lit "streaming event consumer closed during transcript")
        (lit "streaming generation became stale during transcript")
  | G_quality =>
      match T.(task_language_input).(quality_decision) with
      | None => Some (p, g_goto g G_panicked)
      | Some decision =>
          g_send p g now b (QualityResolved decision)
            (if T.(task_has_memory) then G_memory else G_start T.(task_language_input))
            (lit "streaming event consumer closed during quality resolution")
            (lit "streaming generation became stale during quality resolution")
      end
  | G_memory =>
      if may stop_order then
        match b, a with
        | B_external, _ | B_work, _ => Some (p, g_goto g (G_memory_cancelled (TurnCancelled t)))
        | B_closed, _ =>
            Some (p, g_goto g (G_memory_cancelled
              (runtime_failure t (lit "streaming event consumer closed during memory retrieval"))))
        | _, A_memory r => g_memory p g r
        | _, A_panic => Some (p, g_goto g G_panicked)
        | _, _ => None
        end
      else None
  | G_memory_cancelled terminal =>
      match a with
      | A_memory _ => Some (p, g_goto g (G_done terminal))
      | A_panic => Some (p, g_goto g G_panicked)
      | _ => None
      end
  | G_memory_publish i trace =>
      match send_event p g.(g_view) now b (MemoryRetrieved trace) with
      | Some (Send_Sent, p) => Some (p, g_goto g (G_start i))
      | Some (Send_Closed, p) =>
          Some (p, g_goto g (G_done (runtime_failure t (lit "streaming event consumer closed during memory publication"))))
      | Some (_, p) => Some (p, g_goto g (G_done (TurnCancelled t)))
      | None => None
      end
  | G_start i => match a with A_stream panics => g_call_model p g i panics | _ => None end
  | G_loop =>
      if may [B_external; B_closed; B_work; B_worker] then
        match b, a with
        | B_external, _ => g_stop p g (TurnCancelled t)
        | B_closed, _ => g_stop p g (runtime_failure t (lit "streaming event consumer closed during generation"))
        | B_work, _ => Some (p, g_goto g G_wait_worker)
        | B_worker, _ => match finished w with Some o => g_worker_finished p g o | None => None end
        | B_op, A_delta item => g_delta p g item
        | B_op, _ => None
        end
      else None
  | G_reserve d =>
      match reserve_many p g.(g_view) now b (permit_count g) with
      | Some (Send_Sent, p) => Some (p, g_goto g (G_permit d))
      | Some (Send_Closed, p) =>
          g_stop p g (runtime_failure t (lit "streaming event consumer closed during text publication"))
      | Some (_, p) => g_stop p g (TurnCancelled t)
      | None => None
      end
  | G_permit d =>
      let unreserve p := channel p 0 (- permit_count g) [] in
      if may [B_external; B_work] then
        match b, a with
        | B_external, _ | B_work, _ => g_stop (unreserve p) g (TurnCancelled t)
        | _, A_permit granted =>
            if is_some p.(permit) then None
            else if granted : bool then
              Some (set_permit p (Some Generation), g_goto g (if g.(emitted_first_text) then G_publish d else G_first d))
            else g_stop (unreserve p) g (TurnCancelled t)
        | _, _ => None
        end
      else None
  | G_first d =>
      match a with
      | A_elapsed ms =>
          Some (send_permit p (timing_event d.(delta_turn_id) FirstTextDelta ms), g_goto g (G_publish d))
      | _ => None
      end
  | G_publish d => Some (g_published p g d)
  | G_utterances us final => g_next_utterance p g us final
  | G_send q us final =>
      if may [B_external; B_work; B_closed; B_worker] then
        match b with
        | B_external => g_stop p g (TurnCancelled t)
        | B_work => Some (p, g_goto g G_wait_worker)
        | B_closed => g_stop p g (runtime_failure t (lit "streaming speech utterance queue closed early"))
        | B_worker => match finished w with Some o => g_worker_finished p g o | None => None end
        | B_op =>
            if is_some (finished w) then
              g_stop p g (runtime_failure t (lit "streaming speech utterance queue closed early"))
            else if zlen p.(queue) <? UTTERANCE_QUEUE_CAPACITY then
              Some (set_queue p (p.(queue) ++ [q]) [q], g_goto g (G_utterances us final))
            else None
        end
      else None
  | G_wait_worker => match finished w with Some o => g_worker_finished p g o | None => None end
  | G_stop terminal drained =>
      if drained then match finished w with Some _ => Some (p, g_goto g (G_done terminal)) | None => None end
      else match a with
           | A_delta None => Some (p, g_goto g (G_stop terminal true))
           | A_delta (Some _) => Some (p, g)
           | _ => None
           end
  | G_clean terminal =>
      match a with
      | A_delta None => Some (p, g_goto g (G_done terminal))
      | A_delta (Some _) => Some (p, g)
      | _ => None
      end
  | G_final =>
      if may [B_external; B_closed; B_worker] then
        match b with
        | B_external => Some (cancel_work p, g_goto g G_final_interrupted)
        | B_closed =>
            Some (cancel_work p, g_goto g (G_join
              (runtime_failure t (lit "streaming event consumer closed during speech drain"))))
        | B_worker =>
            match finished w with
            | Some o => Some (p, g_goto g (G_done (terminal_from_speech t o)))
            | None => None
            end
        | _ => None
        end
      else None
  | G_final_interrupted =>
      match finished w with
      | Some (Ok (Speech_Failed stage e)) => Some (p, g_goto g (G_done (adapter_failure t stage e)))
      | Some _ => Some (p, g_goto g (G_done (TurnCancelled t)))
      | None => None
      end
  | G_join terminal => match finished w with Some _ => Some (p, g_goto g (G_done terminal)) | None => None end
  end.

(** ** The turn *)

Inductive label : Type :=
| L_generation (b : branch) (a : answer)
| L_speech (b : branch) (a : answer)
| L_interrupt        (* [interrupt]: [external_interruption.cancel()] *)
| L_interrupt_work   (* .. then [work_cancellation.cancel()] *)
| L_close            (* the consumer drops the receiver *)
| L_read.            (* the consumer takes an event *)

Definition flags_of (s : turn) : flags :=
  {| f_external := s.(pipe).(external); f_work := s.(pipe).(work); f_closed := s.(pipe).(closed);
     f_worker := is_some (finished s.(speech)) |}.

(** A task suspends: it remembers what it could see. *)
Definition see_speech (s : turn) : turn :=
  let w := s.(speech) in
  {| pipe := s.(pipe);
     speech := {| w_pc := w.(w_pc); w_view := flags_of s; emitted_speech_started := w.(emitted_speech_started);
                  emitted_first_playable := w.(emitted_first_playable);
                  emitted_first_accepted := w.(emitted_first_accepted); negotiated_format := w.(negotiated_format) |};
     gen := s.(gen) |}.

Definition see_generation (s : turn) : turn :=
  let g := s.(gen) in
  {| pipe := s.(pipe); speech := s.(speech);
     gen := {| g_pc := g.(g_pc); g_view := flags_of s; assembler := g.(assembler); response_bytes := g.(response_bytes);
               emitted_first_text := g.(emitted_first_text); next_utterance_id := g.(next_utterance_id) |} |}.

(** The step from [G_start] spawns the worker. *)
Definition spawn (g : generation) (w : speech_worker) : speech_worker :=
  match g.(g_pc) with G_start _ => w_goto w W_recv | _ => w end.

Definition step (s : turn) (l : label) : option turn :=
  let env p := Some {| pipe := p; speech := s.(speech); gen := s.(gen) |} in
  match l with
  | L_generation b a =>
      match generation_step s.(pipe) s.(speech) s.(gen) (flags_of s) b a with
      | Some (p, g) => Some (see_generation {| pipe := p; speech := spawn s.(gen) s.(speech); gen := g |})
      | None => None
      end
  | L_speech b a =>
      match worker_step s.(pipe) s.(speech) (flags_of s) b a with
      | Some (p, w) => Some (see_speech {| pipe := p; speech := w; gen := s.(gen) |})
      | None => None
      end
  | L_interrupt => env (raise_external s.(pipe))
  | L_interrupt_work => if s.(pipe).(external) then env (cancel_work s.(pipe)) else None
  | L_close => env (close_events s.(pipe))
  | L_read => if 0 <? s.(pipe).(unread) then env (channel s.(pipe) (-1) 0 []) else None
  end.

Definition no_flags : flags := {| f_external := false; f_work := false; f_closed := false; f_worker := false |}.

(** What [start_turn] leaves: the first event is in the channel. *)
Definition initial : turn :=
  {| pipe := {| external := false; work := false; closed := false; unread := 1; reserved := 0;
                events := [TurnStarted T.(task_turn_id)]; sender := true; queue := []; queued := []; permit := None;
                requests := []; enqueued := []; generated_text := [] |};
     speech := {| w_pc := W_idle; w_view := no_flags; emitted_speech_started := false; emitted_first_playable := false;
                  emitted_first_accepted := false; negotiated_format := None |};
     gen := {| g_pc := G_transcript; g_view := no_flags; assembler := UtteranceAssembler_default; response_bytes := 0;
               emitted_first_text := false; next_utterance_id := 1 |} |}.

Fixpoint run (s : turn) (ls : list label) : option turn :=
  match ls with
  | [] => Some s
  | l :: ls => match step s l with Some s => run s ls | None => None end
  end.

(** The states reached by labels of a given kind. *)
Inductive reachable (allowed : label -> Prop) : turn -> Prop :=
| reach_initial : reachable allowed initial
| reach_step s l s' : reachable allowed s -> allowed l -> step s l = Some s' -> reachable allowed s'.

End Turn.
