(* ===== verification/StreamingTurnProofs.v ===== *)
(** * Properties of a streaming turn

    Invariants of the transition system of [StreamingTurn], each proved over
    every step of every task. *)

From S2P Require Import Prelude RustStr Errors Pcm CaptureTiming Audio ProtocolQuality MemoryProtocol MemoryRetrieval LanguageInput Segments UtteranceAssembler SpeechText Context TurnEvents StreamingTurn.

(** ** What a step leaves alone *)

(** Split a step of a task into its branches. *)
Ltac split_step H :=
  repeat (match type of H with
          | context [match ?x with _ => _ end] => destruct x eqn:?
          end; cbn [w_goto w_mark g_goto] in H; try discriminate H); simplify_eq.

Definition text_deltas (es : list RuntimeEvent) : list rstr :=
  omap (fun e => match e with TextDelta _ d => Some d | _ => None end) es.

Lemma text_deltas_app es es' : text_deltas (es ++ es') = text_deltas es ++ text_deltas es'.
Proof. apply omap_app. Qed.

(** ** Sending *)

(** How an attempt to send ends: what it was sent to, and why not. *)
Inductive send_result (p sent : pipeline) (now : flags) (n : Z) : SendOutcome -> pipeline -> Prop :=
| sent_ok : has_room p n = true -> send_result p sent now n Send_Sent sent
| sent_interrupted : now.(f_external) = true \/ now.(f_work) = true -> send_result p sent now n Send_Interrupted p
| sent_closed : send_result p sent now n Send_Closed p.

Lemma may_take_raised order view now b : may_take order view now b = true -> raised now b = true.
Proof.
  induction order as [|x order IH]; cbn [may_take]; intros H.
  - breflect. by subst b.
  - case_bool_decide; [by subst b|]. breflect. auto.
Qed.

Lemma send_event_spec p view now b e o p' :
  send_event p view now b e = Some (o, p') -> send_result p (channel p 1 0 [e]) now 1 o p'.
Proof.
  unfold send_event. destruct (may_take _ _ _ _) eqn:M; [|done]. apply may_take_raised in M. intros H.
  destruct b; cbn in M; split_step H; constructor; auto.
Qed.

Lemma reserve_many_spec p view now b n o p' :
  reserve_many p view now b n = Some (o, p') -> send_result p (channel p 0 n []) now n o p'.
Proof.
  unfold reserve_many. destruct (may_take _ _ _ _) eqn:M; [|done]. apply may_take_raised in M. intros H.
  destruct b; cbn in M; split_step H; constructor; auto.
Qed.

Ltac split_sends :=
  repeat match goal with
  | H : send_event _ _ _ _ _ = Some _ |- _ => apply send_event_spec in H; inversion H; clear H; simplify_eq
  | H : reserve_many _ _ _ _ _ = Some _ |- _ => apply reserve_many_spec in H; inversion H; clear H; simplify_eq
  end.

(** Every branch of a step of the worker, or of the generation task. *)
Ltac worker_cases H :=
  unfold worker_step, w_return, w_frame, w_receipt, w_send_failed in H; split_step H; split_sends.
Ltac generation_cases H :=
  unfold generation_step, g_send, g_delta, g_memory, g_call_model, g_next_utterance, g_published, g_worker_finished, g_stop in H; split_step H; split_sends.

(** ** What a step leaves alone *)

Section Turn.
Context (T : StreamingTurnTask).

(** The fields the speech worker never writes. *)
Definition same_for_generation (p p' : pipeline) : Prop :=
  p'.(external) = p.(external) /\ p'.(work) = p.(work) /\ p'.(closed) = p.(closed) /\
  text_deltas p'.(events) = text_deltas p.(events) /\ p'.(sender) = p.(sender) /\ p'.(queued) = p.(queued) /\
  p'.(generated_text) = p.(generated_text).

Lemma worker_step_frame p w now b a p' w' :
  worker_step T p w now b a = Some (p', w') -> same_for_generation p p'.
Proof.
  intros H. worker_cases H.
  all: unfold same_for_generation; cbn; rewrite ?text_deltas_app; cbn; rewrite ?app_nil_r; by split_and!.
Qed.

Lemma generation_step_frame p w g now b a p' g' :
  generation_step T p w g now b a = Some (p', g') -> p'.(requests) = p.(requests) /\ p'.(enqueued) = p.(enqueued).
Proof.
  intros H. generation_cases H; cbn; done.
Qed.

(** ** The speech worker's books *)

(** A frame of an utterance of this turn, at its place in the sequence. *)
Definition frame_of (u : QueuedUtterance) (n : Z) (f : AudioFrame) : Prop :=
  f.(frame_turn_id) = T.(task_turn_id) /\ f.(frame_generation_id) = T.(task_generation_id) /\
  f.(frame_utterance_id) = u.(utterance_id) /\ f.(frame_sequence) = n.

(** Frames of one utterance, numbered without a gap. *)
Fixpoint frames_of (u : QueuedUtterance) (n : Z) (fs : list AudioFrame) : Prop :=
  match fs with [] => True | f :: fs => frame_of u n f /\ frames_of u (n + 1) fs end.

Lemma frames_of_snoc u fs : forall n f, frames_of u n fs -> frame_of u (n + zlen fs) f -> frames_of u n (fs ++ [f]).
Proof.
  induction fs as [|g fs IH]; intros n f H Hf; cbn in *.
  - rewrite Z.add_0_r in Hf. done.
  - destruct H as [Hg H]. split; [done|]. apply IH; [done|]. rewrite zlen_cons in Hf.
    by replace (n + 1 + zlen fs) with (n + (1 + zlen fs)) by lia.
Qed.

(** The request made for an utterance. *)
Definition request_of (u : QueuedUtterance) : StreamingSpeechRequest :=
  {| speech_turn_id := T.(task_turn_id); speech_generation_id := T.(task_generation_id);
     speech_utterance_id := u.(utterance_id); speech_text := u.(utterance_text) |}.

(** What the worker is at: the utterance taken off the queue and not yet done,
    its frames handed to the output, and whether the synthesizer was called. *)
Definition at_pc (pc : speech_pc) (fmt : option PcmFormat) (cur : option QueuedUtterance) (fs : list AudioFrame)
    (asked : bool) : Prop :=
  match pc with
  | W_idle | W_recv | W_completed | W_done (Ok Speech_Completed) => cur = None /\ fs = [] /\ asked = false
  | W_reserve u | W_pair_first u | W_pair_second u | W_stream u => cur = Some u /\ fs = [] /\ asked = false
  | W_frames u n received => cur = Some u /\ asked = true /\ n = zlen fs /\ (received = true -> fs <> [])
  | W_playable u n f | W_permit u n f =>
      cur = Some u /\ asked = true /\ frame_of u (zlen fs) f /\ n = zlen fs + 1 /\ fmt = Some f.(Audio.format)
  | W_enqueue u n | W_accepted u n _ => cur = Some u /\ asked = true /\ n = zlen fs /\ fs <> []
  | W_await_enqueue o | W_cleanup o => o <> Speech_Completed
  | W_done _ => True
  end.

Record speech_books (p : pipeline) (w : speech_worker) (consumed : list QueuedUtterance) (groups : list (list AudioFrame))
    (cur : option QueuedUtterance) (fs : list AudioFrame) (asked : bool) : Prop := {
  bk_queued : p.(queued) = consumed ++ option_list cur ++ p.(queue);
  bk_groups : Forall2 (fun u g => g <> [] /\ frames_of u 0 g) consumed groups;
  bk_enqueued : p.(enqueued) = concat groups ++ fs;
  bk_current : match cur with Some u => frames_of u 0 fs | None => fs = [] end;
  bk_requests : p.(requests) = map request_of (consumed ++ (if asked then option_list cur else []));
  bk_format : Forall (fun f => w.(negotiated_format) = Some f.(Audio.format)) p.(enqueued);
  bk_pc : at_pc w.(w_pc) w.(negotiated_format) cur fs asked;
}.

Definition speech_inv (p : pipeline) (w : speech_worker) : Prop :=
  exists consumed groups cur fs asked, speech_books p w consumed groups cur fs asked.

Lemma concat_snoc {A} (groups : list (list A)) fs : concat (groups ++ [fs]) = concat groups ++ fs.
Proof. rewrite concat_app. cbn. by rewrite app_nil_r. Qed.

(** The ways the worker's books change. *)
Section Books.
Context {p : pipeline} {w : speech_worker} {consumed groups cur fs asked} (B : speech_books p w consumed groups cur fs asked).

Lemma books_keep p' w' :
  p'.(queued) = p.(queued) -> p'.(queue) = p.(queue) -> p'.(enqueued) = p.(enqueued) -> p'.(requests) = p.(requests) ->
  w'.(negotiated_format) = w.(negotiated_format) -> at_pc w'.(w_pc) w.(negotiated_format) cur fs asked -> speech_inv p' w'.
Proof using B.
  destruct B as [H1 H2 H3 H4 H5 H6 H7]. intros E1 E2 E3 E4 E5 E6.
  exists consumed, groups, cur, fs, asked. split; rewrite ?E1, ?E2, ?E3, ?E4, ?E5; done.
Qed.

(** The first frame fixes the format, a later one must agree. *)
Lemma books_format p' w' f :
  p' = p -> (forall format, w.(negotiated_format) = Some format -> f.(Audio.format) = format) ->
  w'.(negotiated_format) = opt_or w.(negotiated_format) (Some f.(Audio.format)) ->
  at_pc w'.(w_pc) (Some f.(Audio.format)) cur fs asked -> speech_inv p' w'.
Proof using B.
  destruct B as [H1 H2 H3 H4 H5 H6 H7]. intros -> Hf E Hpc. exists consumed, groups, cur, fs, asked.
  assert (E' : negotiated_format w' = Some (Audio.format f)).
  { rewrite E. destruct (negotiated_format w) as [format|] eqn:N; cbn; [by rewrite (Hf format)|done]. }
  split; try done; [|by rewrite E']. rewrite E'.
  destruct (negotiated_format w) as [format|] eqn:N; cbn in E; [by rewrite (Hf format)|].
  destruct (enqueued p); [constructor|]. by inversion H6.
Qed.

Lemma books_take p' w' u q :
  cur = None -> asked = false -> p.(queue) = u :: q -> p' = set_queue p q [] -> w'.(negotiated_format) = w.(negotiated_format) ->
  at_pc w'.(w_pc) w.(negotiated_format) (Some u) [] false -> speech_inv p' w'.
Proof using B.
  destruct B as [H1 H2 H3 H4 H5 H6 H7]. intros -> -> Hq -> E Hpc. exists consumed, groups, (Some u), [], false.
  rewrite Hq in H1. subst fs. split; cbn; rewrite ?app_nil_r, ?E in *; try done.
Qed.

Lemma books_ask p' w' u :
  cur = Some u -> fs = [] -> asked = false -> p'.(queued) = p.(queued) -> p'.(queue) = p.(queue) ->
  p'.(enqueued) = p.(enqueued) -> p'.(requests) = p.(requests) ++ [request_of u] ->
  w'.(negotiated_format) = w.(negotiated_format) ->
  at_pc w'.(w_pc) w.(negotiated_format) (Some u) [] true -> speech_inv p' w'.
Proof using B.
  destruct B as [H1 H2 H3 H4 H5 H6 H7]. intros -> -> -> E1 E2 E3 E4 E5 Hpc. exists consumed, groups, (Some u), [], true.
  split; rewrite ?E1, ?E2, ?E3, ?E4, ?E5; try done. rewrite H5, app_nil_r, map_app. done.
Qed.

Lemma books_finish_utterance p' w' u :
  cur = Some u -> asked = true -> fs <> [] -> p' = p -> w'.(negotiated_format) = w.(negotiated_format) ->
  at_pc w'.(w_pc) w.(negotiated_format) None [] false -> speech_inv p' w'.
Proof using B.
  destruct B as [H1 H2 H3 H4 H5 H6 H7]. intros -> -> Hne -> E Hpc. exists (consumed ++ [u]), (groups ++ [fs]), None, [], false.
  split; rewrite ?E; try done; cbn in *.
  - by rewrite <- app_assoc.
  - apply Forall2_app; [done|]. by repeat constructor.
  - by rewrite concat_snoc, app_nil_r.
  - by rewrite app_nil_r.
Qed.

Lemma books_enqueue p' w' u f :
  cur = Some u -> frame_of u (zlen fs) f -> w.(negotiated_format) = Some f.(Audio.format) ->
  p'.(queued) = p.(queued) -> p'.(queue) = p.(queue) -> p'.(enqueued) = p.(enqueued) ++ [f] -> p'.(requests) = p.(requests) ->
  w'.(negotiated_format) = w.(negotiated_format) ->
  at_pc w'.(w_pc) w.(negotiated_format) (Some u) (fs ++ [f]) asked -> speech_inv p' w'.
Proof using B.
  destruct B as [H1 H2 H3 H4 H5 H6 H7]. intros -> Hf Hfmt E1 E2 E3 E4 E5 Hpc. exists consumed, groups, (Some u), (fs ++ [f]), asked.
  split; rewrite ?E1, ?E2, ?E3, ?E4, ?E5; try done.
  - by rewrite H3, app_assoc.
  - by apply frames_of_snoc.
  - apply Forall_app. split; [done|]. by repeat constructor.
Qed.
End Books.

Lemma next_sequence_Ok f n : next_sequence f = Ok n -> n = f.(frame_sequence) + 1.
Proof. unfold next_sequence. destruct (checked_add _ _) eqn:E; [|done]. intros [= <-]. by apply checked_add_Some in E as [-> _]. Qed.

Lemma app_cons_not_nil_r {A} (l : list A) x : l ++ [x] <> [].
Proof. by destruct l. Qed.

Lemma opt_or_None {A} (o : option A) : opt_or o None = o.
Proof. by destruct o. Qed.

Ltac books B :=
  first [ eexists _, _, _, _, _; exact B
        | eapply (books_keep B); [done..|by rewrite ?opt_or_None|done]
        | eapply (books_keep B); [done..|cbn; by rewrite ?opt_or_None|done]
        | eapply (books_take B); [done..|cbn; by repeat split]
        | eapply (books_ask B); [done..|cbn; by repeat split]
        | eapply (books_finish_utterance B); [done|done|auto|done|done|done]
        | eapply (books_format B); [done|done|done|cbn; first [done|unfold frame_of; split_and!; first [done|lia]]]
        | eapply (books_enqueue B); [done..|cbn; rewrite zlen_app; split_and!; [done..|apply app_cons_not_nil_r]] ].

Lemma worker_step_speech_inv p w now b a p' w' :
  speech_inv p w -> worker_step T p w now b a = Some (p', w') -> speech_inv p' w'.
Proof.
  intros (consumed & groups & cur & fs & asked & B) H. pose proof (bk_pc _ _ _ _ _ _ _ B) as Hpc. worker_cases H.
  all: cbn [at_pc] in Hpc; destruct_and?; simplify_eq.
  all: repeat match goal with
       | V : validate_frame _ _ _ _ _ _ = Ok ?u |- _ => destruct u; apply validate_frame_Ok in V as (? & ? & ? & ? & ?)
       | N : next_sequence _ = Ok _ |- _ => apply next_sequence_Ok in N; subst
       end.
  all: try books B.
  eapply (books_keep B); [done..|]. cbn. by destruct o.
Qed.

(** ** Both tasks *)

(** Where the generation task is: before the worker is spawned, while it may
    still send utterances, and afterwards. *)
Definition before_start (pc : generation_pc) : bool :=
  match pc with
  | G_transcript | G_quality | G_memory | G_memory_cancelled _ | G_memory_publish _ _ | G_start _ => true
  | _ => false
  end.

Definition sending (pc : generation_pc) : bool :=
  match pc with
  | G_loop | G_reserve _ | G_permit _ | G_first _ | G_publish _ | G_utterances _ _ | G_send _ _ _ | G_wait_worker => true
  | _ => before_start pc
  end.

Definition joining (pc : generation_pc) : bool :=
  match pc with G_stop _ _ | G_clean _ | G_final | G_final_interrupted | G_join _ => true | _ => false end.

Definition worker_completed (pc : speech_pc) : bool :=
  match pc with W_completed | W_done (Ok Speech_Completed) => true | _ => false end.

Record cross_inv (p : pipeline) (w : speech_worker) (g : generation) : Prop := {
  cr_idle : before_start g.(g_pc) = true -> w.(w_pc) = W_idle;
  cr_spawned : before_start g.(g_pc) = false -> sending g.(g_pc) || joining g.(g_pc) = true -> w.(w_pc) <> W_idle;
  cr_sender : sending g.(g_pc) = true -> p.(sender) = true;
  cr_completed : worker_completed w.(w_pc) = true -> p.(sender) = false /\ p.(queue) = [];
}.

Lemma generation_step_queue p w g now b a p' g' :
  generation_step T p w g now b a = Some (p', g') ->
  exists l, p'.(queued) = p.(queued) ++ l /\ p'.(queue) = p.(queue) ++ l /\ (l <> [] -> sending g.(g_pc) = true).
Proof.
  intros H. generation_cases H.
  all: try (exists []; rewrite !app_nil_r; done).
  all: eexists [_]; done.
Qed.

Lemma cleanup_not_completed p w o : speech_inv p w -> w.(w_pc) = W_cleanup o -> o <> Speech_Completed.
Proof. intros (? & ? & ? & ? & ? & B) E. pose proof (bk_pc _ _ _ _ _ _ _ B) as H. by rewrite E in H. Qed.

Lemma worker_step_cross_inv p w g now b a p' w' :
  speech_inv p w -> cross_inv p w g -> worker_step T p w now b a = Some (p', w') -> cross_inv p' w' g.
Proof.
  intros Hs [H1 H2 H3 H4] H. pose proof (fun o => cleanup_not_completed p w o Hs) as Hc. clear Hs. worker_cases H.
  all: split; cbn [w_goto w_mark w_pc]; try done.
  all: try (intros HH; first [specialize (H1 HH); congruence|specialize (H3 HH); cbn in *; congruence]).
  all: try (cbn; tauto). all: try congruence.
  - match goal with E : w_pc _ = _ |- _ => rewrite E end. done.
  - destruct o; [|done..]. by destruct (Hc _ eq_refl).
Qed.

Lemma generation_step_cross_inv p w g now b a p' g' :
  cross_inv p w g -> generation_step T p w g now b a = Some (p', g') -> cross_inv p' (spawn g w) g'.
Proof.
  intros [H1 H2 H3 H4] H. unfold spawn. generation_cases H.
  all: split; cbn [g_goto g_pc w_goto w_pc before_start sending joining] in *; try done.
  all: try (cbn; tauto).
  all: try (match goal with E : g_pc _ = _ |- _ => rewrite E end; done).
  intros HH. destruct (H4 HH) as [H5 _]. by rewrite H3 in H5.
Qed.

Lemma speech_inv_append p w p' l :
  speech_inv p w -> p'.(queued) = p.(queued) ++ l -> p'.(queue) = p.(queue) ++ l ->
  p'.(requests) = p.(requests) -> p'.(enqueued) = p.(enqueued) -> speech_inv p' w.
Proof.
  intros (consumed & groups & cur & fs & asked & [H1 H2 H3 H4 H5 H6 H7]) E1 E2 E3 E4.
  exists consumed, groups, cur, fs, asked. split; rewrite ?E1, ?E2, ?E3, ?E4; try done. by rewrite H1, <- !app_assoc.
Qed.

Lemma generation_step_speech_inv p w g now b a p' g' :
  speech_inv p w -> cross_inv p w g -> generation_step T p w g now b a = Some (p', g') -> speech_inv p' (spawn g w).
Proof.
  intros Hs Hc H. destruct (generation_step_queue _ _ _ _ _ _ _ _ H) as (l & E1 & E2 & _).
  destruct (generation_step_frame _ _ _ _ _ _ _ _ H) as [E3 E4].
  eapply speech_inv_append in Hs; [|done..]. unfold spawn. destruct (g_pc g) eqn:Hg; try done.
  destruct Hs as (consumed & groups & cur & fs & asked & B). eapply (books_keep B); try done.
  pose proof (bk_pc _ _ _ _ _ _ _ B) as Hpc. assert (w_pc w = W_idle) as Hw by (apply (cr_idle _ _ _ Hc); by rewrite Hg).
  by rewrite Hw in Hpc.
Qed.

(** ** The text and the utterances *)

(** What is said of an assembled utterance. *)
Definition spoken (u : rstr) : list rstr :=
  match normalize_speech_text u with Val (Some words) => [words] | _ => [] end.
Definition spoken_all (us : list rstr) : list rstr := concat (map spoken us).

Lemma spoken_all_snoc us u : spoken_all (us ++ [u]) = spoken_all us ++ spoken u.
Proof. unfold spoken_all. rewrite map_app, concat_app. cbn. by rewrite app_nil_r. Qed.

(** Utterances numbered from one. *)
Definition numbered (words : list rstr) : list QueuedUtterance :=
  imap (fun k t => {| utterance_id := UtteranceId_new (1 + Z.of_nat k); utterance_text := t |}) words.

Lemma numbered_snoc words t :
  numbered (words ++ [t]) = numbered words ++ [{| utterance_id := UtteranceId_new (1 + zlen words); utterance_text := t |}].
Proof. unfold numbered, zlen. rewrite imap_app. cbn. by rewrite Nat.add_0_r. Qed.

Lemma numbered_length words : zlen (numbered words) = zlen words.
Proof. unfold zlen, numbered. by rewrite length_imap. Qed.

(** The last utterance of a text, from what the assembler still holds. *)
Definition remainder (rest : rstr) : list rstr := if is_blank rest then [] else [trim rest].

(** The utterances of a text cut into [segs] with [rest] left over. *)
Definition utterances_of (segs : list rstr) (rest : rstr) (final : bool) : list rstr :=
  kept segs ++ (if final then remainder rest else []).

(** The bytes of a delta that is being published. *)
Definition pending_bytes (pc : generation_pc) : Z :=
  match pc with G_reserve d | G_permit d | G_first d | G_publish d => blen d.(delta) | _ => 0 end.

(** How far the utterances have been queued. *)
Definition queue_progress (pc : generation_pc) (p : pipeline) (next : Z) (segs : list rstr) (rest : rstr) : Prop :=
  match pc with
  | G_utterances us final =>
      next = 1 + zlen p.(queued) /\
      exists done, utterances_of segs rest final = done ++ us /\ p.(queued) = numbered (spoken_all done)
  | G_send q us final =>
      q = {| utterance_id := UtteranceId_new (1 + zlen p.(queued)); utterance_text := q.(utterance_text) |} /\
      next = 2 + zlen p.(queued) /\
      exists done u, utterances_of segs rest final = done ++ u :: us /\ spoken u = [q.(utterance_text)] /\
        p.(queued) = numbered (spoken_all done)
  | G_final | G_final_interrupted | G_done (TurnCompleted _) =>
      p.(queued) = numbered (spoken_all (utterances_of segs rest true))
  | G_wait_worker | G_stop _ _ | G_clean _ | G_join _ | G_done _ | G_panicked =>
      exists final done rest', utterances_of segs rest final = done ++ rest' /\ p.(queued) = numbered (spoken_all done)
  | _ => next = 1 + zlen p.(queued) /\ p.(queued) = numbered (spoken_all (kept segs))
  end.

Definition not_completed (t : RuntimeEvent) : Prop := match t with TurnCompleted _ => False | _ => True end.

(** The terminals that are fixed before the task has ended. *)
Definition terminal_pending (pc : generation_pc) : Prop :=
  match pc with G_memory_cancelled t | G_stop t _ | G_clean t | G_join t => not_completed t | _ => True end.

Record text_inv (p : pipeline) (g : generation) (segs : list rstr) : Prop := {
  tx_text : p.(generated_text) = concat (text_deltas p.(events));
  tx_cut : concat segs ++ g.(assembler).(buffer) = p.(generated_text);
  tx_segs : Forall (fun s => s <> [] /\ blen s <= DEFAULT_HARD_LIMIT_BYTES) segs;
  tx_limits : g.(assembler).(soft_limit_bytes) = DEFAULT_SOFT_LIMIT_BYTES /\
              g.(assembler).(hard_limit_bytes) = DEFAULT_HARD_LIMIT_BYTES;
  tx_bytes : blen p.(generated_text) + pending_bytes g.(g_pc) <= g.(response_bytes) <= DEFAULT_MAX_RESPONSE_BYTES;
  tx_queue : queue_progress g.(g_pc) p g.(next_utterance_id) segs g.(assembler).(buffer);
  tx_terminal : terminal_pending g.(g_pc);
}.

(** Whatever was queued is a prefix of what the text says. *)
Lemma queue_progress_weaken pc p next segs rest :
  queue_progress pc p next segs rest ->
  exists final done rest', utterances_of segs rest final = done ++ rest' /\ p.(queued) = numbered (spoken_all done).
Proof.
  assert (tight : p.(queued) = numbered (spoken_all (kept segs)) ->
    exists final done rest', utterances_of segs rest final = done ++ rest' /\ p.(queued) = numbered (spoken_all done)).
  { intros ->. exists false, (kept segs), []. done. }
  destruct pc; cbn [queue_progress]; try (intros [_ H]; by apply tight).
  - intros (_ & done & E & ->). exists final, done, us. done.
  - intros (_ & _ & done & u & E & _ & ->). exists final, done, (u :: us). done.
  - done.
  - done.
  - done.
  - intros ->. exists true, (utterances_of segs rest true), []. by rewrite app_nil_r.
  - intros ->. exists true, (utterances_of segs rest true), []. by rewrite app_nil_r.
  - done.
  - destruct t; try done. intros ->. exists true, (utterances_of segs rest true), []. by rewrite app_nil_r.
  - done.
Qed.

(** The task will end without having completed. *)
Definition loose (pc : generation_pc) : Prop :=
  match pc with
  | G_wait_worker | G_panicked => True
  | G_stop t _ | G_clean t | G_join t | G_done t => not_completed t
  | _ => False
  end.

Section TextInv.
Context {p : pipeline} {g : generation} {segs : list rstr} (I : text_inv p g segs).

Lemma text_inv_loose p' g' :
  p'.(generated_text) = p.(generated_text) -> text_deltas p'.(events) = text_deltas p.(events) -> p'.(queued) = p.(queued) ->
  g'.(assembler) = g.(assembler) -> g'.(response_bytes) = g.(response_bytes) -> loose g'.(g_pc) ->
  exists segs', text_inv p' g' segs'.
Proof using I.
  destruct I as [H1 H2 H3 H4 H5 H6 H7]. intros E1 E2 E3 E4 E5 L. exists segs.
  apply queue_progress_weaken in H6.
  split; rewrite ?E1, ?E2, ?E4, ?E5; try done.
  - destruct (g_pc g'), (g_pc g) as []; cbn in *; try done; pose proof (blen_nonneg (generated_text p)) as _;
      try match goal with d : GenerationTextDelta |- _ => pose proof (blen_nonneg (delta d)) end; lia.
  - unfold queue_progress. rewrite E3. destruct (g_pc g'); cbn in *; try done. by destruct t.
  - by destruct (g_pc g').
Qed.

(** Nothing the invariant mentions changed. *)
Lemma text_inv_keep p' g' :
  p'.(generated_text) = p.(generated_text) -> text_deltas p'.(events) = text_deltas p.(events) -> p'.(queued) = p.(queued) ->
  g'.(assembler) = g.(assembler) -> pending_bytes g'.(g_pc) - g'.(response_bytes) = pending_bytes g.(g_pc) - g.(response_bytes) ->
  g'.(response_bytes) <= DEFAULT_MAX_RESPONSE_BYTES ->
  queue_progress g'.(g_pc) p g'.(next_utterance_id) segs g.(assembler).(buffer) -> terminal_pending g'.(g_pc) ->
  exists segs', text_inv p' g' segs'.
Proof using I.
  destruct I as [H1 H2 H3 H4 H5 H6 H7]. intros E1 E2 E3 E4 E5 E6 E7 E8. exists segs.
  split; rewrite ?E1, ?E2, ?E4; try done; [lia|]. unfold queue_progress in *. by rewrite E3.
Qed.
End TextInv.

(** A worker that has finished while utterances may still come has not
    completed. *)
Lemma early_outcome p w g o :
  cross_inv p w g -> sending g.(g_pc) = true -> finished w = Some o -> not_completed (terminal_from_speech T.(task_turn_id) o).
Proof.
  intros [_ _ Hs Hc] S F. unfold finished in F. destruct (w_pc w); try done. simplify_eq.
  destruct o as [[| | |]|]; cbn in *; try done. destruct (Hc eq_refl) as [E _]. rewrite Hs in E by done. done.
Qed.

(** The publication of a delta cuts the longer text further. *)
Lemma published_text_inv p g segs d p' g' :
  text_inv p g segs -> g.(g_pc) = G_publish d -> g_published p g d = (p', g') -> exists segs', text_inv p' g' segs'.
Proof.
  intros [H1 H2 H3 H4 H5 H6 H7] Hpc H. rewrite Hpc in *. cbn in H5, H6. unfold g_published in H.
  destruct (utterance_push_delta_ok (assembler g) (delta d)) as (more & rest & Hp & [Hcut Hmore] & Hlt).
  { unfold valid_limits. destruct H4 as [-> ->]. unfold DEFAULT_SOFT_LIMIT_BYTES, DEFAULT_HARD_LIMIT_BYTES. lia. }
  rewrite Hp in H. simplify_eq. exists (segs ++ more). destruct H4 as [Hsoft Hhard]. rewrite Hhard in *. destruct H6 as [Hn Hq].
  split; cbn; rewrite ?text_deltas_app; cbn; try done.
  - rewrite H1, concat_snoc. done.
  - rewrite concat_app, <- app_assoc, <- Hcut, app_assoc, H2. done.
  - by apply Forall_app.
  - rewrite blen_app. lia.
  - split; [done|]. exists (kept segs). split; [|done]. unfold utterances_of, kept. by rewrite List.filter_app, app_nil_r.
Qed.

(** The next assembled utterance. *)
Lemma next_utterance_text_inv p g segs us final p' g' :
  text_inv p g segs -> g.(g_pc) = G_utterances us final -> g_next_utterance T p g us final = Some (p', g') ->
  exists segs', text_inv p' g' segs'.
Proof.
  intros I Hpc H. pose proof (tx_queue _ _ _ I) as Hq. pose proof (tx_bytes _ _ _ I) as Hb. rewrite Hpc in Hq, Hb. cbn in Hq, Hb.
  destruct Hq as (Hn & done & Hd & Hq). unfold g_next_utterance, g_stop in H.
  destruct us as [|u us].
  - rewrite app_nil_r in Hd. subst done. destruct final; simplify_eq; eapply (text_inv_keep I); rewrite ?Hpc; cbn; try done; try lia.
    split; [done|]. unfold utterances_of in Hq. by rewrite app_nil_r in Hq.
  - destruct (normalize_speech_text u) as [[words|]| |] eqn:N; simplify_eq.
    + destruct (checked_add _ _) as [n|] eqn:C; simplify_eq.
      * apply checked_add_Some in C as [-> _]. eapply (text_inv_keep I); rewrite ?Hpc; cbn; try done; try lia.
        split; [by rewrite Hn|]. split; [lia|]. exists done, u. split_and!; [done| |done]. unfold spoken. by rewrite N.
      * by eapply (text_inv_loose I).
    + eapply (text_inv_keep I); rewrite ?Hpc; cbn; try done; try lia.
      split; [done|]. exists (done ++ [u]). rewrite <- app_assoc, spoken_all_snoc. unfold spoken. by rewrite N, app_nil_r.
    + by eapply (text_inv_loose I).
    + by eapply (text_inv_loose I).
Qed.

(** An utterance enters the queue. *)
Lemma sent_text_inv p g segs q us final p' g' :
  text_inv p g segs -> g.(g_pc) = G_send q us final -> p' = set_queue p (p.(queue) ++ [q]) [q] ->
  g' = g_goto g (G_utterances us final) -> exists segs', text_inv p' g' segs'.
Proof.
  intros [H1 H2 H3 H4 H5 H6 H7] Hpc -> ->. rewrite Hpc in *. cbn in H5, H6. exists segs.
  destruct H6 as (Hqe & Hn & done & u & Hd & Hu & Hq). split; cbn; try done.
  rewrite zlen_app, zlen_cons, zlen_nil. split; [lia|]. exists (done ++ [u]).
  rewrite <- app_assoc, spoken_all_snoc, Hu, numbered_snoc, <- numbered_length, <- Hq, <- Hqe. done.
Qed.

(** The end of the language stream. *)
Lemma finish_text_inv p g segs p' g' :
  text_inv p g segs -> g.(g_pc) = G_loop -> g_delta T p g None = Some (p', g') -> exists segs', text_inv p' g' segs'.
Proof.
  intros I Hpc H. pose proof (tx_queue _ _ _ I) as Hq. pose proof (tx_bytes _ _ _ I) as Hb. rewrite Hpc in Hq, Hb. cbn in Hq, Hb.
  destruct Hq as (Hn & Hq). unfold g_delta in H. rewrite utterance_finish_ok in H.
  destruct (is_blank (buffer (assembler g))) eqn:B; simplify_eq; eapply (text_inv_keep I); rewrite ?Hpc; cbn; try done; try lia.
  - unfold utterances_of, remainder. by rewrite B, app_nil_r.
  - split; [done|]. exists (kept segs). unfold utterances_of, remainder. by rewrite B.
Qed.

Lemma generation_step_text_inv p w g now b a p' g' segs :
  text_inv p g segs -> cross_inv p w g -> generation_step T p w g now b a = Some (p', g') -> exists segs', text_inv p' g' segs'.
Proof.
  intros I Hc H. pose proof (tx_queue _ _ _ I) as Hq. pose proof (tx_bytes _ _ _ I) as Hb. pose proof (tx_terminal _ _ _ I) as Ht.
  pose proof (early_outcome p w g) as He.
  unfold generation_step in H. destruct (g_pc g) eqn:Hpc.
  all: cbn in Hq, Hb, Ht.
  all: try (unfold g_send, g_memory, g_call_model, g_worker_finished, g_stop in H; split_step H; split_sends;
    (eapply (text_inv_loose I); cbn; rewrite ?text_deltas_app; cbn; rewrite ?app_nil_r; done) ||
    (eapply (text_inv_keep I); rewrite ?Hpc; cbn; rewrite ?text_deltas_app; cbn; rewrite ?app_nil_r; try done; lia)).
  - destruct (may_take _ _ _ _); [|done]. destruct b.
    + unfold g_stop in H. simplify_eq. by eapply (text_inv_loose I).
    + simplify_eq. by eapply (text_inv_loose I).
    + unfold g_stop in H. simplify_eq. by eapply (text_inv_loose I).
    + destruct (finished w) as [o|] eqn:F; [|done]. unfold g_worker_finished in H. simplify_eq.
      eapply (text_inv_loose I); try done. by apply (He o).
    + destruct a as [| | | |item| | | |]; try done. destruct item as [[d|e]|]; [| |by eapply finish_text_inv].
      * unfold g_delta, g_stop in H. destruct (_ || _); [simplify_eq; by eapply (text_inv_loose I)|].
        destruct (_ <? _) eqn:L; simplify_eq; [by eapply (text_inv_loose I)|]. breflect.
        eapply (text_inv_keep I); rewrite ?Hpc; cbn; try done; [lia|]. unfold saturating_sub in L. lia.
      * unfold g_delta, g_stop in H. simplify_eq. by eapply (text_inv_loose I).
  - simplify_eq. by eapply published_text_inv.
  - by eapply next_utterance_text_inv.
  - destruct (may_take _ _ _ _); [|done]. unfold g_stop, g_worker_finished in H. destruct b; simplify_eq; try by eapply (text_inv_loose I).
    + destruct (finished w) as [o|] eqn:F; simplify_eq. eapply (text_inv_loose I); try done. by apply (He o).
    + destruct (is_some (finished w)); simplify_eq; [by eapply (text_inv_loose I)|].
      destruct (_ <? _); simplify_eq. by eapply sent_text_inv.
  - unfold g_worker_finished in H. destruct (finished w) as [o|] eqn:F; simplify_eq.
    eapply (text_inv_loose I); try done. by apply (He o).
  - destruct (may_take _ _ _ _); [|done]. destruct b; simplify_eq.
    + eapply (text_inv_keep I); rewrite ?Hpc; cbn; first [done|lia].
    + by eapply (text_inv_loose I).
    + destruct (finished w) as [o|] eqn:F; simplify_eq. destruct o as [[| | |]|]; try by eapply (text_inv_loose I).
      eapply (text_inv_keep I); rewrite ?Hpc; cbn; first [done|lia].
Qed.


(** ** The channel of events *)

Definition speech_reserved (pc : speech_pc) : Z := match pc with W_pair_first _ => 2 | W_pair_second _ => 1 | _ => 0 end.

Definition generation_reserved (g : generation) : Z :=
  match g.(g_pc) with G_permit _ => permit_count g | G_first _ => 2 | G_publish _ => 1 | _ => 0 end.

(** An event about this turn; the trace of a retrieval is the provider's. *)
Definition own_event (e : RuntimeEvent) : Prop :=
  is_terminal e = false /\ (event_turn_id e = T.(task_turn_id) \/ exists trace, e = MemoryRetrieved trace).

Definition own_delta (pc : generation_pc) : Prop :=
  match pc with
  | G_reserve d | G_permit d | G_first d | G_publish d => d.(delta_turn_id) = T.(task_turn_id)
  | _ => True
  end.

Record channel_inv (p : pipeline) (w : speech_worker) (g : generation) : Prop := {
  ch_unread : 0 <= p.(unread);
  ch_reserved : p.(reserved) = generation_reserved g + speech_reserved w.(w_pc);
  ch_capacity : p.(unread) + p.(reserved) <= EVENT_BUFFER_SIZE;
  ch_events : Forall own_event p.(events);
  ch_delta : own_delta g.(g_pc);
}.

Definition about_this_turn : Prop :=
  forall d, T.(task_language_input).(quality_decision) = Some d -> d.(ProtocolQuality.turn_id) = T.(task_turn_id).

Lemma own_event_app es e : Forall own_event es -> own_event e -> Forall own_event (es ++ [e]).
Proof. intros. apply Forall_app. split; [done|]. by apply Forall_singleton. Qed.

Ltac channel_step :=
  split; cbn in *;
  repeat match goal with H : has_room _ _ = true |- _ => unfold has_room in H; breflect end;
  rewrite ?app_nil_r;
  try first [ done | lia | (apply own_event_app; [done|]; split; [done|]; first [by left|by right; eexists|left; auto]) ].

Lemma worker_step_channel_inv p w g now b a p' w' :
  channel_inv p w g -> worker_step T p w now b a = Some (p', w') -> channel_inv p' w' g.
Proof.
  intros [H1 H2 H3 H4 H5] H. assert (0 <= generation_reserved g)
    by (unfold generation_reserved, permit_count; repeat case_match; lia).
  worker_cases H. all: channel_step.
  match goal with E : w_pc _ = _ |- _ => rewrite E end. done.
Qed.

Lemma generation_step_channel_inv p w g now b a p' g' :
  about_this_turn -> channel_inv p w g -> cross_inv p w g -> generation_step T p w g now b a = Some (p', g') ->
  channel_inv p' (spawn g w) g'.
Proof.
  intros HT [H1 H2 H3 H4 H5] Hc H. assert (0 <= speech_reserved (w_pc w)) by (unfold speech_reserved; repeat case_match; lia).
  unfold spawn, generation_reserved in *. unfold about_this_turn in HT. 
  pose proof (cr_idle _ _ _ Hc) as Hidle. clear Hc. generation_cases H. all: channel_step.
  all: try (cbn; by auto).
  all: try (rewrite Hidle in H2 by done; done).
  all: try (unfold permit_count in *; cbn in *; repeat case_match; lia).
  all: try (match goal with E : g_pc _ = _ |- _ => unfold generation_reserved; rewrite E end; done).
  breflect. done.
Qed.


(** ** Who cancelled *)

(** The generation task has decided to end the turn by itself. *)
Definition stopped (pc : generation_pc) : bool :=
  match pc with G_stop _ _ | G_clean _ | G_join _ | G_final_interrupted | G_done _ | G_panicked => true | _ => false end.

(** The worker is about to report an interruption, or has. *)
Definition reports_interruption (pc : speech_pc) : bool :=
  match pc with
  | W_cleanup Speech_Interrupted | W_await_enqueue Speech_Interrupted | W_done (Ok Speech_Interrupted) => true
  | _ => false
  end.

(** The turn is to end, or has ended, as cancelled. *)
Definition cancels (pc : generation_pc) : bool :=
  match pc with
  | G_memory_cancelled (TurnCancelled _) | G_stop (TurnCancelled _) _ | G_clean (TurnCancelled _)
  | G_join (TurnCancelled _) | G_done (TurnCancelled _) | G_final_interrupted => true
  | _ => false
  end.

Record cancel_inv (p : pipeline) (w : speech_worker) (g : generation) : Prop := {
  ca_work : p.(work) = true -> p.(external) || stopped g.(g_pc) = true;
  ca_speech : reports_interruption w.(w_pc) = true -> p.(external) || stopped g.(g_pc) = true;
  ca_cancels : cancels g.(g_pc) = true -> p.(external) = true;
}.

(** Nobody takes the generation away. *)
Definition granted_answer (a : answer) : Prop := a <> A_permit false.

Lemma worker_step_cancel_inv p w g now b a p' w' :
  now.(f_external) = p.(external) -> now.(f_work) = p.(work) -> granted_answer a ->
  cancel_inv p w g -> worker_step T p w now b a = Some (p', w') -> cancel_inv p' w' g.
Proof.
  intros N1 N2 Ha [H1 H2 H3] H. unfold worker_step in H.
  assert (R : forall order, may_take order (w_view w) now b = true -> b = B_external \/ b = B_work -> external p || stopped (g_pc g) = true).
  { intros order M%may_take_raised [-> | ->]; cbn in M; [by rewrite <- N1, M|apply H1; by rewrite <- N2]. }
  assert (S : now.(f_external) = true \/ now.(f_work) = true -> external p || stopped (g_pc g) = true).
  { rewrite N1, N2. intros [E|E]; [by rewrite E|auto]. }
  worker_cases H. all: split; cbn -[may_take] in *; try done; auto.
  all: try (intros _; match goal with M : may_take _ _ _ _ = true |- _ => eapply R; [exact M|tauto] end).
  all: try (intros _; apply S; rewrite N1, N2; by apply orb_prop).
  all: match goal with E : w_pc _ = _ |- _ => rewrite E; cbn; done end.
Qed.

Lemma cancelled_outcome w r :
  finished w = Some r -> match terminal_from_speech T.(task_turn_id) r with TurnCancelled _ => true | _ => false end = true ->
  reports_interruption w.(w_pc) = true.
Proof. unfold finished. intros F. destruct (w_pc w); try done. simplify_eq. by destruct r as [[| | |]|]. Qed.

Lemma generation_step_cancel_inv p w g now b a p' g' :
  now.(f_external) = p.(external) -> now.(f_work) = p.(work) -> granted_answer a ->
  cancel_inv p w g -> generation_step T p w g now b a = Some (p', g') -> cancel_inv p' (spawn g w) g'.
Proof.
  intros N1 N2 Ha [H1 H2 H3] H. unfold spawn.
  assert (R : forall order, may_take order (g_view g) now b = true -> b = B_external \/ b = B_work -> external p || stopped (g_pc g) = true).
  { intros order M%may_take_raised [-> | ->]; cbn in M; [by rewrite <- N1, M|apply H1; by rewrite <- N2]. }
  assert (S : now.(f_external) = true \/ now.(f_work) = true -> external p || stopped (g_pc g) = true).
  { rewrite N1, N2. intros [E|E]; [by rewrite E|auto]. }
  generation_cases H. all: split; cbn -[may_take] in *; rewrite ?orb_false_r, ?orb_true_r in *; try done; auto.
  all: try (intros _; match goal with M : may_take _ _ _ _ = true |- _ => eapply R; [exact M|tauto] end).
  all: try (intros _; apply S; rewrite N1, N2; by apply orb_prop).
  all: try (match goal with F : finished _ = Some _ |- _ => intros C; apply H2; exact (cancelled_outcome _ _ F C) end).
  all: match goal with E : g_pc _ = _ |- _ => rewrite E; cbn; rewrite ?orb_true_r; done end.
Qed.


(** ** Every reachable state *)

(** A completed turn has a completed worker. *)
Definition done_inv (w : speech_worker) (g : generation) : Prop :=
  forall t, g.(g_pc) = G_done (TurnCompleted t) -> w.(w_pc) = W_done (Ok Speech_Completed).

Lemma generation_step_done_inv p w g now b a p' g' segs :
  text_inv p g segs -> generation_step T p w g now b a = Some (p', g') -> done_inv (spawn g w) g'.
Proof.
  intros I H. pose proof (tx_terminal _ _ _ I) as Ht. clear I. unfold done_inv, spawn.
  generation_cases H. all: cbn in Ht |- *; intros t' [= E]; try done.
  all: try (by subst; destruct (Ht)).
  all: try (by match goal with E : g_pc _ = _ |- _ => rewrite E in * end).
  unfold finished in *. destruct (w_pc w); try done. simplify_eq. destruct r as [[| | |]|]; done.
Qed.

Record turn_inv (s : turn) : Prop := {
  ti_speech : speech_inv s.(pipe) s.(speech);
  ti_cross : cross_inv s.(pipe) s.(speech) s.(gen);
  ti_text : exists segs, text_inv s.(pipe) s.(gen) segs;
  ti_channel : channel_inv s.(pipe) s.(speech) s.(gen);
  ti_done : done_inv s.(speech) s.(gen);
}.

(** What a task remembers of the flags does not matter to the invariants. *)
Lemma see_speech_inv s : turn_inv s -> turn_inv (see_speech s).
Proof.
  destruct s as [p [] g]. intros [H1 H2 H3 H4 H5]. split; try done; [|by destruct H2; split|by destruct H4; split].
  destruct H1 as (consumed & groups & cur & fs & asked & B). exists consumed, groups, cur, fs, asked. by destruct B; split.
Qed.
Lemma see_generation_inv s : turn_inv s -> turn_inv (see_generation s).
Proof.
  destruct s as [p w []]. intros [H1 H2 [segs H3] H4 H5]. split; try done; [destruct H2|exists segs; destruct H3|destruct H4]; by split.
Qed.

Lemma initial_inv : turn_inv (initial T).
Proof.
  split; cbn.
  - exists [], [], None, [], false. by split; cbn.
  - by split.
  - exists []. by split; cbn.
  - split; cbn; try done. apply Forall_singleton. split; [done|]. by left.
  - done.
Qed.

Lemma worker_text_inv p p' g segs : same_for_generation p p' -> text_inv p g segs -> exists segs', text_inv p' g segs'.
Proof.
  intros (_ & _ & _ & E1 & _ & E2 & E3) I. eapply (text_inv_keep I); try done; apply I.
Qed.

Lemma step_turn_inv s l s' : about_this_turn -> turn_inv s -> step T s l = Some s' -> turn_inv s'.
Proof.
  intros HT [H1 H2 [segs H3] H4 H5] H. unfold step in H. destruct l as [b a|b a| | | |].
  - destruct (generation_step _ _ _ _ _ _ _) as [[p g]|] eqn:G; [|done]. simplify_eq. apply see_generation_inv.
    split; cbn; eauto using generation_step_speech_inv, generation_step_cross_inv, generation_step_text_inv,
      generation_step_channel_inv, generation_step_done_inv.
  - destruct (worker_step _ _ _ _ _ _) as [[p w]|] eqn:W; [|done]. simplify_eq. apply see_speech_inv.
    split; cbn; eauto using worker_step_speech_inv, worker_step_cross_inv, worker_step_channel_inv, worker_text_inv, worker_step_frame.
    intros t E. specialize (H5 t E). unfold worker_step in W. by rewrite H5 in W.
  - simplify_eq. split; cbn; try done; [by eapply (speech_inv_append _ _ _ []); rewrite ?app_nil_r|by destruct H2; split|
      exists segs; by destruct H3; split|by destruct H4; split].
  - destruct (external _); [|done]. simplify_eq. split; cbn; try done; [by eapply (speech_inv_append _ _ _ []); rewrite ?app_nil_r|
      by destruct H2; split|exists segs; by destruct H3; split|by destruct H4; split].
  - simplify_eq. split; cbn; try done; [by eapply (speech_inv_append _ _ _ []); rewrite ?app_nil_r|by destruct H2; split|
      exists segs; by destruct H3; split|by destruct H4; split].
  - destruct (0 <? _) eqn:U; [|done]. simplify_eq. breflect. split; cbn; try done.
    + by eapply (speech_inv_append _ _ _ []); rewrite ?app_nil_r.
    + by destruct H2; split.
    + exists segs. destruct H3. split; cbn; rewrite ?app_nil_r; done.
    + destruct H4. split; cbn in *; rewrite ?app_nil_r; done || lia.
Qed.

Lemma reachable_inv allowed s : about_this_turn -> reachable T allowed s -> turn_inv s.
Proof. intros HT. induction 1; eauto using initial_inv, step_turn_inv. Qed.

End Turn.
