(* ===== verification/TurnGuarantees.v ===== *)
(** * What a streaming turn guarantees

    The theorems on the transition system of [StreamingTurn], from the
    invariants of [StreamingTurnProofs]: what is published and spoken at any
    moment, what a completed turn has spoken, who can cancel a turn, and what an
    interruption does. *)

From S2P Require Import Prelude RustStr Errors Pcm CaptureTiming Audio ProtocolQuality MemoryProtocol MemoryRetrieval LanguageInput UtteranceAssembler SpeechText Context TurnEvents StreamingTurn StreamingTurnProofs.

(** ** An interruption is final for the speech worker *)

Section Turn.
Context (T : StreamingTurnTask).

(** The worker was suspended with the interruption in sight. *)
Definition speech_saw_interruption (s : turn) : Prop :=
  s.(pipe).(external) = true /\ s.(speech).(w_view).(f_external) = true.

Lemma saw_blocks order view now b :
  f_external view = true -> may_take (B_external :: order) view now b = true -> b = B_external.
Proof. cbn. intros ->. case_bool_decide; done. Qed.

Lemma saw_step s l s' :
  speech_saw_interruption s -> step T s l = Some s' -> speech_saw_interruption s' /\ s'.(pipe).(enqueued) = s.(pipe).(enqueued).
Proof.
  intros [He Hv] H. unfold step in H. destruct l as [b a|b a| | | |].
  - destruct (generation_step _ _ _ _ _ _ _) as [[p g]|] eqn:G; [|done]. simplify_eq. unfold speech_saw_interruption, spawn. cbn.
    destruct (generation_step_frame _ _ _ _ _ _ _ _ _ G) as [_ ->]. split; [|done].
    assert (external p = external (pipe s)) as -> by (clear -G; generation_cases G; done).
    split; [done|]. by destruct (g_pc (gen s)).
  - destruct (worker_step _ _ _ _ _ _) as [[p w]|] eqn:W; [|done]. simplify_eq. unfold speech_saw_interruption. cbn.
    destruct (worker_step_frame _ _ _ _ _ _ _ _ W) as (-> & _). split; [done|].
    clear He. worker_cases W; try done.
    all: match goal with M : may_take _ _ _ _ = true |- _ => by apply saw_blocks in M end.
  - by simplify_eq.
  - rewrite He in H. by simplify_eq.
  - by simplify_eq.
  - destruct (0 <? _); [|done]. by simplify_eq.
Qed.

Lemma saw_run ls : forall s s', speech_saw_interruption s -> run T s ls = Some s' -> s'.(pipe).(enqueued) = s.(pipe).(enqueued).
Proof.
  induction ls as [|l ls IH]; intros s s' Hs H; cbn in H; [by simplify_eq|].
  destruct (step T s l) as [s1|] eqn:E; [|done]. apply saw_step in E as [Hs1 <-]; [|done]. by apply IH.
Qed.

(** ** An interrupted turn can always end *)

(** A label that asks nothing of the consumer and nothing new of the adapters:
    they only end what they were doing. *)
Definition quiet (l : label) : Prop :=
  match l with
  | L_generation _ a | L_speech _ a =>
      match a with A_delta (Some _) | A_frame (Some _) | A_permit _ | A_panic => False | _ => True end
  | L_interrupt | L_interrupt_work => True
  | L_close | L_read => False
  end.

Definition ended (pc : generation_pc) : bool := match pc with G_done _ | G_panicked => true | _ => false end.

Definition can_finish (s : turn) : Prop :=
  exists ls s', Forall quiet ls /\ run T s ls = Some s' /\ ended s'.(gen).(g_pc) = true.

Lemma can_finish_now s : ended s.(gen).(g_pc) = true -> can_finish s.
Proof. intros H. exists [], s. done. Qed.

Lemma can_finish_step s l s' : step T s l = Some s' -> quiet l -> can_finish s' -> can_finish s.
Proof. intros E Q (ls & t & Hq & Hr & He). exists (l :: ls), t. cbn. rewrite E. split; [by constructor|done]. Qed.

(** The worker, once the interruption is raised. *)
Definition speech_rank (pc : speech_pc) : nat :=
  match pc with
  | W_idle | W_done _ => 0
  | W_recv | W_reserve _ | W_cleanup _ | W_completed => 1
  | W_frames _ _ _ | W_playable _ _ _ | W_permit _ _ _ | W_await_enqueue _ | W_accepted _ _ _ => 2
  | W_enqueue _ _ | W_stream _ => 3
  | W_pair_second _ => 4
  | W_pair_first _ => 5
  end.

Definition speech_way_out (pc : speech_pc) : label :=
  match pc with
  | W_playable _ _ _ => L_speech B_external (A_elapsed 0)
  | W_pair_second _ => L_speech B_op (A_elapsed 0)
  | W_pair_first _ => L_speech B_op A_done
  | W_stream _ => L_speech B_op (A_stream false)
  | W_await_enqueue _ => L_speech B_op (A_receipt (Err (AdapterError_new [])))
  | W_cleanup _ => L_speech B_op (A_frame None)
  | _ => L_speech B_external A_done
  end.

Lemma speech_progress s :
  s.(pipe).(external) = true -> s.(speech).(w_pc) <> W_idle -> finished s.(speech) = None ->
  exists s', step T s (speech_way_out s.(speech).(w_pc)) = Some s' /\
    (speech_rank s'.(speech).(w_pc) < speech_rank s.(speech).(w_pc))%nat /\
    s'.(gen) = s.(gen) /\ s'.(pipe).(external) = true /\ s'.(speech).(w_pc) <> W_idle.
Proof.
  destruct s as [p w g]. cbn [pipe speech gen]. intros He Hi Hf. unfold finished in Hf.
  unfold speech_way_out, step, flags_of, worker_step, send_event, reserve_many.
  destruct (w_pc w) eqn:Hpc; try done; cbn [pipe speech gen]; rewrite Hpc;
    cbn -[Nat.lt]; rewrite ?He; cbn -[Nat.lt];
    (eexists; split; [reflexivity|]; cbn -[Nat.lt]; rewrite ?He; split_and!; try done; lia).
Qed.

Lemma speech_finishes s :
  s.(pipe).(external) = true -> s.(speech).(w_pc) <> W_idle ->
  exists ls s', Forall quiet ls /\ run T s ls = Some s' /\ is_some (finished s'.(speech)) = true /\
    s'.(gen) = s.(gen) /\ s'.(pipe).(external) = true.
Proof.
  remember (speech_rank (w_pc (speech s))) as n eqn:Hn. revert s Hn. induction n as [n IH] using lt_wf_ind. intros s Hn He Hi.
  destruct (finished (speech s)) eqn:F; [exists [], s; by rewrite F|].
  destruct (speech_progress s He Hi F) as (s1 & E & Hr & Hg & He1 & Hi1).
  destruct (IH _ ltac:(subst n; exact Hr) s1 eq_refl He1 Hi1) as (ls & s2 & Hq & Hrun & Hf & Hg2 & He2).
  exists (speech_way_out (w_pc (speech s)) :: ls), s2. split_and!; [|cbn; by rewrite E|done|by rewrite Hg2|done].
  constructor; [|done]. by destruct (w_pc (speech s)).
Qed.

Lemma run_app ls : forall s s' ls', run T s ls = Some s' -> run T s (ls ++ ls') = run T s' ls'.
Proof. induction ls as [|l ls IH]; intros s s' ls' H; cbn in *; [by simplify_eq|]. destruct (step T s l); [|done]. by apply IH. Qed.

Lemma can_finish_speech s :
  s.(pipe).(external) = true -> s.(speech).(w_pc) <> W_idle ->
  (forall s', s'.(gen) = s.(gen) -> s'.(pipe).(external) = true -> is_some (finished s'.(speech)) = true -> can_finish s') -> can_finish s.
Proof.
  intros He Hi K. destruct (speech_finishes s He Hi) as (ls & s1 & Hq & Hr & Hf & Hg & He1).
  destruct (K s1 Hg He1 Hf) as (ls' & s2 & Hq' & Hr' & Hend). exists (ls ++ ls'), s2. split_and!; [by apply Forall_app| |done].
  by rewrite (run_app ls s s1).
Qed.

(** A state of the generation task from which the turn can end. *)
Definition way_out (pc : generation_pc) : Prop :=
  forall s, s.(gen).(g_pc) = pc -> s.(pipe).(external) = true -> s.(speech).(w_pc) <> W_idle -> can_finish s.

(** One step of the generation task, with a given label. *)
Ltac generation_goes s l Hpc He :=
  apply (can_finish_step s l _ ltac:(unfold step, generation_step, flags_of, spawn, g_send, send_event, reserve_many;
    rewrite Hpc; cbn -[g_next_utterance g_published]; rewrite ?He; cbn -[g_next_utterance g_published]; reflexivity)); [done|].

(** One step with the worker's outcome. *)
Ltac generation_joins s Hpc F :=
  apply (can_finish_step s (L_generation B_op A_done) _
    ltac:(unfold step, generation_step, spawn; rewrite Hpc; cbn; rewrite F; reflexivity)); [done|].

(** One step of the utterance loop, whose text normalizes as [N] says. *)
Ltac utterance_goes s Hpc N :=
  eapply (can_finish_step s (L_generation B_op A_done));
    [unfold step, generation_step, spawn; rewrite Hpc; cbn -[normalize_speech_text checked_add]; rewrite N; reflexivity|done|].

Lemma out_of_done t : way_out (G_done t).
Proof. intros s Hpc _ _. apply can_finish_now. by rewrite Hpc. Qed.

Lemma out_of_clean t : way_out (G_clean t).
Proof. intros s Hpc He Hi. generation_goes s (L_generation B_op (A_delta None)) Hpc He. by apply out_of_done with (t := t). Qed.

(** A task that awaits the worker and then steps. *)
Lemma out_of_waiting pc :
  (forall s, s.(gen).(g_pc) = pc -> s.(pipe).(external) = true -> is_some (finished s.(speech)) = true -> can_finish s) -> way_out pc.
Proof.
  intros K s Hpc He Hi. apply can_finish_speech; [done..|]. intros s' Hg He' Hf. apply K; [by rewrite Hg|done..].
Qed.

Lemma finished_not_idle w : is_some (finished w) = true -> w.(w_pc) <> W_idle.
Proof. unfold finished. by destruct (w_pc w). Qed.

Lemma out_of_stopped t : way_out (G_stop t true).
Proof.
  apply out_of_waiting. intros s Hpc He Hf. pose proof (finished_not_idle _ Hf). destruct (finished (speech s)) as [o|] eqn:F; [|done].
  generation_joins s Hpc F.
  by apply out_of_done with (t := t).
Qed.

Lemma out_of_stop t : way_out (G_stop t false).
Proof. intros s Hpc He Hi. generation_goes s (L_generation B_op (A_delta None)) Hpc He. by apply out_of_stopped with (t := t). Qed.

Lemma out_of_join t : way_out (G_join t).
Proof.
  apply out_of_waiting. intros s Hpc He Hf. pose proof (finished_not_idle _ Hf). destruct (finished (speech s)) as [o|] eqn:F; [|done].
  generation_joins s Hpc F.
  by apply out_of_done with (t := t).
Qed.

Lemma out_of_wait_worker : way_out G_wait_worker.
Proof.
  apply out_of_waiting. intros s Hpc He Hf. pose proof (finished_not_idle _ Hf). destruct (finished (speech s)) as [o|] eqn:F; [|done].
  generation_joins s Hpc F.
  eapply out_of_clean; cbn; done.
Qed.

Lemma out_of_final_interrupted : way_out G_final_interrupted.
Proof.
  apply out_of_waiting. intros s Hpc He Hf. pose proof (finished_not_idle _ Hf). destruct (finished (speech s)) as [o|] eqn:F; [|done].
  destruct o as [[| |stage e|]|e];
    (generation_joins s Hpc F; eapply out_of_done; cbn; done).
Qed.

Lemma out_of_final : way_out G_final.
Proof. intros s Hpc He Hi. generation_goes s (L_generation B_external A_done) Hpc He. by apply out_of_final_interrupted. Qed.

Lemma out_of_loop : way_out G_loop.
Proof. intros s Hpc He Hi. generation_goes s (L_generation B_external A_done) Hpc He. eapply out_of_stop; done. Qed.

Lemma out_of_reserve d : way_out (G_reserve d).
Proof. intros s Hpc He Hi. generation_goes s (L_generation B_external A_done) Hpc He. eapply out_of_stop; done. Qed.

Lemma out_of_permit d : way_out (G_permit d).
Proof. intros s Hpc He Hi. generation_goes s (L_generation B_external A_done) Hpc He. eapply out_of_stop; done. Qed.

Lemma out_of_send q us final : way_out (G_send q us final).
Proof. intros s Hpc He Hi. generation_goes s (L_generation B_external A_done) Hpc He. eapply out_of_stop; done. Qed.

Lemma out_of_utterances us final : way_out (G_utterances us final).
Proof.
  induction us as [|u us IH]; intros s Hpc He Hi.
  - destruct final.
    + apply (can_finish_step s (L_generation B_op A_done) _ ltac:(unfold step, generation_step, spawn; rewrite Hpc; reflexivity)); [done|].
      by apply out_of_final.
    + apply (can_finish_step s (L_generation B_op A_done) _ ltac:(unfold step, generation_step, spawn; rewrite Hpc; reflexivity)); [done|].
      by apply out_of_loop.
  - destruct (normalize_speech_text u) as [[words|]| |] eqn:N.
    + destruct (checked_add (next_utterance_id (gen s)) 1) as [n|] eqn:C;
      (eapply (can_finish_step s (L_generation B_op A_done));
       [unfold step, generation_step, spawn; rewrite Hpc; cbn -[normalize_speech_text checked_add]; rewrite N, C; reflexivity|done|]).
      * eapply out_of_send; cbn; done.
      * eapply out_of_stop; cbn; done.
    + utterance_goes s Hpc N. by apply IH.
    + utterance_goes s Hpc N. by apply can_finish_now.
    + utterance_goes s Hpc N. by apply can_finish_now.
Qed.

Lemma out_of_publish d : way_out (G_publish d).
Proof.
  intros s Hpc He Hi. unfold way_out in *.
  destruct (push_delta (assembler (gen s)) (delta d)) as [[us a]| |] eqn:P;
    (eapply (can_finish_step s (L_generation B_op A_done));
     [unfold step, generation_step, g_published, spawn; rewrite Hpc; cbn -[push_delta]; rewrite P; reflexivity|done|]).
  - eapply out_of_utterances; cbn; done.
  - by apply can_finish_now.
  - by apply can_finish_now.
Qed.

Lemma out_of_first d : way_out (G_first d).
Proof.
  intros s Hpc He Hi.
  apply (can_finish_step s (L_generation B_op (A_elapsed 0)) _ ltac:(unfold step, generation_step, spawn; rewrite Hpc; reflexivity)); [done|].
  by apply out_of_publish with (d := d).
Qed.

(** Before the worker exists. *)
Lemma out_of_start s i : s.(gen).(g_pc) = G_start i -> s.(pipe).(external) = true -> can_finish s.
Proof.
  intros Hpc He. destruct (GenerationLanguageRequest_from_input (task_turn_id T) (task_generation_id T) i) eqn:R;
    (eapply (can_finish_step s (L_generation B_op (A_stream false)));
     [unfold step, generation_step, g_call_model, spawn; rewrite Hpc; cbn -[GenerationLanguageRequest_from_input]; rewrite R; reflexivity|done|]).
  - by apply out_of_loop.
  - eapply out_of_join; cbn; done.
Qed.

Lemma before_start_finishes s : before_start s.(gen).(g_pc) = true -> s.(pipe).(external) = true -> can_finish s.
Proof.
  intros Hb He. destruct (g_pc (gen s)) eqn:Hpc; try done.
  - generation_goes s (L_generation B_external A_done) Hpc He. by apply can_finish_now.
  - destruct (quality_decision (task_language_input T)) as [d|] eqn:Q;
      (eapply (can_finish_step s (L_generation B_external A_done));
       [unfold step, generation_step, flags_of, g_send, send_event, spawn; rewrite Hpc; cbn -[quality_decision]; rewrite Q; cbn; rewrite ?He; reflexivity|done|]);
      by apply can_finish_now.
  - generation_goes s (L_generation B_external A_done) Hpc He.
    eapply (can_finish_step _ (L_generation B_op (A_memory (Err cancelled)))); [reflexivity|done|]. by apply can_finish_now.
  - eapply (can_finish_step s (L_generation B_op (A_memory (Err cancelled))));
      [unfold step, generation_step, spawn; rewrite Hpc; reflexivity|done|]. by apply can_finish_now.
  - generation_goes s (L_generation B_external A_done) Hpc He. by apply can_finish_now.
  - by eapply out_of_start.
Qed.

Lemma interrupted_finishes s : cross_inv s.(pipe) s.(speech) s.(gen) -> s.(pipe).(external) = true -> can_finish s.
Proof.
  intros Hc He. destruct (before_start (g_pc (gen s))) eqn:Hb; [by apply before_start_finishes|].
  pose proof (cr_spawned _ _ _ Hc Hb) as Hi.
  destruct (g_pc (gen s)) eqn:Hpc; try done; try (specialize (Hi eq_refl)).
  - by apply out_of_loop.
  - by apply out_of_reserve with (d := d).
  - by apply out_of_permit with (d := d).
  - by apply out_of_first with (d := d).
  - by apply out_of_publish with (d := d).
  - by apply out_of_utterances with (us := us) (final := final).
  - by apply out_of_send with (q := q) (us := us) (final := final).
  - by apply out_of_wait_worker.
  - destruct drained; [by apply out_of_stopped with (t := t)|by apply out_of_stop with (t := t)].
  - by apply out_of_clean with (t := t).
  - by apply out_of_final.
  - by apply out_of_final_interrupted.
  - by apply out_of_join with (t := t).
  - apply can_finish_now. by rewrite Hpc.
  - apply can_finish_now. by rewrite Hpc.
Qed.

(** Every permit asked for is granted. *)
Definition granted_label (l : label) : Prop :=
  match l with L_generation _ a | L_speech _ a => granted_answer a | _ => True end.

Lemma reachable_cancel_inv s :
  reachable T granted_label s ->
  cancel_inv s.(pipe) s.(speech) s.(gen).
Proof.
  induction 1 as [|s l s' Hr IH Hl H]; [by split|]. unfold step in H. destruct l as [b a|b a| | | |].
  - destruct (generation_step _ _ _ _ _ _ _) as [[p g]|] eqn:G; [|done]. simplify_eq.
    assert (C : cancel_inv p (spawn (gen s) (speech s)) g) by (eapply generation_step_cancel_inv; [| | | |exact G]; done). by destruct C; split.
  - destruct (worker_step _ _ _ _ _ _) as [[p w]|] eqn:W; [|done]. simplify_eq.
    assert (C : cancel_inv p w (gen s)) by (eapply worker_step_cancel_inv; [| | | |exact W]; done). by destruct C; split.
  - simplify_eq. destruct IH. split; cbn; auto.
  - destruct (external (pipe s)) eqn:E; [|done]. simplify_eq. destruct IH. by split; cbn; rewrite ?E.
  - simplify_eq. by destruct IH; split.
  - destruct (0 <? _); [|done]. simplify_eq. by destruct IH; split.
Qed.

End Turn.

Lemma run_reachable T allowed ls : forall s s',
  reachable T allowed s -> Forall allowed ls -> run T s ls = Some s' -> reachable T allowed s'.
Proof.
  induction ls as [|l ls IH]; intros s s' Hs Hl H; cbn in H; [by simplify_eq|]. inversion Hl; subst.
  destruct (step T s l) eqn:E; [|done]. eapply IH; [|done..]. by eapply reach_step.
Qed.

(** ** What the synthesizer and the output answered *)

(** What a run shows, step by step. *)
Fixpoint observed {A} (T : StreamingTurnTask) (look : turn -> label -> option A) (s : turn) (ls : list label) : list A :=
  match ls with
  | [] => []
  | l :: ls =>
      option_list (look s l) ++
      match step T s l with Some s' => observed T look s' ls | None => [] end
  end.

(** The frame the synthesizer hands to the waiting worker. *)
Definition synthesized (s : turn) (l : label) : option AudioFrame :=
  match s.(speech).(w_pc), l with
  | W_frames _ _ _, L_speech B_op (A_frame (Some (Ok f))) => Some f
  | _, _ => None
  end.

(** What the output answers to a frame handed to it. *)
Definition receipt_given (s : turn) (l : label) : option (result PlaybackReceipt AdapterError) :=
  match s.(speech).(w_pc), l with
  | W_enqueue _ _, L_speech B_op (A_receipt r) | W_await_enqueue _, L_speech _ (A_receipt r) => Some r
  | _, _ => None
  end.

(** The output took the frame, for this generation. *)
Definition accepts (T : StreamingTurnTask) (r : result PlaybackReceipt AdapterError) : Prop :=
  r = Ok {| receipt_generation_id := T.(task_generation_id); receipt_state := Playback_Accepted |}.

(** The books of the output while the worker has not given up. *)
Definition output_books (T : StreamingTurnTask) (s : turn) (frames : list AudioFrame)
    (receipts : list (result PlaybackReceipt AdapterError)) : Prop :=
  let taken pending waiting :=
    frames = s.(pipe).(enqueued) ++ pending /\ Forall (accepts T) receipts /\
    length s.(pipe).(enqueued) = (length receipts + waiting)%nat in
  match s.(speech).(w_pc) with
  | W_cleanup o | W_await_enqueue o => o <> Speech_Completed
  | W_done (Ok Speech_Completed) => taken [] 0%nat
  | W_done _ => True
  | W_playable _ _ f | W_permit _ _ f => taken [f] 0%nat
  | W_enqueue _ _ => taken [] 1%nat
  | _ => taken [] 0%nat
  end.

Lemma may_take_worker order view now : ~ B_worker ∈ order -> may_take order view now B_worker = false.
Proof.
  induction order as [|x order IH]; cbn; intros N; [done|]. rewrite bool_decide_false by set_solver.
  rewrite IH by set_solver. apply andb_false_r.
Qed.

Lemma accepts_receipt T receipt :
  negb (bool_decide (receipt.(receipt_generation_id) = T.(task_generation_id))) = false ->
  negb (bool_decide (receipt.(receipt_state) = Playback_Accepted)) = false -> accepts T (Ok receipt).
Proof. destruct receipt as [g st]. cbn. intros G S. breflect. by subst. Qed.

Lemma worker_step_output_books T s b a p w frames receipts :
  worker_step T s.(pipe) s.(speech) (flags_of s) b a = Some (p, w) -> output_books T s frames receipts ->
  output_books T {| pipe := p; speech := w; gen := s.(gen) |}
    (frames ++ option_list (synthesized s (L_speech b a)))
    (receipts ++ option_list (receipt_given s (L_speech b a))).
Proof.
  intros H B. unfold output_books in B. unfold synthesized, receipt_given. worker_cases H.
  all: unfold output_books; cbn; try done; rewrite ?app_nil_r in *; destruct_and?; try done.
  all: try (split_and!; [done..|lia]).
  all: try (split_and!; [by subst frames|done|rewrite ?length_app; cbn; lia]).
  all: try (split_and!; [done|apply Forall_app; split; [done|by repeat constructor; eapply accepts_receipt]|rewrite length_app; cbn; lia]).
  all: try (match goal with M : may_take _ _ _ B_worker = true |- _ => by rewrite may_take_worker in M by set_solver end).
  - by match goal with E : w_pc _ = _ |- _ => rewrite E end.
  - by destruct o.
Qed.

Lemma step_output_books T s l s' frames receipts :
  turn_inv T s -> step T s l = Some s' -> output_books T s frames receipts ->
  output_books T s' (frames ++ option_list (synthesized s l)) (receipts ++ option_list (receipt_given s l)).
Proof.
  intros I H B. assert (E : (forall b a, l <> L_speech b a) ->
    frames ++ option_list (synthesized s l) = frames /\ receipts ++ option_list (receipt_given s l) = receipts).
  { intros N. unfold synthesized, receipt_given.
    destruct (w_pc (speech s)), l; cbn; rewrite ?app_nil_r; try done; by destruct (N b a). }
  unfold step in H. destruct l as [b a|b a| | | |].
  2: { destruct (worker_step _ _ _ _ _ _) as [[p w]|] eqn:W; [|done]. simplify_eq.
       exact (worker_step_output_books T s b a p w frames receipts W B). }
  all: destruct (E ltac:(done)) as [-> ->].
  1: { destruct (generation_step _ _ _ _ _ _ _) as [[p g]|] eqn:G; [|done]. simplify_eq.
       destruct (generation_step_frame _ _ _ _ _ _ _ _ _ G) as [_ En]. unfold output_books, spawn in *. cbn. rewrite En.
       destruct (g_pc (gen s)) eqn:Hg; try done. cbn.
       pose proof (cr_idle _ _ _ (ti_cross _ _ I)) as Hi. rewrite Hg in Hi. by rewrite (Hi eq_refl) in B. }
  all: split_step H; done.
Qed.

Lemma run_output_books T ls : forall s s' frames receipts,
  about_this_turn T -> turn_inv T s -> run T s ls = Some s' -> output_books T s frames receipts ->
  output_books T s' (frames ++ observed T synthesized s ls) (receipts ++ observed T receipt_given s ls).
Proof.
  induction ls as [|l ls IH]; intros s s' frames receipts own I H B; cbn [run observed] in *.
  { simplify_eq. by rewrite !app_nil_r. }
  destruct (step T s l) as [s1|] eqn:E; [|done]. rewrite !app_assoc. apply IH; try done.
  - by eapply step_turn_inv.
  - by apply (step_output_books T s).
Qed.

(** ** A turn from its first event to its last *)

Module Sample.
Definition decision : QualityDecision :=
  {| ProtocolQuality.turn_id := TurnId_new 1; mode := DirectAnswer;
     controls := {| maximum_spoken_seconds := 20; controls_directness := PersonaLevel_raw 80; pace := Natural;
                    follow_up_policy := Contextual; silence_policy := AllowWithoutFiller |};
     signals := []; history_message_count := 0; decision_context_sources := [CurrentTurn] |}.

Definition task : StreamingTurnTask :=
  {| task_turn_id := TurnId_new 1; task_generation_id := GenerationId_new 1;
     task_language_input :=
       {| input_transcript := lit "hello"; recent_messages := [];
          quality_decision := Some decision;
          runtime_guidance := Some (lit "be brief"); memory_items := []; response_schema := None |};
     task_has_memory := false |}.

Definition delta : GenerationTextDelta :=
  {| delta_turn_id := TurnId_new 1; delta_generation_id := GenerationId_new 1; LanguageInput.delta := lit "**Hi.**" |}.

Definition frame : AudioFrame :=
  {| frame_turn_id := TurnId_new 1; frame_generation_id := GenerationId_new 1; frame_utterance_id := UtteranceId_new 1;
     frame_sequence := 0; Audio.format := {| sample_rate_hz := 24000; channels := 1; sample_format := Signed16LittleEndian |};
     frame_bytes := [0; 0]; capture_timing := None |}.

Definition receipt : PlaybackReceipt := {| receipt_generation_id := GenerationId_new 1; receipt_state := Playback_Accepted |}.

(** Up to the first utterance in the queue. *)
Definition opening : list label :=
  [ L_generation B_op A_done; L_generation B_op A_done; L_generation B_op (A_stream false);
    L_generation B_op (A_delta (Some (Ok delta))); L_generation B_op A_done; L_generation B_op (A_permit true);
    L_generation B_op (A_elapsed 5); L_generation B_op A_done; L_generation B_op A_done;
    L_generation B_op (A_delta None); L_generation B_op A_done; L_generation B_op A_done ].

(** The worker speaks it. *)
Definition speaking : list label :=
  [ L_speech B_op A_done; L_speech B_op A_done; L_speech B_op A_done; L_speech B_op (A_elapsed 6);
    L_speech B_op (A_stream false); L_speech B_op (A_frame (Some (Ok frame))); L_speech B_op (A_elapsed 7);
    L_speech B_op (A_permit true); L_speech B_op (A_receipt (Ok receipt)); L_speech B_op A_done ].

Definition closing : list label :=
  [ L_speech B_op (A_frame None); L_generation B_op A_done; L_speech B_op A_done; L_speech B_op A_done;
    L_generation B_worker A_done ].

Definition whole_turn : list label := opening ++ speaking ++ closing.

Example completed_turn :
  exists s, run task (initial task) whole_turn = Some s /\ s.(gen).(g_pc) = G_done (TurnCompleted (TurnId_new 1)) /\
    s.(pipe).(queued) = [{| utterance_id := UtteranceId_new 1; utterance_text := lit "Hi." |}] /\
    s.(pipe).(enqueued) = [frame] /\
    s.(pipe).(events) =
      [ TurnStarted (TurnId_new 1); TranscriptFinal (TurnId_new 1) (lit "hello");
        QualityResolved decision;
        Timing (TurnId_new 1) FirstTextDelta 5; TextDelta (TurnId_new 1) (lit "**Hi.**"); SpeechStarted (TurnId_new 1);
        Timing (TurnId_new 1) FirstSynthesisRequest 6; Timing (TurnId_new 1) FirstPlayableAudio 7;
        Playback (TurnId_new 1) (GenerationId_new 1) Playback_Accepted; SpeechCompleted (TurnId_new 1) ].
Proof. eexists. split; [vm_compute; reflexivity|]. split_and!; vm_compute; reflexivity. Qed.

(** The same turn while it speaks, and one interrupted at once. *)
Example speaking_turn : exists s, run task (initial task) (opening ++ speaking) = Some s.
Proof. eexists. vm_compute. reflexivity. Qed.

Example cancelled_turn :
  exists s, run task (initial task) [L_interrupt; L_generation B_external A_done] = Some s /\
    s.(gen).(g_pc) = G_done (TurnCancelled (TurnId_new 1)).
Proof. eexists. split; vm_compute; reflexivity. Qed.

Lemma own_task : about_this_turn task.
Proof. by intros d [= <-]. Qed.

Lemma all_allowed (ls : list label) : Forall (fun _ => True) ls.
Proof. by apply Forall_true. Qed.

Lemma completed_reachable :
  exists s, reachable task (fun _ => True) s /\ s.(gen).(g_pc) = G_done (TurnCompleted (TurnId_new 1)).
Proof.
  destruct completed_turn as (s & E & C & _). exists s. split; [|exact C].
  exact (run_reachable task _ _ _ _ (reach_initial task _) (all_allowed _) E).
Qed.

Lemma speaking_reachable : exists s, reachable task (fun _ => True) s.
Proof.
  destruct speaking_turn as (s & E). exists s.
  exact (run_reachable task _ _ _ _ (reach_initial task _) (all_allowed _) E).
Qed.

Lemma cancelled_reachable :
  exists s, reachable task granted_label s /\
    s.(gen).(g_pc) = G_done (TurnCancelled (TurnId_new 1)).
Proof.
  destruct cancelled_turn as (s & E & C). exists s. split; [|exact C].
  eapply run_reachable; [apply reach_initial| |exact E]. repeat constructor; discriminate.
Qed.
End Sample.

(** ** The guarantees *)

(** The frames handed to the output for a list of utterances: for each in
    order, at least one, numbered from zero, all of this turn. *)
Definition frames_for (T : StreamingTurnTask) (us : list QueuedUtterance) (groups : list (list AudioFrame)) : Prop :=
  Forall2 (fun u fs => fs <> [] /\ frames_of T u 0 fs) us groups.

Definition one_format (fs : list AudioFrame) : Prop := exists format, Forall (fun f => f.(Audio.format) = format) fs.

Lemma one_format_of (fmt : option PcmFormat) fs : Forall (fun f => fmt = Some f.(Audio.format)) fs -> one_format fs.
Proof.
  intros H. destruct fmt as [x|].
  - exists x. eapply Forall_impl; [exact H|]. cbn. congruence.
  - destruct fs as [|f fs]; [|by inversion H]. exists {| sample_rate_hz := 1; channels := 1; sample_format := Signed16LittleEndian |}.
    constructor.
Qed.

(** C4. At every moment of every run of a streaming turn, whatever the model,
    the synthesizer, the output, the consumer and an interruption do: the text
    handed to the context is the concatenation of the published deltas, within
    64 KiB; the utterances sent to speech are numbered from one and are, in
    order, the spoken form of the segments that text was cut into, none skipped;
    the synthesizer was asked for a prefix of them, in order; every frame given
    to the output carries this turn and generation, belongs to those
    utterances in order, is numbered from zero without a gap within its
    utterance, and has one format throughout; the event channel holds at most
    32 events, all of this turn and none of them terminal. *)
Theorem streaming_turn_safe (T : StreamingTurnTask) (s : turn)
  (own : about_this_turn T) (reach : reachable T (fun _ => True) s) :
  let p := s.(pipe) in
  (p.(generated_text) = concat (text_deltas p.(events)) /\ blen p.(generated_text) <= 64 * 1024) /\
  (exists segs rest final said unsaid, concat segs ++ rest = p.(generated_text) /\
     utterances_of segs rest final = said ++ unsaid /\ p.(queued) = numbered (spoken_all said)) /\
  (exists finished_ unfinished groups fs asked, p.(queued) = finished_ ++ unfinished /\
     p.(requests) = map (request_of T) (finished_ ++ asked) /\ asked `prefix_of` unfinished /\
     p.(enqueued) = concat groups ++ fs /\ frames_for T finished_ groups /\
     (fs <> [] -> exists u later, unfinished = u :: later /\ frames_of T u 0 fs)) /\
  one_format p.(enqueued) /\
  p.(unread) + p.(reserved) <= 32 /\ Forall (own_event T) p.(events).
Proof.
  intros p. destruct (reachable_inv T _ _ own reach) as [Hs Hc [segs Ht] Hch _].
  split_and!.
  - apply Ht.
  - pose proof (tx_bytes _ _ _ Ht) as Hb. unfold DEFAULT_MAX_RESPONSE_BYTES in Hb. unfold p.
    destruct (g_pc (gen s)); cbn in Hb; try lia; pose proof (blen_nonneg (delta d)); lia.
  - destruct (queue_progress_weaken _ _ _ _ _ (tx_queue _ _ _ Ht)) as (final & said & unsaid & H1 & H2).
    exists segs, (buffer (assembler (gen s))), final, said, unsaid. split; [apply Ht|done].
  - destruct Hs as (finished_ & groups & cur & fs & asked & B). destruct B as [H1 H2 H3 H4 H5 H6 H7].
    exists finished_, (option_list cur ++ queue p), groups, fs, (if asked then option_list cur else []).
    split_and!; try done; [by destruct asked; [apply prefix_app_r|apply prefix_nil]|].
    intros Hf. destruct cur as [u|]; [|done]. by exists u, (queue p).
  - destruct Hs as (? & ? & ? & ? & ? & B). eapply one_format_of. apply B.
  - apply Hch.
  - apply Hch.
Qed.

Lemma streaming_turn_safe_witness :
  exists s, s.(gen).(g_pc) = G_done (TurnCompleted (TurnId_new 1)) /\
    s.(pipe).(unread) + s.(pipe).(reserved) <= 32 /\ Forall (own_event Sample.task) s.(pipe).(events).
Proof.
  destruct Sample.completed_reachable as (s & R & C). exists s. split; [exact C|].
  destruct (streaming_turn_safe Sample.task s Sample.own_task R) as (_ & _ & _ & _ & Hu & He). exact (conj Hu He).
Defined.

(** C7. A turn that reports completion has said everything: the whole text was
    cut into segments and a remainder, each utterance with anything to say was
    queued in its spoken form, the synthesizer was asked for each of them and
    gave at least one frame for each, and every frame it gave, in order, all in
    one format, was handed to the output, which answered every one of them
    with the acceptance of this generation, after which the worker ended. *)
Theorem completed_turn_spoke_everything (T : StreamingTurnTask) (ls : list label) (s : turn) t
  (own : about_this_turn T) (ran : run T (initial T) ls = Some s)
  (completed : s.(gen).(g_pc) = G_done (TurnCompleted t)) :
  let p := s.(pipe) in
  let receipts := observed T receipt_given (initial T) ls in
  s.(speech).(w_pc) = W_done (Ok Speech_Completed) /\
  (exists segs rest groups, concat segs ++ rest = concat (text_deltas p.(events)) /\
    Forall (fun seg => seg <> [] /\ blen seg <= 1024) segs /\
    p.(queued) = numbered (spoken_all (kept segs ++ remainder rest)) /\
    p.(requests) = map (request_of T) p.(queued) /\
    p.(enqueued) = concat groups /\ frames_for T p.(queued) groups /\ one_format p.(enqueued)) /\
  observed T synthesized (initial T) ls = p.(enqueued) /\
  length receipts = length p.(enqueued) /\ Forall (accepts T) receipts.
Proof.
  intros p receipts. pose proof (run_reachable T (fun _ => True) ls _ _ (reach_initial T _) (Forall_true _ _ (fun _ => I)) ran) as reach.
  destruct (reachable_inv T _ _ own reach) as [Hs Hc [segs Ht] Hch Hd]. specialize (Hd t completed). split; [done|]. split.
  - pose proof (tx_queue _ _ _ Ht) as Hq. rewrite completed in Hq. cbn in Hq.
    destruct Hs as (consumed & groups & cur & fs & asked & B). pose proof (bk_pc _ _ _ _ _ _ _ _ B) as Hpc.
    rewrite Hd in Hpc. cbn in Hpc. destruct Hpc as (-> & -> & ->).
    destruct (cr_completed _ _ _ Hc) as [_ Hempty]; [by rewrite Hd|]. destruct B as [H1 H2 H3 _ H5 H6 _]. cbn [option_list app] in *.
    rewrite Hempty, ?app_nil_r in *. unfold p. exists segs, (buffer (assembler (gen s))), groups.
    split_and!; [rewrite <- (tx_text _ _ _ Ht); apply Ht|apply Ht|done|by rewrite H1|done|unfold frames_for; by rewrite H1|by eapply one_format_of].
  - pose proof (run_output_books T ls _ _ [] [] own (initial_inv T) ran) as B. unfold output_books in B. rewrite Hd in B. cbn [app] in B.
    destruct B as (B1 & B2 & B3); [done|]. rewrite app_nil_r in B1. split_and!; [done| |done]. unfold p, receipts. lia.
Qed.

Lemma completed_turn_spoke_everything_witness :
  exists s, run Sample.task (initial Sample.task) Sample.whole_turn = Some s /\
    s.(gen).(g_pc) = G_done (TurnCompleted (TurnId_new 1)) /\
    observed Sample.task synthesized (initial Sample.task) Sample.whole_turn = s.(pipe).(enqueued) /\
    Forall (accepts Sample.task) (observed Sample.task receipt_given (initial Sample.task) Sample.whole_turn) /\
    length s.(pipe).(enqueued) = 1%nat.
Proof.
  destruct Sample.completed_turn as (s & E & C & _ & En & _). exists s. split; [exact E|]. split; [exact C|].
  destruct (completed_turn_spoke_everything Sample.task Sample.whole_turn s (TurnId_new 1) Sample.own_task E C)
    as (_ & _ & H1 & _ & H2).
  split; [exact H1|]. split; [exact H2|]. rewrite En. reflexivity.
Defined.

(** As long as nobody else takes the generation guard, a turn is reported
    as cancelled only if it was interrupted: failures of the model, of the
    synthesizer, of the output or of the consumer never end as a
    cancellation, although they cancel the work of the other task. *)
Theorem cancelled_only_if_interrupted (T : StreamingTurnTask) (s : turn) t
  (reach : reachable T granted_label s)
  (cancelled : s.(gen).(g_pc) = G_done (TurnCancelled t)) :
  s.(pipe).(external) = true.
Proof. apply (ca_cancels _ _ _ (reachable_cancel_inv T s reach)). by rewrite cancelled. Qed.

Lemma cancelled_only_if_interrupted_witness :
  exists s, s.(gen).(g_pc) = G_done (TurnCancelled (TurnId_new 1)) /\ s.(pipe).(external) = true.
Proof.
  destruct Sample.cancelled_reachable as (s & R & C). exists s.
  exact (conj C (cancelled_only_if_interrupted Sample.task s (TurnId_new 1) R C)).
Defined.

(** C24. An interruption takes effect. From the moment the speech worker has
    suspended with the interruption raised, no run whatsoever hands another
    frame to the audio output; and from every reachable state an interruption
    leads to the end of the turn by steps that need neither the consumer to
    read an event nor any adapter to produce anything more. *)
Theorem interruption_takes_effect (T : StreamingTurnTask) (s : turn)
  (own : about_this_turn T) (reach : reachable T (fun _ => True) s) :
  (s.(pipe).(external) = true -> s.(speech).(w_view).(f_external) = true ->
   forall ls s', run T s ls = Some s' -> s'.(pipe).(enqueued) = s.(pipe).(enqueued)) /\
  exists ls s', Forall quiet ls /\ run T s (L_interrupt :: ls) = Some s' /\ ended s'.(gen).(g_pc) = true.
Proof.
  split.
  - intros He Hv ls s' H. by apply (saw_run T ls s s' (conj He Hv)).
  - destruct (interrupted_finishes T {| pipe := raise_external s.(pipe); speech := s.(speech); gen := s.(gen) |})
      as (ls & s' & Hq & Hr & Hend); [|done|by exists ls, s'].
    destruct (ti_cross _ _ (reachable_inv T _ _ own reach)). by split.
Qed.

Lemma interruption_takes_effect_witness :
  exists s, reachable Sample.task (fun _ => True) s /\
    exists ls s', Forall quiet ls /\ run Sample.task s (L_interrupt :: ls) = Some s' /\ ended s'.(gen).(g_pc) = true.
Proof.
  destruct Sample.speaking_reachable as (s & R). exists s. split; [exact R|].
  exact (proj2 (interruption_takes_effect Sample.task s Sample.own_task R)).
Defined.
