(* ===== verification/TurnRuntime.v ===== *)
(** * Starting, interrupting and ending turns

    [StreamingTurnRuntime] of [crates/runtime/src/streaming_turn.rs] and
    [GenerationGuard] of [generation.rs]. A turn takes three things in order:
    the conversation ([ConversationContext]), the generation guard and the slot
    of the active generation. Its task gives them back before the terminal
    event is published; [abort_turn] gives them back when the task was killed
    wherever it was.

    Any number of calls run at once. A call is suspended at the lock it waits
    for next and a step is one critical section, so every interleaving of calls,
    tasks, interruptions and aborts is a sequence of labels. While its turn runs,
    a call holds the transition system of [StreamingTurn], whose requests for a
    permit are answered by the guard.

    The lock of the guard is held across awaits only by a task of the turn the
    guard names, so waiting for it adds no behaviour and is not modelled. A call
    of [start_turn] or [abort_turn] that has begun is polled to its end, and
    [abort_turn] is given the identity and the event stream of one turn. *)

From stdpp Require Import gmap.
From S2P Require Import Prelude RustStr Errors ProtocolQuality Quality Privacy MemoryProtocol MemoryRetrieval LanguageInput Context UtteranceAssembler SpeechText TurnEvents StreamingTurn StreamingTurnProofs TurnGuarantees.

(** ** The generation guard *)

Record GenerationIdentity : Type := { guard_turn_id : TurnId; guard_generation_id : GenerationId }.

#[export] Instance GenerationIdentity_eq_dec : EqDecision GenerationIdentity.
Proof. solve_decision. Defined.

Definition GenerationGuard : Type := option GenerationIdentity.

Definition activate (active : GenerationGuard) (t : TurnId) (g : GenerationId) : bool * GenerationGuard :=
  if is_some active then (false, active)
  else (true, Some {| guard_turn_id := t; guard_generation_id := g |}).

Definition permits (active : GenerationGuard) (t : TurnId) (g : GenerationId) : bool :=
  bool_decide (active = Some {| guard_turn_id := t; guard_generation_id := g |}).

Definition deactivate (active : GenerationGuard) (t : TurnId) (g : GenerationId) : GenerationGuard :=
  if permits active t g then None else active.

(** ** The slot of the active generation *)

Record ActiveGeneration : Type := {
  slot_identity : ConversationTurnIdentity;
  slot_turn_id : TurnId;
  slot_generation_id : GenerationId;
  slot_session_id : option SessionId;
}.

Definition slot_is (slot : option ActiveGeneration) (t : TurnId) (g : GenerationId) : bool :=
  is_some_and slot (fun a => bool_decide (a.(slot_turn_id) = t) && bool_decide (a.(slot_generation_id) = g)).

Definition clear_slot (slot : option ActiveGeneration) (t : TurnId) (g : GenerationId) : option ActiveGeneration :=
  if slot_is slot t g then None else slot.

(** [interrupt] up to the cancellation of the tokens. *)
Definition interrupt_lookup (slot : option ActiveGeneration) (t : TurnId) (g : GenerationId) : rresult ActiveGeneration :=
  match slot with
  | Some a =>
      if slot_is slot t g then Ok a
      else Err (runtime_error (lit "turn " ++ TurnId_display a.(slot_turn_id) ++ lit " generation " ++
                 GenerationId_display a.(slot_generation_id) ++ lit " is active, not turn " ++ TurnId_display t ++
                 lit " generation " ++ GenerationId_display g))
  | None => Err (runtime_error (lit "there is no active streaming generation"))
  end.

(** ** Outcomes of the conversation, one critical section at a time *)

Inductive turn_outcome : Type :=
| Complete (assistant : rstr)
| Discard (interrupted : bool).

Inductive outcome_pc : Type :=
| O_begin
| O_quality (reclaimed : bool)
| O_finish (r : rresult unit).

Inductive outcome_next : Type :=
| O_at (o : outcome_pc)
| O_returned (r : rresult unit).

(** ** Calls *)

(** A started turn: its task and the state of its tasks and channels. *)
Record started : Type := { task : StreamingTurnTask; state : turn }.

(** [abort_turn] after the tasks are gone. *)
Inductive abort_pc : Type :=
| A_lookup                                          (* [self.active.lock()] *)
| A_check (found : option ConversationTurnIdentity) (* [context.active_turn()] *)
| A_discard (o : outcome_pc)                        (* [context.discard_turn(identity, true)] *)
| A_deactivate (r : rresult unit)
| A_clear (r : rresult unit)
| A_aborted (r : rresult unit)                      (* returned *)
| A_task_failed (e : RuntimeError).                 (* returned: the task had panicked *)

Inductive phase : Type :=
| P_running                                         (* [run_streaming_turn] *)
| P_outcome (t : RuntimeEvent) (k : turn_outcome) (o : outcome_pc)
| P_text (t : RuntimeEvent)                         (* [event_sender.send(TextCompleted)] *)
| P_deactivate (t : RuntimeEvent)
| P_clear (t : RuntimeEvent)
| P_publish (t : RuntimeEvent)                      (* [terminal_sender.send] *)
| P_ended (t : RuntimeEvent)
| P_panicked
| P_reaped (a : abort_pc).

Inductive call : Type :=
| C_resolve (source : ConversationTurnSource) (transcript : rstr)   (* [quality.resolve_turn] *)
| C_release (e : RuntimeError)                                      (* [release_turn] *)
| C_activate (source : ConversationTurnSource) (prepared : PreparedConversationTurn)
| C_slot (source : ConversationTurnSource) (input : LanguageModelInput)
| C_undo (activated : bool) (o : outcome_pc) (e : RuntimeError)     (* [discard_turn(identity, false)] *)
| C_undo_deactivate (e : RuntimeError)
| C_failed (e : RuntimeError)                                       (* [start_turn] returned *)
| C_turn (r : started) (ph : phase).

Section Runtime.
Context `{U : UnicodeTables} {P : Type}.

Definition outcome_step (x : ConversationContext P) (i : ConversationTurnIdentity) (k : turn_outcome) (o : outcome_pc)
  : exec (outcome_next * ConversationContext P) :=
  match o with
  | O_begin =>
      let '(r, l) := begin_outcome x.(lifecycle) i (match k with Complete _ => false | Discard _ => true end) in
      Val (match r with Ok reclaimed => O_at (O_quality reclaimed) | Err e => O_returned (Err e) end, with_lifecycle x l)
  | O_quality reclaimed =>
      match k with
      | Complete assistant =>
          let! '(r, q) := complete_turn x.(quality) i.(identity_turn_id) assistant in
          Val (O_at (O_finish r), with_quality x q)
      | Discard interrupted =>
          let '(r, q) := if interrupted : bool then interrupt_turn x.(quality) i.(identity_turn_id)
                         else discard_turn x.(quality) i.(identity_turn_id) in
          Val (O_at (O_finish (if reclaimed then match r with Ok _ => r | Err _ => Ok tt end else r)), with_quality x q)
      end
  | O_finish r =>
      let '(r, l) := finish_outcome x.(lifecycle) i r in
      Val (O_returned r, with_lifecycle x l)
  end.

(** What the calls share. *)
Record shared : Type := { ctx : ConversationContext P; guard : GenerationGuard; slot : option ActiveGeneration }.

Definition with_ctx (h : shared) (x : ConversationContext P) : shared :=
  {| ctx := x; guard := h.(guard); slot := h.(slot) |}.
Definition with_guard (h : shared) (g : GenerationGuard) : shared :=
  {| ctx := h.(ctx); guard := g; slot := h.(slot) |}.
Definition with_slot (h : shared) (s : option ActiveGeneration) : shared :=
  {| ctx := h.(ctx); guard := h.(guard); slot := s |}.

Definition still_active : RuntimeError := runtime_error (lit "a streaming generation is still active").

(** The event the turn will end with and what to do to the conversation. *)
Definition decide_outcome (t : TurnId) (interrupted : bool) (terminal : RuntimeEvent) (text : rstr)
  : RuntimeEvent * rresult turn_outcome :=
  let terminal := if interrupted then TurnCancelled t else terminal in
  (terminal,
   match terminal with
   | TurnCompleted _ => Ok (if is_blank text then Discard false else Complete text)
   | TurnCancelled _ => Ok (Discard true)
   | TurnFailed _ _ => Ok (Discard false)
   | _ => Err (runtime_error (lit "streaming turn produced a nonterminal result"))
   end).

(** After the conversation accepted or refused the outcome. *)
Definition settled (t : TurnId) (terminal : RuntimeEvent) (r : rresult unit) : phase :=
  match r with
  | Err e => P_deactivate (TurnFailed t e)
  | Ok _ => match terminal with TurnCompleted _ => P_text terminal | _ => P_deactivate terminal end
  end.

Definition with_pipe (r : started) (p : pipeline) : started :=
  {| task := r.(task); state := {| pipe := p; speech := r.(state).(speech); gen := r.(state).(gen) |} |}.

(** The task of a turn, between two critical sections. *)
Definition turn_step (h : shared) (i : ConversationTurnIdentity) (r : started) (ph : phase) : option (shared * call) :=
  let t := i.(identity_turn_id) in
  let g := i.(identity_generation_id) in
  let p := r.(state).(pipe) in
  match ph with
  | P_running =>
      match r.(state).(gen).(g_pc) with
      | G_done terminal =>
          match decide_outcome t p.(external) terminal p.(generated_text) with
          | (terminal, Ok k) => Some (h, C_turn r (P_outcome terminal k O_begin))
          | (terminal, Err e) => Some (h, C_turn r (settled t terminal (Err e)))
          end
      | G_panicked => Some (h, C_turn r P_panicked)
      | _ => None
      end
  | P_outcome terminal k o =>
      match outcome_step h.(ctx) i k o with
      | Val (O_at o, x) => Some (with_ctx h x, C_turn r (P_outcome terminal k o))
      | Val (O_returned res, x) => Some (with_ctx h x, C_turn r (settled t terminal res))
      | _ => Some (h, C_turn r P_panicked)
      end
  | P_text terminal =>
      if p.(closed) then Some (h, C_turn r (P_deactivate terminal))
      else if has_room p 1 then
        Some (h, C_turn (with_pipe r (channel p 1 0 [TextCompleted t p.(generated_text)])) (P_deactivate terminal))
      else None
  | P_deactivate terminal => Some (with_guard h (deactivate h.(guard) t g), C_turn r (P_clear terminal))
  | P_clear terminal => Some (with_slot h (clear_slot h.(slot) t g), C_turn r (P_publish terminal))
  | P_publish terminal => Some (h, C_turn r (P_ended terminal))
  | P_ended _ | P_panicked => None
  | P_reaped a =>
      let next a := C_turn r (P_reaped a) in
      match a with
      | A_lookup =>
          Some (h, next (A_check (if slot_is h.(slot) t g then slot_identity <$> h.(slot) else None)))
      | A_check found =>
          match found with
          | Some identity =>
              Some (h, next (if bool_decide (active_turn h.(ctx).(lifecycle) = Some identity) then A_discard O_begin
                             else A_deactivate (Ok tt)))
          | None => Some (h, next (A_deactivate (Ok tt)))
          end
      | A_discard o =>
          match outcome_step h.(ctx) i (Discard true) o with
          | Val (O_at o, x) => Some (with_ctx h x, next (A_discard o))
          | Val (O_returned res, x) => Some (with_ctx h x, next (A_deactivate res))
          | _ => None
          end
      | A_deactivate res => Some (with_guard h (deactivate h.(guard) t g), next (A_clear res))
      | A_clear res => Some (with_slot h (clear_slot h.(slot) t g), next (A_aborted res))
      | A_aborted _ | A_task_failed _ => None
      end
  end.

(** [start_turn] after the turn is reserved, and the task it spawns. The
    receiver of the events is still in scope when [TurnStarted] is sent to the
    empty channel, so that send neither waits nor fails. *)
Definition call_step (h : shared) (i : ConversationTurnIdentity) (c : call) : option (shared * call) :=
  let t := i.(identity_turn_id) in
  let g := i.(identity_generation_id) in
  match c with
  | C_resolve source transcript =>
      let '(resolved, q) := resolve_turn h.(ctx).(quality) t transcript None in
      let h := with_ctx h (with_quality h.(ctx) q) in
      match resolved with
      | Ok (Some resolved) =>
          Some (h, C_activate source {| prepared_identity := i; prepared_transcript := transcript; prepared_resolved := resolved |})
      | Ok None => Some (h, C_release (runtime_error (lit "a conversation turn transcript cannot be empty")))
      | Err e => Some (h, C_release e)
      end
  | C_release e => Some (with_ctx h (with_lifecycle h.(ctx) (release_turn h.(ctx).(lifecycle) i)), C_failed e)
  | C_activate source prepared =>
      match activate h.(guard) t g with
      | (false, _) => Some (h, C_undo false O_begin still_active)
      | (true, guard) =>
          match prepared_input prepared with
          | Ok input => Some (with_guard h guard, C_slot source input)
          | Err e => Some (with_guard h guard, C_undo true O_begin (adapter_runtime_error Stage_LanguageModel e))
          end
      end
  | C_slot source input =>
      if is_some h.(slot) then Some (h, C_undo true O_begin still_active)
      else
        let T := {| task_turn_id := t; task_generation_id := g; task_language_input := input;
                    task_has_memory := is_some h.(ctx).(memory) |} in
        Some (with_slot h (Some {| slot_identity := i; slot_turn_id := t; slot_generation_id := g;
                                   slot_session_id := match source with Text => None | Voice s => Some s end |}),
              C_turn {| task := T; state := initial T |} P_running)
  | C_undo activated o e =>
      match outcome_step h.(ctx) i (Discard false) o with
      | Val (O_at o, x) => Some (with_ctx h x, C_undo activated o e)
      | Val (O_returned _, x) => Some (with_ctx h x, if activated then C_undo_deactivate e else C_failed e)
      | _ => None
      end
  | C_undo_deactivate e => Some (with_guard h (deactivate h.(guard) t g), C_failed e)
  | C_failed _ => None
  | C_turn r ph => turn_step h i r ph
  end.

(** ** The runtime *)

Record world : Type := {
  share : shared;
  calls : gmap Z call;            (* by the number of the turn *)
  interrupting : gset Z;          (* calls of [interrupt] past the slot *)
  aborting : gset Z;              (* calls of [abort_turn] *)
}.

Inductive runtime_label : Type :=
| R_start (source : ConversationTurnSource) (transcript : rstr)
| R_step (n : Z)
| R_turn (n : Z) (l : label)                    (* a task of the turn, or the consumer *)
| R_interrupt (t : TurnId) (g : GenerationId)
| R_cancel (n : Z)                              (* [external_interruption.cancel()] *)
| R_cancel_work (n : Z)                         (* [work_cancellation.cancel()] *)
| R_abort (n : Z)
| R_abort_worker (n : Z)                        (* the worker is dropped *)
| R_reap (n : Z)                                (* every task of the turn is gone *)
| R_persona (persona : PersonaProfile) (mode : ConversationMode)
| R_seed (operation : rstr) (exchanges : list ConversationContextExchange).

Definition set_call (w : world) (h : shared) (n : Z) (c : call) : world :=
  {| share := h; calls := <[n := c]> w.(calls); interrupting := w.(interrupting); aborting := w.(aborting) |}.

Definition with_share (w : world) (h : shared) : world :=
  {| share := h; calls := w.(calls); interrupting := w.(interrupting); aborting := w.(aborting) |}.

(** A permit is answered by the guard. *)
Definition answers (guard : GenerationGuard) (T : StreamingTurnTask) (l : label) : bool :=
  match l with
  | L_generation _ (A_permit b) | L_speech _ (A_permit b) =>
      Bool.eqb b (permits guard T.(task_turn_id) T.(task_generation_id))
  | L_interrupt | L_interrupt_work => false
  | _ => true
  end.

Definition consumer (l : label) : bool := match l with L_read | L_close => true | _ => false end.

Definition running (ph : phase) : bool := match ph with P_running => true | _ => false end.

(** The worker's future is dropped: its handle reports an error and its permit
    is free. *)
Definition drop_worker (s : turn) : turn :=
  match s.(speech).(w_pc) with
  | W_idle | W_done _ => s
  | _ => {| pipe := release s.(pipe) Speech; speech := w_goto s.(speech) (W_done (Err Task_panicked)); gen := s.(gen) |}
  end.

Definition reap (ph : phase) : option phase :=
  match ph with
  | P_reaped _ => None
  | P_panicked => Some (P_reaped (A_task_failed (runtime_error (lit "streaming turn task failed during abort"))))
  | _ => Some (P_reaped A_lookup)
  end.

Definition turn_of (w : world) (n : Z) : option (started * phase) :=
  match w.(calls) !! n with Some (C_turn r ph) => Some (r, ph) | _ => None end.

Definition with_state (r : started) (s : turn) : started := {| task := r.(task); state := s |}.

Definition runtime_step (w : world) (l : runtime_label) : option world :=
  let h := w.(share) in
  match l with
  | R_start source transcript =>
      match reserve_turn h.(ctx).(lifecycle) source with
      | (Err _, _) => None
      | (Ok i, l) =>
          Some (set_call w (with_ctx h (with_lifecycle h.(ctx) l)) (TurnId_get i.(identity_turn_id))
                  (C_resolve source transcript))
      end
  | R_step n =>
      c ← w.(calls) !! n;
      '(h, c) ← call_step h (nth_identity n) c;
      Some (set_call w h n c)
  | R_turn n l =>
      '(r, ph) ← turn_of w n;
      if (running ph && answers h.(guard) r.(task) l) || consumer l then
        s ← step r.(task) r.(state) l;
        Some (set_call w h n (C_turn (with_state r s) ph))
      else None
  | R_interrupt t g =>
      match interrupt_lookup h.(slot) t g with
      | Ok a => Some {| share := h; calls := w.(calls);
                        interrupting := {[TurnId_get a.(slot_turn_id)]} ∪ w.(interrupting); aborting := w.(aborting) |}
      | Err _ => None
      end
  | R_cancel n =>
      if bool_decide (n ∈ w.(interrupting)) then
        '(r, ph) ← turn_of w n;
        s ← step r.(task) r.(state) L_interrupt;
        Some (set_call w h n (C_turn (with_state r s) ph))
      else None
  | R_cancel_work n =>
      if bool_decide (n ∈ w.(interrupting)) then
        '(r, ph) ← turn_of w n;
        s ← step r.(task) r.(state) L_interrupt_work;
        Some (set_call w h n (C_turn (with_state r s) ph))
      else None
  | R_abort n =>
      '(_, _) ← turn_of w n;
      Some {| share := h; calls := w.(calls); interrupting := w.(interrupting); aborting := {[n]} ∪ w.(aborting) |}
  | R_abort_worker n =>
      if bool_decide (n ∈ w.(aborting)) then
        '(r, ph) ← turn_of w n;
        Some (set_call w h n (C_turn (with_state r (drop_worker r.(state))) ph))
      else None
  | R_reap n =>
      if bool_decide (n ∈ w.(aborting)) then
        '(r, ph) ← turn_of w n;
        ph ← reap ph;
        Some (set_call w h n (C_turn r ph))
      else None
  | R_persona persona mode =>
      if (0 <=? PersonaLevel_get persona.(verbosity)) && (PersonaLevel_get persona.(verbosity) <=? u8_max) then
        Some (with_share w (with_ctx h (snd (apply_persona h.(ctx) persona mode))))
      else None
  | R_seed operation exchanges =>
      Some (with_share w (with_ctx h (snd (seed_completed_history h.(ctx) operation exchanges))))
  end.

Fixpoint runtime_run (w : world) (ls : list runtime_label) : option world :=
  match ls with
  | [] => Some w
  | l :: ls => match runtime_step w l with Some w => runtime_run w ls | None => None end
  end.

(** [StreamingTurnRuntime::new] over a context. *)
Definition runtime_new (x : ConversationContext P) : world :=
  {| share := {| ctx := x; guard := None; slot := None |}; calls := ∅; interrupting := ∅; aborting := ∅ |}.

End Runtime.
Arguments shared P : clear implicits.
Arguments world P : clear implicits.
