(* ===== verification/TurnRuntimeProofs.v ===== *)
(** * The invariant of the turn runtime

    What every call holds at each point of its way: the conversation, with the
    claim on its outcome and the pending quality turn; the generation guard; the
    slot of the active generation. The proofs follow the ownership: a step of one
    call changes only what that call holds. *)

From stdpp Require Import gmap.
From S2P Require Import Prelude RustStr Errors ProtocolQuality Quality Privacy MemoryProtocol MemoryRetrieval LanguageInput Context UtteranceAssembler SpeechText TurnEvents StreamingTurn StreamingTurnProofs TurnGuarantees TurnRuntime.

(** ** How the tasks of a turn end *)

(** The event a generation task that is ending will end with. *)
Definition g_terminal (pc : generation_pc) : option RuntimeEvent :=
  match pc with
  | G_memory_cancelled t | G_stop t _ | G_clean t | G_join t | G_done t => Some t
  | _ => None
  end.

Definition own_terminal (T : StreamingTurnTask) (pc : generation_pc) : Prop :=
  forall t, g_terminal pc = Some t -> is_terminal t = true /\ event_turn_id t = T.(task_turn_id).

Lemma terminal_from_speech_own t o : is_terminal (terminal_from_speech t o) = true /\ event_turn_id (terminal_from_speech t o) = t.
Proof. by destruct o as [[]|]. Qed.

Lemma generation_step_own_terminal T p w g now b a p' g' :
  own_terminal T g.(g_pc) -> generation_step T p w g now b a = Some (p', g') -> own_terminal T g'.(g_pc).
Proof.
  intros Ho H. generation_cases H. all: intros terminal Ht; cbn in Ht; simplify_eq; try (split; done).
  all: try apply terminal_from_speech_own.
  all: apply Ho; cbn; first [done|match goal with E : g_pc _ = _ |- _ => rewrite E in Ht; by cbn in Ht end].
Qed.

Lemma step_own_terminal T s l s' :
  own_terminal T s.(gen).(g_pc) -> step T s l = Some s' -> own_terminal T s'.(gen).(g_pc).
Proof.
  intros Ho H. unfold step in H. destruct l as [b a|b a| | | |].
  - destruct (generation_step _ _ _ _ _ _ _) as [[p g]|] eqn:G; [|done]. simplify_eq/=. by eapply generation_step_own_terminal.
  - destruct (worker_step _ _ _ _ _ _) as [[p w]|]; [|done]. by simplify_eq/=.
  - by simplify_eq/=.
  - destruct (external _); [|done]. by simplify_eq/=.
  - by simplify_eq/=.
  - destruct (0 <? _); [|done]. by simplify_eq/=.
Qed.

(** The task a turn was started with. *)
Record turn_ok (n : Z) (r : started) : Prop := {
  to_turn : r.(task).(task_turn_id) = TurnId_new n;
  to_generation : r.(task).(task_generation_id) = GenerationId_new n;
  to_about : about_this_turn r.(task);
  to_terminal : own_terminal r.(task) r.(state).(gen).(g_pc);
}.

(** ** What a call holds *)

(** The conversation as turn [n] sees it: not its own, or its own with the
    outcome claimed or not and the quality turn pending or not. *)
Definition ctx_at {P} (x : ConversationContext P) (n : Z) (v : option (bool * bool)) : Prop :=
  match v with
  | None => forall a, x.(lifecycle).(active) = Some a -> a.(active_identity) <> nth_identity n
  | Some (claimed, pending) =>
      (exists src, x.(lifecycle).(active) =
         Some {| active_identity := nth_identity n; active_source := src; finalizing := claimed |}) /\
      if pending : bool then
        exists u, x.(quality).(pending_turn) = Some {| pending_turn_id := TurnId_new n; pending_user := u |}
      else x.(quality).(pending_turn) = None
  end.

(** The views a discard can start from. *)
Definition discardable {P} (x : ConversationContext P) (n : Z) : Prop :=
  exists claimed pending, ctx_at x n (Some (claimed, pending)) /\ (claimed = false -> pending = true).

Definition outcome_ok {P} (x : ConversationContext P) (n : Z) (k : turn_outcome) (o : outcome_pc) : Prop :=
  match o with
  | O_begin => ctx_at x n (Some (false, true))
  | O_quality reclaimed => reclaimed = false /\ ctx_at x n (Some (true, true))
  | O_finish r => ctx_at x n (Some (true, false)) /\ match k with Discard _ => r = Ok tt | Complete _ => True end
  end.

Definition reclaim_ok {P} (x : ConversationContext P) (n : Z) (o : outcome_pc) : Prop :=
  match o with
  | O_begin => discardable x n
  | O_quality reclaimed => exists pending, ctx_at x n (Some (true, pending)) /\ (reclaimed = false -> pending = true)
  | O_finish r => ctx_at x n (Some (true, false)) /\ r = Ok tt
  end.

Definition ctx_ok {P} (x : ConversationContext P) (n : Z) (c : call) : Prop :=
  match c with
  | C_resolve _ _ | C_release _ => ctx_at x n (Some (false, false))
  | C_activate _ prepared =>
      ctx_at x n (Some (false, true)) /\
      exists i, prepared_input prepared = Ok i /\
        forall d, i.(quality_decision) = Some d -> d.(ProtocolQuality.turn_id) = TurnId_new n
  | C_slot _ i =>
      ctx_at x n (Some (false, true)) /\
      forall d, i.(quality_decision) = Some d -> d.(ProtocolQuality.turn_id) = TurnId_new n
  | C_undo _ o _ => outcome_ok x n (Discard false) o
  | C_undo_deactivate _ | C_failed _ => ctx_at x n None
  | C_turn _ ph =>
      match ph with
      | P_running | P_panicked | P_reaped (A_task_failed _) => ctx_at x n (Some (false, true))
      | P_outcome _ k o => outcome_ok x n k o
      | P_text _ | P_deactivate _ | P_clear _ | P_publish _ | P_ended _ => ctx_at x n None
      | P_reaped A_lookup => ctx_at x n None \/ discardable x n
      | P_reaped (A_check found) =>
          (found = None \/ found = Some (nth_identity n)) /\
          (ctx_at x n None \/ discardable x n /\ found = Some (nth_identity n))
      | P_reaped (A_discard o) => reclaim_ok x n o
      | P_reaped (A_deactivate r) | P_reaped (A_clear r) | P_reaped (A_aborted r) => ctx_at x n None /\ r = Ok tt
      end
  end.

(** Whether a call holds the guard and the slot; [None] where it may or may not. *)
Definition holds_guard (c : call) : option bool :=
  match c with
  | C_resolve _ _ | C_release _ | C_activate _ _ | C_undo false _ _ | C_failed _ => Some false
  | C_slot _ _ | C_undo true _ _ | C_undo_deactivate _ => Some true
  | C_turn _ ph =>
      match ph with
      | P_running | P_outcome _ _ _ | P_text _ | P_deactivate _ | P_panicked | P_reaped (A_task_failed _) => Some true
      | P_clear _ | P_publish _ | P_ended _ | P_reaped (A_clear _) | P_reaped (A_aborted _) => Some false
      | P_reaped _ => None
      end
  end.

Definition holds_slot (c : call) : option bool :=
  match c with
  | C_turn _ ph =>
      match ph with
      | P_running | P_outcome _ _ _ | P_text _ | P_deactivate _ | P_clear _ | P_panicked | P_reaped (A_task_failed _) => Some true
      | P_publish _ | P_ended _ | P_reaped (A_aborted _) => Some false
      | P_reaped _ => None
      end
  | _ => Some false
  end.

Definition guard_has (guard : GenerationGuard) (n : Z) : bool := permits guard (TurnId_new n) (GenerationId_new n).
Definition slot_has (slot : option ActiveGeneration) (n : Z) : bool := slot_is slot (TurnId_new n) (GenerationId_new n).

Definition agrees (has : bool) (needs : option bool) : Prop := match needs with Some b => has = b | None => True end.

(** A call that waits to look into the slot while its conversation is active
    will find its turn there. *)
Definition lookup_ok {P} (h : shared P) (n : Z) (c : call) : Prop :=
  match c with
  | C_turn _ (P_reaped A_lookup) => ctx_at h.(ctx) n None \/ slot_has h.(slot) n = true
  | _ => True
  end.

Record call_ok {P : Type} (h : shared P) (n : Z) (c : call) : Prop := {
  co_ctx : ctx_ok h.(ctx) n c;
  co_guard : agrees (guard_has h.(guard) n) (holds_guard c);
  co_slot : agrees (slot_has h.(slot) n) (holds_slot c);
  co_lookup : lookup_ok h n c;
  co_turn : match c with C_turn r _ => turn_ok n r | _ => True end;
}.

(** ** The frame of a step *)

Lemma nth_identity_inj n m : nth_identity n = nth_identity m -> n = m.
Proof. by intros [= ->]. Qed.

Lemma guard_has_spec guard n :
  guard_has guard n = true <-> guard = Some {| guard_turn_id := TurnId_new n; guard_generation_id := GenerationId_new n |}.
Proof. unfold guard_has, permits. by rewrite bool_decide_eq_true. Qed.

Lemma slot_has_spec slot n :
  slot_has slot n = true <->
  exists a, slot = Some a /\ a.(slot_turn_id) = TurnId_new n /\ a.(slot_generation_id) = GenerationId_new n.
Proof.
  unfold slot_has, slot_is. destruct slot as [a|]; cbn; [|naive_solver].
  rewrite andb_true_iff, !bool_decide_eq_true. naive_solver.
Qed.

Lemma guard_has_unique guard n m : guard_has guard n = true -> guard_has guard m = true -> n = m.
Proof. rewrite !guard_has_spec. congruence. Qed.

Lemma slot_has_unique slot n m : slot_has slot n = true -> slot_has slot m = true -> n = m.
Proof. rewrite !slot_has_spec. intros (a & -> & E & _) (b & [= <-] & E' & _). congruence. Qed.

(** A critical section of turn [n] on the conversation. *)
Definition own_change {P} (n : Z) (x x' : ConversationContext P) : Prop :=
  x'.(lifecycle).(sequence) = x.(lifecycle).(sequence) /\
  (x'.(lifecycle).(active) = x.(lifecycle).(active) /\ x'.(quality).(pending_turn) = x.(quality).(pending_turn) \/
   (exists a, x.(lifecycle).(active) = Some a /\ a.(active_identity) = nth_identity n) /\
   (forall a, x'.(lifecycle).(active) = Some a -> a.(active_identity) = nth_identity n)).

Lemma ctx_at_other {P} (x : ConversationContext P) n m v a :
  x.(lifecycle).(active) = Some a -> a.(active_identity) = nth_identity n -> m <> n -> ctx_at x m v -> v = None.
Proof.
  intros Ha Hi Hm. destruct v as [[c p]|]; [|done]. intros [[src E] _]. rewrite Ha in E. by simplify_eq/=.
Qed.

Lemma ctx_at_frame {P} (x x' : ConversationContext P) n m v :
  own_change n x x' -> m <> n -> ctx_at x m v -> ctx_at x' m v.
Proof.
  intros [_ [[Ha Hp]|[(a & Ha & Hi) Hn]]] Hm H.
  - unfold ctx_at in *. by rewrite Ha, Hp.
  - pose proof (ctx_at_other _ _ _ _ _ Ha Hi Hm H) as ->. intros b Hb E. apply Hn in Hb.
    rewrite Hb in E. by apply nth_identity_inj in E.
Qed.

Lemma ctx_ok_mono {P} (x x' : ConversationContext P) m c :
  (forall v, ctx_at x m v -> ctx_at x' m v) -> ctx_ok x m c -> ctx_ok x' m c.
Proof.
  intros F.
  assert (D : discardable x m -> discardable x' m) by (intros (? & ? & H & ?); do 2 eexists; split; [by apply F|done]).
  assert (O : forall k o, outcome_ok x m k o -> outcome_ok x' m k o).
  { intros k [| |]; unfold outcome_ok; [apply F|intros []; auto..]. }
  assert (R : forall o, reclaim_ok x m o -> reclaim_ok x' m o).
  { intros [| |]; unfold reclaim_ok; [done|intros (pending & ? & ?); exists pending; auto|intros []; auto]. }
  destruct c as [| | | | | | |r [| | | | | | | |[]]]; unfold ctx_ok; try apply F; try apply O; try apply R;
    try (intros []; auto; fail).
  intros [? [?|[]]]; auto.
Qed.

(** ** The critical sections of an outcome *)

Section Steps.
Context `{U : UnicodeTables} {P : Type}.
Implicit Types (x : ConversationContext P) (h : shared P) (w : world P).

(** The conversation alone. *)
Record ctx_inv (x : ConversationContext P) : Prop := {
  ci_lifecycle : lifecycle_inv x.(lifecycle);
  ci_quality : wf x.(quality);
  ci_idle : x.(lifecycle).(active) = None -> x.(quality).(pending_turn) = None;
}.

(** The conversation and the locks, whoever holds them. *)
Record shared_ok (h : shared P) : Prop := {
  so_ctx : ctx_inv h.(ctx);
  so_guard : forall i, h.(guard) = Some i -> exists n, guard_has h.(guard) n = true;
  so_slot : forall a, h.(slot) = Some a ->
    exists n, slot_has h.(slot) n = true /\ a.(slot_identity) = nth_identity n;
}.

Lemma claim_inv x a b :
  ctx_inv x -> x.(lifecycle).(active) = Some a -> b.(active_identity) = a.(active_identity) ->
  ctx_inv (with_lifecycle x (set_active x.(lifecycle) (Some b))).
Proof.
  intros [[Hs Ha] Hq Hi] E Hb. split; [|done|done]. split; [done|]. intros c [= <-]. rewrite Hb. by apply Ha.
Qed.

Lemma free_inv x :
  ctx_inv x -> x.(quality).(pending_turn) = None -> ctx_inv (with_lifecycle x (set_active x.(lifecycle) None)).
Proof. intros [Hl Hq Hi] Hp. split; [by apply lifecycle_inv_clear|done|done]. Qed.

Lemma begin_outcome_at x n reclaim claimed pending :
  ctx_inv x -> ctx_at x n (Some (claimed, pending)) -> (claimed = true -> reclaim = true) ->
  exists l, begin_outcome x.(lifecycle) (nth_identity n) reclaim = (Ok claimed, l) /\
    ctx_at (with_lifecycle x l) n (Some (true, pending)) /\ own_change n x (with_lifecycle x l) /\
    ctx_inv (with_lifecycle x l).
Proof.
  intros Hx [[src E] Hp] Hc.
  exists (set_active x.(lifecycle) (Some {| active_identity := nth_identity n; active_source := src; finalizing := true |})).
  split.
  { unfold begin_outcome. rewrite E, bool_decide_eq_true_2 by done. cbn.
    destruct claimed; cbn; [|done]. rewrite Hc by done. f_equal. destruct (lifecycle x). cbn in *. by subst. }
  split; [by split; [eexists|]|]. split; [|by eapply claim_inv].
  split; [done|]. right. split; [by eexists|]. by intros a [= <-].
Qed.

Lemma finish_outcome_at x n r :
  ctx_inv x -> ctx_at x n (Some (true, false)) ->
  exists l, finish_outcome x.(lifecycle) (nth_identity n) r = (r, l) /\
    ctx_at (with_lifecycle x l) n None /\ own_change n x (with_lifecycle x l) /\ ctx_inv (with_lifecycle x l).
Proof.
  intros Hx [[src E] Hp]. exists (set_active x.(lifecycle) None). split.
  { unfold finish_outcome. rewrite E. cbn. rewrite bool_decide_eq_true_2 by done. by destruct r as [[]|]. }
  split; [by intros a|]. split; [|by apply free_inv].
  split; [done|]. right. split; [by eexists|]. by intros a.
Qed.

Lemma quality_change x n q claimed pending :
  ctx_inv x -> ctx_at x n (Some (claimed, pending)) -> wf q -> q.(pending_turn) = None ->
  ctx_at (with_quality x q) n (Some (claimed, false)) /\ own_change n x (with_quality x q) /\ ctx_inv (with_quality x q).
Proof.
  intros [H1 H2 H3] [[src E] Hp] Hq Hn. split; [by split; [eexists|]|]. split; [|by split].
  split; [done|]. right. split; [by eexists|]. cbn. rewrite E. by intros a [= <-].
Qed.

Lemma take_pending_at x n claimed :
  ctx_at x n (Some (claimed, true)) ->
  exists p, take_pending x.(quality) (TurnId_new n) = (Ok p, set_pending x.(quality) None).
Proof. intros [_ [u E]]. unfold take_pending. rewrite E. cbn. rewrite bool_decide_eq_true_2 by done. by eexists. Qed.

Lemma take_pending_absent x n claimed :
  ctx_at x n (Some (claimed, false)) -> exists e, take_pending x.(quality) (TurnId_new n) = (Err e, x.(quality)).
Proof. intros [_ E]. unfold take_pending. rewrite E. by eexists. Qed.

(** Discarding or interrupting the pending turn. *)
Lemma discard_quality_at x n claimed pending interrupted :
  ctx_inv x -> ctx_at x n (Some (claimed, pending)) ->
  let '(r, q) := if interrupted : bool then interrupt_turn x.(quality) (TurnId_new n)
                 else discard_turn x.(quality) (TurnId_new n) in
  (pending = true -> r = Ok tt) /\ wf q /\ q.(pending_turn) = None.
Proof.
  intros Hx Hv. pose proof (take_pending_wf x.(quality) (TurnId_new n) (ci_quality _ Hx)) as Hw.
  unfold interrupt_turn, discard_turn. destruct pending.
  - destruct (take_pending_at _ _ _ Hv) as [p E]. rewrite E in Hw |- *. cbn in Hw. by destruct interrupted.
  - destruct (take_pending_absent _ _ _ Hv) as [e E]. rewrite E in Hw |- *. destruct Hv as [_ Hv]. by destruct interrupted.
Qed.

Lemma complete_turn_at x n claimed assistant :
  ctx_inv x -> ctx_at x n (Some (claimed, true)) ->
  exists r q, complete_turn x.(quality) (TurnId_new n) assistant = Val (r, q) /\ wf q /\ q.(pending_turn) = None.
Proof.
  intros Hx Hv. destruct (complete_turn_ok x.(quality) (TurnId_new n) assistant (ci_quality _ Hx)) as (r & q & E & Hw).
  exists r, q. split_and!; [done..|]. unfold complete_turn in E.
  destruct (take_pending_at _ _ _ Hv) as [p T]. rewrite T in E. split_ifs_in E; [by simplify_eq|].
  destruct (ConversationMessage_new _ _) as [a|]; [|by simplify_eq]. split_ifs_in E; [by simplify_eq|].
  destruct (enforce_history_bounds _ _) as [[h b]| |]; cbn in E; [by simplify_eq|done..].
Qed.

(** What an outcome leaves: its next lock, or its result with the conversation
    given back. *)
Definition outcome_left (x : ConversationContext P) (n : Z) (ok : outcome_pc -> Prop) (discards : bool)
    (next : outcome_next) : Prop :=
  match next with
  | O_at o => ok o
  | O_returned r => ctx_at x n None /\ (discards = true -> r = Ok tt)
  end.

Definition discards (k : turn_outcome) : bool := match k with Discard _ => true | Complete _ => false end.

Lemma outcome_step_ok x n k o :
  ctx_inv x -> outcome_ok x n k o ->
  exists next x', outcome_step x (nth_identity n) k o = Val (next, x') /\ own_change n x x' /\ ctx_inv x' /\
    outcome_left x' n (outcome_ok x' n k) (discards k) next.
Proof.
  intros Hx Hok. destruct o as [|rc|r]; cbn [outcome_ok] in Hok.
  - destruct (begin_outcome_at x n (match k with Complete _ => false | Discard _ => true end) false true Hx Hok)
      as (l & E & Hv & Hf & Hi); [done|].
    exists (O_at (O_quality false)), (with_lifecycle x l). cbn [outcome_step]. rewrite E. by split_and!.
  - destruct Hok as [-> Hv]. destruct k as [assistant|interrupted]; cbn [outcome_step].
    + destruct (complete_turn_at x n true assistant Hx Hv) as (r & q & E & Hq & Hp). cbn [identity_turn_id nth_identity].
      rewrite E. cbn. destruct (quality_change x n q true true) as (H1 & H2 & H3); [done..|]. do 2 eexists. by split_and!.
    + pose proof (discard_quality_at x n true true interrupted Hx Hv) as D. cbn [identity_turn_id nth_identity].
      destruct (if interrupted then _ else _) as [r q]. destruct D as (-> & Hq & Hp); [|done].
      destruct (quality_change x n q true true) as (H1 & H2 & H3); [done..|]. do 2 eexists. by split_and!.
  - destruct Hok as [Hv Hr]. destruct (finish_outcome_at x n r Hx Hv) as (l & E & H1 & H2 & H3).
    cbn [outcome_step]. rewrite E. do 2 eexists. split_and!; [done..|]. by destruct k.
Qed.

Lemma reclaim_step_ok x n o :
  ctx_inv x -> reclaim_ok x n o ->
  exists next x', outcome_step x (nth_identity n) (Discard true) o = Val (next, x') /\ own_change n x x' /\ ctx_inv x' /\
    outcome_left x' n (reclaim_ok x' n) true next.
Proof.
  intros Hx Hok. destruct o as [|rc|r]; cbn [reclaim_ok] in Hok.
  - destruct Hok as (claimed & pending & Hv & Hp).
    destruct (begin_outcome_at x n true claimed pending Hx Hv) as (l & E & Hv' & Hf & Hi); [done|].
    exists (O_at (O_quality claimed)), (with_lifecycle x l). cbn [outcome_step]. rewrite E. split_and!; [done..|].
    by exists pending.
  - destruct Hok as (pending & Hv & Hp). cbn [outcome_step identity_turn_id nth_identity].
    pose proof (discard_quality_at x n true pending true Hx Hv) as D. cbn in D.
    destruct (interrupt_turn _ _) as [r q]. destruct D as (Hr & Hq & Hn).
    destruct (quality_change x n q true pending) as (H1 & H2 & H3); [done..|]. do 2 eexists. split_and!; [done..|].
    cbn. split; [done|]. destruct rc; [by destruct r as [[]|]|]. by apply Hr, Hp.
  - destruct Hok as [Hv Hr]. destruct (finish_outcome_at x n r Hx Hv) as (l & E & H1 & H2 & H3).
    cbn [outcome_step]. rewrite E. do 2 eexists. by split_and!.
Qed.

(** The critical sections in a row are the operation of the context. *)
Lemma outcome_steps_are_discard x i b :
  match outcome_step x i (Discard b) O_begin with
  | Val (O_at o, x1) =>
      match outcome_step x1 i (Discard b) o with
      | Val (O_at o, x2) => outcome_step x2 i (Discard b) o
      | y => y
      end
  | y => y
  end = (let '(r, x') := context_discard_turn x i b in Val (O_returned r, x')).
Proof.
  unfold context_discard_turn. cbn [outcome_step].
  destruct (begin_outcome _ _ _) as [[rc|e] l]; [|done]. cbn.
  destruct (if b then _ else _) as [r q]. cbn. by destruct (finish_outcome _ _ _).
Qed.

Lemma outcome_steps_are_complete x i s :
  match outcome_step x i (Complete s) O_begin with
  | Val (O_at o, x1) =>
      match outcome_step x1 i (Complete s) o with
      | Val (O_at o, x2) => outcome_step x2 i (Complete s) o
      | y => y
      end
  | y => y
  end = (let! '(r, x') := context_complete_turn x i s in Val (O_returned r, x')).
Proof.
  unfold context_complete_turn. cbn [outcome_step].
  destruct (begin_outcome _ _ _) as [[rc|e] l]; [|done]. cbn.
  destruct (complete_turn _ _ _) as [[r q]| |]; [|done..]. cbn. by destruct (finish_outcome _ _ _).
Qed.

(** ** One step of one call *)

(** Only turn [n] takes or gives back. *)
Definition guard_change (n : Z) (g g' : GenerationGuard) : Prop :=
  g' = g \/ (g = None \/ guard_has g n = true) /\ (g' = None \/ guard_has g' n = true).

Definition slot_change (n : Z) (s s' : option ActiveGeneration) : Prop :=
  s' = s \/ (s = None \/ slot_has s n = true) /\
             (s' = None \/ slot_has s' n = true /\ slot_identity <$> s' = Some (nth_identity n)).

Record step_ok (n : Z) (h h' : shared P) (c' : call) : Prop := {
  st_ctx : own_change n h.(ctx) h'.(ctx);
  st_inv : ctx_inv h'.(ctx);
  st_guard : guard_change n h.(guard) h'.(guard);
  st_slot : slot_change n h.(slot) h'.(slot);
  st_call : call_ok h' n c';
}.

Lemma own_change_refl n x : own_change n x x.
Proof. split; [done|by left]. Qed.

Lemma guard_change_refl n g : guard_change n g g.
Proof. by left. Qed.

Lemma slot_change_refl n s : slot_change n s s.
Proof. by left. Qed.

Lemma deactivate_change n g :
  guard_change n g (deactivate g (TurnId_new n) (GenerationId_new n)) /\
  guard_has (deactivate g (TurnId_new n) (GenerationId_new n)) n = false.
Proof.
  unfold deactivate, guard_change, guard_has. destruct (permits g _ _) eqn:E; [|by rewrite E; auto]. split; [|done].
  right. auto.
Qed.

Lemma clear_slot_change n s :
  slot_change n s (clear_slot s (TurnId_new n) (GenerationId_new n)) /\
  slot_has (clear_slot s (TurnId_new n) (GenerationId_new n)) n = false.
Proof.
  unfold clear_slot, slot_change, slot_has. destruct (slot_is s _ _) eqn:E; [|by rewrite E; auto]. split; [|done].
  right. auto.
Qed.

#[local] Hint Resolve own_change_refl guard_change_refl slot_change_refl : core.

(** A step that only changes the conversation. *)
Lemma ctx_step_ok n h c x' c' :
  call_ok h n c -> own_change n h.(ctx) x' -> ctx_inv x' -> ctx_ok x' n c' ->
  holds_guard c' = holds_guard c -> holds_slot c' = holds_slot c -> lookup_ok (with_ctx h x') n c' ->
  match c' with C_turn r _ => turn_ok n r | _ => True end ->
  step_ok n h (with_ctx h x') c'.
Proof. intros [H1 H2 H3 H4] Hf Hi Hc Hg Hs Hl Ht. split; cbn; auto. split; cbn; [done|by rewrite Hg|by rewrite Hs|done..]. Qed.

(** A step that changes nothing shared. *)
Lemma idle_step_ok n h c c' :
  shared_ok h -> call_ok h n c -> ctx_ok h.(ctx) n c' -> agrees (guard_has h.(guard) n) (holds_guard c') ->
  agrees (slot_has h.(slot) n) (holds_slot c') -> lookup_ok h n c' ->
  match c' with C_turn r _ => turn_ok n r | _ => True end -> step_ok n h h c'.
Proof. intros [Hc Hg Hs] [H1 H2 H3 H4] ? ? ? ? ?. by split; auto. Qed.

Lemma outcome_call_ok n h c k o next x' c' (at_ : outcome_pc -> call) (returned : rresult unit -> call) :
  shared_ok h -> call_ok h n c -> outcome_ok h.(ctx) n k o ->
  outcome_step h.(ctx) (nth_identity n) k o = Val (next, x') ->
  c' = match next with O_at o => at_ o | O_returned r => returned r end ->
  (forall o x, outcome_ok x n k o -> ctx_ok x n (at_ o)) ->
  (forall r x, ctx_at x n None -> (discards k = true -> r = Ok tt) -> ctx_ok x n (returned r)) ->
  holds_guard c' = holds_guard c -> holds_slot c' = holds_slot c -> (forall h, lookup_ok h n c') ->
  match c' with C_turn r _ => turn_ok n r | _ => True end -> step_ok n h (with_ctx h x') c'.
Proof.
  intros Hh Hc Ho E -> Hat Hret Hg Hs Hl Ht. destruct (outcome_step_ok (ctx h) n k o (so_ctx _ Hh) Ho) as (y & x2 & E2 & H1 & H2 & H3).
  rewrite E in E2. simplify_eq. apply (ctx_step_ok _ _ c); try done. destruct y; unfold outcome_left in H3; [by apply Hat|]. destruct H3. by apply Hret.
Qed.

Lemma resolve_turn_at h n transcript resolved q :
  shared_ok h -> ctx_at h.(ctx) n (Some (false, false)) ->
  resolve_turn h.(ctx).(quality) (TurnId_new n) transcript None = (resolved, q) ->
  own_change n h.(ctx) (with_quality h.(ctx) q) /\ ctx_inv (with_quality h.(ctx) q) /\
  match resolved with
  | Ok (Some r) => ctx_at (with_quality h.(ctx) q) n (Some (false, true)) /\
      exists i, prepared_input {| prepared_identity := nth_identity n; prepared_transcript := transcript;
                                  prepared_resolved := r |} = Ok i /\
        forall d, i.(quality_decision) = Some d -> d.(ProtocolQuality.turn_id) = TurnId_new n
  | _ => ctx_at (with_quality h.(ctx) q) n (Some (false, false))
  end.
Proof.
  intros [[Hl Hw Hi] _ _] [[src Ha] Hp] E.
  assert (F : forall q', own_change n (ctx h) (with_quality (ctx h) q')).
  { intros q'. split; [done|]. right. split; [by eexists|]. cbn. rewrite Ha. by intros a [= <-]. }
  pose proof (resolve_turn_wf (quality (ctx h)) (TurnId_new n) transcript None Hw) as Hwq. rewrite E in Hwq. cbn in Hwq.
  split; [done|]. split; [by split; [..|cbn; rewrite Ha]|]. destruct resolved as [[r|]|e].
  - assert (B : is_blank transcript = false /\ blen transcript <= MAX_CONVERSATION_MESSAGE_BYTES).
    { unfold resolve_turn in E. rewrite Hp in E. cbn in E. destruct (is_blank transcript); [done|].
      destruct (ConversationMessage_new User transcript) eqn:M; [|done]. by apply wf_message_new in M as ([? ?] & _ & <-). }
    destruct (resolve_turn_Ok (quality (ctx h)) (TurnId_new n) transcript None Hw Hp) as (k & r' & q' & E' & _ & _ & _ & _ & _ & _ & _ & Hp');
      [apply B..|]. rewrite E in E'. simplify_eq.
    split; [split; [by eexists|by eexists]|].
    apply resolve_turn_fits in E as [Hid Hfit]; [|done]. unfold prepared_input, input_with_quality. cbn [prepared_transcript prepared_resolved].
    rewrite with_quality_and_memory_Ok by done. eexists. split; [done|]. by intros d [= <-].
  - apply resolve_turn_refused in E as ->; [|done..]. by split; [eexists|].
  - apply resolve_turn_refused in E as ->; [|done..]. by split; [eexists|].
Qed.

Lemma settled_ok x n r t res :
  ctx_at x n None -> ctx_ok x n (C_turn r (settled (TurnId_new n) t res)).
Proof. intros H. unfold settled. destruct res; [destruct t|]; done. Qed.

Lemma settled_holds n r t res :
  holds_guard (C_turn r (settled (TurnId_new n) t res)) = Some true /\
  holds_slot (C_turn r (settled (TurnId_new n) t res)) = Some true /\
  forall h, lookup_ok h n (C_turn r (settled (TurnId_new n) t res)).
Proof. unfold settled. destruct res; [destruct t|]; done. Qed.

Lemma call_ok_turn h n r ph : call_ok h n (C_turn r ph) -> turn_ok n r.
Proof. by intros []. Qed.

(** The conversation is given back before the terminal event is decided. *)
Lemma running_step_ok h n r h' c' :
  shared_ok h -> call_ok h n (C_turn r P_running) ->
  turn_step h (nth_identity n) r P_running = Some (h', c') -> step_ok n h h' c'.
Proof.
  intros Hh Hc H. pose proof Hc as [H1 H2 H3 _ Ht]. cbn [turn_step] in H.
  pose proof (to_terminal _ _ Ht) as Ho. unfold own_terminal in Ho.
  destruct (g_pc (gen (state r))); try discriminate H; cbn [g_terminal] in Ho.
  2: { simplify_eq. by apply (idle_step_ok _ _ (C_turn r P_running)). }
  destruct (Ho _ eq_refl) as [Ho' _]. unfold decide_outcome in H.
  destruct (external _), t; cbn in Ho', H; try discriminate Ho'; simplify_eq.
  all: by apply (idle_step_ok _ _ (C_turn r P_running)).
Qed.

Lemma outcome_turn_step_ok h n r t k o h' c' :
  shared_ok h -> call_ok h n (C_turn r (P_outcome t k o)) ->
  turn_step h (nth_identity n) r (P_outcome t k o) = Some (h', c') -> step_ok n h h' c'.
Proof.
  intros Hh Hc H. cbn [turn_step] in H. pose proof (co_ctx _ _ _ Hc) as Ho. cbn in Ho.
  destruct (outcome_step_ok _ _ _ _ (so_ctx _ Hh) Ho) as (next & x' & E & _). rewrite E in H.
  pose proof (call_ok_turn _ _ _ _ Hc) as Ht.
  assert (R : h' = with_ctx h x' /\
    c' = match next with O_at o => C_turn r (P_outcome t k o) | O_returned res => C_turn r (settled (TurnId_new n) t res) end)
    by (destruct next; by simplify_eq).
  destruct R as [-> Hn]. destruct (settled_holds n r t (match next with O_returned res => res | _ => Ok tt end)) as (G & S & L).
  eapply (outcome_call_ok n h _ k o next x' c' _ _ Hh Hc Ho E Hn); try (by destruct next; subst).
  intros res x Hx _. by apply settled_ok.
Qed.

(** The steps that give back the guard and the slot. *)
Lemma deactivate_step_ok h n c c' :
  shared_ok h -> call_ok h n c -> ctx_ok h.(ctx) n c' -> holds_guard c' = Some false -> holds_slot c' = holds_slot c ->
  (forall h, lookup_ok h n c') -> match c' with C_turn r _ => turn_ok n r | _ => True end ->
  step_ok n h (with_guard h (deactivate h.(guard) (TurnId_new n) (GenerationId_new n))) c'.
Proof.
  intros [Hi _ _] [H1 H2 H3 H4 H5] Hc Hg Hs Hl Ht. destruct (deactivate_change n h.(guard)) as [D1 D2].
  split; cbn; auto. split; cbn; [done|by rewrite Hg|by rewrite Hs|done..].
Qed.

Lemma clear_step_ok h n c c' :
  shared_ok h -> call_ok h n c -> ctx_ok h.(ctx) n c' -> holds_slot c' = Some false -> holds_guard c' = holds_guard c ->
  (forall h, lookup_ok h n c') -> match c' with C_turn r _ => turn_ok n r | _ => True end ->
  step_ok n h (with_slot h (clear_slot h.(slot) (TurnId_new n) (GenerationId_new n))) c'.
Proof.
  intros [Hi _ _] [H1 H2 H3 H4 H5] Hc Hs Hg Hl Ht. destruct (clear_slot_change n h.(slot)) as [D1 D2].
  split; cbn; auto. split; cbn; [done|by rewrite Hg|by rewrite Hs|done..].
Qed.

Lemma reaped_step_ok h n r a h' c' :
  shared_ok h -> call_ok h n (C_turn r (P_reaped a)) ->
  turn_step h (nth_identity n) r (P_reaped a) = Some (h', c') -> step_ok n h h' c'.
Proof.
  intros Hh Hc H. pose proof (call_ok_turn _ _ _ _ Hc) as Ht. pose proof Hc as [H1 _ _ H4 _].
  destruct a as [|found|o|res|res|res|e]; cbn [turn_step ctx_ok lookup_ok] in H, H1, H4; try discriminate H.
  - injection H as <- <-. eapply idle_step_ok; try done. cbn [ctx_ok].
    change (slot_is (slot h) _ _) with (slot_has (slot h) n).
    destruct (slot_has (slot h) n) eqn:S; [|split; [by left|left; by destruct H4]].
    apply slot_has_spec in S as S'. destruct S' as (s & Hs & _).
    destruct (so_slot _ Hh _ Hs) as (m & Hm & Hi). rewrite (slot_has_unique _ _ _ S Hm) in *. rewrite Hs. cbn. rewrite Hi.
    split; [by right|]. destruct H1; auto.
  - destruct H1 as [Hf H1]. assert (D : exists a, Some (h, C_turn r (P_reaped a)) = Some (h', c') /\
      match a with A_discard O_begin => discardable (ctx h) n | A_deactivate (Ok tt) => ctx_at (ctx h) n None | _ => False end).
    { destruct found as [i|]; [|destruct H1 as [?|[_ ?]]; [|done]; eexists; by split].
      destruct Hf as [|[= ->]]; [done|]. unfold active_turn in H.
      case_bool_decide as Ea; (eexists; split; [exact H|]).
      - destruct H1 as [H1|[? _]]; [|done]. destruct (active (lifecycle (ctx h))) as [a|] eqn:Ha; [|done].
        injection Ea as Ea. by destruct (H1 a Ha).
      - destruct H1 as [?|[(cl & pd & [[src E] _] & _) _]]; [done|]. destruct Ea. by rewrite E. }
    destruct D as (a & [= <- <-] & Ha). destruct a as [| |[]|[[]|]| | |]; try done; by eapply idle_step_ok.
  - destruct (reclaim_step_ok _ _ _ (so_ctx _ Hh) H1) as (next & x' & E & F1 & F2 & F3). rewrite E in H.
    destruct next; injection H as <- <-; cbn [outcome_left] in F3; eapply ctx_step_ok; try done.
    destruct F3 as [? F3]. split; [done|by apply F3].
  - injection H as <- <-. eapply deactivate_step_ok; try done.
  - injection H as <- <-. eapply clear_step_ok; try done.
Qed.

Lemma turn_step_ok h n r ph h' c' :
  shared_ok h -> call_ok h n (C_turn r ph) -> turn_step h (nth_identity n) r ph = Some (h', c') -> step_ok n h h' c'.
Proof.
  intros Hh Hc H. pose proof (call_ok_turn _ _ _ _ Hc) as Ht. pose proof (co_ctx _ _ _ Hc) as H1. pose proof Hc as [_ H2 H3 _ _].
  destruct ph as [|t k o|t|t|t|t|t| |a]; try discriminate H.
  - by eapply running_step_ok.
  - by eapply outcome_turn_step_ok.
  - cbn [turn_step] in H. destruct (closed _); [injection H as <- <-; by eapply idle_step_ok|].
    destruct (has_room _ _); [|done]. injection H as <- <-. eapply idle_step_ok; try done. by destruct Ht; split.
  - cbn [turn_step] in H. injection H as <- <-. by eapply deactivate_step_ok.
  - cbn [turn_step] in H. injection H as <- <-. by eapply clear_step_ok.
  - cbn [turn_step] in H. injection H as <- <-. by eapply idle_step_ok.
  - by eapply reaped_step_ok.
Qed.

(** Taking the guard and the slot. *)
Lemma activate_step_ok h n c c' :
  shared_ok h -> call_ok h n c -> h.(guard) = None -> ctx_ok h.(ctx) n c' -> holds_guard c' = Some true ->
  holds_slot c' = holds_slot c -> (forall h, lookup_ok h n c') -> match c' with C_turn r _ => turn_ok n r | _ => True end ->
  step_ok n h (with_guard h (Some {| guard_turn_id := TurnId_new n; guard_generation_id := GenerationId_new n |})) c'.
Proof.
  intros [Hi _ _] [H1 H2 H3 H4 H5] Hn Hc Hg Hs Hl Ht.
  assert (G : guard_has (Some {| guard_turn_id := TurnId_new n; guard_generation_id := GenerationId_new n |}) n = true)
    by by apply guard_has_spec.
  split; cbn; auto; [right; auto|]. split; cbn; [done|by rewrite Hg|by rewrite Hs|done..].
Qed.

Lemma occupy_step_ok h n c c' session :
  shared_ok h -> call_ok h n c -> h.(slot) = None -> ctx_ok h.(ctx) n c' -> holds_slot c' = Some true ->
  holds_guard c' = holds_guard c -> (forall h, lookup_ok h n c') -> match c' with C_turn r _ => turn_ok n r | _ => True end ->
  step_ok n h (with_slot h (Some {| slot_identity := nth_identity n; slot_turn_id := TurnId_new n;
                                    slot_generation_id := GenerationId_new n; slot_session_id := session |})) c'.
Proof.
  intros [Hi _ _] [H1 H2 H3 H4 H5] Hn Hc Hs Hg Hl Ht.
  assert (G : slot_has (Some {| slot_identity := nth_identity n; slot_turn_id := TurnId_new n;
                                slot_generation_id := GenerationId_new n; slot_session_id := session |}) n = true)
    by (apply slot_has_spec; by eexists).
  split; cbn; auto; [right; auto|]. split; cbn; [done|by rewrite Hg|by rewrite Hs|done..].
Qed.

Lemma call_step_ok h n c h' c' :
  shared_ok h -> call_ok h n c -> call_step h (nth_identity n) c = Some (h', c') -> step_ok n h h' c'.
Proof.
  intros Hh Hc H. pose proof Hc as [H1 H2 H3 _ _].
  destruct c as [src t|e|src p|src i|activated o e|e|e|r ph]; cbn [call_step ctx_ok identity_turn_id identity_generation_id nth_identity] in H, H1; try discriminate H.
  - destruct (resolve_turn _ _ _ _) as [resolved q] eqn:E. destruct (resolve_turn_at _ _ _ _ _ Hh H1 E) as (F1 & F2 & F3).
    destruct resolved as [[r|]|e]; injection H as <- <-; by eapply ctx_step_ok.
  - injection H as <- <-. destruct H1 as [[src Ha] Hp].
    assert (E : release_turn (lifecycle (ctx h)) (nth_identity n) = set_active (lifecycle (ctx h)) None).
    { unfold release_turn. rewrite Ha. cbn. by rewrite bool_decide_eq_true_2. }
    change {| identity_turn_id := TurnId_new n; identity_generation_id := GenerationId_new n |} with (nth_identity n).
    rewrite E. eapply ctx_step_ok; try done; [|by apply free_inv, Hp; apply Hh].
    split; [done|]. right. split; [by eexists|]. by intros a.
  - destruct H1 as [H1 (i & Hi & Hd)]. unfold activate in H. destruct (guard h) eqn:Eg; cbn in H;
      [rewrite <- Eg in H2; injection H as <- <-; by eapply idle_step_ok|].
    rewrite Hi in H. injection H as <- <-. by eapply activate_step_ok.
  - destruct H1 as [H1 Hd]. destruct (slot h) eqn:Es; cbn in H;
      [rewrite <- Es in H3; injection H as <- <-; by eapply idle_step_ok|].
    injection H as <- <-. by eapply occupy_step_ok.
  - destruct (outcome_step_ok _ _ _ _ (so_ctx _ Hh) H1) as (next & x' & E & F1 & F2 & F3).
    change {| identity_turn_id := TurnId_new n; identity_generation_id := GenerationId_new n |} with (nth_identity n) in H. rewrite E in H.
    destruct next; injection H as <- <-; cbn [outcome_left] in F3; eapply ctx_step_ok; try done.
    all: by destruct activated; destruct F3.
  - injection H as <- <-. by eapply deactivate_step_ok.
  - by eapply turn_step_ok.
Qed.

(** ** The other calls *)

Lemma guard_change_frame n m g g' : guard_change n g g' -> m <> n -> guard_has g' m = guard_has g m.
Proof.
  intros [->|[Hg Hg']] Hm; [done|].
  assert (F : forall g, g = None \/ guard_has g n = true -> guard_has g m = false).
  { intros y [->|Hy]; [done|]. destruct (guard_has y m) eqn:E; [|done]. by destruct (guard_has_unique _ _ _ E Hy). }
  by rewrite !F.
Qed.

Lemma slot_change_frame n m s s' : slot_change n s s' -> m <> n -> slot_has s' m = slot_has s m.
Proof.
  intros [->|[Hs Hs']] Hm; [done|].
  assert (F : forall s, s = None \/ slot_has s n = true -> slot_has s m = false).
  { intros y [->|Hy]; [done|]. destruct (slot_has y m) eqn:E; [|done]. by destruct (slot_has_unique _ _ _ E Hy). }
  rewrite !F; [done..|]. destruct Hs' as [|[]]; auto.
Qed.

Lemma step_ok_frame n h h' c' m c : step_ok n h h' c' -> m <> n -> call_ok h m c -> call_ok h' m c.
Proof.
  intros [F1 _ F3 F4 _] Hm [H1 H2 H3 H4 H5].
  pose proof (guard_change_frame _ m _ _ F3 Hm) as G. pose proof (slot_change_frame _ m _ _ F4 Hm) as S.
  split; [by eapply ctx_ok_mono; [intros; by eapply ctx_at_frame|]|by rewrite G|by rewrite S| |done].
  unfold lookup_ok in *. destruct c as [| | | | | | |r [| | | | | | | |[]]]; try done. rewrite S.
  destruct H4 as [H4|]; [left; by eapply ctx_at_frame|auto].
Qed.

Lemma step_ok_shared n h h' c' : shared_ok h -> step_ok n h h' c' -> shared_ok h'.
Proof.
  intros [_ Hg Hs] [F1 F2 F3 F4 _]. split; [done| |].
  - intros i Hi. destruct F3 as [E|[_ [E|E]]]; [rewrite E in Hi |- *; by eapply Hg|congruence|by exists n].
  - intros a Ha. destruct F4 as [E|[_ [E|[E Ei]]]]; [rewrite E in Ha |- *; by eapply Hs|congruence|].
    exists n. split; [done|]. rewrite Ha in Ei. by injection Ei.
Qed.

(** ** The runtime *)

Record runtime_inv (w : world P) : Prop := {
  ri_shared : shared_ok w.(share);
  ri_calls : forall n c, w.(calls) !! n = Some c -> call_ok w.(share) n c;
  ri_range : forall n c, w.(calls) !! n = Some c -> n <= w.(share).(ctx).(lifecycle).(sequence);
  ri_owner : is_Some w.(share).(ctx).(lifecycle).(active) -> is_Some (w.(calls) !! w.(share).(ctx).(lifecycle).(sequence));
  ri_guard : forall n, guard_has w.(share).(guard) n = true -> is_Some (w.(calls) !! n);
  ri_slot : forall n, slot_has w.(share).(slot) n = true -> is_Some (w.(calls) !! n);
}.

Lemma set_call_inv w h n c c' :
  runtime_inv w -> w.(calls) !! n = Some c -> step_ok n w.(share) h c' -> runtime_inv (set_call w h n c').
Proof.
  intros [R1 R2 R3 R4 R5 R6] Hn S. pose proof S as [[Hseq F1] F2 F3 F4 F5].
  assert (K : forall m, is_Some (calls w !! m) -> is_Some (<[n:=c']> (calls w) !! m)).
  { intros m. rewrite lookup_insert_is_Some. destruct (decide (n = m)); auto. }
  split; cbn [share calls set_call].
  - by eapply step_ok_shared.
  - intros m d Hd. destruct (decide (n = m)) as [<-|Hm]; [rewrite lookup_insert_eq in Hd; by simplify_eq|].
    rewrite lookup_insert_ne in Hd by done. eapply step_ok_frame; eauto.
  - intros m d Hd. rewrite Hseq. destruct (decide (n = m)) as [<-|Hm]; [by eapply R3|].
    rewrite lookup_insert_ne in Hd by done. by eapply R3.
  - intros Ha. apply K. rewrite Hseq. destruct F1 as [[E _]|[(a & Ea & _) _]]; apply R4; [by rewrite <- E|by rewrite Ea].
  - intros m Hm. destruct (decide (m = n)) as [->|Hne]; [by rewrite lookup_insert_eq|]. apply K, R5.
    by rewrite <- (guard_change_frame _ m _ _ F3 Hne).
  - intros m Hm. destruct (decide (m = n)) as [->|Hne]; [by rewrite lookup_insert_eq|]. apply K, R6.
    by rewrite <- (slot_change_frame _ m _ _ F4 Hne).
Qed.

(** A change to the channels of a turn, or to its phase, alone. *)
Lemma turn_of_Some w n r ph : turn_of w n = Some (r, ph) -> w.(calls) !! n = Some (C_turn r ph).
Proof. unfold turn_of. destruct (calls w !! n) as [[]|]; naive_solver. Qed.

Lemma set_turn_inv w n r ph s :
  runtime_inv w -> turn_of w n = Some (r, ph) -> own_terminal r.(task) s.(gen).(g_pc) ->
  runtime_inv (set_call w w.(share) n (C_turn (with_state r s) ph)).
Proof.
  intros R E%turn_of_Some Ho. pose proof (ri_calls _ R _ _ E) as Hc. eapply set_call_inv; [done..|].
  pose proof Hc as [H1 H2 H3 H4 H5]. eapply idle_step_ok; [by apply R|done..|]. by destruct H5; split.
Qed.

Lemma call_ok_mono h x m c :
  (forall v, ctx_at h.(ctx) m v -> ctx_at x m v) -> call_ok h m c -> call_ok (with_ctx h x) m c.
Proof.
  intros F [H1 H2 H3 H4 H5]. split; cbn; [by eapply ctx_ok_mono|done|done| |done].
  unfold lookup_ok in *. destruct c as [| | | | | | |r [| | | | | | | |[]]]; try done. destruct H4; auto.
Qed.

(** A change to the conversation that concerns no turn. *)
Lemma with_ctx_inv w x :
  runtime_inv w -> ctx_inv x -> x.(lifecycle).(sequence) = w.(share).(ctx).(lifecycle).(sequence) ->
  x.(lifecycle).(active) = w.(share).(ctx).(lifecycle).(active) ->
  x.(quality).(pending_turn) = w.(share).(ctx).(quality).(pending_turn) ->
  runtime_inv (with_share w (with_ctx w.(share) x)).
Proof.
  intros [R1 R2 R3 R4 R5 R6] Hx Hs Ha Hp. split; cbn; rewrite ?Hs, ?Ha; try done; [by destruct R1; split|].
  intros n c Hc. apply call_ok_mono; [|by apply R2]. intros v. unfold ctx_at. by rewrite Ha, Hp.
Qed.

Lemma start_inv w source transcript i l :
  runtime_inv w -> reserve_turn w.(share).(ctx).(lifecycle) source = (Ok i, l) ->
  runtime_inv (set_call w (with_ctx w.(share) (with_lifecycle w.(share).(ctx) l)) (TurnId_get i.(identity_turn_id))
                 (C_resolve source transcript)).
Proof.
  intros [R1 R2 R3 R4 R5 R6] E. destruct R1 as [[Hl Hq Hi] Hg Hs]. unfold reserve_turn in E.
  destruct (active (lifecycle (ctx (share w)))) eqn:Ea; [done|].
  destruct (checked_add _ _) as [n|] eqn:En; [|done]. apply checked_add_Some in En as [-> En]. simplify_eq. cbn [identity_turn_id TurnId_get].
  set (n := sequence _ + 1). set (x := with_lifecycle _ _).
  assert (Fresh : calls w !! n = None).
  { destruct (calls w !! n) eqn:E; [|done]. apply R3 in E. unfold n in E. lia. }
  assert (F : forall m v, m <> n -> ctx_at (ctx (share w)) m v -> ctx_at x m v).
  { intros m [[cl pd]|] Hm; [by intros [[src E] _]; congruence|]. intros _ a [= <-] Hid. by apply nth_identity_inj in Hid. }
  split; cbn [share calls set_call with_ctx ctx guard slot].
  - split; [|done|done]. split; [|done|done]. destruct Hl as [Hl _]. split; [cbn; lia|]. by intros a [= <-].
  - intros m c Hc. destruct (decide (n = m)) as [<-|Hm].
    + rewrite lookup_insert_eq in Hc. simplify_eq. split; cbn; [by split; [eexists|apply Hi]| | |done|done].
      * destruct (guard_has _ n) eqn:G; [|done]. apply R5 in G as [? G]. congruence.
      * destruct (slot_has _ n) eqn:G; [|done]. apply R6 in G as [? G]. congruence.
    + rewrite lookup_insert_ne in Hc by done. apply call_ok_mono; auto.
  - intros m c Hc. change (sequence _) with n. destruct (decide (n = m)) as [<-|Hm]; [lia|].
    rewrite lookup_insert_ne in Hc by done. apply R3 in Hc. unfold n. lia.
  - intros _. change (sequence _) with n. by rewrite lookup_insert_eq.
  - intros m Hm. apply lookup_insert_is_Some. destruct (decide (n = m)); auto.
  - intros m Hm. apply lookup_insert_is_Some. destruct (decide (n = m)); auto.
Qed.

Lemma reap_inv w n r ph ph' :
  runtime_inv w -> turn_of w n = Some (r, ph) -> reap ph = Some ph' -> runtime_inv (set_call w w.(share) n (C_turn r ph')).
Proof.
  intros R E%turn_of_Some Hr. pose proof (ri_calls _ R _ _ E) as Hc. eapply set_call_inv; [done..|].
  pose proof Hc as [H1 H2 H3 H4 H5]. 
  destruct ph as [|t k o|t|t|t|t|t| |]; cbn [reap] in Hr; simplify_eq; (eapply idle_step_ok; [by apply R|done| |done|done| |done]).
  all: cbn [ctx_ok lookup_ok holds_guard holds_slot agrees] in *; auto.
  - right. by exists false, true.
  - right. destruct o as [|rc|res]; cbn in H1; [by exists false, true|exists true, true; naive_solver|exists true, false; naive_solver].
Qed.

Lemma apply_persona_inv w persona mode :
  runtime_inv w -> is_u8 (PersonaLevel_get persona.(verbosity)) ->
  runtime_inv (with_share w (with_ctx w.(share) (snd (apply_persona w.(share).(ctx) persona mode)))).
Proof using U.
  intros R Hu. pose proof (so_ctx _ (ri_shared _ R)) as [Hl Hq Hi].
  destruct (apply_op_wf (quality (ctx (share w))) (SetPersona persona mode) Hq Hu) as (q & E & Hw). cbn in E. simplify_eq.
  unfold apply_persona. destruct (set_persona _ _ _) as [r q] eqn:Ep. cbn in Hw.
  assert (Hp : pending_turn q = pending_turn (quality (ctx (share w)))).
  { unfold set_persona in Ep. destruct (is_some _); [by simplify_eq|]. destruct (ResponseControls_new _ _ _ _ _); [|by simplify_eq].
    destruct (negb _ || negb _); by simplify_eq. }
  apply with_ctx_inv; try done. split; [done..|]. cbn. rewrite Hp. done.
Qed.

Lemma seed_inv w op exchanges :
  runtime_inv w -> runtime_inv (with_share w (with_ctx w.(share) (snd (seed_completed_history w.(share).(ctx) op exchanges)))).
Proof using U.
  intros R. pose proof (so_ctx _ (ri_shared _ R)) as [Hl Hq Hi]. unfold seed_completed_history.
  assert (Same : runtime_inv (with_share w (with_ctx (share w) (ctx (share w))))) by (apply with_ctx_inv; done || by split).
  destruct (active (lifecycle (ctx (share w)))) eqn:Ea; cbn [is_some]; [done|]. destruct (_ || _); [done|].
  destruct (apply_op_wf (quality (ctx (share w))) (Seed exchanges) Hq I) as (q & E & Hw). cbn in E. simplify_eq.
  destruct (replace_completed_history _ _) as [r q] eqn:Er. cbn in Hw.
  assert (Hp : pending_turn q = pending_turn (quality (ctx (share w)))).
  { unfold replace_completed_history in Er. destruct (is_some _); [by simplify_eq|]. destruct (_ || _); [by simplify_eq|].
    destruct (build_history _ _ _) as [[]|]; by simplify_eq. }
  assert (Applied : forall l, l.(sequence) = sequence (lifecycle (ctx (share w))) -> l.(active) = None ->
    runtime_inv (with_share w (with_ctx (share w) (with_lifecycle (with_quality (ctx (share w)) q) l)))).
  { intros l Hs Ha. apply with_ctx_inv; cbn; [done| |done|by rewrite Ha|done].
    split; cbn; [|done|rewrite Hp; auto]. destruct Hl as [? _]. split; [by rewrite Hs|by rewrite Ha]. }
  assert (Refused : runtime_inv (with_share w (with_ctx (share w) (with_quality (ctx (share w)) q)))).
  { apply with_ctx_inv; cbn; try done. split; cbn; [done|done|rewrite Hp; auto]. }
  destruct (last_seed _) as [seed|]; [destruct (bool_decide _); [by destruct (bool_decide _)|]|];
    (destruct r as [[]|]; [by apply Applied|done]).
Qed.

Lemma drop_worker_gen s : (drop_worker s).(gen) = s.(gen).
Proof. unfold drop_worker. by destruct (w_pc _). Qed.

Lemma runtime_step_inv w l w' : runtime_inv w -> runtime_step w l = Some w' -> runtime_inv w'.
Proof using U.
  intros R H.
  assert (S : forall n r ph l s, turn_of w n = Some (r, ph) -> step (task r) (state r) l = Some s ->
    runtime_inv (set_call w (share w) n (C_turn (with_state r s) ph))).
  { intros n r ph k s E Hs. eapply set_turn_inv; [done..|]. eapply step_own_terminal; [|done].
    apply turn_of_Some in E. by apply (call_ok_turn _ _ _ _ (ri_calls _ R _ _ E)). }
  destruct l as [source t|n|n l|t g|n|n|n|n|n|persona mode|op es]; cbn in H.
  - destruct (reserve_turn _ _) as [[i|] l] eqn:E; [|done]. simplify_eq. by apply start_inv.
  - destruct (calls w !! n) as [c|] eqn:E; [|done]. cbn in H.
    destruct (call_step _ _ _) as [[h c']|] eqn:Ec; [|done]. cbn in H. simplify_eq.
    eapply set_call_inv; [done..|]. eapply call_step_ok; [by apply R|by apply R|done].
  - destruct (turn_of w n) as [[r ph]|] eqn:E; [|done]. cbn in H. destruct (_ || _); [|done].
    destruct (step _ _ _) as [s|] eqn:Es; [|done]. cbn in H. simplify_eq. by eapply S.
  - destruct (interrupt_lookup _ _ _); [|done]. simplify_eq. by destruct R; split.
  - case_bool_decide; [|done]. destruct (turn_of w n) as [[r ph]|] eqn:E; [|done]. cbn in H. simplify_eq. by eapply (S n r ph L_interrupt).
  - case_bool_decide; [|done]. destruct (turn_of w n) as [[r ph]|] eqn:E; [|done]. cbn in H.
    destruct (external _) eqn:Ex; [|done]. cbn in H. simplify_eq. eapply (S n r ph L_interrupt_work); [done|]. cbn. by rewrite Ex.
  - destruct (turn_of w n) as [[r ph]|] eqn:E; [|done]. cbn in H. simplify_eq. by destruct R; split.
  - case_bool_decide; [|done]. destruct (turn_of w n) as [[r ph]|] eqn:E; [|done]. cbn in H. simplify_eq.
    eapply set_turn_inv; [done..|]. rewrite drop_worker_gen. apply turn_of_Some in E.
    by apply (call_ok_turn _ _ _ _ (ri_calls _ R _ _ E)).
  - case_bool_decide; [|done]. destruct (turn_of w n) as [[r ph]|] eqn:E; [|done]. cbn in H.
    destruct (reap ph) eqn:Er; [|done]. cbn in H. simplify_eq. by eapply reap_inv.
  - destruct (_ && _) eqn:Eu; [|done]. simplify_eq. apply apply_persona_inv; [done|]. unfold is_u8. breflect. lia.
  - simplify_eq. by apply seed_inv.
Qed.

Lemma runtime_new_inv x :
  x.(lifecycle) = lifecycle_default -> wf x.(quality) -> x.(quality).(pending_turn) = None -> runtime_inv (runtime_new x).
Proof.
  intros Hl Hq Hp. split; cbn; try done.
  - split; [|done|done]. split; cbn; [rewrite Hl; apply lifecycle_default_inv|done|done].
  - rewrite Hl. by intros [].
Qed.

End Steps.
