(* ===== verification/TurnLifecycle.v ===== *)
(** * Guarantees of the turn runtime

    Over every sequence of calls, tasks, interruptions and aborts: what a turn
    holds is given back before its end is published, the runtime is usable again
    at once, turns exclude each other, and a turn is cancelled only by an
    interruption that named it. *)

From stdpp Require Import gmap.
From S2P Require Import Prelude RustStr Errors ProtocolQuality Quality Privacy MemoryProtocol MemoryRetrieval LanguageInput Context UtteranceAssembler SpeechText TurnEvents StreamingTurn StreamingTurnProofs TurnGuarantees TurnRuntime TurnRuntimeProofs.

(** ** How a turn came to its end *)

Definition phase_terminal (ph : phase) : option RuntimeEvent :=
  match ph with
  | P_outcome t _ _ | P_text t | P_deactivate t | P_clear t | P_publish t | P_ended t => Some t
  | _ => None
  end.

Definition interrupted (r : started) : bool := r.(state).(pipe).(external).

Record story {P : Type} (w : world P) (n : Z) (r : started) (ph : phase) : Prop := {
  sr_external : interrupted r = true -> n ∈ w.(interrupting);
  sr_running : ph = P_running -> n ∉ w.(aborting) -> reachable r.(task) granted_label r.(state);
  sr_cancelled : forall t, n ∉ w.(aborting) -> phase_terminal ph = Some (TurnCancelled t) -> interrupted r = true;
  sr_terminal : forall t, phase_terminal ph = Some t -> is_terminal t = true /\ event_turn_id t = TurnId_new n;
}.

Definition stories {P : Type} (w : world P) : Prop :=
  forall n r ph, w.(calls) !! n = Some (C_turn r ph) -> story w n r ph.

Lemma generation_step_external T p w g now b a p' g' :
  generation_step T p w g now b a = Some (p', g') -> p'.(external) = p.(external).
Proof. intros H. generation_cases H; done. Qed.

Lemma step_external T s l s' :
  step T s l = Some s' -> s'.(pipe).(external) = match l with L_interrupt => true | _ => s.(pipe).(external) end.
Proof.
  intros H. unfold step in H. destruct l as [b a|b a| | | |].
  - destruct (generation_step _ _ _ _ _ _ _) as [[p g]|] eqn:G; [|done]. simplify_eq/=. by eapply generation_step_external.
  - destruct (worker_step _ _ _ _ _ _) as [[p w]|] eqn:W; [|done]. simplify_eq/=. by apply worker_step_frame in W as (? & _).
  - by simplify_eq/=.
  - destruct (external _) eqn:E; [|done]. by simplify_eq/=.
  - by simplify_eq/=.
  - destruct (0 <? _); [|done]. by simplify_eq/=.
Qed.

Section Stories.
Context `{U : UnicodeTables} {P : Type}.
Implicit Types (h : shared P) (w : world P).


Lemma set_call_stories w h n c :
  stories w -> (forall r ph, c = C_turn r ph -> story w n r ph) -> stories (set_call w h n c).
Proof.
  intros S Hc m r ph E. cbn in E. assert (K : story w m r ph).
  { destruct (decide (n = m)) as [<-|Hm]; [rewrite lookup_insert_eq in E; simplify_eq; by apply Hc|].
    rewrite lookup_insert_ne in E by done. by apply S. }
  by destruct K; split.
Qed.

(** The task moves on: what it will publish is settled when its run returns. *)
Lemma turn_step_story w n r ph h' r' ph' :
  story w n r ph -> turn_ok n r -> turn_step w.(share) (nth_identity n) r ph = Some (h', C_turn r' ph') -> story w n r' ph'.
Proof.
  intros [S1 S2 S3 S4] Ht H. pose proof (to_turn _ _ Ht) as Hid.
  assert (Settled : forall t res, is_terminal t = true -> event_turn_id t = TurnId_new n ->
    (forall t', n ∉ aborting w -> t = TurnCancelled t' -> interrupted r = true) -> story w n r (settled (TurnId_new n) t res)).
  { intros t res T1 T2 T3. unfold settled. destruct res; [destruct t; try discriminate T1|]; split; cbn; try done.
    all: naive_solver. }
  destruct ph as [|t k o|t|t|t|t|t| |a]; cbn [turn_step identity_turn_id nth_identity] in H; try discriminate H.
  - pose proof (to_terminal _ _ Ht) as Ho. unfold own_terminal in Ho.
    destruct (g_pc (gen (state r))) eqn:Epc; try discriminate H; cbn [g_terminal] in Ho.
    2: { injection H as <- <- <-. by split. }
    destruct (Ho _ eq_refl) as [O1 O2]. rewrite Hid in O2.
    assert (C : forall t', n ∉ aborting w -> t = TurnCancelled t' -> interrupted r = true).
    { intros t' Hn ->. apply (ca_cancels _ _ _ (reachable_cancel_inv _ _ (S2 eq_refl Hn))). by rewrite Epc. }
    unfold decide_outcome in H. fold (interrupted r) in H.
    destruct (interrupted r) eqn:Ei; [injection H as <- <- <-; split; naive_solver|].
    destruct t; try discriminate O1; injection H as <- <- <-; split; naive_solver.
  - destruct (outcome_step _ _ _ _) as [[[o'|res] x]| |]; injection H as <- <- <-; [by split| |by split..].
    destruct (S4 t eq_refl) as [T1 T2]. apply Settled; naive_solver.
  - destruct (closed _); [injection H as <- <- <-; by split|]. destruct (has_room _ _); [|done].
    injection H as <- <- <-. by split.
  - injection H as <- <- <-. by split.
  - injection H as <- <- <-. by split.
  - injection H as <- <- <-. by split.
  - destruct a as [|found|o|res|res|res|e]; try discriminate H.
    + injection H as <- <- <-. by split.
    + destruct found; injection H as <- <- <-; by split.
    + destruct (outcome_step _ _ _ _) as [[[o'|res] x]| |]; try discriminate H; injection H as <- <- <-; by split.
    + injection H as <- <- <-. by split.
    + injection H as <- <- <-. by split.
Qed.

(** A running turn holds the guard, so its permits are granted. *)
Lemma running_granted w n r l :
  runtime_inv w -> w.(calls) !! n = Some (C_turn r P_running) -> answers w.(share).(guard) r.(task) l = true -> granted_label l.
Proof.
  intros R E Ha. destruct (ri_calls _ R _ _ E) as [_ Hg _ _ Ht]. cbn in Hg. destruct Ht as [T1 T2 _ _].
  assert (G : permits (guard (share w)) (task_turn_id (task r)) (task_generation_id (task r)) = true) by (rewrite T1, T2; exact Hg).
  unfold answers in Ha. rewrite G in Ha. destruct l as [b [] | b [] | | | |]; cbn; try done; by destruct granted.
Qed.

Lemma state_story w n r ph s :
  story w n r ph -> interrupted (with_state r s) = interrupted r ->
  (ph = P_running -> n ∉ w.(aborting) -> reachable r.(task) granted_label s) -> story w n (with_state r s) ph.
Proof. intros [S1 S2 S3 S4] Hi Hr. split; rewrite ?Hi; auto. Qed.

Lemma call_step_story w n c h' r ph :
  runtime_inv w -> stories w -> w.(calls) !! n = Some c ->
  call_step w.(share) (nth_identity n) c = Some (h', C_turn r ph) -> story w n r ph.
Proof.
  intros R S E H. pose proof (ri_calls _ R _ _ E) as Hc.
  destruct c as [src t|e|src p|src i|activated o e|e|e|r0 ph0]; cbn [call_step] in H.
  - destruct (resolve_turn _ _ _ _) as [[[]|] ?]; discriminate H.
  - discriminate H.
  - unfold activate in H. destruct (is_some _); [discriminate H|]. destruct (prepared_input p); discriminate H.
  - destruct (is_some _); [discriminate H|]. injection H as <- <- <-. split; try done. intros _ _. constructor.
  - destruct (outcome_step _ _ _ _) as [[[] ?]| |]; try discriminate H. by destruct activated.
  - discriminate H.
  - discriminate H.
  - eapply turn_step_story; [by apply S|by destruct Hc|done].
Qed.

Lemma more_aborting w n : stories w -> 
  stories {| share := share w; calls := calls w; interrupting := interrupting w; aborting := {[n]} ∪ aborting w |}.
Proof. intros S m r ph E. destruct (S m r ph E) as [S1 S2 S3 S4]. split; cbn; auto; set_solver. Qed.

Lemma more_interrupting w n : stories w ->
  stories {| share := share w; calls := calls w; interrupting := {[n]} ∪ interrupting w; aborting := aborting w |}.
Proof. intros S m r ph E. destruct (S m r ph E) as [S1 S2 S3 S4]. split; cbn; auto; set_solver. Qed.

Lemma runtime_step_stories w l w' : runtime_inv w -> stories w -> runtime_step w l = Some w' -> stories w'.
Proof using U.
  intros R S H. destruct l as [source t|n|n l|t g|n|n|n|n|n|persona mode|op es]; cbn -[step] in H.
  - destruct (reserve_turn _ _) as [[i|] l] eqn:E; [|done]. simplify_eq. by apply set_call_stories.
  - destruct (calls w !! n) as [c|] eqn:E; [|done]. cbn in H.
    destruct (call_step _ _ _) as [[h c']|] eqn:Ec; [|done]. cbn in H. simplify_eq.
    apply set_call_stories; [done|]. intros r ph ->. by eapply call_step_story.
  - destruct (turn_of w n) as [[r ph]|] eqn:E; [|done]. apply turn_of_Some in E. cbn -[step] in H. destruct (_ || _) eqn:Ea; [|done].
    destruct (step _ _ _) as [s|] eqn:Es; [|done]. cbn in H. simplify_eq. apply set_call_stories; [done|]. intros ? ? [= <- <-].
    apply state_story; [by apply S| |].
    + unfold interrupted. cbn. rewrite (step_external _ _ _ _ Es). destruct l; try done. by rewrite andb_false_r in Ea.
    + intros -> Hn. eapply reach_step; [by apply (S _ _ _ E)| |done]. destruct (consumer l) eqn:Ec; [by destruct l|].
      rewrite orb_false_r in Ea. by eapply running_granted.
  - destruct (interrupt_lookup _ _ _); [|done]. simplify_eq. by apply more_interrupting.
  - case_bool_decide as Hi; [|done]. destruct (turn_of w n) as [[r ph]|] eqn:E; [|done]. apply turn_of_Some in E. cbn in H. simplify_eq.
    apply set_call_stories; [done|]. intros ? ? [= <- <-]. destruct (S _ _ _ E) as [S1 S2 S3 S4]. split; auto.
    intros -> Hn. eapply (reach_step _ _ _ L_interrupt); [by apply S2|done|done].
  - case_bool_decide as Hi; [|done]. destruct (turn_of w n) as [[r ph]|] eqn:E; [|done]. apply turn_of_Some in E. cbn -[step] in H.
    destruct (step _ _ _) as [s|] eqn:Es; [|done]. cbn in H. simplify_eq. apply set_call_stories; [done|]. intros ? ? [= <- <-].
    apply state_story; [by apply S|exact (step_external _ _ _ _ Es)|].
    intros -> Hn. eapply reach_step; [by apply (S _ _ _ E)| |done]. done.
  - destruct (turn_of w n) as [[r ph]|] eqn:E; [|done]. cbn in H. simplify_eq. by apply more_aborting.
  - case_bool_decide as Hi; [|done]. destruct (turn_of w n) as [[r ph]|] eqn:E; [|done]. apply turn_of_Some in E. cbn in H. simplify_eq.
    apply set_call_stories; [done|]. intros ? ? [= <- <-]. apply state_story; [by apply S| |done].
    unfold interrupted, drop_worker. cbn. by destruct (w_pc _).
  - case_bool_decide as Hi; [|done]. destruct (turn_of w n) as [[r ph]|] eqn:E; [|done]. apply turn_of_Some in E. cbn in H.
    destruct (reap ph) as [ph'|] eqn:Er; [|done]. cbn in H. simplify_eq. apply set_call_stories; [done|]. intros ? ? [= <- <-].
    destruct (S _ _ _ E) as [S1 S2 S3 S4]. destruct ph; cbn in Er; simplify_eq; by split.
  - destruct (_ && _) eqn:Eu; [|done]. simplify_eq. intros m r ph E. by destruct (S m r ph E); split.
  - simplify_eq. intros m r ph E. by destruct (S m r ph E); split.
Qed.

Lemma runtime_run_inv ls : forall w w', runtime_inv w -> stories w -> runtime_run w ls = Some w' -> runtime_inv w' /\ stories w'.
Proof using U.
  induction ls as [|l ls IH]; intros w w' R S H; cbn in H; [by simplify_eq|].
  destruct (runtime_step w l) as [w1|] eqn:E; [|done]. eapply IH; [|by eapply runtime_step_stories|done].
  by eapply runtime_step_inv.
Qed.

Lemma run_call_step w n c h c' ls :
  w.(calls) !! n = Some c -> call_step w.(share) (nth_identity n) c = Some (h, c') ->
  runtime_run w (R_step n :: ls) = runtime_run (set_call w h n c') ls.
Proof. intros Hc Hs. cbn [runtime_run runtime_step]. rewrite Hc. cbn [mbind option_bind]. by rewrite Hs. Qed.

(** A context nobody has used. *)
Definition fresh (x : ConversationContext P) : Prop :=
  x.(lifecycle) = lifecycle_default /\ wf x.(quality) /\ x.(quality).(pending_turn) = None.

Lemma fresh_run_inv x ls w : fresh x -> runtime_run (runtime_new x) ls = Some w -> runtime_inv w /\ stories w.
Proof using U. intros (H1 & H2 & H3) H. eapply runtime_run_inv; [by apply runtime_new_inv|by intros ? ? ?|done]. Qed.

(** Nothing shared is this turn's. *)
Definition released (h : shared P) (n : Z) : Prop :=
  active_turn h.(ctx).(lifecycle) <> Some (nth_identity n) /\
  permits h.(guard) (TurnId_new n) (GenerationId_new n) = false /\
  slot_is h.(slot) (TurnId_new n) (GenerationId_new n) = false.

(** The call has returned and its task, if it has one, has ended. *)
Definition over (c : call) : bool :=
  match c with
  | C_failed _ | C_turn _ (P_ended _) | C_turn _ (P_reaped (A_aborted _)) => true
  | _ => false
  end.

Definition about_to_publish (c : call) : bool := match c with C_turn _ (P_publish _) => true | _ => over c end.

Definition free (h : shared P) : Prop :=
  h.(ctx).(lifecycle).(active) = None /\ h.(ctx).(quality).(pending_turn) = None /\ h.(guard) = None /\ h.(slot) = None.

Lemma call_ok_released h n c : call_ok h n c -> about_to_publish c = true -> released h n.
Proof.
  intros [H1 H2 H3 _ _] Ho. assert (C : ctx_at (ctx h) n None -> active_turn (lifecycle (ctx h)) <> Some (nth_identity n)).
  { unfold active_turn. intros C. cbn in C. destruct (active _) as [a|]; [|done]. cbn. intros [= E]. by apply (C a). }
  destruct c as [| | | | | | |r [| | | | | | | |[]]]; try discriminate Ho; cbn in H1, H2, H3; split_and!; auto.
  exact (C (proj1 H1)).
Qed.

Lemma quiet_free w : runtime_inv w -> (forall n c, w.(calls) !! n = Some c -> over c = true) -> free w.(share).
Proof.
  intros R Ho. assert (Rel : forall n, is_Some (calls w !! n) -> released (share w) n).
  { intros n [c Hc]. eapply call_ok_released; [by apply R|]. specialize (Ho n c Hc). by destruct c as [| | | | | | |? []]. }
  destruct (ri_shared _ R) as [[[_ Hl] _ Hi] Hg Hs].
  assert (A : active (lifecycle (ctx (share w))) = None).
  { destruct (active _) as [a|] eqn:E; [|done]. destruct (Rel _ (ri_owner _ R ltac:(by rewrite E))) as [N _].
    destruct N. unfold active_turn. rewrite E. cbn. f_equal. by apply Hl. }
  split_and!; [done|auto| |].
  - destruct (guard (share w)) as [i|] eqn:E; [|done]. destruct (Hg i eq_refl) as [n Hn]. rewrite <- E in Hn.
    destruct (Rel n (ri_guard _ R n Hn)) as (_ & N & _). unfold guard_has in Hn. congruence.
  - destruct (slot (share w)) as [a|] eqn:E; [|done]. destruct (Hs a eq_refl) as (n & Hn & _). rewrite <- E in Hn.
    destruct (Rel n (ri_slot _ R n Hn)) as (_ & _ & N). unfold slot_has in Hn. congruence.
Qed.

End Stories.

(** ** A conversation *)

Module Conversation.
Definition controls : ResponseControls :=
  {| maximum_spoken_seconds := 20; controls_directness := PersonaLevel_raw 80;
     pace := Natural; follow_up_policy := Contextual; silence_policy := AllowWithoutFiller |}.

Definition context : ConversationContext unit := context_new (controller_new PersonaProfile_default controls DirectAnswer).

Lemma fresh_context : fresh context.
Proof. split; [done|]. split; [|done]. unfold wf, in_bounds. cbn. by split_and!. Qed.

Definition starting (n : Z) : list runtime_label := [R_start Text (lit "hello"); R_step n; R_step n; R_step n].

(** Outcome, text, guard, slot, terminal event. *)
Definition ending (n : Z) : list runtime_label := repeat (R_step n) 8.

Definition spoken : list runtime_label := starting 1 ++ map (R_turn 1) Sample.whole_turn ++ ending 1.

Example spoken_turn :
  exists w r, runtime_run (U := ascii_tables) (runtime_new context) spoken = Some w /\
    w.(calls) !! 1 = Some (C_turn r (P_ended (TurnCompleted (TurnId_new 1)))) /\
    map_to_list w.(calls) = [(1, C_turn r (P_ended (TurnCompleted (TurnId_new 1))))] /\
    map (fun e => (e.(user).(text), e.(assistant).(text))) w.(share).(ctx).(quality).(history) = [(lit "hello", lit "**Hi.**")] /\
    w.(share).(ctx).(lifecycle).(sequence) = 1.
Proof. do 2 eexists. split; [vm_compute; reflexivity|]. split_and!; vm_compute; reflexivity. Qed.

Example started_turn :
  exists w r, runtime_run (U := ascii_tables) (runtime_new context) (starting 1) = Some w /\
    w.(calls) !! 1 = Some (C_turn r P_running).
Proof. do 2 eexists. split; vm_compute; reflexivity. Qed.

(** Interrupted while it speaks; the second turn starts once it is over. *)
Definition barged_in : list runtime_label :=
  starting 1 ++ map (R_turn 1) (Sample.opening ++ Sample.speaking ++ [L_generation B_op A_done]) ++
  [R_interrupt (TurnId_new 1) (GenerationId_new 1); R_cancel 1; R_cancel_work 1;
   R_turn 1 (L_speech B_external A_done); R_turn 1 (L_speech B_op (A_frame None));
   R_turn 1 (L_generation B_external A_done); R_turn 1 (L_generation B_op A_done)] ++ repeat (R_step 1) 7 ++ starting 2.

Example barged_in_turn :
  exists w r r', runtime_run (U := ascii_tables) (runtime_new context) barged_in = Some w /\
    w.(calls) !! 1 = Some (C_turn r (P_ended (TurnCancelled (TurnId_new 1)))) /\
    w.(calls) !! 2 = Some (C_turn r' P_running) /\ bool_decide (1 ∈ w.(aborting)) = false.
Proof. do 3 eexists. split; [vm_compute; reflexivity|]. split_and!; vm_compute; reflexivity. Qed.
End Conversation.

Lemma spoken_over :
  exists w, runtime_run (U := ascii_tables) (runtime_new Conversation.context) Conversation.spoken = Some w /\
    (forall n c, w.(calls) !! n = Some c -> over c = true) /\ is_Some (w.(calls) !! 1) /\
    w.(share).(ctx).(lifecycle).(sequence) = 1.
Proof.
  destruct Conversation.spoken_turn as (w & r & E & L & M & _ & S). exists w. split; [exact E|]. clear E.
  split; [|split; [eexists; exact L|exact S]].
  intros n c Hc. apply elem_of_map_to_list in Hc. rewrite M, list_elem_of_singleton in Hc. by simplify_eq.
Qed.

(** A turn that is about to complete with an answer of 16 KiB and a byte. *)
Definition long_answer : rstr := repeat 97 (Z.to_nat 16385).

Lemma long_answer_call :
  exists h r, shared_ok (P := unit) h /\
    call_ok h 1 (C_turn r (P_outcome (TurnCompleted (TurnId_new 1)) (Complete long_answer) O_begin)).
Proof.
  destruct Conversation.started_turn as (w & r & E & L). exists w.(share), r.
  destruct (fresh_run_inv Conversation.context _ w Conversation.fresh_context E) as [R _]. clear E. split; [apply R|].
  destruct (ri_calls _ R _ _ L) as [H1 H2 H3 _ H5]. split; [exact H1|exact H2|exact H3|exact I|exact H5].
Qed.

(** ** The guarantees *)

(** C10. Whatever calls, tasks, interruptions and aborts run concurrently, a turn
    gives back everything before anyone learns that it is over: when its
    terminal event is about to be published, when it was published, when a
    start failed and when an abort returned, the conversation is not active for
    it, the generation guard does not name it and the slot does not hold it.
    What is published is a terminal event of that turn; an abort that found its
    task alive or ended returns without an error, however far the task had come
    with finalizing the conversation. Once every call is over, conversation,
    guard and slot are free. *)
Theorem turn_gives_everything_back (U : UnicodeTables) (P : Type) (x : ConversationContext P) ls w
  (unused : fresh x) (ran : runtime_run (runtime_new x) ls = Some w) :
  (forall n c, w.(calls) !! n = Some c -> about_to_publish c = true -> released w.(share) n) /\
  (forall n r t, w.(calls) !! n = Some (C_turn r (P_ended t)) -> is_terminal t = true /\ event_turn_id t = TurnId_new n) /\
  (forall n r res, w.(calls) !! n = Some (C_turn r (P_reaped (A_aborted res))) -> res = Ok tt) /\
  ((forall n c, w.(calls) !! n = Some c -> over c = true) -> free w.(share)).
Proof.
  destruct (fresh_run_inv x ls w unused ran) as [R S]. split_and!.
  - intros n c Hc. apply call_ok_released. by apply R.
  - intros n r t Hc. by apply (sr_terminal _ _ _ _ (S _ _ _ Hc)).
  - intros n r res Hc. by destruct (co_ctx _ _ _ (ri_calls _ R _ _ Hc)).
  - by apply quiet_free.
Qed.

Lemma turn_gives_everything_back_witness :
  exists w, is_Some (w.(calls) !! 1) /\ free (P := unit) w.(share).
Proof.
  destruct spoken_over as (w & E & O & S & _). exists w. split; [exact S|].
  exact (proj2 (proj2 (proj2 (turn_gives_everything_back ascii_tables unit Conversation.context _ w Conversation.fresh_context E))) O).
Defined.

(** A runtime whose calls are all over accepts the next turn at once: any
    transcript that is not blank and fits a message is started, whatever
    happened before (failures, interruptions, aborts at any point), and its task
    runs on exactly that transcript. *)
Theorem idle_runtime_accepts_turn (U : UnicodeTables) (P : Type) (x : ConversationContext P) ls w source transcript
  (unused : fresh x) (ran : runtime_run (runtime_new x) ls = Some w)
  (idle : forall n c, w.(calls) !! n = Some c -> over c = true)
  (left : w.(share).(ctx).(lifecycle).(sequence) < u64_max)
  (words : is_blank transcript = false) (fits : blen transcript <= MAX_CONVERSATION_MESSAGE_BYTES) :
  let n := w.(share).(ctx).(lifecycle).(sequence) + 1 in
  exists w' r, runtime_run w [R_start source transcript; R_step n; R_step n; R_step n] = Some w' /\
    w'.(calls) !! n = Some (C_turn r P_running) /\ r.(state) = initial r.(task) /\
    r.(task).(task_turn_id) = TurnId_new n /\ r.(task).(task_language_input).(input_transcript) = transcript.
Proof.
  destruct (fresh_run_inv x ls w unused ran) as [R _]. destruct (quiet_free w R idle) as (Fa & Fp & Fg & Fs).
  pose proof (so_ctx _ (ri_shared _ R)) as [[Hseq _] Hq _]. intros n.
  destruct (resolve_turn_Ok w.(share).(ctx).(quality) (TurnId_new n) transcript None Hq Fp words fits) as (k & q & c' & E & _).
  pose proof (resolve_turn_fits _ _ _ _ _ _ Hq E) as [_ Hfit].
  set (ls' := [R_step n; R_step n; R_step n]). cbn [runtime_run runtime_step]. rewrite reserve_turn_idle by (done || lia).
  fold n. unfold ls'. erewrite run_call_step; [|apply lookup_insert_eq|cbn; rewrite E; reflexivity].
  erewrite run_call_step; [|apply lookup_insert_eq|].
  2: { cbn -[with_quality_and_memory]. unfold activate. rewrite Fg. cbn [is_some]. unfold prepared_input, input_with_quality. cbn [prepared_transcript prepared_resolved].
       rewrite with_quality_and_memory_Ok by done. reflexivity. }
  erewrite run_call_step; [|apply lookup_insert_eq|cbn; rewrite Fs; reflexivity].
  do 2 eexists. split; [reflexivity|]. split; [apply lookup_insert_eq|]. done.
Qed.

Lemma idle_runtime_accepts_turn_witness :
  exists w w' r, (forall n c, w.(calls) !! n = Some c -> over c = true) /\
    runtime_run (U := ascii_tables) (P := unit) w [R_start Text (lit "again"); R_step 2; R_step 2; R_step 2] = Some w' /\
    w'.(calls) !! 2 = Some (C_turn r P_running).
Proof.
  destruct spoken_over as (w & E & O & _ & S). exists w.
  assert (L : w.(share).(ctx).(lifecycle).(sequence) < u64_max) by (rewrite S; reflexivity).
  destruct (idle_runtime_accepts_turn ascii_tables unit Conversation.context _ w Text (lit "again") Conversation.fresh_context E O L)
    as (w' & r & H1 & H2 & _); [reflexivity|vm_compute; discriminate|].
  rewrite S in H1, H2. exists w', r. exact (conj O (conj H1 H2)).
Defined.

(** C20. Turns exclude each other and are cancelled by name: at any moment at
    most one turn runs, the generation guard grants its permits, and a turn that
    nobody aborted is reported as cancelled only if [interrupt] was called with
    its own turn and generation while it held the slot. An interruption of one
    turn never cancels another, and no failure is reported as a cancellation. *)
Theorem turns_exclusive_and_cancelled_by_name (U : UnicodeTables) (P : Type) (x : ConversationContext P) ls w
  (unused : fresh x) (ran : runtime_run (runtime_new x) ls = Some w) :
  (forall n m r r', w.(calls) !! n = Some (C_turn r P_running) -> w.(calls) !! m = Some (C_turn r' P_running) -> n = m) /\
  (forall n r, w.(calls) !! n = Some (C_turn r P_running) ->
     permits w.(share).(guard) r.(task).(task_turn_id) r.(task).(task_generation_id) = true) /\
  (forall n r t, w.(calls) !! n = Some (C_turn r (P_ended (TurnCancelled t))) -> n ∉ w.(aborting) -> n ∈ w.(interrupting)).
Proof.
  destruct (fresh_run_inv x ls w unused ran) as [R S].
  assert (G : forall n r, calls w !! n = Some (C_turn r P_running) -> guard_has (guard (share w)) n = true).
  { intros n r Hc. apply (co_guard _ _ _ (ri_calls _ R _ _ Hc)). }
  split_and!.
  - intros n m r r' Hn Hm. eapply guard_has_unique; by eapply G.
  - intros n r Hc. destruct (co_turn _ _ _ (ri_calls _ R _ _ Hc)) as [-> -> _ _]. by eapply G.
  - intros n r t Hc Ha. destruct (S _ _ _ Hc) as [S1 _ S3 _]. by eapply S1, S3.
Qed.

Lemma turns_exclusive_and_cancelled_by_name_witness :
  exists w r r', w.(calls) !! 1 = Some (C_turn r (P_ended (TurnCancelled (TurnId_new 1)))) /\
    w.(calls) !! 2 = Some (C_turn r' P_running) /\ 1 ∈ w.(interrupting) /\
    permits (w : world unit).(share).(guard) r'.(task).(task_turn_id) r'.(task).(task_generation_id) = true.
Proof.
  destruct Conversation.barged_in_turn as (w & r & r' & E & H1 & H2 & H3). exists w, r, r'.
  apply bool_decide_eq_false in H3.
  destruct (turns_exclusive_and_cancelled_by_name ascii_tables unit Conversation.context _ w Conversation.fresh_context E) as (_ & T1 & T2).
  exact (conj H1 (conj H2 (conj (T2 1 r _ H1 H3) (T1 2 r' H2)))).
Defined.

(** Where such a turn is after the conversation was told. *)
Definition after_long_answer (n : Z) (t : TurnId) (text : rstr) (e : RuntimeError) : phase :=
  if MAX_HISTORY_BYTES <? blen text then P_text (TurnCompleted t) else P_deactivate (TurnFailed (TurnId_new n) e).

(** C40. A completed turn whose text is longer than a message: up to the size of the
    whole history the conversation refuses the outcome and the turn, although it
    was spoken to the end, is reported as failed; beyond that size the exchange
    is only left out of the history and the turn is reported as completed. *)
Theorem long_answer_reported_failed (P : Type) (h : shared P) n r t text
  (shared_inv : shared_ok h) (call_inv : call_ok h n (C_turn r (P_outcome (TurnCompleted t) (Complete text) O_begin)))
  (words : is_blank text = false) (long : MAX_CONVERSATION_MESSAGE_BYTES < blen text) :
  exists h1 h2 h3 o1 o2 e,
    turn_step h (nth_identity n) r (P_outcome (TurnCompleted t) (Complete text) O_begin) =
      Some (h1, C_turn r (P_outcome (TurnCompleted t) (Complete text) o1)) /\
    turn_step h1 (nth_identity n) r (P_outcome (TurnCompleted t) (Complete text) o1) =
      Some (h2, C_turn r (P_outcome (TurnCompleted t) (Complete text) o2)) /\
    turn_step h2 (nth_identity n) r (P_outcome (TurnCompleted t) (Complete text) o2) =
      Some (h3, C_turn r (after_long_answer n t text e)).
Proof.
  pose proof (so_ctx _ shared_inv) as Hx. pose proof (co_ctx _ _ _ call_inv) as Hv. cbn in Hv.
  destruct (begin_outcome_at h.(ctx) n false false true Hx Hv) as (l & E & Hv1 & _ & Hx1); [done|].
  destruct (take_pending_at _ _ _ Hv1) as [p Tp].
  assert (Q : exists res, complete_turn (quality (with_lifecycle (ctx h) l)) (TurnId_new n) text
     = Val (res, set_pending (quality (with_lifecycle (ctx h) l)) None) /\
     if MAX_HISTORY_BYTES <? blen text then res = Ok tt else exists e, res = Err e).
  { unfold complete_turn. rewrite Tp. destruct (MAX_HISTORY_BYTES <? blen text); [by eexists|].
    unfold ConversationMessage_new. rewrite words, (proj2 (Z.ltb_lt _ _) long). cbn. eexists. split; [done|by eexists]. }
  destruct Q as (res & Q & Hres).
  destruct (quality_change _ n (set_pending (quality (with_lifecycle (ctx h) l)) None) true true Hx1 Hv1) as (Hv2 & _ & Hx2).
  { pose proof (take_pending_wf _ (TurnId_new n) (ci_quality _ Hx1)) as W. by rewrite Tp in W. }
  { done. }
  destruct (finish_outcome_at _ n res Hx2 Hv2) as (l' & F & _).
  exists (with_ctx h (with_lifecycle h.(ctx) l)),
    (with_ctx h (with_quality (with_lifecycle h.(ctx) l) (set_pending (quality (with_lifecycle (ctx h) l)) None))).
  eexists _, (O_quality false), (O_finish res), (match res with Err e => e | Ok _ => still_active end).
  cbn [turn_step outcome_step]. rewrite E. split; [done|]. cbn [ctx with_ctx identity_turn_id nth_identity]. rewrite Q. split; [done|].
  cbn [ctx with_ctx]. rewrite F. cbn [identity_turn_id nth_identity]. unfold settled, after_long_answer.
  destruct (MAX_HISTORY_BYTES <? blen text); [by subst|]. by destruct Hres as [e ->].
Qed.

Lemma long_answer_reported_failed_witness :
  exists h1 h2 h3 r o1 o2 e,
    turn_step (P := unit) h1 (nth_identity 1) r (P_outcome (TurnCompleted (TurnId_new 1)) (Complete long_answer) o1) =
      Some (h2, C_turn r (P_outcome (TurnCompleted (TurnId_new 1)) (Complete long_answer) o2)) /\
    turn_step h2 (nth_identity 1) r (P_outcome (TurnCompleted (TurnId_new 1)) (Complete long_answer) o2) =
      Some (h3, C_turn r (P_deactivate (TurnFailed (TurnId_new 1) e))).
Proof.
  destruct long_answer_call as (h & r & Hh & Hc).
  destruct (long_answer_reported_failed unit h 1 r (TurnId_new 1) long_answer Hh Hc)
    as (h1 & h2 & h3 & o1 & o2 & e & _ & H2 & H3); [reflexivity|reflexivity|].
  exists h1, h2, h3, r, o1, o2, e. exact (conj H2 H3).
Defined.
