(* ===== verification/RecordingSafety.v ===== *)
(** * Recording limits and capture health

    [crates/runtime/src/recording_safety.rs]: the guard that decides, frame by
    frame, whether a recording is near or at one of its limits, and the monitor
    that reports the health of a live capture. *)

From S2P Require Import Prelude RustStr Errors Pcm Audio.

Definition MIB : Z := 1024 * 1024.
Definition DEFAULT_MIN_FREE_DISK_BYTES : Z := 512 * MIB.
Definition DEFAULT_MAX_RECORDING_DURATION_MS : Z := 8 * 60 * 60 * 1000.
Definition DEFAULT_MAX_RECORDING_BYTES : Z := 4 * 1024 * MIB.
Definition MAX_RECORDING_BYTES_LIMIT : Z := 8 * 1024 * MIB - MIB.
Definition SIZE_HEADROOM_BYTES : Z := 2 * (4 + 128 * 1024).
Definition WARNING_PERCENT : Z := 90.
Definition DISK_CHECK_INTERVAL_MS : Z := 1000.
Definition QUIET_PEAK_S16 : Z := 98.
(** The bit pattern of [0.003_f32]. *)
Definition QUIET_PEAK_F32 : Z := 0x3b449ba6.

Inductive RecordingLimit : Type :=
| FreeDiskSpace
| Duration
| Size
| Silence.

Inductive RecordingLimitState : Type :=
| Warning
| Stopped.

#[export] Instance RecordingLimit_eq_dec : EqDecision RecordingLimit.
Proof. solve_decision. Defined.
#[export] Instance RecordingLimitState_eq_dec : EqDecision RecordingLimitState.
Proof. solve_decision. Defined.

Definition limit_error (message : rstr) : RuntimeError :=
  RuntimeError_new Kind_Configuration Stage_AudioCapture message.

Record SilenceAutoStop : Type := {
  after_ms : Z;
  grace_ms : Z;
}.

Definition SilenceAutoStop_new (after grace : Z) : rresult SilenceAutoStop :=
  if (after =? 0) || (grace =? 0) then
    Err (limit_error (lit "silence auto-stop periods must be greater than zero"))
  else Ok {| after_ms := after; grace_ms := grace |}.

Record RecordingLimits : Type := {
  min_free_disk_bytes : Z;
  max_duration_ms : Z;
  max_bytes : Z;
  silence_auto_stop : option SilenceAutoStop;
}.

Definition RecordingLimits_default : RecordingLimits :=
  {| min_free_disk_bytes := DEFAULT_MIN_FREE_DISK_BYTES;
     max_duration_ms := DEFAULT_MAX_RECORDING_DURATION_MS;
     max_bytes := DEFAULT_MAX_RECORDING_BYTES;
     silence_auto_stop := None |}.

Definition RecordingLimits_new (disk duration bytes : Z) (silence : option SilenceAutoStop)
  : rresult RecordingLimits :=
  if (disk =? 0) || (duration =? 0) || (bytes =? 0) then
    Err (limit_error (lit "recording limits must be greater than zero"))
  else if MAX_RECORDING_BYTES_LIMIT <? bytes then
    Err (limit_error (lit "recording size limit exceeds what finalized recovery admits"))
  else
    Ok {| min_free_disk_bytes := disk; max_duration_ms := duration; max_bytes := bytes;
          silence_auto_stop := silence |}.

Definition LimitNotice : Type := RecordingLimit * RecordingLimitState.

Record FrameObservation : Type := {
  media_ms : Z;
  bytes : Z;
  frame_ms : Z;
  quiet : bool;
}.

Record RecordingSafetyGuard : Type := {
  limits : RecordingLimits;
  last_disk_check_ms : option Z;
  warned_size : bool;
  warned_duration : bool;
  quiet_ms : Z;
  warned_silence : bool;
}.

Definition Guard_new (l : RecordingLimits) : RecordingSafetyGuard :=
  {| limits := l; last_disk_check_ms := None; warned_size := false; warned_duration := false;
     quiet_ms := 0; warned_silence := false |}.

Definition warning_point (limit : Z) : Z :=
  limit / 100 * WARNING_PERCENT + limit mod 100 * WARNING_PERCENT / 100.

Definition stopped (limit : RecordingLimit) : LimitNotice := (limit, Stopped).
Definition warning (limit : RecordingLimit) : LimitNotice := (limit, Warning).

(** The free-space check at the head of [observe]: whether one is due, and the
    guard with the check recorded. *)
Definition disk_due (g : RecordingSafetyGuard) (frame : FrameObservation) : bool :=
  is_none_or g.(last_disk_check_ms)
    (fun last => DISK_CHECK_INTERVAL_MS <=? saturating_sub frame.(media_ms) last).

Definition set_disk_check (g : RecordingSafetyGuard) (ms : Z) : RecordingSafetyGuard :=
  {| limits := g.(limits); last_disk_check_ms := Some ms; warned_size := g.(warned_size);
     warned_duration := g.(warned_duration); quiet_ms := g.(quiet_ms);
     warned_silence := g.(warned_silence) |}.

Definition set_quiet (g : RecordingSafetyGuard) (ms : Z) (warned : bool) : RecordingSafetyGuard :=
  {| limits := g.(limits); last_disk_check_ms := g.(last_disk_check_ms);
     warned_size := g.(warned_size); warned_duration := g.(warned_duration);
     quiet_ms := ms; warned_silence := warned |}.

(** The quiet counter after a frame. *)
Definition count_quiet (g : RecordingSafetyGuard) (frame : FrameObservation) : RecordingSafetyGuard :=
  if frame.(quiet) then
    set_quiet g (saturating_add g.(quiet_ms) frame.(frame_ms)) g.(warned_silence)
  else set_quiet g 0 false.

(** The tail of [observe]: the warnings this frame crosses. *)
Definition collect_warnings (g : RecordingSafetyGuard) (frame : FrameObservation)
  : RecordingSafetyGuard * list LimitNotice :=
  let size := negb g.(warned_size) && (warning_point g.(limits).(max_bytes) <=? frame.(bytes)) in
  let duration := negb g.(warned_duration) &&
    (warning_point g.(limits).(max_duration_ms) <=? frame.(media_ms)) in
  let silence := match g.(limits).(silence_auto_stop) with
    | Some s => negb g.(warned_silence) && (s.(after_ms) <=? g.(quiet_ms))
    | None => false
    end in
  ({| limits := g.(limits); last_disk_check_ms := g.(last_disk_check_ms);
      warned_size := g.(warned_size) || size;
      warned_duration := g.(warned_duration) || duration;
      quiet_ms := g.(quiet_ms);
      warned_silence := g.(warned_silence) || silence |},
   (if size then [warning Size] else []) ++
   (if duration then [warning Duration] else []) ++
   (if silence then [warning Silence] else [])).

(** [free_disk_bytes] is what the closure would return; it is consulted only
    when a check is due. *)
Definition observe (g : RecordingSafetyGuard) (frame : FrameObservation)
    (free_disk_bytes : option Z) : RecordingSafetyGuard * list LimitNotice :=
  let due := disk_due g frame in
  let g := if due then set_disk_check g frame.(media_ms) else g in
  if due && is_some_and free_disk_bytes (fun free => free <? g.(limits).(min_free_disk_bytes)) then
    (g, [stopped FreeDiskSpace])
  else if g.(limits).(max_bytes) <? saturating_add frame.(bytes) SIZE_HEADROOM_BYTES then
    (g, [stopped Size])
  else if g.(limits).(max_duration_ms) <=? frame.(media_ms) then
    (g, [stopped Duration])
  else
    let g := count_quiet g frame in
    match g.(limits).(silence_auto_stop) with
    | Some s =>
        if saturating_add s.(after_ms) s.(grace_ms) <=? g.(quiet_ms) then (g, [stopped Silence])
        else collect_warnings g frame
    | None => collect_warnings g frame
    end.

Definition observe_write (g : RecordingSafetyGuard) (bytes : Z) : list LimitNotice :=
  if g.(limits).(max_bytes) <? saturating_add bytes SIZE_HEADROOM_BYTES then [stopped Size] else [].

(** ** Sample levels *)

(** [slice::chunks_exact]: whole chunks only, the remainder is dropped. *)
Definition chunks_exact2 : list Z -> list (Z * Z) :=
  fix go bs := match bs with
  | a :: b :: rest => (a, b) :: go rest
  | _ => []
  end.

Definition chunks_exact4 : list Z -> list (Z * Z * Z * Z) :=
  fix go bs := match bs with
  | a :: b :: c :: d :: rest => (a, b, c, d) :: go rest
  | _ => []
  end.

(** [i16::from_le_bytes] and [u32::from_le_bytes]. *)
Definition i16_from_le (a b : Z) : Z :=
  let u := a + 256 * b in if u <? 2 ^ 15 then u else u - 2 ^ 16.

Definition u32_from_le (a b c d : Z) : Z := a + 256 * b + 2 ^ 16 * c + 2 ^ 24 * d.

(** The magnitude of a finite [f32] in units of [2^-149]; [None] for an
    infinity or a NaN. *)
Definition f32_magnitude (bits : Z) : option Z :=
  let exponent := Z.land (Z.shiftr bits 23) 0xff in
  let mantissa := Z.land bits 0x7fffff in
  if exponent =? 255 then None
  else if exponent =? 0 then Some mantissa
  else Some ((2 ^ 23 + mantissa) * 2 ^ (exponent - 1)).

(** [x.abs() <= peak] with a finite [peak]: an infinity and a NaN are not. *)
Definition f32_abs_le (x peak : Z) : bool :=
  match f32_magnitude x, f32_magnitude peak with
  | Some a, Some b => a <=? b
  | _, _ => false
  end.

Definition frame_is_quiet (f : AudioFrame) : bool :=
  match f.(format).(sample_format) with
  | Signed16LittleEndian =>
      forallb (fun '(a, b) => Z.abs (i16_from_le a b) <=? QUIET_PEAK_S16) (chunks_exact2 f.(frame_bytes))
  | Float32LittleEndian =>
      forallb (fun '(a, b, c, d) => f32_abs_le (u32_from_le a b c d) QUIET_PEAK_F32)
        (chunks_exact4 f.(frame_bytes))
  end.

Definition count_samples (f : AudioFrame) : Z * Z :=
  match f.(format).(sample_format) with
  | Signed16LittleEndian =>
      (zlen f.(frame_bytes) / 2,
       zlen (List.filter (fun '(a, b) => negb ((a =? 0) && (b =? 0))) (chunks_exact2 f.(frame_bytes))))
  | Float32LittleEndian =>
      (zlen f.(frame_bytes) / 4,
       zlen (List.filter (fun '(a, b, c, d) =>
         negb (Z.land (u32_from_le a b c d) 0x7fffffff =? 0)) (chunks_exact4 f.(frame_bytes))))
  end.

(** ** Capture health *)

Definition MOSTLY_ZERO_NONZERO_PERCENT : Z := 25.
Definition HEALTH_WINDOW_MS : Z := 5000.
Definition MIN_REPORTED_GAP_MS : Z := 2000.

Record CaptureHealthReport : Type := {
  report_mostly_zero : bool;
  report_longest_gap_ms : Z;
}.

Record CaptureHealthMonitor : Type := Monitor {
  active : bool;
  audio_ends_at_ms : option Z;
  gap_since_ms : option Z;
  longest_gap_ms : Z;
  reported_gap_ms : Z;
  window_samples : Z;
  window_nonzero : Z;
  mostly_zero : bool;
}.

Definition Monitor_new : CaptureHealthMonitor := Monitor true None None 0 0 0 0 false.

Definition fold_gap (m : CaptureHealthMonitor) (now_ms : Z) : CaptureHealthMonitor :=
  if negb m.(active) then m
  else match opt_or m.(gap_since_ms) m.(audio_ends_at_ms) with
  | None => m
  | Some since =>
      Monitor m.(active) m.(audio_ends_at_ms) m.(gap_since_ms)
        (Z.max m.(longest_gap_ms) (saturating_sub now_ms since))
        m.(reported_gap_ms) m.(window_samples) m.(window_nonzero) m.(mostly_zero)
  end.

Definition gap_grew (m : CaptureHealthMonitor) : bool :=
  (MIN_REPORTED_GAP_MS <=? m.(longest_gap_ms)) &&
  (saturating_mul m.(reported_gap_ms) 2 <=? m.(longest_gap_ms)).

Definition report (m : CaptureHealthMonitor) (state_changed : bool)
  : CaptureHealthMonitor * option CaptureHealthReport :=
  let grew := gap_grew m in
  if negb state_changed && negb grew then (m, None)
  else
    (Monitor m.(active) m.(audio_ends_at_ms) m.(gap_since_ms) m.(longest_gap_ms)
       (if grew then m.(longest_gap_ms) else m.(reported_gap_ms))
       m.(window_samples) m.(window_nonzero) m.(mostly_zero),
     Some {| report_mostly_zero := m.(mostly_zero); report_longest_gap_ms := m.(longest_gap_ms) |}).

Definition window_target (f : PcmFormat) : Z :=
  saturating_mul (saturating_mul f.(sample_rate_hz) f.(channels)) HEALTH_WINDOW_MS / 1000.

Definition frame (m : CaptureHealthMonitor) (now_ms : Z) (fr : AudioFrame)
  : CaptureHealthMonitor * option CaptureHealthReport :=
  let m := fold_gap m now_ms in
  let duration := pcm_duration_ms fr.(format) (zlen fr.(frame_bytes)) in
  let '(samples, nonzero) := count_samples fr in
  let window_samples := saturating_add m.(window_samples) samples in
  let window_nonzero := saturating_add m.(window_nonzero) nonzero in
  let ends := Some (saturating_add now_ms duration) in
  if Z.max (window_target fr.(format)) 1 <=? window_samples then
    let mostly := saturating_mul window_nonzero 100
                  <? saturating_mul window_samples MOSTLY_ZERO_NONZERO_PERCENT in
    report (Monitor m.(active) ends None m.(longest_gap_ms) m.(reported_gap_ms) 0 0 mostly)
      (negb (Bool.eqb mostly m.(mostly_zero)))
  else
    report (Monitor m.(active) ends None m.(longest_gap_ms) m.(reported_gap_ms)
      window_samples window_nonzero m.(mostly_zero)) false.

Definition discontinuity (m : CaptureHealthMonitor) (now_ms : Z)
  : CaptureHealthMonitor * option CaptureHealthReport :=
  let m :=
    if m.(active) && is_none m.(gap_since_ms) then
      Monitor m.(active) m.(audio_ends_at_ms)
        (option_map (fun ends => Z.min ends now_ms) m.(audio_ends_at_ms))
        m.(longest_gap_ms) m.(reported_gap_ms) m.(window_samples) m.(window_nonzero) m.(mostly_zero)
    else m in
  report (fold_gap m now_ms) false.

Definition tick (m : CaptureHealthMonitor) (now_ms : Z)
  : CaptureHealthMonitor * option CaptureHealthReport :=
  report (fold_gap m now_ms) false.

Definition set_active (m : CaptureHealthMonitor) (act : bool) (now_ms : Z) : CaptureHealthMonitor :=
  if Bool.eqb act m.(active) then m
  else
    let m := fold_gap m now_ms in
    Monitor act (option_map (fun _ => now_ms) m.(audio_ends_at_ms)) None m.(longest_gap_ms)
      m.(reported_gap_ms) m.(window_samples) m.(window_nonzero) m.(mostly_zero).

(** ** Runs of the guard *)

Definition observation : Type := FrameObservation * option Z.

(** The guard after a sequence of frames, and the notices of each of them. *)
Fixpoint guard_run (g : RecordingSafetyGuard) (os : list observation)
  : RecordingSafetyGuard * list (list LimitNotice) :=
  match os with
  | [] => (g, [])
  | o :: rest =>
      let '(g1, n) := observe g o.1 o.2 in
      let '(g2, ns) := guard_run g1 rest in
      (g2, n :: ns)
  end.

Definition notices (g : RecordingSafetyGuard) (os : list observation) : list LimitNotice :=
  concat (guard_run g os).2.

Definition is_stop (n : LimitNotice) : bool := bool_decide (n.2 = Stopped).

Definition times (n : LimitNotice) (l : list LimitNotice) : nat :=
  length (filter (fun m => m = n) l).

(** No frame of the run stopped the recording. *)
Definition unstopped (g : RecordingSafetyGuard) (os : list observation) : Prop :=
  forallb (fun n => negb (is_stop n)) (notices g os) = true.

(** The audio time of the quiet frames at the end of a run. *)
Definition trailing_quiet_ms (os : list observation) : Z :=
  fold_left (fun acc o => if o.1.(quiet) then acc + o.1.(frame_ms) else 0) os 0.

Definition b2n (b : bool) : nat := if b then 1%nat else 0%nat.

(** What one call does, branch by branch: a stop alone, or the warnings of the
    counted state. *)
Inductive observed (g : RecordingSafetyGuard) (f : FrameObservation)
  : RecordingSafetyGuard * list LimitNotice -> Prop :=
| observed_early g' l :
    l <> Silence -> g'.(limits) = g.(limits) ->
    (g'.(warned_size), g'.(warned_duration)) = (g.(warned_size), g.(warned_duration)) ->
    (g'.(quiet_ms), g'.(warned_silence)) = (g.(quiet_ms), g.(warned_silence)) ->
    observed g f (g', [stopped l])
| observed_silence g0 s :
    (g0 = g \/ g0 = set_disk_check g f.(media_ms)) ->
    g.(limits).(silence_auto_stop) = Some s ->
    saturating_add s.(after_ms) s.(grace_ms) <= (count_quiet g0 f).(quiet_ms) ->
    observed g f (count_quiet g0 f, [stopped Silence])
| observed_warnings g0 :
    (g0 = g \/ g0 = set_disk_check g f.(media_ms)) ->
    f.(bytes) + SIZE_HEADROOM_BYTES <= g.(limits).(max_bytes) \/ u64_max <= g.(limits).(max_bytes) ->
    f.(media_ms) < g.(limits).(max_duration_ms) ->
    (forall s, g.(limits).(silence_auto_stop) = Some s ->
       (count_quiet g0 f).(quiet_ms) < saturating_add s.(after_ms) s.(grace_ms)) ->
    observed g f (collect_warnings (count_quiet g0 f) f).

Lemma count_quiet_limits g f : (count_quiet g f).(limits) = g.(limits).
Proof. unfold count_quiet. by destruct (quiet f). Qed.

Lemma observe_observed g f free : observed g f (observe g f free).
Proof.
  unfold observe. set (g0 := if disk_due g f then _ else g).
  assert (Hg : g0 = g \/ g0 = set_disk_check g f.(media_ms)) by (unfold g0; split_ifs; auto).
  assert (Hl : g0.(limits) = g.(limits)) by (destruct Hg as [-> | ->]; done).
  clearbody g0. rewrite Hl. split_ifs.
  1-3: apply observed_early; [done|done|destruct Hg as [-> | ->]; done..].
  rewrite count_quiet_limits, Hl.
  assert (f.(bytes) + SIZE_HEADROOM_BYTES <= g.(limits).(max_bytes) \/ u64_max <= g.(limits).(max_bytes)) by ints.
  destruct (silence_auto_stop (limits g)) as [s|] eqn:Es; [split_ifs|].
  - by eapply observed_silence.
  - apply observed_warnings; try done. intros s' E. by simplify_eq.
  - apply observed_warnings; try done. intros s' E. by simplify_eq.
Qed.

Lemma guard_run_app g os os' :
  guard_run g (os ++ os') =
  ((guard_run (guard_run g os).1 os').1, (guard_run g os).2 ++ (guard_run (guard_run g os).1 os').2).
Proof.
  revert g. induction os as [|o os IH]; intros g; simpl.
  - by destruct (guard_run g os').
  - destruct (observe g o.1 o.2) as [g1 n]. rewrite IH.
    by destruct (guard_run g1 os).
Qed.

Lemma notices_cons g o os :
  notices g (o :: os) = (observe g o.1 o.2).2 ++ notices (observe g o.1 o.2).1 os.
Proof.
  unfold notices. simpl. destruct (observe g o.1 o.2) as [g1 n]. simpl.
  by destruct (guard_run g1 os).
Qed.

Lemma notices_app g os os' :
  notices g (os ++ os') = notices g os ++ notices (guard_run g os).1 os'.
Proof. unfold notices. rewrite guard_run_app. simpl. by rewrite concat_app. Qed.

Lemma guard_run_cons g o os : (guard_run g (o :: os)).1 = (guard_run (observe g o.1 o.2).1 os).1.
Proof. simpl. destruct (observe g o.1 o.2) as [g1 n]. simpl. by destruct (guard_run g1 os). Qed.

Lemma times_app n l k : times n (l ++ k) = (times n l + times n k)%nat.
Proof. unfold times. by rewrite filter_app, length_app. Qed.

(** The flag of a warning counts it: it is issued at most when the flag turns. *)
Lemma observe_times g f free :
  let r := observe g f free in
  (times (warning Size) r.2 + b2n g.(warned_size) <= b2n r.1.(warned_size))%nat /\
  (times (warning Duration) r.2 + b2n g.(warned_duration) <= b2n r.1.(warned_duration))%nat.
Proof.
  cbv zeta. destruct (observe_observed g f free) as [g' l H1 H2 H3 H4|g0 s Hg|g0 Hg].
  - destruct g', g; simpl in *. simplify_eq. by destruct l.
  - unfold count_quiet. destruct Hg as [-> | ->], (quiet f); simpl; split; done || (cbn; lia).
  - assert (Hw : warned_size (count_quiet g0 f) = warned_size g /\
                 warned_duration (count_quiet g0 f) = warned_duration g).
    { unfold count_quiet. by destruct Hg as [-> | ->], (quiet f). }
    destruct Hw as [Hs Hd]. unfold collect_warnings. cbn [fst snd warned_size warned_duration].
    rewrite Hs, Hd. set (silence := match _ with Some _ => _ | None => _ end).
    destruct (warned_size g), (warned_duration g), silence;
      cbn [negb andb orb]; split_ifs; vm_compute; repeat constructor.
Qed.

Lemma times_run g os :
  (times (warning Size) (notices g os) + b2n g.(warned_size) <= 1)%nat /\
  (times (warning Duration) (notices g os) + b2n g.(warned_duration) <= 1)%nat.
Proof.
  revert g. induction os as [|o os IH]; intros g.
  - cbn. by destruct (warned_size g), (warned_duration g); cbn; repeat constructor.
  - rewrite notices_cons, !times_app. specialize (IH (observe g o.1 o.2).1).
    destruct (observe_times g o.1 o.2). lia.
Qed.

Lemma observe_shape g f free :
  (exists l, (observe g f free).2 = [stopped l]) \/
  forallb (fun n => negb (is_stop n)) (observe g f free).2 = true.
Proof.
  destruct (observe_observed g f free); simpl; [eauto..|]. right.
  by split_ifs.
Qed.

Lemma observe_silence_times g f free :
  f.(quiet) = true ->
  (times (warning Silence) (observe g f free).2 + b2n g.(warned_silence)
     <= b2n (observe g f free).1.(warned_silence))%nat.
Proof.
  intros Q. destruct (observe_observed g f free) as [g' l H1 H2 H3 H4|g0 s Hg|g0 Hg].
  - destruct g', g; simpl in *. simplify_eq. by destruct l.
  - unfold count_quiet. rewrite Q. by destruct Hg as [-> | ->].
  - unfold collect_warnings. cbn [fst snd warned_silence].
    replace (warned_silence (count_quiet g0 f)) with (warned_silence g)
      by (unfold count_quiet; rewrite Q; by destruct Hg as [-> | ->]).
    destruct (warned_silence g), (silence_auto_stop (limits (count_quiet g0 f)));
      cbn [negb andb orb]; split_ifs; vm_compute; repeat constructor.
Qed.

Lemma silence_times_run g os :
  Forall (fun o => o.1.(quiet) = true) os ->
  (times (warning Silence) (notices g os) + b2n g.(warned_silence) <= 1)%nat.
Proof.
  intros H. revert g. induction H as [|o os Q H IH]; intros g.
  - cbn. by destruct (warned_silence g); cbn; repeat constructor.
  - rewrite notices_cons, times_app. specialize (IH (observe g o.1 o.2).1).
    pose proof (observe_silence_times g o.1 o.2 Q). lia.
Qed.

Lemma trailing_quiet_snoc os o :
  trailing_quiet_ms (os ++ [o]) = if o.1.(quiet) then trailing_quiet_ms os + o.1.(frame_ms) else 0.
Proof. unfold trailing_quiet_ms. by rewrite fold_left_app. Qed.

Lemma trailing_quiet_nonneg os :
  Forall (fun o => 0 <= o.1.(frame_ms)) os -> 0 <= trailing_quiet_ms os.
Proof.
  induction os as [|o os IH] using rev_ind; intros H; [done|].
  apply Forall_app in H as [H Ho]. rewrite trailing_quiet_snoc.
  inversion_clear Ho. specialize (IH H). split_ifs; lia.
Qed.

Lemma unstopped_snoc g os o :
  unstopped g (os ++ [o]) ->
  unstopped g os /\
  forallb (fun n => negb (is_stop n)) (observe (guard_run g os).1 o.1 o.2).2 = true.
Proof.
  unfold unstopped. rewrite notices_app, notices_cons, forallb_app.
  intros [H1 H2]%andb_prop. rewrite forallb_app in H2. by apply andb_prop in H2 as [H2 _].
Qed.

Lemma guard_run_snoc g os o :
  (guard_run g (os ++ [o])).1 = (observe (guard_run g os).1 o.1 o.2).1.
Proof. rewrite guard_run_app. simpl. by destruct (observe _ _ _). Qed.

Lemma observe_limits g f free : (observe g f free).1.(limits) = g.(limits).
Proof.
  destruct (observe_observed g f free) as [|g0 s Hg|g0 Hg]; simpl; [done|..];
    rewrite count_quiet_limits; by destruct Hg as [-> | ->].
Qed.

Lemma guard_run_limits g os : (guard_run g os).1.(limits) = g.(limits).
Proof.
  induction os as [|o os IH] using rev_ind; [done|]. by rewrite guard_run_snoc, observe_limits.
Qed.

(** The state a call that stops nothing leaves. *)
Lemma observe_continues g f free :
  forallb (fun n => negb (is_stop n)) (observe g f free).2 = true ->
  exists g0, (g0 = g \/ g0 = set_disk_check g f.(media_ms)) /\
    observe g f free = collect_warnings (count_quiet g0 f) f.
Proof.
  destruct (observe_observed g f free) as [| |g0 Hg]; [done..|]. eauto.
Qed.

Lemma quiet_ms_run l os :
  Forall (fun o => 0 <= o.1.(frame_ms)) os -> unstopped (Guard_new l) os ->
  (guard_run (Guard_new l) os).1.(quiet_ms) = Z.min u64_max (trailing_quiet_ms os).
Proof.
  induction os as [|o os IH] using rev_ind; intros Hf Hu; [done|].
  apply Forall_app in Hf as [Hf Ho]. inversion_clear Ho. apply unstopped_snoc in Hu as [Hu Hn].
  specialize (IH Hf Hu). pose proof (trailing_quiet_nonneg os Hf).
  rewrite guard_run_snoc, trailing_quiet_snoc.
  destruct (observe_continues _ _ _ Hn) as (g0 & Hg & ->). simpl. unfold count_quiet.
  replace (quiet_ms g0) with (Z.min u64_max (trailing_quiet_ms os))
    by (rewrite <- IH; destruct Hg as [-> | ->]; done).
  destruct (quiet o.1); cbn [set_quiet quiet_ms]; [|done]. ints.
Qed.

(** A recording that is still running has warned of every silence longer than
    [after_ms]. *)
Lemma silence_warned_run l s os :
  l.(silence_auto_stop) = Some s -> 0 < s.(after_ms) -> unstopped (Guard_new l) os ->
  let g := (guard_run (Guard_new l) os).1 in
  (s.(after_ms) <= g.(quiet_ms) -> g.(warned_silence) = true) /\
  (g.(warned_silence) = true ->
   exists pre q, os = pre ++ q /\ Forall (fun o => o.1.(quiet) = true) q /\
     warning Silence ∈ notices (guard_run (Guard_new l) pre).1 q).
Proof.
  intros Hs Ha. cbv zeta. induction os as [|o os IH] using rev_ind; intros Hu.
  { split; simpl; [lia|done]. }
  apply unstopped_snoc in Hu as [Hu Hn]. destruct (IH Hu) as [_ IH2]. clear IH.
  pose proof (guard_run_limits (Guard_new l) os) as Hl.
  rewrite guard_run_snoc. set (g := (guard_run (Guard_new l) os).1) in *.
  destruct (observe_continues _ _ _ Hn) as (g0 & Hg & E).
  assert (Hl0 : g0.(limits) = l) by (destruct Hg as [-> | ->]; done).
  assert (Hw0 : g0.(warned_silence) = g.(warned_silence)) by (destruct Hg as [-> | ->]; done).
  rewrite E. cbn [collect_warnings fst warned_silence quiet_ms].
  rewrite count_quiet_limits, Hl0, Hs. split.
  { intros H. destruct (warned_silence (count_quiet g0 o.1)); [done|].
    cbn [negb andb orb]. by apply Z.leb_le. }
  destruct (quiet o.1) eqn:Q.
  - destruct (warned_silence g) eqn:W.
    + intros _. destruct (IH2 eq_refl) as (pre & q & -> & Hq & Hin).
      exists pre, (q ++ [o]). split_and!; [by rewrite app_assoc| |].
      * by apply Forall_app_2, Forall_singleton.
      * rewrite notices_app. by apply elem_of_app; left.
    + intros Hwarn. exists os, [o]. split_and!; [done|by apply Forall_singleton|].
      fold g. rewrite notices_cons. apply elem_of_app; left. rewrite E. unfold collect_warnings.
      rewrite count_quiet_limits, Hl0, Hs.
      assert (warned_silence (count_quiet g0 o.1) = false) as W0
        by (unfold count_quiet; rewrite Q; by rewrite <- Hw0 in W).
      rewrite W0 in *. cbn [orb negb andb] in *. rewrite Hwarn. simpl.
      set_solver.
  - unfold count_quiet. rewrite Q. simpl. intros H. apply Z.leb_le in H. lia.
Qed.

(** ** Claims on the guard *)

(** Over any sequence of frames a recording is warned at most once of its
    size and at most once of its duration, at most once of a silence as long as
    every frame is quiet, and each call returns either one stop alone or no
    stop at all. *)
Theorem guard_notices_bounded l os :
  (times (warning Size) (notices (Guard_new l) os) <= 1)%nat /\
  (times (warning Duration) (notices (Guard_new l) os) <= 1)%nat /\
  (forall pre q, os = pre ++ q -> Forall (fun o => o.1.(quiet) = true) q ->
     (times (warning Silence) (notices (guard_run (Guard_new l) pre).1 q) <= 1)%nat) /\
  (forall g f free, (exists lim, (observe g f free).2 = [stopped lim]) \/
     forallb (fun n => negb (is_stop n)) (observe g f free).2 = true).
Proof.
  destruct (times_run (Guard_new l) os). split_and!; [lia..| |apply observe_shape].
  intros pre q _ Hq. pose proof (silence_times_run (guard_run (Guard_new l) pre).1 q Hq). lia.
Qed.

(** The silence auto-stop is earned and announced: a recording that runs
    under [SilenceAutoStop {after, grace}] and is stopped for silence has just
    heard at least [after + grace] milliseconds of uninterrupted quiet audio,
    and, unless a single frame is longer than the grace period, a silence
    warning was issued earlier within that same quiet stretch. *)
Theorem silence_stop_is_earned l s os f free :
  l.(silence_auto_stop) = Some s ->
  0 < s.(after_ms) -> 0 < s.(grace_ms) -> s.(after_ms) + s.(grace_ms) <= u64_max ->
  Forall (fun o => 0 <= o.1.(frame_ms)) (os ++ [(f, free)]) ->
  unstopped (Guard_new l) os ->
  (observe (guard_run (Guard_new l) os).1 f free).2 = [stopped Silence] ->
  s.(after_ms) + s.(grace_ms) <= trailing_quiet_ms (os ++ [(f, free)]) /\
  (f.(frame_ms) <= s.(grace_ms) ->
   exists pre q, os = pre ++ q /\ Forall (fun o => o.1.(quiet) = true) q /\
     warning Silence ∈ notices (guard_run (Guard_new l) pre).1 q).
Proof.
  intros Hs Ha Hgr0 Hsum Hf Hu Hstop. apply Forall_app in Hf as [Hf Hlast]. inversion_clear Hlast.
  pose proof (quiet_ms_run l os Hf Hu) as Hq. pose proof (trailing_quiet_nonneg os Hf).
  destruct (silence_warned_run l s os Hs Ha Hu) as [Hw1 Hw2].
  pose proof (guard_run_limits (Guard_new l) os) as Hl. rewrite trailing_quiet_snoc. simpl.
  set (g := (guard_run (Guard_new l) os).1) in *. revert Hstop.
  destruct (observe_observed g f free) as [g' lim Hne|g0 s' Hg Hs' Hge|g0 Hg].
  - cbn. intros ?. by simplify_eq.
  - intros _. rewrite Hl in Hs'. simpl in Hs'. simplify_eq. unfold count_quiet in Hge.
    replace (quiet_ms g0) with (quiet_ms g) in Hge by (destruct Hg as [-> | ->]; done).
    destruct (quiet f); cbn [set_quiet quiet_ms] in Hge; [|ints].
    split; [ints|]. intros Hgr. destruct Hw2 as (pre & q & E & Hq' & Hin); [apply Hw1; ints|].
    by exists pre, q.
  - unfold collect_warnings. cbn [snd]. intros E. exfalso.
    assert (stopped Silence ∈ [stopped Silence]) as Hin by set_solver. rewrite <- E in Hin.
    revert Hin. split_ifs; set_solver.
Qed.

Lemma silence_stop_is_earned_witness :
  exists l s os f free,
    (observe (guard_run (Guard_new l) os).1 f free).2 = [stopped Silence] /\
    s.(after_ms) + s.(grace_ms) <= trailing_quiet_ms (os ++ [(f, free)]) /\
    exists pre q, os = pre ++ q /\ Forall (fun o => o.1.(quiet) = true) q /\
      warning Silence ∈ notices (guard_run (Guard_new l) pre).1 q.
Proof.
  set (s := {| after_ms := 40; grace_ms := 20 |}).
  set (l := {| min_free_disk_bytes := 1; max_duration_ms := 1000; max_bytes := MIB;
               silence_auto_stop := Some s |}).
  set (fr := fun m q => {| media_ms := m; bytes := 100; frame_ms := 20; quiet := q |}).
  exists l, s, [(fr 20 false, None); (fr 40 true, None); (fr 60 true, None)], (fr 80 true), None.
  split; [reflexivity|].
  destruct (silence_stop_is_earned l s
    [(fr 20 false, None); (fr 40 true, None); (fr 60 true, None)] (fr 80 true) None) as [H1 H2];
    [reflexivity|reflexivity|reflexivity|discriminate|repeat constructor; discriminate|repeat constructor; discriminate|reflexivity|].
  split; [exact H1|]. apply H2. discriminate.
Defined.

(** ** Runs of the health monitor *)

Inductive health_event : Type :=
| E_frame (now_ms : Z) (f : AudioFrame)
| E_discontinuity (now_ms : Z)
| E_tick (now_ms : Z)
| E_set_active (act : bool) (now_ms : Z).

Definition health_step (m : CaptureHealthMonitor) (e : health_event)
  : CaptureHealthMonitor * option CaptureHealthReport :=
  match e with
  | E_frame now f => frame m now f
  | E_discontinuity now => discontinuity m now
  | E_tick now => tick m now
  | E_set_active act now => (set_active m act now, None)
  end.

(** The monitor after a run, the number of reports and the number of times the
    mostly-zero state changed. *)
Fixpoint health_run (m : CaptureHealthMonitor) (es : list health_event)
  : CaptureHealthMonitor * nat * nat :=
  match es with
  | [] => (m, 0%nat, 0%nat)
  | e :: rest =>
      let '(m1, r) := health_step m e in
      let '(m2, reports, flips) := health_run m1 rest in
      (m2, (b2n (is_some r) + reports)%nat,
       (b2n (negb (Bool.eqb m1.(mostly_zero) m.(mostly_zero))) + flips)%nat)
  end.

(** Events at times below [2^63] milliseconds, their frames well formed. *)
Definition event_ok (e : health_event) : Prop :=
  match e with
  | E_frame now f => 0 <= now < 2 ^ 63 /\ wf_frame f
  | E_discontinuity now | E_tick now | E_set_active _ now => 0 <= now < 2 ^ 63
  end.

Definition opt_nonneg (o : option Z) : Prop := forall z, o = Some z -> 0 <= z.

Record monitor_ok (m : CaptureHealthMonitor) : Prop := {
  mok_ends : opt_nonneg m.(audio_ends_at_ms);
  mok_since : opt_nonneg m.(gap_since_ms);
  mok_reported : 0 <= m.(reported_gap_ms) <= m.(longest_gap_ms);
  mok_longest : m.(longest_gap_ms) < 2 ^ 63;
}.

(** [k] reports of a grown gap leave at least this much reported. *)
Definition level (k : nat) (m : CaptureHealthMonitor) : Prop :=
  k = 0%nat \/ MIN_REPORTED_GAP_MS * 2 ^ (Z.of_nat k - 1) <= m.(reported_gap_ms).

Lemma opt_nonneg_map o f :
  (forall z, 0 <= z -> 0 <= f z) -> opt_nonneg o -> opt_nonneg (option_map f o).
Proof. intros Hf Ho z. destruct o; simpl; intros ?; simplify_eq. by apply Hf, Ho. Qed.

Lemma opt_nonneg_or a b : opt_nonneg a -> opt_nonneg b -> opt_nonneg (opt_or a b).
Proof. by destruct a. Qed.

Lemma fold_gap_ok m now :
  0 <= now < 2 ^ 63 -> monitor_ok m ->
  monitor_ok (fold_gap m now) /\ reported_gap_ms (fold_gap m now) = reported_gap_ms m /\
  mostly_zero (fold_gap m now) = mostly_zero m.
Proof.
  intros Hn [He Hs Hr Hl]. unfold fold_gap. destruct (active m) eqn:?; [|done]. simpl.
  pose proof (opt_nonneg_or _ _ Hs He) as Ho.
  destruct (opt_or _ _) as [since|]; [|done]. specialize (Ho since eq_refl).
  split; [|done]. split; cbn; try done; ints.
Qed.

Lemma report_ok m c k :
  monitor_ok m -> level k m ->
  let r := report m c in
  monitor_ok r.1 /\ mostly_zero r.1 = mostly_zero m /\
  exists k', level k' r.1 /\ (b2n (is_some r.2) + k <= b2n c + k')%nat.
Proof.
  intros Hm Hk. cbv zeta. unfold report. destruct (gap_grew m) eqn:G.
  - unfold gap_grew in G. breflect. rewrite andb_false_r. cbn. destruct Hm as [He Hs Hr Hl].
    split; [split; cbn; done || lia|]. split; [done|]. exists (S k).
    split; [|destruct c; cbn; lia]. right. cbn. destruct Hk as [-> | Hk].
    + cbn. unfold MIN_REPORTED_GAP_MS in *. lia.
    + replace (Z.of_nat (S k) - 1) with (1 + (Z.of_nat k - 1)) by lia.
      destruct k as [|k]; [cbn; unfold MIN_REPORTED_GAP_MS in *; lia|].
      rewrite Z.pow_add_r by lia. change (2 ^ 1) with 2. revert Hk.
      generalize (2 ^ (Z.of_nat (S k) - 1)). unfold MIN_REPORTED_GAP_MS in *. ints.
  - destruct c; cbn; (split; [|split; [done|exists k; split; [done|cbn; lia]]]); by destruct Hm.
Qed.

Lemma health_step_ok m e k :
  event_ok e -> monitor_ok m -> level k m ->
  let r := health_step m e in
  monitor_ok r.1 /\ exists k', level k' r.1 /\
    (b2n (is_some r.2) + k <= b2n (negb (Bool.eqb r.1.(mostly_zero) m.(mostly_zero))) + k')%nat.
Proof.
  intros He Hm Hk. cbv zeta. destruct e as [now f|now|now|act now]; cbn [health_step].
  - destruct He as [Hn Hf]. destruct (fold_gap_ok m now Hn Hm) as (Hm1 & Hr1 & Hz1).
    unfold frame. destruct (count_samples f) as [samples nonzero].
    pose proof (pcm_duration_ms_nonneg f.(format) (zlen f.(frame_bytes)) (proj1 Hf) (zlen_nonneg _)).
    set (m1 := fold_gap m now) in *.
    assert (Hend : opt_nonneg (Some (saturating_add now (pcm_duration_ms (format f) (zlen (frame_bytes f)))))).
    { intros z ?. simplify_eq. ints. }
    assert (Hnew : forall ws wn mz, monitor_ok (Monitor (active m1)
      (Some (saturating_add now (pcm_duration_ms (format f) (zlen (frame_bytes f)))))
      None (longest_gap_ms m1) (reported_gap_ms m1) ws wn mz)) by (destruct Hm1; split; done).
    destruct (_ <=? _).
    + match goal with |- context [report ?x ?c] =>
        destruct (report_ok x c k (Hnew _ _ _)) as (A & B & k' & C & D) end;
        [unfold level; cbn; by rewrite Hr1|].
      split; [done|]. exists k'. split; [done|]. rewrite B. cbn [mostly_zero]. by rewrite <- Hz1.
    + match goal with |- context [report ?x ?c] =>
        destruct (report_ok x c k (Hnew _ _ _)) as (A & B & k' & C & D) end;
        [unfold level; cbn; by rewrite Hr1|].
      split; [done|]. exists k'. split; [done|]. cbn [b2n] in D. lia.
  - unfold discontinuity. set (m1 := if active m && is_none (gap_since_ms m) then _ else m).
    assert (H1 : monitor_ok m1 /\ reported_gap_ms m1 = reported_gap_ms m).
    { subst m1. destruct (_ && _); [|done]. split; [|done]. destruct Hm as [A B C D]. split; try done.
      cbn. apply opt_nonneg_map; [cbn in He; lia|done]. }
    destruct H1 as [Hm1 Hr1]. destruct (fold_gap_ok m1 now He Hm1) as (Hm2 & Hr2 & _).
    destruct (report_ok (fold_gap m1 now) false k Hm2) as (A & B & k' & C & D);
      [unfold level; by rewrite Hr2, Hr1|].
    split; [done|]. exists k'. split; [done|]. cbn [b2n] in D. lia.
  - unfold tick. destruct (fold_gap_ok m now He Hm) as (Hm2 & Hr2 & _).
    destruct (report_ok (fold_gap m now) false k Hm2) as (A & B & k' & C & D);
      [unfold level; by rewrite Hr2|].
    split; [done|]. exists k'. split; [done|]. cbn [b2n] in D. lia.
  - cbn [fst snd is_some b2n]. unfold set_active.
    destruct (Bool.eqb act (active m)); [split; [done|]; exists k; split; [done|lia]|].
    destruct (fold_gap_ok m now He Hm) as ([A B C D] & Hr2 & _).
    split; [split; try done; cbn; by apply opt_nonneg_map; [cbn in He; lia|]|].
    exists k. split; [unfold level; cbn; by rewrite Hr2|lia].
Qed.

Lemma health_run_ok es m k :
  Forall event_ok es -> monitor_ok m -> level k m ->
  let '(m', reports, flips) := health_run m es in
  monitor_ok m' /\ exists k', level k' m' /\ (reports + k <= flips + k')%nat.
Proof.
  intros Hes. revert m k. induction Hes as [|e es He Hes IH]; intros m k Hm Hk; cbn [health_run].
  - split; [done|]. by exists k.
  - destruct (health_step_ok m e k He Hm Hk) as (Hm1 & k1 & Hk1 & Hle).
    destruct (health_step m e) as [m1 r]. cbn [fst snd] in *.
    specialize (IH m1 k1 Hm1 Hk1). destruct (health_run m1 es) as [[m2 reports] flips].
    destruct IH as (Hm2 & k2 & Hk2 & Hle2). split; [done|]. exists k2. split; [done|]. lia.
Qed.

Lemma level_bound k m : monitor_ok m -> level k m -> (k <= 53)%nat.
Proof.
  intros [_ _ Hr Hl] [-> | Hk]; [lia|].
  destruct (decide (k <= 53)%nat) as [|Hn]; [done|]. exfalso.
  assert (2 ^ 53 <= 2 ^ (Z.of_nat k - 1)) by (apply Z.pow_le_mono_r; lia).
  unfold MIN_REPORTED_GAP_MS in Hk. lia.
Qed.

(** Capture health reports are bounded: over any sequence of frames,
    discontinuities, ticks and pauses at times below [2^63] milliseconds, the
    monitor makes at most 53 reports besides one per change of the mostly-zero
    state, because a gap is reported only when it has at least doubled. *)
Theorem health_reports_bounded es :
  Forall event_ok es ->
  let '(_, reports, flips) := health_run Monitor_new es in (reports <= flips + 53)%nat.
Proof.
  intros Hes. pose proof (health_run_ok es Monitor_new 0 Hes) as H.
  destruct (health_run Monitor_new es) as [[m reports] flips].
  destruct H as (Hm & k & Hk & Hle); [by split|by left|].
  pose proof (level_bound k m Hm Hk). lia.
Qed.

Definition silent_frame : AudioFrame :=
  {| frame_turn_id := TurnId_new 1; frame_generation_id := GenerationId_new 1;
     frame_utterance_id := UtteranceId_new 1; frame_sequence := 0;
     format := {| sample_rate_hz := 8; channels := 1; sample_format := Signed16LittleEndian |};
     frame_bytes := replicate 80 0; capture_timing := None |}.

Lemma health_reports_bounded_witness :
  exists es, Forall event_ok es /\ (health_run Monitor_new es).1.2 = 3%nat /\
    let '(_, reports, flips) := health_run Monitor_new es in (reports <= flips + 53)%nat.
Proof.
  exists [E_frame 0 silent_frame; E_tick 8000; E_discontinuity 9000; E_tick 20000].
  assert (Hf : Forall event_ok [E_frame 0 silent_frame; E_tick 8000; E_discontinuity 9000; E_tick 20000]).
  { repeat constructor; vm_compute; done. }
  split; [exact Hf|]. split; [reflexivity|].
  exact (health_reports_bounded _ Hf).
Defined.
