(* ===== verification/Chunks.v ===== *)
(** * The records of a session recording

    [crates/runtime/src/session_recording.rs]: the file header, the plaintext
    records sealed into chunks and their decoder, the media timeline rebuilt
    from them, and the validation of a timed recording's records. *)

From S2P Require Import Prelude RustStr Errors Bytes Pcm CaptureTiming Audio.

Definition CAPTURE_DISCONTINUITY_REASON : rstr := lit "capture_discontinuity".
Definition RECORDING_FAILURE_REASON : rstr := lit "recording_failed".
Definition EMPTY_RECORDING_FORMAT : rstr := lit "none".
Definition MAX_RECORDING_GAPS : nat := 256.

Definition MAGIC : list Z := utf8_encode (lit "CRSREC02").
Definition TIMED_MAGIC : list Z := utf8_encode (lit "CRSREC03").
Definition SUPERSEDED_MAGIC : list Z := utf8_encode (lit "CRSREC01").
Definition HEADER_LEN : nat := 48.
Definition AEAD_AES_256_GCM : Z := 1.
Definition BINDING_BYTES : nat := 16.
Definition NONCE_PREFIX_LEN : nat := 8.
Definition MAX_CHUNK_CIPHERTEXT_BYTES : Z := 128 * 1024.
Definition MAX_KEY_ENV_BYTES : Z := 128.

Definition CHUNK_FRAME : Z := 1.
Definition CHUNK_GAP_STARTED : Z := 2.
Definition CHUNK_GAP_ENDED : Z := 3.
Definition CHUNK_ENDED : Z := 4.
Definition CHUNK_POLICY : Z := 9.
Definition CHUNK_TIMED_FRAME : Z := 10.
Definition CHUNK_EPOCH : Z := 11.
Definition CHUNK_CLOCK_PAIR : Z := 12.
Definition CHUNK_TIMING_DISCONTINUITY : Z := 13.
Definition CHUNK_ALIGNMENT_LIMIT : Z := 14.

Definition SAMPLE_FORMAT_S16LE : Z := 1.
Definition SAMPLE_FORMAT_F32LE : Z := 2.

Definition configuration_error (message : rstr) : RuntimeError :=
  RuntimeError_new Kind_Configuration Stage_AudioCapture message.
Definition adapter_error (message : rstr) : RuntimeError :=
  RuntimeError_new Kind_Adapter Stage_AudioCapture message.
Definition invalid_state_error (message : rstr) : RuntimeError :=
  RuntimeError_new Kind_InvalidState Stage_AudioCapture message.

(** [map_err(|_| recovery_error())]. *)
Definition or_recovery {A} (r : result A AdapterError) : rresult A :=
  match r with Ok a => Ok a | Err _ => Err recovery_error end.

Definition is_environment_name (name : rstr) : bool :=
  negb (is_empty name) && (blen name <=? MAX_KEY_ENV_BYTES) &&
  negb (match name with c :: _ => is_ascii_digit c | [] => false end) &&
  forallb (fun b => is_ascii_uppercase b || is_ascii_digit b || (b =? 95)) (utf8_encode name).

(** The handle's binding bytes; [decode_handle] is the hexadecimal decoder at
    the handle's length. *)
Definition decode_handle (handle : rstr) : option (list Z) := decode_hex BINDING_BYTES handle.

(** ** The header *)

(** [start_format] writes the magic, the algorithm, three reserved bytes, the
    session, the nonce prefix, the binding and four reserved bytes. *)
Definition make_header (timed : bool) (session_id : SessionId) (nonce_prefix binding : list Z) : list Z :=
  (if timed then TIMED_MAGIC else MAGIC) ++ [AEAD_AES_256_GCM; 0; 0; 0] ++
  be_bytes 8 (SessionId_get session_id) ++ nonce_prefix ++ binding ++ [0; 0; 0; 0].

Definition read_header (header : list Z) : rresult SessionId :=
  if bool_decide (slice 0 8 header = SUPERSEDED_MAGIC) then
    Err (adapter_error (lit "recording uses a superseded header layout"))
  else if (negb (bool_decide (slice 0 8 header = MAGIC))
           && negb (bool_decide (slice 0 8 header = TIMED_MAGIC)))
          || negb (byte_at 8 header =? AEAD_AES_256_GCM) then
    Err (adapter_error (lit "recording header is not recognised"))
  else if negb (bool_decide (slice 9 12 header = [0; 0; 0]))
          || negb (bool_decide (slice 44 48 header = [0; 0; 0; 0])) then
    Err (adapter_error (lit "recording header reserves are not zero"))
  else Ok (SessionId_new (be_value (slice 12 20 header))).

Definition header_is_timed (header : list Z) : bool := bool_decide (slice 0 8 header = TIMED_MAGIC).

Definition nonce (header : list Z) (counter : Z) : list Z := slice 20 28 header ++ be_bytes 4 counter.

Definition aad (header : list Z) (counter : Z) : list Z := header ++ be_bytes 4 counter.

(** ** Records *)

Inductive RecordedChunk : Type :=
| TimedFrame (at_ms : Z) (format : PcmFormat) (timing : option FrameProvenance) (bytes : list Z)
| TimingPolicy
| ChunkMetadata (metadata : CaptureMetadata)
| AlignmentLimit
| Frame (at_ms sequence sample_rate_hz channels : Z) (sample_format : PcmSampleFormat) (bytes : list Z)
| GapStarted (at_ms : Z) (reason : rstr)
| GapEnded (at_ms : Z)
| Ended (at_ms : Z).

Definition sample_format_code (f : PcmSampleFormat) : Z :=
  match f with
  | Signed16LittleEndian => SAMPLE_FORMAT_S16LE
  | Float32LittleEndian => SAMPLE_FORMAT_F32LE
  end.

Definition sample_format_from_code (code : Z) : rresult PcmSampleFormat :=
  if code =? SAMPLE_FORMAT_S16LE then Ok Signed16LittleEndian
  else if code =? SAMPLE_FORMAT_F32LE then Ok Float32LittleEndian
  else Err (adapter_error (lit "recording sample format is not recognised")).

Definition sample_format_name (f : PcmSampleFormat) : rstr :=
  match f with
  | Signed16LittleEndian => lit "pcm_s16le"
  | Float32LittleEndian => lit "pcm_f32le"
  end.

Definition gap_started_record (at_ms : Z) (reason : rstr) : list Z :=
  CHUNK_GAP_STARTED :: be_bytes 8 at_ms ++ [blen reason] ++ utf8_encode reason.

Definition gap_ended_record (at_ms : Z) : list Z := CHUNK_GAP_ENDED :: be_bytes 8 at_ms.

Definition ended_record (at_ms : Z) : list Z := CHUNK_ENDED :: be_bytes 8 at_ms.

Definition policy_record : list Z :=
  CHUNK_POLICY ::
  concat (map (be_bytes 8)
    [CLOCK_PAIR_CADENCE_NS; MAX_CLOCK_BRACKET_NS; MAX_CLOCK_PAIR_GAP_NS; MAX_CLOCK_RESIDUAL_NS]).

(** The record of [record_frame]. *)
Definition frame_record (at_ms : Z) (f : AudioFrame) : list Z :=
  CHUNK_FRAME :: be_bytes 8 at_ms ++ be_bytes 8 f.(frame_sequence) ++
  be_bytes 4 f.(format).(sample_rate_hz) ++ be_bytes 2 f.(format).(channels) ++
  [sample_format_code f.(format).(sample_format)] ++ f.(frame_bytes).

(** The record of [record_timed_frame]. *)
Definition timed_frame_record (at_ms : Z) (f : AudioFrame) (timing : option (list Z)) : list Z :=
  CHUNK_TIMED_FRAME :: be_bytes 8 at_ms ++ [sample_format_code f.(format).(sample_format)] ++
  be_bytes 4 f.(format).(sample_rate_hz) ++ be_bytes 2 f.(format).(channels) ++
  [if is_some timing then 1 else 0] ++ default [] timing ++ f.(frame_bytes).

Definition metadata_record (m : CaptureMetadata) : rresult (list Z) :=
  match m with
  | Metadata_Epoch e =>
      let? body := or_recovery (CaptureEpoch_encode e) in Ok (CHUNK_EPOCH :: body)
  | Metadata_ClockPair p =>
      let? body := or_recovery (CaptureClockPair_encode p) in Ok (CHUNK_CLOCK_PAIR :: body)
  | Metadata_Discontinuity epoch reason =>
      if epoch =? 0 then Err recovery_error
      else Ok (CHUNK_TIMING_DISCONTINUITY :: be_bytes 8 epoch ++ [CaptureDiscontinuityReason_code reason])
  end.

Definition decode_timed_frame (body : list Z) : rresult RecordedChunk :=
  if bool_decide (length body < 16)%nat then Err recovery_error
  else
    let at_ms := be_value (slice 0 8 body) in
    let? sample_format := sample_format_from_code (byte_at 8 body) in
    let? format := or_recovery (PcmFormat_new (be_value (slice 9 13 body))
                                  (be_value (slice 13 15 body)) sample_format) in
    let? '(timing, offset) :=
      if byte_at 15 body =? 0 then Ok (None, 16%nat)
      else if (byte_at 15 body =? 1) && bool_decide (16 + CAPTURE_TIMING_BYTES <= length body)%nat then
        let? timing := or_recovery (FrameProvenance_decode (slice 16 (16 + CAPTURE_TIMING_BYTES) body)) in
        Ok (Some timing, (16 + CAPTURE_TIMING_BYTES)%nat)
      else Err recovery_error in
    let bytes := drop offset body in
    let? alignment := or_recovery (frame_alignment_bytes format) in
    if is_empty bytes || (MAX_PCM_FRAME_BYTES <? zlen bytes) || negb (zlen bytes mod alignment =? 0)
    then Err recovery_error
    else
      let? _ := match timing with
        | Some timing => or_recovery (validate_pcm timing format (zlen bytes))
        | None => Ok tt
        end in
      Ok (TimedFrame at_ms format timing bytes).

Definition decode_frame (body : list Z) : rresult RecordedChunk :=
  if bool_decide (length body < 23)%nat then
    Err (adapter_error (lit "recording frame chunk is truncated"))
  else
    let? sample_format := sample_format_from_code (byte_at 22 body) in
    Ok (Frame (be_value (slice 0 8 body)) (be_value (slice 8 16 body)) (be_value (slice 16 20 body))
          (be_value (slice 20 22 body)) sample_format (drop 23 body)).

Definition decode_gap_started (body : list Z) : rresult RecordedChunk :=
  if bool_decide (length body < 9)%nat then
    Err (adapter_error (lit "recording gap chunk is truncated"))
  else
    let length := Z.to_nat (byte_at 8 body) in
    let? reason :=
      if bool_decide (List.length body < 9 + length)%nat then
        Err (adapter_error (lit "recording gap chunk is truncated"))
      else Ok (slice 9 (9 + length) body) in
    let? reason := ok_or (from_utf8 reason) (adapter_error (lit "recording gap reason is not text")) in
    Ok (GapStarted (be_value (slice 0 8 body)) reason).

Definition unrecognised : RuntimeError :=
  adapter_error (lit "recording chunk kind is not recognised").

Definition decode_chunk (record : list Z) : rresult RecordedChunk :=
  match record with
  | [] => Err (adapter_error (lit "recording chunk is empty"))
  | kind :: body =>
      if kind =? CHUNK_POLICY then
        if bool_decide (record = policy_record) then Ok TimingPolicy else Err unrecognised
      else if kind =? CHUNK_TIMED_FRAME then decode_timed_frame body
      else if kind =? CHUNK_EPOCH then
        let? e := or_recovery (CaptureEpoch_decode body) in Ok (ChunkMetadata (Metadata_Epoch e))
      else if kind =? CHUNK_CLOCK_PAIR then
        let? p := or_recovery (CaptureClockPair_decode body) in Ok (ChunkMetadata (Metadata_ClockPair p))
      else if kind =? CHUNK_TIMING_DISCONTINUITY then
        if bool_decide (length body = 9%nat) then
          let epoch := be_value (slice 0 8 body) in
          if epoch =? 0 then Err recovery_error
          else
            let? reason := or_recovery (CaptureDiscontinuityReason_decode (byte_at 8 body)) in
            Ok (ChunkMetadata (Metadata_Discontinuity epoch reason))
        else Err unrecognised
      else if kind =? CHUNK_ALIGNMENT_LIMIT then
        if is_empty body then Ok AlignmentLimit else Err unrecognised
      else if kind =? CHUNK_FRAME then decode_frame body
      else if kind =? CHUNK_GAP_STARTED then decode_gap_started body
      else if (kind =? CHUNK_GAP_ENDED) || (kind =? CHUNK_ENDED) then
        if negb (bool_decide (length body = 8%nat)) then
          Err (adapter_error (lit "recording chunk is truncated"))
        else
          let at_ms := be_value (slice 0 8 body) in
          Ok (if kind =? CHUNK_GAP_ENDED then GapEnded at_ms else Ended at_ms)
      else Err unrecognised
  end.

(** ** The media timeline *)

Record RecordingGap : Type := {
  started_at_ms : Z;
  ended_at_ms : option Z;
  reason : rstr;
}.

Definition clamped_gaps (gaps : list RecordingGap) (duration : Z) : list RecordingGap :=
  map (fun gap => {| started_at_ms := Z.min gap.(started_at_ms) duration;
                     ended_at_ms := option_map (fun ended => Z.min ended duration) gap.(ended_at_ms);
                     reason := gap.(reason) |}) gaps.

Definition format_label (f : option PcmFormat) : rstr :=
  match f with
  | None => EMPTY_RECORDING_FORMAT
  | Some f => sample_format_name f.(sample_format) ++ lit "/" ++ decimal f.(sample_rate_hz) ++
              lit "/" ++ decimal f.(channels)
  end.

(** [gaps.last_mut()] updated by [f]; an empty list is left alone. *)
Fixpoint update_last (f : RecordingGap -> RecordingGap) (gaps : list RecordingGap) : list RecordingGap :=
  match gaps with
  | [] => []
  | [g] => [f g]
  | g :: rest => g :: update_last f rest
  end.

Definition with_end (ended : option Z) (g : RecordingGap) : RecordingGap :=
  {| started_at_ms := g.(started_at_ms); ended_at_ms := ended; reason := g.(reason) |}.

(** A new open gap at [media_ms], or the last gap reopened when the list is
    full. *)
Definition open_gap (gaps : list RecordingGap) (media_ms : Z) : list RecordingGap :=
  if bool_decide (length gaps < MAX_RECORDING_GAPS)%nat then
    gaps ++ [{| started_at_ms := media_ms; ended_at_ms := None; reason := CAPTURE_DISCONTINUITY_REASON |}]
  else update_last (with_end None) gaps.

Record MediaTimeline : Type := {
  tl_format : option PcmFormat;
  tl_media_ms : Z;
  tl_timed_samples : Z;
  tl_timed_gap_ms : Z;
  tl_open_gap_at_ms : option Z;
  tl_gaps : list RecordingGap;
}.

Definition MediaTimeline_default : MediaTimeline :=
  {| tl_format := None; tl_media_ms := 0; tl_timed_samples := 0; tl_timed_gap_ms := 0;
     tl_open_gap_at_ms := None; tl_gaps := [] |}.

Definition tl_frame (t : MediaTimeline) (f : PcmFormat) (bytes : Z) : MediaTimeline :=
  {| tl_format := Some f;
     tl_media_ms := saturating_add t.(tl_media_ms) (pcm_duration_ms f bytes);
     tl_timed_samples := t.(tl_timed_samples); tl_timed_gap_ms := t.(tl_timed_gap_ms);
     tl_open_gap_at_ms := t.(tl_open_gap_at_ms); tl_gaps := t.(tl_gaps) |}.

(** The sample count and exact duration after [bytes] more of timed audio. *)
Definition count_timed (samples gap_ms : Z) (f : PcmFormat) (bytes : Z) : rresult (Z * Z) :=
  let? alignment := or_recovery (frame_alignment_bytes f) in
  let? total := ok_or (checked_add samples (bytes / alignment)) recovery_error in
  let? duration := exact_media_ms total f.(sample_rate_hz) gap_ms in
  Ok (total, duration).

Definition tl_timed_frame (t : MediaTimeline) (f : PcmFormat) (bytes : Z) : rresult MediaTimeline :=
  let? '(total, duration) := count_timed t.(tl_timed_samples) t.(tl_timed_gap_ms) f bytes in
  Ok {| tl_format := Some f; tl_media_ms := duration; tl_timed_samples := total;
        tl_timed_gap_ms := t.(tl_timed_gap_ms);
        tl_open_gap_at_ms := t.(tl_open_gap_at_ms); tl_gaps := t.(tl_gaps) |}.

Definition tl_gap_started (t : MediaTimeline) (at_ms : Z) : MediaTimeline :=
  {| tl_format := t.(tl_format); tl_media_ms := t.(tl_media_ms);
     tl_timed_samples := t.(tl_timed_samples); tl_timed_gap_ms := t.(tl_timed_gap_ms);
     tl_open_gap_at_ms := Some at_ms; tl_gaps := open_gap t.(tl_gaps) t.(tl_media_ms) |}.

Definition tl_gap_ended (t : MediaTimeline) (at_ms : Z) (timed : bool) : rresult MediaTimeline :=
  match t.(tl_open_gap_at_ms) with
  | None => Err recovery_error
  | Some opened =>
      let len := saturating_sub at_ms opened in
      let? '(gap_ms, media_ms) :=
        if is_some t.(tl_format) then
          let? gap_ms :=
            if timed then ok_or (checked_add t.(tl_timed_gap_ms) len) recovery_error
            else Ok t.(tl_timed_gap_ms) in
          Ok (gap_ms, saturating_add t.(tl_media_ms) len)
        else Ok (t.(tl_timed_gap_ms), t.(tl_media_ms)) in
      Ok {| tl_format := t.(tl_format); tl_media_ms := media_ms;
            tl_timed_samples := t.(tl_timed_samples); tl_timed_gap_ms := gap_ms;
            tl_open_gap_at_ms := None;
            tl_gaps := update_last (with_end (Some media_ms)) t.(tl_gaps) |}
  end.

(** ** Validation of a timed recording *)

Record TimedValidation : Type := {
  tv_policy : bool;
  tv_exhausted : bool;
  tv_records : Z;
  tv_bytes : Z;
  tv_epoch : option CaptureEpoch;
  tv_domains : CaptureDomainHistory;
  tv_sequence : Z;
  tv_output_end : option Z;
  tv_pair : option CaptureClockPair;
}.

Definition TimedValidation_default : TimedValidation :=
  {| tv_policy := false; tv_exhausted := false; tv_records := 0; tv_bytes := 0; tv_epoch := None;
     tv_domains := CaptureDomainHistory_default; tv_sequence := 0; tv_output_end := None;
     tv_pair := None |}.

Definition frame_boundary (v : TimedValidation) : option (Z * Z) :=
  option_map (fun output_end => (v.(tv_sequence), output_end)) v.(tv_output_end).

(** The cursor part of the state replaced. *)
Definition tv_cursor (v : TimedValidation) (epoch : option CaptureEpoch) (domains : CaptureDomainHistory)
    (sequence : Z) (output_end : option Z) (pair : option CaptureClockPair) : TimedValidation :=
  {| tv_policy := v.(tv_policy); tv_exhausted := v.(tv_exhausted); tv_records := v.(tv_records);
     tv_bytes := v.(tv_bytes); tv_epoch := epoch; tv_domains := domains; tv_sequence := sequence;
     tv_output_end := output_end; tv_pair := pair |}.

Definition accept_timing (v : TimedValidation) (t : FrameProvenance) : rresult TimedValidation :=
  match v.(tv_epoch) with
  | None => Err recovery_error
  | Some epoch =>
      if negb (t.(capture_epoch) =? epoch.(epoch_capture_epoch)) || (t.(sequence) <=? v.(tv_sequence))
         || is_some_and v.(tv_output_end) (fun finish => t.(output_start_sample) <? finish)
      then Err recovery_error
      else
        let? finish := ok_or (checked_add t.(output_start_sample) t.(sample_count)) recovery_error in
        Ok (tv_cursor v v.(tv_epoch) v.(tv_domains) t.(sequence) (Some finish) v.(tv_pair))
  end.

Definition accept_epoch (v : TimedValidation) (e : CaptureEpoch) : rresult TimedValidation :=
  let? domains := or_recovery (admit_domain v.(tv_domains) e.(epoch_clock_domain_id)) in
  match v.(tv_epoch) with
  | None => Ok (tv_cursor v (Some e) domains v.(tv_sequence) v.(tv_output_end) v.(tv_pair))
  | Some prior =>
      if negb (bool_decide (prior.(bridge_session_id) = e.(bridge_session_id))) then Err recovery_error
      else if bool_decide (prior.(epoch_clock_domain_id) = e.(epoch_clock_domain_id)) then
        if e.(epoch_capture_epoch) <? prior.(epoch_capture_epoch) then Err recovery_error
        else if prior.(epoch_capture_epoch) <? e.(epoch_capture_epoch) then
          Ok (tv_cursor v (Some e) domains 0 None v.(tv_pair))
        else Ok (tv_cursor v (Some e) domains v.(tv_sequence) v.(tv_output_end) v.(tv_pair))
      else Ok (tv_cursor v (Some e) domains 0 None None)
  end.

Definition accept_pair (v : TimedValidation) (p : CaptureClockPair) : rresult TimedValidation :=
  if is_none_or v.(tv_epoch)
       (fun epoch => negb (bool_decide (epoch.(epoch_clock_domain_id) = p.(pair_clock_domain_id))))
  then Err recovery_error
  else if is_some_and v.(tv_pair) (fun prior =>
      (p.(pair_sequence) <=? prior.(pair_sequence)) || (midpoint_twice p <=? midpoint_twice prior)
      || (p.(wall_epoch) <? prior.(wall_epoch)))
  then Err recovery_error
  else Ok (tv_cursor v v.(tv_epoch) v.(tv_domains) v.(tv_sequence) v.(tv_output_end) (Some p)).

Definition accept_metadata (v : TimedValidation) (m : CaptureMetadata) : rresult TimedValidation :=
  match m with
  | Metadata_Epoch e => accept_epoch v e
  | Metadata_ClockPair p => accept_pair v p
  | Metadata_Discontinuity epoch _ =>
      if is_none_or v.(tv_epoch) (fun e => negb (e.(epoch_capture_epoch) =? epoch))
      then Err recovery_error else Ok v
  end.

(** The budget of timing records and bytes. *)
Definition charge_timing (v : TimedValidation) (metadata_bytes : Z) : rresult TimedValidation :=
  if v.(tv_exhausted) then Err recovery_error
  else
    let? records := ok_or (checked_add v.(tv_records) 1) recovery_error in
    let? bytes := ok_or (checked_add v.(tv_bytes) metadata_bytes) recovery_error in
    if (MAX_RECORDING_TIMING_RECORDS <? records) || (MAX_RECORDING_TIMING_BYTES <? bytes)
    then Err recovery_error
    else Ok {| tv_policy := v.(tv_policy); tv_exhausted := v.(tv_exhausted); tv_records := records;
               tv_bytes := bytes; tv_epoch := v.(tv_epoch); tv_domains := v.(tv_domains);
               tv_sequence := v.(tv_sequence); tv_output_end := v.(tv_output_end);
               tv_pair := v.(tv_pair) |}.

Definition set_policy (v : TimedValidation) (policy exhausted : bool) : TimedValidation :=
  {| tv_policy := policy; tv_exhausted := exhausted; tv_records := v.(tv_records);
     tv_bytes := v.(tv_bytes); tv_epoch := v.(tv_epoch); tv_domains := v.(tv_domains);
     tv_sequence := v.(tv_sequence); tv_output_end := v.(tv_output_end); tv_pair := v.(tv_pair) |}.

Definition accept (v : TimedValidation) (chunk : RecordedChunk) : rresult TimedValidation :=
  if negb v.(tv_policy) then
    match chunk with
    | TimingPolicy => Ok (set_policy v true v.(tv_exhausted))
    | _ => Err recovery_error
    end
  else match chunk with
  | TimingPolicy | Frame _ _ _ _ _ _ => Err recovery_error
  | AlignmentLimit =>
      if v.(tv_exhausted) then Err recovery_error else Ok (set_policy v v.(tv_policy) true)
  | TimedFrame _ _ (Some timing) _ =>
      let? v := accept_timing v timing in charge_timing v (Z.of_nat CAPTURE_TIMING_BYTES)
  | ChunkMetadata metadata =>
      let? v := accept_metadata v metadata in
      let? record := metadata_record metadata in
      charge_timing v (zlen record - 1)
  | TimedFrame _ _ None _ | GapStarted _ _ | GapEnded _ | Ended _ => Ok v
  end.
