(* ===== verification/Recorder.v ===== *)
(** * The session recorder

    [crates/runtime/src/session_recording.rs], the writing half:
    [SessionRecorder] appends sealed chunks to the recording's file, keeps the
    media timeline, applies the safety limits and closes the file.

    The cryptography (AES-256-GCM, SHA-256, HMAC of the [ring] crate) is the
    class [RecordingCrypto]. The clock, the file system's answers and the free
    disk space are the oracles of [World], one entry per use; a failing write
    leaves any prefix of its bytes in the file. An operation returns its result
    together with the state it leaves, because a Rust method that returns early
    with [?] keeps the changes it has made. *)

From S2P Require Import Prelude RustStr Errors Bytes Pcm CaptureTiming Audio RecordingSafety Chunks.

(** Sealing and opening under the recording's key, the digest, and the
    authorization tag. *)
Class RecordingCrypto : Type := {
  seal : list Z -> list Z -> list Z -> option (list Z);
  open : list Z -> list Z -> list Z -> option (list Z);
  sha256 : list Z -> list Z;
  hmac_sign : list Z -> list Z;
}.

(** What the recorder relies on: opening inverts sealing, a digest and a tag
    are 32 bytes. *)
Class RecordingCryptoLaws (C : RecordingCrypto) : Prop := {
  open_seal : forall nonce aad plaintext ciphertext,
    seal nonce aad plaintext = Some ciphertext -> open nonce aad ciphertext = Some plaintext;
  sha256_bytes : forall bs, Forall is_byte (sha256 bs) /\ length (sha256 bs) = 32%nat;
  hmac_bytes : forall bs, Forall is_byte (hmac_sign bs) /\ length (hmac_sign bs) = 32%nat;
}.

(** ** The environment *)

(** The outcome of one file operation; of a failed write, the number of bytes
    that reached the file. *)
Inductive io : Type :=
| Io_ok
| Io_fail (written : nat).

Record World : Type := {
  w_clock : nat -> Z;
  w_io : nat -> io;
  w_free : nat -> option Z;
  w_clock_reads : nat;
  w_ios : nat;
  w_free_reads : nat;
  w_file : list Z;
  w_nonces : list (list Z);
}.

Definition clock_read (w : World) : World :=
  {| w_clock := w.(w_clock); w_io := w.(w_io); w_free := w.(w_free);
     w_clock_reads := S w.(w_clock_reads); w_ios := w.(w_ios); w_free_reads := w.(w_free_reads);
     w_file := w.(w_file); w_nonces := w.(w_nonces) |}.

Definition io_done (w : World) (written : list Z) : World :=
  {| w_clock := w.(w_clock); w_io := w.(w_io); w_free := w.(w_free);
     w_clock_reads := w.(w_clock_reads); w_ios := S w.(w_ios); w_free_reads := w.(w_free_reads);
     w_file := w.(w_file) ++ written; w_nonces := w.(w_nonces) |}.

Definition free_read (w : World) : World :=
  {| w_clock := w.(w_clock); w_io := w.(w_io); w_free := w.(w_free);
     w_clock_reads := w.(w_clock_reads); w_ios := w.(w_ios); w_free_reads := S w.(w_free_reads);
     w_file := w.(w_file); w_nonces := w.(w_nonces) |}.

Definition nonce_used (w : World) (nonce : list Z) : World :=
  {| w_clock := w.(w_clock); w_io := w.(w_io); w_free := w.(w_free);
     w_clock_reads := w.(w_clock_reads); w_ios := w.(w_ios); w_free_reads := w.(w_free_reads);
     w_file := w.(w_file); w_nonces := w.(w_nonces) ++ [nonce] |}.

(** ** The recorder *)

Record RecordingSummary : Type := {
  summary_handle : rstr;
  encrypted_path : rstr * rstr;
  summary_sha256 : rstr;
  duration_ms : Z;
  summary_format : rstr;
  summary_key_id : rstr;
  summary_gaps : list RecordingGap;
}.

Record TimingBudget : Type := {
  records : Z;
  budget_bytes : Z;
  maximum_records : Z;
  maximum_bytes : Z;
  exhausted : bool;
}.

Definition TimingBudget_default : TimingBudget :=
  {| records := 0; budget_bytes := 0; maximum_records := MAX_RECORDING_TIMING_RECORDS;
     maximum_bytes := MAX_RECORDING_TIMING_BYTES; exhausted := false |}.

(** The fields that never change after [start]. *)
Record RecorderIdentity : Type := {
  session_id : SessionId;
  handle : rstr;
  directory : rstr;
  key_id : rstr;
  header : list Z;
}.

(** The fields [append] maintains; [sealed_bytes] is what the running digest
    has been fed. *)
Record RecorderSink : Type := {
  file_open : bool;
  counter : Z;
  sealed_bytes : list Z;
  capability_poisoned : bool;
  timed_validation : option TimedValidation;
  written_bytes : Z;
}.

(** The fields [finalize] and the failure paths maintain. *)
Record RecorderStatus : Type := {
  ended : bool;
  failure_recorded : bool;
  recording_failed : bool;
  summary : option RecordingSummary;
}.

(** The media fields ([format], [media_ms], [timed_samples], [timed_gap_ms],
    [open_gap_at_ms], [gaps]) are those of a [MediaTimeline]. *)
Record SessionRecorder : Type := {
  identity : RecorderIdentity;
  media : MediaTimeline;
  sink : RecorderSink;
  status : RecorderStatus;
  timing_budget : option TimingBudget;
  safety : RecordingSafetyGuard;
  limit_notices : list LimitNotice;
}.

Definition set_media (r : SessionRecorder) (m : MediaTimeline) : SessionRecorder :=
  {| identity := r.(identity); media := m; sink := r.(sink); status := r.(status);
     timing_budget := r.(timing_budget); safety := r.(safety); limit_notices := r.(limit_notices) |}.
Definition set_sink (r : SessionRecorder) (s : RecorderSink) : SessionRecorder :=
  {| identity := r.(identity); media := r.(media); sink := s; status := r.(status);
     timing_budget := r.(timing_budget); safety := r.(safety); limit_notices := r.(limit_notices) |}.
Definition set_status (r : SessionRecorder) (s : RecorderStatus) : SessionRecorder :=
  {| identity := r.(identity); media := r.(media); sink := r.(sink); status := s;
     timing_budget := r.(timing_budget); safety := r.(safety); limit_notices := r.(limit_notices) |}.
Definition set_budget (r : SessionRecorder) (b : TimingBudget) : SessionRecorder :=
  {| identity := r.(identity); media := r.(media); sink := r.(sink); status := r.(status);
     timing_budget := Some b; safety := r.(safety); limit_notices := r.(limit_notices) |}.
Definition set_safety (r : SessionRecorder) (g : RecordingSafetyGuard) : SessionRecorder :=
  {| identity := r.(identity); media := r.(media); sink := r.(sink); status := r.(status);
     timing_budget := r.(timing_budget); safety := g; limit_notices := r.(limit_notices) |}.
Definition set_notices (r : SessionRecorder) (n : list LimitNotice) : SessionRecorder :=
  {| identity := r.(identity); media := r.(media); sink := r.(sink); status := r.(status);
     timing_budget := r.(timing_budget); safety := r.(safety); limit_notices := n |}.

Definition set_poisoned (s : RecorderSink) (poisoned : bool) : RecorderSink :=
  {| file_open := s.(file_open); counter := s.(counter); sealed_bytes := s.(sealed_bytes);
     capability_poisoned := poisoned; timed_validation := s.(timed_validation);
     written_bytes := s.(written_bytes) |}.
Definition set_counter (s : RecorderSink) (c : Z) : RecorderSink :=
  {| file_open := s.(file_open); counter := c; sealed_bytes := s.(sealed_bytes);
     capability_poisoned := s.(capability_poisoned); timed_validation := s.(timed_validation);
     written_bytes := s.(written_bytes) |}.
Definition set_file_open (s : RecorderSink) (b : bool) : RecorderSink :=
  {| file_open := b; counter := s.(counter); sealed_bytes := s.(sealed_bytes);
     capability_poisoned := s.(capability_poisoned); timed_validation := s.(timed_validation);
     written_bytes := s.(written_bytes) |}.

Definition mark_ended (s : RecorderStatus) : RecorderStatus :=
  {| ended := true; failure_recorded := s.(failure_recorded);
     recording_failed := s.(recording_failed); summary := s.(summary) |}.
Definition mark_failure_recorded (s : RecorderStatus) : RecorderStatus :=
  {| ended := s.(ended); failure_recorded := true;
     recording_failed := s.(recording_failed); summary := s.(summary) |}.
Definition mark_failed (s : RecorderStatus) : RecorderStatus :=
  {| ended := s.(ended); failure_recorded := s.(failure_recorded);
     recording_failed := true; summary := s.(summary) |}.
Definition set_summary (s : RecorderStatus) (v : RecordingSummary) : RecorderStatus :=
  {| ended := s.(ended); failure_recorded := s.(failure_recorded);
     recording_failed := s.(recording_failed); summary := Some v |}.

(** Media fields set one at a time. *)
Definition media_format (m : MediaTimeline) (f : option PcmFormat) : MediaTimeline :=
  {| tl_format := f; tl_media_ms := m.(tl_media_ms); tl_timed_samples := m.(tl_timed_samples);
     tl_timed_gap_ms := m.(tl_timed_gap_ms); tl_open_gap_at_ms := m.(tl_open_gap_at_ms);
     tl_gaps := m.(tl_gaps) |}.
Definition media_ms_set (m : MediaTimeline) (ms : Z) : MediaTimeline :=
  {| tl_format := m.(tl_format); tl_media_ms := ms; tl_timed_samples := m.(tl_timed_samples);
     tl_timed_gap_ms := m.(tl_timed_gap_ms); tl_open_gap_at_ms := m.(tl_open_gap_at_ms);
     tl_gaps := m.(tl_gaps) |}.
Definition media_samples (m : MediaTimeline) (n : Z) : MediaTimeline :=
  {| tl_format := m.(tl_format); tl_media_ms := m.(tl_media_ms); tl_timed_samples := n;
     tl_timed_gap_ms := m.(tl_timed_gap_ms); tl_open_gap_at_ms := m.(tl_open_gap_at_ms);
     tl_gaps := m.(tl_gaps) |}.
Definition media_gap_ms (m : MediaTimeline) (ms : Z) : MediaTimeline :=
  {| tl_format := m.(tl_format); tl_media_ms := m.(tl_media_ms); tl_timed_samples := m.(tl_timed_samples);
     tl_timed_gap_ms := ms; tl_open_gap_at_ms := m.(tl_open_gap_at_ms); tl_gaps := m.(tl_gaps) |}.
Definition media_open_gap (m : MediaTimeline) (o : option Z) : MediaTimeline :=
  {| tl_format := m.(tl_format); tl_media_ms := m.(tl_media_ms); tl_timed_samples := m.(tl_timed_samples);
     tl_timed_gap_ms := m.(tl_timed_gap_ms); tl_open_gap_at_ms := o; tl_gaps := m.(tl_gaps) |}.
Definition media_gaps (m : MediaTimeline) (g : list RecordingGap) : MediaTimeline :=
  {| tl_format := m.(tl_format); tl_media_ms := m.(tl_media_ms); tl_timed_samples := m.(tl_timed_samples);
     tl_timed_gap_ms := m.(tl_timed_gap_ms); tl_open_gap_at_ms := m.(tl_open_gap_at_ms); tl_gaps := g |}.

(** ** The monad of the recorder's methods *)

Record St : Type := {
  rec : SessionRecorder;
  world : World;
}.

Definition M (A : Type) : Type := St -> rresult A * St.

Definition ret {A} (a : A) : M A := fun s => (Ok a, s).
Definition fail {A} (e : RuntimeError) : M A := fun s => (Err e, s).
Definition bind {A B} (m : M A) (f : A -> M B) : M B :=
  fun s => match m s with
           | (Ok a, s') => f a s'
           | (Err e, s') => (Err e, s')
           end.
Definition lift {A} (r : rresult A) : M A := fun s => (r, s).
Definition gets {A} (f : SessionRecorder -> A) : M A := fun s => (Ok (f s.(rec)), s).
Definition modify (f : SessionRecorder -> SessionRecorder) : M unit :=
  fun s => (Ok tt, {| rec := f s.(rec); world := s.(world) |}).

Notation "x <- m ;; k" := (bind m (fun x => k)) (at level 100, m at next level, right associativity).
Notation "m ;;; k" := (bind m (fun _ => k)) (at level 100, right associativity).

(** [self.elapsed_ms()]. *)
Definition elapsed_ms : M Z := fun s =>
  (Ok (s.(world).(w_clock) s.(world).(w_clock_reads)), {| rec := s.(rec); world := clock_read s.(world) |}).

(** One file operation that appends [bytes]. *)
Definition write_file (bytes : list Z) (e : RuntimeError) : M unit := fun s =>
  match s.(world).(w_io) s.(world).(w_ios) with
  | Io_ok => (Ok tt, {| rec := s.(rec); world := io_done s.(world) bytes |})
  | Io_fail n => (Err e, {| rec := s.(rec); world := io_done s.(world) (take n bytes) |})
  end.

Section Recorder.
Context `{RecordingCrypto}.

(** [RecordingKey::seal], the nonce noted. *)
Definition seal_record (nonce aad plaintext : list Z) : M (list Z) := fun s =>
  (ok_or (seal nonce aad plaintext) (adapter_error (lit "recording chunk could not be encrypted")),
   {| rec := s.(rec); world := nonce_used s.(world) nonce |}).

Definition append (record : list Z) : M unit :=
  tv <- gets (fun r => r.(sink).(timed_validation)) ;;
  tv <- lift (match tv with
    | Some state =>
        let? chunk := decode_chunk record in
        let? state := accept state chunk in Ok (Some state)
    | None => Ok None
    end) ;;
  is_open <- gets (fun r => r.(sink).(file_open)) ;;
  if negb is_open then fail (invalid_state_error (lit "recording is already finalized")) else
  closed <- gets (fun r => r.(status).(ended)) ;;
  if closed : bool then fail (invalid_state_error (lit "recording is closed")) else
  previously_poisoned <- gets (fun r => r.(sink).(capability_poisoned)) ;;
  modify (fun r => set_sink r (set_poisoned r.(sink) true)) ;;;
  n <- gets (fun r => r.(sink).(counter)) ;;
  if u32_max <? n + 1 then fail (adapter_error (lit "recording exceeded its chunk limit")) else
  modify (fun r => set_sink r (set_counter r.(sink) (n + 1))) ;;;
  hdr <- gets (fun r => r.(identity).(header)) ;;
  sealed <- seal_record (nonce hdr n) (aad hdr n) record ;;
  if MAX_CHUNK_CIPHERTEXT_BYTES <? zlen sealed
  then fail (adapter_error (lit "recording chunk exceeded its size limit")) else
  write_file (be_bytes 4 (zlen sealed) ++ sealed)
    (adapter_error (lit "recording chunk could not be written")) ;;;
  modify (fun r => set_sink r
    {| file_open := r.(sink).(file_open); counter := r.(sink).(counter);
       sealed_bytes := r.(sink).(sealed_bytes) ++ be_bytes 4 (zlen sealed) ++ sealed;
       capability_poisoned := previously_poisoned;
       timed_validation := tv;
       written_bytes := saturating_add (saturating_add r.(sink).(written_bytes) 4) (zlen sealed) |}).

(** [media_duration_ms], [is_incomplete] and [reported_gaps]. *)
Definition media_duration_ms (r : SessionRecorder) : Z :=
  if is_some r.(media).(tl_format) then r.(media).(tl_media_ms) else 0.

Definition is_incomplete (r : SessionRecorder) : bool :=
  r.(status).(recording_failed) || r.(sink).(capability_poisoned).

Definition reported_gaps (r : SessionRecorder) : list RecordingGap :=
  clamped_gaps r.(media).(tl_gaps) (media_duration_ms r).

Definition frame_duration_ms (f : AudioFrame) : Z := pcm_duration_ms f.(format) (zlen f.(frame_bytes)).

(** The guard's verdict on a frame; the free space is read when the guard asks
    for it. *)
Definition observe_frame (f : AudioFrame) : M (list LimitNotice) := fun s =>
  let r := s.(rec) in
  let observation :=
    {| RecordingSafety.media_ms := media_duration_ms r; bytes := r.(sink).(written_bytes);
       frame_ms := frame_duration_ms f; quiet := frame_is_quiet f |} in
  let free := s.(world).(w_free) s.(world).(w_free_reads) in
  let '(g, notices) := observe r.(safety) observation free in
  (Ok notices,
   {| rec := set_safety r g;
      world := if disk_due r.(safety) observation then free_read s.(world) else s.(world) |}).

Definition enforce_limits (f : option AudioFrame) : M unit :=
  notices <- match f with
    | Some f => observe_frame f
    | None => gets (fun r => observe_write r.(safety) r.(sink).(written_bytes))
    end ;;
  (if existsb is_stop notices then
     now <- elapsed_ms ;;
     append (ended_record now) ;;;
     modify (fun r => set_status r (mark_ended r.(status)))
   else ret tt) ;;;
  modify (fun r => set_notices r (r.(limit_notices) ++ notices)).

Definition take_limit_notices : M (list LimitNotice) :=
  notices <- gets limit_notices ;;
  modify (fun r => set_notices r []) ;;;
  ret notices.

Definition failure_gap (at_ms : Z) : RecordingGap :=
  {| started_at_ms := at_ms; ended_at_ms := None; reason := RECORDING_FAILURE_REASON |}.

Definition mark_incomplete (r : SessionRecorder) : SessionRecorder :=
  if r.(status).(recording_failed) then r
  else
    let failure := failure_gap (media_duration_ms r) in
    let gaps := r.(media).(tl_gaps) in
    let gaps :=
      if bool_decide (length gaps < MAX_RECORDING_GAPS)%nat then gaps ++ [failure]
      else update_last (fun _ => failure) gaps in
    set_status (set_media r (media_gaps r.(media) gaps)) (mark_failed r.(status)).

Definition admit_timing (bytes : Z) : M bool :=
  budget <- gets timing_budget ;;
  match budget with
  | None => ret false
  | Some budget =>
      if budget.(exhausted) then ret false
      else if (budget.(maximum_records) <=? budget.(records))
              || is_none_or (checked_add budget.(budget_bytes) bytes)
                   (fun total => budget.(maximum_bytes) <? total) then
        modify (fun r => set_budget r
          {| records := budget.(records); budget_bytes := budget.(budget_bytes);
             maximum_records := budget.(maximum_records); maximum_bytes := budget.(maximum_bytes);
             exhausted := true |}) ;;;
        append [CHUNK_ALIGNMENT_LIMIT] ;;;
        ret false
      else
        modify (fun r => set_budget r
          {| records := budget.(records) + 1; budget_bytes := budget.(budget_bytes) + bytes;
             maximum_records := budget.(maximum_records); maximum_bytes := budget.(maximum_bytes);
             exhausted := false |}) ;;;
        ret true
  end.

Definition record_capture_metadata (metadata : CaptureMetadata) : M unit :=
  budget <- gets timing_budget ;;
  if is_none budget then fail (invalid_state_error (lit "legacy recording does not accept timing")) else
  record <- lift (metadata_record metadata) ;;
  admitted <- admit_timing (zlen record - 1) ;;
  (if admitted : bool then append record else ret tt) ;;;
  enforce_limits None.

Definition record_timed_frame (f : AudioFrame) (at_ms : Z) : M unit :=
  timing <- lift (match f.(capture_timing) with
    | Some timing => let? bs := or_recovery (FrameProvenance_encode timing.(timed_frame)) in Ok (Some bs)
    | None => Ok None
    end) ;;
  timing <- (if is_some timing then
      admitted <- admit_timing (Z.of_nat CAPTURE_TIMING_BYTES) ;;
      ret (if admitted : bool then timing else None)
    else ret None) ;;
  m <- gets media ;;
  counted <- lift (
    let? alignment := or_recovery (frame_alignment_bytes f.(format)) in
    let? total := ok_or (checked_add m.(tl_timed_samples) (zlen f.(frame_bytes) / alignment)) recovery_error in
    let? duration := exact_media_ms total f.(format).(sample_rate_hz) m.(tl_timed_gap_ms) in
    Ok (total, duration)) ;;
  append (timed_frame_record at_ms f timing) ;;;
  modify (fun r => set_media r (media_ms_set (media_samples r.(media) counted.1) counted.2)).

(** The gap a frame closes. *)
Definition close_gap (had_media : bool) (at_ms opened_at_ms : Z) : M unit :=
  append (gap_ended_record at_ms) ;;;
  modify (fun r => set_media r (media_open_gap r.(media) None)) ;;;
  (if had_media then
     budget <- gets timing_budget ;;
     (if is_some budget then
        m <- gets media ;;
        total <- lift (ok_or (checked_add m.(tl_timed_gap_ms) (saturating_sub at_ms opened_at_ms)) recovery_error) ;;
        modify (fun r => set_media r (media_gap_ms r.(media) total))
      else ret tt) ;;;
     modify (fun r => set_media r
       (media_ms_set r.(media) (saturating_add r.(media).(tl_media_ms) (saturating_sub at_ms opened_at_ms))))
   else ret tt) ;;;
  modify (fun r => set_media r
    (media_gaps r.(media) (update_last (with_end (Some r.(media).(tl_media_ms))) r.(media).(tl_gaps)))).

Definition record_frame (f : AudioFrame) : M unit :=
  format_before <- gets (fun r => r.(media).(tl_format)) ;;
  let had_media := is_some format_before in
  match format_before with
  | Some existing =>
      if negb (bool_decide (existing = f.(format)))
      then fail (adapter_error (lit "recording capture format changed mid-session")) else ret tt
  | None => modify (fun r => set_media r (media_format r.(media) (Some f.(format))))
  end ;;;
  at_ms <- elapsed_ms ;;
  open_gap <- gets (fun r => r.(media).(tl_open_gap_at_ms)) ;;
  match open_gap with
  | Some opened_at_ms => close_gap had_media at_ms opened_at_ms
  | None => ret tt
  end ;;;
  budget <- gets timing_budget ;;
  (if is_some budget then record_timed_frame f at_ms
   else
     append (frame_record at_ms f) ;;;
     modify (fun r => set_media r
       (media_ms_set r.(media) (saturating_add r.(media).(tl_media_ms) (frame_duration_ms f))))) ;;;
  enforce_limits (Some f).

Definition record_capture_gap : M unit :=
  open_gap_at <- gets (fun r => r.(media).(tl_open_gap_at_ms)) ;;
  if is_some open_gap_at then ret tt else
  at_ms <- elapsed_ms ;;
  append (gap_started_record at_ms CAPTURE_DISCONTINUITY_REASON) ;;;
  modify (fun r => set_media r (media_open_gap r.(media) (Some at_ms))) ;;;
  modify (fun r => set_media r (media_gaps r.(media) (open_gap r.(media).(tl_gaps) r.(media).(tl_media_ms)))) ;;;
  enforce_limits None.

Definition confirm_capture_boundary (boundary : CaptureFinishBoundary) : M unit :=
  r <- gets (fun r => r) ;;
  validation <- lift (ok_or r.(sink).(timed_validation) recovery_error) ;;
  if negb (bool_decide (boundary.(boundary_session_id) = r.(identity).(session_id)))
     || r.(status).(recording_failed) || r.(sink).(capability_poisoned) || r.(status).(ended)
     || is_some r.(status).(summary) || negb r.(sink).(file_open)
     || is_none_or r.(timing_budget) exhausted || validation.(tv_exhausted)
     || is_none_or validation.(tv_epoch)
          (fun epoch => negb (epoch.(epoch_capture_epoch) =? boundary.(boundary_capture_epoch)))
     || negb (bool_decide (frame_boundary validation = boundary.(boundary_frame)))
     || is_none_or validation.(tv_pair)
          (fun pair => negb (pair.(pair_sequence) =? boundary.(final_clock_pair_sequence)))
  then fail recovery_error
  else
    modify (fun r => set_sink r (set_poisoned r.(sink) true)) ;;;
    write_file [] (adapter_error (lit "recording file could not be flushed")) ;;;
    modify (fun r => set_sink r (set_poisoned r.(sink) false)).

(** The closing chunk, preceded by the failure record of an incomplete
    recording. *)
Definition close_file : M unit :=
  closed <- gets (fun r => r.(status).(ended)) ;;
  if closed : bool then ret tt else
  (r <- gets (fun r => r) ;;
   if is_incomplete r && negb r.(status).(failure_recorded) then
     now <- elapsed_ms ;;
     append (gap_started_record now RECORDING_FAILURE_REASON) ;;;
     modify (fun r => set_status r (mark_failure_recorded r.(status)))
   else ret tt) ;;;
  now <- elapsed_ms ;;
  append (ended_record now) ;;;
  modify (fun r => set_status r (mark_ended r.(status))).

(** [file_digest] and the digest of the admitted descriptor: both hash the
    bytes of the file. Reading them may fail. *)
Definition digest_file (e : RuntimeError) : M rstr :=
  write_file [] e ;;;
  (fun s => (Ok (lowercase_hex (sha256 s.(world).(w_file))), s)).

Definition MAX_FINALIZED_RECORDING_BYTES : Z := 8 * 1024 * 1024 * 1024.

(** [admitted_recovery_extent] of the recording's regular file. *)
Definition admitted_recovery_extent : M unit := fun s =>
  (if MAX_FINALIZED_RECORDING_BYTES <? zlen s.(world).(w_file) then Err recovery_error else Ok tt, s).

(** [open_recovery_source]: opening may fail, then the extent is checked. *)
Definition open_recovery_source : M unit :=
  write_file [] recovery_error ;;;
  admitted_recovery_extent.

Definition make_summary (r : SessionRecorder) (digest : rstr) : RecordingSummary :=
  {| summary_handle := r.(identity).(handle);
     encrypted_path := (r.(identity).(directory), r.(identity).(handle) ++ lit ".crsr");
     summary_sha256 := digest;
     duration_ms := media_duration_ms r;
     summary_format := format_label r.(media).(tl_format);
     summary_key_id := r.(identity).(key_id);
     summary_gaps := reported_gaps r |}.

(** [recovery] tells the descriptor kept by [finalize_with_capability] from the
    plain path. *)
Definition finalize_using (recovery : bool) : M RecordingSummary :=
  known <- gets (fun r => r.(status).(summary)) ;;
  match known with
  | Some summary => ret summary
  | None =>
      close_file ;;;
      is_open <- gets (fun r => r.(sink).(file_open)) ;;
      (if is_open : bool
       then write_file [] (adapter_error (lit "recording file could not be flushed")) else ret tt) ;;;
      (if recovery : bool then admitted_recovery_extent else ret tt) ;;;
      digest <- digest_file
        (if recovery then recovery_error else adapter_error (lit "recording could not be read")) ;;
      r <- gets (fun r => r) ;;
      let summary := make_summary r digest in
      modify (fun r => set_sink r (set_file_open r.(sink) false)) ;;;
      modify (fun r => set_status r (set_summary r.(status) summary)) ;;;
      ret summary
  end.

Definition finalize : M RecordingSummary := finalize_using false.

(** ** Capabilities *)

Record FinalizedRecordingCapability : Type := {
  source_session_id : SessionId;
  recording_handle : rstr;
  cap_sha256 : rstr;
  cap_key_id : rstr;
  authorization : rstr;
}.

Definition is_hex (value : rstr) (length : Z) : bool :=
  (blen value =? length) && forallb is_lowercase_hex_byte (utf8_encode value).

Definition capability_validate (c : FinalizedRecordingCapability) : bool :=
  negb ((SessionId_get c.(source_session_id) =? 0) || negb (is_hex c.(recording_handle) 32)
        || negb (is_hex c.(cap_sha256) 64) || negb (is_hex c.(cap_key_id) 16)
        || negb (is_hex c.(authorization) 64)).

Definition CAPABILITY_DOMAIN : list Z :=
  utf8_encode (lit "conversation-runtime/finalized-recording-capability/v1") ++ [0].

Definition capability_fields (c : FinalizedRecordingCapability) : rresult (list Z) :=
  if negb (capability_validate c) then Err recovery_error
  else
    let? handle := ok_or (decode_hex 16 c.(recording_handle)) recovery_error in
    let? digest := ok_or (decode_hex 32 c.(cap_sha256)) recovery_error in
    let? key := ok_or (decode_hex 8 c.(cap_key_id)) recovery_error in
    Ok (CAPABILITY_DOMAIN ++ be_bytes 8 (SessionId_get c.(source_session_id)) ++ handle ++ digest ++ key).

Definition with_authorization (c : FinalizedRecordingCapability) (tag : rstr) : FinalizedRecordingCapability :=
  {| source_session_id := c.(source_session_id); recording_handle := c.(recording_handle);
     cap_sha256 := c.(cap_sha256); cap_key_id := c.(cap_key_id); authorization := tag |}.

Definition authorize (c : FinalizedRecordingCapability) : rresult FinalizedRecordingCapability :=
  let c := with_authorization c (replicate 64 48) in
  let? fields := capability_fields c in
  Ok (with_authorization c (lowercase_hex (hmac_sign fields))).

Definition verify (own_key_id : rstr) (c : FinalizedRecordingCapability) : rresult unit :=
  let? fields := capability_fields c in
  let? tag := ok_or (decode_hex 32 c.(authorization)) recovery_error in
  if negb (bool_decide (c.(cap_key_id) = own_key_id)) then Err recovery_error
  else if bool_decide (hmac_sign fields = tag) then Ok tt else Err recovery_error.

(** The capability both the live finalize and the adoption issue. *)
Definition summary_capability (session : SessionId) (s : RecordingSummary) : FinalizedRecordingCapability :=
  {| source_session_id := session; recording_handle := s.(summary_handle);
     cap_sha256 := s.(summary_sha256); cap_key_id := s.(summary_key_id); authorization := [] |}.

Definition finalize_with_capability : M (RecordingSummary * FinalizedRecordingCapability) :=
  r <- gets (fun r => r) ;;
  if r.(status).(recording_failed) || r.(sink).(capability_poisoned) then fail recovery_error else
  open_recovery_source ;;;
  summary <- finalize_using true ;;
  r <- gets (fun r => r) ;;
  if negb (bool_decide (summary.(summary_sha256) = lowercase_hex (sha256 r.(sink).(sealed_bytes))))
  then fail recovery_error else
  capability <- lift (authorize (summary_capability r.(identity).(session_id) summary)) ;;
  ret (summary, capability).

(** ** Starting *)

(** A recorder at the moment its header has been written. *)
Definition new_recorder (limits : RecordingLimits) (session : SessionId) (dir key : rstr)
    (timed : bool) (nonce_prefix binding : list Z) : SessionRecorder :=
  let header := make_header timed session nonce_prefix binding in
  {| identity := {| session_id := session; handle := lowercase_hex binding; directory := dir;
                    key_id := key; header := header |};
     media := MediaTimeline_default;
     sink := {| file_open := true; counter := 0; sealed_bytes := header; capability_poisoned := false;
                timed_validation := if timed then Some TimedValidation_default else None;
                written_bytes := Z.of_nat HEADER_LEN |};
     status := {| ended := false; failure_recorded := false; recording_failed := false; summary := None |};
     timing_budget := if timed then Some TimingBudget_default else None;
     safety := Guard_new limits;
     limit_notices := [] |}.

(** [start_format]: the key and the random bytes are resolved before the
    directory, the file and its header are created. *)
Definition start_format (limits : RecordingLimits) (session : SessionId) (dir : rstr)
    (key : rresult rstr) (random : option (list Z * list Z)) (timed : bool) (w : World)
  : rresult SessionRecorder * World :=
  match key with
  | Err e => (Err e, w)
  | Ok key =>
      match random with
      | None => (Err (adapter_error (lit "recording randomness was unavailable")), w)
      | Some (binding, nonce_prefix) =>
          match w.(w_io) w.(w_ios) with
          | Io_fail _ => (Err (adapter_error (lit "recording directory could not be created")), io_done w [])
          | Io_ok =>
              let w := io_done w [] in
              match w.(w_io) w.(w_ios) with
              | Io_fail _ => (Err (adapter_error (lit "recording file could not be created")), io_done w [])
              | Io_ok =>
                  let w := io_done w [] in
                  let r := new_recorder limits session dir key timed nonce_prefix binding in
                  match w.(w_io) w.(w_ios) with
                  | Io_fail n =>
                      (Err (adapter_error (lit "recording header could not be written")),
                       io_done w (take n r.(identity).(header)))
                  | Io_ok => (Ok r, io_done w r.(identity).(header))
                  end
              end
          end
      end
  end.

Definition start (limits : RecordingLimits) (session : SessionId) (dir : rstr) (key : rresult rstr)
    (random : option (list Z * list Z)) (timed : bool) (w : World) : rresult unit * option St :=
  match start_format limits session dir key random timed w with
  | (Err e, _) => (Err e, None)
  | (Ok r, w) =>
      let s := {| rec := r; world := w |} in
      if timed then
        match append policy_record s with
        | (Ok _, s) => (Ok tt, Some s)
        | (Err e, _) => (Err e, None)
        end
      else (Ok tt, Some s)
  end.
End Recorder.
