(* ===== verification/Reader.v ===== *)
(** * Reading a session recording

    [crates/runtime/src/session_recording.rs], the reading half:
    [RecordedChunks] walks the sealed chunks of a file, [read_session_recording]
    collects them, [walk_completed_chunks] authenticates, orders and replays
    them on a media timeline, and [adopt_closed_recording] issues the capability
    of a recording that was closed without a reply.

    The file is the list of its bytes; the reads of a regular file that the
    operating system would fail are not modelled. *)

From S2P Require Import Prelude RustStr Errors Bytes Pcm CaptureTiming Audio RecordingSafety Chunks Recorder.

Record RecordedChunks : Type := {
  remaining : list Z;
  reader_header : list Z;
  reader_session : SessionId;
  reader_counter : Z;
  truncated : bool;
  finished : bool;
  strict : bool;
}.

Definition set_reader (c : RecordedChunks) (rest : list Z) (counter : Z) (fin tr : bool) : RecordedChunks :=
  {| remaining := rest; reader_header := c.(reader_header); reader_session := c.(reader_session);
     reader_counter := counter; truncated := tr; finished := fin; strict := c.(strict) |}.

(** [fill]: reads until the buffer is full or the file ends. *)
Definition fill (c : RecordedChunks) (n : nat) : list Z * list Z :=
  (take n c.(remaining), drop n c.(remaining)).

Definition tear (c : RecordedChunks) (rest : list Z) : RecordedChunks :=
  set_reader c rest c.(reader_counter) true true.

Section Reader.
Context `{RecordingCrypto}.

Definition open_session_recording (file : list Z) (is_strict : bool) : rresult RecordedChunks :=
  if bool_decide (length file < HEADER_LEN)%nat then
    Err (adapter_error (lit "recording header is incomplete"))
  else
    let header := take HEADER_LEN file in
    let? session := read_header header in
    Ok {| remaining := drop HEADER_LEN file; reader_header := header; reader_session := session;
          reader_counter := 0; truncated := false; finished := false; strict := is_strict |}.

(** The checks on a decrypted record before it is decoded. *)
Definition admit_record (header : list Z) (is_strict : bool) (record : list Z) : rresult RecordedChunk :=
  match record with
  | [] => Err recovery_error
  | kind :: _ =>
      let timed := header_is_timed header in
      if (timed && (kind =? CHUNK_FRAME)) || (negb timed && (CHUNK_POLICY <=? kind)) then
        Err recovery_error
      else if is_strict && (kind =? CHUNK_GAP_STARTED)
              && ((zlen record <? 10) || negb (zlen record =? 10 + byte_at 9 record)) then
        Err recovery_error
      else decode_chunk record
  end.

Definition next_chunk (c : RecordedChunks) : rresult (option RecordedChunk) * RecordedChunks :=
  if c.(finished) then (Ok None, c)
  else
    let '(prefix, rest) := fill c 4 in
    if bool_decide (length prefix = 0%nat) then
      (Ok None, set_reader c rest c.(reader_counter) true c.(truncated))
    else if negb (bool_decide (length prefix = 4%nat)) then (Ok None, tear c rest)
    else
      let length := be_value prefix in
      let c := set_reader c rest c.(reader_counter) false c.(truncated) in
      if MAX_CHUNK_CIPHERTEXT_BYTES <? length then
        (Err (adapter_error (lit "recording chunk exceeded its size limit")), c)
      else
        let '(buffer, rest) := fill c (Z.to_nat length) in
        if negb (zlen buffer =? length) then (Ok None, tear c rest)
        else
          let c := set_reader c rest c.(reader_counter) false c.(truncated) in
          let counter := c.(reader_counter) in
          match open (nonce c.(reader_header) counter) (aad c.(reader_header) counter) buffer with
          | None => (Err (adapter_error (lit "recording chunk could not be decrypted")), c)
          | Some record =>
              match admit_record c.(reader_header) c.(strict) record with
              | Err e => (Err e, c)
              | Ok chunk =>
                  if u32_max <? counter + 1 then
                    (Err (adapter_error (lit "recording exceeded its chunk limit")), c)
                  else (Ok (Some chunk), set_reader c rest (counter + 1) false c.(truncated))
              end
          end.

Record RecordedSession : Type := {
  recorded_session_id : SessionId;
  chunks : list RecordedChunk;
  session_truncated : bool;
}.

(** The loop of [read_session_recording]; each turn reads at least four bytes,
    so the length of the file is fuel enough. *)
Fixpoint read_loop (fuel : nat) (c : RecordedChunks) (acc : list RecordedChunk)
  : exec (rresult (list RecordedChunk * RecordedChunks)) :=
  match fuel with
  | O => Fuel_out
  | S fuel =>
      match next_chunk c with
      | (Err e, _) => Val (Err e)
      | (Ok None, c) => Val (Ok (acc, c))
      | (Ok (Some chunk), c) => read_loop fuel c (acc ++ [chunk])
      end
  end.

Definition read_session_recording (file : list Z) : exec (rresult RecordedSession) :=
  match open_session_recording file false with
  | Err e => Val (Err e)
  | Ok c =>
      let! r := read_loop (S (length file)) c [] in
      Val (let? '(l, c) := r in
           Ok {| recorded_session_id := c.(reader_session); chunks := l;
                 session_truncated := c.(truncated) |})
  end.

(** ** The completed walk *)

Record WalkState : Type := {
  walk_ended : bool;
  walk_format : option PcmFormat;
  walk_gap : option Z;
  walk_last_at_ms : Z;
  walk_validation : TimedValidation;
  walk_timeline : MediaTimeline;
}.

Definition WalkState_default : WalkState :=
  {| walk_ended := false; walk_format := None; walk_gap := None; walk_last_at_ms := 0;
     walk_validation := TimedValidation_default; walk_timeline := MediaTimeline_default |}.

Record CompletedWalk : Type := {
  completed_ended : bool;
  completed_incomplete : bool;
  completed_timeline : MediaTimeline;
}.

(** What one chunk does to the walk: [inl] goes on, [inr] stops at the failure
    record. *)
Definition advance (s : WalkState) (at_ms : Z) (fin : bool) (fmt : option PcmFormat) (gap : option Z)
    (v : TimedValidation) (t : MediaTimeline) : rresult (WalkState + CompletedWalk) :=
  if at_ms <? s.(walk_last_at_ms) then Err recovery_error
  else Ok (inl {| walk_ended := fin; walk_format := fmt; walk_gap := gap; walk_last_at_ms := at_ms;
                  walk_validation := v; walk_timeline := t |}).

Definition format_changed (s : WalkState) (f : PcmFormat) : bool :=
  is_some_and s.(walk_format) (fun prior => negb (bool_decide (prior = f))).

Definition walk_chunk (timed : bool) (s : WalkState) (chunk : RecordedChunk)
  : rresult (WalkState + CompletedWalk) :=
  if s.(walk_ended) then Err recovery_error
  else
    let? v := if timed then accept s.(walk_validation) chunk else Ok s.(walk_validation) in
    let t := s.(walk_timeline) in
    match chunk with
    | TimedFrame at_ms f _ bytes =>
        if is_some s.(walk_gap) || format_changed s f || is_empty bytes then Err recovery_error
        else
          let? t := tl_timed_frame t f (zlen bytes) in
          advance s at_ms false (Some f) s.(walk_gap) v t
    | TimingPolicy | ChunkMetadata _ | AlignmentLimit =>
        Ok (inl {| walk_ended := false; walk_format := s.(walk_format); walk_gap := s.(walk_gap);
                   walk_last_at_ms := s.(walk_last_at_ms); walk_validation := v; walk_timeline := t |})
    | Frame at_ms _ rate ch sf bytes =>
        let? f := or_recovery (PcmFormat_new rate ch sf) in
        let? alignment := or_recovery (frame_alignment_bytes f) in
        if is_some s.(walk_gap) || format_changed s f || is_empty bytes
           || negb (zlen bytes mod alignment =? 0)
        then Err recovery_error
        else advance s at_ms false (Some f) s.(walk_gap) v (tl_frame t f (zlen bytes))
    | GapStarted at_ms why =>
        if bool_decide (why = RECORDING_FAILURE_REASON) then
          Ok (inr {| completed_ended := false; completed_incomplete := true; completed_timeline := t |})
        else if is_some s.(walk_gap) || negb (bool_decide (why = CAPTURE_DISCONTINUITY_REASON))
        then Err recovery_error
        else advance s at_ms false s.(walk_format) (Some at_ms) v (tl_gap_started t at_ms)
    | GapEnded at_ms =>
        if is_none s.(walk_gap) then Err recovery_error
        else
          let? t := tl_gap_ended t at_ms timed in
          advance s at_ms false s.(walk_format) None v t
    | Ended at_ms => advance s at_ms true s.(walk_format) s.(walk_gap) v t
    end.

Definition cancelled_error : RuntimeError :=
  invalid_state_error (lit "recording recovery was cancelled").

(** [cancelled n] is the token's state at the [n]-th check of the loop. *)
Fixpoint walk_loop (fuel : nat) (cancelled : nat -> bool) (n : nat) (c : RecordedChunks) (s : WalkState)
  : exec (rresult (CompletedWalk * RecordedChunks)) :=
  match fuel with
  | O => Fuel_out
  | S fuel =>
      if cancelled n then Val (Err cancelled_error)
      else match next_chunk c with
      | (Err e, _) => Val (Err e)
      | (Ok None, c) =>
          Val (Ok ({| completed_ended := s.(walk_ended); completed_incomplete := false;
                      completed_timeline := s.(walk_timeline) |}, c))
      | (Ok (Some chunk), c) =>
          match walk_chunk (header_is_timed c.(reader_header)) s chunk with
          | Err e => Val (Err e)
          | Ok (inr done) => Val (Ok (done, c))
          | Ok (inl s) => walk_loop fuel cancelled (S n) c s
          end
      end
  end.

Definition walk_completed_chunks (cancelled : nat -> bool) (c : RecordedChunks)
  : exec (rresult (CompletedWalk * RecordedChunks)) :=
  walk_loop (S (length c.(remaining))) cancelled 0 c WalkState_default.

(** ** Adoption *)

Inductive RecordingAdoptionError : Type :=
| NotFound
| Unreadable
| NotClosed
| Incomplete
| IdentityMismatch
| Unavailable (error : RuntimeError).

(** [MediaTimeline::summary]. *)
Definition timeline_summary (t : MediaTimeline) (dir handle digest key : rstr) : RecordingSummary :=
  let duration := if is_some t.(tl_format) then t.(tl_media_ms) else 0 in
  {| summary_handle := handle;
     encrypted_path := (dir, handle ++ lit ".crsr");
     summary_sha256 := digest;
     duration_ms := duration;
     summary_format := format_label t.(tl_format);
     summary_key_id := key;
     summary_gaps := clamped_gaps t.(tl_gaps) duration |}.

(** [file] is the content of the file filed under the handle, when there is
    one; [snapshot_recording] refuses one above the size limit and copies it.
    The token is [cancelled] from the start or not at all here. *)
Definition adopt_closed_recording (file : option (list Z)) (dir : rstr) (key : rresult rstr)
    (session : SessionId) (handle : rstr) (cancelled : bool)
  : exec (result (RecordingSummary * FinalizedRecordingCapability) RecordingAdoptionError) :=
  match decode_handle handle with
  | None => Val (Err NotFound)
  | Some binding =>
      if cancelled then Val (Err (Unavailable cancelled_error)) else
      match key with
      | Err e => Val (Err (Unavailable e))
      | Ok key =>
          match file with
          | None => Val (Err NotFound)
          | Some file =>
              if MAX_FINALIZED_RECORDING_BYTES <? zlen file then Val (Err Unreadable) else
              match open_session_recording file true with
              | Err e => Val (Err Unreadable)
              | Ok c =>
                  if negb (bool_decide (slice 28 44 c.(reader_header) = binding))
                     || negb (bool_decide (c.(reader_session) = session))
                  then Val (Err IdentityMismatch)
                  else
                    let! walked := walk_completed_chunks (fun _ => false) c in
                    match walked with
                    | Err e => Val (Err Unreadable)
                    | Ok (walk, c) =>
                        if walk.(completed_incomplete) then Val (Err Incomplete)
                        else if negb walk.(completed_ended) then Val (Err NotClosed)
                        else if c.(truncated) then Val (Err Unreadable)
                        else
                          let summary := timeline_summary walk.(completed_timeline) dir handle
                            (lowercase_hex (sha256 file)) key in
                          Val match authorize (summary_capability c.(reader_session) summary) with
                          | Ok capability => Ok (summary, capability)
                          | Err e => Err (Unavailable e)
                          end
                    end
              end
          end
      end
  end.
End Reader.
