(* ===== verification/Recording.v ===== *)
(** * What a recording's file says

    Theorems that relate the recorder of [Recorder] to the reader of [Reader]:
    a file reads back as the records appended to it, a file cut anywhere reads
    back as the whole chunks before the cut, and the timeline replayed from the
    file is the recorder's own. [Tracks] says where the walk of the file is when
    the recorder is in a given state; every method leaves a recorder that is
    incomplete or tracked ([Kept]), also a method that fails. *)

From S2P Require Import Prelude RustStr Errors Bytes Pcm CaptureTiming Audio RecordingSafety Chunks Recorder Reader.

#[local] Arguments be_bytes : simpl never.
#[local] Arguments be_value : simpl never.
#[local] Arguments slice : simpl never.
#[local] Arguments byte_at : simpl never.

(** ** Decoding the records the recorder writes *)

Lemma u16_be v : is_u16 v -> be_value (be_bytes 2 v) = v.
Proof. intros H. apply be_value_bytes. ints. Qed.

Lemma sample_format_roundtrip f : sample_format_from_code (sample_format_code f) = Ok f.
Proof. by destruct f. Qed.

Lemma byte_at_app_r i (a b : list Z) : (length a <= i)%nat -> byte_at i (a ++ b) = byte_at (i - length a) b.
Proof. intros H. unfold byte_at. by rewrite app_nth2. Qed.

Lemma byte_at_0 b (bs : list Z) : byte_at 0 (b :: bs) = b.
Proof. done. Qed.

(** The byte behind a run of fixed-width fields. *)
Ltac read_byte :=
  repeat (rewrite byte_at_app_r; rewrite ?be_bytes_length; [cbn [Nat.sub length]|cbn; lia]); try apply byte_at_0.

Lemma decode_frame_record at_ms f :
  is_u64 at_ms -> is_u64 f.(frame_sequence) -> wf_frame f ->
  decode_chunk (frame_record at_ms f) =
  Ok (Frame at_ms f.(frame_sequence) f.(format).(sample_rate_hz) f.(format).(channels)
        f.(format).(sample_format) f.(frame_bytes)).
Proof.
  intros Ha Hs [[Hr Hc] _]. unfold frame_record, decode_chunk.
  change (CHUNK_FRAME =? CHUNK_POLICY) with false. cbn -[decode_frame be_bytes].
  unfold decode_frame.
  rewrite bool_decide_false by (rewrite !length_app, !be_bytes_length; cbn; lia).
  assert (E : byte_at 22 (be_bytes 8 at_ms ++ be_bytes 8 (frame_sequence f) ++
      be_bytes 4 (sample_rate_hz (format f)) ++ be_bytes 2 (channels (format f)) ++
      [sample_format_code (sample_format (format f))] ++ frame_bytes f)
      = sample_format_code (sample_format (format f))) by read_byte.
  cbn [app] in E. rewrite E, sample_format_roundtrip. cbn [result_bind]. f_equal.
  f_equal.
  - read_field. apply be_value_bytes. ints.
  - read_field. apply be_value_bytes. ints.
  - read_field. apply be_value_bytes. ints.
  - read_field. apply u16_be. ints.
Qed.

Lemma decode_gap_ended_record at_ms :
  is_u64 at_ms -> decode_chunk (gap_ended_record at_ms) = Ok (GapEnded at_ms).
Proof.
  intros Ha. unfold gap_ended_record, decode_chunk. cbn -[be_bytes].
  rewrite be_bytes_length. cbn -[be_bytes]. rewrite slice_all by apply be_bytes_length.
  by rewrite be_value_bytes by ints.
Qed.

Lemma decode_ended_record at_ms :
  is_u64 at_ms -> decode_chunk (ended_record at_ms) = Ok (Ended at_ms).
Proof.
  intros Ha. unfold ended_record, decode_chunk. cbn -[be_bytes].
  rewrite be_bytes_length. cbn -[be_bytes]. rewrite slice_all by apply be_bytes_length.
  by rewrite be_value_bytes by ints.
Qed.

Lemma decode_gap_started_record at_ms why :
  is_u64 at_ms -> wf_string why -> blen why < 256 ->
  decode_chunk (gap_started_record at_ms why) = Ok (GapStarted at_ms why).
Proof.
  intros Ha Hw Hl. unfold gap_started_record, decode_chunk. cbn -[be_bytes decode_gap_started].
  unfold decode_gap_started. pose proof (blen_nonneg why).
  pose proof (utf8_encode_length why) as Hu. unfold zlen in Hu.
  rewrite bool_decide_false by (rewrite length_app, be_bytes_length; cbn; lia).
  assert (E : byte_at 8 (be_bytes 8 at_ms ++ blen why :: utf8_encode why) = blen why) by read_byte.
  rewrite E. rewrite bool_decide_false by (rewrite length_app, be_bytes_length; cbn; lia).
  cbn [result_bind]. erewrite slice_skip; [|apply be_bytes_length|lia|lia].
  replace (9 - 8)%nat with 1%nat by lia. replace (9 + Z.to_nat (blen why) - 8)%nat with (1 + Z.to_nat (blen why))%nat by lia.
  change (blen why :: utf8_encode why) with ([blen why] ++ utf8_encode why).
  erewrite slice_skip; [|reflexivity|cbn; lia|cbn; lia]. cbn [Nat.sub length].
  replace (1 + Z.to_nat (blen why) - 1)%nat with (length (utf8_encode why)) by lia.
  rewrite slice_all by done. rewrite from_utf8_encode by done. cbn [ok_or result_bind].
  rewrite slice_app_l by apply be_bytes_length. by rewrite be_value_bytes by ints.
Qed.

Lemma decode_timed_record at_ms f timing chunk :
  is_u64 at_ms -> wf_frame f ->
  (forall bs, timing = Some bs -> length bs = CAPTURE_TIMING_BYTES) ->
  decode_chunk (timed_frame_record at_ms f timing) = Ok chunk ->
  exists t, chunk = TimedFrame at_ms f.(format) t f.(frame_bytes).
Proof.
  intros Ha Hf Ht. pose proof Hf as [[Hr Hc] _]. unfold timed_frame_record, decode_chunk.
  change (CHUNK_TIMED_FRAME =? CHUNK_POLICY) with false. change (CHUNK_TIMED_FRAME =? CHUNK_TIMED_FRAME) with true.
  cbv iota. set (body := be_bytes 8 at_ms ++ _). unfold decode_timed_frame.
  destruct (bool_decide _); [done|].
  assert (E8 : byte_at 8 body = sample_format_code (sample_format (format f))) by (unfold body; read_byte).
  assert (E15 : byte_at 15 body = if is_some timing then 1 else 0) by (unfold body; read_byte).
  assert (F0 : be_value (slice 0 8 body) = at_ms) by (unfold body; read_field; apply be_value_bytes; ints).
  assert (F9 : be_value (slice 9 13 body) = sample_rate_hz (format f))
    by (unfold body; read_field; apply be_value_bytes; ints).
  assert (F13 : be_value (slice 13 15 body) = channels (format f)) by (unfold body; read_field; apply u16_be; ints).
  rewrite E8, sample_format_roundtrip, F0, F9, F13. cbn [result_bind].
  rewrite PcmFormat_new_of by by split. cbn [or_recovery result_bind]. rewrite E15.
  assert (D : drop 16 body = default [] timing ++ f.(frame_bytes)) by done.
  destruct timing as [bs|]; cbn [is_some] in *.
  - change (1 =? 0) with false. cbv iota. destruct (_ && _); [|done].
    destruct (or_recovery (FrameProvenance_decode _)) as [t|]; [|done]. cbn [result_bind].
    replace (drop (16 + CAPTURE_TIMING_BYTES) body) with (frame_bytes f)
      by (rewrite <- drop_drop, D; cbn; rewrite drop_app_length'; by rewrite ?(Ht bs eq_refl)).
    intros (al & _ & H)%result_bind_Ok. destruct (_ || _ || _); [done|].
    apply result_bind_Ok in H as (u & _ & <-%Ok_inj). eauto.
  - change (0 =? 0) with true. cbn [result_bind]. rewrite D. cbn [default app].
    intros (al & _ & H)%result_bind_Ok. destruct (_ || _ || _); [done|].
    apply Ok_inj in H as <-. eauto.
Qed.

Lemma decode_metadata_record m record chunk :
  metadata_record m = Ok record -> decode_chunk record = Ok chunk ->
  (exists m', chunk = ChunkMetadata m') /\ exists k body, record = k :: body /\ CHUNK_POLICY <= k.
Proof.
  intros Hm Hd. destruct m as [e|p|ep why]; cbn [metadata_record] in Hm.
  - destruct (CaptureEpoch_encode e); [|done]. cbn in Hm. simplify_eq.
    split; [|eexists _, _; by split]. cbn in Hd. inv_branches Hd. destruct (CaptureEpoch_decode _); cbn in Hd; [|done].
    simplify_eq. eauto.
  - destruct (CaptureClockPair_encode p); [|done]. cbn in Hm. simplify_eq.
    split; [|eexists _, _; by split]. cbn in Hd. destruct (CaptureClockPair_decode _); cbn in Hd; [|done].
    simplify_eq. eauto.
  - destruct (ep =? 0); [done|]. apply Ok_inj in Hm as <-. split; [|eexists _, _; by split].
    set (body := be_bytes 8 ep ++ _) in Hd.
    change (decode_chunk (CHUNK_TIMING_DISCONTINUITY :: body)) with
      (if bool_decide (length body = 9%nat) then
         if be_value (slice 0 8 body) =? 0 then Err recovery_error
         else let? reason := or_recovery (CaptureDiscontinuityReason_decode (byte_at 8 body)) in
              Ok (ChunkMetadata (Metadata_Discontinuity (be_value (slice 0 8 body)) reason))
       else Err unrecognised) in Hd.
    destruct (bool_decide _); [|done]. destruct (_ =? 0); [done|].
    apply result_bind_Ok in Hd as (x & _ & <-%Ok_inj). eauto.
Qed.

Lemma decode_policy : decode_chunk policy_record = Ok TimingPolicy.
Proof. reflexivity. Qed.

(** ** The chunks of a file *)

Section Sealed.
Context `{RC : RecordingCrypto}.

(** The bytes of consecutive chunks, the first sealed under [counter]. *)
Inductive sealed (header : list Z) : Z -> list (list Z) -> list Z -> Prop :=
| sealed_nil counter : sealed header counter [] []
| sealed_cons counter record ciphertext records bytes :
    seal (nonce header counter) (aad header counter) record = Some ciphertext ->
    zlen ciphertext <= MAX_CHUNK_CIPHERTEXT_BYTES ->
    sealed header (counter + 1) records bytes ->
    sealed header counter (record :: records) (be_bytes 4 (zlen ciphertext) ++ ciphertext ++ bytes).

Lemma sealed_snoc header counter records bytes record ciphertext :
  sealed header counter records bytes ->
  seal (nonce header (counter + zlen records)) (aad header (counter + zlen records)) record = Some ciphertext ->
  zlen ciphertext <= MAX_CHUNK_CIPHERTEXT_BYTES ->
  sealed header counter (records ++ [record]) (bytes ++ be_bytes 4 (zlen ciphertext) ++ ciphertext).
Proof.
  induction 1 as [counter|counter r c rs bs Hs Hl H IH]; intros Hseal Hlen.
  - rewrite Z.add_0_r in Hseal. cbn [app]. rewrite <- (app_nil_r ciphertext) at 2.
    econstructor; [done..|constructor].
  - rewrite zlen_cons, Z.add_assoc in Hseal. cbn [app]. rewrite <- !app_assoc.
    econstructor; [done..|]. by apply IH.
Qed.

Context `{RCL : !RecordingCryptoLaws RC}.

Lemma be4_len (c : list Z) : zlen c <= MAX_CHUNK_CIPHERTEXT_BYTES -> be_value (be_bytes 4 (zlen c)) = zlen c.
Proof.
  intros H. pose proof (zlen_nonneg c). apply be_value_bytes.
  unfold MAX_CHUNK_CIPHERTEXT_BYTES in H. lia.
Qed.

Lemma next_chunk_empty c :
  c.(finished) = false -> c.(remaining) = [] ->
  next_chunk c = (Ok None, set_reader c [] c.(reader_counter) true c.(truncated)).
Proof. intros Hf Hr. unfold next_chunk, fill. by rewrite Hf, Hr. Qed.

Lemma next_chunk_whole c record ciphertext rest chunk :
  c.(finished) = false ->
  seal (nonce c.(reader_header) c.(reader_counter)) (aad c.(reader_header) c.(reader_counter)) record
    = Some ciphertext ->
  zlen ciphertext <= MAX_CHUNK_CIPHERTEXT_BYTES ->
  c.(remaining) = be_bytes 4 (zlen ciphertext) ++ ciphertext ++ rest ->
  admit_record c.(reader_header) c.(strict) record = Ok chunk ->
  c.(reader_counter) + 1 <= u32_max ->
  next_chunk c = (Ok (Some chunk), set_reader c rest (c.(reader_counter) + 1) false c.(truncated)).
Proof using RC RCL.
  intros Hf Hs Hl Hr Ha Hc. unfold next_chunk, fill. rewrite Hf, Hr.
  rewrite take_app_length' by (by rewrite be_bytes_length). rewrite drop_app_length' by (by rewrite be_bytes_length).
  rewrite be_bytes_length.
  rewrite bool_decide_false, bool_decide_true by done. cbn [negb]. rewrite be4_len by done.
  rewrite (proj2 (Z.ltb_ge _ _)) by done. cbn [remaining set_reader].
  assert (Z.to_nat (zlen ciphertext) = length ciphertext) as -> by (unfold zlen; lia).
  rewrite take_app_length, drop_app_length, Z.eqb_refl. cbn [negb reader_header reader_counter set_reader strict].
  rewrite (open_seal _ _ _ _ Hs), Ha. by rewrite (proj2 (Z.ltb_ge _ _)).
Qed.

(** A file that ends inside a chunk. *)
Lemma next_chunk_torn c ciphertext cut :
  c.(finished) = false -> zlen ciphertext <= MAX_CHUNK_CIPHERTEXT_BYTES ->
  c.(remaining) = take cut (be_bytes 4 (zlen ciphertext) ++ ciphertext) ->
  (0 < cut < 4 + length ciphertext)%nat ->
  exists rest, next_chunk c = (Ok None, tear c rest).
Proof.
  intros Hf Hl Hr Hcut. unfold next_chunk, fill. rewrite Hf, Hr.
  assert (HL : length (take cut (be_bytes 4 (zlen ciphertext) ++ ciphertext)) = cut)
    by (rewrite length_take, length_app, be_bytes_length; lia).
  rewrite bool_decide_false by (rewrite length_take, HL; lia).
  destruct (decide (cut < 4)%nat) as [Hs|Hs].
  { rewrite bool_decide_false by (rewrite length_take, HL; lia). cbn [negb]. eauto. }
  rewrite bool_decide_true by (rewrite length_take, HL; lia). cbn [negb].
  rewrite take_take, Nat.min_l by lia. rewrite take_app_length' by (by rewrite be_bytes_length).
  rewrite be4_len by done. rewrite (proj2 (Z.ltb_ge _ _)) by done. cbn [remaining set_reader].
  rewrite (proj2 (Z.eqb_neq _ _)); [cbn [negb]; eexists; reflexivity|].
  unfold zlen. rewrite !length_take, length_drop, length_take, length_app, be_bytes_length. lia.
Qed.

Lemma sealed_cons_inv header counter record records bytes :
  sealed header counter (record :: records) bytes ->
  exists ciphertext rest,
    seal (nonce header counter) (aad header counter) record = Some ciphertext /\
    bytes = (be_bytes 4 (zlen ciphertext) ++ ciphertext) ++ rest /\ sealed header (counter + 1) records rest.
Proof. inversion 1; subst. rewrite app_assoc. eauto. Qed.

(** The chunks of [records] that are whole within [cut]. *)
Definition whole_within (header : list Z) (counter : Z) (records : list (list Z)) (cut : list Z)
    (k : nat) (pre : list Z) : Prop :=
  sealed header counter (take k records) pre /\ pre `prefix_of` cut /\ (k <= length records)%nat /\
  forall j pre', (k < j <= length records)%nat -> sealed header counter (take j records) pre' ->
    ~ pre' `prefix_of` cut.

Lemma whole_within_cons header counter record ciphertext records cut k pre :
  seal (nonce header counter) (aad header counter) record = Some ciphertext ->
  zlen ciphertext <= MAX_CHUNK_CIPHERTEXT_BYTES ->
  whole_within header (counter + 1) records cut k pre ->
  whole_within header counter (record :: records) ((be_bytes 4 (zlen ciphertext) ++ ciphertext) ++ cut)
    (S k) ((be_bytes 4 (zlen ciphertext) ++ ciphertext) ++ pre).
Proof.
  intros Hs Hl (Hw & Hp & Hk & Hmax). split_and!; cbn [take length].
  - rewrite <- app_assoc. by econstructor.
  - by apply prefix_app.
  - lia.
  - intros [|j] pre' Hj Hj'; [lia|]. cbn [take] in Hj'.
    apply sealed_cons_inv in Hj' as (c' & rest & Hs' & -> & Hr). rewrite Hs in Hs'. simplify_eq.
    intros Hpre%prefix_app_inv. by eapply (Hmax j); [lia|..].
Qed.

Lemma whole_within_none header counter record ciphertext records cut :
  seal (nonce header counter) (aad header counter) record = Some ciphertext ->
  (length cut < 4 + length ciphertext)%nat ->
  whole_within header counter (record :: records) cut 0 [].
Proof.
  intros Hs Hl. split_and!; [constructor|apply prefix_nil|lia|].
  intros [|j] pre' Hj Hj'; [lia|]. cbn [take] in Hj'.
  apply sealed_cons_inv in Hj' as (c' & rest & Hs' & -> & _). rewrite Hs in Hs'. simplify_eq.
  intros Hpre%prefix_length. rewrite !length_app, be_bytes_length in Hpre. lia.
Qed.

Lemma read_loop_cut header st counter records bytes :
  sealed header counter records bytes -> forall c chunks cut acc fuel,
  Forall2 (fun r ch => admit_record header st r = Ok ch) records chunks ->
  c.(reader_header) = header -> c.(strict) = st ->
  cut `prefix_of` bytes -> c.(remaining) = cut -> c.(reader_counter) = counter ->
  c.(finished) = false -> c.(truncated) = false ->
  counter + zlen records <= u32_max -> (length cut < fuel)%nat ->
  exists k pre c', read_loop fuel c acc = Val (Ok (acc ++ take k chunks, c')) /\
    whole_within header counter records cut k pre /\
    c'.(truncated) = negb (bool_decide (cut = pre)) /\ c'.(reader_session) = c.(reader_session).
Proof using RC RCL.
  induction 1 as [counter|counter record ct records bytes Hs Hl Hsealed IH];
    intros c chunks cut acc fuel Hch Hh Hst Hcut Hr Hc Hf Ht Hmax Hfuel.
  - apply prefix_nil_inv in Hcut as ->. destruct fuel as [|fuel]; [lia|]. inversion Hch; subst chunks.
    exists 0%nat, [], (set_reader c [] c.(reader_counter) true c.(truncated)).
    cbn [read_loop]. rewrite next_chunk_empty by done. rewrite app_nil_r.
    split_and!; try done. split_and!; [constructor|done|done|cbn; lia].
  - inversion Hch as [|? ch ? chs Hadm Hrest]; subst. rewrite zlen_cons in Hmax.
    destruct fuel as [|fuel]; [lia|]. cbn [read_loop]. rewrite app_assoc in Hcut.
    destruct (decide (length c.(remaining) < 4 + length ct)%nat) as [Hshort|Hlong].
    + exists 0%nat, []. rewrite app_nil_r.
      assert (Hw : whole_within (reader_header c) (reader_counter c) (record :: records) (remaining c) 0 [])
        by by eapply whole_within_none.
      destruct (decide (c.(remaining) = [])) as [E|E].
      * eexists. rewrite next_chunk_empty by done. split_and!; [done|done|by rewrite E, Ht|done].
      * destruct (next_chunk_torn c ct (length c.(remaining)) Hf Hl) as [rest ->].
        { rewrite <- (take_app_length (remaining c) []) at 1. destruct Hcut as [tl Htl].
          rewrite app_nil_r. rewrite <- (take_app_le (be_bytes 4 (zlen ct) ++ ct) bytes), Htl
            by (rewrite length_app, be_bytes_length; lia).
          by rewrite take_app_length, firstn_all. }
        { destruct (remaining c); [done|cbn [length] in *; lia]. }
        eexists. split_and!; [done|done|by rewrite bool_decide_false|done].
    + destruct Hcut as [tl Htl].
      assert (exists cut', remaining c = (be_bytes 4 (zlen ct) ++ ct) ++ cut') as [cut' Hc'].
      { exists (drop (4 + length ct) (remaining c)).
        rewrite <- (take_drop (4 + length ct) (remaining c)) at 1. f_equal.
        rewrite <- (take_app_le (remaining c) tl), <- Htl by lia.
        rewrite take_app_length'; [done|]. by rewrite length_app, be_bytes_length. }
      rewrite Hc' in Htl. rewrite <- !app_assoc in Htl. rewrite !app_inv_head_iff in Htl.
      erewrite next_chunk_whole; [|done..|by rewrite Hc', <- app_assoc|done|].
      2: { pose proof (zlen_nonneg records). lia. }
      destruct (IH (set_reader c cut' (reader_counter c + 1) false (truncated c)) chs cut' (acc ++ [ch]) fuel)
        as (k & pre & c' & Hrd & Hw & Htr & Hse); try done.
      { by exists tl. }
      { lia. }
      { rewrite Hc', !length_app, be_bytes_length in Hfuel. lia. }
      exists (S k), ((be_bytes 4 (zlen ct) ++ ct) ++ pre), c'. rewrite Hrd, Hc'. cbn [take].
      rewrite <- app_assoc. cbn [app]. split_and!; [done| |rewrite Htr; f_equal|done].
      * by apply whole_within_cons.
      * apply bool_decide_ext. by rewrite app_inv_head_iff.
Qed.
End Sealed.

(** ** Runs of the recorder *)

Lemma bind_Ok {A B} (m : M A) (f : A -> M B) s b s' :
  bind m f s = (Ok b, s') <-> exists a s1, m s = (Ok a, s1) /\ f a s1 = (Ok b, s').
Proof.
  unfold bind. destruct (m s) as [[a|e] s1]; split; [|naive_solver|naive_solver|naive_solver].
  intros H. by exists a, s1.
Qed.

(** Split a successful run into the runs of its steps. *)
Ltac steps H :=
  repeat match type of H with
  | bind _ _ _ = (Ok _, _) =>
      let a := fresh "a" in let s1 := fresh "s" in let H1 := fresh "Hstep" in
      apply bind_Ok in H as (a & s1 & H1 & H)
  | (if ?b then fail _ else _) _ = (Ok _, _) =>
      let E := fresh "Eguard" in destruct b eqn:E; [done|]
  end.

(** A step that only reads or only modifies the recorder. *)
Ltac pure_step H :=
  first [ unfold gets in H | unfold modify in H | unfold lift in H | unfold ret in H | unfold elapsed_ms in H ];
  simplify_eq/=.

Section Runs.
Context `{RC : RecordingCrypto}.
Context (clk : nat -> Z).

(** What a successful append does. *)
Record appended (record : list Z) (s s' : St) (ciphertext : list Z) (tv : option TimedValidation) : Prop := {
  ap_open : s.(rec).(sink).(file_open) = true;
  ap_ended : s.(rec).(status).(ended) = false;
  ap_counter : s.(rec).(sink).(counter) + 1 <= u32_max;
  ap_seal : seal (nonce s.(rec).(identity).(header) s.(rec).(sink).(counter))
              (aad s.(rec).(identity).(header) s.(rec).(sink).(counter)) record = Some ciphertext;
  ap_length : zlen ciphertext <= MAX_CHUNK_CIPHERTEXT_BYTES;
  ap_validation : match s.(rec).(sink).(timed_validation) with
    | Some v => exists chunk v', decode_chunk record = Ok chunk /\ accept v chunk = Ok v' /\ tv = Some v'
    | None => tv = None
    end;
  ap_rec : s'.(rec) = set_sink s.(rec)
    {| file_open := true; counter := s.(rec).(sink).(counter) + 1;
       sealed_bytes := s.(rec).(sink).(sealed_bytes) ++ be_bytes 4 (zlen ciphertext) ++ ciphertext;
       capability_poisoned := s.(rec).(sink).(capability_poisoned);
       timed_validation := tv;
       written_bytes := saturating_add (saturating_add s.(rec).(sink).(written_bytes) 4) (zlen ciphertext) |};
  ap_world : s'.(world) = io_done (nonce_used s.(world)
    (nonce s.(rec).(identity).(header) s.(rec).(sink).(counter))) (be_bytes 4 (zlen ciphertext) ++ ciphertext);
}.

Lemma append_Ok record s s' :
  append record s = (Ok tt, s') -> exists ciphertext tv, appended record s s' ciphertext tv.
Proof.
  intros H. unfold append in H. steps H.
  unfold gets, modify, lift, write_file in *. cbn [rec world] in *. simplify_eq/=.
  unfold seal_record in *. cbn [rec world] in *.
  match goal with Hs : (ok_or (seal ?n ?a ?r) _, _) = (Ok _, _) |- _ => destruct (seal n a r) as [ct|] eqn:Eseal end;
    [|done]. simplify_eq/=. breflect.
  match goal with Hw : match w_io ?w ?n with _ => _ end = (Ok _, _) |- _ => destruct (w_io w n) eqn:Eio end; [|done].
  simplify_eq/=. eexists _, _. split; cbn; try done; try (by destruct (file_open _)).
  - destruct (timed_validation _) as [v|]; [|by simplify_eq].
    match goal with Hb : result_bind _ _ = Ok _ |- _ => apply result_bind_Ok in Hb as (chunk & Hd & Hb);
      apply result_bind_Ok in Hb as (v' & Hv & Hb) end. simplify_eq. eauto.
Qed.

(** *** The outcomes of an append *)

Inductive append_outcome (record : list Z) (s : St) : rresult unit * St -> Prop :=
| ao_refused e : append_outcome record s (Err e, s)
| ao_limit e :
    append_outcome record s
      (Err e, {| rec := set_sink s.(rec) (set_poisoned s.(rec).(sink) true); world := s.(world) |})
| ao_damaged e w tail :
    s.(rec).(sink).(counter) + 1 <= u32_max ->
    w.(w_nonces) = s.(world).(w_nonces) ++ [nonce s.(rec).(identity).(header) s.(rec).(sink).(counter)] ->
    w.(w_file) = s.(world).(w_file) ++ tail ->
    append_outcome record s
      (Err e, {| rec := set_sink s.(rec)
                   (set_counter (set_poisoned s.(rec).(sink) true) (s.(rec).(sink).(counter) + 1));
                 world := w |})
| ao_done s' ciphertext tv :
    appended record s s' ciphertext tv -> append_outcome record s (Ok tt, s').

Lemma append_cases record s : append_outcome record s (append record s).
Proof.
  destruct (append record s) as [[[]|e] s'] eqn:Ha.
  { destruct (append_Ok _ _ _ Ha) as (ct & tv & A). by eapply ao_done. }
  unfold append, bind, gets, lift, modify, fail, seal_record, write_file in Ha. cbn [rec world] in Ha.
  destruct (match timed_validation _ with Some _ => _ | None => _ end); [|injection Ha as <- <-; constructor].
  destruct (negb _); [injection Ha as <- <-; constructor|].
  destruct (ended _); [injection Ha as <- <-; constructor|].
  cbn [set_sink set_poisoned sink counter identity rec world] in Ha.
  destruct (u32_max <? _) eqn:Ec; [injection Ha as <- <-; constructor|]. breflect.
  cbn [set_sink set_poisoned set_counter sink counter identity rec world] in Ha.
  destruct (seal _ _ _) as [ct|]; cbn [ok_or] in Ha.
  2: { injection Ha as <- <-. apply (ao_damaged _ _ _ _ []); cbn; [done|done|by rewrite app_nil_r]. }
  destruct (_ <? zlen ct).
  { injection Ha as <- <-. apply (ao_damaged _ _ _ _ []); cbn; [done|done|by rewrite app_nil_r]. }
  cbn [w_io w_ios nonce_used rec world] in Ha. destruct (w_io _ _); [done|].
  injection Ha as <- <-. by eapply ao_damaged.
Qed.

(** The walk over a list of chunks. *)
Fixpoint walk_list (timed : bool) (w : WalkState) (chunks : list RecordedChunk) : rresult WalkState :=
  match chunks with
  | [] => Ok w
  | chunk :: rest =>
      let? r := walk_chunk timed w chunk in
      match r with
      | inl w' => walk_list timed w' rest
      | inr _ => Err recovery_error
      end
  end.

Lemma walk_list_snoc timed w chunks chunk w1 w2 :
  walk_list timed w chunks = Ok w1 -> walk_chunk timed w1 chunk = Ok (inl w2) ->
  walk_list timed w (chunks ++ [chunk]) = Ok w2.
Proof.
  revert w. induction chunks as [|c chunks IH]; intros w; cbn [walk_list app].
  - intros H1%Ok_inj H2. subst. by rewrite H2.
  - destruct (walk_chunk timed w c) as [[w'|d]|]; cbn; [apply IH|done..].
Qed.

Context (idn : RecorderIdentity) (hdr : list Z) (timed : bool).

(** The file holds the sealed records of a log whose chunks walk to [w]. *)
Record Log (s : St) (w : WalkState) : Prop := {
  log_header : s.(rec).(identity).(header) = hdr;
  log_identity : s.(rec).(identity) = idn;
  log_clock : s.(world).(w_clock) = clk;
  log_last : w.(walk_last_at_ms) <= clk s.(world).(w_clock_reads);
  log_validation : s.(rec).(sink).(timed_validation)
    = if timed then Some w.(walk_validation) else None;
  log_healthy : s.(rec).(sink).(capability_poisoned) = false;
  log_sealed_bytes : s.(rec).(sink).(sealed_bytes) = s.(world).(w_file);
  log_chunks : exists records bytes chunks,
    sealed hdr 0 records bytes /\ s.(world).(w_file) = hdr ++ bytes /\
    s.(rec).(sink).(counter) = zlen records /\ zlen records <= u32_max /\
    Forall2 (fun r ch => admit_record hdr true r = Ok ch) records chunks /\
    walk_list timed WalkState_default chunks = Ok w;
}.

(** The parts of a recorder an append leaves alone. *)
Definition same_but_sink (s s' : St) : Prop :=
  s'.(rec).(media) = s.(rec).(media) /\ s'.(rec).(status) = s.(rec).(status) /\
  s'.(rec).(timing_budget) = s.(rec).(timing_budget) /\ s'.(rec).(identity) = s.(rec).(identity) /\
  s'.(world).(w_clock_reads) = s.(world).(w_clock_reads).

Lemma admit_record_decode header st record chunk :
  admit_record header st record = Ok chunk -> decode_chunk record = Ok chunk.
Proof.
  unfold admit_record. destruct record as [|kind record]; [discriminate|].
  match goal with |- context [if ?b then _ else _] => destruct b end; [discriminate|].
  match goal with |- context [if ?b then _ else _] => destruct b end; [discriminate|]. exact (fun H => H).
Qed.

Lemma append_Log record chunk (Q : WalkState -> Prop) s s' w :
  Log s w -> append record s = (Ok tt, s') -> admit_record hdr true record = Ok chunk ->
  (forall v, (if timed then accept w.(walk_validation) chunk = Ok v else v = w.(walk_validation)) ->
     exists w', walk_chunk timed w chunk = Ok (inl w') /\ w'.(walk_validation) = v /\
       w'.(walk_last_at_ms) <= clk s.(world).(w_clock_reads) /\ Q w') ->
  exists w', Q w' /\ Log s' w' /\ same_but_sink s s'.
Proof.
  intros [L1 L0 L2 L3 L4 L5 L6 (rs & bs & chs & C1 & C2 & C3 & C4 & C5 & C6)] Ha Hadm Hw.
  destruct (append_Ok _ _ _ Ha) as (ct & tv & [A1 A2 A3 A4 A5 A6 A7 A8]).
  assert (exists v, (if timed then accept w.(walk_validation) chunk = Ok v else v = w.(walk_validation)) /\
                    tv = if timed then Some v else None) as (v & Hv & Htv).
  { rewrite L4 in A6. destruct timed; [|by eauto].
    destruct A6 as (chunk' & v' & Hd & Hacc & ->). apply admit_record_decode in Hadm.
    rewrite Hadm in Hd. simplify_eq. eauto. }
  destruct (Hw v Hv) as (w' & Hwalk & Hval & Hlast & HQ). exists w'. split; [done|].
  split; [|by (unfold same_but_sink; rewrite A7, A8)]. split.
  - by rewrite A7.
  - by rewrite A7.
  - by rewrite A8.
  - by rewrite A8.
  - rewrite A7. cbn. by rewrite Htv, Hval.
  - by rewrite A7.
  - rewrite A7, A8. cbn. by rewrite L6.
  - exists (rs ++ [record]), (bs ++ be_bytes 4 (zlen ct) ++ ct), (chs ++ [chunk]).
    rewrite A7, A8, zlen_app. change (zlen [record]) with 1. cbn. split_and!.
    + eapply sealed_snoc; [exact C1| |exact A5]. rewrite Z.add_0_l, <- C3, <- L1. done.
    + by rewrite C2, <- app_assoc.
    + by rewrite C3.
    + rewrite <- C3. lia.
    + apply Forall2_app; [done|by constructor].
    + by eapply walk_list_snoc.
Qed.

(** A step that changes only parts the log does not mention. *)
Lemma Log_transfer s s' w :
  Log s w -> s'.(rec).(identity) = s.(rec).(identity) -> s'.(rec).(sink) = s.(rec).(sink) ->
  s'.(world).(w_clock) = s.(world).(w_clock) -> s'.(world).(w_file) = s.(world).(w_file) ->
  w.(walk_last_at_ms) <= clk s'.(world).(w_clock_reads) -> Log s' w.
Proof.
  intros [L1 L0 L2 L3 L4 L5 L6 L7] E1 E2 E3 E4 E5. split; rewrite ?E1, ?E2, ?E3, ?E4; done.
Qed.

Context (clk_mono : forall i j, (i <= j)%nat -> clk i <= clk j) (clk_u64 : forall i, is_u64 (clk i)).
Context (hdr_timed : header_is_timed hdr = timed).

(** *** Following the walk

    The recorder's media [m] follows the walk's timeline [t]: it is [t]; or,
    once a frame was refused before any was recorded, it agrees with [t] on what
    decides whether the walk goes on. *)
Definition follows (exact : bool) (m t : MediaTimeline) : Prop :=
  if exact then m = t
  else m.(tl_open_gap_at_ms) = t.(tl_open_gap_at_ms) /\ m.(tl_timed_samples) = t.(tl_timed_samples) /\
       t.(tl_timed_gap_ms) <= m.(tl_timed_gap_ms) /\
       (t.(tl_format) = None \/ t.(tl_format) = m.(tl_format)).

(** The gaps charged so far, and the open one, lie before [last]. *)
Definition gaps_passed (m : MediaTimeline) (last : Z) : Prop :=
  m.(tl_timed_gap_ms) <= last /\
  forall opened, m.(tl_open_gap_at_ms) = Some opened -> m.(tl_timed_gap_ms) <= opened <= last.

(** The format a frame may have: none was seen, or the same. *)
Definition fits (m : MediaTimeline) (f : PcmFormat) : Prop := m.(tl_format) = None \/ m.(tl_format) = Some f.

Lemma follows_loose x m t : follows x m t ->
  m.(tl_open_gap_at_ms) = t.(tl_open_gap_at_ms) /\ m.(tl_timed_samples) = t.(tl_timed_samples) /\
  t.(tl_timed_gap_ms) <= m.(tl_timed_gap_ms) /\ (t.(tl_format) = None \/ t.(tl_format) = m.(tl_format)).
Proof. destruct x; cbn; [intros ->|done]. split_and!; try done. by right. Qed.

Lemma follows_weaken m t : follows true m t -> follows false m t.
Proof. apply follows_loose. Qed.

Lemma follows_open x m t : follows x m t -> t.(tl_open_gap_at_ms) = m.(tl_open_gap_at_ms).
Proof. intros F. by destruct (follows_loose _ _ _ F). Qed.

Lemma follows_fits x m t f : follows x m t -> fits m f -> fits t f.
Proof. intros (_ & _ & _ & [E|E])%follows_loose H; unfold fits; [by left|by rewrite E]. Qed.

Lemma follows_started x m t at_ms : follows x m t -> follows x (tl_gap_started m at_ms) (tl_gap_started t at_ms).
Proof. destruct x; cbn; [by intros ->|]. by intros (H1 & H2 & H3 & H4). Qed.

Lemma follows_frame x m t f n : follows x m t -> follows x (tl_frame m f n) (tl_frame t f n).
Proof. destruct x; cbn; [by intros ->|]. intros (H1 & H2 & H3 & H4). split_and!; try done. by right. Qed.

Lemma checked_add_le a a' b b' x :
  a' <= a -> b' <= b -> checked_add a b = Some x -> exists x', checked_add a' b' = Some x' /\ x' <= x.
Proof.
  unfold checked_add. intros Ha Hb H. destruct (a + b <=? u64_max) eqn:E; breflect; simplify_eq.
  rewrite (proj2 (Z.leb_le _ _)) by lia. eexists. split; [done|lia].
Qed.

Lemma follows_timed x m t f n m' : follows x m t -> tl_timed_frame m f n = Ok m' ->
  exists t', tl_timed_frame t f n = Ok t' /\ follows x m' t' /\ t'.(tl_format) = Some f /\
    t'.(tl_open_gap_at_ms) = t.(tl_open_gap_at_ms).
Proof.
  intros F H. destruct x; [cbn in F; subst t; exists m'; split; [done|]; split; [done|]|].
  - unfold tl_timed_frame in H. apply result_bind_Ok in H as ([total dur] & _ & <-%Ok_inj). done.
  - destruct F as (H1 & H2 & H3 & H4). unfold tl_timed_frame, count_timed, exact_media_ms in *.
    apply result_bind_Ok in H as ([total dur] & H & <-%Ok_inj). apply result_bind_Ok in H as (al & Hal & H).
    apply result_bind_Ok in H as (tot & Ht & H). apply result_bind_Ok in H as (d & Hd & H). injection H as <- <-.
    rewrite Hal. cbn [result_bind]. rewrite <- H2, Ht. cbn [result_bind].
    destruct (_ =? 0); [done|]. destruct (u64_max <? _); [done|].
    destruct (checked_add _ (tl_timed_gap_ms m)) as [x|] eqn:E; [|done].
    destruct (checked_add_le _ _ _ _ _ (Z.le_refl _) H3 E) as (x' & -> & _). cbn.
    eexists. split; [done|]. cbn. split_and!; try done. by right.
Qed.

(** The recorder announces the format of a frame. *)
Lemma follows_announced x m t f : follows x m t -> fits m f -> (m.(tl_format) = None -> x = false) ->
  follows x (media_format m (Some f)) t.
Proof.
  intros F Hf Hx. destruct x.
  - destruct Hf as [E|E]; [by specialize (Hx E)|]. cbn in *. subst t. destruct m. cbn in *. by subst.
  - destruct F as (H1 & H2 & H3 & H4). cbn. split_and!; try done. destruct H4 as [E|E]; [by left|].
    destruct Hf as [E'|E']; [left|right]; congruence.
Qed.

Lemma gaps_passed_later m last last' : gaps_passed m last -> last <= last' -> gaps_passed m last'.
Proof. intros [H1 H2] Hl. split; [lia|]. intros o Ho. specialize (H2 o Ho). lia. Qed.

Lemma gaps_passed_started m last at_ms : gaps_passed m last -> last <= at_ms -> gaps_passed (tl_gap_started m at_ms) at_ms.
Proof. intros [H1 H2] Hl. split; cbn; [lia|]. intros o [= <-]. lia. Qed.

(** Charging a gap never overflows: the gaps lie one after the other. *)
Lemma gap_ended_passes m last at_ms opened :
  gaps_passed m last -> m.(tl_open_gap_at_ms) = Some opened -> last <= at_ms -> is_u64 at_ms ->
  exists m', tl_gap_ended m at_ms timed = Ok m' /\ gaps_passed m' at_ms /\ m'.(tl_open_gap_at_ms) = None /\
    m'.(tl_format) = m.(tl_format).
Proof.
  clear hdr_timed. intros [H1 H2] Ho Hl Hu. specialize (H2 _ Ho). unfold tl_gap_ended. rewrite Ho.
  assert (saturating_sub at_ms opened = at_ms - opened) as -> by (unfold saturating_sub; lia).
  assert (checked_add (tl_timed_gap_ms m) (at_ms - opened) = Some (tl_timed_gap_ms m + (at_ms - opened))) as E.
  { unfold checked_add. rewrite (proj2 (Z.leb_le _ _)); [done|]. ints. }
  destruct (is_some (tl_format m)); [destruct timed; rewrite ?E|]; cbn [ok_or result_bind];
    (eexists; split; [done|]; split; [split; cbn; [lia|done]|done]).
Qed.

Lemma follows_ended x m t at_ms m' : follows x m t -> tl_gap_ended m at_ms timed = Ok m' ->
  exists t', tl_gap_ended t at_ms timed = Ok t' /\ follows x m' t' /\ t'.(tl_open_gap_at_ms) = None /\
    t'.(tl_format) = t.(tl_format).
Proof.
  clear hdr_timed. intros F H. destruct x; [cbn in F; subst t; exists m'; split; [done|]; split; [done|]|].
  - unfold tl_gap_ended in H. destruct (tl_open_gap_at_ms m); [|done].
    by apply result_bind_Ok in H as ([g ms] & _ & <-%Ok_inj).
  - destruct F as (H1 & H2 & H3 & H4). unfold tl_gap_ended in *. rewrite H1 in H.
    destruct (tl_open_gap_at_ms t) as [opened|]; [|done]. set (len := saturating_sub at_ms opened) in *.
    apply result_bind_Ok in H as ([g ms] & H & <-%Ok_inj).
    assert (0 <= len) as Hlen by (unfold len, saturating_sub; lia).
    assert (exists g' ms', (if is_some (tl_format t) then
        let? gap_ms := if timed then ok_or (checked_add (tl_timed_gap_ms t) len) recovery_error
                       else Ok (tl_timed_gap_ms t) in Ok (gap_ms, saturating_add (tl_media_ms t) len)
      else Ok (tl_timed_gap_ms t, tl_media_ms t)) = Ok (g', ms') /\ g' <= g) as (g' & ms' & -> & Hg).
    { destruct H4 as [E|E]; rewrite E.
      - cbn. do 2 eexists. split; [done|]. destruct (is_some (tl_format m)); [|by injection H as <- _].
        destruct timed; [|by cbn in H; injection H as <- _]. unfold checked_add in H.
        destruct (_ <=? u64_max); cbn in H; [|done]. injection H as <- _. lia.
      - destruct (is_some (tl_format m)); [|do 2 eexists; split; [done|by injection H as <- _]].
        destruct timed; [|cbn in *; do 2 eexists; split; [done|by injection H as <- _]].
        destruct (checked_add (tl_timed_gap_ms m) len) as [y|] eqn:E1; cbn in H; [|done]. injection H as <- _.
        destruct (checked_add_le _ _ _ _ _ H3 (Z.le_refl _) E1) as (y' & -> & Hy). cbn. do 2 eexists. split; [done|lia]. }
    cbn [result_bind]. eexists. split; [done|]. by split_and!.
Qed.

(** The recorder, with [m] for its media, is where the walk of its file is. *)
Record Tracks (exact : bool) (m : MediaTimeline) (s : St) (w : WalkState) : Prop := {
  tr_log : Log s w;
  tr_follows : follows exact m w.(walk_timeline);
  tr_passed : gaps_passed m w.(walk_last_at_ms);
  tr_format : w.(walk_format) = w.(walk_timeline).(tl_format);
  tr_gap : w.(walk_gap) = w.(walk_timeline).(tl_open_gap_at_ms);
  tr_ended : w.(walk_ended) = s.(rec).(status).(ended);
  tr_timed : is_some s.(rec).(timing_budget) = timed;
  tr_failed : s.(rec).(status).(recording_failed) = false;
  tr_summary : s.(rec).(status).(summary) = None;
}.

(** What every call keeps, also when it fails: the recorder is where the walk
    is, or it knows that its file is damaged. *)
Definition Good (exact : bool) (s : St) : Prop := exists w, Tracks exact s.(rec).(media) s w.
Definition Kept (exact : bool) (s : St) : Prop := is_incomplete s.(rec) = true \/ Good exact s.

(** *** Records the strict reader admits *)

Lemma admit_kind k body chunk :
  (timed && (k =? CHUNK_FRAME)) || (negb timed && (CHUNK_POLICY <=? k)) = false ->
  (k =? CHUNK_GAP_STARTED) = false -> decode_chunk (k :: body) = Ok chunk ->
  admit_record hdr true (k :: body) = Ok chunk.
Proof using hdr_timed.
  intros H1 H2 H3. unfold admit_record. by rewrite hdr_timed, H1, H2, andb_false_l.
Qed.

Lemma admit_ended at_ms : is_u64 at_ms -> admit_record hdr true (ended_record at_ms) = Ok (Ended at_ms).
Proof using hdr_timed.
  intros Ha. apply admit_kind; [by destruct timed|done|]. by apply (decode_ended_record at_ms).
Qed.

Lemma admit_gap_ended at_ms : is_u64 at_ms -> admit_record hdr true (gap_ended_record at_ms) = Ok (GapEnded at_ms).
Proof using hdr_timed.
  intros Ha. apply admit_kind; [by destruct timed|done|]. by apply (decode_gap_ended_record at_ms).
Qed.

Lemma admit_frame at_ms f :
  timed = false -> is_u64 at_ms -> is_u64 f.(frame_sequence) -> wf_frame f ->
  admit_record hdr true (frame_record at_ms f) =
  Ok (Frame at_ms f.(frame_sequence) f.(format).(sample_rate_hz) f.(format).(channels)
        f.(format).(sample_format) f.(frame_bytes)).
Proof using hdr_timed.
  intros Ht Ha Hs Hf. apply admit_kind; [by rewrite Ht|done|]. by apply (decode_frame_record at_ms f).
Qed.

Lemma admit_gap_started at_ms why :
  is_u64 at_ms -> wf_string why -> blen why < 256 ->
  admit_record hdr true (gap_started_record at_ms why) = Ok (GapStarted at_ms why).
Proof using hdr_timed.
  intros Ha Hw Hl. pose proof (decode_gap_started_record at_ms why Ha Hw Hl) as Hd.
  assert (HL : zlen (gap_started_record at_ms why) = 10 + blen why).
  { unfold gap_started_record. rewrite zlen_cons, !zlen_app, utf8_encode_length.
    unfold zlen. rewrite be_bytes_length. cbn. lia. }
  assert (HB : byte_at 9 (gap_started_record at_ms why) = blen why).
  { change (byte_at 8 (be_bytes 8 at_ms ++ [blen why] ++ utf8_encode why) = blen why). read_byte. }
  destruct (gap_started_record at_ms why) as [|k body] eqn:Er; [by inversion Er|].
  assert (k = CHUNK_GAP_STARTED) as -> by (unfold gap_started_record in Er; congruence).
  unfold admit_record. rewrite HL, HB, hdr_timed. pose proof (blen_nonneg why).
  rewrite (proj2 (Z.ltb_ge _ _)), !Z.eqb_refl by lia. destruct timed; exact Hd.
Qed.

Lemma walk_accept w chunk v :
  (if timed then accept w.(walk_validation) chunk = Ok v else v = w.(walk_validation)) ->
  (if timed then accept w.(walk_validation) chunk else Ok w.(walk_validation)) = Ok v.
Proof. clear hdr_timed. by destruct timed; intros ->. Qed.

Lemma bind_cases {A B} (m : M A) (f : A -> M B) s r s' :
  bind m f s = (r, s') ->
  (exists e, m s = (Err e, s') /\ r = Err e) \/ exists a s1, m s = (Ok a, s1) /\ f a s1 = (r, s').
Proof. unfold bind. destruct (m s) as [[a|e] s1]; intros H; [right|left; simplify_eq]; eauto. Qed.

(** *** One append, with the walk step its chunk takes *)

Lemma append_tracks x m record chunk (Q : WalkState -> Prop) s s' w :
  Tracks x m s w -> append record s = (Ok tt, s') -> admit_record hdr true record = Ok chunk ->
  (forall v, (if timed then accept w.(walk_validation) chunk else Ok w.(walk_validation)) = Ok v ->
     walk_ended w = false ->
     exists w', walk_chunk timed w chunk = Ok (inl w') /\ w'.(walk_validation) = v /\
       w'.(walk_last_at_ms) <= clk s.(world).(w_clock_reads) /\ Q w') ->
  exists w', Q w' /\ Log s' w' /\ same_but_sink s s' /\ walk_ended w = false.
Proof.
  intros T Ha Hadm Hw.
  assert (E : walk_ended w = false).
  { destruct (append_Ok _ _ _ Ha) as (ct & tv & [_ A2 _ _ _ _ _ _]). by rewrite (tr_ended _ _ _ _ T). }
  edestruct (append_Log record chunk Q) as (w' & H1 & H2 & H3); [apply T|done|done| |by exists w'].
  intros v Hv. apply Hw; [|done]. by apply walk_accept.
Qed.

(** Where the walk is after a record that leaves the recording open. *)
Lemma Tracks_next x m m' s s' w w' :
  Tracks x m s w -> Log s' w' -> same_but_sink s s' -> walk_ended w = false -> walk_ended w' = false ->
  follows x m' w'.(walk_timeline) -> gaps_passed m' w'.(walk_last_at_ms) ->
  w'.(walk_format) = w'.(walk_timeline).(tl_format) -> w'.(walk_gap) = w'.(walk_timeline).(tl_open_gap_at_ms) ->
  Tracks x m' s' w'.
Proof.
  intros [T1 T2 T3 T4 T5 T6 T7 T8 T9] L (S1 & S2 & S3 & S4 & S5) E E' H1 H2 H3 H4.
  split; rewrite ?S2, ?S3; try done. by rewrite E', <- T6.
Qed.

(** *** Steps that append nothing *)

Record quiet_step (s s' : St) : Prop := {
  qs_identity : s'.(rec).(identity) = s.(rec).(identity);
  qs_media : s'.(rec).(media) = s.(rec).(media);
  qs_sink : s'.(rec).(sink) = s.(rec).(sink);
  qs_status : s'.(rec).(status) = s.(rec).(status);
  qs_budget : is_some s'.(rec).(timing_budget) = is_some s.(rec).(timing_budget);
  qs_clock : s'.(world).(w_clock) = s.(world).(w_clock);
  qs_file : s'.(world).(w_file) = s.(world).(w_file);
  qs_reads : (s.(world).(w_clock_reads) <= s'.(world).(w_clock_reads))%nat;
}.

Lemma Log_later s s' w :
  Log s w -> s'.(rec).(identity) = s.(rec).(identity) -> s'.(rec).(sink) = s.(rec).(sink) ->
  s'.(world).(w_clock) = s.(world).(w_clock) -> s'.(world).(w_file) = s.(world).(w_file) ->
  (s.(world).(w_clock_reads) <= s'.(world).(w_clock_reads))%nat -> Log s' w.
Proof using clk_mono.
  intros HL E1 E2 E3 E4 Hr. apply (Log_transfer s); try done.
  transitivity (clk s.(world).(w_clock_reads)); [apply HL|by apply clk_mono].
Qed.

Lemma Tracks_quiet x m s s' w : Tracks x m s w -> quiet_step s s' -> Tracks x m s' w.
Proof using clk_mono.
  intros [T1 T2 T3 T4 T5 T6 T7 T8 T9] [Q1 Q2 Q3 Q4 Q5 Q6 Q7 Q8].
  split; rewrite ?Q4, ?Q5; try done. by apply (Log_later s).
Qed.

Lemma Kept_quiet x s s' w : Tracks x s.(rec).(media) s w -> quiet_step s s' -> Kept x s'.
Proof using clk_mono.
  intros T Q. right. exists w. rewrite (qs_media _ _ Q). by eapply Tracks_quiet.
Qed.

Lemma elapsed_step s a s1 :
  elapsed_ms s = (Ok a, s1) -> s.(world).(w_clock) = clk ->
  quiet_step s s1 /\ a = clk s.(world).(w_clock_reads) /\
  s1.(world).(w_clock_reads) = S s.(world).(w_clock_reads).
Proof.
  intros H E. unfold elapsed_ms in H. rewrite E in H. injection H as <- <-.
  split_and!; [|done|done]. split; cbn; try done. lia.
Qed.

Lemma Log_clock s w : Log s w -> s.(world).(w_clock) = clk.
Proof. by intros []. Qed.

Lemma Tracks_set_media x m m0 s w :
  Tracks x m s w -> Tracks x m {| rec := set_media s.(rec) m0; world := s.(world) |} w.
Proof using clk_mono. intros [T1 T2 T3 T4 T5 T6 T7 T8 T9]. split; try done. by apply (Log_later s). Qed.

Lemma Good_media x m s w : Tracks x m s w -> Good x {| rec := set_media s.(rec) m; world := s.(world) |}.
Proof using clk_mono. intros T. exists w. by apply Tracks_set_media. Qed.

(** An append that fails has done nothing, or has damaged the file. *)
Lemma append_refused record s e s' :
  append record s = (Err e, s') -> is_incomplete s'.(rec) = true \/ s' = s.
Proof.
  intros H. pose proof (append_cases record s) as C. rewrite H in C.
  inversion C; subst; [by right|left; apply orb_true_r..].
Qed.

Lemma Kept_refused x record s e s' w :
  Tracks x s.(rec).(media) s w -> append record s = (Err e, s') -> Kept x s'.
Proof. intros T [H | ->]%append_refused; [by left|right; by exists w]. Qed.

(** *** The safety limits *)

Lemma append_ended x m k s s' w :
  Tracks x m s w -> append (ended_record (clk k)) s = (Ok tt, s') ->
  w.(walk_last_at_ms) <= clk k -> (k <= s.(world).(w_clock_reads))%nat ->
  exists w', Tracks x m {| rec := set_status s'.(rec) (mark_ended s'.(rec).(status)); world := s'.(world) |} w' /\
    same_but_sink s s' /\ w'.(walk_ended) = true.
Proof using clk_mono clk_u64 hdr_timed.
  intros T Ha Hk Hr.
  edestruct (append_tracks x m (ended_record (clk k)) (Ended (clk k))
    (fun w' => w'.(walk_ended) = true /\ w'.(walk_timeline) = w.(walk_timeline) /\ w'.(walk_last_at_ms) = clk k /\
       w'.(walk_format) = w.(walk_format) /\ w'.(walk_gap) = w.(walk_gap)))
    as (w' & (Q1 & Q2 & Q3 & Q4 & Q5) & HL & (S1 & S2 & S3 & S4 & S5) & E); [done|done|by apply admit_ended| |].
  - intros v Hv He. unfold walk_chunk. rewrite He, Hv. cbn [result_bind]. unfold advance.
    rewrite (proj2 (Z.ltb_ge _ _)) by done. eexists. split; [done|]. cbn. split_and!; try done.
    by apply clk_mono.
  - exists w'. split; [|done]. destruct T as [T1 T2 T3 T4 T5 T6 T7 T8 T9].
    split; cbn; rewrite ?S2, ?S3, ?Q2, ?Q3, ?Q4, ?Q5; try done; [by apply (Log_later s')|by eapply gaps_passed_later].
Qed.

Lemma observed_quiet f s n s' :
  match f with
  | Some f => observe_frame f
  | None => gets (fun r => observe_write r.(safety) r.(sink).(written_bytes))
  end s = (Ok n, s') -> quiet_step s s'.
Proof.
  destruct f as [f|]; unfold observe_frame, gets.
  - destruct (observe _ _ _) as [g n']. intros [= <- <-]. split; try done; cbn; split_ifs; cbn; done || lia.
  - intros [= <- <-]. by split.
Qed.

Lemma enforce_kept x f s r s' w :
  Tracks x s.(rec).(media) s w -> enforce_limits f s = (r, s') -> Kept x s'.
Proof using clk_mono clk_u64 hdr_timed.
  intros T H. unfold enforce_limits in H. apply bind_cases in H as [(e & H1 & _)|(notices & s1 & H1 & H)].
  { destruct f as [f|]; [|done]. unfold observe_frame in H1. by destruct (observe _ _ _). }
  apply observed_quiet in H1 as Hq. pose proof (Tracks_quiet _ _ _ _ _ T Hq) as T1. rewrite <- (qs_media _ _ Hq) in T1.
  clear T H1 Hq.
  assert (forall s2 w2, Tracks x s2.(rec).(media) s2 w2 ->
    Kept x {| rec := set_notices s2.(rec) (s2.(rec).(limit_notices) ++ notices); world := s2.(world) |}) as Hend.
  { intros s2 w2 T2. eapply Kept_quiet; [exact T2|]. by split. }
  destruct (existsb is_stop notices).
  - apply bind_cases in H as [(e & H2 & _)|([] & s2 & H2 & H)].
    + apply bind_cases in H2 as [(e' & H3 & _)|(now & s3 & H3 & H2)]; [done|].
      destruct (elapsed_step _ _ _ H3 (Log_clock _ _ (tr_log _ _ _ _ T1))) as (Hq & -> & Hr).
      pose proof (Tracks_quiet _ _ _ _ _ T1 Hq) as T3. rewrite <- (qs_media _ _ Hq) in T3.
      apply bind_cases in H2 as [(e' & H4 & _)|([] & s4 & H4 & H2)]; [|done]. by eapply Kept_refused.
    + apply bind_cases in H2 as [(e' & H3 & ?)|(now & s3 & H3 & H2)]; [done|].
      destruct (elapsed_step _ _ _ H3 (Log_clock _ _ (tr_log _ _ _ _ T1))) as (Hq & -> & Hr).
      pose proof (Tracks_quiet _ _ _ _ _ T1 Hq) as T3. rewrite <- (qs_media _ _ Hq) in T3.
      apply bind_cases in H2 as [(e' & H4 & ?)|([] & s4 & H4 & H2)]; [done|].
      destruct (append_ended _ _ _ _ _ _ T3 H4) as (w' & T4 & (S1 & _) & _); [apply T1|lia|].
      injection H2 as <-. injection H as <- <-. rewrite <- S1 in T4.
      exact (Hend {| rec := set_status (rec s4) (mark_ended (status (rec s4))); world := world s4 |} _ T4).
  - unfold ret in H. apply bind_cases in H as [(e & H2 & _)|([] & s2 & H2 & H)]; [done|].
    injection H2 as <-. injection H as <- <-. by eapply Hend.
Qed.

(** *** Gaps *)

Lemma append_gap_ended x m m' k s s' w :
  Tracks x m s w -> append (gap_ended_record (clk k)) s = (Ok tt, s') ->
  w.(walk_last_at_ms) <= clk k -> (k <= s.(world).(w_clock_reads))%nat ->
  tl_gap_ended m (clk k) timed = Ok m' -> gaps_passed m' (clk k) ->
  exists w', Tracks x m' s' w' /\ w'.(walk_last_at_ms) = clk k /\ same_but_sink s s'.
Proof using clk_mono clk_u64 hdr_timed.
  intros T Ha Hk Hr Hm Hp. destruct (follows_ended _ _ _ _ _ (tr_follows _ _ _ _ T) Hm) as (t & Ht & F & O & E).
  edestruct (append_tracks x m (gap_ended_record (clk k)) (GapEnded (clk k))
    (fun w' => w'.(walk_ended) = false /\ w'.(walk_timeline) = t /\
       w'.(walk_format) = w.(walk_format) /\ w'.(walk_gap) = None /\ w'.(walk_last_at_ms) = clk k))
    as (w' & (Q1 & Q2 & Q3 & Q4 & Q5) & HL & Hs & He); [done|done|by apply admit_gap_ended| |].
  - intros v Hv He. unfold walk_chunk. rewrite He, Hv. cbn [result_bind].
    assert (is_none (walk_gap w) = false) as ->.
    { rewrite (tr_gap _ _ _ _ T). unfold tl_gap_ended in Ht. by destruct (tl_open_gap_at_ms _). }
    rewrite Ht. cbn [result_bind]. unfold advance.
    rewrite (proj2 (Z.ltb_ge _ _)) by done. eexists. split; [done|]. cbn. split_and!; try done.
    by apply clk_mono.
  - exists w'. split; [|done]. apply (Tracks_next x m _ s s' w w'); rewrite ?Q2, ?Q3, ?Q4, ?Q5; try done.
    by rewrite E, (tr_format _ _ _ _ T).
Qed.

(** The rest of [close_gap] charges the timeline as the walk does. *)
Lemma close_gap_timeline f at_ms opened s1 m m' :
  s1.(rec).(media) = media_format m (Some f) -> m.(tl_open_gap_at_ms) = Some opened ->
  is_some s1.(rec).(timing_budget) = timed -> tl_gap_ended m at_ms timed = Ok m' ->
  (modify (fun r => set_media r (media_open_gap r.(media) None)) ;;;
   (if is_some m.(tl_format) then
      budget <- gets timing_budget ;;
      (if is_some budget then
         m <- gets media ;;
         total <- lift (ok_or (checked_add m.(tl_timed_gap_ms) (saturating_sub at_ms opened)) recovery_error) ;;
         modify (fun r => set_media r (media_gap_ms r.(media) total))
       else ret tt) ;;;
      modify (fun r => set_media r
        (media_ms_set r.(media) (saturating_add r.(media).(tl_media_ms) (saturating_sub at_ms opened))))
    else ret tt) ;;;
   modify (fun r => set_media r
     (media_gaps r.(media) (update_last (with_end (Some r.(media).(tl_media_ms))) r.(media).(tl_gaps))))) s1
    = (Ok tt, {| rec := set_media s1.(rec) (media_format m' (Some f)); world := s1.(world) |}).
Proof.
  clear hdr_timed. intros Hm Hopen Hb Ht. destruct s1 as [r1 w1]. cbn [rec world] in *.
  unfold tl_gap_ended in Ht. rewrite Hopen in Ht. unfold bind, modify, gets, lift, ret.
  destruct (tl_format m); cbn -[checked_add saturating_add saturating_sub update_last] in *.
  - rewrite Hb, Hm. destruct timed; cbn -[checked_add saturating_add saturating_sub update_last] in *.
    + destruct (checked_add _ _) as [g|]; cbn -[saturating_add saturating_sub update_last] in *; [|done].
      apply Ok_inj in Ht as <-. done.
    + apply Ok_inj in Ht as <-. done.
  - rewrite Hm. apply Ok_inj in Ht as <-. done.
Qed.

Lemma close_gap_tracks x m f k opened s r s' w :
  Tracks x m s w -> s.(rec).(media) = media_format m (Some f) -> m.(tl_open_gap_at_ms) = Some opened ->
  close_gap (is_some m.(tl_format)) (clk k) opened s = (r, s') ->
  w.(walk_last_at_ms) <= clk k -> (k <= s.(world).(w_clock_reads))%nat ->
  (exists e, r = Err e /\ (is_incomplete s'.(rec) = true \/ s' = s)) \/
  (r = Ok tt /\ exists m' w', Tracks x m' s' w' /\ s'.(rec).(media) = media_format m' (Some f) /\
     m'.(tl_open_gap_at_ms) = None /\ m'.(tl_format) = m.(tl_format) /\
     w'.(walk_last_at_ms) <= clk k /\ (k <= s'.(world).(w_clock_reads))%nat).
Proof using clk_mono clk_u64 hdr_timed.
  intros T Hmed Hopen H Hk Hr. unfold close_gap in H.
  apply bind_cases in H as [(e & Ha & ->)|([] & s1 & Ha & H)].
  { left. exists e. split; [done|]. by eapply append_refused. }
  destruct (gap_ended_passes m _ (clk k) opened (tr_passed _ _ _ _ T) Hopen Hk (clk_u64 k)) as (m' & Hm & Hp & O & E).
  destruct (append_gap_ended x m m' k _ _ _ T Ha Hk Hr Hm Hp) as (w' & T' & L & (S1 & S2 & S3 & S4 & S5)).
  erewrite close_gap_timeline in H; [|by rewrite S1|done|rewrite S3; apply T|done]. injection H as <- <-.
  right. split; [done|]. exists m', w'. cbn [rec world media set_media]. rewrite L, S5.
  split_and!; try done; try lia. by apply Tracks_set_media.
Qed.

(** *** Frames *)

Lemma wf_frame_nonempty f : wf_frame f -> is_empty f.(frame_bytes) = false.
Proof. intros (_ & [H _] & _). destruct (frame_bytes f); [by cbn in H|done]. Qed.

Lemma fits_unchanged x m s w f : Tracks x m s w -> fits m f -> format_changed w f = false.
Proof.
  intros T Hf. unfold format_changed. rewrite (tr_format _ _ _ _ T).
  destruct (follows_fits _ _ _ _ (tr_follows _ _ _ _ T) Hf) as [-> | ->]; [done|]. cbn. by rewrite bool_decide_true.
Qed.

(** The frame's chunk is on the file and the timeline has it. *)
Lemma append_frame_tracks x m m' t f k record chunk s s' w :
  Tracks x m s w -> append record s = (Ok tt, s') -> admit_record hdr true record = Ok chunk ->
  (forall v, (if timed then accept w.(walk_validation) chunk else Ok w.(walk_validation)) = Ok v ->
     walk_ended w = false ->
     walk_chunk timed w chunk = advance w (clk k) false (Some f) w.(walk_gap) v t) ->
  follows x m' t -> t.(tl_format) = Some f -> t.(tl_open_gap_at_ms) = w.(walk_timeline).(tl_open_gap_at_ms) ->
  m'.(tl_timed_gap_ms) = m.(tl_timed_gap_ms) -> m'.(tl_open_gap_at_ms) = m.(tl_open_gap_at_ms) ->
  w.(walk_last_at_ms) <= clk k -> (k <= s.(world).(w_clock_reads))%nat ->
  Good x {| rec := set_media s'.(rec) m'; world := s'.(world) |}.
Proof using clk_mono.
  intros T Ha Hadm Hwalk F Hf Ho G1 G2 Hk Hr.
  edestruct (append_tracks x m record chunk
    (fun w' => w'.(walk_ended) = false /\ w'.(walk_timeline) = t /\
       w'.(walk_format) = Some f /\ w'.(walk_gap) = w.(walk_gap) /\ w'.(walk_last_at_ms) = clk k))
    as (w' & (E1 & E2 & E3 & E4 & E5) & HL & Hs & He); [done|done|done| |].
  - intros v Hv He. rewrite (Hwalk v Hv He). unfold advance. rewrite (proj2 (Z.ltb_ge _ _)) by done.
    eexists. split; [done|]. cbn. split_and!; try done. by apply clk_mono.
  - apply (Good_media x m' s' w'). apply (Tracks_next x m _ s s' w w'); rewrite ?E2, ?E3, ?E4, ?E5; try done.
    + unfold gaps_passed. rewrite G1, G2. eapply gaps_passed_later; [apply T|done].
    + by rewrite Ho, (tr_gap _ _ _ _ T).
Qed.

Lemma append_legacy_frame x m f k s s' w :
  timed = false -> wf_frame f -> is_u64 f.(frame_sequence) -> fits m f.(format) ->
  Tracks x m s w -> s.(rec).(media) = media_format m (Some f.(format)) ->
  append (frame_record (clk k) f) s = (Ok tt, s') -> m.(tl_open_gap_at_ms) = None ->
  w.(walk_last_at_ms) <= clk k -> (k <= s.(world).(w_clock_reads))%nat ->
  Good x {| rec := set_media s'.(rec)
      (media_ms_set s'.(rec).(media) (saturating_add s'.(rec).(media).(tl_media_ms) (frame_duration_ms f)));
    world := s'.(world) |}.
Proof using clk_mono clk_u64 hdr_timed.
  intros Ht Hf Hseq Hfit T Hmed Ha Hopen Hk Hr. destruct (append_Ok _ _ _ Ha) as (ct & tv & A).
  replace (media_ms_set _ _) with (tl_frame m f.(format) (zlen f.(frame_bytes)))
    by (rewrite (ap_rec _ _ _ _ _ A); cbn; by rewrite Hmed).
  pose proof (tr_follows _ _ _ _ T) as F.
  eapply (append_frame_tracks x m _ (tl_frame w.(walk_timeline) f.(format) (zlen f.(frame_bytes))) f.(format) k);
    [done|done|by apply admit_frame| |by apply follows_frame|done..].
  intros v Hv He. unfold walk_chunk. rewrite He, Hv. cbn [result_bind].
  destruct (frame_alignment_bytes_Ok f.(format)) as [Hal _]; [apply Hf|].
  rewrite PcmFormat_new_of by apply Hf. cbn [or_recovery result_bind]. rewrite Hal. cbn [or_recovery result_bind].
  rewrite (tr_gap _ _ _ _ T), (follows_open _ _ _ F), Hopen, (fits_unchanged _ _ _ _ _ T Hfit), wf_frame_nonempty by done.
  destruct Hf as (_ & _ & ->). done.
Qed.

Lemma count_timed_tl t f bytes total duration :
  count_timed t.(tl_timed_samples) t.(tl_timed_gap_ms) f bytes = Ok (total, duration) ->
  tl_timed_frame t f bytes = Ok (media_ms_set (media_samples (media_format t (Some f)) total) duration).
Proof. intros H. unfold tl_timed_frame. by rewrite H. Qed.

Lemma append_timed_frame x m f k timing total duration s s' w :
  timed = true -> wf_frame f -> fits m f.(format) ->
  (forall bs, timing = Some bs -> length bs = CAPTURE_TIMING_BYTES) ->
  count_timed m.(tl_timed_samples) m.(tl_timed_gap_ms) f.(format) (zlen f.(frame_bytes)) = Ok (total, duration) ->
  Tracks x m s w -> s.(rec).(media) = media_format m (Some f.(format)) ->
  append (timed_frame_record (clk k) f timing) s = (Ok tt, s') -> m.(tl_open_gap_at_ms) = None ->
  w.(walk_last_at_ms) <= clk k -> (k <= s.(world).(w_clock_reads))%nat ->
  Good x {| rec := set_media s'.(rec)
      (media_ms_set (media_samples s'.(rec).(media) total) duration); world := s'.(world) |}.
Proof using clk_mono clk_u64 hdr_timed.
  intros Ht Hf Hfit Htim Hcount T Hmed Ha Hopen Hk Hr.
  destruct (append_Ok _ _ _ Ha) as (ct & tv & A). pose proof (ap_validation _ _ _ _ _ A) as Hv.
  rewrite (log_validation _ _ (tr_log _ _ _ _ T)), Ht in Hv. destruct Hv as (chunk & v' & Hd & _ & _).
  destruct (decode_timed_record _ _ _ _ (clk_u64 k) Hf Htim Hd) as [tm ->].
  replace (media_ms_set _ _) with (media_ms_set (media_samples (media_format m (Some f.(format))) total) duration)
    by (rewrite (ap_rec _ _ _ _ _ A); cbn; by rewrite Hmed).
  pose proof (tr_follows _ _ _ _ T) as F.
  destruct (follows_timed _ _ _ _ _ _ F (count_timed_tl _ _ _ _ _ Hcount)) as (t & Et & Ft & T1 & T2).
  eapply (append_frame_tracks x m _ t f.(format) k);
    [done|done|apply admit_kind; [by rewrite Ht|done|exact Hd]| |exact Ft|done..].
  intros v Hv He. unfold walk_chunk. rewrite He, Hv. cbn [result_bind].
  rewrite (tr_gap _ _ _ _ T), (follows_open _ _ _ F), Hopen, (fits_unchanged _ _ _ _ _ T Hfit), wf_frame_nonempty by done.
  cbn [is_some orb]. by rewrite Et.
Qed.

(** *** Records that carry no media *)

Definition is_note (chunk : RecordedChunk) : bool :=
  match chunk with TimingPolicy | ChunkMetadata _ | AlignmentLimit => true | _ => false end.

(** After a step that leaves the media alone. *)
Definition aside (x : bool) (m : MediaTimeline) (s s' : St) (last : Z) : Prop :=
  s'.(rec).(media) = s.(rec).(media) /\ (s.(world).(w_clock_reads) <= s'.(world).(w_clock_reads))%nat /\
  exists w', Tracks x m s' w' /\ w'.(walk_last_at_ms) = last.

Lemma append_note x m record chunk s s' w :
  is_note chunk = true -> Tracks x m s w -> append record s = (Ok tt, s') ->
  admit_record hdr true record = Ok chunk -> aside x m s s' w.(walk_last_at_ms).
Proof.
  intros Hnote T Ha Hadm.
  edestruct (append_tracks x m record chunk
    (fun w' => w'.(walk_ended) = false /\ w'.(walk_timeline) = w.(walk_timeline) /\
       w'.(walk_format) = w.(walk_format) /\ w'.(walk_gap) = w.(walk_gap) /\
       w'.(walk_last_at_ms) = w.(walk_last_at_ms)))
    as (w' & (E1 & E2 & E3 & E4 & E5) & HL & (S1 & S2 & S3 & S4 & S5) & He); [done|done|done| |].
  - intros v Hv He. unfold walk_chunk. rewrite He, Hv. cbn [result_bind].
    destruct chunk; try done; (eexists; split; [done|]; cbn; split_and!; try done;
      apply (log_last _ _ (tr_log _ _ _ _ T))).
  - split; [done|]. split; [lia|]. exists w'. split; [|done]. destruct T as [T1 T2 T3 T4 T5 T6 T7 T8 T9].
    apply (Tracks_next x m _ s s' w w'); rewrite ?E2, ?E3, ?E4, ?E5; done.
Qed.

Lemma quiet_aside x m s s' w : Tracks x m s w -> quiet_step s s' -> aside x m s s' w.(walk_last_at_ms).
Proof using clk_mono.
  intros T Q. split; [apply Q|]. split; [apply Q|]. exists w. split; [by eapply Tracks_quiet|done].
Qed.

Lemma aside_trans x m s s1 s' last : s1.(rec).(media) = s.(rec).(media) ->
  (s.(world).(w_clock_reads) <= s1.(world).(w_clock_reads))%nat -> aside x m s1 s' last -> aside x m s s' last.
Proof. intros E R (A1 & A2 & A3). split; [congruence|]. split; [lia|done]. Qed.

(** *** The timing budget *)

Lemma admit_timing_tracks x m n s r s' w :
  Tracks x m s w -> admit_timing n s = (r, s') ->
  (exists e, r = Err e /\ is_incomplete s'.(rec) = true) \/ aside x m s s' w.(walk_last_at_ms).
Proof using clk_mono hdr_timed.
  intros T H. unfold admit_timing in H. apply bind_cases in H as [(e & Hg & _)|(budget & s1 & Hg & H)]; [done|].
  unfold gets in Hg. injection Hg as <- <-. destruct (timing_budget (rec s)) as [budget|] eqn:Eb.
  2: { unfold ret in H. injection H as _ <-. right. apply quiet_aside; [done|by split]. }
  destruct (exhausted budget). { unfold ret in H. injection H as _ <-. right. apply quiet_aside; [done|by split]. }
  assert (forall b', quiet_step s {| rec := set_budget (rec s) b'; world := world s |}) as Q
    by (intros b'; split; try done; cbn; by rewrite Eb).
  destruct (_ || _).
  - apply bind_cases in H as [(e & Hm & _)|([] & s2 & Hm & H)]; [done|]. unfold modify in Hm. injection Hm as <-.
    pose proof (Tracks_quiet _ _ _ _ _ T (Q {| records := records budget; budget_bytes := budget_bytes budget;
         maximum_records := maximum_records budget; maximum_bytes := maximum_bytes budget;
         exhausted := true |})) as T2.
    apply bind_cases in H as [(e & Ha & ->)|([] & s3 & Ha & H)].
    + apply append_refused in Ha as [Ha| ->]; [left; by eexists|right]. by apply quiet_aside.
    + unfold ret in H. injection H as _ <-. right.
      eapply aside_trans; [| |eapply (append_note _ _ _ AlignmentLimit _ _ _ eq_refl T2 Ha)]; [done|done|].
      apply admit_kind; [|done|done]. by rewrite <- (tr_timed _ _ _ _ T), Eb.
  - apply bind_cases in H as [(e & Hm & _)|([] & s2 & Hm & H)]; [done|]. unfold modify in Hm. injection Hm as <-.
    unfold ret in H. injection H as _ <-. right. by apply quiet_aside.
Qed.

(** *** The recorder's methods *)

Lemma record_timed_frame_tracks x m f k s r s' w :
  timed = true -> wf_frame f -> fits m f.(format) -> Tracks x m s w ->
  s.(rec).(media) = media_format m (Some f.(format)) -> m.(tl_open_gap_at_ms) = None ->
  w.(walk_last_at_ms) <= clk k -> (k <= s.(world).(w_clock_reads))%nat ->
  record_timed_frame f (clk k) s = (r, s') ->
  (exists e, r = Err e /\ (is_incomplete s'.(rec) = true \/ aside x m s s' w.(walk_last_at_ms))) \/
  (r = Ok tt /\ Good x s').
Proof using clk_mono clk_u64 hdr_timed.
  intros Ht Hf Hfit T Hmed Hopen Hk Hr H. unfold record_timed_frame in H.
  apply bind_cases in H as [(e & H1 & ->)|(enc & s1 & H1 & H)].
  { unfold lift in H1. injection H1 as _ <-. left. exists e. split; [done|]. right. apply quiet_aside; [done|by split]. }
  assert (Henc : s1 = s /\ forall bs, enc = Some bs -> length bs = CAPTURE_TIMING_BYTES).
  { unfold lift in H1. destruct (capture_timing f) as [tc|]; [|by simplify_eq].
    destruct (FrameProvenance_encode (timed_frame tc)) as [bs|] eqn:E; cbn in H1; [|done].
    injection H1 as <- <-. split; [done|]. intros ? [= <-]. by eapply provenance_encode_length. }
  destruct Henc as [-> Hlen]. clear H1.
  apply bind_cases in H as [(e & H2 & ->)|(tim & s2 & H2 & H)].
  { left. exists e. split; [done|]. destruct enc as [bs|]; cbn [is_some] in H2; [|done].
    apply bind_cases in H2 as [(e' & Hadm & _)|(b & s0 & Hadm & H2)]; [|done].
    destruct (admit_timing_tracks _ _ _ _ _ _ _ T Hadm) as [(e0 & _ & ?)|?]; [by left|by right]. }
  assert (aside x m s s2 w.(walk_last_at_ms) /\ forall bs, tim = Some bs -> length bs = CAPTURE_TIMING_BYTES)
    as ((M2 & R2 & w2 & T2 & L2) & Htim).
  { destruct enc as [bs|]; cbn [is_some] in H2.
    - apply bind_cases in H2 as [(e' & Hadm & ?)|(b & s0 & Hadm & H2)]; [done|]. unfold ret in H2. injection H2 as <- <-.
      destruct (admit_timing_tracks _ _ _ _ _ _ _ T Hadm) as [(e0 & ? & ?)|A]; [done|]. split; [done|].
      intros bs'. destruct b; [|done]. intros [= <-]. by apply Hlen.
    - unfold ret in H2. injection H2 as <- <-. split; [|done]. apply quiet_aside; [done|by split]. }
  assert (forall s0 e, r = Err e -> s0 = s2 -> exists e, r = Err e /\ (is_incomplete s0.(rec) = true \/ aside x m s s0 w.(walk_last_at_ms))) as Hback.
  { intros s0 e -> ->. exists e. split; [done|]. right. split; [done|]. split; [done|]. by exists w2. }
  rewrite Hmed in M2.
  apply bind_cases in H as [(e & H3 & _)|(m0 & s3 & H3 & H)]; [done|]. unfold gets in H3. injection H3 as <- <-.
  apply bind_cases in H as [(e & H4 & ->)|([total dur] & s4 & H4 & H)]; unfold lift in H4; rewrite M2 in H4;
    cbn [tl_timed_samples tl_timed_gap_ms media_format] in H4.
  { injection H4 as _ <-. left. by eapply Hback. }
  injection H4 as H4 <-.
  apply bind_cases in H as [(e & H5 & ->)|([] & s5 & H5 & H)].
  { left. apply append_refused in H5 as [?| ->]; [exists e; split; [done|by left]|by eapply Hback]. }
  unfold modify in H. injection H as <- <-. right. split; [done|].
  eapply (append_timed_frame x m f k tim total dur s2 s5 w2); rewrite ?L2; try done; lia.
Qed.

(** A frame, once its gap is closed. *)
Lemma frame_written x m f k s r s' w :
  wf_frame f -> is_u64 f.(frame_sequence) -> fits m f.(format) -> Tracks x m s w ->
  s.(rec).(media) = media_format m (Some f.(format)) -> m.(tl_open_gap_at_ms) = None ->
  w.(walk_last_at_ms) <= clk k -> (k <= s.(world).(w_clock_reads))%nat ->
  (budget <- gets timing_budget ;;
   (if is_some budget then record_timed_frame f (clk k)
    else
      append (frame_record (clk k) f) ;;;
      modify (fun r => set_media r
        (media_ms_set r.(media) (saturating_add r.(media).(tl_media_ms) (frame_duration_ms f))))) ;;;
   enforce_limits (Some f)) s = (r, s') ->
  Kept x s' \/ exists e, r = Err e /\ aside x m s s' w.(walk_last_at_ms).
Proof using clk_mono clk_u64 hdr_timed.
  intros Hf Hseq Hfit T Hmed Hopen Hk Hr H.
  apply bind_cases in H as [(e & H6 & _)|(b & s6 & H6 & H)]; [done|]. unfold gets in H6. injection H6 as <- <-.
  rewrite (tr_timed _ _ _ _ T) in H.
  destruct (Bool.bool_dec timed true) as [Et|Et%not_true_is_false]; rewrite Et in H.
  - apply bind_cases in H as [(e & H7 & ->)|([] & s7 & H7 & H)];
      destruct (record_timed_frame_tracks x m f k _ _ _ w Et Hf Hfit T Hmed Hopen Hk Hr H7) as [(e' & E & A)|[E [w7 G]]];
      try done.
    + destruct A as [?|A]; [left; by left|right; by exists e].
    + left. by eapply enforce_kept.
  - apply bind_cases in H as [(e & H7 & ->)|([] & s7 & H7 & H)].
    + apply bind_cases in H7 as [(e' & H8 & _)|([] & s8 & H8 & H7)]; [|done].
      apply append_refused in H8 as [?| ->]; [left; by left|right]. exists e. split; [done|]. apply quiet_aside; [done|by split].
    + apply bind_cases in H7 as [(e' & H8 & ?)|([] & s8 & H8 & H7)]; [done|]. injection H7 as <-.
      destruct (append_legacy_frame x m f k s s8 w Et Hf Hseq Hfit T Hmed H8 Hopen Hk Hr) as [w7 G].
      left. by eapply enforce_kept.
Qed.

(** A refused frame leaves its format behind. *)
Lemma aside_kept x m f s s' last : aside x m s s' last -> s.(rec).(media) = media_format m (Some f) -> fits m f ->
  (m.(tl_format) = None -> x = false) -> Kept x s'.
Proof.
  intros (A & _ & w & T & _) M Hf Hx. right. exists w. rewrite A, M.
  destruct T as [T1 T2 T3 T4 T5 T6 T7 T8 T9]. split; try done. by apply follows_announced.
Qed.

Lemma record_frame_kept x f s r s' w :
  wf_frame f -> is_u64 f.(frame_sequence) -> Tracks x s.(rec).(media) s w -> record_frame f s = (r, s') ->
  (forall e, r = Err e -> s.(rec).(media).(tl_format) = None -> x = false) -> Kept x s'.
Proof using clk_mono clk_u64 hdr_timed.
  intros Hf Hseq T H Hx. set (m := s.(rec).(media)) in *. unfold record_frame in H.
  apply bind_cases in H as [(e & H1 & _)|(fb & s1 & H1 & H)]; [done|]. unfold gets in H1. injection H1 as <- <-.
  change (media (rec s)) with m in H.
  apply bind_cases in H as [(e & H2 & ->)|([] & s2 & H2 & H)].
  { destruct (tl_format m); [|done]. destruct (negb _); [|done]. injection H2 as _ <-. right. by exists w. }
  assert (Tracks x m s2 w /\ s2.(rec).(media) = media_format m (Some f.(format)) /\ fits m f.(format) /\
    s2.(world) = s.(world)) as (T2 & M2 & Hfit & W2).
  { unfold fits. destruct (tl_format m) as [ex|] eqn:Ef.
    - destruct (bool_decide (ex = format f)) eqn:E; [|done]. breflect. subst. injection H2 as <-.
      split_and!; [done| |by right|done]. change (media (rec s)) with m. destruct m. cbn in *. by subst.
    - injection H2 as <-. split_and!; [by apply Tracks_set_media|done|by left|done]. }
  clear H2. apply bind_cases in H as [(e & H3 & _)|(at_ms & s3 & H3 & H)]; [done|].
  destruct (elapsed_step _ _ _ H3 (Log_clock _ _ (tr_log _ _ _ _ T2))) as (Hq & -> & Hr).
  pose proof (Tracks_quiet _ _ _ _ _ T2 Hq) as T3. pose proof (log_last _ _ (tr_log _ _ _ _ T2)) as Hlast.
  assert (M3 : media (rec s3) = media_format m (Some (format f))) by by rewrite (qs_media _ _ Hq).
  set (k := w_clock_reads (world s2)) in *. clearbody k. clear T2 M2 Hq H3 T.
  apply bind_cases in H as [(e & H4 & _)|(og & s4 & H4 & H)]; [done|]. unfold gets in H4. injection H4 as <- <-.
  rewrite M3 in H. cbn [tl_open_gap_at_ms media_format] in H.
  assert (Hk : (k <= w_clock_reads (world s3))%nat) by lia.
  destruct (tl_open_gap_at_ms m) as [opened|] eqn:Eo.
  - apply bind_cases in H as [(e & H5 & ->)|([] & s5 & H5 & H)];
      destruct (close_gap_tracks x m _ k opened _ _ _ _ T3 M3 Eo H5 Hlast Hk)
        as [(e' & E & A)|(E & m5 & w5 & T5 & M5 & O5 & F5 & L5 & R5)]; try done.
    + destruct A as [?| ->]; [by left|]. eapply aside_kept; [apply quiet_aside; [exact T3|by split]|exact M3|done|].
      intros N. by eapply Hx.
    + assert (fits m5 f.(format)) as Hfit5 by (unfold fits; by rewrite F5).
      destruct (frame_written x m5 f k s5 r s' w5) as [?|(e & -> & A)]; try done.
      eapply aside_kept; [exact A|exact M5|done|]. rewrite F5. intros N. by eapply Hx.
  - apply bind_cases in H as [(e & H5 & ?)|([] & s5 & H5 & H)]; [done|]. unfold ret in H5. injection H5 as <-.
    destruct (frame_written x m f k s3 r s' w) as [?|(e & -> & A)]; try done.
    eapply aside_kept; [exact A|exact M3|done|]. intros N. by eapply Hx.
Qed.

Lemma record_gap_kept x s r s' w :
  Tracks x s.(rec).(media) s w -> record_capture_gap s = (r, s') -> Kept x s'.
Proof using clk_mono clk_u64 hdr_timed.
  intros T H. unfold record_capture_gap in H.
  apply bind_cases in H as [(e & H1 & _)|(og & s1 & H1 & H)]; [done|]. unfold gets in H1. injection H1 as <- <-.
  destruct (tl_open_gap_at_ms (media (rec s))) as [o|] eqn:Eo; cbn [is_some] in H.
  { unfold ret in H. injection H as _ <-. right. by exists w. }
  apply bind_cases in H as [(e & H2 & _)|(at_ms & s2 & H2 & H)]; [done|].
  destruct (elapsed_step _ _ _ H2 (Log_clock _ _ (tr_log _ _ _ _ T))) as (Hq & -> & Hr).
  pose proof (Tracks_quiet _ _ _ _ _ T Hq) as T2. pose proof (log_last _ _ (tr_log _ _ _ _ T)) as Hlast.
  rewrite <- (qs_media _ _ Hq) in T2, Eo.
  set (k := w_clock_reads (world s)) in *. clearbody k. clear T Hq H2.
  apply bind_cases in H as [(e & H3 & _)|([] & s3 & H3 & H)]; [by eapply Kept_refused|].
  apply bind_cases in H as [(e & H4 & _)|([] & s4 & H4 & H)]; [done|].
  apply bind_cases in H as [(e & H5 & _)|([] & s5 & H5 & H)]; [done|].
  unfold modify in H4, H5. injection H4 as <-. injection H5 as <-.
  pose proof (tr_follows _ _ _ _ T2) as F. pose proof (follows_open _ _ _ F) as Fo. rewrite Eo in Fo.
  edestruct (append_tracks x (media (rec s2)) (gap_started_record (clk k) CAPTURE_DISCONTINUITY_REASON)
    (GapStarted (clk k) CAPTURE_DISCONTINUITY_REASON)
    (fun w' => w'.(walk_ended) = false /\ w'.(walk_timeline) = tl_gap_started w.(walk_timeline) (clk k) /\
       w'.(walk_format) = w.(walk_format) /\ w'.(walk_gap) = Some (clk k) /\ w'.(walk_last_at_ms) = clk k))
    as (w' & (E1 & E2 & E3 & E4 & E5) & HL & Hs & He); [exact T2|exact H3|by apply admit_gap_started| |].
  - intros v Hv He. unfold walk_chunk. rewrite He, Hv. cbn [result_bind].
    rewrite bool_decide_false by done. rewrite bool_decide_true by done.
    rewrite (tr_gap _ _ _ _ T2), Fo. cbn [is_some orb negb]. unfold advance.
    rewrite (proj2 (Z.ltb_ge _ _)) by done. eexists. split; [done|]. cbn. split_and!; try done. apply clk_mono. lia.
  - assert (M3 : media (rec s3) = media (rec s2)) by apply Hs. rewrite M3 in H.
    eapply (enforce_kept x None _ _ _ w'); [|exact H]. cbn [rec media set_media].
    replace (media_gaps _ _) with (tl_gap_started (media (rec s2)) (clk k)) by by destruct (media (rec s2)).
    refine (Tracks_set_media x _ _ {| rec := set_media (rec s3) (media_open_gap (media (rec s2)) (Some (clk k)));
      world := world s3 |} w' _). apply Tracks_set_media.
    apply (Tracks_next x (media (rec s2)) _ s2 s3 w w'); rewrite ?E2, ?E3, ?E4, ?E5; try done.
    + by apply follows_started.
    + eapply gaps_passed_started; [apply T2|done].
    + apply T2.
Qed.

Lemma record_metadata_kept x m s r s' w :
  Tracks x s.(rec).(media) s w -> record_capture_metadata m s = (r, s') -> Kept x s'.
Proof using clk_mono clk_u64 hdr_timed.
  intros T H. unfold record_capture_metadata in H.
  apply bind_cases in H as [(e & H1 & _)|(b & s1 & H1 & H)]; [done|]. unfold gets in H1. injection H1 as <- <-.
  destruct (is_none (timing_budget (rec s))) eqn:Eb; [injection H as _ <-; right; by exists w|].
  assert (Ht : timed = true).
  { rewrite <- (tr_timed _ _ _ _ T). unfold is_none in Eb. by destruct (is_some _). }
  apply bind_cases in H as [(e & H2 & _)|(record & s2 & H2 & H)]; unfold lift in H2.
  { injection H2 as _ <-. right. by exists w. }
  injection H2 as H2 <-.
  apply bind_cases in H as [(e & H3 & _)|(adm & s3 & H3 & H)].
  { destruct (admit_timing_tracks _ _ _ _ _ _ _ T H3) as [(? & _ & ?)|(A & _ & w3 & T3 & _)]; [by left|right].
    exists w3. by rewrite A. }
  destruct (admit_timing_tracks _ _ _ _ _ _ _ T H3) as [(? & ? & _)|(A & _ & w3 & T3 & _)]; [done|]. rewrite <- A in T3.
  apply bind_cases in H as [(e & H4 & _)|([] & s4 & H4 & H)].
  { destruct adm; [|done]. by eapply Kept_refused. }
  destruct adm; [|unfold ret in H4; injection H4 as <-; by eapply enforce_kept].
  destruct (append_Ok _ _ _ H4) as (ct & tv & Ap). pose proof (ap_validation _ _ _ _ _ Ap) as Hv.
  rewrite (log_validation _ _ (tr_log _ _ _ _ T3)), Ht in Hv. destruct Hv as (chunk & v' & Hd & _ & _).
  destruct (decode_metadata_record _ _ _ H2 Hd) as ([m' ->] & kind & body & -> & Hkind).
  destruct (append_note x _ _ _ _ _ _ (eq_refl : is_note (ChunkMetadata m') = true) T3 H4) as (A4 & _ & w4 & T4 & _).
  - apply admit_kind; [|by apply Z.eqb_neq; unfold CHUNK_GAP_STARTED, CHUNK_POLICY in *; lia|done].
    rewrite Ht. unfold CHUNK_FRAME, CHUNK_POLICY in *. cbn. rewrite orb_false_r. apply Z.eqb_neq. lia.
  - eapply enforce_kept; [|exact H]. by rewrite A4.
Qed.

Lemma write_nothing e s s' :
  write_file [] e s = (Ok tt, s') -> quiet_step s s' /\ s'.(rec) = s.(rec).
Proof.
  unfold write_file. destruct (w_io _ _); [|done]. intros H. injection H as <-.
  split; [|done]. split; try done. cbn. apply app_nil_r.
Qed.

Lemma confirm_boundary_kept x b s r s' w :
  Tracks x s.(rec).(media) s w -> confirm_capture_boundary b s = (r, s') -> Kept x s'.
Proof using clk_mono.
  intros T H. unfold confirm_capture_boundary in H.
  apply bind_cases in H as [(e & H1 & _)|(r0 & s1 & H1 & H)]; [done|]. unfold gets in H1. injection H1 as <- <-.
  apply bind_cases in H as [(e & H2 & _)|(v & s2 & H2 & H)]; unfold lift in H2.
  { injection H2 as _ <-. right. by exists w. }
  injection H2 as H2 <-.
  match type of H with (if ?c then _ else _) _ = _ => destruct c eqn:Ec end; [injection H as _ <-; right; by exists w|]. clear Ec.
  apply bind_cases in H as [(e & H3 & _)|([] & s3 & H3 & H)]; [done|]. unfold modify in H3. injection H3 as <-.
  apply bind_cases in H as [(e & H4 & _)|([] & s4 & H4 & H)].
  - left. unfold write_file in H4. destruct (w_io _ _); [done|]. injection H4 as _ <-. apply orb_true_r.
  - unfold modify in H. injection H as _ <-. apply write_nothing in H4 as [[Q1 Q2 Q3 Q4 Q5 Q6 Q7 Q8] Hrec].
    assert (Hhealthy := log_healthy _ _ (tr_log _ _ _ _ T)).
    eapply Kept_quiet; [exact T|]. rewrite Hrec. split; cbn; try done.
    destruct (sink (rec s)); cbn in *. by subst.
Qed.

(** *** Closing *)

(** A closed recording with its summary made from the file. *)
Lemma close_file_tracks x s s' w :
  Tracks x s.(rec).(media) s w -> close_file s = (Ok tt, s') ->
  exists w', Tracks x s'.(rec).(media) s' w' /\ w'.(walk_ended) = true.
Proof using clk_mono clk_u64 hdr_timed.
  intros T H. unfold close_file in H. apply bind_Ok in H as (closed & s1 & H1 & H).
  unfold gets in H1. injection H1 as <- <-. destruct (ended (status (rec s))) eqn:Ee.
  { unfold ret in H. injection H as <-. exists w. split; [done|]. by rewrite (tr_ended _ _ _ _ T). }
  apply bind_Ok in H as ([] & s2 & H2 & H). apply bind_Ok in H2 as (r & s3 & H3 & H2).
  unfold gets in H3. injection H3 as <- <-.
  assert (is_incomplete (rec s) = false) as Hi.
  { unfold is_incomplete. by rewrite (tr_failed _ _ _ _ T), (log_healthy _ _ (tr_log _ _ _ _ T)). }
  rewrite Hi in H2. cbn [andb] in H2. unfold ret in H2. injection H2 as <-.
  apply bind_Ok in H as (at_ms & s4 & H4 & H). apply bind_Ok in H as ([] & s5 & H5 & H).
  destruct (elapsed_step _ _ _ H4 (Log_clock _ _ (tr_log _ _ _ _ T))) as (Hq & -> & Hr).
  pose proof (Tracks_quiet _ _ _ _ _ T Hq) as T4. rewrite <- (qs_media _ _ Hq) in T4.
  destruct (append_ended _ _ _ _ _ _ T4 H5) as (w' & T5 & (S1 & _) & E); [apply T|lia|].
  unfold modify in H. injection H as <-. exists w'. rewrite <- S1 in T5. by split.
Qed.

Lemma finalize_using_tracks x s s' w sm :
  Tracks x s.(rec).(media) s w -> finalize_using true s = (Ok sm, s') ->
  exists w', w'.(walk_ended) = true /\ Log s' w' /\ follows x s'.(rec).(media) w'.(walk_timeline) /\
    zlen s'.(world).(w_file) <= MAX_FINALIZED_RECORDING_BYTES /\
    sm = make_summary s'.(rec) (lowercase_hex (sha256 s'.(world).(w_file))).
Proof using clk_mono clk_u64 hdr_timed.
  intros T H. unfold finalize_using in H. apply bind_Ok in H as (known & s1 & H1 & H).
  unfold gets in H1. injection H1 as <- <-. rewrite (tr_summary _ _ _ _ T) in H.
  apply bind_Ok in H as ([] & s2 & H2 & H). destruct (close_file_tracks _ _ _ _ T H2) as (w2 & T2 & Hend).
  apply bind_Ok in H as (op & s3 & H3 & H). unfold gets in H3. injection H3 as <- <-.
  apply bind_Ok in H as ([] & s4 & H4 & H).
  assert (T4 : Tracks x s4.(rec).(media) s4 w2).
  { destruct (file_open _); [apply write_nothing in H4 as [Hq _]; rewrite (qs_media _ _ Hq); by eapply Tracks_quiet|].
    unfold ret in H4. by injection H4 as <-. }
  apply bind_Ok in H as ([] & s5 & H5 & H). unfold admitted_recovery_extent in H5.
  destruct (_ <? _) eqn:Ex; [done|]. injection H5 as <-. breflect.
  apply bind_Ok in H as (dg & s6 & H6 & H). unfold digest_file in H6.
  apply bind_Ok in H6 as ([] & s7 & H7 & H6). injection H6 as <- <-.
  apply write_nothing in H7 as [Hq _]. pose proof (Tracks_quiet _ _ _ _ _ T4 Hq) as T7. rewrite <- (qs_media _ _ Hq) in T7.
  unfold bind, gets, modify, ret in H. injection H as <- <-. exists w2. cbn.
  rewrite (qs_file _ _ Hq). destruct T7 as [[L1 L0 L2 L3 L4 L5 L6 L7] F _ _ _ _ _ _ _]. by split_and!.
Qed.

(** *** Sequences of operations *)

Inductive op : Type :=
| Op_frame (f : AudioFrame)
| Op_gap
| Op_metadata (m : CaptureMetadata)
| Op_boundary (b : CaptureFinishBoundary)
| Op_take_notices.

Definition do_op (o : op) : M unit :=
  match o with
  | Op_frame f => record_frame f
  | Op_gap => record_capture_gap
  | Op_metadata m => record_capture_metadata m
  | Op_boundary b => confirm_capture_boundary b
  | Op_take_notices => _ <- take_limit_notices ;; ret tt
  end.

Fixpoint run_ops (ops : list op) : M unit :=
  match ops with
  | [] => ret tt
  | o :: rest => do_op o ;;; run_ops rest
  end.

Definition op_ok (o : op) : Prop :=
  match o with
  | Op_frame f => wf_frame f /\ is_u64 f.(frame_sequence)
  | _ => True
  end.

(** A frame refused while none has been recorded: its format stays behind. *)
Definition refused_first (o : op) (s : St) : bool :=
  match o with
  | Op_frame f =>
      is_none s.(rec).(media).(tl_format) && match (record_frame f s).1 with Ok _ => false | Err _ => true end
  | _ => false
  end.

Lemma do_op_kept x o s w :
  op_ok o -> Tracks x s.(rec).(media) s w -> (refused_first o s = true -> x = false) -> Kept x (do_op o s).2.
Proof using clk_mono clk_u64 hdr_timed.
  intros Ho T Hx. destruct (do_op o s) as [r s'] eqn:H. destruct o as [f| |m|b|]; cbn [do_op op_ok snd] in *.
  - destruct Ho. eapply record_frame_kept; [done|done|exact T|exact H|]. intros e -> N. apply Hx.
    unfold refused_first. by rewrite N, H.
  - by eapply record_gap_kept.
  - by eapply record_metadata_kept.
  - by eapply confirm_boundary_kept.
  - unfold take_limit_notices, bind, gets, modify, ret in H. injection H as <- <-.
    eapply Kept_quiet; [exact T|by split].
Qed.

Lemma Kept_weaken s : Kept true s -> Kept false s.
Proof.
  intros [?|[w [T1 T2 T3 T4 T5 T6 T7 T8 T9]]]; [by left|]. right. exists w. split; try done. by apply follows_weaken.
Qed.

(** *** Calls that succeed leave the recorder complete *)

Definition completes {A} (m : M A) : Prop :=
  forall s a s', m s = (Ok a, s') -> is_incomplete s.(rec) = false -> is_incomplete s'.(rec) = false.

Lemma completes_bind {A B} (m : M A) (f : A -> M B) : completes m -> (forall a, completes (f a)) -> completes (bind m f).
Proof. intros Hm Hf s b s' (a & s1 & H1 & H2)%bind_Ok Hs. eapply Hf; [exact H2|]. by eapply Hm. Qed.

Lemma completes_modify (f : SessionRecorder -> SessionRecorder) :
  (forall r, is_incomplete (f r) = is_incomplete r) -> completes (modify f).
Proof. intros Hf s a s' [= <- <-] Hs. cbn. by rewrite Hf. Qed.

Lemma completes_lift {A} (v : rresult A) : completes (lift v).
Proof. by intros s a s' [= _ <-]. Qed.

Lemma completes_append record : completes (append record).
Proof.
  intros s [] s' H Hs. destruct (append_Ok _ _ _ H) as (ct & tv & A). unfold is_incomplete in *.
  by rewrite (ap_rec _ _ _ _ _ A).
Qed.

Lemma completes_observe (f : AudioFrame) : completes (observe_frame f).
Proof. intros s a s'. unfold observe_frame. destruct (observe _ _ _). by intros [= <- <-]. Qed.

Ltac completes := repeat first
  [ apply completes_append | apply completes_lift | apply completes_observe
  | apply completes_bind; [|intros ?] | apply completes_modify; done
  | match goal with |- completes (if ?b then _ else _) => destruct b end
  | match goal with |- completes (match ?b with _ => _ end) => destruct b end
  | by intros ? ? ? [= <- <-] | by intros ? ? ? ? | progress unfold admit_timing, record_timed_frame, close_gap, enforce_limits ].

Lemma do_op_completes o : completes (do_op o).
Proof using clk_mono.
  destruct o as [f| |m|b|]; cbn [do_op].
  - unfold record_frame. completes.
  - unfold record_capture_gap. completes.
  - unfold record_capture_metadata. completes.
  - intros s [] s' H Hs. unfold confirm_capture_boundary in H. steps H. unfold gets, lift, modify in *. simplify_eq/=.
    destruct a2. destruct (write_nothing _ _ _ Hstep2) as [Q E]. unfold is_incomplete in *. cbn. rewrite E. cbn.
    apply orb_false_iff in Hs as [Hs _]. by rewrite Hs.
  - unfold take_limit_notices. completes.
Qed.

Lemma run_ops_Good ops s s' :
  Forall op_ok ops -> is_incomplete s.(rec) = false -> Good true s -> run_ops ops s = (Ok tt, s') -> Good true s'.
Proof using clk_mono clk_u64 hdr_timed.
  intros Ho. revert s. induction Ho as [|o ops Ho Hops IH]; intros s Hi [w T] H; cbn [run_ops] in H.
  - unfold ret in H. injection H as <-. by exists w.
  - apply bind_Ok in H as ([] & s1 & H1 & H). pose proof (do_op_completes o _ _ _ H1 Hi) as Hi1.
    destruct (do_op_kept true o s w Ho T) as [E|G].
    + unfold refused_first. destruct o as [f| | | |]; try done. cbn [do_op] in H1. rewrite H1. by rewrite andb_false_r.
    + rewrite H1 in E. cbn in E. congruence.
    + rewrite H1 in G. by apply (IH s1).
Qed.

Lemma Good_complete x s : Good x s -> is_incomplete s.(rec) = false.
Proof.
  intros [w T]. unfold is_incomplete. by rewrite (tr_failed _ _ _ _ T), (log_healthy _ _ (tr_log _ _ _ _ T)).
Qed.
End Runs.

(** ** Headers *)

Section Headers.
Context (timed : bool) (session : SessionId) (prefix binding : list Z).
Context (Hprefix : length prefix = NONCE_PREFIX_LEN) (Hbinding : length binding = BINDING_BYTES).
Context (Hsession : is_u64 (SessionId_get session)).

Let header := make_header timed session prefix binding.

Lemma magic_length (b : bool) : length (if b then TIMED_MAGIC else MAGIC) = 8%nat.
Proof. by destruct b. Qed.

Lemma make_header_length : length header = HEADER_LEN.
Proof using Hprefix Hbinding.
  unfold header, make_header. rewrite !length_app, be_bytes_length, magic_length, Hprefix, Hbinding. done.
Qed.

Lemma make_header_timed : header_is_timed header = timed.
Proof. unfold header_is_timed, header, make_header. rewrite slice_app_l by apply magic_length. by destruct timed. Qed.

Lemma make_header_binding : slice 28 44 header = binding.
Proof using Hprefix Hbinding.
  unfold header, make_header.
  erewrite slice_skip; [|apply magic_length|lia|lia]. cbn [Nat.sub].
  erewrite slice_skip; [|reflexivity|cbn; lia|cbn; lia]. cbn [Nat.sub length].
  erewrite slice_skip; [|apply be_bytes_length|lia|lia]. cbn [Nat.sub].
  erewrite slice_skip; [|apply Hprefix|unfold NONCE_PREFIX_LEN; lia|unfold NONCE_PREFIX_LEN; lia].
  cbn [Nat.sub]. unfold NONCE_PREFIX_LEN. cbn [Nat.sub]. by apply slice_app_l.
Qed.

Lemma make_header_read : read_header header = Ok session.
Proof using Hprefix Hbinding Hsession.
  assert (S0 : slice 0 8 header = if timed then TIMED_MAGIC else MAGIC).
  { unfold header, make_header. apply slice_app_l, magic_length. }
  assert (S8 : byte_at 8 header = AEAD_AES_256_GCM).
  { unfold header, make_header. rewrite byte_at_app_r; rewrite magic_length; done. }
  assert (S9 : slice 9 12 header = [0; 0; 0]).
  { unfold header, make_header. erewrite slice_skip; [|apply magic_length|lia|lia]. done. }
  assert (S12 : slice 12 20 header = be_bytes 8 (SessionId_get session)).
  { unfold header, make_header. erewrite slice_skip; [|apply magic_length|lia|lia]. cbn [Nat.sub].
    erewrite slice_skip; [|reflexivity|cbn; lia|cbn; lia]. cbn [Nat.sub length].
    apply slice_app_l, be_bytes_length. }
  assert (S44 : slice 44 48 header = [0; 0; 0; 0]).
  { pose proof make_header_length as HL. unfold header, make_header in *.
    erewrite slice_skip; [|apply magic_length|lia|lia]. cbn [Nat.sub].
    erewrite slice_skip; [|reflexivity|cbn; lia|cbn; lia]. cbn [Nat.sub length].
    erewrite slice_skip; [|apply be_bytes_length|lia|lia]. cbn [Nat.sub].
    erewrite slice_skip; [|apply Hprefix|unfold NONCE_PREFIX_LEN; lia|unfold NONCE_PREFIX_LEN; lia].
    unfold NONCE_PREFIX_LEN. cbn [Nat.sub].
    erewrite slice_skip; [|apply Hbinding|unfold BINDING_BYTES; lia|unfold BINDING_BYTES; lia]. done. }
  unfold read_header. rewrite S0, S8, S9, S12, S44. destruct session as [n]. cbn in Hsession |- *.
  rewrite be_value_bytes by ints. by destruct timed.
Qed.
End Headers.

(** ** Replaying a whole file *)

Section Replay.
Context `{RC : RecordingCrypto} `{RCL : !RecordingCryptoLaws RC}.

Lemma walk_loop_sealed header st counter records bytes :
  sealed header counter records bytes -> forall c chunks w w' n fuel,
  Forall2 (fun r ch => admit_record header st r = Ok ch) records chunks ->
  walk_list (header_is_timed header) w chunks = Ok w' ->
  c.(reader_header) = header -> c.(strict) = st -> c.(remaining) = bytes ->
  c.(reader_counter) = counter -> c.(finished) = false -> c.(truncated) = false ->
  counter + zlen records <= u32_max -> (length bytes < fuel)%nat ->
  exists c', walk_loop fuel (fun _ => false) n c w =
      Val (Ok ({| completed_ended := w'.(walk_ended); completed_incomplete := false;
                  completed_timeline := w'.(walk_timeline) |}, c')) /\
    c'.(truncated) = false /\ c'.(reader_session) = c.(reader_session).
Proof using RC RCL.
  induction 1 as [counter|counter record ct records bytes Hs Hl Hsealed IH];
    intros c chunks w w' n fuel Hch Hw Hh Hst Hr Hc Hf Ht Hmax Hfuel;
    (destruct fuel as [|fuel]; [lia|]); cbn [walk_loop].
  - inversion Hch; subst chunks. cbn in Hw. apply Ok_inj in Hw as <-.
    rewrite next_chunk_empty by done. by eexists.
  - inversion Hch as [|? ch ? chs Hadm Hrest]; subst. rewrite zlen_cons in Hmax. cbn [walk_list] in Hw.
    apply result_bind_Ok in Hw as ([w1|d] & Hw1 & Hw); [|done]. pose proof (zlen_nonneg records).
    erewrite next_chunk_whole; [|done..|lia]. cbn [reader_header set_reader]. rewrite Hw1.
    destruct (IH (set_reader c bytes (reader_counter c + 1) false (truncated c)) chs w1 w' (S n) fuel)
      as (c' & A & B & C); try done; [lia| |by exists c'].
    rewrite !length_app, be_bytes_length in Hfuel. lia.
Qed.

Lemma open_header header bytes st session :
  length header = HEADER_LEN -> read_header header = Ok session ->
  open_session_recording (header ++ bytes) st =
  Ok {| remaining := bytes; reader_header := header; reader_session := session; reader_counter := 0;
        truncated := false; finished := false; strict := st |}.
Proof.
  intros Hl Hr. unfold open_session_recording.
  rewrite bool_decide_false by (rewrite length_app; lia). rewrite <- Hl.
  by rewrite take_app_length, drop_app_length, Hr.
Qed.
End Replay.

(** ** Starting a recorder *)

Record started (w0 : World) (prefix binding : list Z) (session : SessionId) : Prop := {
  sw_empty : w0.(w_file) = [];
  sw_prefix : length prefix = NONCE_PREFIX_LEN;
  sw_binding : length binding = BINDING_BYTES;
  sw_binding_bytes : Forall is_byte binding;
  sw_session : is_u64 (SessionId_get session);
  sw_mono : forall i j, (i <= j)%nat -> w0.(w_clock) i <= w0.(w_clock) j;
  sw_u64 : forall i, is_u64 (w0.(w_clock) i);
}.

Section Start.
Context `{RC : RecordingCrypto}.

Lemma start_Good limits session dir key prefix binding timed w0 s0 :
  started w0 prefix binding session ->
  start limits session dir (Ok key) (Some (binding, prefix)) timed w0 = (Ok tt, Some s0) ->
  Good w0.(w_clock) (new_recorder limits session dir key timed prefix binding).(identity)
    (make_header timed session prefix binding) timed true s0.
Proof.
  intros [E P B BB S Mo U] H. unfold start, start_format in H.
  destruct (w_io w0 _); [|done]. destruct (w_io (io_done w0 []) _); [|done].
  destruct (w_io (io_done (io_done w0 []) []) _); [|done].
  set (r := new_recorder limits session dir key timed prefix binding) in *.
  set (w1 := io_done (io_done (io_done w0 []) []) (header (identity r))) in *.
  assert (T : Tracks w0.(w_clock) (identity r) (make_header timed session prefix binding) timed true
                 MediaTimeline_default {| rec := r; world := w1 |} WalkState_default).
  { split; try done; [|cbn; by destruct timed]. split; try done.
    - cbn. apply U.
    - cbn. by rewrite E.
    - exists [], [], []. cbn. rewrite E. split_and!; [apply sealed_nil|..|constructor|done]; try done. by rewrite (app_nil_r (make_header _ _ _ _)). }
  destruct timed; [|simplify_eq; by eexists].
  destruct (append policy_record _) as [[[]|] s1] eqn:Ha; [|done]. simplify_eq.
  destruct (append_note w0.(w_clock) (identity r) _ true true _
    policy_record TimingPolicy _ _ _ eq_refl T Ha) as (A & _ & w' & T' & _).
  { apply (admit_kind _ true); [|done|done|done]. apply make_header_timed. }
  exists w'. by rewrite A.
Qed.
End Start.

(** The strict reader refuses more than the plain one. *)
Lemma admit_record_lax header record chunk :
  admit_record header true record = Ok chunk -> admit_record header false record = Ok chunk.
Proof.
  unfold admit_record. destruct record; [discriminate|].
  match goal with |- context [if ?b then _ else _] => destruct b end; [discriminate|].
  match goal with |- context [if ?b then _ else _] => destruct b end; [discriminate|]. exact (fun H => H).
Qed.

(** ** Claims *)

Section Claims.
Context `{RC : RecordingCrypto} `{RCL : !RecordingCryptoLaws RC}.

(** The live finalize of a recorder that is where the walk is: its summary is
    made from its own media, its capability from the file. *)
Lemma finalize_with_capability_tracks x clk idn hdr timed s s' sm cap :
  (forall i j, (i <= j)%nat -> clk i <= clk j) -> (forall i, is_u64 (clk i)) ->
  header_is_timed hdr = timed -> Good clk idn hdr timed x s ->
  finalize_with_capability s = (Ok (sm, cap), s') ->
  exists w', w'.(walk_ended) = true /\ Log clk idn hdr timed s' w' /\
    follows x s'.(rec).(media) w'.(walk_timeline) /\
    zlen s'.(world).(w_file) <= MAX_FINALIZED_RECORDING_BYTES /\
    sm = make_summary s'.(rec) (lowercase_hex (sha256 s'.(world).(w_file))) /\
    authorize (summary_capability idn.(session_id) sm) = Ok cap.
Proof.
  intros Mo U Ht [w T] H. unfold finalize_with_capability in H.
  apply bind_Ok in H as (r & s1 & H1 & H). unfold gets in H1. injection H1 as <- <-.
  destruct (_ || _); [done|]. apply bind_Ok in H as ([] & s2 & H2 & H).
  unfold open_recovery_source in H2. apply bind_Ok in H2 as ([] & s3 & H3 & H2).
  apply write_nothing in H3 as [Hq _]. unfold admitted_recovery_extent in H2.
  destruct (_ <? _); [done|]. injection H2 as <-.
  apply bind_Ok in H as (sm' & s4 & H4 & H). apply bind_Ok in H as (r & s5 & H5 & H).
  unfold gets in H5. injection H5 as <- <-. destruct (negb _); [done|].
  apply bind_Ok in H as (cap' & s6 & H6 & H). unfold lift in H6. injection H6 as H6 <-.
  unfold ret in H. injection H as <- <- <-.
  assert (T3 : Tracks clk idn hdr timed x s3.(rec).(media) s3 w)
    by (rewrite (qs_media _ _ Hq); by eapply Tracks_quiet).
  destruct (finalize_using_tracks _ _ _ _ Mo U Ht _ _ _ _ _ T3 H4) as (w' & A & B & C & D & E).
  exists w'. split_and!; try done. by rewrite <- (log_identity _ _ _ _ _ _ B).
Qed.

(** Two summaries of the same file under the same key. *)
Definition same_recording (a b : RecordingSummary) : Prop :=
  a.(summary_handle) = b.(summary_handle) /\ a.(encrypted_path) = b.(encrypted_path) /\
  a.(summary_sha256) = b.(summary_sha256) /\ a.(summary_key_id) = b.(summary_key_id).

Lemma same_capability session a b : same_recording a b -> summary_capability session a = summary_capability session b.
Proof. unfold summary_capability. by intros (-> & _ & -> & ->). Qed.

(** The file of a finalized recorder: the strict reader opens it under its own
    identity and walks it to the end, to the recorder's timeline. *)
Lemma finalized_file_walks x limits session dir key prefix binding tm w0 s1 sm cap s2 :
  started w0 prefix binding session ->
  Good w0.(w_clock) (new_recorder limits session dir key tm prefix binding).(identity)
    (make_header tm session prefix binding) tm x s1 ->
  finalize_with_capability s1 = (Ok (sm, cap), s2) ->
  let file := s2.(world).(w_file) in
  exists bytes c' t,
    let c := {| remaining := bytes; reader_header := make_header tm session prefix binding;
                reader_session := session; reader_counter := 0; truncated := false; finished := false;
                strict := true |} in
    let sm' := timeline_summary t dir (lowercase_hex binding) (lowercase_hex (sha256 file)) key in
    file = c.(reader_header) ++ bytes /\ zlen file <= MAX_FINALIZED_RECORDING_BYTES /\
    open_session_recording file true = Ok c /\
    walk_completed_chunks (fun _ => false) c =
      Val (Ok ({| completed_ended := true; completed_incomplete := false; completed_timeline := t |}, c')) /\
    c'.(truncated) = false /\ c'.(reader_session) = session /\
    same_recording sm sm' /\ (x = true -> sm = sm') /\
    authorize (summary_capability session sm') = Ok cap.
Proof using RC RCL.
  intros Hst Hg Hfin file. destruct Hst as [E P B BB S Mo U]. pose proof (make_header_timed tm session prefix binding) as Hht.
  destruct (finalize_with_capability_tracks _ _ _ _ _ _ _ _ _ Mo U Hht Hg Hfin)
    as (w & Hend & HL & Hmed & Hsize & Hsm & Hcap).
  pose proof (log_identity _ _ _ _ _ _ HL) as Hid. destruct (log_chunks _ _ _ _ _ _ HL)
    as (records & bytes & chunks & C1 & C2 & C3 & C4 & C5 & C6).
  pose proof (make_header_length tm session prefix binding P B) as Hhl.
  destruct (walk_loop_sealed _ true _ _ _ C1
    {| remaining := bytes; reader_header := make_header tm session prefix binding;
       reader_session := session; reader_counter := 0; truncated := false; finished := false; strict := true |}
    chunks WalkState_default w 0 (Datatypes.S (length bytes))) as (c' & Hwalk & Htr & Hse); try done.
  { by rewrite Hht. }
  { lia. }
  assert (Hsame : same_recording sm (timeline_summary w.(walk_timeline) dir (lowercase_hex binding)
    (lowercase_hex (sha256 file)) key)) by (rewrite Hsm; unfold same_recording; cbn; by rewrite Hid).
  exists bytes, c', w.(walk_timeline). split_and!; try done; try apply Hsame.
  - unfold file. rewrite C2. by apply open_header; [|apply make_header_read].
  - unfold walk_completed_chunks. cbn [remaining]. by rewrite Hwalk, Hend.
  - intros ->. cbn in Hmed. rewrite Hsm. unfold make_summary, timeline_summary, reported_gaps, media_duration_ms. by rewrite Hid, Hmed.
  - rewrite <- (same_capability _ _ _ Hsame). exact Hcap.
Qed.

(** The adoption of that file. *)
Lemma finalized_file_adopted x limits session dir key prefix binding tm w0 s1 sm cap s2 :
  started w0 prefix binding session ->
  Good w0.(w_clock) (new_recorder limits session dir key tm prefix binding).(identity)
    (make_header tm session prefix binding) tm x s1 ->
  finalize_with_capability s1 = (Ok (sm, cap), s2) ->
  exists sm', adopt_closed_recording (Some s2.(world).(w_file)) dir (Ok key) session (lowercase_hex binding) false
      = Val (Ok (sm', cap)) /\ same_recording sm sm' /\ (x = true -> sm = sm').
Proof using RC RCL.
  intros Hst Hg Hfin.
  destruct (finalized_file_walks _ _ _ _ _ _ _ _ _ _ _ _ _ Hst Hg Hfin)
    as (bytes & c' & t & Hfile & Hsize & Hopen & Hwalk & Htr & Hse & Hsame & Hsm & Hcap).
  eexists. split; [|by split]. pose proof (sw_binding _ _ _ _ Hst) as B.
  unfold adopt_closed_recording, decode_handle. rewrite <- B, decode_hex_lowercase_hex by apply Hst.
  rewrite (proj2 (Z.ltb_ge _ _)) by done. rewrite Hopen. cbn [reader_header reader_session].
  rewrite make_header_binding by apply Hst. rewrite !bool_decide_true by done. cbn [negb orb]. rewrite Hwalk.
  cbn [exec_bind completed_incomplete completed_ended completed_timeline]. rewrite Htr, Hse.
  cbn [negb]. by rewrite Hcap.
Qed.

(** C25. A recording survives a crash at any byte. If the bytes that reached
    the disk are the header and any prefix of what a recorder appended in a run
    of successful calls, the reader returns exactly the chunks that are whole
    within them, in order, and reports truncation precisely when the cut falls
    inside a chunk. *)
Theorem crash_leaves_whole_chunks
    limits session dir key prefix binding timed w0 s0 ops s1 bytes cut :
  started w0 prefix binding session ->
  start limits session dir (Ok key) (Some (binding, prefix)) timed w0 = (Ok tt, Some s0) ->
  Forall op_ok ops -> run_ops ops s0 = (Ok tt, s1) ->
  let header := make_header timed session prefix binding in
  s1.(world).(w_file) = header ++ bytes -> cut `prefix_of` bytes ->
  exists records chunks k pre,
    sealed header 0 records bytes /\
    Forall2 (fun r ch => decode_chunk r = Ok ch) records chunks /\
    whole_within header 0 records cut k pre /\
    read_session_recording (header ++ cut) =
      Val (Ok {| recorded_session_id := session; chunks := take k chunks;
                 session_truncated := negb (bool_decide (cut = pre)) |}).
Proof using RC RCL.
  intros Hst Hstart Hops Hrun header Hfile Hcut.
  pose proof (start_Good _ _ _ _ _ _ _ _ _ Hst Hstart) as Hg.
  destruct Hst as [E P B BB S Mo U]. pose proof (make_header_timed timed session prefix binding) as Hht.
  destruct (run_ops_Good _ _ _ _ Mo U Hht _ _ _ Hops (Good_complete _ _ _ _ _ _ Hg) Hg Hrun) as [w Tw].
  destruct (log_chunks _ _ _ _ _ _ (tr_log _ _ _ _ _ _ _ _ Tw))
    as (records & bytes' & chunks & C1 & C2 & C3 & C4 & C5 & C6).
  rewrite C2 in Hfile. apply app_inv_head in Hfile as ->.
  assert (C5' : Forall2 (fun r ch => admit_record header false r = Ok ch) records chunks).
  { eapply Forall2_impl; [exact C5|]. intros r ch. apply admit_record_lax. }
  edestruct (read_loop_cut header false 0 records bytes C1
    {| remaining := cut; reader_header := header; reader_session := session; reader_counter := 0;
       truncated := false; finished := false; strict := false |} chunks cut [] (Datatypes.S (length (header ++ cut))))
    as (k & pre & c' & Hrd & Hw & Htr & Hse); try done.
  { rewrite length_app. lia. }
  exists records, chunks, k, pre. split_and!; [done| |done|].
  - eapply Forall2_impl; [exact C5|]. intros r ch. apply admit_record_decode.
  - unfold read_session_recording.
    rewrite (open_header _ _ false session) by (by apply make_header_length || by apply make_header_read).
    rewrite Hrd. cbn. by rewrite Htr, Hse.
Qed.
End Claims.

(** ** An instance

    A cipher that appends a constant tag, and constant digests: enough to show
    that the laws and the hypotheses of the claims can hold. *)

Definition tag_crypto : RecordingCrypto :=
  {| seal := fun _ _ plaintext => Some (plaintext ++ replicate 16 7);
     open := fun _ _ ciphertext => Some (take (length ciphertext - 16) ciphertext);
     sha256 := fun _ => replicate 32 1;
     hmac_sign := fun _ => replicate 32 2 |}.

Lemma tag_crypto_laws : RecordingCryptoLaws tag_crypto.
Proof.
  split; cbn.
  - intros _ _ p c [= <-]. rewrite length_app. cbn [length replicate].
    replace (length p + 16 - 16)%nat with (length p) by lia. by rewrite take_app_length.
  - intros _. split; [by apply bytes_ok_sound|done].
  - intros _. split; [by apply bytes_ok_sound|done].
Qed.

Definition sample_world (answers : nat -> io) : World :=
  {| w_clock := fun n => Z.min 60000 (20 * Z.of_nat n + 5); w_io := answers; w_free := fun _ => None;
     w_clock_reads := 0; w_ios := 0; w_free_reads := 0; w_file := []; w_nonces := [] |}.

Definition sample_ops : list op := [Op_gap; Op_frame silent_frame; Op_gap; Op_frame silent_frame; Op_take_notices].

Lemma sample_started answers :
  started (sample_world answers) (replicate 8 3) (replicate 16 4) (SessionId_new 9).
Proof.
  split; try done; cbn.
  - by apply bytes_ok_sound.
  - intros i j H. lia.
  - intros i. ints.
Qed.

Lemma silent_frame_ok : op_ok (Op_frame silent_frame).
Proof. repeat split; vm_compute; done. Qed.

Lemma sample_ops_ok : Forall op_ok sample_ops.
Proof. repeat constructor; try apply silent_frame_ok. Qed.

(** A run of the sample operations, legacy or timed. *)
Definition sample_start (timed : bool) (answers : nat -> io) : rresult unit * option St :=
  @start tag_crypto RecordingLimits_default (SessionId_new 9) (lit "/recordings")
    (Ok (lit "0123456789abcdef")) (Some (replicate 16 4, replicate 8 3)) timed (sample_world answers).

Lemma sample_run : exists s0 s1 sm cap s2,
  sample_start false (fun _ => Io_ok) = (Ok tt, Some s0) /\
  @run_ops tag_crypto sample_ops s0 = (Ok tt, s1) /\
  @finalize_with_capability tag_crypto s1 = (Ok (sm, cap), s2) /\
  sm.(duration_ms) = 10020 /\ length sm.(summary_gaps) = 2%nat.
Proof.
  do 5 eexists. split; [vm_compute; reflexivity|]. split; [vm_compute; reflexivity|].
  split; [vm_compute; reflexivity|]. split; reflexivity.
Qed.

(** The file of the sample run, cut after 60 bytes: inside its first chunk. *)
Lemma crash_leaves_whole_chunks_witness : exists s1 bytes,
  s1.(world).(w_file) = make_header false (SessionId_new 9) (replicate 8 3) (replicate 16 4) ++ bytes /\
  exists records chunks k pre,
    @whole_within tag_crypto (make_header false (SessionId_new 9) (replicate 8 3) (replicate 16 4)) 0
      records (take 12 bytes) k pre /\
    @read_session_recording tag_crypto
      (make_header false (SessionId_new 9) (replicate 8 3) (replicate 16 4) ++ take 12 bytes) =
    Val (Ok {| recorded_session_id := SessionId_new 9; Reader.chunks := take k chunks;
               session_truncated := negb (bool_decide (take 12 bytes = pre)) |}).
Proof.
  destruct sample_run as (s0 & s1 & sm & cap & s2 & H0 & H1 & H2 & H3 & H4).
  assert (E : exists bytes, s1.(world).(w_file)
    = make_header false (SessionId_new 9) (replicate 8 3) (replicate 16 4) ++ bytes).
  { pose proof (@start_Good tag_crypto _ _ _ _ _ _ _ _ _ (sample_started _) H0) as Hg.
    destruct (@run_ops_Good tag_crypto _ _ _ _ (sw_mono _ _ _ _ (sample_started _)) (sw_u64 _ _ _ _ (sample_started _))
      (make_header_timed _ _ _ _) _ _ _ sample_ops_ok (Good_complete _ _ _ _ _ _ Hg) Hg H1) as [w' Tw].
    destruct (log_chunks _ _ _ _ _ _ (tr_log _ _ _ _ _ _ _ _ Tw)) as (r & b & c & _ & C2 & _). by exists b. }
  destruct E as [bytes E]. exists s1, bytes. split; [exact E|].
  destruct (@crash_leaves_whole_chunks tag_crypto tag_crypto_laws RecordingLimits_default
    (SessionId_new 9) (lit "/recordings") (lit "0123456789abcdef") (replicate 8 3) (replicate 16 4) false
    (sample_world (fun _ => Io_ok)) s0 sample_ops s1 bytes (take 12 bytes) (sample_started _) H0 sample_ops_ok H1 E)
    as (records & chunks & k & pre & _ & _ & Hw & Hr); [apply prefix_take|].
  exists records, chunks, k, pre. split; [exact Hw|exact Hr].
Defined.
