(* ===== verification/RecorderInvariants.v ===== *)
(** * Invariants of the recorder under failures

    Theorems on arbitrary sequences of calls to the recorder of [Recorder],
    whatever the file system answers and whether each call succeeds: no nonce
    is used twice, a damaged file is never authorized for recovery, and the
    adoption of a closed file agrees with the live finalize. The one thing the
    file does not tell is the format of a frame that was refused before any
    frame was recorded, which [record_frame] keeps all the same. *)

From S2P Require Import Prelude RustStr Errors Bytes Pcm CaptureTiming Audio RecordingSafety Chunks Recorder Reader Recording.

(** ** Preserved predicates *)

(** A method preserves a predicate of the state, also when it fails. *)
Definition keeps {A} (I : St -> Prop) (m : M A) : Prop := forall s, I s -> I (m s).2.

Create HintDb keeps.

Section Keeps.
Context (I : St -> Prop).

Lemma keeps_ret {A} (a : A) : keeps I (ret a).
Proof. by intros s. Qed.

Lemma keeps_fail {A} (e : RuntimeError) : keeps I (@fail A e).
Proof. by intros s. Qed.

Lemma keeps_lift {A} (r : rresult A) : keeps I (lift r).
Proof. by intros s. Qed.

Lemma keeps_gets {A} (f : SessionRecorder -> A) : keeps I (gets f).
Proof. by intros s. Qed.

Lemma keeps_bind {A B} (m : M A) (f : A -> M B) :
  keeps I m -> (forall a, keeps I (f a)) -> keeps I (bind m f).
Proof.
  intros Hm Hf s Hs. unfold bind. specialize (Hm s Hs). destruct (m s) as [[a|e] s']; cbn in *; [|done].
  by apply Hf.
Qed.

Lemma keeps_modify (f : SessionRecorder -> SessionRecorder) :
  (forall s, I s -> I {| rec := f s.(rec); world := s.(world) |}) -> keeps I (modify f).
Proof. intros H s Hs. by apply H. Qed.

Lemma keeps_if {A} (b : bool) (m n : M A) : keeps I m -> keeps I n -> keeps I (if b then m else n).
Proof. by destruct b. Qed.
End Keeps.

#[export] Hint Resolve keeps_ret keeps_fail keeps_lift keeps_gets keeps_bind keeps_if : keeps.

(** ** Calls *)

Inductive call : Type :=
| Call_op (o : op)
| Call_mark_incomplete
| Call_finalize
| Call_finalize_with_capability.

Section Calls.
Context `{RC : RecordingCrypto}.

Definition do_call (c : call) : M unit :=
  match c with
  | Call_op o => do_op o
  | Call_mark_incomplete => modify mark_incomplete
  | Call_finalize => finalize ;;; ret tt
  | Call_finalize_with_capability => finalize_with_capability ;;; ret tt
  end.

(** The state after a sequence of calls, each of which may have failed. *)
Definition run_calls (s : St) (cs : list call) : St := fold_left (fun s c => (do_call c s).2) cs s.

(** A predicate every primitive step preserves. *)
Record preserved (I : St -> Prop) : Prop := {
  pr_append : forall record, keeps I (append record);
  pr_elapsed : keeps I elapsed_ms;
  pr_nothing : forall e, keeps I (write_file [] e);
  pr_free : forall r w, I {| rec := r; world := w |} -> I {| rec := r; world := free_read w |};
  pr_media : forall r w m, I {| rec := r; world := w |} -> I {| rec := set_media r m; world := w |};
  pr_ended : forall r w, I {| rec := r; world := w |} ->
    I {| rec := set_status r (mark_ended r.(status)); world := w |};
  pr_failure : forall r w, I {| rec := r; world := w |} ->
    I {| rec := set_status r (mark_failure_recorded r.(status)); world := w |};
  pr_failed : forall r w, I {| rec := r; world := w |} ->
    I {| rec := set_status r (mark_failed r.(status)); world := w |};
  pr_summary : forall r w sm, I {| rec := r; world := w |} ->
    I {| rec := set_status r (set_summary r.(status) sm); world := w |};
  pr_budget : forall r w b, I {| rec := r; world := w |} -> I {| rec := set_budget r b; world := w |};
  pr_safety : forall r w g, I {| rec := r; world := w |} -> I {| rec := set_safety r g; world := w |};
  pr_notices : forall r w n, I {| rec := r; world := w |} -> I {| rec := set_notices r n; world := w |};
  pr_closed : forall r w, I {| rec := r; world := w |} ->
    I {| rec := set_sink r (set_file_open r.(sink) false); world := w |};
  pr_boundary : forall b, keeps I (confirm_capture_boundary b);
}.

Context (I : St -> Prop) (P : preserved I).

Lemma keeps_modify_rec (f : SessionRecorder -> SessionRecorder) :
  (forall r w, I {| rec := r; world := w |} -> I {| rec := f r; world := w |}) -> keeps I (modify f).
Proof. intros H. apply keeps_modify. intros [r w]. apply H. Qed.

Ltac keep := repeat first
  [ apply (pr_append _ P) | apply (pr_elapsed _ P) | apply (pr_nothing _ P)
  | lazymatch goal with |- keeps _ (bind _ _) => apply keeps_bind; [|intros ?] end
  | apply keeps_ret | apply keeps_fail | apply keeps_lift | apply keeps_gets | apply keeps_if
  | apply keeps_modify_rec; intros ? ?; (apply (pr_media _ P) || apply (pr_ended _ P) || apply (pr_failure _ P)
      || apply (pr_summary _ P) || apply (pr_budget _ P) || apply (pr_notices _ P) || apply (pr_closed _ P))
  | match goal with |- keeps _ (match ?x with _ => _ end) => destruct x end ].

Lemma keeps_enforce f : keeps I (enforce_limits f).
Proof using P.
  unfold enforce_limits. apply keeps_bind; [|intros n; keep].
  destruct f as [f|]; [|keep]. intros [r w] Hs. unfold observe_frame. cbn [rec world].
  destruct (observe _ _ _) as [g n]. cbn. destruct (disk_due _ _); [apply (pr_free _ P)|]; by apply (pr_safety _ P).
Qed.

Lemma keeps_admit_timing n : keeps I (admit_timing n).
Proof using P. unfold admit_timing. keep. Qed.

Lemma keeps_timed_frame f at_ms : keeps I (record_timed_frame f at_ms).
Proof using P. unfold record_timed_frame. keep. all: try apply keeps_admit_timing. all: keep. Qed.

Lemma keeps_close_gap b at_ms o : keeps I (close_gap b at_ms o).
Proof using P. unfold close_gap. keep. Qed.

Lemma keeps_record_frame f : keeps I (record_frame f).
Proof using P.
  unfold record_frame. keep. all: try (apply keeps_close_gap || apply keeps_timed_frame || apply keeps_enforce).
Qed.

Lemma keeps_record_gap : keeps I record_capture_gap.
Proof using P. unfold record_capture_gap. keep. apply keeps_enforce. Qed.

Lemma keeps_metadata m : keeps I (record_capture_metadata m).
Proof using P.
  unfold record_capture_metadata. keep. all: try (apply keeps_admit_timing || apply keeps_enforce).
Qed.

Lemma keeps_do_op o : keeps I (do_op o).
Proof using P.
  destruct o; cbn [do_op]; [apply keeps_record_frame|apply keeps_record_gap|apply keeps_metadata|
    apply (pr_boundary _ P)|unfold take_limit_notices; keep].
Qed.

Lemma keeps_finalize_using b : keeps I (finalize_using b).
Proof using P.
  unfold finalize_using, close_file, digest_file. keep. all: by intros s.
Qed.

Lemma keeps_do_call c : keeps I (do_call c).
Proof using P.
  destruct c as [o| | |]; cbn [do_call].
  - apply keeps_do_op.
  - apply keeps_modify_rec. intros r w H. unfold mark_incomplete. destruct (recording_failed _); [done|].
    by apply (pr_failed _ P (set_media r _)), (pr_media _ P).
  - unfold finalize. apply keeps_bind; [apply keeps_finalize_using|keep].
  - unfold finalize_with_capability, open_recovery_source. keep. all: try apply keeps_finalize_using.
    all: by intros s.
Qed.

Lemma run_calls_keeps s cs : I s -> I (run_calls s cs).
Proof using P.
  unfold run_calls. revert s. induction cs as [|c cs IH]; intros s Hs; cbn; [done|].
  apply IH. by apply keeps_do_call.
Qed.
End Calls.

Section Append.
Context `{RC : RecordingCrypto}.

(** ** Nonces *)

(** The nonces used so far are those of the counters below the current one. *)
Record nonces_fresh (hdr : list Z) (s : St) : Prop := {
  nf_header : s.(rec).(identity).(header) = hdr;
  nf_counter : 0 <= s.(rec).(sink).(counter) <= u32_max;
  nf_nonces : s.(world).(w_nonces) = map (nonce hdr) (seqZ 0 s.(rec).(sink).(counter));
}.

Lemma nonce_inj hdr a b :
  0 <= a <= u32_max -> 0 <= b <= u32_max -> nonce hdr a = nonce hdr b -> a = b.
Proof.
  intros Ha Hb E. unfold nonce in E. apply app_inv_head in E.
  apply (f_equal be_value) in E. rewrite !be_value_bytes in E by ints. done.
Qed.

Lemma nonces_snoc hdr n : 0 <= n ->
  map (nonce hdr) (seqZ 0 (n + 1)) = map (nonce hdr) (seqZ 0 n) ++ [nonce hdr n].
Proof. intros Hn. rewrite seqZ_app by lia. rewrite map_app. done. Qed.

Lemma append_nonces hdr record : keeps (nonces_fresh hdr) (append record).
Proof.
  intros s [H1 H2 H3]. destruct (append_cases record s) as [|e|e w tail Hc Hn Hf|s' ct tv A]; cbn; try done.
  - split; cbn; [done|lia|]. by rewrite Hn, H1, H3, nonces_snoc by lia.
  - destruct A as [_ _ A3 _ _ _ A7 A8]. split; rewrite ?A7, ?A8; cbn; [done|lia|].
    by rewrite H1, H3, nonces_snoc by lia.
Qed.

Lemma boundary_cases b s :
  (exists w, (confirm_capture_boundary b s).2 = {| rec := set_sink s.(rec) (set_poisoned s.(rec).(sink) true); world := w |} /\
     w.(w_file) = s.(world).(w_file) /\ w.(w_nonces) = s.(world).(w_nonces)) \/
  (exists w, (confirm_capture_boundary b s).2 = {| rec := s.(rec); world := w |} /\
     w.(w_file) = s.(world).(w_file) /\ w.(w_nonces) = s.(world).(w_nonces)).
Proof.
  unfold confirm_capture_boundary, bind, gets, lift, modify, fail, write_file. cbn [rec world].
  destruct (timed_validation (sink (rec s))) as [v|]; cbn [ok_or].
  2: { right. exists s.(world). by destruct s. }
  match goal with |- context [if ?c then _ else _] => destruct c eqn:Ec end.
  { right. exists s.(world). by destruct s. }
  cbn [rec world]. destruct (w_io _ _); cbn.
  - right. exists (io_done s.(world) []). split_and!; [|cbn; apply app_nil_r|done].
    assert (Hp : capability_poisoned (sink (rec s)) = false) by (repeat (apply orb_false_elim in Ec as [Ec ?]); done).
    destruct s as [[] ?]; cbn in *. destruct sink; cbn in *. by rewrite Hp.
  - left. exists (io_done s.(world) []). rewrite take_nil. split_and!; [done|cbn; by rewrite app_nil_r|done].
Qed.

Lemma nonces_fresh_preserved hdr : preserved (nonces_fresh hdr).
Proof.
  split; try (intros ? ? *; by intros [? ? ?]; split).
  - apply append_nonces.
  - by intros s [? ? ?]; split.
  - intros e s [? ? ?]. unfold write_file. by destruct (w_io _ _); split.
  - intros b s [? ? ?]. by destruct (boundary_cases b s) as [(w & -> & E1 & E2)|(w & -> & E1 & E2)];
      split; cbn; rewrite ?E2.
Qed.

(** ** Damage *)

(** A recording that is not marked incomplete is, on disk, exactly the bytes
    that were sealed whole. *)
Definition whole (s : St) : Prop :=
  is_incomplete s.(rec) = false -> s.(world).(w_file) = s.(rec).(sink).(sealed_bytes).

Definition incomplete (s : St) : Prop := is_incomplete s.(rec) = true.

Lemma set_poisoned_incomplete r : is_incomplete (set_sink r (set_poisoned r.(sink) true)) = true.
Proof. apply orb_true_r. Qed.

Lemma append_whole record : keeps whole (append record).
Proof.
  intros s Hs. destruct (append_cases record s) as [|e|e w tail Hc Hn Hf|s' ct tv A]; cbn; try done.
  - unfold whole. cbn [rec]. by rewrite set_poisoned_incomplete.
  - unfold whole, is_incomplete. cbn. by rewrite orb_true_r.
  - destruct A as [_ _ _ _ _ _ A7 A8]. unfold whole, is_incomplete in *. rewrite A7, A8. cbn.
    intros Hi. by rewrite Hs.
Qed.

Lemma append_incomplete record : keeps incomplete (append record).
Proof.
  intros s Hs. destruct (append_cases record s) as [|e|e w tail Hc Hn Hf|s' ct tv A]; cbn; try done.
  - apply set_poisoned_incomplete.
  - unfold incomplete, is_incomplete. cbn. by rewrite orb_true_r.
  - destruct A as [_ _ _ _ _ _ A7 A8]. unfold incomplete, is_incomplete in *. by rewrite A7.
Qed.

Lemma whole_preserved : preserved whole.
Proof.
  split; try (intros r w ** Hi; unfold whole, is_incomplete in *; cbn in *; by auto).
  - apply append_whole.
  - intros e s Hs Hi. unfold write_file in *. destruct (w_io _ _); cbn in *; rewrite ?take_nil, app_nil_r; by apply Hs.
  - intros b s Hs. destruct (boundary_cases b s) as [(w & -> & E1 & E2)|(w & -> & E1 & E2)]; unfold whole; cbn [rec world].
    + by rewrite set_poisoned_incomplete.
    + by rewrite E1.
Qed.

Lemma incomplete_preserved : preserved incomplete.
Proof.
  split; try (intros r w ** ; unfold incomplete, is_incomplete in *; cbn in *; by auto).
  - apply append_incomplete.
  - intros e s Hs. unfold write_file. by destruct (w_io _ _).
  - intros b s Hs. destruct (boundary_cases b s) as [(w & -> & E1 & E2)|(w & -> & E1 & E2)]; [|done].
    apply set_poisoned_incomplete.
Qed.

Lemma incomplete_refused s : incomplete s -> finalize_with_capability s = (Err recovery_error, s).
Proof.
  unfold incomplete, is_incomplete. intros H. unfold finalize_with_capability, bind, gets. cbn. by rewrite H.
Qed.

Lemma start_initial (I : St -> Prop) limits session dir key prefix binding timed w0 s0 :
  (forall record, keeps I (append record)) ->
  (forall w, w.(w_nonces) = w0.(w_nonces) -> w.(w_file) = w0.(w_file) ++ make_header timed session prefix binding ->
     I {| rec := new_recorder limits session dir key timed prefix binding; world := w |}) ->
  start limits session dir (Ok key) (Some (binding, prefix)) timed w0 = (Ok tt, Some s0) -> I s0.
Proof.
  intros Ha Hi H. unfold start, start_format in H.
  destruct (w_io w0 _); [|done]. destruct (w_io (io_done w0 []) _); [|done].
  destruct (w_io (io_done (io_done w0 []) []) _); [|done].
  set (s := {| rec := _; world := _ |}) in H.
  assert (Hs : I s) by (apply Hi; cbn; by rewrite ?app_nil_r).
  destruct timed; [|by simplify_eq]. specialize (Ha policy_record s Hs).
  destruct (append policy_record s) as [[[]|] s1]; [|done]. by simplify_eq.
Qed.

(** ** Claims *)

(** C35. No nonce is ever used twice under a recording's key: over any sequence
    of calls, in any order, with any of them failing at any point, the nonces
    handed to the cipher are pairwise distinct. *)
Theorem recording_nonces_unique limits session dir key prefix binding timed w0 s0 cs :
  w0.(w_nonces) = [] ->
  start limits session dir (Ok key) (Some (binding, prefix)) timed w0 = (Ok tt, Some s0) ->
  NoDup (run_calls s0 cs).(world).(w_nonces).
Proof.
  intros Hn Hstart. set (hdr := make_header timed session prefix binding).
  assert (H0 : nonces_fresh hdr s0).
  { eapply start_initial; [apply append_nonces| |exact Hstart].
    intros w Hw _. split; [done|cbn; ints|]. cbn [world]. by rewrite Hw, Hn. }
  destruct (run_calls_keeps _ (nonces_fresh_preserved hdr) s0 cs H0) as [H1 H2 H3]. rewrite H3.
  apply NoDup_fmap_2_strong; [|apply NoDup_seqZ].
  intros a b Ha Hb. rewrite elem_of_seqZ in *. apply nonce_inj; lia.
Qed.

(** C28. A damaged recording is never authorized. Over any sequence of calls
    with any failures: while the recorder is not incomplete the file is exactly
    the bytes that were sealed whole, and once it is incomplete (a write failed,
    or it was marked) it stays so through every later call and
    [finalize_with_capability] refuses it without changing anything. *)
Theorem damaged_recording_never_authorized limits session dir key prefix binding timed w0 s0 cs :
  w0.(w_file) = [] ->
  start limits session dir (Ok key) (Some (binding, prefix)) timed w0 = (Ok tt, Some s0) ->
  let s := run_calls s0 cs in
  (is_incomplete s.(rec) = false -> s.(world).(w_file) = s.(rec).(sink).(sealed_bytes)) /\
  (is_incomplete s.(rec) = true -> forall later,
     is_incomplete (run_calls s later).(rec) = true /\
     finalize_with_capability (run_calls s later) = (Err recovery_error, run_calls s later)).
Proof.
  intros Hf Hstart s. assert (H0 : whole s0).
  { eapply start_initial; [apply append_whole| |exact Hstart]. intros w _ Hw _. cbn. by rewrite Hw, Hf. }
  split; [exact (run_calls_keeps _ whole_preserved s0 cs H0)|]. intros Hi later.
  pose proof (run_calls_keeps _ incomplete_preserved s later Hi) as Hi'.
  split; [exact Hi'|]. by apply incomplete_refused.
Qed.
End Append.

(** ** Adoption *)

Section Adoption.
Context `{RC : RecordingCrypto} `{RCL : !RecordingCryptoLaws RC}.

(** The calls while a recording goes on. *)
Definition recording_call (c : call) : Prop :=
  match c with
  | Call_op o => op_ok o
  | Call_mark_incomplete => True
  | Call_finalize | Call_finalize_with_capability => False
  end.

(** Some frame was refused before any frame was recorded. *)
Fixpoint refused_before_any (s : St) (cs : list call) : bool :=
  match cs with
  | [] => false
  | c :: cs =>
      match c with Call_op o => refused_first o s | _ => false end || refused_before_any (do_call c s).2 cs
  end.

Lemma do_call_Kept clk idn hdr timed x c s :
  (forall i j, (i <= j)%nat -> clk i <= clk j) -> (forall i, is_u64 (clk i)) -> header_is_timed hdr = timed ->
  recording_call c -> Kept clk idn hdr timed x s ->
  (match c with Call_op o => refused_first o s | _ => false end = true -> x = false) ->
  Kept clk idn hdr timed x (do_call c s).2.
Proof.
  intros Mo U Ht Hc [I|[w T]] Hx; [left; by apply (keeps_do_call _ incomplete_preserved)|].
  destruct c as [o| | |]; cbn [recording_call] in Hc; [by eapply do_op_kept| |done..].
  left. cbn. unfold mark_incomplete, is_incomplete. by destruct (recording_failed (status (rec s))) eqn:E; cbn; rewrite ?E.
Qed.

Lemma run_calls_Kept clk idn hdr timed x cs s :
  (forall i j, (i <= j)%nat -> clk i <= clk j) -> (forall i, is_u64 (clk i)) -> header_is_timed hdr = timed ->
  Forall recording_call cs -> Kept clk idn hdr timed x s ->
  (refused_before_any s cs = true -> x = false) -> Kept clk idn hdr timed x (run_calls s cs).
Proof.
  intros Mo U Ht Hcs. unfold run_calls. revert s. induction Hcs as [|c cs Hc Hcs IH]; intros s K Hx; cbn; [done|].
  apply IH; [apply do_call_Kept; try done; intros E; apply Hx; cbn; by rewrite E|].
  intros E. apply Hx. cbn. by rewrite E, orb_true_r.
Qed.

(** A recorder that may be finalized is where the walk of its file is. *)
Lemma recorded_Good limits session dir key prefix binding timed w0 s0 cs r s2 x :
  started w0 prefix binding session ->
  start limits session dir (Ok key) (Some (binding, prefix)) timed w0 = (Ok tt, Some s0) ->
  Forall recording_call cs -> (refused_before_any s0 cs = true -> x = false) ->
  finalize_with_capability (run_calls s0 cs) = (Ok r, s2) ->
  Good w0.(w_clock) (new_recorder limits session dir key timed prefix binding).(identity)
    (make_header timed session prefix binding) timed x (run_calls s0 cs).
Proof.
  intros Hst Hstart Hcs Hx Hfin. pose proof (start_Good _ _ _ _ _ _ _ _ _ Hst Hstart) as Hg.
  destruct Hst as [E P B BB S Mo U].
  destruct (run_calls_Kept w0.(w_clock) (new_recorder limits session dir key timed prefix binding).(identity)
    (make_header timed session prefix binding) timed x cs s0 Mo U (make_header_timed timed session prefix binding) Hcs)
    as [I|G]; [|exact Hx| |done].
  - destruct x; [by right|apply Kept_weaken; by right].
  - pose proof (incomplete_refused _ I) as R. congruence.
Qed.

(** C1. Adoption agrees with the live finalize. Whatever frames, gaps, timing
    metadata, capture boundaries and limit stops a recorder went through, and
    whichever of these calls were refused or failed: when
    [finalize_with_capability] returns a summary and a capability, the adoption
    of the closed file under the same key returns the same capability, and a
    summary of the same handle, path, digest and key. Unless a frame was refused
    before any frame was recorded, it is exactly the same summary (duration,
    gaps and format too): the file alone states the recorder's media
    timeline. *)
Theorem adoption_agrees_with_finalize
    limits session dir key prefix binding timed w0 s0 cs sm cap s2 :
  started w0 prefix binding session ->
  start limits session dir (Ok key) (Some (binding, prefix)) timed w0 = (Ok tt, Some s0) ->
  Forall recording_call cs ->
  finalize_with_capability (run_calls s0 cs) = (Ok (sm, cap), s2) ->
  exists sm',
    adopt_closed_recording (Some s2.(world).(w_file)) dir (Ok key) session (lowercase_hex binding) false
      = Val (Ok (sm', cap)) /\
    same_recording sm sm' /\ (refused_before_any s0 cs = false -> sm' = sm).
Proof using RC RCL.
  intros Hst Hstart Hcs Hfin. set (x := negb (refused_before_any s0 cs)).
  assert (refused_before_any s0 cs = true -> x = false) as Hx by (unfold x; by intros ->).
  pose proof (recorded_Good _ _ _ _ _ _ _ _ _ _ _ _ x Hst Hstart Hcs Hx Hfin) as G.
  destruct (finalized_file_adopted _ _ _ _ _ _ _ _ _ _ _ _ _ Hst G Hfin) as (sm' & Ha & Hs & He).
  exists sm'. split; [done|]. split; [done|]. intros R. symmetry. apply He. unfold x. by rewrite R.
Qed.
End Adoption.

(** A run in which one frame is refused, because its format is another. *)
Definition other_frame : AudioFrame :=
  {| frame_turn_id := silent_frame.(frame_turn_id); frame_generation_id := silent_frame.(frame_generation_id);
     frame_utterance_id := silent_frame.(frame_utterance_id); frame_sequence := 0;
     format := {| sample_rate_hz := 16; channels := 1; sample_format := Signed16LittleEndian |};
     frame_bytes := [0; 0]; capture_timing := None |}.

(** A frame of a timed capture. *)
Definition sample_epoch : CaptureEpoch :=
  {| bridge_session_id := lit "bridge"; epoch_clock_domain_id := lit "mach"; epoch_capture_epoch := 1 |}.

Definition sample_frame (seq start ns : Z) : AudioFrame :=
  {| frame_turn_id := silent_frame.(frame_turn_id); frame_generation_id := silent_frame.(frame_generation_id);
     frame_utterance_id := silent_frame.(frame_utterance_id); frame_sequence := seq; format := silent_frame.(format); frame_bytes := silent_frame.(frame_bytes);
     capture_timing := Some {| timed_epoch := sample_epoch;
       timed_frame := {| capture_epoch := 1; sequence := seq; output_start_sample := start; sample_count := 40;
         source_start_numerator := start * 48000; source_end_numerator := (start + 40) * 48000;
         source_denominator := silent_frame.(format).(sample_rate_hz); source_rate_hz := 48000; quality := NominalFrameEndpointInterpolation;
         span := Some {| host_start_ns := ns; host_end_ns := ns + 1500000003; rounding_envelope_ns := 1; capture_uncertainty_ns := None |} |} |} |}.

Definition sample_recording_calls : list call :=
  [Call_op Op_gap; Call_op (Op_frame silent_frame); Call_op (Op_frame other_frame); Call_op Op_gap;
   Call_op (Op_frame silent_frame)].

Lemma sample_recording_calls_ok : Forall recording_call sample_recording_calls.
Proof. repeat constructor; vm_compute; done. Qed.

Lemma sample_recorded : exists s0 sm cap s2,
  sample_start false (fun _ => Io_ok) = (Ok tt, Some s0) /\
  (@do_op tag_crypto (Op_frame other_frame) (@run_calls tag_crypto s0 (take 2 sample_recording_calls))).1
    = Err (adapter_error (lit "recording capture format changed mid-session")) /\
  @finalize_with_capability tag_crypto (@run_calls tag_crypto s0 sample_recording_calls) = (Ok (sm, cap), s2) /\
  @refused_before_any tag_crypto s0 sample_recording_calls = false /\
  sm.(duration_ms) = 10020 /\ length sm.(summary_gaps) = 2%nat.
Proof. do 4 eexists. do 4 (split; [vm_compute; reflexivity|]). split; reflexivity. Qed.

Lemma adoption_agrees_with_finalize_witness : exists file sm cap,
  @adopt_closed_recording tag_crypto (Some file) (lit "/recordings") (Ok (lit "0123456789abcdef")) (SessionId_new 9)
    (lowercase_hex (replicate 16 4)) false = Val (Ok (sm, cap)) /\
  sm.(duration_ms) = 10020 /\ length sm.(summary_gaps) = 2%nat.
Proof.
  destruct sample_recorded as (s0 & sm & cap & s2 & H0 & _ & H2 & H3 & H4 & H5).
  destruct (@adoption_agrees_with_finalize tag_crypto tag_crypto_laws RecordingLimits_default
    (SessionId_new 9) (lit "/recordings") (lit "0123456789abcdef") (replicate 8 3) (replicate 16 4) false
    (sample_world (fun _ => Io_ok)) s0 sample_recording_calls sm cap s2 (sample_started _) H0
    sample_recording_calls_ok H2) as (sm' & Ha & _ & He).
  rewrite (He H3) in Ha. exists s2.(world).(w_file), sm, cap. split; [exact Ha|]. split; [exact H4|exact H5].
Defined.

(** The exception is real. A timed recorder refuses a frame that names an epoch
    not announced yet; the frame is not in the file, and yet the summary of the
    live finalize states its format, which the adopted one does not. *)
Theorem refused_first_frame_changes_summary : exists s0 sm cap s2 sm',
  sample_start true (fun _ => Io_ok) = (Ok tt, Some s0) /\
  (@record_frame tag_crypto (sample_frame 1 0 1200000000) s0).1 = Err recovery_error /\
  @finalize_with_capability tag_crypto
    (@run_calls tag_crypto s0 [Call_op (Op_frame (sample_frame 1 0 1200000000))]) = (Ok (sm, cap), s2) /\
  @adopt_closed_recording tag_crypto (Some s2.(world).(w_file)) (lit "/recordings") (Ok (lit "0123456789abcdef"))
    (SessionId_new 9) (lowercase_hex (replicate 16 4)) false = Val (Ok (sm', cap)) /\
  sm.(summary_format) = lit "pcm_s16le/8/1" /\ sm'.(summary_format) = lit "none".
Proof. do 5 eexists. do 4 (split; [vm_compute; reflexivity|]). split; reflexivity. Qed.

(** A run whose fourth file operation, the first chunk, fails halfway. *)
Definition sample_calls : list call :=
  [Call_op (Op_frame silent_frame); Call_op Op_gap; Call_finalize; Call_finalize_with_capability].

Definition sample_answers (n : nat) : io := if bool_decide (n = 3%nat) then Io_fail 5 else Io_ok.

Lemma sample_damaged : exists s0,
  sample_start false sample_answers = (Ok tt, Some s0) /\
  is_incomplete (@run_calls tag_crypto s0 sample_calls).(rec) = true /\
  length (@run_calls tag_crypto s0 sample_calls).(world).(w_nonces) = 4%nat.
Proof. eexists. split; [vm_compute; reflexivity|]. split; reflexivity. Qed.

Lemma recording_nonces_unique_witness : exists s0,
  sample_start false sample_answers = (Ok tt, Some s0) /\
  NoDup (@run_calls tag_crypto s0 sample_calls).(world).(w_nonces).
Proof.
  destruct sample_damaged as (s0 & H0 & H1 & H2). exists s0. split; [exact H0|].
  exact (@recording_nonces_unique tag_crypto RecordingLimits_default (SessionId_new 9) (lit "/recordings")
    (lit "0123456789abcdef") (replicate 8 3) (replicate 16 4) false (sample_world sample_answers) s0 sample_calls
    eq_refl H0).
Defined.

Lemma damaged_recording_never_authorized_witness : exists s,
  is_incomplete s.(rec) = true /\ @finalize_with_capability tag_crypto s = (Err recovery_error, s).
Proof.
  destruct sample_damaged as (s0 & H0 & H1 & H2). exists (@run_calls tag_crypto s0 sample_calls).
  split; [exact H1|].
  exact (proj2 (proj2 (@damaged_recording_never_authorized tag_crypto RecordingLimits_default (SessionId_new 9)
    (lit "/recordings") (lit "0123456789abcdef") (replicate 8 3) (replicate 16 4) false (sample_world sample_answers)
    s0 sample_calls eq_refl H0) H1 [])).
Defined.
