(* ===== verification/Reconciliation.v ===== *)
(** * Windows of a recording for diarization

    [crates/runtime/src/recording_reconciliation.rs]: a finished recording is
    read once more and its audio handed to the diarizer in bounded windows,
    with the preflight of [crates/runtime/src/session_recording.rs] and the
    window types of [crates/model-adapters/src/diarization.rs].

    The channel to the diarizer is the list of windows it received; [accepts n]
    says whether the diarizer still listens when the [n]-th window is offered.
    A refused window is dropped and the channel does not reopen. *)

From S2P Require Import Prelude RustStr Errors Bytes Pcm CaptureTiming Audio RecordingSafety Chunks Recorder Reader Recording RecorderInvariants.

Definition u128_max : Z := 2 ^ 128 - 1.

(** ** Windows of meeting audio *)

Record MediaSampleOrigin : Type := {
  media_start_sample : Z;
  origin_rate : Z;
  gap_offset_ms : Z;
}.

Definition projection_error : AdapterError :=
  AdapterError_new (lit "meeting sample origin cannot be projected").

Definition project_sample (o : MediaSampleOrigin) (sample : Z) : result Z AdapterError :=
  if u128_max <? sample * 1000 then Err projection_error
  else if o.(origin_rate) =? 0 then Err projection_error
  else
    let millis := sample * 1000 / o.(origin_rate) in
    if u64_max <? millis then Err projection_error
    else ok_or (checked_add millis o.(gap_offset_ms)) projection_error.

Definition MediaSampleOrigin_new (start rate gap_ms : Z) : result MediaSampleOrigin AdapterError :=
  let origin := {| media_start_sample := start; origin_rate := rate; gap_offset_ms := gap_ms |} in
  let? _ := project_sample origin start in
  Ok origin.

Record MeetingAudioWindow : Type := {
  window_format : PcmFormat;
  window_started_at_ms : Z;
  sample_origin : option MediaSampleOrigin;
  window_bytes : list Z;
}.

Definition MeetingAudioWindow_new (f : PcmFormat) (started : Z) (bytes : list Z)
  : result MeetingAudioWindow AdapterError :=
  if is_empty bytes then Err (AdapterError_new (lit "meeting audio window must not be empty"))
  else
    let? alignment := frame_alignment_bytes f in
    if negb (zlen bytes mod alignment =? 0) then
      Err (AdapterError_new (lit "meeting audio window was not sample aligned"))
    else Ok {| window_format := f; window_started_at_ms := started; sample_origin := None;
               window_bytes := bytes |}.

Definition new_with_sample_origin (f : PcmFormat) (origin : MediaSampleOrigin) (bytes : list Z)
  : result MeetingAudioWindow AdapterError :=
  if negb (origin.(origin_rate) =? f.(sample_rate_hz)) then
    Err (AdapterError_new (lit "meeting sample origin rate differs from PCM"))
  else
    let? started := project_sample origin origin.(media_start_sample) in
    let? window := MeetingAudioWindow_new f started bytes in
    let? alignment := frame_alignment_bytes f in
    let count := zlen bytes / alignment in
    let? last := ok_or (checked_add origin.(media_start_sample) count)
                   (AdapterError_new (lit "meeting sample count overflowed")) in
    let? _ := project_sample origin last in
    Ok {| window_format := window.(window_format); window_started_at_ms := window.(window_started_at_ms);
          sample_origin := Some origin; window_bytes := window.(window_bytes) |}.

Definition audio_ms (w : MeetingAudioWindow) : Z :=
  match frame_alignment_bytes w.(window_format) with
  | Err _ => 0
  | Ok alignment =>
      if alignment =? 0 then 0
      else clamp_u64 (zlen w.(window_bytes) / alignment * 1000 / w.(window_format).(sample_rate_hz))
  end.

(** ** The window under construction *)

Definition MAX_RECONCILIATION_WINDOW_BYTES : Z := 1024 * 1024.

Record Windows : Type := {
  timed : bool;
  samples : Z;
  gap_ms : Z;
  win_format : option PcmFormat;
  win_media_ms : Z;
  win_started_at_ms : Z;
  win_bytes : list Z;
  gap_opened_at_ms : option Z;
}.

Definition Windows_new (is_timed : bool) : Windows :=
  {| timed := is_timed; samples := 0; gap_ms := 0; win_format := None; win_media_ms := 0;
     win_started_at_ms := 0; win_bytes := []; gap_opened_at_ms := None |}.

Definition set_format (w : Windows) (f : option PcmFormat) : Windows :=
  {| timed := w.(timed); samples := w.(samples); gap_ms := w.(gap_ms); win_format := f;
     win_media_ms := w.(win_media_ms); win_started_at_ms := w.(win_started_at_ms);
     win_bytes := w.(win_bytes); gap_opened_at_ms := w.(gap_opened_at_ms) |}.

Definition set_bytes (w : Windows) (bytes : list Z) : Windows :=
  {| timed := w.(timed); samples := w.(samples); gap_ms := w.(gap_ms); win_format := w.(win_format);
     win_media_ms := w.(win_media_ms); win_started_at_ms := w.(win_started_at_ms);
     win_bytes := bytes; gap_opened_at_ms := w.(gap_opened_at_ms) |}.

Definition set_started (w : Windows) (started : Z) : Windows :=
  {| timed := w.(timed); samples := w.(samples); gap_ms := w.(gap_ms); win_format := w.(win_format);
     win_media_ms := w.(win_media_ms); win_started_at_ms := started;
     win_bytes := w.(win_bytes); gap_opened_at_ms := w.(gap_opened_at_ms) |}.

Definition set_clock (w : Windows) (count gap media : Z) (opened : option Z) : Windows :=
  {| timed := w.(timed); samples := count; gap_ms := gap; win_format := w.(win_format);
     win_media_ms := media; win_started_at_ms := w.(win_started_at_ms);
     win_bytes := w.(win_bytes); gap_opened_at_ms := opened |}.

Definition adapter_runtime_error (e : AdapterError) : RuntimeError :=
  RuntimeError_new Kind_Adapter (default Stage_AudioCapture e.(adapter_stage)) e.(adapter_message).

Definition or_adapter {A} (r : result A AdapterError) : rresult A :=
  match r with Ok a => Ok a | Err e => Err (adapter_runtime_error e) end.

Definition close_gap (w : Windows) (ended_at_ms : Z) : Windows :=
  match w.(gap_opened_at_ms) with
  | None => w
  | Some opened =>
      if is_some w.(win_format) then
        let len := saturating_sub ended_at_ms opened in
        set_clock w w.(samples) (if w.(timed) then saturating_add w.(gap_ms) len else w.(gap_ms))
          (saturating_add w.(win_media_ms) len) None
      else set_clock w w.(samples) w.(gap_ms) w.(win_media_ms) None
  end.

Section Channel.
Context (accepts : nat -> bool).

(** The window being filled, and what the diarizer has received. *)
Notation St := (Windows * list MeetingAudioWindow)%type.

(** The sample coordinates of the window being filled. *)
Definition window_origin (w : Windows) (f : PcmFormat) : rresult (option MediaSampleOrigin) :=
  if w.(timed) then
    let? alignment := or_adapter (frame_alignment_bytes f) in
    let count := zlen w.(win_bytes) / alignment in
    let? start := ok_or (checked_sub w.(samples) count)
      (adapter_error (lit "recording window sample origin underflowed")) in
    let? origin := or_adapter (MediaSampleOrigin_new start f.(sample_rate_hz) w.(gap_ms)) in
    Ok (Some origin)
  else Ok None.

Definition flush (st : St) : rresult bool * St :=
  let '(w, sent) := st in
  if is_empty w.(win_bytes) then (Ok true, st)
  else match w.(win_format) with
  | None => (Err (adapter_error (lit "recording window has no format")), st)
  | Some f =>
      match window_origin w f with
      | Err e => (Err e, st)
      | Ok origin =>
          let w' := set_bytes w [] in
          let window := match origin with
            | Some origin => new_with_sample_origin f origin w.(win_bytes)
            | None => MeetingAudioWindow_new f w.(win_started_at_ms) w.(win_bytes)
            end in
          match or_adapter window with
          | Err e => (Err e, (w', sent))
          | Ok window =>
              if accepts (length sent) then (Ok true, (w', sent ++ [window])) else (Ok false, (w', sent))
          end
      end
  end.

(** The timeline after a frame of [n] bytes. *)
Definition advance_clock (w : Windows) (f : PcmFormat) (n : Z) : rresult unit * Windows :=
  if w.(timed) then
    match (match frame_alignment_bytes f with
           | Ok alignment => Ok alignment
           | Err _ => Err (adapter_error (lit "recording PCM format is invalid"))
           end) with
    | Err e => (Err e, w)
    | Ok alignment =>
        match checked_add w.(samples) (n / alignment) with
        | None => (Err (adapter_error (lit "recording sample count overflowed")), w)
        | Some total =>
            let w := set_clock w total w.(gap_ms) w.(win_media_ms) w.(gap_opened_at_ms) in
            match exact_media_ms total f.(sample_rate_hz) w.(gap_ms) with
            | Err e => (Err e, w)
            | Ok media => (Ok tt, set_clock w w.(samples) w.(gap_ms) media w.(gap_opened_at_ms))
            end
        end
    end
  else (Ok tt, set_clock w w.(samples) w.(gap_ms)
                 (saturating_add w.(win_media_ms) (pcm_duration_ms f n)) w.(gap_opened_at_ms)).

(** The tail of [accept], once there is room for the frame. *)
Definition fill_window (st : St) (f : PcmFormat) (bytes : list Z) : rresult bool * St :=
  let '(w, sent) := st in
  let w := if is_empty w.(win_bytes) then set_started w w.(win_media_ms) else w in
  match advance_clock w f (zlen bytes) with
  | (Err e, w) => (Err e, (w, sent))
  | (Ok _, w) => (Ok true, (set_bytes w (w.(win_bytes) ++ bytes), sent))
  end.

Definition accept_frame (st : St) (f : PcmFormat) (bytes : list Z) : rresult bool * St :=
  let '(w, sent) := st in
  if is_some_and w.(win_format) (fun existing => negb (bool_decide (existing = f))) then
    (Err (adapter_error (lit "recording capture format changed mid-session")), st)
  else
    let w := set_format w (Some f) in
    if MAX_RECONCILIATION_WINDOW_BYTES <? zlen bytes then
      (Err (adapter_error (lit "recording frame exceeded the window size")), (w, sent))
    else if MAX_RECONCILIATION_WINDOW_BYTES <? zlen w.(win_bytes) + zlen bytes then
      match flush (w, sent) with
      | (Ok true, st) => fill_window st f bytes
      | (Ok false, st) => (Ok false, st)
      | (Err e, st) => (Err e, st)
      end
    else fill_window (w, sent) f bytes.

Definition open_gap_at (st : St) (at_ms : Z) : St :=
  (set_clock st.1 st.1.(samples) st.1.(gap_ms) st.1.(win_media_ms) (Some at_ms), st.2).

Definition deliver_chunk (st : St) (chunk : RecordedChunk) : rresult bool * St :=
  match chunk with
  | TimedFrame _ f _ bytes => accept_frame st f bytes
  | TimingPolicy | ChunkMetadata _ | AlignmentLimit => (Ok true, st)
  | Frame _ _ rate ch sf bytes =>
      match PcmFormat_new rate ch sf with
      | Err _ => (Err (adapter_error (lit "recording frame states an unusable format")), st)
      | Ok f => accept_frame st f bytes
      end
  | GapStarted at_ms _ =>
      match flush st with
      | (Ok delivered, st) => (Ok delivered, open_gap_at st at_ms)
      | (Err e, st) => (Err e, st)
      end
  | GapEnded at_ms => (Ok true, (close_gap st.1 at_ms, st.2))
  | Ended _ => flush st
  end.

Section Reading.
Context `{RecordingCrypto} (cancelled : nat -> bool).

(** The loop of [read_chunk_windows], with the windows the diarizer received;
    every chunk takes at least four bytes, so the length of the file is fuel
    enough. [cancelled n] is the token at the [n]-th check. *)
Fixpoint window_loop (fuel n : nat) (c : RecordedChunks) (st : St)
  : exec (rresult bool * list MeetingAudioWindow) :=
  match fuel with
  | O => Fuel_out
  | S fuel =>
      if cancelled n then Val (Ok c.(truncated), st.2)
      else match next_chunk c with
      | (Err e, _) => Val (Err e, st.2)
      | (Ok None, c) =>
          Val (match flush st with
               | (Ok _, st) => (Ok c.(truncated), st.2)
               | (Err e, st) => (Err e, st.2)
               end)
      | (Ok (Some chunk), c) =>
          match deliver_chunk st chunk with
          | (Err e, st) => Val (Err e, st.2)
          | (Ok false, st) => Val (Ok c.(truncated), st.2)
          | (Ok true, st) => window_loop fuel (S n) c st
          end
      end
  end.

Definition read_chunk_windows (c : RecordedChunks) : exec (rresult bool * list MeetingAudioWindow) :=
  window_loop (S (length c.(remaining))) 0 c (Windows_new (header_is_timed c.(reader_header)), []).

Definition read_windows (file : list Z) (session : SessionId)
  : exec (rresult bool * list MeetingAudioWindow) :=
  match open_session_recording file false with
  | Err e => Val (Err e, [])
  | Ok c =>
      if negb (bool_decide (c.(reader_session) = session)) then
        Val (Err (invalid_state_error (lit "recording was not made by that session")), [])
      else read_chunk_windows c
  end.
End Reading.
End Channel.

(** ** Preflight *)

Section Preflight.
Context `{RecordingCrypto}.

Definition validate_completed_chunks (cancelled : nat -> bool) (c : RecordedChunks) : exec (rresult unit) :=
  let! r := walk_completed_chunks cancelled c in
  Val (let? '(walk, c) := r in
       if walk.(completed_incomplete) || negb walk.(completed_ended) || c.(truncated)
       then Err recovery_error else Ok tt).

(** [file] is the content of the file filed under the capability's handle, when
    there is one; the copy refuses one above the size limit. *)
Definition snapshot_finalized_recording (file : option (list Z)) (key : rresult rstr)
    (capability : FinalizedRecordingCapability) : rresult RecordedChunks :=
  let? key := key in
  let? _ := verify key capability in
  let? binding := ok_or (decode_handle capability.(recording_handle)) recovery_error in
  let? file := ok_or file recovery_error in
  if MAX_FINALIZED_RECORDING_BYTES <? zlen file then Err recovery_error
  else if bool_decide (length file < HEADER_LEN)%nat then Err recovery_error
  else
    let? c := open_session_recording file true in
    if negb (bool_decide (lowercase_hex (sha256 file) = capability.(cap_sha256)))
       || negb (bool_decide (c.(reader_session) = capability.(source_session_id)))
       || negb (bool_decide (slice 28 44 c.(reader_header) = binding))
    then Err recovery_error else Ok c.

(** The reader validated and rewound to its first chunk. The token is checked
    on entry, before every chunk of the walk, and at the end; the checks within
    the two digests are those on entry and at the end. *)
Definition preflight_finalized_recording (file : option (list Z)) (key : rresult rstr)
    (capability : FinalizedRecordingCapability) (on_entry : bool) (cancelled : nat -> bool) (at_end : bool)
  : exec (rresult RecordedChunks) :=
  if on_entry then Val (Err cancelled_error) else
  match snapshot_finalized_recording file key capability with
  | Err e => Val (Err e)
  | Ok c =>
      let! r := validate_completed_chunks cancelled c in
      Val (let? _ := r in if at_end then Err cancelled_error else Ok c)
  end.
End Preflight.

(** ** What a window must be

    The audio of a recording, placed by the replay of the recorder's own media
    timeline: the number of gaps before it, and its position in milliseconds
    and in samples. *)

Record placed : Type := {
  p_span : nat;
  p_at_ms : Z;
  p_sample : Z;
  p_gap_ms : Z;
  p_format : PcmFormat;
  p_bytes : list Z;
}.

Definition frame_of (chunk : RecordedChunk) : option (PcmFormat * list Z) :=
  match chunk with
  | TimedFrame _ f _ bytes => Some (f, bytes)
  | Frame _ _ rate ch sf bytes =>
      match PcmFormat_new rate ch sf with Ok f => Some (f, bytes) | Err _ => None end
  | _ => None
  end.

Definition ok_else {A E} (r : result A E) (a : A) : A := match r with Ok a => a | Err _ => a end.

Definition replay (tm : bool) (t : MediaTimeline) (chunk : RecordedChunk) : MediaTimeline :=
  match chunk with
  | TimedFrame _ f _ bytes => ok_else (tl_timed_frame t f (zlen bytes)) t
  | Frame _ _ rate ch sf bytes => ok_else (result_map (fun f => tl_frame t f (zlen bytes)) (PcmFormat_new rate ch sf)) t
  | GapStarted at_ms _ => tl_gap_started t at_ms
  | GapEnded at_ms => ok_else (tl_gap_ended t at_ms tm) t
  | _ => t
  end.

Definition next_span (span : nat) (chunk : RecordedChunk) : nat :=
  match chunk with GapStarted _ _ => S span | _ => span end.

Definition place_chunk (span : nat) (t : MediaTimeline) (chunk : RecordedChunk) : list placed :=
  match frame_of chunk with
  | Some (f, bytes) =>
      [{| p_span := span; p_at_ms := t.(tl_media_ms); p_sample := t.(tl_timed_samples);
          p_gap_ms := t.(tl_timed_gap_ms); p_format := f; p_bytes := bytes |}]
  | None => []
  end.

Fixpoint place (tm : bool) (span : nat) (t : MediaTimeline) (chunks : list RecordedChunk) : list placed :=
  match chunks with
  | [] => []
  | chunk :: rest => place_chunk span t chunk ++ place tm (next_span span chunk) (replay tm t chunk) rest
  end.

Definition block_bytes (block : list placed) : list Z := concat (map p_bytes block).

(** A window holds a run of consecutive frames between two gaps: their bytes in
    order, whole samples, within the limit, at the place of the first one. *)
Record window_of (tm : bool) (w : MeetingAudioWindow) (block : list placed) : Prop := {
  wo_bytes : w.(window_bytes) = block_bytes block;
  wo_size : 0 < zlen w.(window_bytes) <= MAX_RECONCILIATION_WINDOW_BYTES;
  wo_aligned : zlen w.(window_bytes)
    mod (w.(window_format).(channels) * bytes_per_sample w.(window_format).(sample_format)) = 0;
  wo_start : exists p, head block = Some p /\
    Forall (fun q => q.(p_span) = p.(p_span) /\ q.(p_format) = w.(window_format)) block /\
    w.(window_started_at_ms) = p.(p_at_ms) /\
    w.(sample_origin) = if tm then Some {| media_start_sample := p.(p_sample);
        origin_rate := w.(window_format).(sample_rate_hz); gap_offset_ms := p.(p_gap_ms) |} else None;
}.

(** ** The chunks the reader can return *)

(** What opening a sealed chunk returns: bytes, no more than were sealed. *)
Class RecordingOpenLaws (C : RecordingCrypto) : Prop := {
  open_plaintext : forall nonce aad ciphertext plaintext,
    open nonce aad ciphertext = Some plaintext -> Forall is_byte ciphertext ->
    Forall is_byte plaintext /\ zlen plaintext <= zlen ciphertext;
}.

Definition aligned (f : PcmFormat) (bytes : list Z) : Prop :=
  zlen bytes mod (f.(channels) * bytes_per_sample f.(sample_format)) = 0.

Definition chunk_ok (tm : bool) (chunk : RecordedChunk) : Prop :=
  match chunk with
  | TimedFrame _ f _ bytes =>
      tm = true /\ wf_format f /\ zlen bytes <= MAX_RECONCILIATION_WINDOW_BYTES /\ aligned f bytes
  | Frame _ _ rate ch _ bytes =>
      tm = false /\ is_u32 rate /\ is_u16 ch /\ zlen bytes <= MAX_RECONCILIATION_WINDOW_BYTES
  | _ => True
  end.

Inductive reads `{RecordingCrypto} : RecordedChunks -> list RecordedChunk -> RecordedChunks -> Prop :=
| reads_end c c' : next_chunk c = (Ok None, c') -> reads c [] c'
| reads_more c chunk c1 chunks c' :
    next_chunk c = (Ok (Some chunk), c1) -> reads c1 chunks c' -> reads c (chunk :: chunks) c'.

Lemma zlen_drop n (l : list Z) : zlen (drop n l) <= zlen l.
Proof. unfold zlen. rewrite length_drop. lia. Qed.

Lemma field_u16 from bs :
  Forall is_byte bs -> (from + 2 <= length bs)%nat -> is_u16 (be_value (slice from (from + 2) bs)).
Proof. intros Hb Hl. pose proof (be_value_slice_bounds 2 from bs Hb Hl). change (256 ^ Z.of_nat 2) with 65536 in *. ints. Qed.

Lemma field_u32 from bs :
  Forall is_byte bs -> (from + 4 <= length bs)%nat -> is_u32 (be_value (slice from (from + 4) bs)).
Proof. intros Hb Hl. pose proof (be_value_slice_bounds 4 from bs Hb Hl). change (256 ^ Z.of_nat 4) with 4294967296 in *. ints. Qed.

Lemma decode_timed_frame_ok body chunk :
  Forall is_byte body -> decode_timed_frame body = Ok chunk -> chunk_ok true chunk.
Proof.
  intros Hb H. unfold decode_timed_frame in H. destruct (bool_decide _) eqn:HL; [done|]. breflect.
  apply result_bind_Ok in H as (sf & _ & H). apply result_bind_Ok in H as (f & Hf & H).
  apply result_bind_Ok in H as ([t o] & _ & H). apply result_bind_Ok in H as (al & Ha & H).
  destruct (_ || _ || _) eqn:G; [done|]. breflect. apply result_bind_Ok in H as (u & _ & <-%Ok_inj).
  destruct (PcmFormat_new _ _ _) eqn:Hn; [|done]. cbn in Hf. simplify_eq.
  apply PcmFormat_new_wf in Hn as [Hw _]; [|apply (field_u32 9); lia || done|apply (field_u16 13); lia || done].
  destruct (frame_alignment_bytes_Ok f Hw) as [E _]. rewrite E in Ha. cbn in Ha. simplify_eq.
  cbn. split_and!; try done. unfold MAX_RECONCILIATION_WINDOW_BYTES, MAX_PCM_FRAME_BYTES in *. lia.
Qed.

Lemma decode_frame_ok body chunk :
  Forall is_byte body -> zlen body <= MAX_CHUNK_CIPHERTEXT_BYTES ->
  decode_frame body = Ok chunk -> chunk_ok false chunk.
Proof.
  intros Hb Hl H. unfold decode_frame in H. destruct (bool_decide _) eqn:HL; [done|]. breflect.
  apply result_bind_Ok in H as (sf & _ & <-%Ok_inj). cbn.
  split; [done|]. split; [apply (field_u32 16); lia || done|]. split; [apply (field_u16 20); lia || done|].
  pose proof (zlen_drop 23 body). unfold MAX_RECONCILIATION_WINDOW_BYTES, MAX_CHUNK_CIPHERTEXT_BYTES in *. lia.
Qed.

Lemma decode_chunk_ok header st record chunk :
  Forall is_byte record -> zlen record <= MAX_CHUNK_CIPHERTEXT_BYTES ->
  admit_record header st record = Ok chunk -> chunk_ok (header_is_timed header) chunk.
Proof.
  intros Hb Hl H. unfold admit_record in H. destruct record as [|kind body]; [done|].
  destruct (_ || _) eqn:K; [done|]. destruct (_ && _ && _); [done|].
  apply Forall_cons in Hb as [_ Hb]. rewrite zlen_cons in Hl. unfold decode_chunk in H.
  destruct (kind =? CHUNK_POLICY) eqn:K1; [by destruct (bool_decide _); simplify_eq|].
  destruct (kind =? CHUNK_TIMED_FRAME) eqn:K2.
  { breflect. subst kind. destruct (header_is_timed header); [|done]. by eapply decode_timed_frame_ok. }
  destruct (kind =? CHUNK_EPOCH). { apply result_bind_Ok in H as (? & _ & <-%Ok_inj). done. }
  destruct (kind =? CHUNK_CLOCK_PAIR). { apply result_bind_Ok in H as (? & _ & <-%Ok_inj). done. }
  destruct (kind =? CHUNK_TIMING_DISCONTINUITY).
  { destruct (bool_decide _); [|done]. destruct (_ =? 0); [done|].
    apply result_bind_Ok in H as (? & _ & <-%Ok_inj). done. }
  destruct (kind =? CHUNK_ALIGNMENT_LIMIT); [by destruct (is_empty _); simplify_eq|].
  destruct (kind =? CHUNK_FRAME) eqn:K3.
  { breflect. subst kind. destruct (header_is_timed header); [done|]. eapply decode_frame_ok; [done|lia|done]. }
  destruct (kind =? CHUNK_GAP_STARTED).
  { unfold decode_gap_started in H. destruct (bool_decide _); [done|].
    apply result_bind_Ok in H as (? & _ & H). by apply result_bind_Ok in H as (? & _ & <-%Ok_inj). }
  destruct ((kind =? CHUNK_GAP_ENDED) || (kind =? CHUNK_ENDED)); [|done]. destruct (negb (bool_decide _)); [done|]. apply Ok_inj in H as <-.
  by destruct (kind =? CHUNK_GAP_ENDED).
Qed.

Section Decoded.
Context `{RC : RecordingCrypto} `{RO : !RecordingOpenLaws RC}.

Lemma next_chunk_ok c chunk c1 :
  Forall is_byte c.(remaining) -> next_chunk c = (Ok (Some chunk), c1) ->
  chunk_ok (header_is_timed c.(reader_header)) chunk /\ Forall is_byte c1.(remaining) /\
  c1.(reader_header) = c.(reader_header) /\ c1.(truncated) = c.(truncated).
Proof using RC RO.
  intros Hb H. unfold next_chunk in H. destruct (finished c); [done|]. cbn [fill] in H.
  destruct (bool_decide _); [done|]. destruct (negb _); [done|].
  destruct (_ <? _) eqn:L; [done|]. destruct (negb _) eqn:B; [done|]. breflect. cbn in H.
  destruct (open _ _ _) as [record|] eqn:O; [|done].
  destruct (admit_record _ _ _) as [ch|] eqn:A; [|done]. destruct (_ <? _); [done|]. simplify_eq.
  cbn in *. apply open_plaintext in O as [O1 O2]; [|by apply Forall_take, Forall_drop].
  split_and!; try done; [|by do 2 apply Forall_drop].
  eapply decode_chunk_ok; [done| |done]. lia.
Qed.
End Decoded.

(** ** The invariant of the window under construction *)

Lemma project_sample_Ok o sample :
  0 <= sample <= u64_max -> 0 < o.(origin_rate) -> 0 <= o.(gap_offset_ms) ->
  sample * 1000 / o.(origin_rate) + o.(gap_offset_ms) <= u64_max ->
  project_sample o sample = Ok (sample * 1000 / o.(origin_rate) + o.(gap_offset_ms)).
Proof.
  intros Hs Hr Hg Hm. unfold project_sample.
  assert (0 <= sample * 1000 / o.(origin_rate)) by (apply Z.div_pos; lia).
  rewrite (proj2 (Z.ltb_ge u128_max _)) by (unfold u128_max, u64_max in *; lia).
  rewrite (proj2 (Z.eqb_neq _ 0)) by lia. rewrite (proj2 (Z.ltb_ge u64_max _)) by lia.
  unfold checked_add. by rewrite (proj2 (Z.leb_le _ u64_max)) by lia.
Qed.

Section Window.
Context (tm : bool).

Definition clock_ok (t : MediaTimeline) : Prop :=
  match t.(tl_format) with
  | None => t.(tl_media_ms) = 0 /\ t.(tl_timed_samples) = 0 /\ t.(tl_timed_gap_ms) = 0
  | Some f =>
      wf_format f /\
      (tm = true -> 0 <= t.(tl_timed_samples) <= u64_max /\ 0 <= t.(tl_timed_gap_ms) <= u64_max /\
         t.(tl_media_ms) = Z.min u64_max (t.(tl_timed_samples) * 1000 / f.(sample_rate_hz) + t.(tl_timed_gap_ms)))
  end.

Definition alignment_of (f : PcmFormat) : Z := f.(channels) * bytes_per_sample f.(sample_format).

(** A non-empty window: its frames lie between two gaps, and it starts at the
    place of the first. *)
Record pending (t : MediaTimeline) (w : Windows) (span : nat) (f : PcmFormat) (p : placed)
    (block : list placed) : Prop := {
  pe_open : t.(tl_open_gap_at_ms) = None;
  pe_format : t.(tl_format) = Some f;
  pe_head : head block = Some p;
  pe_span : Forall (fun q => q.(p_span) = span /\ q.(p_format) = f) block;
  pe_start : p.(p_at_ms) = w.(win_started_at_ms);
  pe_size : 0 < zlen w.(win_bytes) <= MAX_RECONCILIATION_WINDOW_BYTES;
  pe_aligned : zlen w.(win_bytes) mod alignment_of f = 0;
  pe_timed : tm = true ->
    0 <= p.(p_sample) /\ p.(p_sample) = w.(samples) - zlen w.(win_bytes) / alignment_of f /\
    p.(p_gap_ms) = w.(gap_ms) /\
    p.(p_at_ms) = p.(p_sample) * 1000 / f.(sample_rate_hz) + p.(p_gap_ms) /\
    w.(samples) * 1000 / f.(sample_rate_hz) + w.(gap_ms) <= u64_max;
}.

Record Inv (t : MediaTimeline) (w : Windows) (span : nat) (block : list placed) : Prop := {
  inv_timed : w.(timed) = tm;
  inv_format : w.(win_format) = t.(tl_format);
  inv_media : w.(win_media_ms) = t.(tl_media_ms);
  inv_samples : w.(samples) = t.(tl_timed_samples);
  inv_gap : w.(gap_ms) = t.(tl_timed_gap_ms);
  inv_open : w.(gap_opened_at_ms) = t.(tl_open_gap_at_ms);
  inv_bytes : w.(win_bytes) = block_bytes block;
  inv_clock : clock_ok t;
  inv_pending : block <> [] -> exists f p, pending t w span f p block;
}.

Lemma Inv_new : Inv MediaTimeline_default (Windows_new tm) 0 [].
Proof. by split. Qed.

Lemma Inv_empty t w span span' block : Inv t w span block -> Inv t (set_bytes w []) span' [].
Proof. intros []. split; try done. Qed.

Lemma flush_nothing accepts t w span sent :
  Inv t w span [] -> flush accepts (w, sent) = (Ok true, (set_bytes w [], sent)).
Proof. intros I. pose proof (inv_bytes _ _ _ _ I) as E. unfold flush. rewrite E. cbn. destruct w; cbn in *. by subst. Qed.

Lemma pending_span t w span f p block :
  pending t w span f p block -> Forall (fun q => q.(p_span) = p.(p_span) /\ q.(p_format) = f) block.
Proof.
  intros P. pose proof (pe_head _ _ _ _ _ _ P) as H. pose proof (pe_span _ _ _ _ _ _ P) as S.
  eapply Forall_impl; [exact S|]. intros q [-> ->]. split; [|done].
  destruct block; [done|]. cbn in H. simplify_eq. by apply Forall_cons in S as [[-> _] _].
Qed.

Lemma pending_window t w span f p block :
  Inv t w span block -> pending t w span f p block ->
  exists window origin, window_origin w f = Ok origin /\
    match origin with
    | Some o => new_with_sample_origin f o w.(win_bytes)
    | None => MeetingAudioWindow_new f w.(win_started_at_ms) w.(win_bytes)
    end = Ok window /\ window_of tm window block.
Proof.
  intros I P. pose proof (inv_clock _ _ _ _ I) as C. unfold clock_ok in C.
  rewrite (pe_format _ _ _ _ _ _ P) in C. destruct C as [Hwf C].
  destruct (frame_alignment_bytes_Ok f Hwf) as [Ea Ha]. fold (alignment_of f) in Ea, Ha.
  pose proof (pending_span _ _ _ _ _ _ P) as P9.
  destruct P as [P1 P2 P3 P4 P5 P6 P7 P8]. destruct I as [It _ _ Is Ig _ Ib _ _].
  assert (Hne : is_empty w.(win_bytes) = false).
  { destruct (win_bytes w); [unfold zlen in P6; cbn in P6; lia|done]. }
  assert (Hnew : forall started, MeetingAudioWindow_new f started w.(win_bytes)
    = Ok {| window_format := f; window_started_at_ms := started; sample_origin := None;
            window_bytes := w.(win_bytes) |}).
  { intros started. unfold MeetingAudioWindow_new. rewrite Hne, Ea. cbn [result_bind].
    by rewrite P7. }
  unfold window_origin. rewrite It. destruct tm.
  - destruct (C eq_refl) as (C1 & C2 & C3). destruct (P8 eq_refl) as (Q1 & Q2 & Q3 & Q4 & Q5).
    rewrite Ea. cbn [or_adapter result_bind].
    assert (Hcount : 0 <= zlen w.(win_bytes) / alignment_of f) by (apply Z.div_pos; lia).
    destruct Hwf as [Hr _].
    assert (Hmono : p.(p_sample) * 1000 / f.(sample_rate_hz) <= w.(samples) * 1000 / f.(sample_rate_hz))
      by (apply Z.div_le_mono; lia).
    unfold checked_sub. rewrite (proj2 (Z.leb_le 0 _)) by lia. cbn [ok_or result_bind]. rewrite <- Q2.
    unfold MediaSampleOrigin_new. rewrite project_sample_Ok by (cbn; lia). cbn [result_bind or_adapter].
    eexists _, (Some _). split; [done|]. unfold new_with_sample_origin. cbn [origin_rate media_start_sample].
    rewrite Z.eqb_refl. cbn [negb]. rewrite project_sample_Ok by (cbn; lia). cbn [result_bind origin_rate gap_offset_ms].
    rewrite Hnew. cbn [result_bind]. rewrite Ea. cbn [result_bind]. unfold checked_add.
    rewrite (proj2 (Z.leb_le _ u64_max)) by lia. cbn [ok_or result_bind].
    rewrite project_sample_Ok; cbn [origin_rate gap_offset_ms]; [|lia..|].
    2:{ replace (p_sample p + zlen (win_bytes w) / alignment_of f) with w.(samples) by lia. lia. }
    cbn [result_bind]. split; [done|]. split; cbn; try done. exists p. rewrite <- Q3. by split_and!.
  - eexists _, None. split; [done|]. rewrite Hnew. split; [done|]. split; cbn; try done.
    exists p. by split_and!.
Qed.

(** A flush hands the diarizer the pending block, if there is one. *)
Lemma flush_Inv t w span block sent :
  Inv t w span block ->
  exists ws blocks, flush (fun _ => true) (w, sent) = (Ok true, (set_bytes w [], sent ++ ws)) /\
    Forall2 (window_of tm) ws blocks /\ concat blocks = block.
Proof.
  intros I. destruct block as [|q block].
  - exists [], []. rewrite app_nil_r. split_and!; [|constructor|done]. by eapply flush_nothing.
  - destruct (inv_pending _ _ _ _ I) as (f & p & P); [done|].
    destruct (pending_window _ _ _ _ _ _ I P) as (window & origin & E1 & E2 & E3).
    exists [window], [q :: block]. split; [|split; [constructor; [done|constructor]|cbn; by rewrite app_nil_r]].
    unfold flush. pose proof (pe_size _ _ _ _ _ _ P) as Hs.
    destruct (win_bytes w) eqn:Eb; [unfold zlen in Hs; cbn in Hs; lia|]. cbn [is_empty].
    rewrite (inv_format _ _ _ _ I), (pe_format _ _ _ _ _ _ P), E1. destruct origin; by rewrite E2.
Qed.

(** *** Adding a frame *)

Definition frame_step (t : MediaTimeline) (f : PcmFormat) (n : Z) : rresult MediaTimeline :=
  if tm then tl_timed_frame t f n else Ok (tl_frame t f n).

Definition fits_format (t : MediaTimeline) (f : PcmFormat) : Prop :=
  t.(tl_format) = None \/ t.(tl_format) = Some f.

Lemma count_timed_Ok samples gap f n total duration :
  wf_format f -> count_timed samples gap f n = Ok (total, duration) ->
  total = samples + n / alignment_of f /\ total <= u64_max /\
  duration = total * 1000 / f.(sample_rate_hz) + gap /\ duration <= u64_max.
Proof.
  intros Hf H. unfold count_timed in H. destruct (frame_alignment_bytes_Ok f Hf) as [Ea _].
  rewrite Ea in H. cbn [or_recovery result_bind] in H. apply result_bind_Ok in H as (t & Ht & H).
  destruct (checked_add _ _) eqn:E; [|done]. cbn in Ht. simplify_eq. apply checked_add_Some in E as [-> E].
  apply result_bind_Ok in H as (d & Hd & H). simplify_eq. apply exact_media_ms_Ok in Hd. by destruct Hd as (_ & _ & ? & ->).
Qed.

(** What a frame does to the timeline, and where it starts on it. *)
Lemma frame_step_clock t f n t' :
  clock_ok t -> fits_format t f -> wf_format f -> 0 <= n -> frame_step t f n = Ok t' ->
  clock_ok t' /\ t'.(tl_format) = Some f /\ t'.(tl_timed_gap_ms) = t.(tl_timed_gap_ms) /\
  t'.(tl_open_gap_at_ms) = t.(tl_open_gap_at_ms) /\
  (tm = true -> 0 <= t.(tl_timed_samples) /\ t'.(tl_timed_samples) = t.(tl_timed_samples) + n / alignment_of f /\
     t.(tl_media_ms) = t.(tl_timed_samples) * 1000 / f.(sample_rate_hz) + t.(tl_timed_gap_ms) /\
     t'.(tl_timed_samples) * 1000 / f.(sample_rate_hz) + t.(tl_timed_gap_ms) <= u64_max).
Proof.
  intros C F Hf Hn H. unfold frame_step, clock_ok in *. destruct tm.
  - unfold tl_timed_frame in H. apply result_bind_Ok in H as ([total duration] & Hc & H). simplify_eq.
    apply count_timed_Ok in Hc as (-> & Hu & -> & Hd); [|done].
    destruct (frame_alignment_bytes_Ok f Hf) as [_ Ha]. fold (alignment_of f) in Ha. cbn.
    assert (0 <= n / alignment_of f) by (apply Z.div_pos; lia). destruct Hf as [Hr Hc].
    assert (Hs : 0 <= t.(tl_timed_samples) /\ 0 <= t.(tl_timed_gap_ms) <= u64_max /\ t.(tl_media_ms)
      = Z.min u64_max (t.(tl_timed_samples) * 1000 / f.(sample_rate_hz) + t.(tl_timed_gap_ms))).
    { destruct F as [F|F]; rewrite F in C; [destruct C as (-> & -> & ->); done|].
      destruct C as [_ C]. destruct (C eq_refl) as (? & ? & ->). split_and!; done || lia. }
    destruct Hs as (S1 & S2 & S3).
    assert (t.(tl_timed_samples) * 1000 / f.(sample_rate_hz)
      <= (t.(tl_timed_samples) + n / alignment_of f) * 1000 / f.(sample_rate_hz)) by (apply Z.div_le_mono; lia).
    split_and!; try done; try (intros _; split_and!; lia).
  - simplify_eq. cbn. split_and!; done.
Qed.

Lemma advance_clock_Ok t t' w f n :
  w.(timed) = tm -> w.(samples) = t.(tl_timed_samples) -> w.(gap_ms) = t.(tl_timed_gap_ms) ->
  w.(win_media_ms) = t.(tl_media_ms) -> frame_step t f n = Ok t' ->
  advance_clock w f n
  = (Ok tt, set_clock w t'.(tl_timed_samples) w.(gap_ms) t'.(tl_media_ms) w.(gap_opened_at_ms)).
Proof.
  intros E1 E2 E3 E4 H. unfold advance_clock. rewrite E1. unfold frame_step in H. destruct tm.
  - unfold tl_timed_frame, count_timed in H. destruct (frame_alignment_bytes f) as [a|]; [|done].
    cbn [or_recovery result_bind] in H. rewrite E2. destruct (checked_add _ _) as [total|]; [|done].
    cbn [ok_or result_bind] in H. cbn [gap_ms set_clock]. rewrite E3.
    destruct (exact_media_ms _ _ _) as [d|]; [|done]. cbn [result_bind] in H. simplify_eq. cbn. done.
  - simplify_eq. by rewrite E2, E4.
Qed.

Definition place_frame (span : nat) (t : MediaTimeline) (f : PcmFormat) (bytes : list Z) : placed :=
  {| p_span := span; p_at_ms := t.(tl_media_ms); p_sample := t.(tl_timed_samples);
     p_gap_ms := t.(tl_timed_gap_ms); p_format := f; p_bytes := bytes |}.

Lemma block_bytes_snoc block p : block_bytes (block ++ [p]) = block_bytes block ++ p.(p_bytes).
Proof. unfold block_bytes. rewrite map_app, concat_app. cbn. by rewrite app_nil_r. Qed.

Record frame_ok (t : MediaTimeline) (f : PcmFormat) (bytes : list Z) : Prop := {
  fo_fits : fits_format t f;
  fo_wf : wf_format f;
  fo_size : 0 < zlen bytes <= MAX_RECONCILIATION_WINDOW_BYTES;
  fo_aligned : zlen bytes mod alignment_of f = 0;
  fo_open : t.(tl_open_gap_at_ms) = None;
}.

Lemma aligned_app f (a b : list Z) :
  wf_format f -> zlen a mod alignment_of f = 0 -> zlen b mod alignment_of f = 0 ->
  zlen (a ++ b) mod alignment_of f = 0 /\
  zlen (a ++ b) / alignment_of f = zlen a / alignment_of f + zlen b / alignment_of f.
Proof.
  intros Hf Ha Hb. destruct (frame_alignment_bytes_Ok f Hf) as [_ H]. fold (alignment_of f) in H.
  apply Z.div_exact in Ha, Hb; [|lia..]. rewrite zlen_app, Ha, Hb, <- Z.mul_add_distr_l, (Z.mul_comm (alignment_of f)).
  rewrite Z.mod_mul, Z.div_mul by lia. split; [done|]. rewrite !(Z.mul_comm (alignment_of f)), !Z.div_mul by lia. done.
Qed.

(** The first frame of a window. *)
Lemma first_pending t t' w span f bytes :
  clock_ok t -> frame_ok t f bytes -> frame_step t f (zlen bytes) = Ok t' ->
  w.(win_started_at_ms) = t.(tl_media_ms) -> w.(win_bytes) = bytes ->
  w.(samples) = t'.(tl_timed_samples) -> w.(gap_ms) = t.(tl_timed_gap_ms) ->
  pending t' w span f (place_frame span t f bytes) [place_frame span t f bytes].
Proof.
  intros C [F1 F2 F3 F4 F5] H E1 E2 E3 E4.
  destruct (frame_step_clock _ _ _ _ C F1 F2 (zlen_nonneg _) H) as (K1 & K2 & K3 & K4 & K5).
  split; cbn; try (by rewrite ?K4, ?E2); try done.
  - by repeat constructor.
  - intros Ht. destruct (K5 Ht) as (Q1 & Q2 & Q3 & Q4). rewrite E2, E3, E4. split_and!; done || lia.
Qed.

(** One more frame. *)
Lemma next_pending t t' w w' span f p block bytes :
  clock_ok t -> frame_ok t f bytes -> frame_step t f (zlen bytes) = Ok t' ->
  Inv t w span block -> pending t w span f p block ->
  zlen w.(win_bytes) + zlen bytes <= MAX_RECONCILIATION_WINDOW_BYTES ->
  w'.(win_started_at_ms) = w.(win_started_at_ms) -> w'.(win_bytes) = w.(win_bytes) ++ bytes ->
  w'.(samples) = t'.(tl_timed_samples) -> w'.(gap_ms) = t.(tl_timed_gap_ms) ->
  pending t' w' span f p (block ++ [place_frame span t f bytes]).
Proof.
  intros C [F1 F2 F3 F4 F5] H I [P1 P2 P3 P4 P5 P6 P7 P8] Hroom E1 E2 E3 E4.
  destruct (frame_step_clock _ _ _ _ C F1 F2 (zlen_nonneg _) H) as (K1 & K2 & K3 & K4 & K5).
  destruct (aligned_app f _ _ F2 P7 F4) as [A1 A2]. split; try done; try (by rewrite ?K4, ?E1, ?E2).
  - by destruct block.
  - apply Forall_app. split; [done|]. by repeat constructor.
  - rewrite E2, zlen_app. lia.
  - intros Ht. destruct (P8 Ht) as (Q1 & Q2 & Q3 & Q4 & Q5). destruct (K5 Ht) as (R1 & R2 & R3 & R4).
    rewrite E3, E4, E2, A2. rewrite (inv_samples _ _ _ _ I), (inv_gap _ _ _ _ I) in *. split_and!; done || lia.
Qed.

Lemma fill_Inv t t' w span block f bytes sent :
  Inv t w span block -> frame_ok t f bytes -> frame_step t f (zlen bytes) = Ok t' ->
  zlen w.(win_bytes) + zlen bytes <= MAX_RECONCILIATION_WINDOW_BYTES ->
  exists w', fill_window (set_format w (Some f), sent) f bytes = (Ok true, (w', sent)) /\
    Inv t' w' span (block ++ [place_frame span t f bytes]).
Proof.
  intros I F H Hroom. pose proof (inv_clock _ _ _ _ I) as C.
  destruct (frame_step_clock _ _ _ _ C (fo_fits _ _ _ F) (fo_wf _ _ _ F) (zlen_nonneg _) H) as (K1 & K2 & K3 & K4 & _).
  unfold fill_window. cbn [win_bytes set_format].
  set (w1 := if is_empty (win_bytes w) then _ else _).
  rewrite (advance_clock_Ok t t') by (done || unfold w1; destruct (is_empty _); apply I).
  eexists. split; [done|].
  assert (Hb : w1.(win_bytes) = w.(win_bytes)) by (unfold w1; by destruct (is_empty _)).
  assert (Hg : w1.(gap_ms) = t.(tl_timed_gap_ms)) by (unfold w1; destruct (is_empty _); apply I).
  split; cbn.
  - unfold w1. destruct (is_empty _); apply I.
  - rewrite K2. unfold w1. by destruct (is_empty _).
  - done.
  - done.
  - by rewrite Hg, K3.
  - rewrite K4. unfold w1. destruct (is_empty _); apply I.
  - by rewrite Hb, (inv_bytes _ _ _ _ I), block_bytes_snoc.
  - done.
  - intros _. destruct block as [|q block].
    + pose proof (inv_bytes _ _ _ _ I) as E. cbn in E. exists f, (place_frame span t f bytes).
      apply first_pending; try done; cbn; [|by rewrite Hb, E].
      unfold w1. rewrite E. cbn. apply I.
    + destruct (inv_pending _ _ _ _ I) as (f' & p & P); [done|].
      assert (f' = f) as ->.
      { pose proof (pe_format _ _ _ _ _ _ P) as E. destruct (fo_fits _ _ _ F) as [E'|E']; congruence. }
      exists f, p. eapply next_pending; try done; cbn; [|by rewrite Hb].
      unfold w1. pose proof (pe_size _ _ _ _ _ _ P). destruct (win_bytes w); [unfold zlen in *; cbn in *; lia|done].
Qed.

Lemma set_format_same w f : w.(win_format) = Some f -> set_format w (Some f) = w.
Proof. destruct w; cbn. by intros ->. Qed.

Lemma accept_Inv t t' w span block f bytes sent :
  Inv t w span block -> frame_ok t f bytes -> frame_step t f (zlen bytes) = Ok t' ->
  exists w' ws blocks block', accept_frame (fun _ => true) (w, sent) f bytes = (Ok true, (w', sent ++ ws)) /\
    Forall2 (window_of tm) ws blocks /\
    concat blocks ++ block' = block ++ [place_frame span t f bytes] /\ Inv t' w' span block'.
Proof.
  intros I F H. pose proof (fo_size _ _ _ F) as Hs. unfold accept_frame.
  replace (is_some_and _ _) with false.
  2:{ rewrite (inv_format _ _ _ _ I). destruct (fo_fits _ _ _ F) as [->| ->]; [done|]. cbn. by rewrite bool_decide_true. }
  rewrite (proj2 (Z.ltb_ge _ _)) by lia. cbn [win_bytes set_format]. destruct (_ <? _) eqn:L; breflect.
  - assert (Hne : block <> []).
    { intros ->. rewrite (inv_bytes _ _ _ _ I) in L. unfold zlen at 1 in L. cbn in L. lia. }
    destruct (inv_pending _ _ _ _ I Hne) as (f' & p & P).
    assert (tl_format t = Some f) as Ef.
    { pose proof (pe_format _ _ _ _ _ _ P) as E. destruct (fo_fits _ _ _ F) as [E'|E']; congruence. }
    rewrite set_format_same by by rewrite (inv_format _ _ _ _ I).
    destruct (flush_Inv t w span block sent I) as (ws & blocks & -> & Hw & Hc).
    assert (I' : Inv t (set_bytes w []) span []) by by eapply Inv_empty.
    destruct (fill_Inv t t' (set_bytes w []) span [] f bytes (sent ++ ws) I' F H) as (w' & E & IF).
    { cbn [win_bytes set_bytes]. unfold zlen at 1. cbn. lia. }
    rewrite set_format_same in E by (cbn; by rewrite (inv_format _ _ _ _ I)).
    exists w', ws, blocks, [place_frame span t f bytes]. split_and!; try done. by rewrite Hc.
  - destruct (fill_Inv _ _ _ _ _ _ _ sent I F H L) as (w' & E & IF).
    exists w', [], [], (block ++ [place_frame span t f bytes]). rewrite app_nil_r. split_and!; done || constructor.
Qed.

(** *** Chunks of a walk *)

Definition in_step (s : WalkState) : Prop :=
  s.(walk_format) = s.(walk_timeline).(tl_format) /\ s.(walk_gap) = s.(walk_timeline).(tl_open_gap_at_ms).

Lemma advance_inl s at_ms fin fmt gap v t r :
  advance s at_ms fin fmt gap v t = Ok r ->
  r = inl {| walk_ended := fin; walk_format := fmt; walk_gap := gap; walk_last_at_ms := at_ms;
             walk_validation := v; walk_timeline := t |}.
Proof. unfold advance. destruct (_ <? _); [done|]. by intros <-%Ok_inj. Qed.

Lemma same_format_fits s f :
  in_step s -> format_changed s f = false -> fits_format s.(walk_timeline) f.
Proof.
  intros [E _] H. unfold format_changed in H. rewrite E in H. unfold fits_format.
  destruct (tl_format _); [|by left]. cbn in H. breflect. subst. by right.
Qed.

Lemma nonempty_pos (bytes : list Z) : is_empty bytes = false -> 0 < zlen bytes.
Proof. destruct bytes; [done|]. rewrite zlen_cons. pose proof (zlen_nonneg bytes). lia. Qed.

Lemma is_some_false {A} (o : option A) : is_some o = false -> o = None.
Proof. by destruct o. Qed.

(** A frame the walk goes past. *)
Lemma walk_frame s s' chunk :
  in_step s -> chunk_ok tm chunk -> walk_chunk tm s chunk = Ok (inl s') ->
  forall f bytes, frame_of chunk = Some (f, bytes) ->
  frame_ok s.(walk_timeline) f bytes /\
  frame_step s.(walk_timeline) f (zlen bytes) = Ok (replay tm s.(walk_timeline) chunk) /\
  in_step s' /\ s'.(walk_timeline) = replay tm s.(walk_timeline) chunk.
Proof.
  intros S K H f bytes E. unfold walk_chunk in H. destruct (walk_ended s); [done|].
  apply result_bind_Ok in H as (v & _ & H). destruct chunk; try done; cbn in E, K.
  - simplify_eq. destruct K as (Etm & K1 & K2 & K3). destruct (_ || _ || _) eqn:G; [done|]. breflect.
    apply result_bind_Ok in H as (t & Ht & H). apply advance_inl in H. simplify_eq.
    unfold frame_step, replay. rewrite Etm, Ht. cbn. split_and!; try done.
    + split; try done; [by apply same_format_fits|split; [by apply nonempty_pos|done]|].
      destruct S as [_ <-]. by apply is_some_false.
    + unfold tl_timed_frame in Ht. apply result_bind_Ok in Ht as ([? ?] & _ & <-%Ok_inj).
      split; cbn; [done|]. apply S.
  - destruct K as (Etm & K1 & K2 & K3). destruct (PcmFormat_new _ _ _) as [f'|] eqn:N; [|done]. simplify_eq.
    cbn [or_recovery result_bind] in H. apply PcmFormat_new_wf in N as N'; [|done..]. destruct N' as [Hw _].
    destruct (frame_alignment_bytes_Ok f Hw) as [Ea _]. fold (alignment_of f) in Ea. rewrite Ea in H. cbn [or_recovery result_bind] in H.
    destruct (_ || _ || _ || _) eqn:G; [done|]. breflect. apply advance_inl in H. simplify_eq.
    unfold frame_step, replay. rewrite Etm, N. cbn. split_and!; try done.
    + split; try done; [by apply same_format_fits|split; [by apply nonempty_pos|done]|].
      destruct S as [_ <-]. by apply is_some_false.
    + split; cbn; [done|]. apply S.
Qed.

(** Any other chunk the walk goes past. *)
Lemma walk_other s s' chunk :
  in_step s -> walk_chunk tm s chunk = Ok (inl s') -> frame_of chunk = None ->
  in_step s' /\ s'.(walk_timeline) = replay tm s.(walk_timeline) chunk /\
  (forall at_ms, chunk = GapEnded at_ms -> exists t, tl_gap_ended s.(walk_timeline) at_ms tm = Ok t) /\
  match chunk with TimedFrame _ _ _ _ | Frame _ _ _ _ _ _ => False | _ => True end.
Proof.
  intros S H E. unfold walk_chunk in H. destruct (walk_ended s); [done|].
  apply result_bind_Ok in H as (v & _ & H). destruct chunk; try done; cbn in E.
  - simplify_eq. by cbn.
  - simplify_eq. by cbn.
  - simplify_eq. by cbn.
  - by destruct (PcmFormat_new _ _ _).
  - destruct (bool_decide _); [done|]. destruct (_ || _); [done|]. apply advance_inl in H. simplify_eq.
    split_and!; try done. split; [apply S|done].
  - destruct (is_none _); [done|]. apply result_bind_Ok in H as (t & Ht & H). apply advance_inl in H.
    simplify_eq. unfold replay. rewrite Ht. cbn. split_and!; [|done|by intros ? [= <-]; eexists|done].
    unfold tl_gap_ended in Ht. destruct (tl_open_gap_at_ms _) eqn:Eo; [|done].
    apply result_bind_Ok in Ht as ([g m] & Hg & Ht). apply Ok_inj in Ht as <-. split; cbn; [|done]. apply S.
  - apply advance_inl in H. simplify_eq. done.
Qed.

Lemma open_gap_no_block t w span block :
  Inv t w span block -> t.(tl_open_gap_at_ms) <> None -> block = [].
Proof.
  intros I H. destruct block as [|q block]; [done|]. destruct (inv_pending _ _ _ _ I) as (f & p & P); [done|].
  by destruct (H (pe_open _ _ _ _ _ _ P)).
Qed.

Lemma gap_ended_Inv t t' w span block at_ms :
  Inv t w span block -> tl_gap_ended t at_ms tm = Ok t' -> Inv t' (close_gap w at_ms) span block.
Proof.
  intros I H. assert (block = []) as ->.
  { eapply open_gap_no_block; [done|]. intros E. unfold tl_gap_ended in H. by rewrite E in H. }
  pose proof (inv_clock _ _ _ _ I) as C. destruct I as [I1 I2 I3 I4 I5 I6 I7 _ _].
  unfold tl_gap_ended in H. unfold close_gap. rewrite I6, I2, I1, I4. destruct (tl_open_gap_at_ms t) as [opened|]; [|done].
  apply result_bind_Ok in H as ([g m] & Hg & H). apply Ok_inj in H as <-. unfold clock_ok in *.
  assert (0 <= saturating_sub at_ms opened) by (unfold saturating_sub; lia).
  destruct (tl_format t) as [f|] eqn:Ef; cbn [is_some] in Hg |- *.
  - apply result_bind_Ok in Hg as (g' & Hg & E). simplify_eq. destruct C as [Hwf C].
    assert ((if tm then saturating_add (gap_ms w) (saturating_sub at_ms opened) else gap_ms w) = g
      /\ (tm = true -> g = t.(tl_timed_gap_ms) + saturating_sub at_ms opened /\ g <= u64_max)) as [Hgap Hg'].
    { rewrite I5. destruct tm; [|by simplify_eq]. destruct (checked_add _ _) eqn:A; [|done]. cbn in Hg. simplify_eq.
      apply checked_add_Some in A as [-> A]. split; [unfold saturating_add; lia|done]. }
    split; cbn; try done; [by rewrite I3|]. split; [done|].
    intros Ht. destruct (C Ht) as (C1 & C2 & ->). destruct (Hg' Ht) as [-> Hu].
    split_and!; try lia. unfold saturating_add. lia.
  - simplify_eq. by split.
Qed.

Lemma gap_started_Inv t w span span' at_ms sent :
  Inv t w span [] -> Inv (tl_gap_started t at_ms) (open_gap_at (w, sent) at_ms).1 span' [].
Proof. intros [I1 I2 I3 I4 I5 I6 I7 I8 _]. by split. Qed.

(** Whatever chunk the walk goes past, the windows keep up with it. *)
Lemma deliver_Inv s s' chunk w span block sent :
  in_step s -> chunk_ok tm chunk -> walk_chunk tm s chunk = Ok (inl s') ->
  Inv s.(walk_timeline) w span block ->
  exists w' ws blocks block',
    deliver_chunk (fun _ => true) (w, sent) chunk = (Ok true, (w', sent ++ ws)) /\
    Forall2 (window_of tm) ws blocks /\
    concat blocks ++ block' = block ++ place_chunk span s.(walk_timeline) chunk /\
    Inv (replay tm s.(walk_timeline) chunk) w' (next_span span chunk) block'.
Proof.
  intros S K H I. destruct (frame_of chunk) as [[f bytes]|] eqn:E.
  - destruct (walk_frame _ _ _ S K H _ _ E) as (F & Hf & _).
    destruct (accept_Inv _ _ _ _ _ _ _ sent I F Hf) as (w' & ws & blocks & block' & A & B & C & D).
    exists w', ws, blocks, block'. unfold place_chunk. rewrite E. split_and!; try done.
    + destruct chunk; try done; cbn in E |- *; [by simplify_eq|]. destruct (PcmFormat_new _ _ _); by simplify_eq.
    + by destruct chunk.
  - destruct (walk_other _ _ _ S H E) as (_ & _ & G & N). unfold place_chunk. rewrite E, app_nil_r.
    destruct chunk; try done; cbn [deliver_chunk next_span replay].
    1-3: by exists w, [], [], block; rewrite app_nil_r; split_and!; done || constructor.
    + destruct (flush_Inv _ _ _ _ sent I) as (ws & blocks & -> & A & B).
      eexists _, ws, blocks, []. rewrite app_nil_r. split_and!; try done.
      apply (gap_started_Inv _ _ span _ _ (sent ++ ws)). by eapply Inv_empty.
    + destruct (G _ eq_refl) as [t Ht]. rewrite Ht. cbn [ok_else]. exists (close_gap w at_ms), [], [], block.
      rewrite app_nil_r. split_and!; try done. by apply (gap_ended_Inv s.(walk_timeline)).
    + destruct (flush_Inv _ _ _ _ sent I) as (ws & blocks & -> & A & B).
      eexists _, ws, blocks, []. rewrite app_nil_r. split_and!; try done. by eapply Inv_empty.
Qed.
End Window.

(** ** The loops *)

Section Loops.
Context `{RC : RecordingCrypto} `{RO : !RecordingOpenLaws RC}.

Lemma walk_step s s' chunk tm :
  in_step s -> chunk_ok tm chunk -> walk_chunk tm s chunk = Ok (inl s') ->
  in_step s' /\ s'.(walk_timeline) = replay tm s.(walk_timeline) chunk.
Proof.
  intros S K H. destruct (frame_of chunk) as [[f bytes]|] eqn:E.
  - by destruct (walk_frame tm _ _ _ S K H _ _ E) as (_ & _ & ?).
  - by destruct (walk_other tm _ _ _ S H E) as (? & ? & _).
Qed.

(** A walk that reaches the end of the file has read a list of chunks. *)
Lemma walk_loop_reads fuel cancelled n c s walk c' :
  walk_loop fuel cancelled n c s = Val (Ok (walk, c')) -> walk.(completed_incomplete) = false ->
  Forall is_byte c.(remaining) ->
  exists chunks s', reads c chunks c' /\ walk_list (header_is_timed c.(reader_header)) s chunks = Ok s' /\
    Forall (chunk_ok (header_is_timed c.(reader_header))) chunks /\ (length chunks < fuel)%nat.
Proof using RC RO.
  revert n c s. induction fuel as [|fuel IH]; intros n c s H Hi Hb; [done|]. cbn [walk_loop] in H.
  destruct (cancelled n); [done|]. destruct (next_chunk c) as [[[chunk|]|e] c1] eqn:N; [|simplify_eq|done].
  - apply next_chunk_ok in N as N'; [|done]. destruct N' as (K & Hb1 & Hh & _). rewrite Hh in H.
    destruct (walk_chunk _ s chunk) as [[s1|stop]|] eqn:W; [|simplify_eq|done].
    + destruct (IH _ _ _ H Hi Hb1) as (chunks & s' & A & B & C & D). rewrite Hh in *.
      exists (chunk :: chunks), s'. split_and!; [by eapply reads_more|cbn; by rewrite W|by constructor|cbn; lia].
    + unfold walk_chunk in W. destruct (walk_ended s); [done|]. apply result_bind_Ok in W as (v & _ & W).
      destruct chunk; try done; inv_branches W; repeat (apply result_bind_Ok in W as (? & ? & W));
        inv_branches W; try (by apply advance_inl in W).
  - exists [], s. split_and!; [by apply reads_end|done|constructor|cbn; lia].
Qed.

(** The windows of a whole recording, for a diarizer that listens to the end. *)
Lemma window_loop_whole c chunks c' :
  reads c chunks c' -> forall tm fuel n s s' w span block sent,
  in_step s -> Forall (chunk_ok tm) chunks -> walk_list tm s chunks = Ok s' ->
  Inv tm s.(walk_timeline) w span block -> (length chunks < fuel)%nat ->
  exists ws blocks,
    window_loop (fun _ => true) (fun _ => false) fuel n c (w, sent) = Val (Ok c'.(truncated), sent ++ ws) /\
    Forall2 (window_of tm) ws blocks /\
    concat blocks = block ++ place tm span s.(walk_timeline) chunks.
Proof using RC.
  induction 1 as [c c' N|c chunk c1 chunks c' N R IH]; intros tm fuel n s s' w span block sent S K W I L;
    (destruct fuel as [|fuel]; [cbn in L; lia|]); cbn [window_loop]; rewrite N.
  - destruct (flush_Inv _ _ _ _ _ sent I) as (ws & blocks & -> & A & B). exists ws, blocks.
    cbn [place]. by rewrite app_nil_r.
  - apply Forall_cons in K as [K K']. cbn [walk_list] in W. apply result_bind_Ok in W as ([s1|] & W1 & W); [|done].
    destruct (walk_step _ _ _ _ S K W1) as [S1 T1].
    destruct (deliver_Inv _ _ _ _ _ _ _ sent S K W1 I) as (w1 & ws1 & blocks1 & block1 & -> & A & B & C).
    rewrite <- T1 in C. destruct (IH tm fuel (Datatypes.S n) s1 s' w1 _ block1 (sent ++ ws1) S1 K' W C)
      as (ws & blocks & E & D & F); [cbn in L; lia|].
    exists (ws1 ++ ws), (blocks1 ++ blocks). rewrite app_assoc. split; [exact E|]. split; [by apply Forall2_app|].
    cbn [place]. by rewrite concat_app, F, app_assoc, B, T1, <- app_assoc.
Qed.

(** *** A diarizer that stops listening *)

Definition stops_short (r : rresult bool * (Windows * list MeetingAudioWindow))
    (r' : rresult bool * (Windows * list MeetingAudioWindow)) (sent : list MeetingAudioWindow) : Prop :=
  sent `prefix_of` r.2.2 /\ (r' = r \/ (r'.1 = Ok false /\ r'.2.2 = sent)).

Lemma flush_stops accepts st : stops_short (flush (fun _ => true) st) (flush accepts st) st.2.
Proof.
  destruct st as [w sent]. unfold flush. cbn [snd].
  destruct (is_empty _); [by split; [|left]|]. destruct (win_format w); [|by split; [|left]].
  destruct (window_origin w _); [|by split; [|left]]. destruct (or_adapter _); [|by split; [|left]].
  split; [by apply prefix_app_r|]. destruct (accepts _); [by left|by right].
Qed.

Lemma fill_sent st f bytes : (fill_window st f bytes).2.2 = st.2.
Proof. destruct st as [w sent]. unfold fill_window. by destruct (advance_clock _ _ _) as [[|] ?]. Qed.

Lemma stops_refl r sent : sent = r.2.2 -> stops_short r r sent.
Proof. intros ->. by split; [|left]. Qed.

(** What follows a flush keeps the windows handed over, and a refusal. *)
Lemma stops_bind k r r' sent :
  (forall x : rresult bool * (Windows * list MeetingAudioWindow), (k x).2.2 = x.2.2) ->
  (forall st, (k (Ok false, st)).1 = Ok false) ->
  stops_short r r' sent -> stops_short (k r) (k r') sent.
Proof.
  intros K1 K2 [P E]. split; [by rewrite K1|]. destruct E as [->|[E1 E2]]; [by left|right].
  destruct r' as [r' st]. cbn in E1. subst r'. by rewrite K1, K2.
Qed.

Lemma accept_stops accepts st f bytes :
  stops_short (accept_frame (fun _ => true) st f bytes) (accept_frame accepts st f bytes) st.2.
Proof.
  destruct st as [w sent]. unfold accept_frame. destruct (is_some_and _ _); [by apply stops_refl|].
  destruct (_ <? _); [by apply stops_refl|]. destruct (_ <? _); [|by apply stops_refl; rewrite fill_sent].
  apply (stops_bind (fun x => match x with
    | (Ok true, st) => fill_window st f bytes | (Ok false, st) => (Ok false, st) | (Err e, st) => (Err e, st) end));
    [|done|apply (flush_stops accepts (set_format w (Some f), sent))].
  by intros [[[]|] st]; [apply fill_sent|..].
Qed.

Lemma deliver_stops accepts st chunk :
  stops_short (deliver_chunk (fun _ => true) st chunk) (deliver_chunk accepts st chunk) st.2.
Proof.
  destruct chunk; cbn [deliver_chunk]; try by apply stops_refl.
  - apply accept_stops.
  - destruct (PcmFormat_new _ _ _); [apply accept_stops|by apply stops_refl].
  - apply (stops_bind (fun x => match x with
      | (Ok delivered, st) => (Ok delivered, open_gap_at st at_ms) | (Err e, st) => (Err e, st) end));
      [|done|apply flush_stops]. by intros [[|] st'].
  - apply flush_stops.
Qed.

Lemma next_chunk_truncated c chunk c1 : next_chunk c = (Ok (Some chunk), c1) -> c1.(truncated) = c.(truncated).
Proof.
  intros H. unfold next_chunk in H. destruct (finished c); [done|]. cbn [fill] in H.
  destruct (bool_decide _); [done|]. destruct (negb _); [done|].
  destruct (_ <? _); [done|]. destruct (negb _); [done|]. cbn in H.
  destruct (open _ _ _); [|done]. destruct (admit_record _ _ _); [|done]. destruct (_ <? _); by simplify_eq.
Qed.

Lemma window_loop_sent fuel n c st r ws :
  window_loop (fun _ => true) (fun _ => false) fuel n c st = Val (r, ws) -> st.2 `prefix_of` ws.
Proof.
  revert n c st. induction fuel as [|fuel IH]; intros n c st H; [done|]. cbn [window_loop] in H.
  destruct (next_chunk c) as [[[chunk|]|e] c1]; [| |by simplify_eq].
  - destruct (deliver_stops (fun _ => true) st chunk) as [P _].
    destruct (deliver_chunk _ st chunk) as [[[]|] st']; cbn in P; [|by simplify_eq..].
    etrans; [exact P|]. by eapply IH.
  - destruct (flush_stops (fun _ => true) st) as [P _]. by destruct (flush _ st) as [[|] st']; simplify_eq.
Qed.

(** A diarizer that stops listening, or a cancellation, leaves a prefix of the
    windows handed over and is not a failure of the reader. *)
Lemma window_loop_stops accepts cancelled fuel n c st b ws :
  window_loop (fun _ => true) (fun _ => false) fuel n c st = Val (Ok b, ws) -> c.(truncated) = false ->
  exists b' sent, window_loop accepts cancelled fuel n c st = Val (Ok b', sent) /\
    sent `prefix_of` ws /\ (b' = false \/ b' = b).
Proof.
  revert n c st. induction fuel as [|fuel IH]; intros n c st H T; [done|].
  pose proof (window_loop_sent _ _ _ _ _ _ H) as Hp. cbn [window_loop] in *.
  destruct (cancelled n); [rewrite T; by eauto 10|].
  destruct (next_chunk c) as [[[chunk|]|e] c1] eqn:N; [| |done].
  - apply next_chunk_truncated in N. rewrite T in N. destruct (deliver_stops accepts st chunk) as [P [->|[E1 E2]]].
    + destruct (deliver_chunk _ st chunk) as [[[]|] st']; [by apply IH| |done]. simplify_eq. rewrite N. eauto 10.
    + destruct (deliver_chunk accepts st chunk) as [r st']. cbn in E1, E2. subst r. rewrite N, E2. eauto 10.
  - destruct (flush_stops accepts st) as [P [->|[E1 E2]]].
    + destruct (flush _ st) as [[|] st']; simplify_eq. eauto 10.
    + destruct (flush accepts st) as [r st']. cbn in E1, E2. subst r. rewrite E2.
      destruct (flush _ st) as [[|] st'']; simplify_eq. eauto 10.
Qed.
End Loops.

(** ** Authorization *)

Section Authorization.
Context `{RC : RecordingCrypto} `{RCL : !RecordingCryptoLaws RC}.

Lemma is_hex_lowercase_hex bs n :
  Forall is_byte bs -> Z.of_nat (length bs * 2) = n -> is_hex (lowercase_hex bs) n = true.
Proof.
  intros H L. destruct (lowercase_hex_ascii bs H) as (A & B & C & _). unfold is_hex.
  rewrite utf8_encode_ascii, B by done. rewrite <- utf8_encode_length, utf8_encode_ascii by done.
  unfold zlen. by rewrite C, L, Z.eqb_refl.
Qed.

(** The tag takes no part in the fields it authenticates. *)
Lemma capability_fields_tag c tag fields :
  is_hex tag 64 = true -> capability_fields c = Ok fields ->
  capability_fields (with_authorization c tag) = Ok fields.
Proof.
  intros Ht H. unfold capability_fields in *. destruct (negb _) eqn:V; [done|].
  replace (capability_validate (with_authorization c tag)) with true; [exact H|].
  apply negb_false_iff in V. unfold capability_validate in *. cbn. rewrite Ht.
  apply negb_true_iff, orb_false_iff in V as [V _]. by rewrite V.
Qed.

(** A capability is verified by the key that issued it. *)
Lemma authorize_verify c cap : authorize c = Ok cap -> verify c.(cap_key_id) cap = Ok tt.
Proof using RC RCL.
  unfold authorize. intros (fields & Hf & <-%Ok_inj)%result_bind_Ok. unfold verify.
  destruct (hmac_bytes fields) as [Hb Hl].
  erewrite capability_fields_tag; [|apply is_hex_lowercase_hex; [done|by rewrite Hl]|exact Hf].
  cbn [result_bind authorization with_authorization cap_key_id]. rewrite <- Hl, decode_hex_lowercase_hex by done.
  cbn [ok_or result_bind]. by rewrite !bool_decide_true by done.
Qed.

Lemma authorize_fields c cap : authorize c = Ok cap ->
  cap.(recording_handle) = c.(recording_handle) /\ cap.(cap_sha256) = c.(cap_sha256) /\
  cap.(source_session_id) = c.(source_session_id).
Proof. unfold authorize. by intros (fields & Hf & <-%Ok_inj)%result_bind_Ok. Qed.
End Authorization.

(** ** Claims *)

Section Claims.
Context `{RC : RecordingCrypto} `{RCL : !RecordingCryptoLaws RC} `{RO : !RecordingOpenLaws RC}.

Lemma preflight_walked file key cap on_entry cancelled at_end c :
  preflight_finalized_recording (Some file) key cap on_entry cancelled at_end = Val (Ok c) ->
  c.(truncated) = false /\ c.(remaining) = drop HEADER_LEN file /\
  exists walk c', walk_completed_chunks cancelled c = Val (Ok (walk, c')) /\
    walk.(completed_incomplete) = false /\ c'.(truncated) = false.
Proof.
  intros H. unfold preflight_finalized_recording in H. destruct on_entry; [done|].
  destruct (snapshot_finalized_recording _ _ _) as [c1|] eqn:S; [|done].
  apply exec_bind_Val in H as (r & Hv & H). destruct r; [|done]. cbn in H. destruct at_end; [done|]. simplify_eq.
  unfold snapshot_finalized_recording in S. do 4 apply result_bind_Ok in S as (? & ? & S). cbn in *. simplify_eq.
  destruct (_ <? _); [done|]. destruct (bool_decide _); [done|]. apply result_bind_Ok in S as (c2 & Ho & S).
  destruct (_ || _ || _); [done|]. simplify_eq. unfold open_session_recording in Ho.
  destruct (bool_decide _); [done|]. apply result_bind_Ok in Ho as (session & _ & <-%Ok_inj).
  split; [done|]. split; [done|].
  unfold validate_completed_chunks in Hv. apply exec_bind_Val in Hv as (r & Hw & Hv). simplify_eq.
  destruct r as [[walk c']|]; [|done]. cbn in Hv. destruct (_ || _ || _) eqn:G; [done|]. breflect. by eauto.
Qed.

(** C18. The diarizer hears the recording. For a recording that passes the
    preflight, the windows handed over are the recorded audio: cut at whole
    samples into non-empty windows of at most a mebibyte, in order and without
    loss, none across a gap, each at the place of its first frame on the
    recorder's media timeline (to the sample, in a timed recording). The reader
    never fails; when the diarizer stops listening or the work is cancelled,
    what was handed over is a prefix of those windows. *)
Theorem diarizer_hears_the_recording file key cap on_entry cancelled at_end c :
  preflight_finalized_recording (Some file) key cap on_entry cancelled at_end = Val (Ok c) ->
  Forall is_byte file ->
  let tm := header_is_timed c.(reader_header) in
  exists chunks c' windows blocks,
    reads c chunks c' /\ c'.(truncated) = false /\
    Forall2 (window_of tm) windows blocks /\ concat blocks = place tm 0 MediaTimeline_default chunks /\
    read_chunk_windows (fun _ => true) (fun _ => false) c = Val (Ok false, windows) /\
    forall accepts stopped, exists sent,
      read_chunk_windows accepts stopped c = Val (Ok false, sent) /\ sent `prefix_of` windows.
Proof using RC RO.
  intros H Hb tm. destruct (preflight_walked _ _ _ _ _ _ _ H) as (T & R & walk & c' & Hw & Hi & T').
  assert (Hb' : Forall is_byte c.(remaining)) by (rewrite R; by apply Forall_drop).
  destruct (walk_loop_reads _ _ _ _ _ _ _ Hw Hi Hb') as (chunks & s' & A & B & C & D).
  destruct (window_loop_whole _ _ _ A tm (S (length c.(remaining))) 0 WalkState_default s' (Windows_new tm) 0 [] [])
    as (ws & blocks & E & F & G); try done.
  exists chunks, c', ws, blocks. rewrite T' in E. split_and!; try done. intros accepts stopped.
  destruct (window_loop_stops accepts stopped _ _ _ _ _ _ E T) as (b & sent & K1 & K2 & K3).
  exists sent. split; [|done]. unfold read_chunk_windows. fold tm. rewrite K1. by destruct K3 as [-> | ->].
Qed.

(** C38. A finalized recording is recoverable. Whatever frames, gaps, metadata,
    boundaries and limit stops a recorder went through, and whichever of these
    calls were refused or failed: when [finalize_with_capability] returned a
    capability, presenting that capability with the file and the same key passes
    the preflight. The reader it returns is at the first chunk of the file, under
    the recording's session. *)
Theorem finalized_recording_recoverable
    limits session dir key prefix binding tm w0 s0 cs sm cap s2 :
  started w0 prefix binding session ->
  start limits session dir (Ok key) (Some (binding, prefix)) tm w0 = (Ok tt, Some s0) ->
  Forall recording_call cs ->
  finalize_with_capability (run_calls s0 cs) = (Ok (sm, cap), s2) ->
  exists c, preflight_finalized_recording (Some s2.(world).(w_file)) (Ok key) cap false (fun _ => false) false
      = Val (Ok c) /\
    s2.(world).(w_file) = c.(reader_header) ++ c.(remaining) /\ c.(reader_session) = session /\
    c.(reader_counter) = 0.
Proof using RC RCL.
  intros Hst Hstart Hcs Hfin.
  pose proof (recorded_Good _ _ _ _ _ _ _ _ _ _ _ _ false Hst Hstart Hcs (fun _ => eq_refl) Hfin) as G.
  destruct (finalized_file_walks _ _ _ _ _ _ _ _ _ _ _ _ _ Hst G Hfin)
    as (bytes & c' & t & Hfile & Hsize & Hopen & Hwalk & Htr & Hse & _ & _ & Hcap).
  destruct (authorize_fields _ _ Hcap) as (E1 & E2 & E3). apply authorize_verify in Hcap.
  cbn in E1, E2, E3, Hcap.
  eexists. split; [|split; [exact Hfile|done]].
  unfold preflight_finalized_recording, snapshot_finalized_recording. cbn [result_bind ok_or]. rewrite Hcap.
  cbn [result_bind]. pose proof (sw_binding _ _ _ _ Hst) as B. unfold decode_handle.
  rewrite E1, <- B, decode_hex_lowercase_hex by apply Hst. cbn [ok_or result_bind].
  rewrite (proj2 (Z.ltb_ge _ _)) by done. rewrite bool_decide_false.
  2:{ rewrite Hfile, length_app. cbn [reader_header]. rewrite make_header_length by apply Hst. lia. }
  rewrite Hopen. cbn [result_bind reader_header reader_session].
  rewrite make_header_binding, E2, E3 by apply Hst. rewrite !bool_decide_true by done. cbn [negb orb].
  unfold validate_completed_chunks. rewrite Hwalk. cbn. by rewrite Htr.
Qed.
End Claims.

(** ** Witnesses *)

Lemma tag_crypto_open_laws : RecordingOpenLaws tag_crypto.
Proof.
  split. cbn. intros _ _ c p [= <-] Hc. split; [by apply Forall_take|].
  unfold zlen. rewrite length_take. lia.
Qed.

Lemma finalized_recording_recoverable_witness : exists file cap c,
  @preflight_finalized_recording tag_crypto (Some file) (Ok (lit "0123456789abcdef")) cap
    false (fun _ => false) false = Val (Ok c) /\ c.(reader_session) = SessionId_new 9.
Proof.
  destruct sample_recorded as (s0 & sm & cap & s2 & H0 & _ & H2 & _).
  destruct (@finalized_recording_recoverable tag_crypto tag_crypto_laws RecordingLimits_default
    (SessionId_new 9) (lit "/recordings") (lit "0123456789abcdef") (replicate 8 3) (replicate 16 4) false
    (sample_world (fun _ => Io_ok)) s0 sample_recording_calls sm cap s2 (sample_started _) H0
    sample_recording_calls_ok H2) as (c & Hc & _ & Hs & _).
  exists s2.(world).(w_file), cap, c. split; [exact Hc|exact Hs].
Defined.

(** The file and capability of the sample run. *)
Definition sample_closed : option (list Z * FinalizedRecordingCapability) :=
  match sample_start false (fun _ => Io_ok) with
  | (_, Some s0) =>
      match @finalize_with_capability tag_crypto (@run_ops tag_crypto sample_ops s0).2 with
      | (Ok (_, cap), s2) => Some (s2.(world).(w_file), cap)
      | _ => None
      end
  | _ => None
  end.

Definition sample_preflight (file : list Z) (cap : FinalizedRecordingCapability) : exec (rresult RecordedChunks) :=
  @preflight_finalized_recording tag_crypto (Some file) (Ok (lit "0123456789abcdef")) cap false (fun _ => false) false.

Definition starts_and_sizes (r : exec (rresult bool * list MeetingAudioWindow)) : list (Z * Z) :=
  match r with
  | Val (_, ws) => map (fun w => (w.(window_started_at_ms), zlen w.(window_bytes))) ws
  | _ => []
  end.

Definition sample_check : bool :=
  match sample_closed with
  | Some (file, cap) =>
      bytes_ok file && match sample_preflight file cap with
      | Val (Ok c) => negb (header_is_timed c.(reader_header)) && bool_decide (starts_and_sizes
          (@read_chunk_windows (fun _ => true) tag_crypto (fun _ => false) c) = [(0, 80); (5020, 80)])
      | _ => false
      end
  | None => false
  end.

(** Two frames of five seconds, the second after a gap: two windows. *)
Lemma sample_check_passes : sample_check = true.
Proof. vm_compute. reflexivity. Qed.

Lemma diarizer_hears_the_recording_witness : exists c windows,
  (exists blocks, Forall2 (window_of false) windows blocks) /\
  @read_chunk_windows (fun _ => true) tag_crypto (fun _ => false) c = Val (Ok false, windows) /\
  map (fun w => (w.(window_started_at_ms), zlen w.(window_bytes))) windows = [(0, 80); (5020, 80)].
Proof.
  pose proof sample_check_passes as H. unfold sample_check in H.
  destruct sample_closed as [[file cap]|]; [|discriminate].
  destruct (sample_preflight file cap) as [[c|]| |] eqn:P; try (rewrite andb_false_r in H; discriminate).
  apply andb_prop in H as [Hb H]. apply bytes_ok_sound in Hb.
  destruct (@diarizer_hears_the_recording tag_crypto tag_crypto_open_laws _ _ _ _ _ _ _ P Hb)
    as (chunks & c' & windows & blocks & _ & _ & Hw & _ & Hr & _).
  apply andb_prop in H as [Ht H]. apply negb_true_iff in Ht. apply bool_decide_eq_true in H.
  rewrite Hr in H. rewrite Ht in Hw. exists c, windows. split; [by exists blocks|]. split; [exact Hr|exact H].
Defined.
