(* ===== verification/Alignment.v ===== *)
(** * Alignment of a recording with the capture and wall clocks

    [crates/runtime/src/recording_alignment.rs]: a finalized recording is walked
    by two cursors. One produces an entry per chunk; the other runs ahead of it,
    keeps the last six clock pairs, and interpolates the wall-clock time of a
    frame between the pairs around it. Entries are sent in bounded pages.

    A program is a finite tree: a leaf is its result, and a node is a check of
    the cancellation token or an item handed to the consumer. [run_io] runs a
    tree against a token and a consumer, [outcome] without any interruption. *)

From S2P Require Import Prelude RustStr Bytes Errors Pcm Decimals CaptureTiming ClientTiming Audio RecordingSafety Chunks Recorder Reader Recording Reconciliation.

Local Open Scope Z_scope.

(** ** Programs *)

Inductive RecordingAlignmentItem : Type :=
| Page (page : ClientRecordingAlignmentPage)
| Complete (complete : ClientRecordingAlignmentComplete).

Inductive io (A : Type) : Type :=
| Ret (a : A)
| Check (k : io A)
| Send (item : RecordingAlignmentItem) (k : io A).
Arguments Ret {A} _.
Arguments Check {A} _.
Arguments Send {A} _ _.

Fixpoint io_bind {A B} (t : io A) (f : A -> io B) : io B :=
  match t with
  | Ret a => f a
  | Check k => Check (io_bind k f)
  | Send item k => Send item (io_bind k f)
  end.

(** A program that may fail, panic or run out of fuel. *)
Definition prog (A : Type) : Type := io (exec (rresult A)).

Definition done {A} (a : A) : prog A := Ret (Val (Ok a)).
Definition lift {A} (r : rresult A) : prog A := Ret (Val r).
Definition lift_exec {A} (r : exec A) : prog A :=
  Ret (match r with Val a => Val (Ok a) | Panics => Panics | Fuel_out => Fuel_out end).

Definition prog_bind {A B} (m : prog A) (f : A -> prog B) : prog B :=
  io_bind m (fun r =>
    match r with
    | Val (Ok a) => f a
    | Val (Err e) => Ret (Val (Err e))
    | Panics => Ret Panics
    | Fuel_out => Ret Fuel_out
    end).

Notation "'let~' x := m 'in' k" := (prog_bind m (fun x => k))
  (at level 10, x binder, m at level 100, k at level 200) : rust_scope.

Definition cancelled : RuntimeError :=
  RuntimeError_new Kind_InvalidState Stage_AudioCapture ( lit "recording alignment was cancelled").

Definition failure (message : rstr) : RuntimeError :=
  RuntimeError_new Kind_Adapter Stage_AudioCapture message.

(** [check(cancel)?]. *)
Definition check : prog unit := Check (done tt).

(** The [n]-th check finds the token [cancel n], the [m]-th item is taken when
    [accepts m]; both failures are the same error. *)
Fixpoint run_io {A} (cancel accepts : nat -> bool) (n m : nat) (t : prog A)
  : list RecordingAlignmentItem * exec (rresult A) :=
  match t with
  | Ret a => ([], a)
  | Check k => if cancel n then ([], Val (Err cancelled)) else run_io cancel accepts (S n) m k
  | Send item k =>
      if accepts m then let '(items, r) := run_io cancel accepts n (S m) k in (item :: items, r)
      else ([], Val (Err cancelled))
  end.

Fixpoint outcome {A} (t : io A) : list RecordingAlignmentItem * A :=
  match t with
  | Ret a => ([], a)
  | Check k => outcome k
  | Send item k => let '(items, r) := outcome k in (item :: items, r)
  end.

(** ** Views *)

Definition CaptureMappingQuality_as_str (q : CaptureMappingQuality) : rstr :=
  match q with
  | NominalFrameEndpointInterpolation => lit "nominal_frame_endpoint_interpolation"
  | UnknownClock => lit "unknown_clock"
  | UnknownPriming => lit "unknown_priming"
  | FilterEdge => lit "filter_edge"
  | IncompleteSourceCoverage => lit "incomplete_source_coverage"
  end.

Definition CaptureDiscontinuityReason_as_str (r : CaptureDiscontinuityReason) : rstr :=
  match r with
  | SourceDrop => lit "source_drop"
  | SequenceHole => lit "sequence_hole"
  | Reconnect => lit "reconnect"
  | Pause => lit "pause"
  | EpochReset => lit "epoch_reset"
  | MissingTiming => lit "missing_timing"
  | InconsistentCoordinates => lit "inconsistent_coordinates"
  | SourceDiscontinuity => lit "source_discontinuity"
  | AlignmentLimitExceeded => lit "alignment_limit_exceeded"
  end.

Definition ClientRecordingIdentity_from (c : FinalizedRecordingCapability) : ClientRecordingIdentity :=
  {| id_source_session_id := decimal (SessionId_get c.(source_session_id));
     id_recording_handle := c.(recording_handle); id_sha256 := c.(cap_sha256) |}.

Definition epoch_view (e : CaptureEpoch) : ClientCaptureEpoch :=
  {| ce_bridge_session_id := e.(bridge_session_id); ce_clock_domain_id := e.(epoch_clock_domain_id);
     ce_capture_epoch := decimal e.(epoch_capture_epoch) |}.

Definition span_view (s : NominalCaptureSpan) : ClientNominalCaptureSpan :=
  {| cs_host_start_ns := decimal s.(host_start_ns); cs_host_end_ns := decimal s.(host_end_ns);
     cs_rounding_envelope_ns := decimal s.(rounding_envelope_ns);
     cs_capture_uncertainty_ns := decimal <$> s.(capture_uncertainty_ns) |}.

Definition frame_view (f : FrameProvenance) : ClientFrameProvenance :=
  {| cf_capture_epoch := decimal f.(capture_epoch); cf_sequence := decimal f.(sequence);
     cf_output_start_sample := decimal f.(output_start_sample); cf_sample_count := f.(sample_count);
     cf_source_start_numerator := decimal f.(source_start_numerator);
     cf_source_end_numerator := decimal f.(source_end_numerator);
     cf_source_denominator := f.(source_denominator); cf_source_rate_hz := f.(source_rate_hz);
     cf_quality := CaptureMappingQuality_as_str f.(quality); cf_span := span_view <$> f.(span) |}.

Definition pair_view (p : CaptureClockPair) : ClientCaptureClockPair :=
  {| cp_clock_domain_id := p.(pair_clock_domain_id); cp_wall_epoch := decimal p.(wall_epoch);
     cp_sequence := decimal p.(pair_sequence); cp_host_before_ns := decimal p.(host_before_ns);
     cp_local_unix_ns := decimal p.(local_unix_ns); cp_host_after_ns := decimal p.(host_after_ns);
     cp_wall_resolution_ns := decimal p.(wall_resolution_ns);
     cp_external_utc_accuracy_ns := decimal <$> p.(external_utc_accuracy_ns) |}.

Definition push_reason (reasons : list rstr) (reason : rstr) : list rstr :=
  if one_of reasons reason then reasons else reasons ++ [reason].

(** ** The tracker of the capture clock *)

Record CaptureTracker : Type := {
  ct_epoch : option CaptureEpoch;
  ct_sequence : Z;
  ct_output_end : option Z;
  ct_host_end : option Z;
  ct_run : Z;
}.

Definition CaptureTracker_default : CaptureTracker :=
  {| ct_epoch := None; ct_sequence := 0; ct_output_end := None; ct_host_end := None; ct_run := 0 |}.

(** A recording has at most [u32::MAX] chunks, so the run counter stays far
    below its width. *)
Definition barrier (t : CaptureTracker) : CaptureTracker :=
  {| ct_epoch := t.(ct_epoch); ct_sequence := t.(ct_sequence); ct_output_end := t.(ct_output_end);
     ct_host_end := t.(ct_host_end); ct_run := t.(ct_run) + 1 |}.

Definition observe_epoch (t : CaptureTracker) (e : CaptureEpoch) : CaptureTracker :=
  let other_domain := is_none_or t.(ct_epoch) (fun p => negb (bool_decide (p.(epoch_clock_domain_id) = e.(epoch_clock_domain_id)))) in
  let other_epoch := is_none_or t.(ct_epoch) (fun p =>
    negb (bool_decide (p.(epoch_clock_domain_id) = e.(epoch_clock_domain_id)))
    || negb (p.(epoch_capture_epoch) =? e.(epoch_capture_epoch))) in
  barrier {| ct_epoch := Some e;
             ct_sequence := if other_epoch then 0 else t.(ct_sequence);
             ct_output_end := if other_epoch then None else t.(ct_output_end);
             ct_host_end := if other_domain then None else t.(ct_host_end);
             ct_run := t.(ct_run) |}.

Definition tracker_observe (t : CaptureTracker) (chunk : RecordedChunk) : CaptureTracker :=
  match chunk with
  | ChunkMetadata (Metadata_Epoch e) => observe_epoch t e
  | ChunkMetadata (Metadata_Discontinuity _ _) | GapStarted _ _ | AlignmentLimit => barrier t
  | _ => t
  end.

Record CaptureAssessment : Type := { mapped : bool; assessment_reasons : list rstr }.

Definition set_position (t : CaptureTracker) (sequence : Z) (output_end : option Z) : CaptureTracker :=
  {| ct_epoch := t.(ct_epoch); ct_sequence := sequence; ct_output_end := output_end; ct_host_end := t.(ct_host_end);
     ct_run := t.(ct_run) |}.

Definition set_host_end (t : CaptureTracker) (host_end : option Z) : CaptureTracker :=
  {| ct_epoch := t.(ct_epoch); ct_sequence := t.(ct_sequence); ct_output_end := t.(ct_output_end);
     ct_host_end := host_end; ct_run := t.(ct_run) |}.

Definition tracker_frame (t : CaptureTracker) (timing : option FrameProvenance) : CaptureAssessment * CaptureTracker :=
  match timing with
  | None => ({| mapped := false; assessment_reasons := [lit "missing_timing"] |}, barrier t)
  | Some f =>
      let hole := negb (t.(ct_sequence) =? 0) &&
        (negb (bool_decide (checked_add t.(ct_sequence) 1 = Some f.(sequence)))
         || negb (bool_decide (t.(ct_output_end) = Some f.(output_start_sample)))) in
      let t := if hole then barrier t else t in
      let reasons := if hole then push_reason [] (lit "sequence_hole") else [] in
      let t := set_position t f.(sequence) (checked_add f.(output_start_sample) f.(sample_count)) in
      match f.(span) with
      | None => ({| mapped := false; assessment_reasons := push_reason reasons (lit "missing_timing") |}, barrier t)
      | Some s =>
          if is_some_and t.(ct_host_end) (fun finish =>
               (s.(host_start_ns) <? saturating_sub finish 1) || (s.(host_end_ns) <=? finish))
          then ({| mapped := false; assessment_reasons := push_reason reasons (lit "inconsistent_coordinates") |}, barrier t)
          else
            ({| mapped := is_some t.(ct_epoch); assessment_reasons := reasons |}, set_host_end t (Some s.(host_end_ns)))
      end
  end.

(** ** Clock pairs *)

Definition interval_reason (a b : CaptureClockPair) : option rstr :=
  if negb (bool_decide (a.(pair_clock_domain_id) = b.(pair_clock_domain_id))) then Some (lit "clock_domain_mismatch")
  else if negb (a.(wall_epoch) =? b.(wall_epoch)) then Some (lit "wall_clock_discontinuity")
  else if (MAX_CLOCK_BRACKET_NS <? a.(host_after_ns) - a.(host_before_ns))
          || (MAX_CLOCK_BRACKET_NS <? b.(host_after_ns) - b.(host_before_ns))
  then Some (lit "clock_bracket_exceeded")
  else
    let host := midpoint_twice b - midpoint_twice a in
    if host <=? 0 then Some (lit "inconsistent_coordinates")
    else if MAX_CLOCK_PAIR_GAP_NS * 2 <? host then Some (lit "clock_pair_gap")
    else
      let wall := b.(local_unix_ns) - a.(local_unix_ns) in
      if (wall <? 0) || (MAX_CLOCK_RESIDUAL_NS * 2 <? Z.abs (wall * 2 - host)) then Some (lit "wall_clock_discontinuity")
      else None.

(** The wall-clock time at [host2] half-nanoseconds, rounded down or up. *)
Definition interpolate (a b : CaptureClockPair) (host2 : Z) (ceil : bool) : result Z rstr :=
  let missing := lit "arithmetic_overflow" in
  let denominator := midpoint_twice b - midpoint_twice a in
  let relative := host2 - midpoint_twice a in
  if denominator <=? 0 then Err missing
  else if (relative <? 0) || (denominator <? relative) then Err missing
  else
    let delta := b.(local_unix_ns) - a.(local_unix_ns) in
    let product := delta * relative in
    if (product <? i128_min) || (i128_max <? product) then Err missing
    else
      let rounded := product / denominator + (if ceil && negb (product mod denominator =? 0) then 1 else 0) in
      let value := a.(local_unix_ns) + rounded in
      if (value <? i64_min) || (i64_max <? value) then Err missing else Ok value.

Record StampedPair : Type := { stamped : CaptureClockPair; sp_run : Z; sp_wall_run : Z }.

Record PairCursor : Type := {
  pc_chunks : RecordedChunks;
  pc_tracker : CaptureTracker;
  pc_pairs : list StampedPair;
  pc_wall_run : Z;
  pc_ended : bool;
}.

Definition PairCursor_new (chunks : RecordedChunks) : PairCursor :=
  {| pc_chunks := chunks; pc_tracker := CaptureTracker_default; pc_pairs := []; pc_wall_run := 1; pc_ended := false |}.

(** Whether a pair read after [prior] starts a new run of the wall clock. *)
Definition breaks_wall_run (prior : option StampedPair) (run : Z) (p : CaptureClockPair) : bool :=
  is_some_and prior (fun prior => negb (prior.(sp_run) =? run) || is_some (interval_reason prior.(stamped) p)).

Definition push_pair (c : PairCursor) (p : CaptureClockPair) : PairCursor :=
  let run := c.(pc_tracker).(ct_run) in
  let wall_run := if breaks_wall_run (back c.(pc_pairs)) run p then c.(pc_wall_run) + 1 else c.(pc_wall_run) in
  let pairs := c.(pc_pairs) ++ [{| stamped := p; sp_run := run; sp_wall_run := wall_run |}] in
  {| pc_chunks := c.(pc_chunks); pc_tracker := c.(pc_tracker);
     pc_pairs := if 6 <? zlen pairs then tail pairs else pairs; pc_wall_run := wall_run; pc_ended := c.(pc_ended) |}.

Definition set_cursor (c : PairCursor) (chunks : RecordedChunks) (t : CaptureTracker) : PairCursor :=
  {| pc_chunks := chunks; pc_tracker := t; pc_pairs := c.(pc_pairs); pc_wall_run := c.(pc_wall_run); pc_ended := c.(pc_ended) |}.

Definition set_ended (c : PairCursor) (chunks : RecordedChunks) : PairCursor :=
  {| pc_chunks := chunks; pc_tracker := c.(pc_tracker); pc_pairs := c.(pc_pairs); pc_wall_run := c.(pc_wall_run); pc_ended := true |}.

(** What a chunk that is not a clock pair does to a tracker. *)
Definition track (t : CaptureTracker) (chunk : RecordedChunk) : CaptureTracker :=
  match chunk with
  | TimedFrame _ _ timing _ => (tracker_frame t timing).2
  | _ => tracker_observe t chunk
  end.

Section Walk.
Context `{RecordingCrypto} `{PageJson}.

Definition next (c : RecordedChunks) : prog (option RecordedChunk * RecordedChunks) :=
  let~ _ := check in
  match next_chunk c with
  | (Ok chunk, c) => done (chunk, c)
  | (Err e, _) => lift (Err e)
  end.

(** Reads to the next clock pair; the fuel is the number of bytes left. *)
Fixpoint advance_loop (fuel : nat) (c : PairCursor) : prog (bool * PairCursor) :=
  match fuel with
  | O => lift_exec Fuel_out
  | S fuel =>
      let~ '(chunk, chunks) := next c.(pc_chunks) in
      match chunk with
      | None => done (false, set_ended c chunks)
      | Some (ChunkMetadata (Metadata_ClockPair p)) => done (true, push_pair (set_cursor c chunks c.(pc_tracker)) p)
      | Some chunk => advance_loop fuel (set_cursor c chunks (track c.(pc_tracker) chunk))
      end
  end.

Definition cursor_fuel (c : PairCursor) : nat := S (length c.(pc_chunks).(remaining)).

Definition pc_advance (c : PairCursor) : prog (bool * PairCursor) :=
  if c.(pc_ended) then done (false, c) else advance_loop (cursor_fuel c) c.

Definition covers_start (c : PairCursor) (run start2 : Z) : bool :=
  (2 <=? zlen c.(pc_pairs)) && is_some_and (back c.(pc_pairs)) (fun p =>
    (run <? p.(sp_run)) || ((p.(sp_run) =? run) && (start2 <=? midpoint_twice p.(stamped)))).

Fixpoint reach_start (fuel : nat) (c : PairCursor) (run start2 : Z) : prog PairCursor :=
  match fuel with
  | O => lift_exec Fuel_out
  | S fuel =>
      if covers_start c run start2 then done c
      else
        let~ '(more, c) := pc_advance c in
        if more then reach_start fuel c run start2 else done c
  end.

(** The first two consecutive pairs of the run around [point]. *)
Fixpoint find_interval (pairs : list StampedPair) (run point : Z) : option (StampedPair * StampedPair) :=
  match pairs with
  | a :: ((b :: _) as rest) =>
      if (a.(sp_run) =? run) && (b.(sp_run) =? run) && (midpoint_twice a.(stamped) <=? point)
         && (point <? midpoint_twice b.(stamped))
      then Some (a, b) else find_interval rest run point
  | _ => None
  end.

Record Mapping : Type := {
  m_point : Z;
  m_start : option Z;
  m_end : option Z;
  m_bracket : Z;
  m_resolution : Z;
  m_external : option Z;
  m_wall_epoch : option Z;
  m_wall_run : option Z;
}.

Definition Mapping_new (start2 : Z) : Mapping :=
  {| m_point := start2; m_start := None; m_end := None; m_bracket := 0; m_resolution := 0; m_external := Some 0;
     m_wall_epoch := None; m_wall_run := None |}.

Definition bracket (p : CaptureClockPair) : Z := p.(host_after_ns) - p.(host_before_ns).

(** [external.zip(accuracy).map(max)]. *)
Definition widen (external accuracy : option Z) : option Z := a ← external; b ← accuracy; Some (Z.max a b).

(** One interval of the loop of [map]. *)
Definition map_interval (m : Mapping) (left right : StampedPair) (end2 : Z) : result Mapping rstr :=
  let a := left.(stamped) in
  let b := right.(stamped) in
  match interval_reason a b with
  | Some reason => Err reason
  | None =>
      if negb (left.(sp_wall_run) =? right.(sp_wall_run))
         || is_some_and m.(m_wall_run) (fun old => negb (old =? left.(sp_wall_run)))
      then Err (lit "wall_clock_discontinuity")
      else
        let? start := match m.(m_start) with
                      | Some s => Ok s
                      | None => interpolate a b m.(m_point) false
                      end in
        let next_point := Z.min end2 (midpoint_twice b) in
        let? finish := interpolate a b next_point true in
        Ok {| m_point := next_point; m_start := Some start; m_end := Some finish;
              m_bracket := Z.max (Z.max m.(m_bracket) (bracket a)) (bracket b);
              m_resolution := Z.max (Z.max m.(m_resolution) a.(wall_resolution_ns)) b.(wall_resolution_ns);
              m_external := widen (widen m.(m_external) a.(external_utc_accuracy_ns)) b.(external_utc_accuracy_ns);
              m_wall_epoch := Some a.(wall_epoch); m_wall_run := Some left.(sp_wall_run) |}
  end.

Definition behind (c : PairCursor) (run point : Z) : bool :=
  is_some_and (back c.(pc_pairs)) (fun p =>
    (p.(sp_run) <? run) || ((p.(sp_run) =? run) && (midpoint_twice p.(stamped) <=? point))).

Fixpoint map_loop (fuel : nat) (c : PairCursor) (run end2 : Z) (m : Mapping) : prog (result Mapping rstr * PairCursor) :=
  if end2 <=? m.(m_point) then done (Ok m, c)
  else match fuel with
  | O => lift_exec Fuel_out
  | S fuel =>
      let~ _ := check in
      match find_interval c.(pc_pairs) run m.(m_point) with
      | None =>
          if behind c run m.(m_point) then
            let~ '(more, c) := pc_advance c in
            if more then map_loop fuel c run end2 m else done (Err (lit "missing_clock_pair"), c)
          else done (Err (lit "missing_clock_pair"), c)
      | Some (a, b) =>
          match map_interval m a b end2 with
          | Err reason => done (Err reason, c)
          | Ok m => map_loop fuel c run end2 m
          end
      end
  end.

Definition wall_estimate (m : Mapping) : exec (result ClientWallEstimate rstr) :=
  match m.(m_start), m.(m_end) with
  | Some start, Some finish =>
      let! epoch := expect m.(m_wall_epoch) in
      let! run := expect m.(m_wall_run) in
      Val (Ok {| cw_quality := lit "local_wall_estimate"; cw_policy_id := lit "local-wall-estimate/v1";
         local_start_ns := decimal start; local_end_ns := decimal finish; cw_wall_epoch := decimal epoch;
         cw_wall_run := decimal run; maximum_bracket_ns := decimal m.(m_bracket);
         maximum_resolution_ns := decimal m.(m_resolution); model_allowance_ns := decimal MAX_CLOCK_RESIDUAL_NS;
         interpolation_rounding_ns := lit "2"; capture_rounding_ns := lit "0"; cw_capture_uncertainty_ns := None;
         cw_external_utc_accuracy_ns := decimal <$> m.(m_external); overall_physical_accuracy_ns := None |})
  | _, _ => Val (Err (lit "missing_clock_pair"))
  end.

(** Every turn of the two loops reads a pair or leaves one behind. *)
Definition map_fuel (c : PairCursor) : nat := 2 * cursor_fuel c + 2 * length c.(pc_pairs) + 2.

Definition pc_map (c : PairCursor) (run start finish : Z) : prog (result ClientWallEstimate rstr * PairCursor) :=
  let start2 := start * 2 in
  let end2 := finish * 2 in
  let~ c := reach_start (map_fuel c) c run start2 in
  let~ '(r, c) := map_loop (map_fuel c) c run end2 (Mapping_new start2) in
  match r with
  | Err reason => done (Err reason, c)
  | Ok m => let~ r := lift_exec (wall_estimate m) in done (r, c)
  end.

(** ** The walk *)

(** Lexicographic order on strings, and insertion into a sorted set. *)
Fixpoint str_lt (a b : rstr) : bool :=
  match a, b with
  | _, [] => false
  | [], _ :: _ => true
  | x :: a, y :: b => (x <? y) || ((x =? y) && str_lt a b)
  end.

Fixpoint set_insert (v : rstr) (l : list rstr) : list rstr :=
  match l with
  | [] => [v]
  | w :: rest =>
      if bool_decide (v = w) then l
      else if str_lt v w then v :: l
      else w :: set_insert v rest
  end.

Record Walk : Type := {
  wk_tracker : CaptureTracker;
  wk_warnings : list rstr;
  wk_samples : Z;
  wk_rate : Z;
  wk_gap_ms : Z;
  wk_gap : option (Z * option Z);
}.

Definition Walk_new : Walk :=
  {| wk_tracker := CaptureTracker_default; wk_warnings := []; wk_samples := 0; wk_rate := 0; wk_gap_ms := 0; wk_gap := None |}.

Definition warn (w : Walk) (warning : rstr) : Walk :=
  {| wk_tracker := w.(wk_tracker); wk_warnings := set_insert warning w.(wk_warnings); wk_samples := w.(wk_samples);
     wk_rate := w.(wk_rate); wk_gap_ms := w.(wk_gap_ms); wk_gap := w.(wk_gap) |}.

Definition set_gap (w : Walk) (gap_ms : Z) (gap : option (Z * option Z)) : Walk :=
  {| wk_tracker := w.(wk_tracker); wk_warnings := w.(wk_warnings); wk_samples := w.(wk_samples);
     wk_rate := w.(wk_rate); wk_gap_ms := gap_ms; wk_gap := gap |}.

Definition set_tracker (w : Walk) (t : CaptureTracker) : Walk :=
  {| wk_tracker := t; wk_warnings := w.(wk_warnings); wk_samples := w.(wk_samples); wk_rate := w.(wk_rate);
     wk_gap_ms := w.(wk_gap_ms); wk_gap := w.(wk_gap) |}.

Definition set_media (w : Walk) (samples rate : Z) : Walk :=
  {| wk_tracker := w.(wk_tracker); wk_warnings := w.(wk_warnings); wk_samples := samples; wk_rate := rate;
     wk_gap_ms := w.(wk_gap_ms); wk_gap := w.(wk_gap) |}.

Definition audio_gap (start : Z) (finish : option Z) : ClientAlignmentEntry :=
  Entry_AudioGap (decimal start) (decimal <$> finish) (lit "capture_discontinuity").

(** The entry of a chunk that is not a timed frame (those have [frame_entry]). *)
Definition chunk_entry (w : Walk) (chunk : RecordedChunk) : rresult (option ClientAlignmentEntry * Walk) :=
  match chunk with
  | TimingPolicy => Ok (None, w)
  | ChunkMetadata (Metadata_Epoch e) => Ok (Some (Entry_Epoch (epoch_view e)), w)
  | ChunkMetadata (Metadata_ClockPair p) => Ok (Some (Entry_ClockPair (pair_view p)), w)
  | ChunkMetadata (Metadata_Discontinuity epoch reason) =>
      let w := warn w (CaptureDiscontinuityReason_as_str reason) in
      let w := match reason with
               | MissingTiming | InconsistentCoordinates => warn w (lit "capture_alignment_missing")
               | _ => w
               end in
      Ok (Some (Entry_Discontinuity (decimal epoch) (CaptureDiscontinuityReason_as_str reason)), w)
  | AlignmentLimit => Ok (Some Entry_AlignmentLimit, warn w (lit "alignment_limit_exceeded"))
  | GapStarted at_ms _ =>
      let? start := if w.(wk_rate) =? 0 then Ok None
                    else let? ms := exact_media_ms w.(wk_samples) w.(wk_rate) w.(wk_gap_ms) in Ok (Some ms) in
      Ok (None, warn (set_gap w w.(wk_gap_ms) (Some (at_ms, start))) (lit "audio_missing"))
  | GapEnded at_ms =>
      let? '(opened, start) := ok_or w.(wk_gap) (failure (lit "recording gap order was invalid")) in
      let? gap_ms :=
        if 0 <? w.(wk_samples) then
          let? len := ok_or (checked_sub at_ms opened) (failure (lit "recording gap was reversed")) in
          ok_or (checked_add w.(wk_gap_ms) len) (failure (lit "recording media offset overflowed"))
        else Ok w.(wk_gap_ms) in
      let w := set_gap w gap_ms None in
      let? finish := if w.(wk_rate) =? 0 then Ok 0 else exact_media_ms w.(wk_samples) w.(wk_rate) w.(wk_gap_ms) in
      Ok ((fun start => audio_gap start (Some finish)) <$> start, w)
  | Ended _ =>
      Ok ((fun start => audio_gap start None) <$> (w.(wk_gap) ≫= snd), set_gap w w.(wk_gap_ms) None)
  | Frame _ _ _ _ _ _ | TimedFrame _ _ _ _ => Err (failure (lit "legacy frame appeared in timed recording"))
  end.

Definition with_span (e : ClientWallEstimate) (s : NominalCaptureSpan) : ClientWallEstimate :=
  {| cw_quality := e.(cw_quality); cw_policy_id := e.(cw_policy_id); local_start_ns := e.(local_start_ns);
     local_end_ns := e.(local_end_ns); cw_wall_epoch := e.(cw_wall_epoch); cw_wall_run := e.(cw_wall_run);
     maximum_bracket_ns := e.(maximum_bracket_ns); maximum_resolution_ns := e.(maximum_resolution_ns);
     model_allowance_ns := e.(model_allowance_ns); interpolation_rounding_ns := e.(interpolation_rounding_ns);
     capture_rounding_ns := decimal s.(rounding_envelope_ns);
     cw_capture_uncertainty_ns := decimal <$> s.(capture_uncertainty_ns);
     cw_external_utc_accuracy_ns := e.(cw_external_utc_accuracy_ns);
     overall_physical_accuracy_ns := e.(overall_physical_accuracy_ns) |}.

(** The samples of a frame and where it ends on the media timeline. *)
Definition frame_end (w : Walk) (f : PcmFormat) (bytes : list Z) : rresult Z :=
  let? alignment := match frame_alignment_bytes f with
                    | Ok a => Ok a
                    | Err _ => Err (failure (lit "recording format was invalid"))
                    end in
  ok_or (checked_add w.(wk_samples) (zlen bytes / alignment)) (failure (lit "recording sample count overflowed")).

(** The entry of a frame whose mapping to the wall clock is known. [mapping] is
    [None] for a frame that has no place on the capture clock. *)
Definition frame_entry (w : Walk) (f : PcmFormat) (timing : option FrameProvenance) (finish : Z) (a : CaptureAssessment)
    (t : CaptureTracker) (mapping : option (NominalCaptureSpan * result ClientWallEstimate rstr))
  : ClientAlignmentEntry * Walk :=
  let '(wall, reasons) :=
    match mapping with
    | Some (s, Ok e) => (Some (with_span e s), a.(assessment_reasons))
    | Some (_, Err reason) =>
        (None, push_reason (push_reason a.(assessment_reasons) (lit "wall_alignment_missing")) reason)
    | None => (None, push_reason (push_reason a.(assessment_reasons) (lit "capture_alignment_missing")) (lit "wall_alignment_missing"))
    end in
  let w := if is_some wall then warn w (lit "local_wall_timestamp_estimate") else w in
  let w := fold_left warn reasons w in
  (Entry_Frame {| fe_media_start_sample := decimal w.(wk_samples); fe_media_end_sample := decimal finish;
      fe_sample_rate_hz := f.(sample_rate_hz); fe_gap_offset_ms := decimal w.(wk_gap_ms); fe_epoch := epoch_view <$> t.(ct_epoch);
      fe_provenance := frame_view <$> timing;
      fe_capture_status := if a.(mapped) then lit "available" else lit "capture_alignment_missing";
      fe_wall := wall; fe_reasons := reasons |},
   set_tracker (set_media w finish f.(sample_rate_hz)) t).

(** The entry of a chunk, with the pair cursor moved as far as it needs. *)
Definition walk_entry (w : Walk) (c : PairCursor) (chunk : RecordedChunk)
  : prog (option ClientAlignmentEntry * Walk * PairCursor) :=
  match chunk with
  | TimedFrame _ f timing bytes =>
      let~ finish := lift (frame_end w f bytes) in
      let '(a, t) := tracker_frame w.(wk_tracker) timing in
      if a.(mapped) then
        let~ s := lift_exec (expect (timing ≫= span)) in
        let~ '(r, c) := pc_map c t.(ct_run) s.(host_start_ns) s.(host_end_ns) in
        let '(entry, w) := frame_entry w f timing finish a t (Some (s, r)) in
        done (Some entry, w, c)
      else
        let '(entry, w) := frame_entry w f timing finish a t None in
        done (Some entry, w, c)
  | _ =>
      let~ '(entry, w) := lift (chunk_entry w chunk) in
      done (entry, set_tracker w (tracker_observe w.(wk_tracker) chunk), c)
  end.

(** ** Pages *)

Definition MAX_PAGE_ENVELOPE_BYTES : Z := 512.

Definition page_of (source : ClientRecordingIdentity) (count : Z) (entries : list ClientAlignmentEntry)
  : ClientRecordingAlignmentPage :=
  {| page_source := source; page_index := decimal count; page_policy := ClientAlignmentPolicy_default;
     page_entries := entries |}.

Definition map_failure {A} (r : result A ClientWireError) (message : rstr) : rresult A :=
  match r with Ok a => Ok a | Err _ => Err (failure message) end.

(** [emit_page]: the page of [entries] is sent; the next one is empty. *)
Definition emit_page (source : ClientRecordingIdentity) (count : Z) (entries : list ClientAlignmentEntry) : prog Z :=
  let page := page_of source count entries in
  let~ _ := lift (map_failure (ClientRecordingAlignmentPage_validate page) (lit "recording alignment page exceeded bounds")) in
  let~ next_count := lift (ok_or (checked_add count 1) (failure (lit "recording page count overflowed"))) in
  Send (Page page) (done next_count).

(** An entry is added to the page, which is sent first when it is full. *)
Definition add_entry (source : ClientRecordingIdentity) (count : Z) (entries : list ClientAlignmentEntry)
    (entry : ClientAlignmentEntry) : prog (Z * list ClientAlignmentEntry) :=
  let~ _ := lift (map_failure (ClientAlignmentEntry_validate entry) (lit "recording alignment entry was invalid")) in
  let~ size := lift (ok_or (page_json_len (page_of source count (entries ++ [entry])))
                       (failure (lit "recording alignment page was invalid"))) in
  if (MAX_ALIGNMENT_PAGE_ENTRIES <? zlen (entries ++ [entry])) || (MAX_ALIGNMENT_PAGE_BYTES - MAX_PAGE_ENVELOPE_BYTES <? size)
  then
    if is_empty entries then lift (Err (failure (lit "recording alignment entry exceeded page bound")))
    else
      let~ count := emit_page source count entries in
      done (count, [entry])
  else done (count, entries ++ [entry]).

(** What is left when the chunks are read. *)
Definition finish_walk (source : ClientRecordingIdentity) (w : Walk) (count : Z) (entries : list ClientAlignmentEntry)
  : prog unit :=
  let~ count := if is_empty entries then done count else emit_page source count entries in
  let~ _ := check in
  let partial := existsb (fun v => negb (bool_decide (v = lit "local_wall_timestamp_estimate"))) w.(wk_warnings) in
  let completion := {| complete_source := source; page_count := decimal count;
    coverage_status := if partial then lit "partial" else lit "available";
    warnings := w.(wk_warnings); traversal_succeeded := true |} in
  let~ _ := lift (map_failure (ClientRecordingAlignmentComplete_validate completion)
                    (lit "recording alignment completion was invalid")) in
  Send (Complete completion) (done tt).

Fixpoint alignment_loop (fuel : nat) (source : ClientRecordingIdentity) (frames : RecordedChunks) (c : PairCursor)
    (w : Walk) (count : Z) (entries : list ClientAlignmentEntry) : prog unit :=
  match fuel with
  | O => lift_exec Fuel_out
  | S fuel =>
      let~ '(chunk, frames) := next frames in
      match chunk with
      | None => finish_walk source w count entries
      | Some chunk =>
          let~ '(entry, w, c) := walk_entry w c chunk in
          match entry with
          | None => alignment_loop fuel source frames c w count entries
          | Some entry =>
              let~ '(count, entries) := add_entry source count entries entry in
              alignment_loop fuel source frames c w count entries
          end
      end
  end.

(** Two readers at the first chunk of the retained snapshot. *)
Definition into_alignment_cursors (c : RecordedChunks) : rresult (RecordedChunks * RecordedChunks) :=
  if negb c.(strict) || negb (c.(reader_counter) =? 0) then Err recovery_error
  else Ok (c, {| remaining := c.(remaining); reader_header := c.(reader_header); reader_session := c.(reader_session);
                 reader_counter := 0; truncated := false; finished := false; strict := true |}).

Definition walk_alignment (chunks : RecordedChunks) (source : ClientRecordingIdentity) : prog unit :=
  if negb (header_is_timed chunks.(reader_header)) then
    Send (Complete {| complete_source := source; page_count := lit "0"; coverage_status := lit "unavailable_legacy";
                      warnings := [lit "unavailable_legacy"]; traversal_succeeded := true |}) (done tt)
  else
    let~ '(frames, pairs) := lift (into_alignment_cursors chunks) in
    alignment_loop (S (length frames.(remaining))) source frames (PairCursor_new pairs) Walk_new 0 [].

(** The token is also checked by the preflight, as in [Reconciliation]. *)
Definition read_recording_alignment (file : option (list Z)) (key : rresult rstr)
    (capability : FinalizedRecordingCapability) (on_entry : bool) (cancel : nat -> bool) (at_end : bool) : prog unit :=
  match preflight_finalized_recording file key capability on_entry cancel at_end with
  | Val (Ok chunks) => walk_alignment chunks (ClientRecordingIdentity_from capability)
  | Val (Err e) => Ret (Val (Err e))
  | Panics => Ret Panics
  | Fuel_out => Ret Fuel_out
  end.

End Walk.
