(* ===== verification/AlignmentPairs.v ===== *)
(** * The pair cursor sees what it needs

    The cursor of [Alignment] keeps the last six clock pairs it read and reads
    no further than it must. On a validated recording that loses nothing: every
    mapping is the one computed with all clock pairs of the recording at hand. *)

From S2P Require Import Prelude RustStr Bytes Errors Pcm Decimals CaptureTiming ClientTiming Audio RecordingSafety Chunks Recorder Reader Recording Reconciliation Alignment.

Local Open Scope Z_scope.

(** ** Programs without interruption *)

(** [t] hands over [items] and returns [a]. *)
Definition yields {A} (t : prog A) (items : list RecordingAlignmentItem) (a : A) : Prop := outcome t = (items, Val (Ok a)).
Abbreviation returns t a := (yields t [] a).

Lemma outcome_io_bind {A B} (t : io A) (f : A -> io B) :
  outcome (io_bind t f) = ((outcome t).1 ++ (outcome (f (outcome t).2)).1, (outcome (f (outcome t).2)).2).
Proof.
  induction t as [a|k IH|item k IH]; cbn.
  - by destruct (outcome (f a)).
  - exact IH.
  - rewrite IH. by destruct (outcome k).
Qed.

Lemma outcome_bind {A B} (m : prog A) (f : A -> prog B) items a :
  yields m items a -> outcome (prog_bind m f) = (items ++ (outcome (f a)).1, (outcome (f a)).2).
Proof. unfold yields. intros H. unfold prog_bind. rewrite outcome_io_bind, H. done. Qed.

Lemma yields_bind {A B} (m : prog A) (f : A -> prog B) items a items' b :
  yields m items a -> yields (f a) items' b -> yields (prog_bind m f) (items ++ items') b.
Proof. intros H1 H2. unfold yields. rewrite (outcome_bind _ _ _ _ H1). by rewrite H2. Qed.

Lemma returns_bind {A B} (m : prog A) (f : A -> prog B) a items b :
  returns m a -> yields (f a) items b -> yields (prog_bind m f) items b.
Proof. intros H1 H2. by apply (yields_bind m f [] a). Qed.

Lemma returns_done {A} (a : A) : returns (done a) a.
Proof. done. Qed.

Lemma returns_lift {A} (r : rresult A) a : r = Ok a -> returns (lift r) a.
Proof. by intros ->. Qed.

Lemma returns_check : returns check tt.
Proof. done. Qed.

#[export] Hint Resolve returns_done returns_lift returns_check : runtime.

(** An interruption cuts the items short and is the only other error. *)
Lemma run_io_prefix {A} (cancel accepts : nat -> bool) (t : prog A) n m :
  (run_io cancel accepts n m t).1 `prefix_of` (outcome t).1 /\
  ((run_io cancel accepts n m t).2 = Val (Err cancelled) \/ run_io cancel accepts n m t = outcome t).
Proof.
  revert n m. induction t as [a|k IH|item k IH]; intros n m; cbn.
  - by split; [|right].
  - destruct (cancel n); [|apply IH]. split; [apply prefix_nil|by left].
  - destruct (accepts m); [|split; [apply prefix_nil|by left]]. specialize (IH n (S m)).
    destruct (run_io cancel accepts n (S m) k) as [items r], (outcome k) as [items' r']. cbn in *. destruct IH as [P E].
    split; [by apply prefix_cons|]. destruct E as [->|[= -> ->]]; [by left|by right].
Qed.

(** ** Reading *)

Section Reading.
Context `{RC : RecordingCrypto}.

Lemma next_chunk_shrinks c chunk c1 :
  next_chunk c = (Ok (Some chunk), c1) -> (length c1.(remaining) < length c.(remaining))%nat.
Proof.
  intros H. unfold next_chunk in H. destruct (finished c); [done|]. cbn [fill] in H.
  destruct (bool_decide _); [done|]. destruct (negb _) eqn:B; [done|]. breflect.
  destruct (_ <? _); [done|]. destruct (negb _); [done|]. cbn in H.
  destruct (open _ _ _) as [record|]; [|done]. destruct (admit_record _ _ _); [|done]. destruct (_ <? _); [done|]. simplify_eq.
  cbn. rewrite !length_drop. rewrite length_take in B. lia.
Qed.

Lemma reads_length c chunks c' : reads c chunks c' -> (length chunks <= length c.(remaining))%nat.
Proof. induction 1 as [|c chunk c1 chunks c' N R IH]; cbn; [lia|]. apply next_chunk_shrinks in N. lia. Qed.

Lemma next_more c chunk chunks c' :
  reads c (chunk :: chunks) c' -> exists c1, returns (next c) (Some chunk, c1) /\ reads c1 chunks c'.
Proof. intros H. inversion H as [|? ? c1 ? ? N R]; subst. exists c1. split; [|done]. unfold next. cbn. by rewrite N. Qed.

Lemma next_end c c' : reads c [] c' -> returns (next c) (None, c').
Proof. intros H. inversion H as [? ? N|]; subst. unfold next. cbn. by rewrite N. Qed.

(** ** Every clock pair of the recording *)

(** The pairs of the remaining chunks, each with the run of the capture clock
    and of the wall clock it belongs to. *)
Fixpoint stamps (t : CaptureTracker) (wall_run : Z) (prior : option StampedPair) (chunks : list RecordedChunk)
  : list StampedPair :=
  match chunks with
  | [] => []
  | ChunkMetadata (Metadata_ClockPair p) :: rest =>
      let wall_run := if breaks_wall_run prior t.(ct_run) p then wall_run + 1 else wall_run in
      let s := {| stamped := p; sp_run := t.(ct_run); sp_wall_run := wall_run |} in
      s :: stamps t wall_run (Some s) rest
  | chunk :: rest => stamps (track t chunk) wall_run prior rest
  end.

Definition all_pairs (chunks : list RecordedChunk) : list StampedPair := stamps CaptureTracker_default 1 None chunks.

(** The cursor has read [n] of the pairs [all] and holds the last six. *)
Record cursor_at (all : list StampedPair) (n : nat) (c : PairCursor) : Prop := {
  ca_bound : (n <= length all)%nat;
  ca_pairs : c.(pc_pairs) = drop (n - 6) (take n all);
  ca_rest : exists chunks c',
    (if c.(pc_ended) then chunks = [] else reads c.(pc_chunks) chunks c') /\
    drop n all = stamps c.(pc_tracker) c.(pc_wall_run) (last (take n all)) chunks;
}.

Lemma stamps_length t wall prior chunks : (length (stamps t wall prior chunks) <= length chunks)%nat.
Proof.
  revert t wall prior. induction chunks as [|chunk chunks IH]; intros; [done|]. cbn [stamps].
  destruct chunk as [| |[|p|]| | | | |]; cbn [length]; try (etrans; [apply IH|lia]). specialize (IH t (if breaks_wall_run prior (ct_run t) p then wall + 1 else wall)).
  apply le_n_S, IH.
Qed.

Lemma cursor_unread all n c : cursor_at all n c -> (length all - n <= length c.(pc_chunks).(remaining))%nat.
Proof.
  intros [Hn _ (chunks & c' & R & E)]. apply (f_equal length) in E. rewrite length_drop in E.
  pose proof (stamps_length c.(pc_tracker) c.(pc_wall_run) (last (take n all)) chunks) as L.
  destruct (pc_ended c); [subst; cbn in *; lia|]. apply reads_length in R. lia.
Qed.

Lemma cursor_new c chunks c' : reads c chunks c' -> cursor_at (all_pairs chunks) 0 (PairCursor_new c).
Proof. intros R. split; [lia|done|]. exists chunks, c'. by split. Qed.

Lemma take_S_last (all : list StampedPair) n s rest :
  drop n all = s :: rest -> take (S n) all = take n all ++ [s] /\ drop (S n) all = rest /\ (n < length all)%nat.
Proof.
  intros E. assert (L : all !! n = Some s) by (rewrite <- (Nat.add_0_r n), <- lookup_drop; by rewrite E).
  split; [by apply take_S_r|]. split; [|by apply lookup_lt_Some in L].
  change (S n) with (1 + n)%nat. rewrite Nat.add_comm, <- drop_drop, E. done.
Qed.

Lemma window_back (all : list StampedPair) n : (n <= length all)%nat -> back (drop (n - 6) (take n all)) = last (take n all).
Proof.
  intros H. unfold back. destruct n as [|n]; [done|]. rewrite !last_lookup, lookup_drop, length_drop. f_equal. rewrite length_take. lia.
Qed.

(** The window moves by one. *)
Lemma window_push (all : list StampedPair) n s rest :
  drop n all = s :: rest -> let w := drop (n - 6) (take n all) ++ [s] in
  (if 6 <? zlen w then tail w else w) = drop (S n - 6) (take (S n) all).
Proof.
  intros E w. destruct (take_S_last _ _ _ _ E) as (-> & _ & L).
  assert (Lw : length w = S (Nat.min n 6)). { unfold w. rewrite length_app, length_drop, length_take. cbn. lia. }
  unfold zlen. rewrite Lw. destruct (decide (n < 6)%nat) as [H|H].
  - rewrite (proj2 (Z.ltb_ge _ _)) by lia. unfold w. replace (n - 6)%nat with 0%nat by lia. replace (S n - 6)%nat with 0%nat by lia. done.
  - rewrite (proj2 (Z.ltb_lt _ _)) by lia. replace (S n - 6)%nat with (S (n - 6)) by lia.
    unfold w. rewrite <- (drop_app_le (take n all) [s]) by (rewrite length_take; lia).
    set (l := take n all ++ [s]). change (S (n - 6)) with (1 + (n - 6))%nat. rewrite Nat.add_comm, <- drop_drop. by destruct (drop (n - 6) l).
Qed.

Lemma push_pair_at all n c p chunks c' :
  (n <= length all)%nat -> c.(pc_pairs) = drop (n - 6) (take n all) -> c.(pc_ended) = false -> reads c.(pc_chunks) chunks c' ->
  drop n all = stamps c.(pc_tracker) c.(pc_wall_run) (last (take n all)) (ChunkMetadata (Metadata_ClockPair p) :: chunks) ->
  cursor_at all (S n) (push_pair c p).
Proof.
  intros Hn Hp He R E. cbn [stamps] in E. pose proof (take_S_last _ _ _ _ E) as (T & D & L).
  split; [lia| |].
  - unfold push_pair. cbn [pc_pairs]. rewrite Hp, window_back by done. by apply (window_push all n _ _ E).
  - exists chunks, c'. unfold push_pair. cbn [pc_ended pc_chunks pc_tracker pc_wall_run]. rewrite He. split; [done|].
    rewrite D, T, last_snoc, Hp, window_back by done. done.
Qed.

Lemma advance_loop_at all n c chunks c' fuel :
  (n <= length all)%nat -> c.(pc_pairs) = drop (n - 6) (take n all) -> c.(pc_ended) = false -> reads c.(pc_chunks) chunks c' ->
  drop n all = stamps c.(pc_tracker) c.(pc_wall_run) (last (take n all)) chunks -> (length chunks < fuel)%nat ->
  exists c2, returns (advance_loop fuel c) (bool_decide (n < length all)%nat, c2) /\
    cursor_at all (if bool_decide (n < length all)%nat then S n else n) c2.
Proof.
  revert c fuel. induction chunks as [|chunk chunks IH]; intros c fuel Hn Hp He R E F; (destruct fuel as [|fuel]; [cbn in F; lia|]); cbn [advance_loop].
  - assert (length all = n) as L by (apply (f_equal length) in E; rewrite length_drop in E; cbn in E; lia).
    rewrite bool_decide_eq_false_2 by lia. exists (set_ended c c'). split; [by eapply returns_bind; [by apply next_end|]|].
    split; [lia|done|]. by exists [], c'.
  - destruct (next_more _ _ _ _ R) as (c1 & N & R1). cbn [length] in F.
    destruct (match chunk with ChunkMetadata (Metadata_ClockPair p) => Some p | _ => None end) as [p|] eqn:P.
    + destruct chunk as [| |[|p'|]| | | | |]; try done. injection P as ->.
      pose proof E as E'. cbn [stamps] in E'. destruct (take_S_last _ _ _ _ E') as (_ & _ & L).
      rewrite bool_decide_eq_true_2 by done. exists (push_pair (set_cursor c c1 c.(pc_tracker)) p).
      split; [eapply returns_bind; [exact N|]; done|]. by eapply push_pair_at.
    + destruct (IH (set_cursor c c1 (track c.(pc_tracker) chunk)) fuel) as (c2 & A & B); try done; [|lia|].
      { cbn [set_cursor pc_tracker pc_wall_run]. rewrite E. destruct chunk as [| |[|p'|]| | | | |]; done. }
      exists c2. split; [|done]. eapply returns_bind; [exact N|]. destruct chunk as [| |[|p'|]| | | | |]; done.
Qed.

(** [advance] reads the next pair, if there is one. *)
Lemma advance_at all n c :
  cursor_at all n c -> exists c2, returns (pc_advance c) (bool_decide (n < length all)%nat, c2) /\
    cursor_at all (if bool_decide (n < length all)%nat then S n else n) c2.
Proof.
  intros C. pose proof C as [Hn Hp (chunks & c' & R & E)]. unfold pc_advance. destruct (pc_ended c) eqn:He.
  - subst chunks. assert (length all = n) as L by (apply (f_equal length) in E; rewrite length_drop in E; cbn in E; lia).
    rewrite bool_decide_eq_false_2 by lia. by exists c.
  - eapply advance_loop_at; try done. unfold cursor_fuel. apply reads_length in R. lia.
Qed.

End Reading.

(** ** The order of the pairs *)

Definition pair_lt (a b : StampedPair) : Prop :=
  a.(sp_run) < b.(sp_run) \/ a.(sp_run) = b.(sp_run) /\ midpoint_twice a.(stamped) < midpoint_twice b.(stamped).

Definition ordered (l : list StampedPair) : Prop :=
  forall i j a b, (i < j)%nat -> l !! i = Some a -> l !! j = Some b -> pair_lt a b.

(** The pair is not after [point] in the run. *)
Definition before (run point : Z) (p : StampedPair) : bool :=
  (p.(sp_run) <? run) || ((p.(sp_run) =? run) && (midpoint_twice p.(stamped) <=? point)).

(** How many pairs are not after [point]. *)
Fixpoint past (l : list StampedPair) (run point : Z) : nat :=
  match l with
  | [] => 0
  | a :: rest => if before run point a then S (past rest run point) else 0
  end.

Lemma before_spec run point p :
  before run point p = true <->
  p.(sp_run) < run \/ p.(sp_run) = run /\ midpoint_twice p.(stamped) <= point.
Proof. unfold before. rewrite orb_true_iff, andb_true_iff, Z.ltb_lt, Z.eqb_eq, Z.leb_le. done. Qed.

Lemma past_le l run point : (past l run point <= length l)%nat.
Proof. induction l as [|a l IH]; cbn; [done|]. destruct (before _ _ _); lia. Qed.

Lemma past_mono l run point run' point' :
  run < run' \/ run = run' /\ point <= point' -> (past l run point <= past l run' point')%nat.
Proof.
  intros H. induction l as [|a l IH]; cbn; [done|]. destruct (before run point a) eqn:B; [|lia].
  apply before_spec in B. rewrite (proj2 (before_spec run' point' a)) by lia. lia.
Qed.

Lemma ordered_tail a l : ordered (a :: l) -> ordered l.
Proof. intros O i j x y H1 H2 H3. apply (O (S i) (S j)); [lia|done..]. Qed.

(** The pairs that are not after a point come first. *)
Lemma past_lookup l run point i a : ordered l -> l !! i = Some a -> before run point a = true <-> (i < past l run point)%nat.
Proof.
  revert i. induction l as [|x l IH]; intros i O L; [done|]. destruct i as [|i]; cbn in L |- *.
  - simplify_eq. destruct (before run point a); split; intros; done || lia.
  - specialize (IH i (ordered_tail _ _ O) L). destruct (before run point x) eqn:B; [rewrite IH; lia|].
    split; [|lia]. intros Ha. pose proof (O 0%nat (S i) x a ltac:(lia) eq_refl L) as Lt. apply before_spec in Ha.
    assert (before run point x = true) by (apply before_spec; unfold pair_lt in Lt; lia). congruence.
Qed.

(** At most one pair lies within half a nanosecond. *)
Lemma past_pred l run point : ordered l -> (past l run point <= past l run (point - 1) + 1)%nat.
Proof.
  intros O. set (k := past l run (point - 1)). destruct (decide (past l run point <= k + 1)%nat) as [|N]; [done|exfalso].
  pose proof (past_le l run point) as Le.
  destruct (lookup_lt_is_Some_2 l k ltac:(lia)) as [a La]. destruct (lookup_lt_is_Some_2 l (S k) ltac:(lia)) as [b Lb].
  pose proof (proj2 (past_lookup l run point _ _ O La) ltac:(lia)) as Ba. pose proof (proj2 (past_lookup l run point _ _ O Lb) ltac:(lia)) as Bb.
  assert (Na : before run (point - 1) a <> true) by (intros B; apply (past_lookup l run (point - 1) _ _ O La) in B; lia).
  pose proof (O k (S k) a b ltac:(lia) La Lb) as Lt. rewrite before_spec in Ba, Bb, Na. unfold pair_lt in Lt. lia.
Qed.

(** ** The interval around a point *)

Definition around (run point : Z) (a b : StampedPair) : bool :=
  (a.(sp_run) =? run) && (b.(sp_run) =? run) && (midpoint_twice a.(stamped) <=? point)
  && (point <? midpoint_twice b.(stamped)).

Lemma around_spec run point a b :
  around run point a b = true <->
  a.(sp_run) = run /\ b.(sp_run) = run /\ midpoint_twice a.(stamped) <= point < midpoint_twice b.(stamped).
Proof. unfold around. rewrite !andb_true_iff, !Z.eqb_eq, Z.leb_le, Z.ltb_lt. intuition. Qed.

Lemma find_interval_Some l run point a b :
  find_interval l run point = Some (a, b) -> exists i, l !! i = Some a /\ l !! S i = Some b /\ around run point a b = true.
Proof.
  induction l as [|x [|y l] IH]; [done|done|]. intros H. cbn [find_interval] in H. fold (around run point x y) in H.
  destruct (around run point x y) eqn:A.
  - simplify_eq. by exists 0%nat.
  - destruct (IH H) as (i & H1 & H2 & H3). by exists (S i).
Qed.

Lemma find_interval_None l run point :
  find_interval l run point = None -> forall i a b, l !! i = Some a -> l !! S i = Some b -> around run point a b = false.
Proof.
  induction l as [|x [|y l] IH]; [done|by intros _ [|[]]|]. intros H. cbn [find_interval] in H. fold (around run point x y) in H.
  destruct (around run point x y) eqn:A; [done|]. intros [|i] a b H1 H2; [cbn in H1, H2; by simplify_eq|]. by apply (IH H i).
Qed.

Lemma around_index l run point i a b :
  ordered l -> l !! i = Some a -> l !! S i = Some b -> around run point a b = true -> S i = past l run point.
Proof.
  intros O La Lb A. apply around_spec in A. assert (Ba : before run point a = true) by (apply before_spec; lia).
  apply (past_lookup _ _ _ _ _ O La) in Ba. assert (Nb : ~ (S i < past l run point)%nat); [|lia].
  rewrite <- (past_lookup _ _ _ _ _ O Lb), before_spec. lia.
Qed.

(** Looking in the window is as good as looking in the whole list, when the
    window reaches back to the pair before the point. *)
Lemma find_window l run point d n :
  ordered l -> (n <= length l)%nat -> (past l run point <= d -> past l run point = 0)%nat ->
  find_interval (drop d (take n l)) run point = if decide (past l run point < n)%nat then find_interval l run point else None.
Proof.
  intros O Hn Hd. set (w := drop d (take n l)).
  assert (Lw : forall i a, w !! i = Some a <-> l !! (d + i)%nat = Some a /\ (d + i < n)%nat).
  { intros i a. unfold w. rewrite lookup_drop. rewrite lookup_take_Some. done. }
  destruct (find_interval w run point) as [[a b]|] eqn:E.
  - apply find_interval_Some in E as (i & La & Lb & A). apply Lw in La as [La _], Lb as [Lb Hb]. rewrite <- plus_n_Sm in Lb, Hb.
    pose proof (around_index _ _ _ _ _ _ O La Lb A) as K. rewrite decide_True by lia.
    destruct (find_interval l run point) as [[a' b']|] eqn:E'; [|by rewrite (find_interval_None _ _ _ E' _ _ _ La Lb) in A].
    apply find_interval_Some in E' as (j & La' & Lb' & A'). pose proof (around_index _ _ _ _ _ _ O La' Lb' A') as K'.
    assert (j = (d + i)%nat) by lia. subst j. congruence.
  - destruct (decide _) as [Lt|]; [|done]. symmetry. destruct (find_interval l run point) as [[a' b']|] eqn:E'; [|done]. exfalso.
    apply find_interval_Some in E' as (j & La' & Lb' & A'). pose proof (around_index _ _ _ _ _ _ O La' Lb' A') as K'.
    assert (w !! (j - d)%nat = Some a') by (apply Lw; replace (d + (j - d))%nat with j by lia; split; [done|lia]).
    assert (w !! S (j - d)%nat = Some b') by (apply Lw; replace (d + S (j - d))%nat with (S j) by lia; split; [done|lia]).
    by rewrite (find_interval_None _ _ _ E (j - d) a' b') in A'.
Qed.

(** ** The mapping with every pair at hand *)

(** One pass over all the pairs of the recording. *)
Fixpoint map_pairs (pairs : list StampedPair) (run end2 : Z) (m : Mapping) : result Mapping rstr :=
  if end2 <=? m.(m_point) then Ok m
  else match pairs with
  | a :: ((b :: _) as rest) =>
      if around run m.(m_point) a b then let? m := map_interval m a b end2 in map_pairs rest run end2 m
      else map_pairs rest run end2 m
  | _ => Err (lit "missing_clock_pair")
  end.

Definition estimate_of (m : Mapping) : result ClientWallEstimate rstr :=
  match wall_estimate m with Val r => r | _ => Err (lit "missing_clock_pair") end.

Definition wall_time (pairs : list StampedPair) (run start finish : Z) : result ClientWallEstimate rstr :=
  let? m := map_pairs pairs run (finish * 2) (Mapping_new (start * 2)) in estimate_of m.

Lemma map_interval_point m a b end2 m' :
  map_interval m a b end2 = Ok m' -> m'.(m_point) = Z.min end2 (midpoint_twice b.(stamped)).
Proof.
  unfold map_interval. destruct (interval_reason _ _); [done|]. destruct (_ || _); [done|].
  intros (s & _ & H)%result_bind_Ok. by apply result_bind_Ok in H as (f & _ & <-%Ok_inj).
Qed.

Lemma map_pairs_done l run end2 m : end2 <= m.(m_point) -> map_pairs l run end2 m = Ok m.
Proof. intros H. destruct l; cbn [map_pairs]; by rewrite (proj2 (Z.leb_le _ _)). Qed.

(** A pair that starts no interval around the point or after it. *)
Lemma map_pairs_skip a l run end2 m :
  (forall b, l !! 0%nat = Some b -> b.(sp_run) = run -> midpoint_twice b.(stamped) <= m.(m_point)) ->
  map_pairs (a :: l) run end2 m = map_pairs l run end2 m.
Proof.
  intros H. destruct (Z.le_gt_cases end2 m.(m_point)); [by rewrite !map_pairs_done by done|]. destruct l as [|b l]; [cbn; by rewrite (proj2 (Z.leb_gt _ _))|].
  cbn [map_pairs]. rewrite (proj2 (Z.leb_gt _ _)) by done. destruct (around run m.(m_point) a b) eqn:A; [|done].
  apply around_spec in A. specialize (H b eq_refl). lia.
Qed.

Lemma map_pairs_cons a b l run end2 m :
  m.(m_point) < end2 ->
  map_pairs (a :: b :: l) run end2 m =
    if around run m.(m_point) a b then let? m := map_interval m a b end2 in map_pairs (b :: l) run end2 m
    else map_pairs (b :: l) run end2 m.
Proof. intros H. cbn [map_pairs]. by rewrite (proj2 (Z.leb_gt _ _)). Qed.

Lemma find_interval_cons a b l run point :
  find_interval (a :: b :: l) run point = if around run point a b then Some (a, b) else find_interval (b :: l) run point.
Proof. done. Qed.

Lemma map_pairs_unfold l run end2 m :
  ordered l -> m.(m_point) < end2 ->
  map_pairs l run end2 m =
    match find_interval l run m.(m_point) with
    | Some (a, b) => let? m' := map_interval m a b end2 in map_pairs l run end2 m'
    | None => Err (lit "missing_clock_pair")
    end.
Proof.
  intros O H. induction l as [|a l IH]; [cbn; by rewrite (proj2 (Z.leb_gt _ _))|].
  destruct l as [|b l]; [cbn; by rewrite (proj2 (Z.leb_gt _ _))|].
  rewrite (map_pairs_cons a b l run end2 m H), find_interval_cons. destruct (around run m.(m_point) a b) eqn:A.
  - destruct (map_interval m a b end2) as [m'|] eqn:M; [|done]. cbn [result_bind]. apply map_interval_point in M.
    destruct (Z.le_gt_cases end2 m'.(m_point)); [by rewrite !map_pairs_done by done|]. symmetry. apply map_pairs_skip. intros ? [= <-] _. lia.
  - rewrite IH by by eapply ordered_tail. destruct (find_interval (b :: l) run m.(m_point)) as [[a' b']|] eqn:E; [|done].
    destruct (map_interval m a' b' end2) as [m'|] eqn:M; [|done]. cbn [result_bind]. apply map_interval_point in M.
    destruct (Z.le_gt_cases end2 m'.(m_point)); [by rewrite !map_pairs_done by done|]. symmetry. apply map_pairs_skip. intros ? [= <-] Hr.
    apply find_interval_Some in E as (i & _ & Lb & A'). apply around_spec in A'. apply ordered_tail in O.
    pose proof (O 0%nat (S i) b b' ltac:(lia) eq_refl Lb) as Lt. unfold pair_lt in Lt. lia.
Qed.

Section Loops.
Context `{RC : RecordingCrypto}.
Context (all : list StampedPair) (O : ordered all).

Lemma back_before n c run point :
  cursor_at all n c -> behind c run point = true <-> (0 < n)%nat /\ (n <= past all run point)%nat.
Proof using O.
  intros [Hn Hp _]. unfold behind. rewrite Hp, window_back by done. destruct n as [|n].
  - cbn. split; [done|lia].
  - destruct (lookup_lt_is_Some_2 all n ltac:(lia)) as [a La]. rewrite (take_S_r _ _ _ La), last_snoc. cbn [is_some_and].
    fold (before run point a). rewrite (past_lookup all run point n a O La). lia.
Qed.

Lemma covers_at n c run start2 :
  cursor_at all n c -> covers_start c run start2 = true <-> (2 <= n)%nat /\ (past all run (start2 - 1) < n)%nat.
Proof using O.
  intros [Hn Hp _]. unfold covers_start. rewrite Hp, window_back by done. unfold zlen. rewrite length_drop, length_take.
  rewrite andb_true_iff, Z.leb_le. destruct n as [|n]; [cbn; intuition lia|].
  destruct (lookup_lt_is_Some_2 all n ltac:(lia)) as [a La]. rewrite (take_S_r _ _ _ La), last_snoc. cbn [is_some_and].
  pose proof (past_lookup all run (start2 - 1) n a O La) as B. rewrite before_spec in B.
  rewrite orb_true_iff, andb_true_iff, Z.ltb_lt, Z.eqb_eq, Z.leb_le. destruct (decide (n < past all run (start2 - 1))%nat); intuition lia.
Qed.

Lemma reach_start_at fuel n c run start2 :
  cursor_at all n c -> (length all - n < fuel)%nat ->
  exists n' c', returns (reach_start fuel c run start2) c' /\ cursor_at all n' c' /\ (n <= n')%nat /\
    (n' = n \/ (n' <= 2)%nat \/ (n' <= past all run (start2 - 1) + 1)%nat) /\ (0 < n' \/ length all = 0)%nat.
Proof using O.
  revert n c. induction fuel as [|fuel IH]; intros n c C F; [lia|]. cbn [reach_start].
  destruct (covers_start c run start2) eqn:V.
  - pose proof (proj1 (covers_at _ _ _ _ C) V). exists n, c. split_and!; [done..|by left|lia].
  - assert (NV : ~ ((2 <= n)%nat /\ (past all run (start2 - 1) < n)%nat)) by (rewrite <- (covers_at _ _ _ _ C), V; done).
    destruct (advance_at _ _ _ C) as (c2 & A & C2). pose proof (ca_bound _ _ _ C).
    destruct (bool_decide (n < length all)%nat) eqn:B; breflect.
    + destruct (IH _ _ C2 ltac:(lia)) as (n' & c' & R & C' & L & Cases & Pos). exists n', c'. split_and!; [|done|lia| |done].
      * eapply returns_bind; [exact A|]. exact R.
      * destruct Cases as [-> | Cases]; [lia|]. by right.
    + exists n, c2. split_and!; [by eapply returns_bind|done|done|by left|lia].
Qed.

Lemma map_loop_at fuel n c run end2 m :
  cursor_at all n c -> (0 < n \/ length all = 0)%nat -> (n <= 2 \/ n <= past all run m.(m_point) + 2)%nat ->
  ((length all - n) + (length all - past all run m.(m_point)) < fuel)%nat ->
  exists n' c', returns (map_loop fuel c run end2 m) (map_pairs all run end2 m, c') /\ cursor_at all n' c' /\ (n <= n')%nat /\
    (n' = n \/ (n' <= past all run (end2 - 1) + 1)%nat).
Proof using O.
  revert n c m. induction fuel as [|fuel IH]; intros n c m C P W F; [lia|]. cbn [map_loop].
  destruct (end2 <=? m.(m_point)) eqn:L; breflect; [exists n, c; rewrite map_pairs_done by done; split_and!; [done..|by left]|].
  pose proof C as [Hn Hp _]. rewrite Hp, (find_window _ _ _ _ _ O Hn) by lia. rewrite (map_pairs_unfold _ _ _ _ O L).
  pose proof (past_mono all run m.(m_point) run (end2 - 1) ltac:(lia)) as Mono. pose proof (past_le all run m.(m_point)) as Le.
  assert (NF : (length all <= past all run m.(m_point))%nat -> find_interval all run m.(m_point) = None).
  { intros Hl. destruct (find_interval all run m.(m_point)) as [[a b]|] eqn:E; [|done].
    apply find_interval_Some in E as (i & La & Lb & A). pose proof (around_index _ _ _ _ _ _ O La Lb A). apply lookup_lt_Some in Lb. lia. }
  destruct (decide _) as [Lt|Ge].
  - assert (Nb : behind c run m.(m_point) = false) by (apply not_true_iff_false; rewrite (back_before _ _ _ _ C); lia).
    destruct (find_interval all run m.(m_point)) as [[a b]|] eqn:E; [|rewrite Nb; exists n, c; split_and!; [done..|by left]].
    destruct (map_interval m a b end2) as [m'|e] eqn:M; [|exists n, c; split_and!; [done..|by left]].
    cbn [result_bind]. pose proof (map_interval_point _ _ _ _ _ M) as Pt.
    destruct (Z.le_gt_cases end2 m'.(m_point)) as [D|D].
    { exists n, c. rewrite map_pairs_done by done. split_and!; [|done|done|by left]. eapply returns_bind; [by apply returns_check|].
      destruct fuel; cbn [map_loop]; by rewrite (proj2 (Z.leb_le _ _)). }
    assert (K : (past all run m.(m_point) < past all run m'.(m_point))%nat).
    { apply find_interval_Some in E as (i & La & Lb & A). pose proof (around_index _ _ _ _ _ _ O La Lb A) as <-.
      apply (past_lookup _ _ _ _ _ O Lb), before_spec. apply around_spec in A. lia. }
    pose proof (past_le all run m'.(m_point)) as Le'.
    destruct (IH n c m' C P ltac:(lia) ltac:(lia)) as (n' & c' & R & C' & Hle & Cases). exists n', c'. split_and!; [|done..].
    eapply returns_bind; [by apply returns_check|]. exact R.
  - destruct (behind c run m.(m_point)) eqn:B.
    + destruct (advance_at _ _ _ C) as (c2 & A & C2). apply (back_before _ _ _ _ C) in B.
      destruct (bool_decide (n < length all)%nat) eqn:Bl; breflect.
      * destruct (IH _ _ m C2 ltac:(lia) ltac:(lia) ltac:(lia)) as (n' & c' & R & C' & Hle & Cases). exists n', c'.
        rewrite (map_pairs_unfold _ _ _ _ O L) in R.
        split_and!; [|done|lia|right; lia]. eapply returns_bind; [by apply returns_check|]. eapply returns_bind; [exact A|]. exact R.
      * rewrite NF by lia. exists n, c2. split_and!; [|done|done|by left]. eapply returns_bind; [by apply returns_check|]. by eapply returns_bind.
    + assert (N0 : n = 0%nat). { apply not_true_iff_false in B. rewrite (back_before _ _ _ _ C) in B. lia. }
      rewrite NF by lia. exists n, c. split_and!; [done..|by left].
Qed.

(** A mapping that has a start has the rest. *)
Definition full (m : Mapping) : Prop := is_some m.(m_start) = true -> is_some m.(m_wall_epoch) = true /\ is_some m.(m_wall_run) = true.

Lemma map_interval_full m a b end2 m' : map_interval m a b end2 = Ok m' -> full m'.
Proof using.
  unfold map_interval. destruct (interval_reason _ _); [done|]. destruct (_ || _); [done|].
  intros (s & _ & H)%result_bind_Ok. by apply result_bind_Ok in H as (f & _ & <-%Ok_inj).
Qed.

Lemma map_pairs_full l run end2 m m' : full m -> map_pairs l run end2 m = Ok m' -> full m'.
Proof using.
  revert m. induction l as [|a [|b l] IH]; intros m Fm H.
  - cbn in H. by destruct (_ <=? _); simplify_eq.
  - cbn in H. by destruct (_ <=? _); simplify_eq.
  - destruct (Z.le_gt_cases end2 m.(m_point)) as [D|D]; [rewrite map_pairs_done in H by done; by simplify_eq|].
    rewrite map_pairs_cons in H by done. destruct (around _ _ _ _); [|by eapply IH].
    apply result_bind_Ok in H as (m1 & H1 & H2). eapply IH; [|exact H2]. by eapply map_interval_full.
Qed.

Lemma wall_estimate_full m : full m -> wall_estimate m = Val (estimate_of m).
Proof using.
  unfold full, estimate_of, wall_estimate. intros H. destruct (m_start m); [|done]. destruct (m_end m); [|done]. destruct (H eq_refl) as [H1 H2].
  destruct (m_wall_epoch m); [|done]. by destruct (m_wall_run m).
Qed.

(** A mapping is the one computed with every pair at hand. *)
Lemma pc_map_at n c run start finish :
  cursor_at all n c -> start < finish -> (n <= 2 \/ n <= past all run (start * 2) + 2)%nat ->
  exists n' c', returns (pc_map c run start finish) (wall_time all run start finish, c') /\ cursor_at all n' c' /\
    ((n' <= 2)%nat \/ n' = n \/ (n' <= past all run (finish * 2 - 1) + 1)%nat).
Proof using O.
  intros C Lt W. unfold pc_map.
  destruct (reach_start_at (map_fuel c) n c run (start * 2) C) as (n1 & c1 & R1 & C1 & L1 & Cases1 & P1).
  { unfold map_fuel, cursor_fuel. pose proof (cursor_unread _ _ _ C). lia. }
  pose proof (past_mono all run (start * 2 - 1) run (start * 2) ltac:(lia)) as M1.
  pose proof (past_mono all run (start * 2 - 1) run (finish * 2 - 1) ltac:(lia)) as M2.
  assert (W1 : (n1 <= 2 \/ n1 <= past all run (start * 2) + 2)%nat) by lia.
  destruct (map_loop_at (map_fuel c1) n1 c1 run (finish * 2) (Mapping_new (start * 2)) C1 P1 W1) as (n2 & c2 & R2 & C2 & L2 & Cases2).
  { cbn [m_point Mapping_new]. unfold map_fuel, cursor_fuel. pose proof (cursor_unread _ _ _ C1). pose proof (ca_bound _ _ _ C1). lia. }
  exists n2, c2. split_and!; [|done|lia].
  eapply returns_bind; [exact R1|]. eapply returns_bind; [exact R2|]. unfold wall_time.
  destruct (map_pairs all run (finish * 2) (Mapping_new (start * 2))) as [m|e] eqn:E; [|done]. cbn [result_bind].
  assert (Fm : full m) by (eapply map_pairs_full; [|exact E]; by intros ?). rewrite (wall_estimate_full m Fm). done.
Qed.
End Loops.
