(* ===== verification/AlignmentWalk.v ===== *)
(** * The entries of an alignment

    What the walk of [Alignment] reports, as a function of the list of chunks:
    [spec_entries] has no cursors and maps every frame with all clock pairs of
    the recording. On a recording that passed the preflight the walk reports
    exactly those entries. *)

From S2P Require Import Prelude RustStr Bytes Errors Pcm Decimals CaptureTiming ClientTiming Audio RecordingSafety Chunks Recorder Reader Recording Reconciliation Alignment AlignmentPairs.

Local Open Scope Z_scope.

(** ** Chunks as they are decoded *)

Definition chunk_wf (chunk : RecordedChunk) : Prop :=
  match chunk with
  | TimedFrame at_ms f timing bytes =>
      wf_format f /\ aligned f bytes /\ 0 < zlen bytes /\ is_u64 at_ms /\
      forall p, timing = Some p -> wf_provenance p /\ FrameProvenance_validate p = Ok tt /\ validate_pcm p f (zlen bytes) = Ok tt
  | ChunkMetadata (Metadata_Epoch e) => wf_epoch e /\ CaptureEpoch_validate e = Ok tt
  | ChunkMetadata (Metadata_ClockPair p) => wf_pair p /\ CaptureClockPair_validate p = Ok tt
  | ChunkMetadata (Metadata_Discontinuity epoch _) => is_u64 epoch /\ epoch <> 0
  | GapStarted at_ms _ | GapEnded at_ms | Ended at_ms => is_u64 at_ms
  | Frame _ _ _ _ _ _ => False
  | TimingPolicy | AlignmentLimit => True
  end.

Lemma field_u64 from bs :
  Forall is_byte bs -> (from + 8 <= length bs)%nat -> is_u64 (be_value (slice from (from + 8) bs)).
Proof. intros Hb Hl. pose proof (be_value_slice_bounds 8 from bs Hb Hl). change (256 ^ Z.of_nat 8) with 18446744073709551616 in *. ints. Qed.

Lemma or_recovery_Ok {A} (r : result A AdapterError) a : or_recovery r = Ok a -> r = Ok a.
Proof. by destruct r; cbn; intros; simplify_eq. Qed.

Lemma unit_Ok {E} (r : result unit E) u : r = Ok u -> r = Ok tt.
Proof. by destruct u. Qed.

Lemma decode_timed_frame_wf body chunk : Forall is_byte body -> decode_timed_frame body = Ok chunk -> chunk_wf chunk.
Proof.
  intros Hb H. pose proof (decode_timed_frame_ok _ _ Hb H) as K. unfold decode_timed_frame in H. destruct (bool_decide _) eqn:HL; [done|]. breflect.
  apply result_bind_Ok in H as (sf & _ & H). apply result_bind_Ok in H as (f & Hf & H).
  apply result_bind_Ok in H as ([t o] & Ht & H). apply result_bind_Ok in H as (al & Ha & H).
  destruct (_ || _ || _) eqn:G; [done|]. breflect. apply result_bind_Ok in H as (u & Hu & <-%Ok_inj).
  cbn in K |- *. destruct K as (_ & K1 & K2 & K3). split_and!; [done|done|by apply nonempty_pos|by apply (field_u64 0); [|lia]|].
  intros p ->. apply or_recovery_Ok, unit_Ok in Hu. split_and!; [| |done].
  - destruct (_ =? 0); [by simplify_eq|]. destruct (_ && _); [|done]. apply result_bind_Ok in Ht as (q & Hq%or_recovery_Ok & Ht). simplify_eq.
    by eapply (proj2 (provenance_encode_decode _ _ (slice_bytes _ _ _ Hb) Hq)).
  - unfold validate_pcm in Hu. by apply result_bind_Ok in Hu as ([] & ? & _).
Qed.

Lemma decode_chunk_wf header st record chunk :
  Forall is_byte record -> header_is_timed header = true -> admit_record header st record = Ok chunk -> chunk_wf chunk.
Proof.
  intros Hb Ht H. unfold admit_record in H. destruct record as [|kind body]; [done|]. rewrite Ht in H.
  destruct (_ || _) eqn:K; [done|]. breflect. destruct (_ && _ && _); [done|].
  apply Forall_cons in Hb as [_ Hb]. unfold decode_chunk in H.
  destruct (kind =? CHUNK_POLICY) eqn:K1; [by destruct (bool_decide _); simplify_eq|].
  destruct (kind =? CHUNK_TIMED_FRAME) eqn:K2; [by eapply decode_timed_frame_wf|].
  destruct (kind =? CHUNK_EPOCH).
  { apply result_bind_Ok in H as (e & He%or_recovery_Ok & <-%Ok_inj). destruct (epoch_encode_decode _ _ Hb He) as [E W]. split; [done|].
    unfold CaptureEpoch_encode in E. by apply result_bind_Ok in E as ([] & ? & _). }
  destruct (kind =? CHUNK_CLOCK_PAIR).
  { apply result_bind_Ok in H as (p & Hp%or_recovery_Ok & <-%Ok_inj). destruct (pair_encode_decode _ _ Hb Hp) as [E W]. split; [done|].
    unfold CaptureClockPair_encode in E. by apply result_bind_Ok in E as ([] & ? & _). }
  destruct (kind =? CHUNK_TIMING_DISCONTINUITY).
  { destruct (bool_decide _) eqn:L; [|done]. destruct (_ =? 0) eqn:Z0; [done|]. breflect.
    apply result_bind_Ok in H as (? & _ & <-%Ok_inj). split; [|done]. apply (field_u64 0); [done|lia]. }
  destruct (kind =? CHUNK_ALIGNMENT_LIMIT); [by destruct (is_empty _); simplify_eq|].
  destruct (kind =? CHUNK_FRAME) eqn:K3; [done|].
  destruct (kind =? CHUNK_GAP_STARTED).
  { unfold decode_gap_started in H. destruct (bool_decide _) eqn:L; [done|]. breflect.
    apply result_bind_Ok in H as (? & _ & H). apply result_bind_Ok in H as (? & _ & <-%Ok_inj). apply (field_u64 0); [done|lia]. }
  destruct ((kind =? CHUNK_GAP_ENDED) || (kind =? CHUNK_ENDED)); [|done]. destruct (negb (bool_decide _)) eqn:L; [done|]. breflect. apply Ok_inj in H as <-.
  assert (is_u64 (be_value (slice 0 8 body))) by (apply (field_u64 0); [done|lia]). by destruct (kind =? CHUNK_GAP_ENDED).
Qed.

Section Chunks.
Context `{RC : RecordingCrypto} `{RO : !RecordingOpenLaws RC}.

Lemma next_chunk_wf c chunk c1 :
  Forall is_byte c.(remaining) -> header_is_timed c.(reader_header) = true -> next_chunk c = (Ok (Some chunk), c1) -> chunk_wf chunk.
Proof using RC RO.
  intros Hb Ht H. unfold next_chunk in H. destruct (finished c); [done|]. cbn [fill] in H.
  destruct (bool_decide _); [done|]. destruct (negb _); [done|].
  destruct (_ <? _) eqn:L; [done|]. destruct (negb _) eqn:B; [done|]. breflect. cbn in H.
  destruct (open _ _ _) as [record|] eqn:O; [|done].
  destruct (admit_record _ _ _) as [ch|] eqn:A; [|done]. destruct (_ <? _); [done|]. simplify_eq.
  apply open_plaintext in O as [O1 O2]; [|by apply Forall_take, Forall_drop]. eapply decode_chunk_wf; [exact O1| |exact A]. exact Ht.
Qed.

Lemma reads_wf c chunks c' :
  reads c chunks c' -> Forall is_byte c.(remaining) -> header_is_timed c.(reader_header) = true -> Forall chunk_wf chunks.
Proof using RC RO.
  induction 1 as [|c chunk c1 chunks c' N R IH]; intros Hb Ht; [constructor|].
  pose proof (next_chunk_ok _ _ _ Hb N) as (_ & Hb1 & Hh & _). constructor; [exact (next_chunk_wf _ _ _ Hb Ht N)|]. apply IH; [done|by rewrite Hh].
Qed.
End Chunks.

(** ** The order of the clock pairs *)

Lemma pair_lt_trans a b c : pair_lt a b -> pair_lt b c -> pair_lt a c.
Proof. unfold pair_lt. lia. Qed.

Lemma ordered_cons a l : ordered l -> (forall b, head l = Some b -> pair_lt a b) -> ordered (a :: l).
Proof.
  intros O H i j x y Hij Hx Hy. destruct i as [|i]; [|destruct j as [|j]; [lia|]; apply (O i j); [lia|done..]].
  destruct j as [|j]; [lia|]. cbn in Hx, Hy. simplify_eq. destruct l as [|b l]; [done|]. destruct j as [|j]; cbn in Hy; [simplify_eq; by apply H|].
  apply (pair_lt_trans _ b); [by apply H|]. apply (O 0%nat (S j)); [lia|done..].
Qed.

(** A step of the walk in a timed recording is accepted by the validation. *)
Lemma walk_accepts s chunk s1 :
  walk_chunk true s chunk = Ok (inl s1) -> accept s.(walk_validation) chunk = Ok s1.(walk_validation).
Proof.
  intros H. unfold walk_chunk in H. destruct (walk_ended s); [done|]. apply result_bind_Ok in H as (v & Hv & H). rewrite Hv. f_equal.
  destruct chunk; inv_branches H; repeat (apply result_bind_Ok in H as (? & ? & H)); inv_branches H; try done;
    first [by apply advance_inl in H; simplify_eq|by simplify_eq].
Qed.

(** The last pair read, the tracker and the validation go together. *)
Definition linked (prior : option StampedPair) (t : CaptureTracker) (v : TimedValidation) : Prop :=
  forall p, prior = Some p -> p.(sp_run) <= t.(ct_run) /\ (p.(sp_run) = t.(ct_run) -> v.(tv_pair) = Some p.(stamped)).

Lemma charge_timing_pair v n v' : charge_timing v n = Ok v' -> v'.(tv_pair) = v.(tv_pair) /\ v'.(tv_epoch) = v.(tv_epoch).
Proof.
  unfold charge_timing. destruct (tv_exhausted v); [done|]. intros (r & _ & H)%result_bind_Ok. apply result_bind_Ok in H as (b & _ & H).
  destruct (_ || _); [done|]. by simplify_eq.
Qed.

(** What accepting a chunk does to the last pair. *)
Lemma accept_tv_pair v chunk v' :
  accept v chunk = Ok v' ->
  match chunk with
  | ChunkMetadata (Metadata_ClockPair p) =>
      v'.(tv_pair) = Some p /\ forall q, v.(tv_pair) = Some q -> midpoint_twice q < midpoint_twice p
  | ChunkMetadata (Metadata_Epoch _) => True
  | _ => v'.(tv_pair) = v.(tv_pair)
  end.
Proof.
  unfold accept. destruct (negb _); [by destruct chunk; intros; simplify_eq|]. intros H.
  destruct chunk as [? ? [p|] ?| |[e|p|ep re]| | | | |]; try (by simplify_eq).
  - apply result_bind_Ok in H as (v1 & H1 & H2). apply charge_timing_pair in H2 as [-> _]. unfold accept_timing in H1.
    destruct (tv_epoch v); [|done]. destruct (_ || _ || _); [done|]. by apply result_bind_Ok in H1 as (? & _ & <-%Ok_inj).
  - apply result_bind_Ok in H as (v1 & H1 & H2). apply result_bind_Ok in H2 as (rec & _ & H2). apply charge_timing_pair in H2 as [-> _].
    cbn in H1. unfold accept_pair in H1. destruct (is_none_or _ _); [done|]. destruct (is_some_and _ _) eqn:S; [done|]. simplify_eq.
    split; [done|]. intros q Hq. rewrite Hq in S. cbn in S. breflect. done.
  - apply result_bind_Ok in H as (v1 & H1 & H2). apply result_bind_Ok in H2 as (rec & _ & H2). apply charge_timing_pair in H2 as [-> _].
    cbn in H1. by destruct (is_none_or _ _); simplify_eq.
  - by destruct (tv_exhausted v); simplify_eq.
Qed.

Lemma tracker_frame_run t timing : t.(ct_run) <= (tracker_frame t timing).2.(ct_run).
Proof.
  unfold tracker_frame. destruct timing as [f|]; [|cbn; lia].
  set (hole := negb _ && _). destruct hole; cbn -[Z.add]; destruct (span f); cbn; try (destruct (is_some_and _ _)); cbn; lia.
Qed.

Lemma track_run t chunk :
  match chunk with ChunkMetadata (Metadata_Epoch _) => t.(ct_run) < (track t chunk).(ct_run) | _ => t.(ct_run) <= (track t chunk).(ct_run) end.
Proof. destruct chunk as [? ? timing ?| |[e|p|]| | | | |]; cbn; try lia. apply tracker_frame_run. Qed.

Lemma stamps_ordered chunks t wall prior s s' :
  walk_list true s chunks = Ok s' -> linked prior t s.(walk_validation) ->
  ordered (stamps t wall prior chunks) /\
  forall p b, prior = Some p -> head (stamps t wall prior chunks) = Some b -> pair_lt p b.
Proof.
  revert t wall prior s. induction chunks as [|chunk chunks IH]; intros t wall prior s W L; [split; [by intros ? ?|done]|].
  cbn [walk_list] in W. apply result_bind_Ok in W as ([s1|] & W1 & W); [|done].
  pose proof (accept_tv_pair _ _ _ (walk_accepts _ _ _ W1)) as A.
  destruct (match chunk with ChunkMetadata (Metadata_ClockPair p) => Some p | _ => None end) as [p|] eqn:P.
  - destruct chunk as [| |[|p'|]| | | | |]; try done. injection P as ->. destruct A as [A1 A2]. cbn [stamps].
    set (wall' := if breaks_wall_run prior (ct_run t) p then wall + 1 else wall). set (sp := {| stamped := p; sp_run := ct_run t; sp_wall_run := wall' |}).
    destruct (IH t wall' (Some sp) s1 W) as [O H]; [intros q [= <-]; cbn; done|].
    split; [apply ordered_cons; [done|]; intros b; by apply H|]. intros q b -> [= <-]. destruct (L q eq_refl) as [L1 L2]. unfold pair_lt. cbn.
    destruct (decide (sp_run q = ct_run t)) as [E|]; [|lia]. right. split; [done|]. apply A2, L2, E.
  - destruct (IH (track t chunk) wall prior s1 W) as [O H].
    + intros q Hq. destruct (L q Hq) as [L1 L2]. pose proof (track_run t chunk) as T.
      destruct chunk as [| |[|p'|]| | | | |]; try done; try (split; [lia|intros E; rewrite A; apply L2; lia]). split; [lia|]. intros E. lia.
    + destruct chunk as [| |[|p'|]| | | | |]; done.
Qed.

Lemma all_pairs_ordered chunks s' : walk_list true WalkState_default chunks = Ok s' -> ordered (all_pairs chunks).
Proof. intros W. by eapply (proj1 (stamps_ordered _ _ 1 None _ _ W _)). Unshelve. done. Qed.

(** ** The calls of the cursor *)

(** After a call that ended at [finish] in run [run], the cursor is at most one
    pair past it; later calls start no earlier than a nanosecond before. *)
Definition in_reach (all : list StampedPair) (n : nat) (t : CaptureTracker) : Prop :=
  (n <= 2)%nat \/ exists run finish2, (n <= past all run (finish2 - 1) + 1)%nat /\
    (run < t.(ct_run) \/ run = t.(ct_run) /\ exists h, t.(ct_host_end) = Some h /\ finish2 <= 2 * h).

Lemma in_reach_later all n t t' :
  in_reach all n t -> t.(ct_run) < t'.(ct_run) -> in_reach all n t'.
Proof. intros [|(r & e & H & C)] L; [by left|]. right. exists r, e. split; [done|]. left. lia. Qed.

(** A frame on the capture clock, after the last one. *)
Lemma tracker_frame_mapped t timing a t' :
  tracker_frame t timing = (a, t') -> a.(mapped) = true ->
  exists p s, timing = Some p /\ p.(span) = Some s /\ t'.(ct_host_end) = Some s.(host_end_ns) /\
    (t'.(ct_run) = t.(ct_run) \/ t.(ct_run) < t'.(ct_run)) /\
    forall h, t.(ct_host_end) = Some h -> h - 1 <= s.(host_start_ns) /\ h < s.(host_end_ns).
Proof.
  unfold tracker_frame. destruct timing as [p|]; [|intros [= <- <-]; done]. set (hole := negb _ && _).
  assert (T : forall q, ct_host_end (set_position (if hole then barrier t else t) q (checked_add (output_start_sample p) (sample_count p))) = ct_host_end t)
    by (destruct hole; done).
  rewrite T. destruct (span p) as [s|] eqn:S; [|intros [= <- <-]; done]. destruct (is_some_and _ _) eqn:I; [intros [= <- <-]; done|].
  intros [= <- <-] _. exists p, s. split_and!; [done..| |].
  - destruct hole; cbn; [right; lia|by left].
  - intros h Hh. rewrite Hh in I. cbn in I. unfold saturating_sub in I. breflect. lia.
Qed.

Lemma tracker_frame_reach all n t timing : in_reach all n t -> in_reach all n (tracker_frame t timing).2.
Proof.
  intros R. destruct (tracker_frame t timing) as [a t'] eqn:E. cbn. destruct timing as [p|]; [|simplify_eq/=; apply (in_reach_later _ _ t); [done|cbn; lia]].
  unfold tracker_frame in E. set (hole := negb _ && _) in E.
  assert (R1 : in_reach all n (set_position (if hole then barrier t else t) (sequence p) (checked_add (output_start_sample p) (sample_count p))))
    by (destruct hole; [apply (in_reach_later _ _ t); [done|cbn; lia]|exact R]).
  revert E R1. generalize (set_position (if hole then barrier t else t) (sequence p) (checked_add (output_start_sample p) (sample_count p))).
  intros t1 E R1.
  destruct (span p) as [s|]; [|simplify_eq/=; apply (in_reach_later _ _ t1); [done|cbn; lia]].
  destruct (is_some_and _ _) eqn:I; simplify_eq/=; [apply (in_reach_later _ _ t1); [done|cbn; lia]|].
  destruct R1 as [|(r & e & H & C)]; [by left|]. right. exists r, e. split; [done|]. destruct C as [C|(C & h & Hh & Le)]; [by left|]. right. split; [done|].
  rewrite Hh in I. cbn in I. breflect. exists (host_end_ns s). split; [done|]. lia.
Qed.

Lemma track_reach all n t chunk : in_reach all n t -> in_reach all n (track t chunk).
Proof.
  intros R. destruct chunk as [? ? timing ?| |[e|p|]| | | | |]; cbn [track tracker_observe]; try done;
    first [by apply tracker_frame_reach | apply (in_reach_later _ _ t); [done|cbn; lia]].
Qed.

Section Entries.
Context (all : list StampedPair).

(** The entry of a chunk, with every clock pair at hand. *)
Definition spec_entry (w : Walk) (chunk : RecordedChunk) : rresult (option ClientAlignmentEntry * Walk) :=
  match chunk with
  | TimedFrame _ f timing bytes =>
      let? finish := frame_end w f bytes in
      let '(a, t) := tracker_frame w.(wk_tracker) timing in
      let mapping := if a.(mapped) then
        s ← timing ≫= span; Some (s, wall_time all t.(ct_run) s.(host_start_ns) s.(host_end_ns)) else None in
      let '(entry, w) := frame_entry w f timing finish a t mapping in
      Ok (Some entry, w)
  | _ =>
      let? '(entry, w) := chunk_entry w chunk in
      Ok (entry, set_tracker w (tracker_observe w.(wk_tracker) chunk))
  end.

Fixpoint spec_entries (w : Walk) (chunks : list RecordedChunk) : rresult (list ClientAlignmentEntry * Walk) :=
  match chunks with
  | [] => Ok ([], w)
  | chunk :: rest =>
      let? '(entry, w) := spec_entry w chunk in
      let? '(entries, w) := spec_entries w rest in
      Ok (option_list entry ++ entries, w)
  end.

Lemma warn_all_tracker reasons w :
  (fold_left warn reasons w).(wk_tracker) = w.(wk_tracker) /\ (fold_left warn reasons w).(wk_samples) = w.(wk_samples) /\
  (fold_left warn reasons w).(wk_rate) = w.(wk_rate) /\ (fold_left warn reasons w).(wk_gap_ms) = w.(wk_gap_ms) /\
  (fold_left warn reasons w).(wk_gap) = w.(wk_gap).
Proof. revert w. induction reasons as [|r reasons IH]; intros w; [done|]. cbn. by destruct (IH (warn w r)) as (-> & -> & -> & -> & ->). Qed.

Lemma frame_entry_tracker w f timing finish a t mapping : (frame_entry w f timing finish a t mapping).2.(wk_tracker) = t.
Proof. unfold frame_entry. by destruct mapping as [[s [e|e]]|]. Qed.

Lemma chunk_entry_tracker w chunk e w' : chunk_entry w chunk = Ok (e, w') -> w'.(wk_tracker) = w.(wk_tracker).
Proof.
  intros H. destruct chunk as [| |[|p|? r]| | | | |]; cbn in H; try (by simplify_eq).
  - apply Ok_inj in H. simplify_eq. by destruct r.
  - by apply result_bind_Ok in H as (? & _ & [= _ <-]%Ok_inj).
  - apply result_bind_Ok in H as ([o s] & _ & H). apply result_bind_Ok in H as (g & _ & H). by apply result_bind_Ok in H as (fi & _ & [= _ <-]%Ok_inj).
Qed.

Lemma spec_entry_tracker w chunk e w' : spec_entry w chunk = Ok (e, w') -> w'.(wk_tracker) = track w.(wk_tracker) chunk.
Proof.
  intros H. destruct (match chunk with TimedFrame _ f timing bytes => Some (f, timing, bytes) | _ => None end) as [[[f timing] bytes]|] eqn:E.
  - destruct chunk; try done. injection E as -> -> ->. cbn in H |- *. apply result_bind_Ok in H as (finish & _ & H).
    destruct (tracker_frame _ _) as [a t]. set (mp := if mapped a then _ else _) in H. pose proof (frame_entry_tracker w f timing finish a t mp) as T.
    destruct (frame_entry _ _ _ _ _ _ _) as [en w1]. cbn in T |- *. by simplify_eq.
  - assert (H' : exists w1, chunk_entry w chunk = Ok (e, w1) /\ w' = set_tracker w1 (tracker_observe w1.(wk_tracker) chunk)).
    { destruct chunk; try done; cbn [spec_entry] in H; apply result_bind_Ok in H as ([e1 w1] & H1 & [= -> <-]%Ok_inj); by exists w1. }
    destruct H' as (w1 & H1 & ->). apply chunk_entry_tracker in H1. rewrite H1. cbn. by destruct chunk.
Qed.

Context `{RC : RecordingCrypto} (O : ordered all).

(** The walk reports what the specification says. *)
Lemma walk_entry_at n c w chunk e w' :
  cursor_at all n c -> in_reach all n w.(wk_tracker) -> chunk_wf chunk -> spec_entry w chunk = Ok (e, w') ->
  exists n' c', returns (walk_entry w c chunk) (e, w', c') /\ cursor_at all n' c' /\ in_reach all n' w'.(wk_tracker).
Proof using O.
  intros C R K H. pose proof (spec_entry_tracker _ _ _ _ H) as T.
  destruct (match chunk with TimedFrame _ f timing bytes => Some (f, timing, bytes) | _ => None end) as [[[f timing] bytes]|] eqn:E.
  - destruct chunk; try done. injection E as -> -> ->. cbn [spec_entry walk_entry] in *. apply result_bind_Ok in H as (finish & Hf & H).
    rewrite T. cbn [track]. pose proof (tracker_frame_reach all n w.(wk_tracker) timing R) as R'.
    destruct (tracker_frame (wk_tracker w) timing) as [a t] eqn:F. destruct (mapped a) eqn:M.
    + destruct (tracker_frame_mapped _ _ _ _ F M) as (p & s & -> & Hs & He & Hr & Hb). cbn [mbind option_bind] in H. rewrite Hs in H. cbn [mbind option_bind] in H.
      destruct K as (_ & _ & _ & _ & K). destruct (K p eq_refl) as (_ & V & _).
      assert (Lt : host_start_ns s < host_end_ns s).
      { unfold FrameProvenance_validate in V. apply result_bind_Ok in V as (? & _ & V). destruct (_ || _); [done|]. rewrite Hs in V.
        destruct ((_ =? 0) || _) eqn:G; [done|]. breflect. done. }
      destruct (pc_map_at all O n c t.(ct_run) (host_start_ns s) (host_end_ns s) C Lt) as (n' & c' & Rm & C' & Cases).
      { destruct R as [|(r & e2 & Hn & Cs)]; [by left|]. right. destruct Cs as [Cs|(Cs & h & Hh & Le)].
        - pose proof (past_mono all r (e2 - 1) (ct_run t) (host_start_ns s * 2) ltac:(left; lia)). lia.
        - destruct (Hb h Hh). destruct Hr as [Hr|Hr]; [|pose proof (past_mono all r (e2 - 1) (ct_run t) (host_start_ns s * 2) ltac:(left; lia)); lia].
          pose proof (past_pred all r (e2 - 1) O). pose proof (past_mono all r (e2 - 1 - 1) (ct_run t) (host_start_ns s * 2) ltac:(right; lia)). lia. }
      exists n', c'. destruct (frame_entry _ _ _ _ _ _ _) as [en w1] eqn:Fe. simplify_eq. split_and!; [|done|].
      * eapply returns_bind; [by apply returns_lift|]. eapply returns_bind; [cbn; rewrite Hs; done|]. eapply returns_bind; [exact Rm|]. cbn beta iota. by rewrite Fe.
      * destruct Cases as [Cs|[->|Cs]]; [by left|done|]. right. exists (ct_run t), (host_end_ns s * 2). split; [done|]. right. split; [done|].
        exists (host_end_ns s). split; [done|]. lia.
    + exists n, c. destruct (frame_entry _ _ _ _ _ _ _) as [en w1] eqn:Fe. simplify_eq. split_and!; [|done|done].
      eapply returns_bind; [by apply returns_lift|]. by rewrite Fe.
  - assert (H' : (let? '(entry, w) := chunk_entry w chunk in Ok (entry, set_tracker w (tracker_observe w.(wk_tracker) chunk))) = Ok (e, w')) by by destruct chunk.
    apply result_bind_Ok in H' as ([e1 w1] & H1 & [= -> <-]%Ok_inj). exists n, c. split_and!; [|done|rewrite T; by apply track_reach].
    assert (W : walk_entry w c chunk = let~ '(entry, w) := lift (chunk_entry w chunk) in
       done (entry, set_tracker w (tracker_observe w.(wk_tracker) chunk), c)) by by destruct chunk.
    rewrite W. eapply returns_bind; [by apply returns_lift|]. done.
Qed.
End Entries.
