(* ===== verification/AlignmentReport.v ===== *)
(** * The report of an alignment

    Everything the walk of [Alignment] sends passes the client's validation:
    the views of decoded values, the wall-clock estimates and the reasons. *)

From Stdlib Require Import Sorting.Sorted.
From S2P Require Import Prelude RustStr Bytes Errors Pcm Decimals CaptureTiming ClientTiming Audio RecordingSafety Chunks Recorder Reader Recording Reconciliation Alignment AlignmentPairs AlignmentWalk.

Local Open Scope Z_scope.

(** ** Decimal fields *)

Lemma client_decimal_ok n positive : is_u64 n -> (positive = true -> n <> 0) -> client_decimal (decimal n) positive = Ok n.
Proof.
  intros H P. unfold client_decimal. rewrite parse_u64_decimal by done. cbn [ok_or result_bind]. rewrite bool_decide_eq_true_2 by done. cbn [negb orb].
  destruct positive; [|done]. by rewrite (proj2 (Z.eqb_neq _ _)) by by apply P.
Qed.

Lemma signed_decimal_ok n : i64_min <= n <= i64_max -> signed_decimal (decimal n) = Ok n.
Proof. intros H. unfold signed_decimal. rewrite parse_i64_decimal by done. cbn [ok_or result_bind]. by rewrite bool_decide_eq_true_2. Qed.

Lemma optional_decimal_ok o : opt_u64 o -> optional_decimal (decimal <$> o) = Ok tt.
Proof. intros H. destruct o as [v|]; [|done]. cbn. by rewrite client_decimal_ok by (done || by apply H). Qed.

Lemma client_identifier_ok s : validate_capture_identifier s = Ok tt -> client_identifier s = Ok tt.
Proof. unfold validate_capture_identifier, client_identifier. by destruct (_ || _ || _). Qed.

#[export] Hint Rewrite client_decimal_ok signed_decimal_ok optional_decimal_ok client_identifier_ok using (try done) : runtime.

Lemma epoch_view_valid e : wf_epoch e -> CaptureEpoch_validate e = Ok tt -> ClientCaptureEpoch_validate (epoch_view e) = Ok tt.
Proof.
  intros [W1 W2 W3] V. unfold CaptureEpoch_validate in V. apply result_bind_Ok in V as ([] & V1 & V). apply result_bind_Ok in V as ([] & V2 & V).
  destruct (_ =? 0) eqn:Z0; [done|]. breflect. unfold ClientCaptureEpoch_validate. cbn.
  by rewrite !client_identifier_ok, client_decimal_ok.
Qed.

Lemma pair_view_valid p : wf_pair p -> CaptureClockPair_validate p = Ok tt -> ClientCaptureClockPair_validate (pair_view p) = Ok tt.
Proof.
  intros [W1 W2 W3 W4 W5 W6 W7 W8] V. unfold CaptureClockPair_validate in V. apply result_bind_Ok in V as ([] & V1 & V).
  destruct (_ || _) eqn:G; [done|]. breflect. unfold ClientCaptureClockPair_validate. cbn [pair_view cp_clock_domain_id cp_wall_epoch cp_sequence cp_host_before_ns cp_host_after_ns cp_local_unix_ns cp_wall_resolution_ns cp_external_utc_accuracy_ns].
  rewrite client_identifier_ok by done. cbn [result_bind]. rewrite !client_decimal_ok by (done || (intros _; ints)). cbn [result_bind].
  rewrite (proj2 (Z.ltb_ge _ _)) by done. rewrite signed_decimal_ok by done. cbn [result_bind]. by rewrite optional_decimal_ok.
Qed.

Lemma quality_names q : one_of QUALITIES (CaptureMappingQuality_as_str q) = true /\
  bool_decide (CaptureMappingQuality_as_str q = lit "nominal_frame_endpoint_interpolation") = bool_decide (q = NominalFrameEndpointInterpolation).
Proof. destruct q; vm_compute; done. Qed.

Lemma frame_view_valid p : wf_provenance p -> FrameProvenance_validate p = Ok tt -> ClientFrameProvenance_validate (frame_view p) = Ok tt.
Proof.
  intros [W1 W2 W3 W4 W5 W6 W7 W8 W9] V. unfold FrameProvenance_validate in V. apply result_bind_Ok in V as (finish & Hf & V).
  destruct (checked_add _ _) as [fi|] eqn:Ca; [|done]. cbn in Hf. simplify_eq.
  destruct (_ || _) eqn:G; [done|]. breflect. destruct (quality_names (quality p)) as [Q1 Q2].
  unfold ClientFrameProvenance_validate. cbn [frame_view cf_capture_epoch cf_sequence cf_output_start_sample cf_sample_count cf_source_start_numerator cf_source_end_numerator
    cf_source_denominator cf_source_rate_hz cf_quality cf_span]. rewrite !client_decimal_ok by done. cbn [result_bind]. rewrite Q1, Q2, Ca. cbn [mbind option_bind].
  rewrite !(proj2 (Z.eqb_neq _ _)) by done. rewrite !bool_decide_eq_true_2 by done. cbn [negb orb].
  match goal with H : Bool.eqb _ _ = true |- _ => apply Bool.eqb_prop in H; rewrite <- H end.
  destruct (span p) as [s|] eqn:S; cbn [fmap option_fmap option_map is_some Bool.eqb negb]; [|done].
  destruct (W9 s eq_refl) as [S1 S2 S3 S4]. destruct (_ || _) eqn:G2 in V; [done|]. breflect.
  cbn [span_view cs_host_start_ns cs_host_end_ns cs_rounding_envelope_ns cs_capture_uncertainty_ns]. rewrite !client_decimal_ok by (done || (intros _; ints)). cbn [result_bind].
  rewrite (proj2 (Z.leb_gt _ _)) by done. by rewrite optional_decimal_ok.
Qed.

(** ** Reasons *)

Definition reasons_ok (l : list rstr) : Prop := NoDup l /\ Forall (fun r => r ∈ REASONS) l.

Lemma one_of_spec l v : one_of l v = true <-> v ∈ l.
Proof.
  unfold one_of. rewrite existsb_exists. split.
  - intros (x & Hx & E). breflect. subst. by apply list_elem_of_In.
  - intros H. exists v. split; [by apply list_elem_of_In|]. by apply bool_decide_eq_true_2.
Qed.

Lemma bad_reason_false seen l : NoDup l -> (forall r, r ∈ l -> r ∉ seen) -> Forall (fun r => r ∈ REASONS) l -> bad_reason seen l = false.
Proof.
  revert seen. induction l as [|r l IH]; intros seen N D F; [done|]. cbn [bad_reason]. apply NoDup_cons in N as [N1 N2]. apply Forall_cons in F as [F1 F2].
  rewrite (proj2 (one_of_spec REASONS r) F1). cbn [negb orb].
  assert (one_of seen r = false) as -> by (apply not_true_iff_false; rewrite one_of_spec; apply D; set_solver). cbn [orb]. apply IH; [done| |done].
  intros x Hx. rewrite elem_of_app, list_elem_of_singleton. intros [H|H]; [by apply (D x); [set_solver|]|by subst].
Qed.

Lemma validate_reasons_ok l : reasons_ok l -> validate_reasons l = Ok tt.
Proof.
  intros [N F]. unfold validate_reasons. rewrite bad_reason_false by (done || set_solver).
  assert (L : (length l <= length REASONS)%nat).
  { apply submseteq_length, NoDup_submseteq; [done|]. intros x Hx. rewrite Forall_forall in F. by apply F. }
  rewrite (proj2 (Z.ltb_ge _ _)) by (unfold zlen; lia). done.
Qed.

Lemma push_reason_ok l r : reasons_ok l -> r ∈ REASONS -> reasons_ok (push_reason l r).
Proof.
  intros [N F] R. unfold push_reason. destruct (one_of l r) eqn:E; [done|]. split.
  - apply NoDup_app. split_and!; [done| |apply NoDup_singleton]. intros x Hx Hs. apply list_elem_of_singleton in Hs. subst.
    apply not_true_iff_false in E. by rewrite one_of_spec in E.
  - apply Forall_app. split; [done|]. by apply Forall_singleton.
Qed.

Ltac known_reason := apply one_of_spec; vm_compute; reflexivity.

Lemma reasons_nil : reasons_ok [].
Proof. split; constructor. Qed.

Lemma assessment_reasons_ok t timing : reasons_ok (tracker_frame t timing).1.(assessment_reasons).
Proof.
  unfold tracker_frame. destruct timing as [f|]; [|cbn; apply (push_reason_ok []); [apply reasons_nil|known_reason]].
  set (hole := negb _ && _). assert (H : reasons_ok (if hole then push_reason [] (lit "sequence_hole") else [])).
  { destruct hole; [apply push_reason_ok; [|known_reason]|]; apply reasons_nil. }
  destruct (span f) as [s|]; [destruct (is_some_and _ _)|]; cbn [fst assessment_reasons]; [apply push_reason_ok; [done|known_reason]|done|apply push_reason_ok; [done|known_reason]].
Qed.

Lemma interval_reason_known a b r : interval_reason a b = Some r -> r ∈ REASONS.
Proof. unfold interval_reason. intros H. split_ifs_in H; simplify_eq; known_reason. Qed.

Lemma interpolate_reason a b p c r : interpolate a b p c = Err r -> r ∈ REASONS.
Proof. unfold interpolate. intros H. split_ifs_in H; simplify_eq; known_reason. Qed.

Lemma map_interval_reason m a b end2 r : map_interval m a b end2 = Err r -> r ∈ REASONS.
Proof.
  unfold map_interval. destruct (interval_reason _ _) eqn:I; [intros [= <-]; by eapply interval_reason_known|].
  destruct (_ || _); [intros [= <-]; known_reason|].
  destruct (match m_start m with Some s => Ok s | None => interpolate _ _ _ _ end) as [s|e] eqn:E1; cbn [result_bind].
  - destruct (interpolate _ _ _ true) as [f|e] eqn:E2; cbn [result_bind]; [done|]. intros [= <-]. by eapply interpolate_reason.
  - intros [= <-]. destruct (m_start m); [done|]. by eapply interpolate_reason.
Qed.

Lemma wall_time_reason all run start finish r : wall_time all run start finish = Err r -> r ∈ REASONS.
Proof.
  unfold wall_time. generalize (Mapping_new (start * 2)) as m. induction all as [|a [|b l] IH]; intros m.
  1-2: cbn; destruct (_ <=? _); cbn; [|intros [= <-]; known_reason]; unfold estimate_of, wall_estimate;
       destruct (m_start m), (m_end m), (m_wall_epoch m), (m_wall_run m); cbn; intros [= <-]; known_reason.
  destruct (Z.le_gt_cases (finish * 2) m.(m_point)) as [D|D]; [rewrite (map_pairs_done (a :: b :: l)) by done; rewrite <- (map_pairs_done (b :: l) run (finish * 2)) by done; apply IH|].
  rewrite map_pairs_cons by done. destruct (around _ _ _ _); [|apply IH]. destruct (map_interval m a b _) as [m1|e] eqn:M; cbn [result_bind]; [apply IH|].
  intros [= <-]. by eapply map_interval_reason.
Qed.

(** ** Wall-clock estimates *)

Definition wall_delta (a b : CaptureClockPair) : Z := b.(local_unix_ns) - a.(local_unix_ns).
Definition host_delta (a b : CaptureClockPair) : Z := midpoint_twice b - midpoint_twice a.

(** [v] is the time of [point] on the line through two clock pairs, rounded
    down or up to a nanosecond. *)
Definition rounds_down (a b : CaptureClockPair) (point v : Z) : Prop :=
  host_delta a b * (v - a.(local_unix_ns)) <= wall_delta a b * (point - midpoint_twice a) < host_delta a b * (v - a.(local_unix_ns) + 1).
Definition rounds_up (a b : CaptureClockPair) (point v : Z) : Prop :=
  host_delta a b * (v - a.(local_unix_ns) - 1) < wall_delta a b * (point - midpoint_twice a) <= host_delta a b * (v - a.(local_unix_ns)).

Lemma interpolate_Ok a b p ceil v :
  interpolate a b p ceil = Ok v ->
  0 < host_delta a b /\ midpoint_twice a <= p <= midpoint_twice b /\ i64_min <= v <= i64_max /\
  if ceil then rounds_up a b p v else rounds_down a b p v.
Proof.
  unfold interpolate. fold (host_delta a b) (wall_delta a b). destruct (host_delta a b <=? 0) eqn:D0; [done|]. destruct (_ || _) eqn:R; [done|].
  destruct ((_ <? i128_min) || _); [done|]. destruct ((_ <? i64_min) || _) eqn:V; [done|]. intros [= <-]. breflect.
  pose proof (Z.div_mod (wall_delta a b * (p - midpoint_twice a)) (host_delta a b) ltac:(lia)) as D.
  pose proof (Z.mod_pos_bound (wall_delta a b * (p - midpoint_twice a)) (host_delta a b) ltac:(lia)) as M.
  split_and!; try (unfold host_delta in *; lia). destruct ceil; cbn [andb] in *; unfold rounds_up, rounds_down; [|nia].
  destruct (_ mod _ =? 0) eqn:Z0; cbn [negb] in *; breflect; nia.
Qed.

Lemma interval_reason_None a b :
  interval_reason a b = None ->
  a.(pair_clock_domain_id) = b.(pair_clock_domain_id) /\ a.(wall_epoch) = b.(wall_epoch) /\
  bracket a <= MAX_CLOCK_BRACKET_NS /\ bracket b <= MAX_CLOCK_BRACKET_NS /\
  0 < host_delta a b <= MAX_CLOCK_PAIR_GAP_NS * 2 /\ 0 <= wall_delta a b /\
  Z.abs (wall_delta a b * 2 - host_delta a b) <= MAX_CLOCK_RESIDUAL_NS * 2.
Proof. unfold interval_reason, bracket, host_delta, wall_delta. intros H. split_ifs_in H; simplify_eq. split_and!; done || lia. Qed.

(** Both roundings stay between the two pairs, and keep the order. *)
Lemma rounds_up_within a b p v :
  0 < host_delta a b -> 0 <= wall_delta a b -> midpoint_twice a <= p <= midpoint_twice b -> rounds_up a b p v ->
  a.(local_unix_ns) <= v <= b.(local_unix_ns).
Proof. unfold rounds_up, host_delta, wall_delta. intros H1 H2 H3 [H4 H5]. nia. Qed.

Lemma rounds_down_up a b p q v w :
  0 < host_delta a b -> 0 <= wall_delta a b -> p <= q -> rounds_down a b p v -> rounds_up a b q w -> v <= w.
Proof. unfold rounds_up, rounds_down. intros H1 H2 H3 [H4 _] [_ H5]. nia. Qed.

Section Estimates.
Context (all : list StampedPair) (O : ordered all).
Context (W : Forall (fun s => wf_pair s.(stamped) /\ CaptureClockPair_validate s.(stamped) = Ok tt) all).
Context (run start2 end2 : Z).

(** Two consecutive clock pairs of the run, usable for interpolation, in the run
    [wall_run] of the wall clock. *)
Record usable (a b : StampedPair) (wall_run : Z) : Prop := {
  us_adjacent : exists i, all !! i = Some a /\ all !! S i = Some b;
  us_run : a.(sp_run) = run /\ b.(sp_run) = run;
  us_wall : a.(sp_wall_run) = wall_run /\ b.(sp_wall_run) = wall_run;
  us_interval : interval_reason a.(stamped) b.(stamped) = None;
}.

(** The part from [start2] to [m_point] is mapped. *)
Record estimated (m : Mapping) (s e wall_run : Z) (a b a' b' : StampedPair) : Prop := {
  es_start : m.(m_start) = Some s;
  es_end : m.(m_end) = Some e;
  es_wall : m.(m_wall_run) = Some wall_run;
  es_epoch : m.(m_wall_epoch) = Some a'.(stamped).(wall_epoch);
  es_first : usable a b wall_run;
  es_first_around : midpoint_twice a.(stamped) <= start2 < midpoint_twice b.(stamped);
  es_down : rounds_down a.(stamped) b.(stamped) start2 s;
  es_last : usable a' b' wall_run;
  es_last_around : midpoint_twice a'.(stamped) < m.(m_point) <= midpoint_twice b'.(stamped);
  es_point : m.(m_point) = Z.min end2 (midpoint_twice b'.(stamped));
  es_up : rounds_up a'.(stamped) b'.(stamped) m.(m_point) e;
  es_i64 : i64_min <= s <= i64_max /\ i64_min <= e <= i64_max;
  es_order : s <= e;
}.

Record bounded (m : Mapping) : Prop := {
  bo_point : m.(m_point) <= end2;
  bo_bracket : 0 <= m.(m_bracket) <= MAX_CLOCK_BRACKET_NS;
  bo_resolution : is_u64 m.(m_resolution);
  bo_external : opt_u64 m.(m_external);
}.

Definition partly (m : Mapping) : Prop :=
  bounded m /\ (m.(m_start) = None /\ m.(m_wall_run) = None /\ m.(m_point) = start2 \/ exists s e wr a b a' b', estimated m s e wr a b a' b').

Lemma widen_u64 x y : opt_u64 x -> opt_u64 y -> opt_u64 (widen x y).
Proof. intros Hx Hy z. unfold widen. destruct x as [a|], y as [b|]; cbn; intros [= <-]. specialize (Hx a eq_refl). specialize (Hy b eq_refl). ints. Qed.

Lemma map_interval_bounded m i a b m' :
  bounded m -> all !! i = Some a -> all !! S i = Some b -> map_interval m a b end2 = Ok m' -> bounded m'.
Proof using W.
  intros [B1 B2 B3 B4] La Lb H. rewrite Forall_lookup in W. destruct (W _ _ La) as [Wa Va], (W _ _ Lb) as [Wb Vb].
  unfold map_interval in H. destruct (interval_reason _ _) eqn:I; [done|]. destruct (_ || _); [done|].
  apply result_bind_Ok in H as (s & _ & H). apply result_bind_Ok in H as (f & _ & <-%Ok_inj).
  apply interval_reason_None in I as (_ & _ & I1 & I2 & _). destruct Wa as [_ _ _ _ _ _ Ra Xa], Wb as [_ _ _ _ _ _ Rb Xb].
  split; cbn; [lia|lia|ints|]. by repeat apply widen_u64.
Qed.

Lemma map_interval_partly m i a b m' :
  partly m -> all !! i = Some a -> all !! S i = Some b -> around run m.(m_point) a b = true -> m.(m_point) < end2 ->
  map_interval m a b end2 = Ok m' -> partly m'.
Proof using O W.
  intros [B P] La Lb A Lt H. split; [exact (map_interval_bounded m i a b m' B La Lb H)|]. right. apply around_spec in A as (Ra & Rb & Ap).
  pose proof H as H0. unfold map_interval in H. destruct (interval_reason _ _) eqn:I; [done|]. destruct (_ || _) eqn:G; [done|]. breflect.
  apply result_bind_Ok in H as (s & Hs & H). apply result_bind_Ok in H as (f & Hf & <-%Ok_inj).
  apply interpolate_Ok in Hf as (D & Pb & If & Uf). pose proof (interval_reason_None _ _ I) as (_ & _ & _ & _ & _ & Wd & _).
  assert (U : usable a b (sp_wall_run a)) by (split; [by exists i|done|split; congruence|done]).
  destruct P as [(E1 & E2 & E3)|(s0 & e & wr & a0 & b0 & a' & b' & E)].
  - rewrite E1 in Hs. apply interpolate_Ok in Hs as (_ & _ & Is & Ds). exists s, f, (sp_wall_run a), a, b, a, b. rewrite E3 in *.
    split; cbn; try done; [lia|]. eapply rounds_down_up; [exact D|exact Wd| |exact Ds|exact Uf]. lia.
  - destruct E as [e1 e2 e3 e4 e5 e6 e7 e8 e9 e10 e11 e12 e13]. rewrite e1 in Hs. rewrite e3 in *. simplify_eq. cbn [is_some_and] in *. breflect.
    destruct e8 as [(j & Lj & Lj') [Rj Rj'] Wj Ij].
    assert (Eb : b' = a).
    { assert (Hp : m_point m = midpoint_twice b'.(stamped)) by lia.
      assert (A : around run m.(m_point) a b = true) by (apply around_spec; done). pose proof (around_index _ _ _ _ _ _ O La Lb A) as K.
      assert (Bb : before run m.(m_point) b' = true) by (apply before_spec; lia). apply (past_lookup _ _ _ _ _ O Lj') in Bb.
      destruct (decide (S j = i)) as [<-|N]; [congruence|exfalso]. pose proof (O (S j) i b' a ltac:(lia) Lj' La) as Lt'. unfold pair_lt in Lt'. lia. }
    subst b'. pose proof (interval_reason_None _ _ Ij) as (_ & _ & _ & _ & Dj & Wdj & _).
    assert (local_unix_ns (stamped a') <= e <= local_unix_ns (stamped a)) by (eapply rounds_up_within; [apply Dj|exact Wdj| |exact e11]; lia).
    assert (local_unix_ns (stamped a) <= f <= local_unix_ns (stamped b)) by (eapply rounds_up_within; [exact D|exact Wd| |exact Uf]; lia).
    exists s, f, wr, a0, b0, a, b. match goal with H : wr = sp_wall_run a |- _ => rewrite <- H in U end.
    split; cbn; try done; try congruence; lia.
Qed.

Lemma map_pairs_partly pre l m m' :
  all = pre ++ l -> partly m -> map_pairs l run end2 m = Ok m' -> partly m' /\ end2 <= m'.(m_point).
Proof using O W.
  revert pre m. induction l as [|a l IH]; intros pre m E P H.
  - cbn in H. destruct (_ <=? _) eqn:L; [|done]. breflect. by simplify_eq.
  - destruct (Z.le_gt_cases end2 m.(m_point)) as [D|D]; [rewrite map_pairs_done in H by done; by simplify_eq|].
    destruct l as [|b l]; [cbn in H; by rewrite (proj2 (Z.leb_gt _ _)) in H|].
    assert (E' : all = (pre ++ [a]) ++ b :: l) by (rewrite <- app_assoc; exact E).
    rewrite map_pairs_cons in H by done. destruct (around _ _ _ _) eqn:A; [|by eapply IH].
    apply result_bind_Ok in H as (m1 & H1 & H2). eapply IH; [exact E'| |exact H2].
    eapply (map_interval_partly m (length pre)); try done.
    + rewrite E. by rewrite list_lookup_middle.
    + rewrite E'. rewrite list_lookup_middle; [done|]. rewrite length_app. cbn. lia.
Qed.

(** A mapping that succeeds is an outward rounding of the line through the pairs
    around each end. *)
Lemma map_pairs_sound m :
  start2 < end2 -> map_pairs all run end2 (Mapping_new start2) = Ok m ->
  bounded m /\ m.(m_point) = end2 /\ exists s e wr a b a' b', estimated m s e wr a b a' b'.
Proof using O W.
  intros Lt H. destruct (map_pairs_partly [] all (Mapping_new start2) m eq_refl) as [[B P] L]; [|done|].
  - split; [|by left]. split; cbn; [lia|unfold MAX_CLOCK_BRACKET_NS; lia|ints|]. intros ? [= <-]. ints.
  - pose proof (bo_point _ B). split_and!; [done|lia|]. destruct P as [(_ & _ & E)|P]; [lia|done].
Qed.

End Estimates.

Lemma estimate_valid all run start finish e sp :
  ordered all -> Forall (fun s => wf_pair s.(stamped) /\ CaptureClockPair_validate s.(stamped) = Ok tt) all ->
  Forall (fun s => 1 <= s.(sp_wall_run) <= u64_max) all -> start < finish -> wf_span sp ->
  wall_time all run start finish = Ok e -> ClientWallEstimate_validate (with_span e sp) = Ok tt.
Proof.
  intros O W Wr Lt [S1 S2 S3 S4] H. unfold wall_time in H. apply result_bind_Ok in H as (m & Hm & H).
  destruct (map_pairs_sound all O W run (start * 2) (finish * 2) m ltac:(lia) Hm) as ([B1 B2 B3 B4] & _ & s & f & wr & a & b & a' & b' & E).
  destruct E as [e1 e2 e3 e4 e5 e6 e7 [(i & La & _) _ [<- _] _] e9 e10 e11 e12 e13].
  rewrite Forall_lookup in W, Wr. destruct (W _ _ La) as [[_ Wa _ _ _ _ _ _] Va]. pose proof (Wr _ _ La) as Ra. cbn in Ra.
  assert (Wz : wall_epoch (stamped a') <> 0).
  { unfold CaptureClockPair_validate in Va. apply result_bind_Ok in Va as (? & _ & Va). destruct (_ || _) eqn:G; [done|]. by breflect. }
  unfold estimate_of, wall_estimate in H. rewrite e1, e2, e3, e4 in H. cbn in H. apply Ok_inj in H as <-.
  unfold ClientWallEstimate_validate.
  cbn [with_span cw_quality cw_policy_id local_start_ns local_end_ns cw_wall_epoch cw_wall_run maximum_bracket_ns maximum_resolution_ns model_allowance_ns
    interpolation_rounding_ns capture_rounding_ns cw_capture_uncertainty_ns cw_external_utc_accuracy_ns overall_physical_accuracy_ns].
  rewrite !bool_decide_eq_true_2 by (done || (vm_compute; reflexivity)). cbn [negb orb is_some]. rewrite !signed_decimal_ok by apply e12. cbn [result_bind].
  rewrite (proj2 (Z.ltb_ge _ _)) by done. cbn [orb negb]. unfold MAX_CLOCK_BRACKET_NS in B2.
  change (lit "2") with (decimal 2). rewrite !client_decimal_ok by (done || ints || (intros _; lia)). cbn [result_bind].
  rewrite (proj2 (Z.ltb_ge _ _)) by lia. by rewrite !optional_decimal_ok by done.
Qed.

(** ** Warnings *)

Lemma str_lt_irrefl a : str_lt a a = false.
Proof. induction a as [|x a IH]; [done|]. cbn. by rewrite Z.ltb_irrefl, Z.eqb_refl, IH. Qed.

Lemma str_lt_trans a b c : str_lt a b = true -> str_lt b c = true -> str_lt a c = true.
Proof.
  revert b c. induction a as [|x a IH]; intros [|y b] [|z c]; cbn; try done. rewrite !orb_true_iff, !andb_true_iff, !Z.ltb_lt, !Z.eqb_eq.
  intros [H1|[-> H1]] [H2|[-> H2]]; [left; lia|by left|by left|]. right. split; [done|]. by eapply IH.
Qed.

Lemma str_lt_total a b : a <> b -> str_lt a b = false -> str_lt b a = true.
Proof.
  revert b. induction a as [|x a IH]; intros [|y b] N; cbn; try done. rewrite orb_false_iff, andb_false_iff, Z.ltb_ge, Z.eqb_neq, orb_true_iff, andb_true_iff, Z.ltb_lt, Z.eqb_eq.
  intros [H1 H2]. destruct (decide (x = y)) as [->|]; [|left; lia]. right. split; [done|]. destruct H2 as [H2|H2]; [done|]. apply IH; [congruence|done].
Qed.

(** A sorted set of known reasons. *)
Definition known_set (l : list rstr) : Prop := StronglySorted (fun a b => str_lt a b = true) l /\ Forall (fun r => r ∈ REASONS) l.

Lemma set_insert_In v l : Forall (fun r => r = v \/ r ∈ l) (set_insert v l).
Proof.
  induction l as [|w l IH]; cbn; [by constructor; [left|]|]. destruct (bool_decide _) eqn:E; [apply Forall_forall; by right|].
  destruct (str_lt v w); constructor; try (by left).
  - apply Forall_forall. by right.
  - right. left.
  - eapply Forall_impl; [exact IH|]. intros x [->|]; [by left|]. right. by right.
Qed.

Lemma set_insert_known v l : v ∈ REASONS -> known_set l -> known_set (set_insert v l).
Proof.
  intros V [S F]. split.
  - induction S as [|w l S IH Hw]; cbn; [by repeat constructor|]. apply Forall_cons in F as [F1 F2]. destruct (bool_decide _) eqn:E; [by constructor|]. breflect.
    destruct (str_lt v w) eqn:L.
    + constructor; [by constructor|]. constructor; [done|]. eapply Forall_impl; [exact Hw|]. intros x. by apply str_lt_trans.
    + constructor; [by apply IH|]. rewrite Forall_forall in Hw |- *. intros x Hx. pose proof (set_insert_In v l) as In_. rewrite Forall_forall in In_.
      destruct (In_ x Hx) as [->|]; [by apply str_lt_total|by apply Hw].
  - pose proof (set_insert_In v l) as In_. rewrite Forall_forall in F, In_ |- *. intros x Hx. destruct (In_ x Hx) as [->|]; [done|by apply F].
Qed.

Lemma known_set_reasons l : known_set l -> reasons_ok l.
Proof.
  intros [S F]. split; [|done]. induction S as [|w l S IH Hw]; [constructor|]. apply Forall_cons in F as [_ F]. constructor; [|by apply IH].
  intros H. rewrite Forall_forall in Hw. specialize (Hw w H). by rewrite str_lt_irrefl in Hw.
Qed.

(** ** The walk next to the validated walk *)

Definition format_rate (f : option PcmFormat) : Z := match f with Some f => f.(sample_rate_hz) | None => 0 end.

Record follows (w : Walk) (s : WalkState) : Prop := {
  fw_step : in_step s;
  fw_clock : clock_ok true s.(walk_timeline);
  fw_samples : w.(wk_samples) = s.(walk_timeline).(tl_timed_samples);
  fw_gap_ms : w.(wk_gap_ms) = s.(walk_timeline).(tl_timed_gap_ms);
  fw_rate : w.(wk_rate) = format_rate s.(walk_timeline).(tl_format);
  fw_any : is_some s.(walk_timeline).(tl_format) = (0 <? w.(wk_samples));
  fw_gap : s.(walk_ended) = false -> w.(wk_gap) = (fun at_ms => (at_ms, if s.(walk_timeline).(tl_format) then Some s.(walk_timeline).(tl_media_ms) else None)) <$> s.(walk_gap);
  fw_opened : forall at_ms, s.(walk_gap) = Some at_ms -> 0 <= at_ms <= s.(walk_last_at_ms);
  fw_last : 0 <= s.(walk_last_at_ms);
  fw_epoch : w.(wk_tracker).(ct_epoch) = s.(walk_validation).(tv_epoch);
  fw_epoch_ok : forall e, s.(walk_validation).(tv_epoch) = Some e -> wf_epoch e /\ CaptureEpoch_validate e = Ok tt;
  fw_warnings : known_set w.(wk_warnings);
}.

Lemma follows_start : follows Walk_new WalkState_default.
Proof. split; try done; try (cbn; lia). split; constructor. Qed.

(** The media clock below its saturation. *)
Lemma media_exact t f :
  clock_ok true t -> t.(tl_format) = Some f -> t.(tl_media_ms) < u64_max ->
  exact_media_ms t.(tl_timed_samples) f.(sample_rate_hz) t.(tl_timed_gap_ms) = Ok t.(tl_media_ms) /\
  t.(tl_media_ms) = t.(tl_timed_samples) * 1000 / f.(sample_rate_hz) + t.(tl_timed_gap_ms).
Proof.
  intros C Ef L. unfold clock_ok in C. rewrite Ef in C. destruct C as [Wf C]. destruct (C eq_refl) as (C1 & C2 & C3). destruct Wf as [Wr _].
  assert (0 <= t.(tl_timed_samples) * 1000 / f.(sample_rate_hz)) by (apply Z.div_pos; lia).
  split; [|lia]. unfold exact_media_ms. rewrite (proj2 (Z.eqb_neq _ _)) by lia. rewrite (proj2 (Z.ltb_ge _ _)) by lia. unfold checked_add.
  rewrite (proj2 (Z.leb_le _ _)) by lia. cbn. f_equal. lia.
Qed.

Lemma media_nonneg t f : clock_ok true t -> t.(tl_format) = Some f -> 0 <= t.(tl_media_ms).
Proof.
  intros C Ef. unfold clock_ok in C. rewrite Ef in C. destruct C as [[Wr _] C]. destruct (C eq_refl) as (X1 & X2 & ->).
  assert (0 <= tl_timed_samples t * 1000 / sample_rate_hz f) by (apply Z.div_pos; lia). ints.
Qed.

Lemma warn_all_known reasons w :
  known_set w.(wk_warnings) -> Forall (fun r => r ∈ REASONS) reasons -> known_set (fold_left warn reasons w).(wk_warnings).
Proof. revert w. induction reasons as [|r reasons IH]; intros w Hw Hr; [done|]. apply Forall_cons in Hr as [H1 H2]. cbn. apply IH; [by apply set_insert_known|done]. Qed.

Lemma discontinuity_known r : CaptureDiscontinuityReason_as_str r ∈ REASONS.
Proof. destruct r; known_reason. Qed.

(** Accepting a chunk keeps the epoch in step with the tracker. *)
Lemma accept_epoch_of v chunk v' :
  accept v chunk = Ok v' -> v'.(tv_epoch) = match chunk with ChunkMetadata (Metadata_Epoch e) => Some e | _ => v.(tv_epoch) end.
Proof.
  unfold accept. destruct (negb _); [by destruct chunk; intros; simplify_eq|]. intros H.
  destruct chunk as [? ? [p|] ?| |[e|p|ep re]| | | | |]; try (by simplify_eq).
  - apply result_bind_Ok in H as (v1 & H1 & H2). apply charge_timing_pair in H2 as [_ ->]. unfold accept_timing in H1.
    destruct (tv_epoch v) eqn:E; [|done]. destruct (_ || _ || _); [done|]. by apply result_bind_Ok in H1 as (? & _ & <-%Ok_inj).
  - apply result_bind_Ok in H as (v1 & H1 & H2). apply result_bind_Ok in H2 as (rec & _ & H2). apply charge_timing_pair in H2 as [_ ->].
    cbn in H1. unfold accept_epoch in H1. apply result_bind_Ok in H1 as (d & _ & H1). destruct (tv_epoch v); [|by simplify_eq].
    inv_branches H1; by simplify_eq.
  - apply result_bind_Ok in H as (v1 & H1 & H2). apply result_bind_Ok in H2 as (rec & _ & H2). apply charge_timing_pair in H2 as [_ ->].
    cbn in H1. unfold accept_pair in H1. destruct (is_none_or _ _); [done|]. destruct (is_some_and _ _); [done|]. by simplify_eq.
  - apply result_bind_Ok in H as (v1 & H1 & H2). apply result_bind_Ok in H2 as (rec & _ & H2). apply charge_timing_pair in H2 as [_ ->].
    cbn in H1. by destruct (is_none_or _ _); simplify_eq.
  - by destruct (tv_exhausted v); simplify_eq.
Qed.

Lemma tracker_frame_epoch t timing : (tracker_frame t timing).2.(ct_epoch) = t.(ct_epoch).
Proof.
  unfold tracker_frame. destruct timing as [f|]; [|done]. set (hole := negb _ && _).
  destruct (span f); [destruct (is_some_and _ _)|]; by destruct hole.
Qed.

Lemma track_epoch t chunk : (track t chunk).(ct_epoch) = match chunk with ChunkMetadata (Metadata_Epoch e) => Some e | _ => t.(ct_epoch) end.
Proof. destruct chunk as [? ? timing ?| |[e|p|]| | | | |]; try done. apply tracker_frame_epoch. Qed.

(** What a step of the walk does, by chunk. *)
Lemma walk_inv s chunk s1 :
  chunk_wf chunk -> walk_chunk true s chunk = Ok (inl s1) ->
  s.(walk_ended) = false /\
  match chunk with
  | TimedFrame at_ms f _ bytes =>
      s.(walk_gap) = None /\ format_changed s f = false /\ s.(walk_last_at_ms) <= at_ms /\
      tl_timed_frame s.(walk_timeline) f (zlen bytes) = Ok s1.(walk_timeline) /\
      s1.(walk_gap) = None /\ s1.(walk_last_at_ms) = at_ms /\ s1.(walk_format) = Some f
  | GapStarted at_ms _ =>
      s.(walk_gap) = None /\ s.(walk_last_at_ms) <= at_ms /\ s1.(walk_timeline) = tl_gap_started s.(walk_timeline) at_ms /\
      s1.(walk_gap) = Some at_ms /\ s1.(walk_last_at_ms) = at_ms /\ s1.(walk_format) = s.(walk_format)
  | GapEnded at_ms =>
      s.(walk_last_at_ms) <= at_ms /\ tl_gap_ended s.(walk_timeline) at_ms true = Ok s1.(walk_timeline) /\
      s1.(walk_gap) = None /\ s1.(walk_last_at_ms) = at_ms /\ s1.(walk_format) = s.(walk_format)
  | Ended at_ms =>
      s.(walk_last_at_ms) <= at_ms /\ s1.(walk_timeline) = s.(walk_timeline) /\ s1.(walk_gap) = s.(walk_gap) /\
      s1.(walk_last_at_ms) = at_ms /\ s1.(walk_format) = s.(walk_format) /\ s1.(walk_ended) = true
  | _ =>
      s1.(walk_timeline) = s.(walk_timeline) /\ s1.(walk_gap) = s.(walk_gap) /\ s1.(walk_last_at_ms) = s.(walk_last_at_ms) /\
      s1.(walk_format) = s.(walk_format)
  end.
Proof.
  intros K H. unfold walk_chunk in H. destruct (walk_ended s); [done|]. split; [done|]. apply result_bind_Ok in H as (v & _ & H). unfold advance in H.
  destruct chunk; try (by simplify_eq); try done.
  - destruct (_ || _ || _) eqn:G; [done|]. breflect. apply result_bind_Ok in H as (t & Ht & H). destruct (_ <? _) eqn:L; [done|]. breflect. simplify_eq. cbn.
    split_and!; try done; by apply is_some_false.
  - destruct (bool_decide _); [done|]. destruct (_ || _) eqn:G; [done|]. breflect. destruct (_ <? _) eqn:L; [done|]. breflect. simplify_eq. cbn.
    split_and!; try done; by apply is_some_false.
  - destruct (is_none _); [done|]. apply result_bind_Ok in H as (t & Ht & H). destruct (_ <? _) eqn:L; [done|]. breflect. by simplify_eq.
  - destruct (_ <? _) eqn:L; [done|]. breflect. by simplify_eq.
Qed.

(** The end of a gap on the media clock. *)
Lemma gap_ended_clock t at_ms opened t' :
  clock_ok true t -> t.(tl_open_gap_at_ms) = Some opened -> opened <= at_ms -> tl_gap_ended t at_ms true = Ok t' ->
  clock_ok true t' /\ t'.(tl_format) = t.(tl_format) /\ t'.(tl_timed_samples) = t.(tl_timed_samples) /\
  t'.(tl_open_gap_at_ms) = None /\ t.(tl_media_ms) <= t'.(tl_media_ms) /\
  t'.(tl_timed_gap_ms) = (if t.(tl_format) then t.(tl_timed_gap_ms) + (at_ms - opened) else t.(tl_timed_gap_ms)) /\
  0 <= t'.(tl_timed_gap_ms) <= u64_max.
Proof.
  intros C Eo L H. unfold tl_gap_ended in H. rewrite Eo in H. apply result_bind_Ok in H as ([g m] & Hg & H). apply Ok_inj in H as <-.
  unfold clock_ok in *. cbn. destruct (tl_format t) as [f|] eqn:Ef; cbn [is_some] in Hg.
  - apply result_bind_Ok in Hg as (g' & Hg & E). simplify_eq. destruct (checked_add _ _) eqn:A; [|done]. cbn in Hg. simplify_eq.
    apply checked_add_Some in A as [-> A]. destruct C as [Hwf C]. destruct (C eq_refl) as (C1 & C2 & ->). unfold saturating_sub, saturating_add in *.
    split_and!; try done; try lia.
  - simplify_eq. destruct C as (C1 & C2 & C3). rewrite C3. split_and!; try done; lia || ints.
Qed.

(** The clock of a validated walk. *)
Lemma walk_clock s chunk s1 :
  in_step s -> clock_ok true s.(walk_timeline) -> (forall a, s.(walk_gap) = Some a -> a <= s.(walk_last_at_ms)) -> chunk_wf chunk ->
  walk_chunk true s chunk = Ok (inl s1) ->
  in_step s1 /\ clock_ok true s1.(walk_timeline) /\ s.(walk_timeline).(tl_media_ms) <= s1.(walk_timeline).(tl_media_ms).
Proof.
  intros S C G K H. pose proof (walk_inv _ _ _ K H) as [_ I]. destruct chunk as [at_ms f timing bytes| |[]| | |at_ms why|at_ms|at_ms]; try done.
  - destruct I as (I1 & I2 & I3 & I4 & I5 & I6 & I7). destruct K as (K1 & K2 & K3 & _).
    destruct (frame_step_clock true s.(walk_timeline) f (zlen bytes) s1.(walk_timeline)) as (C1 & C2 & C3 & C4 & C5);
      [done|by apply same_format_fits|done|lia|done|]. destruct (C5 eq_refl) as (C6 & C7 & C8 & C9).
    split_and!; [split; [by rewrite I7, C2|rewrite I5, C4; by destruct S as [_ <-]]|done|]. unfold tl_timed_frame in I4. apply result_bind_Ok in I4 as ([tot dur] & Hc & I4).
    apply count_timed_Ok in Hc as (-> & _ & -> & _); [|done]. apply Ok_inj in I4. rewrite <- I4. cbn. rewrite C8.
    destruct (frame_alignment_bytes_Ok f K1) as [_ Ha]. destruct K1 as [Kr _]. fold (alignment_of f) in Ha. assert (0 <= zlen bytes / alignment_of f) by (apply Z.div_pos; lia).
    assert (tl_timed_samples (walk_timeline s) * 1000 / sample_rate_hz f <= (tl_timed_samples (walk_timeline s) + zlen bytes / alignment_of f) * 1000 / sample_rate_hz f)
      by (apply Z.div_le_mono; lia). lia.
  - destruct I as (I1 & I2 & _ & I4). unfold in_step in *. rewrite I1, I2, I4. split_and!; [apply S..|done|lia].
  - destruct I as (I1 & I2 & _ & I4). unfold in_step in *. rewrite I1, I2, I4. split_and!; [apply S..|done|lia].
  - destruct I as (I1 & I2 & _ & I4). unfold in_step in *. rewrite I1, I2, I4. split_and!; [apply S..|done|lia].
  - destruct I as (I1 & I2 & _ & I4). unfold in_step in *. rewrite I1, I2, I4. split_and!; [apply S..|done|lia].
  - destruct I as (I1 & I2 & _ & I4). unfold in_step in *. rewrite I1, I2, I4. split_and!; [apply S..|done|lia].
  - destruct I as (I1 & I2 & I3 & I4 & I5 & I6). unfold in_step in *. rewrite I3, I4, I6. split_and!; [apply S|done|done|cbn; lia].
  - destruct I as (I1 & I2 & I4 & I5 & I6). destruct S as [S1 S2].
    destruct (tl_open_gap_at_ms (walk_timeline s)) as [opened|] eqn:Eo; [|unfold tl_gap_ended in I2; by rewrite Eo in I2].
    assert (Lo : opened <= at_ms) by (specialize (G opened S2); lia).
    destruct (gap_ended_clock _ _ _ _ C Eo Lo I2) as (C1 & C2 & C3 & C4 & C5 & _).
    split_and!; [split; congruence|done|done].
  - destruct I as (I1 & I2 & I3 & I4 & I5 & _). unfold in_step in *. rewrite I2, I3, I5. split_and!; [apply S..|done|lia].
Qed.

(** The parts of [follows] that do not depend on the kind of chunk. *)
Lemma follows_next w s w1 s1 chunk :
  follows w s -> chunk_wf chunk -> walk_chunk true s chunk = Ok (inl s1) ->
  w1.(wk_tracker) = track w.(wk_tracker) chunk ->
  w1.(wk_samples) = s1.(walk_timeline).(tl_timed_samples) -> w1.(wk_gap_ms) = s1.(walk_timeline).(tl_timed_gap_ms) ->
  w1.(wk_rate) = format_rate s1.(walk_timeline).(tl_format) -> is_some s1.(walk_timeline).(tl_format) = (0 <? w1.(wk_samples)) ->
  (s1.(walk_ended) = false -> w1.(wk_gap) = (fun at_ms => (at_ms, if s1.(walk_timeline).(tl_format) then Some s1.(walk_timeline).(tl_media_ms) else None)) <$> s1.(walk_gap)) ->
  (forall at_ms, s1.(walk_gap) = Some at_ms -> 0 <= at_ms <= s1.(walk_last_at_ms)) -> 0 <= s1.(walk_last_at_ms) ->
  known_set w1.(wk_warnings) ->
  follows w1 s1.
Proof.
  intros F K H T H1 H2 H3 H4 H5 H6 H7 H8. pose proof (walk_accepts _ _ _ H) as A. apply accept_epoch_of in A as Ae.
  destruct (walk_clock s chunk s1 (fw_step _ _ F) (fw_clock _ _ F)) as (S1 & C1 & _); [intros a Ha; by apply (fw_opened _ _ F)|done|done|].
  split; try done.
  - rewrite T, track_epoch, Ae, (fw_epoch _ _ F). done.
  - intros e He. rewrite Ae in He. destruct chunk as [| |[e'|p|]| | | | |]; try (by apply (fw_epoch_ok _ _ F)). by simplify_eq.
Qed.

Lemma chunk_entry_follows w s chunk s1 :
  follows w s -> chunk_wf chunk -> walk_chunk true s chunk = Ok (inl s1) -> s1.(walk_timeline).(tl_media_ms) < u64_max ->
  match chunk with TimedFrame _ _ _ _ => False | _ => True end ->
  exists e w1, chunk_entry w chunk = Ok (e, w1) /\ follows (set_tracker w1 (tracker_observe w1.(wk_tracker) chunk)) s1 /\
    forall entry, e = Some entry -> ClientAlignmentEntry_validate entry = Ok tt.
Proof.
  intros F K H L N. pose proof (walk_inv _ _ _ K H) as [En I].
  pose proof F as [F1 F2 F3 F4 F5 F6 F7 F8 F9 F10 F11 F12]. specialize (F7 En).
  destruct chunk as [at_ms f timing bytes| |[e|p|epoch r]| | |at_ms why|at_ms|at_ms]; try done; cbn [chunk_entry].
  - destruct I as (I1 & I2 & I3 & I4). eexists _, _. split; [done|]. split; [|done].
    eapply follows_next; try done; cbn; rewrite ?I1, ?I2, ?I3; done.
  - destruct I as (I1 & I2 & I3 & I4). eexists _, _. split; [done|]. split; [|intros ? [= <-]; by apply epoch_view_valid; apply K].
    eapply follows_next; try done; cbn; rewrite ?I1, ?I2, ?I3; done.
  - destruct I as (I1 & I2 & I3 & I4). eexists _, _. split; [done|]. split; [|intros ? [= <-]; by apply pair_view_valid; apply K].
    eapply follows_next; try done; cbn; rewrite ?I1, ?I2, ?I3; done.
  - destruct I as (I1 & I2 & I3 & I4). eexists _, _. split; [done|]. split.
    + eapply follows_next; try done; cbn; destruct r; cbn; rewrite ?I1, ?I2, ?I3; try done; repeat apply set_insert_known; done || apply discontinuity_known || known_reason.
    + intros ? [= <-]. cbn. rewrite client_decimal_ok by (apply K || (intros _; apply K)). cbn. apply validate_reasons_ok.
      split; [apply NoDup_singleton|]. apply Forall_singleton, discontinuity_known.
  - destruct I as (I1 & I2 & I3 & I4). eexists _, _. split; [done|]. split; [|by intros ? [= <-]].
    eapply follows_next; try done; cbn; rewrite ?I1, ?I2, ?I3; try done. apply set_insert_known; [known_reason|done].
  - destruct I as (I1 & I2 & I3 & I4 & I5 & I6).
    assert (Es : (if w.(wk_rate) =? 0 then Ok None else let? ms := exact_media_ms w.(wk_samples) w.(wk_rate) w.(wk_gap_ms) in Ok (Some ms))
      = Ok (if tl_format (walk_timeline s) then Some (tl_media_ms (walk_timeline s)) else None) :> rresult (option Z)).
    { rewrite F3, F4, F5. destruct (tl_format (walk_timeline s)) as [f|] eqn:Ef; [|done]. cbn [format_rate].
      assert (Ls : tl_media_ms (walk_timeline s) < u64_max) by (rewrite I3 in L; exact L).
      destruct (media_exact _ _ F2 Ef Ls) as [-> _]. unfold clock_ok in F2. rewrite Ef in F2. destruct F2 as [[Wr _] _].
      by rewrite (proj2 (Z.eqb_neq _ _)) by lia. }
    rewrite Es. cbn [result_bind]. eexists _, _. split; [done|]. split; [|done].
    eapply follows_next; try done; cbn; rewrite ?I3, ?I4, ?I5; try done; cbn in K.
    + intros a [= <-]. lia.
    + lia.
    + apply set_insert_known; [known_reason|done].
  - destruct I as (I1 & I2 & I4 & I5 & I6). destruct F1 as [S1 S2].
    destruct (tl_open_gap_at_ms (walk_timeline s)) as [opened|] eqn:Eo; [|unfold tl_gap_ended in I2; by rewrite Eo in I2].
    destruct (F8 opened S2) as [O1 O2].
    assert (Lo : opened <= at_ms) by lia. destruct (gap_ended_clock _ _ _ _ F2 Eo Lo I2) as (C1 & C2 & C3 & C4 & C5 & C6 & C7).
    rewrite F7, S2. cbn [fmap option_fmap option_map ok_or result_bind]. rewrite <- F6.
    assert (Eg : (if is_some (tl_format (walk_timeline s)) then
        let? len := ok_or (checked_sub at_ms opened) (failure (lit "recording gap was reversed")) in
        ok_or (checked_add (wk_gap_ms w) len) (failure (lit "recording media offset overflowed")) else Ok (wk_gap_ms w))
        = Ok (tl_timed_gap_ms (walk_timeline s1)) :> rresult Z).
    { rewrite F4, C6. destruct (tl_format (walk_timeline s)); [|done]. cbn [is_some]. unfold checked_sub, checked_add. rewrite (proj2 (Z.leb_le _ _)) by lia.
      cbn [ok_or result_bind]. by rewrite (proj2 (Z.leb_le _ _)) by lia. }
    rewrite Eg. cbn [result_bind set_gap wk_rate wk_samples wk_gap_ms]. rewrite F5, F3.
    destruct (tl_format (walk_timeline s)) as [f|] eqn:Ef.
    + cbn [format_rate]. destruct (media_exact _ f C1 C2 L) as [Em _]. rewrite C3 in Em. unfold clock_ok in F2. rewrite Ef in F2. destruct F2 as [[Wr _] _].
      rewrite (proj2 (Z.eqb_neq _ _)) by lia. rewrite Em. cbn [result_bind]. eexists _, _. split; [done|]. split.
      * eapply follows_next; try done; cbn; rewrite ?I4, ?I5, ?C2, ?C3; try done. lia.
      * intros ? [= <-]. cbn. pose proof (media_nonneg _ _ (fw_clock _ _ F) Ef).
        rewrite !client_decimal_ok by (done || ints). cbn [result_bind is_some_and]. rewrite (proj2 (Z.ltb_ge _ _)) by lia. done.
    + cbn [format_rate Z.eqb]. cbn [result_bind]. eexists _, _. split; [done|]. split; [|done].
      eapply follows_next; try done; cbn; rewrite ?I4, ?I5, ?C2, ?C3; try done. lia.
  - destruct I as (I1 & I2 & I3 & I4 & I5 & I6). eexists _, _. split; [done|]. split.
    + eapply follows_next; try done; cbn; rewrite ?I2, ?I3, ?I4, ?I6; try done; [|lia]. intros a Ha. specialize (F8 a Ha). lia.
    + intros entry E. rewrite F7 in E. destruct (walk_gap s) as [o|]; [|done]. cbn in E. destruct (tl_format (walk_timeline s)) as [f|] eqn:Ef; [|done].
      cbn in E. simplify_eq. cbn. pose proof (media_nonneg _ _ F2 Ef). rewrite I2 in L.
      rewrite !client_decimal_ok by (done || ints). done.
Qed.

Lemma accepted_timing_epoch v at_ms f p bytes v' :
  accept v (TimedFrame at_ms f (Some p) bytes) = Ok v' -> exists e, v.(tv_epoch) = Some e /\ p.(capture_epoch) = e.(epoch_capture_epoch).
Proof.
  unfold accept. destruct (negb _); [done|]. intros (v1 & H & _)%result_bind_Ok. unfold accept_timing in H. destruct (tv_epoch v) as [e|]; [|done].
  exists e. split; [done|]. destruct (_ || _ || _) eqn:G; [done|]. by breflect.
Qed.

Lemma validated_samples p f n :
  wf_format f -> n mod alignment_of f = 0 -> validate_pcm p f n = Ok tt -> p.(sample_count) = n / alignment_of f /\ p.(source_denominator) = f.(sample_rate_hz).
Proof.
  intros Wf A V. unfold validate_pcm in V. apply result_bind_Ok in V as (? & _ & V). destruct (frame_alignment_bytes_Ok f Wf) as [E Ha].
  fold (alignment_of f) in E, Ha. rewrite E in V. destruct (_ || _) eqn:G; [done|]. breflect. split; [|done].
  match goal with H : checked_mul _ _ = Some _ |- _ => unfold checked_mul in H; split_ifs_in H; simplify_eq end. by rewrite Z.div_mul by lia.
Qed.

Lemma nonempty_samples f bytes : wf_format f -> aligned f bytes -> 0 < zlen bytes -> 0 < zlen bytes / alignment_of f.
Proof.
  intros Wf A L. destruct (frame_alignment_bytes_Ok f Wf) as [_ Ha]. fold (alignment_of f) in Ha. unfold aligned in A. fold (alignment_of f) in A.
  apply Z.div_exact in A; [|lia]. assert (0 <= zlen bytes / alignment_of f) by (apply Z.div_pos; lia). nia.
Qed.

(** The entry of a frame passes the client's checks. *)
Lemma frame_entry_valid at_ms f timing bytes samples finish gap epoch is_mapped wall reasons :
  chunk_wf (TimedFrame at_ms f timing bytes) -> is_u64 samples -> is_u64 finish -> is_u64 gap ->
  finish = samples + zlen bytes / alignment_of f ->
  (forall e, epoch = Some e -> wf_epoch e /\ CaptureEpoch_validate e = Ok tt) ->
  (forall p, timing = Some p -> exists e, epoch = Some e /\ p.(capture_epoch) = e.(epoch_capture_epoch)) ->
  (forall e, wall = Some e -> is_mapped = true /\ ClientWallEstimate_validate e = Ok tt) ->
  (is_mapped = true -> exists p s, timing = Some p /\ p.(span) = Some s) -> reasons_ok reasons ->
  FrameEntry_validate {| fe_media_start_sample := decimal samples; fe_media_end_sample := decimal finish;
    fe_sample_rate_hz := f.(sample_rate_hz); fe_gap_offset_ms := decimal gap; fe_epoch := epoch_view <$> epoch;
    fe_provenance := frame_view <$> timing; fe_capture_status := if is_mapped then lit "available" else lit "capture_alignment_missing";
    fe_wall := wall; fe_reasons := reasons |} = Ok tt.
Proof.
  intros (Kf & Ka & Kn & _ & Kp) Hs Hf Hg Ef Ev Pv Wv Mv Rv. pose proof (nonempty_samples f bytes Kf Ka Kn) as Pos. pose proof Kf as [Kr _].
  unfold FrameEntry_validate. cbn [fe_media_start_sample fe_media_end_sample fe_gap_offset_ms fe_sample_rate_hz fe_capture_status fe_epoch fe_provenance fe_wall fe_reasons].
  rewrite !client_decimal_ok by done. cbn [result_bind]. rewrite (proj2 (Z.leb_gt _ _)), (proj2 (Z.eqb_neq _ _)) by lia.
  assert (St : one_of [lit "available"; lit "capture_alignment_missing"] (if is_mapped then lit "available" else lit "capture_alignment_missing") = true) by by destruct is_mapped.
  assert (Av : bool_decide ((if is_mapped then lit "available" else lit "capture_alignment_missing") = lit "available") = is_mapped) by by destruct is_mapped.
  rewrite St, Av. cbn [negb orb].
  replace (match epoch_view <$> epoch with Some e => ClientCaptureEpoch_validate e | None => Ok tt end) with (@Ok unit ClientWireError tt)
    by (destruct epoch as [e|]; [|done]; destruct (Ev e eq_refl); cbn; by rewrite epoch_view_valid).
  cbn [result_bind]. lazymatch goal with |- context [match frame_view <$> timing with Some p => @?A p | None => Ok tt end] =>
    assert (Pr : match frame_view <$> timing with Some p => A p | None => Ok tt end = Ok tt) end.
  { destruct timing as [p|]; [|done]. destruct (Kp p eq_refl) as (P1 & P2 & P3), (Pv p eq_refl) as (e & -> & Ee).
    cbn [fmap option_fmap option_map]. rewrite frame_view_valid by done. cbn [result_bind frame_view cf_source_denominator cf_sample_count cf_capture_epoch].
    destruct (validated_samples p f (zlen bytes)) as [-> ->]; [done..|]. cbn. rewrite Ee, Z.eqb_refl, bool_decide_eq_true_2 by done.
    by rewrite (proj2 (Z.eqb_eq _ _)) by lia. }
  rewrite Pr. cbn [result_bind].
  replace (is_mapped && is_none_or (frame_view <$> timing) (fun p => is_none (cf_span p))) with false
    by (destruct is_mapped; [|done]; destruct (Mv eq_refl) as (p & sp & -> & Hsp); cbn; by rewrite Hsp).
  replace (match wall with Some w => if negb is_mapped then Err wire_invalid else ClientWallEstimate_validate w | None => Ok tt end) with (@Ok unit ClientWireError tt)
    by (destruct wall as [e|]; [|done]; by destruct (Wv e eq_refl) as [-> ->]).
  cbn [result_bind]. by apply validate_reasons_ok.
Qed.

Section FrameEntries.
Context (all : list StampedPair) (O : ordered all).
Context (W : Forall (fun s => wf_pair s.(stamped) /\ CaptureClockPair_validate s.(stamped) = Ok tt) all).
Context (Wr : Forall (fun s => 1 <= s.(sp_wall_run) <= u64_max) all).

(** The mapping of a frame, when it has a place on the capture clock. *)
Definition frame_mapping (a : CaptureAssessment) (t : CaptureTracker) (timing : option FrameProvenance)
  : option (NominalCaptureSpan * result ClientWallEstimate rstr) :=
  if a.(mapped) then s ← timing ≫= span; Some (s, wall_time all t.(ct_run) s.(host_start_ns) s.(host_end_ns)) else None.

Definition mapped_wall (m : option (NominalCaptureSpan * result ClientWallEstimate rstr)) : option ClientWallEstimate :=
  match m with Some (s, Ok e) => Some (with_span e s) | _ => None end.

(** The wall estimate and the reasons of a frame's entry pass their checks. *)
Lemma frame_mapping_valid w f timing finish a t bytes at_ms :
  tracker_frame w.(wk_tracker) timing = (a, t) -> chunk_wf (TimedFrame at_ms f timing bytes) ->
  known_set w.(wk_warnings) ->
  exists wall reasons w1,
    frame_entry w f timing finish a t (frame_mapping a t timing) =
      (Entry_Frame {| fe_media_start_sample := decimal w.(wk_samples); fe_media_end_sample := decimal finish;
         fe_sample_rate_hz := f.(sample_rate_hz); fe_gap_offset_ms := decimal w.(wk_gap_ms); fe_epoch := epoch_view <$> t.(ct_epoch);
         fe_provenance := frame_view <$> timing;
         fe_capture_status := if a.(mapped) then lit "available" else lit "capture_alignment_missing"; fe_wall := wall; fe_reasons := reasons |},
       set_tracker (set_media w1 finish f.(sample_rate_hz)) t) /\
    w1.(wk_gap_ms) = w.(wk_gap_ms) /\ w1.(wk_gap) = w.(wk_gap) /\ known_set w1.(wk_warnings) /\ reasons_ok reasons /\
    (forall e, wall = Some e -> a.(mapped) = true /\ ClientWallEstimate_validate e = Ok tt) /\
    (a.(mapped) = true -> exists p s, timing = Some p /\ p.(span) = Some s) /\
    wall = mapped_wall (frame_mapping a t timing).
Proof using O W Wr.
  intros T K Hw. pose proof (assessment_reasons_ok w.(wk_tracker) timing) as Ra. rewrite T in Ra. cbn in Ra.
  destruct K as (_ & _ & _ & _ & K). unfold frame_mapping. destruct (mapped a) eqn:M.
  - destruct (tracker_frame_mapped _ _ _ _ T M) as (p & s & -> & Hs & _). destruct (K p eq_refl) as ([_ _ _ _ _ _ _ _ Ws] & V & _).
    assert (Lt : host_start_ns s < host_end_ns s).
    { unfold FrameProvenance_validate in V. apply result_bind_Ok in V as (? & _ & V). destruct (_ || _); [done|]. rewrite Hs in V.
      destruct ((_ =? 0) || _) eqn:G; [done|]. by breflect. }
    cbn [mbind option_bind]. rewrite Hs. cbn [mbind option_bind]. unfold frame_entry. rewrite M.
    destruct (wall_time all (ct_run t) (host_start_ns s) (host_end_ns s)) as [e|r] eqn:E; cbn [is_some].
    + set (w0 := warn w (lit "local_wall_timestamp_estimate")). destruct (warn_all_tracker (assessment_reasons a) w0) as (_ & X1 & _ & X2 & X3).
      eexists _, _, _. rewrite X1, X2. split; [done|]. split_and!; [done|done| |done| |by intros _; exists p, s|done].
      * apply warn_all_known; [by apply set_insert_known; [known_reason|]|apply Ra].
      * intros e' [= <-]. split; [done|]. eapply estimate_valid; try done. by apply Ws.
    + set (reasons := push_reason (push_reason _ _) r). destruct (warn_all_tracker reasons w) as (_ & X1 & _ & X2 & X3).
      assert (Rr : reasons_ok reasons) by (repeat apply push_reason_ok; [done|known_reason|by eapply wall_time_reason]).
      eexists _, _, _. rewrite X1, X2. split; [done|]. split_and!; [done|done| |done|done|by intros _; exists p, s|done]. by apply warn_all_known; [|apply Rr].
  - unfold frame_entry. rewrite M. cbn [is_some]. set (reasons := push_reason (push_reason _ _) _). destruct (warn_all_tracker reasons w) as (_ & X1 & _ & X2 & X3).
    assert (Rr : reasons_ok reasons) by (repeat apply push_reason_ok; [done|known_reason|known_reason]).
    eexists _, _, _. rewrite X1, X2. split; [done|]. split_and!; [done|done| |done|done|done|done]. by apply warn_all_known; [|apply Rr].
Qed.

Lemma frame_entry_follows w s s1 at_ms f timing bytes :
  let chunk := TimedFrame at_ms f timing bytes in
  follows w s -> chunk_wf chunk -> walk_chunk true s chunk = Ok (inl s1) ->
  exists fe w1, spec_entry all w chunk = Ok (Some (Entry_Frame fe), w1) /\ follows w1 s1 /\ FrameEntry_validate fe = Ok tt /\
    fe.(fe_media_start_sample) = decimal s.(walk_timeline).(tl_timed_samples) /\
    fe.(fe_media_end_sample) = decimal (s.(walk_timeline).(tl_timed_samples) + zlen bytes / alignment_of f) /\
    fe.(fe_sample_rate_hz) = f.(sample_rate_hz) /\ fe.(fe_gap_offset_ms) = decimal s.(walk_timeline).(tl_timed_gap_ms) /\
    fe.(fe_provenance) = frame_view <$> timing /\
    exists a t, fe.(fe_wall) = mapped_wall (frame_mapping a t timing).
Proof using O W Wr.
  intros chunk F K H. pose proof (walk_inv _ _ _ K H) as [En I]. destruct I as (I1 & I2 & I3 & I4 & I5 & I6 & I7).
  pose proof K as (Kf & Ka & Kn & Ku & Kp).
  pose proof F as [F1 F2 F3 F4 F5 F6 F7 F8 F9 F10 F11 F12].
  destruct (frame_step_clock true s.(walk_timeline) f (zlen bytes) s1.(walk_timeline)) as (C1 & C2 & C3 & C4 & C5);
    [done|by apply same_format_fits|done|lia|done|]. destruct (C5 eq_refl) as (C6 & C7 & C8 & C9).
  destruct (frame_alignment_bytes_Ok f Kf) as [Ea Ha]. fold (alignment_of f) in Ea, Ha.
  pose proof (nonempty_samples f bytes Kf Ka Kn) as Pos.
  assert (Le : tl_timed_samples (walk_timeline s1) <= u64_max).
  { unfold clock_ok in C1. rewrite C2 in C1. destruct C1 as [_ C1]. destruct (C1 eq_refl). lia. }
  assert (Fe : frame_end w f bytes = Ok (tl_timed_samples (walk_timeline s1))).
  { unfold frame_end. rewrite Ea, F3. cbn [result_bind]. unfold checked_add. rewrite (proj2 (Z.leb_le _ _)) by lia. cbn. f_equal. lia. }
  unfold chunk. cbn [spec_entry]. rewrite Fe. cbn [result_bind]. destruct (tracker_frame (wk_tracker w) timing) as [a t] eqn:T.
  destruct (frame_mapping_valid w f timing (tl_timed_samples (walk_timeline s1)) a t bytes at_ms T K F12)
    as (wall & reasons & w1 & E & X2 & X3 & X4 & X5 & X6 & X7 & X8).
  fold (frame_mapping a t timing). rewrite E. eexists _, _. split; [done|].
  assert (Te : ct_epoch t = tv_epoch (walk_validation s)) by (rewrite <- F10, <- (tracker_frame_epoch (wk_tracker w) timing), T; done).
  split; [|split; [|cbn; rewrite F3, F4; split_and!; [done|f_equal; lia|done|done|done|by exists a, t]]].
  - eapply (follows_next w s _ s1 chunk); try done; cbn.
    + by rewrite T.
    + rewrite X2, C3. done.
    + by rewrite C2.
    + rewrite C2. cbn. symmetry. apply Z.ltb_lt. lia.
    + intros _. rewrite X3, I5. specialize (F7 En). by rewrite F7, I1.
    + intros ? ?. congruence.
    + lia.
  - rewrite F3, F4. apply (frame_entry_valid at_ms f timing bytes); [exact K|ints|ints| |lia|by rewrite Te| |exact X6|exact X7|exact X5].
    + unfold clock_ok in C1. rewrite C2 in C1. destruct C1 as [_ C1]. destruct (C1 eq_refl) as (_ & Y & _). rewrite C3 in Y. ints.
    + intros p ->. rewrite Te. exact (accepted_timing_epoch _ _ _ _ _ _ (walk_accepts _ _ _ H)).
Qed.
End FrameEntries.
