(* ===== verification/AlignmentClaims.v ===== *)
(** * What a client learns from an alignment

    The pages of an alignment and the claims about it: a recording that passed
    the preflight is reported in full, frame by frame, at the places of the
    recorder's own media timeline, and a wall-clock estimate is the outward
    rounding of the line through the clock pairs around the frame. *)

From S2P Require Import Prelude RustStr Bytes Errors Pcm Decimals CaptureTiming ClientTiming Audio RecordingSafety Chunks Recorder Reader Recording RecorderInvariants Reconciliation Alignment AlignmentPairs AlignmentWalk AlignmentReport.

Local Open Scope Z_scope.

(** ** Pages *)

Definition valid_entry (e : ClientAlignmentEntry) : Prop := ClientAlignmentEntry_validate e = Ok tt.

(** What is relied on about the JSON of a page: it can be written, and one valid
    entry, whose strings are all bounded, fits a page. *)
Class PageJsonLaws `{PageJson} : Prop := {
  page_json_total : forall p, exists n, page_json_len p = Some n;
  page_json_single : forall source k e n,
    ClientRecordingIdentity_validate source = Ok tt -> valid_entry e -> is_u64 k ->
    page_json_len (page_of source k [e]) = Some n -> n <= MAX_ALIGNMENT_PAGE_BYTES - MAX_PAGE_ENVELOPE_BYTES;
}.

Definition completion (source : ClientRecordingIdentity) (w : Walk) (count : Z) : ClientRecordingAlignmentComplete :=
  {| complete_source := source; page_count := decimal count;
     coverage_status := if existsb (fun v => negb (bool_decide (v = lit "local_wall_timestamp_estimate"))) w.(wk_warnings)
                        then lit "partial" else lit "available";
     warnings := w.(wk_warnings); traversal_succeeded := true |}.

(** Pages of the source, numbered from [k]. *)
Definition numbered (source : ClientRecordingIdentity) (k : Z) (pages : list ClientRecordingAlignmentPage) : Prop :=
  forall i p, pages !! i = Some p -> p = page_of source (k + Z.of_nat i) p.(page_entries).

Section Pages.
Context `{PJ : PageJson} {PL : PageJsonLaws} `{RC : RecordingCrypto}.
Context (source : ClientRecordingIdentity) (Hs : ClientRecordingIdentity_validate source = Ok tt).

(** A page that was measured. *)
Record good_page (k : Z) (entries : list ClientAlignmentEntry) : Prop := {
  gp_entries : Forall valid_entry entries;
  gp_some : entries <> [];
  gp_count : zlen entries <= MAX_ALIGNMENT_PAGE_ENTRIES;
  gp_size : exists n, page_json_len (page_of source k entries) = Some n /\ n <= MAX_ALIGNMENT_PAGE_BYTES - MAX_PAGE_ENVELOPE_BYTES;
}.

Lemma validate_entries_ok l : Forall valid_entry l -> validate_entries l = Ok tt.
Proof. induction 1 as [|e l H _ IH]; cbn; [done|]. by rewrite H. Qed.

Lemma good_page_valid k entries : is_u64 k -> good_page k entries -> ClientRecordingAlignmentPage_validate (page_of source k entries) = Ok tt.
Proof using Hs.
  intros Hk [G1 G2 G3 (n & G4 & G5)]. unfold ClientRecordingAlignmentPage_validate. cbn [page_of page_source page_index page_policy page_entries]. rewrite Hs. cbn [result_bind].
  rewrite client_decimal_ok by done. cbn [result_bind]. rewrite bool_decide_eq_true_2 by done. rewrite (proj2 (Z.ltb_ge _ _)) by done.
  destruct entries as [|e l]; [done|]. cbn [negb is_empty orb]. rewrite validate_entries_ok by done. cbn [result_bind].
  change {| page_source := source; page_index := decimal k; page_policy := ClientAlignmentPolicy_default; page_entries := e :: l |} with (page_of source k (e :: l)).
  rewrite G4. cbn [ok_or result_bind]. unfold MAX_PAGE_ENVELOPE_BYTES in G5. by rewrite (proj2 (Z.ltb_ge _ _)) by lia.
Qed.

Lemma emit_page_at k entries : is_u64 k -> is_u64 (k + 1) -> good_page k entries -> yields (emit_page source k entries) [Page (page_of source k entries)] (k + 1).
Proof using Hs.
  intros Hk Hk' G. unfold emit_page. eapply returns_bind; [apply returns_lift; by rewrite good_page_valid|].
  eapply returns_bind; [apply returns_lift; unfold checked_add; by rewrite (proj2 (Z.leb_le _ _)) by ints|]. done.
Qed.

Definition page_so_far (k : Z) (entries : list ClientAlignmentEntry) : Prop := entries = [] \/ good_page k entries.

Lemma add_entry_at k entries e :
  is_u64 k -> is_u64 (k + 1) -> page_so_far k entries -> valid_entry e ->
  good_page k (entries ++ [e]) /\ yields (add_entry source k entries e) [] (k, entries ++ [e]) \/
  good_page k entries /\ good_page (k + 1) [e] /\ yields (add_entry source k entries e) [Page (page_of source k entries)] (k + 1, [e]).
Proof using Hs PL.
  intros Hk Hk' P V. unfold add_entry. destruct (page_json_total (page_of source k (entries ++ [e]))) as [n Hn].
  destruct ((MAX_ALIGNMENT_PAGE_ENTRIES <? zlen (entries ++ [e])) || (MAX_ALIGNMENT_PAGE_BYTES - MAX_PAGE_ENVELOPE_BYTES <? n)) eqn:B.
  - right. assert (G : good_page k entries).
    { destruct P as [->|]; [|done]. exfalso. cbn [app] in *. pose proof (page_json_single source k e n Hs V Hk Hn). apply orb_true_iff in B. rewrite !Z.ltb_lt in B. destruct B as [B|B]; [done|lia]. }
    assert (G' : good_page (k + 1) [e]).
    { destruct (page_json_total (page_of source (k + 1) [e])) as [n' Hn']. split; [by constructor|done|done|]. exists n'. split; [done|]. by eapply page_json_single. }
    split; [done|]. split; [done|]. eapply returns_bind; [apply returns_lift; by rewrite V|]. eapply returns_bind; [apply returns_lift; by rewrite Hn|]. rewrite B.
    destruct entries as [|e0 l]; [by destruct G|]. cbn [is_empty]. rewrite <- (app_nil_r [Page _]). eapply yields_bind; [by apply emit_page_at|]. done.
  - left. breflect. split.
    + split; [|by destruct entries|done|by exists n]. apply Forall_app. split; [|by constructor]. destruct P as [->|[]]; [constructor|done].
    + eapply returns_bind; [apply returns_lift; by rewrite V|]. eapply returns_bind; [apply returns_lift; by rewrite Hn|].
      rewrite (proj2 (Z.ltb_ge _ _)) by done. by rewrite (proj2 (Z.ltb_ge _ _)) by done.
Qed.

Lemma completion_valid w k : is_u64 k -> known_set w.(wk_warnings) -> ClientRecordingAlignmentComplete_validate (completion source w k) = Ok tt.
Proof using Hs.
  intros Hk Kw. unfold ClientRecordingAlignmentComplete_validate. cbn [completion complete_source page_count coverage_status traversal_succeeded warnings].
  rewrite Hs. cbn [result_bind]. rewrite client_decimal_ok by done. cbn [result_bind].
  replace (one_of _ _) with true by (destruct (existsb _ _); reflexivity). cbn [negb orb]. by apply validate_reasons_ok, known_set_reasons.
Qed.

(** The pages [pages] report [entries], from page [k]. *)
Record reports (k : Z) (entries : list ClientAlignmentEntry) (pages : list ClientRecordingAlignmentPage) : Prop := {
  rp_entries : concat (map page_entries pages) = entries;
  rp_numbered : numbered source k pages;
  rp_valid : Forall (fun p => ClientRecordingAlignmentPage_validate p = Ok tt) pages;
}.

Lemma reports_cons k cur entries pages :
  is_u64 k -> good_page k cur -> reports (k + 1) entries pages -> reports k (cur ++ entries) (page_of source k cur :: pages).
Proof using Hs.
  intros Hk G [R1 R2 R3]. split.
  - cbn. by rewrite R1.
  - intros [|i] p; [intros [= <-]; by rewrite Z.add_0_r|]. cbn. intros H. rewrite (R2 i p H) at 1. f_equal. lia.
  - constructor; [by apply good_page_valid|done].
Qed.

Lemma finish_walk_at w k cur :
  is_u64 k -> is_u64 (k + 1) -> page_so_far k cur -> known_set w.(wk_warnings) ->
  exists pages, reports k cur pages /\
    yields (finish_walk source w k cur) (map Page pages ++ [Complete (completion source w (k + zlen pages))]) tt.
Proof using Hs.
  intros Hk Hk' P Kw. unfold finish_walk. destruct P as [->|G].
  - exists []. split; [split; [done|by intros ? ?|constructor]|]. eapply returns_bind; [done|]. eapply returns_bind; [apply returns_check|].
    fold (completion source w k). eapply returns_bind; [apply returns_lift; by rewrite completion_valid|]. cbn. by rewrite Z.add_0_r.
  - exists [page_of source k cur]. split; [rewrite <- (app_nil_r cur) at 1; apply reports_cons; [done..|split; [done|by intros ? ?|constructor]]|].
    destruct cur as [|e l]; [by destruct G|]. cbn [is_empty]. eapply yields_bind; [by apply emit_page_at|]. eapply returns_bind; [apply returns_check|].
    fold (completion source w (k + 1)). eapply returns_bind; [apply returns_lift; by rewrite completion_valid|]. done.
Qed.

Context (all : list StampedPair) (O : ordered all).

(** The loop reports the entries of the specification. *)
Lemma alignment_loop_at chunks :
  forall fuel frames c' n c w k cur entries w',
  reads frames chunks c' -> cursor_at all n c -> in_reach all n w.(wk_tracker) -> Forall chunk_wf chunks ->
  spec_entries all w chunks = Ok (entries, w') -> Forall valid_entry entries -> known_set w'.(wk_warnings) ->
  page_so_far k cur -> 0 <= k -> k + zlen entries + 1 <= u64_max -> (length chunks < fuel)%nat ->
  exists pages, reports k (cur ++ entries) pages /\
    yields (alignment_loop fuel source frames c w k cur) (map Page pages ++ [Complete (completion source w' (k + zlen pages))]) tt.
Proof using Hs PL O.
  induction chunks as [|chunk chunks IH]; intros fuel frames c' n c w k cur entries w' R C I K E V Kw P Hk Hu F; (destruct fuel as [|fuel]; [cbn in F; lia|]); cbn [alignment_loop].
  - cbn in E. simplify_eq. rewrite app_nil_r. rewrite zlen_nil in Hu. destruct (finish_walk_at w' k cur) as (pages & A & B); [ints|ints|done|done|]. exists pages. split; [done|].
    by eapply returns_bind; [by apply next_end|].
  - cbn [spec_entries] in E. apply result_bind_Ok in E as ([entry w1] & E1 & E). apply result_bind_Ok in E as ([rest w2] & E2 & E). simplify_eq.
    apply Forall_cons in K as [K K']. destruct (next_more _ _ _ _ R) as (frames1 & N & R1).
    destruct (walk_entry_at all O n c w chunk entry w1 C I K E1) as (n1 & c1 & A & C1 & I1). cbn [length] in F.
    apply Forall_app in V as [Ve Vr]. rewrite zlen_app in Hu. pose proof (zlen_nonneg rest). pose proof (zlen_nonneg (option_list entry)).
    destruct entry as [e|].
    + change (option_list (Some e)) with [e] in *. apply Forall_cons in Ve as [Ve _]. change (zlen [e]) with 1 in Hu. destruct (add_entry_at k cur e) as [[G Y]|(G & G' & Y)]; [ints|ints|done|done| |].
      * destruct (IH fuel frames1 c' n1 c1 w1 k (cur ++ [e]) rest w') as (pages & B1 & B2); try done; try (by right); try lia. exists pages.
        split; [by rewrite <- app_assoc in B1|]. eapply returns_bind; [exact N|]. eapply returns_bind; [exact A|]. eapply returns_bind; [exact Y|]. exact B2.
      * destruct (IH fuel frames1 c' n1 c1 w1 (k + 1) [e] rest w') as (pages & B1 & B2); try done; try (by right); try lia. exists (page_of source k cur :: pages).
        split; [apply reports_cons; [ints|done|done]|]. eapply returns_bind; [exact N|]. eapply returns_bind; [exact A|].
        rewrite zlen_cons, Z.add_assoc. exact (yields_bind _ _ _ _ _ _ Y B2).
    + change (option_list None) with (@nil ClientAlignmentEntry) in *. destruct (IH fuel frames1 c' n1 c1 w1 k cur rest w') as (pages & B1 & B2); try done; rewrite ?zlen_nil in Hu; try lia. exists pages. split; [done|].
      eapply returns_bind; [exact N|]. eapply returns_bind; [exact A|]. exact B2.
Qed.
End Pages.

(** ** The clock pairs of a recording *)

Lemma stamps_good chunks : forall t wall prior bound,
  Forall chunk_wf chunks -> 1 <= wall -> wall + zlen chunks <= bound ->
  Forall (fun s => wf_pair s.(stamped) /\ CaptureClockPair_validate s.(stamped) = Ok tt) (stamps t wall prior chunks) /\
  Forall (fun s => 1 <= s.(sp_wall_run) <= bound) (stamps t wall prior chunks).
Proof.
  induction chunks as [|chunk chunks IH]; intros t wall prior bound K L B; [split; constructor|].
  apply Forall_cons in K as [K K']. rewrite zlen_cons in B. pose proof (zlen_nonneg chunks).
  destruct (match chunk with ChunkMetadata (Metadata_ClockPair p) => Some p | _ => None end) as [p|] eqn:P.
  - destruct chunk as [| |[|q|]| | | | |]; try done. injection P as ->. cbn [stamps].
    set (wall' := if breaks_wall_run prior (ct_run t) p then wall + 1 else wall). assert (wall <= wall' <= wall + 1) by (unfold wall'; destruct (breaks_wall_run _ _ _); lia).
    destruct (IH t wall' (Some {| stamped := p; sp_run := ct_run t; sp_wall_run := wall' |}) bound K') as [A1 A2]; [lia..|].
    split; constructor; try done. cbn. lia.
  - destruct (IH (track t chunk) wall prior bound K') as [A1 A2]; [lia..|]. destruct chunk as [| |[|q|]| | | | |]; done.
Qed.

(** ** The validated walk of a whole recording *)

Record walk_ok (s : WalkState) : Prop := {
  wo_step : in_step s;
  wo_clock : clock_ok true s.(walk_timeline);
  wo_gap : forall a, s.(walk_gap) = Some a -> a <= s.(walk_last_at_ms);
}.

Lemma walk_ok_next s chunk s1 :
  walk_ok s -> chunk_wf chunk -> walk_chunk true s chunk = Ok (inl s1) ->
  walk_ok s1 /\ s.(walk_timeline).(tl_media_ms) <= s1.(walk_timeline).(tl_media_ms).
Proof.
  intros [S C G] K H. destruct (walk_clock _ _ _ S C G K H) as (S1 & C1 & M). split; [|done]. split; [done..|].
  pose proof (walk_inv _ _ _ K H) as [_ I]. intros a Ha.
  destruct chunk as [? ? ? ?| |[]| | |? ?|?|?]; try done; destruct_and? I; try congruence;
    first [match goal with E : walk_gap s1 = walk_gap s |- _ => rewrite E in Ha end; specialize (G a Ha); lia|simplify_eq; lia].
Qed.

Lemma walk_list_media chunks : forall s s',
  walk_ok s -> Forall chunk_wf chunks -> walk_list true s chunks = Ok s' ->
  s.(walk_timeline).(tl_media_ms) <= s'.(walk_timeline).(tl_media_ms).
Proof.
  induction chunks as [|chunk chunks IH]; intros s s' O K W; [cbn in W; simplify_eq; lia|].
  apply Forall_cons in K as [K K']. cbn [walk_list] in W. apply result_bind_Ok in W as ([s1|] & W1 & W); [|done].
  destruct (walk_ok_next _ _ _ O K W1) as [O1 M1]. specialize (IH _ _ O1 K' W). lia.
Qed.

Lemma follows_ok w s : follows w s -> walk_ok s.
Proof. intros F. split; [apply F..|]. intros a Ha. apply (fw_opened _ _ F a Ha). Qed.

(** The media timeline at the end of the chunks. *)
Definition media_end (chunks : list RecordedChunk) : Z := (fold_left (replay true) chunks MediaTimeline_default).(tl_media_ms).

Lemma walk_list_replay chunks : forall s s',
  in_step s -> Forall (chunk_ok true) chunks -> walk_list true s chunks = Ok s' ->
  s'.(walk_timeline) = fold_left (replay true) chunks s.(walk_timeline).
Proof.
  induction chunks as [|chunk chunks IH]; intros s s' S K W; [cbn in W; by simplify_eq|].
  apply Forall_cons in K as [K K']. cbn [walk_list] in W. apply result_bind_Ok in W as ([s1|] & W1 & W); [|done].
  destruct (walk_step _ _ _ _ S K W1) as [S1 T1]. cbn. rewrite <- T1. by apply IH.
Qed.

Lemma reads_unique `{RC : RecordingCrypto} c chunks c' : reads c chunks c' -> forall chunks2 c2, reads c chunks2 c2 -> chunks2 = chunks /\ c2 = c'.
Proof.
  induction 1 as [c c' N|c chunk c1 chunks c' N R IH]; intros chunks2 c2 R2; inversion R2 as [? ? N2|? ? ? ? ? N2 R2']; subst; rewrite N in N2; simplify_eq; [done|].
  by destruct (IH _ _ R2') as [-> ->].
Qed.

(** ** The entries of a whole recording *)

(** Where an entry places a frame: its samples, their rate, and the silence of
    the gaps before it. *)
Definition frame_place (e : ClientAlignmentEntry) : option (rstr * rstr * Z * rstr) :=
  match e with
  | Entry_Frame fe => Some (fe.(fe_media_start_sample), fe.(fe_media_end_sample), fe.(fe_sample_rate_hz), fe.(fe_gap_offset_ms))
  | _ => None
  end.

(** Where the recorder's media timeline has it. *)
Definition place_of (p : placed) : rstr * rstr * Z * rstr :=
  (decimal p.(p_sample), decimal (p.(p_sample) + zlen p.(p_bytes) / alignment_of p.(p_format)),
   p.(p_format).(sample_rate_hz), decimal p.(p_gap_ms)).

(** The estimate of an entry starts at the line through two consecutive clock
    pairs around the start of the frame on the capture clock, rounded down, and
    ends at the line through two around its end, rounded up. *)
Record sound_estimate (all : list StampedPair) (fe : FrameEntry) (est : ClientWallEstimate) (p : FrameProvenance)
    (sp : NominalCaptureSpan) (s e run wr : Z) (a b a' b' : StampedPair) : Prop := {
  so_frame : fe.(fe_provenance) = Some (frame_view p) /\ p.(span) = Some sp;
  so_start : est.(local_start_ns) = decimal s;
  so_end : est.(local_end_ns) = decimal e;
  so_first : usable all run a b wr;
  so_first_around : midpoint_twice a.(stamped) <= sp.(host_start_ns) * 2 < midpoint_twice b.(stamped);
  so_down : rounds_down a.(stamped) b.(stamped) (sp.(host_start_ns) * 2) s;
  so_last : usable all run a' b' wr;
  so_last_around : midpoint_twice a'.(stamped) < sp.(host_end_ns) * 2 <= midpoint_twice b'.(stamped);
  so_up : rounds_up a'.(stamped) b'.(stamped) (sp.(host_end_ns) * 2) e;
  so_order : s <= e;
}.

Definition estimates_sound (all : list StampedPair) (e : ClientAlignmentEntry) : Prop :=
  forall fe est, e = Entry_Frame fe -> fe.(fe_wall) = Some est ->
  exists p sp s e run wr a b a' b', sound_estimate all fe est p sp s e run wr a b a' b'.

Lemma chunk_entry_no_frame w chunk fe w1 : chunk_entry w chunk <> Ok (Some (Entry_Frame fe), w1).
Proof.
  intros H. destruct chunk as [| |[|p|? r]| | | | |]; cbn in H; try (by simplify_eq).
  - by apply result_bind_Ok in H as (? & _ & H).
  - apply result_bind_Ok in H as ([o s] & _ & H). apply result_bind_Ok in H as (g & _ & H). apply result_bind_Ok in H as (fi & _ & H). by destruct s.
  - by destruct (wk_gap w ≫= snd).
Qed.

Section Entries.
Context (all : list StampedPair) (O : ordered all).
Context (W : Forall (fun s => wf_pair s.(stamped) /\ CaptureClockPair_validate s.(stamped) = Ok tt) all).
Context (Wr : Forall (fun s => 1 <= s.(sp_wall_run) <= u64_max) all).

Lemma frame_estimate_sound at_ms f timing bytes fe a t :
  chunk_wf (TimedFrame at_ms f timing bytes) -> fe.(fe_provenance) = frame_view <$> timing ->
  fe.(fe_wall) = mapped_wall (frame_mapping all a t timing) -> estimates_sound all (Entry_Frame fe).
Proof using O W.
  intros (_ & _ & _ & _ & K) Pv Wv fe' est [= <-] He. rewrite Wv in He. unfold frame_mapping in He. destruct (mapped a); [|done].
  destruct timing as [p|]; [|done]. cbn [mbind option_bind] in He. destruct (span p) as [sp|] eqn:Sp; [|done]. cbn [mbind option_bind mapped_wall] in He.
  destruct (wall_time all (ct_run t) (host_start_ns sp) (host_end_ns sp)) as [e0|] eqn:E; [|done]. injection He as <-.
  destruct (K p eq_refl) as (_ & V & _). assert (Lt : host_start_ns sp < host_end_ns sp).
  { unfold FrameProvenance_validate in V. apply result_bind_Ok in V as (? & _ & V). destruct (_ || _); [done|]. rewrite Sp in V.
    destruct ((_ =? 0) || _) eqn:G; [done|]. by breflect. }
  unfold wall_time in E. apply result_bind_Ok in E as (m & Hm & E).
  destruct (map_pairs_sound all O W (ct_run t) (host_start_ns sp * 2) (host_end_ns sp * 2) m ltac:(lia) Hm) as (_ & Mp & s & f1 & wr & x & y & x' & y' & [e1 e2 e3 e4 e5 e6 e7 e8 e9 e10 e11 e12 e13]).
  unfold estimate_of, wall_estimate in E. rewrite e1, e2, e3, e4 in E. cbn in E. apply Ok_inj in E as <-. rewrite Mp in *.
  exists p, sp, s, f1, (ct_run t), wr, x, y, x', y'. by split.
Qed.

Lemma spec_entries_ok chunks : forall w s s' sp,
  follows w s -> Forall chunk_wf chunks -> walk_list true s chunks = Ok s' -> s'.(walk_timeline).(tl_media_ms) < u64_max ->
  Forall (chunk_ok true) chunks ->
  exists entries w', spec_entries all w chunks = Ok (entries, w') /\ Forall valid_entry entries /\ follows w' s' /\
    omap frame_place entries = map place_of (place true sp s.(walk_timeline) chunks) /\
    Forall (estimates_sound all) entries /\ (length entries <= length chunks)%nat.
Proof using O W Wr.
  induction chunks as [|chunk chunks IH]; intros w s s' sp F K H L Kc.
  { cbn in H. simplify_eq. exists [], w. split_and!; try done; constructor. }
  apply Forall_cons in K as [K K'], Kc as [Kc Kc']. cbn [walk_list] in H. apply result_bind_Ok in H as ([s1|] & H1 & H); [|done].
  destruct (walk_ok_next _ _ _ (follows_ok _ _ F) K H1) as [O1 _]. pose proof (walk_list_media _ _ _ O1 K' H) as M.
  destruct (walk_step _ _ _ _ (fw_step _ _ F) Kc H1) as [_ T1].
  assert (A : exists e w1, spec_entry all w chunk = Ok (e, w1) /\ follows w1 s1 /\ Forall valid_entry (option_list e) /\
    omap frame_place (option_list e) = map place_of (place_chunk sp s.(walk_timeline) chunk) /\ Forall (estimates_sound all) (option_list e)).
  { destruct (match chunk with TimedFrame at_ms f timing bytes => Some (at_ms, f, timing, bytes) | _ => None end) as [[[[at_ms f] timing] bytes]|] eqn:E.
    - destruct chunk; try done. injection E as -> -> -> ->.
      destruct (frame_entry_follows all O W Wr w s s1 at_ms f timing bytes F K H1) as (fe & w1 & A1 & A2 & A3 & A4 & A5 & A6 & A7 & A8 & a & t & A9).
      exists (Some (Entry_Frame fe)), w1. split_and!; [done|done|by repeat constructor| |].
      + cbn. by rewrite A4, A5, A6, A7.
      + constructor; [|constructor]. by eapply frame_estimate_sound.
    - destruct (chunk_entry_follows w s chunk s1 F K H1) as (e & w1 & A1 & A2 & A3); [lia|by destruct chunk|].
      exists e, (set_tracker w1 (tracker_observe w1.(wk_tracker) chunk)).
      assert (N : forall fe, e <> Some (Entry_Frame fe)) by (intros fe ->; by apply chunk_entry_no_frame in A1).
      split_and!; [by destruct chunk; try done; cbn [spec_entry]; rewrite A1|done| | |].
      + destruct e; repeat constructor. by apply A3.
      + destruct chunk; try done; (destruct e as [[| |fe| | |]|]; try done); by destruct (N fe).
      + destruct e as [e|]; constructor; [|constructor]. intros fe est ->. by destruct (N fe). }
  destruct A as (e & w1 & A1 & A2 & A3 & A4 & A5). destruct (IH w1 s1 s' (next_span sp chunk) A2 K' H L Kc') as (rest & w' & B1 & B2 & B3 & B4 & B5 & B6).
  exists (option_list e ++ rest), w'. cbn [spec_entries place]. rewrite A1. cbn [result_bind]. rewrite B1. cbn [result_bind].
  rewrite omap_app, A4, B4, map_app, T1, length_app. split_and!; try done; [by apply Forall_app..|]. destruct e; cbn; lia.
Qed.
End Entries.

(** ** Claims *)

Section Claims.
Context `{PJ : PageJson} {PL : PageJsonLaws} `{RC : RecordingCrypto} `{RO : !RecordingOpenLaws RC}.

(** The identity of a verified capability. *)
Lemma identity_valid key cap :
  verify key cap = Ok tt -> is_u64 (SessionId_get cap.(source_session_id)) -> ClientRecordingIdentity_validate (ClientRecordingIdentity_from cap) = Ok tt.
Proof.
  unfold verify, capability_fields. intros (fields & Hf & _)%result_bind_Ok U. destruct (negb (capability_validate cap)) eqn:V; [done|].
  unfold capability_validate in V. breflect. unfold ClientRecordingIdentity_validate, ClientRecordingIdentity_from. cbn.
  rewrite client_decimal_ok by done. cbn. unfold client_hex. fold (is_hex (recording_handle cap) 32) (is_hex (cap_sha256 cap) 64).
  by repeat match goal with H : is_hex _ _ = true |- _ => rewrite H end.
Qed.

Lemma read_header_u64 header session : Forall is_byte header -> (20 <= length header)%nat -> read_header header = Ok session -> is_u64 (SessionId_get session).
Proof.
  intros Hb L H. unfold read_header in H. destruct (bool_decide _); [done|]. destruct (_ || _); [done|]. destruct (_ || _); [done|].
  apply Ok_inj in H as <-. apply (field_u64 12); [done|lia].
Qed.

(** What the snapshot establishes. *)
Lemma preflight_snapshot file key cap on_entry cancel at_end c :
  preflight_finalized_recording (Some file) key cap on_entry cancel at_end = Val (Ok c) -> Forall is_byte file ->
  ClientRecordingIdentity_validate (ClientRecordingIdentity_from cap) = Ok tt /\
  zlen file <= MAX_FINALIZED_RECORDING_BYTES /\
  c = {| remaining := drop HEADER_LEN file; reader_header := c.(reader_header); reader_session := c.(reader_session);
         reader_counter := 0; truncated := false; finished := false; strict := true |}.
Proof.
  intros H Hb. unfold preflight_finalized_recording in H. destruct on_entry; [done|].
  destruct (snapshot_finalized_recording _ _ _) as [c1|] eqn:S; [|done].
  apply exec_bind_Val in H as (r & _ & H). destruct r; [|done]. cbn in H. destruct at_end; [done|]. simplify_eq.
  unfold snapshot_finalized_recording in S. apply result_bind_Ok in S as (k & _ & S). apply result_bind_Ok in S as ([] & Hv & S).
  do 2 apply result_bind_Ok in S as (? & ? & S). cbn in *. simplify_eq.
  destruct (_ <? _) eqn:L; [done|]. destruct (bool_decide _) eqn:HL; [done|]. apply result_bind_Ok in S as (c2 & Ho & S).
  destruct (_ || _ || _) eqn:G; [done|]. simplify_eq. breflect. unfold open_session_recording in Ho.
  destruct (bool_decide _); [done|]. apply result_bind_Ok in Ho as (session & Hr & <-%Ok_inj). cbn in *. subst session.
  split; [|done]. eapply identity_valid; [exact Hv|]. eapply read_header_u64; [by apply Forall_take| |exact Hr]. rewrite length_take. unfold HEADER_LEN in *. lia.
Qed.

Lemma cursors_fresh c bytes :
  c = {| remaining := bytes; reader_header := c.(reader_header); reader_session := c.(reader_session);
         reader_counter := 0; truncated := false; finished := false; strict := true |} -> into_alignment_cursors c = Ok (c, c).
Proof. destruct c. cbn. intros E. injection E as -> -> -> -> ->. reflexivity. Qed.

(** No page is empty. *)
Lemma reports_length source k entries pages : reports source k entries pages -> zlen pages <= zlen entries.
Proof.
  intros [<- _ V]. induction V as [|p pages V _ IH]; [done|]. cbn [map concat]. rewrite zlen_cons, zlen_app.
  unfold ClientRecordingAlignmentPage_validate in V. do 2 apply result_bind_Ok in V as (? & _ & V). destruct (page_entries p) as [|e l].
  - cbn [is_empty] in V. by rewrite orb_true_r in V.
  - rewrite zlen_cons. pose proof (zlen_nonneg l). lia.
Qed.

(** The whole report of a preflighted timed recording. *)
Lemma alignment_report file key cap on_entry cancel at_end c chunks c' :
  preflight_finalized_recording (Some file) key cap on_entry cancel at_end = Val (Ok c) -> Forall is_byte file ->
  header_is_timed c.(reader_header) = true -> reads c chunks c' -> media_end chunks < u64_max ->
  let source := ClientRecordingIdentity_from cap in
  exists entries w pages,
    spec_entries (all_pairs chunks) Walk_new chunks = Ok (entries, w) /\ reports source 0 entries pages /\
    outcome (read_recording_alignment (Some file) key cap on_entry cancel at_end)
      = (map Page pages ++ [Complete (completion source w (zlen pages))], Val (Ok tt)) /\
    ClientRecordingAlignmentComplete_validate (completion source w (zlen pages)) = Ok tt /\
    omap frame_place entries = map place_of (place true 0 MediaTimeline_default chunks) /\
    Forall (estimates_sound (all_pairs chunks)) entries.
Proof using PL RC RO.
  intros H Hb Ht R M source. destruct (preflight_snapshot _ _ _ _ _ _ _ H Hb) as (Hs & Sz & Ec).
  destruct (preflight_walked _ _ _ _ _ _ _ H) as (_ & Hr & walk & c1 & Hw & Hi & _).
  assert (Hb' : Forall is_byte c.(remaining)) by (rewrite Hr; by apply Forall_drop).
  destruct (walk_loop_reads _ _ _ _ _ _ _ Hw Hi Hb') as (chunks1 & s' & A & B & C & D).
  destruct (reads_unique _ _ _ R _ _ A) as [-> ->]. rewrite Ht in *.
  pose proof (reads_wf _ _ _ R Hb' Ht) as K. pose proof (reads_length _ _ _ R) as Lc. rewrite Hr, length_drop in Lc.
  assert (Zc : zlen chunks <= 8 * 1024 * 1024 * 1024) by (unfold MAX_FINALIZED_RECORDING_BYTES, zlen in *; lia).
  destruct (stamps_good chunks CaptureTracker_default 1 None u64_max K) as [Wp Wr]; [lia|unfold u64_max; lia|]. fold (all_pairs chunks) in Wp, Wr.
  pose proof (all_pairs_ordered _ _ B) as O.
  assert (Me : s'.(walk_timeline).(tl_media_ms) < u64_max) by (rewrite (walk_list_replay _ _ _ (fw_step _ _ follows_start) C B); exact M).
  destruct (spec_entries_ok _ O Wp Wr chunks Walk_new WalkState_default s' 0 follows_start K B Me C) as (entries & w & E1 & E2 & E3 & E4 & E5 & E6).
  assert (Ze : 0 + zlen entries + 1 <= u64_max) by (unfold zlen, u64_max in *; lia).
  destruct (alignment_loop_at source Hs (all_pairs chunks) O chunks (S (length c.(remaining))) c c' 0 (PairCursor_new c) Walk_new 0 [] entries w)
    as (pages & P1 & P2); try done; [by eapply cursor_new|left; lia|apply E3|by left|].
  exists entries, w, pages. split_and!; [done|done| | |done|done].
  - unfold read_recording_alignment. rewrite H. unfold walk_alignment. rewrite Ht. cbn [negb].
    exact (returns_bind _ _ _ _ _ (returns_lift _ _ (cursors_fresh _ _ Ec)) P2).
  - apply completion_valid; [done| |apply E3]. pose proof (reports_length _ _ _ _ P1) as Lp. pose proof (zlen_nonneg pages). cbn [app] in Lp. ints.
Qed.

(** C11. An alignment reports the whole recording. For a timed recording that
    passes the preflight, and whose media time fits 64 bits, the walk with its
    two cursors and its six clock pairs sends exactly the entries of the
    specification, which maps every frame with all clock pairs of the recording
    at hand: in order, in pages that are numbered from zero and pass the
    client's validation, then one valid completion that counts the pages. When
    the work is cancelled or the client stops reading, what was sent is a prefix
    of that and cancellation is the only error. *)
Theorem alignment_reports_the_recording file key cap on_entry cancel at_end c chunks c' :
  preflight_finalized_recording (Some file) key cap on_entry cancel at_end = Val (Ok c) -> Forall is_byte file ->
  header_is_timed c.(reader_header) = true -> reads c chunks c' -> media_end chunks < u64_max ->
  let source := ClientRecordingIdentity_from cap in
  let walk := read_recording_alignment (Some file) key cap on_entry cancel at_end in
  exists entries w pages,
    let items := map Page pages ++ [Complete (completion source w (zlen pages))] in
    spec_entries (all_pairs chunks) Walk_new chunks = Ok (entries, w) /\
    concat (map page_entries pages) = entries /\ numbered source 0 pages /\
    Forall (fun p => ClientRecordingAlignmentPage_validate p = Ok tt) pages /\
    ClientRecordingAlignmentComplete_validate (completion source w (zlen pages)) = Ok tt /\
    outcome walk = (items, Val (Ok tt)) /\
    forall cancel' accepts, let r := run_io cancel' accepts 0 0 walk in
      r.1 `prefix_of` items /\ (r.2 = Val (Err cancelled) \/ r = (items, Val (Ok tt))).
Proof using PL RC RO.
  intros H Hb Ht R M source walk. destruct (alignment_report _ _ _ _ _ _ _ _ _ H Hb Ht R M) as (entries & w & pages & E & [R1 R2 R3] & Ou & V & _).
  exists entries, w, pages. split_and!; [done..|]. intros cancel' accepts r.
  destruct (run_io_prefix cancel' accepts walk 0 0) as [P Q]. unfold walk in P, Q. rewrite Ou in P, Q. by split.
Qed.

(** The entries of the pages that were sent. *)
Definition sent_entries (items : list RecordingAlignmentItem) : list ClientAlignmentEntry :=
  concat (map (fun i => match i with Page p => p.(page_entries) | Complete _ => [] end) items).

Lemma sent_entries_pages pages complete : sent_entries (map Page pages ++ [Complete complete]) = concat (map page_entries pages).
Proof. unfold sent_entries. by rewrite map_app, map_map, concat_app, app_nil_r. Qed.

(** The alignment and the diarizer agree on where audio is. The frame
    entries of an alignment are the frames of the recording in order, each with
    the sample range, the rate and the gap offset it has on the recorder's media
    timeline, which is where the windows of the diarizer are placed. *)
Theorem alignment_places_every_frame file key cap on_entry cancel at_end c chunks c' :
  preflight_finalized_recording (Some file) key cap on_entry cancel at_end = Val (Ok c) -> Forall is_byte file ->
  header_is_timed c.(reader_header) = true -> reads c chunks c' -> media_end chunks < u64_max ->
  let items := (outcome (read_recording_alignment (Some file) key cap on_entry cancel at_end)).1 in
  omap frame_place (sent_entries items) = map place_of (place true 0 MediaTimeline_default chunks).
Proof using PL RC RO.
  intros H Hb Ht R M items. destruct (alignment_report _ _ _ _ _ _ _ _ _ H Hb Ht R M) as (entries & w & pages & _ & [R1 _ _] & Ou & _ & P & _).
  unfold items. rewrite Ou. cbn [fst]. by rewrite sent_entries_pages, R1.
Qed.

(** C32. Wall-clock estimates are honest. Every estimate an alignment sends
    starts at the wall time of the frame's start on the line through two
    consecutive clock pairs around it, rounded down to a nanosecond, and ends at
    the wall time of its end on the line through two around that, rounded up;
    the pairs are of one run of the capture clock and of the wall clock, and
    close enough together to be used; the estimate does not end before it
    starts. *)
Theorem wall_estimates_bracket_frames file key cap on_entry cancel at_end c chunks c' fe est :
  preflight_finalized_recording (Some file) key cap on_entry cancel at_end = Val (Ok c) -> Forall is_byte file ->
  header_is_timed c.(reader_header) = true -> reads c chunks c' -> media_end chunks < u64_max ->
  let items := (outcome (read_recording_alignment (Some file) key cap on_entry cancel at_end)).1 in
  Entry_Frame fe ∈ sent_entries items -> fe.(fe_wall) = Some est ->
  exists p sp s e run wr a b a' b', sound_estimate (all_pairs chunks) fe est p sp s e run wr a b a' b'.
Proof using PL RC RO.
  intros H Hb Ht R M items Hin Hw. destruct (alignment_report _ _ _ _ _ _ _ _ _ H Hb Ht R M) as (entries & w & pages & _ & [R1 _ _] & Ou & _ & _ & S).
  unfold items in Hin. rewrite Ou in Hin. cbn [fst] in Hin. rewrite sent_entries_pages, R1 in Hin. rewrite Forall_forall in S. by apply (S _ Hin).
Qed.
End Claims.

(** ** Witnesses *)

(** A page counted at 400 bytes an entry. *)
Definition counted_json : PageJson := fun p => Some (zlen p.(page_entries) * 400).

Lemma counted_json_laws : @PageJsonLaws counted_json.
Proof. split; [by eexists|]. intros source k e n _ _ _ [= <-]. vm_compute. done. Qed.

Definition sample_pair (seq ns : Z) : CaptureClockPair :=
  {| pair_clock_domain_id := lit "mach"; wall_epoch := 1; pair_sequence := seq; host_before_ns := ns; local_unix_ns := 7 * 10 ^ 17 + ns;
     host_after_ns := ns + 1001; wall_resolution_ns := 1000; external_utc_accuracy_ns := None |}.

Definition sample_alignment_ops : list op :=
  [Op_metadata (Metadata_Epoch sample_epoch); Op_metadata (Metadata_ClockPair (sample_pair 1 1000000000)); Op_frame (sample_frame 1 0 1200000000);
   Op_metadata (Metadata_ClockPair (sample_pair 2 2000000000));
   Op_metadata (Metadata_ClockPair (sample_pair 3 3000000000)); Op_gap; Op_frame (sample_frame 2 40 3100000000)].

Definition sample_timed : option (list Z * FinalizedRecordingCapability) :=
  match sample_start true (fun _ => Io_ok) with
  | (_, Some s0) =>
      match @finalize_with_capability tag_crypto (@run_ops tag_crypto sample_alignment_ops s0).2 with
      | (Ok (_, cap), s2) => Some (s2.(world).(w_file), cap)
      | _ => None
      end
  | _ => None
  end.

(** Every chunk of a reader, when it can be read to the end. *)
Fixpoint drain `{RecordingCrypto} (fuel : nat) (c : RecordedChunks) : option (list RecordedChunk * RecordedChunks) :=
  match fuel with
  | O => None
  | S fuel =>
      match next_chunk c with
      | (Ok None, c') => Some ([], c')
      | (Ok (Some chunk), c1) => '(chunks, c') ← drain fuel c1; Some (chunk :: chunks, c')
      | (Err _, _) => None
      end
  end.

Lemma drain_reads `{RecordingCrypto} fuel c chunks c' : drain fuel c = Some (chunks, c') -> reads c chunks c'.
Proof.
  revert c chunks. induction fuel as [|fuel IH]; intros c chunks E; [done|]. cbn in E. destruct (next_chunk c) as [[[chunk|]|] c1] eqn:N; [|by simplify_eq; apply reads_end|done].
  destruct (drain fuel c1) as [[rest c2]|] eqn:D; [|done]. cbn in E. simplify_eq. eapply reads_more; [exact N|]. by apply IH.
Qed.

Definition sample_items (file : list Z) (cap : FinalizedRecordingCapability) : list RecordingAlignmentItem :=
  (outcome (@read_recording_alignment tag_crypto counted_json (Some file) (Ok (lit "0123456789abcdef")) cap false (fun _ => false) false)).1.

(** The places and the wall times that are sent. *)
Definition sample_places (items : list RecordingAlignmentItem) : list (rstr * rstr * Z * rstr) := omap frame_place (sent_entries items).
Definition sample_walls (items : list RecordingAlignmentItem) : list (option (rstr * rstr)) :=
  omap (fun e => match e with Entry_Frame fe => Some ((fun est => (est.(local_start_ns), est.(local_end_ns))) <$> fe.(fe_wall)) | _ => None end) (sent_entries items).

Definition sample_aligned (file : list Z) (cap : FinalizedRecordingCapability) : bool :=
  bytes_ok file && match sample_preflight file cap with
  | Val (Ok c) => header_is_timed c.(reader_header) && match @drain tag_crypto 100 c with
      | Some (chunks, _) => (media_end chunks <? u64_max)
          && bool_decide (sample_places (sample_items file cap) = [(lit "0", lit "40", 8, lit "0"); (lit "40", lit "80", 8, lit "20")])
          && bool_decide (sample_walls (sample_items file cap) = [Some (lit "700000001199999499", lit "700000002699999503"); None])
      | None => false
      end
  | _ => false
  end.

(** Two frames of five seconds on either side of a gap: the first between three
    clock pairs, the second after the last one. *)
Lemma sample_aligned_passes : match sample_timed with Some (file, cap) => sample_aligned file cap | None => false end = true.
Proof. vm_compute. reflexivity. Qed.

Lemma sample_alignment : exists file cap c chunks c',
  sample_preflight file cap = Val (Ok c) /\ Forall is_byte file /\ header_is_timed c.(reader_header) = true /\
  @reads tag_crypto c chunks c' /\ media_end chunks < u64_max /\
  sample_places (sample_items file cap) = [(lit "0", lit "40", 8, lit "0"); (lit "40", lit "80", 8, lit "20")] /\
  exists fe est, Entry_Frame fe ∈ sent_entries (sample_items file cap) /\ fe.(fe_wall) = Some est /\ est.(local_start_ns) = lit "700000001199999499".
Proof.
  pose proof sample_aligned_passes as H. destruct sample_timed as [[file cap]|]; [|done]. unfold sample_aligned in H.
  destruct (sample_preflight file cap) as [[c|]| |] eqn:P; try (by rewrite andb_false_r in H). destruct (drain 100 c) as [[chunks c']|] eqn:D; [|by rewrite !andb_false_r in H].
  breflect. apply bytes_ok_sound in H. exists file, cap, c, chunks, c'. split_and!; try done; [by eapply drain_reads|].
  match goal with E : sample_walls _ = _ |- _ => rename E into W end. unfold sample_walls in W.
  induction (sent_entries (sample_items file cap)) as [|e l IH]; [done|]. cbn in W. destruct e as [| |fe| | |]; try (destruct (IH W) as (fe' & est & A & B); exists fe', est; split; [by right|done]).
  injection W as W _. destruct (fe_wall fe) as [est|] eqn:E; [|done]. injection W as W _. exists fe, est. by split; [left|].
Qed.

Lemma alignment_reports_the_recording_witness : exists file cap pages w,
  outcome (@read_recording_alignment tag_crypto counted_json (Some file) (Ok (lit "0123456789abcdef")) cap false (fun _ => false) false)
    = (map Page pages ++ [Complete (completion (ClientRecordingIdentity_from cap) w (zlen pages))], Val (Ok tt)).
Proof.
  destruct sample_alignment as (file & cap & c & chunks & c' & P & B & T & R & M & _).
  destruct (@alignment_reports_the_recording counted_json counted_json_laws tag_crypto tag_crypto_open_laws _ _ _ _ _ _ _ _ _ P B T R M)
    as (entries & w & pages & _ & _ & _ & _ & _ & O & _).
  exists file, cap, pages, w. exact O.
Defined.

Lemma alignment_places_every_frame_witness : exists chunks,
  map place_of (place true 0 MediaTimeline_default chunks) = [(lit "0", lit "40", 8, lit "0"); (lit "40", lit "80", 8, lit "20")].
Proof.
  destruct sample_alignment as (file & cap & c & chunks & c' & P & B & T & R & M & Pl & _). exists chunks.
  rewrite <- (@alignment_places_every_frame counted_json counted_json_laws tag_crypto tag_crypto_open_laws _ _ _ _ _ _ _ _ _ P B T R M). exact Pl.
Defined.

Lemma wall_estimates_bracket_frames_witness : exists chunks fe est,
  est.(local_start_ns) = lit "700000001199999499" /\
  exists p sp s e run wr a b a' b', sound_estimate (all_pairs chunks) fe est p sp s e run wr a b a' b'.
Proof.
  destruct sample_alignment as (file & cap & c & chunks & c' & P & B & T & R & M & _ & fe & est & I & W & S). exists chunks, fe, est. split; [exact S|].
  exact (@wall_estimates_bracket_frames counted_json counted_json_laws tag_crypto tag_crypto_open_laws _ _ _ _ _ _ _ _ _ fe est P B T R M I W).
Defined.
