(* ===== verification/ClientValues.v ===== *)
(** * What a client is told: recordings, reconciliations, memories, personas

    [crates/protocol/src/client_recording.rs], [client_diarization.rs],
    [client_memory.rs], [client_persona.rs] and [client_text_processing.rs]: the
    values of the client protocol with the checks they pass before they are
    sent, or when they are received, and their projections from the runtime's
    own values. Parsing and printing JSON is a parameter. *)

From S2P Require Import Prelude RustStr Bytes Errors Pcm CaptureTiming Decimals ClientTiming ProtocolQuality MemoryProtocol Audio RecordingSafety Chunks Recorder.

Local Open Scope Z_scope.

(** ** Recordings *)

Definition FinalizedRecordingCapability_validate (c : FinalizedRecordingCapability) : wresult unit :=
  if capability_validate c then Ok tt else Err InvalidFinalizedRecordingCapability.

Definition MAX_CLIENT_RECORDING_GAPS : Z := 256.
Definition MAX_CLIENT_RECORDING_HANDLE_BYTES : Z := 128.
Definition MAX_CLIENT_RECORDING_PATH_BYTES : Z := 1024.
Definition MAX_CLIENT_RECORDING_LABEL_BYTES : Z := 64.

Definition RECORDING_GAP_REASONS : list rstr := [lit "capture_discontinuity"; lit "recording_failed"].

Record ClientRecordingGap : Type := {
  gap_started_at_ms : Z;
  gap_ended_at_ms : option Z;
  gap_reason : rstr;
}.

Record ClientRecordingSummary : Type := {
  rs_recording_handle : rstr;
  rs_encrypted_path : rstr;
  rs_sha256 : rstr;
  rs_duration_ms : Z;
  rs_format : rstr;
  rs_key_id : rstr;
  rs_gaps : list ClientRecordingGap;
}.

Definition is_bounded (value : rstr) (maximum_bytes : Z) (permitted : Z -> bool) : bool :=
  negb (is_empty value) && (blen value <=? maximum_bytes) && forallb permitted (utf8_encode value).

Definition handle_byte (b : Z) : bool := is_ascii_lowercase b || is_ascii_digit b.

Definition is_client_recording_handle (handle : rstr) : bool :=
  is_bounded handle MAX_CLIENT_RECORDING_HANDLE_BYTES handle_byte.

Definition gap_valid (duration : Z) (g : ClientRecordingGap) : bool :=
  one_of RECORDING_GAP_REASONS g.(gap_reason) && (g.(gap_started_at_ms) <=? duration)
  && is_none_or g.(gap_ended_at_ms) (fun ended => (g.(gap_started_at_ms) <=? ended) && (ended <=? duration)).

Definition validate_client_recording_summary (s : ClientRecordingSummary) : wresult unit :=
  if negb (is_client_recording_handle s.(rs_recording_handle)) then Err InvalidRecordingSummary
  else if is_empty s.(rs_encrypted_path) || (MAX_CLIENT_RECORDING_PATH_BYTES <? blen s.(rs_encrypted_path))
          || existsb is_control s.(rs_encrypted_path)
  then Err InvalidRecordingSummary
  else if negb (blen s.(rs_sha256) =? 64) || negb (forallb is_lowercase_hex_byte (utf8_encode s.(rs_sha256)))
  then Err InvalidRecordingSummary
  else if negb (is_bounded s.(rs_format) MAX_CLIENT_RECORDING_LABEL_BYTES
                  (fun b => is_ascii_lowercase b || is_ascii_digit b || (b =? 95) || (b =? 47)))
  then Err InvalidRecordingSummary
  else if negb (is_bounded s.(rs_key_id) MAX_CLIENT_RECORDING_LABEL_BYTES is_lowercase_hex_byte)
  then Err InvalidRecordingSummary
  else if MAX_CLIENT_RECORDING_GAPS <? zlen s.(rs_gaps) then Err InvalidRecordingSummary
  else if forallb (gap_valid s.(rs_duration_ms)) s.(rs_gaps) then Ok tt
  else Err InvalidRecordingSummary.

(** [client_recording_summary] of the gateway's [session.rs]; [path] is the
    path of the file as text. *)
Definition client_recording_summary (path : rstr) (s : RecordingSummary) : ClientRecordingSummary :=
  {| rs_recording_handle := s.(summary_handle); rs_encrypted_path := path; rs_sha256 := s.(summary_sha256);
     rs_duration_ms := s.(duration_ms); rs_format := s.(summary_format); rs_key_id := s.(summary_key_id);
     rs_gaps := map (fun g => {| gap_started_at_ms := g.(started_at_ms); gap_ended_at_ms := g.(ended_at_ms);
                                 gap_reason := g.(reason) |}) s.(summary_gaps) |}.

(** ** Reconciliations *)

Definition MAX_CLIENT_DIARIZED_SEGMENTS : Z := 1024.
Definition MAX_CLIENT_DIARIZED_SEGMENT_TEXT_BYTES : Z := 2048.
Definition MAX_CLIENT_DIARIZED_TEXT_BYTES : Z := 128 * 1024.
Definition MAX_CLIENT_DIARIZED_SEGMENT_ID_BYTES : Z := 64.

Record DiarizedMediaSampleRange : Type := {
  start_sample_inclusive : Z;
  end_sample_exclusive : Z;
  range_rate_hz : Z;
  range_gap_offset_ms : Z;
}.

Definition quantization_policy : rstr := lit "provider_seconds_outward_samples/v1".

Definition range_project_ms (r : DiarizedMediaSampleRange) (sample : Z) : wresult Z :=
  let ms := sample * 1000 / r.(range_rate_hz) in
  ok_or ((if ms <=? u64_max then Some ms else None) ≫= fun v => checked_add v r.(range_gap_offset_ms))
    InvalidRecordingReconciliation.

Definition DiarizedMediaSampleRange_new (start finish rate gap : Z) : wresult DiarizedMediaSampleRange :=
  if (finish <=? start) || (rate =? 0) then Err InvalidRecordingReconciliation
  else
    let range := {| start_sample_inclusive := start; end_sample_exclusive := finish; range_rate_hz := rate;
                    range_gap_offset_ms := gap |} in
    let? _ := range_project_ms range finish in Ok range.

(** The three comparisons are made one after the other, each only when the ones
    before it have not decided. *)
Definition validate_legacy_projection (r : DiarizedMediaSampleRange) (started ended : Z) : wresult unit :=
  let? from := range_project_ms r r.(start_sample_inclusive) in
  if negb (started =? from) || (ended <? started) then Err InvalidRecordingReconciliation
  else
    let? to_ceil := range_project_ms r r.(end_sample_exclusive) in
    if ended =? to_ceil then Ok tt
    else
      let? to_floor := range_project_ms r (r.(end_sample_exclusive) - 1) in
      if ended =? to_floor then Ok tt else Err InvalidRecordingReconciliation.

Definition DIARIZATION_WARNINGS : list rstr :=
  [lit "no_speech_detected"; lit "provider_reported_warnings"; lit "recording_truncated"].

Record ClientDiarizedSegment : Type := {
  seg_id : rstr;
  seg_started_at_ms : Z;
  seg_ended_at_ms : Z;
  seg_text : rstr;
  speaker_cluster : option rstr;
  media_sample_range : option DiarizedMediaSampleRange;
}.

Record ClientRecordingReconciliation : Type := {
  rr_segments : list ClientDiarizedSegment;
  rr_warnings : list rstr;
}.

Definition is_anonymous_cluster_label (label : rstr) : bool :=
  match strip_prefix (lit "cluster-") label with
  | None => false
  | Some index => negb (is_empty index) && (blen index <=? 4) && forallb is_ascii_digit (utf8_encode index)
                  && negb (starts_with (lit "0") index)
  end.

Definition segment_id_byte (b : Z) : bool := is_ascii_lowercase b || is_ascii_digit b || (b =? 45).

Definition validate_segment (s : ClientDiarizedSegment) : wresult unit :=
  let? _ := match s.(media_sample_range) with
            | Some range => validate_legacy_projection range s.(seg_started_at_ms) s.(seg_ended_at_ms)
            | None => Ok tt
            end in
  if is_empty s.(seg_id) || (MAX_CLIENT_DIARIZED_SEGMENT_ID_BYTES <? blen s.(seg_id))
     || negb (forallb segment_id_byte (utf8_encode s.(seg_id)))
  then Err InvalidRecordingReconciliation
  else if s.(seg_ended_at_ms) <? s.(seg_started_at_ms) then Err InvalidRecordingReconciliation
  else if (MAX_CLIENT_DIARIZED_SEGMENT_TEXT_BYTES <? blen s.(seg_text)) || existsb is_control s.(seg_text)
  then Err InvalidRecordingReconciliation
  else if is_some_and s.(speaker_cluster) (fun c => negb (is_anonymous_cluster_label c))
  then Err InvalidRecordingReconciliation
  else Ok tt.

(** The loop over the segments: [seen] are the identities of the earlier ones. *)
Fixpoint validate_segments (seen : list rstr) (rate : option Z) (text_bytes : Z) (segments : list ClientDiarizedSegment)
  : wresult unit :=
  match segments with
  | [] => Ok tt
  | s :: rest =>
      let? _ := validate_segment s in
      let? rate := match s.(media_sample_range) with
        | Some range => if is_some_and rate (fun r => negb (r =? range.(range_rate_hz)))
                        then Err InvalidRecordingReconciliation else Ok (Some range.(range_rate_hz))
        | None => Ok rate
        end in
      let? text_bytes := match checked_add text_bytes (blen s.(seg_text)) with
        | Some used => if used <=? MAX_CLIENT_DIARIZED_TEXT_BYTES then Ok used else Err InvalidRecordingReconciliation
        | None => Err InvalidRecordingReconciliation
        end in
      if one_of seen s.(seg_id) then Err InvalidRecordingReconciliation
      else validate_segments (seen ++ [s.(seg_id)]) rate text_bytes rest
  end.

(** A warning that is not on the closed list, or that is repeated. *)
Fixpoint bad_warning (known seen : list rstr) (warnings : list rstr) : bool :=
  match warnings with
  | [] => false
  | w :: rest => negb (one_of known w) || one_of seen w || bad_warning known (seen ++ [w]) rest
  end.

Definition validate_client_recording_reconciliation (r : ClientRecordingReconciliation) : wresult unit :=
  if MAX_CLIENT_DIARIZED_SEGMENTS <? zlen r.(rr_segments) then Err InvalidRecordingReconciliation
  else
    let? _ := validate_segments [] None 0 r.(rr_segments) in
    if zlen DIARIZATION_WARNINGS <? zlen r.(rr_warnings) then Err InvalidRecordingReconciliation
    else if bad_warning DIARIZATION_WARNINGS [] r.(rr_warnings) then Err InvalidRecordingReconciliation
    else Ok tt.

(** ** Personas *)

Record ClientPersonaState : Type := {
  ps_mode : rstr;
  ps_warmth : Z;
  ps_humor : Z;
  ps_teasing : Z;
  ps_initiative : Z;
  ps_directness : Z;
  ps_intimacy : Z;
  ps_verbosity : Z;
  ps_follow_up_frequency : Z;
}.

Definition conversation_mode_from_wire_name (name : rstr) : option ConversationMode :=
  if bool_decide (name = lit "direct_answer") then Some DirectAnswer
  else if bool_decide (name = lit "companionship") then Some Companionship
  else if bool_decide (name = lit "brainstorming") then Some Brainstorming
  else if bool_decide (name = lit "reflective") then Some Reflective
  else None.

Definition persona_levels (s : ClientPersonaState) : list Z :=
  [s.(ps_warmth); s.(ps_humor); s.(ps_teasing); s.(ps_initiative); s.(ps_directness); s.(ps_intimacy);
   s.(ps_verbosity); s.(ps_follow_up_frequency)].

Definition validate_client_persona_state (s : ClientPersonaState) : wresult unit :=
  if is_none (conversation_mode_from_wire_name s.(ps_mode)) then Err InvalidPersonaState
  else if existsb (fun level => 100 <? level) (persona_levels s) then Err InvalidPersonaState
  else Ok tt.

Definition ClientPersonaState_new (mode : rstr)
    (warmth humor teasing initiative directness intimacy verbosity follow_up_frequency : Z)
  : wresult ClientPersonaState :=
  let state := {| ps_mode := mode; ps_warmth := warmth; ps_humor := humor; ps_teasing := teasing;
                  ps_initiative := initiative; ps_directness := directness; ps_intimacy := intimacy;
                  ps_verbosity := verbosity; ps_follow_up_frequency := follow_up_frequency |} in
  let? _ := validate_client_persona_state state in Ok state.

Definition from_profile (p : PersonaProfile) (mode : ConversationMode) : ClientPersonaState :=
  {| ps_mode := ConversationMode_as_str mode; ps_warmth := PersonaLevel_get p.(warmth);
     ps_humor := PersonaLevel_get p.(humor); ps_teasing := PersonaLevel_get p.(teasing);
     ps_initiative := PersonaLevel_get p.(initiative); ps_directness := PersonaLevel_get p.(directness);
     ps_intimacy := PersonaLevel_get p.(intimacy); ps_verbosity := PersonaLevel_get p.(verbosity);
     ps_follow_up_frequency := PersonaLevel_get p.(follow_up_frequency) |}.

(** [.expect(..)] on a [Result]. *)
Definition expect_ok {A E} (r : result A E) : exec A := match r with Ok a => Val a | Err _ => Panics end.

Definition to_profile (s : ClientPersonaState) : exec (wresult (PersonaProfile * ConversationMode)) :=
  match validate_client_persona_state s with
  | Err e => Val (Err e)
  | Ok _ =>
      let! mode := expect (conversation_mode_from_wire_name s.(ps_mode)) in
      let! warmth := expect_ok (PersonaLevel_new s.(ps_warmth)) in
      let! humor := expect_ok (PersonaLevel_new s.(ps_humor)) in
      let! teasing := expect_ok (PersonaLevel_new s.(ps_teasing)) in
      let! initiative := expect_ok (PersonaLevel_new s.(ps_initiative)) in
      let! directness := expect_ok (PersonaLevel_new s.(ps_directness)) in
      let! intimacy := expect_ok (PersonaLevel_new s.(ps_intimacy)) in
      let! verbosity := expect_ok (PersonaLevel_new s.(ps_verbosity)) in
      let! follow_up_frequency := expect_ok (PersonaLevel_new s.(ps_follow_up_frequency)) in
      Val (Ok (PersonaProfile_new warmth humor teasing initiative directness intimacy verbosity follow_up_frequency, mode))
  end.

(** ** JSON *)

(** A JSON document as it is read: an object keeps its members in order, with
    the repeated ones; a number that is not a 64-bit integer keeps its text. *)
Inductive Value : Type :=
| V_null
| V_bool (b : bool)
| V_u64 (n : Z)
| V_i64 (n : Z)
| V_float (text : rstr)
| V_string (s : rstr)
| V_array (items : list Value)
| V_object (members : list (rstr * Value)).

(** [serde_json]: reading a document, writing one, and the text of a
    [serde_json::Value] ([Value::to_string]). *)
Class ClientJson : Type := {
  from_slice : list Z -> option Value;
  to_vec : Value -> list Z;
  value_to_string : Value -> rstr;
}.

Definition from_str `{ClientJson} (s : rstr) : option Value := from_slice (utf8_encode s).

Definition is_object (v : Value) : bool := match v with V_object _ => true | _ => false end.

(** ** Text processing *)

Definition MAX_CLIENT_PROCESSING_INSTRUCTIONS_BYTES : Z := 4 * 1024.
Definition MAX_CLIENT_PROCESSING_INPUT_BYTES : Z := MAX_CONVERSATION_MESSAGE_BYTES.
Definition MAX_CLIENT_PROCESSING_SCHEMA_BYTES : Z := 8 * 1024.
Definition MAX_CLIENT_PROCESSED_OUTPUT_BYTES : Z := 64 * 1024.
Definition PROCESSING_WARNINGS : list rstr := [lit "schema_retry"].

Record ClientProcessedText : Type := {
  pt_output : rstr;
  pt_warnings : list rstr;
}.

Definition validate_client_processed_text `{ClientJson} (p : ClientProcessedText) : wresult unit :=
  if (MAX_CLIENT_PROCESSED_OUTPUT_BYTES <? blen p.(pt_output)) || is_none (from_str p.(pt_output))
  then Err InvalidProcessedText
  else if zlen PROCESSING_WARNINGS <? zlen p.(pt_warnings) then Err InvalidProcessedText
  else if bad_warning PROCESSING_WARNINGS [] p.(pt_warnings) then Err InvalidProcessedText
  else Ok tt.

Definition canonical_processing_schema `{ClientJson} (instructions input : rstr) (output_schema : Value)
    (max_output_bytes : Z) : wresult rstr :=
  if is_blank instructions || (MAX_CLIENT_PROCESSING_INSTRUCTIONS_BYTES <? blen instructions)
     || is_blank input || (MAX_CLIENT_PROCESSING_INPUT_BYTES <? blen input)
  then Err InvalidTextProcessingRequest
  else if (max_output_bytes =? 0) || (MAX_CLIENT_PROCESSED_OUTPUT_BYTES <? max_output_bytes)
  then Err InvalidTextProcessingRequest
  else if negb (is_object output_schema) then Err InvalidTextProcessingRequest
  else
    let canonical := value_to_string output_schema in
    if MAX_CLIENT_PROCESSING_SCHEMA_BYTES <? blen canonical then Err InvalidTextProcessingRequest
    else Ok canonical.

(** ** Memories *)

Definition MAX_MEMORY_LIST_PAGE_ITEMS : Z := 50.
Definition MAX_MEMORY_PREVIEW_BYTES : Z := 192.
Definition MAX_MEMORY_INSPECTION_HISTORY_ITEMS : Z := 32.

Record ClientMemorySummary : Type := {
  ms_id : rstr;
  ms_content_preview : rstr;
  ms_kind : rstr;
  ms_state : rstr;
  ms_pinned : bool;
  ms_updated_at_ms : rstr;
}.

Record ClientMemoryCursor : Type := { before_id : rstr }.

Record ClientMemoryPage : Type := {
  page_records : list ClientMemorySummary;
  next_cursor : option ClientMemoryCursor;
}.

Inductive ClientMemoryRetention : Type :=
| CR_Working (expires_at_ms : rstr)
| CR_Session (session_id : rstr)
| CR_Until (expires_at_ms : rstr)
| CR_UntilDeleted.

Record ClientMemoryRecord : Type := {
  mr_id : rstr;
  mr_kind : rstr;
  mr_content : rstr;
  mr_state : rstr;
  mr_confidence : rstr;
  mr_created_at_ms : rstr;
  mr_updated_at_ms : rstr;
  mr_pinned : bool;
  mr_revision : rstr;
  mr_retention : ClientMemoryRetention;
  mr_last_used_at_ms : option rstr;
  mr_last_retrieval_reason : option rstr;
}.

Record ClientMemoryProvenance : Type := {
  mp_kind : rstr;
  mp_source_id : rstr;
  mp_source_timestamp_ms : rstr;
  mp_actor : rstr;
}.

Record ClientMemoryApproval : Type := {
  ma_confirmation_id : rstr;
  ma_actor : rstr;
  ma_confirmed_at_ms : rstr;
  ma_approved_revision : rstr;
}.

Record ClientMemoryInspection : Type := {
  mi_record : ClientMemoryRecord;
  mi_sources : list ClientMemoryProvenance;
  mi_approvals : list ClientMemoryApproval;
  mi_sources_truncated : bool;
  mi_approvals_truncated : bool;
}.

(** [while !content.is_char_boundary(end) { end -= 1 }]. *)
Fixpoint floor_boundary (fuel : nat) (content : rstr) (n : Z) : exec Z :=
  if is_some (split_at_byte n content) then Val n
  else match fuel with
       | O => Fuel_out
       | S fuel => floor_boundary fuel content (n - 1)
       end.

Definition ELLIPSIS : rstr := [0x2026].

Definition truncate_utf8_with_ellipsis (content : rstr) (maximum_bytes : Z) : exec rstr :=
  if blen content <=? maximum_bytes then Val content
  else
    let start := saturating_sub maximum_bytes (blen ELLIPSIS) in
    let! finish := floor_boundary (Z.to_nat start) content start in
    let! '(head, _) := expect (split_at_byte finish content) in
    Val (head ++ ELLIPSIS).

Definition memory_preview (content : rstr) : exec rstr :=
  truncate_utf8_with_ellipsis (join (lit " ") (split_whitespace content)) MAX_MEMORY_PREVIEW_BYTES.

Definition ClientMemorySummary_from (r : MemoryRecord) : exec ClientMemorySummary :=
  let! preview := memory_preview (record_content r) in
  Val {| ms_id := decimal (MemoryId_get r.(record_id)); ms_content_preview := preview;
         ms_kind := MemoryKind_as_str (record_kind r); ms_state := MemoryState_as_str r.(record_state);
         ms_pinned := r.(pinned); ms_updated_at_ms := decimal (millis r.(updated_at)) |}.

Definition ClientMemoryCursor_from (id : MemoryId) : ClientMemoryCursor := {| before_id := decimal (MemoryId_get id) |}.

Definition ClientMemoryRetention_from (r : MemoryRetention) : ClientMemoryRetention :=
  match r with
  | Retention_Working e => CR_Working (decimal (millis e))
  | Retention_Session s => CR_Session (decimal (SessionId_get s))
  | Retention_Until e => CR_Until (decimal (millis e))
  | Retention_UntilDeleted => CR_UntilDeleted
  end.

Definition ClientMemoryRecord_from (r : MemoryRecord) : ClientMemoryRecord :=
  {| mr_id := decimal (MemoryId_get r.(record_id)); mr_kind := MemoryKind_as_str (record_kind r);
     mr_content := record_content r; mr_state := MemoryState_as_str r.(record_state);
     mr_confidence := decimal (confidence_get (record_confidence r));
     mr_created_at_ms := decimal (millis (record_created_at r)); mr_updated_at_ms := decimal (millis r.(updated_at));
     mr_pinned := r.(pinned); mr_revision := decimal r.(revision);
     mr_retention := ClientMemoryRetention_from (record_retention r);
     mr_last_used_at_ms := (fun t => decimal (millis t)) <$> r.(last_used_at);
     mr_last_retrieval_reason := MemoryRetrievalReason_as_str <$> r.(last_retrieval_reason) |}.

Definition ClientMemoryProvenance_from (p : MemoryProvenance) : ClientMemoryProvenance :=
  {| mp_kind := MemoryProvenanceKind_as_str p.(provenance_kind); mp_source_id := p.(source_id);
     mp_source_timestamp_ms := decimal (millis p.(source_timestamp)); mp_actor := p.(provenance_actor) |}.

Definition ClientMemoryApproval_from (a : MemoryApprovalEvidence) : ClientMemoryApproval :=
  {| ma_confirmation_id := a.(evidence_confirmation_id); ma_actor := a.(evidence_actor);
     ma_confirmed_at_ms := decimal (millis a.(evidence_confirmed_at)); ma_approved_revision := decimal a.(approved_revision) |}.

(** [items\[start..\]]; [start] is within the length. *)
Definition from_index {A} (start : Z) (items : list A) : list A := drop (Z.to_nat start) items.

Definition ClientMemoryInspection_from (i : MemoryInspection) : ClientMemoryInspection :=
  let source_start := saturating_sub (zlen i.(sources)) MAX_MEMORY_INSPECTION_HISTORY_ITEMS in
  let approval_start := saturating_sub (zlen i.(approvals)) MAX_MEMORY_INSPECTION_HISTORY_ITEMS in
  {| mi_record := ClientMemoryRecord_from i.(inspected);
     mi_sources := map ClientMemoryProvenance_from (from_index source_start i.(sources));
     mi_approvals := map ClientMemoryApproval_from (from_index approval_start i.(approvals));
     mi_sources_truncated := 0 <? source_start; mi_approvals_truncated := 0 <? approval_start |}.
