(* ===== verification/ClientVoice.v ===== *)
(** * Events and errors as a client sees them

    [crates/protocol/src/client_voice.rs], [utterance_capture.rs], the events of
    [voice_event.rs], and the part of [client_wire.rs] about runtime events and
    errors: projections from the runtime's own values, their validation, and the
    JSON they are written as ([to_value]). *)

From S2P Require Import Prelude RustStr Bytes Errors Pcm CaptureTiming Decimals ClientTiming TurnFinalizer ProtocolQuality Privacy MemoryProtocol RecordingSafety TurnEvents Audio Chunks Recorder ClientValues.

Local Open Scope Z_scope.

(** ** Writing JSON *)

Definition str (s : rstr) : Value := V_string s.
Definition opt_str (s : option rstr) : Value := match s with Some s => V_string s | None => V_null end.
Definition strings (l : list rstr) : Value := V_array (map V_string l).
Definition member (name : String.string) (v : Value) : list (rstr * Value) := [(lit name, v)].
(** [#\[serde(skip_serializing_if = "Option::is_none")\]]. *)
Definition opt_member (name : String.string) (v : option Value) : list (rstr * Value) :=
  match v with Some v => member name v | None => [] end.
(** A variant of an enum tagged with [type]. *)
Definition tagged (name : String.string) (fields : list (rstr * Value)) : Value :=
  V_object ((lit "type", V_string (lit name)) :: fields).
Arguments member name%_string_scope v.
Arguments opt_member name%_string_scope v.
Arguments tagged name%_string_scope fields.
(** [serialize_turn_id] and the like. *)
Definition id_value (n : Z) : Value := V_string (decimal n).

(** ** Errors *)

Record ClientRuntimeError : Type := {
  err_code : rstr;
  err_kind : rstr;
  err_stage : rstr;
  err_message : rstr;
}.

Definition runtime_error_kind_name (k : RuntimeErrorKind) : rstr :=
  match k with
  | Kind_Adapter => lit "adapter"
  | Kind_Configuration => lit "configuration"
  | Kind_InvalidState => lit "invalid_state"
  end.

Definition runtime_error_code (k : RuntimeErrorKind) : rstr :=
  match k with
  | Kind_Adapter => lit "adapter_failure"
  | Kind_Configuration => lit "configuration_invalid"
  | Kind_InvalidState => lit "invalid_state"
  end.

Definition runtime_stage_name (s : RuntimeStage) : rstr :=
  match s with
  | Stage_Runtime => lit "runtime"
  | Stage_PrivacyPolicy => lit "privacy_policy"
  | Stage_AudioCapture => lit "audio_capture"
  | Stage_SpeechRecognizer => lit "speech_recognizer"
  | Stage_LanguageModel => lit "language_model"
  | Stage_SpeechSynthesizer => lit "speech_synthesizer"
  | Stage_AudioOutput => lit "audio_output"
  | Stage_VoiceSidecar => lit "voice_sidecar"
  | Stage_ContinuousAudioOutput => lit "continuous_audio_output"
  | Stage_Memory => lit "memory"
  end.

Definition content_free_runtime_error_message (e : RuntimeError) : rstr :=
  match e.(kind) with
  | Kind_Adapter =>
      match e.(stage) with
      | Stage_PrivacyPolicy => lit "privacy policy operation failed"
      | Stage_AudioCapture => lit "audio capture operation failed"
      | Stage_SpeechRecognizer => lit "speech recognition operation failed"
      | Stage_LanguageModel => lit "language model operation failed"
      | Stage_SpeechSynthesizer => lit "speech synthesis operation failed"
      | Stage_AudioOutput => lit "audio output operation failed"
      | Stage_VoiceSidecar => lit "voice sidecar operation failed"
      | Stage_ContinuousAudioOutput => lit "continuous audio output operation failed"
      | Stage_Memory => lit "memory operation failed"
      | Stage_Runtime => lit "adapter operation failed"
      end
  | Kind_Configuration => lit "runtime configuration is invalid"
  | Kind_InvalidState => lit "runtime state rejected the operation"
  end.

Definition ClientRuntimeError_from (e : RuntimeError) : ClientRuntimeError :=
  {| err_code := runtime_error_code e.(kind); err_kind := runtime_error_kind_name e.(kind);
     err_stage := runtime_stage_name e.(stage); err_message := content_free_runtime_error_message e |}.

Definition ERROR_CODES : list rstr :=
  [lit "adapter_failure"; lit "configuration_invalid"; lit "invalid_state"; lit "memory_disabled"; lit "memory_turn_active";
   lit "memory_not_found"; lit "memory_unavailable"; lit "memory_conflict"; lit "persona_invalid"; lit "media_lease_lost";
   lit "recording_not_found"; lit "recording_unreadable"; lit "recording_not_closed"; lit "recording_incomplete";
   lit "recording_identity_mismatch"; lit "recording_in_use"].
Definition ERROR_KINDS : list rstr := [lit "adapter"; lit "configuration"; lit "invalid_state"].
Definition ERROR_STAGES : list rstr :=
  [lit "runtime"; lit "privacy_policy"; lit "audio_capture"; lit "speech_recognizer"; lit "language_model";
   lit "speech_synthesizer"; lit "audio_output"; lit "voice_sidecar"; lit "continuous_audio_output"; lit "memory"].

Definition validate_client_runtime_error (e : ClientRuntimeError) : wresult unit :=
  if negb (one_of ERROR_CODES e.(err_code)) || negb (one_of ERROR_KINDS e.(err_kind))
     || negb (one_of ERROR_STAGES e.(err_stage))
  then Err InvalidRuntimeErrorCode else Ok tt.

Definition error_value (e : ClientRuntimeError) : Value :=
  V_object (member "code" (str e.(err_code)) ++ member "kind" (str e.(err_kind)) ++ member "stage" (str e.(err_stage))
            ++ member "message" (str e.(err_message))).

(** ** Runtime events *)

Record ClientResponseControls : Type := {
  rc_maximum_spoken_seconds : Z;
  rc_directness : Z;
  rc_pace : rstr;
  rc_follow_up_policy : rstr;
  rc_silence_policy : rstr;
}.

Record ClientQualityDecision : Type := {
  qd_turn_id : TurnId;
  qd_mode : rstr;
  qd_controls : ClientResponseControls;
  qd_signals : list rstr;
  qd_history_message_count : Z;
  qd_context_sources : list rstr;
}.

Record ClientMemoryTrace : Type := {
  mt_trace_id : RetrievalTraceId;
  mt_turn_id : TurnId;
  mt_selected_items : Z;
  mt_used_bytes : Z;
}.

Inductive ClientRuntimeEvent : Type :=
| C_TurnStarted (request_id : option rstr) (turn : TurnId)
| C_TranscriptFinal (turn : TurnId) (words : rstr)
| C_QualityResolved (decision : ClientQualityDecision)
| C_MemoryRetrieved (trace : ClientMemoryTrace)
| C_TextDelta (turn : TurnId) (delta : rstr)
| C_TextCompleted (turn : TurnId) (words : rstr)
| C_SpeechStarted (turn : TurnId)
| C_SpeechCompleted (turn : TurnId)
| C_Timing (turn : TurnId) (milestone : rstr) (elapsed_ms : Z)
| C_TurnCompleted (turn : TurnId)
| C_TurnCancelled (turn : TurnId)
| C_TurnFailed (turn : TurnId) (error : ClientRuntimeError).

Definition ClientRuntimeEvent_turn_id (e : ClientRuntimeEvent) : TurnId :=
  match e with
  | C_TurnStarted _ t | C_TranscriptFinal t _ | C_TextDelta t _ | C_TextCompleted t _ | C_SpeechStarted t
  | C_SpeechCompleted t | C_Timing t _ _ | C_TurnCompleted t | C_TurnCancelled t | C_TurnFailed t _ => t
  | C_QualityResolved d => d.(qd_turn_id)
  | C_MemoryRetrieved t => t.(mt_turn_id)
  end.

Definition conversation_mode_name (m : ConversationMode) : rstr :=
  match m with
  | DirectAnswer => lit "direct_answer"
  | Companionship => lit "companionship"
  | Brainstorming => lit "brainstorming"
  | Reflective => lit "reflective"
  end.

Definition speech_pace_name (p : SpeechPace) : rstr := match p with Measured => lit "measured" | Natural => lit "natural" | Brisk => lit "brisk" end.
Definition follow_up_policy_name (p : FollowUpPolicy) : rstr :=
  match p with Never => lit "never" | Contextual => lit "contextual" | Allowed => lit "allowed" end.
Definition silence_policy_name (p : SilencePolicy) : rstr := match p with AllowWithoutFiller => lit "allow_without_filler" end.
Definition timing_milestone_name (m : RuntimeTimingMilestone) : rstr :=
  match m with
  | FirstTextDelta => lit "first_text_delta"
  | FirstSynthesisRequest => lit "first_synthesis_request"
  | FirstPlayableAudio => lit "first_playable_audio"
  end.

Definition ClientResponseControls_from (c : ResponseControls) : ClientResponseControls :=
  {| rc_maximum_spoken_seconds := c.(maximum_spoken_seconds); rc_directness := PersonaLevel_get c.(controls_directness);
     rc_pace := speech_pace_name c.(pace); rc_follow_up_policy := follow_up_policy_name c.(follow_up_policy);
     rc_silence_policy := silence_policy_name c.(silence_policy) |}.

Definition ClientQualityDecision_from (d : QualityDecision) : ClientQualityDecision :=
  {| qd_turn_id := d.(ProtocolQuality.turn_id); qd_mode := conversation_mode_name d.(mode);
     qd_controls := ClientResponseControls_from d.(controls); qd_signals := map ConversationSignal_as_str d.(signals);
     qd_history_message_count := d.(history_message_count);
     qd_context_sources := map ContextSource_as_str d.(decision_context_sources) |}.

Definition ClientMemoryTrace_from (t : MemoryRetrievalTrace) : ClientMemoryTrace :=
  {| mt_trace_id := t.(trace_id); mt_turn_id := t.(trace_turn_id); mt_selected_items := selected_items t;
     mt_used_bytes := used_bytes t |}.

Definition unsupported_event (event : rstr) : ClientWireError := UnsupportedRuntimeEvent event.

Definition ClientRuntimeEvent_try_from (e : RuntimeEvent) : wresult ClientRuntimeEvent :=
  match e with
  | TurnStarted t => Ok (C_TurnStarted None t)
  | QualityResolved d => Ok (C_QualityResolved (ClientQualityDecision_from d))
  | MemoryRetrieved t => Ok (C_MemoryRetrieved (ClientMemoryTrace_from t))
  | TextDelta t delta => Ok (C_TextDelta t delta)
  | TextCompleted t words => Ok (C_TextCompleted t words)
  | Timing t milestone elapsed => Ok (C_Timing t (timing_milestone_name milestone) elapsed)
  | TurnCompleted t => Ok (C_TurnCompleted t)
  | TurnCancelled t => Ok (C_TurnCancelled t)
  | TurnFailed t error => Ok (C_TurnFailed t (ClientRuntimeError_from error))
  | TranscriptFinal _ _ => Err (unsupported_event (lit "transcript_final"))
  | TurnEvents.SpeechStarted _ => Err (unsupported_event (lit "speech_started"))
  | SpeechCompleted _ => Err (unsupported_event (lit "speech_completed"))
  | Playback _ _ _ => Err (unsupported_event (lit "playback"))
  end.

Definition validate_identifier (identifier : Z) : wresult unit := if identifier =? 0 then Err InvalidIdentifier else Ok tt.
Definition validate_turn_id (t : TurnId) : wresult unit := validate_identifier (TurnId_get t).

Definition validate_transcript (transcript : rstr) : wresult unit :=
  if is_empty transcript || (MAX_CONVERSATION_MESSAGE_BYTES <? blen transcript) then Err InvalidTranscript else Ok tt.

Definition validate_bounded_text (text : rstr) : wresult unit :=
  if MAX_CONVERSATION_MESSAGE_BYTES <? blen text then Err InvalidTranscript else Ok tt.

Definition RUNTIME_MILESTONES : list rstr := [lit "first_text_delta"; lit "first_synthesis_request"; lit "first_playable_audio"].

Definition validate_client_runtime_event (e : ClientRuntimeEvent) : wresult unit :=
  match e with
  | C_TurnStarted _ t | C_TurnCompleted t | C_TurnCancelled t => validate_turn_id t
  | C_TranscriptFinal t text | C_TextCompleted t text => let? _ := validate_turn_id t in validate_transcript text
  | C_TextDelta t delta => let? _ := validate_turn_id t in validate_bounded_text delta
  | C_SpeechStarted t | C_SpeechCompleted t => validate_turn_id t
  | C_Timing t milestone _ =>
      let? _ := validate_turn_id t in
      if one_of RUNTIME_MILESTONES milestone then Ok tt else Err InvalidVoiceEvent
  | C_TurnFailed t error => let? _ := validate_turn_id t in validate_client_runtime_error error
  | C_QualityResolved d => validate_turn_id d.(qd_turn_id)
  | C_MemoryRetrieved t =>
      let? _ := validate_identifier (RetrievalTraceId_get t.(mt_trace_id)) in validate_turn_id t.(mt_turn_id)
  end.

Definition controls_value (c : ClientResponseControls) : Value :=
  V_object (member "maximum_spoken_seconds" (V_u64 c.(rc_maximum_spoken_seconds)) ++ member "directness" (V_u64 c.(rc_directness))
            ++ member "pace" (str c.(rc_pace)) ++ member "follow_up_policy" (str c.(rc_follow_up_policy))
            ++ member "silence_policy" (str c.(rc_silence_policy))).

Definition decision_value (d : ClientQualityDecision) : Value :=
  V_object (member "turn_id" (id_value (TurnId_get d.(qd_turn_id))) ++ member "mode" (str d.(qd_mode))
            ++ member "controls" (controls_value d.(qd_controls)) ++ member "signals" (strings d.(qd_signals))
            ++ member "history_message_count" (V_u64 d.(qd_history_message_count))
            ++ member "context_sources" (strings d.(qd_context_sources))).

Definition trace_value (t : ClientMemoryTrace) : Value :=
  V_object (member "trace_id" (id_value (RetrievalTraceId_get t.(mt_trace_id))) ++ member "turn_id" (id_value (TurnId_get t.(mt_turn_id)))
            ++ member "selected_items" (V_u64 t.(mt_selected_items)) ++ member "used_bytes" (V_u64 t.(mt_used_bytes))).

Definition ClientRuntimeEvent_value (e : ClientRuntimeEvent) : Value :=
  let turn t := member "turn_id" (id_value (TurnId_get t)) in
  match e with
  | C_TurnStarted request t => tagged "turn_started" (member "request_id" (opt_str request) ++ turn t)
  | C_TranscriptFinal t text => tagged "transcript_final" (turn t ++ member "text" (str text))
  | C_QualityResolved d => tagged "quality_resolved" (member "decision" (decision_value d))
  | C_MemoryRetrieved t => tagged "memory_retrieved" (member "trace" (trace_value t))
  | C_TextDelta t delta => tagged "text_delta" (turn t ++ member "delta" (str delta))
  | C_TextCompleted t text => tagged "text_completed" (turn t ++ member "text" (str text))
  | C_SpeechStarted t => tagged "speech_started" (turn t)
  | C_SpeechCompleted t => tagged "speech_completed" (turn t)
  | C_Timing t milestone elapsed => tagged "timing" (turn t ++ member "milestone" (str milestone) ++ member "elapsed_ms" (V_u64 elapsed))
  | C_TurnCompleted t => tagged "turn_completed" (turn t)
  | C_TurnCancelled t => tagged "turn_cancelled" (turn t)
  | C_TurnFailed t error => tagged "turn_failed" (turn t ++ member "error" (error_value error))
  end.

(** ** Capture evidence of an utterance *)

Definition MAX_UTTERANCE_CAPTURE_BYTES : Z := 2048.

Record SourceSampleRange : Type := {
  sr_clock_domain_id : rstr;
  sr_capture_epoch : Z;
  sr_first_frame_sequence : Z;
  sr_last_frame_sequence : Z;
  sr_source_start_sample : Z;
  sr_source_end_sample : Z;
  sr_sample_rate_hz : Z;
}.

Record WholeFrameNominalEnvelope : Type := {
  wf_host_start_ns : Z;
  wf_host_end_ns : Z;
  wf_first_frame_host_end_ns : Z;
  wf_capture_uncertainty_ns : option Z;
  wf_known_rounding_allowance_ns : Z;
}.

Inductive CaptureUnavailableReason : Type :=
| ProviderOffsetsUnavailable
| ProviderOffsetsOutOfRange
| CaptureBoundaryEvicted
| CaptureTimingMissing
| CaptureTimingInconsistent
| CaptureEpochChanged
| CaptureNotContiguous
| CaptureEvidenceLimit.

Record UtteranceCaptureEvidence : Type := {
  ev_capture : option SourceSampleRange;
  ev_live_coverage : option WholeFrameNominalEnvelope;
  ev_unavailable_reason : option CaptureUnavailableReason;
}.

Definition evidence_unavailable (reason : CaptureUnavailableReason) : UtteranceCaptureEvidence :=
  {| ev_capture := None; ev_live_coverage := None; ev_unavailable_reason := Some reason |}.

Definition SourceSampleRange_value (r : SourceSampleRange) : Value :=
  V_object (member "kind" (str (lit "source_sample_range/v1")) ++ member "clock_domain_id" (str r.(sr_clock_domain_id))
            ++ member "capture_epoch" (id_value r.(sr_capture_epoch))
            ++ member "first_frame_sequence" (id_value r.(sr_first_frame_sequence))
            ++ member "last_frame_sequence" (id_value r.(sr_last_frame_sequence))
            ++ member "source_start_sample" (id_value r.(sr_source_start_sample))
            ++ member "source_end_sample" (id_value r.(sr_source_end_sample))
            ++ member "sample_rate_hz" (V_u64 r.(sr_sample_rate_hz))).

Definition WholeFrameNominalEnvelope_value (e : WholeFrameNominalEnvelope) : Value :=
  V_object (member "kind" (str (lit "whole_touched_frame_nominal_host_envelope/v1"))
            ++ member "host_start_ns" (id_value e.(wf_host_start_ns)) ++ member "host_end_ns" (id_value e.(wf_host_end_ns))
            ++ member "first_frame_host_end_ns" (id_value e.(wf_first_frame_host_end_ns))
            ++ member "mapping_quality" (str (lit "nominal_frame_endpoint_interpolation"))
            ++ member "capture_uncertainty_ns" (opt_str (decimal <$> e.(wf_capture_uncertainty_ns)))
            ++ member "known_rounding_allowance_ns" (id_value e.(wf_known_rounding_allowance_ns))).

Definition CaptureUnavailableReason_name (r : CaptureUnavailableReason) : rstr :=
  match r with
  | ProviderOffsetsUnavailable => lit "provider_offsets_unavailable"
  | ProviderOffsetsOutOfRange => lit "provider_offsets_out_of_range"
  | CaptureBoundaryEvicted => lit "capture_boundary_evicted"
  | CaptureTimingMissing => lit "capture_timing_missing"
  | CaptureTimingInconsistent => lit "capture_timing_inconsistent"
  | CaptureEpochChanged => lit "capture_epoch_changed"
  | CaptureNotContiguous => lit "capture_not_contiguous"
  | CaptureEvidenceLimit => lit "capture_evidence_limit"
  end.

Definition evidence_members (e : UtteranceCaptureEvidence) : list (rstr * Value) :=
  opt_member "capture" (SourceSampleRange_value <$> e.(ev_capture))
  ++ opt_member "live_coverage" (WholeFrameNominalEnvelope_value <$> e.(ev_live_coverage))
  ++ opt_member "capture_unavailable_reason" ((fun r => str (CaptureUnavailableReason_name r)) <$> e.(ev_unavailable_reason)).

Definition range_invalid (r : SourceSampleRange) : bool :=
  (r.(sr_capture_epoch) =? 0) || (r.(sr_first_frame_sequence) =? 0)
  || (r.(sr_last_frame_sequence) <? r.(sr_first_frame_sequence))
  || (r.(sr_source_end_sample) <=? r.(sr_source_start_sample)) || negb (r.(sr_sample_rate_hz) =? 24000).

Definition envelope_invalid (has_capture : bool) (e : WholeFrameNominalEnvelope) : bool :=
  negb has_capture || (e.(wf_host_start_ns) =? 0) || (e.(wf_first_frame_host_end_ns) <=? e.(wf_host_start_ns))
  || (e.(wf_host_end_ns) <? e.(wf_first_frame_host_end_ns)).

Section Validation.
Context `{ClientJson}.

Definition UtteranceCaptureEvidence_validate (e : UtteranceCaptureEvidence) : wresult unit :=
  let? _ := match e.(ev_capture) with
            | Some r => let? _ := validate_capture_identity r.(sr_clock_domain_id) in
                        if range_invalid r then Err InvalidVoiceEvent else Ok tt
            | None => Ok tt
            end in
  if is_some_and e.(ev_live_coverage) (envelope_invalid (is_some e.(ev_capture))) then Err InvalidVoiceEvent
  else if Bool.eqb (is_some e.(ev_live_coverage)) (is_some e.(ev_unavailable_reason)) then Err InvalidVoiceEvent
  else
    let length := zlen (to_vec (V_object (evidence_members e))) in
    if MAX_UTTERANCE_CAPTURE_BYTES <? length then Err (PayloadTooLarge length MAX_UTTERANCE_CAPTURE_BYTES) else Ok tt.

(** ** Components and privacy *)

Definition MAX_CLIENT_PROVIDER_LABEL_BYTES : Z := 128.
Definition MAX_CLIENT_DEVICE_LABEL_BYTES : Z := 128.
Definition MAX_CLIENT_COMPONENT_DESCRIPTORS : Z := 32.

Record ClientComponentDescriptor : Type := {
  cd_kind : rstr;
  cd_execution_location : rstr;
  cd_provider_label : rstr;
}.

Record ClientPrivacySummary : Type := {
  cps_privacy_mode : rstr;
  cps_components : list ClientComponentDescriptor;
}.

Definition component_kind_name (k : ComponentKind) : rstr :=
  match k with
  | SpeechRecognition => lit "speech_recognition"
  | LanguageModel => lit "language_model"
  | SpeechSynthesis => lit "speech_synthesis"
  | AudioIo => lit "audio_io"
  | Tool => lit "tool"
  | Memory => lit "memory"
  | Telemetry => lit "telemetry"
  | Diarization => lit "diarization"
  end.

Definition component_kind_rank (kind : rstr) : option Z :=
  if bool_decide (kind = lit "speech_recognition") then Some 0
  else if bool_decide (kind = lit "language_model") then Some 1
  else if bool_decide (kind = lit "speech_synthesis") then Some 2
  else if bool_decide (kind = lit "audio_io") then Some 3
  else if bool_decide (kind = lit "tool") then Some 4
  else if bool_decide (kind = lit "memory") then Some 5
  else if bool_decide (kind = lit "telemetry") then Some 6
  else if bool_decide (kind = lit "diarization") then Some 7
  else None.

Definition execution_location_name (l : ExecutionLocation) : rstr :=
  match l with Local => lit "local" | Remote => lit "remote" end.

Definition privacy_mode_name (m : PrivacyMode) : rstr :=
  match m with LocalOnly => lit "local_only" | Hybrid => lit "hybrid" | Cloud => lit "cloud" end.

Definition ClientComponentDescriptor_from (c : ComponentDescriptor) : ClientComponentDescriptor :=
  {| cd_kind := component_kind_name c.(component_kind); cd_execution_location := execution_location_name c.(execution);
     cd_provider_label := c.(provider) |}.

Definition provider_label_ok (label : rstr) : bool :=
  negb (is_empty (trim label)) && bool_decide (trim label = label) && (blen label <=? MAX_CLIENT_PROVIDER_LABEL_BYTES).

Fixpoint check_descriptors (previous : option Z) (components : list ClientComponentDescriptor) : wresult unit :=
  match components with
  | [] => Ok tt
  | c :: rest =>
      let? rank := ok_or (component_kind_rank c.(cd_kind)) InvalidRuntimeStatus in
      if is_some_and previous (fun p => rank <? p) || negb (one_of [lit "local"; lit "remote"] c.(cd_execution_location))
         || negb (provider_label_ok c.(cd_provider_label))
      then Err InvalidRuntimeStatus else check_descriptors (Some rank) rest
  end.

Definition validate_component_descriptors (components : list ClientComponentDescriptor) : wresult unit :=
  if is_empty components || (MAX_CLIENT_COMPONENT_DESCRIPTORS <? zlen components) then Err InvalidRuntimeStatus
  else check_descriptors None components.

Definition count_if {A} (p : A -> bool) (l : list A) : Z := zlen (List.filter p l).
Definition of_kind (kind : rstr) (c : ClientComponentDescriptor) : bool := bool_decide (c.(cd_kind) = kind).
Definition is_remote (c : ClientComponentDescriptor) : bool := bool_decide (c.(cd_execution_location) = lit "remote").

Definition REQUIRED_KINDS : list rstr :=
  [lit "speech_recognition"; lit "language_model"; lit "speech_synthesis"; lit "audio_io"].

Definition validate_voice_components (mode : rstr) (components : list ClientComponentDescriptor) : wresult unit :=
  let? _ := validate_component_descriptors components in
  let? privacy_mode := ok_or (PrivacyMode_parse mode) InvalidRuntimeStatus in
  let remote := count_if is_remote components in
  let matches := match privacy_mode with LocalOnly => remote =? 0 | Hybrid | Cloud => 0 <? remote end in
  if negb matches then Err InvalidRuntimeStatus
  else if existsb (fun required => negb (count_if (of_kind required) components =? 1)) REQUIRED_KINDS
  then Err InvalidRuntimeStatus else Ok tt.

Definition validate_voice_privacy (p : ClientPrivacySummary) : wresult unit :=
  match validate_voice_components p.(cps_privacy_mode) p.(cps_components) with
  | Ok _ => Ok tt
  | Err _ => Err InvalidVoiceEvent
  end.

Definition ClientPrivacySummary_try_from (p : PrivacySummary) : wresult ClientPrivacySummary :=
  let summary := {| cps_privacy_mode := privacy_mode_name p.(summary_privacy_mode);
                    cps_components := map ClientComponentDescriptor_from p.(summary_components) |} in
  let? _ := validate_voice_privacy summary in Ok summary.

(** ** Voice session events *)

Inductive VoiceTimingMilestone : Type :=
| VT_AudioReceived
| VT_SpeechEnd
| VT_TranscriptFinal
| VT_ResponseAuthorized
| VT_FirstTextDelta
| VT_FirstSynthesisRequest
| VT_FirstPlayableAudio
| VT_FirstSidecarAccept
| VT_PlaybackRenderAcknowledged
| VT_BargeInOnset
| VT_BargeInThreshold
| VT_PlaybackFlushAcknowledged
| VT_Cleanup.

Inductive RecoveryDisposition : Type := ContinueSession | NewSession.

Inductive VoiceSessionEvent : Type :=
| VS_SessionStarted (session : SessionId) (privacy : PrivacySummary)
| VS_DeviceStatus (session : SessionId) (input_label output_label : rstr)
| VS_CapturePaused (session : SessionId)
| VS_CaptureResumed (session : SessionId)
| VS_VoiceActivity (session : SessionId) (activity : VoiceActivity)
| VS_TranscriptPartial (session : SessionId) (segment : Z) (words : rstr)
| VS_TranscriptFinal (session : SessionId) (segment : Z) (turn : option TurnId) (words : rstr)
    (capture_evidence : option UtteranceCaptureEvidence)
| VS_ResponseAuthorized (session : SessionId) (segment : Z) (turn : TurnId)
| VS_ResponseSkipped (session : SessionId) (segment : Z) (why : rstr)
| VS_BargeIn (session : SessionId) (turn : TurnId) (generation : GenerationId)
| VS_Turn (session : SessionId) (generation : GenerationId) (event : RuntimeEvent)
| VS_Timing (session : SessionId) (turn : option TurnId) (milestone : VoiceTimingMilestone) (elapsed_ms : Z)
| VS_Playback (session : SessionId) (generation : GenerationId) (state : PlaybackState)
| VS_SessionFailed (session : SessionId) (error : RuntimeError) (recovery : RecoveryDisposition)
| VS_SessionEnded (session : SessionId)
| VS_RecordingLimit (session : SessionId) (limit : RecordingLimit) (state : RecordingLimitState)
| VS_CaptureHealth (session : SessionId) (mostly_zero : bool) (longest_gap_ms : Z).

Definition is_session_terminal (e : VoiceSessionEvent) : bool :=
  match e with VS_SessionEnded _ | VS_SessionFailed _ _ NewSession => true | _ => false end.

Inductive ClientVoiceActivity : Type :=
| CV_SpeechStarted (at_ms : Z)
| CV_SpeechContinued (at_ms : Z)
| CV_SpeechEnded (at_ms : Z)
| CV_CaptureDiscontinuity (at_ms : Z).

Inductive ClientVoiceSessionEvent : Type :=
| VoiceSessionStarted (session : SessionId) (privacy : ClientPrivacySummary)
| VoiceDeviceStatus (session : SessionId) (input_label output_label : rstr)
| VoiceCapturePaused (session : SessionId)
| VoiceCaptureResumed (session : SessionId)
| VoiceActivityEvent (session : SessionId) (activity : ClientVoiceActivity)
| VoiceTranscriptPartial (session : SessionId) (segment : Z) (words : rstr)
| VoiceTranscriptFinal (session : SessionId) (segment : Z) (turn : option TurnId) (words : rstr)
    (capture_evidence : option UtteranceCaptureEvidence)
| ResponseAuthorized (session : SessionId) (segment : Z) (turn : TurnId)
| ResponseSkipped (session : SessionId) (segment : Z) (why : rstr)
| VoiceBargeIn (session : SessionId) (turn : TurnId) (generation : GenerationId)
| VoiceTurnEvent (session : SessionId) (generation : GenerationId) (event : ClientRuntimeEvent)
| VoiceTiming (session : SessionId) (turn : option TurnId) (milestone : rstr) (elapsed_ms : Z)
| VoicePlayback (session : SessionId) (generation : GenerationId) (state : rstr)
| VoiceSessionFailed (session : SessionId) (error : ClientRuntimeError) (recovery : rstr)
| VoiceSessionEnded (session : SessionId)
| VoiceRecordingLimit (session : SessionId) (limit state : rstr)
| VoiceCaptureHealth (session : SessionId) (mostly_zero : bool) (longest_gap_ms : Z).

Definition ClientVoiceActivity_from (a : VoiceActivity) : ClientVoiceActivity :=
  match a with
  | TurnFinalizer.SpeechStarted at_ms => CV_SpeechStarted at_ms
  | SpeechContinued at_ms => CV_SpeechContinued at_ms
  | SpeechEnded at_ms => CV_SpeechEnded at_ms
  | CaptureDiscontinuity at_ms => CV_CaptureDiscontinuity at_ms
  end.

Definition voice_timing_milestone_name (m : VoiceTimingMilestone) : rstr :=
  match m with
  | VT_AudioReceived => lit "audio_received"
  | VT_SpeechEnd => lit "speech_end"
  | VT_TranscriptFinal => lit "transcript_final"
  | VT_ResponseAuthorized => lit "response_authorized"
  | VT_FirstTextDelta => lit "first_text_delta"
  | VT_FirstSynthesisRequest => lit "first_synthesis_request"
  | VT_FirstPlayableAudio => lit "first_playable_audio"
  | VT_FirstSidecarAccept => lit "first_sidecar_accept"
  | VT_PlaybackRenderAcknowledged => lit "playback_render_acknowledged"
  | VT_BargeInOnset => lit "barge_in_onset"
  | VT_BargeInThreshold => lit "barge_in_threshold"
  | VT_PlaybackFlushAcknowledged => lit "playback_flush_acknowledged"
  | VT_Cleanup => lit "cleanup"
  end.

Definition VOICE_MILESTONES : list rstr :=
  [lit "audio_received"; lit "response_authorized"; lit "speech_end"; lit "transcript_final"; lit "first_text_delta";
   lit "first_synthesis_request"; lit "first_playable_audio"; lit "first_sidecar_accept"; lit "playback_render_acknowledged";
   lit "barge_in_onset"; lit "barge_in_threshold"; lit "playback_flush_acknowledged"; lit "cleanup"].
Definition is_voice_timing_milestone (milestone : rstr) : bool := one_of VOICE_MILESTONES milestone.

Definition playback_state_name (s : PlaybackState) : rstr :=
  match s with Playback_Accepted => lit "accepted" | Playback_Rendered => lit "rendered" | Playback_Flushed => lit "flushed" end.
Definition is_playback_state (state : rstr) : bool := one_of [lit "accepted"; lit "rendered"; lit "flushed"] state.
Definition recovery_name (r : RecoveryDisposition) : rstr :=
  match r with ContinueSession => lit "continue_session" | NewSession => lit "new_session" end.
Definition RecordingLimit_as_str (l : RecordingLimit) : rstr :=
  match l with FreeDiskSpace => lit "free_disk_space" | Duration => lit "duration" | Size => lit "size" | Silence => lit "silence" end.
Definition RecordingLimitState_as_str (s : RecordingLimitState) : rstr :=
  match s with Warning => lit "warning" | Stopped => lit "stopped" end.

Definition validate_voice_text (text : rstr) : wresult unit :=
  if is_empty text || (MAX_CONVERSATION_MESSAGE_BYTES <? blen text) then Err InvalidVoiceEvent else Ok tt.

Definition is_valid_device_label (label : rstr) : bool :=
  negb (is_empty label) && bool_decide (trim label = label) && (blen label <=? MAX_CLIENT_DEVICE_LABEL_BYTES).
Definition validate_device_label (label : rstr) : wresult unit :=
  if is_valid_device_label label then Ok tt else Err InvalidVoiceEvent.

Definition validate_optional_turn (t : option TurnId) : wresult unit :=
  match t with Some t => validate_identifier (TurnId_get t) | None => Ok tt end.

Definition voice_event_session (e : ClientVoiceSessionEvent) : SessionId :=
  match e with
  | VoiceSessionStarted s _ | VoiceDeviceStatus s _ _ | VoiceCapturePaused s | VoiceCaptureResumed s
  | VoiceActivityEvent s _ | VoiceTranscriptPartial s _ _ | VoiceTranscriptFinal s _ _ _ _ | ResponseAuthorized s _ _
  | ResponseSkipped s _ _ | VoiceBargeIn s _ _ | VoiceTurnEvent s _ _ | VoiceTiming s _ _ _ | VoicePlayback s _ _
  | VoiceSessionFailed s _ _ | VoiceSessionEnded s | VoiceRecordingLimit s _ _ | VoiceCaptureHealth s _ _ => s
  end.

Definition validate_client_voice_event (e : ClientVoiceSessionEvent) : wresult unit :=
  let? _ := match e with VoiceSessionStarted _ privacy => validate_voice_privacy privacy | _ => Ok tt end in
  let? _ := validate_identifier (SessionId_get (voice_event_session e)) in
  match e with
  | VoiceDeviceStatus _ input output => let? _ := validate_device_label input in validate_device_label output
  | VoiceTranscriptPartial _ segment text => let? _ := validate_identifier segment in validate_voice_text text
  | VoiceTranscriptFinal _ segment turn text evidence =>
      let? _ := match evidence with Some e => UtteranceCaptureEvidence_validate e | None => Ok tt end in
      let? _ := validate_identifier segment in
      let? _ := validate_optional_turn turn in
      validate_voice_text text
  | ResponseAuthorized _ segment turn =>
      let? _ := validate_identifier segment in validate_identifier (TurnId_get turn)
  | ResponseSkipped _ segment reason =>
      let? _ := validate_identifier segment in
      if is_empty reason || (128 <? blen reason) then Err InvalidVoiceEvent else Ok tt
  | VoiceBargeIn _ turn generation =>
      let? _ := validate_identifier (TurnId_get turn) in
      let? _ := validate_identifier (GenerationId_get generation) in
      if negb (TurnId_get turn =? GenerationId_get generation) then Err MismatchedVoiceIdentity else Ok tt
  | VoiceTurnEvent _ generation event =>
      let? _ := validate_identifier (GenerationId_get generation) in
      if negb (GenerationId_get generation =? TurnId_get (ClientRuntimeEvent_turn_id event)) then Err MismatchedVoiceIdentity
      else match event with
           | C_TurnStarted (Some _) _ => Err MismatchedVoiceIdentity
           | _ => validate_client_runtime_event event
           end
  | VoiceTiming _ turn milestone _ =>
      let? _ := validate_optional_turn turn in
      if is_voice_timing_milestone milestone then Ok tt else Err InvalidVoiceEvent
  | VoicePlayback _ generation state =>
      let? _ := validate_identifier (GenerationId_get generation) in
      if is_playback_state state then Ok tt else Err InvalidVoiceEvent
  | VoiceSessionFailed _ error recovery =>
      let? _ := validate_client_runtime_error error in
      if one_of [lit "continue_session"; lit "new_session"] recovery then Ok tt else Err InvalidVoiceEvent
  | VoiceRecordingLimit _ limit state =>
      if one_of [lit "free_disk_space"; lit "duration"; lit "size"; lit "silence"] limit && one_of [lit "warning"; lit "stopped"] state
      then Ok tt else Err InvalidVoiceEvent
  | _ => Ok tt
  end.

Definition project_voice_runtime_event (e : RuntimeEvent) : wresult ClientRuntimeEvent :=
  match e with
  | TranscriptFinal t text => Ok (C_TranscriptFinal t text)
  | TurnEvents.SpeechStarted t => Ok (C_SpeechStarted t)
  | SpeechCompleted t => Ok (C_SpeechCompleted t)
  | Playback _ _ _ => Err (UnsupportedRuntimeEvent (lit "playback"))
  | _ => ClientRuntimeEvent_try_from e
  end.

Definition ClientVoiceSessionEvent_try_from (e : VoiceSessionEvent) : wresult ClientVoiceSessionEvent :=
  let? projected := match e with
    | VS_SessionStarted s privacy => let? privacy := ClientPrivacySummary_try_from privacy in Ok (VoiceSessionStarted s privacy)
    | VS_DeviceStatus s input output => Ok (VoiceDeviceStatus s input output)
    | VS_CapturePaused s => Ok (VoiceCapturePaused s)
    | VS_CaptureResumed s => Ok (VoiceCaptureResumed s)
    | VS_VoiceActivity s activity => Ok (VoiceActivityEvent s (ClientVoiceActivity_from activity))
    | VS_TranscriptPartial s segment text => Ok (VoiceTranscriptPartial s segment text)
    | VS_TranscriptFinal s segment turn text evidence => Ok (VoiceTranscriptFinal s segment turn text evidence)
    | VS_ResponseAuthorized s segment turn => Ok (ResponseAuthorized s segment turn)
    | VS_ResponseSkipped s segment reason => Ok (ResponseSkipped s segment reason)
    | VS_BargeIn s turn generation => Ok (VoiceBargeIn s turn generation)
    | VS_Turn s generation event =>
        let? _ := validate_identifier (GenerationId_get generation) in
        let? _ := validate_identifier (TurnId_get (event_turn_id event)) in
        if negb (GenerationId_get generation =? TurnId_get (event_turn_id event)) then Err MismatchedVoiceIdentity
        else let? event := project_voice_runtime_event event in Ok (VoiceTurnEvent s generation event)
    | VS_Timing s turn milestone elapsed => Ok (VoiceTiming s turn (voice_timing_milestone_name milestone) elapsed)
    | VS_Playback s generation state => Ok (VoicePlayback s generation (playback_state_name state))
    | VS_SessionFailed s error recovery => Ok (VoiceSessionFailed s (ClientRuntimeError_from error) (recovery_name recovery))
    | VS_SessionEnded s => Ok (VoiceSessionEnded s)
    | VS_RecordingLimit s limit state => Ok (VoiceRecordingLimit s (RecordingLimit_as_str limit) (RecordingLimitState_as_str state))
    | VS_CaptureHealth s mostly_zero gap => Ok (VoiceCaptureHealth s mostly_zero gap)
    end in
  let? _ := validate_client_voice_event projected in Ok projected.

(** The derived [Serialize] of a voice event. *)
Definition component_value (c : ClientComponentDescriptor) : Value :=
  V_object (member "kind" (str c.(cd_kind)) ++ member "execution_location" (str c.(cd_execution_location))
            ++ member "provider_label" (str c.(cd_provider_label))).

Definition privacy_value (p : ClientPrivacySummary) : Value :=
  V_object (member "privacy_mode" (str p.(cps_privacy_mode)) ++ member "components" (V_array (map component_value p.(cps_components)))).

Definition activity_value (a : ClientVoiceActivity) : Value :=
  match a with
  | CV_SpeechStarted t => tagged "speech_started" (member "at_ms" (V_u64 t))
  | CV_SpeechContinued t => tagged "speech_continued" (member "at_ms" (V_u64 t))
  | CV_SpeechEnded t => tagged "speech_ended" (member "at_ms" (V_u64 t))
  | CV_CaptureDiscontinuity t => tagged "capture_discontinuity" (member "at_ms" (V_u64 t))
  end.

Definition ClientVoiceSessionEvent_value (e : ClientVoiceSessionEvent) : Value :=
  let session s := member "session_id" (id_value (SessionId_get s)) in
  let segment n := member "segment_id" (id_value n) in
  let turn t := member "turn_id" (id_value (TurnId_get t)) in
  let optional_turn t := member "turn_id" (opt_str ((fun t => decimal (TurnId_get t)) <$> t)) in
  let generation g := member "generation_id" (id_value (GenerationId_get g)) in
  match e with
  | VoiceSessionStarted s p => tagged "voice_session_started" (session s ++ member "privacy" (privacy_value p))
  | VoiceDeviceStatus s i o => tagged "voice_device_status" (session s ++ member "input_label" (str i) ++ member "output_label" (str o))
  | VoiceCapturePaused s => tagged "voice_capture_paused" (session s)
  | VoiceCaptureResumed s => tagged "voice_capture_resumed" (session s)
  | VoiceActivityEvent s a => tagged "voice_activity" (session s ++ member "activity" (activity_value a))
  | VoiceTranscriptPartial s n text => tagged "voice_transcript_partial" (session s ++ segment n ++ member "text" (str text))
  | VoiceTranscriptFinal s n t text evidence =>
      tagged "voice_transcript_final" (session s ++ segment n ++ optional_turn t ++ member "text" (str text)
        ++ match evidence with Some e => evidence_members e | None => [] end)
  | ResponseAuthorized s n t => tagged "response_authorized" (session s ++ segment n ++ turn t)
  | ResponseSkipped s n reason => tagged "response_skipped" (session s ++ segment n ++ member "reason" (str reason))
  | VoiceBargeIn s t g => tagged "voice_barge_in" (session s ++ turn t ++ generation g)
  | VoiceTurnEvent s g event => tagged "voice_turn_event" (session s ++ generation g ++ member "event" (ClientRuntimeEvent_value event))
  | VoiceTiming s t m elapsed =>
      tagged "voice_timing" (session s ++ optional_turn t ++ member "milestone" (str m) ++ member "elapsed_ms" (V_u64 elapsed))
  | VoicePlayback s g state => tagged "voice_playback" (session s ++ generation g ++ member "state" (str state))
  | VoiceSessionFailed s error recovery =>
      tagged "voice_session_failed" (session s ++ member "error" (error_value error) ++ member "recovery" (str recovery))
  | VoiceSessionEnded s => tagged "voice_session_ended" (session s)
  | VoiceRecordingLimit s limit state => tagged "voice_recording_limit" (session s ++ member "limit" (str limit) ++ member "state" (str state))
  | VoiceCaptureHealth s zero gap =>
      tagged "voice_capture_health" (session s ++ member "mostly_zero" (V_bool zero) ++ member "longest_gap_ms" (V_u64 gap))
  end.
End Validation.
