(* ===== verification/ClientCommands.v ===== *)
(** * The commands of a client

    [crates/protocol/src/client_wire.rs]: the JSON commands a client sends, as
    [serde]'s derived [Deserialize] reads them, and their decoding, which checks
    the protocol version, bounds every text and refuses what a version does not
    know. Reading the JSON text itself is a parameter ([ClientJson]). *)

From S2P Require Import Prelude RustStr Bytes Errors Pcm CaptureTiming Decimals ClientTiming ProtocolQuality Privacy MemoryProtocol RecordingSafety TurnEvents Audio Chunks Recorder ClientValues ClientVoice.

Local Open Scope Z_scope.

Definition LEGACY_CLIENT_PROTOCOL_VERSION : Z := 1.
Definition CONTEXT_SEED_PROTOCOL_VERSION : Z := 2.
Definition RUNTIME_PROFILE_PROTOCOL_VERSION : Z := 3.
Definition FINALIZED_RECORDING_PROTOCOL_VERSION : Z := 4.
Definition CLIENT_PROTOCOL_VERSION : Z := FINALIZED_RECORDING_PROTOCOL_VERSION.
Definition DEFAULT_CLIENT_PROTOCOL_VERSION : Z := RUNTIME_PROFILE_PROTOCOL_VERSION.
Definition MAX_CLIENT_FRAME_BYTES : Z := 512 * 1024.
Definition MAX_CONVERSATION_CONTEXT_EXCHANGES : Z := 16.

(** ** Checks *)

Definition validate_protocol_version (version : Z) : wresult unit :=
  if (version =? LEGACY_CLIENT_PROTOCOL_VERSION) || (version =? CONTEXT_SEED_PROTOCOL_VERSION)
     || (version =? RUNTIME_PROFILE_PROTOCOL_VERSION) || (version =? FINALIZED_RECORDING_PROTOCOL_VERSION)
  then Ok tt else Err (UnsupportedProtocolVersion version).

Definition validate_payload_size (actual : Z) : wresult unit :=
  if actual <=? MAX_CLIENT_FRAME_BYTES then Ok tt else Err (PayloadTooLarge actual MAX_CLIENT_FRAME_BYTES).

Definition validate_request_id (request_id : rstr) : wresult unit :=
  if is_empty request_id || (64 <? blen request_id) then Err InvalidRequestId else Ok tt.

Definition validate_timed_request (version : Z) (request_id : rstr) : wresult unit :=
  if negb (version =? FINALIZED_RECORDING_PROTOCOL_VERSION) then Err (UnsupportedProtocolVersion version)
  else validate_request_id request_id.

(** [if protocol_version < minimum]. *)
Definition since (minimum version : Z) : wresult unit :=
  if version <? minimum then Err (UnsupportedProtocolVersion version) else Ok tt.

Definition validate_context_content (content : rstr) : wresult unit :=
  if is_blank content || (MAX_CONVERSATION_MESSAGE_BYTES <? blen content) then Err InvalidConversationContext else Ok tt.

Definition is_canonical_identifier (value : rstr) : bool :=
  negb (is_empty value) && negb (bool_decide (value = lit "0")) && negb (starts_with (lit "0") value)
  && forallb is_ascii_digit (utf8_encode value).

Record ConversationContextExchange : Type := { user : rstr; assistant : rstr }.

Definition ConversationContextExchange_new (user assistant : rstr) : wresult ConversationContextExchange :=
  let? _ := validate_context_content user in
  let? _ := validate_context_content assistant in
  Ok {| user := user; assistant := assistant |}.

(** [WireConversationContextExchange] has the same fields, not yet checked. *)
Record WireConversationContextExchange : Type := { wire_user : rstr; wire_assistant : rstr }.

Fixpoint check_exchanges (used_bytes : Z) (exchanges : list WireConversationContextExchange)
  : wresult (list ConversationContextExchange) :=
  match exchanges with
  | [] => Ok []
  | e :: rest =>
      let? exchange := ConversationContextExchange_new e.(wire_user) e.(wire_assistant) in
      let? used_bytes := ok_or (checked_add used_bytes (blen exchange.(user)) ≫= fun used => checked_add used (blen exchange.(assistant)))
                           InvalidConversationContext in
      if MAX_HISTORY_BYTES <? used_bytes then Err InvalidConversationContext
      else let? validated := check_exchanges used_bytes rest in Ok (exchange :: validated)
  end.

Definition validate_context_exchanges (exchanges : list WireConversationContextExchange)
  : wresult (list ConversationContextExchange) :=
  if is_empty exchanges || (MAX_CONVERSATION_CONTEXT_EXCHANGES <? zlen exchanges) then Err InvalidConversationContext
  else check_exchanges 0 exchanges.

(** ** Commands *)

Record WireFinalizedRecordingCapability : Type := {
  wc_source_session_id : rstr;
  wc_recording_handle : rstr;
  wc_sha256 : rstr;
  wc_key_id : rstr;
  wc_authorization : rstr;
}.

Definition capability_try_from (v : WireFinalizedRecordingCapability) : wresult FinalizedRecordingCapability :=
  if negb (is_canonical_identifier v.(wc_source_session_id)) then Err InvalidFinalizedRecordingCapability
  else
    let? session := ok_or (parse_u64 v.(wc_source_session_id)) InvalidFinalizedRecordingCapability in
    let capability := {| source_session_id := SessionId_new session; recording_handle := v.(wc_recording_handle);
                         cap_sha256 := v.(wc_sha256); cap_key_id := v.(wc_key_id); authorization := v.(wc_authorization) |} in
    let? _ := FinalizedRecordingCapability_validate capability in
    Ok capability.

Definition WireFinalizedRecordingCapability_from (c : FinalizedRecordingCapability) : WireFinalizedRecordingCapability :=
  {| wc_source_session_id := decimal (SessionId_get c.(source_session_id)); wc_recording_handle := c.(recording_handle);
     wc_sha256 := c.(cap_sha256); wc_key_id := c.(cap_key_id); wc_authorization := c.(authorization) |}.

(** A [DecimalIdentifier] is the number it holds. *)
Inductive WireClientCommand : Type :=
| W_StartTimedVoiceSession (version : Z) (request_id bridge_session_id profile response_mode : rstr)
| W_StartDrainableTimedVoiceSession (version : Z) (request_id bridge_session_id profile response_mode : rstr)
| W_ReadRecordingAlignment (version : Z) (request_id : rstr) (capability : WireFinalizedRecordingCapability)
| W_RecordingAlignmentCredit (version : Z) (request_id consumed_page_index : rstr)
| W_CancelRecordingAlignment (version : Z) (request_id : rstr)
| W_Status (version : Z) (request_id : rstr)
| W_StartTurn (version : Z) (request_id transcript : rstr)
| W_InterruptTurn (version : Z) (request_id : rstr) (turn_id : Z)
| W_StartVoiceSession (version : Z) (request_id : rstr) (profile response_mode : option rstr)
| W_StopVoiceSession (version : Z) (request_id : rstr)
| W_PauseVoiceCapture (version : Z) (request_id : rstr)
| W_ResumeVoiceCapture (version : Z) (request_id : rstr)
| W_AuthorizeVoiceResponse (version : Z) (request_id : rstr) (session_id segment_id : Z)
    (context_exchanges : list WireConversationContextExchange)
| W_SkipVoiceResponse (version : Z) (request_id : rstr) (session_id segment_id : Z) (why : rstr)
| W_SeedConversationContext (version : Z) (request_id operation_id : rstr) (exchanges : list WireConversationContextExchange)
| W_MemoryList (version : Z) (request_id : rstr) (cursor : option Z)
| W_MemoryInspect (version : Z) (request_id : rstr) (memory_id : Z)
| W_PersonaGet (version : Z) (request_id : rstr)
| W_PersonaUpdate (version : Z) (request_id : rstr) (persona : ClientPersonaState)
| W_MemoryApprove (version : Z) (request_id : rstr) (memory_id expected_revision : Z)
| W_MemoryDelete (version : Z) (request_id : rstr) (memory_id expected_revision : Z)
| W_FinalizeRecording (version : Z) (request_id : rstr) (session_id : Z)
| W_ReconcileRecording (version : Z) (request_id : rstr) (session_id : Z) (handle : rstr)
| W_ReconcileFinalizedRecording (version : Z) (request_id : rstr) (capability : WireFinalizedRecordingCapability)
| W_ProcessText (version : Z) (request_id : rstr) (session_id : Z) (instructions input : rstr) (output_schema : Value)
    (max_output_bytes : Z)
| W_RenewMediaLease (version : Z) (request_id : rstr)
| W_AdoptClosedRecording (version : Z) (request_id : rstr) (session_id : Z) (handle : rstr).

Definition protocol_version (c : WireClientCommand) : Z :=
  match c with
  | W_StartTimedVoiceSession v _ _ _ _ | W_StartDrainableTimedVoiceSession v _ _ _ _ | W_ReadRecordingAlignment v _ _
  | W_RecordingAlignmentCredit v _ _ | W_CancelRecordingAlignment v _ | W_Status v _ | W_StartTurn v _ _
  | W_InterruptTurn v _ _ | W_StartVoiceSession v _ _ _ | W_StopVoiceSession v _ | W_PauseVoiceCapture v _
  | W_ResumeVoiceCapture v _ | W_AuthorizeVoiceResponse v _ _ _ _ | W_SkipVoiceResponse v _ _ _ _
  | W_SeedConversationContext v _ _ _ | W_MemoryList v _ _ | W_MemoryInspect v _ _ | W_PersonaGet v _
  | W_PersonaUpdate v _ _ | W_MemoryApprove v _ _ _ | W_MemoryDelete v _ _ _ | W_FinalizeRecording v _ _
  | W_ReconcileRecording v _ _ _ | W_ReconcileFinalizedRecording v _ _ | W_ProcessText v _ _ _ _ _ _
  | W_RenewMediaLease v _ | W_AdoptClosedRecording v _ _ _ => v
  end.

Inductive ClientCommand : Type :=
| StartTimedVoiceSession (request_id bridge_session_id : rstr) (profile : RuntimeProfile) (response_mode : VoiceResponseMode)
| StartDrainableTimedVoiceSession (request_id bridge_session_id : rstr) (profile : RuntimeProfile) (response_mode : VoiceResponseMode)
| ReadRecordingAlignment (request_id : rstr) (capability : FinalizedRecordingCapability)
| RecordingAlignmentCredit (request_id : rstr) (consumed_page_index : Z)
| CancelRecordingAlignment (request_id : rstr)
| Status (request_id : rstr)
| StartTurn (request_id transcript : rstr)
| InterruptTurn (request_id : rstr) (turn : TurnId)
| StartVoiceSession (request_id : rstr) (profile : option RuntimeProfile) (response_mode : option VoiceResponseMode)
| StopVoiceSession (request_id : rstr)
| PauseVoiceCapture (request_id : rstr)
| ResumeVoiceCapture (request_id : rstr)
| AuthorizeVoiceResponse (request_id : rstr) (session : SessionId) (segment_id : Z) (context_exchanges : list ConversationContextExchange)
| SkipVoiceResponse (request_id : rstr) (session : SessionId) (segment_id : Z) (why : rstr)
| SeedConversationContext (request_id operation_id : rstr) (exchanges : list ConversationContextExchange)
| MemoryList (request_id : rstr) (before : option MemoryId)
| MemoryInspect (request_id : rstr) (memory : MemoryId)
| PersonaGet (request_id : rstr)
| PersonaUpdate (request_id : rstr) (persona : ClientPersonaState)
| MemoryApprove (request_id : rstr) (memory : MemoryId) (expected_revision : Z)
| MemoryDelete (request_id : rstr) (memory : MemoryId) (expected_revision : Z)
| FinalizeRecording (request_id : rstr) (session : SessionId)
| ReconcileRecording (request_id : rstr) (session : SessionId) (handle : rstr)
| ReconcileFinalizedRecording (request_id : rstr) (capability : FinalizedRecordingCapability)
| ProcessText (request_id : rstr) (session : SessionId) (instructions input output_schema : rstr) (max_output_bytes : Z)
| RenewMediaLease (request_id : rstr)
| AdoptClosedRecording (request_id : rstr) (source_session : SessionId) (handle : rstr).

(** ** The derived [Deserialize]

    A command is an object whose member [type] names the variant, or an array
    whose first element does; the other members, or elements, are its fields.
    Unknown and repeated members are refused. *)

Definition assoc (name : rstr) (fields : list (rstr * Value)) : option Value :=
  snd <$> List.find (fun f => bool_decide (f.1 = name)) fields.

(** The fields of a struct, of which the last [defaulted] may be left out of an
    array. *)
Definition struct_fields (names : list rstr) (defaulted : nat) (v : Value) : option (list (rstr * Value)) :=
  match v with
  | V_object fs =>
      if forallb (fun f => one_of names f.1) fs && bool_decide (NoDup (map fst fs)) then Some fs else None
  | V_array vs =>
      if (length names - defaulted <=? length vs)%nat && (length vs <=? length names)%nat then Some (combine names vs) else None
  | _ => None
  end.

(** An unsigned integer of at most [maximum]. *)
Definition as_bounded (maximum : Z) (v : Value) : option Z :=
  match v with V_u64 n => if (0 <=? n) && (n <=? maximum) then Some n else None | _ => None end.
Definition as_u64 (v : Value) : option Z := as_bounded u64_max v.
Definition as_string (v : Value) : option rstr := match v with V_string s => Some s | _ => None end.
Definition as_list {A} (item : Value -> option A) (v : Value) : option (list A) :=
  match v with V_array vs => mapM item vs | _ => None end.

Definition DecimalIdentifier_deserialize (v : Value) : option Z :=
  s ← as_string v; if is_canonical_identifier s then parse_u64 s else None.

Section Fields.
Context (fields : list (rstr * Value)).
Definition required {A} (name : String.string) (read : Value -> option A) : option A := assoc (lit name) fields ≫= read.
(** A field of type [Option]: left out or null is [None]. *)
Definition optional {A} (name : String.string) (read : Value -> option A) : option (option A) :=
  match assoc (lit name) fields with
  | None | Some V_null => Some None
  | Some v => Some <$> read v
  end.
End Fields.
Arguments required fields {A} name%_string_scope read.
Arguments optional fields {A} name%_string_scope read.

Definition exchange_deserialize (v : Value) : option WireConversationContextExchange :=
  f ← struct_fields [lit "user"; lit "assistant"] 0 v;
  user ← required f "user" as_string; assistant ← required f "assistant" as_string;
  Some {| wire_user := user; wire_assistant := assistant |}.

Definition capability_deserialize (v : Value) : option WireFinalizedRecordingCapability :=
  f ← struct_fields [lit "source_session_id"; lit "recording_handle"; lit "sha256"; lit "key_id"; lit "authorization"] 0 v;
  session ← required f "source_session_id" as_string; handle ← required f "recording_handle" as_string;
  sha256 ← required f "sha256" as_string; key ← required f "key_id" as_string; tag ← required f "authorization" as_string;
  Some {| wc_source_session_id := session; wc_recording_handle := handle; wc_sha256 := sha256; wc_key_id := key; wc_authorization := tag |}.

Definition cursor_deserialize (v : Value) : option Z :=
  f ← struct_fields [lit "before_id"] 0 v; required f "before_id" DecimalIdentifier_deserialize.

Definition PERSONA_FIELDS : list rstr :=
  [lit "mode"; lit "warmth"; lit "humor"; lit "teasing"; lit "initiative"; lit "directness"; lit "intimacy"; lit "verbosity";
   lit "follow_up_frequency"].

Definition persona_deserialize (v : Value) : option ClientPersonaState :=
  f ← struct_fields PERSONA_FIELDS 0 v;
  mode ← required f "mode" as_string;
  warmth ← required f "warmth" (as_bounded 255); humor ← required f "humor" (as_bounded 255);
  teasing ← required f "teasing" (as_bounded 255); initiative ← required f "initiative" (as_bounded 255);
  directness ← required f "directness" (as_bounded 255); intimacy ← required f "intimacy" (as_bounded 255);
  verbosity ← required f "verbosity" (as_bounded 255); frequency ← required f "follow_up_frequency" (as_bounded 255);
  Some {| ps_mode := mode; ps_warmth := warmth; ps_humor := humor; ps_teasing := teasing; ps_initiative := initiative;
          ps_directness := directness; ps_intimacy := intimacy; ps_verbosity := verbosity; ps_follow_up_frequency := frequency |}.

(** The variants: their names, the fields after [protocol_version] and
    [request_id], how many of those have a default, and how they are read. *)
Record variant : Type := {
  variant_name : rstr;
  variant_fields : list rstr;
  variant_defaulted : nat;
  variant_read : Z -> rstr -> list (rstr * Value) -> option WireClientCommand;
}.

Definition plain (name : String.string) (make : Z -> rstr -> WireClientCommand) : variant :=
  {| variant_name := lit name; variant_fields := []; variant_defaulted := 0; variant_read := fun v r _ => Some (make v r) |}.
Arguments plain name%_string_scope make.

Definition timed_start (name : String.string) (make : Z -> rstr -> rstr -> rstr -> rstr -> WireClientCommand) : variant :=
  {| variant_name := lit name; variant_fields := [lit "bridge_session_id"; lit "profile"; lit "response_mode"]; variant_defaulted := 0;
     variant_read := fun v r f =>
       bridge ← required f "bridge_session_id" as_string; profile ← required f "profile" as_string;
       mode ← required f "response_mode" as_string; Some (make v r bridge profile mode) |}.
Arguments timed_start name%_string_scope make.

Definition with_capability (name : String.string) (make : Z -> rstr -> WireFinalizedRecordingCapability -> WireClientCommand) : variant :=
  {| variant_name := lit name; variant_fields := [lit "capability"]; variant_defaulted := 0;
     variant_read := fun v r f => c ← required f "capability" capability_deserialize; Some (make v r c) |}.
Arguments with_capability name%_string_scope make.

Definition with_id (name field : String.string) (make : Z -> rstr -> Z -> WireClientCommand) : variant :=
  {| variant_name := lit name; variant_fields := [lit field]; variant_defaulted := 0;
     variant_read := fun v r f => id ← required f field DecimalIdentifier_deserialize; Some (make v r id) |}.
Arguments with_id (name field)%_string_scope make.

Definition with_revision (name : String.string) (make : Z -> rstr -> Z -> Z -> WireClientCommand) : variant :=
  {| variant_name := lit name; variant_fields := [lit "memory_id"; lit "expected_revision"]; variant_defaulted := 0;
     variant_read := fun v r f =>
       id ← required f "memory_id" DecimalIdentifier_deserialize;
       revision ← required f "expected_revision" DecimalIdentifier_deserialize; Some (make v r id revision) |}.
Arguments with_revision name%_string_scope make.

Definition with_handle (name field : String.string) (make : Z -> rstr -> Z -> rstr -> WireClientCommand) : variant :=
  {| variant_name := lit name; variant_fields := [lit field; lit "recording_handle"]; variant_defaulted := 0;
     variant_read := fun v r f =>
       id ← required f field DecimalIdentifier_deserialize; handle ← required f "recording_handle" as_string;
       Some (make v r id handle) |}.
Arguments with_handle (name field)%_string_scope make.

Definition VARIANTS : list variant :=
  [ timed_start "start_timed_voice_session" W_StartTimedVoiceSession;
    timed_start "start_drainable_timed_voice_session" W_StartDrainableTimedVoiceSession;
    with_capability "read_recording_alignment" W_ReadRecordingAlignment;
    {| variant_name := lit "recording_alignment_credit"; variant_fields := [lit "consumed_page_index"]; variant_defaulted := 0;
       variant_read := fun v r f => index ← required f "consumed_page_index" as_string; Some (W_RecordingAlignmentCredit v r index) |};
    plain "cancel_recording_alignment" W_CancelRecordingAlignment;
    plain "status" W_Status;
    {| variant_name := lit "start_turn"; variant_fields := [lit "transcript"]; variant_defaulted := 0;
       variant_read := fun v r f => transcript ← required f "transcript" as_string; Some (W_StartTurn v r transcript) |};
    with_id "interrupt_turn" "turn_id" W_InterruptTurn;
    {| variant_name := lit "start_voice_session"; variant_fields := [lit "profile"; lit "response_mode"]; variant_defaulted := 2;
       variant_read := fun v r f =>
         profile ← optional f "profile" as_string; mode ← optional f "response_mode" as_string;
         Some (W_StartVoiceSession v r profile mode) |};
    plain "stop_voice_session" W_StopVoiceSession;
    plain "pause_voice_capture" W_PauseVoiceCapture;
    plain "resume_voice_capture" W_ResumeVoiceCapture;
    {| variant_name := lit "authorize_voice_response"; variant_fields := [lit "session_id"; lit "segment_id"; lit "context_exchanges"];
       variant_defaulted := 0;
       variant_read := fun v r f =>
         session ← required f "session_id" DecimalIdentifier_deserialize; segment ← required f "segment_id" DecimalIdentifier_deserialize;
         exchanges ← required f "context_exchanges" (as_list exchange_deserialize);
         Some (W_AuthorizeVoiceResponse v r session segment exchanges) |};
    {| variant_name := lit "skip_voice_response"; variant_fields := [lit "session_id"; lit "segment_id"; lit "reason"]; variant_defaulted := 0;
       variant_read := fun v r f =>
         session ← required f "session_id" DecimalIdentifier_deserialize; segment ← required f "segment_id" DecimalIdentifier_deserialize;
         why ← required f "reason" as_string; Some (W_SkipVoiceResponse v r session segment why) |};
    {| variant_name := lit "seed_conversation_context"; variant_fields := [lit "operation_id"; lit "exchanges"]; variant_defaulted := 0;
       variant_read := fun v r f =>
         operation ← required f "operation_id" as_string; exchanges ← required f "exchanges" (as_list exchange_deserialize);
         Some (W_SeedConversationContext v r operation exchanges) |};
    {| variant_name := lit "memory_list"; variant_fields := [lit "cursor"]; variant_defaulted := 0;
       variant_read := fun v r f => cursor ← optional f "cursor" cursor_deserialize; Some (W_MemoryList v r cursor) |};
    with_id "memory_inspect" "memory_id" W_MemoryInspect;
    plain "persona_get" W_PersonaGet;
    {| variant_name := lit "persona_update"; variant_fields := [lit "persona"]; variant_defaulted := 0;
       variant_read := fun v r f => persona ← required f "persona" persona_deserialize; Some (W_PersonaUpdate v r persona) |};
    with_revision "memory_approve" W_MemoryApprove;
    with_revision "memory_delete" W_MemoryDelete;
    with_id "finalize_recording" "session_id" W_FinalizeRecording;
    with_handle "reconcile_recording" "session_id" W_ReconcileRecording;
    with_capability "reconcile_finalized_recording" W_ReconcileFinalizedRecording;
    {| variant_name := lit "process_text";
       variant_fields := [lit "session_id"; lit "instructions"; lit "input"; lit "output_schema"; lit "max_output_bytes"]; variant_defaulted := 0;
       variant_read := fun v r f =>
         session ← required f "session_id" DecimalIdentifier_deserialize; instructions ← required f "instructions" as_string;
         input ← required f "input" as_string; schema ← required f "output_schema" Some;
         maximum ← required f "max_output_bytes" (as_bounded (2 ^ 32 - 1)); Some (W_ProcessText v r session instructions input schema maximum) |};
    plain "renew_media_lease" W_RenewMediaLease;
    with_handle "adopt_closed_recording" "source_session_id" W_AdoptClosedRecording ].

(** The tag and the rest of the document. *)
Definition split_tag (v : Value) : option (rstr * Value) :=
  match v with
  | V_object fs =>
      match List.filter (fun f => bool_decide (f.1 = lit "type")) fs with
      | [(_, V_string tag)] => Some (tag, V_object (List.filter (fun f => negb (bool_decide (f.1 = lit "type"))) fs))
      | _ => None
      end
  | V_array (V_string tag :: rest) => Some (tag, V_array rest)
  | _ => None
  end.

Definition WireClientCommand_deserialize (v : Value) : option WireClientCommand :=
  '(tag, rest) ← split_tag v;
  variant ← List.find (fun x => bool_decide (x.(variant_name) = tag)) VARIANTS;
  fields ← struct_fields ([lit "protocol_version"; lit "request_id"] ++ variant.(variant_fields)) variant.(variant_defaulted) rest;
  version ← required fields "protocol_version" as_u64;
  request ← required fields "request_id" as_string;
  variant.(variant_read) version request fields.

(** ** Decoding *)

(** [r?] in a function that may also panic. *)
Definition try {A B} (r : wresult A) (k : A -> exec (wresult B)) : exec (wresult B) :=
  match r with Ok a => k a | Err e => Val (Err e) end.
Notation "'let^' x := r 'in' k" := (try r (fun x => k)) (at level 10, x binder, r at level 100, k at level 200) : rust_scope.

Definition parse_profile (value : rstr) : wresult RuntimeProfile := ok_or (RuntimeProfile_parse value) InvalidRuntimeStatus.
Definition parse_response_mode (value : rstr) : wresult VoiceResponseMode := ok_or (VoiceResponseMode_parse value) InvalidTranscript.

Definition transpose {A B} (f : A -> wresult B) (o : option A) : wresult (option B) :=
  match o with Some a => let? b := f a in Ok (Some b) | None => Ok None end.

Section Decode.
Context `{ClientJson}.

(** [validate_protocol_version] and [validate_request_id], in that order. *)
Definition any_version (version : Z) (request_id : rstr) : wresult unit :=
  let? _ := validate_protocol_version version in validate_request_id request_id.

(** The same with a minimum version checked in between. *)
Definition from_version (minimum version : Z) (request_id : rstr) : wresult unit :=
  let? _ := validate_protocol_version version in
  let? _ := since minimum version in
  validate_request_id request_id.

Definition decode_start_timed (make : rstr -> rstr -> RuntimeProfile -> VoiceResponseMode -> ClientCommand)
    (version : Z) (request bridge profile mode : rstr) : wresult ClientCommand :=
  let? _ := validate_timed_request version request in
  let? _ := validate_capture_identity bridge in
  let? profile := parse_profile profile in
  let? mode := parse_response_mode mode in
  Ok (make request bridge profile mode).

Definition decode_wire_client_command (command : WireClientCommand) : exec (wresult ClientCommand) :=
  match command with
  | W_StartTimedVoiceSession v r bridge profile mode => Val (decode_start_timed StartTimedVoiceSession v r bridge profile mode)
  | W_StartDrainableTimedVoiceSession v r bridge profile mode =>
      Val (decode_start_timed StartDrainableTimedVoiceSession v r bridge profile mode)
  | W_ReadRecordingAlignment v r capability =>
      Val (let? _ := validate_timed_request v r in
           let? capability := capability_try_from capability in
           Ok (ReadRecordingAlignment r capability))
  | W_RecordingAlignmentCredit v r consumed =>
      Val (let? _ := validate_timed_request v r in
           let? index := ok_or (parse_u64 consumed) InvalidIdentifier in
           if negb (bool_decide (decimal index = consumed)) then Err InvalidIdentifier
           else Ok (RecordingAlignmentCredit r index))
  | W_CancelRecordingAlignment v r => Val (let? _ := validate_timed_request v r in Ok (CancelRecordingAlignment r))
  | W_Status v r => Val (let? _ := any_version v r in Ok (Status r))
  | W_StartTurn v r transcript =>
      Val (let? _ := any_version v r in
           let? _ := validate_transcript transcript in
           Ok (StartTurn r transcript))
  | W_InterruptTurn v r turn => Val (let? _ := any_version v r in Ok (InterruptTurn r (TurnId_new turn)))
  | W_StartVoiceSession v r profile mode =>
      Val (let? _ := validate_protocol_version v in
           if (v <? RUNTIME_PROFILE_PROTOCOL_VERSION) && (is_some profile || is_some mode) then Err (UnsupportedProtocolVersion v)
           else
             let? _ := validate_request_id r in
             let? profile := transpose parse_profile profile in
             let? mode := transpose parse_response_mode mode in
             Ok (StartVoiceSession r profile mode))
  | W_StopVoiceSession v r => Val (let? _ := any_version v r in Ok (StopVoiceSession r))
  | W_PauseVoiceCapture v r => Val (let? _ := any_version v r in Ok (PauseVoiceCapture r))
  | W_ResumeVoiceCapture v r => Val (let? _ := any_version v r in Ok (ResumeVoiceCapture r))
  | W_AuthorizeVoiceResponse v r session segment exchanges =>
      Val (let? _ := from_version RUNTIME_PROFILE_PROTOCOL_VERSION v r in
           let? exchanges := validate_context_exchanges exchanges in
           Ok (AuthorizeVoiceResponse r (SessionId_new session) segment exchanges))
  | W_SkipVoiceResponse v r session segment why =>
      Val (let? _ := from_version RUNTIME_PROFILE_PROTOCOL_VERSION v r in
           if is_empty why || (128 <? blen why) then Err InvalidTranscript
           else Ok (SkipVoiceResponse r (SessionId_new session) segment why))
  | W_SeedConversationContext v r operation exchanges =>
      Val (let? _ := from_version CONTEXT_SEED_PROTOCOL_VERSION v r in
           let? _ := validate_request_id operation in
           let? exchanges := validate_context_exchanges exchanges in
           Ok (SeedConversationContext r operation exchanges))
  | W_MemoryList v r cursor =>
      let^ _ := any_version v r in
      match cursor with
      | None => Val (Ok (MemoryList r None))
      | Some id => let! id := expect_ok (MemoryId_new id) in Val (Ok (MemoryList r (Some id)))
      end
  | W_MemoryInspect v r id =>
      let^ _ := any_version v r in
      let! id := expect_ok (MemoryId_new id) in
      Val (Ok (MemoryInspect r id))
  | W_PersonaGet v r => Val (let? _ := any_version v r in Ok (PersonaGet r))
  | W_PersonaUpdate v r persona =>
      Val (let? _ := any_version v r in
           let? _ := validate_client_persona_state persona in
           Ok (PersonaUpdate r persona))
  | W_MemoryApprove v r id revision =>
      let^ _ := any_version v r in
      let! id := expect_ok (MemoryId_new id) in
      Val (Ok (MemoryApprove r id revision))
  | W_MemoryDelete v r id revision =>
      let^ _ := any_version v r in
      let! id := expect_ok (MemoryId_new id) in
      Val (Ok (MemoryDelete r id revision))
  | W_FinalizeRecording v r session =>
      Val (let? _ := from_version RUNTIME_PROFILE_PROTOCOL_VERSION v r in Ok (FinalizeRecording r (SessionId_new session)))
  | W_ReconcileRecording v r session handle =>
      Val (let? _ := from_version RUNTIME_PROFILE_PROTOCOL_VERSION v r in
           if negb (is_client_recording_handle handle) then Err InvalidRecordingHandle
           else Ok (ReconcileRecording r (SessionId_new session) handle))
  | W_ReconcileFinalizedRecording v r capability =>
      Val (let? _ := validate_timed_request v r in
           let? capability := capability_try_from capability in
           Ok (ReconcileFinalizedRecording r capability))
  | W_ProcessText v r session instructions input output_schema max_output_bytes =>
      Val (let? _ := from_version RUNTIME_PROFILE_PROTOCOL_VERSION v r in
           let? schema := canonical_processing_schema instructions input output_schema max_output_bytes in
           Ok (ProcessText r (SessionId_new session) instructions input schema max_output_bytes))
  | W_AdoptClosedRecording v r session handle =>
      Val (let? _ := validate_timed_request v r in
           if negb (blen handle =? 32) || negb (forallb is_lowercase_hex_byte (utf8_encode handle)) then Err InvalidRecordingHandle
           else Ok (AdoptClosedRecording r (SessionId_new session) handle))
  | W_RenewMediaLease v r =>
      Val (let? _ := from_version RUNTIME_PROFILE_PROTOCOL_VERSION v r in Ok (RenewMediaLease r))
  end.

Definition decode_client_command_with_version (payload : list Z) : exec (wresult (Z * ClientCommand)) :=
  let^ _ := validate_payload_size (zlen payload) in
  let^ command := ok_or (from_slice payload ≫= WireClientCommand_deserialize) InvalidJson in
  let version := protocol_version command in
  let! r := decode_wire_client_command command in
  Val (result_map (fun command => (version, command)) r).

Definition decode_client_command (payload : list Z) : exec (wresult ClientCommand) :=
  let! r := decode_client_command_with_version payload in
  Val (result_map snd r).
End Decode.
