(* ===== verification/MediaLease.v ===== *)
(** * Media leases

    [ClientMediaLeaseDescriptor] of [crates/protocol/src/client_wire.rs]: where a
    bridge connects, with which credential and until when; and the parts of
    [core::net] its check uses. The wall clock is an argument. *)

From S2P Require Import Prelude RustStr Bytes Errors Pcm CaptureTiming Decimals ClientTiming ProtocolQuality Privacy MemoryProtocol RecordingSafety TurnEvents Audio Chunks Recorder ClientValues ClientVoice ClientCommands.

Local Open Scope Z_scope.

(** ** [str::parse::<SocketAddr>]

    Each reader takes the text that is left and returns a value with the text
    after it. *)

Abbreviation reader A := (rstr -> option (A * rstr)) (only parsing).

Definition read_given_char (c : Z) : reader unit :=
  fun s => match s with x :: rest => if x =? c then Some (tt, rest) else None | [] => None end.

(** [char::to_digit]. *)
Definition to_digit (radix c : Z) : option Z :=
  let d := if is_ascii_digit c then Some (c - 48)
           else if (97 <=? c) && (c <=? 102) then Some (c - 87)
           else if (65 <=? c) && (c <=? 70) then Some (c - 55) else None in
  match d with Some d => if d <? radix then Some d else None | None => None end.

(** The digits of a number of at most [maximum]: [None] on an overflow or when
    there are more than [max_digits]. *)
Fixpoint read_digits (radix maximum : Z) (max_digits : option Z) (value count : Z) (s : rstr) : option (Z * Z * rstr) :=
  match s with
  | c :: rest =>
      match to_digit radix c with
      | None => Some (value, count, s)
      | Some d =>
          let value := value * radix + d in
          if (maximum <? value) || is_some_and max_digits (fun m => m <? count + 1) then None
          else read_digits radix maximum max_digits value (count + 1) rest
      end
  | [] => Some (value, count, [])
  end.

Definition read_number (radix maximum : Z) (max_digits : option Z) (allow_zero_prefix : bool) : reader Z :=
  fun s =>
    match read_digits radix maximum max_digits 0 0 s with
    | None => None
    | Some (value, count, rest) =>
        if (count =? 0) || (negb allow_zero_prefix && starts_with (lit "0") s && (1 <? count)) then None else Some (value, rest)
    end.

Definition read_separator {A} (separator : Z) (index : nat) (inner : reader A) : reader A :=
  fun s => match index with O => inner s | S _ => '(_, rest) ← read_given_char separator s; inner rest end.

Definition read_octet : reader Z := read_number 10 255 (Some 3) false.

Definition read_ipv4_addr : reader unit :=
  fun s =>
    '(_, s) ← read_separator 46 0 read_octet s; '(_, s) ← read_separator 46 1 read_octet s;
    '(_, s) ← read_separator 46 2 read_octet s; '(_, s) ← read_separator 46 3 read_octet s; Some (tt, s).

(** [read_groups]: up to [n] more groups after [i]; how many are read in all,
    whether the last two are an IPv4 address, and the text that is left. *)
Fixpoint read_groups (n i : nat) (s : rstr) : nat * bool * rstr :=
  match n with
  | O => (i, false, s)
  | S n =>
      match (if Nat.ltb 0 n then read_separator 58 i read_ipv4_addr s else None) with
      | Some (_, rest) => ((i + 2)%nat, true, rest)
      | None =>
          match read_separator 58 i (read_number 16 65535 (Some 4) true) s with
          | Some (_, rest) => read_groups n (S i) rest
          | None => (i, false, s)
          end
      end
  end.

Definition read_ipv6_addr : reader unit :=
  fun s =>
    let '(head, is_v4, rest) := read_groups 8 0 s in
    if Nat.eqb head 8 then Some (tt, rest)
    else if is_v4 : bool then None
    else
      '(_, rest) ← read_given_char 58 rest; '(_, rest) ← read_given_char 58 rest;
      let '(_, _, rest) := read_groups (8 - (head + 1)) 0 rest in Some (tt, rest).

Definition read_port : reader Z := fun s => '(_, s) ← read_given_char 58 s; read_number 10 65535 None true s.

Definition read_scope_id : reader Z := fun s => '(_, s) ← read_given_char 37 s; read_number 10 (2 ^ 32 - 1) None true s.

Definition read_socket_addr_v4 : reader Z := fun s => '(_, s) ← read_ipv4_addr s; read_port s.

Definition read_socket_addr_v6 : reader Z :=
  fun s =>
    '(_, s) ← read_given_char 91 s; '(_, s) ← read_ipv6_addr s;
    let s := match read_scope_id s with Some (_, rest) => rest | None => s end in
    '(_, s) ← read_given_char 93 s; read_port s.

(** The port of a socket address, when the whole text is one. *)
Definition socket_addr_port (s : rstr) : option Z :=
  match (match read_socket_addr_v4 s with Some r => Some r | None => read_socket_addr_v6 s end) with
  | Some (port, []) => Some port
  | _ => None
  end.

(** ** Descriptors *)

Definition MEDIA_PROTOCOL_VERSION : Z := 1.
Definition TIMED_MEDIA_PROTOCOL_VERSION : Z := 2.
Definition DRAINABLE_TIMED_MEDIA_PROTOCOL_VERSION : Z := 3.
Definition MAX_MEDIA_CONNECT_ENDPOINT_BYTES : Z := 256.
Definition MAX_MEDIA_CREDENTIAL_BYTES : Z := 128.
Definition MAX_MEDIA_LEASE_LIFETIME_MS : Z := 5 * 60 * 1000.
Definition MAX_MEDIA_RECONNECT_WINDOW_MS : Z := 60 * 1000.

Record ClientMediaLeaseDescriptor : Type := {
  media_protocol_version : Z;
  lease_session_id : SessionId;
  connect_endpoint : rstr;
  credential : rstr;
  expires_at_ms : Z;
  reconnect_window_ms : Z;
  capture_format : option rstr;
}.

(** [str::split_once]. *)
Fixpoint split_once (pattern s : rstr) : option (rstr * rstr) :=
  match strip_prefix pattern s with
  | Some rest => Some ([], rest)
  | None => match s with
            | [] => None
            | c :: s => '(a, b) ← split_once pattern s; Some (c :: a, b)
            end
  end.

Definition is_valid_media_endpoint (value : rstr) : bool :=
  if is_empty value || (MAX_MEDIA_CONNECT_ENDPOINT_BYTES <? blen value) || negb (forallb (fun c => c <? 128) value) then false
  else match split_once (lit "://") value with
       | None => false
       | Some (scheme, address) =>
           one_of [lit "tcp"; lit "tls"] scheme && negb (existsb (char_in (lit "/?#@")) address)
           && is_some_and (socket_addr_port address) (fun port => negb (port =? 0))
       end.

Definition credential_byte (b : Z) : bool :=
  is_ascii_alphabetic b || is_ascii_digit b || (b =? 45) || (b =? 95).

Definition is_valid_media_credential (value : rstr) : bool :=
  (16 <=? blen value) && (blen value <=? MAX_MEDIA_CREDENTIAL_BYTES) && forallb credential_byte (utf8_encode value).

Definition version_matches_format (version : Z) (has_format : bool) : bool :=
  if has_format then (version =? TIMED_MEDIA_PROTOCOL_VERSION) || (version =? DRAINABLE_TIMED_MEDIA_PROTOCOL_VERSION)
  else version =? MEDIA_PROTOCOL_VERSION.

(** [now] is what [unix_now_millis] returns. *)
Definition lease_validate (now : option Z) (d : ClientMediaLeaseDescriptor) : wresult unit :=
  if negb (version_matches_format d.(media_protocol_version) (is_some d.(capture_format)))
     || (SessionId_get d.(lease_session_id) =? 0) || negb (is_valid_media_endpoint d.(connect_endpoint))
     || negb (is_valid_media_credential d.(credential))
  then Err InvalidMediaLease
  else
    let? _ := match d.(capture_format) with Some f => validate_capture_format f | None => Ok tt end in
    let? now := ok_or now InvalidMediaLease in
    let? lifetime := ok_or (checked_sub d.(expires_at_ms) now) InvalidMediaLease in
    if (lifetime =? 0) || (MAX_MEDIA_LEASE_LIFETIME_MS <? lifetime) || (d.(reconnect_window_ms) =? 0)
       || (MAX_MEDIA_RECONNECT_WINDOW_MS <? d.(reconnect_window_ms))
    then Err InvalidMediaLease else Ok tt.

Definition ClientMediaLeaseDescriptor_new (now : option Z) (version : Z) (session : SessionId) (endpoint cred : rstr)
    (expires reconnect : Z) : wresult ClientMediaLeaseDescriptor :=
  let d := {| media_protocol_version := version; lease_session_id := session; connect_endpoint := endpoint; credential := cred;
              expires_at_ms := expires; reconnect_window_ms := reconnect; capture_format := None |} in
  let? _ := lease_validate now d in Ok d.

Definition into_timed_version (now : option Z) (d : ClientMediaLeaseDescriptor) (f : rstr) (version : Z)
  : wresult ClientMediaLeaseDescriptor :=
  let? _ := validate_capture_format f in
  let d := {| media_protocol_version := version; lease_session_id := d.(lease_session_id); connect_endpoint := d.(connect_endpoint);
              credential := d.(credential); expires_at_ms := d.(expires_at_ms); reconnect_window_ms := d.(reconnect_window_ms);
              capture_format := Some f |} in
  let? _ := lease_validate now d in Ok d.

Definition into_timed (now : option Z) (d : ClientMediaLeaseDescriptor) (f : rstr) : wresult ClientMediaLeaseDescriptor :=
  into_timed_version now d f TIMED_MEDIA_PROTOCOL_VERSION.
Definition into_drainable_timed (now : option Z) (d : ClientMediaLeaseDescriptor) (f : rstr) : wresult ClientMediaLeaseDescriptor :=
  into_timed_version now d f DRAINABLE_TIMED_MEDIA_PROTOCOL_VERSION.

Definition lease_value (d : ClientMediaLeaseDescriptor) : Value :=
  V_object (member "media_protocol_version" (V_u64 d.(media_protocol_version)) ++ member "session_id" (id_value (SessionId_get d.(lease_session_id)))
            ++ member "connect_endpoint" (str d.(connect_endpoint)) ++ member "credential" (str d.(credential))
            ++ member "expires_at_ms" (id_value d.(expires_at_ms)) ++ member "reconnect_window_ms" (id_value d.(reconnect_window_ms))
            ++ match d.(capture_format) with
               | Some f => member "capture_format" (str f) ++ member "timing_contract" (str (lit "capture-clock/v1"))
               | None => []
               end).

(** The endpoints the tests of the source use, and some it must refuse. *)
Example endpoints_accepted :
  map is_valid_media_endpoint [lit "tcp://127.0.0.1:41000"; lit "tls://[::1]:443"; lit "tcp://[fe80::1%3]:9"; lit "tcp://[::ffff:10.0.0.1]:80"]
  = [true; true; true; true].
Proof. vm_compute. reflexivity. Qed.

Example endpoints_refused :
  map is_valid_media_endpoint [lit "tcp://127.0.0.1:0"; lit "udp://127.0.0.1:1"; lit "tcp://127.0.0.01:1"; lit "tcp://localhost:1"; lit "tcp://127.0.0.1:80/x";
    lit "tcp://[1:2:3:4:5:6:7]:1"; lit "tcp://127.0.0.1:65536"]
  = replicate 7 false.
Proof. vm_compute. reflexivity. Qed.
