(* ===== verification/ClientWire.v ===== *)
(** * The messages of the gateway

    [crates/protocol/src/client_wire.rs]: what the gateway tells its client, the
    validation every message passes first, and the JSON envelope it is written
    as, which leaves out what the client's protocol version does not know.
    Writing the JSON text is a parameter ([ClientJson]), the wall clock an
    argument. *)

From S2P Require Import Prelude RustStr Bytes Errors Pcm CaptureTiming Decimals ClientTiming ProtocolQuality Privacy MemoryProtocol RecordingSafety TurnEvents Audio Chunks Recorder ClientValues ClientVoice ClientCommands MediaLease.

Local Open Scope Z_scope.

Record RuntimeStatus : Type := {
  st_profile : rstr;
  st_transport : rstr;
  st_privacy_mode : rstr;
  st_language_location : rstr;
  st_model_id : rstr;
  st_memory_enabled : bool;
  st_memory_location : option rstr;
  st_telemetry_enabled : bool;
  st_capabilities : list rstr;
  st_components : list ClientComponentDescriptor;
  st_last_context_seed_operation_id : option rstr;
}.

Inductive GatewayMessage : Type :=
| M_TimedVoiceSessionStarted (request_id : rstr) (media_lease : ClientMediaLeaseDescriptor)
| M_RecordingAlignmentPage (request_id : rstr) (page : ClientRecordingAlignmentPage)
| M_RecordingAlignmentComplete (request_id : rstr) (completion : ClientRecordingAlignmentComplete)
| M_Ready (status : RuntimeStatus)
| M_ReadyV4 (status : RuntimeStatus) (current_session : SessionId)
| M_CommandAccepted (request_id : rstr) (turn : option TurnId) (media_lease : option ClientMediaLeaseDescriptor)
| M_CommandRejected (request_id : rstr) (error : ClientRuntimeError)
| M_Status (request_id : rstr) (status : RuntimeStatus)
| M_MemoryList (request_id : rstr) (records : list ClientMemorySummary) (cursor : option ClientMemoryCursor)
| M_MemoryInspection (request_id : rstr) (inspection : ClientMemoryInspection)
| M_RuntimeEvent (event : ClientRuntimeEvent)
| M_VoiceEvent (event : ClientVoiceSessionEvent)
| M_Fatal (error : ClientRuntimeError)
| M_PersonaState (request_id : rstr) (persona : ClientPersonaState)
| M_MemoryDeleted (request_id : rstr) (memory : MemoryId)
| M_MemoryExtracted (created activated pending_approval : Z)
| M_RecordingFinalized (request_id : rstr) (recording : ClientRecordingSummary)
| M_RecordingFinalizedV4 (request_id : rstr) (recording : ClientRecordingSummary) (recovery_capability : FinalizedRecordingCapability)
| M_RecordingReconciled (request_id : rstr) (reconciliation : ClientRecordingReconciliation)
| M_TextProcessed (request_id : rstr) (processed : ClientProcessedText)
| M_MediaLeaseRenewed (request_id : rstr) (expires : Z).

(** ** The status *)

(** [capability_rank]. *)
Definition capability_rank (version : Z) (capability : rstr) : option Z :=
  if bool_decide (capability = lit "text") then Some 0
  else if bool_decide (capability = lit "conversation_context_seed") && (CONTEXT_SEED_PROTOCOL_VERSION <=? version) then Some 1
  else if bool_decide (capability = lit "persona_control") then Some 2
  else if bool_decide (capability = lit "memory_inspection") then Some 3
  else if bool_decide (capability = lit "memory_mutation") then Some 4
  else if bool_decide (capability = lit "voice_session") then Some 5
  else if bool_decide (capability = lit "media_lease_renewal") && (RUNTIME_PROFILE_PROTOCOL_VERSION <=? version) then Some 6
  else if bool_decide (capability = lit "closed_recording_adoption") && (FINALIZED_RECORDING_PROTOCOL_VERSION <=? version) then Some 7
  else None.

Fixpoint check_capabilities (version : Z) (previous : option Z) (capabilities : list rstr) : wresult unit :=
  match capabilities with
  | [] => Ok tt
  | c :: rest =>
      let? rank := ok_or (capability_rank version c) InvalidRuntimeStatus in
      if is_some_and previous (fun p => rank <=? p) then Err InvalidRuntimeStatus
      else check_capabilities version (Some rank) rest
  end.

Definition is_language_model (c : ClientComponentDescriptor) : bool := of_kind (lit "language_model") c.

Definition check_language_model (s : RuntimeStatus) (location : ExecutionLocation) : wresult unit :=
  match List.filter is_language_model s.(st_components) with
  | [] => Err InvalidRuntimeStatus
  | model :: others =>
      if negb (is_empty others) || existsb (of_kind (lit "telemetry")) s.(st_components)
         || negb (bool_decide (ExecutionLocation_parse model.(cd_execution_location) = Some location))
      then Err InvalidRuntimeStatus else Ok tt
  end.

Definition profile_matches (p : RuntimeProfile) (mode : PrivacyMode) (remote : Z) : bool :=
  match p with
  | Offline => bool_decide (mode = LocalOnly) && (remote =? 0)
  | Online => negb (bool_decide (mode = LocalOnly)) && (0 <? remote)
  end.

Definition validate_runtime_status (s : RuntimeStatus) (version : Z) : wresult unit :=
  let? profile := ok_or (RuntimeProfile_parse s.(st_profile)) InvalidRuntimeStatus in
  let? mode := ok_or (PrivacyMode_parse s.(st_privacy_mode)) InvalidRuntimeStatus in
  let? location := ok_or (ExecutionLocation_parse s.(st_language_location)) InvalidRuntimeStatus in
  if negb (bool_decide (s.(st_transport) = lit "stdio")) || is_blank s.(st_model_id) || s.(st_telemetry_enabled)
  then Err InvalidRuntimeStatus
  else
    let? _ := validate_component_descriptors s.(st_components) in
    let? _ := check_language_model s location in
    let remote := count_if is_remote s.(st_components) in
    if negb (profile_matches profile mode remote) || (bool_decide (profile = Online) && (version <? RUNTIME_PROFILE_PROTOCOL_VERSION))
    then Err InvalidRuntimeStatus
    else
      let? _ := match s.(st_last_context_seed_operation_id) with
                | Some operation => match validate_request_id operation with Ok _ => Ok tt | Err _ => Err InvalidRuntimeStatus end
                | None => Ok tt
                end in
      let? _ := check_capabilities version None s.(st_capabilities) in
      let memory := one_of s.(st_capabilities) (lit "memory_inspection") in
      if negb (bool_decide (head s.(st_capabilities) = Some (lit "text")))
         || (one_of s.(st_capabilities) (lit "memory_mutation") && negb memory)
      then Err InvalidRuntimeStatus
      else
        let descriptors := count_if (of_kind (lit "memory")) s.(st_components) in
        if negb (Bool.eqb memory (s.(st_memory_enabled) && bool_decide (s.(st_memory_location) = Some (lit "local")) && (descriptors =? 1)))
           || (negb memory && (s.(st_memory_enabled) || is_some s.(st_memory_location) || negb (descriptors =? 0)))
        then Err InvalidRuntimeStatus
        else if one_of s.(st_capabilities) (lit "voice_session") then validate_voice_components s.(st_privacy_mode) s.(st_components)
        else if existsb (fun c => one_of [lit "speech_recognition"; lit "speech_synthesis"; lit "audio_io"] c.(cd_kind)) s.(st_components)
        then Err InvalidRuntimeStatus else Ok tt.

(** ** Memories *)

Definition is_wire_decimal (value : rstr) : bool :=
  negb (is_empty value) && (bool_decide (value = lit "0") || negb (starts_with (lit "0") value))
  && forallb is_ascii_digit (utf8_encode value).
Definition is_wire_identifier (value : rstr) : bool :=
  is_wire_decimal value && negb (bool_decide (value = lit "0")) && is_some (parse_u64 value).
Definition is_wire_timestamp (value : rstr) : bool := is_wire_decimal value && is_some (parse_i64 value).
(** [parse::<u16>] of digits: the [u64] that fits. *)
Definition is_wire_confidence (value : rstr) : bool :=
  is_wire_decimal value && is_some_and (parse_u64 value) (fun c => (c <=? 65535) && (c <=? 1000)).
Definition is_memory_kind (value : rstr) : bool :=
  one_of [lit "working"; lit "episodic"; lit "semantic"; lit "identity"; lit "relationship"] value.
Definition is_memory_state (value : rstr) : bool := one_of [lit "candidate"; lit "active"; lit "expired"] value.
Definition is_memory_retrieval_reason (value : rstr) : bool :=
  one_of [lit "pinned_match"; lit "exact_phrase"; lit "shared_term"; lit "recent_working"] value.
Definition is_provenance_kind (value : rstr) : bool :=
  one_of [lit "user_provided"; lit "user_edited"; lit "completed_exchange"; lit "application_imported"] value.

Definition validate_memory_summary (r : ClientMemorySummary) : wresult unit :=
  if negb (is_wire_identifier r.(ms_id)) || (MAX_MEMORY_PREVIEW_BYTES <? blen r.(ms_content_preview)) || negb (is_memory_kind r.(ms_kind))
     || negb (is_memory_state r.(ms_state)) || negb (is_wire_timestamp r.(ms_updated_at_ms))
  then Err InvalidMemoryResponse else Ok tt.

Fixpoint check_summaries (previous : option Z) (records : list ClientMemorySummary) : exec (wresult unit) :=
  match records with
  | [] => Val (Ok tt)
  | r :: rest =>
      let^ _ := validate_memory_summary r in
      let! id := expect (parse_u64 r.(ms_id)) in
      if is_some_and previous (fun p => p <=? id) then Val (Err InvalidMemoryResponse) else check_summaries (Some id) rest
  end.

Definition validate_memory_list (records : list ClientMemorySummary) (cursor : option ClientMemoryCursor) : exec (wresult unit) :=
  if MAX_MEMORY_LIST_PAGE_ITEMS <? zlen records then Val (Err InvalidMemoryResponse)
  else
    let! r := check_summaries None records in
    Val (let? _ := r in
         match cursor with
         | Some c => if negb (is_wire_identifier c.(before_id)) || is_none_or (last records) (fun r => negb (bool_decide (r.(ms_id) = c.(before_id))))
                     then Err InvalidMemoryResponse else Ok tt
         | None => Ok tt
         end).

Definition validate_memory_retention (r : ClientMemoryRetention) : wresult unit :=
  let valid := match r with
               | CR_Working e | CR_Until e => is_wire_timestamp e
               | CR_Session s => is_wire_identifier s
               | CR_UntilDeleted => true
               end in
  if valid then Ok tt else Err InvalidMemoryResponse.

Definition validate_memory_record (r : ClientMemoryRecord) : wresult unit :=
  if negb (is_wire_identifier r.(mr_id)) || negb (is_memory_kind r.(mr_kind)) || is_empty r.(mr_content)
     || (MAX_MEMORY_CONTENT_BYTES <? blen r.(mr_content)) || negb (is_memory_state r.(mr_state))
     || negb (is_wire_confidence r.(mr_confidence)) || negb (is_wire_timestamp r.(mr_created_at_ms))
     || negb (is_wire_timestamp r.(mr_updated_at_ms)) || negb (is_wire_identifier r.(mr_revision))
     || is_some_and r.(mr_last_used_at_ms) (fun v => negb (is_wire_timestamp v))
     || is_some_and r.(mr_last_retrieval_reason) (fun v => negb (is_memory_retrieval_reason v))
  then Err InvalidMemoryResponse else validate_memory_retention r.(mr_retention).

Definition source_invalid (s : ClientMemoryProvenance) : bool :=
  negb (is_provenance_kind s.(mp_kind)) || is_empty s.(mp_source_id) || (512 <? blen s.(mp_source_id)) || is_empty s.(mp_actor)
  || (256 <? blen s.(mp_actor)) || negb (is_wire_timestamp s.(mp_source_timestamp_ms)).

Definition approval_invalid (a : ClientMemoryApproval) : bool :=
  is_empty a.(ma_confirmation_id) || (512 <? blen a.(ma_confirmation_id)) || is_empty a.(ma_actor) || (256 <? blen a.(ma_actor))
  || negb (is_wire_timestamp a.(ma_confirmed_at_ms)) || negb (is_wire_identifier a.(ma_approved_revision)).

Definition validate_memory_inspection (i : ClientMemoryInspection) : wresult unit :=
  if (MAX_MEMORY_INSPECTION_HISTORY_ITEMS <? zlen i.(mi_sources)) || (MAX_MEMORY_INSPECTION_HISTORY_ITEMS <? zlen i.(mi_approvals))
  then Err InvalidMemoryResponse
  else
    let? _ := validate_memory_record i.(mi_record) in
    if existsb source_invalid i.(mi_sources) then Err InvalidMemoryResponse
    else if existsb approval_invalid i.(mi_approvals) then Err InvalidMemoryResponse else Ok tt.

(** ** Alignments as JSON *)

Definition identity_value (i : ClientRecordingIdentity) : Value :=
  V_object (member "source_session_id" (str i.(id_source_session_id)) ++ member "recording_handle" (str i.(id_recording_handle))
            ++ member "sha256" (str i.(id_sha256))).

Definition policy_value (p : ClientAlignmentPolicy) : Value :=
  V_object (member "id" (str p.(policy_name)) ++ member "cadence_target_ns" (str p.(cadence_target_ns))
            ++ member "maximum_bracket_ns" (str p.(policy_maximum_bracket_ns)) ++ member "maximum_pair_gap_ns" (str p.(maximum_pair_gap_ns))
            ++ member "maximum_residual_ns" (str p.(maximum_residual_ns))).

Definition epoch_value (e : ClientCaptureEpoch) : Value :=
  V_object (member "bridge_session_id" (str e.(ce_bridge_session_id)) ++ member "clock_domain_id" (str e.(ce_clock_domain_id))
            ++ member "capture_epoch" (str e.(ce_capture_epoch))).

Definition span_value (s : ClientNominalCaptureSpan) : Value :=
  V_object (member "host_start_ns" (str s.(cs_host_start_ns)) ++ member "host_end_ns" (str s.(cs_host_end_ns))
            ++ member "rounding_envelope_ns" (str s.(cs_rounding_envelope_ns))
            ++ member "capture_uncertainty_ns" (opt_str s.(cs_capture_uncertainty_ns))).

Definition opt_value {A} (f : A -> Value) (o : option A) : Value := match o with Some a => f a | None => V_null end.

Definition provenance_value (p : ClientFrameProvenance) : Value :=
  V_object (member "capture_epoch" (str p.(cf_capture_epoch)) ++ member "sequence" (str p.(cf_sequence))
            ++ member "output_start_sample" (str p.(cf_output_start_sample)) ++ member "sample_count" (V_u64 p.(cf_sample_count))
            ++ member "source_start_numerator" (str p.(cf_source_start_numerator))
            ++ member "source_end_numerator" (str p.(cf_source_end_numerator))
            ++ member "source_denominator" (V_u64 p.(cf_source_denominator)) ++ member "source_rate_hz" (V_u64 p.(cf_source_rate_hz))
            ++ member "quality" (str p.(cf_quality)) ++ member "span" (opt_value span_value p.(cf_span))).

Definition pair_value (p : ClientCaptureClockPair) : Value :=
  V_object (member "clock_domain_id" (str p.(cp_clock_domain_id)) ++ member "wall_epoch" (str p.(cp_wall_epoch))
            ++ member "sequence" (str p.(cp_sequence)) ++ member "host_before_ns" (str p.(cp_host_before_ns))
            ++ member "local_unix_ns" (str p.(cp_local_unix_ns)) ++ member "host_after_ns" (str p.(cp_host_after_ns))
            ++ member "wall_resolution_ns" (str p.(cp_wall_resolution_ns))
            ++ member "external_utc_accuracy_ns" (opt_str p.(cp_external_utc_accuracy_ns))).

Definition wall_value (w : ClientWallEstimate) : Value :=
  V_object (member "quality" (str w.(cw_quality)) ++ member "policy_id" (str w.(cw_policy_id))
            ++ member "local_start_ns" (str w.(local_start_ns)) ++ member "local_end_ns" (str w.(local_end_ns))
            ++ member "wall_epoch" (str w.(cw_wall_epoch)) ++ member "wall_run" (str w.(cw_wall_run))
            ++ member "maximum_bracket_ns" (str w.(maximum_bracket_ns)) ++ member "maximum_resolution_ns" (str w.(maximum_resolution_ns))
            ++ member "model_allowance_ns" (str w.(model_allowance_ns))
            ++ member "interpolation_rounding_ns" (str w.(interpolation_rounding_ns))
            ++ member "capture_rounding_ns" (str w.(capture_rounding_ns))
            ++ member "capture_uncertainty_ns" (opt_str w.(cw_capture_uncertainty_ns))
            ++ member "external_utc_accuracy_ns" (opt_str w.(cw_external_utc_accuracy_ns))
            ++ member "overall_physical_accuracy_ns" (opt_str w.(overall_physical_accuracy_ns))).

(** A variant of an enum tagged with [kind]. *)
Definition kinded (name : String.string) (fields : list (rstr * Value)) : Value :=
  V_object ((lit "kind", V_string (lit name)) :: fields).
Arguments kinded name%_string_scope fields.

Definition entry_value (e : ClientAlignmentEntry) : Value :=
  match e with
  | Entry_Epoch epoch => kinded "epoch" (member "epoch" (epoch_value epoch))
  | Entry_ClockPair p => kinded "clock_pair" (member "pair" (pair_value p))
  | Entry_Frame f =>
      kinded "frame" (member "media_start_sample" (str f.(fe_media_start_sample)) ++ member "media_end_sample" (str f.(fe_media_end_sample))
        ++ member "sample_rate_hz" (V_u64 f.(fe_sample_rate_hz)) ++ member "gap_offset_ms" (str f.(fe_gap_offset_ms))
        ++ member "epoch" (opt_value epoch_value f.(fe_epoch)) ++ member "provenance" (opt_value provenance_value f.(fe_provenance))
        ++ member "capture_status" (str f.(fe_capture_status)) ++ member "wall" (opt_value wall_value f.(fe_wall))
        ++ member "reasons" (strings f.(fe_reasons)))
  | Entry_Discontinuity epoch reason => kinded "discontinuity" (member "capture_epoch" (str epoch) ++ member "reason" (str reason))
  | Entry_AudioGap started ended reason =>
      kinded "audio_gap" (member "started_at_ms" (str started) ++ member "ended_at_ms" (opt_str ended) ++ member "reason" (str reason))
  | Entry_AlignmentLimit => kinded "alignment_limit" []
  end.

Definition page_value (p : ClientRecordingAlignmentPage) : Value :=
  V_object (member "source" (identity_value p.(page_source)) ++ member "page_index" (str p.(page_index))
            ++ member "policy" (policy_value p.(page_policy)) ++ member "entries" (V_array (map entry_value p.(page_entries)))).

Definition complete_value (c : ClientRecordingAlignmentComplete) : Value :=
  V_object (member "source" (identity_value c.(complete_source)) ++ member "page_count" (str c.(page_count))
            ++ member "coverage_status" (str c.(coverage_status)) ++ member "warnings" (strings c.(warnings))
            ++ member "traversal_succeeded" (V_bool c.(traversal_succeeded))).

Section Messages.
Context `{CJ : ClientJson}.

(** The length [page.validate] measures. *)
#[local] Instance page_length : PageJson := fun p => Some (zlen (to_vec (page_value p))).

(** ** Validation *)

Definition requires_authorization (e : ClientVoiceSessionEvent) : bool :=
  match e with ResponseAuthorized _ _ _ | ResponseSkipped _ _ _ | VoiceTranscriptFinal _ _ None _ _ => true | _ => false end.
Definition is_safety_event (e : ClientVoiceSessionEvent) : bool :=
  match e with VoiceRecordingLimit _ _ _ | VoiceCaptureHealth _ _ _ => true | _ => false end.
Definition is_spoken_event (e : ClientRuntimeEvent) : bool :=
  match e with C_TranscriptFinal _ _ | C_SpeechStarted _ | C_SpeechCompleted _ => true | _ => false end.

(** [if protocol_version != wanted]. *)
Definition only (wanted version : Z) : wresult unit :=
  if negb (version =? wanted) then Err (UnsupportedProtocolVersion version) else Ok tt.

Definition validate_gateway_message (now : option Z) (message : GatewayMessage) (version : Z) : exec (wresult unit) :=
  match message with
  | M_TimedVoiceSessionStarted r lease =>
      Val (let? _ := validate_timed_request version r in
           if negb ((lease.(media_protocol_version) =? TIMED_MEDIA_PROTOCOL_VERSION)
                    || (lease.(media_protocol_version) =? DRAINABLE_TIMED_MEDIA_PROTOCOL_VERSION))
           then Err InvalidMediaLease else lease_validate now lease)
  | M_RecordingAlignmentPage r page =>
      Val (let? _ := validate_timed_request version r in ClientRecordingAlignmentPage_validate page)
  | M_RecordingAlignmentComplete r completion =>
      Val (let? _ := validate_timed_request version r in ClientRecordingAlignmentComplete_validate completion)
  | M_CommandAccepted r turn lease =>
      Val (let? _ := validate_request_id r in
           let? _ := match turn with Some t => validate_turn_id t | None => Ok tt end in
           match lease with
           | Some lease => if negb (lease.(media_protocol_version) =? MEDIA_PROTOCOL_VERSION) then Err InvalidMediaLease
                           else lease_validate now lease
           | None => Ok tt
           end)
  | M_Status r status => Val (let? _ := validate_request_id r in validate_runtime_status status version)
  | M_MemoryList r records cursor => let^ _ := validate_request_id r in validate_memory_list records cursor
  | M_MemoryInspection r inspection => Val (let? _ := validate_request_id r in validate_memory_inspection inspection)
  | M_CommandRejected r error => Val (let? _ := validate_request_id r in validate_client_runtime_error error)
  | M_Fatal error => Val (validate_client_runtime_error error)
  | M_RuntimeEvent event =>
      Val (if is_spoken_event event then Err (UnsupportedRuntimeEvent (lit "voice_turn_event"))
           else
             let? _ := validate_client_runtime_event event in
             match event with
             | C_TurnStarted request _ => let? request := ok_or request InvalidRequestId in validate_request_id request
             | _ => Ok tt
             end)
  | M_VoiceEvent event =>
      Val (if (version <? FINALIZED_RECORDING_PROTOCOL_VERSION) && is_safety_event event then Err (UnsupportedProtocolVersion version)
           else if (version <? RUNTIME_PROFILE_PROTOCOL_VERSION) && requires_authorization event
           then Err (UnsupportedProtocolVersion version)
           else validate_client_voice_event event)
  | M_Ready status =>
      Val (if FINALIZED_RECORDING_PROTOCOL_VERSION <=? version then Err InvalidIdentifier
           else validate_runtime_status status version)
  | M_ReadyV4 status session =>
      Val (let? _ := only FINALIZED_RECORDING_PROTOCOL_VERSION version in
           let? _ := validate_identifier (SessionId_get session) in
           validate_runtime_status status version)
  | M_PersonaState r persona => Val (let? _ := validate_request_id r in validate_client_persona_state persona)
  | M_MemoryDeleted r _ => Val (validate_request_id r)
  | M_RecordingFinalized r recording =>
      Val (let? _ := only RUNTIME_PROFILE_PROTOCOL_VERSION version in
           let? _ := validate_request_id r in
           validate_client_recording_summary recording)
  | M_RecordingFinalizedV4 r recording capability =>
      Val (let? _ := only FINALIZED_RECORDING_PROTOCOL_VERSION version in
           let? _ := validate_request_id r in
           let? _ := validate_client_recording_summary recording in
           let? _ := FinalizedRecordingCapability_validate capability in
           if negb (bool_decide (capability.(recording_handle) = recording.(rs_recording_handle)))
              || negb (bool_decide (capability.(cap_sha256) = recording.(rs_sha256)))
              || negb (bool_decide (capability.(cap_key_id) = recording.(rs_key_id)))
           then Err InvalidFinalizedRecordingCapability else Ok tt)
  | M_RecordingReconciled r reconciliation =>
      Val (let? _ := since RUNTIME_PROFILE_PROTOCOL_VERSION version in
           let? _ := validate_request_id r in
           validate_client_recording_reconciliation reconciliation)
  | M_TextProcessed r processed =>
      Val (let? _ := since RUNTIME_PROFILE_PROTOCOL_VERSION version in
           let? _ := validate_request_id r in
           validate_client_processed_text processed)
  | M_MediaLeaseRenewed r expires =>
      Val (let? _ := since RUNTIME_PROFILE_PROTOCOL_VERSION version in
           let? _ := validate_request_id r in
           let? now := ok_or now InvalidMediaLease in
           if (expires =? 0) || (MAX_MEDIA_LEASE_LIFETIME_MS <? saturating_sub expires now) then Err InvalidMediaLease else Ok tt)
  | M_MemoryExtracted _ _ _ => Val (Ok tt)
  end.

(** ** Envelopes *)

(** [WireRuntimeStatus]. *)
Definition status_value (s : RuntimeStatus) (version : Z) : Value :=
  V_object (opt_member "profile" (if RUNTIME_PROFILE_PROTOCOL_VERSION <=? version then Some (str s.(st_profile)) else None)
    ++ member "transport" (str s.(st_transport)) ++ member "privacy_mode" (str s.(st_privacy_mode))
    ++ member "language_location" (str s.(st_language_location)) ++ member "model_id" (str s.(st_model_id))
    ++ member "memory_enabled" (V_bool s.(st_memory_enabled)) ++ member "memory_location" (opt_str s.(st_memory_location))
    ++ member "telemetry_enabled" (V_bool s.(st_telemetry_enabled)) ++ member "capabilities" (strings s.(st_capabilities))
    ++ member "components" (V_array (map component_value s.(st_components)))
    ++ opt_member "last_context_seed_operation_id"
         (if CONTEXT_SEED_PROTOCOL_VERSION <=? version then Some (opt_str s.(st_last_context_seed_operation_id)) else None)).

(** [WireClientVoiceSessionEvent]: [None] is the serialization error. *)
Definition voice_event_value (e : ClientVoiceSessionEvent) (version : Z) : option Value :=
  match e with
  | VoiceTranscriptFinal s segment turn text _ =>
      if version =? RUNTIME_PROFILE_PROTOCOL_VERSION then
        Some (tagged "voice_transcript_final" (member "session_id" (id_value (SessionId_get s)) ++ member "segment_id" (id_value segment)
          ++ member "turn_id" (opt_str ((fun t => decimal (TurnId_get t)) <$> turn)) ++ member "text" (str text)))
      else if RUNTIME_PROFILE_PROTOCOL_VERSION <=? version then Some (ClientVoiceSessionEvent_value e)
      else match turn with
           | Some t => Some (tagged "voice_transcript_final" (member "session_id" (id_value (SessionId_get s))
                         ++ member "turn_id" (id_value (TurnId_get t)) ++ member "text" (str text)))
           | None => None
           end
  | _ =>
      if RUNTIME_PROFILE_PROTOCOL_VERSION <=? version then Some (ClientVoiceSessionEvent_value e)
      else if requires_authorization e then None else Some (ClientVoiceSessionEvent_value e)
  end.

Definition summary_value (m : ClientMemorySummary) : Value :=
  V_object (member "id" (str m.(ms_id)) ++ member "content_preview" (str m.(ms_content_preview)) ++ member "kind" (str m.(ms_kind))
            ++ member "state" (str m.(ms_state)) ++ member "pinned" (V_bool m.(ms_pinned)) ++ member "updated_at_ms" (str m.(ms_updated_at_ms))).

Definition cursor_value (c : ClientMemoryCursor) : Value := V_object (member "before_id" (str c.(before_id))).

Definition retention_value (r : ClientMemoryRetention) : Value :=
  match r with
  | CR_Working e => kinded "working" (member "expires_at_ms" (str e))
  | CR_Session s => kinded "session" (member "session_id" (str s))
  | CR_Until e => kinded "until" (member "expires_at_ms" (str e))
  | CR_UntilDeleted => kinded "until_deleted" []
  end.

Definition record_value (r : ClientMemoryRecord) : Value :=
  V_object (member "id" (str r.(mr_id)) ++ member "kind" (str r.(mr_kind)) ++ member "content" (str r.(mr_content))
            ++ member "state" (str r.(mr_state)) ++ member "confidence" (str r.(mr_confidence))
            ++ member "created_at_ms" (str r.(mr_created_at_ms)) ++ member "updated_at_ms" (str r.(mr_updated_at_ms))
            ++ member "pinned" (V_bool r.(mr_pinned)) ++ member "revision" (str r.(mr_revision))
            ++ member "retention" (retention_value r.(mr_retention)) ++ member "last_used_at_ms" (opt_str r.(mr_last_used_at_ms))
            ++ member "last_retrieval_reason" (opt_str r.(mr_last_retrieval_reason))).

Definition memory_source_value (p : ClientMemoryProvenance) : Value :=
  V_object (member "kind" (str p.(mp_kind)) ++ member "source_id" (str p.(mp_source_id))
            ++ member "source_timestamp_ms" (str p.(mp_source_timestamp_ms)) ++ member "actor" (str p.(mp_actor))).

Definition memory_approval_value (a : ClientMemoryApproval) : Value :=
  V_object (member "confirmation_id" (str a.(ma_confirmation_id)) ++ member "actor" (str a.(ma_actor))
            ++ member "confirmed_at_ms" (str a.(ma_confirmed_at_ms)) ++ member "approved_revision" (str a.(ma_approved_revision))).

Definition inspection_value (i : ClientMemoryInspection) : Value :=
  V_object (member "record" (record_value i.(mi_record)) ++ member "sources" (V_array (map memory_source_value i.(mi_sources)))
            ++ member "approvals" (V_array (map memory_approval_value i.(mi_approvals)))
            ++ member "sources_truncated" (V_bool i.(mi_sources_truncated)) ++ member "approvals_truncated" (V_bool i.(mi_approvals_truncated))).

Definition gap_value (g : ClientRecordingGap) : Value :=
  V_object (member "started_at_ms" (id_value g.(gap_started_at_ms)) ++ member "ended_at_ms" (opt_str (decimal <$> g.(gap_ended_at_ms)))
            ++ member "reason" (str g.(gap_reason))).

Definition recording_value (s : ClientRecordingSummary) : Value :=
  V_object (member "recording_handle" (str s.(rs_recording_handle)) ++ member "encrypted_path" (str s.(rs_encrypted_path))
            ++ member "sha256" (str s.(rs_sha256)) ++ member "duration_ms" (id_value s.(rs_duration_ms)) ++ member "format" (str s.(rs_format))
            ++ member "key_id" (str s.(rs_key_id)) ++ member "gaps" (V_array (map gap_value s.(rs_gaps)))).

Definition capability_value (c : WireFinalizedRecordingCapability) : Value :=
  V_object (member "source_session_id" (str c.(wc_source_session_id)) ++ member "recording_handle" (str c.(wc_recording_handle))
            ++ member "sha256" (str c.(wc_sha256)) ++ member "key_id" (str c.(wc_key_id)) ++ member "authorization" (str c.(wc_authorization))).

Definition sample_range_value (r : DiarizedMediaSampleRange) : Value :=
  V_object (member "start_sample_inclusive" (id_value r.(start_sample_inclusive)) ++ member "end_sample_exclusive" (id_value r.(end_sample_exclusive))
            ++ member "sample_rate_hz" (V_u64 r.(range_rate_hz)) ++ member "gap_offset_ms" (id_value r.(range_gap_offset_ms))
            ++ member "quantization_policy" (str quantization_policy)).

Definition segment_value (version : Z) (s : ClientDiarizedSegment) : Value :=
  V_object (member "segment_id" (str s.(seg_id)) ++ member "started_at_ms" (id_value s.(seg_started_at_ms))
            ++ member "ended_at_ms" (id_value s.(seg_ended_at_ms)) ++ member "text" (str s.(seg_text))
            ++ member "speaker_cluster" (opt_str s.(speaker_cluster))
            ++ opt_member "media_sample_range"
                 (if FINALIZED_RECORDING_PROTOCOL_VERSION <=? version then Some (opt_value sample_range_value s.(media_sample_range)) else None)).

Definition reconciliation_value (r : ClientRecordingReconciliation) (version : Z) : Value :=
  V_object (member "segments" (V_array (map (segment_value version) r.(rr_segments))) ++ member "warnings" (strings r.(rr_warnings))).

Definition persona_value (p : ClientPersonaState) : Value :=
  V_object (member "mode" (str p.(ps_mode)) ++ member "warmth" (V_u64 p.(ps_warmth)) ++ member "humor" (V_u64 p.(ps_humor))
            ++ member "teasing" (V_u64 p.(ps_teasing)) ++ member "initiative" (V_u64 p.(ps_initiative))
            ++ member "directness" (V_u64 p.(ps_directness)) ++ member "intimacy" (V_u64 p.(ps_intimacy))
            ++ member "verbosity" (V_u64 p.(ps_verbosity)) ++ member "follow_up_frequency" (V_u64 p.(ps_follow_up_frequency))).

(** One envelope: its tag, the protocol version and its own members. *)
Definition envelope (version : Z) (name : String.string) (fields : list (rstr * Value)) : exec Value :=
  Val (tagged name (member "protocol_version" (V_u64 version) ++ fields)).
Arguments envelope version name%_string_scope fields.

Definition request (r : rstr) : list (rstr * Value) := member "request_id" (str r).

(** [GatewayMessageEnvelope::new], serialized. [Panics] where the output of a
    text call is not JSON or the serialization fails. *)
Definition envelope_value (message : GatewayMessage) (version : Z) : exec Value :=
  match message with
  | M_TimedVoiceSessionStarted r lease => envelope version "timed_voice_session_started" (request r ++ member "media_lease" (lease_value lease))
  | M_RecordingAlignmentPage r page => envelope version "recording_alignment_page" (request r ++ member "page" (page_value page))
  | M_RecordingAlignmentComplete r c => envelope version "recording_alignment_complete" (request r ++ member "completion" (complete_value c))
  | M_Ready s => envelope version "ready" (member "status" (status_value s version))
  | M_ReadyV4 s session =>
      envelope version "ready" (member "status" (status_value s version) ++ member "current_session_id" (id_value (SessionId_get session)))
  | M_CommandAccepted r turn lease =>
      envelope version "command_accepted" (request r ++ opt_member "turn_id" ((fun t => id_value (TurnId_get t)) <$> turn)
        ++ opt_member "media_lease" (if RUNTIME_PROFILE_PROTOCOL_VERSION <=? version then lease_value <$> lease else None))
  | M_CommandRejected r error => envelope version "command_rejected" (request r ++ member "error" (error_value error))
  | M_Status r s => envelope version "status" (request r ++ member "status" (status_value s version))
  | M_MemoryList r records cursor =>
      envelope version "memory_list" (request r ++ member "records" (V_array (map summary_value records))
        ++ member "next_cursor" (opt_value cursor_value cursor))
  | M_MemoryInspection r i => envelope version "memory_inspection" (request r ++ member "inspection" (inspection_value i))
  | M_RuntimeEvent e => envelope version "runtime_event" (member "event" (ClientRuntimeEvent_value e))
  | M_VoiceEvent e => let! v := expect (voice_event_value e version) in envelope version "voice_event" (member "event" v)
  | M_Fatal error => envelope version "fatal" (member "error" (error_value error))
  | M_PersonaState r p => envelope version "persona_state" (request r ++ member "persona" (persona_value p))
  | M_MemoryDeleted r id => envelope version "memory_deleted" (request r ++ member "memory_id" (id_value (MemoryId_get id)))
  | M_MemoryExtracted created activated pending =>
      envelope version "memory_extracted" (member "created" (V_u64 created) ++ member "activated" (V_u64 activated)
        ++ member "pending_approval" (V_u64 pending))
  | M_RecordingFinalized r s => envelope version "recording_finalized" (request r ++ member "recording" (recording_value s))
  | M_RecordingFinalizedV4 r s capability =>
      envelope version "recording_finalized" (request r ++ member "recording" (recording_value s)
        ++ member "recovery_capability" (capability_value (WireFinalizedRecordingCapability_from capability)))
  | M_RecordingReconciled r rec => envelope version "recording_reconciled" (request r ++ member "reconciliation" (reconciliation_value rec version))
  | M_TextProcessed r p =>
      let! output := expect (from_str p.(pt_output)) in
      envelope version "text_processed" (request r ++ member "processed" (V_object (member "output" output ++ member "warnings" (strings p.(pt_warnings)))))
  | M_MediaLeaseRenewed r expires => envelope version "media_lease_renewed" (request r ++ member "expires_at_ms" (id_value expires))
  end.

Definition is_alignment_page (m : GatewayMessage) : bool := match m with M_RecordingAlignmentPage _ _ => true | _ => false end.

Definition encode_gateway_message_for_version (now : option Z) (message : GatewayMessage) (version : Z) : exec (wresult (list Z)) :=
  let^ _ := validate_protocol_version version in
  let! valid := validate_gateway_message now message version in
  let^ _ := valid in
  let! value := envelope_value message version in
  let encoded := to_vec value in
  if is_alignment_page message && (MAX_ALIGNMENT_PAGE_BYTES <? zlen encoded)
  then Val (Err (PayloadTooLarge (zlen encoded) MAX_ALIGNMENT_PAGE_BYTES))
  else Val (let? _ := validate_payload_size (zlen encoded) in Ok encoded).

Definition encode_gateway_message (now : option Z) (message : GatewayMessage) : exec (wresult (list Z)) :=
  encode_gateway_message_for_version now message LEGACY_CLIENT_PROTOCOL_VERSION.
End Messages.
