(* ===== verification/ClientDecoding.v ===== *)
(** * What a decoded command guarantees

    The gateway trusts a command once it is decoded: its identifiers are
    non-zero 64-bit numbers, its texts are bounded, its handles cannot name
    anything but a recording of the store, and it belongs to the protocol
    version it was sent with. *)

From S2P Require Import Prelude RustStr Bytes Errors Pcm CaptureTiming Decimals ClientTiming ProtocolQuality Privacy MemoryProtocol RecordingSafety TurnEvents Audio Chunks Recorder ClientValues ClientVoice ClientCommands.

Local Open Scope Z_scope.

(** ** The type of a decoded command *)

Definition identifier (n : Z) : Prop := 0 < n <= u64_max.

Definition request_ok (request_id : rstr) : Prop := request_id <> [] /\ blen request_id <= 64.

Definition context_ok (content : rstr) : Prop :=
  is_blank content = false /\ blen content <= MAX_CONVERSATION_MESSAGE_BYTES.

Definition exchange_bytes (e : ConversationContextExchange) : Z := blen e.(user) + blen e.(assistant).
Definition context_bytes (es : list ConversationContextExchange) : Z := foldr (fun e n => exchange_bytes e + n) 0 es.

Definition exchanges_ok (es : list ConversationContextExchange) : Prop :=
  0 < zlen es <= MAX_CONVERSATION_CONTEXT_EXCHANGES /\
  Forall (fun e => context_ok e.(user) /\ context_ok e.(assistant)) es /\ context_bytes es <= MAX_HISTORY_BYTES.

(** A handle is letters and digits: no separator, no dot, no control. *)
Definition handle_ok (maximum : Z) (handle : rstr) : Prop :=
  handle <> [] /\ blen handle <= maximum /\ Forall (fun c => handle_byte c = true) handle.

Definition capability_ok (c : FinalizedRecordingCapability) : Prop :=
  capability_validate c = true /\ identifier (SessionId_get c.(source_session_id)).

Definition persona_ok (p : ClientPersonaState) : Prop :=
  is_some (conversation_mode_from_wire_name p.(ps_mode)) = true /\ Forall (fun level => 0 <= level <= 100) (persona_levels p).

Definition request_id (c : ClientCommand) : rstr :=
  match c with
  | StartTimedVoiceSession r _ _ _ | StartDrainableTimedVoiceSession r _ _ _ | ReadRecordingAlignment r _
  | RecordingAlignmentCredit r _ | CancelRecordingAlignment r | Status r | StartTurn r _ | InterruptTurn r _
  | StartVoiceSession r _ _ | StopVoiceSession r | PauseVoiceCapture r | ResumeVoiceCapture r
  | AuthorizeVoiceResponse r _ _ _ | SkipVoiceResponse r _ _ _ | SeedConversationContext r _ _ | MemoryList r _
  | MemoryInspect r _ | PersonaGet r | PersonaUpdate r _ | MemoryApprove r _ _ | MemoryDelete r _ _
  | FinalizeRecording r _ | ReconcileRecording r _ _ | ReconcileFinalizedRecording r _ | ProcessText r _ _ _ _ _
  | RenewMediaLease r | AdoptClosedRecording r _ _ => r
  end.

Section Guarantee.
Context `{ClientJson}.

(** What holds of a command decoded at a version. *)
Definition command_ok (version : Z) (c : ClientCommand) : Prop :=
  match c with
  | StartTimedVoiceSession _ bridge _ _ | StartDrainableTimedVoiceSession _ bridge _ _ =>
      version = 4 /\ client_identifier bridge = Ok tt
  | ReadRecordingAlignment _ c | ReconcileFinalizedRecording _ c => version = 4 /\ capability_ok c
  | RecordingAlignmentCredit _ page => version = 4 /\ is_u64 page
  | CancelRecordingAlignment _ => version = 4
  | AdoptClosedRecording _ s handle => version = 4 /\ identifier (SessionId_get s) /\ handle_ok 32 handle /\ blen handle = 32
  | StartTurn _ transcript => transcript <> [] /\ blen transcript <= MAX_CONVERSATION_MESSAGE_BYTES
  | InterruptTurn _ turn => identifier (TurnId_get turn)
  | StartVoiceSession _ profile mode => 3 <= version \/ profile = None /\ mode = None
  | AuthorizeVoiceResponse _ s segment exchanges =>
      3 <= version /\ identifier (SessionId_get s) /\ identifier segment /\ exchanges_ok exchanges
  | SkipVoiceResponse _ s segment why =>
      3 <= version /\ identifier (SessionId_get s) /\ identifier segment /\ why <> [] /\ blen why <= 128
  | SeedConversationContext _ operation exchanges => 2 <= version /\ request_ok operation /\ exchanges_ok exchanges
  | MemoryList _ before => match before with Some id => identifier (MemoryId_get id) | None => True end
  | MemoryInspect _ id => identifier (MemoryId_get id)
  | MemoryApprove _ id revision | MemoryDelete _ id revision => identifier (MemoryId_get id) /\ identifier revision
  | PersonaUpdate _ persona => persona_ok persona
  | FinalizeRecording _ s => 3 <= version /\ identifier (SessionId_get s)
  | ReconcileRecording _ s handle => 3 <= version /\ identifier (SessionId_get s) /\ handle_ok MAX_CLIENT_RECORDING_HANDLE_BYTES handle
  | ProcessText _ s instructions input schema maximum =>
      3 <= version /\ identifier (SessionId_get s) /\ is_blank instructions = false
      /\ blen instructions <= MAX_CLIENT_PROCESSING_INSTRUCTIONS_BYTES /\ is_blank input = false
      /\ blen input <= MAX_CLIENT_PROCESSING_INPUT_BYTES /\ blen schema <= MAX_CLIENT_PROCESSING_SCHEMA_BYTES
      /\ (exists v, is_object v = true /\ schema = value_to_string v)
      /\ 0 < maximum <= MAX_CLIENT_PROCESSED_OUTPUT_BYTES
  | RenewMediaLease _ => 3 <= version
  | Status _ | StopVoiceSession _ | PauseVoiceCapture _ | ResumeVoiceCapture _ | PersonaGet _ => True
  end.

(** The same of a command as it is read, before its checks. *)
Definition wire_ok (c : WireClientCommand) : Prop :=
  match c with
  | W_InterruptTurn _ _ id | W_MemoryInspect _ _ id | W_FinalizeRecording _ _ id | W_ReconcileRecording _ _ id _
  | W_AdoptClosedRecording _ _ id _ | W_MemoryList _ _ (Some id) => identifier id
  | W_AuthorizeVoiceResponse _ _ a b _ | W_SkipVoiceResponse _ _ a b _ | W_MemoryApprove _ _ a b | W_MemoryDelete _ _ a b =>
      identifier a /\ identifier b
  | W_PersonaUpdate _ _ p => Forall (fun level => 0 <= level) (persona_levels p)
  | W_ProcessText _ _ id _ _ _ maximum => identifier id /\ 0 <= maximum
  | _ => True
  end.
End Guarantee.

(** ** Reading *)

Lemma dec_value_ge n s : 0 <= n -> Forall (fun c => is_ascii_digit c = true) s -> n <= dec_value n s.
Proof.
  intros H F. revert n H. induction F as [|c s Hc F IH]; intros n H; [done|].
  unfold is_ascii_digit in Hc. breflect. unfold dec_value in *. cbn [fold_left].
  specialize (IH (n * 10 + (c - 48)) ltac:(lia)). lia.
Qed.

Lemma forallb_Forall_true {A} (p : A -> bool) l : forallb p l = true <-> Forall (fun x => p x = true) l.
Proof. rewrite forallb_forall, Forall_forall. by setoid_rewrite list_elem_of_In. Qed.

Lemma digits_nonneg s n : digits s = Some n -> 0 <= n.
Proof.
  unfold digits. destruct (negb (is_empty s) && forallb is_ascii_digit s) eqn:B; intros; simplify_eq. breflect.
  apply dec_value_ge; [lia|]. by apply forallb_Forall_true.
Qed.

Lemma parse_u64_is_u64 s n : parse_u64 s = Some n -> is_u64 n.
Proof.
  unfold parse_u64. intros E. apply bind_Some in E as (m & D & B). apply digits_nonneg in D.
  destruct (m <=? u64_max) eqn:?; simplify_eq. breflect. ints.
Qed.

(** Text whose bytes are all of an ASCII class has characters of that class. *)
Lemma utf8_forallb p s :
  (forall b, p b = true -> b < 128) -> forallb p (utf8_encode s) = true -> Forall (fun c => p c = true) s.
Proof.
  intros A. induction s as [|c s IH]; cbn; [by constructor|]. rewrite forallb_app. intros F. breflect.
  constructor; [|by apply IH]. clear IH. match goal with H : forallb p (utf8_encode_char c) = true |- _ => rename H into F end.
  unfold utf8_encode_char in F. split_ifs_in F; cbn in F; breflect; [done|..];
    match goal with H : p _ = true |- _ => apply A in H end; exfalso; Z.div_mod_to_equations; lia.
Qed.

Lemma digit_ascii b : is_ascii_digit b = true -> b < 128.
Proof. unfold is_ascii_digit. intros. breflect. lia. Qed.

Lemma canonical_identifier s n : is_canonical_identifier s = true -> parse_u64 s = Some n -> identifier n.
Proof.
  intros C E. pose proof (parse_u64_is_u64 _ _ E) as U. unfold is_canonical_identifier in C. breflect.
  match goal with F : forallb _ _ = true |- _ => apply utf8_forallb in F; [|apply digit_ascii] end.
  destruct s as [|d t]; [done|]. match goal with F : Forall _ (_ :: _) |- _ => inversion F as [|? ? D T]; subst end.
  unfold parse_u64 in E. apply bind_Some in E as (m & G & B).
  assert (digits (d :: t) = Some m) as G' by (revert G; unfold is_ascii_digit in D; breflect;
    assert (d <> 43) by lia; destruct d as [|q|q]; try done; repeat (destruct q as [q|q|]; try done)).
  unfold digits in G'. destruct (negb _ && _) in G'; simplify_eq.
  destruct (_ <=? _) in B; simplify_eq. split; [|ints]. cbn [dec_value fold_left].
  match goal with H : starts_with _ _ = false |- _ => cbn in H end.
  unfold is_ascii_digit in D. breflect.
  pose proof (dec_value_ge (0 * 10 + (d - 48)) t ltac:(lia) T). unfold dec_value in *. cbn [fold_left].
  assert (d <> 48) by (intros ->; done). lia.
Qed.

Lemma required_Some {A} f name (read : Value -> option A) a : required f name read = Some a -> exists v, read v = Some a.
Proof. unfold required. intros E. apply bind_Some in E as (v & _ & E). by exists v. Qed.

Lemma required_identifier f name n : required f name DecimalIdentifier_deserialize = Some n -> identifier n.
Proof.
  intros [v E]%required_Some. unfold DecimalIdentifier_deserialize in E. apply bind_Some in E as (s & _ & E).
  destruct (is_canonical_identifier s) eqn:C; simplify_eq. by eapply canonical_identifier.
Qed.

Lemma required_bounded f name m n : required f name (as_bounded m) = Some n -> 0 <= n.
Proof. intros [v E]%required_Some. unfold as_bounded in E. inv_branches E. done. Qed.

Lemma cursor_identifier f name n : optional f name cursor_deserialize = Some (Some n) -> identifier n.
Proof.
  unfold optional. destruct (assoc _ _) as [v|]; [|done]. intros E.
  assert (cursor_deserialize v = Some n) as D by (destruct v; simplify_eq; apply fmap_Some in E as (m & -> & ?); by simplify_eq).
  unfold cursor_deserialize in D. apply bind_Some in D as (fs & _ & D). by apply required_identifier in D.
Qed.

Lemma persona_nonneg v p : persona_deserialize v = Some p -> Forall (fun level => 0 <= level) (persona_levels p).
Proof.
  intros E. unfold persona_deserialize in E. repeat (apply bind_Some in E as (? & ? & E)). simplify_eq. cbn.
  repeat constructor; by eapply required_bounded.
Qed.

#[local] Hint Resolve required_identifier required_bounded cursor_identifier : runtime.

(** Every variant reads a command whose identifiers are non-zero. *)
Lemma variants_sound :
  Forall (fun x => forall v r f c, x.(variant_read) v r f = Some c -> wire_ok c /\ protocol_version c = v) VARIANTS.
Proof.
  repeat (apply Forall_cons; split); try apply Forall_nil; try done; intros v r f c E; cbn in E;
    repeat (apply bind_Some in E as (? & ? & E)); simplify_eq; cbn; try done; eauto with runtime.
  - match goal with |- context [match ?o with _ => _ end] => destruct o end; eauto with runtime.
  - split; [|done]. match goal with H : required _ _ persona_deserialize = _ |- _ => apply required_Some in H as [? H] end.
    by eapply persona_nonneg.
Qed.

Lemma deserialize_sound v c : WireClientCommand_deserialize v = Some c -> wire_ok c.
Proof.
  unfold WireClientCommand_deserialize. intros E. apply bind_Some in E as ([tag rest] & _ & E).
  apply bind_Some in E as (x & F & E). apply List.find_some in F as [In _].
  repeat (apply bind_Some in E as (? & _ & E)).
  pose proof variants_sound as S. rewrite Forall_forall in S. apply list_elem_of_In in In. by apply (S x In) in E as [? _].
Qed.

(** ** Checks *)

Lemma validate_request_id_Ok r u : validate_request_id r = Ok u -> request_ok r.
Proof. unfold validate_request_id. intros E. split_ifs_in E; simplify_eq. split; [|done]. by destruct r. Qed.

Lemma validate_protocol_version_Ok v u : validate_protocol_version v = Ok u -> 1 <= v <= 4.
Proof.
  unfold validate_protocol_version. destruct (_ || _) eqn:B; [|done]. intros _.
  repeat (apply orb_prop in B as [B|B]); breflect; subst; done.
Qed.

Lemma validate_timed_request_Ok v r u : validate_timed_request v r = Ok u -> v = 4 /\ request_ok r.
Proof. unfold validate_timed_request. intros E. split_ifs_in E; simplify_eq. split; [done|]. by eapply validate_request_id_Ok. Qed.

Lemma any_version_Ok v r u : any_version v r = Ok u -> 1 <= v <= 4 /\ request_ok r.
Proof.
  unfold any_version. intros (? & ?%validate_protocol_version_Ok & E)%result_bind_Ok. split; [done|]. by eapply validate_request_id_Ok.
Qed.

Lemma from_version_Ok m v r u : from_version m v r = Ok u -> m <= v /\ 1 <= v <= 4 /\ request_ok r.
Proof.
  unfold from_version. intros (? & ?%validate_protocol_version_Ok & (? & S & E)%result_bind_Ok)%result_bind_Ok.
  unfold since in S. split_ifs_in S; simplify_eq. split; [lia|]. split; [done|]. by eapply validate_request_id_Ok.
Qed.

Lemma exchange_new_Ok a b e : ConversationContextExchange_new a b = Ok e ->
  context_ok e.(user) /\ context_ok e.(assistant).
Proof.
  unfold ConversationContextExchange_new, validate_context_content. intros E. split_ifs_in E; cbn in E; simplify_eq. done.
Qed.

Lemma check_exchanges_Ok used es es' : 0 <= used <= MAX_HISTORY_BYTES -> check_exchanges used es = Ok es' ->
  zlen es' = zlen es /\ Forall (fun e => context_ok e.(user) /\ context_ok e.(assistant)) es' /\
  used + context_bytes es' <= MAX_HISTORY_BYTES.
Proof.
  revert used es'. induction es as [|e es IH]; intros used es' U E; cbn in E.
  { simplify_eq. split; [done|]. split; [done|]. cbn. lia. }
  apply result_bind_Ok in E as (x & N & E). apply result_bind_Ok in E as (used' & C & E).
  split_ifs_in E; [done|]. apply result_bind_Ok in E as (es1 & R & ?). simplify_eq.
  unfold ok_or in C. destruct (_ ≫= _) as [n|] eqn:A; simplify_eq.
  apply bind_Some in A as (m & [-> _]%checked_add_Some & [-> _]%checked_add_Some).
  pose proof (blen_nonneg x.(user)). pose proof (blen_nonneg x.(assistant)).
  apply IH in R as (L & F & B); [|lia]. rewrite !zlen_cons. split; [lia|].
  split; [constructor; [by eapply exchange_new_Ok|done]|].
  change (context_bytes (x :: es1)) with (exchange_bytes x + context_bytes es1). unfold exchange_bytes. lia.
Qed.

Lemma context_exchanges_Ok es es' : validate_context_exchanges es = Ok es' -> exchanges_ok es'.
Proof.
  unfold validate_context_exchanges. intros E. split_ifs_in E; [done|].
  apply check_exchanges_Ok in E as (L & F & B); [|done]. split; [|done].
  assert (0 < zlen es) by (destruct es; [done|rewrite zlen_cons; pose proof (zlen_nonneg es); lia]). lia.
Qed.

Lemma capability_try_from_Ok w c : capability_try_from w = Ok c -> capability_ok c.
Proof.
  unfold capability_try_from. destruct (is_canonical_identifier _) eqn:C; [|done]. cbn [negb].
  intros (n & P & (? & V & ?)%result_bind_Ok)%result_bind_Ok. simplify_eq.
  unfold ok_or in P. destruct (parse_u64 _) eqn:U; simplify_eq.
  unfold FinalizedRecordingCapability_validate in V. split_ifs_in V; simplify_eq.
  split; [done|]. by eapply canonical_identifier.
Qed.

Lemma handle_byte_ascii b : handle_byte b = true -> b < 128.
Proof. unfold handle_byte, is_ascii_lowercase, is_ascii_digit. intros [?|?]%orb_prop; breflect; lia. Qed.

Lemma hex_handle_byte b : is_lowercase_hex_byte b = true -> handle_byte b = true.
Proof. unfold is_lowercase_hex_byte, handle_byte, is_ascii_lowercase, is_ascii_digit. lia. Qed.

Lemma recording_handle_ok h : is_client_recording_handle h = true -> handle_ok MAX_CLIENT_RECORDING_HANDLE_BYTES h.
Proof.
  unfold is_client_recording_handle, is_bounded. intros. breflect. split; [by destruct h|]. split; [done|].
  apply utf8_forallb; [apply handle_byte_ascii|done].
Qed.

Lemma hex_handle_ok h : blen h = 32 -> forallb is_lowercase_hex_byte (utf8_encode h) = true -> handle_ok 32 h.
Proof.
  intros L F. split; [by intros ->|]. split; [lia|]. apply utf8_forallb; [apply handle_byte_ascii|].
  apply forallb_Forall_true. apply forallb_Forall_true in F. eapply Forall_impl; [exact F|]. apply hex_handle_byte.
Qed.

Lemma persona_state_ok p u : Forall (fun level => 0 <= level) (persona_levels p) ->
  validate_client_persona_state p = Ok u -> persona_ok p.
Proof.
  intros F. unfold validate_client_persona_state. intros E. split_ifs_in E; simplify_eq.
  split; [by destruct (conversation_mode_from_wire_name _)|]. rewrite Forall_forall in F |- *. intros l Hl.
  split; [by apply F|]. match goal with X : existsb _ _ = false |- _ => rename X into X0 end.
  destruct (Z.le_gt_cases l 100); [done|]. exfalso. rewrite <- not_true_iff_false in X0. apply X0, existsb_exists.
  exists l. split; [by apply list_elem_of_In|]. lia.
Qed.

Section Decoding.
Context `{CJ : ClientJson}.

Lemma processing_schema_Ok instructions input schema m s : 0 <= m ->
  canonical_processing_schema instructions input schema m = Ok s ->
  is_blank instructions = false /\ blen instructions <= MAX_CLIENT_PROCESSING_INSTRUCTIONS_BYTES /\ is_blank input = false
  /\ blen input <= MAX_CLIENT_PROCESSING_INPUT_BYTES /\ blen s <= MAX_CLIENT_PROCESSING_SCHEMA_BYTES
  /\ (exists v, is_object v = true /\ s = value_to_string v) /\ 0 < m <= MAX_CLIENT_PROCESSED_OUTPUT_BYTES.
Proof.
  intros M. unfold canonical_processing_schema. intros E. split_ifs_in E; simplify_eq.
  repeat split; try done; try lia. by exists schema.
Qed.

Lemma MemoryId_new_identifier n : identifier n -> exists id, MemoryId_new n = Ok id /\ MemoryId_get id = n.
Proof.
  intros I. unfold MemoryId_new, checked_id. rewrite (proj2 (Z.eqb_neq _ _)) by (unfold identifier in I; lia). by eexists.
Qed.

(** The result of decoding: no panic, and what is accepted is well-formed. *)
Definition decoded (version : Z) (r : exec (wresult ClientCommand)) : Prop :=
  exists o, r = Val o /\ forall c, o = Ok c -> 1 <= version <= 4 /\ request_ok (request_id c) /\ command_ok version c.

Lemma decoded_Val v (o : wresult ClientCommand) :
  (forall c, o = Ok c -> 1 <= v <= 4 /\ request_ok (request_id c) /\ command_ok v c) -> decoded v (Val o).
Proof. intros H. by exists o. Qed.

Lemma decoded_try {A} v (g : wresult A) k :
  (forall a, g = Ok a -> decoded v (k a)) -> decoded v (try g k).
Proof. intros H. destruct g as [a|e]; cbn; [by apply H|]. by exists (Err e). Qed.
End Decoding.

(** Take a chain of [?] apart, using what each check establishes. *)
Ltac decode_chain H :=
  repeat (lazymatch type of H with
          | result_bind _ _ = Ok _ => let E := fresh "E" in apply result_bind_Ok in H as (? & E & H)
          | (if _ then _ else _) = Ok _ => split_ifs_in H; try done
          end).

Ltac decode_facts :=
  repeat match goal with
  | H : any_version _ _ = Ok _ |- _ => apply any_version_Ok in H as [? ?]
  | H : from_version _ _ _ = Ok _ |- _ => apply from_version_Ok in H as (? & ? & ?)
  | H : validate_timed_request _ _ = Ok _ |- _ => apply validate_timed_request_Ok in H as [-> ?]
  | H : validate_protocol_version _ = Ok _ |- _ => apply validate_protocol_version_Ok in H
  | H : validate_request_id _ = Ok _ |- _ => apply validate_request_id_Ok in H
  | H : validate_context_exchanges _ = Ok _ |- _ => apply context_exchanges_Ok in H
  | H : capability_try_from _ = Ok _ |- _ => apply capability_try_from_Ok in H
  | H : is_client_recording_handle _ = true |- _ => apply recording_handle_ok in H
  | H : validate_client_persona_state _ = Ok _ |- _ => apply persona_state_ok in H; [|done]
  | H : validate_transcript _ = Ok _ |- _ => unfold validate_transcript in H; split_ifs_in H; [done|]
  | H : is_empty ?s = false |- _ => assert (s <> []) by (by destruct s); clear H
  end.

Ltac decode_done :=
  match goal with |- decoded _ (Val _) => apply decoded_Val end;
  let c := fresh "c" in let H := fresh "H" in
  intros c H; decode_chain H; simplify_eq; decode_facts; cbn [request_id command_ok protocol_version] in *;
  unfold RUNTIME_PROFILE_PROTOCOL_VERSION, CONTEXT_SEED_PROTOCOL_VERSION in *;
  (split; [lia|]); (split; [done|]).

Section Commands.
Context `{CJ : ClientJson}.

Lemma decode_start_timed_Ok make v r bridge profile mode c :
  decode_start_timed make v r bridge profile mode = Ok c ->
  exists p m, v = 4 /\ request_ok r /\ client_identifier bridge = Ok tt /\ c = make r bridge p m.
Proof.
  unfold decode_start_timed, validate_capture_identity. intros H. decode_chain H. simplify_eq. decode_facts.
  repeat match goal with u : unit |- _ => destruct u end. by eexists _, _.
Qed.

(** A non-zero identifier is a memory identifier: the [expect] holds. *)
Lemma decoded_memory v r id (make : MemoryId -> ClientCommand) :
  identifier id -> (forall m, MemoryId_get m = id -> request_id (make m) = r /\ command_ok v (make m)) ->
  decoded v (let^ _ := any_version v r in let! m := expect_ok (MemoryId_new id) in Val (Ok (make m))).
Proof.
  intros I M. apply decoded_try. intros [] [V R]%any_version_Ok. destruct (MemoryId_new_identifier id I) as (m & -> & G). cbn.
  apply decoded_Val. intros c ?. simplify_eq. destruct (M m eq_refl) as [-> ?]. done.
Qed.

Lemma decode_wire_decoded c : wire_ok c -> decoded (protocol_version c) (decode_wire_client_command c).
Proof.
  destruct c; cbn [wire_ok protocol_version decode_wire_client_command]; intros W;
    try (decode_done; try done; naive_solver).
  - apply decoded_Val. intros c (p & m & -> & ? & ? & ->)%decode_start_timed_Ok. done.
  - apply decoded_Val. intros c (p & m & -> & ? & ? & ->)%decode_start_timed_Ok. done.
  - decode_done. split; [done|]. unfold ok_or in *. destruct (parse_u64 _) eqn:P; simplify_eq. by eapply parse_u64_is_u64.
  - decode_done. match goal with B : _ && _ = false |- _ => apply andb_false_iff in B as [B|B]; breflect end; [left; lia|].
    right. destruct profile, response_mode; try done. cbn in *. by simplify_eq.
  - destruct cursor as [id|].
    + apply (decoded_memory version request_id0 id (fun m => MemoryList request_id0 (Some m))); [done|].
      intros m <-. done.
    + apply decoded_try. intros [] ?. decode_done. done.
  - apply (decoded_memory version request_id0 memory_id (MemoryInspect request_id0)); [done|]. intros m <-. done.
  - destruct W. apply (decoded_memory version request_id0 memory_id (fun m => MemoryApprove request_id0 m expected_revision)); [done|].
    intros m <-. done.
  - destruct W. apply (decoded_memory version request_id0 memory_id (fun m => MemoryDelete request_id0 m expected_revision)); [done|].
    intros m <-. done.
  - destruct W. decode_done. match goal with P : canonical_processing_schema _ _ _ _ = _ |- _ => apply processing_schema_Ok in P end; [|done].
    naive_solver.
  - decode_done. split; [done|]. split; [done|]. split; [|done]. by apply hex_handle_ok.
Qed.

(** C16. Decoding a client's command never panics, whatever the bytes: the
    identifiers the code unwraps are non-zero by the time it does. What it
    accepts fits in a frame, has a version the gateway speaks and a bounded
    request id, and is well-formed for that version: non-zero identifiers,
    bounded non-empty texts, recording handles of letters and digits only (no
    path can be smuggled in), capabilities of the right shape, and no field or
    command of a later version. *)
Theorem decoded_commands_well_formed payload :
  exists r, decode_client_command_with_version payload = Val r /\
  forall version c, r = Ok (version, c) ->
    zlen payload <= MAX_CLIENT_FRAME_BYTES /\ 1 <= version <= 4 /\ request_ok (request_id c) /\ command_ok version c.
Proof.
  unfold decode_client_command_with_version, validate_payload_size. destruct (_ <=? _) eqn:S; breflect; cbn; [|by eexists].
  destruct (from_slice payload ≫= _) as [w|] eqn:D; cbn; [|by eexists].
  apply bind_Some in D as (v & _ & W%deserialize_sound). apply decode_wire_decoded in W as (o & -> & O). cbn.
  exists (result_map (fun command => (protocol_version w, command)) o). split; [done|].
  intros version c E. destruct o as [c'|e]; cbn in E; simplify_eq. split; [done|]. by apply O.
Qed.
End Commands.
