(* ===== verification/ClientEncoding.v ===== *)
(** * What the gateway can be relied on to send

    Writing a message never panics and never exceeds the frame; each message is
    written only for the protocol versions that know it; and an error tells the
    client its kind and its stage and nothing else. *)

From S2P Require Import Prelude RustStr Bytes Errors Pcm CaptureTiming Decimals ClientTiming ProtocolQuality Privacy MemoryProtocol RecordingSafety TurnEvents Audio Chunks Recorder ClientValues ClientVoice ClientCommands MediaLease ClientWire ClientDecoding.

Local Open Scope Z_scope.

(** The versions that know a message. *)
Definition known_since (m : GatewayMessage) : Z :=
  match m with
  | M_TimedVoiceSessionStarted _ _ | M_RecordingAlignmentPage _ _ | M_RecordingAlignmentComplete _ _
  | M_ReadyV4 _ _ | M_RecordingFinalizedV4 _ _ _ => 4
  | M_RecordingFinalized _ _ | M_RecordingReconciled _ _ | M_TextProcessed _ _ | M_MediaLeaseRenewed _ _ => 3
  | M_VoiceEvent e => if is_safety_event e then 4 else if requires_authorization e then 3 else 1
  | _ => 1
  end.

Definition known_until (m : GatewayMessage) : Z :=
  match m with M_Ready _ | M_RecordingFinalized _ _ => 3 | _ => 4 end.

Definition knows (version : Z) (m : GatewayMessage) : Prop := known_since m <= version <= known_until m.

Section Encoding.
Context `{CJ : ClientJson}.

(** *** Validation *)

Lemma check_summaries_total previous records : exists r, check_summaries previous records = Val r.
Proof.
  revert previous. induction records as [|r rest IH]; intros previous; cbn; [by eexists|].
  unfold validate_memory_summary. destruct (_ || _) eqn:B; cbn; [by eexists|]. breflect.
  assert (is_some (parse_u64 (ms_id r)) = true) as I by (unfold is_wire_identifier in *; breflect; done).
  destruct (parse_u64 (ms_id r)); [|done]. cbn. destruct (is_some_and _ _); [by eexists|apply IH].
Qed.

Lemma validate_total now m v : exists r, validate_gateway_message now m v = Val r.
Proof.
  destruct m; cbn [validate_gateway_message]; try by eexists.
  unfold try. destruct (validate_request_id _); [|by eexists]. unfold validate_memory_list.
  destruct (_ <? _); [by eexists|]. destruct (check_summaries_total None records) as [r ->]. by eexists.
Qed.

Lemma only_Ok wanted v u : only wanted v = Ok u -> v = wanted.
Proof. unfold only. intros E. by split_ifs_in E. Qed.

Lemma since_Ok minimum v u : since minimum v = Ok u -> minimum <= v.
Proof. unfold since. intros E. by split_ifs_in E. Qed.

Lemma validated_known now m v u : 1 <= v <= 4 -> validate_gateway_message now m v = Val (Ok u) -> knows v m.
Proof.
  intros V E. unfold knows. destruct m; cbn [validate_gateway_message known_since known_until] in *; try done;
    injection E as E; try (apply result_bind_Ok in E as (? & E & _));
    try (apply validate_timed_request_Ok in E as [-> _]); try (apply only_Ok in E); try (apply since_Ok in E);
    unfold RUNTIME_PROFILE_PROTOCOL_VERSION, FINALIZED_RECORDING_PROTOCOL_VERSION in *; try lia.
  - split_ifs_in E; [done|]. lia.
  - split_ifs_in E; [done..|]. destruct (is_safety_event event), (requires_authorization event);
      rewrite ?andb_true_r, ?andb_false_r in *; breflect; lia.
Qed.

(** *** Envelopes *)

(** An object that carries its tag and the protocol version. *)
Definition is_envelope (version : Z) (v : Value) : Prop :=
  exists tag fields, v = V_object ((lit "type", V_string tag) :: (lit "protocol_version", V_u64 version) :: fields).

Lemma envelope_is_envelope version name fields :
  exists v, envelope version name fields = Val v /\ is_envelope version v.
Proof. eexists. split; [done|]. by eexists _, _. Qed.

Lemma voice_event_written e v : knows v (M_VoiceEvent e) -> exists w, voice_event_value e v = Some w.
Proof.
  unfold knows. cbn [known_since]. unfold voice_event_value, RUNTIME_PROFILE_PROTOCOL_VERSION. intros [K _].
  destruct e; cbn [requires_authorization is_safety_event] in *; try (split_ifs; by eexists);
    try (rewrite (proj2 (Z.leb_le _ _)) by lia; by eexists).
  destruct turn as [t|]; cbn in K; split_ifs; try by eexists. lia.
Qed.

Lemma envelope_total now m v u : 1 <= v <= 4 -> validate_gateway_message now m v = Val (Ok u) ->
  exists w, envelope_value m v = Val w /\ is_envelope v w.
Proof.
  intros V E. pose proof (validated_known _ _ _ _ V E) as K.
  destruct m; cbn [envelope_value]; try apply envelope_is_envelope.
  - destruct (voice_event_written _ _ K) as [w ->]. apply envelope_is_envelope.
  - cbn [validate_gateway_message] in E. injection E as (? & _ & E)%result_bind_Ok. apply result_bind_Ok in E as (? & _ & E).
    unfold validate_client_processed_text in E. destruct (_ || _) eqn:B in E; [done|]. breflect.
    unfold is_none in *. breflect. destruct (from_str _); [|done]. apply envelope_is_envelope.
Qed.

(** C31. Writing a gateway message never panics, for any message, clock and
    version, although the code unwraps the serialization and the output of a
    text call. What is written fits in a frame (an alignment page in its smaller
    bound), is an object with the tag and the negotiated version, and is a
    message that version knows. *)
Theorem encoded_messages_bounded_and_versioned now m version :
  exists r, encode_gateway_message_for_version now m version = Val r /\
  forall bytes, r = Ok bytes ->
    1 <= version <= 4 /\ knows version m /\ zlen bytes <= MAX_CLIENT_FRAME_BYTES /\
    (is_alignment_page m = true -> zlen bytes <= MAX_ALIGNMENT_PAGE_BYTES) /\
    exists v, bytes = to_vec v /\ is_envelope version v.
Proof.
  unfold encode_gateway_message_for_version, try. destruct (validate_protocol_version version) as [[]|e] eqn:P; [|by eexists].
  apply validate_protocol_version_Ok in P. destruct (validate_total now m version) as [r R]. rewrite R. cbn.
  destruct r as [[]|e]; [|by eexists]. destruct (envelope_total _ _ _ _ P R) as (w & -> & W). cbn.
  pose proof (validated_known _ _ _ _ P R) as K.
  destruct (is_alignment_page m && _) eqn:B; [by eexists|]. eexists. split; [done|]. intros bytes E.
  unfold validate_payload_size in E. destruct (_ <=? _) eqn:S in E; simplify_eq/=. breflect.
  split; [done|]. split; [done|]. split; [done|]. split; [|by exists w].
  intros A. rewrite A in B. cbn in B. by breflect.
Qed.

(** *** Errors *)

(** What a client is told of an error is determined by the error's kind and
    stage alone, and determines them: the text of the error, which may quote a
    provider or the user, is never sent. And every such report passes the
    validation of a rejected command and of a fatal error, at every version. *)
Theorem client_errors_content_free now r version (a b : RuntimeError) :
  request_ok r ->
  (ClientRuntimeError_from a = ClientRuntimeError_from b <-> kind a = kind b /\ stage a = stage b) /\
  validate_gateway_message now (M_CommandRejected r (ClientRuntimeError_from a)) version = Val (Ok tt) /\
  validate_gateway_message now (M_Fatal (ClientRuntimeError_from a)) version = Val (Ok tt).
Proof.
  intros [N L]. assert (validate_client_runtime_error (ClientRuntimeError_from a) = Ok tt) as E
    by (destruct a as [k s ?]; destruct k, s; vm_compute; reflexivity).
  split; [|split; cbn [validate_gateway_message]; [|by rewrite E]].
  - destruct a as [ka sa ma], b as [kb sb mb]; cbn [kind stage]. split; [|by intros [-> ->]].
    destruct ka, kb; try discriminate; destruct sa, sb; try discriminate; done.
  - unfold validate_request_id. destruct r; [done|]. rewrite (proj2 (Z.ltb_ge _ _) L). cbn. by rewrite E.
Qed.
End Encoding.

(** ** A writer of JSON

    Numbers, names and texts without characters to escape; it reads [null]. *)

Definition quoted (s : rstr) : list Z := [34] ++ utf8_encode s ++ [34].

Fixpoint comma_separated (parts : list (list Z)) : list Z :=
  match parts with
  | [] => []
  | [p] => p
  | p :: rest => p ++ [44] ++ comma_separated rest
  end.

Fixpoint print_value (v : Value) : list Z :=
  match v with
  | V_null => utf8_encode (lit "null")
  | V_bool true => utf8_encode (lit "true")
  | V_bool false => utf8_encode (lit "false")
  | V_u64 n | V_i64 n => utf8_encode (decimal n)
  | V_float text => utf8_encode text
  | V_string s => quoted s
  | V_array items => [91] ++ comma_separated (map print_value items) ++ [93]
  | V_object members => [123] ++ comma_separated (map (fun m => quoted m.1 ++ [58] ++ print_value m.2) members) ++ [125]
  end.

Definition sample_json : ClientJson :=
  {| from_slice := fun bs => if bool_decide (bs = utf8_encode (lit "null")) then Some V_null else None;
     to_vec := print_value; value_to_string := fun v => utf8_decode (print_value v) |}.

Lemma client_errors_content_free_witness :
  @validate_gateway_message sample_json None
    (M_CommandRejected (lit "r1") (ClientRuntimeError_from (RuntimeError_new Kind_Adapter Stage_Memory (lit "row 7")))) 1 = Val (Ok tt).
Proof.
  assert (Q : request_ok (lit "r1")) by (split; [done|]; vm_compute; discriminate).
  exact (proj1 (proj2 (@client_errors_content_free sample_json None (lit "r1") 1
    (RuntimeError_new Kind_Adapter Stage_Memory (lit "row 7")) (RuntimeError_new Kind_Adapter Stage_Memory (lit "row 8")) Q))).
Defined.
