(* ===== verification/RecordingReport.v ===== *)
(** * A finalized recording can always be reported

    The gateway answers a finalization with a summary of the recording, which
    the client protocol validates before it is sent. Here the two meet: whatever
    was recorded and whichever calls failed, the summary the recorder makes
    passes that validation, and the capability issued with it matches it. *)

From S2P Require Import Prelude RustStr Bytes Errors Pcm CaptureTiming Decimals ClientTiming ProtocolQuality Privacy MemoryProtocol RecordingSafety TurnEvents Audio Chunks Recorder Reader Recording RecorderInvariants ClientValues ClientVoice ClientCommands MediaLease ClientWire ClientDecoding ClientEncoding.

Local Open Scope Z_scope.

(** ** The part of a recorder a summary is made of *)

Record Core : Type := {
  c_media : MediaTimeline;
  c_timed : bool;
  c_summary : option RecordingSummary;
  c_identity : RecorderIdentity;
}.

Definition core (r : SessionRecorder) : Core :=
  {| c_media := r.(media); c_timed := is_some r.(timing_budget); c_summary := r.(status).(summary); c_identity := r.(identity) |}.

Definition path_ok (path : rstr) : Prop :=
  path <> [] /\ blen path <= MAX_CLIENT_RECORDING_PATH_BYTES /\ existsb is_control path = false.

Definition summary_ok (s : RecordingSummary) : Prop :=
  forall path, path_ok path -> validate_client_recording_summary (client_recording_summary path s) = Ok tt.

(** A gap that starts within the media so far. *)
Definition gap_ok (media_ms : Z) (g : RecordingGap) : Prop :=
  one_of RECORDING_GAP_REASONS g.(reason) = true /\ 0 <= g.(started_at_ms) <= media_ms /\
  (forall ended, g.(ended_at_ms) = Some ended -> g.(started_at_ms) <= ended).

(** The exact duration of the samples counted, gaps included. *)
Definition counted_ms (f : PcmFormat) (m : MediaTimeline) : Z :=
  m.(tl_timed_samples) * 1000 / f.(sample_rate_hz) + m.(tl_timed_gap_ms).

Record media_ok (timed : bool) (m : MediaTimeline) : Prop := {
  mo_ms : is_u64 m.(tl_media_ms);
  mo_counts : 0 <= m.(tl_timed_samples) /\ 0 <= m.(tl_timed_gap_ms);
  mo_gaps : (length m.(tl_gaps) <= MAX_RECORDING_GAPS)%nat;
  mo_shapes : Forall (gap_ok m.(tl_media_ms)) m.(tl_gaps);
  mo_none : m.(tl_format) = None -> m.(tl_media_ms) = 0;
  mo_format : forall f, m.(tl_format) = Some f -> wf_format f;
  mo_timed : timed = true -> forall f, m.(tl_format) = Some f -> m.(tl_media_ms) <= counted_ms f m;
}.

Record reportable (c : Core) : Prop := {
  rp_media : media_ok c.(c_timed) c.(c_media);
  rp_summary : forall s, c.(c_summary) = Some s -> summary_ok s;
  rp_handle : is_hex c.(c_identity).(handle) 32 = true;
  rp_key : is_hex c.(c_identity).(key_id) 16 = true;
}.

(** ** Steps on the media *)

Lemma gap_ok_later a b g : a <= b -> gap_ok a g -> gap_ok b g.
Proof. intros L (R & S & E). split_and!; try done; lia. Qed.

Lemma update_last_length f gaps : length (update_last f gaps) = length gaps.
Proof. induction gaps as [|g [|h rest] IH]; cbn in *; lia. Qed.

Lemma update_last_Forall (P Q : RecordingGap -> Prop) f gaps :
  (forall g, P g -> Q g) -> (forall g, P g -> Q (f g)) -> Forall P gaps -> Forall Q (update_last f gaps).
Proof.
  intros H1 H2. induction gaps as [|g [|h rest] IH]; intros F; [done|..]; inversion F; subst; cbn [update_last]; constructor; auto.
Qed.

Lemma open_gap_ok ms gaps : 0 <= ms -> (length gaps <= MAX_RECORDING_GAPS)%nat -> Forall (gap_ok ms) gaps ->
  (length (open_gap gaps ms) <= MAX_RECORDING_GAPS)%nat /\ Forall (gap_ok ms) (open_gap gaps ms).
Proof.
  intros M L F. unfold open_gap. destruct (bool_decide _) eqn:B; breflect.
  - rewrite length_app. cbn [length]. split; [lia|]. apply Forall_app. split; [done|]. constructor; [|done].
    split; [vm_compute; reflexivity|]. split; [cbn; lia|]. by intros ended [=].
  - rewrite update_last_length. split; [done|]. eapply update_last_Forall; [| |exact F]; [done|].
    intros g (R & S & _). split; [done|]. split; [done|]. by intros ended [=].
Qed.

Lemma media_gaps_ok timed m gaps : media_ok timed m -> (length gaps <= MAX_RECORDING_GAPS)%nat ->
  Forall (gap_ok m.(tl_media_ms)) gaps -> media_ok timed (media_gaps m gaps).
Proof. intros [] ? ?. by split. Qed.

Lemma media_format_ok timed m f : media_ok timed m -> m.(tl_format) = None -> wf_format f ->
  media_ok timed (media_format m (Some f)).
Proof.
  intros [? [? ?] ? ? N ? ?] E W. specialize (N E). split; cbn; try done; [naive_solver|].
  intros _ g ?. simplify_eq. rewrite N. unfold counted_ms. cbn.
  assert (0 <= tl_timed_samples m * 1000 / sample_rate_hz g); [|lia]. apply Z.div_pos; [lia|]. by destruct W; lia.
Qed.

Lemma media_later_ok timed m ms samples gap :
  media_ok timed m -> is_some m.(tl_format) = true -> m.(tl_media_ms) <= ms -> is_u64 ms ->
  0 <= samples -> 0 <= gap ->
  (timed = true -> forall f, m.(tl_format) = Some f -> ms <= samples * 1000 / f.(sample_rate_hz) + gap) ->
  media_ok timed {| tl_format := m.(tl_format); tl_media_ms := ms; tl_timed_samples := samples;
                    tl_timed_gap_ms := gap; tl_open_gap_at_ms := m.(tl_open_gap_at_ms); tl_gaps := m.(tl_gaps) |}.
Proof.
  intros [] S L U ? ? T. split; cbn; try done.
  - eapply Forall_impl; [done|]. intros g. by apply gap_ok_later.
  - intros E. by rewrite E in S.
Qed.

Lemma media_open_ok timed m o : media_ok timed m -> media_ok timed (media_open_gap m o).
Proof. intros []. by split. Qed.

Lemma end_gap_ok timed m : media_ok timed m ->
  media_ok timed (media_gaps m (update_last (with_end (Some m.(tl_media_ms))) m.(tl_gaps))).
Proof.
  intros O. apply media_gaps_ok; [done|rewrite update_last_length; apply O|].
  eapply update_last_Forall; [| |apply O]; [done|]. intros g (R & S & _). split; [done|]. split; [done|]. intros e [= <-]. cbn. lia.
Qed.

Lemma reportable_media r m : reportable (core r) -> media_ok (is_some r.(timing_budget)) m -> reportable (core (set_media r m)).
Proof. intros [] ?. by split. Qed.

(** ** Triples over the core *)

(** From a state whose core satisfies [P], a result [a] leaves [Q a], and an
    error leaves a reportable recorder. *)
Definition triple {A} (P : Core -> Prop) (m : M A) (Q : A -> Core -> Prop) : Prop :=
  forall s, P (core s.(rec)) ->
    match m s with
    | (Ok a, s') => Q a (core s'.(rec))
    | (Err _, s') => reportable (core s'.(rec))
    end.

(** A step that leaves the core alone. *)
Definition steady {A} (m : M A) : Prop := forall s, core (m s).2.(rec) = core s.(rec).

Lemma triple_ret {A} (a : A) (Q : A -> Core -> Prop) : triple (Q a) (ret a) Q.
Proof. by intros s. Qed.

Lemma triple_fail {A} e (Q : A -> Core -> Prop) : triple reportable (fail e) Q.
Proof. by intros s. Qed.

Lemma triple_bind {A B} P (m : M A) (f : A -> M B) R Q :
  triple P m R -> (forall a, triple (R a) (f a) Q) -> triple P (bind m f) Q.
Proof.
  intros Hm Hf s Hs. unfold bind. specialize (Hm s Hs). destruct (m s) as [[a|e] s']; [|done]. by apply Hf.
Qed.

Lemma triple_pre {A} (P P' : Core -> Prop) (m : M A) Q : (forall c, P c -> P' c) -> triple P' m Q -> triple P m Q.
Proof. intros H T s Hs. by apply T, H. Qed.

Lemma triple_steady {A} (P : Core -> Prop) (m : M A) :
  steady m -> (forall c, P c -> reportable c) -> triple P m (fun _ => P).
Proof. intros S R s Hs. specialize (S s). destruct (m s) as [[a|e] s']; cbn in S; rewrite S; auto. Qed.

Lemma triple_lift {A} (P : Core -> Prop) (r : rresult A) :
  (forall c, P c -> reportable c) -> triple P (lift r) (fun a c => P c /\ r = Ok a).
Proof. intros R s Hs. unfold lift. destruct r; auto. Qed.

Lemma triple_modify (P Q : Core -> Prop) f :
  (forall r, P (core r) -> Q (core (f r))) -> triple P (modify f) (fun _ => Q).
Proof. intros H s Hs. by apply H. Qed.

(** What was read of the core is known afterwards. *)
Lemma triple_gets {A} (P : Core -> Prop) (f : SessionRecorder -> A) (K : A -> Core -> Prop) :
  (forall r, K (f r) (core r)) -> triple P (gets f) (fun a c => P c /\ K a c).
Proof. intros E s Hs. cbn. auto. Qed.

(** *** Steady steps *)

Lemma steady_ret {A} (a : A) : steady (ret a).
Proof. done. Qed.
Lemma steady_fail {A} e : steady (@fail A e).
Proof. done. Qed.
Lemma steady_lift {A} (r : rresult A) : steady (lift r).
Proof. done. Qed.
Lemma steady_gets {A} (f : SessionRecorder -> A) : steady (gets f).
Proof. done. Qed.
Lemma steady_bind {A B} (m : M A) (f : A -> M B) : steady m -> (forall a, steady (f a)) -> steady (bind m f).
Proof.
  intros Hm Hf s. unfold bind. specialize (Hm s). destruct (m s) as [[a|e] s']; cbn in *; [|done]. by rewrite Hf.
Qed.
Lemma steady_modify f : (forall r, core (f r) = core r) -> steady (modify f).
Proof. intros H s. apply H. Qed.
Lemma steady_elapsed : steady elapsed_ms.
Proof. done. Qed.
Lemma steady_write bytes e : steady (write_file bytes e).
Proof. intros s. unfold write_file. by destruct (w_io _ _). Qed.

Section Steady.
Context `{RC : RecordingCrypto}.

Lemma steady_append record : steady (append record).
Proof.
  intros s. destruct (append_cases record s) as [| | |s' ct tv A]; try done.
  unfold core. cbn. by rewrite (ap_rec _ _ _ _ _ A).
Qed.

#[local] Hint Resolve steady_ret steady_fail steady_lift steady_gets steady_elapsed steady_write steady_append : steady.

Ltac steady := repeat first
  [ progress (eauto with steady)
  | apply steady_bind; [|intros ?]
  | apply steady_modify; intros ?; by try (unfold core; cbn)
  | match goal with |- steady (match ?x with _ => _ end) => destruct x end ].

Lemma steady_enforce f : steady (enforce_limits f).
Proof.
  unfold enforce_limits. apply steady_bind; [|intros n; steady].
  destruct f as [f|]; [|apply steady_gets]. intros s. unfold observe_frame. destruct (observe _ _ _) as [g n]. by cbn.
Qed.

(** The budget is replaced only where there is one. *)
Lemma core_set_budget r b : is_some r.(timing_budget) = true -> core (set_budget r b) = core r.
Proof. intros H. unfold core. cbn. by rewrite H. Qed.

Lemma steady_admit n : steady (admit_timing n).
Proof.
  intros s. unfold admit_timing, bind at 1, gets. destruct (timing_budget s.(rec)) as [b|] eqn:E; [|done].
  assert (is_some s.(rec).(timing_budget) = true) as B by by rewrite E. destruct (exhausted b); [done|].
  destruct (_ || _); unfold bind, modify; cbv beta iota; [|by apply core_set_budget].
  match goal with |- context [append ?rc ?s1] => pose proof (steady_append rc s1) as A; destruct (append rc s1) as [[]] end;
    cbn in *; rewrite A; by apply core_set_budget.
Qed.

#[local] Hint Resolve steady_enforce steady_admit : steady.

Lemma steady_boundary b : steady (confirm_capture_boundary b).
Proof. unfold confirm_capture_boundary. steady. Qed.

Lemma steady_close : steady close_file.
Proof. unfold close_file. steady. Qed.

Lemma steady_metadata m : steady (record_capture_metadata m).
Proof. unfold record_capture_metadata. steady. Qed.

Lemma steady_take : steady take_limit_notices.
Proof. unfold take_limit_notices. steady. Qed.

(** *** Frames and gaps *)

(** The media a closed gap leaves. *)
Lemma gap_closed_ok timed m len : media_ok timed m -> is_some m.(tl_format) = true -> 0 <= len ->
  forall gap, gap = m.(tl_timed_gap_ms) + len \/ gap = m.(tl_timed_gap_ms) /\ timed = false ->
  media_ok timed (media_ms_set (media_gap_ms m gap) (saturating_add m.(tl_media_ms) len)).
Proof.
  intros O F L gap G. apply (media_later_ok timed m); try done.
  - pose proof (mo_ms _ _ O). ints.
  - pose proof (mo_ms _ _ O). ints.
  - apply O.
  - destruct (mo_counts _ _ O). cbn. lia.
  - intros T f E. pose proof (mo_timed _ _ O T f E) as B. unfold counted_ms in B. destruct G as [->|[_ ?]]; [|congruence].
    cbn. ints.
Qed.

Lemma close_gap_triple had at_ms opened f :
  triple (fun c => reportable c /\ c.(c_media).(tl_format) = Some f)
    (close_gap had at_ms opened) (fun _ c => reportable c /\ c.(c_media).(tl_format) = Some f).
Proof.
  intros s [R F]. unfold close_gap, bind, modify, gets, lift. cbv beta iota.
  pose proof (steady_append (gap_ended_record at_ms) s) as A. destruct (append _ s) as [[[]|e] s1]; cbn [snd] in A;
    [|by rewrite A].
  rewrite <- A in R, F. clear A. destruct s1 as [r w]. cbn in R, F. cbn [rec world].
  assert (O : media_ok (is_some r.(timing_budget)) (media_open_gap r.(media) None)) by apply media_open_ok, R.
  assert (0 <= saturating_sub at_ms opened) by ints.
  destruct had; [|cbn; split; [by apply (reportable_media r), (end_gap_ok _ (media_open_gap (media r) None))|done]].
  cbn [set_media timing_budget rec world media]. destruct (is_some (timing_budget r)) eqn:B.
  - destruct (checked_add _ _) as [gap|] eqn:C; [|cbn; apply reportable_media; [done|by rewrite B]].
    apply checked_add_Some in C as [-> _]. cbn. split; [|done]. apply (reportable_media r); [done|]. rewrite B.
    refine (end_gap_ok _ _ (gap_closed_ok true (media_open_gap (media r) None) _ _ _ _ _ (or_introl eq_refl))); [done|by cbn; rewrite F|done].
  - cbn. split; [|done]. apply (reportable_media r); [done|]. rewrite B.
    refine (end_gap_ok _ _ (gap_closed_ok false (media_open_gap (media r) None) _ _ _ _ _ (or_intror (conj eq_refl eq_refl)))); [done|by cbn; rewrite F|done].
Qed.

Lemma counted_more samples gap f bytes total ms : wf_format f -> 0 <= bytes ->
  count_timed samples gap f bytes = Ok (total, ms) ->
  samples <= total /\ ms = total * 1000 / f.(sample_rate_hz) + gap /\ ms <= u64_max.
Proof.
  intros W B. unfold count_timed. destruct (frame_alignment_bytes_Ok f W) as [-> A]. cbn [or_recovery result_bind].
  intros E. apply result_bind_Ok in E as (n & C & E). unfold ok_or in C. destruct (checked_add _ _) eqn:D; simplify_eq.
  apply checked_add_Some in D as [-> _]. apply result_bind_Ok in E as (d & (_ & _ & ? & ->)%exact_media_ms_Ok & ?). simplify_eq.
  split; [|done]. assert (0 <= bytes / (channels f * bytes_per_sample (sample_format f))); [apply Z.div_pos|]; lia.
Qed.

Lemma timed_frame_ok timed m f total ms bytes : wf_format f -> 0 <= bytes ->
  media_ok timed m -> m.(tl_format) = Some f -> timed = true ->
  count_timed m.(tl_timed_samples) m.(tl_timed_gap_ms) f bytes = Ok (total, ms) ->
  media_ok timed (media_ms_set (media_samples m total) ms).
Proof.
  intros W B O F T C. destruct (counted_more _ _ _ _ _ _ W B C) as (L & -> & U). destruct (mo_counts _ _ O).
  pose proof (mo_timed _ _ O T f F) as M. unfold counted_ms in M. pose proof (mo_ms _ _ O). destruct W.
  assert (tl_timed_samples m * 1000 / sample_rate_hz f <= total * 1000 / sample_rate_hz f) by (apply Z.div_le_mono; lia).
  apply (media_later_ok timed m); try done; [by rewrite F|cbn; lia|ints|cbn; lia|].
  intros _ g E. rewrite F in E. simplify_eq. done.
Qed.

Lemma timed_frame_triple f at_ms : wf_frame f ->
  triple (fun c => (reportable c /\ c.(c_media).(tl_format) = Some f.(format)) /\ c.(c_timed) = true)
    (record_timed_frame f at_ms) (fun _ => reportable).
Proof.
  intros (W & B & _). unfold record_timed_frame. set (P := fun c => (_ /\ _) /\ _).
  assert (R : forall c, P c -> reportable c) by (intros c [[] _]; done).
  eapply triple_bind; [apply triple_steady; [apply steady_lift|exact R]|]. intros timing.
  eapply triple_bind; [apply triple_steady; [destruct (is_some timing); steady|exact R]|]. intros timing'.
  eapply triple_bind; [apply (triple_gets P _ (fun m c => m = c_media c)); done|]. intros m.
  eapply triple_bind; [apply triple_lift; intros c [? _]; by apply R|]. intros [total ms].
  eapply triple_bind; [apply triple_steady; [apply steady_append|intros c [[? _] _]; by apply R]|]. intros [].
  apply triple_modify. intros r [[[[Rr F] T] ->] C]. apply reportable_media; [done|]. cbn in F, T, C. rewrite T.
  eapply (timed_frame_ok true); [exact W| |by destruct Rr as [? _ _ _]; cbn in *; rewrite <- T|exact F|done|exact C]. lia.
Qed.

Lemma legacy_frame_triple f at_ms : wf_frame f ->
  triple (fun c => (reportable c /\ c.(c_media).(tl_format) = Some f.(format)) /\ c.(c_timed) = false)
    (append (frame_record at_ms f) ;;;
     modify (fun r => set_media r (media_ms_set r.(media) (saturating_add r.(media).(tl_media_ms) (frame_duration_ms f)))))
    (fun _ => reportable).
Proof.
  intros (W & B & _). eapply triple_bind; [apply triple_steady; [apply steady_append|by intros c [[] _]]|]. intros [].
  apply triple_modify. intros r [[Rr F] T]. apply reportable_media; [done|]. cbn in F, T.
  assert (O : media_ok (is_some (timing_budget r)) (media r)) by apply Rr. pose proof (mo_ms _ _ O). destruct (mo_counts _ _ O).
  pose proof (pcm_duration_ms_nonneg (format f) (zlen (frame_bytes f)) W ltac:(lia)) as D. fold (frame_duration_ms f) in D.
  apply (media_later_ok _ (media r)); try done; [by rewrite F|ints|ints|]. rewrite T. done.
Qed.

Lemma record_frame_triple f : wf_frame f -> triple reportable (record_frame f) (fun _ => reportable).
Proof.
  intros W. unfold record_frame. set (P := fun c => reportable c /\ c.(c_media).(tl_format) = Some f.(format)).
  assert (R : forall c, P c -> reportable c) by by intros c [].
  eapply triple_bind; [apply (triple_gets _ _ (fun a c => a = c.(c_media).(tl_format))); done|]. intros before.
  eapply triple_bind with (R := fun _ => P).
  { destruct before as [existing|].
    - destruct (bool_decide _) eqn:E; breflect; cbn [negb]; [subst|eapply triple_pre; [|apply triple_fail]; by intros c []].
      eapply triple_pre; [|apply triple_ret]. intros c [? E]. by split.
    - apply triple_modify. intros r [Rr E]. cbn in E. split; [|done]. apply reportable_media; [done|].
      apply media_format_ok; [apply Rr|done|]. by destruct W. }
  intros []. eapply triple_bind; [apply triple_steady; [apply steady_elapsed|exact R]|]. intros at_ms.
  eapply triple_bind; [apply triple_steady; [apply steady_gets|exact R]|]. intros opened.
  eapply triple_bind with (R := fun _ => P).
  { destruct opened as [opened|]; [apply close_gap_triple|apply (triple_ret tt (fun _ => P))]. }
  intros []. eapply triple_bind; [apply (triple_gets P _ (fun b c => is_some b = c.(c_timed))); done|]. intros budget.
  eapply triple_bind with (R := fun _ => reportable).
  { destruct (is_some budget); (eapply triple_pre; [|apply timed_frame_triple || apply legacy_frame_triple; done]); by intros c [? <-]. }
  intros []. apply triple_steady; [apply steady_enforce|done].
Qed.

Lemma record_gap_triple : triple reportable record_capture_gap (fun _ => reportable).
Proof.
  unfold record_capture_gap. eapply triple_bind; [apply triple_steady; [apply steady_gets|done]|]. intros opened.
  destruct (is_some opened); [apply (triple_ret tt (fun _ => reportable))|].
  eapply triple_bind; [apply triple_steady; [apply steady_elapsed|done]|]. intros at_ms.
  eapply triple_bind; [apply triple_steady; [apply steady_append|done]|]. intros [].
  eapply triple_bind with (R := fun _ => reportable).
  { apply triple_modify. intros r Rr. apply reportable_media; [done|]. apply media_open_ok, Rr. }
  intros []. eapply triple_bind with (R := fun _ => reportable); [|intros []; apply triple_steady; [apply steady_enforce|done]].
  apply triple_modify. intros r Rr. apply reportable_media; [done|].
  assert (O : media_ok (is_some (timing_budget r)) (media r)) by apply Rr.
  destruct (open_gap_ok (tl_media_ms (media r)) (tl_gaps (media r))); [pose proof (mo_ms _ _ O); ints|apply O|apply O|].
  by apply media_gaps_ok.
Qed.

Lemma mark_incomplete_reportable r : reportable (core r) -> reportable (core (mark_incomplete r)).
Proof.
  intros Rr. unfold mark_incomplete. destruct (recording_failed _); [done|].
  assert (O : media_ok (is_some (timing_budget r)) (media r)) by apply Rr.
  assert (G : gap_ok (tl_media_ms (media r)) (failure_gap (media_duration_ms r))).
  { pose proof (mo_ms _ _ O). split; [vm_compute; reflexivity|]. split; [|by intros e [=]]. cbn. unfold media_duration_ms.
    clear O; destruct (tl_format (media r)); cbn [is_some]; ints. }
  pose proof (mo_gaps _ _ O). pose proof (mo_shapes _ _ O).
  cbv zeta. set (gaps := if bool_decide _ then _ else _).
  assert (media_ok (is_some (timing_budget r)) (media_gaps (media r) gaps)) as N.
  { unfold gaps. destruct (bool_decide _) eqn:B; breflect; (apply media_gaps_ok; [done|..]).
    - rewrite length_app. cbn [length]. lia.
    - apply Forall_app. by split; [|constructor].
    - by rewrite update_last_length.
    - eapply update_last_Forall; [| |done]; done. }
  destruct Rr. by split.
Qed.
End Steady.

(** ** Summaries *)

Definition label_byte (b : Z) : bool := is_ascii_lowercase b || is_ascii_digit b || (b =? 95) || (b =? 47).

Lemma label_ascii s : forallb label_byte s = true -> utf8_encode s = s /\ blen s = zlen s.
Proof.
  intros F. assert (A : Forall (fun c => 0 <= c < 128) s).
  { apply forallb_Forall_true in F. eapply Forall_impl; [exact F|]. intros c. cbv beta.
    unfold label_byte, is_ascii_lowercase, is_ascii_digit. lia. }
  pose proof (utf8_encode_ascii s A) as E. split; [done|]. by rewrite <- utf8_encode_length, E.
Qed.

Lemma digits_label s : forallb is_ascii_digit s = true -> forallb label_byte s = true.
Proof.
  intros F. apply forallb_Forall_true. apply forallb_Forall_true in F. eapply Forall_impl; [exact F|]. intros c E. cbv beta in *.
  unfold label_byte. by rewrite E, orb_true_r.
Qed.

Lemma format_label_ok m : (forall f, m.(tl_format) = Some f -> wf_format f) ->
  is_bounded (format_label m.(tl_format)) MAX_CLIENT_RECORDING_LABEL_BYTES label_byte = true.
Proof.
  intros W. destruct (tl_format m) as [f|]; [|vm_compute; reflexivity]. specialize (W f eq_refl) as [R C].
  destruct (decimal_text (sample_rate_hz f) 10) as (D1 & L1 & _); [lia|ints|].
  destruct (decimal_text (channels f) 5) as (D2 & L2 & _); [lia|ints|].
  assert (F : forallb label_byte (format_label (Some f)) = true).
  { cbn [format_label]. rewrite !forallb_app, (digits_label _ D1), (digits_label _ D2). by destruct (sample_format f). }
  destruct (label_ascii _ F) as [E B]. unfold is_bounded. rewrite E, F, B, andb_true_r. cbn [format_label].
  rewrite !zlen_app. apply andb_true_intro. split; [by destruct (sample_format f)|].
  change (zlen (lit "/")) with 1. assert (zlen (sample_format_name (sample_format f)) = 9) as -> by (by destruct (sample_format f)).
  unfold zlen, MAX_CLIENT_RECORDING_LABEL_BYTES. lia.
Qed.

Lemma clamped_gap_valid duration ms g : 0 <= duration -> duration <= ms -> gap_ok ms g ->
  gap_valid duration {| gap_started_at_ms := Z.min g.(started_at_ms) duration;
                        gap_ended_at_ms := option_map (fun e => Z.min e duration) g.(ended_at_ms); gap_reason := g.(reason) |} = true.
Proof.
  intros D L (R & S & E). unfold gap_valid. cbn [gap_reason gap_started_at_ms gap_ended_at_ms]. rewrite R.
  destruct (ended_at_ms g) as [e|]; cbn [option_map is_none_or]; [|lia].
  specialize (E e eq_refl). lia.
Qed.

Lemma is_hex_bounded s n : 0 < n <= 128 -> is_hex s n = true ->
  is_bounded s MAX_CLIENT_RECORDING_HANDLE_BYTES handle_byte = true /\ (n <= 64 -> is_bounded s MAX_CLIENT_RECORDING_LABEL_BYTES is_lowercase_hex_byte = true).
Proof.
  intros N. unfold is_hex, is_bounded. intros. breflect.
  assert (is_empty s = false) as -> by (destruct s; [cbn in *; lia|done]).
  unfold MAX_CLIENT_RECORDING_HANDLE_BYTES. rewrite (proj2 (Z.leb_le (blen s) 128)) by lia. split.
  - cbn. apply forallb_Forall_true. eapply Forall_impl; [by apply forallb_Forall_true|]. apply hex_handle_byte.
  - intros ?. unfold MAX_CLIENT_RECORDING_LABEL_BYTES. rewrite (proj2 (Z.leb_le (blen s) 64)) by lia. done.
Qed.

Lemma lowercase_hex_is_hex bs n : Forall is_byte bs -> length bs = n -> is_hex (lowercase_hex bs) (2 * Z.of_nat n) = true.
Proof.
  intros B L. destruct (lowercase_hex_ascii bs B) as (A & F & G & _). pose proof (utf8_encode_ascii _ A) as E.
  unfold is_hex. rewrite E, F, <- utf8_encode_length, E. unfold zlen. lia.
Qed.

(** The summary of a reportable recorder passes the protocol's validation. *)
Lemma make_summary_ok r digest : reportable (core r) -> is_hex digest 64 = true -> summary_ok (make_summary r digest).
Proof.
  intros [O _ H K] D path (P1 & P2 & P3). cbn in O, H, K. unfold validate_client_recording_summary, is_client_recording_handle.
  cbn [client_recording_summary make_summary rs_recording_handle rs_encrypted_path rs_sha256 rs_format rs_key_id rs_gaps rs_duration_ms
       summary_handle summary_sha256 summary_format summary_key_id summary_gaps duration_ms].
  destruct (is_hex_bounded _ 32 ltac:(lia) H) as [-> _]. destruct (is_hex_bounded _ 16 ltac:(lia) K) as [_ ->]; [|lia].
  unfold is_hex in D. apply andb_prop in D as [D1 D2]. rewrite D1, D2, P3.
  destruct path as [|b path]; [done|]. rewrite (proj2 (Z.ltb_ge _ _) P2).
  pose proof (format_label_ok (media r) (mo_format _ _ O)) as F. unfold label_byte in F. rewrite F. cbn [negb orb is_empty].
  rewrite (proj2 (Z.ltb_ge _ _)).
  2: { unfold zlen, reported_gaps, clamped_gaps. rewrite !length_map. pose proof (mo_gaps _ _ O).
       unfold MAX_RECORDING_GAPS, MAX_CLIENT_RECORDING_GAPS in *. lia. }
  rewrite (proj2 (forallb_Forall_true _ _)); [done|]. unfold reported_gaps, clamped_gaps. rewrite map_map. apply Forall_map.
  eapply Forall_impl; [apply (mo_shapes _ _ O)|]. intros g G. cbn. pose proof (mo_ms _ _ O).
  apply (clamped_gap_valid _ (tl_media_ms (media r))); [..|done]; unfold media_duration_ms; destruct (tl_format (media r)); cbn [is_some]; ints.
Qed.

(** ** Finalization and sequences of calls *)

Section Finalize.
Context `{RC : RecordingCrypto} {L : RecordingCryptoLaws RC}.

Lemma digest_triple e : triple reportable (digest_file e) (fun digest c => reportable c /\ is_hex digest 64 = true).
Proof using L.
  unfold digest_file. eapply triple_bind; [apply triple_steady; [apply steady_write|done]|]. intros [] s R. cbn. split; [done|].
  destruct (sha256_bytes (world s).(w_file)) as [B N]. by apply (lowercase_hex_is_hex _ 32).
Qed.

Lemma extent_steady : steady admitted_recovery_extent.
Proof. intros s. unfold admitted_recovery_extent. by destruct (_ <? _). Qed.

Lemma finalize_using_triple recovery :
  triple reportable (finalize_using recovery) (fun sm c => reportable c /\ summary_ok sm).
Proof using L.
  unfold finalize_using. eapply triple_bind; [apply (triple_gets _ _ (fun a c => a = c.(c_summary))); done|]. intros [sm|].
  { eapply triple_pre; [|apply triple_ret]. intros c [R E]. split; [done|]. by apply R. }
  eapply (triple_pre _ reportable); [by intros c []|].
  eapply triple_bind; [apply triple_steady; [apply steady_close|done]|]. intros [].
  eapply triple_bind; [apply triple_steady; [apply steady_gets|done]|]. intros is_open.
  eapply triple_bind; [apply triple_steady; [destruct is_open; [apply steady_write|apply steady_ret]|done]|]. intros [].
  eapply triple_bind; [apply triple_steady; [destruct recovery; [apply extent_steady|apply steady_ret]|done]|]. intros [].
  eapply triple_bind; [apply digest_triple|]. intros digest.
  eapply triple_bind; [apply (triple_gets _ _ (fun r c => core r = c)); done|]. intros r.
  eapply triple_bind with (R := fun _ c => reportable c /\ summary_ok (make_summary r digest)).
  { apply triple_modify. intros r' [[R D] E]. split; [by destruct R|]. apply make_summary_ok; [by rewrite E|done]. }
  intros []. eapply triple_bind with (R := fun _ c => reportable c /\ summary_ok (make_summary r digest)).
  { apply triple_modify. intros r' [[O S H K] D]. split; [|done]. split; [done|by intros s [= <-]|done..]. }
  intros []. apply (triple_ret (make_summary r digest) (fun sm c => reportable c /\ summary_ok sm)).
Qed.

(** The capability issued with a summary matches it. *)
Definition matches (sm : RecordingSummary) (cap : FinalizedRecordingCapability) : Prop :=
  capability_validate cap = true /\ cap.(recording_handle) = sm.(summary_handle) /\
  cap.(cap_sha256) = sm.(summary_sha256) /\ cap.(cap_key_id) = sm.(summary_key_id).

Lemma authorize_matches session sm cap : authorize (summary_capability session sm) = Ok cap -> matches sm cap.
Proof using L.
  unfold authorize. intros (fields & F & E)%result_bind_Ok. simplify_eq. unfold capability_fields in F.
  destruct (capability_validate _) eqn:V in F; [|done]. unfold matches. cbn. split; [|done].
  unfold capability_validate in *. cbn in *. breflect. apply negb_true_iff.
  destruct (hmac_bytes fields) as [B N].
  pose proof (lowercase_hex_is_hex _ 32 B N) as A. change (2 * Z.of_nat 32) with 64 in A. rewrite A.
  repeat match goal with H : _ = _ |- _ => rewrite H end. by rewrite (proj2 (Z.eqb_neq _ _)).
Qed.

Lemma finalize_with_capability_triple :
  triple reportable finalize_with_capability (fun a c => reportable c /\ summary_ok a.1 /\ matches a.1 a.2).
Proof using L.
  unfold finalize_with_capability. eapply triple_bind; [apply triple_steady; [apply steady_gets|done]|]. intros r.
  destruct (_ || _); [apply triple_fail|].
  eapply triple_bind with (R := fun _ => reportable).
  { unfold open_recovery_source. eapply triple_bind; [apply triple_steady; [apply steady_write|done]|]. intros [].
    apply triple_steady; [apply extent_steady|done]. }
  intros []. eapply triple_bind; [apply finalize_using_triple|]. intros sm.
  eapply triple_bind; [apply triple_steady; [apply steady_gets|by intros c []]|]. intros r'.
  destruct (negb _); [eapply triple_pre; [|apply triple_fail]; by intros c []|].
  eapply triple_bind; [apply triple_lift; by intros c []|]. intros cap.
  eapply triple_pre; [|apply triple_ret]. cbn. intros c [[R S] A]. split; [done|]. split; [done|]. by eapply authorize_matches.
Qed.

(** A call with a well-formed frame, if any. *)
Definition call_ok (c : call) : Prop := match c with Call_op (Op_frame f) => wf_frame f | _ => True end.

Lemma triple_state {A} P (m : M A) (Q : A -> Core -> Prop) s : triple P m Q -> (forall a c, Q a c -> reportable c) ->
  P (core s.(rec)) -> reportable (core (m s).2.(rec)).
Proof. intros T H Hs. specialize (T s Hs). destruct (m s) as [[a|e] s']; cbn; [by eapply H|done]. Qed.

Lemma then_ret {A} (m : M A) s : (bind m (fun _ => ret tt) s).2 = (m s).2.
Proof. unfold bind. by destruct (m s) as [[a|e] s']. Qed.

Lemma do_call_reportable c s : call_ok c -> reportable (core s.(rec)) -> reportable (core (do_call c s).2.(rec)).
Proof using L.
  intros C R. destruct c as [[f| |m|b|]| | |]; cbn [do_call do_op call_ok] in *.
  - by eapply triple_state; [apply record_frame_triple| |].
  - by eapply triple_state; [apply record_gap_triple| |].
  - by rewrite steady_metadata.
  - by rewrite steady_boundary.
  - by rewrite (steady_bind _ _ steady_take (fun _ => steady_ret tt)).
  - by apply mark_incomplete_reportable.
  - rewrite then_ret. by eapply triple_state; [apply finalize_using_triple|intros ? ? []|].
  - rewrite then_ret. by eapply triple_state; [apply finalize_with_capability_triple|intros ? ? []|].
Qed.

Lemma run_calls_reportable cs s : Forall call_ok cs -> reportable (core s.(rec)) -> reportable (core (run_calls s cs).(rec)).
Proof using L.
  intros F. revert s. unfold run_calls. induction F as [|c cs C F IH]; intros s R; [done|]. cbn. by apply IH, do_call_reportable.
Qed.

Lemma start_reportable limits session dir key prefix binding timed w0 s0 :
  Forall is_byte binding -> length binding = BINDING_BYTES -> is_hex key 16 = true ->
  start limits session dir (Ok key) (Some (binding, prefix)) timed w0 = (Ok tt, Some s0) -> reportable (core s0.(rec)).
Proof.
  intros B N K. apply (start_initial (fun s => reportable (core s.(rec)))).
  { intros record s R. by rewrite steady_append. }
  intros w _ _. split; cbn; [|by intros s [=]|by apply (lowercase_hex_is_hex _ 16)|done].
  split; cbn; [ints|lia|lia|done|done|by intros f [=]|by intros _ f [=]].
Qed.

Context `{CJ : ClientJson}.

(** C22. Whatever is recorded, in whatever order and with whichever file
    operations failing, a recording that is finalized can be reported: its
    summary passes the validation of the client protocol (a hexadecimal handle,
    digest and key, a format label, at most 256 gaps of the known reasons that
    lie within the duration), and the capability issued with it passes its own
    and matches it, so the answer to the client is never refused by the
    gateway's own checks. *)
Theorem finalized_recording_reportable limits session dir key prefix binding timed w0 s0 cs path request now :
  Forall is_byte binding -> length binding = BINDING_BYTES -> is_hex key 16 = true ->
  start limits session dir (Ok key) (Some (binding, prefix)) timed w0 = (Ok tt, Some s0) ->
  Forall call_ok cs -> path_ok path -> request_ok request ->
  (forall sm s', finalize (run_calls s0 cs) = (Ok sm, s') ->
     validate_gateway_message now (M_RecordingFinalized request (client_recording_summary path sm)) 3 = Val (Ok tt)) /\
  (forall sm cap s', finalize_with_capability (run_calls s0 cs) = (Ok (sm, cap), s') ->
     validate_gateway_message now (M_RecordingFinalizedV4 request (client_recording_summary path sm) cap) 4 = Val (Ok tt)).
Proof using L.
  intros B N K S F P [Q1 Q2]. pose proof (start_reportable _ _ _ _ _ _ _ _ _ B N K S) as R.
  apply (run_calls_reportable cs) in R; [|done].
  assert (V : validate_request_id request = Ok tt) by (unfold validate_request_id; destruct request; [done|]; by rewrite (proj2 (Z.ltb_ge _ _) Q2)).
  split.
  - intros sm s' E. pose proof (finalize_using_triple false _ R) as T. unfold finalize in E. rewrite E in T. destruct T as [_ T].
    cbn [validate_gateway_message]. unfold only. cbn. by rewrite V, (T path P).
  - intros sm cap s' E. pose proof (finalize_with_capability_triple _ R) as T. rewrite E in T. destruct T as (_ & T & M1 & M2 & M3 & M4).
    cbn in T, M1, M2, M3, M4. cbn [validate_gateway_message]. unfold only. cbn. rewrite V, (T path P). cbn.
    unfold FinalizedRecordingCapability_validate. rewrite M1, M2, M3, M4. cbn. by rewrite !bool_decide_true.
Qed.
End Finalize.

(** A recording of one frame, a gap and another frame, that is finalized. *)
Definition report_calls : list call := [Call_op (Op_frame silent_frame); Call_op Op_gap; Call_op (Op_frame silent_frame)].

Lemma report_run : exists s0 sm cap s',
  sample_start false (fun _ => Io_ok) = (Ok tt, Some s0) /\
  @finalize_with_capability tag_crypto (@run_calls tag_crypto s0 report_calls) = (Ok (sm, cap), s').
Proof. do 4 eexists. split; [vm_compute; reflexivity|]. vm_compute; reflexivity. Qed.

Lemma finalized_recording_reportable_witness : exists sm cap,
  @validate_gateway_message sample_json None
    (M_RecordingFinalizedV4 (lit "r1") (client_recording_summary (lit "/recordings/one.crsr") sm) cap) 4 = Val (Ok tt).
Proof.
  destruct report_run as (s0 & sm & cap & s' & H0 & H1). exists sm, cap.
  assert (B : Forall is_byte (replicate 16 4)) by (repeat constructor; unfold is_byte; lia).
  assert (C : Forall call_ok report_calls) by (repeat constructor; apply silent_frame_ok).
  assert (P : path_ok (lit "/recordings/one.crsr")) by (split; [done|]; split; [vm_compute; discriminate|reflexivity]).
  assert (Q : request_ok (lit "r1")) by (split; [done|]; vm_compute; discriminate).
  exact (proj2 (@finalized_recording_reportable tag_crypto tag_crypto_laws sample_json RecordingLimits_default (SessionId_new 9)
    (lit "/recordings") (lit "0123456789abcdef") (replicate 8 3) (replicate 16 4) false (sample_world (fun _ => Io_ok)) s0 report_calls
    (lit "/recordings/one.crsr") (lit "r1") None B eq_refl eq_refl H0 C P Q) sm cap s' H1).
Defined.
