(* ===== verification/MemoryViews.v ===== *)
(** * Memories can be shown

    What the gateway shows a client of a memory is made from the runtime's
    record of it ([client_memory.rs]) and validated before it is sent
    ([client_wire.rs]). Every record the memory protocol can build passes that
    validation, and its preview is cut at a character boundary. *)

From Stdlib Require Import Sorted.
From S2P Require Import Prelude RustStr Bytes Errors Pcm CaptureTiming Decimals ClientTiming ProtocolQuality Privacy MemoryProtocol RecordingSafety TurnEvents Audio Chunks Recorder ClientValues ClientVoice ClientCommands MediaLease ClientWire ClientDecoding ClientEncoding.

Local Open Scope Z_scope.

(** ** What the gateway sends *)

(** [MemoryPage] and [BoundedMemoryInspection] of the memory store. *)
Record MemoryPage : Type := {
  records : list MemoryRecord;
  next_before_id : option MemoryId;
}.

Record BoundedMemoryInspection : Type := {
  inspection : MemoryInspection;
  sources_truncated : bool;
  approvals_truncated : bool;
}.

Fixpoint summaries (l : list MemoryRecord) : exec (list ClientMemorySummary) :=
  match l with
  | [] => Val []
  | r :: rest => let! s := ClientMemorySummary_from r in let! rest := summaries rest in Val (s :: rest)
  end.

(** [list_page] of the store: [table] holds the records in descending order of
    their identifiers, as the query returns them. *)
Definition list_page (table : list MemoryRecord) (before_id : option MemoryId) (limit : nat) : MemoryPage :=
  let selected := List.filter (fun r => is_none_or before_id (fun id => MemoryId_get r.(record_id) <? MemoryId_get id)) table in
  let rows := take (S limit) selected in
  let kept := take limit rows in
  {| records := kept;
     next_before_id := if (limit <? length rows)%nat then record_id <$> last kept else None |}.

(** The answers to [MemoryList] and [MemoryInspect]. *)
Definition memory_list_message (request_id : rstr) (page : MemoryPage) : exec GatewayMessage :=
  let! shown := summaries page.(records) in
  Val (M_MemoryList request_id shown (ClientMemoryCursor_from <$> page.(next_before_id))).

Definition memory_inspection_message (request_id : rstr) (bounded : BoundedMemoryInspection) : GatewayMessage :=
  let view := ClientMemoryInspection_from bounded.(inspection) in
  M_MemoryInspection request_id
    {| mi_record := view.(mi_record); mi_sources := view.(mi_sources); mi_approvals := view.(mi_approvals);
       mi_sources_truncated := bounded.(sources_truncated); mi_approvals_truncated := bounded.(approvals_truncated) |}.

(** ** Printed numbers are wire numbers *)

Lemma decimal_ascii n : 0 <= n < 10 ^ 40 -> forallb is_ascii_digit (utf8_encode (decimal n)) = true.
Proof.
  intros H. destruct (decimal_text n 40) as (D & _ & _); [lia|done|]. rewrite utf8_encode_ascii; [done|].
  apply forallb_Forall_true in D. eapply Forall_impl; [exact D|]. intros c. cbv beta. unfold is_ascii_digit. lia.
Qed.

Lemma decimal_zero : decimal 0 = lit "0".
Proof. vm_compute. reflexivity. Qed.

Lemma decimal_no_zero n : 0 < n < 10 ^ 40 ->
  is_empty (decimal n) = false /\ bool_decide (decimal n = lit "0") = false /\ starts_with (lit "0") (decimal n) = false.
Proof.
  intros (d & rest & -> & D)%decimal_head. split; [done|]. assert (d <> 48) by lia. split.
  - apply bool_decide_eq_false. change (lit "0") with [48]. congruence.
  - unfold starts_with. change (lit "0") with [48]. cbn [strip_prefix]. by rewrite (proj2 (Z.eqb_neq _ _)) by lia.
Qed.

Lemma wire_decimal n : 0 <= n < 10 ^ 40 -> is_wire_decimal (decimal n) = true.
Proof.
  intros H. unfold is_wire_decimal. rewrite decimal_ascii by done. destruct (Z.eq_dec n 0) as [->|N]; [by vm_compute|].
  destruct (decimal_no_zero n ltac:(lia)) as (-> & -> & ->). done.
Qed.

Lemma wire_identifier n : identifier n -> is_wire_identifier (decimal n) = true.
Proof.
  intros [L U]. unfold is_wire_identifier. rewrite wire_decimal, parse_u64_decimal by ints.
  destruct (decimal_no_zero n ltac:(ints)) as (_ & -> & _). done.
Qed.

Definition timestamp_ok (t : UnixTimestampMillis) : Prop := 0 <= t.(millis) <= i64_max.

Lemma wire_timestamp t : timestamp_ok t -> is_wire_timestamp (decimal t.(millis)) = true.
Proof. intros H. unfold timestamp_ok in H. unfold is_wire_timestamp. rewrite wire_decimal, parse_i64_decimal by ints. done. Qed.

Lemma wire_confidence c : 0 <= c <= 1000 -> is_wire_confidence (decimal c) = true.
Proof. intros H. unfold is_wire_confidence. rewrite wire_decimal, parse_u64_decimal by ints. cbn. lia. Qed.

(** ** Well-formed memories

    What the constructors of the memory protocol establish. *)

Definition text_ok (maximum : Z) (s : rstr) : Prop := is_blank s = false /\ blen s <= maximum.

Definition wf_provenance (p : MemoryProvenance) : Prop :=
  text_ok MAX_SOURCE_IDENTIFIER_BYTES p.(source_id) /\ text_ok MAX_ACTOR_BYTES p.(provenance_actor)
  /\ timestamp_ok p.(source_timestamp).

Definition wf_evidence (e : MemoryApprovalEvidence) : Prop :=
  text_ok MAX_CONFIRMATION_IDENTIFIER_BYTES e.(evidence_confirmation_id) /\ text_ok MAX_ACTOR_BYTES e.(evidence_actor)
  /\ timestamp_ok e.(evidence_confirmed_at) /\ identifier e.(approved_revision).

Definition wf_retention (r : MemoryRetention) : Prop :=
  match r with
  | Retention_Working e | Retention_Until e => timestamp_ok e
  | Retention_Session s => identifier (SessionId_get s)
  | Retention_UntilDeleted => True
  end.

Record wf_memory (r : MemoryRecord) : Prop := {
  wm_id : identifier (MemoryId_get r.(record_id));
  wm_content : text_ok MAX_MEMORY_CONTENT_BYTES (record_content r);
  wm_confidence : 0 <= confidence_get (record_confidence r) <= 1000;
  wm_created : timestamp_ok (record_created_at r);
  wm_updated : timestamp_ok r.(updated_at);
  wm_revision : identifier r.(revision);
  wm_retention : wf_retention (record_retention r);
  wm_used : forall t, r.(last_used_at) = Some t -> timestamp_ok t;
}.

Record wf_inspection (i : MemoryInspection) : Prop := {
  wi_record : wf_memory i.(inspected);
  wi_sources : Forall wf_provenance i.(sources);
  wi_approvals : Forall wf_evidence i.(approvals);
}.

(** ** Previews *)

Lemma floor_boundary_total content n : 0 <= n ->
  exists m, floor_boundary (Z.to_nat n) content n = Val m /\ 0 <= m <= n /\ is_some (split_at_byte m content) = true.
Proof.
  intros N. remember (Z.to_nat n) as fuel eqn:F. revert n N F. induction fuel as [|fuel IH]; intros n N F; cbn [floor_boundary].
  - assert (n = 0) as -> by lia. exists 0. by rewrite (split_at_byte_app [] content : split_at_byte 0 content = _).
  - destruct (is_some _) eqn:S; [exists n; split; [done|]; split; [lia|done]|]. destruct (IH (n - 1)) as (m & E & B & G); [lia..|]. exists m. split; [done|]. split; [lia|done].
Qed.

Lemma truncate_total content maximum : blen ELLIPSIS <= maximum ->
  exists s, truncate_utf8_with_ellipsis content maximum = Val s /\ blen s <= maximum /\
    (s = content \/ exists head tail, content = head ++ tail /\ s = head ++ ELLIPSIS).
Proof.
  intros M. unfold truncate_utf8_with_ellipsis. destruct (_ <=? _) eqn:E; breflect; [exists content; auto|].
  assert (saturating_sub maximum (blen ELLIPSIS) = maximum - blen ELLIPSIS) as -> by ints.
  destruct (floor_boundary_total content (maximum - blen ELLIPSIS) ltac:(lia)) as (m & -> & B & S). cbn [exec_bind].
  destruct (split_at_byte m content) as [[head tail]|] eqn:P; [|done]. cbn [expect exec_bind]. eexists. split; [done|].
  apply split_at_byte_sound in P as [-> ->]. rewrite blen_app. split; [lia|]. right. by exists head, tail.
Qed.

Lemma memory_preview_total content : exists s, memory_preview content = Val s /\ blen s <= MAX_MEMORY_PREVIEW_BYTES.
Proof.
  destruct (truncate_total (join (lit " ") (split_whitespace content)) MAX_MEMORY_PREVIEW_BYTES) as (s & E & B & _);
    [vm_compute; discriminate|]. by exists s.
Qed.

(** ** Views pass validation *)

Lemma MemoryKind_known k : is_memory_kind (MemoryKind_as_str k) = true.
Proof. by destruct k. Qed.
Lemma MemoryState_known s : is_memory_state (MemoryState_as_str s) = true.
Proof. by destruct s. Qed.
Lemma MemoryRetrievalReason_known r : is_memory_retrieval_reason (MemoryRetrievalReason_as_str r) = true.
Proof. by destruct r. Qed.
Lemma MemoryProvenanceKind_known k : is_provenance_kind (MemoryProvenanceKind_as_str k) = true.
Proof. by destruct k. Qed.

Lemma text_ok_not_empty m s : text_ok m s -> is_empty s = false /\ (m <? blen s) = false.
Proof. intros [B L]. split; [by destruct s|lia]. Qed.

Lemma summary_valid r : wf_memory r ->
  exists s, ClientMemorySummary_from r = Val s /\ validate_memory_summary s = Ok tt /\ s.(ms_id) = decimal (MemoryId_get r.(record_id)).
Proof.
  intros W. unfold ClientMemorySummary_from. destruct (memory_preview_total (record_content r)) as (p & -> & P). cbn [exec_bind].
  eexists. split; [done|]. split; [|done]. unfold validate_memory_summary. cbn [ms_id ms_content_preview ms_kind ms_state ms_updated_at_ms].
  rewrite (wire_identifier _ (wm_id _ W)), MemoryKind_known, MemoryState_known, (wire_timestamp _ (wm_updated _ W)).
  by rewrite (proj2 (Z.ltb_ge _ _) P).
Qed.

Lemma retention_valid r : wf_retention r -> validate_memory_retention (ClientMemoryRetention_from r) = Ok tt.
Proof.
  unfold validate_memory_retention. destruct r; cbn [wf_retention ClientMemoryRetention_from]; intros W; try done;
    by rewrite ?wire_timestamp, ?wire_identifier.
Qed.

Lemma record_valid r : wf_memory r -> validate_memory_record (ClientMemoryRecord_from r) = Ok tt.
Proof.
  intros []. unfold validate_memory_record. cbn [ClientMemoryRecord_from mr_id mr_kind mr_content mr_state mr_confidence
    mr_created_at_ms mr_updated_at_ms mr_revision mr_last_used_at_ms mr_last_retrieval_reason mr_retention].
  destruct (text_ok_not_empty _ _ wm_content0) as [-> ->].
  rewrite !wire_identifier, MemoryKind_known, MemoryState_known, wire_confidence, !wire_timestamp, retention_valid by done.
  destruct (last_used_at r) as [t|]; cbn [fmap option_fmap option_map is_some_and];
    [rewrite (wire_timestamp t) by auto|]; (destruct (last_retrieval_reason r); cbn [fmap option_fmap option_map is_some_and];
    [by rewrite MemoryRetrievalReason_known|done]).
Qed.

Lemma source_valid p : wf_provenance p -> source_invalid (ClientMemoryProvenance_from p) = false.
Proof.
  intros (S & A & T). unfold source_invalid. cbn [ClientMemoryProvenance_from mp_kind mp_source_id mp_actor mp_source_timestamp_ms].
  destruct (text_ok_not_empty _ _ S) as [-> L1], (text_ok_not_empty _ _ A) as [-> L2].
  change MAX_SOURCE_IDENTIFIER_BYTES with 512 in L1. change MAX_ACTOR_BYTES with 256 in L2. rewrite L1, L2.
  by rewrite MemoryProvenanceKind_known, wire_timestamp.
Qed.

Lemma approval_valid e : wf_evidence e -> approval_invalid (ClientMemoryApproval_from e) = false.
Proof.
  intros (S & A & T & R). unfold approval_invalid.
  cbn [ClientMemoryApproval_from ma_confirmation_id ma_actor ma_confirmed_at_ms ma_approved_revision].
  destruct (text_ok_not_empty _ _ S) as [-> L1], (text_ok_not_empty _ _ A) as [-> L2].
  change MAX_CONFIRMATION_IDENTIFIER_BYTES with 512 in L1. change MAX_ACTOR_BYTES with 256 in L2. rewrite L1, L2.
  by rewrite wire_timestamp, wire_identifier.
Qed.

(** The newest items of a history, in order. *)
Lemma from_index_tail {A} (l : list A) n : 0 <= n ->
  let start := saturating_sub (zlen l) n in
  exists older, l = older ++ from_index start l /\ zlen (from_index start l) <= n /\ (older = [] \/ zlen (from_index start l) = n).
Proof.
  intros N start. exists (take (Z.to_nat start) l). unfold from_index. rewrite take_drop. split; [done|]. unfold zlen. rewrite length_drop.
  subst start. unfold zlen. split; [ints|]. destruct (Z.le_gt_cases (Z.of_nat (length l)) n); [left|right; ints].
  by replace (Z.to_nat (saturating_sub (Z.of_nat (length l)) n)) with 0%nat by ints.
Qed.

Lemma existsb_map_false {A B} (f : A -> B) (p : B -> bool) l : Forall (fun x => p (f x) = false) l -> existsb p (map f l) = false.
Proof. induction 1 as [|x l H F IH]; cbn; [done|]. by rewrite H. Qed.

Lemma from_index_Forall {A} (P : A -> Prop) n l : Forall P l -> Forall P (from_index n l).
Proof. unfold from_index. apply Forall_drop. Qed.

(** ** Pages *)

Definition id_of (r : MemoryRecord) : Z := MemoryId_get r.(record_id).
Definition descending (l : list MemoryRecord) : Prop := StronglySorted (fun a b => id_of b < id_of a) l.

Lemma descending_app a b : descending (a ++ b) -> descending a /\ descending b /\ Forall (fun x => Forall (fun y => id_of y < id_of x) b) a.
Proof.
  unfold descending. induction a as [|x a IH]; cbn; [by split; [constructor|]|]. intros S. inversion S as [|? ? S' F]; subst.
  apply IH in S' as (A & B & C). apply Forall_app in F as [F1 F2]. split; [by constructor|]. split; [done|]. by constructor.
Qed.

Lemma filter_all {A} (p : A -> bool) l : Forall (fun x => p x = true) l -> List.filter p l = l.
Proof. induction 1 as [|x l H F IH]; cbn; [done|]. by rewrite H, IH. Qed.
Lemma filter_none {A} (p : A -> bool) l : Forall (fun x => p x = false) l -> List.filter p l = [].
Proof. induction 1 as [|x l H F IH]; cbn; [done|]. by rewrite H. Qed.

(** The records before [x] are those listed after it. *)
Lemma filter_before a x b : descending (a ++ x :: b) -> List.filter (fun r => id_of r <? id_of x) (a ++ x :: b) = b.
Proof.
  intros D. apply descending_app in D as (_ & D & F). inversion D as [|? ? D' G]; subst.
  rewrite List.filter_app, filter_none.
  - cbn. rewrite Z.ltb_irrefl. apply filter_all. eapply Forall_impl; [exact G|]. cbn. intros. lia.
  - eapply Forall_impl; [exact F|]. intros y H. inversion H; subst. cbv beta in *. lia.
Qed.

(** The page that starts after [older]. *)
Definition resumes (table older rest : list MemoryRecord) (before : option MemoryId) : Prop :=
  table = older ++ rest /\ match before with None => older = [] | Some id => record_id <$> last older = Some id end.

Lemma selected_rest table older rest before : descending table -> resumes table older rest before ->
  List.filter (fun r => is_none_or before (fun id => MemoryId_get r.(record_id) <? MemoryId_get id)) table = rest.
Proof.
  intros D [-> B]. destruct before as [id|].
  - apply fmap_Some in B as (x & L & ->). apply last_Some in L as [older' ->]. rewrite <- app_assoc in *. cbn in *. by apply filter_before.
  - subst. cbn. apply filter_all. by apply Forall_true.
Qed.

Lemma list_page_spec table older rest before limit : descending table -> resumes table older rest before ->
  list_page table before limit =
    {| records := take limit rest; next_before_id := if (limit <? length rest)%nat then record_id <$> last (take limit rest) else None |}.
Proof.
  intros D R. unfold list_page. rewrite (selected_rest _ _ _ _ D R), take_take. replace (limit `min` S limit)%nat with limit by lia.
  f_equal. rewrite length_take. destruct (limit <? length rest)%nat eqn:E; [apply Nat.ltb_lt in E|apply Nat.ltb_ge in E].
  - by rewrite (proj2 (Nat.ltb_lt _ _)) by lia.
  - by rewrite (proj2 (Nat.ltb_ge _ _)) by lia.
Qed.

(** A client that follows the cursors. *)
Fixpoint walk_pages (fuel : nat) (table : list MemoryRecord) (limit : nat) (before : option MemoryId) : list MemoryRecord :=
  match fuel with
  | O => []
  | S fuel =>
      let page := list_page table before limit in
      page.(records) ++ match page.(next_before_id) with
                        | Some id => walk_pages fuel table limit (Some id)
                        | None => []
                        end
  end.

Lemma walk_from fuel table limit older rest before : descending table -> (0 < limit)%nat -> (length rest < fuel)%nat ->
  resumes table older rest before -> walk_pages fuel table limit before = rest.
Proof.
  intros D L. revert older rest before. induction fuel as [|fuel IH]; intros older rest before F R; [lia|].
  cbn [walk_pages]. rewrite (list_page_spec _ _ _ _ _ D R). cbn [records next_before_id].
  destruct (limit <? length rest)%nat eqn:E; [apply Nat.ltb_lt in E|apply Nat.ltb_ge in E; by rewrite app_nil_r, take_ge].
  destruct (last (take limit rest)) as [x|] eqn:X.
  2: { apply last_None in X. apply (f_equal length) in X. rewrite length_take in X. cbn in X. lia. }
  cbn [fmap option_fmap option_map]. rewrite (IH (older ++ take limit rest) (drop limit rest)); [by rewrite take_drop|..].
  - rewrite length_drop. lia.
  - destruct R as [-> _]. split; [by rewrite <- app_assoc, take_drop|]. by rewrite last_app, X.
Qed.

(** A client that follows the cursors sees every memory, once, in order:
    with any page size and a table that does not change meanwhile, the pages
    concatenate to the table, and one page per record is enough to end. *)
Theorem memory_pages_cover_table table limit : descending table -> (0 < limit)%nat ->
  walk_pages (S (length table)) table limit None = table.
Proof. intros D L. apply (walk_from _ _ _ []); [done|done|lia|done]. Qed.

Lemma summaries_valid l : Forall wf_memory l -> exists shown, summaries l = Val shown /\
  Forall2 (fun r s => validate_memory_summary s = Ok tt /\ s.(ms_id) = decimal (id_of r)) l shown.
Proof.
  induction 1 as [|r l W F IH]; [by exists []|]. destruct (summary_valid r W) as (s & E & V). destruct IH as (shown & E' & G).
  exists (s :: shown). cbn. rewrite E, E'. cbn. split; [done|]. by constructor.
Qed.

Lemma check_summaries_descending l shown previous : Forall wf_memory l -> descending l ->
  Forall2 (fun r s => validate_memory_summary s = Ok tt /\ s.(ms_id) = decimal (id_of r)) l shown ->
  (forall p, previous = Some p -> Forall (fun r => id_of r < p) l) ->
  check_summaries previous shown = Val (Ok tt).
Proof.
  intros W D F. revert previous. induction F as [|r s l shown [V I] F IH]; intros previous P; [done|].
  inversion W; subst. inversion D; subst. cbn [check_summaries try]. rewrite V. cbn [try]. rewrite I, parse_u64_decimal.
  2: { destruct (wm_id r ltac:(done)). unfold id_of. ints. }
  cbn [expect exec_bind]. assert (is_some_and previous (fun p => p <=? id_of r) = false) as ->.
  { destruct previous as [p|]; [|done]. specialize (P p eq_refl). inversion P; subst. cbn. lia. }
  apply IH; [done|done|]. by intros p [= <-].
Qed.

Lemma history_bounded {A B} (f : A -> B) l : 0 <= MAX_MEMORY_INSPECTION_HISTORY_ITEMS ->
  (MAX_MEMORY_INSPECTION_HISTORY_ITEMS <? zlen (map f (from_index (saturating_sub (zlen l) MAX_MEMORY_INSPECTION_HISTORY_ITEMS) l))) = false.
Proof.
  intros N. destruct (from_index_tail l _ N) as (older & _ & K & _). unfold zlen in K |- *. rewrite length_map. lia.
Qed.

Lemma inspection_valid i st at' : wf_inspection i ->
  validate_memory_inspection
    {| mi_record := (ClientMemoryInspection_from i).(mi_record); mi_sources := (ClientMemoryInspection_from i).(mi_sources);
       mi_approvals := (ClientMemoryInspection_from i).(mi_approvals); mi_sources_truncated := st; mi_approvals_truncated := at' |} = Ok tt.
Proof.
  intros [Wr Ws Wa]. unfold validate_memory_inspection. cbn [mi_sources mi_approvals mi_record ClientMemoryInspection_from].
  rewrite !history_bounded by done. cbn [orb]. rewrite (record_valid _ Wr). cbn [result_bind].
  rewrite !existsb_map_false; [done|..].
  - apply from_index_Forall. eapply Forall_impl; [exact Wa|]. apply approval_valid.
  - apply from_index_Forall. eapply Forall_impl; [exact Ws|]. apply source_valid.
Qed.

Lemma Forall2_last {A B} (P : A -> B -> Prop) l k x : Forall2 P l k -> last l = Some x -> exists y, last k = Some y /\ P x y.
Proof.
  intros F [l' ->]%last_Some. apply Forall2_app_inv_l in F as (k1 & k2 & _ & F2 & ->). inversion F2 as [|? y ? k3 Py F3]; subst.
  inversion F3; subst. exists y. by rewrite last_snoc.
Qed.

Lemma page_valid table before limit older rest : Forall wf_memory table -> descending table -> resumes table older rest before ->
  (0 < limit <= 50)%nat ->
  exists shown, summaries (records (list_page table before limit)) = Val shown /\
    validate_memory_list shown (ClientMemoryCursor_from <$> next_before_id (list_page table before limit)) = Val (Ok tt).
Proof.
  intros W D R L. rewrite (list_page_spec _ _ _ _ _ D R). cbn [records next_before_id]. destruct R as [-> _].
  apply Forall_app in W as [_ W]. apply descending_app in D as (_ & D & _). rewrite <- (take_drop limit rest) in W, D.
  apply Forall_app in W as [W _]. apply descending_app in D as (D & _ & _).
  destruct (summaries_valid _ W) as (shown & E & F). exists shown. split; [done|]. unfold validate_memory_list.
  assert (length shown = length (take limit rest)) as N by (symmetry; by eapply Forall2_length).
  rewrite (proj2 (Z.ltb_ge _ _)) by (unfold zlen, MAX_MEMORY_LIST_PAGE_ITEMS; rewrite N, length_take; lia).
  rewrite (check_summaries_descending _ _ None W D F) by done. cbn [exec_bind result_bind].
  destruct (limit <? length rest)%nat eqn:B; [|done]. destruct (last (take limit rest)) as [x|] eqn:X; [|done].
  destruct (Forall2_last _ _ _ _ F X) as (y & -> & _ & I). cbn [fmap option_fmap option_map ClientMemoryCursor_from before_id is_none_or].
  rewrite I. fold (id_of x). apply last_Some in X as [l' X]. rewrite X in W. apply Forall_app in W as [_ W]. inversion W; subst.
  by rewrite wire_identifier, bool_decide_true by (done || by apply wm_id).
Qed.

(** Whatever memories the store holds, the gateway's answers about them
    pass the protocol's own validation: an inspection with any history (of which
    the newest 32 sources and approvals are shown, in order), and every page of
    a listing, with the cursor to the next. Building them never panics, however
    the content is cut for its preview. *)
Theorem memory_answers_valid `{CJ : ClientJson} now request version bounded table before limit older rest :
  request_ok request -> wf_inspection bounded.(inspection) ->
  Forall wf_memory table -> descending table -> resumes table older rest before -> (0 < limit <= 50)%nat ->
  validate_gateway_message now (memory_inspection_message request bounded) version = Val (Ok tt) /\
  exists m, memory_list_message request (list_page table before limit) = Val m /\
    validate_gateway_message now m version = Val (Ok tt).
Proof.
  intros [Q1 Q2] I W D R L.
  assert (V : validate_request_id request = Ok tt) by (unfold validate_request_id; destruct request; [done|]; by rewrite (proj2 (Z.ltb_ge _ _) Q2)).
  split.
  - cbn [memory_inspection_message validate_gateway_message]. rewrite V. cbn [result_bind]. by rewrite inspection_valid.
  - unfold memory_list_message. destruct (page_valid table before limit older rest W D R L) as (shown & -> & P). cbn [exec_bind].
    eexists. split; [done|]. cbn [validate_gateway_message try]. by rewrite V.
Qed.

(** ** An instance *)

Definition sample_source : MemoryProvenance :=
  {| provenance_kind := UserProvided; source_id := lit "turn-1"; source_timestamp := UnixTimestampMillis_raw 10;
     provenance_actor := lit "user"; provenance_digest := None |}.

Definition sample_memory (id : Z) : MemoryRecord :=
  {| record_id := MemoryId_raw id;
     record_draft := {| draft_kind := Semantic; draft_content := lit "likes  tea"; draft_provenance := sample_source;
                        draft_confidence := MemoryConfidence_raw 900; draft_created_at := UnixTimestampMillis_raw 20;
                        draft_retention := Retention_UntilDeleted; draft_subject := PersonId_OWNER |};
     record_state := State_Active; updated_at := UnixTimestampMillis_raw 30; pinned := false; revision := 1;
     approval := None; last_used_at := Some (UnixTimestampMillis_raw 40); last_retrieval_reason := None |}.

Definition sample_bounded : BoundedMemoryInspection :=
  {| inspection := {| inspected := sample_memory 7; sources := [sample_source]; approvals := [] |};
     sources_truncated := false; approvals_truncated := false |}.

Definition sample_table : list MemoryRecord := [sample_memory 7; sample_memory 5; sample_memory 2].

Lemma sample_source_wf : wf_provenance sample_source.
Proof. repeat split; vm_compute; discriminate. Qed.

Lemma small_timestamp n : 0 <= n <= 100 -> timestamp_ok (UnixTimestampMillis_raw n).
Proof. unfold timestamp_ok. cbn. ints. Qed.

Lemma sample_memory_wf id : identifier id -> wf_memory (sample_memory id).
Proof.
  intros I. split.
  - done.
  - split; [reflexivity|vm_compute; discriminate].
  - cbn. lia.
  - apply small_timestamp. lia.
  - apply small_timestamp. lia.
  - cbn. unfold identifier. ints.
  - done.
  - intros t [= <-]. apply small_timestamp. lia.
Qed.

Lemma sample_table_wf : Forall wf_memory sample_table.
Proof. repeat apply Forall_cons_2; try apply sample_memory_wf; try (unfold identifier; ints). constructor. Qed.

Lemma sample_table_descending : descending sample_table.
Proof. repeat constructor. Qed.

Lemma memory_pages_cover_table_witness : walk_pages 4 sample_table 2 None = sample_table.
Proof. exact (memory_pages_cover_table sample_table 2 sample_table_descending (le_S 1 1 (le_n 1))). Defined.

Lemma memory_answers_valid_witness :
  @validate_gateway_message sample_json None (memory_inspection_message (lit "r1") sample_bounded) 1 = Val (Ok tt).
Proof.
  assert (Q : request_ok (lit "r1")) by (split; [done|]; vm_compute; discriminate).
  assert (I : wf_inspection sample_bounded.(inspection)).
  { split; [apply sample_memory_wf; unfold identifier; ints|apply Forall_singleton, sample_source_wf|constructor]. }
  assert (L : (0 < 2 <= 50)%nat) by lia.
  exact (proj1 (@memory_answers_valid sample_json None (lit "r1") 1 sample_bounded sample_table None 2 [] sample_table
    Q I sample_table_wf sample_table_descending (conj eq_refl eq_refl) L)).
Defined.
