(* ===== verification/WavPcm.v ===== *)
(** * Encoded audio and its PCM frames

    [crates/model-adapters/src/speech.rs]: the containers a synthesizer may
    answer with and their validation; [wav_pcm.rs]: the decoder that cuts a WAV
    file into frames of twenty milliseconds for streaming playback. Slices are
    lists of bytes, offsets are [usize] values. *)

From S2P Require Import Prelude RustStr Bytes Errors Pcm CaptureTiming Audio.

Local Open Scope Z_scope.

Definition aresult (A : Type) : Type := result A AdapterError.

(** [r?] in a function that may also panic or run out of fuel. *)
Definition attempt {A B} (r : aresult A) (k : A -> exec (aresult B)) : exec (aresult B) :=
  match r with Ok a => k a | Err e => Val (Err e) end.
Notation "'let~' x := r 'in' k" := (attempt r (fun x => k)) (at level 10, x binder, r at level 100, k at level 200) : rust_scope.

(** ** Slices *)

(** [bytes.get(from..to)]. *)
Definition get_range (from to : Z) (bs : list Z) : option (list Z) :=
  if (0 <=? from) && (from <=? to) && (to <=? zlen bs) then Some (slice (Z.to_nat from) (Z.to_nat to) bs) else None.

(** [from_le_bytes]. *)
Definition le_value (bs : list Z) : Z := be_value (rev bs).

(** [<[u8; n]>::try_from] and [from_le_bytes] or [from_be_bytes]. *)
Definition read_le (e : AdapterError) (n : nat) (bs : list Z) : aresult Z :=
  if bool_decide (length bs = n) then Ok (le_value bs) else Err e.
Definition read_be (e : AdapterError) (n : nat) (bs : list Z) : aresult Z :=
  if bool_decide (length bs = n) then Ok (be_value bs) else Err e.

(** ** Walking the chunks of a container *)

Section Walk.
Context (e : AdapterError) (read_size : list Z -> aresult Z).

(** One turn of the loop: the identifier, the body and the next offset. *)
Definition chunk_at (bytes : list Z) (offset : Z) : aresult (list Z * list Z * Z) :=
  let? header_end := ok_or (checked_add offset 8) e in
  let? header := ok_or (get_range offset header_end bytes) e in
  let? size := read_size (slice 4 8 header) in
  let? body_end := ok_or (checked_add header_end size) e in
  let? next_offset := ok_or (checked_add body_end ((body_end - header_end) mod 2)) e in
  let? body := ok_or (get_range header_end body_end bytes) e in
  let? _ := ok_or (get_range body_end next_offset bytes) e in
  Ok (slice 0 4 header, body, next_offset).

Fixpoint walk_loop {S} (fuel : nat) (visit : list Z -> list Z -> S -> aresult S) (bytes : list Z) (offset : Z) (s : S)
  : exec (aresult S) :=
  if zlen bytes <=? offset then Val (Ok s)
  else match fuel with
       | O => Fuel_out
       | S fuel =>
           let~ '(chunk_id, body, next_offset) := chunk_at bytes offset in
           let~ s := visit chunk_id body s in
           walk_loop fuel visit bytes next_offset s
       end.

(** A chunk takes eight bytes or more, so the length is fuel enough. *)
Definition walk_chunks {S} (visit : list Z -> list Z -> S -> aresult S) (bytes : list Z) (s : S) : exec (aresult S) :=
  walk_loop (length bytes) visit bytes 12 s.
End Walk.

(** ** Containers *)

Inductive AudioFormat : Type :=
| Aiff
| Wav.

Record SynthesizedAudio : Type := {
  audio_bytes : list Z;
  audio_format : AudioFormat;
  audio_sample_rate_hz : option Z;
  audio_channels : option Z;
}.

Definition SynthesizedAudio_new (bytes : list Z) (format : AudioFormat) : SynthesizedAudio :=
  {| audio_bytes := bytes; audio_format := format; audio_sample_rate_hz := None; audio_channels := None |}.

Definition invalid_container_error : AdapterError :=
  AdapterError_new (lit "synthesized audio was not a valid encoded container").

Definition ascii (s : String.string) : list Z := utf8_encode (lit s).
Arguments ascii s%_string_scope.

(** [read(&bytes\[4..8\])?.checked_add(8).filter(|size| *size == bytes.len())]. *)
Definition declares_its_size (read_size : list Z -> aresult Z) (e : AdapterError) (bytes : list Z) : aresult unit :=
  let? declared := read_size (slice 4 8 bytes) in
  if is_some_and (checked_add declared 8) (fun size => size =? zlen bytes) then Ok tt else Err e.

Definition visit_wav (chunk_id body : list Z) (s : bool * bool) : aresult (bool * bool) :=
  let '(has_format, has_data) := s in
  if bool_decide (chunk_id = ascii "fmt ") then
    if 16 <=? zlen body then Ok (true, has_data) else Err invalid_container_error
  else if bool_decide (chunk_id = ascii "data") && negb (is_empty body) then Ok (has_format, true)
  else Ok s.

Definition validate_wav (bytes : list Z) : exec (aresult unit) :=
  if (zlen bytes <? 12) || negb (bool_decide (slice 0 4 bytes = ascii "RIFF")) || negb (bool_decide (slice 8 12 bytes = ascii "WAVE"))
  then Val (Err invalid_container_error)
  else
    let~ _ := declares_its_size (read_le invalid_container_error 4) invalid_container_error bytes in
    let! r := walk_chunks invalid_container_error (read_le invalid_container_error 4) visit_wav bytes (false, false) in
    Val (let? '(has_format, has_data) := r in
         if has_format && has_data then Ok tt else Err invalid_container_error).

Definition visit_aiff (minimum_comm_size : Z) (chunk_id body : list Z) (s : bool * bool) : aresult (bool * bool) :=
  let '(has_comm, has_ssnd) := s in
  if bool_decide (chunk_id = ascii "COMM") then
    if minimum_comm_size <=? zlen body then Ok (true, has_ssnd) else Err invalid_container_error
  else if bool_decide (chunk_id = ascii "SSND") then
    let? head := ok_or (get_range 0 4 body) invalid_container_error in
    let? offset := read_be invalid_container_error 4 head in
    let? sound_data_start := match checked_add 8 offset with
      | Some start => if start <? zlen body then Ok start else Err invalid_container_error
      | None => Err invalid_container_error
      end in
    if is_none (get_range 4 8 body) || is_none (get_range sound_data_start (zlen body) body) then Err invalid_container_error
    else Ok (has_comm, true)
  else Ok s.

Definition validate_aiff (bytes : list Z) : exec (aresult unit) :=
  if (zlen bytes <? 12) || negb (bool_decide (slice 0 4 bytes = ascii "FORM")) then Val (Err invalid_container_error)
  else
    let form_type := slice 8 12 bytes in
    let~ minimum_comm_size :=
      (if bool_decide (form_type = ascii "AIFF") then Ok 18
       else if bool_decide (form_type = ascii "AIFC") then Ok 22
       else Err invalid_container_error) in
    let~ _ := declares_its_size (read_be invalid_container_error 4) invalid_container_error bytes in
    let! r := walk_chunks invalid_container_error (read_be invalid_container_error 4) (visit_aiff minimum_comm_size) bytes (false, false) in
    Val (let? '(has_comm, has_ssnd) := r in
         if has_comm && has_ssnd then Ok tt else Err invalid_container_error).

Definition audio_validate (a : SynthesizedAudio) : exec (aresult unit) :=
  match a.(audio_format) with
  | Aiff => validate_aiff a.(audio_bytes)
  | Wav => validate_wav a.(audio_bytes)
  end.

(** ** The decoder *)

Definition DEFAULT_MAX_AUDIO_BYTES : Z := 16 * 1024 * 1024.
Definition FRAME_DURATION_MILLISECONDS : Z := 20.
Definition MILLISECONDS_PER_SECOND : Z := 1000.

Definition invalid_wav_error : AdapterError := AdapterError_new (lit "WAV audio was malformed for R3 PCM streaming").
Definition wav_limit_error : AdapterError := AdapterError_new (lit "WAV audio exceeded the configured limit").

Definition read_u16_le : list Z -> aresult Z := read_le invalid_wav_error 2.
Definition read_u32_le : list Z -> aresult Z := read_le invalid_wav_error 4.

Definition parse_format (bytes : list Z) : aresult PcmFormat :=
  let? header := ok_or (get_range 0 16 bytes) invalid_wav_error in
  let? audio_format := read_u16_le (slice 0 2 header) in
  let? channels := read_u16_le (slice 2 4 header) in
  let? sample_rate_hz := read_u32_le (slice 4 8 header) in
  let? byte_rate := read_u32_le (slice 8 12 header) in
  let? block_align := read_u16_le (slice 12 14 header) in
  let? bits_per_sample := read_u16_le (slice 14 16 header) in
  if negb (audio_format =? 1) || negb (bits_per_sample =? 16) || negb ((1 <=? channels) && (channels <=? 2))
  then Err (AdapterError_new (lit "WAV PCM format is unsupported for R3 streaming"))
  else
    let? format := PcmFormat_new sample_rate_hz channels Signed16LittleEndian in
    let? alignment := frame_alignment_bytes format in
    let? expected_block_align := if alignment <=? u16_max then Ok alignment else Err invalid_wav_error in
    let? expected_byte_rate :=
      if sample_rate_hz * expected_block_align <=? u32_max then Ok (sample_rate_hz * expected_block_align) else Err invalid_wav_error in
    if negb (block_align =? expected_block_align) || negb (byte_rate =? expected_byte_rate) then Err invalid_wav_error
    else Ok format.

Definition frame_sample_numerator (f : PcmFormat) : aresult Z :=
  ok_or (checked_mul f.(sample_rate_hz) FRAME_DURATION_MILLISECONDS) invalid_wav_error.

Definition validate_largest_frame (f : PcmFormat) (numerator : Z) : aresult unit :=
  let? total := ok_or (checked_add numerator (MILLISECONDS_PER_SECOND - 1)) invalid_wav_error in
  let largest_sample_count := total / MILLISECONDS_PER_SECOND in
  let? alignment := frame_alignment_bytes f in
  match checked_mul largest_sample_count alignment with
  | Some size => if (0 <? size) && (size <=? MAX_PCM_FRAME_BYTES) then Ok tt
                 else Err (AdapterError_new (lit "WAV PCM frame size is unsupported for R3 streaming"))
  | None => Err (AdapterError_new (lit "WAV PCM frame size is unsupported for R3 streaming"))
  end.

(** [(n + numerator - 1) / numerator] of [n] milliseconds; a division by zero
    panics. *)
Definition ceil_slots (n numerator : Z) : exec (option Z) :=
  match checked_mul n MILLISECONDS_PER_SECOND with
  | None => Val None
  | Some value =>
      match checked_add value (numerator - 1) with
      | None => Val None
      | Some value => if numerator =? 0 then Panics else Val (Some (value / numerator))
      end
  end.

Definition frame_count_upper_bound (sample_count numerator : Z) : exec (aresult Z) :=
  let! count := ceil_slots sample_count numerator in
  Val (let? frame_count := ok_or count invalid_wav_error in Ok (Z.min frame_count sample_count)).

Definition sample_boundary (frame_slot numerator : Z) : aresult Z :=
  ok_or ((fun value => value / MILLISECONDS_PER_SECOND) <$> checked_mul frame_slot numerator) invalid_wav_error.

Definition next_frame_slot (previous numerator : Z) : exec (aresult Z) :=
  match checked_add previous 1 with
  | None => Val (Err invalid_wav_error)
  | Some value =>
      let! slot := ceil_slots value numerator in
      Val (match slot with Some slot => if 0 <? slot then Ok slot else Err invalid_wav_error | None => Err invalid_wav_error end)
  end.

Definition byte_offset (sample_count alignment : Z) : aresult Z := ok_or (checked_mul sample_count alignment) invalid_wav_error.

Section Decoder.
(** [check] by the number of earlier calls, and [size_of::<AudioFrame>()]. *)
Context (check : nat -> aresult unit) (frame_size : Z).

(** [check()?], counting the call. *)
Definition checked (calls : nat) : aresult nat := let? _ := check calls in Ok (S calls).

Definition visit_parse (max_audio_bytes : Z) (chunk_id body : list Z) (s : option PcmFormat * Z * nat)
  : aresult (option PcmFormat * Z * nat) :=
  let '(format, data_bytes, calls) := s in
  let? calls := checked calls in
  if bool_decide (chunk_id = ascii "fmt ") then
    let? next_format := parse_format body in
    if is_some_and format (fun previous => negb (bool_decide (previous = next_format)))
    then Err (AdapterError_new (lit "WAV PCM format changed between chunks"))
    else Ok (Some next_format, data_bytes, calls)
  else if bool_decide (chunk_id = ascii "data") then
    match checked_add data_bytes (zlen body) with
    | Some size => if size <=? max_audio_bytes then Ok (format, size, calls) else Err wav_limit_error
    | None => Err wav_limit_error
    end
  else Ok (format, data_bytes, calls).

Definition parse_wav (bytes : list Z) (max_audio_bytes : Z) (calls : nat) : exec (aresult (PcmFormat * Z * nat)) :=
  if (zlen bytes <? 12) || negb (bool_decide (slice 0 4 bytes = ascii "RIFF")) || negb (bool_decide (slice 8 12 bytes = ascii "WAVE"))
  then Val (Err invalid_wav_error)
  else
    let~ _ := declares_its_size read_u32_le invalid_wav_error bytes in
    let! r := walk_chunks invalid_wav_error read_u32_le (visit_parse max_audio_bytes) bytes (None, 0, calls) in
    Val (let? '(format, data_bytes, calls) := r in
         let? format := ok_or format invalid_wav_error in
         if data_bytes =? 0 then Err invalid_wav_error else Ok (format, data_bytes, calls)).

Definition visit_data (chunk_id body : list Z) (s : list Z * nat) : aresult (list Z * nat) :=
  let '(pcm_bytes, calls) := s in
  let? calls := checked calls in
  if bool_decide (chunk_id = ascii "data") then Ok (pcm_bytes ++ body, calls) else Ok (pcm_bytes, calls).

Section Frames.
Context (turn : TurnId) (generation : GenerationId) (utterance : UtteranceId) (format : PcmFormat)
  (alignment numerator sample_count : Z) (pcm_bytes : list Z).

Fixpoint frame_loop (fuel : nat) (previous frame_slot sequence : Z) (calls : nat) (frames : list AudioFrame)
  : exec (aresult (list AudioFrame)) :=
  if sample_count <=? previous then Val (Ok frames)
  else match fuel with
       | O => Fuel_out
       | S fuel =>
           let~ calls := checked calls in
           let~ boundary := sample_boundary frame_slot numerator in
           if boundary <=? previous then
             let! slot := next_frame_slot previous numerator in
             let~ slot := slot in
             frame_loop fuel previous slot sequence calls frames
           else
             let boundary := if sample_count <? boundary then sample_count else boundary in
             let~ start := byte_offset previous alignment in
             let~ finish := byte_offset boundary alignment in
             let! bytes := expect (get_range start finish pcm_bytes) in
             let~ frame := AudioFrame_new turn generation utterance sequence format bytes in
             let~ frame_slot := ok_or (checked_add frame_slot 1) invalid_wav_error in
             let~ sequence := ok_or (checked_add sequence 1) invalid_wav_error in
             frame_loop fuel boundary frame_slot sequence calls (frames ++ [frame])
       end.
End Frames.

(** [WavPcmDecoder::decode_from_sequence_with_check]. Two turns of the loop
    advance it by a sample. *)
Definition decode_from_sequence_with_check (max_audio_bytes : Z) (turn : TurnId) (generation : GenerationId)
    (utterance : UtteranceId) (initial_sequence : Z) (audio : SynthesizedAudio) : exec (aresult (list AudioFrame)) :=
  let~ calls := checked 0 in
  match audio.(audio_format) with
  | Aiff => Val (Err (AdapterError_new (lit "R3 PCM streaming does not support AIFF audio")))
  | Wav =>
      let bytes := audio.(audio_bytes) in
      if max_audio_bytes <? zlen bytes then Val (Err wav_limit_error)
      else
        let! parsed := parse_wav bytes max_audio_bytes calls in
        let~ '(format, data_bytes, calls) := parsed in
        let~ alignment := frame_alignment_bytes format in
        if negb (data_bytes mod alignment =? 0) then Val (Err invalid_wav_error)
        else
          let~ numerator := frame_sample_numerator format in
          let~ _ := validate_largest_frame format numerator in
          let sample_count := data_bytes / alignment in
          let! bound := frame_count_upper_bound sample_count numerator in
          let~ bound := bound in
          let~ metadata := ok_or (checked_mul bound frame_size) invalid_wav_error in
          if max_audio_bytes <? metadata then Val (Err (AdapterError_new (lit "WAV audio produced too many PCM frames")))
          else
            let~ calls := checked calls in
            let! collected := walk_chunks invalid_wav_error read_u32_le visit_data bytes ([], calls) in
            let~ '(pcm_bytes, calls) := collected in
            let~ calls := checked calls in
            frame_loop turn generation utterance format alignment numerator sample_count pcm_bytes
              (2 * Z.to_nat sample_count) 0 1 initial_sequence calls []
  end.
End Decoder.

(** [WavPcmDecoder::decode]: the check always passes. *)
Definition decode (frame_size max_audio_bytes : Z) (turn : TurnId) (generation : GenerationId) (utterance : UtteranceId)
    (audio : SynthesizedAudio) : exec (aresult (list AudioFrame)) :=
  decode_from_sequence_with_check (fun _ => Ok tt) frame_size max_audio_bytes turn generation utterance 0 audio.
