(* ===== verification/WavPcmClaims.v ===== *)
(** * What the WAV decoder guarantees

    The chunks it walks are those of the container's grammar, and the frames it
    cuts carry the audio of the data chunks, all of it and in order. *)

From S2P Require Import Prelude RustStr Bytes Errors Pcm CaptureTiming Audio WavPcm.

Local Open Scope Z_scope.

(** ** The grammar of chunks *)

Section Grammar.
Context (read_size : list Z -> aresult Z).

Inductive chunked : list Z -> list (list Z * list Z) -> Prop :=
| chunked_nil : chunked [] []
| chunked_cons id size body pad rest chunks :
    length id = 4%nat -> length size = 4%nat -> read_size size = Ok (zlen body) -> zlen pad = zlen body mod 2 ->
    chunked rest chunks -> chunked (id ++ size ++ body ++ pad ++ rest) ((id, body) :: chunks).

(** What a walk computes. *)
Fixpoint visit_all {S} (visit : list Z -> list Z -> S -> aresult S) (chunks : list (list Z * list Z)) (s : S) : aresult S :=
  match chunks with
  | [] => Ok s
  | (id, body) :: rest => let? s := visit id body s in visit_all visit rest s
  end.
End Grammar.

Lemma get_range_Some from to bs s : get_range from to bs = Some s ->
  0 <= from <= to /\ to <= zlen bs /\ s = slice (Z.to_nat from) (Z.to_nat to) bs /\ zlen s = to - from.
Proof.
  unfold get_range. destruct (_ && _) eqn:B; [|done]. breflect. intros [= <-]. split; [lia|]. split; [done|]. split; [done|].
  unfold zlen in *. rewrite slice_length by lia. lia.
Qed.

Lemma get_range_app a b c : get_range (zlen a) (zlen a + zlen b) (a ++ b ++ c) = Some b.
Proof.
  unfold get_range. rewrite !zlen_app. pose proof (zlen_nonneg a). pose proof (zlen_nonneg b). pose proof (zlen_nonneg c).
  rewrite !(proj2 (Z.leb_le _ _)) by lia. cbn. f_equal. unfold slice, zlen in *.
  replace (Z.to_nat (Z.of_nat (length a) + Z.of_nat (length b)) - Z.to_nat (Z.of_nat (length a)))%nat with (length b) by lia.
  rewrite Nat2Z.id, drop_app_length. apply take_app_length.
Qed.

Lemma slice_then_drop a b (bs : list Z) : (a <= b)%nat -> slice a b bs ++ drop b bs = drop a bs.
Proof. intros L. unfold slice. replace b with (a + (b - a))%nat at 2 by lia. rewrite <- drop_drop. apply take_drop. Qed.

Lemma header_halves (h : list Z) : length h = 8%nat ->
  slice 0 4 h ++ slice 4 8 h = h /\ length (slice 0 4 h) = 4%nat /\ length (slice 4 8 h) = 4%nat.
Proof. intros L. rewrite slice_join, slice_all by (done || lia). rewrite !slice_length by lia. done. Qed.

Section Walk.
Context (e : AdapterError) (read_size : list Z -> aresult Z).

(** One chunk, taken apart. *)
Lemma chunk_at_Ok bytes offset id body next : chunk_at e read_size bytes offset = Ok (id, body, next) ->
  0 <= offset /\ offset + 8 <= next <= zlen bytes /\
  exists size pad, drop (Z.to_nat offset) bytes = id ++ size ++ body ++ pad ++ drop (Z.to_nat next) bytes /\
    length id = 4%nat /\ length size = 4%nat /\ read_size size = Ok (zlen body) /\ zlen pad = zlen body mod 2.
Proof.
  unfold chunk_at. intros E.
  repeat (apply result_bind_Ok in E as (? & ? & E)). simplify_eq.
  repeat match goal with H : ok_or ?o _ = Ok _ |- _ => destruct o eqn:?; simplify_eq/= end.
  repeat match goal with H : checked_add _ _ = Some _ |- _ => apply checked_add_Some in H as [-> ?] end.
  repeat match goal with H : get_range _ _ _ = Some _ |- _ => apply get_range_Some in H as (? & ? & -> & ?) end.
  assert (length (slice (Z.to_nat offset) (Z.to_nat (offset + 8)) bytes) = 8%nat) as L8 by (unfold zlen in *; lia).
  destruct (header_halves _ L8) as (J & L1 & L2). split; [lia|]. split; [lia|].
  match goal with H : read_size _ = Ok ?n |- _ => replace (offset + 8 + n - (offset + 8)) with n in * by lia end.
  match goal with H : read_size ?size = Ok ?n, P : zlen (slice ?a ?b bytes) = ?c - (offset + 8 + ?n) |- _ =>
    exists size, (slice a b bytes); split; [|split; [exact L1|split; [exact L2|split; [rewrite H; f_equal; lia|]]]] end.
  2: { repeat match goal with P : zlen (slice ?a ?b bytes) = _ |- context [zlen (slice ?a ?b bytes)] => rewrite P end. lia. }
  rewrite !slice_then_drop by lia. rewrite app_assoc, J. symmetry. apply slice_then_drop. lia.
Qed.

Lemma walk_total {S} (visit : list Z -> list Z -> S -> aresult S) fuel bytes offset s :
  (Z.to_nat (zlen bytes - offset) <= fuel)%nat -> exists r, walk_loop e read_size fuel visit bytes offset s = Val r.
Proof.
  revert offset s. induction fuel as [|fuel IH]; intros offset s F; cbn [walk_loop];
    (destruct (_ <=? _) eqn:B; breflect; [by eexists|]); [lia|].
  destruct (chunk_at _ _ _ _) as [[[id body] next]|] eqn:C; [|by eexists]. cbn [attempt]. apply chunk_at_Ok in C as (? & ? & _).
  destruct (visit _ _ _); [|by eexists]. cbn [attempt]. apply IH. lia.
Qed.

Lemma walk_Ok {S} (visit : list Z -> list Z -> S -> aresult S) fuel bytes offset s s' : 0 <= offset ->
  walk_loop e read_size fuel visit bytes offset s = Val (Ok s') ->
  exists chunks, chunked read_size (drop (Z.to_nat offset) bytes) chunks /\ visit_all visit chunks s = Ok s'.
Proof.
  revert offset s. induction fuel as [|fuel IH]; intros offset s O W; cbn [walk_loop] in W;
    (destruct (_ <=? _) eqn:B in W; breflect; [simplify_eq; exists []; rewrite drop_ge by (unfold zlen in *; lia); split; [constructor|done]|]); [done|].
  destruct (chunk_at _ _ _ _) as [[[id body] next]|] eqn:C; [|done]. cbn [attempt] in W.
  apply chunk_at_Ok in C as (? & ? & size & pad & -> & ? & ? & ? & ?).
  destruct (visit _ _ _) as [s1|] eqn:V; [|done]. cbn [attempt] in W. apply IH in W as (chunks & G & A); [|lia].
  exists ((id, body) :: chunks). split; [by constructor|]. cbn. by rewrite V.
Qed.

(** A well-formed container is walked to its end. *)
Lemma walk_complete {S} (visit : list Z -> list Z -> S -> aresult S) fuel pre rest chunks s :
  zlen (pre ++ rest) <= i64_max -> (length rest <= fuel)%nat -> chunked read_size rest chunks ->
  walk_loop e read_size fuel visit (pre ++ rest) (zlen pre) s = Val (visit_all visit chunks s).
Proof.
  intros M F C. revert fuel pre s M F. induction C as [|id size body pad rest chunks L1 L2 R P C IH]; intros fuel pre s M F.
  - rewrite app_nil_r. destruct fuel; cbn [walk_loop]; by rewrite Z.leb_refl.
  - rewrite !zlen_app in M. rewrite !length_app in F. pose proof (zlen_nonneg rest). pose proof (zlen_nonneg body).
    assert (zlen id = 4) as Z1 by (unfold zlen; lia). assert (zlen size = 4) as Z2 by (unfold zlen; lia).
    pose proof (Z.mod_pos_bound (zlen body) 2 ltac:(lia)). pose proof (zlen_nonneg pre).
    destruct fuel as [|fuel]; [lia|]. cbn [walk_loop].
    rewrite (proj2 (Z.leb_gt _ _)) by (rewrite !zlen_app; lia).
    assert (chunk_at e read_size (pre ++ id ++ size ++ body ++ pad ++ rest) (zlen pre) =
            Ok (id, body, zlen (pre ++ id ++ size ++ body ++ pad))) as ->.
    { unfold chunk_at. assert (forall a b, a + b <= i64_max -> checked_add a b = Some (a + b)) as K
        by (intros; unfold checked_add; rewrite (proj2 (Z.leb_le _ _)); [done|ints]).
      rewrite K by lia. cbn [ok_or result_bind].
      pose proof (get_range_app pre (id ++ size) (body ++ pad ++ rest)) as G1. rewrite zlen_app, Z1, Z2, <- app_assoc in G1. change (4 + 4) with 8 in G1.
      rewrite G1. cbn [ok_or result_bind].
      destruct (header_halves (id ++ size)) as (_ & _ & _); [rewrite length_app; lia|].
      assert (slice 4 8 (id ++ size) = size) as -> by (unfold slice; rewrite <- L1, drop_app_length; apply take_ge; lia).
      assert (slice 0 4 (id ++ size) = id) as -> by (unfold slice; rewrite drop_0; replace (4 - 0)%nat with (length id) by lia; apply take_app_length).
      rewrite R. cbn [ok_or result_bind]. rewrite K by lia. cbn [ok_or result_bind].
      replace (zlen pre + 8 + zlen body - (zlen pre + 8)) with (zlen body) by lia. rewrite K by lia. cbn [ok_or result_bind].
      pose proof (get_range_app (pre ++ id ++ size) body (pad ++ rest)) as G2. rewrite !zlen_app, Z1, Z2, <- !app_assoc in G2.
      replace (zlen pre + (4 + 4)) with (zlen pre + 8) in G2 by lia. rewrite G2. cbn [ok_or result_bind].
      pose proof (get_range_app (pre ++ id ++ size ++ body) pad rest) as G3. rewrite !zlen_app, Z1, Z2, P, <- !app_assoc in G3.
      replace (zlen pre + (4 + (4 + zlen body))) with (zlen pre + 8 + zlen body) in G3 by lia. rewrite G3. cbn [ok_or result_bind].
      rewrite !zlen_app, Z1, Z2, P. do 2 f_equal. lia. }
    cbn [attempt visit_all]. destruct (visit id body s) as [s1|er]; [|done]. cbn [attempt result_bind].
    specialize (IH fuel (pre ++ id ++ size ++ body ++ pad) s1). rewrite <- !app_assoc in IH. apply IH; [rewrite !zlen_app; lia|lia].
Qed.
End Walk.

(** ** Frames *)

Definition largest_samples (numerator : Z) : Z := (numerator + 999) / 1000.

Lemma next_slot_spec previous numerator r : 0 <= previous -> 0 < numerator -> next_frame_slot previous numerator = Val r ->
  forall slot, r = Ok slot -> 1 <= slot /\ (slot - 1) * numerator / 1000 <= previous /\ previous < slot * numerator / 1000.
Proof.
  intros P N. unfold next_frame_slot, ceil_slots, MILLISECONDS_PER_SECOND. intros E slot ->.
  destruct (checked_add previous 1) eqn:A; [|done]. apply checked_add_Some in A as [-> _].
  destruct (checked_mul _ _) eqn:M; [|done]. unfold checked_mul in M. split_ifs_in M; simplify_eq.
  destruct (checked_add _ _) eqn:A; [|done]. apply checked_add_Some in A as [-> _].
  rewrite (proj2 (Z.eqb_neq _ _)) in E by lia. cbn in E. split_ifs_in E; simplify_eq.
  set (slot := ((previous + 1) * 1000 + (numerator - 1)) / numerator) in *.
  assert ((previous + 1) * 1000 <= slot * numerator /\ (slot - 1) * numerator < (previous + 1) * 1000) as [L U].
  { subst slot. set (x := (previous + 1) * 1000) in *. pose proof (Z.div_mod (x + (numerator - 1)) numerator ltac:(lia)).
    pose proof (Z.mod_pos_bound (x + (numerator - 1)) numerator ltac:(lia)). nia. }
  split; [lia|]. split.
  - apply Zlt_succ_le. apply Z.div_lt_upper_bound; lia.
  - apply Z.lt_le_trans with (previous + 1); [lia|]. apply Z.div_le_lower_bound; lia.
Qed.

Lemma next_slot_total previous numerator : 0 < numerator -> exists r, next_frame_slot previous numerator = Val r.
Proof.
  intros N. unfold next_frame_slot, ceil_slots. destruct (checked_add _ 1); [|by eexists]. destruct (checked_mul _ _); [|by eexists].
  destruct (checked_add _ _); [|by eexists]. rewrite (proj2 (Z.eqb_neq _ _)) by lia. by eexists.
Qed.

(** Successive boundaries are at most the largest frame apart. *)
Lemma slot_width slot numerator : 0 < numerator -> slot * numerator / 1000 <= (slot - 1) * numerator / 1000 + largest_samples numerator.
Proof. intros N. unfold largest_samples. Z.div_mod_to_equations. nia. Qed.

Section Frames.
Context (check : nat -> aresult unit) (turn : TurnId) (generation : GenerationId) (utterance : UtteranceId) (format : PcmFormat)
  (alignment numerator sample_count : Z) (pcm_bytes : list Z).
Hypothesis wf : wf_format format.
Hypothesis alignment_eq : alignment = format.(channels) * bytes_per_sample format.(sample_format).
Hypothesis numerator_pos : 0 < numerator.
Hypothesis pcm_length : zlen pcm_bytes = sample_count * alignment.

(** The frames of the audio from a sample on. *)
Record frames_from (previous sequence : Z) (frames : list AudioFrame) : Prop := {
  ff_audio : concat (map frame_bytes frames) = drop (Z.to_nat (previous * alignment)) pcm_bytes;
  ff_frames : Forall (fun f => wf_frame f /\ f.(Audio.format) = format /\ zlen f.(frame_bytes) <= largest_samples numerator * alignment
                               /\ f.(frame_turn_id) = turn /\ f.(frame_generation_id) = generation /\ f.(frame_utterance_id) = utterance) frames;
  ff_sequence : map frame_sequence frames = seqZ sequence (zlen frames);
}.

Lemma alignment_pos : 2 <= alignment.
Proof using alignment_eq wf. destruct (frame_alignment_bytes_Ok format wf). lia. Qed.

Lemma frames_from_nil previous sequence : sample_count <= previous -> frames_from previous sequence [].
Proof using alignment_eq wf pcm_length.
  intros L. pose proof alignment_pos. split; cbn; [|constructor|done]. symmetry. apply drop_ge. unfold zlen in *. nia.
Qed.

(** One frame, and the rest. *)
Lemma frames_from_cons previous boundary sequence bytes frame frames :
  0 <= previous < boundary -> boundary <= sample_count -> boundary - previous <= largest_samples numerator ->
  get_range (previous * alignment) (boundary * alignment) pcm_bytes = Some bytes ->
  AudioFrame_new turn generation utterance sequence format bytes = Ok frame ->
  frames_from boundary (sequence + 1) frames -> frames_from previous sequence (frame :: frames).
Proof using alignment_eq wf pcm_length.
  intros P B L G A [F1 F2 F3]. pose proof alignment_pos. apply get_range_Some in G as (_ & _ & -> & Z1).
  pose proof (AudioFrame_new_wf _ _ _ _ _ _ _ wf A) as [Wf Fb].
  assert (Audio.format frame = format /\ frame_sequence frame = sequence /\ frame_turn_id frame = turn /\
          frame_generation_id frame = generation /\ frame_utterance_id frame = utterance) as (E1 & E2 & E3 & E4 & E5).
  { unfold AudioFrame_new in A. split_ifs_in A; try done. apply result_bind_Ok in A as (? & ? & A). split_ifs_in A; by simplify_eq. }
  split.
  - cbn. rewrite Fb, F1. apply slice_then_drop. nia.
  - constructor; [|done]. rewrite Fb, E1. split; [done|]. split; [done|]. split; [nia|done].
  - cbn. rewrite E2, F3, zlen_cons. rewrite (seqZ_cons sequence (1 + zlen frames)) by (pose proof (zlen_nonneg frames); lia).
    do 2 f_equal; lia.
Qed.

Lemma frame_loop_spec fuel previous slot sequence calls frames :
  0 <= previous -> 1 <= slot -> (previous < sample_count -> (slot - 1) * numerator / 1000 <= previous) ->
  2 * (sample_count - previous) - (if previous <? slot * numerator / 1000 then 1 else 0) <= Z.of_nat fuel ->
  exists r, frame_loop check turn generation utterance format alignment numerator sample_count pcm_bytes fuel previous slot sequence calls frames = Val r /\
    forall out, r = Ok out -> exists new, out = frames ++ new /\ frames_from previous sequence new.
Proof using alignment_eq wf numerator_pos pcm_length.
  revert previous slot sequence calls frames. induction fuel as [|fuel IH]; intros previous slot sequence calls frames P S W F;
    cbn [frame_loop]; (destruct (sample_count <=? previous) eqn:D; breflect;
      [eexists; split; [done|]; intros out [= <-]; exists []; rewrite app_nil_r; split; [done|]; by apply frames_from_nil|]).
  { split_ifs_in F; lia. }
  specialize (W D). destruct (checked check calls) as [calls'|]; [|by eexists]. cbn [attempt]. unfold sample_boundary, MILLISECONDS_PER_SECOND.
  destruct (checked_mul slot numerator) as [product|] eqn:M; [|by eexists]. unfold checked_mul in M. split_ifs_in M; simplify_eq.
  cbn [fmap option_fmap option_map ok_or attempt]. destruct (_ <=? previous) eqn:B; breflect.
  - rewrite (proj2 (Z.ltb_ge _ _)) in F by lia. destruct (next_slot_total previous numerator numerator_pos) as [r N]. rewrite N. cbn [exec_bind].
    destruct r as [slot'|]; [|by eexists]. cbn [attempt].
    destruct (next_slot_spec _ _ _ P numerator_pos N slot' eq_refl) as (S1 & S2 & S3). apply IH; [done|done|done|].
    rewrite (proj2 (Z.ltb_lt _ _)) by lia. lia.
  - rewrite (proj2 (Z.ltb_lt _ _)) in F by lia. pose proof alignment_pos. pose proof (slot_width slot numerator numerator_pos).
    set (boundary := if sample_count <? _ then _ else _).
    assert (previous < boundary <= sample_count /\ boundary <= slot * numerator / 1000) as [B1 B2] by (unfold boundary; split_ifs; lia).
    unfold byte_offset. destruct (checked_mul previous alignment) as [start|] eqn:M1; [|by eexists]. cbn [ok_or attempt].
    destruct (checked_mul boundary alignment) as [finish|] eqn:M2; [|by eexists]. cbn [ok_or attempt].
    unfold checked_mul in M1, M2. split_ifs_in M1; simplify_eq. split_ifs_in M2; simplify_eq.
    destruct (get_range _ _ pcm_bytes) as [bytes|] eqn:G.
    2: { unfold get_range in G. rewrite !(proj2 (Z.leb_le _ _)) in G by nia. done. }
    cbn [expect exec_bind]. destruct (AudioFrame_new _ _ _ _ _ _) as [frame|] eqn:A; [|by eexists]. cbn [attempt].
    destruct (checked_add slot 1) eqn:C1; [|by eexists]. apply checked_add_Some in C1 as [-> _]. cbn [ok_or attempt].
    destruct (checked_add sequence 1) eqn:C2; [|by eexists]. apply checked_add_Some in C2 as [-> _]. cbn [ok_or attempt].
    destruct (IH boundary (slot + 1) (sequence + 1) calls' (frames ++ [frame])) as (r & -> & R); [lia|lia| | |].
    + replace (slot + 1 - 1) with slot by lia. unfold boundary. split_ifs; lia.
    + split_ifs; lia.
    + exists r. split; [done|]. intros out E. destruct (R out E) as (new & -> & N). exists (frame :: new). rewrite <- app_assoc.
      split; [done|]. eapply frames_from_cons; [| | |exact G|exact A|exact N]; lia.
Qed.

(** Audio of a reasonable length is cut without an error. *)
Lemma frame_loop_Ok fuel previous slot sequence calls frames :
  (forall n, check n = Ok tt) -> sample_count <= 2 ^ 40 -> numerator <= 2 ^ 40 -> largest_samples numerator * alignment <= MAX_PCM_FRAME_BYTES ->
  0 <= previous -> 1 <= slot -> (previous < sample_count -> (slot - 1) * numerator / 1000 <= previous) ->
  0 <= sequence -> sequence + sample_count - previous <= 2 ^ 60 ->
  2 * (sample_count - previous) - (if previous <? slot * numerator / 1000 then 1 else 0) <= Z.of_nat fuel ->
  exists out, frame_loop check turn generation utterance format alignment numerator sample_count pcm_bytes fuel previous slot sequence calls frames = Val (Ok out).
Proof using alignment_eq wf numerator_pos pcm_length.
  intros C SC NU LA. revert previous slot sequence calls frames. induction fuel as [|fuel IH]; intros previous slot sequence calls frames P S W Q Q' F;
    cbn [frame_loop]; (destruct (sample_count <=? previous) eqn:D; breflect; [by eexists|]).
  { split_ifs_in F; lia. }
  specialize (W D). unfold checked. rewrite C. cbn [result_bind attempt]. unfold sample_boundary, MILLISECONDS_PER_SECOND.
  assert ((slot - 1) * numerator <= 1000 * previous + 999) as L by (Z.div_mod_to_equations; lia).
  assert (slot * numerator <= 2 ^ 51) as L1 by (rewrite Z.mul_sub_distr_r in L; lia).
  assert (slot <= 2 ^ 51) as L2 by (apply Z.le_trans with (slot * numerator); [|lia]; apply Z.le_mul_diag_r; lia).
  assert (forall a b, a * b <= 2 ^ 60 -> checked_mul a b = Some (a * b)) as KM
    by (intros; unfold checked_mul; rewrite (proj2 (Z.leb_le _ _)); [done|ints]).
  assert (forall a b, a + b <= 2 ^ 61 -> checked_add a b = Some (a + b)) as KA
    by (intros; unfold checked_add; rewrite (proj2 (Z.leb_le _ _)); [done|ints]).
  rewrite KM by lia. cbn [fmap option_fmap option_map ok_or attempt]. destruct (_ <=? previous) eqn:B; breflect.
  - rewrite (proj2 (Z.ltb_ge _ _)) in F by lia. unfold next_frame_slot, ceil_slots, MILLISECONDS_PER_SECOND.
    rewrite KA, KM, KA by lia. rewrite (proj2 (Z.eqb_neq _ _)) by lia. cbn [exec_bind].
    assert (0 < ((previous + 1) * 1000 + (numerator - 1)) / numerator) as SP by (apply Z.div_str_pos; lia).
    rewrite (proj2 (Z.ltb_lt _ _) SP). cbn [attempt].
    assert (next_frame_slot previous numerator = Val (Ok (((previous + 1) * 1000 + (numerator - 1)) / numerator))) as N.
    { unfold next_frame_slot, ceil_slots, MILLISECONDS_PER_SECOND. rewrite KA, KM, KA by lia. rewrite (proj2 (Z.eqb_neq _ _)) by lia.
      cbn [exec_bind]. by rewrite (proj2 (Z.ltb_lt _ _) SP). }
    destruct (next_slot_spec _ _ _ P numerator_pos N _ eq_refl) as (S1 & S2 & S3). apply IH; try done; [lia..|].
    rewrite (proj2 (Z.ltb_lt _ _)) by lia. lia.
  - rewrite (proj2 (Z.ltb_lt _ _)) in F by lia. pose proof alignment_pos. pose proof (slot_width slot numerator numerator_pos).
    set (boundary := if sample_count <? _ then _ else _).
    assert (previous < boundary <= sample_count /\ boundary <= slot * numerator / 1000) as [B1 B2] by (unfold boundary; split_ifs; lia).
    assert (alignment <= 2 ^ 19) as LB by (destruct wf as [_ ?]; rewrite alignment_eq; destruct (sample_format format); cbn [bytes_per_sample]; ints).
    assert (forall x, 0 <= x <= sample_count -> x * alignment <= 2 ^ 60) as KX
      by (intros x X; apply Z.le_trans with (2 ^ 40 * 2 ^ 19); [apply Z.mul_le_mono_nonneg; lia|lia]).
    unfold byte_offset. rewrite KM by (apply KX; lia). cbn [ok_or attempt]. rewrite KM by (apply KX; lia). cbn [ok_or attempt].
    clear KX KM LB. destruct (get_range _ _ pcm_bytes) as [bytes|] eqn:G.
    2: { unfold get_range in G. rewrite !(proj2 (Z.leb_le _ _)) in G by nia. done. }
    cbn [expect exec_bind]. apply get_range_Some in G as (_ & _ & _ & ZB).
    assert (exists frame, AudioFrame_new turn generation utterance sequence format bytes = Ok frame) as [frame ->].
    { rewrite <- Z.mul_sub_distr_r in ZB. assert (0 < (boundary - previous) * alignment) by (apply Z.mul_pos_pos; lia).
      assert ((boundary - previous) * alignment <= largest_samples numerator * alignment) by (apply Z.mul_le_mono_nonneg_r; lia).
      unfold AudioFrame_new. destruct bytes as [|x bytes]; [rewrite zlen_nil in ZB; lia|]. cbn [is_empty]. rewrite (proj2 (Z.ltb_ge _ _)) by lia.
      destruct (frame_alignment_bytes_Ok format wf) as [-> _]. cbn [result_bind]. rewrite ZB, <- alignment_eq, Z.mod_mul by lia.
      by eexists. }
    cbn [attempt]. rewrite KA by lia. cbn [ok_or attempt]. rewrite KA by lia. cbn [ok_or attempt].
    apply IH; [lia|lia| |lia|lia|].
    + replace (slot + 1 - 1) with slot by lia. unfold boundary. split_ifs; lia.
    + split_ifs; lia.
Qed.
End Frames.

(** ** The container *)

(** The audio of the data chunks. *)
Definition data_of (chunks : list (list Z * list Z)) : list Z :=
  concat (map (fun c => if bool_decide (c.1 = ascii "data") then c.2 else []) chunks).

Lemma chunked_det read_size l c1 c2 : chunked read_size l c1 -> chunked read_size l c2 -> c1 = c2.
Proof.
  intros C. revert c2. induction C as [|id size body pad rest chunks L1 L2 R P C IH]; intros c2 D;
    inversion D as [E1 E2|id2 size2 body2 pad2 rest2 chunks2 M1 M2 R2 P2 C2 E1 E2]; [done| | |].
  - apply app_eq_nil in E1 as [-> _]. done.
  - symmetry in E1. apply app_eq_nil in E1 as [-> _]. done.
  - apply app_inj_1 in E1 as [-> E1]; [|lia]. apply app_inj_1 in E1 as [-> E1]; [|lia]. rewrite R in R2. injection R2 as R2.
    apply app_inj_1 in E1 as [-> E1]; [|unfold zlen in *; lia]. apply app_inj_1 in E1 as [-> E1]; [|unfold zlen in *; lia]. subst.
    by rewrite (IH _ C2).
Qed.

Lemma chunked_bytes read_size l chunks : chunked read_size l chunks -> Forall is_byte l -> Forall (fun c => Forall is_byte c.2) chunks.
Proof.
  induction 1 as [|id size body pad rest chunks L1 L2 R P C IH]; intros B; [constructor|].
  rewrite !Forall_app in B. destruct B as (_ & _ & B & _ & B'). constructor; auto.
Qed.

Lemma chunked_impl (r1 r2 : list Z -> aresult Z) l chunks :
  (forall s n, r1 s = Ok n -> r2 s = Ok n) -> chunked r1 l chunks -> chunked r2 l chunks.
Proof. intros H. induction 1; constructor; auto. Qed.

Lemma read_le_other e1 e2 n s v : read_le e1 n s = Ok v -> read_le e2 n s = Ok v.
Proof. unfold read_le. by destruct (bool_decide _). Qed.

Lemma le_value_bound bs : Forall is_byte bs -> 0 <= le_value bs < 256 ^ zlen bs.
Proof.
  intros B. unfold le_value. pose proof (be_value_bounds (rev bs) ltac:(by apply Forall_rev)) as H.
  unfold zlen in *. by rewrite length_rev in H.
Qed.

Lemma parse_format_Ok body f : Forall is_byte body -> parse_format body = Ok f ->
  wf_format f /\ 16 <= zlen body /\ f.(sample_format) = Signed16LittleEndian /\ f.(channels) <= 2.
Proof.
  intros B. unfold parse_format. intros E. apply result_bind_Ok in E as (header & G & E).
  unfold ok_or in G. destruct (get_range 0 16 body) eqn:Gr; simplify_eq. apply get_range_Some in Gr as (_ & L & -> & _).
  repeat (apply result_bind_Ok in E as (? & ? & E)). split_ifs_in E; try done.
  repeat (apply result_bind_Ok in E as (? & ? & E)). split_ifs_in E; simplify_eq; try done.
  match goal with H : PcmFormat_new ?r ?c _ = Ok _, R : read_u32_le (slice 4 8 ?h) = Ok ?r |- _ =>
    unfold PcmFormat_new in H; split_ifs_in H; simplify_eq; unfold read_u32_le, read_le in R; split_ifs_in R; simplify_eq;
    pose proof (le_value_bound (slice 4 8 h) ltac:(by apply slice_bytes, slice_bytes)) as BB;
    match goal with Q : length (slice 4 8 h) = 4%nat |- _ => unfold zlen in BB; rewrite Q in BB; change (256 ^ Z.of_nat 4) with (2 ^ 32) in BB end
  end.
  cbn [sample_format channels]. split; [|split; [done|split; [done|lia]]]. split; cbn [sample_rate_hz channels]; ints.
Qed.

Section Parse.
Context (check : nat -> aresult unit) (max : Z).

(** What the first walk has established. *)
Record parsed (chunks : list (list Z * list Z)) (format : option PcmFormat) (n : Z) (before : option PcmFormat) (m : Z) : Prop := {
  pa_data : n = m + zlen (data_of chunks);
  pa_formats : Forall (fun c => c.1 = ascii "fmt " -> 16 <= zlen c.2) chunks;
  pa_format : forall f, format = Some f -> before = Some f \/ wf_format f /\ exists c, c ∈ chunks /\ c.1 = ascii "fmt ";
}.

Lemma visit_all_parse chunks : Forall (fun c => Forall is_byte c.2) chunks ->
  forall before m calls format n calls', visit_all (visit_parse check max) chunks (before, m, calls) = Ok (format, n, calls') ->
  parsed chunks format n before m.
Proof.
  induction 1 as [|[id body] chunks B F IH]; intros before m calls format n calls' E.
  { cbn in E. simplify_eq. split; [change (data_of []) with (@nil Z); rewrite zlen_nil; lia|constructor|auto]. }
  cbn [visit_all] in E. apply result_bind_Ok in E as ([[format1 n1] calls1] & V & E). unfold visit_parse in V.
  apply result_bind_Ok in V as (calls2 & _ & V). cbn in B.
  assert (forall g (w : n1 = m + zlen (if bool_decide (id = ascii "data") then body else [])), parsed chunks format n g n1 ->
    (id = ascii "fmt " -> 16 <= zlen body) -> (forall f, g = Some f -> before = Some f \/ wf_format f /\ id = ascii "fmt ") ->
    parsed ((id, body) :: chunks) format n before m) as K.
  { intros g w [D1 D2 D3] H1 H2. split.
    - rewrite D1, w. unfold data_of. cbn [map concat]. rewrite zlen_app. cbn [fst snd]. lia.
    - by constructor.
    - intros f Ff. destruct (D3 f Ff) as [G|(W & c & C1 & C2)].
      + destruct (H2 f G) as [?|[W ->]]; [by left|]. right. split; [done|]. eexists. split; [by left|done].
      + right. split; [done|]. exists c. split; [by right|done]. }
  destruct (bool_decide (id = ascii "fmt ")) eqn:I1; breflect.
  - apply result_bind_Ok in V as (nf & Pf & V). apply parse_format_Ok in Pf as (W & L & _); [|done]. split_ifs_in V; simplify_eq.
    apply (K (Some nf)); [|by eapply IH|done|]. { by rewrite bool_decide_false by (subst; done); rewrite zlen_nil; lia. }
    intros f [= <-]. by right.
  - destruct (bool_decide (id = ascii "data")) eqn:I2; breflect.
    + destruct (checked_add _ _) eqn:C; [|done]. apply checked_add_Some in C as [-> _]. split_ifs_in V; simplify_eq.
      apply (K format1); [done|by eapply IH|done|]. by left.
    + simplify_eq. apply (K format1); [rewrite zlen_nil; lia|by eapply IH|done|]. by left.
Qed.

Lemma visit_all_data chunks pcm calls out calls' :
  visit_all (visit_data check) chunks (pcm, calls) = Ok (out, calls') -> out = pcm ++ data_of chunks.
Proof.
  revert pcm calls. induction chunks as [|[id body] chunks IH]; intros pcm calls E; cbn in E.
  { simplify_eq. by rewrite app_nil_r. }
  apply result_bind_Ok in E as ([pcm1 calls1] & V & E). apply IH in E as ->.
  unfold visit_data in V. apply result_bind_Ok in V as (? & _ & V). unfold data_of. cbn [map concat fst snd].
  destruct (bool_decide (id = ascii "data")); simplify_eq; [by rewrite <- app_assoc|done].
Qed.
End Parse.

(** What a file the decoder parses looks like. *)
Record wav_file_of (bytes : list Z) (chunks : list (list Z * list Z)) (format : PcmFormat) : Prop := {
  wf_head : 12 <= zlen bytes /\ slice 0 4 bytes = ascii "RIFF" /\ slice 8 12 bytes = ascii "WAVE";
  wf_size : declares_its_size read_u32_le invalid_wav_error bytes = Ok tt;
  wf_chunks : chunked read_u32_le (drop 12 bytes) chunks;
  wf_formats : Forall (fun c => c.1 = ascii "fmt " -> 16 <= zlen c.2) chunks /\ exists c, c ∈ chunks /\ c.1 = ascii "fmt ";
  wf_data : data_of chunks <> [];
  wf_pcm : wf_format format;
}.

Lemma zlen_zero {A} (l : list A) : zlen l = 0 -> l = [].
Proof. destruct l; [done|]. rewrite zlen_cons. pose proof (zlen_nonneg l). lia. Qed.

Lemma parse_wav_total check bytes max calls : exists r, parse_wav check bytes max calls = Val r.
Proof.
  unfold parse_wav. destruct (_ || _); [by eexists|]. destruct (declares_its_size _ _ _); [|by eexists]. cbn [attempt].
  unfold walk_chunks. destruct (walk_total invalid_wav_error read_u32_le (visit_parse check max) (length bytes) bytes 12 (None, 0, calls)) as [r ->];
    [unfold zlen; lia|]. by eexists.
Qed.

Lemma parse_wav_Ok check bytes max calls format n calls' : Forall is_byte bytes ->
  parse_wav check bytes max calls = Val (Ok (format, n, calls')) ->
  exists chunks, wav_file_of bytes chunks format /\ n = zlen (data_of chunks).
Proof.
  intros B. unfold parse_wav. destruct (_ || _) eqn:H; [done|]. breflect.
  destruct (declares_its_size _ _ _) as [[]|] eqn:D; [|done]. cbn [attempt].
  destruct (walk_chunks _ _ _ _ _) as [r| |] eqn:W; [|done..]. cbn [exec_bind]. intros [= E].
  apply result_bind_Ok in E as ([[f m] c] & -> & E). apply result_bind_Ok in E as (f' & F & E). unfold ok_or in F. destruct f; simplify_eq.
  split_ifs_in E; simplify_eq. apply walk_Ok in W as (chunks & C & V); [|lia]. change (Z.to_nat 12) with 12%nat in C.
  pose proof (chunked_bytes _ _ _ C ltac:(by apply Forall_drop)) as CB.
  destruct (visit_all_parse _ _ _ CB _ _ _ _ _ _ V) as [P1 P2 P3]. rewrite Z.add_0_l in P1. exists chunks. split; [|done].
  destruct (P3 _ eq_refl) as [?|[Wf Ex]]; [done|]. split; try done. intros Dn. rewrite Dn, zlen_nil in P1. done.
Qed.

Lemma visit_all_wav chunks hf hd : Forall (fun c => c.1 = ascii "fmt " -> 16 <= zlen c.2) chunks ->
  visit_all visit_wav chunks (hf, hd) =
    Ok (hf || existsb (fun c => bool_decide (c.1 = ascii "fmt ")) chunks,
        hd || existsb (fun c => negb (bool_decide (c.1 = ascii "fmt ")) && (bool_decide (c.1 = ascii "data") && negb (is_empty c.2))) chunks).
Proof.
  intros F. revert hf hd. induction F as [|[id body] chunks H F IH]; intros hf hd; cbn [visit_all existsb].
  { by rewrite !orb_false_r. }
  unfold visit_wav. cbn [fst snd] in *. destruct (bool_decide (id = ascii "fmt ")) eqn:I; breflect.
  - rewrite (proj2 (Z.leb_le _ _)) by auto. cbn [result_bind]. rewrite IH. cbn [negb andb orb]. by rewrite orb_true_r.
  - destruct (_ && _) eqn:Dt; cbn [result_bind negb andb orb]; rewrite IH; [by rewrite orb_true_r|done].
Qed.

Lemma data_nonempty chunks : data_of chunks <> [] ->
  existsb (fun c => negb (bool_decide (c.1 = ascii "fmt ")) && (bool_decide (c.1 = ascii "data") && negb (is_empty c.2))) chunks = true.
Proof.
  induction chunks as [|[id body] chunks IH]; [done|]. unfold data_of in *. cbn [map concat existsb fst snd].
  destruct (bool_decide (id = ascii "data")) eqn:I; breflect; intros N.
  - subst. rewrite bool_decide_false by done. destruct body; [cbn; by apply IH|done].
  - rewrite andb_false_r. by apply IH.
Qed.

(** The adapter's own check of a container accepts whatever the decoder does. *)
Lemma decoded_is_valid bytes chunks format : zlen bytes <= i64_max -> wav_file_of bytes chunks format -> validate_wav bytes = Val (Ok tt).
Proof.
  intros M [[H1 [H2 H3]] S C [F1 (c & F2 & F3)] D _]. unfold validate_wav. rewrite (proj2 (Z.ltb_ge _ _) H1), !bool_decide_true by done.
  cbn [negb orb]. assert (declares_its_size (read_le invalid_container_error 4) invalid_container_error bytes = Ok tt) as ->.
  { unfold declares_its_size in *. apply result_bind_Ok in S as (n & R & S). unfold read_u32_le in R. rewrite (read_le_other _ _ _ _ _ R).
    cbn [result_bind]. destruct (is_some_and _ _) in S |- *; [reflexivity|discriminate S]. }
  cbn [attempt]. unfold walk_chunks.
  pose proof (walk_complete invalid_container_error (read_le invalid_container_error 4) visit_wav (length bytes) (take 12 bytes) (drop 12 bytes) chunks (false, false)) as K.
  rewrite take_drop in K. assert (zlen (take 12 bytes) = 12) as E by (unfold zlen in *; rewrite length_take; lia). rewrite E in K.
  rewrite K; [|exact M|rewrite length_drop; lia|eapply chunked_impl; [|exact C]; intros; by eapply read_le_other].
  cbn [exec_bind]. rewrite (visit_all_wav _ _ _ F1). cbn [result_bind orb]. rewrite (data_nonempty _ D).
  assert (existsb (fun c => bool_decide (c.1 = ascii "fmt ")) chunks = true) as ->; [|reflexivity].
  apply existsb_exists. exists c. split; [by apply list_elem_of_In|by apply bool_decide_eq_true_2].
Qed.

(** ** Decoding a file *)

Lemma ceil_slots_total n numerator : 0 < numerator -> exists r, ceil_slots n numerator = Val r.
Proof.
  intros N. unfold ceil_slots. destruct (checked_mul _ _); [|by eexists]. destruct (checked_add _ _); [|by eexists].
  rewrite (proj2 (Z.eqb_neq _ _)) by lia. by eexists.
Qed.

(** The frames are the container's audio, cut. *)
Record cut_of (turn : TurnId) (generation : GenerationId) (utterance : UtteranceId) (format : PcmFormat) (audio : list Z)
    (sequence : Z) (frames : list AudioFrame) : Prop := {
  cut_audio : concat (map frame_bytes frames) = audio;
  cut_frames : Forall (fun f => wf_frame f /\ f.(Audio.format) = format /\ f.(frame_turn_id) = turn /\
      f.(frame_generation_id) = generation /\ f.(frame_utterance_id) = utterance /\
      zlen f.(frame_bytes) <= (format.(sample_rate_hz) * 20 + 999) / 1000 * (format.(channels) * bytes_per_sample format.(sample_format))) frames;
  cut_sequence : map frame_sequence frames = seqZ sequence (zlen frames);
}.

(** The second walk sees the chunks of the first. *)
Lemma collect_Ok check bytes chunks calls pcm calls' : chunked read_u32_le (drop 12 bytes) chunks ->
  walk_chunks invalid_wav_error read_u32_le (visit_data check) bytes ([], calls) = Val (Ok (pcm, calls')) -> pcm = data_of chunks.
Proof.
  intros C W. apply walk_Ok in W as (chunks' & C' & V); [|lia]. change (Z.to_nat 12) with 12%nat in C'.
  rewrite (chunked_det _ _ _ _ C C'). exact (visit_all_data _ _ _ _ _ _ V).
Qed.

Lemma collect_total check bytes s : exists r, walk_chunks invalid_wav_error read_u32_le (visit_data check) bytes s = Val r.
Proof. apply walk_total. unfold zlen. lia. Qed.

(** The loop from the first sample on. *)
Lemma loop_cuts check turn generation utterance format count pcm sequence calls :
  wf_format format -> 0 <= count -> zlen pcm = count * (format.(channels) * bytes_per_sample format.(sample_format)) ->
  exists r, frame_loop check turn generation utterance format (format.(channels) * bytes_per_sample format.(sample_format))
      (format.(sample_rate_hz) * 20) count pcm (2 * Z.to_nat count) 0 1 sequence calls [] = Val r /\
    forall frames, r = Ok frames -> cut_of turn generation utterance format pcm sequence frames.
Proof.
  intros Wf Q L. assert (0 < sample_rate_hz format * 20) as NP by (destruct Wf; lia).
  destruct (frame_loop_spec check turn generation utterance format _ _ _ pcm Wf eq_refl NP L (2 * Z.to_nat count) 0 1 sequence calls []) as (r & E & R);
    [lia|lia|intros _; reflexivity|destruct (0 <? _); lia|].
  exists r. split; [exact E|]. intros frames K. destruct (R _ K) as (new & -> & [F1 F2 F3]). cbn [app] in *. split; [exact F1| |exact F3].
  eapply Forall_impl; [exact F2|]. cbn beta. unfold largest_samples. naive_solver.
Qed.

(** Decoding never panics and never runs out of fuel. *)
Lemma decode_spec check frame_size max turn generation utterance sequence audio : Forall is_byte audio.(audio_bytes) ->
  exists r, decode_from_sequence_with_check check frame_size max turn generation utterance sequence audio = Val r /\
  forall frames, r = Ok frames -> audio.(audio_format) = Wav /\ zlen audio.(audio_bytes) <= max /\
    exists chunks format, wav_file_of audio.(audio_bytes) chunks format /\
      cut_of turn generation utterance format (data_of chunks) sequence frames.
Proof.
  intros B. unfold decode_from_sequence_with_check. destruct (checked check 0) as [calls|]; [|by eexists]. cbn [attempt].
  destruct (audio_format audio); [by eexists|]. destruct (max <? _) eqn:M; [by eexists|]. breflect.
  destruct (parse_wav_total check (audio_bytes audio) max calls) as [r P]. rewrite P. cbn [exec_bind].
  destruct r as [[[format n] calls1]|]; [|by eexists]. cbn [attempt]. apply parse_wav_Ok in P as (chunks & W & Hn); [|done].
  pose proof (wf_pcm _ _ _ W) as Wf. destruct (frame_alignment_bytes_Ok _ Wf) as [EA HA]. rewrite EA. cbn [attempt].
  destruct (negb _) eqn:D; [by eexists|]. breflect. unfold frame_sample_numerator.
  destruct (checked_mul _ _) as [numerator|] eqn:N; [|by eexists]. unfold checked_mul in N. split_ifs_in N; simplify_eq.
  cbn [ok_or attempt]. destruct (validate_largest_frame _ _); [|by eexists]. cbn [attempt]. unfold FRAME_DURATION_MILLISECONDS.
  assert (0 < sample_rate_hz format * 20) as NP by (destruct Wf; lia). unfold frame_count_upper_bound.
  destruct (ceil_slots_total (zlen (data_of chunks) / (channels format * bytes_per_sample (sample_format format))) _ NP) as [c ->].
  cbn [exec_bind]. destruct c as [c|]; [|by eexists]. cbn [ok_or result_bind attempt].
  destruct (checked_mul _ _) as [metadata|]; [|by eexists]. cbn [ok_or attempt]. destruct (max <? metadata); [by eexists|].
  destruct (checked check calls1) as [calls2|]; [|by eexists]. cbn [attempt].
  destruct (collect_total check (audio_bytes audio) ([], calls2)) as [r C]. rewrite C. cbn [exec_bind].
  destruct r as [[pcm calls3]|]; [|by eexists]. cbn [attempt]. apply (collect_Ok _ _ _ _ _ _ (wf_chunks _ _ _ W)) in C as ->.
  destruct (checked check calls3) as [calls4|]; [|by eexists]. cbn [attempt].
  assert (zlen (data_of chunks) = zlen (data_of chunks) / (channels format * bytes_per_sample (sample_format format)) * (channels format * bytes_per_sample (sample_format format))) as L
    by (rewrite (Z.div_mod (zlen (data_of chunks)) (channels format * bytes_per_sample (sample_format format))) at 1; lia).
  pose proof (Z.div_pos (zlen (data_of chunks)) (channels format * bytes_per_sample (sample_format format)) (zlen_nonneg _) ltac:(lia)) as Q.
  destruct (loop_cuts check turn generation utterance format _ _ sequence calls4 Wf Q L) as (r & E & R).
  exists r. split; [exact E|]. intros frames K. split; [reflexivity|]. split; [lia|]. exists chunks, format. split; [exact W|exact (R _ K)].
Qed.

(** C30. Decoding encoded audio for streaming neither panics nor runs on without
    end, whatever the bytes, the limits and the cancellation check are. When it
    succeeds the bytes are a WAV container whose chunks follow the grammar and
    which the speech boundary's own validation accepts, and the frames are the
    audio of its data chunks, every byte of it once and in order, as valid
    frames of one format of at most twenty milliseconds each, numbered
    consecutively from the first sequence number. *)
Theorem wav_decoding_exact check frame_size max turn generation utterance sequence audio :
  Forall is_byte audio.(audio_bytes) -> max <= i64_max ->
  exists r, decode_from_sequence_with_check check frame_size max turn generation utterance sequence audio = Val r /\
  forall frames, r = Ok frames -> audio_validate audio = Val (Ok tt) /\ zlen audio.(audio_bytes) <= max /\
    exists chunks format, wav_file_of audio.(audio_bytes) chunks format /\
      cut_of turn generation utterance format (data_of chunks) sequence frames.
Proof.
  intros B M. destruct (decode_spec check frame_size max turn generation utterance sequence audio B) as (r & E & R).
  exists r. split; [exact E|]. intros frames K. destruct (R _ K) as (F & L & chunks & format & W & C). split; [|split; [exact L|]].
  - unfold audio_validate. rewrite F. eapply decoded_is_valid; [lia|exact W].
  - exists chunks, format. split; [exact W|exact C].
Qed.

(** ** Files that are decoded *)

Definition le_bytes (n : nat) (v : Z) : list Z := rev (be_bytes n v).

Lemma read_le_bytes e n v : 0 <= v < 256 ^ Z.of_nat n -> read_le e n (le_bytes n v) = Ok v.
Proof.
  intros V. unfold read_le, le_bytes, le_value. rewrite bool_decide_true by (by rewrite length_rev, be_bytes_length).
  by rewrite rev_involutive, be_value_bytes.
Qed.

Lemma le_bytes_length n v : length (le_bytes n v) = n.
Proof. unfold le_bytes. by rewrite length_rev, be_bytes_length. Qed.

Lemma le_bytes_bytes n v : Forall is_byte (le_bytes n v).
Proof. apply Forall_rev, be_bytes_bytes. Qed.

(** A chunk, and a file of chunks, as the format writes them. *)
Definition write_chunk (c : list Z * list Z) : list Z :=
  c.1 ++ le_bytes 4 (zlen c.2) ++ c.2 ++ repeat 0 (Z.to_nat (zlen c.2 mod 2)).
Definition write_riff (chunks : list (list Z * list Z)) : list Z :=
  let body := concat (map write_chunk chunks) in ascii "RIFF" ++ le_bytes 4 (4 + zlen body) ++ ascii "WAVE" ++ body.
Definition write_format (f : PcmFormat) : list Z :=
  let alignment := f.(channels) * 2 in
  le_bytes 2 1 ++ le_bytes 2 f.(channels) ++ le_bytes 4 f.(sample_rate_hz) ++ le_bytes 4 (f.(sample_rate_hz) * alignment)
    ++ le_bytes 2 alignment ++ le_bytes 2 16.
Definition write_wav (f : PcmFormat) (audio : list Z) : list Z :=
  write_riff [(ascii "fmt ", write_format f); (ascii "data", audio)].

Lemma write_chunk_long c : zlen c.2 <= zlen (write_chunk c).
Proof.
  unfold write_chunk. rewrite !zlen_app. pose proof (zlen_nonneg c.1). pose proof (zlen_nonneg (le_bytes 4 (zlen c.2))).
  pose proof (zlen_nonneg (repeat 0 (Z.to_nat (zlen c.2 mod 2)))). lia.
Qed.

Lemma write_chunked chunks : Forall (fun c => length c.1 = 4%nat) chunks -> zlen (concat (map write_chunk chunks)) < 2 ^ 32 ->
  chunked read_u32_le (concat (map write_chunk chunks)) chunks.
Proof.
  induction 1 as [|[id body] chunks L F IH]; intros B; [constructor|]. cbn [map concat] in *. rewrite zlen_app in B.
  unfold write_chunk at 1 in B. cbn [fst snd] in *. rewrite !zlen_app in B. pose proof (zlen_nonneg id). pose proof (zlen_nonneg body).
  pose proof (zlen_nonneg (le_bytes 4 (zlen body))). pose proof (zlen_nonneg (repeat 0 (Z.to_nat (zlen body mod 2)))).
  pose proof (zlen_nonneg (concat (map write_chunk chunks))). pose proof (Z.mod_pos_bound (zlen body) 2 ltac:(lia)).
  unfold write_chunk at 1. cbn [fst snd]. rewrite <- !app_assoc. constructor; [done|apply le_bytes_length| |unfold zlen at 1; rewrite repeat_length; lia|apply IH; lia].
  apply read_le_bytes. change (256 ^ Z.of_nat 4) with (2 ^ 32). lia.
Qed.

Lemma slice_prefix (a b c : list Z) n m : length a = n -> length b = (m - n)%nat -> slice n m (a ++ b ++ c) = b.
Proof. intros <- L. unfold slice. rewrite drop_app_length, <- L. apply take_app_length. Qed.

Lemma format_fields (a b c d e f : list Z) : length a = 2%nat -> length b = 2%nat -> length c = 4%nat -> length d = 4%nat ->
  length e = 2%nat -> length f = 2%nat -> let h := a ++ b ++ c ++ d ++ e ++ f in
  get_range 0 16 h = Some h /\ slice 0 2 h = a /\ slice 2 4 h = b /\ slice 4 8 h = c /\ slice 8 12 h = d /\
  slice 12 14 h = e /\ slice 14 16 h = f.
Proof.
  intros La Lb Lc Ld Le Lf. destruct a as [|? [|? [|]]], b as [|? [|? [|]]], e as [|? [|? [|]]], f as [|? [|? [|]]]; try discriminate.
  by destruct c as [|? [|? [|? [|? [|]]]]], d as [|? [|? [|? [|? [|]]]]].
Qed.

Lemma parse_format_write f : wf_format f -> f.(sample_format) = Signed16LittleEndian -> f.(channels) <= 2 ->
  f.(sample_rate_hz) * (f.(channels) * 2) <= u32_max -> parse_format (write_format f) = Ok f.
Proof.
  intros Wf S C M. unfold parse_format, write_format.
  destruct (format_fields (le_bytes 2 1) (le_bytes 2 f.(channels)) (le_bytes 4 f.(sample_rate_hz)) (le_bytes 4 (f.(sample_rate_hz) * (f.(channels) * 2)))
    (le_bytes 2 (f.(channels) * 2)) (le_bytes 2 16)) as (-> & K1 & K2 & K3 & K4 & K5 & K6); [apply le_bytes_length..|].
  cbn [ok_or result_bind]. rewrite K1, K2, K3, K4, K5, K6. unfold read_u16_le, read_u32_le. destruct (frame_alignment_bytes_Ok f Wf) as [EA HA].
  rewrite S in EA. cbn [bytes_per_sample] in EA. pose proof (PcmFormat_new_of f Wf) as P. rewrite S in P. destruct Wf as [R H].
  assert (0 < sample_rate_hz f * (channels f * 2)) by (apply Z.mul_pos_pos; lia).
  rewrite !read_le_bytes by (cbn; ints). cbn [result_bind]. rewrite !Z.eqb_refl, !(proj2 (Z.leb_le _ _)) by lia. cbn [negb andb orb].
  rewrite P. cbn [result_bind]. rewrite EA. cbn [result_bind]. rewrite (proj2 (Z.leb_le _ _)) by ints. cbn [result_bind].
  rewrite (proj2 (Z.leb_le _ _) M). cbn [result_bind]. by rewrite !Z.eqb_refl.
Qed.

Lemma walk_written {S} (visit : list Z -> list Z -> S -> aresult S) chunks s :
  Forall (fun c => length c.1 = 4%nat) chunks -> zlen (write_riff chunks) < 2 ^ 32 ->
  walk_chunks invalid_wav_error read_u32_le visit (write_riff chunks) s = Val (visit_all visit chunks s).
Proof.
  intros F B. unfold walk_chunks, write_riff in *. set (body := concat (map write_chunk chunks)) in *.
  rewrite !app_assoc in *. set (head := (ascii "RIFF" ++ le_bytes 4 (4 + zlen body)) ++ ascii "WAVE") in *.
  assert (zlen head = 12) as H by (unfold head; rewrite !zlen_app; unfold zlen; by rewrite le_bytes_length).
  rewrite zlen_app in B. rewrite <- H. apply walk_complete; [rewrite zlen_app; ints|rewrite length_app; lia|].
  apply write_chunked; [done|]. fold body. lia.
Qed.

Lemma written_header chunks : zlen (write_riff chunks) < 2 ^ 32 ->
  zlen (write_riff chunks) = 12 + zlen (concat (map write_chunk chunks)) /\
  slice 0 4 (write_riff chunks) = ascii "RIFF" /\ slice 8 12 (write_riff chunks) = ascii "WAVE" /\
  declares_its_size read_u32_le invalid_wav_error (write_riff chunks) = Ok tt.
Proof.
  intros B. unfold write_riff in *. set (body := concat (map write_chunk chunks)) in *. pose proof (zlen_nonneg body).
  assert (zlen (ascii "RIFF" ++ le_bytes 4 (4 + zlen body) ++ ascii "WAVE" ++ body) = 12 + zlen body) as L
    by (rewrite !zlen_app; change (zlen (ascii "RIFF")) with 4; change (zlen (ascii "WAVE")) with 4; unfold zlen at 1; rewrite le_bytes_length; lia).
  split; [exact L|]. rewrite L in B. split; [by apply (slice_prefix [] (ascii "RIFF"))|].
  split; [rewrite app_assoc; by apply slice_prefix|]. unfold declares_its_size. rewrite (slice_prefix (ascii "RIFF") (le_bytes 4 _)) by done.
  unfold read_u32_le. rewrite read_le_bytes by (change (256 ^ Z.of_nat 4) with (2 ^ 32); lia). cbn [result_bind]. rewrite L.
  unfold checked_add. rewrite (proj2 (Z.leb_le _ _)) by ints. cbn [is_some_and]. rewrite (proj2 (Z.eqb_eq _ _)); [reflexivity|lia].
Qed.

Section RoundTrip.
Context (f : PcmFormat) (audio : list Z) (frame_size max : Z) (turn : TurnId) (generation : GenerationId) (utterance : UtteranceId).
Let alignment := f.(channels) * 2.
Let samples := zlen audio / alignment.

(** What the decoder supports: sixteen-bit audio of one or two channels, whole
    samples, within the limits on bytes and on frames. *)
Record supported : Prop := {
  su_format : wf_format f /\ f.(sample_format) = Signed16LittleEndian /\ f.(channels) <= 2 /\ f.(sample_rate_hz) * alignment <= u32_max;
  su_audio : audio <> [] /\ Forall is_byte audio /\ zlen audio mod alignment = 0;
  su_bytes : zlen (write_wav f audio) <= max /\ max < 2 ^ 32;
  su_frame : (f.(sample_rate_hz) * 20 + 999) / 1000 * alignment <= MAX_PCM_FRAME_BYTES;
  su_frames : 0 <= frame_size /\ Z.min ((samples * 1000 + (f.(sample_rate_hz) * 20 - 1)) / (f.(sample_rate_hz) * 20)) samples * frame_size <= max;
}.

Lemma parse_written calls : supported ->
  exists calls', parse_wav (fun _ => Ok tt) (write_wav f audio) max calls = Val (Ok (f, zlen audio, calls')).
Proof.
  intros [(F1 & F2 & F3 & F4) (A1 & _ & _) [B1 B2] _ _]. unfold write_wav in *. set (chunks := [_; _]) in *.
  destruct (written_header chunks ltac:(lia)) as (L & H1 & H2 & D). pose proof (zlen_nonneg (concat (map write_chunk chunks))).
  unfold parse_wav. rewrite H1, H2, D, !bool_decide_true by reflexivity. rewrite (proj2 (Z.ltb_ge _ _)) by lia. cbn [negb orb attempt].
  rewrite walk_written; [|unfold chunks; by repeat constructor|lia]. unfold chunks. cbn [exec_bind visit_all visit_parse checked result_bind].
  rewrite bool_decide_true, parse_format_write by done. cbn [result_bind is_some_and visit_parse checked].
  rewrite bool_decide_false, bool_decide_true by done. assert (zlen audio <= max) as LA.
  { revert B1. rewrite L. unfold chunks. cbn [map concat]. rewrite !zlen_app, zlen_nil. pose proof (zlen_nonneg (write_chunk (ascii "fmt ", write_format f))).
    pose proof (write_chunk_long (ascii "data", audio)) as W. cbn [snd] in W. lia. }
  unfold checked_add. pose proof (zlen_nonneg audio). rewrite (proj2 (Z.leb_le _ _)) by ints. rewrite Z.add_0_l, (proj2 (Z.leb_le _ _) LA).
  cbn [result_bind ok_or]. destruct (zlen audio =? 0) eqn:Z0; [|by eexists]. apply Z.eqb_eq, zlen_zero in Z0. done.
Qed.
Lemma numbers_written : supported -> 0 < alignment <= 4 /\ samples * alignment = zlen audio /\ 0 < samples < 2 ^ 32 /\
  frame_alignment_bytes f = Ok alignment /\ frame_sample_numerator f = Ok (f.(sample_rate_hz) * 20) /\
  validate_largest_frame f (f.(sample_rate_hz) * 20) = Ok tt /\
  exists bound, frame_count_upper_bound samples (f.(sample_rate_hz) * 20) = Val (Ok bound) /\
    checked_mul bound frame_size = Some (bound * frame_size) /\ bound * frame_size <= max.
Proof.
  intros Su. pose proof Su as [(F1 & F2 & F3 & F4) (A1 & A2 & A3) [B1 B2] Fr [S1 S2]].
  destruct (frame_alignment_bytes_Ok f F1) as [EA HA]. rewrite F2 in EA, HA. cbn [bytes_per_sample] in EA, HA. fold alignment in EA, HA.
  assert (alignment <= 4) by (unfold alignment; lia). assert (samples * alignment = zlen audio) as SA
    by (unfold samples; rewrite (Z.div_mod (zlen audio) alignment) at 2; lia).
  assert (0 < zlen audio < 2 ^ 32) as ZA.
  { split; [pose proof (zlen_nonneg audio); assert (zlen audio <> 0) by (intros K; by apply zlen_zero in K); lia|].
    pose proof (write_chunk_long (ascii "data", audio)) as W. cbn [snd] in W. revert B1. unfold write_wav. set (chunks := [_; _]). intros B1.
    destruct (written_header chunks ltac:(lia)) as (L & _). revert L. unfold chunks at 2. cbn [map concat]. rewrite !zlen_app, zlen_nil.
    pose proof (zlen_nonneg (write_chunk (ascii "fmt ", write_format f))). lia. }
  assert (0 < samples < 2 ^ 32) as SP by nia. destruct F1 as [R C].
  assert (checked_mul (sample_rate_hz f) 20 = Some (sample_rate_hz f * 20)) as M by (unfold checked_mul; rewrite (proj2 (Z.leb_le _ _)); [done|ints]).
  do 3 (split; [lia|]). split; [exact EA|]. unfold frame_sample_numerator, FRAME_DURATION_MILLISECONDS. rewrite M. split; [reflexivity|].
  assert (0 < (sample_rate_hz f * 20 + 999) / 1000) by (apply Z.div_str_pos; lia).
  unfold validate_largest_frame, frame_count_upper_bound, ceil_slots, MILLISECONDS_PER_SECOND, checked_add, checked_mul.
  rewrite (proj2 (Z.leb_le _ _)) by ints. cbn [ok_or result_bind]. rewrite EA. cbn [result_bind]. change (1000 - 1) with 999.
  split. { rewrite (proj2 (Z.leb_le _ _)), (proj2 (Z.ltb_lt _ _)), (proj2 (Z.leb_le _ _)); [done|lia|apply Z.mul_pos_pos; lia|unfold MAX_PCM_FRAME_BYTES in *; ints]. }
  rewrite !(proj2 (Z.leb_le _ _)) by ints. rewrite (proj2 (Z.eqb_neq _ _)) by lia. cbn [exec_bind ok_or result_bind].
  eexists. split; [reflexivity|]. rewrite (proj2 (Z.leb_le _ _)); [|ints]. split; [reflexivity|exact S2].
Qed.

(** The decoder reads what the format writes: a WAV file of sixteen-bit
    audio within the limits, written as a RIFF container with a format and a
    data chunk, is decoded without an error, and the frames are that audio. *)
Theorem wav_round_trip : supported ->
  exists frames, decode frame_size max turn generation utterance (SynthesizedAudio_new (write_wav f audio) Wav) = Val (Ok frames) /\
    cut_of turn generation utterance f audio 0 frames.
Proof.
  intros Su. destruct (parse_written 1 Su) as [calls P]. pose proof Su as [(F1 & F2 & F3 & F4) (A1 & A2 & A3) [B1 B2] Fr _].
  destruct (numbers_written Su) as (HA & SA & SP & EA & EN & EL & bound & EB & EM & LM).
  unfold decode, decode_from_sequence_with_check. cbn [checked result_bind attempt audio_format SynthesizedAudio_new audio_bytes].
  rewrite (proj2 (Z.ltb_ge _ _) B1), P. cbn [exec_bind attempt]. rewrite EA. cbn [attempt]. rewrite A3. cbn [negb Z.eqb].
  rewrite EN. cbn [attempt]. rewrite EL. cbn [attempt]. fold samples. rewrite EB. cbn [exec_bind attempt]. rewrite EM. cbn [ok_or attempt].
  rewrite (proj2 (Z.ltb_ge _ _) LM). unfold write_wav. rewrite walk_written; [|by repeat constructor|unfold write_wav in B1; lia].
  cbn [visit_all visit_data checked result_bind]. rewrite bool_decide_false by done. cbn [result_bind checked visit_data].
  rewrite bool_decide_true by done. cbn [result_bind exec_bind attempt app].
  assert (alignment = channels f * bytes_per_sample (sample_format f)) as AE by (by rewrite F2).
  assert (0 < sample_rate_hz f * 20) as NP by (destruct F1; lia).
  edestruct (frame_loop_Ok (fun _ => Ok tt) turn generation utterance f alignment (sample_rate_hz f * 20) samples audio F1 AE NP (eq_sym SA)
    (2 * Z.to_nat samples) 0 1 0) as [frames E]; [done|lia|destruct F1; ints|exact Fr|lia|lia|intros _; reflexivity|lia|lia|destruct (0 <? _); lia|].
  exists frames. split; [exact E|].
  edestruct (loop_cuts (fun _ => Ok tt) turn generation utterance f samples audio 0) as (r & E' & R); [exact F1|lia|by rewrite <- AE|].
  rewrite <- AE, E in E'. apply R. by injection E' as <-.
Qed.
End RoundTrip.

(** ** Witnesses *)

Definition mono_8khz : PcmFormat := {| sample_rate_hz := 8000; channels := 1; sample_format := Signed16LittleEndian |}.
Definition sample_audio : list Z := map (fun n => Z.of_nat n mod 256) (seq 0 322).

Lemma wav_round_trip_witness : supported mono_8khz sample_audio 96 4096 /\
  exists frames, decode 96 4096 (TurnId_new 1) (GenerationId_new 1) (UtteranceId_new 1) (SynthesizedAudio_new (write_wav mono_8khz sample_audio) Wav) = Val (Ok frames) /\
    cut_of (TurnId_new 1) (GenerationId_new 1) (UtteranceId_new 1) mono_8khz sample_audio 0 frames.
Proof.
  assert (supported mono_8khz sample_audio 96 4096) as Su.
  { split.
    - do 3 (split; [vm_compute; repeat split; congruence|]). vm_compute; congruence.
    - split; [discriminate|]. split; [apply (bool_decide_unpack _); by vm_compute|reflexivity].
    - split; [vm_compute; congruence|reflexivity].
    - vm_compute; congruence.
    - split; vm_compute; congruence. }
  split; [exact Su|exact (wav_round_trip mono_8khz sample_audio 96 4096 (TurnId_new 1) (GenerationId_new 1) (UtteranceId_new 1) Su)].
Defined.

(** Two frames, the second of a single sample. *)
Lemma sample_decoded : exists frames, decode_from_sequence_with_check (fun _ => Ok tt) 96 4096 (TurnId_new 1) (GenerationId_new 1) (UtteranceId_new 1) 7
    (SynthesizedAudio_new (write_wav mono_8khz sample_audio) Wav) = Val (Ok frames) /\
  map (fun f => (zlen f.(frame_bytes), f.(frame_sequence))) frames = [(320, 7); (2, 8)].
Proof. eexists. split; vm_compute; reflexivity. Qed.

Lemma wav_decoding_exact_witness : Forall is_byte (write_wav mono_8khz sample_audio) /\
  exists frames chunks format, decode_from_sequence_with_check (fun _ => Ok tt) 96 4096 (TurnId_new 1) (GenerationId_new 1) (UtteranceId_new 1) 7
    (SynthesizedAudio_new (write_wav mono_8khz sample_audio) Wav) = Val (Ok frames) /\
    wav_file_of (write_wav mono_8khz sample_audio) chunks format /\ cut_of (TurnId_new 1) (GenerationId_new 1) (UtteranceId_new 1) format (data_of chunks) 7 frames.
Proof.
  assert (Forall is_byte (write_wav mono_8khz sample_audio)) as B by (apply (bool_decide_unpack _); by vm_compute).
  split; [exact B|].
  destruct (wav_decoding_exact (fun _ => Ok tt) 96 4096 (TurnId_new 1) (GenerationId_new 1) (UtteranceId_new 1) 7
    (SynthesizedAudio_new (write_wav mono_8khz sample_audio) Wav) B ltac:(vm_compute; discriminate)) as (r & E & R).
  destruct sample_decoded as (frames & D & _). rewrite D in E. injection E as <-.
  destruct (R frames eq_refl) as (_ & _ & chunks & format & W & C). exists frames, chunks, format.
  split; [exact D|]. split; [exact W|exact C].
Defined.
