(* ===== verification/Base64.v ===== *)
(** * Base64

    [crates/model-adapters/src/base64.rs]: the encoding of audio in a provider's
    request body, and that the standard decoding undoes it. *)

From S2P Require Import Prelude RustStr Bytes.

Local Open Scope Z_scope.

Definition ALPHABET : rstr := lit "ABCDEFGHIJKLMNOPQRSTUVWXYZabcdefghijklmnopqrstuvwxyz0123456789+/".

(** The four symbols of a chunk of one to three bytes. *)
Definition encode_chunk (chunk : list Z) : rstr :=
  let group i := default 0 (chunk !! i) in
  let packed := Z.lor (Z.lor (Z.shiftl (group 0%nat) 16) (Z.shiftl (group 1%nat) 8)) (group 2%nat) in
  map (fun index : Z =>
    if index <=? zlen chunk then
      let symbol := Z.land (Z.shiftr packed (18 - 6 * index)) 63 in
      default 0 (ALPHABET !! Z.to_nat symbol)
    else 61) [0; 1; 2; 3].

(** [bytes.chunks(3)]. *)
Fixpoint encode (bytes : list Z) : rstr :=
  match bytes with
  | [] => []
  | a :: b :: c :: rest => encode_chunk [a; b; c] ++ encode rest
  | chunk => encode_chunk chunk
  end.

(** ** The standard decoding *)

Definition symbol_value (c : Z) : option Z :=
  if (65 <=? c) && (c <=? 90) then Some (c - 65)
  else if (97 <=? c) && (c <=? 122) then Some (c - 71)
  else if (48 <=? c) && (c <=? 57) then Some (c + 4)
  else if c =? 43 then Some 62
  else if c =? 47 then Some 63
  else None.

(** Groups of four symbols; padding only at the end, and its bits are zero. *)
Fixpoint decode64 (s : rstr) : option (list Z) :=
  match s with
  | [] => Some []
  | c0 :: c1 :: c2 :: c3 :: rest =>
      v0 ← symbol_value c0; v1 ← symbol_value c1;
      if (c2 =? 61) && (c3 =? 61) && is_empty rest then
        if v1 mod 16 =? 0 then Some [v0 * 4 + v1 / 16] else None
      else
        v2 ← symbol_value c2;
        if (c3 =? 61) && is_empty rest then
          if v2 mod 4 =? 0 then Some [v0 * 4 + v1 / 16; v1 mod 16 * 16 + v2 / 4] else None
        else
          v3 ← symbol_value c3; tail ← decode64 rest;
          Some (v0 * 4 + v1 / 16 :: v1 mod 16 * 16 + v2 / 4 :: v2 mod 4 * 64 + v3 :: tail)
  | _ => None
  end.

(** ** The round trip *)

(** Every value has its symbol, which is not the padding. *)
Lemma symbols_checked : forallb (fun n => let c := default 0 (ALPHABET !! n) in bool_decide (symbol_value c = Some (Z.of_nat n)) && negb (c =? 61)) (seq 0 64) = true.
Proof. reflexivity. Qed.

Lemma symbol_round_trip v : 0 <= v < 64 ->
  symbol_value (default 0 (ALPHABET !! Z.to_nat v)) = Some v /\ (default 0 (ALPHABET !! Z.to_nat v) =? 61) = false.
Proof.
  intros V. pose proof (proj1 (forallb_forall _ _) symbols_checked (Z.to_nat v) ltac:(apply in_seq; lia)) as H. cbv zeta in H.
  apply andb_prop in H as [H1 H2]. apply bool_decide_eq_true in H1. rewrite Z2Nat.id in H1 by lia. apply negb_true_iff in H2. done.
Qed.

Lemma lor_low x k c : 0 <= k -> 0 <= c < 2 ^ k -> Z.lor (Z.shiftl x k) c = x * 2 ^ k + c.
Proof.
  intros K C. rewrite <- Z.shiftl_mul_pow2 by done. pose proof (Z.add_lor_land (Z.shiftl x k) c) as A.
  assert (Z.land (Z.shiftl x k) c = 0) as L; [|lia]. apply Z.bits_inj'. intros n N. rewrite Z.land_spec, Z.bits_0.
  destruct (Z.lt_ge_cases n k); [by rewrite Z.shiftl_spec_low|].
  rewrite <- (Z.mod_small c (2 ^ k)) by done. rewrite Z.mod_pow2_bits_high by lia. apply andb_false_r.
Qed.

Lemma packed_value a b c : is_byte a -> is_byte b -> is_byte c ->
  Z.lor (Z.lor (Z.shiftl a 16) (Z.shiftl b 8)) c = a * 65536 + b * 256 + c.
Proof.
  unfold is_byte. intros A B C. replace (Z.shiftl a 16) with (Z.shiftl (Z.shiftl a 8) 8) by (by rewrite Z.shiftl_shiftl by lia).
  rewrite <- Z.shiftl_lor, lor_low, lor_low by lia. change (2 ^ 8) with 256. lia.
Qed.

Lemma sextet p k : 0 <= k -> Z.land (Z.shiftr p k) 63 = p / 2 ^ k mod 64.
Proof. intros K. rewrite Z.shiftr_div_pow2 by done. change 63 with (Z.ones 6). by rewrite Z.land_ones. Qed.

Lemma sextets a b c : is_byte a -> is_byte b -> is_byte c -> let p := a * 65536 + b * 256 + c in
  p / 2 ^ 18 mod 64 = a / 4 /\ p / 2 ^ 12 mod 64 = a mod 4 * 16 + b / 16 /\
  p / 2 ^ 6 mod 64 = b mod 16 * 4 + c / 64 /\ p / 2 ^ 0 mod 64 = c mod 64.
Proof. unfold is_byte. intros A B C. cbn. repeat split; Z.div_mod_to_equations; lia. Qed.

(** The symbols of a chunk, by their values. *)
Definition symbol (v : Z) : Z := default 0 (ALPHABET !! Z.to_nat v).

Lemma encode_chunk_values chunk a b c : chunk = [a; b; c] \/ chunk = [a; b] /\ c = 0 \/ chunk = [a] /\ b = 0 /\ c = 0 ->
  is_byte a -> is_byte b -> is_byte c ->
  encode_chunk chunk = [symbol (a / 4); symbol (a mod 4 * 16 + b / 16);
    if 2 <=? zlen chunk then symbol (b mod 16 * 4 + c / 64) else 61; if 3 <=? zlen chunk then symbol (c mod 64) else 61].
Proof.
  intros E A B C. unfold encode_chunk.
  assert (default 0 (chunk !! 0%nat) = a /\ default 0 (chunk !! 1%nat) = b /\ default 0 (chunk !! 2%nat) = c /\ 1 <= zlen chunk) as (-> & -> & -> & L)
    by (destruct E as [->|[[-> ->]|(-> & -> & ->)]]; by vm_compute).
  rewrite packed_value by done. cbn [map]. rewrite !sextet by lia. rewrite !(proj2 (Z.leb_le _ (zlen chunk))) by lia.
  change (18 - 6 * 0) with 18. change (18 - 6 * 1) with 12. change (18 - 6 * 2) with 6. change (18 - 6 * 3) with 0.
  destruct (sextets a b c A B C) as (-> & -> & -> & ->). unfold symbol. reflexivity.
Qed.

Lemma symbol_value_symbol v : 0 <= v < 64 -> symbol_value (symbol v) = Some v.
Proof. apply symbol_round_trip. Qed.

Lemma symbol_padding v : 0 <= v < 64 -> (symbol v =? 61) = false.
Proof. apply symbol_round_trip. Qed.

(** Induction on the chunks. *)
Lemma chunks3_ind (P : list Z -> Prop) : P [] -> (forall a, P [a]) -> (forall a b, P [a; b]) ->
  (forall a b c rest, P rest -> P (a :: b :: c :: rest)) -> forall l, P l.
Proof.
  intros H0 H1 H2 H3. fix rec 1. intros [|a [|b [|c rest]]]; [exact H0|exact (H1 a)|exact (H2 a b)|exact (H3 a b c rest (rec rest))].
Qed.

Section Groups.
Context (v0 v1 : Z) (V0 : 0 <= v0 < 64) (V1 : 0 <= v1 < 64).

Lemma decode_one : v1 mod 16 = 0 -> decode64 [symbol v0; symbol v1; 61; 61] = Some [v0 * 4 + v1 / 16].
Proof using V0 V1.
  intros E. cbn [decode64]. rewrite !symbol_value_symbol by done. cbn [mbind option_bind andb is_empty Z.eqb Pos.eqb]. by rewrite E.
Qed.

Context (v2 : Z) (V2 : 0 <= v2 < 64).

Lemma decode_two : v2 mod 4 = 0 ->
  decode64 [symbol v0; symbol v1; symbol v2; 61] = Some [v0 * 4 + v1 / 16; v1 mod 16 * 16 + v2 / 4].
Proof using V0 V1 V2.
  intros E. cbn [decode64]. rewrite !symbol_value_symbol, symbol_padding by done. cbn [mbind option_bind andb is_empty Z.eqb Pos.eqb]. by rewrite E.
Qed.

Lemma decode_three v3 rest bytes : 0 <= v3 < 64 -> decode64 rest = Some bytes ->
  decode64 ([symbol v0; symbol v1; symbol v2; symbol v3] ++ rest) =
    Some ([v0 * 4 + v1 / 16; v1 mod 16 * 16 + v2 / 4; v2 mod 4 * 64 + v3] ++ bytes).
Proof using V0 V1 V2.
  intros V3 E. cbn [app decode64]. rewrite !symbol_value_symbol, !symbol_padding by done.
  cbn [mbind option_bind andb is_empty Z.eqb Pos.eqb]. by rewrite E.
Qed.
End Groups.

(** The standard decoding of an encoding is the bytes again, and the
    encoding has four symbols for every three bytes begun. *)
Theorem base64_round_trip bytes : Forall is_byte bytes ->
  decode64 (encode bytes) = Some bytes /\ zlen (encode bytes) = (zlen bytes + 2) / 3 * 4.
Proof.
  induction bytes as [|a|a b|a b c rest IH] using chunks3_ind; intros B; [by split|..].
  - apply Forall_cons_1 in B as [B _]. cbn [encode]. rewrite (encode_chunk_values [a] a 0 0 (or_intror (or_intror (conj eq_refl (conj eq_refl eq_refl)))) B) by (unfold is_byte; lia).
    split; [|reflexivity]. change (zlen [a]) with 1. cbn [Z.leb Z.compare Pos.compare Pos.compare_cont]. unfold is_byte in B.
    rewrite decode_one by (Z.div_mod_to_equations; lia). repeat f_equal. Z.div_mod_to_equations; lia.
  - apply Forall_cons_1 in B as [A B]. apply Forall_cons_1 in B as [B _]. cbn [encode].
    rewrite (encode_chunk_values [a; b] a b 0 (or_intror (or_introl (conj eq_refl eq_refl))) A B) by (unfold is_byte; lia).
    split; [|reflexivity]. change (zlen [a; b]) with 2. cbn [Z.leb Z.compare Pos.compare Pos.compare_cont]. unfold is_byte in A, B.
    rewrite decode_two by (Z.div_mod_to_equations; lia). f_equal. f_equal; [|f_equal]; Z.div_mod_to_equations; lia.
  - apply Forall_cons_1 in B as [A B]. apply Forall_cons_1 in B as [B C]. apply Forall_cons_1 in C as [C R]. destruct (IH R) as [IH1 IH2].
    cbn [encode]. rewrite (encode_chunk_values [a; b; c] a b c (or_introl eq_refl) A B C). change (zlen [a; b; c]) with 3.
    cbn [Z.leb Z.compare Pos.compare Pos.compare_cont]. unfold is_byte in A, B, C. split.
    + rewrite decode_three with (bytes := rest) by first [exact IH1|Z.div_mod_to_equations; lia]. f_equal. cbn [app]. f_equal; [|f_equal; [|f_equal]]; Z.div_mod_to_equations; lia.
    + rewrite zlen_app, IH2. rewrite !zlen_cons, zlen_nil. Z.div_mod_to_equations; lia.
Qed.

Lemma base64_round_trip_witness : Forall is_byte [102; 111; 111; 98] /\
  encode [102; 111; 111; 98] = lit "Zm9vYg==" /\ decode64 (lit "Zm9vYg==") = Some [102; 111; 111; 98].
Proof.
  assert (Forall is_byte [102; 111; 111; 98]) as B by (repeat constructor; lia).
  split; [exact B|]. split; [reflexivity|]. exact (proj1 (base64_round_trip [102; 111; 111; 98] B)).
Defined.
