(* ===== verification/TextProcessing.v ===== *)
(** * Structured text processing

    [crates/runtime/src/text_processing.rs]: instructions and a text in, JSON
    checked against the caller's schema out. [serde_json] is the parameter
    [ClientJson], with the equality of its floating point numbers; the language
    model's answers and the cancellation token are arguments. *)

From S2P Require Import Prelude RustStr Errors Pcm ProtocolQuality Quality Privacy Context MemoryProtocol MemoryRetrieval LanguageInput ClientValues.

Local Open Scope Z_scope.

(** ** [serde_json::Value] *)

(** [BTreeMap::insert]. *)
Fixpoint map_insert (k : rstr) (v : Value) (m : list (rstr * Value)) : list (rstr * Value) :=
  match m with
  | [] => [(k, v)]
  | (k', v') :: rest =>
      match str_cmp k k' with
      | Lt => (k, v) :: m
      | Eq => (k', v) :: rest
      | Gt => (k', v') :: map_insert k v rest
      end
  end.

(** A document as a [Value]: the last of repeated members stays, members are
    ordered by name. *)
Fixpoint as_value (d : Value) : Value :=
  match d with
  | V_array items => V_array (map as_value items)
  | V_object members => V_object (fold_left (fun m kv => map_insert kv.1 kv.2 m) (map (fun kv => (kv.1, as_value kv.2)) members) [])
  | _ => d
  end.

(** [Map::get]. *)
Fixpoint get (k : rstr) (m : list (rstr * Value)) : option Value :=
  match m with
  | [] => None
  | (k', v) :: rest => if bool_decide (k = k') then Some v else get k rest
  end.

Definition as_str (v : Value) : option rstr := match v with V_string s => Some s | _ => None end.
Definition as_array (v : Value) : option (list Value) := match v with V_array l => Some l | _ => None end.
Definition as_object (v : Value) : option (list (rstr * Value)) := match v with V_object m => Some m | _ => None end.
Definition as_bool (v : Value) : option bool := match v with V_bool b => Some b | _ => None end.

(** [==] of floating point numbers, by their texts. *)
Class JsonFloats : Type := float_eq : rstr -> rstr -> bool.

Section Json.
Context `{J : ClientJson, F : JsonFloats}.

Definition read_value (s : rstr) : option Value := as_value <$> from_str s.

(** [Value == Value]. *)
Fixpoint value_eqb (a b : Value) {struct a} : bool :=
  match a, b with
  | V_null, V_null => true
  | V_bool x, V_bool y => Bool.eqb x y
  | V_u64 x, V_u64 y | V_i64 x, V_i64 y => x =? y
  | V_float x, V_float y => float_eq x y
  | V_string x, V_string y => bool_decide (x = y)
  | V_array xs, V_array ys =>
      (fix all2 xs ys := match xs, ys with
       | [], [] => true
       | x :: xs, y :: ys => value_eqb x y && all2 xs ys
       | _, _ => false
       end) xs ys
  | V_object xs, V_object ys =>
      (fix all2 xs ys := match xs, ys with
       | [], [] => true
       | (k, x) :: xs, (l, y) :: ys => bool_decide (k = l) && value_eqb x y && all2 xs ys
       | _, _ => false
       end) xs ys
  | _, _ => false
  end.

(** ** Bounds and errors *)

Definition MAX_TEXT_PROCESSING_INSTRUCTIONS_BYTES : Z := MAX_RUNTIME_GUIDANCE_BYTES.
Definition MAX_TEXT_PROCESSING_INPUT_BYTES : Z := MAX_CONVERSATION_MESSAGE_BYTES.
Definition MAX_TEXT_PROCESSING_OUTPUT_BYTES : Z := 64 * 1024.
Definition MAX_TEXT_PROCESSING_SCHEMA_BYTES : Z := MAX_RESPONSE_SCHEMA_BYTES.
Definition MIN_TEXT_PROCESSING_TURN_ID : Z := u64_max - Z.shiftl 1 32.
Definition MAX_SCHEMA_NODES : Z := 256.
Definition MAX_SCHEMA_DEPTH : Z := 16.

Definition SUPPORTED_SCHEMA_KEYWORDS : list rstr :=
  [lit "type"; lit "properties"; lit "required"; lit "items"; lit "enum"; lit "additionalProperties"].
Definition SUPPORTED_SCHEMA_TYPES : list rstr :=
  [lit "object"; lit "array"; lit "string"; lit "number"; lit "integer"; lit "boolean"; lit "null"].

Definition invalid_request (message : rstr) : RuntimeError := RuntimeError_new Kind_InvalidState Stage_LanguageModel message.
Definition unsupported_schema : RuntimeError :=
  invalid_request (lit "text processing output schema is not a supported JSON Schema").
Definition schema_rejected : RuntimeError :=
  invalid_request (lit "text processing output did not match the requested schema").
Definition output_limit : RuntimeError := invalid_request (lit "text processing output exceeded the requested limit").
Definition empty_output : RuntimeError := invalid_request (lit "text processing produced no output").
Definition cancelled : RuntimeError := invalid_request (lit "text processing was cancelled").
Definition adapter_error (message : rstr) : RuntimeError := RuntimeError_new Kind_Adapter Stage_LanguageModel message.

Inductive TextProcessingWarning : Type :=
| SchemaRetried.

Definition TextProcessingWarning_as_str (w : TextProcessingWarning) : rstr :=
  match w with SchemaRetried => lit "schema_retry" end.

(** ** Schemas *)

(** A loop that counts nodes and stops at the first error. *)
Section TryFold.
Context {A : Type} (f : A -> Z -> rresult Z).
Fixpoint try_fold (l : list A) (nodes : Z) : rresult Z :=
  match l with
  | [] => Ok nodes
  | x :: rest => let? nodes := f x nodes in try_fold rest nodes
  end.
End TryFold.

(** The arms of the match on a keyword; [validate] is the recursive call. *)
Definition validate_keyword (validate : Value -> Z -> rresult Z) (keyword : rstr) (value : Value) (nodes : Z) : rresult Z :=
  if negb (bool_decide (keyword ∈ SUPPORTED_SCHEMA_KEYWORDS)) then Err unsupported_schema
  else if bool_decide (keyword = lit "type") then
    match value with
    | V_string named => if negb (bool_decide (named ∈ SUPPORTED_SCHEMA_TYPES)) then Err unsupported_schema else Ok nodes
    | _ => Err unsupported_schema
    end
  else if bool_decide (keyword = lit "properties") then
    match value with
    | V_object properties => try_fold (fun p => validate p.2) properties nodes
    | _ => Err unsupported_schema
    end
  else if bool_decide (keyword = lit "required") then
    match value with
    | V_array names => if existsb (fun name => negb (is_some (as_str name))) names then Err unsupported_schema else Ok nodes
    | _ => Err unsupported_schema
    end
  else if bool_decide (keyword = lit "items") then validate value nodes
  else if bool_decide (keyword = lit "enum") then
    match value with
    | V_array members => if is_empty members then Err unsupported_schema else Ok nodes
    | _ => Err unsupported_schema
    end
  else if bool_decide (keyword = lit "additionalProperties") then
    match value with V_bool _ => Ok nodes | _ => Err unsupported_schema end
  else Err unsupported_schema.

Fixpoint validate_schema (schema : Value) (depth nodes : Z) {struct schema} : rresult Z :=
  let nodes := nodes + 1 in
  if (MAX_SCHEMA_DEPTH <? depth) || (MAX_SCHEMA_NODES <? nodes) then Err unsupported_schema
  else
    match schema with
    | V_object object => try_fold (fun kv => validate_keyword (fun v n => validate_schema v (depth + 1) n) kv.1 kv.2) object nodes
    | _ => Err unsupported_schema
    end.

Definition matches_type (value : Value) (named : rstr) : bool :=
  if bool_decide (named = lit "object") then is_object value
  else if bool_decide (named = lit "array") then is_some (as_array value)
  else if bool_decide (named = lit "string") then is_some (as_str value)
  else if bool_decide (named = lit "number") then match value with V_u64 _ | V_i64 _ | V_float _ => true | _ => false end
  else if bool_decide (named = lit "integer") then match value with V_u64 _ | V_i64 _ => true | _ => false end
  else if bool_decide (named = lit "boolean") then is_some (as_bool value)
  else if bool_decide (named = lit "null") then match value with V_null => true | _ => false end
  else false.

(** [matching] is the recursive call. *)
Definition matches_object (matching : Value -> Value -> bool) (fields schema : list (rstr * Value)) : bool :=
  let properties := get (lit "properties") schema ≫= as_object in
  match get (lit "required") schema ≫= as_array with
  | Some required => forallb (fun name => match as_str name with Some name => is_some (get name fields) | None => false end) required
  | None => true
  end &&
  (let additional := default true (get (lit "additionalProperties") schema ≫= as_bool) in
   forallb (fun f => match properties ≫= get f.1 with
     | Some property => matching f.2 property
     | None => additional
     end) fields).

Fixpoint matches_schema (value schema : Value) {struct value} : bool :=
  match schema with
  | V_object object =>
      match get (lit "type") object ≫= as_str with Some named => matches_type value named | None => true end
      && match get (lit "enum") object ≫= as_array with Some members => existsb (fun m => value_eqb m value) members | None => true end
      && match value with
         | V_array members =>
             match get (lit "items") object with
             | Some items => forallb (fun member => matches_schema member items) members
             | None => true
             end
         | V_object fields => matches_object (fun v s => matches_schema v s) fields object
         | _ => true
         end
  | _ => false
  end.

(** ** One call *)

Record TextProcessingRequest : Type := {
  tp_instructions : rstr;
  tp_input : rstr;
  tp_output_schema : rstr;
  tp_max_output_bytes : Z;
}.

Definition TextProcessingRequest_new (instructions input output_schema : rstr) (max_output_bytes : Z) : rresult TextProcessingRequest :=
  if is_blank instructions || (MAX_TEXT_PROCESSING_INSTRUCTIONS_BYTES <? blen instructions) then
    Err (invalid_request (lit "text processing instructions are not bounded text"))
  else if is_blank input then Err (invalid_request (lit "text processing input cannot be empty"))
  else if MAX_TEXT_PROCESSING_INPUT_BYTES <? blen input then
    Err (invalid_request (lit "text processing input exceeds the configured limit"))
  else if (max_output_bytes =? 0) || (MAX_TEXT_PROCESSING_OUTPUT_BYTES <? max_output_bytes) then
    Err (invalid_request (lit "text processing output limit is outside the supported range"))
  else if MAX_TEXT_PROCESSING_SCHEMA_BYTES <? blen output_schema then Err unsupported_schema
  else
    let? parsed := ok_or (read_value output_schema) unsupported_schema in
    let? _ := validate_schema parsed 0 0 in
    Ok {| tp_instructions := instructions; tp_input := input; tp_output_schema := value_to_string parsed;
          tp_max_output_bytes := max_output_bytes |}.

Record ProcessedText : Type := {
  processed_output : rstr;
  processed_warnings : list TextProcessingWarning;
}.

(** The counter of identities, which every call shares, and the requests the
    model was sent. *)
Record Calls : Type := {
  synthetic_sequence : Z;
  sent_requests : list GenerationLanguageRequest;
}.

(** The identity's failure restores the counter; its arithmetic wraps. *)
Definition synthetic_identity (sequence : Z) : rresult (TurnId * GenerationId) * Z :=
  let value := sequence in
  let sequence := (sequence - 1) mod 2 ^ 64 in
  if value <? MIN_TEXT_PROCESSING_TURN_ID then
    (Err (invalid_request (lit "text processing identifiers are exhausted for this runtime")), (sequence + 1) mod 2 ^ 64)
  else (Ok (TurnId_new value, GenerationId_new value), sequence).

Definition matching_output (candidate : rstr) (schema : Value) : option rstr :=
  value ← read_value candidate; if matches_schema value schema then Some (value_to_string value) else None.

(** The loop over the deltas. *)
Fixpoint collect (max_output_bytes : Z) (output : rstr) (items : list (aresult GenerationTextDelta)) : rresult rstr :=
  match items with
  | [] => Ok output
  | Err error :: _ => Err (adapter_error error.(adapter_message))
  | Ok d :: rest =>
      if saturating_sub max_output_bytes (blen output) <? blen d.(delta) then Err output_limit
      else collect max_output_bytes (output ++ d.(delta)) rest
  end.

(** [map_err(|error| adapter_error(error.message()))]. *)
Definition adapter_result {A} (r : aresult A) : rresult A :=
  match r with Ok a => Ok a | Err error => Err (adapter_error error.(adapter_message)) end.

Definition generation_input (r : TextProcessingRequest) : rresult LanguageModelInput :=
  adapter_result (
    let? input := instructed r.(tp_instructions) r.(tp_input) in
    with_response_schema (fun s => is_some_and (from_str s) is_object) input r.(tp_output_schema)).

Section Run.
(** What the model streams for the n-th request, and whether the token is
    cancelled before and after it. *)
Context (stream : nat -> GenerationLanguageRequest -> list (aresult GenerationTextDelta)) (cancelled_before cancelled_after : nat -> bool).

Definition generate (r : TextProcessingRequest) (n : nat) (s : Calls) : rresult rstr * Calls :=
  if cancelled_before n then (Err cancelled, s)
  else
    match generation_input r with
    | Err e => (Err e, s)
    | Ok input =>
        let '(identity, sequence) := synthetic_identity s.(synthetic_sequence) in
        match identity with
        | Err e => (Err e, {| synthetic_sequence := sequence; sent_requests := s.(sent_requests) |})
        | Ok (turn_id, generation_id) =>
            match adapter_result (GenerationLanguageRequest_from_input turn_id generation_id input) with
            | Err e => (Err e, {| synthetic_sequence := sequence; sent_requests := s.(sent_requests) |})
            | Ok generation =>
                (let? output := collect r.(tp_max_output_bytes) [] (stream n generation) in
                 if cancelled_after n then Err cancelled
                 else if is_blank output then Err empty_output
                 else Ok output,
                 {| synthetic_sequence := sequence; sent_requests := s.(sent_requests) ++ [generation] |})
            end
        end
    end.

Definition process_text (r : TextProcessingRequest) (s : Calls) : rresult ProcessedText * Calls :=
  match read_value r.(tp_output_schema) with
  | None => (Err unsupported_schema, s)
  | Some schema =>
      let '(first, s) := generate r 0 s in
      match first with
      | Err e => (Err e, s)
      | Ok first =>
          match matching_output first schema with
          | Some output => (Ok {| processed_output := output; processed_warnings := [] |}, s)
          | None =>
              let '(retry, s) := generate r 1 s in
              match retry with
              | Err e => (Err e, s)
              | Ok retry =>
                  match matching_output retry schema with
                  | Some output => (Ok {| processed_output := output; processed_warnings := [SchemaRetried] |}, s)
                  | None => (Err schema_rejected, s)
                  end
              end
          end
      end
  end.
End Run.

(** The gateway's projection of the result. *)
Definition client_processed_text (p : ProcessedText) : ClientProcessedText :=
  {| pt_output := p.(processed_output); pt_warnings := map TextProcessingWarning_as_str p.(processed_warnings) |}.
End Json.

(** ** Calls at the same time *)

(** The counter as tasks share it: [synthetic_identity] is a [fetch_sub], and
    after a refusal a [fetch_add], with steps of other tasks between them. *)
Record SharedSequence : Type := {
  counter : Z;
  restoring : Z;
  minted : list Z;
}.

Definition sequence_start : SharedSequence := {| counter := u64_max; restoring := 0; minted := [] |}.

Inductive identity_step (tasks : Z) : SharedSequence -> SharedSequence -> Prop :=
| step_mint s : MIN_TEXT_PROCESSING_TURN_ID <= s.(counter) ->
    identity_step tasks s {| counter := (s.(counter) - 1) mod 2 ^ 64; restoring := s.(restoring); minted := s.(minted) ++ [s.(counter)] |}
| step_refuse s : s.(counter) < MIN_TEXT_PROCESSING_TURN_ID -> s.(restoring) < tasks ->
    identity_step tasks s {| counter := (s.(counter) - 1) mod 2 ^ 64; restoring := s.(restoring) + 1; minted := s.(minted) |}
| step_restore s : 0 < s.(restoring) ->
    identity_step tasks s {| counter := (s.(counter) + 1) mod 2 ^ 64; restoring := s.(restoring) - 1; minted := s.(minted) |}.
