(* ===== verification/TextProcessingClaims.v ===== *)
(** * What structured text processing guarantees

    An accepted answer conforms to the whole of the caller's schema; the model is
    asked at most twice; the identities of calls never collide, however the
    calls interleave. *)

From S2P Require Import Prelude RustStr Errors Pcm ProtocolQuality Quality Privacy Context MemoryProtocol MemoryRetrieval LanguageInput ClientValues TextProcessing.

Local Open Scope Z_scope.

(** ** Values *)

Section ValueInd.
Context (P : Value -> Prop) (H_null : P V_null) (H_bool : forall b, P (V_bool b)) (H_u64 : forall n, P (V_u64 n))
  (H_i64 : forall n, P (V_i64 n)) (H_float : forall t, P (V_float t)) (H_string : forall s, P (V_string s))
  (H_array : forall items, Forall P items -> P (V_array items))
  (H_object : forall members, Forall (fun kv => P kv.2) members -> P (V_object members)).

Fixpoint Value_nested_ind (v : Value) : P v :=
  match v with
  | V_null => H_null
  | V_bool b => H_bool b
  | V_u64 n => H_u64 n
  | V_i64 n => H_i64 n
  | V_float t => H_float t
  | V_string s => H_string s
  | V_array items =>
      H_array items ((fix all items : Forall P items := match items with
        | [] => @List.Forall_nil _ P
        | x :: rest => @List.Forall_cons _ P x rest (Value_nested_ind x) (all rest)
        end) items)
  | V_object members =>
      H_object members ((fix all members : Forall (fun kv => P kv.2) members := match members with
        | [] => @List.Forall_nil _ (fun kv => P kv.2)
        | kv :: rest => @List.Forall_cons _ (fun kv => P kv.2) kv rest (Value_nested_ind kv.2) (all rest)
        end) members)
  end.
End ValueInd.

(** Objects name their members once, at every level. *)
Inductive normal : Value -> Prop :=
| normal_null : normal V_null
| normal_bool b : normal (V_bool b)
| normal_u64 n : normal (V_u64 n)
| normal_i64 n : normal (V_i64 n)
| normal_float t : normal (V_float t)
| normal_string s : normal (V_string s)
| normal_array items : Forall normal items -> normal (V_array items)
| normal_object members : NoDup (map fst members) -> Forall (fun kv => normal kv.2) members -> normal (V_object members).

Lemma str_cmp_Eq s t : str_cmp s t = Eq <-> s = t.
Proof.
  revert t. induction s as [|c s IH]; intros [|d t]; cbn; try (split; congruence).
  destruct (Z.compare_spec c d); [|split; [done|]; intros [= ? ?]; lia..]. subst. rewrite IH. split; congruence.
Qed.

Lemma map_insert_elem k v m k' v' : (k', v') ∈ map_insert k v m -> (k', v') = (k, v) \/ (k', v') ∈ m.
Proof.
  induction m as [|[k1 v1] m IH]; cbn; [rewrite list_elem_of_singleton; auto|].
  destruct (str_cmp k k1) eqn:C; rewrite !elem_of_cons; [apply str_cmp_Eq in C; subst|..]; naive_solver.
Qed.

(** Ordered by name, strictly. *)
Fixpoint ordered (m : list (rstr * Value)) : Prop :=
  match m with
  | [] => True
  | kv :: rest => Forall (fun kv' => str_cmp kv.1 kv'.1 = Lt) rest /\ ordered rest
  end.

Lemma str_cmp_flip s t : str_cmp s t = CompOpp (str_cmp t s).
Proof.
  revert t. induction s as [|c s IH]; intros [|d t]; cbn; try done. rewrite Z.compare_antisym. destruct (d ?= c); cbn; auto.
Qed.

Lemma str_cmp_trans s t u : str_cmp s t = Lt -> str_cmp t u = Lt -> str_cmp s u = Lt.
Proof.
  revert t u. induction s as [|c s IH]; intros [|d t] [|x u]; cbn; try done.
  destruct (c ?= d) eqn:E1, (d ?= x) eqn:E2; try done; rewrite ?Z.compare_eq_iff, ?Z.compare_lt_iff in *; intros A B.
  - subst. rewrite Z.compare_refl. eauto.
  - by rewrite (proj2 (Z.compare_lt_iff c x)) by lia.
  - by rewrite (proj2 (Z.compare_lt_iff c x)) by lia.
  - by rewrite (proj2 (Z.compare_lt_iff c x)) by lia.
Qed.

Lemma map_insert_ordered k v m : ordered m -> ordered (map_insert k v m).
Proof.
  induction m as [|[k1 v1] m IH]; cbn; [done|]. intros [F O]. destruct (str_cmp k k1) eqn:C; cbn.
  - done.
  - split; [|done]. constructor; [done|]. eapply Forall_impl; [exact F|]. intros kv. cbn. by apply str_cmp_trans.
  - split; [|by apply IH]. apply Forall_forall. intros [k' v'] E. apply map_insert_elem in E as [[= -> ->]|E].
    + cbn. by rewrite str_cmp_flip, C.
    + by apply (proj1 (Forall_forall _ _) F).
Qed.

Lemma ordered_NoDup m : ordered m -> NoDup (map fst m).
Proof.
  induction m as [|[k v] m IH]; cbn; [constructor|]. intros [F O]. constructor; [|by apply IH].
  intros E. apply list_elem_of_fmap in E as ([k' v'] & -> & E). apply (proj1 (Forall_forall _ _) F) in E. cbn in E.
  by rewrite (proj2 (str_cmp_Eq _ _) eq_refl) in E.
Qed.

Lemma inserted_normal l : Forall (fun kv => normal kv.2) l -> forall m, ordered m -> Forall (fun kv => normal kv.2) m ->
  normal (V_object (fold_left (fun m kv => map_insert kv.1 kv.2 m) l m)).
Proof.
  induction 1 as [|[k v] l N F IH]; intros m O M; cbn [fold_left]; [constructor; [by apply ordered_NoDup|done]|].
  apply IH; [by apply map_insert_ordered|]. apply Forall_forall. intros [k' v'] E. apply map_insert_elem in E as [[= -> ->]|E]; [done|].
  exact (proj1 (Forall_forall _ _) M _ E).
Qed.

Lemma as_value_normal d : normal (as_value d).
Proof.
  induction d as [| | | | | |items IH|members IH] using Value_nested_ind; cbn [as_value]; [by constructor..| |].
  - constructor. by apply Forall_map.
  - apply inserted_normal; [by apply Forall_map|done|constructor].
Qed.

Lemma get_Some k v m : NoDup (map fst m) -> get k m = Some v <-> (k, v) ∈ m.
Proof.
  induction m as [|[k1 v1] m IH]; cbn; [rewrite elem_of_nil; done|]. intros N. inversion N as [|? ? N1 N2]; subst. rewrite elem_of_cons.
  case_bool_decide as K; [subst|].
  - split; [naive_solver|]. intros [[= ->]|E]; [done|]. destruct N1. apply list_elem_of_fmap. by exists (k1, v).
  - rewrite IH by done. naive_solver.
Qed.

Lemma get_is_Some k m : is_some (get k m) = true <-> exists v, (k, v) ∈ m.
Proof.
  induction m as [|[k1 v1] m IH]; cbn; [setoid_rewrite elem_of_nil; naive_solver|]. setoid_rewrite elem_of_cons.
  case_bool_decide as K; [subst; cbn; naive_solver|]. rewrite IH. naive_solver.
Qed.

(** ** Schemas *)

Section Schemas.
Context `{J : ClientJson, F : JsonFloats}.

(** The types of JSON Schema. *)
Inductive has_type : Value -> rstr -> Prop :=
| type_object m : has_type (V_object m) (lit "object")
| type_array l : has_type (V_array l) (lit "array")
| type_string s : has_type (V_string s) (lit "string")
| type_number_u64 n : has_type (V_u64 n) (lit "number")
| type_number_i64 n : has_type (V_i64 n) (lit "number")
| type_number_float t : has_type (V_float t) (lit "number")
| type_integer_u64 n : has_type (V_u64 n) (lit "integer")
| type_integer_i64 n : has_type (V_i64 n) (lit "integer")
| type_boolean b : has_type (V_bool b) (lit "boolean")
| type_null : has_type V_null (lit "null").

(** What each keyword of a schema demands of a value. *)
Inductive conforms : Value -> Value -> Prop :=
| conforms_intro v object :
    (forall named, (lit "type", V_string named) ∈ object -> has_type v named) ->
    (forall members, (lit "enum", V_array members) ∈ object -> exists m, m ∈ members /\ value_eqb m v = true) ->
    (forall items l member, (lit "items", items) ∈ object -> v = V_array l -> member ∈ l -> conforms member items) ->
    (forall names fields name, (lit "required", V_array names) ∈ object -> v = V_object fields -> V_string name ∈ names ->
       exists member, (name, member) ∈ fields) ->
    (forall properties fields name member p, (lit "properties", V_object properties) ∈ object -> v = V_object fields ->
       (name, member) ∈ fields -> (name, p) ∈ properties -> conforms member p) ->
    (forall fields name member, (lit "additionalProperties", V_bool false) ∈ object -> v = V_object fields -> (name, member) ∈ fields ->
       exists properties p, (lit "properties", V_object properties) ∈ object /\ (name, p) ∈ properties) ->
    conforms v (V_object object).

(** A schema that uses only these keywords, each with a value of its kind, at
    every level. *)
Inductive enforceable : Value -> Prop :=
| enforceable_intro object :
    (forall k value, (k, value) ∈ object ->
       k = lit "type" /\ (exists named, value = V_string named /\ named ∈ SUPPORTED_SCHEMA_TYPES) \/
       k = lit "enum" /\ (exists m members, value = V_array (m :: members)) \/
       k = lit "items" /\ enforceable value \/
       k = lit "required" /\ (exists names, value = V_array names /\ forall name, name ∈ names -> exists s, name = V_string s) \/
       k = lit "properties" /\ (exists properties, value = V_object properties /\ forall kv, kv ∈ properties -> enforceable kv.2) \/
       k = lit "additionalProperties" /\ (exists b, value = V_bool b)) ->
    enforceable (V_object object).

Lemma try_fold_Ok {A} (f : A -> Z -> rresult Z) l n m : try_fold f l n = Ok m -> forall x, x ∈ l -> exists n m, f x n = Ok m.
Proof.
  revert n. induction l as [|y l IH]; intros n E x X; [by apply elem_of_nil in X|]. cbn in E. apply result_bind_Ok in E as (n1 & E1 & E).
  apply elem_of_cons in X as [->|X]; eauto.
Qed.

(** The grandchildren too: a property lies two levels below its schema. *)
Lemma Value_deep_ind (P : Value -> Prop) :
  (forall v, (forall members kv, v = V_object members -> kv ∈ members -> P kv.2 /\
     (forall ms kv', kv.2 = V_object ms -> kv' ∈ ms -> P kv'.2)) -> P v) -> forall v, P v.
Proof.
  intros H v. assert (P v /\ forall members kv, v = V_object members -> kv ∈ members -> P kv.2) as [? _]; [|done].
  induction v as [| | | | | |items IH|members IH] using Value_nested_ind; try (split; [apply H|]; done).
  rewrite Forall_forall in IH. split; [apply H|]; intros ms kv [= <-] K; [|by apply IH].
  split; [by apply IH|]. intros ms' kv' E K'. by apply (proj2 (IH _ K) ms').
Qed.

Lemma validate_keyword_Ok validate k value n m : validate_keyword validate k value n = Ok m ->
  k = lit "type" /\ (exists named, value = V_string named /\ named ∈ SUPPORTED_SCHEMA_TYPES) \/
  k = lit "enum" /\ (exists m members, value = V_array (m :: members)) \/
  k = lit "items" /\ validate value n = Ok m \/
  k = lit "required" /\ (exists names, value = V_array names /\ forall name, name ∈ names -> exists s, name = V_string s) \/
  k = lit "properties" /\ (exists properties, value = V_object properties /\ try_fold (fun p => validate p.2) properties n = Ok m) \/
  k = lit "additionalProperties" /\ (exists b, value = V_bool b).
Proof.
  unfold validate_keyword. intros V. split_ifs_in V; try discriminate V; breflect; subst.
  - left. destruct value; try discriminate V. split_ifs_in V; try discriminate V. breflect. eauto.
  - do 4 right. left. destruct value; try discriminate V. eauto.
  - do 3 right. left. destruct value; try discriminate V. destruct (existsb _ _) eqn:X in V; [discriminate V|]. split; [done|]. eexists. split; [done|].
    intros name N. destruct name; eauto; exfalso; rewrite <- not_true_iff_false in X; apply X, existsb_exists; eexists;
      (split; [by apply list_elem_of_In|done]).
  - do 2 right. left. eauto.
  - right. left. destruct value as [| | | | | |[|]|]; try discriminate V. eauto.
  - do 5 right. destruct value; try discriminate V. eauto.
Qed.

Lemma validate_schema_enforceable s : forall depth n m, validate_schema s depth n = Ok m -> enforceable s.
Proof.
  induction s as [s IH] using Value_deep_ind. intros depth a c E. destruct s as [| | | | | | |members];
    cbn [validate_schema] in E; destruct (_ || _) in E; try discriminate E.
  constructor. intros k value K. destruct (IH _ _ eq_refl K) as [IHv IHp]. cbn [snd] in IHv, IHp.
  destruct (try_fold_Ok _ _ _ _ E _ K) as (n1 & m1 & V). cbn [fst snd] in V. apply validate_keyword_Ok in V.
  destruct V as [V|[V|[[-> V]|[V|[[-> (properties & -> & V)]|V]]]]]; [by left|by right; left| |by do 3 right; left| |by do 5 right].
  - do 2 right. left. split; [done|]. eauto.
  - do 4 right. left. split; [done|]. eexists. split; [done|]. intros kv Kv. destruct (try_fold_Ok _ _ _ _ V _ Kv) as (n2 & m2 & V2). eauto.
Qed.

(** ** Matching *)

Lemma matches_type_spec v named : matches_type v named = true <-> has_type v named.
Proof.
  unfold matches_type. split.
  - repeat case_bool_decide; subst; destruct v; cbn; intros; try done; constructor.
  - by destruct 1.
Qed.

Lemma option_true {A} (o : option A) (b : A -> bool) :
  match o with Some x => b x | None => true end = true <-> forall x, o = Some x -> b x = true.
Proof. destruct o; naive_solver. Qed.

Lemma get_as {A} (as_ : Value -> option A) (mk : A -> Value) k m x : NoDup (map fst m) ->
  (forall v a, as_ v = Some a <-> v = mk a) -> get k m ≫= as_ = Some x <-> (k, mk x) ∈ m.
Proof.
  intros N H. rewrite bind_Some. setoid_rewrite H. rewrite <- get_Some by done. naive_solver.
Qed.

Lemma as_str_Some v a : as_str v = Some a <-> v = V_string a.
Proof. destruct v; naive_solver. Qed.
Lemma as_array_Some v a : as_array v = Some a <-> v = V_array a.
Proof. destruct v; naive_solver. Qed.
Lemma as_object_Some v a : as_object v = Some a <-> v = V_object a.
Proof. destruct v; naive_solver. Qed.
Lemma as_bool_Some v a : as_bool v = Some a <-> v = V_bool a.
Proof. destruct v; naive_solver. Qed.

Lemma normal_member object k v : normal (V_object object) -> (k, v) ∈ object -> normal v.
Proof. inversion 1 as [| | | | | | |? N A]; subst. intros E. exact (proj1 (Forall_forall _ _) A _ E). Qed.
Lemma normal_names object : normal (V_object object) -> NoDup (map fst object).
Proof. by inversion 1. Qed.

(** The schema of a member, and whether others are allowed. *)
Definition property_of (object : list (rstr * Value)) (name : rstr) : option Value :=
  (get (lit "properties") object ≫= as_object) ≫= get name.

Lemma property_of_Some object name p : normal (V_object object) ->
  property_of object name = Some p <-> exists properties, (lit "properties", V_object properties) ∈ object /\ (name, p) ∈ properties.
Proof.
  intros N. pose proof (normal_names _ N) as ND. unfold property_of. rewrite bind_Some.
  setoid_rewrite (get_as as_object V_object); [|done|apply as_object_Some].
  split; intros (ps & P & G); exists ps; (split; [done|]); apply get_Some; try done; apply normal_names; by eapply normal_member.
Qed.

Lemma additional_spec object : normal (V_object object) ->
  default true (get (lit "additionalProperties") object ≫= as_bool) = true <-> (lit "additionalProperties", V_bool false) ∉ object.
Proof.
  intros N. pose proof (normal_names _ N) as ND.
  pose proof (get_as as_bool V_bool (lit "additionalProperties") object false ND as_bool_Some) as G.
  destruct (get _ _ ≫= as_bool) as [[]|]; cbn [default from_option]; rewrite <- G; naive_solver.
Qed.

(** The part of a schema that an object answers for. *)
Lemma matches_object_spec matching fields object : normal (V_object object) -> enforceable (V_object object) ->
  matches_object matching fields object = true <->
  (forall names name, (lit "required", V_array names) ∈ object -> V_string name ∈ names -> exists member, (name, member) ∈ fields) /\
  (forall name member, (name, member) ∈ fields ->
     match property_of object name with
     | Some p => matching member p = true
     | None => (lit "additionalProperties", V_bool false) ∉ object
     end).
Proof.
  intros N En. pose proof (normal_names _ N) as ND. inversion En as [? K]; subst. unfold matches_object. rewrite andb_true_iff, option_true.
  apply Morphisms_Prop.and_iff_morphism.
  - setoid_rewrite (get_as as_array V_array); [|done|apply as_array_Some]. split.
    + intros H names name R M. specialize (H _ R). rewrite forallb_forall in H. apply get_is_Some. by apply (H (V_string name)), list_elem_of_In.
    + intros H names R. apply forallb_forall. intros name M. apply list_elem_of_In in M.
      destruct (K _ _ R) as [[[=] _]|[[[=] _]|[[[=] _]|[[_ (? & [= <-] & S)]|[[[=] _]|[[=] _]]]]]]. destruct (S _ M) as [x ->]. cbn. apply get_is_Some. by eapply H.
  - rewrite forallb_forall. split.
    + intros H name member M. apply list_elem_of_In in M. specialize (H _ M). cbn [fst snd] in H. unfold property_of.
      destruct (_ ≫= get name); [done|]. by apply additional_spec.
    + intros H [name member] M. apply list_elem_of_In, H in M. cbn [fst snd]. unfold property_of in M. destruct (_ ≫= get name); [done|].
      by apply additional_spec.
Qed.

Lemma enforceable_items object items : enforceable (V_object object) -> (lit "items", items) ∈ object -> enforceable items.
Proof.
  inversion 1 as [? K]; subst. intros E. destruct (K _ _ E) as [[[=] _]|[[[=] _]|[[_ ?]|[[[=] _]|[[[=] _]|[[=] _]]]]]]; done.
Qed.

Lemma enforceable_property object name p : normal (V_object object) -> enforceable (V_object object) -> property_of object name = Some p ->
  enforceable p /\ normal p.
Proof.
  intros N En P. apply property_of_Some in P as (ps & P1 & P2); [|done]. inversion En as [? K]; subst.
  destruct (K _ _ P1) as [[[=] _]|[[[=] _]|[[[=] _]|[[[=] _]|[[_ (? & [= <-] & S)]|[[=] _]]]]]].
  split; [exact (S _ P2)|]. eapply normal_member; [|exact P2]. by eapply normal_member.
Qed.

(** The keywords every value answers for. *)
Lemma matches_common v object : NoDup (map fst object) ->
  match get (lit "type") object ≫= as_str with Some named => matches_type v named | None => true end
  && match get (lit "enum") object ≫= as_array with Some members => existsb (fun m => value_eqb m v) members | None => true end = true <->
  (forall named, (lit "type", V_string named) ∈ object -> has_type v named) /\
  (forall members, (lit "enum", V_array members) ∈ object -> exists m, m ∈ members /\ value_eqb m v = true).
Proof.
  intros ND. rewrite andb_true_iff, !option_true. setoid_rewrite (get_as as_array V_array); [|done|apply as_array_Some].
  setoid_rewrite (get_as as_str V_string); [|done|apply as_str_Some]. setoid_rewrite matches_type_spec. setoid_rewrite existsb_exists.
  by setoid_rewrite <- list_elem_of_In.
Qed.

Lemma matches_schema_spec v : forall schema, normal schema -> enforceable schema -> matches_schema v schema = true <-> conforms v schema.
Proof.
  induction v as [| | | | | |items IH|members IH] using Value_nested_ind; intros schema N En; inversion En as [object K]; subst;
    pose proof (normal_names _ N) as ND; cbn [matches_schema]; rewrite andb_true_iff, matches_common by done;
    (split; [intros [[C1 C2] C3]; constructor; try done|inversion 1 as [? ? C1 C2 C4 C5 C6 C7]; subst; split; [by split|]; try done]).
  - intros its l member I [= <-] M. rewrite (proj2 (get_Some _ _ _ ND) I) in C3. rewrite forallb_forall in C3.
    apply (proj1 (Forall_forall _ _) IH _ M); [by eapply normal_member|by eapply enforceable_items|]. by apply C3, list_elem_of_In.
  - destruct (get (lit "items") object) as [its|] eqn:G; [|done]. apply get_Some in G; [|done]. apply forallb_forall. intros member M.
    apply list_elem_of_In in M. apply (proj1 (Forall_forall _ _) IH _ M); [by eapply normal_member|by eapply enforceable_items|].
    by eapply C4.
  - intros names fields name R [= <-] M. apply matches_object_spec in C3 as [C3 _]; [|done..]. by eapply C3.
  - intros ps fields name member p P [= <-] M Q. apply matches_object_spec in C3 as [_ C3]; [|done..]. specialize (C3 _ _ M).
    assert (property_of object name = Some p) as PO by (apply property_of_Some; eauto). rewrite PO in C3.
    destruct (enforceable_property _ _ _ N En PO). by apply (proj1 (Forall_forall _ _) IH _ M).
  - intros fields name member A [= <-] M. apply matches_object_spec in C3 as [_ C3]; [|done..]. specialize (C3 _ _ M).
    destruct (property_of object name) as [p|] eqn:PO; [|done]. apply property_of_Some in PO as (ps & P1 & P2); eauto.
  - apply matches_object_spec; [done..|]. split; [intros; by eapply C5|]. intros name member M.
    destruct (property_of object name) as [p|] eqn:PO.
    + destruct (enforceable_property _ _ _ N En PO). apply (proj1 (Forall_forall _ _) IH _ M); [done..|].
      apply property_of_Some in PO as (ps & P1 & P2); eauto.
    + intros A. destruct (C7 _ _ _ A eq_refl M) as (ps & p & P1 & P2). assert (property_of object name = Some p) by (apply property_of_Some; eauto). congruence.
Qed.

(** C27. For a schema the runtime accepts, the check of an answer decides exactly
    whether the answer conforms to it: each of its keywords, at every level, in
    the sense of JSON Schema, and there is no keyword that goes unchecked. *)
Theorem schema_check_decides document nodes v : validate_schema (as_value document) 0 0 = Ok nodes ->
  enforceable (as_value document) /\ (matches_schema v (as_value document) = true <-> conforms v (as_value document)).
Proof.
  intros E. apply validate_schema_enforceable in E. split; [exact E|]. apply matches_schema_spec; [apply as_value_normal|exact E].
Qed.

(** ** Reading a schema back *)

(** The same document but for its floating point numbers, which [serde_json]
    need not read back exactly. *)
Inductive alike : Value -> Value -> Prop :=
| alike_refl v : alike v v
| alike_float s t : alike (V_float s) (V_float t)
| alike_array l l' : Forall2 alike l l' -> alike (V_array l) (V_array l')
| alike_object m m' : Forall2 (fun a b => a.1 = b.1 /\ alike a.2 b.2) m m' -> alike (V_object m) (V_object m').

Lemma Forall2_elem {A B} (R : A -> B -> Prop) l k x : Forall2 R l k -> x ∈ l -> exists y, y ∈ k /\ R x y.
Proof.
  intros H E. apply list_elem_of_lookup in E as [i E]. destruct (Forall2_lookup_l _ _ _ _ _ H E) as (y & Y & ?).
  exists y. split; [by eapply list_elem_of_lookup_2|done].
Qed.

Lemma alike_enforceable w : forall v, alike w v -> enforceable v -> enforceable w.
Proof.
  induction w as [w IH] using Value_deep_ind. intros v A En. inversion En as [object K]; subst.
  inversion A as [|s t|l l' L|m m' M]; subst; [done|]. constructor. intros k value E. destruct (IH _ _ eq_refl E) as [IHv IHp].
  destruct (Forall2_elem _ _ _ _ M E) as ([k' value'] & E' & Hk & Hv). cbn [fst snd] in *. subst k'.
  destruct (K _ _ E') as [[-> (x & -> & T)]|[[-> (x & xs & ->)]|[[-> T]|[[-> (names & -> & T)]|[[-> (ps & -> & T)]|[-> (b & ->)]]]]]].
  - left. inversion Hv; subst. eauto.
  - right. left. inversion Hv as [|?|? ? Q|]; subst; [eauto|]. inversion Q; subst. eauto.
  - do 2 right. left. eauto.
  - do 3 right. left. inversion Hv as [|?|l1 l2 Q|]; subst; [eauto|]. split; [done|]. eexists. split; [done|]. intros name N.
    destruct (Forall2_elem _ _ _ _ Q N) as (y & Y & Al). destruct (T _ Y) as [x ->]. inversion Al; subst. eauto.
  - do 4 right. left. inversion Hv as [|?| |l1 l2 Q]; subst; [eauto|]. split; [done|]. eexists. split; [done|]. intros kv N.
    destruct (Forall2_elem _ _ _ _ Q N) as (y & Y & _ & Al). eauto.
  - do 5 right. inversion Hv; subst. eauto.
Qed.
End Schemas.

(** [serde_json] reads what it writes. *)
Class JsonTextLaws `{J : ClientJson} : Prop :=
  text_read_back : forall t v, read_value t = Some v -> exists w, read_value (value_to_string v) = Some w /\ alike w v.

(** ** Calls *)

Lemma collect_bounded max items : forall output out, collect max output items = Ok out -> blen output <= max -> blen out <= max.
Proof.
  induction items as [|[d|e] items IH]; intros output out E B; cbn [collect] in E; [by simplify_eq| |done].
  split_ifs_in E; [done|]. breflect. apply IH in E; [done|]. rewrite blen_app. unfold saturating_sub in *. lia.
Qed.

(** [text] is all the text of a stream that ended without an error. *)
Definition streamed (items : list (aresult GenerationTextDelta)) (text : rstr) : Prop :=
  exists ds, items = map Ok ds /\ text = concat (map delta ds).

Lemma collect_app max items : forall output out, collect max output items = Ok out ->
  exists text, streamed items text /\ out = output ++ text.
Proof.
  induction items as [|[d|e] items IH]; intros output out E; cbn [collect] in E; [|split_ifs_in E; [done|]|done].
  - simplify_eq. exists []. split; [by exists []|by rewrite app_nil_r].
  - destruct (IH _ _ E) as (text & (ds & -> & ->) & ->). eexists. split; [by exists (d :: ds)|]. cbn. by rewrite app_assoc.
Qed.

Lemma collect_streamed max items out : collect max [] items = Ok out -> streamed items out.
Proof. by intros (text & S & ->)%collect_app. Qed.

(** The counter of identities between two calls. *)
Definition in_band (sequence : Z) : Prop := MIN_TEXT_PROCESSING_TURN_ID - 1 <= sequence <= u64_max.

Lemma synthetic_identity_spec sequence : in_band sequence ->
  synthetic_identity sequence =
    if sequence <? MIN_TEXT_PROCESSING_TURN_ID
    then (Err (invalid_request (lit "text processing identifiers are exhausted for this runtime")), sequence)
    else (Ok (TurnId_new sequence, GenerationId_new sequence), sequence - 1).
Proof.
  unfold in_band, MIN_TEXT_PROCESSING_TURN_ID. change (Z.shiftl 1 32) with (2 ^ 32). intros B. unfold synthetic_identity, MIN_TEXT_PROCESSING_TURN_ID.
  change (Z.shiftl 1 32) with (2 ^ 32). rewrite (Z.mod_small (sequence - 1)) by ints.
  destruct (_ <? _); [|done]. rewrite Z.mod_small by ints. f_equal. lia.
Qed.

Lemma map_seq_from {A} (f : nat -> A) n m : map f (seq n m) = map (fun i => f (n + i)%nat) (seq 0 m).
Proof. induction m as [|m IH]; [done|]. by rewrite !seq_S, !map_app, IH. Qed.

Section Calls.
Context `{J : ClientJson, F : JsonFloats} (stream : nat -> GenerationLanguageRequest -> list (aresult GenerationTextDelta))
  (cancelled_before cancelled_after : nat -> bool) (r : TextProcessingRequest).

(** What a generation asks: one request under a fresh identity, or none. *)
Record asked (s s' : Calls) (sent : list GenerationLanguageRequest) : Prop := {
  asked_sent : s'.(sent_requests) = s.(sent_requests) ++ sent;
  asked_sequence : s'.(synthetic_sequence) = s.(synthetic_sequence) - zlen sent;
  asked_band : in_band s'.(synthetic_sequence);
  asked_requests : Forall (fun g => generation_input r = Ok g.(gl_input)) sent;
  asked_identities : map (fun g => (TurnId_get g.(gl_turn_id), GenerationId_get g.(gl_generation_id))) sent =
    map (fun i => (s.(synthetic_sequence) - Z.of_nat i, s.(synthetic_sequence) - Z.of_nat i)) (seq 0 (length sent));
}.

Lemma asked_nothing s : in_band s.(synthetic_sequence) -> asked s s [].
Proof. intros B. split; cbn; [by rewrite app_nil_r|rewrite zlen_nil; lia|done|constructor|done]. Qed.

Lemma asked_app s1 s2 s3 sent1 sent2 : asked s1 s2 sent1 -> asked s2 s3 sent2 -> asked s1 s3 (sent1 ++ sent2).
Proof.
  intros [A1 A2 A3 A4 A5] [B1 B2 B3 B4 B5]. split; [by rewrite B1, A1, app_assoc|rewrite zlen_app; lia|done|by apply Forall_app|].
  rewrite map_app, A5, B5, length_app, seq_app, map_app. f_equal. cbn [Nat.add].
  rewrite (map_seq_from _ (length sent1)).
  apply map_ext. intros i. unfold zlen in A2. f_equal; lia.
Qed.

(** An answer taken from the model: all the text it streamed for the request,
    within the limit, not blank, and not cancelled. *)
Record answered (n : nat) (g : GenerationLanguageRequest) (answer : rstr) : Prop := {
  an_streamed : streamed (stream n g) answer;
  an_limit : blen answer <= r.(tp_max_output_bytes);
  an_blank : is_blank answer = false;
  an_kept : cancelled_after n = false;
}.

Lemma generate_spec n s res s' : in_band s.(synthetic_sequence) ->
  generate stream cancelled_before cancelled_after r n s = (res, s') ->
  exists sent, asked s s' sent /\ zlen sent <= 1 /\ forall output, res = Ok output -> 0 <= r.(tp_max_output_bytes) ->
    exists g, sent = [g] /\ answered n g output.
Proof.
  intros B. unfold generate. destruct (cancelled_before n).
  { intros [= <- <-]. exists []. split; [by apply asked_nothing|]. by rewrite zlen_nil. }
  destruct (generation_input r) as [input|e] eqn:G.
  2: { intros [= <- <-]. exists []. split; [by apply asked_nothing|]. by rewrite zlen_nil. }
  rewrite synthetic_identity_spec by done. destruct (_ <? _) eqn:C.
  { intros [= <- <-]. exists []. split; [split; cbn; [by rewrite app_nil_r|rewrite zlen_nil; lia|done|constructor|done]|]. by rewrite zlen_nil. }
  breflect. assert (exists g, GenerationLanguageRequest_from_input (TurnId_new s.(synthetic_sequence)) (GenerationId_new s.(synthetic_sequence)) input = Ok g /\
    g = {| gl_turn_id := TurnId_new s.(synthetic_sequence); gl_generation_id := GenerationId_new s.(synthetic_sequence); gl_input := input |}) as (g & -> & ->).
  { unfold generation_input, adapter_result in G. destruct (result_bind _ _) as [i|] eqn:I in G; [|done]. simplify_eq.
    apply result_bind_Ok in I as (i0 & I0 & I). unfold with_response_schema in I. split_ifs_in I; simplify_eq.
    unfold instructed in I0. apply result_bind_Ok in I0 as (? & _ & I0). split_ifs_in I0; simplify_eq. by eexists. }
  cbn [adapter_result]. intros [= <- <-].
  exists [{| gl_turn_id := TurnId_new s.(synthetic_sequence); gl_generation_id := GenerationId_new s.(synthetic_sequence); gl_input := input |}].
  split; [|split; [done|]].
  - split; cbn; [done|unfold zlen; cbn; lia|unfold in_band in *; lia|constructor; [exact G|constructor]|repeat f_equal; lia].
  - intros output E M. eexists. split; [done|]. apply result_bind_Ok in E as (out & Co & E).
    destruct (cancelled_after n) eqn:Ca; [done|]. destruct (is_blank out) eqn:Bl; simplify_eq.
    split; [by eapply collect_streamed|by eapply collect_bounded|done|done].
Qed.

(** The answer is JSON that matches the schema. *)
Definition matching (schema : Value) (answer : rstr) (v : Value) : Prop :=
  read_value answer = Some v /\ matches_schema v schema = true.

(** Where an accepted answer came from: the first request, or the second when
    the first answer did not match. *)
Definition accepted (schema : Value) (p : ProcessedText) (sent : list GenerationLanguageRequest) : Prop :=
  exists answer v, matching schema answer v /\ p.(processed_output) = value_to_string v /\
    ((exists g, sent = [g] /\ answered 0 g answer /\ p.(processed_warnings) = []) \/
     (exists g first g', sent = [g; g'] /\ answered 0 g first /\ (forall w, ~ matching schema first w) /\
        answered 1 g' answer /\ p.(processed_warnings) = [SchemaRetried])).

Lemma matching_output_None candidate schema w : matching_output candidate schema = None -> ~ matching schema candidate w.
Proof. unfold matching_output, matching. intros E [V M]. rewrite V in E. cbn in E. by rewrite M in E. Qed.

Lemma matching_output_Some candidate schema output : matching_output candidate schema = Some output ->
  exists v, read_value candidate = Some v /\ matches_schema v schema = true /\ output = value_to_string v.
Proof.
  unfold matching_output. intros E. apply bind_Some in E as (v & V & E). destruct (matches_schema v schema) eqn:M; simplify_eq. eauto.
Qed.

Lemma process_text_spec s res s' : in_band s.(synthetic_sequence) -> 0 <= r.(tp_max_output_bytes) ->
  process_text stream cancelled_before cancelled_after r s = (res, s') ->
  exists sent, asked s s' sent /\ zlen sent <= 2 /\
    forall p, res = Ok p -> exists schema, read_value r.(tp_output_schema) = Some schema /\ accepted schema p sent.
Proof.
  intros B M. unfold process_text. destruct (read_value _) as [schema|] eqn:S.
  2: { intros [= <- <-]. exists []. split; [by apply asked_nothing|]. by rewrite zlen_nil. }
  destruct (generate _ _ _ r 0 s) as [first s1] eqn:G1. apply generate_spec in G1 as (sent1 & A1 & L1 & O1); [|done].
  destruct first as [first|e]; [|intros [= <- <-]; exists sent1; split; [done|]; split; [lia|done]].
  destruct (O1 _ eq_refl M) as (g1 & -> & W1).
  destruct (matching_output first schema) as [output|] eqn:M1.
  { intros [= <- <-]. exists [g1]. split; [done|]. split; [done|]. intros p [= <-]. exists schema. split; [done|].
    apply matching_output_Some in M1 as (v & V & Mv & ->). exists first, v. split; [done|]. split; [done|]. left. by exists g1. }
  destruct (generate _ _ _ r 1 s1) as [retry s2] eqn:G2. apply generate_spec in G2 as (sent2 & A2 & L2 & O2); [|by destruct A1].
  pose proof (asked_app _ _ _ _ _ A1 A2) as A. intros E.
  assert (s' = s2 /\ forall p, res = Ok p -> exists retry', retry = Ok retry' /\ exists output, matching_output retry' schema = Some output /\
    p = {| processed_output := output; processed_warnings := [SchemaRetried] |}) as [-> Q].
  { destruct retry as [retry|]; [|simplify_eq; done]. destruct (matching_output retry schema) eqn:M2; simplify_eq; [|done].
    split; [done|]. intros p [= <-]. eauto. }
  exists ([g1] ++ sent2). rewrite zlen_app. change (zlen [g1]) with 1 in *. split; [done|]. split; [lia|].
  intros p Hp. destruct (Q _ Hp) as (retry' & -> & output & M2 & ->).
  destruct (O2 _ eq_refl M) as (g2 & -> & W2). exists schema. split; [done|]. apply matching_output_Some in M2 as (v & V & Mv & ->).
  exists retry', v. split; [done|]. split; [done|]. right. exists g1, first, g2. split_and!; try done.
  intros w. by apply matching_output_None.
Qed.
End Calls.

(** A schema that was accepted is enforced as it is read back. *)
Lemma request_schema `{J : ClientJson, L : !JsonTextLaws} instructions input schema_text max r schema :
  TextProcessingRequest_new instructions input schema_text max = Ok r -> read_value r.(tp_output_schema) = Some schema ->
  normal schema /\ enforceable schema /\ r.(tp_max_output_bytes) = max /\ max <= MAX_TEXT_PROCESSING_OUTPUT_BYTES.
Proof.
  unfold TextProcessingRequest_new. intros E S. split_ifs_in E; try done. apply result_bind_Ok in E as (parsed & P & E).
  apply result_bind_Ok in E as (nodes & V & E). unfold ok_or in P. destruct (read_value schema_text) as [v|] eqn:R; simplify_eq. cbn in S.
  destruct (text_read_back _ _ R) as (w & W & Al). rewrite W in S. simplify_eq. breflect. split; [|split; [|by cbn; split; [done|lia]]].
  - unfold read_value in W. destruct (from_str _); [|done]. cbn in W. simplify_eq. apply as_value_normal.
  - eapply alike_enforceable; [exact Al|]. by eapply validate_schema_enforceable.
Qed.

(** C26. Text processing asks the model at most twice, each time under an identity
    of its own from the reserved band, counting down, and with the same input.
    A text it returns is the canonical text of JSON that conforms to the
    caller's schema; that JSON is read from everything the model streamed for
    the last request, without an error and within the caller's output limit.
    Without a warning that request is the only one; with the retry warning
    there were two, and everything streamed for the first, within the limit
    too, is not JSON that conforms. *)
Theorem processed_text_conforms `{J : ClientJson, F : JsonFloats, L : !JsonTextLaws} stream cancelled_before cancelled_after
    instructions input schema_text max r s res s' :
  in_band s.(synthetic_sequence) -> 0 <= max -> TextProcessingRequest_new instructions input schema_text max = Ok r ->
  process_text stream cancelled_before cancelled_after r s = (res, s') ->
  exists sent, asked r s s' sent /\ zlen sent <= 2 /\
    forall p, res = Ok p -> exists schema answer v, read_value r.(tp_output_schema) = Some schema /\
      read_value answer = Some v /\ conforms v schema /\ p.(processed_output) = value_to_string v /\ blen answer <= max /\
      ((exists g, sent = [g] /\ streamed (stream 0%nat g) answer /\ p.(processed_warnings) = []) \/
       (exists g first g', sent = [g; g'] /\ streamed (stream 1%nat g') answer /\ p.(processed_warnings) = [SchemaRetried] /\
          streamed (stream 0%nat g) first /\ blen first <= max /\
          (forall w, read_value first = Some w -> ~ conforms w schema))).
Proof.
  intros B M N E. assert (r.(tp_max_output_bytes) = max) as HM.
  { unfold TextProcessingRequest_new in N. split_ifs_in N; try done. apply result_bind_Ok in N as (? & _ & N). apply result_bind_Ok in N as (? & _ & N). by simplify_eq. }
  apply process_text_spec in E as (sent & A & Ls & P); [|done|lia]. exists sent. split; [exact A|]. split; [exact Ls|]. intros p Hp.
  destruct (P p Hp) as (schema & S & answer & v & [V Mv] & Hv & W). exists schema, answer, v.
  destruct (request_schema _ _ _ _ _ _ N S) as (Ns & En & _). subst max.
  split_and!; [exact S|exact V|by apply matches_schema_spec|exact Hv| |].
  - destruct W as [(g & _ & W & _)|(g & first & g' & _ & _ & _ & W & _)]; apply W.
  - destruct W as [(g & -> & W & Pw)|(g & first & g' & -> & W1 & Nm & W2 & Pw)]; [left; exists g|right; exists g, first, g'].
    + split_and!; [done|apply W|done].
    + split_and!; [done|apply W2|done|apply W1|apply W1|]. intros w Hw Cw. apply (Nm w). split; [exact Hw|]. by apply matches_schema_spec.
Qed.

(** ** Calls at the same time *)

(** The identities handed out so far count down from the top. *)
Record sequence_inv (tasks : Z) (s : SharedSequence) : Prop := {
  si_restoring : 0 <= s.(restoring) <= tasks;
  si_counter : s.(counter) = u64_max - zlen s.(minted) - s.(restoring);
  si_minted : s.(minted) = map (fun i => u64_max - Z.of_nat i) (seq 0 (length s.(minted)));
  si_band : zlen s.(minted) <= 2 ^ 32 + 1;
  si_full : 0 < s.(restoring) -> zlen s.(minted) = 2 ^ 32 + 1;
}.

Lemma identity_step_inv tasks s s' : 0 < tasks <= 2 ^ 32 -> identity_step tasks s s' -> sequence_inv tasks s -> sequence_inv tasks s'.
Proof.
  intros T St [I1 I2 I3 I4 I5]. pose proof (zlen_nonneg s.(minted)) as Z0.
  destruct St as [s C|s C R|s R]; unfold MIN_TEXT_PROCESSING_TURN_ID in *; change (Z.shiftl 1 32) with (2 ^ 32) in *; cbn [counter restoring minted] in *; split; cbn [counter restoring minted]; try lia.
  - rewrite zlen_app, Z.mod_small by ints. change (zlen [counter s]) with 1. lia.
  - rewrite length_app, seq_app, map_app, <- I3. cbn. unfold zlen in *. assert (restoring s = 0) by ints. assert (counter s = u64_max - Z.of_nat (length (minted s))) as <- by ints. done.
  - rewrite zlen_app. change (zlen [counter s]) with 1. assert (restoring s = 0) by ints. ints.
  - rewrite Z.mod_small by ints. ints.
  - exact I3.
  - rewrite Z.mod_small by ints. ints.
  - exact I3.
Qed.

Lemma sequence_reachable_inv tasks s : 0 < tasks <= 2 ^ 32 -> rtc (identity_step tasks) sequence_start s -> sequence_inv tasks s.
Proof.
  intros T R. assert (sequence_inv tasks sequence_start) as I0 by (split; cbn; try done; lia).
  revert I0. induction R as [|x y z St R IH]; [done|]. intros I. apply IH. by eapply identity_step_inv.
Qed.

(** However calls of text processing interleave, up to 2^32 of them at a
    time, no two are given the same identity, every identity lies in the
    reserved band at the top, and once no task is in the middle of a refusal the
    counter is at most one below the band, wherever it stood. *)
Theorem synthetic_identities_unique tasks s : 0 < tasks <= 2 ^ 32 -> rtc (identity_step tasks) sequence_start s ->
  NoDup s.(minted) /\ Forall (fun i => MIN_TEXT_PROCESSING_TURN_ID <= i <= u64_max) s.(minted) /\
  (s.(restoring) = 0 -> in_band s.(counter) /\
     synthetic_identity s.(counter) =
       if s.(counter) <? MIN_TEXT_PROCESSING_TURN_ID
       then (Err (invalid_request (lit "text processing identifiers are exhausted for this runtime")), s.(counter))
       else (Ok (TurnId_new s.(counter), GenerationId_new s.(counter)), s.(counter) - 1)).
Proof.
  intros T R. destruct (sequence_reachable_inv _ _ T R) as [I1 I2 I3 I4 I5]. unfold zlen in I2, I4. split; [|split].
  - rewrite I3. apply NoDup_ListNoDup, Finite.Injective_map_NoDup; [intros i j; lia|apply seq_NoDup].
  - rewrite I3. apply Forall_map, Forall_forall. intros i Hi. apply elem_of_seq in Hi. unfold MIN_TEXT_PROCESSING_TURN_ID.
    change (Z.shiftl 1 32) with (2 ^ 32). lia.
  - intros Z0. assert (in_band s.(counter)) as B; [|split; [exact B|by apply synthetic_identity_spec]].
    unfold in_band, MIN_TEXT_PROCESSING_TURN_ID. change (Z.shiftl 1 32) with (2 ^ 32). ints.
Qed.

(** ** The message that carries a result *)

(** A result within the wire's bound is a message the gateway may send. *)
Lemma processed_text_sendable `{J : ClientJson, F : JsonFloats, L : !JsonTextLaws} stream cancelled_after r schema p sent :
  accepted stream cancelled_after r schema p sent ->
  blen p.(processed_output) <= MAX_CLIENT_PROCESSED_OUTPUT_BYTES -> validate_client_processed_text (client_processed_text p) = Ok tt.
Proof.
  intros (answer & v & [R _] & O & W) B. unfold validate_client_processed_text, client_processed_text. cbn [pt_output pt_warnings].
  rewrite (proj2 (Z.ltb_ge _ _) B), O. destruct (text_read_back _ _ R) as (w & Rw & _). unfold read_value in Rw.
  destruct (from_str (value_to_string v)); [|done]. by destruct W as [(g & _ & _ & ->)|(g & first & g' & _ & _ & _ & _ & ->)].
Qed.

(** ** Witnesses *)

(** Two documents: a schema that allows anything, and a number in scientific
    notation, which is written back in full. *)
Definition exponent_text : rstr := lit "1e15".
Definition expanded_text : rstr := lit "1000000000000000.0".

#[local] Instance exponent_json : ClientJson :=
  {| from_slice := fun bs =>
       if bool_decide (bs = utf8_encode (lit "{}")) then Some (V_object [])
       else if bool_decide (bs = utf8_encode exponent_text) then Some (V_float exponent_text)
       else if bool_decide (bs = utf8_encode expanded_text) then Some (V_float expanded_text)
       else None;
     to_vec := fun _ => [];
     value_to_string := fun v => match v with V_object _ => lit "{}" | _ => expanded_text end |}.
#[local] Instance text_floats : JsonFloats := fun a b => bool_decide (a = b).

#[local] Instance exponent_laws : JsonTextLaws.
Proof.
  intros t v. unfold read_value, from_str. cbn [from_slice exponent_json].
  repeat case_bool_decide; cbn; intros; simplify_eq; eexists; (split; [vm_compute; reflexivity|constructor]).
Qed.

Definition exponent_request : TextProcessingRequest :=
  {| tp_instructions := lit "count"; tp_input := lit "text"; tp_output_schema := lit "{}"; tp_max_output_bytes := 4 |}.
Definition exponent_stream (n : nat) (g : GenerationLanguageRequest) : list (aresult GenerationTextDelta) :=
  [Ok {| delta_turn_id := g.(gl_turn_id); delta_generation_id := g.(gl_generation_id); delta := exponent_text |}].
Definition exponent_calls : Calls := {| synthetic_sequence := u64_max; sent_requests := [] |}.

Lemma exponent_requested : TextProcessingRequest_new (lit "count") (lit "text") (lit "{}") 4 = Ok exponent_request.
Proof. vm_compute. reflexivity. Qed.

(** The limit bounds what the model streams, and not the canonical text of it:
    an answer of four bytes under a limit of four is returned as eighteen. *)
Theorem canonical_output_exceeds_limit : exists p s,
  process_text exponent_stream (fun _ => false) (fun _ => false) exponent_request exponent_calls = (Ok p, s) /\
  exponent_request.(tp_max_output_bytes) = 4 /\ blen p.(processed_output) = 18.
Proof. do 2 eexists. split; [vm_compute; reflexivity|]. split; vm_compute; reflexivity. Qed.

(** The model answers the first request with a text that is not JSON, the second
    with a number in two pieces. *)
Definition retried_stream (n : nat) (g : GenerationLanguageRequest) : list (aresult GenerationTextDelta) :=
  map (fun t => Ok {| delta_turn_id := g.(gl_turn_id); delta_generation_id := g.(gl_generation_id); delta := t |})
    (match n with O => [lit "{"; lit "x"] | _ => [take 2 exponent_text; drop 2 exponent_text] end).

Lemma processed_text_conforms_witness : exists p s g first g',
  process_text retried_stream (fun _ => false) (fun _ => false) exponent_request exponent_calls = (Ok p, s) /\
  s.(sent_requests) = [g; g'] /\ p.(processed_warnings) = [SchemaRetried] /\
  streamed (retried_stream 0 g) first /\ streamed (retried_stream 1 g') exponent_text /\
  p.(processed_output) = expanded_text.
Proof.
  destruct (process_text retried_stream (fun _ => false) (fun _ => false) exponent_request exponent_calls) as [res s] eqn:E.
  pose proof (processed_text_conforms retried_stream (fun _ => false) (fun _ => false) (lit "count") (lit "text") (lit "{}") 4
    exponent_request exponent_calls res s ltac:(split; vm_compute; discriminate) ltac:(discriminate) exponent_requested E)
    as (sent & A & _ & P).
  destruct A as [A _ _ _ _]. vm_compute in E. injection E as <- <-.
  destruct (P _ eq_refl) as (schema & answer & v & _ & _ & _ & _ & _ & [(g & _ & _ & W)|(g & first & g' & Hs & S & W & S0 & _)]);
    [discriminate|].
  eexists _, _, g, first, g'. split; [reflexivity|]. rewrite A, Hs. split; [reflexivity|]. split; [reflexivity|].
  split; [exact S0|]. split; [|reflexivity].
  exists (map (fun t => {| delta_turn_id := g'.(gl_turn_id); delta_generation_id := g'.(gl_generation_id); delta := t |})
    [take 2 exponent_text; drop 2 exponent_text]). split; reflexivity.
Defined.

(** A schema that uses every keyword, and a value that conforms. *)
Definition note_schema : Value :=
  V_object [(lit "type", V_string (lit "object")); (lit "required", V_array [V_string (lit "n")]);
            (lit "properties", V_object [(lit "n", V_object [(lit "type", V_string (lit "array"));
               (lit "items", V_object [(lit "enum", V_array [V_u64 1; V_u64 2])])])]);
            (lit "additionalProperties", V_bool false)].
Definition note_value : Value := V_object [(lit "n", V_array [V_u64 1; V_u64 2; V_u64 1])].

Lemma schema_check_decides_witness : conforms note_value (as_value note_schema) /\ matches_schema (V_object []) (as_value note_schema) = false.
Proof.
  assert (exists nodes, validate_schema (as_value note_schema) 0 0 = Ok nodes) as [nodes E] by (eexists; vm_compute; reflexivity).
  split; [|vm_compute; reflexivity]. apply (proj2 (schema_check_decides note_schema nodes note_value E)). vm_compute. reflexivity.
Defined.

Lemma synthetic_identities_unique_witness : exists s, rtc (identity_step 2) sequence_start s /\ s.(minted) = [u64_max; u64_max - 1] /\ NoDup s.(minted).
Proof.
  assert (rtc (identity_step 2) sequence_start {| counter := u64_max - 2; restoring := 0; minted := [u64_max; u64_max - 1] |}) as R.
  { eapply rtc_l; [apply step_mint; vm_compute; discriminate|]. eapply rtc_l; [apply step_mint; vm_compute; discriminate|]. constructor. }
  eexists. split; [exact R|]. split; [reflexivity|]. apply (synthetic_identities_unique 2 _ ltac:(lia) R).
Defined.
