(* ===== verification/VoiceOutbox.v ===== *)
(** * Publishing the events of a voice session

    [crates/runtime/src/voice_session.rs], the delivery half of [VoiceLoop]: a
    bounded channel to the client, a queue of reliable events behind it, and the
    partial transcripts that wait for room.

    The consumer of the channel is the environment: before each use of the
    channel it may take events or drop the stream ([ve_consumer]), and a wait
    for room under a time limit may end with the time ([ve_elapses]). *)

From S2P Require Import Prelude RustStr Errors TurnEvents ClientVoice.

Local Open Scope Z_scope.

(** ** Computations that may panic *)

(** A method on [&mut self]: its result and the state it leaves. *)
Definition M (S A : Type) : Type := S -> exec (A * S).

Definition ret {S A} (a : A) : M S A := fun s => Val (a, s).
Definition bind {S A B} (m : M S A) (k : A -> M S B) : M S B := fun s => let! '(a, s) := m s in k a s.
Definition gets {S A} (f : S -> A) : M S A := fun s => Val (f s, s).
Definition modify {S} (f : S -> S) : M S unit := fun s => Val (tt, f s).
Definition run_exec {S A} (e : exec A) : M S A := fun s => let! a := e in Val (a, s).

Declare Scope loop_scope.
Delimit Scope loop_scope with loop.
Notation "x <- m ;; k" := (bind m (fun x => k)) (at level 100, m at next level, right associativity) : loop_scope.
Notation "m ;;; k" := (bind m (fun _ => k)) (at level 100, right associativity) : loop_scope.
Open Scope loop_scope.

(** ** The environment of the channel *)

Class ChannelEnv : Type := {
  ve_consumer : nat -> Z * bool;
  ve_elapses : nat -> bool;
}.

Definition SESSION_EVENT_BUFFER_SIZE : Z := 32.
Definition SESSION_COMMAND_BUFFER_SIZE : Z := 8.
Definition RELIABLE_EVENT_RESERVE : Z := 4.
Definition MAX_PENDING_RELIABLE_EVENTS : Z := SESSION_EVENT_BUFFER_SIZE.
Definition MAX_PENDING_PARTIAL_SEGMENTS : Z := SESSION_EVENT_BUFFER_SIZE.

(** The channel ([events]: what was sent, the number not yet taken, whether the
    receiver is gone) and the two queues of the loop. [published] collects the
    events given to [publish_reliable], [sent] tells them apart, and [overdue]
    whether a time limit ever ended a wait for room. *)
Record Outbox : Type := {
  sent : list (bool * VoiceSessionEvent);
  unread : Z;
  closed : bool;
  reliable_events : list VoiceSessionEvent;
  partials : list (Z * rstr);
  published : list VoiceSessionEvent;
  overdue : bool;
  channel_uses : nat;
}.

Definition outbox_new : Outbox :=
  {| sent := []; unread := 0; closed := false; reliable_events := []; partials := []; published := []; overdue := false; channel_uses := 0 |}.

Definition set_reliable (o : Outbox) (q : list VoiceSessionEvent) : Outbox :=
  {| sent := o.(sent); unread := o.(unread); closed := o.(closed); reliable_events := q; partials := o.(partials);
     published := o.(published); overdue := o.(overdue); channel_uses := o.(channel_uses) |}.
Definition set_partials (o : Outbox) (p : list (Z * rstr)) : Outbox :=
  {| sent := o.(sent); unread := o.(unread); closed := o.(closed); reliable_events := o.(reliable_events); partials := p;
     published := o.(published); overdue := o.(overdue); channel_uses := o.(channel_uses) |}.
Definition set_overdue (o : Outbox) : Outbox :=
  {| sent := o.(sent); unread := o.(unread); closed := o.(closed); reliable_events := o.(reliable_events); partials := o.(partials);
     published := o.(published); overdue := true; channel_uses := o.(channel_uses) |}.
Definition publishing (e : VoiceSessionEvent) (o : Outbox) : Outbox :=
  {| sent := o.(sent); unread := o.(unread); closed := o.(closed); reliable_events := o.(reliable_events); partials := o.(partials);
     published := o.(published) ++ [e]; overdue := o.(overdue); channel_uses := o.(channel_uses) |}.

(** [BTreeMap::insert] and [BTreeMap::remove] on the partials, by segment. *)
Fixpoint partial_insert (k : Z) (v : rstr) (m : list (Z * rstr)) : list (Z * rstr) :=
  match m with
  | [] => [(k, v)]
  | (k', v') :: rest =>
      if k <? k' then (k, v) :: m
      else if k =? k' then (k, v) :: rest
      else (k', v') :: partial_insert k v rest
  end.
Definition partial_get (k : Z) (m : list (Z * rstr)) : option rstr :=
  snd <$> List.find (fun kv => kv.1 =? k) m.
Definition partial_remove (k : Z) (m : list (Z * rstr)) : list (Z * rstr) :=
  List.filter (fun kv => negb (kv.1 =? k)) m.

Section Publish.
Context `{VE : ChannelEnv}.

(** The consumer's moves since the last use of the channel. *)
Definition interfere (o : Outbox) : Outbox :=
  let '(taken, gone) := ve_consumer o.(channel_uses) in
  {| sent := o.(sent); unread := Z.max 0 (o.(unread) - Z.max 0 taken); closed := o.(closed) || gone;
     reliable_events := o.(reliable_events); partials := o.(partials); published := o.(published);
     overdue := o.(overdue); channel_uses := S o.(channel_uses) |}.

(** An event enters the channel, where [room] slots are free of events. *)
Definition push (reliable : bool) (room : Z) (e : VoiceSessionEvent) (o : Outbox) : Outbox :=
  {| sent := o.(sent) ++ [(reliable, e)]; unread := Z.min o.(unread) (SESSION_EVENT_BUFFER_SIZE - room) + 1; closed := o.(closed);
     reliable_events := o.(reliable_events); partials := o.(partials); published := o.(published);
     overdue := o.(overdue); channel_uses := o.(channel_uses) |}.

Inductive try_sent : Type := Sent | Full | Closed.

(** [Sender::try_send], [Sender::is_closed], [Sender::capacity]. *)
Definition try_send (reliable : bool) (e : VoiceSessionEvent) : M Outbox try_sent :=
  modify interfere ;;;
  o <- gets (fun o => o) ;;
  if o.(closed) then ret Closed
  else if o.(unread) <? SESSION_EVENT_BUFFER_SIZE then modify (push reliable 1 e) ;;; ret Sent
  else ret Full.
Definition is_closed : M Outbox bool := modify interfere ;;; gets closed.
Definition capacity : M Outbox Z := modify interfere ;;; gets (fun o => SESSION_EVENT_BUFFER_SIZE - o.(unread)).

(** [events.send(event).await]: [None] when the time limit ends the wait for
    room, otherwise whether the receiver is there. *)
Definition send_wait (limited : bool) (e : VoiceSessionEvent) : M Outbox (option bool) :=
  modify interfere ;;;
  o <- gets (fun o => o) ;;
  if o.(closed) then ret (Some false)
  else if limited && (SESSION_EVENT_BUFFER_SIZE <=? o.(unread)) && ve_elapses o.(channel_uses) then modify set_overdue ;;; ret None
  else modify (push true 1 e) ;;; ret (Some true).

(** [None]: the time limit around the caller ended it here. *)
Definition publish_reliable (limited : bool) (e : VoiceSessionEvent) : M Outbox (option bool) :=
  modify (publishing e) ;;;
  queue <- gets reliable_events ;;
  if negb (is_empty queue) then
    r <- (if MAX_PENDING_RELIABLE_EVENTS <=? zlen queue then
            oldest <- run_exec (expect (hd_error queue)) ;;
            modify (fun o => set_reliable o (tl o.(reliable_events))) ;;;
            send_wait limited oldest
          else ret (Some true)) ;;
    match r with
    | Some true =>
        modify (fun o => set_reliable o (o.(reliable_events) ++ [e])) ;;;
        c <- is_closed ;; ret (Some (negb c))
    | r => ret r
    end
  else
    r <- try_send true e ;;
    match r with
    | Sent => ret (Some true)
    | Full => modify (fun o => set_reliable o (o.(reliable_events) ++ [e])) ;;; ret (Some true)
    | Closed => ret (Some false)
    end.

Definition publish_best_effort (e : VoiceSessionEvent) : M Outbox bool :=
  queue <- gets reliable_events ;;
  if negb (is_empty queue) then c <- is_closed ;; ret (negb c)
  else
    room <- capacity ;;
    if room <=? RELIABLE_EVENT_RESERVE then c <- is_closed ;; ret (negb c)
    else r <- try_send false e ;; ret (match r with Closed => false | _ => true end).

Definition store_partial (segment_id : Z) (text : rstr) : M Outbox unit :=
  kept <- gets partials ;;
  (if is_none (partial_get segment_id kept) && (MAX_PENDING_PARTIAL_SEGMENTS <=? zlen kept)
   then modify (fun o => set_partials o (tl o.(partials))) else ret tt) ;;;
  modify (fun o => set_partials o (partial_insert segment_id text o.(partials))).

Definition publish_partial (session_id : SessionId) (segment_id : Z) (text : rstr) : M Outbox bool :=
  queue <- gets reliable_events ;;
  if negb (is_empty queue) then store_partial segment_id text ;;; c <- is_closed ;; ret (negb c)
  else
    room <- capacity ;;
    if room <=? RELIABLE_EVENT_RESERVE then store_partial segment_id text ;;; c <- is_closed ;; ret (negb c)
    else
      r <- try_send false (VS_TranscriptPartial session_id segment_id text) ;;
      match r with
      | Sent => ret true
      | Full => store_partial segment_id text ;;; ret true
      | Closed => ret false
      end.

(** The two loops of [flush_pending_events]: [None] when the queue is empty. *)
Fixpoint flush_reliable (queue : list VoiceSessionEvent) : M Outbox (option bool) :=
  match queue with
  | [] => ret None
  | e :: rest =>
      r <- try_send true e ;;
      match r with
      | Sent => modify (fun o => set_reliable o (tl o.(reliable_events))) ;;; flush_reliable rest
      | Full => ret (Some true)
      | Closed => ret (Some false)
      end
  end.

Fixpoint flush_partials (session_id : SessionId) (waiting : list (Z * rstr)) : M Outbox bool :=
  room <- capacity ;;
  if RELIABLE_EVENT_RESERVE <? room then
    match waiting with
    | [] => ret true
    | (segment_id, text) :: rest =>
        r <- try_send false (VS_TranscriptPartial session_id segment_id text) ;;
        match r with
        | Sent => modify (fun o => set_partials o (partial_remove segment_id o.(partials))) ;;; flush_partials session_id rest
        | Full => ret true
        | Closed => ret false
        end
    end
  else ret true.

Definition flush_pending_events (session_id : SessionId) : M Outbox bool :=
  queue <- gets reliable_events ;;
  r <- flush_reliable queue ;;
  match r with
  | Some r => ret r
  | None => waiting <- gets partials ;; flush_partials session_id waiting
  end.

Inductive PendingDelivery : Type :=
| Delivery_Reliable (event : VoiceSessionEvent)
| Delivery_Partial (segment_id : Z) (text : rstr).

Definition pending_delivery (o : Outbox) : option PendingDelivery :=
  match o.(reliable_events) with
  | event :: _ => Some (Delivery_Reliable event)
  | [] => match o.(partials) with (segment_id, text) :: _ => Some (Delivery_Partial segment_id text) | [] => None end
  end.

Definition remove_pending_delivery (d : PendingDelivery) (o : Outbox) : Outbox :=
  match d with
  | Delivery_Reliable _ => set_reliable o (tl o.(reliable_events))
  | Delivery_Partial segment_id text =>
      if bool_decide (partial_get segment_id o.(partials) = Some text) then set_partials o (partial_remove segment_id o.(partials)) else o
  end.

(** [deliver_pending_event]: a reliable event waits for a slot, a partial for
    one beyond the reserve. *)
Definition deliver_pending_event (session_id : SessionId) (d : PendingDelivery) : M Outbox (option PendingDelivery) :=
  modify interfere ;;;
  c <- gets closed ;;
  if c : bool then ret None
  else
    modify (match d with
            | Delivery_Reliable event => push true 1 event
            | Delivery_Partial segment_id text => push false (RELIABLE_EVENT_RESERVE + 1) (VS_TranscriptPartial session_id segment_id text)
            end) ;;;
    ret (Some d).
End Publish.
