(* ===== verification/VoiceState.v ===== *)
(** * The state of a voice session's loop

    [crates/runtime/src/voice_session.rs]: the data of [VoiceLoop], its commands,
    signals and exits, and the environment it runs in.

    What runs beside the loop is asked one use at a time ([SessionEnv]): the
    clock, the conversation's history, the streaming turn's start, interruption,
    events and abortion, and the tasks that are awaited at the end; each may
    answer anything. A command carries the number of its completion, and
    [replies] collects what completions were sent; [actions] what happened to
    turns. *)

From stdpp Require Import gmap.
From S2P Require Import Prelude RustStr Errors Pcm CaptureTiming Audio TurnFinalizer TranscriptCleanup ProtocolQuality Quality Privacy Context RecordingSafety TurnEvents ClientVoice VoiceOutbox.

Local Open Scope Z_scope.

Definition LATE_RECOGNITION_SETTLE_MS : Z := 120.
Definition MAX_PENDING_SEGMENTS : Z := 32.

Inductive VoiceLoopState : Type :=
| Listening
| Responding (turn_id : TurnId) (generation_id : GenerationId)
| Ending.

Inductive CaptureState : Type := Capture_Active | Pausing | Paused | Resuming.

Inductive CaptureOperationKind : Type := Op_Pause | Op_Resume.

Record PendingCaptureOperation : Type := { operation_kind : CaptureOperationKind; operation_completion : Z }.

Inductive PlaybackLifecycle : Type :=
| AwaitingAcceptance (generation_id : GenerationId) (pending_rendered : option PlaybackReceipt)
| Lifecycle_Accepted (generation_id : GenerationId)
| Lifecycle_Rendered (generation_id : GenerationId)
| Lifecycle_Flushed (generation_id : GenerationId).

Inductive PendingSegment : Type :=
| Pending (words : rstr)
| Authorized (turn_id : TurnId)
| Skipped.

#[export] Instance VoiceLoopState_eq_dec : EqDecision VoiceLoopState.
Proof. solve_decision. Defined.
#[export] Instance VoiceResponseMode_eq_dec : EqDecision VoiceResponseMode.
Proof. solve_decision. Defined.
#[export] Instance CaptureState_eq_dec : EqDecision CaptureState.
Proof. solve_decision. Defined.

(** ** Commands, input, signals *)

Inductive SessionCommand : Type :=
| Command_BargeIn (turn_id : TurnId) (generation_id : GenerationId) (completion : Z)
| Command_PauseCapture (completion : Z)
| Command_ResumeCapture (completion : Z)
| Command_AuthorizeResponse (session : SessionId) (segment_id : Z) (context_exchanges : list ConversationContextExchange) (completion : Z)
| Command_SkipResponse (session : SessionId) (segment_id : Z) (reason : rstr) (completion : Z)
| Command_Shutdown (completion : Z).

Record FinalizedUtterance : Type := {
  utterance_segment_id : Z;
  utterance_text : rstr;
  utterance_evidence : option UtteranceCaptureEvidence;
}.

Inductive RecognitionEvent : Type :=
| Recognized_Hypothesis (hypothesis : RecognitionHypothesis)
| Recognized_FinalizedUtterance (utterance : FinalizedUtterance)
| Recognized_SpeechStarted
| Recognized_SpeechEnded.

Inductive CaptureEvent : Type :=
| Capture_Frame (frame : AudioFrame)
| Capture_Discontinuity (at_ms : Z).

(** A finish barrier carries the number of its completion. *)
Inductive VoiceInputEvent : Type :=
| Input_DeviceStatus (input_label output_label : rstr)
| Input_Activity (activity : VoiceActivity)
| Input_Capture (event : CaptureEvent)
| Input_CaptureMetadata (metadata : CaptureMetadata)
| Input_CaptureFinish (boundary : CaptureFinishBoundary) (completion : Z)
| Input_Recognition (event : RecognitionEvent)
| Input_Playback (receipt : PlaybackReceipt).

Abbreviation aresult A := (result A AdapterError) (only parsing).

Inductive RecorderNotice : Type :=
| Notice_Failure (error : RuntimeError)
| Notice_Limit (limit : RecordingLimit) (state : RecordingLimitState)
| Notice_Health (report : CaptureHealthReport).

(** What [select!] may come back with. *)
Inductive LoopSignal : Type :=
| Signal_AutomaticResponse
| Signal_Recorder (notice : RecorderNotice)
| Signal_ConsumerDropped
| Signal_Command (command : option SessionCommand)
| Signal_Capture (outcome : result (aresult unit) JoinError)
| Signal_Completion (outcome : result (aresult unit) JoinError)
| Signal_Input (input : option (aresult VoiceInputEvent))
| Signal_Turn (event : option RuntimeEvent)
| Signal_Deadline
| Signal_Delivery.

(** [closed_completion] is no completion. *)
Inductive LoopExit : Type :=
| Exit_Shutdown (completion : option Z)
| Exit_ConsumerDropped
| Exit_Fatal (error : RuntimeError).

Inductive Reply : Type :=
| Reply_done
| Reply_unit (r : rresult unit)
| Reply_turn (r : rresult TurnId)
| Reply_finish (r : aresult unit).

(** Why a turn was started, and how it left the loop's hands. *)
Inductive StartCause : Type := By_authorization | By_queue | By_silence.
Inductive TurnAction : Type :=
| Act_start (cause : StartCause) (segment_id : Z) (words : rstr) (turn_id : TurnId) (generation_id : GenerationId)
| Act_over (turn_id : TurnId) (generation_id : GenerationId)
| Act_abort (turn_id : TurnId) (generation_id : GenerationId).

(** ** The environment *)

Class SessionEnv : Type := {
  se_channel :: ChannelEnv;
  se_clock : nat -> Z;
  se_seed : nat -> rstr -> list ConversationContextExchange -> rresult unit;
  se_start : nat -> rstr -> rresult (TurnId * GenerationId);
  se_interrupt : nat -> TurnId -> GenerationId -> option (rresult unit);
  se_drain : nat -> list RuntimeEvent * bool;
  se_abort : nat -> TurnId -> GenerationId -> option (rresult unit);
  se_in_time : nat -> bool;
  se_input_closed : nat -> bool;
  se_recorder_running : nat -> bool;
}.

(** [capture_recorder] is the activity last told to the recorder, when there is
    one; [turn_events] and [io_completion] whether the stream and the task are
    there. *)
Record VoiceLoop : Type := {
  outbox : Outbox;
  capture_state : CaptureState;
  capture_operation : option PendingCaptureOperation;
  io_completion : bool;
  turn_events : bool;
  deadline : option Z;
  loop_finalizer : TurnFinalizer;
  loop_state : VoiceLoopState;
  active_segment_id : option Z;
  finalization_due : bool;
  playback : option PlaybackLifecycle;
  capture_recorder : option bool;
  first_audio_received : bool;
  pending_segments : gmap Z PendingSegment;
  pending_order : list Z;
  automatic_responses : list (Z * rstr);
  last_finalized_segment : Z;
  cleanup_stats : TranscriptCleanupStats;
  replies : list (Z * Reply);
  actions : list TurnAction;
  env_uses : nat;
}.

Definition set_outbox (v : Outbox) (s : VoiceLoop) : VoiceLoop :=
  {| outbox := v; capture_state := s.(capture_state); capture_operation := s.(capture_operation); io_completion := s.(io_completion);
     turn_events := s.(turn_events); deadline := s.(deadline); loop_finalizer := s.(loop_finalizer); loop_state := s.(loop_state);
     active_segment_id := s.(active_segment_id); finalization_due := s.(finalization_due); playback := s.(playback);
     capture_recorder := s.(capture_recorder); first_audio_received := s.(first_audio_received); pending_segments := s.(pending_segments);
     pending_order := s.(pending_order); automatic_responses := s.(automatic_responses); last_finalized_segment := s.(last_finalized_segment);
     cleanup_stats := s.(cleanup_stats); replies := s.(replies); actions := s.(actions); env_uses := s.(env_uses) |}.
Definition set_capture_state (v : CaptureState) (s : VoiceLoop) : VoiceLoop :=
  {| outbox := s.(outbox); capture_state := v; capture_operation := s.(capture_operation); io_completion := s.(io_completion);
     turn_events := s.(turn_events); deadline := s.(deadline); loop_finalizer := s.(loop_finalizer); loop_state := s.(loop_state);
     active_segment_id := s.(active_segment_id); finalization_due := s.(finalization_due); playback := s.(playback);
     capture_recorder := s.(capture_recorder); first_audio_received := s.(first_audio_received); pending_segments := s.(pending_segments);
     pending_order := s.(pending_order); automatic_responses := s.(automatic_responses); last_finalized_segment := s.(last_finalized_segment);
     cleanup_stats := s.(cleanup_stats); replies := s.(replies); actions := s.(actions); env_uses := s.(env_uses) |}.
Definition set_capture_operation (v : option PendingCaptureOperation) (s : VoiceLoop) : VoiceLoop :=
  {| outbox := s.(outbox); capture_state := s.(capture_state); capture_operation := v; io_completion := s.(io_completion);
     turn_events := s.(turn_events); deadline := s.(deadline); loop_finalizer := s.(loop_finalizer); loop_state := s.(loop_state);
     active_segment_id := s.(active_segment_id); finalization_due := s.(finalization_due); playback := s.(playback);
     capture_recorder := s.(capture_recorder); first_audio_received := s.(first_audio_received); pending_segments := s.(pending_segments);
     pending_order := s.(pending_order); automatic_responses := s.(automatic_responses); last_finalized_segment := s.(last_finalized_segment);
     cleanup_stats := s.(cleanup_stats); replies := s.(replies); actions := s.(actions); env_uses := s.(env_uses) |}.
Definition set_io_completion (v : bool) (s : VoiceLoop) : VoiceLoop :=
  {| outbox := s.(outbox); capture_state := s.(capture_state); capture_operation := s.(capture_operation); io_completion := v;
     turn_events := s.(turn_events); deadline := s.(deadline); loop_finalizer := s.(loop_finalizer); loop_state := s.(loop_state);
     active_segment_id := s.(active_segment_id); finalization_due := s.(finalization_due); playback := s.(playback);
     capture_recorder := s.(capture_recorder); first_audio_received := s.(first_audio_received); pending_segments := s.(pending_segments);
     pending_order := s.(pending_order); automatic_responses := s.(automatic_responses); last_finalized_segment := s.(last_finalized_segment);
     cleanup_stats := s.(cleanup_stats); replies := s.(replies); actions := s.(actions); env_uses := s.(env_uses) |}.
Definition set_turn_events (v : bool) (s : VoiceLoop) : VoiceLoop :=
  {| outbox := s.(outbox); capture_state := s.(capture_state); capture_operation := s.(capture_operation); io_completion := s.(io_completion);
     turn_events := v; deadline := s.(deadline); loop_finalizer := s.(loop_finalizer); loop_state := s.(loop_state);
     active_segment_id := s.(active_segment_id); finalization_due := s.(finalization_due); playback := s.(playback);
     capture_recorder := s.(capture_recorder); first_audio_received := s.(first_audio_received); pending_segments := s.(pending_segments);
     pending_order := s.(pending_order); automatic_responses := s.(automatic_responses); last_finalized_segment := s.(last_finalized_segment);
     cleanup_stats := s.(cleanup_stats); replies := s.(replies); actions := s.(actions); env_uses := s.(env_uses) |}.
Definition set_deadline (v : option Z) (s : VoiceLoop) : VoiceLoop :=
  {| outbox := s.(outbox); capture_state := s.(capture_state); capture_operation := s.(capture_operation); io_completion := s.(io_completion);
     turn_events := s.(turn_events); deadline := v; loop_finalizer := s.(loop_finalizer); loop_state := s.(loop_state);
     active_segment_id := s.(active_segment_id); finalization_due := s.(finalization_due); playback := s.(playback);
     capture_recorder := s.(capture_recorder); first_audio_received := s.(first_audio_received); pending_segments := s.(pending_segments);
     pending_order := s.(pending_order); automatic_responses := s.(automatic_responses); last_finalized_segment := s.(last_finalized_segment);
     cleanup_stats := s.(cleanup_stats); replies := s.(replies); actions := s.(actions); env_uses := s.(env_uses) |}.
Definition set_loop_finalizer (v : TurnFinalizer) (s : VoiceLoop) : VoiceLoop :=
  {| outbox := s.(outbox); capture_state := s.(capture_state); capture_operation := s.(capture_operation); io_completion := s.(io_completion);
     turn_events := s.(turn_events); deadline := s.(deadline); loop_finalizer := v; loop_state := s.(loop_state);
     active_segment_id := s.(active_segment_id); finalization_due := s.(finalization_due); playback := s.(playback);
     capture_recorder := s.(capture_recorder); first_audio_received := s.(first_audio_received); pending_segments := s.(pending_segments);
     pending_order := s.(pending_order); automatic_responses := s.(automatic_responses); last_finalized_segment := s.(last_finalized_segment);
     cleanup_stats := s.(cleanup_stats); replies := s.(replies); actions := s.(actions); env_uses := s.(env_uses) |}.
Definition set_loop_state (v : VoiceLoopState) (s : VoiceLoop) : VoiceLoop :=
  {| outbox := s.(outbox); capture_state := s.(capture_state); capture_operation := s.(capture_operation); io_completion := s.(io_completion);
     turn_events := s.(turn_events); deadline := s.(deadline); loop_finalizer := s.(loop_finalizer); loop_state := v;
     active_segment_id := s.(active_segment_id); finalization_due := s.(finalization_due); playback := s.(playback);
     capture_recorder := s.(capture_recorder); first_audio_received := s.(first_audio_received); pending_segments := s.(pending_segments);
     pending_order := s.(pending_order); automatic_responses := s.(automatic_responses); last_finalized_segment := s.(last_finalized_segment);
     cleanup_stats := s.(cleanup_stats); replies := s.(replies); actions := s.(actions); env_uses := s.(env_uses) |}.
Definition set_active_segment_id (v : option Z) (s : VoiceLoop) : VoiceLoop :=
  {| outbox := s.(outbox); capture_state := s.(capture_state); capture_operation := s.(capture_operation); io_completion := s.(io_completion);
     turn_events := s.(turn_events); deadline := s.(deadline); loop_finalizer := s.(loop_finalizer); loop_state := s.(loop_state);
     active_segment_id := v; finalization_due := s.(finalization_due); playback := s.(playback); capture_recorder := s.(capture_recorder);
     first_audio_received := s.(first_audio_received); pending_segments := s.(pending_segments); pending_order := s.(pending_order);
     automatic_responses := s.(automatic_responses); last_finalized_segment := s.(last_finalized_segment); cleanup_stats := s.(cleanup_stats);
     replies := s.(replies); actions := s.(actions); env_uses := s.(env_uses) |}.
Definition set_finalization_due (v : bool) (s : VoiceLoop) : VoiceLoop :=
  {| outbox := s.(outbox); capture_state := s.(capture_state); capture_operation := s.(capture_operation); io_completion := s.(io_completion);
     turn_events := s.(turn_events); deadline := s.(deadline); loop_finalizer := s.(loop_finalizer); loop_state := s.(loop_state);
     active_segment_id := s.(active_segment_id); finalization_due := v; playback := s.(playback); capture_recorder := s.(capture_recorder);
     first_audio_received := s.(first_audio_received); pending_segments := s.(pending_segments); pending_order := s.(pending_order);
     automatic_responses := s.(automatic_responses); last_finalized_segment := s.(last_finalized_segment); cleanup_stats := s.(cleanup_stats);
     replies := s.(replies); actions := s.(actions); env_uses := s.(env_uses) |}.
Definition set_playback (v : option PlaybackLifecycle) (s : VoiceLoop) : VoiceLoop :=
  {| outbox := s.(outbox); capture_state := s.(capture_state); capture_operation := s.(capture_operation); io_completion := s.(io_completion);
     turn_events := s.(turn_events); deadline := s.(deadline); loop_finalizer := s.(loop_finalizer); loop_state := s.(loop_state);
     active_segment_id := s.(active_segment_id); finalization_due := s.(finalization_due); playback := v; capture_recorder := s.(capture_recorder);
     first_audio_received := s.(first_audio_received); pending_segments := s.(pending_segments); pending_order := s.(pending_order);
     automatic_responses := s.(automatic_responses); last_finalized_segment := s.(last_finalized_segment); cleanup_stats := s.(cleanup_stats);
     replies := s.(replies); actions := s.(actions); env_uses := s.(env_uses) |}.
Definition set_capture_recorder (v : option bool) (s : VoiceLoop) : VoiceLoop :=
  {| outbox := s.(outbox); capture_state := s.(capture_state); capture_operation := s.(capture_operation); io_completion := s.(io_completion);
     turn_events := s.(turn_events); deadline := s.(deadline); loop_finalizer := s.(loop_finalizer); loop_state := s.(loop_state);
     active_segment_id := s.(active_segment_id); finalization_due := s.(finalization_due); playback := s.(playback); capture_recorder := v;
     first_audio_received := s.(first_audio_received); pending_segments := s.(pending_segments); pending_order := s.(pending_order);
     automatic_responses := s.(automatic_responses); last_finalized_segment := s.(last_finalized_segment); cleanup_stats := s.(cleanup_stats);
     replies := s.(replies); actions := s.(actions); env_uses := s.(env_uses) |}.
Definition set_first_audio_received (v : bool) (s : VoiceLoop) : VoiceLoop :=
  {| outbox := s.(outbox); capture_state := s.(capture_state); capture_operation := s.(capture_operation); io_completion := s.(io_completion);
     turn_events := s.(turn_events); deadline := s.(deadline); loop_finalizer := s.(loop_finalizer); loop_state := s.(loop_state);
     active_segment_id := s.(active_segment_id); finalization_due := s.(finalization_due); playback := s.(playback);
     capture_recorder := s.(capture_recorder); first_audio_received := v; pending_segments := s.(pending_segments);
     pending_order := s.(pending_order); automatic_responses := s.(automatic_responses); last_finalized_segment := s.(last_finalized_segment);
     cleanup_stats := s.(cleanup_stats); replies := s.(replies); actions := s.(actions); env_uses := s.(env_uses) |}.
Definition set_pending_segments (v : gmap Z PendingSegment) (s : VoiceLoop) : VoiceLoop :=
  {| outbox := s.(outbox); capture_state := s.(capture_state); capture_operation := s.(capture_operation); io_completion := s.(io_completion);
     turn_events := s.(turn_events); deadline := s.(deadline); loop_finalizer := s.(loop_finalizer); loop_state := s.(loop_state);
     active_segment_id := s.(active_segment_id); finalization_due := s.(finalization_due); playback := s.(playback);
     capture_recorder := s.(capture_recorder); first_audio_received := s.(first_audio_received); pending_segments := v;
     pending_order := s.(pending_order); automatic_responses := s.(automatic_responses); last_finalized_segment := s.(last_finalized_segment);
     cleanup_stats := s.(cleanup_stats); replies := s.(replies); actions := s.(actions); env_uses := s.(env_uses) |}.
Definition set_pending_order (v : list Z) (s : VoiceLoop) : VoiceLoop :=
  {| outbox := s.(outbox); capture_state := s.(capture_state); capture_operation := s.(capture_operation); io_completion := s.(io_completion);
     turn_events := s.(turn_events); deadline := s.(deadline); loop_finalizer := s.(loop_finalizer); loop_state := s.(loop_state);
     active_segment_id := s.(active_segment_id); finalization_due := s.(finalization_due); playback := s.(playback);
     capture_recorder := s.(capture_recorder); first_audio_received := s.(first_audio_received); pending_segments := s.(pending_segments);
     pending_order := v; automatic_responses := s.(automatic_responses); last_finalized_segment := s.(last_finalized_segment);
     cleanup_stats := s.(cleanup_stats); replies := s.(replies); actions := s.(actions); env_uses := s.(env_uses) |}.
Definition set_automatic_responses (v : list (Z * rstr)) (s : VoiceLoop) : VoiceLoop :=
  {| outbox := s.(outbox); capture_state := s.(capture_state); capture_operation := s.(capture_operation); io_completion := s.(io_completion);
     turn_events := s.(turn_events); deadline := s.(deadline); loop_finalizer := s.(loop_finalizer); loop_state := s.(loop_state);
     active_segment_id := s.(active_segment_id); finalization_due := s.(finalization_due); playback := s.(playback);
     capture_recorder := s.(capture_recorder); first_audio_received := s.(first_audio_received); pending_segments := s.(pending_segments);
     pending_order := s.(pending_order); automatic_responses := v; last_finalized_segment := s.(last_finalized_segment);
     cleanup_stats := s.(cleanup_stats); replies := s.(replies); actions := s.(actions); env_uses := s.(env_uses) |}.
Definition set_last_finalized_segment (v : Z) (s : VoiceLoop) : VoiceLoop :=
  {| outbox := s.(outbox); capture_state := s.(capture_state); capture_operation := s.(capture_operation); io_completion := s.(io_completion);
     turn_events := s.(turn_events); deadline := s.(deadline); loop_finalizer := s.(loop_finalizer); loop_state := s.(loop_state);
     active_segment_id := s.(active_segment_id); finalization_due := s.(finalization_due); playback := s.(playback);
     capture_recorder := s.(capture_recorder); first_audio_received := s.(first_audio_received); pending_segments := s.(pending_segments);
     pending_order := s.(pending_order); automatic_responses := s.(automatic_responses); last_finalized_segment := v;
     cleanup_stats := s.(cleanup_stats); replies := s.(replies); actions := s.(actions); env_uses := s.(env_uses) |}.
Definition set_cleanup_stats (v : TranscriptCleanupStats) (s : VoiceLoop) : VoiceLoop :=
  {| outbox := s.(outbox); capture_state := s.(capture_state); capture_operation := s.(capture_operation); io_completion := s.(io_completion);
     turn_events := s.(turn_events); deadline := s.(deadline); loop_finalizer := s.(loop_finalizer); loop_state := s.(loop_state);
     active_segment_id := s.(active_segment_id); finalization_due := s.(finalization_due); playback := s.(playback);
     capture_recorder := s.(capture_recorder); first_audio_received := s.(first_audio_received); pending_segments := s.(pending_segments);
     pending_order := s.(pending_order); automatic_responses := s.(automatic_responses); last_finalized_segment := s.(last_finalized_segment);
     cleanup_stats := v; replies := s.(replies); actions := s.(actions); env_uses := s.(env_uses) |}.
Definition set_replies (v : list (Z * Reply)) (s : VoiceLoop) : VoiceLoop :=
  {| outbox := s.(outbox); capture_state := s.(capture_state); capture_operation := s.(capture_operation); io_completion := s.(io_completion);
     turn_events := s.(turn_events); deadline := s.(deadline); loop_finalizer := s.(loop_finalizer); loop_state := s.(loop_state);
     active_segment_id := s.(active_segment_id); finalization_due := s.(finalization_due); playback := s.(playback);
     capture_recorder := s.(capture_recorder); first_audio_received := s.(first_audio_received); pending_segments := s.(pending_segments);
     pending_order := s.(pending_order); automatic_responses := s.(automatic_responses); last_finalized_segment := s.(last_finalized_segment);
     cleanup_stats := s.(cleanup_stats); replies := v; actions := s.(actions); env_uses := s.(env_uses) |}.
Definition set_actions (v : list TurnAction) (s : VoiceLoop) : VoiceLoop :=
  {| outbox := s.(outbox); capture_state := s.(capture_state); capture_operation := s.(capture_operation); io_completion := s.(io_completion);
     turn_events := s.(turn_events); deadline := s.(deadline); loop_finalizer := s.(loop_finalizer); loop_state := s.(loop_state);
     active_segment_id := s.(active_segment_id); finalization_due := s.(finalization_due); playback := s.(playback);
     capture_recorder := s.(capture_recorder); first_audio_received := s.(first_audio_received); pending_segments := s.(pending_segments);
     pending_order := s.(pending_order); automatic_responses := s.(automatic_responses); last_finalized_segment := s.(last_finalized_segment);
     cleanup_stats := s.(cleanup_stats); replies := s.(replies); actions := v; env_uses := s.(env_uses) |}.
Definition set_env_uses (v : nat) (s : VoiceLoop) : VoiceLoop :=
  {| outbox := s.(outbox); capture_state := s.(capture_state); capture_operation := s.(capture_operation); io_completion := s.(io_completion);
     turn_events := s.(turn_events); deadline := s.(deadline); loop_finalizer := s.(loop_finalizer); loop_state := s.(loop_state);
     active_segment_id := s.(active_segment_id); finalization_due := s.(finalization_due); playback := s.(playback);
     capture_recorder := s.(capture_recorder); first_audio_received := s.(first_audio_received); pending_segments := s.(pending_segments);
     pending_order := s.(pending_order); automatic_responses := s.(automatic_responses); last_finalized_segment := s.(last_finalized_segment);
     cleanup_stats := s.(cleanup_stats); replies := s.(replies); actions := s.(actions); env_uses := v |}.

(** ** Steps on the state *)

Section Steps.
Context `{SE : SessionEnv}.

Definition Loop (A : Type) : Type := M VoiceLoop A.

Definition on_outbox {A} (m : M Outbox A) : Loop A :=
  fun s => let! '(a, o) := m s.(outbox) in Val (a, set_outbox o s).

(** One use of the environment. *)
Definition ask {A} (answer : nat -> A) : Loop A :=
  fun s => Val (answer s.(env_uses), set_env_uses (S s.(env_uses)) s).

Definition now_ms : Loop Z := ask se_clock.

(** [self.publish_reliable(event).await] where no time limit is around. *)
Definition publish (e : VoiceSessionEvent) : Loop bool :=
  r <- on_outbox (publish_reliable false e) ;; ret (default false r).
Definition best_effort (e : VoiceSessionEvent) : Loop bool := on_outbox (publish_best_effort e).

Definition reply (completion : Z) (r : Reply) : Loop unit := modify (fun s => set_replies (s.(replies) ++ [(completion, r)]) s).
Definition act (a : TurnAction) : Loop unit := modify (fun s => set_actions (s.(actions) ++ [a]) s).
End Steps.
