(* ===== verification/VoiceLoop.v ===== *)
(** * The loop of a voice session

    [crates/runtime/src/voice_session.rs]: the handlers of [VoiceLoop] and the
    loops that call them, up to the event that ends the session. The signals of
    [select!] come as a list: each iteration takes the next one, when the loop
    polls for it. *)

From stdpp Require Import gmap.
From S2P Require Import Prelude RustStr Errors Pcm CaptureTiming Audio TurnFinalizer TranscriptCleanup ProtocolQuality Quality Privacy Context RecordingSafety TurnEvents ClientVoice VoiceOutbox VoiceState.

Local Open Scope Z_scope.

(** ** Errors *)

Definition adapter_message_error (stage : RuntimeStage) (message : rstr) : RuntimeError := RuntimeError_new Kind_Adapter stage message.
Definition voice_io_error (e : AdapterError) : RuntimeError :=
  adapter_runtime_error (default Stage_VoiceSidecar e.(adapter_stage)) e.
Definition is_recognition_failure (e : AdapterError) : bool := bool_decide (e.(adapter_stage) = Some Stage_SpeechRecognizer).
Definition session_failure (session_id : SessionId) (e : RuntimeError) : VoiceSessionEvent := VS_SessionFailed session_id e NewSession.
Definition voice_loop_stopped : RuntimeError :=
  RuntimeError_new Kind_InvalidState Stage_VoiceSidecar
    (lit "voice loop stopped; transcripts and responses ended, recording continues until stop").
Definition responses_stopped : RuntimeError := runtime_error (lit "voice responses stopped after the voice session failed").
Definition cleanup_timeout_error (operation : rstr) : RuntimeError :=
  runtime_error (lit "voice session cleanup timed out during " ++ operation).

Definition completion_failure (outcome : result (aresult unit) JoinError) : RuntimeError :=
  match outcome with
  | Ok (Ok _) => adapter_message_error Stage_VoiceSidecar (lit "voice I/O session ended unexpectedly")
  | Ok (Err e) => voice_io_error e
  | Err _ => adapter_message_error Stage_VoiceSidecar (lit "voice I/O session completion task failed")
  end.

Definition active_turn_id (s : VoiceLoopState) : option TurnId := match s with Responding t _ => Some t | _ => None end.

Section VoiceLoop.
Context `{U : UnicodeTables, SE : SessionEnv} (session_id : SessionId) (final_silence_ms : Z) (response_mode : VoiceResponseMode).

(** The final is dropped when nothing speech-like is left. *)
Definition clean_final (text : rstr) : Loop (option rstr) :=
  cleanup <- run_exec (clean_final_transcript text) ;;
  modify (fun s => set_cleanup_stats (TranscriptCleanup.record s.(cleanup_stats) cleanup) s) ;;;
  ret (match cleanup with Unchanged => Some text | Cleaned text _ => Some text | Dropped _ => None end).

Definition idle (s : VoiceLoop) : bool := bool_decide (s.(loop_state) = Listening) && negb s.(turn_events).

(** ** Responses *)

Definition mark_segment (segment_id : Z) (p : PendingSegment) : Loop unit :=
  modify (fun s => set_pending_segments (<[segment_id := p]> s.(pending_segments)) s).

(** The loop owns a started turn. *)
Definition own_turn (turn_id : TurnId) (generation_id : GenerationId) : Loop unit :=
  modify (set_turn_events true) ;;;
  modify (set_loop_state (Responding turn_id generation_id)) ;;;
  modify (set_playback (Some (AwaitingAcceptance generation_id None))).

Definition start_segment_response (segment_id : Z) (text : rstr) (external_gate : bool) : Loop (rresult TurnId) :=
  free <- gets idle ;;
  if negb free then ret (Err (runtime_error (lit "voice response cannot replace an active response")))
  else
    started <- ask (fun n => se_start n text) ;;
    match started with
    | Err e => ret (Err e)
    | Ok (turn_id, generation_id) =>
        act (Act_start (if external_gate then By_authorization else By_queue) segment_id text turn_id generation_id) ;;;
        (if external_gate then mark_segment segment_id (Authorized turn_id) else ret tt) ;;;
        open <- publish (VS_ResponseAuthorized session_id segment_id turn_id) ;;
        if negb open then
          _ <- ask (fun n => se_abort n turn_id generation_id) ;;
          act (Act_abort turn_id generation_id) ;;;
          (if external_gate then mark_segment segment_id (Pending text) else ret tt) ;;;
          ret (Err (runtime_error (lit "voice session event stream closed during authorization")))
        else
          own_turn turn_id generation_id ;;;
          elapsed_ms <- now_ms ;;
          open <- best_effort (VS_Timing session_id (Some turn_id) VT_ResponseAuthorized elapsed_ms) ;;
          ret (if open : bool then Ok turn_id else Err (runtime_error (lit "voice session event stream closed during authorization timing")))
    end.

Definition authorization_key (segment_id : Z) : rstr :=
  lit "voice-authorize-" ++ decimal (SessionId_get session_id) ++ lit "-" ++ decimal segment_id.

Definition not_available : RuntimeError := runtime_error (lit "voice response authorization is not available for this session").
Definition not_pending : RuntimeError := runtime_error (lit "voice response segment is not pending").

Definition authorize_segment (session : SessionId) (segment_id : Z) (context_exchanges : list ConversationContextExchange) : Loop (rresult TurnId) :=
  if negb (bool_decide (response_mode = ExternalGate)) || negb (bool_decide (session = session_id)) then ret (Err not_available)
  else
    segment <- gets (fun s => s.(pending_segments) !! segment_id) ;;
    match segment with
    | Some (Authorized turn_id) => ret (Ok turn_id)
    | _ =>
        free <- gets idle ;;
        if negb free then ret (Err (runtime_error (lit "voice response authorization cannot replace an active response")))
        else
          match segment with
          | Some (Pending text) =>
              seeded <- ask (fun n => se_seed n (authorization_key segment_id) context_exchanges) ;;
              match seeded with
              | Err e => ret (Err e)
              | Ok _ => start_segment_response segment_id text true
              end
          | _ => ret (Err not_pending)
          end
    end.

Definition skip_segment (session : SessionId) (segment_id : Z) (reason : rstr) : Loop (rresult unit) :=
  if negb (bool_decide (response_mode = ExternalGate)) || negb (bool_decide (session = session_id)) then ret (Err not_available)
  else
    segment <- gets (fun s => s.(pending_segments) !! segment_id) ;;
    match segment with
    | Some (Pending _) =>
        mark_segment segment_id Skipped ;;;
        open <- publish (VS_ResponseSkipped session_id segment_id reason) ;;
        ret (if open : bool then Ok tt else Err (runtime_error (lit "voice session event stream closed during skip")))
    | _ => ret (Err not_pending)
    end.

Definition start_queued_automatic_response : Loop (rresult unit) :=
  free <- gets idle ;;
  if negb free then ret (Ok tt)
  else
    queue <- gets automatic_responses ;;
    match queue with
    | [] => ret (Ok tt)
    | (segment_id, text) :: rest =>
        modify (set_automatic_responses rest) ;;;
        r <- start_segment_response segment_id text false ;;
        match r with
        | Err error =>
            _ <- publish (VS_ResponseSkipped session_id segment_id (lit "automatic_response_start_failed")) ;;
            ret (Err error)
        | Ok _ => ret (Ok tt)
        end
    end.

(** The oldest pending segments expire, until there is room for one more. *)
Fixpoint expire_segments (order : list Z) : Loop bool :=
  if MAX_PENDING_SEGMENTS <=? zlen order then
    match order with
    | [] => ret true
    | expired :: rest =>
        modify (set_pending_order rest) ;;;
        segment <- gets (fun s => s.(pending_segments) !! expired) ;;
        modify (fun s => set_pending_segments (delete expired s.(pending_segments)) s) ;;;
        open <- (match segment with
                 | Some (Pending _) => publish (VS_ResponseSkipped session_id expired (lit "pending_segment_expired"))
                 | _ => ret true
                 end) ;;
        if negb open then ret false else expire_segments rest
    end
  else ret true.

Definition register_pending_segment_with_capture (segment_id : Z) (text : rstr) (evidence : option UtteranceCaptureEvidence) : Loop (rresult unit) :=
  order <- gets pending_order ;;
  open <- expire_segments order ;;
  if negb open then ret (Err (runtime_error (lit "voice session event stream closed during segment expiry")))
  else
    modify (fun s => set_pending_order (s.(pending_order) ++ [segment_id]) s) ;;;
    mark_segment segment_id (Pending text) ;;;
    open <- publish (VS_TranscriptFinal session_id segment_id None text evidence) ;;
    if negb open then ret (Err (runtime_error (lit "voice session event stream closed during finalization")))
    else
      elapsed_ms <- now_ms ;;
      open <- best_effort (VS_Timing session_id None VT_TranscriptFinal elapsed_ms) ;;
      ret (if open : bool then Ok tt else Err (runtime_error (lit "voice session event stream closed during finalization timing"))).

Definition register_pending_segment (segment_id : Z) (text : rstr) : Loop (rresult unit) :=
  register_pending_segment_with_capture segment_id text None.

Definition admit_finalized_utterance (utterance : FinalizedUtterance) : Loop (rresult unit) :=
  let segment_id := utterance.(utterance_segment_id) in
  last <- gets last_finalized_segment ;;
  if segment_id <=? last then ret (Err (runtime_error (lit "finalized utterance identity was repeated or out of order")))
  else
    modify (set_last_finalized_segment segment_id) ;;;
    cleaned <- clean_final utterance.(utterance_text) ;;
    match cleaned with
    | None => ret (Ok tt)
    | Some text =>
        if bool_decide (response_mode = ExternalGate) then
          register_pending_segment_with_capture segment_id text utterance.(utterance_evidence)
        else
          open <- publish (VS_TranscriptFinal session_id segment_id None text utterance.(utterance_evidence)) ;;
          if negb open then ret (Err (runtime_error (lit "voice session event stream closed during finalization")))
          else
            elapsed_ms <- now_ms ;;
            _ <- best_effort (VS_Timing session_id None VT_TranscriptFinal elapsed_ms) ;;
            queue <- gets automatic_responses ;;
            if MAX_PENDING_SEGMENTS <=? zlen queue then
              _ <- publish (VS_ResponseSkipped session_id segment_id (lit "automatic_response_queue_full")) ;;
              ret (Err (runtime_error (lit "automatic response queue exceeded its bounded capacity")))
            else
              modify (fun s => set_automatic_responses (s.(automatic_responses) ++ [(segment_id, text)]) s) ;;;
              start_queued_automatic_response
    end.

Definition finalize_now (at_ms : Z) : Loop (option FinalizedTranscript) :=
  fun s => let '(finalized, f) := finalize_ready s.(loop_finalizer) at_ms in Val (finalized, set_loop_finalizer f s).

Definition start_ready_turn : Loop (rresult unit) :=
  modify (set_finalization_due false) ;;;
  at_ms <- now_ms ;;
  finalized <- finalize_now at_ms ;;
  match finalized with
  | None => ret (Ok tt)
  | Some finalized =>
      active <- gets active_segment_id ;;
      modify (set_active_segment_id None) ;;;
      match active with
      | None => ret (Err (runtime_error (lit "finalized voice transcript has no segment identifier")))
      | Some segment_id =>
          cleaned <- clean_final finalized.(ft_text) ;;
          match cleaned with
          | None => ret (Ok tt)
          | Some text =>
              if bool_decide (response_mode = ExternalGate) then register_pending_segment segment_id text
              else
                started <- ask (fun n => se_start n text) ;;
                match started with
                | Err e => ret (Err e)
                | Ok (turn_id, generation_id) =>
                    act (Act_start By_silence segment_id text turn_id generation_id) ;;;
                    open <- publish (VS_TranscriptFinal session_id segment_id (Some turn_id) text None) ;;
                    open <- (if open : bool then
                               elapsed_ms <- now_ms ;; best_effort (VS_Timing session_id (Some turn_id) VT_TranscriptFinal elapsed_ms)
                             else ret false) ;;
                    if negb open then
                      _ <- ask (fun n => se_abort n turn_id generation_id) ;;
                      act (Act_abort turn_id generation_id) ;;;
                      ret (Err (runtime_error (lit "voice session event stream closed during finalization")))
                    else own_turn turn_id generation_id ;;; ret (Ok tt)
                end
          end
      end
  end.

(** ** Turn events *)

Definition publish_runtime_timing (event : RuntimeEvent) : Loop unit :=
  match event with
  | Timing turn_id milestone _ =>
      elapsed_ms <- now_ms ;;
      _ <- best_effort (VS_Timing session_id (Some turn_id)
        (match milestone with
         | FirstTextDelta => VT_FirstTextDelta
         | FirstSynthesisRequest => VT_FirstSynthesisRequest
         | FirstPlayableAudio => VT_FirstPlayableAudio
         end) elapsed_ms) ;;
      ret tt
  | _ => ret tt
  end.

Definition is_reliable_turn_event (event : RuntimeEvent) : bool :=
  match event with TranscriptFinal _ _ | TextCompleted _ _ => true | _ => is_terminal event end.

(** [None]: the time limit around the caller ended it here. *)
Definition publish_turn_event (limited : bool) (generation_id : GenerationId) (event : RuntimeEvent) : Loop (option bool) :=
  match event with
  | Playback _ accepted_generation Playback_Accepted =>
      if negb (bool_decide (accepted_generation = generation_id)) then ret (Some true)
      else
        lifecycle <- gets playback ;;
        match lifecycle with
        | Some (AwaitingAcceptance active_generation pending_rendered) =>
            if negb (bool_decide (active_generation = generation_id)) then ret (Some true)
            else
              r <- on_outbox (publish_reliable limited (VS_Playback session_id generation_id Playback_Accepted)) ;;
              match r with
              | Some true =>
                  modify (set_playback (Some (Lifecycle_Accepted generation_id))) ;;;
                  if is_some pending_rendered then
                    r <- on_outbox (publish_reliable limited (VS_Playback session_id generation_id Playback_Rendered)) ;;
                    match r with
                    | Some true => modify (set_playback (Some (Lifecycle_Rendered generation_id))) ;;; ret (Some true)
                    | r => ret r
                    end
                  else ret (Some true)
              | r => ret r
              end
        | _ => ret (Some true)
        end
  | _ =>
      if is_reliable_turn_event event then on_outbox (publish_reliable limited (VS_Turn session_id generation_id event))
      else open <- best_effort (VS_Turn session_id generation_id event) ;; ret (Some open)
  end.

Definition handle_turn_event (event : option RuntimeEvent) : Loop (option LoopExit) :=
  match event with
  | None =>
      modify (set_turn_events false) ;;;
      state <- gets loop_state ;;
      (match state with Responding turn_id generation_id => act (Act_over turn_id generation_id) | _ => ret tt end) ;;;
      ret (Some (Exit_Fatal (runtime_error (lit "streaming turn ended without a terminal event"))))
  | Some event =>
      state <- gets loop_state ;;
      match state with
      | Responding turn_id generation_id =>
          publish_runtime_timing event ;;;
          open <- publish_turn_event false generation_id event ;;
          if negb (default false open) then ret (Some Exit_ConsumerDropped)
          else if is_terminal event then
            modify (set_turn_events false) ;;;
            act (Act_over turn_id generation_id) ;;;
            on_outbox (modify (fun o => set_partials o [])) ;;;
            modify (set_loop_state Listening) ;;;
            modify (set_playback None) ;;;
            open <- (match event with
                     | TurnFailed _ error => publish (VS_SessionFailed session_id error ContinueSession)
                     | _ => ret true
                     end) ;;
            if negb open then ret (Some Exit_ConsumerDropped)
            else
              due <- gets finalization_due ;;
              if due : bool then
                r <- start_ready_turn ;;
                ret (match r with Err error => Some (Exit_Fatal error) | Ok _ => None end)
              else ret None
          else ret None
      | _ => ret (Some (Exit_Fatal (runtime_error (lit "streaming turn event arrived without an active generation"))))
      end
  end.

(** ** Interruption *)

Definition is_accepted_playback (event : RuntimeEvent) : bool :=
  match event with Playback _ _ Playback_Accepted => true | _ => false end.

(** The events that come before the time limit or the end of the stream
    ([ended]); [None] when the limit ends the drain. *)
Fixpoint drain_loop (events : list RuntimeEvent) (ended : bool) (expected_turn_id : TurnId) (generation_id : GenerationId)
    (delivery_open : bool) : Loop (option (rresult unit)) :=
  match events with
  | [] =>
      if ended then
        modify (set_turn_events false) ;;;
        act (Act_over expected_turn_id generation_id) ;;;
        ret (Some (Err (runtime_error (lit "interrupted turn ended without a terminal event"))))
      else ret None
  | event :: rest =>
      (if is_terminal event then on_outbox (modify (fun o => set_partials o [])) else ret tt) ;;;
      publish_runtime_timing event ;;;
      r <- (if is_accepted_playback event then ret (Some true) else publish_turn_event true generation_id event) ;;
      match r with
      | None => ret None
      | Some open =>
          let delivery_open := delivery_open && open in
          if is_terminal event then
            modify (set_turn_events false) ;;;
            act (Act_over expected_turn_id generation_id) ;;;
            ret (Some (match event with
                       | TurnCancelled turn_id =>
                           if negb (bool_decide (turn_id = expected_turn_id)) then
                             Err (runtime_error (lit "interrupted turn " ++ TurnId_display expected_turn_id ++ lit " ended without its matching cancellation"))
                           else if delivery_open then Ok tt
                           else Err (runtime_error (lit "voice session event stream closed during turn cancellation"))
                       | _ => Err (runtime_error (lit "interrupted turn " ++ TurnId_display expected_turn_id ++ lit " ended without its matching cancellation"))
                       end))
          else drain_loop rest ended expected_turn_id generation_id delivery_open
      end
  end.

Definition drain_interrupted_turn (expected_turn_id : TurnId) (generation_id : GenerationId) : Loop (option (rresult unit)) :=
  there <- gets turn_events ;;
  if negb there then ret (Some (Err (runtime_error (lit "interrupted turn ended without an event stream"))))
  else
    heard <- ask se_drain ;;
    drain_loop heard.1 heard.2 expected_turn_id generation_id true.

Definition abort_interrupted_turn (turn_id : TurnId) (generation_id : GenerationId) : Loop (rresult unit) :=
  there <- gets turn_events ;;
  if negb there then ret (Err (runtime_error (lit "interrupted turn ended without an abortable task")))
  else
    r <- ask (fun n => se_abort n turn_id generation_id) ;;
    act (Act_abort turn_id generation_id) ;;;
    modify (set_turn_events false) ;;;
    ret (match r with None => Err (cleanup_timeout_error (lit "streaming turn abort and reap")) | Some r => r end).

Definition drain_timeout : RuntimeError := cleanup_timeout_error (lit "streaming turn drain").

Definition interrupt_current_turn : Loop (rresult unit) :=
  state <- gets loop_state ;;
  match state with
  | Responding turn_id generation_id =>
      modify (set_playback None) ;;;
      interrupted <- ask (fun n => se_interrupt n turn_id generation_id) ;;
      match
        match interrupted with
        | Some (Ok _) => None
        | Some (Err error) => Some error
        | None => Some (RuntimeError_new Kind_Adapter Stage_ContinuousAudioOutput (lit "playback flush was not acknowledged in time"))
        end
      with
      | Some error =>
          drained <- drain_interrupted_turn turn_id generation_id ;;
          modify (set_loop_state Listening) ;;;
          match drained with
          | None =>
              aborted <- abort_interrupted_turn turn_id generation_id ;;
              ret (match aborted with Err e => Err e | Ok _ => Err drain_timeout end)
          | Some (Err e) => ret (Err e)
          | Some (Ok _) => ret (Err error)
          end
      | None =>
          elapsed_ms <- now_ms ;;
          open <- best_effort (VS_Timing session_id (Some turn_id) VT_PlaybackFlushAcknowledged elapsed_ms) ;;
          if negb open then ret (Err (runtime_error (lit "voice session event stream closed during playback flush timing")))
          else
            drained <- drain_interrupted_turn turn_id generation_id ;;
            match drained with
            | None =>
                aborted <- abort_interrupted_turn turn_id generation_id ;;
                modify (set_loop_state Listening) ;;;
                ret (match aborted with Err e => Err e | Ok _ => Err drain_timeout end)
            | Some r => modify (set_loop_state Listening) ;;; ret r
            end
      end
  | _ => ret (Ok tt)
  end.

Definition interrupt_or_stop_speaking : Loop (option LoopExit) :=
  state <- gets loop_state ;;
  match state with
  | Responding turn_id generation_id =>
      r <- interrupt_current_turn ;;
      match r with
      | Ok _ => ret None
      | Err error =>
          there <- gets turn_events ;;
          (if there : bool then _ <- abort_interrupted_turn turn_id generation_id ;; ret tt else ret tt) ;;;
          modify (set_loop_state Listening) ;;;
          modify (set_playback None) ;;;
          gone <- on_outbox is_closed ;;
          open <- (if gone : bool then ret false else publish (VS_SessionFailed session_id error ContinueSession)) ;;
          ret (if open : bool then None else Some Exit_ConsumerDropped)
      end
  | _ => ret None
  end.

Definition handle_barge_in (turn_id : TurnId) (generation_id : GenerationId) : Loop (option LoopExit) :=
  state <- gets loop_state ;;
  if negb (bool_decide (state = Responding turn_id generation_id)) then ret None
  else
    open <- publish (VS_BargeIn session_id turn_id generation_id) ;;
    if negb open then ret (Some Exit_ConsumerDropped) else interrupt_or_stop_speaking.

Definition cleanup_active_turn : Loop (rresult unit) :=
  state <- gets loop_state ;;
  match state with Responding _ _ => interrupt_current_turn | _ => ret (Ok tt) end.

(** ** Capture control *)

Definition sync_recorder_capture_activity : Loop unit :=
  modify (fun s => set_capture_recorder ((fun _ => bool_decide (s.(capture_state) = Capture_Active)) <$> s.(capture_recorder)) s).

Definition restore_capture_state (kind : CaptureOperationKind) : Loop unit :=
  modify (set_capture_state (match kind with Op_Pause => Capture_Active | Op_Resume => Paused end)) ;;;
  sync_recorder_capture_activity.

Definition start_capture_operation (kind : CaptureOperationKind) (completion : Z) : Loop unit :=
  s <- gets (fun s => s) ;;
  let valid := match s.(capture_state), kind with Capture_Active, Op_Pause | Paused, Op_Resume => true | _, _ => false end in
  if negb valid || is_some s.(capture_operation) then
    reply completion (Reply_unit (Err (runtime_error
      (match kind with Op_Pause => lit "voice capture is not active" | Op_Resume => lit "voice capture is not paused" end))))
  else
    modify (set_capture_state (match kind with Op_Pause => Pausing | Op_Resume => Resuming end)) ;;;
    sync_recorder_capture_activity ;;;
    modify (set_capture_operation (Some {| operation_kind := kind; operation_completion := completion |})).

Definition handle_capture_completion (outcome : result (aresult unit) JoinError) : Loop (option LoopExit) :=
  pending <- gets capture_operation ;;
  operation <- run_exec (expect pending) ;;
  modify (set_capture_operation None) ;;;
  let kind := operation.(operation_kind) in
  let completion := operation.(operation_completion) in
  match outcome with
  | Ok (Ok _) =>
      modify (set_capture_state (match kind with Op_Pause => Paused | Op_Resume => Capture_Active end)) ;;;
      sync_recorder_capture_activity ;;;
      open <- publish (match kind with Op_Pause => VS_CapturePaused session_id | Op_Resume => VS_CaptureResumed session_id end) ;;
      if negb open then
        reply completion (Reply_unit (Err (runtime_error (lit "voice session event stream closed during capture control")))) ;;;
        ret (Some Exit_ConsumerDropped)
      else reply completion (Reply_unit (Ok tt)) ;;; ret None
  | Ok (Err e) =>
      restore_capture_state kind ;;;
      reply completion (Reply_unit (Err (adapter_runtime_error Stage_AudioCapture e))) ;;;
      ret None
  | Err _ =>
      restore_capture_state kind ;;;
      reply completion (Reply_unit (Err (adapter_message_error Stage_AudioCapture (lit "voice capture control task failed")))) ;;;
      ret None
  end.

Definition cleanup_capture_operation : Loop (rresult unit) :=
  pending <- gets capture_operation ;;
  match pending with
  | None => ret (Ok tt)
  | Some operation =>
      modify (set_capture_operation None) ;;;
      in_time <- ask se_in_time ;;
      restore_capture_state operation.(operation_kind) ;;;
      reply operation.(operation_completion) (Reply_unit (Err (runtime_error (lit "voice capture control cancelled")))) ;;;
      ret (if in_time : bool then Ok tt else Err (cleanup_timeout_error (lit "voice capture control")))
  end.

(** ** Input *)

Definition handle_rendered_playback (receipt : PlaybackReceipt) : Loop (option LoopExit) :=
  let generation_id := receipt.(receipt_generation_id) in
  lifecycle <- gets playback ;;
  match lifecycle with
  | Some (AwaitingAcceptance active_generation pending_rendered) =>
      if bool_decide (active_generation = generation_id) then
        modify (set_playback (Some (AwaitingAcceptance active_generation (Some (default receipt pending_rendered))))) ;;; ret None
      else ret None
  | Some (Lifecycle_Accepted active_generation) =>
      if bool_decide (active_generation = generation_id) then
        open <- publish (VS_Playback session_id generation_id Playback_Rendered) ;;
        if negb open then ret (Some Exit_ConsumerDropped)
        else modify (set_playback (Some (Lifecycle_Rendered generation_id))) ;;; ret None
      else ret None
  | _ => ret None
  end.

Definition handle_flushed_playback (receipt : PlaybackReceipt) : Loop (option LoopExit) :=
  let generation_id := receipt.(receipt_generation_id) in
  lifecycle <- gets playback ;;
  match lifecycle with
  | Some (AwaitingAcceptance active_generation _) | Some (Lifecycle_Accepted active_generation) =>
      if bool_decide (active_generation = generation_id) then
        open <- publish (VS_Playback session_id generation_id Playback_Flushed) ;;
        if negb open then ret (Some Exit_ConsumerDropped)
        else modify (set_playback (Some (Lifecycle_Flushed generation_id))) ;;; ret None
      else ret None
  | _ => ret None
  end.

Definition exit_unless (open : bool) : Loop (option LoopExit) := ret (if open then None else Some Exit_ConsumerDropped).

Definition observe_audio : Loop (option LoopExit) :=
  received <- gets first_audio_received ;;
  if received : bool then ret None
  else
    modify (set_first_audio_received true) ;;;
    elapsed_ms <- now_ms ;;
    open <- best_effort (VS_Timing session_id None VT_AudioReceived elapsed_ms) ;;
    exit_unless open.

Definition at_time (activity : VoiceActivity) (at_ms : Z) : VoiceActivity :=
  match activity with
  | TurnFinalizer.SpeechStarted _ => TurnFinalizer.SpeechStarted at_ms
  | SpeechContinued _ => SpeechContinued at_ms
  | SpeechEnded _ => SpeechEnded at_ms
  | CaptureDiscontinuity _ => activity
  end.

Definition handle_activity (activity : VoiceActivity) : Loop (option LoopExit) :=
  at_ms <- now_ms ;;
  modify (fun s => set_loop_finalizer (observe_activity s.(loop_finalizer) (at_time activity at_ms)) s) ;;;
  open <- best_effort (VS_VoiceActivity session_id activity) ;;
  if negb open then ret (Some Exit_ConsumerDropped)
  else
    match activity with
    | TurnFinalizer.SpeechStarted _ | SpeechContinued _ =>
        modify (set_deadline None) ;;;
        modify (set_finalization_due false) ;;;
        state <- gets loop_state ;;
        match state with
        | Responding turn_id generation_id => handle_barge_in turn_id generation_id
        | _ => ret None
        end
    | SpeechEnded _ =>
        modify (set_deadline (Some final_silence_ms)) ;;;
        state <- gets loop_state ;;
        elapsed_ms <- now_ms ;;
        open <- best_effort (VS_Timing session_id (active_turn_id state) VT_SpeechEnd elapsed_ms) ;;
        exit_unless open
    | CaptureDiscontinuity _ => ret None
    end.

Definition observe_hypothesis_now (hypothesis : RecognitionHypothesis) (at_ms : Z) : Loop bool :=
  fun s => let '(taken, f) := observe_hypothesis s.(loop_finalizer) hypothesis at_ms in Val (taken, set_loop_finalizer f s).

Definition handle_hypothesis (hypothesis : RecognitionHypothesis) : Loop (option LoopExit) :=
  at_ms <- now_ms ;;
  taken <- observe_hypothesis_now hypothesis at_ms ;;
  if negb taken then ret None
  else
    modify (set_active_segment_id (Some hypothesis.(hyp_segment_id))) ;;;
    open <- (if hypothesis.(hyp_engine_final) then ret true
             else on_outbox (publish_partial session_id hypothesis.(hyp_segment_id) hypothesis.(hyp_text))) ;;
    if negb open then ret (Some Exit_ConsumerDropped)
    else
      s <- gets (fun s => s) ;;
      (if hypothesis.(hyp_engine_final) && bool_decide (s.(loop_state) = Listening) then
         match remaining_silence_ms s.(loop_finalizer) at_ms with
         | Some remaining_ms => modify (set_deadline (Some (if remaining_ms =? 0 then LATE_RECOGNITION_SETTLE_MS else remaining_ms)))
         | None => ret tt
         end
       else ret tt) ;;;
      ret None.

(** Recognition starts over. *)
Definition forget_utterance (f : TurnFinalizer) : Loop unit :=
  modify (set_deadline None) ;;;
  modify (set_finalization_due false) ;;;
  modify (set_active_segment_id None) ;;;
  modify (set_loop_finalizer f).

Definition fatal_sidecar (message : rstr) : Loop (option LoopExit) := ret (Some (Exit_Fatal (adapter_message_error Stage_VoiceSidecar message))).

Definition handle_input (input : option (aresult VoiceInputEvent)) : Loop (option LoopExit) :=
  match input with
  | Some (Ok (Input_DeviceStatus input_label output_label)) =>
      open <- publish (VS_DeviceStatus session_id input_label output_label) ;; exit_unless open
  | Some (Ok (Input_Activity activity)) => handle_activity activity
  | Some (Ok (Input_Recognition (Recognized_FinalizedUtterance utterance))) =>
      r <- admit_finalized_utterance utterance ;;
      ret (match r with Err error => Some (Exit_Fatal error) | Ok _ => None end)
  | Some (Ok (Input_Recognition (Recognized_Hypothesis hypothesis))) => handle_hypothesis hypothesis
  | Some (Ok (Input_Playback receipt)) =>
      match receipt.(receipt_state) with
      | Playback_Rendered => handle_rendered_playback receipt
      | Playback_Flushed => handle_flushed_playback receipt
      | Playback_Accepted => fatal_sidecar (lit "voice input playback state is unsupported")
      end
  | Some (Ok (Input_Capture (Capture_Discontinuity _))) =>
      f <- gets loop_finalizer ;; forget_utterance (observe_discontinuity f) ;;; ret None
  | Some (Ok (Input_Capture (Capture_Frame _))) => observe_audio
  | Some (Ok (Input_CaptureMetadata _)) => ret None
  | Some (Ok (Input_CaptureFinish _ completion)) =>
      reply completion (Reply_finish (Err (AdapterError_new (lit "timed recording is unavailable")))) ;;; ret None
  | Some (Ok (Input_Recognition Recognized_SpeechStarted)) | Some (Ok (Input_Recognition Recognized_SpeechEnded)) =>
      fatal_sidecar (lit "voice input event type is unsupported")
  | Some (Err error) =>
      if is_recognition_failure error then
        exit <- interrupt_or_stop_speaking ;;
        match exit with
        | Some exit => ret (Some exit)
        | None =>
            f <- run_exec (match TurnFinalizer.new final_silence_ms with Ok f => Val f | Err _ => Panics end) ;;
            forget_utterance f ;;;
            open <- publish (VS_SessionFailed session_id (voice_io_error error) ContinueSession) ;;
            exit_unless open
        end
      else ret (Some (Exit_Fatal (voice_io_error error)))
  | None => fatal_sidecar (lit "voice input event stream ended unexpectedly")
  end.

Definition handle_deadline : Loop (option LoopExit) :=
  modify (set_deadline None) ;;;
  state <- gets loop_state ;;
  match state with
  | Listening => r <- start_ready_turn ;; ret (match r with Err error => Some (Exit_Fatal error) | Ok _ => None end)
  | Responding _ _ => modify (set_finalization_due true) ;;; ret None
  | Ending => ret None
  end.

Definition report_recorder_notice (notice : RecorderNotice) : Loop (option LoopExit) :=
  open <- publish (match notice with
                   | Notice_Failure error => VS_SessionFailed session_id error ContinueSession
                   | Notice_Limit limit state => VS_RecordingLimit session_id limit state
                   | Notice_Health report => VS_CaptureHealth session_id report.(report_mostly_zero) report.(report_longest_gap_ms)
                   end) ;;
  exit_unless open.

Definition handle_command (command : option SessionCommand) : Loop (option LoopExit) :=
  match command with
  | Some (Command_BargeIn turn_id generation_id completion) =>
      exit <- handle_barge_in turn_id generation_id ;; reply completion Reply_done ;;; ret exit
  | Some (Command_PauseCapture completion) => start_capture_operation Op_Pause completion ;;; ret None
  | Some (Command_ResumeCapture completion) => start_capture_operation Op_Resume completion ;;; ret None
  | Some (Command_AuthorizeResponse session segment_id context_exchanges completion) =>
      r <- authorize_segment session segment_id context_exchanges ;; reply completion (Reply_turn r) ;;; ret None
  | Some (Command_SkipResponse session segment_id reason completion) =>
      r <- skip_segment session segment_id reason ;; reply completion (Reply_unit r) ;;; ret None
  | Some (Command_Shutdown completion) => ret (Some (Exit_Shutdown (Some completion)))
  | None => ret (Some (Exit_Shutdown None))
  end.

(** ** The loops *)

Definition poll_producers (s : VoiceLoop) : bool :=
  zlen s.(outbox).(reliable_events) <? saturating_sub MAX_PENDING_RELIABLE_EVENTS RELIABLE_EVENT_RESERVE.

(** The branches of [select!] that are polled, and those that can be ready. *)
Definition polled (s : VoiceLoop) (signal : LoopSignal) : bool :=
  match signal with
  | Signal_ConsumerDropped | Signal_Command _ => true
  | Signal_Capture _ => is_some s.(capture_operation)
  | Signal_Completion _ => s.(io_completion)
  | Signal_Recorder _ => poll_producers s && is_some s.(capture_recorder)
  | Signal_AutomaticResponse => poll_producers s && idle s && negb (is_empty s.(automatic_responses))
  | Signal_Input _ => poll_producers s
  | Signal_Turn _ => poll_producers s && s.(turn_events)
  | Signal_Deadline => poll_producers s && is_some s.(deadline)
  | Signal_Delivery => is_some (pending_delivery s.(outbox))
  end.

Definition handle_delivery : Loop (option LoopExit) :=
  pending <- gets (fun s => pending_delivery s.(outbox)) ;;
  match pending with
  | None => ret None
  | Some d =>
      delivered <- on_outbox (deliver_pending_event session_id d) ;;
      match delivered with
      | Some d => on_outbox (modify (remove_pending_delivery d)) ;;; ret None
      | None => ret (Some Exit_ConsumerDropped)
      end
  end.

Definition handle_signal (signal : LoopSignal) : Loop (option LoopExit) :=
  match signal with
  | Signal_ConsumerDropped => ret (Some Exit_ConsumerDropped)
  | Signal_Command command => handle_command command
  | Signal_Capture outcome => handle_capture_completion outcome
  | Signal_Completion outcome => modify (set_io_completion false) ;;; ret (Some (Exit_Fatal (completion_failure outcome)))
  | Signal_Input input => handle_input input
  | Signal_Recorder notice => report_recorder_notice notice
  | Signal_AutomaticResponse =>
      r <- start_queued_automatic_response ;; ret (match r with Err error => Some (Exit_Fatal error) | Ok _ => None end)
  | Signal_Turn event => handle_turn_event event
  | Signal_Deadline => handle_deadline
  | Signal_Delivery => handle_delivery
  end.

(** One iteration; a signal whose branch is not polled does not come. *)
Definition iteration (signal : LoopSignal) : Loop (option LoopExit) :=
  open <- on_outbox (flush_pending_events session_id) ;;
  if negb open then ret (Some Exit_ConsumerDropped)
  else
    here <- gets (fun s => polled s signal) ;;
    if here : bool then handle_signal signal else ret None.

(** The exit, with the signals still to come. *)
Fixpoint run_until_exit (signals : list LoopSignal) : Loop (option (LoopExit * list LoopSignal)) :=
  match signals with
  | [] => ret None
  | signal :: rest =>
      exit <- iteration signal ;;
      match exit with
      | Some exit => ret (Some (exit, rest))
      | None => run_until_exit rest
      end
  end.

Definition records_after_failure : Loop bool :=
  s <- gets (fun s => s) ;;
  input_closed <- ask se_input_closed ;;
  running <- ask se_recorder_running ;;
  ret (s.(io_completion) && negb input_closed && (is_some s.(capture_recorder) && running)).

(** The signals of the loop that only records: its [select!] has no turn, no
    deadline and no queued response. *)
Definition recording_signal (error : RuntimeError) (signal : LoopSignal) : Loop (option LoopExit) :=
  match signal with
  | Signal_Command (Some (Command_BargeIn _ _ completion)) => reply completion Reply_done ;;; ret None
  | Signal_Command (Some (Command_AuthorizeResponse _ _ _ completion)) => reply completion (Reply_turn (Err responses_stopped)) ;;; ret None
  | Signal_Command (Some (Command_SkipResponse _ _ _ completion)) => reply completion (Reply_unit (Err responses_stopped)) ;;; ret None
  | Signal_Command command => handle_command command
  | Signal_Capture outcome =>
      pending <- gets capture_operation ;;
      if is_some pending then handle_capture_completion outcome else ret None
  | Signal_Completion _ =>
      there <- gets io_completion ;;
      if there : bool then modify (set_io_completion false) ;;; ret (Some (Exit_Fatal error)) else ret None
  | Signal_Input None => ret (Some (Exit_Fatal error))
  | Signal_Input (Some _) => ret None
  | Signal_Recorder notice =>
      recorder <- gets capture_recorder ;;
      if is_some recorder then report_recorder_notice notice else ret None
  | Signal_Delivery => handle_delivery
  | Signal_ConsumerDropped => ret (Some Exit_ConsumerDropped)
  | Signal_AutomaticResponse | Signal_Turn _ | Signal_Deadline => ret None
  end.

Fixpoint record_loop (error : RuntimeError) (signals : list LoopSignal) : Loop (option LoopExit) :=
  match signals with
  | [] => ret None
  | signal :: rest =>
      open <- on_outbox (flush_pending_events session_id) ;;
      if negb open then ret (Some Exit_ConsumerDropped)
      else
        exit <- recording_signal error signal ;;
        match exit with Some exit => ret (Some exit) | None => record_loop error rest end
  end.

Definition record_until_stopped (error : RuntimeError) (signals : list LoopSignal) : Loop (option LoopExit) :=
  _ <- cleanup_active_turn ;;
  modify (set_automatic_responses []) ;;;
  modify (set_turn_events false) ;;;
  modify (set_loop_state Listening) ;;;
  open <- publish (VS_SessionFailed session_id voice_loop_stopped ContinueSession) ;;
  if negb open then ret (Some Exit_ConsumerDropped) else record_loop error signals.

(** [Option::get_or_insert]. *)
Definition or_first {A} (first second : option A) : option A := match first with Some _ => first | None => second end.
Definition err_of {A} (r : rresult A) : option RuntimeError := match r with Ok _ => None | Err e => Some e end.

(** What comes after the exit, up to the event that ends the session. *)
Definition finish (exit : LoopExit) (deferred_failure : option RuntimeError) : Loop VoiceSessionEvent :=
  capture <- cleanup_capture_operation ;;
  queue <- gets automatic_responses ;;
  let cleanup_error := or_first (err_of capture)
    (if is_empty queue then None else Some (runtime_error (lit "voice session ended with unadmitted automatic responses"))) in
  turn <- cleanup_active_turn ;;
  let cleanup_error := or_first cleanup_error (err_of turn) in
  modify (set_loop_state Ending) ;;;
  modify (set_capture_recorder None) ;;;
  there <- gets io_completion ;;
  modify (set_io_completion false) ;;;
  completed <- (if there : bool then
                  in_time <- ask se_in_time ;;
                  ret (if in_time : bool then None else Some (cleanup_timeout_error (lit "voice sidecar completion")))
                else ret None) ;;
  let cleanup_error := or_first cleanup_error completed in
  let ending e := match e with Some error => session_failure session_id error | None => VS_SessionEnded session_id end in
  match exit with
  | Exit_Shutdown completion =>
      (match completion with Some completion => reply completion Reply_done | None => ret tt end) ;;;
      ret (ending (or_first cleanup_error deferred_failure))
  | Exit_ConsumerDropped => ret (ending cleanup_error)
  | Exit_Fatal error => ret (session_failure session_id (default error cleanup_error))
  end.

(** [VoiceLoop::run]; [None] while the signals leave the session running. *)
Definition run (signals : list LoopSignal) : Loop (option VoiceSessionEvent) :=
  exit <- run_until_exit signals ;;
  match exit with
  | None => ret None
  | Some (Exit_Fatal error, rest) =>
      recording <- records_after_failure ;;
      if recording : bool then
        exit <- record_until_stopped error rest ;;
        match exit with
        | None => ret None
        | Some exit => e <- finish exit (Some error) ;; ret (Some e)
        end
      else e <- finish (Exit_Fatal error) None ;; ret (Some e)
  | Some (exit, _) => e <- finish exit None ;; ret (Some e)
  end.

(** [VoiceLoop::new], after [SessionStarted] was sent. *)
Definition VoiceLoop_new (recorder : bool) (o : Outbox) (stats : TranscriptCleanupStats) : exec VoiceLoop :=
  match TurnFinalizer.new final_silence_ms with
  | Err _ => Panics
  | Ok f =>
      Val {| outbox := o; capture_state := Capture_Active; capture_operation := None; io_completion := true; turn_events := false;
             deadline := None; loop_finalizer := f; loop_state := Listening; active_segment_id := None; finalization_due := false;
             playback := None; capture_recorder := if recorder then Some true else None; first_audio_received := false;
             pending_segments := ∅; pending_order := []; automatic_responses := []; last_finalized_segment := 0;
             cleanup_stats := stats; replies := []; actions := []; env_uses := 0 |}
  end.
End VoiceLoop.
