(* ===== verification/VoiceSession.v ===== *)
(** * Voice sessions

    [crates/runtime/src/voice_session.rs]: [VoiceSessionRuntime] and its slot for
    one session, the startup of [run_voice_session], and the stream of events a
    client reads ([VoiceSessionEventStream]). *)

From stdpp Require Import gmap.
From S2P Require Import Prelude RustStr Errors Pcm CaptureTiming Audio TurnFinalizer TranscriptCleanup ProtocolQuality Quality Privacy Context RecordingSafety TurnEvents ClientVoice VoiceOutbox VoiceState VoiceLoop.

Local Open Scope Z_scope.

(** ** The runtime's slot *)

Record VoiceSessionRuntime : Type := { active_session : option SessionId; cleanup_totals : TranscriptCleanupStats }.

Definition VoiceSessionRuntime_new : VoiceSessionRuntime :=
  {| active_session := None; cleanup_totals := {| finals_cleaned := 0; finals_dropped := 0; total_removals := no_removals |} |}.

(** The summary of the policy, once the slot is taken. *)
Definition start_with_response_mode `{UnicodeTables} (policy : VoiceSessionPolicy) (r : VoiceSessionRuntime) : rresult PrivacySummary * VoiceSessionRuntime :=
  match validate_voice_policy policy with
  | Err e => (Err e, r)
  | Ok privacy =>
      match r.(active_session) with
      | Some current => (Err (runtime_error (lit "voice session " ++ decimal (SessionId_get current) ++ lit " is still active")), r)
      | None => (Ok privacy, {| active_session := Some policy.(policy_session_id); cleanup_totals := r.(cleanup_totals) |})
      end
  end.

(** The end of the session's task; [stats] is what its loop left in the shared
    counters. *)
Definition session_over (session_id : SessionId) (stats : TranscriptCleanupStats) (r : VoiceSessionRuntime) : VoiceSessionRuntime :=
  {| active_session := if bool_decide (r.(active_session) = Some session_id) then None else r.(active_session); cleanup_totals := stats |}.

Definition active_commands (r : VoiceSessionRuntime) : rresult SessionId :=
  match r.(active_session) with Some s => Ok s | None => Err (runtime_error (lit "there is no active voice session")) end.

(** ** The client's calls *)

(** A command is sent when the loop still receives, and its completion awaited:
    [None] when the session ended without it. *)
Definition call {A} (r : VoiceSessionRuntime) (sent : bool) (completed : option A) (ended : rstr) : rresult A :=
  let? _ := active_commands r in
  if negb sent then Err (runtime_error (lit "voice session command channel closed"))
  else ok_or completed (runtime_error ended).

Definition flatten {A} (r : rresult (rresult A)) : rresult A := match r with Ok r => r | Err e => Err e end.

Definition barge_in (r : VoiceSessionRuntime) (sent : bool) (completed : option unit) : rresult unit :=
  call r sent completed (lit "voice session ended before barge-in completed").
Definition shutdown (r : VoiceSessionRuntime) (sent : bool) (completed : option unit) : rresult unit :=
  call r sent completed (lit "voice session ended before shutdown completed").
Definition authorize_response (r : VoiceSessionRuntime) (sent : bool) (completed : option (rresult TurnId)) : rresult TurnId :=
  flatten (call r sent completed (lit "voice session ended before authorization completed")).
Definition skip_response (r : VoiceSessionRuntime) (sent : bool) (completed : option (rresult unit)) : rresult unit :=
  flatten (call r sent completed (lit "voice session ended before skip completed")).
Definition capture_command (r : VoiceSessionRuntime) (sent : bool) (completed : option (rresult unit)) : rresult unit :=
  flatten (call r sent completed (lit "voice session ended before capture control completed")).

(** ** Startup *)

(** What the voice I/O answers, the commands that come before the input has
    started, whether it starts, and whether the completion task ends in time. *)
Record Startup : Type := {
  io_started : aresult unit;
  early_commands : list (option SessionCommand);
  input_started : aresult unit;
  completion_in_time : bool;
}.

(** [None] when the input started before a shutdown. *)
Fixpoint wait_for_startup_shutdown (commands : list (option SessionCommand)) (sent : list (Z * Reply)) : option (option Z) * list (Z * Reply) :=
  match commands with
  | [] => (None, sent)
  | command :: rest =>
      match command with
      | Some (Command_BargeIn _ _ completion) => wait_for_startup_shutdown rest (sent ++ [(completion, Reply_done)])
      | Some (Command_PauseCapture completion) =>
          wait_for_startup_shutdown rest (sent ++ [(completion, Reply_unit (Err (runtime_error (lit "voice capture is not active"))))])
      | Some (Command_ResumeCapture completion) =>
          wait_for_startup_shutdown rest (sent ++ [(completion, Reply_unit (Err (runtime_error (lit "voice capture is not paused"))))])
      | Some (Command_AuthorizeResponse _ _ _ completion) => wait_for_startup_shutdown rest (sent ++ [(completion, Reply_turn (Err not_pending))])
      | Some (Command_SkipResponse _ _ _ completion) => wait_for_startup_shutdown rest (sent ++ [(completion, Reply_unit (Err not_pending))])
      | Some (Command_Shutdown completion) => (Some (Some completion), sent)
      | None => (Some None, sent)
      end
  end.

Definition await_completion_cleanup (in_time : bool) : rresult unit :=
  if in_time then Ok tt else Err (cleanup_timeout_error (lit "voice sidecar completion")).

(** A session that ended before its loop, and one whose loop ran. *)
Inductive SessionRun : Type :=
| Not_started (o : Outbox) (sent : list (Z * Reply)) (terminal : VoiceSessionEvent)
| Ran (s : VoiceLoop) (terminal : option VoiceSessionEvent).

Section Run.
Context `{U : UnicodeTables, SE : SessionEnv}.

Definition run_voice_session (policy : VoiceSessionPolicy) (privacy : PrivacySummary) (response_mode : VoiceResponseMode) (recorder : bool)
    (stats : TranscriptCleanupStats) (startup : Startup) (signals : list LoopSignal) : exec SessionRun :=
  let session_id := policy.(policy_session_id) in
  let final_silence_ms := policy.(policy_final_silence_ms) in
  match startup.(io_started) with
  | Err error => Val (Not_started outbox_new [] (session_failure session_id (voice_io_error error)))
  | Ok _ =>
      match wait_for_startup_shutdown startup.(early_commands) [] with
      | (Some shutdown, sent) =>
          Val (Not_started outbox_new (match shutdown with Some c => sent ++ [(c, Reply_done)] | None => sent end)
            (match await_completion_cleanup startup.(completion_in_time) with
             | Err error => session_failure session_id error
             | Ok _ => VS_SessionEnded session_id
             end))
      | (None, sent) =>
          match startup.(input_started) with
          | Err error =>
              Val (Not_started outbox_new sent
                (match await_completion_cleanup startup.(completion_in_time) with
                 | Err cleanup_error => session_failure session_id cleanup_error
                 | Ok _ => session_failure session_id (voice_io_error error)
                 end))
          | Ok _ =>
              let started := VS_SessionStarted session_id privacy in
              let! '(open, o) := (modify (publishing started) ;;; send_wait false started) outbox_new in
              match open with
              | Some true =>
                  let! s := VoiceLoop_new final_silence_ms recorder o stats in
                  let! '(terminal, s) := run session_id final_silence_ms response_mode signals (set_replies sent s) in
                  Val (Ran s terminal)
              | _ => Val (Not_started o sent (VS_SessionEnded session_id))
              end
          end
      end
  end.
End Run.

(** ** The client's stream *)

(** The events still in the channel, which the session has let go of, and the
    terminal event: [Some None] when its sender was dropped. *)
Record VoiceSessionEventStream : Type := {
  stream_events : list VoiceSessionEvent;
  stream_terminal : option (option VoiceSessionEvent);
  prefetched : option VoiceSessionEvent;
  events_closed : bool;
}.

Definition recv (s : VoiceSessionEventStream) : option VoiceSessionEvent * VoiceSessionEventStream :=
  match s.(prefetched) with
  | Some event =>
      (Some event, {| stream_events := s.(stream_events); stream_terminal := s.(stream_terminal); prefetched := None; events_closed := s.(events_closed) |})
  | None =>
      match (if s.(events_closed) then [] else s.(stream_events)) with
      | event :: rest =>
          (Some event, {| stream_events := rest; stream_terminal := s.(stream_terminal); prefetched := None; events_closed := s.(events_closed) |})
      | [] =>
          (default None s.(stream_terminal),
           {| stream_events := s.(stream_events); stream_terminal := None; prefetched := None; events_closed := true |})
      end
  end.

Definition wait_until_started (session_id : SessionId) (s : VoiceSessionEventStream) : rresult unit * VoiceSessionEventStream :=
  let '(event, s') := recv s in
  match event with
  | Some (VS_SessionStarted started_session_id privacy) =>
      if bool_decide (started_session_id = session_id) then
        (Ok tt, {| stream_events := s'.(stream_events); stream_terminal := s'.(stream_terminal);
                   prefetched := Some (VS_SessionStarted started_session_id privacy); events_closed := s'.(events_closed) |})
      else (Err (runtime_error (lit "voice session did not complete startup")), s')
  | _ => (Err (runtime_error (lit "voice session did not complete startup")), s')
  end.

(** What a client reads in [n] calls. *)
Fixpoint recv_many (n : nat) (s : VoiceSessionEventStream) : list (option VoiceSessionEvent) :=
  match n with O => [] | S n => let '(event, s') := recv s in event :: recv_many n s' end.

(** The stream of a session that is over. *)
Definition stream_of (sent : list VoiceSessionEvent) (terminal : VoiceSessionEvent) : VoiceSessionEventStream :=
  {| stream_events := sent; stream_terminal := Some (Some terminal); prefetched := None; events_closed := false |}.
