(* ===== verification/VoiceDelivery.v ===== *)
(** * Delivery of a voice session's events

    Reliable events reach the client in the order they were published, each once,
    and nothing that waits for the client grows without bound. *)

From Stdlib Require Import Sorted.
From S2P Require Import Prelude RustStr Errors TurnEvents ClientVoice VoiceOutbox.

Local Open Scope Z_scope.

(** ** Weakest preconditions *)

(** The computation returns, and its result and state satisfy [Q]. *)
Definition wp {S A} (m : M S A) (Q : A -> S -> Prop) (s : S) : Prop :=
  match m s with Val (a, s') => Q a s' | _ => False end.

Lemma wp_ret {S A} (a : A) Q (s : S) : wp (ret a) Q s = Q a s.
Proof. done. Qed.
Lemma wp_gets {S A} (f : S -> A) Q s : wp (gets f) Q s = Q (f s) s.
Proof. done. Qed.
Lemma wp_modify {S} (f : S -> S) Q s : wp (modify f) Q s = Q tt (f s).
Proof. done. Qed.
Lemma wp_bind {S A B} (m : M S A) (k : A -> M S B) Q s : wp (bind m k) Q s = wp m (fun a => wp (k a) Q) s.
Proof. unfold wp, bind. destruct (m s) as [[a s']| |]; done. Qed.
Lemma wp_mono {S A} (m : M S A) (P Q : A -> S -> Prop) s : wp m P s -> (forall a s', P a s' -> Q a s') -> wp m Q s.
Proof. unfold wp. destruct (m s) as [[a s']| |]; naive_solver. Qed.
Lemma wp_run_exec {S A} (e : exec A) (a : A) Q (s : S) : e = Val a -> Q a s -> wp (run_exec e) Q s.
Proof. intros ->. done. Qed.

(** Take the next steps of a computation. *)
Ltac wp_steps := repeat (rewrite ?wp_bind, ?wp_gets, ?wp_modify, ?wp_ret; cbv beta).

(** ** The outbox *)

(** The reliable events that entered the channel. *)
Definition delivered (o : Outbox) : list VoiceSessionEvent := map snd (List.filter fst o.(sent)).

(** Partials are kept by segment. *)
Definition by_segment (m : list (Z * rstr)) : Prop := StronglySorted (fun a b => a.1 < b.1) m.

(** The event does not end the session. *)
Definition goes_on (e : VoiceSessionEvent) : Prop := is_session_terminal e = false.

Record outbox_inv (o : Outbox) : Prop := {
  oi_room : 0 <= o.(unread) <= SESSION_EVENT_BUFFER_SIZE;
  oi_queue : zlen o.(reliable_events) <= MAX_PENDING_RELIABLE_EVENTS;
  oi_partials : zlen o.(partials) <= MAX_PENDING_PARTIAL_SEGMENTS /\ by_segment o.(partials);
  oi_ordered : delivered o ++ o.(reliable_events) `sublist_of` o.(published);
  oi_prefix : o.(overdue) = false -> delivered o `prefix_of` o.(published);
  oi_complete : o.(closed) = false -> o.(overdue) = false -> delivered o ++ o.(reliable_events) = o.(published);
  oi_going : Forall (fun p => goes_on p.2) o.(sent) /\ Forall goes_on o.(reliable_events);
}.

Lemma outbox_new_inv : outbox_inv outbox_new.
Proof. split; cbn; try done. split; [done|constructor]. Qed.

Lemma delivered_push r room e o : delivered (push r room e o) = delivered o ++ (if r then [e] else []).
Proof. unfold delivered, push. cbn [sent]. rewrite List.filter_app, map_app. by destruct r. Qed.

Section Env.
Context `{VE : ChannelEnv}.

Lemma interfere_inv o : outbox_inv o -> outbox_inv (interfere o).
Proof.
  unfold interfere. destruct (ve_consumer _) as [taken gone]. intros [? ? ? ? ? C ?]. split; cbn; try done; [lia|].
  intros K. apply orb_false_iff in K as [K _]. auto.
Qed.

Lemma interfere_fields o : published (interfere o) = published o /\ reliable_events (interfere o) = reliable_events o /\
  partials (interfere o) = partials o /\ overdue (interfere o) = overdue o /\ delivered (interfere o) = delivered o.
Proof. unfold interfere. by destruct (ve_consumer _). Qed.

(** An event that does not count as reliable, or the head of the queue, enters
    the channel. *)
Lemma push_other_inv room e o : 1 <= room <= SESSION_EVENT_BUFFER_SIZE -> goes_on e -> outbox_inv o -> outbox_inv (push false room e o).
Proof.
  intros R E [? ? ? ? ? ? [Sn Qn]]. split; rewrite ?delivered_push, ?app_nil_r; cbn; try done.
  - unfold SESSION_EVENT_BUFFER_SIZE in *. lia.
  - split; [|done]. apply Forall_app. split; [done|by constructor].
Qed.

Lemma push_head_inv e o : hd_error o.(reliable_events) = Some e -> o.(closed) = false -> outbox_inv o ->
  outbox_inv (set_reliable (push true 1 e o) (tl o.(reliable_events))).
Proof.
  intros H C [I1 I2 I3 I4 I5 I6 I7]. destruct (reliable_events o) as [|e' q] eqn:Q; [done|]. cbn in H. simplify_eq.
  split; change (delivered (set_reliable ?x ?q)) with (delivered x); rewrite ?delivered_push; cbn in *.
  - unfold SESSION_EVENT_BUFFER_SIZE in *. lia.
  - rewrite zlen_cons in I2. lia.
  - done.
  - by rewrite <- app_assoc.
  - intros Ov. rewrite <- (I6 C Ov). exists q. by rewrite <- app_assoc.
  - intros _ Ov. rewrite <- (I6 C Ov). by rewrite <- app_assoc.
  - destruct I7 as [Sn Qn]. apply Forall_cons_1 in Qn as [En Qn]. split; [|done]. apply Forall_app. split; [done|by constructor].
Qed.

(** What the consumer and the publications may do to the rest. *)
Record grown (extra : list VoiceSessionEvent) (o o' : Outbox) : Prop := {
  gr_inv : outbox_inv o';
  gr_published : published o' = published o ++ extra;
}.

Lemma grown_refl o : outbox_inv o -> grown [] o o.
Proof. intros I. split; [done|by rewrite app_nil_r]. Qed.
Lemma grown_trans a b o1 o2 o3 : grown a o1 o2 -> grown b o2 o3 -> grown (a ++ b) o1 o3.
Proof. intros [_ P1] [I P2]. split; [done|]. by rewrite P2, P1, app_assoc. Qed.
Lemma interfere_grown o : outbox_inv o -> grown [] o (interfere o).
Proof. intros I. split; [by apply interfere_inv|]. rewrite app_nil_r. by destruct (interfere_fields o). Qed.

Lemma wp_try_send r e Q o :
  (let o1 := interfere o in
   (o1.(closed) = true -> Q Closed o1) /\
   (o1.(closed) = false -> unread o1 < SESSION_EVENT_BUFFER_SIZE -> Q Sent (push r 1 e o1)) /\
   (o1.(closed) = false -> SESSION_EVENT_BUFFER_SIZE <= unread o1 -> Q Full o1)) -> wp (try_send r e) Q o.
Proof.
  cbv zeta. intros (H1 & H2 & H3). unfold try_send. wp_steps. destruct (closed (interfere o)) eqn:C; wp_steps; [auto|].
  destruct (_ <? _) eqn:B; breflect; wp_steps; auto.
Qed.

Lemma is_closed_spec Q o : outbox_inv o -> (forall c o', grown [] o o' -> Q c o') -> wp is_closed Q o.
Proof. intros I H. unfold is_closed. wp_steps. by apply H, interfere_grown. Qed.

Lemma capacity_spec Q o : outbox_inv o -> (forall room o', grown [] o o' -> reliable_events o' = reliable_events o -> partials o' = partials o -> Q room o') ->
  wp capacity Q o.
Proof. intros I H. unfold capacity. wp_steps. apply H; [by apply interfere_grown|by apply interfere_fields..]. Qed.

Lemma best_effort_spec e Q o : outbox_inv o -> goes_on e -> (forall open o', grown [] o o' -> Q open o') -> wp (publish_best_effort e) Q o.
Proof.
  intros I Ge H. unfold publish_best_effort. wp_steps. destruct (negb _); wp_steps.
  { apply is_closed_spec; [done|]. intros c o' G. wp_steps. by apply H. }
  apply capacity_spec; [done|]. intros room o1 G _ _. destruct (_ <=? _); wp_steps.
  { apply is_closed_spec; [by destruct G|]. intros c o' G'. wp_steps. apply H. exact (grown_trans [] [] _ _ _ G G'). }
  assert (grown [] o (interfere o1)) as G1 by exact (grown_trans [] [] _ _ _ G (interfere_grown _ (gr_inv _ _ _ G))).
  apply wp_try_send. split; [|split]; intros; wp_steps; apply H; try done. destruct G1 as [I1 P1]. split; [|done].
  by apply push_other_inv.
Qed.

(** ** Reliable events *)

(** The invariant before the last publication has found its place. *)
Definition republished (p : list VoiceSessionEvent) (o : Outbox) : Outbox :=
  {| sent := o.(sent); unread := o.(unread); closed := o.(closed); reliable_events := o.(reliable_events); partials := o.(partials);
     published := p; overdue := o.(overdue); channel_uses := o.(channel_uses) |}.
Record placing (p : list VoiceSessionEvent) (e : VoiceSessionEvent) (o : Outbox) : Prop := {
  pl_published : published o = p ++ [e];
  pl_goes : goes_on e;
  pl_inv : outbox_inv (republished p o);
}.

Lemma placing_interfere p e o : placing p e o -> placing p e (interfere o).
Proof.
  intros [P Ge I]. split; [by destruct (interfere_fields o) as [-> _]|done|]. apply interfere_inv in I. revert I.
  unfold interfere, republished. by destruct (ve_consumer _).
Qed.

Lemma placed_in_queue p e o : placing p e o -> zlen o.(reliable_events) < MAX_PENDING_RELIABLE_EVENTS -> outbox_inv (set_reliable o (o.(reliable_events) ++ [e])).
Proof.
  intros [P Ge [I1 I2 I3 I4 I5 I6 I7]] L. split; change (delivered (set_reliable o _)) with (delivered o);
    change (delivered (republished p o)) with (delivered o) in *; cbn in *; try done.
  - rewrite zlen_app. change (zlen [e]) with 1. lia.
  - rewrite P, app_assoc. by apply sublist_app.
  - intros Ov. rewrite P. destruct (I5 Ov) as [t ->]. exists (t ++ [e]). by rewrite app_assoc.
  - intros C Ov. by rewrite P, app_assoc, I6.
  - destruct I7 as [Sn Qn]. split; [done|]. apply Forall_app. split; [done|by constructor].
Qed.

Lemma placed_in_channel p e o : placing p e o -> o.(reliable_events) = [] -> o.(closed) = false -> outbox_inv (push true 1 e o).
Proof.
  intros [P Ge [I1 I2 I3 I4 I5 I6 I7]] L C. split; rewrite ?delivered_push; change (delivered (republished p o)) with (delivered o) in *;
    cbn in *; rewrite ?L, ?app_nil_r in *; try done.
  - unfold SESSION_EVENT_BUFFER_SIZE in *. lia.
  - rewrite P. by apply sublist_app.
  - intros Ov. by rewrite P, I6.
  - intros _ Ov. by rewrite P, I6.
  - destruct I7 as [Sn Qn]. split; [|done]. apply Forall_app. split; [done|by constructor].
Qed.

Lemma placed_nowhere p e o : placing p e o -> o.(closed) = true \/ o.(overdue) = true -> outbox_inv o.
Proof.
  intros [P Ge [I1 I2 I3 I4 I5 I6 I7]] L. change (delivered (republished p o)) with (delivered o) in *. split; cbn in *; try done.
  - rewrite P. by apply sublist_inserts_r.
  - intros Ov. rewrite P. by apply prefix_app_r, I5.
  - intros C Ov. destruct L; congruence.
Qed.

(** The oldest event leaves the queue, into the channel or nowhere. *)
Lemma placing_head p e o x q : placing p e o -> o.(reliable_events) = x :: q ->
  (o.(closed) = false -> placing p e (set_reliable (push true 1 x o) q)) /\
  (o.(closed) = true -> placing p e (set_reliable o q)) /\ placing p e (set_overdue (set_reliable o q)).
Proof.
  intros [P Ge I] Q. split; [|split]; intros; (split; [exact P|done|]).
  - assert (hd_error (reliable_events (republished p o)) = Some x) as Hd by (cbn; by rewrite Q).
    pose proof (push_head_inv x (republished p o) Hd H I) as J. cbn [reliable_events republished] in J. rewrite Q in J. exact J.
  - destruct I as [I1 I2 I3 I4 I5 I6 I7]. cbn in *. rewrite Q in *. split; try done; cbn in *.
    + rewrite zlen_cons in I2. lia.
    + etransitivity; [|exact I4]. apply sublist_app; [done|]. by apply sublist_cons.
    + intros C. congruence.
    + destruct I7 as [Sn Qn]. by apply Forall_cons_1 in Qn as [_ Qn].
  - destruct I as [I1 I2 I3 I4 I5 I6 I7]. cbn in *. rewrite Q in *. split; try done; cbn in *.
    + rewrite zlen_cons in I2. lia.
    + etransitivity; [|exact I4]. apply sublist_app; [done|]. by apply sublist_cons.
    + destruct I7 as [Sn Qn]. by apply Forall_cons_1 in Qn as [_ Qn].
Qed.

Lemma publish_reliable_spec limited e Q o : outbox_inv o -> goes_on e ->
  (forall r o', grown [e] o o' -> (limited = false -> r <> None) -> Q r o') -> wp (publish_reliable limited e) Q o.
Proof.
  intros I Ge H. assert (placing (published o) e (publishing e o)) as P by (split; [done|done|by destruct I; split]).
  assert (forall o', outbox_inv o' -> published o' = published o ++ [e] -> grown [e] o o') as G by (by split).
  unfold publish_reliable. wp_steps. remember (publishing e o) as o1. clear Heqo1.
  destruct (reliable_events o1) as [|x q] eqn:Rq; cbn [is_empty negb].
  - wp_steps. apply wp_try_send. apply placing_interfere in P. assert (reliable_events (interfere o1) = []) as Rq' by (by destruct (interfere_fields o1) as (_ & -> & _)).
    split; [|split]; intros; wp_steps; (apply H; [apply G|done]).
    + eapply placed_nowhere; eauto.
    + by destruct P.
    + by eapply placed_in_channel.
    + by destruct P.
    + eapply placed_in_queue; [done|]. rewrite Rq', zlen_nil. done.
    + by destruct P.
  - assert (forall o2, placing (published o) e o2 -> zlen o2.(reliable_events) < MAX_PENDING_RELIABLE_EVENTS ->
      wp (modify (fun o => set_reliable o (o.(reliable_events) ++ [e])) ;;; c <- is_closed ;; ret (Some (negb c))) Q o2) as K.
    { intros o2 P2 L. wp_steps. apply is_closed_spec; [by eapply placed_in_queue|]. intros c o' [I' P']. wp_steps. apply H; [apply G; [done|]|done].
      rewrite P', app_nil_r. by destruct P2. }
    wp_steps. destruct (_ <=? _) eqn:B; breflect; wp_steps; [|by apply K; [done|rewrite Rq]].
    apply (wp_run_exec _ x); [done|]. unfold send_wait. wp_steps.
    assert (zlen q < MAX_PENDING_RELIABLE_EVENTS) as Lq
      by (destruct P as [_ _ P]; apply oi_queue in P; cbn in P; rewrite Rq, zlen_cons in P; lia).
    rewrite Rq. cbn [tl]. set (o2 := interfere (set_reliable o1 q)).
    assert (o2 = set_reliable (interfere o1) q) as E2 by (unfold o2, interfere; by destruct (ve_consumer _)). rewrite E2.
    apply placing_interfere in P. assert (reliable_events (interfere o1) = x :: q) as Rq' by (by destruct (interfere_fields o1) as (_ & -> & _)).
    destruct (placing_head _ _ _ _ _ P Rq') as (P1 & P2 & P3). change (closed (set_reliable (interfere o1) q)) with (closed (interfere o1)).
    destruct (closed (interfere o1)) eqn:C; wp_steps.
    { apply H; [apply G|done]; [eapply placed_nowhere; [by apply P2|by left]|by destruct P]. }
    destruct (_ && _ && _) eqn:El; wp_steps.
    + apply H; [apply G|by destruct limited]; [eapply placed_nowhere; [exact P3|by right]|by destruct P].
    + apply K; [exact (P1 eq_refl)|done].
Qed.

(** ** Partial transcripts *)

Lemma partial_insert_length k v m : zlen (partial_insert k v m) <= zlen m + 1.
Proof. induction m as [|[k' v'] m IH]; cbn; [done|]. destruct (k <? k'), (k =? k'); rewrite !zlen_cons in *; lia. Qed.

Lemma partial_insert_present k v m : by_segment m -> is_some (partial_get k m) = true -> zlen (partial_insert k v m) = zlen m.
Proof.
  unfold partial_get. induction 1 as [|[k' v'] m S IH F]; [done|]. cbn. destruct (Z.ltb_spec k k') as [L|L].
  - destruct (Z.eqb_spec k' k); [lia|]. destruct (List.find _ m) as [[k2 v2]|] eqn:E; [|done]. apply find_some in E as [E1 E2]. cbn in E2. breflect.
    rewrite Forall_forall in F. specialize (F (k2, v2) ltac:(by apply list_elem_of_In)). cbn in F. lia.
  - rewrite (Z.eqb_sym k k'). destruct (Z.eqb_spec k' k); [by rewrite !zlen_cons|]. intros H. rewrite !zlen_cons, IH; [done|]. exact H.
Qed.

Lemma partial_insert_sorted k v m : by_segment m -> by_segment (partial_insert k v m).
Proof.
  induction 1 as [|[k' v'] m S IH F]; cbn; [by repeat constructor|]. destruct (Z.ltb_spec k k').
  - constructor; [by constructor|]. constructor; [done|]. eapply Forall_impl; [exact F|]. cbn. lia.
  - destruct (Z.eqb_spec k k'); [subst; by constructor|]. constructor; [exact IH|].
    assert (forall x, x ∈ partial_insert k v m -> x = (k, v) \/ x ∈ m) as K.
    { clear. induction m as [|[k1 v1] m IH]; cbn; intros x; [rewrite list_elem_of_singleton; auto|].
      destruct (k <? k1), (k =? k1); rewrite ?elem_of_cons; naive_solver. }
    apply Forall_forall. intros x X. destruct (K _ X) as [->|X']; [cbn; lia|]. exact (proj1 (Forall_forall _ _) F _ X').
Qed.

Lemma by_segment_filter f m : by_segment m -> by_segment (List.filter f m) /\ zlen (List.filter f m) <= zlen m.
Proof.
  induction 1 as [|x m S [IH1 IH2] F]; [split; [constructor|done]|]. cbn. rewrite zlen_cons. destruct (f x); [|split; [done|lia]].
  rewrite zlen_cons. split; [|lia]. constructor; [done|]. apply Forall_forall. intros y Y. apply list_elem_of_In, filter_In in Y as [Y _].
  by apply (proj1 (Forall_forall _ _) F), list_elem_of_In.
Qed.

Lemma set_partials_inv o m : outbox_inv o -> by_segment m -> zlen m <= MAX_PENDING_PARTIAL_SEGMENTS -> outbox_inv (set_partials o m).
Proof. intros [I1 I2 I3 I4 I5 I6 I7] S L. by split. Qed.

Lemma store_partial_spec segment text Q o : outbox_inv o -> (forall o', grown [] o o' -> Q tt o') -> wp (store_partial segment text) Q o.
Proof.
  intros I H. pose proof (oi_partials _ I) as [L S]. unfold store_partial. wp_steps.
  assert (forall m, by_segment m -> zlen (partial_insert segment text m) <= MAX_PENDING_PARTIAL_SEGMENTS ->
    grown [] o (set_partials o (partial_insert segment text m))) as K.
  { intros m Sm Lm. split; [|by cbn; rewrite app_nil_r]. apply set_partials_inv; [done|by apply partial_insert_sorted|done]. }
  destruct (_ && _) eqn:B; wp_steps; apply H.
  - cbn [partials set_partials]. change (set_partials (set_partials o ?a) ?b) with (set_partials o b). apply K.
    + destruct S; [constructor|done].
    + pose proof (partial_insert_length segment text (tl (partials o))). destruct (partials o); cbn [tl] in *; [done|]. rewrite zlen_cons in L. lia.
  - apply K; [done|]. unfold is_none in B. destruct (is_some (partial_get segment (partials o))) eqn:G.
    + by rewrite partial_insert_present.
    + cbn in B. breflect. pose proof (partial_insert_length segment text (partials o)). lia.
Qed.

Lemma publish_partial_spec session segment text Q o : outbox_inv o -> (forall open o', grown [] o o' -> Q open o') ->
  wp (publish_partial session segment text) Q o.
Proof.
  intros I H. assert (forall o1, grown [] o o1 -> wp (store_partial segment text ;;; c <- is_closed ;; ret (negb c)) Q o1) as K.
  { intros o1 G1. wp_steps. apply store_partial_spec; [by destruct G1|]. intros o2 G2. wp_steps. apply is_closed_spec; [by destruct G2|].
    intros c o3 G3. wp_steps. apply H. exact (grown_trans [] [] _ _ _ G1 (grown_trans [] [] _ _ _ G2 G3)). }
  unfold publish_partial. wp_steps. destruct (negb _); [apply K, grown_refl, I|]. wp_steps. apply capacity_spec; [done|]. intros room o1 G _ _.
  destruct (_ <=? _); [by apply K|]. wp_steps.
  assert (grown [] o (interfere o1)) as G1 by exact (grown_trans [] [] _ _ _ G (interfere_grown _ (gr_inv _ _ _ G))).
  apply wp_try_send. split; [|split]; intros; wp_steps; [by apply H| |].
  - apply H. destruct G1 as [I1 P1]. split; [|done]. by apply push_other_inv.
  - apply store_partial_spec; [by destruct G1|]. intros o2 G2. wp_steps. apply H. exact (grown_trans [] [] _ _ _ G1 G2).
Qed.

(** ** Flushing and delivering *)

Lemma flush_reliable_spec queue Q : forall o, outbox_inv o -> o.(reliable_events) = queue ->
  (forall r o', grown [] o o' -> Q r o') -> wp (flush_reliable queue) Q o.
Proof.
  induction queue as [|e rest IH]; intros o I Rq H; cbn [flush_reliable]; wp_steps; [by apply H, grown_refl|].
  pose proof (interfere_grown o I) as G. assert (reliable_events (interfere o) = e :: rest) as Rq' by (by destruct (interfere_fields o) as (_ & -> & _)).
  apply wp_try_send. split; [|split]; intros; wp_steps; [by apply H| |by apply H]. cbn [reliable_events push]. rewrite Rq'. cbn [tl].
  pose proof (push_head_inv e (interfere o) ltac:(by rewrite Rq') H0 (gr_inv _ _ _ G)) as J. rewrite Rq' in J. cbn [tl] in J.
  apply IH; [done|done|]. intros r o' [I' P']. apply H. split; [done|]. rewrite P'. cbn. destruct G as [_ ->]. by rewrite !app_nil_r.
Qed.

Lemma flush_partials_spec session waiting Q : forall o, outbox_inv o -> (forall r o', grown [] o o' -> Q r o') -> wp (flush_partials session waiting) Q o.
Proof.
  induction waiting as [|[segment text] rest IH]; intros o I H; cbn [flush_partials]; wp_steps; apply capacity_spec; try done;
    intros room o1 G _ _; (destruct (_ <? room); wp_steps; [|by apply H]); [by apply H|].
  assert (grown [] o (interfere o1)) as G1 by exact (grown_trans [] [] _ _ _ G (interfere_grown _ (gr_inv _ _ _ G))).
  apply wp_try_send. split; [|split]; intros; wp_steps; [by apply H| |by apply H]. destruct G1 as [I1 P1].
  apply IH.
  - destruct (by_segment_filter (fun kv => negb (kv.1 =? segment)) (partials (interfere o1))) as [S L]; [by destruct (oi_partials _ I1)|].
    apply set_partials_inv; [by apply push_other_inv|exact S|]. destruct (oi_partials _ I1). unfold partial_remove. cbn [partials push]. lia.
  - intros r o' [I' P']. apply H. split; [done|]. by rewrite P', app_nil_r.
Qed.

Lemma flush_pending_events_spec session Q o : outbox_inv o -> (forall r o', grown [] o o' -> Q r o') -> wp (flush_pending_events session) Q o.
Proof.
  intros I H. unfold flush_pending_events. wp_steps. apply flush_reliable_spec; [done|done|]. intros [r|] o1 G; wp_steps; [by apply H|].
  apply flush_partials_spec; [by destruct G|]. intros r o2 G2. apply H. exact (grown_trans [] [] _ _ _ G G2).
Qed.

Lemma deliver_spec session d Q o : outbox_inv o -> pending_delivery o = Some d ->
  (forall o', grown [] o o' -> Q None o') -> (forall o', grown [] o (remove_pending_delivery d o') -> Q (Some d) o') ->
  wp (deliver_pending_event session d) Q o.
Proof.
  intros I D H1 H2. pose proof (interfere_grown o I) as G. destruct (interfere_fields o) as (_ & Er & Ep & _ & _).
  unfold deliver_pending_event. wp_steps. destruct (closed (interfere o)) eqn:C; wp_steps; [by apply H1|]. apply H2.
  unfold pending_delivery in D. destruct (reliable_events o) as [|e q] eqn:Rq; [destruct (partials o) as [|[segment text] m] eqn:Pm; [done|]|]; simplify_eq.
  - destruct G as [I1 P1]. assert (outbox_inv (push false (RELIABLE_EVENT_RESERVE + 1) (VS_TranscriptPartial session segment text) (interfere o))) as J by (by apply push_other_inv).
    cbn [remove_pending_delivery]. destruct (bool_decide _); [|by split]. split; [|done]. destruct (oi_partials _ J) as [L S].
    destruct (by_segment_filter (fun kv => negb (kv.1 =? segment)) _ S) as [S' L']. apply set_partials_inv; [done|exact S'|]. unfold partial_remove. lia.
  - destruct G as [I1 P1]. cbn [remove_pending_delivery]. split; [|done]. pose proof (push_head_inv e (interfere o) ltac:(by rewrite Er) C I1) as J.
    cbn [reliable_events push]. exact J.
Qed.
End Env.
