(* ===== verification/VoiceInvariant.v ===== *)
(** * The invariant of the voice loop

    What holds between two iterations of the loop, and the rules that carry it
    through a handler: the bounds of what the loop keeps, the turn it holds, the
    capture operation in flight, the segments behind every response, and what
    has been reported of every generation's playback. *)

From stdpp Require Import gmap.
From S2P Require Import Prelude RustStr Errors Pcm CaptureTiming Audio TurnFinalizer TranscriptCleanup ProtocolQuality Quality Privacy Context RecordingSafety TurnEvents ClientVoice VoiceOutbox VoiceState VoiceLoop VoiceDelivery.

Local Open Scope Z_scope.

(** ** Turns *)

(** The turn held after some actions; [None] when two would be held at once, or
    another one given up. *)
Fixpoint holding (held : option (TurnId * GenerationId)) (l : list TurnAction) : option (option (TurnId * GenerationId)) :=
  match l with
  | [] => Some held
  | Act_start _ _ _ t g :: l => match held with None => holding (Some (t, g)) l | Some _ => None end
  | (Act_over t g | Act_abort t g) :: l => if bool_decide (held = Some (t, g)) then holding None l else None
  end.

Lemma holding_app h l1 l2 : holding h (l1 ++ l2) = (h' ← holding h l1; holding h' l2).
Proof.
  revert h. induction l1 as [|[? ? ? t g|t g|t g] l1 IH]; intros h; cbn; [done| |case_bool_decide; [apply IH|done]..].
  destruct h; [done|apply IH].
Qed.

Definition turn_ok (acts : list TurnAction) (there : bool) (state : VoiceLoopState) : Prop :=
  if there then exists t g, state = Responding t g /\ holding None acts = Some (Some (t, g))
  else holding None acts = Some None.

(** ** Capture *)

Definition capture_ok (operation : option PendingCaptureOperation) (state : CaptureState) : Prop :=
  match operation with
  | None => state = Capture_Active \/ state = Paused
  | Some o => state = match o.(operation_kind) with Op_Pause => Pausing | Op_Resume => Resuming end
  end.

(** ** Playback *)

(** What was published of a generation's playback. *)
Definition report_of (g : GenerationId) (e : VoiceSessionEvent) : option PlaybackState :=
  match e with VS_Playback _ g' st => if bool_decide (g' = g) then Some st else None | _ => None end.
Definition reports (g : GenerationId) (l : list VoiceSessionEvent) : list PlaybackState := omap (report_of g) l.

Definition truthful (l : list PlaybackState) : Prop :=
  l = [] \/ l = [Playback_Accepted] \/ l = [Playback_Accepted; Playback_Rendered] \/ l = [Playback_Flushed] \/
  l = [Playback_Accepted; Playback_Flushed].

Definition is_playback_report (e : VoiceSessionEvent) : bool := match e with VS_Playback _ _ _ => true | _ => false end.

Lemma reports_app g l1 l2 : reports g (l1 ++ l2) = reports g l1 ++ reports g l2.
Proof. apply omap_app. Qed.
Lemma reports_other g l : Forall (fun e => is_playback_report e = false) l -> reports g l = [].
Proof. induction 1 as [|e l E F IH]; [done|]. unfold reports in *. cbn. by destruct e. Qed.

Section Invariant.
Context `{SE : SessionEnv} (session_id : SessionId) (response_mode : VoiceResponseMode).

Definition starts (g : GenerationId) (acts : list TurnAction) : Prop :=
  exists cause segment text t, Act_start cause segment text t g ∈ acts.

Definition lifecycle_ok (p : option PlaybackLifecycle) (l : list VoiceSessionEvent) (acts : list TurnAction) : Prop :=
  match p with
  | Some (AwaitingAcceptance g _) => reports g l = [] /\ starts g acts
  | Some (Lifecycle_Accepted g) => reports g l = [Playback_Accepted] /\ starts g acts
  | _ => True
  end.

Record playback_ok (l : list VoiceSessionEvent) (acts : list TurnAction) (uses : nat) : Prop := {
  pb_truthful : forall g, truthful (reports g l);
  pb_started : forall g, reports g l <> [] -> starts g acts;
  pb_minted : forall cause segment text t g, Act_start cause segment text t g ∈ acts -> exists n, (n < uses)%nat /\ se_start n text = Ok (t, g);
}.

(** ** Segments *)

(** The transcript was published before anything could answer it. *)
Definition announced (l : list VoiceSessionEvent) (segment : Z) (text : rstr) : Prop :=
  exists evidence, VS_TranscriptFinal session_id segment None text evidence ∈ l.

(** The words of a response were published as the final transcript of its
    segment: on its own before the response, or, when the silence starts the
    turn, with the turn that answers it. *)
Definition told (l : list VoiceSessionEvent) (cause : StartCause) (segment : Z) (text : rstr) (t : TurnId) : Prop :=
  match cause with
  | By_silence => VS_TranscriptFinal session_id segment (Some t) text None ∈ l
  | _ => announced l segment text
  end.

Definition start_ok (l : list VoiceSessionEvent) (a : TurnAction) : Prop :=
  match a with
  | Act_start cause segment text t _ =>
      (response_mode = ExternalGate -> cause = By_authorization) /\ told l cause segment text t
  | _ => True
  end.

Record segments_ok (l : list VoiceSessionEvent) (acts : list TurnAction) (pending : gmap Z PendingSegment) (order : list Z)
    (queue : list (Z * rstr)) : Prop := {
  sg_starts : Forall (start_ok l) acts;
  sg_pending : forall segment text, pending !! segment = Some (Pending text) -> announced l segment text;
  sg_kept : forall segment p, pending !! segment = Some p -> segment ∈ order;
  sg_order : zlen order <= MAX_PENDING_SEGMENTS;
  sg_queue : Forall (fun p => announced l p.1 p.2) queue;
  sg_queued : zlen queue <= MAX_PENDING_SEGMENTS;
  sg_gate : response_mode = ExternalGate -> queue = [];
}.

(** The loop goes on, so that the lifecycle of the current generation and the
    reports agree; it leaves, and may still hold its turn; the session ends, and
    no turn starts. *)
Inductive phase : Type := Going | Leaving | Over.

Record loop_inv (ph : phase) (s : VoiceLoop) : Prop := {
  li_outbox : outbox_inv s.(outbox);
  li_held : is_Some (holding None s.(actions));
  li_turn : ph <> Over -> turn_ok s.(actions) s.(turn_events) s.(loop_state);
  li_over : ph = Over -> forall t g, s.(loop_state) <> Responding t g;
  li_capture : capture_ok s.(capture_operation) s.(capture_state);
  li_segments : segments_ok s.(outbox).(published) s.(actions) s.(pending_segments) s.(pending_order) s.(automatic_responses);
  li_playback : playback_ok s.(outbox).(published) s.(actions) s.(env_uses);
  li_lifecycle : ph = Going -> lifecycle_ok s.(playback) s.(outbox).(published) s.(actions);
}.

Lemma turn_ok_held acts there state : turn_ok acts there state -> is_Some (holding None acts).
Proof. unfold turn_ok. destruct there; [intros (t & g & _ & ->)|intros ->]; by eexists. Qed.

Lemma inv_weaken ph s : ph <> Over -> loop_inv Going s -> loop_inv ph s.
Proof. intros N []. split; auto. Qed.
Lemma inv_over ph s : loop_inv ph s -> (forall t g, s.(loop_state) <> Responding t g) -> loop_inv Over s.
Proof. intros []. by split. Qed.

(** ** Steps that keep it *)

Lemma starts_app g acts acts' : starts g acts -> starts g (acts ++ acts').
Proof. intros (c & sg & w & t & H). exists c, sg, w, t. apply elem_of_app. by left. Qed.

Lemma segments_act l acts pending order queue a : segments_ok l acts pending order queue -> start_ok l a -> segments_ok l (acts ++ [a]) pending order queue.
Proof. intros [S1 S2 S3 S4 S5 S6 S7] A. split; try done. apply Forall_app. split; [done|by constructor]. Qed.

Lemma playback_act l acts uses uses' a : playback_ok l acts uses -> (uses <= uses')%nat ->
  (forall cause segment text t g, a = Act_start cause segment text t g -> exists n, (n < uses')%nat /\ se_start n text = Ok (t, g)) ->
  playback_ok l (acts ++ [a]) uses'.
Proof.
  intros [P1 P2 P3] L A. split; [done|intros g H; by apply starts_app, P2|]. intros c sg w t g H. apply elem_of_app in H as [H|H].
  - destruct (P3 _ _ _ _ _ H) as (n & Ln & En). exists n. split; [lia|done].
  - apply list_elem_of_singleton in H. by eapply A.
Qed.

Lemma lifecycle_act p l acts a : lifecycle_ok p l acts -> lifecycle_ok p l (acts ++ [a]).
Proof. destruct p as [[]|]; cbn; try done; intros [R S]; (split; [done|by apply starts_app]). Qed.

(** A turn that leaves the hands of the loop. *)
Lemma inv_released ph a t g s : (a = Act_over t g \/ a = Act_abort t g) -> ph <> Over -> loop_inv ph s -> s.(turn_events) = true ->
  s.(loop_state) = Responding t g -> loop_inv ph (set_turn_events false (set_actions (s.(actions) ++ [a]) s)).
Proof.
  intros A N [I1 I0 I2 Io I3 I4 I5 I6] Te St. specialize (I2 N). unfold turn_ok in I2. rewrite Te in I2. destruct I2 as (t' & g' & St' & H).
  rewrite St in St'. simplify_eq. assert (holding None (s.(actions) ++ [a]) = Some None) as K
    by (rewrite holding_app, H; destruct A as [-> | ->]; cbn; by rewrite bool_decide_true).
  assert (is_Some (holding None (s.(actions) ++ [a]))) by (rewrite K; by eexists).
  split; cbn; try done.
  - apply segments_act; [done|]. by destruct A as [-> | ->].
  - apply (playback_act _ _ (env_uses s)); [done|lia|]. destruct A as [-> | ->]; done.
  - intros E. by apply lifecycle_act, I6.
Qed.

Lemma announced_app l l' segment text : announced l segment text -> announced (l ++ l') segment text.
Proof. intros [ev E]. exists ev. apply elem_of_app. by left. Qed.

Lemma told_app l l' cause segment text t : told l cause segment text t -> told (l ++ l') cause segment text t.
Proof. destruct cause; cbn; [apply announced_app..|]. intros E. apply elem_of_app. by left. Qed.

Lemma segments_grow l l' acts pending order queue : segments_ok l acts pending order queue -> segments_ok (l ++ l') acts pending order queue.
Proof.
  intros [S1 S2 S3 S4 S5 S6 S7]. split; [|intros; by eapply announced_app, S2|done|done| |done|done].
  - eapply Forall_impl; [exact S1|]. intros [] H; cbn in *; [|done..]. split; [by apply H|]. by apply told_app, H.
  - eapply Forall_impl; [exact S5|]. intros. by apply announced_app.
Qed.

Lemma inv_outbox ph s extra o : loop_inv ph s -> grown extra s.(outbox) o -> Forall (fun e => is_playback_report e = false) extra ->
  loop_inv ph (set_outbox o s).
Proof.
  intros [I1 I0 I2 Io I3 I4 [P1 P2 P3] I6] [G1 G2] N. assert (forall g, reports g (published o) = reports g (published (outbox s))) as E
    by (intros g; by rewrite G2, reports_app, (reports_other g extra), app_nil_r).
  split; cbn; try done.
  - rewrite G2. by apply segments_grow.
  - split; [intros; rewrite E; apply P1|intros g; rewrite E; apply P2|done].
  - intros L. specialize (I6 L). unfold lifecycle_ok in *. destruct (playback s) as [[g ?|g|g|g]|]; rewrite ?E; done.
Qed.

Lemma inv_uses ph s : loop_inv ph s -> loop_inv ph (set_env_uses (S s.(env_uses)) s).
Proof.
  intros [I1 I0 I2 Io I3 I4 [P1 P2 P3] I6]. split; try done. split; try done. intros. destruct (P3 _ _ _ _ _ H) as (n & L & E). exists n. cbn. split; [lia|done].
Qed.

Ltac other := intros []; split; done.

Lemma inv_deadline ph v s : loop_inv ph s -> loop_inv ph (set_deadline v s).
Proof. other. Qed.
Lemma inv_finalizer ph v s : loop_inv ph s -> loop_inv ph (set_loop_finalizer v s).
Proof. other. Qed.
Lemma inv_active_segment ph v s : loop_inv ph s -> loop_inv ph (set_active_segment_id v s).
Proof. other. Qed.
Lemma inv_due ph v s : loop_inv ph s -> loop_inv ph (set_finalization_due v s).
Proof. other. Qed.
Lemma inv_recorder ph v s : loop_inv ph s -> loop_inv ph (set_capture_recorder v s).
Proof. other. Qed.
Lemma inv_first_audio ph v s : loop_inv ph s -> loop_inv ph (set_first_audio_received v s).
Proof. other. Qed.
Lemma inv_last ph v s : loop_inv ph s -> loop_inv ph (set_last_finalized_segment v s).
Proof. other. Qed.
Lemma inv_stats ph v s : loop_inv ph s -> loop_inv ph (set_cleanup_stats v s).
Proof. other. Qed.
Lemma inv_replies ph v s : loop_inv ph s -> loop_inv ph (set_replies v s).
Proof. other. Qed.
Lemma inv_completion ph v s : loop_inv ph s -> loop_inv ph (set_io_completion v s).
Proof. other. Qed.
Lemma inv_no_playback ph s : ph <> Over -> loop_inv Leaving s -> loop_inv ph (set_playback None s).
Proof. intros N [? ? T]. split; try done. intros _. by apply T. Qed.

Lemma inv_state ph v s : ph <> Over -> s.(turn_events) = false -> loop_inv ph s -> loop_inv ph (set_loop_state v s).
Proof. intros N Te [I1 I0 I2 Io I3 I4 I5 I6]. split; try done. intros _. specialize (I2 N). cbn. by rewrite Te in I2 |- *. Qed.

Lemma inv_lifecycle p s : loop_inv Leaving s -> lifecycle_ok p s.(outbox).(published) s.(actions) -> loop_inv Going (set_playback p s).
Proof. intros [I1 I0 I2 Io I3 I4 I5 I6] Lc. split; try done. intros _. by apply I2. Qed.

(** A playback state is reported. *)
Lemma inv_report g st s o : loop_inv Going s -> grown [VS_Playback session_id g st] s.(outbox) o -> starts g s.(actions) ->
  truthful (reports g s.(outbox).(published) ++ [st]) ->
  loop_inv Leaving (set_outbox o s) /\ reports g o.(published) = reports g s.(outbox).(published) ++ [st].
Proof.
  intros [I1 I0 I2 Io I3 I4 [P1 P2 P3] I6] [G1 G2] St T.
  assert (forall g', reports g' (published o) = reports g' (published (outbox s)) ++ (if bool_decide (g = g') then [st] else [])) as E
    by (intros g'; rewrite G2, reports_app; f_equal; unfold reports; cbn; by repeat case_bool_decide).
  split; [|by rewrite E, bool_decide_true]. split; cbn; try done.
  - intros _. by apply I2.
  - rewrite G2. by apply segments_grow.
  - split; [| |done].
    + intros g'. rewrite E. case_bool_decide; [by subst|rewrite app_nil_r; apply P1].
    + intros g'. rewrite E. case_bool_decide; [by subst|rewrite app_nil_r; apply P2].
Qed.
End Invariant.

Create HintDb voice.
#[export] Hint Resolve inv_uses inv_deadline inv_finalizer inv_active_segment inv_due inv_recorder inv_first_audio inv_last inv_stats
  inv_replies inv_completion : voice.
