(* ===== verification/VoiceSegments.v ===== *)
(** * Segments and responses of a voice session

    The handlers that announce a segment, and those that start a response to one,
    return without panicking from a state that satisfies the invariant of the
    loop, in a state that satisfies it. *)

From stdpp Require Import gmap.
From S2P Require Import Prelude RustStr Errors Pcm CaptureTiming Audio TurnFinalizer TranscriptCleanup ProtocolQuality Quality Privacy Context RecordingSafety TurnEvents ClientVoice VoiceOutbox VoiceState VoiceLoop VoiceDelivery VoiceInvariant.

Local Open Scope Z_scope.

(** ** Rules *)

Section Rules.
Context `{SE : SessionEnv}.

Lemma wp_ask {A} (f : nat -> A) Q s : wp (ask f) Q s = Q (f s.(env_uses)) (set_env_uses (S s.(env_uses)) s).
Proof. done. Qed.
Lemma wp_on_outbox {A} (m : M Outbox A) Q s : wp (on_outbox m) Q s = wp m (fun a o => Q a (set_outbox o s)) s.(outbox).
Proof. unfold wp, on_outbox. destruct (m _) as [[a o]| |]; done. Qed.

Lemma wp_publish e Q s : outbox_inv s.(outbox) -> goes_on e -> (forall open o, grown [e] s.(outbox) o -> Q open (set_outbox o s)) -> wp (publish e) Q s.
Proof.
  intros I Ge H. unfold publish. rewrite wp_bind, wp_on_outbox. apply publish_reliable_spec; [done|done|]. intros r o G _. apply H. done.
Qed.
Lemma wp_best_effort e Q s : outbox_inv s.(outbox) -> goes_on e -> (forall open o, grown [] s.(outbox) o -> Q open (set_outbox o s)) -> wp (best_effort e) Q s.
Proof. intros I Ge H. unfold best_effort. rewrite wp_on_outbox. apply best_effort_spec; [done|done|]. intros open o G. by apply H. Qed.
End Rules.

Ltac wp_go := repeat (rewrite ?wp_bind, ?wp_gets, ?wp_modify, ?wp_ret, ?wp_ask; cbv beta; try unfold act, reply, now_ms, exit_unless).

(** The generations of turns are never used twice. *)
Class SessionEnvLaws `{SE : SessionEnv} : Prop :=
  fresh_generations : forall n n' text text' t t' g, se_start n text = Ok (t, g) -> se_start n' text' = Ok (t', g) -> n = n'.

Section Handlers.
Context `{U : UnicodeTables, SE : SessionEnv, L : !SessionEnvLaws} (session_id : SessionId) (response_mode : VoiceResponseMode).

Abbreviation inv := (loop_inv session_id response_mode).

Lemma cleanup_total text : exists c, clean_final_transcript text = Val c.
Proof. unfold clean_final_transcript. destruct (cleaned_units_ok text) as (units & -> & _). cbn [exec_bind]. split_ifs; by eexists. Qed.

Lemma clean_final_spec text Q s : (forall r v, Q r (set_cleanup_stats v s)) -> wp (clean_final text) Q s.
Proof.
  intros H. unfold clean_final. wp_go. destruct (cleanup_total text) as [c E]. apply (wp_run_exec _ c); [exact E|]. wp_go. apply H.
Qed.

(** ** Starting a turn *)

(** As if the loop owned the turn it has just started. *)
Definition owning (t : TurnId) (g : GenerationId) (s : VoiceLoop) : VoiceLoop :=
  set_playback (Some (AwaitingAcceptance g None)) (set_loop_state (Responding t g) (set_turn_events true s)).

Lemma start_owned cause segment text t g s : inv Going s -> s.(turn_events) = false ->
  se_start s.(env_uses) text = Ok (t, g) -> (response_mode = ExternalGate -> cause = By_authorization) ->
  told session_id s.(outbox).(published) cause segment text t ->
  inv Going (owning t g (set_actions (s.(actions) ++ [Act_start cause segment text t g]) (set_env_uses (S s.(env_uses)) s))).
Proof using L.
  intros [I1 I0 I2 Io I3 I4 I5 I6] Te E M A. specialize (I2 ltac:(done)). unfold turn_ok in I2. rewrite Te in I2.
  assert (holding None (s.(actions) ++ [Act_start cause segment text t g]) = Some (Some (t, g))) as K by (by rewrite holding_app, I2).
  assert (is_Some (holding None (s.(actions) ++ [Act_start cause segment text t g]))) by (rewrite K; by eexists).
  split; cbn; try done.
  - intros _. exists t, g. done.
  - by apply segments_act.
  - apply (playback_act _ _ (env_uses s)); [done|lia|]. intros ? ? ? ? ? [= <- <- <- <- <-]. exists (env_uses s). split; [lia|done].
  - intros _. split; [|do 4 eexists; apply elem_of_app; right; by apply list_elem_of_singleton].
    destruct (reports g _) eqn:R; [done|]. destruct I5 as [P1 P2 P3]. destruct (P2 g) as (c & sg & w & t' & Hs); [by rewrite R|].
    destruct (P3 _ _ _ _ _ Hs) as (n & Ln & En). pose proof (fresh_generations _ _ _ _ _ _ _ E En). lia.
Qed.

(** The turn is aborted before the loop takes it. *)
Lemma start_aborted cause segment text t g s : inv Going s -> s.(turn_events) = false ->
  se_start s.(env_uses) text = Ok (t, g) -> (response_mode = ExternalGate -> cause = By_authorization) ->
  told session_id s.(outbox).(published) cause segment text t ->
  inv Going (set_actions ((s.(actions) ++ [Act_start cause segment text t g]) ++ [Act_abort t g]) (set_env_uses (S s.(env_uses)) s)).
Proof using L.
  intros I Te E M A. pose proof (start_owned cause segment text t g s I Te E M A) as J.
  apply (inv_released _ _ _ (Act_abort t g) t g) in J as [J1 J0 J2 Jo J3 J4 J5 _]; [|by right|done..]. cbn in *.
  destruct I as [I1 I0 I2 Io I3 I4 I5 I6]. split; cbn; try done.
  - rewrite Te. by apply J2.
  - intros _. by apply lifecycle_act, lifecycle_act, I6.
Qed.

Lemma inv_mark ph segment p s : inv ph s -> is_Some (s.(pending_segments) !! segment) ->
  (forall text, p = Pending text -> announced session_id s.(outbox).(published) segment text) ->
  inv ph (set_pending_segments (<[segment := p]> s.(pending_segments)) s).
Proof.
  intros [I1 I0 I2 Io I3 [S1 S2 S3 S4 S5 S6 S7] I5 I6] [p0 P0] A. split; try done. cbn. split; try done.
  - intros sg text. destruct (decide (segment = sg)) as [->|Ne]; [rewrite lookup_insert_eq; intros [= ->]; by apply A|rewrite lookup_insert_ne by done; apply S2].
  - intros sg q. destruct (decide (segment = sg)) as [->|Ne]; [intros _; by eapply S3|rewrite lookup_insert_ne by done; apply S3].
Qed.

(** The consumer and the publications leave the rest alone. *)
Lemma inv_published ph e s o : inv ph s -> grown [e] s.(outbox) o -> is_playback_report e = false -> inv ph (set_outbox o s).
Proof. intros I G N. eapply inv_outbox; [done|exact G|]. by constructor. Qed.
Lemma inv_quiet ph s o : inv ph s -> grown [] s.(outbox) o -> inv ph (set_outbox o s).
Proof. intros I G. eapply inv_outbox; [done|exact G|constructor]. Qed.

Lemma start_segment_response_spec segment text (gate : bool) s : inv Going s -> announced session_id s.(outbox).(published) segment text ->
  (if gate then is_Some (s.(pending_segments) !! segment) else response_mode <> ExternalGate) ->
  wp (start_segment_response session_id segment text gate) (fun _ s' => inv Going s') s.
Proof using L.
  intros I A G. unfold start_segment_response. wp_go. destruct (idle s) eqn:Id; cbn [negb]; [|by wp_go].
  unfold idle in Id. breflect. wp_go. destruct (se_start (env_uses s) text) as [[t g]|e] eqn:St; [|wp_go; by apply inv_uses]. wp_go.
  set (cause := if gate then By_authorization else By_queue).
  assert (response_mode = ExternalGate -> cause = By_authorization) as M by (unfold cause; by destruct gate).
  assert (told session_id (outbox s).(published) cause segment text t) as A' by (unfold cause; by destruct gate).
  pose proof (start_owned cause segment text t g s I H0 St M A') as IO.
  pose proof (start_aborted cause segment text t g s I H0 St M A') as IA. destruct gate; wp_go.
  - assert (inv Going (owning t g (set_pending_segments (<[segment := Authorized t]> s.(pending_segments))
      (set_actions (s.(actions) ++ [Act_start cause segment text t g]) (set_env_uses (S s.(env_uses)) s))))) as IO' by exact (inv_mark _ segment (Authorized t) _ IO G ltac:(done)).
    unfold mark_segment. wp_go. apply wp_publish; [by destruct I|done|]. intros open o Gr. destruct open; cbn [negb].
    + unfold own_turn. wp_go. apply wp_best_effort; [exact (gr_inv _ _ _ Gr)|done|]. intros open o2 Gr2. wp_go.
      exact (inv_quiet _ _ _ (inv_uses _ _ _ _ (inv_published _ _ _ _ IO' Gr eq_refl)) Gr2).
    + wp_go.
      pose proof (inv_mark _ segment (Authorized t) _ IA G ltac:(done)) as IA'.
      pose proof (inv_published _ _ _ _ IA' Gr eq_refl) as IP.
      refine (inv_mark _ segment (Pending text) _ (inv_uses _ _ _ _ IP) _ _); [cbn; rewrite lookup_insert_eq; by eexists|].
      intros text' [= <-]. cbn. destruct Gr as [_ ->]. by apply announced_app.
  - apply wp_publish; [by destruct I|done|]. intros open o Gr. destruct open; cbn [negb].
    + unfold own_turn. wp_go. apply wp_best_effort; [exact (gr_inv _ _ _ Gr)|done|]. intros open o2 Gr2. wp_go.
      exact (inv_quiet _ _ _ (inv_uses _ _ _ _ (inv_published _ _ _ _ IO Gr eq_refl)) Gr2).
    + wp_go. exact (inv_uses _ _ _ _ (inv_published _ _ _ _ IA Gr eq_refl)).
Qed.

(** ** Segments *)

Lemma authorize_segment_spec session segment exchanges s : inv Going s ->
  wp (authorize_segment session_id response_mode session segment exchanges) (fun _ s' => inv Going s') s.
Proof using L.
  intros I. unfold authorize_segment. destruct (_ || _) eqn:M; wp_go; [done|].
  destruct (pending_segments s !! segment) as [[text|t|]|] eqn:P; wp_go; try done; (destruct (idle s); cbn [negb]; wp_go; try done).
  destruct (se_seed _ _ _) as [u|e]; wp_go; [|by apply inv_uses].
  apply start_segment_response_spec; [by apply inv_uses|by eapply sg_pending; [exact (li_segments _ _ _ _ I)|]|by exists (Pending text)].
Qed.

Lemma skip_segment_spec session segment reason s : inv Going s ->
  wp (skip_segment session_id response_mode session segment reason) (fun _ s' => inv Going s') s.
Proof using.
  intros I. unfold skip_segment. destruct (_ || _); wp_go; [done|].
  destruct (pending_segments s !! segment) as [[text|t|]|] eqn:P; wp_go; try done. unfold mark_segment. wp_go.
  assert (inv Going (set_pending_segments (<[segment := Skipped]> s.(pending_segments)) s)) as J by (apply inv_mark; [done|by eexists|done]).
  apply wp_publish; [by destruct I|done|]. intros open o G. wp_go. exact (inv_published _ _ _ _ J G eq_refl).
Qed.

Lemma inv_queue ph queue s : inv ph s -> Forall (fun p => announced session_id s.(outbox).(published) p.1 p.2) queue ->
  zlen queue <= MAX_PENDING_SEGMENTS -> (response_mode = ExternalGate -> queue = []) -> inv ph (set_automatic_responses queue s).
Proof using. intros [I1 I0 I2 Io I3 [S1 S2 S3 S4 S5 S6 S7] I5 I6] Q N E. split; done || by split. Qed.

Lemma start_queued_spec s : inv Going s -> wp (start_queued_automatic_response session_id) (fun _ s' => inv Going s') s.
Proof using L.
  intros I. unfold start_queued_automatic_response. wp_go. destruct (negb _); wp_go; [done|].
  destruct (automatic_responses s) as [|[segment text] rest] eqn:Q; wp_go; [done|]. destruct (li_segments _ _ _ _ I) as [S1 S2 S3 S4 S5 S6 S7].
  rewrite Q in *. apply Forall_cons in S5 as [S5 S5']. assert (response_mode <> ExternalGate) as M by (intros E; by specialize (S7 E)).
  assert (inv Going (set_automatic_responses rest s)) as J by (apply inv_queue; [done|done|rewrite zlen_cons in S6; lia|done]).
  eapply wp_mono; [by apply start_segment_response_spec|]. intros [t|e] s' I'; wp_go; [done|].
  apply wp_publish; [by destruct I'|done|]. intros open o G. wp_go. exact (inv_published _ _ _ _ I' G eq_refl).
Qed.

(** The oldest segments are forgotten. *)
Lemma inv_forget ph segment rest s : inv ph s -> s.(pending_order) = segment :: rest ->
  inv ph (set_pending_segments (delete segment s.(pending_segments)) (set_pending_order rest s)).
Proof using.
  intros [I1 I0 I2 Io I3 [S1 S2 S3 S4 S5 S6 S7] I5 I6] O. rewrite O in *. split; try done. cbn. split; try done.
  - intros sg text H. apply lookup_delete_Some in H as [_ H]. by apply S2.
  - intros sg p H. apply lookup_delete_Some in H as [Ne H]. specialize (S3 _ _ H). apply elem_of_cons in S3 as [->|]; done.
  - rewrite zlen_cons in S4. lia.
Qed.

Lemma expire_segments_spec order Q : forall s, inv Going s -> s.(pending_order) = order ->
  (forall open s', inv Going s' -> (open = true -> zlen s'.(pending_order) < MAX_PENDING_SEGMENTS) -> Q open s') ->
  wp (expire_segments session_id order) Q s.
Proof using.
  induction order as [|x rest IH]; intros s I O H; cbn [expire_segments]; wp_go.
  { apply H; [done|]. intros _. by rewrite O. }
  destruct (_ <=? _) eqn:B; breflect; wp_go; [|by apply H; [done|rewrite O]].
  pose proof (inv_forget _ _ _ _ I O) as J. destruct (_ !! x) as [[text|t|]|]; wp_go; try (by apply IH).
  apply wp_publish; [by destruct I|done|]. intros open o G. pose proof (inv_published _ _ _ _ J G eq_refl) as K.
  destruct open; cbn [negb]; wp_go; [by apply IH|by apply H].
Qed.

(** A transcript is published, and its segment kept. *)
Lemma inv_announce ph segment text evidence s o : inv ph s -> zlen s.(pending_order) < MAX_PENDING_SEGMENTS ->
  grown [VS_TranscriptFinal session_id segment None text evidence] s.(outbox) o ->
  inv ph (set_outbox o (set_pending_segments (<[segment := Pending text]> s.(pending_segments)) (set_pending_order (s.(pending_order) ++ [segment]) s))).
Proof using.
  intros I N G. pose proof (inv_published _ _ _ _ I G eq_refl) as [I1 I0 I2 Io I3 [S1 S2 S3 S4 S5 S6 S7] I5 I6]. split; try done. cbn in *. split; try done.
  - intros sg w. destruct (decide (segment = sg)) as [->|Ne]; [rewrite lookup_insert_eq; intros [= ->]|rewrite lookup_insert_ne by done; apply S2].
    exists evidence. destruct G as [_ ->]. apply elem_of_app. right. by apply list_elem_of_singleton.
  - intros sg q. rewrite elem_of_app, list_elem_of_singleton. destruct (decide (segment = sg)) as [->|Ne]; [by right|].
    rewrite lookup_insert_ne by done. left. by eapply S3.
  - rewrite zlen_app. change (zlen [segment]) with 1. lia.
Qed.

Lemma register_spec segment text evidence s : inv Going s ->
  wp (register_pending_segment_with_capture session_id segment text evidence) (fun _ s' => inv Going s') s.
Proof using.
  intros I. unfold register_pending_segment_with_capture. wp_go. apply expire_segments_spec; [done|done|]. intros open s1 I1 N.
  destruct open; cbn [negb]; wp_go; [|done]. specialize (N eq_refl). unfold mark_segment. wp_go.
  apply wp_publish; [by destruct I1|done|]. intros open o G. pose proof (inv_announce _ _ _ _ _ _ I1 N G) as J. destruct open; cbn [negb]; wp_go; [|done].
  apply wp_best_effort; [exact (gr_inv _ _ _ G)|done|]. intros open o2 G2. wp_go. exact (inv_quiet _ _ _ (inv_uses _ _ _ _ J) G2).
Qed.

Lemma admit_spec u s : inv Going s -> wp (admit_finalized_utterance session_id response_mode u) (fun _ s' => inv Going s') s.
Proof using L.
  intros I. unfold admit_finalized_utterance. wp_go. destruct (_ <=? _); wp_go; [done|]. apply clean_final_spec. intros [text|] stats; wp_go;
    [|by apply inv_stats, inv_last].
  case_bool_decide as M; [by apply register_spec, inv_stats, inv_last|]. wp_go. apply wp_publish; [by destruct I|done|]. intros open o G.
  pose proof (inv_published _ _ _ _ (inv_stats _ _ _ stats _ (inv_last _ _ _ (utterance_segment_id u) _ I)) G eq_refl) as J.
  destruct open; cbn [negb]; wp_go; [|done]. apply wp_best_effort; [exact (gr_inv _ _ _ G)|done|]. intros open o2 G2.
  pose proof (inv_quiet _ _ _ (inv_uses _ _ _ _ J) G2) as K. wp_go. destruct (_ <=? _) eqn:B; breflect; wp_go.
  { apply wp_publish; [exact (gr_inv _ _ _ G2)|done|]. intros open' o3 G3. wp_go. exact (inv_published _ _ _ _ K G3 eq_refl). }
  apply start_queued_spec. destruct (li_segments _ _ _ _ K) as [_ _ _ _ S5 S6 _]. cbn in *. apply (inv_queue _ _ _ K); [apply Forall_app; split; [done|]|rewrite zlen_app; cbn in *; change (zlen [_]) with 1; lia|done].
  constructor; [|done]. exists (utterance_evidence u). cbn. destruct G as [_ G], G2 as [_ ->]. cbn in *. rewrite G, app_nil_r. apply elem_of_app. right. by apply list_elem_of_singleton.
Qed.

(** ** Turns by silence *)

Lemma start_ready_turn_spec s : inv Going s -> s.(loop_state) = Listening -> s.(turn_events) = false ->
  wp (start_ready_turn session_id response_mode) (fun _ s' => inv Going s') s.
Proof using L.
  intros I Li Te. unfold start_ready_turn. wp_go. unfold finalize_now, wp at 1.
  destruct (finalize_ready _ _) as [fin f]. destruct fin as [fin|]; wp_go; [|by apply inv_finalizer, inv_uses, inv_due].
  cbn [active_segment_id set_finalization_due set_env_uses set_loop_finalizer]. destruct (active_segment_id s) as [segment|]; wp_go; [|by apply inv_active_segment, inv_finalizer, inv_uses, inv_due].
  apply clean_final_spec. intros [text|] stats; wp_go; [|by apply inv_stats, inv_active_segment, inv_finalizer, inv_uses, inv_due].
  match goal with |- wp _ _ ?x => set (s1 := x) end.
  assert (inv Going s1) as I1 by (by apply inv_stats, inv_active_segment, inv_finalizer, inv_uses, inv_due).
  case_bool_decide as M; [by apply register_spec|]. wp_go. destruct (se_start (env_uses s1) text) as [[t g]|e] eqn:St; wp_go; [|by apply inv_uses].
  apply wp_publish; [by destruct I1|done|]. intros open o G.
  pose proof (inv_published _ _ _ _ I1 G eq_refl) as IG.
  assert (told session_id (published o) By_silence segment text t) as A
    by (cbn; rewrite (gr_published _ _ _ G); apply elem_of_app; right; by apply list_elem_of_singleton).
  pose proof (start_owned By_silence segment text t g (set_outbox o s1) IG Te St ltac:(done) A) as IO.
  pose proof (start_aborted By_silence segment text t g (set_outbox o s1) IG Te St ltac:(done) A) as IA.
  destruct open; wp_go; [|exact (inv_uses _ _ _ _ IA)].
  apply wp_best_effort; [exact (gr_inv _ _ _ G)|done|]. intros [] o2 G2; cbn [negb]; unfold own_turn; wp_go.
  - exact (inv_quiet _ _ _ (inv_uses _ _ _ _ IO) G2).
  - exact (inv_uses _ _ _ _ (inv_quiet _ _ _ (inv_uses _ _ _ _ IA) G2)).
Qed.
End Handlers.
