(* ===== verification/VoiceTurns.v ===== *)
(** * Turns and interruptions of a voice session

    What the turn's own events do to the loop, and how a turn that is interrupted
    leaves its hands: the stream is drained up to the terminal event, or the turn
    is aborted. *)

From stdpp Require Import gmap.
From S2P Require Import Prelude RustStr Errors Pcm CaptureTiming Audio TurnFinalizer TranscriptCleanup ProtocolQuality Quality Privacy Context RecordingSafety TurnEvents ClientVoice VoiceOutbox VoiceState VoiceLoop VoiceDelivery VoiceInvariant VoiceSegments.

Local Open Scope Z_scope.

(** The turn is where it was. *)
Definition same_turn (s s' : VoiceLoop) : Prop := s'.(turn_events) = s.(turn_events) /\ s'.(loop_state) = s.(loop_state).

Section Turns.
Context `{U : UnicodeTables, SE : SessionEnv, L : !SessionEnvLaws} (session_id : SessionId) (response_mode : VoiceResponseMode).

Abbreviation inv := (loop_inv session_id response_mode).

Lemma timing_spec ph event Q s : inv ph s -> (forall s', inv ph s' -> same_turn s s' -> s'.(playback) = s.(playback) -> Q tt s') ->
  wp (publish_runtime_timing session_id event) Q s.
Proof using.
  intros I H. destruct event; cbn [publish_runtime_timing]; wp_go; try (by apply H).
  apply wp_best_effort; [by destruct I|done|]. intros open o G. wp_go. apply H; [|done..]. exact (inv_quiet _ _ _ _ _ (inv_uses _ _ _ _ I) G).
Qed.

(** What is not an acceptance leaves the playback alone. *)
Lemma publish_other_spec ph limited g event s : inv ph s -> is_accepted_playback event = false ->
  wp (publish_turn_event session_id limited g event) (fun _ s' => inv ph s' /\ same_turn s s') s.
Proof using.
  intros I A. assert (wp (if is_reliable_turn_event event then on_outbox (publish_reliable limited (VS_Turn session_id g event))
    else open <- best_effort (VS_Turn session_id g event) ;; ret (Some open)) (fun _ s' => inv ph s' /\ same_turn s s') s) as K.
  { destruct (is_reliable_turn_event event).
    - rewrite wp_on_outbox. apply publish_reliable_spec; [by destruct I|done|]. intros r o G _. split; [|done]. exact (inv_published _ _ _ _ _ _ I G eq_refl).
    - wp_go. apply wp_best_effort; [by destruct I|done|]. intros open o G. wp_go. split; [|done]. exact (inv_quiet _ _ _ _ _ I G). }
  destruct event as [| | | | | | |? ? []| | | | |]; try exact K; done.
Qed.

Definition after (r : option bool) : phase := match r with Some true => Going | _ => Leaving end.

Lemma publish_turn_event_spec g event s : inv Going s ->
  wp (publish_turn_event session_id false g event) (fun r s' => inv (after r) s' /\ same_turn s s') s.
Proof using.
  intros I. destruct (is_accepted_playback event) eqn:A.
  2: { eapply wp_mono; [by apply publish_other_spec|]. intros r s' [I' T]. split; [|done]. apply inv_weaken; [by destruct r as [[]|]|done]. }
  destruct event as [| | | | | | |turn g' []| | | | |]; try done. cbn [publish_turn_event]. case_bool_decide as Eg; cbn [negb]; wp_go; [subst g'|done].
  destruct (playback s) as [[active rendered| | |]|] eqn:P; wp_go; try done. case_bool_decide as Ea; cbn [negb]; wp_go; [subst active|done].
  pose proof (li_lifecycle _ _ _ _ I eq_refl) as Lc. rewrite P in Lc. destruct Lc as [R St].
  rewrite wp_on_outbox. apply publish_reliable_spec; [by destruct I|done|]. intros r o G _.
  destruct (inv_report _ _ _ _ _ _ I G St) as [J R']; [rewrite R; cbn; unfold truthful; auto|]. rewrite R in R'.
  destruct r as [[]|]; wp_go; [|done..]. assert (inv Going (set_playback (Some (Lifecycle_Accepted g)) (set_outbox o s))) as K by (by apply inv_lifecycle).
  destruct (is_some rendered); wp_go; [|done]. rewrite wp_on_outbox. apply publish_reliable_spec; [exact (gr_inv _ _ _ G)|done|]. intros r o2 G2 _.
  destruct (inv_report _ _ _ _ _ _ K G2 St) as [J2 R2]; [cbn; rewrite R'; unfold truthful; auto|].
  destruct r as [[]|]; wp_go; [|done..]. split; [|done]. by apply inv_lifecycle.
Qed.

(** ** The turn's own events *)

Definition phase_of (exit : option LoopExit) : phase := match exit with None => Going | Some _ => Leaving end.

Lemma inv_forget_partials ph s : inv ph s -> inv ph (set_outbox (set_partials s.(outbox) []) s).
Proof using.
  intros I. eapply inv_quiet; [done|]. split; [|by rewrite app_nil_r]. apply set_partials_inv; [by destruct I|constructor|done].
Qed.

Lemma handle_turn_event_spec event s : inv Going s -> s.(turn_events) = true ->
  wp (handle_turn_event session_id response_mode event) (fun exit s' => inv (phase_of exit) s') s.
Proof using L.
  intros I Te. pose proof (li_turn _ _ _ _ I ltac:(done)) as T. unfold turn_ok in T. rewrite Te in T. destruct T as (t & g & St & _).
  destruct event as [event|]; cbn [handle_turn_event]; wp_go.
  2: { cbn [loop_state set_turn_events]. rewrite St. wp_go. apply inv_weaken; [done|].
    exact (inv_released _ _ Going (Act_over t g) t g s (or_introl eq_refl) ltac:(done) I Te St). }
  rewrite St. wp_go. apply (timing_spec Going); [done|]. intros s1 I1 [T1 L1] _. wp_go. eapply wp_mono; [by apply publish_turn_event_spec|].
  intros r s2 [I2 [T2 L2]]. cbv beta. destruct r as [[]|]; cbn [from_option id negb]; wp_go; try done. cbn [after] in I2.
  destruct (is_terminal event); wp_go; [|done]. rewrite wp_on_outbox. wp_go.
  assert (inv Going (set_playback None (set_loop_state Listening (set_outbox (set_partials s2.(outbox) [])
    (set_turn_events false (set_actions (s2.(actions) ++ [Act_over t g]) s2)))))) as J.
  { apply inv_no_playback; [done|]. apply inv_weaken; [done|]. apply inv_state; [done..|]. refine (inv_forget_partials Going (set_turn_events false (set_actions (s2.(actions) ++ [Act_over t g]) s2)) _).
    apply (inv_released _ _ Going _ t g); [by left|done|done|congruence|congruence]. }
  eapply (wp_mono _ (fun _ s3 => inv Going s3 /\ loop_state s3 = Listening /\ turn_events s3 = false)).
  { destruct event; try exact (conj J (conj eq_refl eq_refl)). apply wp_publish; [by destruct J|done|]. intros open o G.
    split; [|done]. exact (inv_published _ _ _ _ _ _ J G eq_refl). }
  intros open s3 (I3 & L3 & T3). destruct open; cbn [negb]; wp_go; [|by apply inv_weaken]. destruct (finalization_due s3); wp_go; [|done].
  eapply wp_mono; [by apply start_ready_turn_spec|]. intros [] s4 I4; wp_go; [done|]. by apply inv_weaken.
Qed.

(** ** Interruption *)

Lemma inv_gone ph a t g s : (a = Act_over t g \/ a = Act_abort t g) -> ph <> Over -> inv ph s -> s.(turn_events) = true ->
  s.(loop_state) = Responding t g -> forall v, inv ph (set_loop_state v (set_turn_events false (set_actions (s.(actions) ++ [a]) s))).
Proof using. intros. apply inv_state; [done..|]. by apply (inv_released _ _ _ _ t g). Qed.

Definition drained (ph : phase) (t : TurnId) (g : GenerationId) (r : option (rresult unit)) (s : VoiceLoop) : Prop :=
  inv ph s /\ s.(loop_state) = Responding t g /\ s.(turn_events) = is_none r.

Lemma drain_loop_spec ph ended t g events : ph <> Over -> forall open s, inv ph s -> s.(turn_events) = true -> s.(loop_state) = Responding t g ->
  wp (drain_loop session_id events ended t g open) (drained ph t g) s.
Proof using.
  intros N. induction events as [|event rest IH]; intros open s I Te St; cbn [drain_loop].
  { destruct ended; wp_go; [|done]. split; [|done]. exact (inv_released _ _ _ (Act_over t g) t g _ (or_introl eq_refl) N I Te St). }
  wp_go. eapply (wp_mono _ (fun _ s1 => inv ph s1 /\ same_turn s s1)).
  { destruct (is_terminal event); [|done]. rewrite wp_on_outbox. wp_go. split; [by apply inv_forget_partials|done]. }
  intros _ s1 [I1 [T1 L1]]. wp_go. apply (timing_spec ph); [done|]. intros s2 I2 [T2 L2] _. wp_go.
  eapply (wp_mono _ (fun _ s3 => inv ph s3 /\ same_turn s2 s3)).
  { destruct (is_accepted_playback event) eqn:A; [done|]. by apply publish_other_spec. }
  intros r s3 [I3 [T3 L3]]. destruct r as [o|]; wp_go; [|split; [done|cbn; split; congruence]].
  destruct (is_terminal event); wp_go; [|apply IH; [done|congruence..]]. split; [|split; [cbn; congruence|done]].
  apply (inv_released _ _ ph (Act_over t g) t g); [by left|done|done|congruence..].
Qed.

Lemma drain_spec ph t g s : ph <> Over -> inv ph s -> s.(loop_state) = Responding t g ->
  wp (drain_interrupted_turn session_id t g) (drained ph t g) s.
Proof using.
  intros N I St. unfold drain_interrupted_turn. wp_go. destruct (turn_events s) eqn:Te; cbn [negb]; wp_go; [|done].
  apply drain_loop_spec; [done|by apply inv_uses|done..].
Qed.

(** A turn whose drain took too long is aborted. *)
Lemma abort_spec ph t g v Q s : ph <> Over -> inv ph s -> s.(turn_events) = true -> s.(loop_state) = Responding t g ->
  (forall r s', inv ph s' -> s'.(turn_events) = false -> s'.(loop_state) = v -> Q r s') -> wp (abort_interrupted_turn t g) Q (set_loop_state v s).
Proof using.
  intros N I Te St H. unfold abort_interrupted_turn. wp_go. cbn [turn_events set_loop_state]. rewrite Te. cbn [negb]. wp_go. apply H; [|done..].
  exact (inv_gone ph (Act_abort t g) t g (set_env_uses (S s.(env_uses)) s) (or_intror eq_refl) N (inv_uses _ _ _ _ I) Te St v).
Qed.

Lemma interrupt_spec ph s : ph <> Over -> inv ph s ->
  wp (interrupt_current_turn session_id) (fun _ s' => inv ph s' /\ (s'.(turn_events) = true -> s'.(loop_state) = s.(loop_state))) s.
Proof using.
  intros N I. unfold interrupt_current_turn. wp_go. destruct (loop_state s) as [|t g|] eqn:St; wp_go; [done| |done].
  set (s1 := set_env_uses _ _). assert (inv ph s1) as I1.
  { apply (inv_uses _ _ ph (set_playback None s)). apply inv_no_playback; [done|]. destruct ph; [|done..]. by apply inv_weaken. }
  assert (loop_state s1 = Responding t g) as St1 by exact St. clearbody s1. assert (forall s', set_loop_state s'.(loop_state) s' = s') as Eta by (by intros []).
  destruct (match se_interrupt _ t g with Some (Ok _) => None | Some (Err error) => Some error | None => _ end) as [error|]; wp_go.
  - eapply wp_mono; [by apply (drain_spec ph)|]. intros r s2 (I2 & St2 & Te2). wp_go. destruct r as [[u|e]|]; wp_go;
      [split; [by apply inv_state|by cbn; rewrite Te2]..|]. apply (abort_spec ph); [done..|]. intros a s3 I3 Te3 St3. wp_go. split; [done|congruence].
  - apply wp_best_effort; [by destruct I1|done|]. intros open o G. pose proof (inv_quiet _ _ _ _ _ (inv_uses _ _ _ _ I1) G) as J. destruct open; cbn [negb]; wp_go; [|done].
    eapply wp_mono; [by apply (drain_spec ph)|]. intros r s2 (I2 & St2 & Te2). wp_go. destruct r as [r|]; wp_go; [split; [by apply inv_state|by cbn; rewrite Te2]|].
    rewrite <- (Eta s2). apply (abort_spec ph); [done..|]. intros a s3 I3 Te3 St3. wp_go. split; [by apply inv_state|cbn; congruence].
Qed.

Lemma interrupt_or_stop_spec s : inv Going s -> wp (interrupt_or_stop_speaking session_id) (fun exit s' => inv (phase_of exit) s') s.
Proof using.
  intros I. unfold interrupt_or_stop_speaking. wp_go. destruct (loop_state s) as [|t g|] eqn:St; wp_go; [done| |done].
  eapply wp_mono; [by apply (interrupt_spec Going)|]. intros [u|error] s1 [I1 L1]; wp_go; [done|]. rewrite St in L1.
  eapply (wp_mono _ (fun _ s2 => inv Going s2 /\ s2.(turn_events) = false)).
  { destruct (turn_events s1) eqn:Te; wp_go; [|done]. assert (set_loop_state (loop_state s1) s1 = s1) as Eta by (by destruct s1). rewrite <- Eta.
    apply (abort_spec Going); [done..|by apply L1|]. intros a s2 I2 T2 _. wp_go. done. }
  intros _ s2 [I2 T2]. wp_go. rewrite wp_on_outbox. assert (inv Going (set_playback None (set_loop_state Listening s2))) as J
    by (apply inv_no_playback; [done|]; apply inv_weaken; [done|]; by apply inv_state).
  apply is_closed_spec; [by destruct I2|]. intros gone o G. wp_go. pose proof (inv_quiet _ _ _ _ _ J G) as J'. destruct gone; wp_go; [by apply inv_weaken|].
  apply wp_publish; [by destruct J'|done|]. intros open o' G'. wp_go. pose proof (inv_published _ _ _ _ _ _ J' G' eq_refl) as J2. destruct open; [done|by apply inv_weaken].
Qed.

Lemma barge_in_spec t g s : inv Going s -> wp (handle_barge_in session_id t g) (fun exit s' => inv (phase_of exit) s') s.
Proof using.
  intros I. unfold handle_barge_in. wp_go. destruct (negb _); wp_go; [done|]. apply wp_publish; [by destruct I|done|]. intros open o G.
  pose proof (inv_published _ _ _ _ _ _ I G eq_refl) as J. destruct open; cbn [negb]; wp_go; [by apply interrupt_or_stop_spec|by apply inv_weaken].
Qed.

Lemma cleanup_active_spec ph s : ph <> Over -> inv ph s -> wp (cleanup_active_turn session_id) (fun _ s' => inv ph s') s.
Proof using.
  intros N I. unfold cleanup_active_turn. wp_go. destruct (loop_state s); wp_go; [done| |done]. eapply wp_mono; [by apply (interrupt_spec ph)|]. by intros _ s' [].
Qed.
End Turns.
