(* ===== verification/VoiceSafety.v ===== *)
(** * The voice loop keeps its invariant

    Capture control, input, commands and delivery, the iterations of the loop and
    of the loop that only records, and the end of the session: each returns
    without panicking, and keeps the invariant. *)

From stdpp Require Import gmap.
From S2P Require Import Prelude RustStr Errors Pcm CaptureTiming Audio TurnFinalizer TranscriptCleanup ProtocolQuality Quality Privacy Context RecordingSafety TurnEvents ClientVoice VoiceOutbox VoiceState VoiceLoop VoiceDelivery VoiceInvariant VoiceSegments VoiceTurns.

Local Open Scope Z_scope.

Section Loop.
Context `{U : UnicodeTables, SE : SessionEnv, L : !SessionEnvLaws} (session_id : SessionId) (response_mode : VoiceResponseMode).
Context (final_silence_ms : Z) (silence : final_silence_ms <> 0).

Abbreviation inv := (loop_inv session_id response_mode).

Definition weaker (ph : phase) (exit : option LoopExit) : phase := match ph with Going => phase_of exit | ph => ph end.

Lemma inv_weaker ph exit s : inv ph s -> inv (weaker ph exit) s.
Proof using. intros I. destruct ph; [|done..]. destruct exit; [by apply inv_weaken|done]. Qed.
Hint Resolve inv_weaker : voice.

Lemma leave_unless ph (open : bool) s : inv ph s -> inv (weaker ph (if open then None else Some Exit_ConsumerDropped)) s.
Proof using. apply inv_weaker. Qed.

(** ** Capture control *)

Lemma inv_capture ph operation state s : capture_ok operation state -> inv ph s ->
  inv ph (set_capture_operation operation (set_capture_state state s)).
Proof using. intros C []. by split. Qed.

Lemma start_capture_spec ph kind completion s : inv ph s -> wp (start_capture_operation kind completion) (fun _ s' => inv ph s') s.
Proof using.
  intros I. unfold start_capture_operation. wp_go. destruct (_ || _); wp_go; [by apply inv_replies|]. unfold sync_recorder_capture_activity. wp_go.
  refine (inv_recorder _ _ _ _ _ (inv_capture ph (Some _) _ s _ I)). by destruct kind.
Qed.

Lemma capture_completion_spec ph outcome s : inv ph s -> is_some s.(capture_operation) = true ->
  wp (handle_capture_completion session_id outcome) (fun exit s' => inv (weaker ph exit) s') s.
Proof using.
  intros I C. unfold handle_capture_completion. wp_go. destruct (capture_operation s) as [[kind completion]|] eqn:E; [|done].
  eapply wp_run_exec; [done|]. wp_go. cbn [operation_kind operation_completion].
  assert (forall state r, state = Capture_Active \/ state = Paused -> inv ph (set_capture_recorder r (set_capture_operation None (set_capture_state state s)))) as K
    by (intros state r O; apply inv_recorder; by apply inv_capture).
  destruct outcome as [[u|e]|e]; unfold restore_capture_state, sync_recorder_capture_activity; wp_go;
    [|refine (inv_replies _ _ _ _ _ (inv_weaker _ None _ (K _ _ _))); destruct kind; auto..].
  apply wp_publish; [by destruct I|by destruct kind|]. intros open o G. assert (inv ph (set_outbox o (set_capture_recorder _ (set_capture_operation None
    (set_capture_state (match kind with Op_Pause => Paused | Op_Resume => Capture_Active end) s))))) as J
    by (eapply inv_published; [apply K; destruct kind; auto|exact G|by destruct kind]).
  destruct open; cbn [negb]; wp_go; refine (inv_replies _ _ _ _ _ (inv_weaker _ _ _ J)).
Qed.

Lemma cleanup_capture_spec ph s : inv ph s -> wp cleanup_capture_operation (fun _ s' => inv ph s') s.
Proof using.
  intros I. unfold cleanup_capture_operation. wp_go. destruct (capture_operation s) as [[kind completion]|]; wp_go; [|done].
  unfold restore_capture_state, sync_recorder_capture_activity. wp_go. cbn [operation_kind operation_completion].
  refine (inv_replies _ _ _ _ _ (inv_recorder _ _ _ _ _ (inv_uses _ _ _ _ (inv_capture ph None (match kind with Op_Pause => Capture_Active | Op_Resume => Paused end) s _ I)))).
  destruct kind; cbn; auto.
Qed.

(** ** Playback *)

Lemma rendered_spec receipt s : inv Going s -> wp (handle_rendered_playback session_id receipt) (fun exit s' => inv (phase_of exit) s') s.
Proof using.
  intros I. unfold handle_rendered_playback. wp_go. destruct (playback s) as [[g rendered|g|g|g]|] eqn:P; wp_go; try done;
    pose proof (li_lifecycle _ _ _ _ I eq_refl) as Lc; rewrite P in Lc; (case_bool_decide as E; wp_go; [subst g|done]).
  - apply inv_lifecycle; [by apply inv_weaken|done].
  - destruct Lc as [R St]. apply wp_publish; [by destruct I|done|]. intros open o G.
    destruct (inv_report _ _ _ _ _ _ I G St) as [J _]; [rewrite R; cbn; unfold truthful; auto|]. destruct open; cbn [negb]; wp_go; [|done]. by apply inv_lifecycle.
Qed.

Lemma flushed_spec receipt s : inv Going s -> wp (handle_flushed_playback session_id receipt) (fun exit s' => inv (phase_of exit) s') s.
Proof using.
  intros I. unfold handle_flushed_playback. wp_go. assert (forall g, starts g s.(actions) -> truthful (reports g s.(outbox).(published) ++ [Playback_Flushed]) -> wp
    (open <- publish (VS_Playback session_id g Playback_Flushed) ;;
     if negb open then ret (Some Exit_ConsumerDropped) else modify (set_playback (Some (Lifecycle_Flushed g))) ;;; ret None)
    (fun exit s' => inv (phase_of exit) s') s) as K.
  { intros g St T. wp_go. apply wp_publish; [by destruct I|done|]. intros open o G. destruct (inv_report _ _ _ _ _ _ I G St T) as [J _].
    destruct open; cbn [negb]; wp_go; [|done]. by apply inv_lifecycle. }
  destruct (playback s) as [[g rendered|g|g|g]|] eqn:P; wp_go; try done; pose proof (li_lifecycle _ _ _ _ I eq_refl) as Lc; rewrite P in Lc; destruct Lc as [R St];
    (case_bool_decide as E; [subst g|by wp_go]); (apply K; [done|rewrite R; cbn; unfold truthful; auto]).
Qed.

(** ** Input *)

Lemma observe_audio_spec s : inv Going s -> wp (observe_audio session_id) (fun exit s' => inv (phase_of exit) s') s.
Proof using.
  intros I. unfold observe_audio. wp_go. destruct (first_audio_received s); wp_go; [done|]. apply wp_best_effort; [by destruct I|done|]. intros open o G. wp_go.
  exact (leave_unless Going open _ (inv_quiet _ _ _ _ _ (inv_uses _ _ _ _ (inv_first_audio _ _ _ true _ I)) G)).
Qed.

Lemma activity_spec activity s : inv Going s -> wp (handle_activity session_id final_silence_ms activity) (fun exit s' => inv (phase_of exit) s') s.
Proof using.
  intros I. unfold handle_activity. wp_go. apply wp_best_effort; [by destruct I|done|]. intros open o G. match goal with |- wp _ _ (set_outbox o ?x) => set (s1 := x) in * end.
  assert (inv Going (set_outbox o s1)) as J by (apply inv_quiet; [by apply inv_finalizer, inv_uses|exact G]). destruct open; cbn [negb]; wp_go; [|by apply inv_weaken].
  set (s2 := set_outbox o s1) in *. clearbody s2. destruct activity; wp_go.
  1,2: cbn [loop_state set_deadline set_finalization_due]; destruct (loop_state s2); wp_go; [by apply inv_due, inv_deadline|apply barge_in_spec; by apply inv_due, inv_deadline|by apply inv_due, inv_deadline].
  - apply wp_best_effort; [by destruct J|done|]. intros open o2 G2. wp_go.
    exact (leave_unless Going open _ (inv_quiet _ _ _ _ _ (inv_uses _ _ _ _ (inv_deadline _ _ _ (Some final_silence_ms) _ J)) G2)).
  - done.
Qed.

Lemma hypothesis_spec h s : inv Going s -> wp (handle_hypothesis session_id h) (fun exit s' => inv (phase_of exit) s') s.
Proof using.
  intros I. unfold handle_hypothesis. wp_go. unfold observe_hypothesis_now, wp at 1. destruct (observe_hypothesis _ _ _) as [taken f].
  destruct taken; cbn [negb]; wp_go; [|by apply inv_finalizer, inv_uses]. match goal with |- wp _ _ ?x => set (s1 := x) end.
  assert (inv Going s1) as J by (by apply inv_active_segment, inv_finalizer, inv_uses). clearbody s1.
  eapply (wp_mono _ (fun _ s2 => inv Going s2)).
  { destruct (hyp_engine_final h); [done|]. rewrite wp_on_outbox. apply publish_partial_spec; [by destruct J|]. intros open o G. by apply inv_quiet. }
  intros open s2 J2. destruct open; cbn [negb]; wp_go; [|by apply inv_weaken]. destruct (_ && _); wp_go; [|done].
  destruct (remaining_silence_ms _ _); wp_go; [by apply inv_deadline|done].
Qed.

Lemma forget_spec f Q s : inv Going s -> (forall s', inv Going s' -> Q tt s') -> wp (forget_utterance f) Q s.
Proof using. intros I H. unfold forget_utterance. wp_go. apply H. by apply inv_finalizer, inv_active_segment, inv_due, inv_deadline. Qed.

Lemma handle_input_spec input s : inv Going s -> wp (handle_input session_id final_silence_ms response_mode input) (fun exit s' => inv (phase_of exit) s') s.
Proof using L silence.
  intros I. destruct input as [[[i o|activity|[frame|at_ms]|metadata|boundary completion|[h|u| |]|receipt]|error]|]; cbn [handle_input]; unfold fatal_sidecar; wp_go;
    try (by apply inv_weaken).
  - apply wp_publish; [by destruct I|done|]. intros open o' G. wp_go. exact (leave_unless Going open _ (inv_published _ _ _ _ _ _ I G eq_refl)).
  - by apply activity_spec.
  - by apply observe_audio_spec.
  - apply forget_spec; [done|]. intros s' I'. by wp_go.
  - by apply inv_replies.
  - by apply hypothesis_spec.
  - eapply wp_mono; [by apply admit_spec|]. intros [] s' I'; wp_go; [done|by apply inv_weaken].
  - destruct (receipt_state receipt); wp_go; [by apply inv_weaken|by apply rendered_spec|by apply flushed_spec].
  - destruct (is_recognition_failure error); wp_go; [|by apply inv_weaken]. eapply wp_mono; [by apply interrupt_or_stop_spec|].
    intros [exit|] s1 I1; wp_go; [done|]. eapply wp_run_exec; [unfold TurnFinalizer.new; by rewrite (proj2 (Z.eqb_neq _ _) silence)|]. wp_go.
    apply forget_spec; [done|]. intros s2 I2. wp_go. apply wp_publish; [by destruct I2|done|]. intros open o G. wp_go.
    exact (leave_unless Going open _ (inv_published _ _ _ _ _ _ I2 G eq_refl)).
Qed.

Lemma deadline_spec s : inv Going s -> wp (handle_deadline session_id response_mode) (fun exit s' => inv (phase_of exit) s') s.
Proof using L.
  intros I. unfold handle_deadline. wp_go. cbn [loop_state set_deadline]. destruct (loop_state s) eqn:St; wp_go; [|by apply inv_due, inv_deadline|by apply inv_deadline].
  eapply wp_mono.
  - apply start_ready_turn_spec; [by apply inv_deadline|done|]. cbn. destruct (turn_events s) eqn:Te; [|done].
    pose proof (li_turn _ _ _ _ I ltac:(done)) as T. rewrite Te in T. destruct T as (t & g & T & _). congruence.
  - intros [] s' I'; wp_go; [done|by apply inv_weaken].
Qed.

Lemma notice_spec ph notice s : inv ph s -> wp (report_recorder_notice session_id notice) (fun exit s' => inv (weaker ph exit) s') s.
Proof using.
  intros I. unfold report_recorder_notice. wp_go. apply wp_publish; [by destruct I|by destruct notice|]. intros open o G. wp_go. apply leave_unless.
  eapply inv_published; [done|exact G|]. by destruct notice.
Qed.

Lemma delivery_spec ph s : inv ph s -> wp (handle_delivery session_id) (fun exit s' => inv (weaker ph exit) s') s.
Proof using.
  intros I. unfold handle_delivery. wp_go. destruct (pending_delivery _) as [d|] eqn:D; wp_go; [|by apply inv_weaker]. rewrite wp_on_outbox.
  apply deliver_spec; [by destruct I|done| |]; intros o G; wp_go; [|rewrite wp_on_outbox; wp_go]; apply inv_weaker; [by apply inv_quiet|exact (inv_quiet _ _ _ _ _ I G)].
Qed.

(** ** Commands *)

Lemma command_spec command s : inv Going s -> wp (handle_command session_id response_mode command) (fun exit s' => inv (phase_of exit) s') s.
Proof using L.
  intros I. destruct command as [[t g c|c|c|session segment exchanges c|session segment reason c|c]|]; cbn [handle_command]; wp_go; try (by apply inv_weaken).
  - eapply wp_mono; [by apply barge_in_spec|]. intros exit s' I'. wp_go. by apply inv_replies.
  - eapply wp_mono; [by apply (start_capture_spec Going)|]. intros u s' I'. by wp_go.
  - eapply wp_mono; [by apply (start_capture_spec Going)|]. intros u s' I'. by wp_go.
  - eapply wp_mono; [by apply authorize_segment_spec|]. intros r s' I'. wp_go. by apply inv_replies.
  - eapply wp_mono; [by apply skip_segment_spec|]. intros r s' I'. wp_go. by apply inv_replies.
Qed.

(** ** The loop *)

Lemma handle_signal_spec signal s : inv Going s -> polled s signal = true ->
  wp (handle_signal session_id final_silence_ms response_mode signal) (fun exit s' => inv (phase_of exit) s') s.
Proof using L silence.
  intros I P. destruct signal; cbn [handle_signal polled] in *; wp_go.
  - eapply wp_mono; [by apply start_queued_spec|]. intros [] s' I'; wp_go; [done|by apply inv_weaken].
  - by apply (notice_spec Going).
  - by apply inv_weaken.
  - by apply command_spec.
  - by apply (capture_completion_spec Going).
  - by apply inv_completion, inv_weaken.
  - by apply handle_input_spec.
  - apply handle_turn_event_spec; [done|]. by apply andb_true_iff in P as [_ P].
  - by apply deadline_spec.
  - by apply (delivery_spec Going).
Qed.

Lemma flush_spec ph Q s : inv ph s -> (forall open s', inv ph s' -> Q open s') -> wp (on_outbox (flush_pending_events session_id)) Q s.
Proof using. intros I H. rewrite wp_on_outbox. apply flush_pending_events_spec; [by destruct I|]. intros open o G. by apply H, inv_quiet. Qed.

Lemma iteration_spec signal s : inv Going s -> wp (iteration session_id final_silence_ms response_mode signal) (fun exit s' => inv (phase_of exit) s') s.
Proof using L silence.
  intros I. unfold iteration. wp_go. apply (flush_spec Going); [done|]. intros open s1 I1. destruct open; cbn [negb]; wp_go; [|by apply inv_weaken].
  destruct (polled s1 signal) eqn:P; wp_go; [|done]. by apply handle_signal_spec.
Qed.

Lemma run_until_exit_spec signals : forall s, inv Going s ->
  wp (run_until_exit session_id final_silence_ms response_mode signals) (fun exit s' => inv (phase_of (fst <$> exit)) s') s.
Proof using L silence.
  induction signals as [|signal rest IH]; intros s I; cbn [run_until_exit]; wp_go; [done|]. eapply wp_mono; [by apply iteration_spec|].
  intros [exit|] s1 I1; wp_go; [done|]. by apply IH.
Qed.

(** ** The loop that only records *)

Lemma recording_signal_spec error signal s : inv Over s -> wp (recording_signal session_id response_mode error signal) (fun _ s' => inv Over s') s.
Proof using.
  intros I. destruct signal as [|notice| |[[t g c|c|c|session segment exchanges c|session segment reason c|c]|]|outcome|outcome|[input|]|event| |];
    cbn [recording_signal handle_command]; wp_go; try done; try (by apply inv_replies).
  - destruct (is_some _); wp_go; [by apply (notice_spec Over)|done].
  - eapply wp_mono; [by apply (start_capture_spec Over)|]. intros u s' I'. by wp_go.
  - eapply wp_mono; [by apply (start_capture_spec Over)|]. intros u s' I'. by wp_go.
  - destruct (is_some _) eqn:C; wp_go; [by apply (capture_completion_spec Over)|done].
  - destruct (io_completion s); wp_go; [by apply inv_completion|done].
  - by apply (delivery_spec Over).
Qed.

Lemma record_loop_spec error signals : forall s, inv Over s -> wp (record_loop session_id response_mode error signals) (fun _ s' => inv Over s') s.
Proof using.
  induction signals as [|signal rest IH]; intros s I; cbn [record_loop]; wp_go; [done|]. apply (flush_spec Over); [done|]. intros open s1 I1.
  destruct open; cbn [negb]; wp_go; [|done]. eapply wp_mono; [by apply recording_signal_spec|]. intros [exit|] s2 I2; wp_go; [done|]. by apply IH.
Qed.

(** The turn is let go. *)
Lemma inv_record ph s : inv ph s -> inv Over (set_loop_state Listening (set_turn_events false (set_automatic_responses [] s))).
Proof using. intros I. apply (inv_queue _ _ _ []) in I as [I1 I0 I2 Io I3 I4 I5 I6]; [|constructor|done|done]. by split. Qed.

Lemma record_until_stopped_spec error signals s : inv Leaving s ->
  wp (record_until_stopped session_id response_mode error signals) (fun _ s' => inv Over s') s.
Proof using.
  intros I. unfold record_until_stopped. wp_go. eapply wp_mono; [by apply (cleanup_active_spec session_id response_mode Leaving)|]. intros u s1 I1. wp_go.
  pose proof (inv_record _ _ I1) as J. apply wp_publish; [by destruct I1|done|]. intros open o G. pose proof (inv_published _ _ _ _ _ _ J G eq_refl) as K.
  destruct open; cbn [negb]; wp_go; [by apply record_loop_spec|done].
Qed.

(** ** The end of the session *)

Definition ends_session (e : VoiceSessionEvent) : Prop := e = VS_SessionEnded session_id \/ exists error, e = VS_SessionFailed session_id error NewSession.

Lemma finish_spec ph exit deferred s : inv ph s -> wp (finish session_id exit deferred) (fun e s' => inv Over s' /\ ends_session e) s.
Proof using.
  intros I. unfold finish. wp_go. eapply wp_mono; [by apply (cleanup_capture_spec ph)|]. intros capture s1 I1. wp_go.
  eapply (wp_mono _ (fun _ s2 => inv ph s2)).
  { destruct ph; [by apply (cleanup_active_spec session_id response_mode Going)|by apply (cleanup_active_spec session_id response_mode Leaving)|]. unfold cleanup_active_turn. wp_go.
    pose proof (li_over _ _ _ _ I1 eq_refl) as O. destruct (loop_state s1) as [|t g|]; wp_go; [done| |done]. by destruct (O t g). }
  intros turn s2 I2. wp_go. set (s3 := set_io_completion false _). assert (inv Over s3) as J.
  { apply inv_completion, inv_recorder. destruct I2 as [J1 J0 J2 Jo J3 J4 J5 J6]. by split. }
  clearbody s3. eapply (wp_mono _ (fun _ s4 => inv Over s4)); [destruct (io_completion _); wp_go; [by apply inv_uses|done]|].
  intros completed s4 I4. wp_go. assert (forall o : option RuntimeError, ends_session (match o with Some e => session_failure session_id e | None => VS_SessionEnded session_id end)) as E
    by (intros [e|]; [right; by exists e|by left]).
  destruct exit as [[c|]| |error]; wp_go; (split; [done || by apply inv_replies|]); try apply E. right. by eexists.
Qed.

(** The session goes on, or it ended. *)
Definition session_ok (e : option VoiceSessionEvent) (s : VoiceLoop) : Prop :=
  match e with Some e => inv Over s /\ ends_session e | None => exists ph, inv ph s end.

Lemma run_spec signals s : inv Going s -> wp (run session_id final_silence_ms response_mode signals) session_ok s.
Proof using L silence.
  intros I. unfold run. wp_go. eapply wp_mono; [by apply run_until_exit_spec|]. intros [[exit rest]|] s1 I1; wp_go; [|by exists Going].
  assert (forall ph exit deferred s2, inv ph s2 -> wp (e <- finish session_id exit deferred ;; ret (Some e)) session_ok s2) as F.
  { intros ph exit' deferred s2 I2. wp_go. eapply wp_mono; [by eapply finish_spec|]. intros e s3 I3. by wp_go. }
  destruct exit as [c| |error]; [by eapply F..|]. unfold records_after_failure. wp_go.
  assert (inv Leaving (set_env_uses (S (S s1.(env_uses))) s1)) as I2 by exact (inv_uses _ _ _ _ (inv_uses _ _ _ _ I1)).
  destruct (_ && _ && _); [|by eapply F]. wp_go. eapply wp_mono; [by apply record_until_stopped_spec|].
  intros [exit|] s2 I3; [by eapply F|]. wp_go. by exists Over.
Qed.
End Loop.
