(* ===== verification/VoiceClaims.v ===== *)
(** * What a voice session guarantees

    Over every sequence of signals, every consumer and every answer of what runs
    beside the loop: the session ends by an event that says so, reliable events
    arrive in order, one response runs at a time and only to words the client
    was told, and playback is reported as it went. *)

From stdpp Require Import gmap.
From S2P Require Import Prelude RustStr Errors Pcm CaptureTiming Audio TurnFinalizer TranscriptCleanup ProtocolQuality Quality Privacy Context RecordingSafety TurnEvents ClientVoice VoiceOutbox VoiceState VoiceLoop VoiceSession VoiceDelivery VoiceInvariant VoiceSegments VoiceTurns VoiceSafety.

Local Open Scope Z_scope.

(** ** Turns are started by the conversation's context *)

(** The context's lifecycle at each use of the environment: other owners of the
    context run between two uses. *)
Fixpoint lifecycle_at (ops : nat -> list lifecycle_op) (n : nat) : ConversationLifecycle :=
  snd (lifecycle_run (match n with O => lifecycle_default | S m => lifecycle_at ops m end) (ops n)).

(** A start that succeeds has reserved the turn. *)
Definition starts_from_context `{SE : SessionEnv} (ops : nat -> list lifecycle_op) : Prop :=
  forall n text t g, se_start n text = Ok (t, g) -> exists source rest,
    ops (S n) = Reserve source :: rest /\
    fst (reserve_turn (lifecycle_at ops n) source) = Ok {| identity_turn_id := t; identity_generation_id := g |}.

Lemma lifecycle_at_inv ops n : lifecycle_inv (lifecycle_at ops n).
Proof.
  induction n as [|n IH]; cbn [lifecycle_at].
  - pose proof (lifecycle_run_issued (ops O) _ lifecycle_default_inv) as H. destruct (lifecycle_run _ _). by destruct H.
  - pose proof (lifecycle_run_issued (ops (S n)) _ IH) as H. destruct (lifecycle_run _ _). by destruct H.
Qed.

Lemma lifecycle_at_grows ops n m : (n <= m)%nat -> sequence (lifecycle_at ops n) <= sequence (lifecycle_at ops m).
Proof.
  induction 1 as [|m L IH]; [done|]. etransitivity; [exact IH|]. cbn [lifecycle_at].
  pose proof (lifecycle_run_issued (ops (S m)) _ (lifecycle_at_inv ops m)) as H. destruct (lifecycle_run _ _). by destruct H as (_ & _ & H).
Qed.

Lemma start_advances `{SE : SessionEnv} ops n text t g : starts_from_context ops -> se_start n text = Ok (t, g) ->
  GenerationId_get g = sequence (lifecycle_at ops n) + 1 /\ sequence (lifecycle_at ops n) + 1 <= sequence (lifecycle_at ops (S n)).
Proof.
  intros C E. destruct (C _ _ _ _ E) as (source & rest & O & R). cbn [lifecycle_at]. rewrite O. cbn [lifecycle_run].
  pose proof (lifecycle_step_spec (lifecycle_at ops n) (Reserve source)) as H. cbn [lifecycle_step] in *.
  destruct (reserve_turn _ source) as [[i|e] l1]; cbn in R; [|done]. simplify_eq. destruct (H _ _ (lifecycle_at_inv ops n) eq_refl) as (I1 & _ & Ei & Es & _).
  pose proof (lifecycle_run_issued rest _ I1) as K. destruct (lifecycle_run l1 rest) as [outs l2]. destruct K as (_ & _ & K). cbn. unfold nth_identity in Ei. simplify_eq.
  split; [done|lia].
Qed.

Lemma context_generations_fresh `{SE : SessionEnv} ops : starts_from_context ops -> SessionEnvLaws.
Proof.
  intros C n n' text text' t t' g E E'. destruct (start_advances ops _ _ _ _ C E) as [G A], (start_advances ops _ _ _ _ C E') as [G' A'].
  destruct (lt_eq_lt_dec n n') as [[Lt|]|Lt]; [|done|]; apply (lifecycle_at_grows ops) in Lt; lia.
Qed.

(** ** Sessions *)

Definition outbox_of (r : SessionRun) : Outbox := match r with Not_started o _ _ => o | Ran s _ => s.(outbox) end.
Definition terminal_of (r : SessionRun) : option VoiceSessionEvent := match r with Not_started _ _ e => Some e | Ran _ e => e end.
(** What the client finds in the channel. *)
Definition events_of (r : SessionRun) : list VoiceSessionEvent := map snd (outbox_of r).(sent).

(** The client or the runtime stops the session. *)
Definition stops (signal : LoopSignal) : bool :=
  match signal with Signal_ConsumerDropped | Signal_Command None | Signal_Command (Some (Command_Shutdown _)) => true | _ => false end.

Lemma policy_silence id mode speech silence components policy : VoiceSessionPolicy_new id mode speech silence components = Ok policy ->
  policy.(policy_session_id) = id /\ policy.(policy_final_silence_ms) <> 0.
Proof. unfold VoiceSessionPolicy_new. intros H. split_ifs_in H; simplify_eq; cbn. breflect. split; [done|lia]. Qed.

(** The stream of a session that is over gives its events, the terminal one, and
    nothing more. *)
Lemma recv_many_stream events terminal n :
  recv_many (length events + 1 + n) (stream_of events terminal) = map Some events ++ [Some terminal] ++ replicate n None.
Proof.
  induction events as [|e events IH]; [|change (Some e :: recv_many (length events + 1 + n) (stream_of events terminal) =
    Some e :: (map Some events ++ [Some terminal] ++ replicate n None)); by rewrite IH].
  cbn. f_equal. cut (forall k, recv_many k
    {| stream_events := []; stream_terminal := None; prefetched := None; events_closed := true |} = replicate k None); [done|].
  intros k. induction k as [|k IHk]; cbn; by rewrite ?IHk.
Qed.

Definition reports_nothing (l : list VoiceSessionEvent) : Prop := forall g, reports g l = [].

Section Session.
Context `{U : UnicodeTables, SE : SessionEnv, L : !SessionEnvLaws} (policy : VoiceSessionPolicy) (response_mode : VoiceResponseMode).
Context (silence : policy.(policy_final_silence_ms) <> 0).

Abbreviation id := (policy_session_id policy).
Abbreviation inv := (loop_inv id response_mode).

Lemma started_outbox privacy Q : (forall open o, outbox_inv o -> published o = [VS_SessionStarted id privacy] -> Q open o) ->
  wp (modify (publishing (VS_SessionStarted id privacy)) ;;; send_wait false (VS_SessionStarted id privacy)) Q outbox_new.
Proof using.
  intros H. unfold send_wait. wp_steps. unfold interfere. destruct (ve_consumer _) as [taken gone]. destruct gone; cbn; wp_steps; apply H; try done.
  all: split; cbn; unfold SESSION_EVENT_BUFFER_SIZE; try done; try lia; try (by repeat constructor); try (by intros _; apply prefix_nil).
Qed.

(** ** A session that is told to stop ends *)

Abbreviation stopped := (List.existsb stops).

Lemma iteration_stops signal s : inv Going s -> stops signal = true ->
  wp (iteration id policy.(policy_final_silence_ms) response_mode signal)
    (fun exit _ => match exit with Some (Exit_Shutdown _ | Exit_ConsumerDropped) => True | _ => False end) s.
Proof using.
  intros I St. unfold iteration. wp_go. apply (flush_spec id response_mode Going); [done|]. intros open s1 I1. destruct open; cbn [negb]; wp_go; [|done].
  destruct signal as [|notice| |[[]|]|outcome|outcome|input|event| |]; try done; cbn; by wp_go.
Qed.

Lemma run_until_exit_stops signals : stopped signals = true -> forall s, inv Going s ->
  wp (run_until_exit id policy.(policy_final_silence_ms) response_mode signals)
    (fun exit _ => match exit with None => False | Some (Exit_Fatal _, rest) => stopped rest = true | Some _ => True end) s.
Proof using L silence.
  induction signals as [|signal rest IH]; [done|]. cbn [List.existsb]. intros St s I. cbn [run_until_exit]. wp_go. destruct (stops signal) eqn:Here.
  - eapply wp_mono; [by apply iteration_stops|]. intros [[]|] s1 E; wp_go; done.
  - eapply wp_mono; [by apply iteration_spec|]. intros [exit|] s1 I1; wp_go; [by destruct exit|]. by apply IH.
Qed.

Lemma record_loop_stops error signals : stopped signals = true -> forall s, inv Over s ->
  wp (record_loop id response_mode error signals) (fun exit _ => exit <> None) s.
Proof using.
  induction signals as [|signal rest IH]; [done|]. cbn [List.existsb]. intros St s I. cbn [record_loop]. wp_go.
  apply (flush_spec id response_mode Over); [done|]. intros open s1 I1. destruct open; cbn [negb]; wp_go; [|done]. destruct (stops signal) eqn:Here.
  - destruct signal as [|notice| |[[]|]|outcome|outcome|input|event| |]; try done; cbn; by wp_go.
  - eapply wp_mono; [by apply recording_signal_spec|]. intros [exit|] s2 I2; wp_go; [done|]. by apply IH.
Qed.

Lemma wp_both {S A} (m : M S A) P Q s : wp m P s -> wp m Q s -> wp m (fun a s' => P a s' /\ Q a s') s.
Proof using. unfold wp. destruct (m s) as [[]| |]; done. Qed.

Lemma record_until_stopped_stops error signals s : stopped signals = true -> inv Leaving s ->
  wp (record_until_stopped id response_mode error signals) (fun exit s' => exit <> None /\ inv Over s') s.
Proof using.
  intros St I. apply wp_both; [|by apply record_until_stopped_spec]. unfold record_until_stopped. wp_go.
  eapply wp_mono; [by apply (cleanup_active_spec id response_mode Leaving)|]. intros u s1 I1. wp_go.
  pose proof (inv_record _ _ _ _ I1) as J. apply wp_publish; [by destruct I1|done|].
  intros open o G. pose proof (inv_published _ _ _ _ _ _ J G eq_refl) as K. destruct open; cbn [negb]; wp_go; [by apply record_loop_stops|done].
Qed.

Lemma run_stops signals s : stopped signals = true -> inv Going s ->
  wp (run id policy.(policy_final_silence_ms) response_mode signals) (fun e _ => e <> None) s.
Proof using L silence.
  intros St I. unfold run. wp_go. eapply wp_mono; [by apply wp_both; [apply run_until_exit_stops|apply run_until_exit_spec]|].
  intros [[exit rest]|] s1 [E I1]; wp_go; [|done].
  assert (forall ph exit deferred s2, inv ph s2 -> wp (e <- finish id exit deferred ;; ret (Some e)) (fun e _ => e <> None) s2) as F.
  { intros ph exit' deferred s2 I2. wp_go. eapply wp_mono; [by eapply finish_spec|]. intros e s3 I3. by wp_go. }
  destruct exit as [c| |error]; [by eapply F..|]. unfold records_after_failure. wp_go.
  assert (inv Leaving (set_env_uses (S (S s1.(env_uses))) s1)) as I2 by exact (inv_uses _ _ _ _ (inv_uses _ _ _ _ I1)).
  destruct (_ && _ && _); [|by eapply F]. wp_go. eapply wp_mono; [by apply record_until_stopped_stops|].
  intros [exit|] s2 [N I3]; [by eapply F|done].
Qed.

(** ** The whole session *)

Lemma new_loop_inv recorder o stats sent : outbox_inv o -> reports_nothing o.(published) ->
  exists s, VoiceLoop_new policy.(policy_final_silence_ms) recorder o stats = Val s /\ inv Going (set_replies sent s).
Proof using silence.
  intros I R. unfold VoiceLoop_new, TurnFinalizer.new. rewrite (proj2 (Z.eqb_neq _ _) silence). eexists. split; [done|].
  split; cbn; try done; [by left|].
  split; [intros g; left; by apply R|intros g N; by destruct (N (R g))|intros c sg w t g H; by apply not_elem_of_nil in H].
Qed.

Record run_ok (signals : list LoopSignal) (r : SessionRun) : Prop := {
  ro_outbox : outbox_inv (outbox_of r);
  ro_terminal : forall e, terminal_of r = Some e -> ends_session id e;
  ro_loop : forall s t, r = Ran s t -> exists ph, inv ph s;
  ro_stops : stopped signals = true -> is_Some (terminal_of r);
}.

Lemma not_started_ok signals o sent e : outbox_inv o -> ends_session id e -> run_ok signals (Not_started o sent e).
Proof using. intros I E. split; try done. by intros e' [= <-]. Qed.

Lemma run_voice_session_spec privacy recorder stats startup signals :
  exists r, run_voice_session policy privacy response_mode recorder stats startup signals = Val r /\ run_ok signals r.
Proof using L silence.
  assert (forall e, ends_session id (session_failure id e)) as F by (intros e; right; by exists e).
  assert (ends_session id (VS_SessionEnded id)) as N by (by left). unfold run_voice_session.
  destruct (io_started startup) as [u|e]; [|eexists; split; [done|by apply not_started_ok; [apply outbox_new_inv|]]].
  destruct (wait_for_startup_shutdown _ _) as [[c|] sent].
  { eexists. split; [done|]. apply not_started_ok; [apply outbox_new_inv|]. unfold await_completion_cleanup. by destruct (completion_in_time startup). }
  destruct (input_started startup) as [u'|e].
  2: { eexists. split; [done|]. apply not_started_ok; [apply outbox_new_inv|]. unfold await_completion_cleanup. by destruct (completion_in_time startup). }
  pose proof (started_outbox privacy (fun _ o => outbox_inv o /\ published o = [VS_SessionStarted id privacy]) ltac:(done)) as S. unfold wp in S.
  destruct (bind _ _ outbox_new) as [[open o]| |]; [|done..]. destruct S as [I P]. cbn [exec_bind].
  destruct open as [[]|]; [|eexists; split; [done|by apply not_started_ok]..].
  destruct (new_loop_inv recorder o stats sent I) as (s & -> & J); [intros g; by rewrite P|]. cbn [exec_bind].
  pose proof (run_spec id response_mode _ silence signals _ J) as R. pose proof (fun St => run_stops signals _ St J) as T. unfold wp in R, T.
  destruct (run _ _ _ _ _) as [[e s']| |]; [|done..]. eexists. split; [done|]. split; cbn.
  - destruct e; [by destruct R as [[]]|by destruct R as [ph []]].
  - intros e' ->. by destruct R.
  - intros ? ? [= <- <-]. destruct e; [exists Over; by destruct R|done].
  - intros St. specialize (T St). destruct e; [by eexists|done].
Qed.
End Session.

(** ** Guarantees *)

(** C12. A voice session never panics, and it ends once, at its end: whatever
    signals reach the loop and whatever the consumer, the turns and the tasks
    beside it do, no event in the client's channel ends the session; a session
    that is told to stop has a terminal event, which says that the session ended
    or failed for good; and a client who keeps reading receives the events sent,
    in order, then the terminal event, and nothing after it. *)
Theorem voice_session_ends_once `{U : UnicodeTables, SE : SessionEnv, L : !SessionEnvLaws} id mode speech silence components policy privacy
    response_mode recorder stats startup signals :
  VoiceSessionPolicy_new id mode speech silence components = Ok policy ->
  exists r, run_voice_session policy privacy response_mode recorder stats startup signals = Val r /\
    Forall (fun e => is_session_terminal e = false) (events_of r) /\
    (List.existsb stops signals = true -> is_Some (terminal_of r)) /\
    forall terminal, terminal_of r = Some terminal ->
      (terminal = VS_SessionEnded id \/ exists error, terminal = VS_SessionFailed id error NewSession) /\
      forall n, recv_many (length (events_of r) + 1 + n) (stream_of (events_of r) terminal) =
        map Some (events_of r) ++ [Some terminal] ++ replicate n None.
Proof.
  intros P. destruct (policy_silence _ _ _ _ _ _ P) as [<- Sl].
  destruct (run_voice_session_spec policy response_mode Sl privacy recorder stats startup signals) as (r & E & R). exists r. split; [done|].
  split; [|split; [by apply (ro_stops _ _ _ _ R)|]].
  - apply Forall_map. by destruct (oi_going _ (ro_outbox _ _ _ _ R)).
  - intros terminal T. split; [by apply (ro_terminal _ _ _ _ R)|]. intros n. apply recv_many_stream.
Qed.

(** C2. Reliable events reach the client in the order they were published, each
    at most once, and nothing that waits for the client exceeds its bound: the
    channel, the queue of reliable events and the kept partial transcripts hold
    at most 32 each. As long as no wait for room was cut short by the time limit
    of an interruption, what was sent is a prefix of what was published, and
    while the client is there, nothing is missing but what is still queued. A
    wait that is cut short may lose the events it was about to send. *)
Theorem reliable_events_in_order `{U : UnicodeTables, SE : SessionEnv, L : !SessionEnvLaws} id mode speech silence components policy privacy
    response_mode recorder stats startup signals r :
  VoiceSessionPolicy_new id mode speech silence components = Ok policy ->
  run_voice_session policy privacy response_mode recorder stats startup signals = Val r ->
  let o := outbox_of r in
  unread o <= 32 /\ zlen (reliable_events o) <= 32 /\ zlen (partials o) <= 32 /\
  delivered o `sublist_of` published o /\
  (overdue o = false -> delivered o `prefix_of` published o) /\
  (overdue o = false -> closed o = false -> published o = delivered o ++ reliable_events o).
Proof.
  intros P E o. destruct (policy_silence _ _ _ _ _ _ P) as [<- Sl].
  destruct (run_voice_session_spec policy response_mode Sl privacy recorder stats startup signals) as (r' & E' & R). rewrite E in E'. injection E' as <-.
  destruct (ro_outbox _ _ _ _ R) as [[_ I1] I2 [I3 _] I4 I5 I6 _]. split_and!; [exact I1|exact I2|exact I3| |exact I5|intros Ov Cl; symmetry; exact (I6 Cl Ov)].
  etransitivity; [|exact I4]. by apply sublist_inserts_r.
Qed.

(** C5. One response at a time, to words the client was told. In every state of
    the loop the turns started, ended and aborted so far form a sequence in which
    at most one is held, and only the held one is ended or aborted. Every
    response answers the words of a final transcript that the session published
    for its segment: one published on its own, when the response is authorized
    or comes from the queue, or one published with the turn that answers it,
    when the silence after the speech starts the turn. Behind an external gate
    no response is started in another way than by authorization, and no response
    waits in the queue. *)
Theorem responses_one_at_a_time `{U : UnicodeTables, SE : SessionEnv, L : !SessionEnvLaws} id mode speech silence components policy privacy
    response_mode recorder stats startup signals s e :
  VoiceSessionPolicy_new id mode speech silence components = Ok policy ->
  run_voice_session policy privacy response_mode recorder stats startup signals = Val (Ran s e) ->
  is_Some (holding None (actions s)) /\
  (forall cause segment words t g, Act_start cause segment words t g ∈ actions s ->
    (exists turn evidence, VS_TranscriptFinal id segment turn words evidence ∈ published (outbox s) /\
       turn = match cause with By_silence => Some t | _ => None end) /\
    (response_mode = ExternalGate -> cause = By_authorization)) /\
  (response_mode = ExternalGate -> automatic_responses s = []) /\
  zlen (pending_order s) <= 32 /\ zlen (automatic_responses s) <= 32.
Proof.
  intros P E. destruct (policy_silence _ _ _ _ _ _ P) as [<- Sl].
  destruct (run_voice_session_spec policy response_mode Sl privacy recorder stats startup signals) as (r' & E' & R). rewrite E in E'. injection E' as <-.
  destruct (ro_loop _ _ _ _ R s e eq_refl) as [ph [I1 I0 I2 Io I3 [S1 S2 S3 S4 S5 S6 S7] I5 I6]]. split_and!; try done.
  intros cause segment words t g A. rewrite Forall_forall in S1. specialize (S1 _ A) as [S G]. split; [|done].
  destruct cause; [destruct G as [evidence G]; by exists None, evidence..|]. by exists (Some t), None.
Qed.

(** C21. Playback is reported as it went: for every generation the session
    publishes nothing, an acceptance, an acceptance and then that it was
    rendered, or that it was flushed, with or without an acceptance before; never
    that audio was rendered that was not accepted, or rendered after a flush.
    And only generations whose turn the loop started are reported. *)
Theorem playback_reports_truthful `{U : UnicodeTables, SE : SessionEnv, L : !SessionEnvLaws} id mode speech silence components policy privacy
    response_mode recorder stats startup signals s e g :
  VoiceSessionPolicy_new id mode speech silence components = Ok policy ->
  run_voice_session policy privacy response_mode recorder stats startup signals = Val (Ran s e) ->
  (let l := reports g (published (outbox s)) in
   l = [] \/ l = [Playback_Accepted] \/ l = [Playback_Accepted; Playback_Rendered] \/ l = [Playback_Flushed] \/
   l = [Playback_Accepted; Playback_Flushed]) /\
  (reports g (published (outbox s)) <> [] -> exists cause segment words t, Act_start cause segment words t g ∈ actions s).
Proof.
  intros P E. destruct (policy_silence _ _ _ _ _ _ P) as [<- Sl].
  destruct (run_voice_session_spec policy response_mode Sl privacy recorder stats startup signals) as (r' & E' & R). rewrite E in E'. injection E' as <-.
  destruct (ro_loop _ _ _ _ R s e eq_refl) as [ph [_ _ _ _ _ _ [P1 P2 _] _]]. split; [exact (P1 g)|exact (P2 g)].
Qed.

(** ** Concrete sessions *)

(** A client who takes [taken] events at a time, and turns that start and stop
    as asked; the generation is the number of the use. *)
Definition plain_env (taken : Z) : SessionEnv := {|
  se_channel := {| ve_consumer := fun _ => (taken, false); ve_elapses := fun _ => false |};
  se_clock := fun n => Z.of_nat n;
  se_seed := fun _ _ _ => Ok tt;
  se_start := fun n _ => Ok (TurnId_new (Z.of_nat n + 1), GenerationId_new (Z.of_nat n + 1));
  se_interrupt := fun _ _ _ => Some (Ok tt);
  se_drain := fun _ => ([], true);
  se_abort := fun _ _ _ => Some (Ok tt);
  se_in_time := fun _ => true;
  se_input_closed := fun _ => false;
  se_recorder_running := fun _ => false;
|}.

Lemma plain_env_laws taken : SessionEnvLaws (SE := plain_env taken).
Proof. intros n n' text text' t t' g E E'. cbn in *. simplify_eq. lia. Qed.

Definition session_7 : SessionId := SessionId_new 7.
Definition local_component (kind : ComponentKind) : ComponentDescriptor := ComponentDescriptor_new kind (lit "local") Local.
Definition local_components : list ComponentDescriptor := map local_component [SpeechRecognition; LanguageModel; SpeechSynthesis; AudioIo].
Definition local_policy : VoiceSessionPolicy :=
  {| policy_session_id := session_7; privacy_mode := LocalOnly; speech_start_ms := 200; policy_final_silence_ms := 600; components := local_components |}.
Definition local_summary : PrivacySummary := PrivacySummary_new LocalOnly local_components.
Definition no_cleanup : TranscriptCleanupStats := {| finals_cleaned := 0; finals_dropped := 0; total_removals := no_removals |}.
Definition prompt_startup : Startup :=
  {| io_started := Ok tt; early_commands := []; input_started := Ok tt; completion_in_time := true |}.

Lemma local_policy_new : VoiceSessionPolicy_new session_7 LocalOnly 200 600 local_components = Ok local_policy.
Proof. vm_compute. reflexivity. Qed.

(** An utterance, authorized, spoken and rendered. *)
Definition answered : list LoopSignal :=
  [Signal_Input (Some (Ok (Input_Recognition (Recognized_FinalizedUtterance
     {| utterance_segment_id := 1; utterance_text := lit "what time is it"; utterance_evidence := None |}))));
   Signal_Command (Some (Command_AuthorizeResponse session_7 1 [] 10));
   Signal_Turn (Some (Playback (TurnId_new 3) (GenerationId_new 3) Playback_Accepted));
   Signal_Input (Some (Ok (Input_Playback {| receipt_generation_id := GenerationId_new 3; receipt_state := Playback_Rendered |})));
   Signal_Turn (Some (TurnCompleted (TurnId_new 3)));
   Signal_Command (Some (Command_Shutdown 11))].

Abbreviation local_run taken signals :=
  (run_voice_session (U := ascii_tables) (SE := plain_env taken) local_policy local_summary ExternalGate false no_cleanup prompt_startup signals).

Definition ran (r : exec SessionRun) : option (VoiceLoop * option VoiceSessionEvent) :=
  match r with Val (Ran s e) => Some (s, e) | _ => None end.

Lemma ran_Some r s e : ran r = Some (s, e) -> r = Val (Ran s e).
Proof. destruct r as [[]| |]; cbn; intros; by simplify_eq. Qed.

(** What the concrete run comes to. *)
Lemma answered_run :
  (fun p : VoiceLoop * option VoiceSessionEvent =>
     (zlen (published (outbox p.1)), overdue (outbox p.1), closed (outbox p.1), length (actions p.1),
      reports (GenerationId_new 3) (published (outbox p.1)), p.2)) <$> ran (local_run 1 answered) =
  Some (6, false, false, 2%nat, [Playback_Accepted; Playback_Rendered], Some (VS_SessionEnded session_7)).
Proof. vm_compute. reflexivity. Qed.

Lemma answered_ran : exists s, local_run 1 answered = Val (Ran s (Some (VS_SessionEnded session_7))) /\
  zlen (published (outbox s)) = 6 /\ overdue (outbox s) = false /\ closed (outbox s) = false /\ length (actions s) = 2%nat /\
  reports (GenerationId_new 3) (published (outbox s)) = [Playback_Accepted; Playback_Rendered].
Proof.
  pose proof answered_run as V. destruct (ran (local_run 1 answered)) as [[s e]|] eqn:E; [|discriminate]. apply ran_Some in E. cbn [fmap option_fmap option_map fst snd] in V.
  injection V as V1 V2 V3 V4 V5 ->. exists s. split_and!; assumption.
Qed.

Lemma voice_session_ends_once_witness :
  exists r, local_run 1 answered = Val r /\ terminal_of r = Some (VS_SessionEnded session_7) /\
    recv_many (length (events_of r) + 1 + 2) (stream_of (events_of r) (VS_SessionEnded session_7)) =
      map Some (events_of r) ++ [Some (VS_SessionEnded session_7); None; None].
Proof.
  destruct (voice_session_ends_once (U := ascii_tables) (SE := plain_env 1) (L := plain_env_laws 1) session_7 LocalOnly 200 600 local_components local_policy
    local_summary ExternalGate false no_cleanup prompt_startup answered local_policy_new) as (r & E & _ & _ & T).
  destruct answered_ran as (s & R & _). rewrite R in E. injection E as <-. exists (Ran s (Some (VS_SessionEnded session_7))).
  split; [exact R|]. split; [reflexivity|]. exact (proj2 (T _ eq_refl) 2%nat).
Defined.

Lemma reliable_events_in_order_witness :
  exists s e, local_run 1 answered = Val (Ran s e) /\ zlen (published (outbox s)) = 6 /\
    published (outbox s) = delivered (outbox s) ++ reliable_events (outbox s).
Proof.
  destruct answered_ran as (s & R & V1 & V2 & V3 & _). exists s, (Some (VS_SessionEnded session_7)). split; [exact R|]. split; [exact V1|].
  exact (proj2 (proj2 (proj2 (proj2 (proj2 (reliable_events_in_order (U := ascii_tables) (SE := plain_env 1) (L := plain_env_laws 1) session_7 LocalOnly 200 600
    local_components local_policy local_summary ExternalGate false no_cleanup prompt_startup answered _ local_policy_new R))))) V2 V3).
Defined.

Lemma responses_one_at_a_time_witness :
  exists s e, local_run 1 answered = Val (Ran s e) /\ length (actions s) = 2%nat /\ is_Some (holding None (actions s)).
Proof.
  destruct answered_ran as (s & R & _ & _ & _ & V & _). exists s, (Some (VS_SessionEnded session_7)). split; [exact R|]. split; [exact V|].
  exact (proj1 (responses_one_at_a_time (U := ascii_tables) (SE := plain_env 1) (L := plain_env_laws 1) session_7 LocalOnly 200 600 local_components local_policy
    local_summary ExternalGate false no_cleanup prompt_startup answered _ _ local_policy_new R)).
Defined.

Lemma playback_reports_truthful_witness :
  exists s e, local_run 1 answered = Val (Ran s e) /\ reports (GenerationId_new 3) (published (outbox s)) = [Playback_Accepted; Playback_Rendered] /\
    exists cause segment words t, Act_start cause segment words t (GenerationId_new 3) ∈ actions s.
Proof.
  destruct answered_ran as (s & R & _ & _ & _ & _ & V). exists s, (Some (VS_SessionEnded session_7)). split; [exact R|]. split; [exact V|].
  apply (proj2 (playback_reports_truthful (U := ascii_tables) (SE := plain_env 1) (L := plain_env_laws 1) session_7 LocalOnly 200 600 local_components local_policy
    local_summary ExternalGate false no_cleanup prompt_startup answered _ _ (GenerationId_new 3) local_policy_new R)). rewrite V. discriminate.
Defined.

(** The queue is not emptied at the end: a client who reads late finds the
    session ended, and never the last of its events. *)
Definition late_reader : list LoopSignal :=
  repeat (Signal_Input (Some (Ok (Input_DeviceStatus (lit "mic") (lit "speaker"))))) 33 ++ [Signal_Command (Some (Command_Shutdown 11))].

Example queued_events_not_sent_at_end :
  (fun p : VoiceLoop * option VoiceSessionEvent =>
     (closed (outbox p.1), overdue (outbox p.1), zlen (published (outbox p.1)), zlen (delivered (outbox p.1)), p.2)) <$> ran (local_run 0 late_reader) =
  Some (false, false, 34, 32, Some (VS_SessionEnded session_7)).
Proof. vm_compute. reflexivity. Qed.
