(* ===== verification/CaptureRecording.v ===== *)
(** * Recording beside the voice loop

    [crates/runtime/src/voice_session.rs], [CaptureRecording]: the task between
    the voice input and the voice loop. It writes the capture to the shared
    recorder as it arrives, and holds what the loop is too busy to take.

    The recorder is the one of [session_recording.rs], with the file system and
    the clock behind it; other owners may use it between two events ([Rec_other]).
    The loop and the reader of the notices are the environment. *)

From S2P Require Import Prelude RustStr Errors Pcm CaptureTiming Audio TurnEvents RecordingSafety Recorder VoiceState.

Local Open Scope Z_scope.

Definition RECORDER_NOTICE_BUFFER_SIZE : Z := 32.
Definition MAX_UNFORWARDED_INPUT_EVENTS : Z := 256.
Definition DROPPED_INPUT_MESSAGE : rstr := lit "voice input events were dropped while the session was busy".
Definition FORWARD_BUFFER_SIZE : Z := VoiceOutbox.SESSION_EVENT_BUFFER_SIZE.

Abbreviation input_event := (aresult VoiceInputEvent) (only parsing).

(** The loop is told that it missed some input. *)
Definition dropped_input : input_event := Err {| adapter_message := DROPPED_INPUT_MESSAGE; adapter_stage := Some Stage_SpeechRecognizer |}.

(** A use of the channel to the loop, of the channel of notices, or of the
    clock: how many events were taken since the last one, and whether the
    receiver is gone. *)
Class RecordingEnv : Type := {
  re_loop : nat -> Z * bool;
  re_notices : nat -> Z * bool;
  re_clock : nat -> Z;
}.

(** [shared] is the recorder behind the mutex, [feeding] whether the task still
    has it; [forwarded] and [noticed] what entered the two channels, [answered]
    the finish barriers' completions, and [passed] the events meant for the loop. *)
Record CaptureRecording : Type := {
  shared : St;
  feeding : bool;
  answered : list (Z * aresult unit);
  forwarded : list input_event;
  forward_unread : Z;
  forward_closed : bool;
  noticed : list RecorderNotice;
  notices_unread : Z;
  notices_closed : bool;
  unforwarded : list input_event;
  dropped : bool;
  audio_forwarded : bool;
  health : CaptureHealthMonitor;
  watching_activity : bool;
  passed : list input_event;
  recording_uses : nat;
}.

Definition CaptureRecording_new (recorder : St) : CaptureRecording :=
  {| shared := recorder; feeding := true; answered := []; forwarded := []; forward_unread := 0; forward_closed := false;
     noticed := []; notices_unread := 0; notices_closed := false; unforwarded := []; dropped := false; audio_forwarded := false;
     health := Monitor_new; watching_activity := true; passed := []; recording_uses := 0 |}.

(** ** Updates *)

Definition set_recorder (st : St) (on : bool) (s : CaptureRecording) : CaptureRecording :=
  {| shared := st; feeding := on; answered := s.(answered); forwarded := s.(forwarded); forward_unread := s.(forward_unread);
     forward_closed := s.(forward_closed); noticed := s.(noticed); notices_unread := s.(notices_unread); notices_closed := s.(notices_closed);
     unforwarded := s.(unforwarded); dropped := s.(dropped); audio_forwarded := s.(audio_forwarded); health := s.(health);
     watching_activity := s.(watching_activity); passed := s.(passed); recording_uses := s.(recording_uses) |}.
Definition answer (c : Z) (r : aresult unit) (s : CaptureRecording) : CaptureRecording :=
  {| shared := s.(shared); feeding := s.(feeding); answered := s.(answered) ++ [(c, r)]; forwarded := s.(forwarded); forward_unread := s.(forward_unread);
     forward_closed := s.(forward_closed); noticed := s.(noticed); notices_unread := s.(notices_unread); notices_closed := s.(notices_closed);
     unforwarded := s.(unforwarded); dropped := s.(dropped); audio_forwarded := s.(audio_forwarded); health := s.(health);
     watching_activity := s.(watching_activity); passed := s.(passed); recording_uses := s.(recording_uses) |}.
Definition set_forward (sent : list input_event) (unread : Z) (closed : bool) (s : CaptureRecording) : CaptureRecording :=
  {| shared := s.(shared); feeding := s.(feeding); answered := s.(answered); forwarded := sent; forward_unread := unread;
     forward_closed := closed; noticed := s.(noticed); notices_unread := s.(notices_unread); notices_closed := s.(notices_closed);
     unforwarded := s.(unforwarded); dropped := s.(dropped); audio_forwarded := s.(audio_forwarded); health := s.(health);
     watching_activity := s.(watching_activity); passed := s.(passed); recording_uses := S s.(recording_uses) |}.
Definition set_notices (sent : list RecorderNotice) (unread : Z) (closed : bool) (s : CaptureRecording) : CaptureRecording :=
  {| shared := s.(shared); feeding := s.(feeding); answered := s.(answered); forwarded := s.(forwarded); forward_unread := s.(forward_unread);
     forward_closed := s.(forward_closed); noticed := sent; notices_unread := unread; notices_closed := closed;
     unforwarded := s.(unforwarded); dropped := s.(dropped); audio_forwarded := s.(audio_forwarded); health := s.(health);
     watching_activity := s.(watching_activity); passed := s.(passed); recording_uses := S s.(recording_uses) |}.
Definition hold (queue : list input_event) (lost : bool) (s : CaptureRecording) : CaptureRecording :=
  {| shared := s.(shared); feeding := s.(feeding); answered := s.(answered); forwarded := s.(forwarded); forward_unread := s.(forward_unread);
     forward_closed := s.(forward_closed); noticed := s.(noticed); notices_unread := s.(notices_unread); notices_closed := s.(notices_closed);
     unforwarded := queue; dropped := lost; audio_forwarded := s.(audio_forwarded); health := s.(health);
     watching_activity := s.(watching_activity); passed := s.(passed); recording_uses := s.(recording_uses) |}.
Definition passing (e : input_event) (s : CaptureRecording) : CaptureRecording :=
  {| shared := s.(shared); feeding := s.(feeding); answered := s.(answered); forwarded := s.(forwarded); forward_unread := s.(forward_unread);
     forward_closed := s.(forward_closed); noticed := s.(noticed); notices_unread := s.(notices_unread); notices_closed := s.(notices_closed);
     unforwarded := s.(unforwarded); dropped := s.(dropped); audio_forwarded := s.(audio_forwarded); health := s.(health);
     watching_activity := s.(watching_activity); passed := s.(passed) ++ [e]; recording_uses := s.(recording_uses) |}.
Definition set_health (h : CaptureHealthMonitor) (s : CaptureRecording) : CaptureRecording :=
  {| shared := s.(shared); feeding := s.(feeding); answered := s.(answered); forwarded := s.(forwarded); forward_unread := s.(forward_unread);
     forward_closed := s.(forward_closed); noticed := s.(noticed); notices_unread := s.(notices_unread); notices_closed := s.(notices_closed);
     unforwarded := s.(unforwarded); dropped := s.(dropped); audio_forwarded := s.(audio_forwarded); health := h;
     watching_activity := s.(watching_activity); passed := s.(passed); recording_uses := S s.(recording_uses) |}.
Definition set_flags (audio watching : bool) (s : CaptureRecording) : CaptureRecording :=
  {| shared := s.(shared); feeding := s.(feeding); answered := s.(answered); forwarded := s.(forwarded); forward_unread := s.(forward_unread);
     forward_closed := s.(forward_closed); noticed := s.(noticed); notices_unread := s.(notices_unread); notices_closed := s.(notices_closed);
     unforwarded := s.(unforwarded); dropped := s.(dropped); audio_forwarded := audio; health := s.(health);
     watching_activity := watching; passed := s.(passed); recording_uses := s.(recording_uses) |}.

Section Recording.
Context `{C : RecordingCrypto, E : RecordingEnv}.

(** ** The two channels *)

(** What the loop took since the last use of its channel. *)
Definition loop_moves (s : CaptureRecording) : CaptureRecording :=
  let '(taken, gone) := re_loop s.(recording_uses) in
  set_forward s.(forwarded) (Z.max 0 (s.(forward_unread) - Z.max 0 taken)) (s.(forward_closed) || gone) s.

Definition put (e : input_event) (s : CaptureRecording) : CaptureRecording :=
  set_forward (s.(forwarded) ++ [e]) (Z.min s.(forward_unread) (FORWARD_BUFFER_SIZE - 1) + 1) s.(forward_closed) s.

(** [let _ = self.notices.try_send(notice)]. *)
Definition notify (notice : RecorderNotice) (s : CaptureRecording) : CaptureRecording :=
  let '(taken, gone) := re_notices s.(recording_uses) in
  let unread := Z.max 0 (s.(notices_unread) - Z.max 0 taken) in
  let closed := s.(notices_closed) || gone in
  if negb closed && (unread <? RECORDER_NOTICE_BUFFER_SIZE) then set_notices (s.(noticed) ++ [notice]) (unread + 1) closed s
  else set_notices s.(noticed) unread closed s.

Definition report_health (r : option CaptureHealthReport) (s : CaptureRecording) : CaptureRecording :=
  match r with Some r => if s.(feeding) then notify (Notice_Health r) s else s | None => s end.

(** The monitor's answer at the time of the clock. *)
Definition observe_health (f : Z -> CaptureHealthMonitor * option CaptureHealthReport) (s : CaptureRecording) : CaptureRecording :=
  let '(h, r) := f (re_clock s.(recording_uses)) in report_health r (set_health h s).

(** ** Writing *)

Definition is_invalid_state (e : RuntimeError) : bool := bool_decide (e.(kind) = Kind_InvalidState).

Definition record (write : M unit) (s : CaptureRecording) : CaptureRecording :=
  if negb s.(feeding) then s
  else
    let '(result, st) := write s.(shared) in
    let '(notices, st) := take_limit_notices st in
    let notices := match notices with Ok l => l | Err _ => [] end in
    let s := set_recorder st (negb (existsb is_stop notices)) s in
    let s := fold_left (fun s n => notify (Notice_Limit n.1 n.2) s) notices s in
    match result with
    | Ok _ => s
    | Err error =>
        if is_invalid_state error then set_recorder s.(shared) false s
        else
          notify (Notice_Failure error)
            (set_recorder {| rec := mark_incomplete s.(shared).(rec); world := s.(shared).(world) |} false s)
    end.

(** ** Passing on *)

Definition pass_on (e : input_event) (s : CaptureRecording) : CaptureRecording :=
  let s := loop_moves s in
  if s.(forward_closed) then s
  else
    let s := passing e s in
    let enqueue s :=
      let full := MAX_UNFORWARDED_INPUT_EVENTS <=? zlen s.(unforwarded) in
      hold ((if full then tl s.(unforwarded) else s.(unforwarded)) ++ [e]) (s.(dropped) || full) s in
    if is_empty s.(unforwarded) && negb s.(dropped) then
      let s := loop_moves s in
      if s.(forward_closed) then s
      else if s.(forward_unread) <? FORWARD_BUFFER_SIZE then put e s
      else hold (s.(unforwarded) ++ [e]) s.(dropped) s
    else enqueue s.

Definition is_discontinuity (e : input_event) : bool :=
  match e with Ok (Input_Capture (Capture_Discontinuity _)) => true | _ => false end.

Definition accept (event : input_event) (s : CaptureRecording) : CaptureRecording :=
  match event with
  | Ok (Input_Capture (Capture_Frame f)) =>
      let s := observe_health (fun now_ms => frame s.(health) now_ms f) s in
      let s := record (record_frame f) s in
      if s.(audio_forwarded) then s else pass_on event (set_flags true s.(watching_activity) s)
  | Ok (Input_Capture (Capture_Discontinuity _)) =>
      let s := observe_health (fun now_ms => discontinuity s.(health) now_ms) s in
      let s := record record_capture_gap s in
      if (match last s.(unforwarded) with Some e => is_discontinuity e | None => false end) then s else pass_on event s
  | Ok (Input_CaptureMetadata metadata) => record (record_capture_metadata metadata) s
  | Ok (Input_CaptureFinish boundary completion) =>
      if s.(feeding) then
        let '(r, st) := confirm_capture_boundary boundary s.(shared) in
        answer completion (match r with Ok _ => Ok tt | Err _ => Err (AdapterError_new (lit "recording boundary confirmation failed")) end)
          (set_recorder st true s)
      else answer completion (Err (AdapterError_new (lit "timed recording is unavailable"))) s
  | event => pass_on event s
  end.

(** ** The task *)

(** What [select!] comes back with; [Rec_other] is another owner of the
    recorder. *)
Inductive RecordingSignal : Type :=
| Rec_stop (arrived : list input_event)
| Rec_input (event : option input_event)
| Rec_activity (active : option bool)
| Rec_tick
| Rec_permit
| Rec_other (f : St -> St).

Definition forwarding (s : CaptureRecording) : bool := negb s.(forward_closed) && (s.(dropped) || negb (is_empty s.(unforwarded))).

(** [forward.reserve_owned()]: a slot, or the receiver is gone. *)
Definition permit (s : CaptureRecording) : CaptureRecording :=
  let s := loop_moves s in
  if s.(forward_closed) then hold [] s.(dropped) s
  else if s.(dropped) then
    put dropped_input (hold s.(unforwarded) false s)
  else match s.(unforwarded) with e :: rest => put e (hold rest false s) | [] => s end.

(** The state after a signal, and whether the task goes on. *)
Definition recording_step (signal : RecordingSignal) (s : CaptureRecording) : CaptureRecording * bool :=
  match signal with
  | Rec_stop arrived => (fold_left (fun s e => accept e s) arrived s, false)
  | Rec_input (Some event) => (accept event s, true)
  | Rec_input None => (s, false)
  | Rec_activity active =>
      (if negb s.(watching_activity) then s
       else match active with
         | Some active => set_health (set_active s.(health) active (re_clock s.(recording_uses))) s
         | None => set_flags s.(audio_forwarded) false s
         end, true)
  | Rec_tick => (if s.(feeding) then observe_health (tick s.(health)) s else s, true)
  | Rec_permit => (let s := loop_moves s in if forwarding s then permit s else s, true)
  | Rec_other f => (set_recorder (f s.(shared)) s.(feeding) s, true)
  end.

Fixpoint run_recording (signals : list RecordingSignal) (s : CaptureRecording) : CaptureRecording :=
  match signals with
  | [] => s
  | signal :: rest => let '(s, goes_on) := recording_step signal s in if goes_on : bool then run_recording rest s else s
  end.
End Recording.
