(* ===== verification/CaptureIsolation.v ===== *)
(** * Recording is independent of the loop

    Whatever the voice loop does with what it is passed, the recording is the one
    the recorder makes of the captured media alone; and a loop that is busy gets
    its input in order, and is told where some of it is missing. *)

From S2P Require Import Prelude RustStr Errors Pcm CaptureTiming Audio TurnEvents RecordingSafety Recorder VoiceState CaptureRecording.

Local Open Scope Z_scope.

(** ** The recorder alone *)

Inductive media_op : Type :=
| Media_frame (f : AudioFrame)
| Media_gap
| Media_metadata (m : CaptureMetadata)
| Media_finish (boundary : CaptureFinishBoundary) (completion : Z)
| Media_other (f : St -> St).

(** The recorder, whether it is still fed, and the answers to finish barriers. *)
Record kept : Type := { k_recorder : St; k_feeding : bool; k_answered : list (Z * result unit AdapterError) }.

Section Spec.
Context `{C : RecordingCrypto}.

(** One write: a recording that failed or was closed is fed no more, and a
    failure that is not the recorder's state leaves it incomplete. *)
Definition write_media (write : M unit) (k : kept) : kept :=
  if negb k.(k_feeding) then k
  else
    let '(result, st) := write k.(k_recorder) in
    let stopped := existsb is_stop st.(rec).(limit_notices) in
    let st := {| rec := Recorder.set_notices st.(rec) []; world := st.(world) |} in
    match result with
    | Ok _ => {| k_recorder := st; k_feeding := negb stopped; k_answered := k.(k_answered) |}
    | Err e =>
        {| k_recorder := if is_invalid_state e then st else {| rec := mark_incomplete st.(rec); world := st.(world) |};
           k_feeding := false; k_answered := k.(k_answered) |}
    end.

Definition media_step (k : kept) (op : media_op) : kept :=
  match op with
  | Media_frame f => write_media (record_frame f) k
  | Media_gap => write_media record_capture_gap k
  | Media_metadata m => write_media (record_capture_metadata m) k
  | Media_finish boundary completion =>
      if k.(k_feeding) then
        let '(r, st) := confirm_capture_boundary boundary k.(k_recorder) in
        {| k_recorder := st; k_feeding := true; k_answered := k.(k_answered) ++
             [(completion, match r with Ok _ => Ok tt | Err _ => Err (AdapterError_new (lit "recording boundary confirmation failed")) end)] |}
      else {| k_recorder := k.(k_recorder); k_feeding := false;
              k_answered := k.(k_answered) ++ [(completion, Err (AdapterError_new (lit "timed recording is unavailable")))] |}
  | Media_other f => {| k_recorder := f k.(k_recorder); k_feeding := k.(k_feeding); k_answered := k.(k_answered) |}
  end.
End Spec.

Definition media_of (e : result VoiceInputEvent AdapterError) : list media_op :=
  match e with
  | Ok (Input_Capture (Capture_Frame f)) => [Media_frame f]
  | Ok (Input_Capture (Capture_Discontinuity _)) => [Media_gap]
  | Ok (Input_CaptureMetadata m) => [Media_metadata m]
  | Ok (Input_CaptureFinish boundary completion) => [Media_finish boundary completion]
  | _ => []
  end.

(** The captured media among the signals of the task, up to its end. *)
Fixpoint media_ops (signals : list RecordingSignal) : list media_op :=
  match signals with
  | [] => []
  | Rec_stop arrived :: _ => List.flat_map media_of arrived
  | Rec_input None :: _ => []
  | Rec_input (Some e) :: rest => media_of e ++ media_ops rest
  | Rec_other f :: rest => Media_other f :: media_ops rest
  | _ :: rest => media_ops rest
  end.

Definition media (s : CaptureRecording) : kept := {| k_recorder := s.(shared); k_feeding := s.(feeding); k_answered := s.(answered) |}.

Section Refinement.
Context `{C : RecordingCrypto, E : RecordingEnv}.

Lemma loop_moves_media s : media (loop_moves s) = media s.
Proof. unfold loop_moves. by destruct (re_loop _). Qed.
Lemma notify_media n s : media (notify n s) = media s.
Proof. unfold notify. destruct (re_notices _). by split_ifs. Qed.
Lemma observe_health_media f s : media (observe_health f s) = media s.
Proof. unfold observe_health, report_health. destruct (f _) as [h [r|]]; [|done]. split_ifs; [|done]. by rewrite notify_media. Qed.
Lemma pass_on_media e s : media (pass_on e s) = media s.
Proof.
  unfold pass_on. pose proof (loop_moves_media s) as E1. destruct (forward_closed (loop_moves s)); [done|].
  pose proof (loop_moves_media (passing e (loop_moves s))) as E2. split_ifs; by rewrite <- E1.
Qed.
Lemma notices_media l s : media (fold_left (fun s n => notify (Notice_Limit n.1 n.2) s) l s) = media s.
Proof. revert s. induction l as [|n l IH]; intros s; cbn; [done|]. by rewrite IH, notify_media. Qed.

Lemma media_eq s k : media s = k <-> shared s = k_recorder k /\ feeding s = k_feeding k /\ answered s = k_answered k.
Proof. destruct k. unfold media. cbn. split; [intros; by simplify_eq|naive_solver congruence]. Qed.

Lemma record_media write s : media (record write s) = write_media write (media s).
Proof.
  unfold record, write_media. cbn [k_feeding k_recorder k_answered media]. destruct (feeding s); cbn [negb]; [|done].
  destruct (write (shared s)) as [result st]. cbn [take_limit_notices Recorder.bind Recorder.gets Recorder.modify Recorder.ret].
  set (s1 := set_recorder _ _ s). pose proof (notices_media (limit_notices (rec st)) s1) as N. set (s2 := fold_left _ _ s1) in *. clearbody s2.
  apply media_eq in N as (N1 & N2 & N3). destruct result as [u|e]; [by apply media_eq|]. destruct (is_invalid_state e).
  - apply media_eq. cbn in *. by rewrite N1, N3.
  - rewrite notify_media. apply media_eq. cbn in *. by rewrite N1, N3.
Qed.

Lemma accept_media e s : media (accept e s) = fold_left media_step (media_of e) (media s).
Proof.
  destruct e as [[i o|a|[f|at_ms]|m|boundary completion|r|receipt]|e]; cbn [accept media_of fold_left media_step]; try by rewrite pass_on_media.
  - split_ifs; rewrite ?pass_on_media; [|change (media (set_flags ?a ?b ?x)) with (media x)]; by rewrite record_media, observe_health_media.
  - split_ifs; rewrite ?pass_on_media; by rewrite record_media, observe_health_media.
  - by rewrite record_media.
  - cbn [media k_feeding k_recorder k_answered]. destruct (feeding s) eqn:F; [|by apply media_eq; cbn; rewrite F].
    destruct (confirm_capture_boundary _ _) as [r st]. by apply media_eq.
Qed.

Lemma accept_all_media l s : media (fold_left (fun s e => accept e s) l s) = fold_left media_step (List.flat_map media_of l) (media s).
Proof. revert s. induction l as [|e l IH]; intros s; cbn; [done|]. by rewrite IH, accept_media, fold_left_app. Qed.

Lemma permit_media s : media (permit s) = media s.
Proof.
  unfold permit. rewrite <- (loop_moves_media s). set (s1 := loop_moves s). clearbody s1. split_ifs; [done..|]. by destruct (unforwarded s1).
Qed.

Lemma run_recording_media signals s : media (run_recording signals s) = fold_left media_step (media_ops signals) (media s).
Proof.
  revert s. induction signals as [|signal rest IH]; intros s; cbn [run_recording media_ops]; [done|].
  destruct signal as [arrived|[e|]|active| | |f]; cbn [recording_step].
  - apply accept_all_media.
  - by rewrite IH, accept_media, fold_left_app.
  - done.
  - rewrite IH. split_ifs; [done|]. by destruct active.
  - rewrite IH. split_ifs; [|done]. by rewrite observe_health_media.
  - rewrite IH. split_ifs; by rewrite ?permit_media, loop_moves_media.
  - by rewrite IH.
Qed.
End Refinement.

(** ** What the loop receives *)

(** [received] is [sent] with stretches left out, each marked in its place. *)
Inductive covers : list (result VoiceInputEvent AdapterError) -> list (result VoiceInputEvent AdapterError) -> Prop :=
| covers_nothing : covers [] []
| covers_event sent received e : covers sent received -> covers (sent ++ [e]) (received ++ [e])
| covers_missing sent received lost : covers sent received -> lost <> [] -> covers (sent ++ lost) (received ++ [dropped_input]).

Record held_ok (s : CaptureRecording) : Prop := {
  ho_held : zlen s.(unforwarded) <= MAX_UNFORWARDED_INPUT_EVENTS;
  ho_room : 0 <= s.(forward_unread) <= FORWARD_BUFFER_SIZE;
  ho_open : s.(forward_closed) = false -> exists sent lost, s.(passed) = sent ++ lost ++ s.(unforwarded) /\ covers sent s.(forwarded) /\
    (s.(dropped) = true <-> lost <> []);
  ho_prefix : exists sent, sent `prefix_of` s.(passed) /\ covers sent s.(forwarded);
}.

Section Held.
Context `{C : RecordingCrypto, E : RecordingEnv}.

(** The part of the state the loop's input is in. *)
Definition same_input (s s' : CaptureRecording) : Prop :=
  unforwarded s' = unforwarded s /\ forward_unread s' = forward_unread s /\ forward_closed s' = forward_closed s /\ passed s' = passed s /\
  forwarded s' = forwarded s /\ dropped s' = dropped s.

Lemma same_input_ok s s' : same_input s s' -> held_ok s -> held_ok s'.
Proof. intros (E1 & E2 & E3 & E4 & E5 & E6) [H1 H2 H3 H4]. split; rewrite ?E1, ?E2, ?E3, ?E4, ?E5, ?E6; done. Qed.

Lemma same_trans s s1 s2 : same_input s s1 -> same_input s1 s2 -> same_input s s2.
Proof. unfold same_input. naive_solver congruence. Qed.

Lemma notify_same n s : same_input s (notify n s).
Proof. unfold notify. destruct (re_notices _). by split_ifs. Qed.
Lemma notices_same l s : same_input s (fold_left (fun s n => notify (Notice_Limit n.1 n.2) s) l s).
Proof. revert s. induction l as [|n l IH]; intros s; cbn; [done|]. exact (same_trans _ _ _ (notify_same _ s) (IH _)). Qed.
Lemma observe_health_same f s : same_input s (observe_health f s).
Proof. unfold observe_health, report_health. destruct (f _) as [h [r|]]; [|done]. split_ifs; [|done]. apply (same_trans _ (set_health h s)); [done|apply notify_same]. Qed.
Lemma record_same write s : same_input s (record write s).
Proof.
  unfold record. split_ifs; [done|]. destruct (write _) as [result st]. destruct (take_limit_notices st) as [notices st']. set (l := match notices with Ok l => l | Err _ => [] end).
  set (s1 := set_recorder _ _ s). assert (same_input s (fold_left (fun s n => notify (Notice_Limit n.1 n.2) s) l s1)) as K
    by (apply (same_trans _ s1); [done|apply notices_same]).
  destruct result as [u|e]; [done|]. split_ifs; [done|]. refine (same_trans _ _ _ K _). set (s2 := fold_left _ _ s1).
  apply (same_trans s2 (set_recorder {| rec := mark_incomplete s2.(shared).(rec); world := s2.(shared).(world) |} false s2)); [done|apply notify_same].
Qed.

Lemma loop_moves_ok s : held_ok s -> held_ok (loop_moves s).
Proof.
  intros [H1 H2 H3 H4]. unfold loop_moves. destruct (re_loop _) as [taken gone]. split; cbn; try done; [assert (FORWARD_BUFFER_SIZE = 32) as F by reflexivity; lia|].
  intros K. apply orb_false_iff in K as [K _]. auto.
Qed.

Lemma covers_prefix sent rest p received : p = sent ++ rest -> covers sent received -> exists q, q `prefix_of` p /\ covers q received.
Proof. intros -> H. exists sent. split; [by exists rest|done]. Qed.

Lemma pass_on_ok e s : held_ok s -> held_ok (pass_on e s).
Proof.
  intros H%loop_moves_ok. unfold pass_on. set (s1 := loop_moves s) in *. clearbody s1. destruct (forward_closed s1) eqn:K; [done|].
  destruct H as [H1 H2 H3 _]. destruct (H3 K) as (sent & lost & Ep & Cv & D). cbn [unforwarded dropped passing].
  assert (exists q, q `prefix_of` passed s1 ++ [e] /\ covers q (forwarded s1)) as Pre by (eapply covers_prefix; [|exact Cv]; by rewrite Ep, <- app_assoc).
  destruct (is_empty (unforwarded s1) && negb (dropped s1)) eqn:Em.
  - apply andb_true_iff in Em as [Em Dr]. destruct (unforwarded s1) as [|x q] eqn:Q; [|done]. apply negb_true_iff in Dr.
    assert (lost = []) as -> by (destruct lost; [done|]; rewrite Dr in D; destruct D as [_ D]; by specialize (D ltac:(done))). rewrite !app_nil_r in Ep.
    unfold loop_moves. destruct (re_loop _) as [taken gone]. cbn [forward_closed forward_unread unforwarded dropped set_forward passing]. rewrite K, Q. cbn [orb].
    assert (FORWARD_BUFFER_SIZE = 32) as F by reflexivity. destruct gone; [|destruct (_ <? _) eqn:B; breflect]; split; cbn; rewrite ?Q, ?Ep, ?Dr in *; try done; try lia.
    + intros _. exists (sent ++ [e]), []. rewrite !app_nil_r. split; [done|]. split; [by constructor|done].
    + exists (sent ++ [e]). split; [done|by constructor].
    + intros _. by exists sent, [].
  - assert (MAX_UNFORWARDED_INPUT_EVENTS = 256) as Mx by reflexivity. destruct (_ <=? _) eqn:B; breflect; (split; cbn; [|done| |done]).
    + rewrite zlen_app. change (zlen [e]) with 1. destruct (unforwarded s1) as [|x q]; cbn [tl]; [rewrite zlen_nil; lia|]. rewrite zlen_cons in H1. lia.
    + intros _. destruct (unforwarded s1) as [|x q]; [done|]. exists sent, (lost ++ [x]). cbn [tl]. rewrite Ep, orb_true_r, <- !app_assoc. split; [done|].
      split; [done|]. split; [by destruct lost|done].
    + rewrite zlen_app, zlen_cons, zlen_nil. lia.
    + intros _. exists sent, lost. rewrite orb_false_r, Ep, <- !app_assoc. done.
Qed.

Lemma permit_ok s : held_ok s -> held_ok (permit s).
Proof.
  intros H%loop_moves_ok. unfold permit. set (s1 := loop_moves s) in *. clearbody s1. destruct H as [H1 H2 H3 H4]. destruct (forward_closed s1) eqn:K.
  { split; cbn; try done. by rewrite K. }
  destruct (H3 eq_refl) as (sent & lost & Ep & Cv & D). assert (FORWARD_BUFFER_SIZE = 32) as F by reflexivity. destruct (dropped s1) eqn:Dr.
  - assert (lost <> []) as Ne by (by apply D). assert (covers (sent ++ lost) (forwarded s1 ++ [dropped_input])) as Cv' by (by constructor).
    split; cbn; [done|lia| |by eapply covers_prefix; [rewrite Ep, app_assoc|]]. intros _. exists (sent ++ lost), []. by rewrite Ep, <- app_assoc.
  - assert (lost = []) as -> by (destruct lost; [done|]; destruct D as [_ D]; by specialize (D ltac:(done))). cbn in Ep.
    destruct (unforwarded s1) as [|x q] eqn:Q; [split; rewrite ?Q, ?K, ?Dr; try done; intros _; by exists sent, []|]. rewrite zlen_cons in H1.
    assert (covers (sent ++ [x]) (forwarded s1 ++ [x])) as Cv' by (by constructor).
    split; cbn; [lia|lia| |by eapply covers_prefix; [rewrite Ep, (app_assoc _ [x] q)|]]. intros _. exists (sent ++ [x]), []. by rewrite Ep, <- app_assoc.
Qed.

Lemma accept_ok e s : held_ok s -> held_ok (accept e s).
Proof.
  intros H. destruct e as [[i o|a|[f|at_ms]|m|boundary completion|r|receipt]|e]; cbn [accept]; try by apply pass_on_ok.
  - set (s1 := record _ _). assert (held_ok s1) as H1 by (eapply same_input_ok; [|exact H]; eapply same_trans; [apply observe_health_same|apply record_same]).
    split_ifs; [done|]. apply pass_on_ok. by eapply same_input_ok; [|exact H1].
  - set (s1 := record _ _). assert (held_ok s1) as H1 by (eapply same_input_ok; [|exact H]; eapply same_trans; [apply observe_health_same|apply record_same]).
    split_ifs; [done|by apply pass_on_ok].
  - eapply same_input_ok; [apply record_same|done].
  - split_ifs; [destruct (confirm_capture_boundary _ _)|]; by eapply same_input_ok; [|exact H].
Qed.

Lemma accept_all_ok l s : held_ok s -> held_ok (fold_left (fun s e => accept e s) l s).
Proof. revert s. induction l as [|e l IH]; intros s H; cbn; [done|]. by apply IH, accept_ok. Qed.

Lemma recording_step_ok signal s : held_ok s -> held_ok (recording_step signal s).1.
Proof.
  intros H. destruct signal as [arrived|[e|]|active| | |f]; cbn [recording_step fst]; try done.
  - by apply accept_all_ok.
  - by apply accept_ok.
  - split_ifs; [done|]. destruct active; by eapply same_input_ok; [|exact H].
  - split_ifs; [|done]. eapply same_input_ok; [apply observe_health_same|done].
  - split_ifs; [by apply permit_ok, loop_moves_ok|by apply loop_moves_ok].
  - by eapply same_input_ok; [|exact H].
Qed.

Lemma run_recording_ok signals s : held_ok s -> held_ok (run_recording signals s).
Proof.
  revert s. induction signals as [|signal rest IH]; intros s H; cbn [run_recording]; [done|]. pose proof (recording_step_ok signal s H) as H'.
  destruct (recording_step signal s) as [s' []]; cbn in H'; [by apply IH|done].
Qed.

Lemma new_recording_ok st : held_ok (CaptureRecording_new st).
Proof. split; cbn; try done; [intros _; exists [], []|exists []]; split_and!; try done; constructor. Qed.
End Held.

(** ** Guarantees *)

(** C8. The recording does not depend on the voice loop: whatever the loop, the
    reader of the notices and the clock of the task do, the recorder, whether it
    is still fed and the answers to finish barriers are those of a recorder that
    is given the captured media alone, each frame, gap, timing record and barrier
    as it arrives. A busy, stalled or failed loop costs no recorded media. *)
Theorem recording_independent_of_loop `{C : RecordingCrypto, E : RecordingEnv} signals st :
  media (run_recording signals (CaptureRecording_new st)) =
  fold_left media_step (media_ops signals) {| k_recorder := st; k_feeding := true; k_answered := [] |}.
Proof. exact (run_recording_media signals (CaptureRecording_new st)). Qed.

(** A busy loop is told what it missed: at most 256 events are held for it
    and at most 32 are in its channel; what it receives is what was passed on, in
    order, each stretch that was given up replaced in its place by one error that
    says so; and while it is there, every event passed on was received, is held,
    or belongs to the stretch of which it is told next. *)
Theorem busy_loop_told_what_it_missed `{C : RecordingCrypto, E : RecordingEnv} signals st :
  let s := run_recording signals (CaptureRecording_new st) in
  zlen (unforwarded s) <= 256 /\ forward_unread s <= 32 /\
  (exists sent, sent `prefix_of` passed s /\ covers sent (forwarded s)) /\
  (forward_closed s = false -> exists sent lost, passed s = sent ++ lost ++ unforwarded s /\ covers sent (forwarded s) /\
    (dropped s = true <-> lost <> [])).
Proof.
  intros s. destruct (run_recording_ok signals _ (new_recording_ok st)) as [H1 [_ H2] H3 H4]. split_and!; assumption.
Qed.

(** ** A concrete run *)

(** A loop that never takes anything: 32 of 300 events are in its channel, 256
    are held, and the others are given up. *)
Definition stalled_env : RecordingEnv := {| re_loop := fun _ => (0, false); re_notices := fun _ => (1, false); re_clock := fun n => Z.of_nat n |}.

Example stalled_loop `{C : RecordingCrypto} st :
  let s := run_recording (E := stalled_env) (repeat (Rec_input (Some (Ok (Input_DeviceStatus [] [])))) 300) (CaptureRecording_new st) in
  (zlen (forwarded s), zlen (unforwarded s), dropped s, zlen (passed s)) = (32, 256, true, 300).
Proof. vm_compute. reflexivity. Qed.
