(* ===== verification/Database.v ===== *)
(** * The memory database

    What [SqliteMemoryStore] ([crates/memory/src/sqlite.rs]) keeps and how it is
    reached: the tables of [migrations/0001_controlled_memory.sql] and
    [migrations/0002_people.sql] with the constraints the statements run into,
    the transactions, and the programs that make several of them.

    SQLite is modelled by what its documentation promises of the statements the
    store makes. A statement may fail at any moment, busy or otherwise
    ([Env]); a transaction takes effect as a whole when it commits and not at
    all otherwise; transactions of different connections are serialized, so a
    call of the store is a sequence of atomic accesses ([prog]) and the accesses
    of other connections, in this process or another, come between them. *)

From S2P Require Import Prelude RustStr Errors MemoryProtocol MemoryRetrieval.

(** ** Failures *)

Definition store_error (kind : MemoryStoreErrorKind) (message : rstr) : MemoryStoreError :=
  MemoryStoreError_new kind message.
Definition not_found_error : MemoryStoreError := store_error NotFound (lit "memory record was not found").
Definition conflict_error : MemoryStoreError := store_error Conflict (lit "memory record revision conflict").
Definition storage_error : MemoryStoreError := store_error Storage (lit "memory database operation failed").

(** An error of [rusqlite] as [map_sqlite_error] tells it apart: the database
    was busy or locked, or anything else, a failed constraint and a row that
    does not convert included. *)
Inductive SqliteFailure : Type :=
| Failure_Busy
| Failure_Other.

Definition map_sqlite_error (error : SqliteFailure) : MemoryStoreError :=
  match error with
  | Failure_Busy => store_error Busy (lit "memory database is busy")
  | Failure_Other => storage_error
  end.

Definition sqlite_integer (value : Z) : mresult Z :=
  if value <=? i64_max then Ok value
  else Err (store_error Conflict (lit "memory numeric value exceeds SQLite range")).

Definition checked_unsigned (value : Z) : mresult Z :=
  if 0 <=? value then Ok value else Err invalid_database_error.

Definition checked_timestamp (value : Z) : mresult UnixTimestampMillis := map_db (UnixTimestampMillis_new value).
Definition checked_memory_id (value : Z) : mresult MemoryId :=
  let? value := checked_unsigned value in map_db (MemoryId_new value).
Definition checked_trace_id (value : Z) : mresult RetrievalTraceId :=
  let? value := checked_unsigned value in map_db (RetrievalTraceId_new value).

(** ** SQL's three-valued logic

    A comparison with NULL is unknown, and a CHECK fails only when it is false. *)

Definition sql_eq (column : option rstr) (value : rstr) : option bool := (fun c => bool_decide (c = value)) <$> column.
Definition sql_ge (column : option Z) (value : Z) : option bool := (fun c => value <=? c) <$> column.
Definition is_null {A} (column : option A) : option bool := Some (is_none column).
Definition is_not_null {A} (column : option A) : option bool := Some (is_some column).
Definition sql_and (a b : option bool) : option bool :=
  match a, b with
  | Some false, _ | _, Some false => Some false
  | Some true, Some true => Some true
  | _, _ => None
  end.
Definition sql_or (a b : option bool) : option bool :=
  match a, b with
  | Some true, _ | _, Some true => Some true
  | Some false, Some false => Some false
  | _, _ => None
  end.
Definition check (e : option bool) : bool := negb (bool_decide (e = Some false)).
Definition sql_in (column : option rstr) (values : list rstr) : option bool :=
  (fun c => bool_decide (c ∈ values)) <$> column.

(** [length(CAST(column AS BLOB)) BETWEEN 1 AND maximum]. *)
Definition bytes_within (maximum : Z) (column : rstr) : bool := (1 <=? blen column) && (blen column <=? maximum).

(** ** Rows *)

(** The columns of [memories] in both versions of the schema. *)
Record memory_columns : Type := {
  m_id : Z;
  m_kind : rstr;
  m_state : rstr;
  m_content : rstr;
  m_confidence : Z;
  m_created_at_ms : Z;
  m_updated_at_ms : Z;
  m_retention_kind : rstr;
  m_expires_at_ms : option Z;
  m_session_id : option Z;
  m_pinned : Z;
  m_prior_retention_kind : option rstr;
  m_prior_expires_at_ms : option Z;
  m_prior_session_id : option Z;
  m_revision : Z;
  m_last_used_at_ms : option Z;
  m_last_retrieval_reason : option rstr;
}.

(** Version 2 adds the person a memory is about. *)
Record memory_row : Type := MemoryRow { m_columns :> memory_columns; m_subject_person_id : Z }.

Definition retrieval_reasons : list rstr :=
  [lit "pinned_match"; lit "exact_phrase"; lit "shared_term"; lit "recent_working"].

(** The shape of a retention over its three columns. *)
Definition retention_shape (kind : option rstr) (expires : option Z) (session : option Z) (kinds : list rstr) : option bool :=
  sql_or (sql_and (sql_in kind kinds) (sql_and (is_not_null expires) (is_null session)))
    (sql_or (sql_and (sql_eq kind (lit "session")) (sql_and (is_null expires) (is_not_null session)))
       (sql_and (sql_eq kind (lit "until_deleted")) (sql_and (is_null expires) (is_null session)))).

Definition memory_check (r : memory_columns) : bool :=
  bool_decide (r.(m_kind) ∈ [lit "working"; lit "episodic"; lit "semantic"; lit "identity"; lit "relationship"])
  && bool_decide (r.(m_state) ∈ [lit "candidate"; lit "active"; lit "expired"])
  && bytes_within 4096 r.(m_content)
  && ((0 <=? r.(m_confidence)) && (r.(m_confidence) <=? 1000))
  && (0 <=? r.(m_created_at_ms)) && (r.(m_created_at_ms) <=? r.(m_updated_at_ms))
  && bool_decide (r.(m_retention_kind) ∈ [lit "working"; lit "session"; lit "until"; lit "until_deleted"])
  && check (sql_ge r.(m_expires_at_ms) 0) && check (sql_ge r.(m_session_id) 0)
  && ((r.(m_pinned) =? 0) || (r.(m_pinned) =? 1))
  && check (sql_in r.(m_prior_retention_kind) [lit "session"; lit "until"; lit "until_deleted"])
  && check (sql_ge r.(m_prior_expires_at_ms) 0) && check (sql_ge r.(m_prior_session_id) 0)
  && (1 <=? r.(m_revision))
  && check (sql_ge r.(m_last_used_at_ms) r.(m_created_at_ms))
  && check (sql_in r.(m_last_retrieval_reason) retrieval_reasons)
  && check (retention_shape (Some r.(m_retention_kind)) r.(m_expires_at_ms) r.(m_session_id) [lit "working"; lit "until"])
  && (negb (bool_decide (r.(m_kind) = lit "working")) || bool_decide (r.(m_retention_kind) = lit "working"))
  && (bool_decide (r.(m_kind) = lit "working") || negb (bool_decide (r.(m_retention_kind) = lit "working")))
  && (negb (bool_decide (r.(m_kind) = lit "working")) || (r.(m_pinned) =? 0))
  && check (sql_or
       (sql_and (Some (r.(m_pinned) =? 0)) (sql_and (is_null r.(m_prior_retention_kind))
          (sql_and (is_null r.(m_prior_expires_at_ms)) (is_null r.(m_prior_session_id)))))
       (sql_and (Some (r.(m_pinned) =? 1)) (sql_and (Some (bool_decide (r.(m_retention_kind) = lit "until_deleted")))
          (retention_shape r.(m_prior_retention_kind) r.(m_prior_expires_at_ms) r.(m_prior_session_id) [lit "until"])))).

Record source_row : Type := {
  s_id : Z;
  s_memory_id : Z;
  s_kind : rstr;
  s_source_id : rstr;
  s_source_timestamp_ms : Z;
  s_actor : rstr;
  s_content_digest : option rstr;
  s_confirmation_id : option rstr;
  s_approved_revision : option Z;
  s_created_at_ms : Z;
}.

Definition user_approved : rstr := lit "user_approved".

Definition source_check (r : source_row) : bool :=
  bool_decide (r.(s_kind) ∈ [lit "user_provided"; lit "user_edited"; lit "completed_exchange"; lit "application_imported"; user_approved])
  && bytes_within 512 r.(s_source_id) && (0 <=? r.(s_source_timestamp_ms)) && bytes_within 256 r.(s_actor)
  && check (bytes_within 256 <$> r.(s_content_digest)) && check (bytes_within 512 <$> r.(s_confirmation_id))
  && check (sql_ge r.(s_approved_revision) 1) && (0 <=? r.(s_created_at_ms))
  && check (sql_or
       (sql_and (Some (bool_decide (r.(s_kind) = user_approved))) (sql_and (sql_eq r.(s_confirmation_id) r.(s_source_id))
          (sql_and (is_not_null r.(s_approved_revision)) (is_not_null r.(s_content_digest)))))
       (sql_and (Some (negb (bool_decide (r.(s_kind) = user_approved))))
          (sql_and (is_null r.(s_confirmation_id)) (is_null r.(s_approved_revision))))).

Record trace_row : Type := {
  t_id : Z;
  t_turn_id : Z;
  t_created_at_ms : Z;
  t_maximum_items : Z;
  t_maximum_bytes : Z;
  t_selected_items : Z;
  t_used_bytes : Z;
  t_exclusions : MemoryTraceExclusions;
}.

Definition trace_check (r : trace_row) : bool :=
  (0 <=? r.(t_turn_id)) && (0 <=? r.(t_created_at_ms))
  && ((1 <=? r.(t_maximum_items)) && (r.(t_maximum_items) <=? 8))
  && ((1 <=? r.(t_maximum_bytes)) && (r.(t_maximum_bytes) <=? 8192))
  && ((0 <=? r.(t_selected_items)) && (r.(t_selected_items) <=? r.(t_maximum_items)))
  && ((0 <=? r.(t_used_bytes)) && (r.(t_used_bytes) <=? r.(t_maximum_bytes)))
  && (0 <=? r.(t_exclusions).(by_state)) && (0 <=? r.(t_exclusions).(by_expiry)) && (0 <=? r.(t_exclusions).(by_relevance))
  && (0 <=? r.(t_exclusions).(by_item_limit)) && (0 <=? r.(t_exclusions).(by_byte_limit)).

Record item_row : Type := { i_trace_id : Z; i_memory_id : Z; i_ordinal : Z; i_reason : rstr; i_content_bytes : Z }.

Definition item_check (r : item_row) : bool :=
  (0 <=? r.(i_ordinal)) && bool_decide (r.(i_reason) ∈ retrieval_reasons)
  && ((1 <=? r.(i_content_bytes)) && (r.(i_content_bytes) <=? 4096)).

Record person_row : Type := {
  p_id : Z;
  p_is_owner : Z;
  p_maturity : rstr;
  p_needs_review : Z;
  p_created_at_ms : Z;
}.

Definition person_check (r : person_row) : bool :=
  ((r.(p_is_owner) =? 0) || (r.(p_is_owner) =? 1))
  && bool_decide (r.(p_maturity) ∈ [lit "provisional"; lit "mature"])
  && ((r.(p_needs_review) =? 0) || (r.(p_needs_review) =? 1)) && (0 <=? r.(p_created_at_ms))
  && ((r.(p_is_owner) =? 0) || ((r.(p_id) =? 1) && (r.(p_needs_review) =? 0))).

Record name_row : Type := { pn_person_id : Z; pn_ordinal : Z; pn_display : rstr; pn_key : rstr }.

Definition name_check (r : name_row) : bool :=
  (0 <=? r.(pn_ordinal)) && bytes_within 128 r.(pn_display) && bytes_within 128 r.(pn_key).

Record signature_row : Type := {
  v_id : Z;
  v_person_id : Z;
  v_model_id : rstr;
  v_model_version : rstr;
  v_role : rstr;
  v_dimension : Z;
  v_speech_ms : Z;
  v_created_at_ms : Z;
  v_source_session_id : Z;
  v_nonce : list Z;
  v_ciphertext : list Z;
}.

Definition signature_check (r : signature_row) : bool :=
  bytes_within 128 r.(v_model_id) && bytes_within 128 r.(v_model_version)
  && bool_decide (r.(v_role) ∈ [lit "anchor"; lit "enrolment"; lit "refinement"])
  && ((1 <=? r.(v_dimension)) && (r.(v_dimension) <=? 4096)) && (0 <=? r.(v_speech_ms)) && (0 <=? r.(v_created_at_ms))
  && (0 <=? r.(v_source_session_id)) && (zlen r.(v_nonce) =? 12) && (zlen r.(v_ciphertext) =? r.(v_dimension) * 4 + 16).

(** ** Tables *)

(** A table with an AUTOINCREMENT key: its rows and the largest key ever given. *)
Record table (A : Type) : Type := Table { rows : list A; sequence : Z }.
Arguments Table {A} _ _.
Arguments rows {A} _.
Arguments sequence {A} _.

Record Database : Type := {
  application_id : Z;
  user_version : Z;
  schema_migrations : list (Z * rstr);
  memories : table memory_row;
  memory_sources : table source_row;
  retrieval_traces : table trace_row;
  retrieval_items : list item_row;
  people : table person_row;
  person_names : list name_row;
  voice_signatures : table signature_row;
  signature_key_check : option (list Z * list Z);
}.

Definition set_memory_tables (m : table memory_row) (s : table source_row) (t : table trace_row) (i : list item_row)
    (db : Database) : Database :=
  {| application_id := db.(application_id); user_version := db.(user_version); schema_migrations := db.(schema_migrations);
     memories := m; memory_sources := s; retrieval_traces := t; retrieval_items := i; people := db.(people);
     person_names := db.(person_names); voice_signatures := db.(voice_signatures);
     signature_key_check := db.(signature_key_check) |}.

Definition set_people_tables (p : table person_row) (n : list name_row) (v : table signature_row)
    (k : option (list Z * list Z)) (db : Database) : Database :=
  {| application_id := db.(application_id); user_version := db.(user_version); schema_migrations := db.(schema_migrations);
     memories := db.(memories); memory_sources := db.(memory_sources); retrieval_traces := db.(retrieval_traces);
     retrieval_items := db.(retrieval_items); people := p; person_names := n; voice_signatures := v;
     signature_key_check := k |}.

Definition set_memories m db := set_memory_tables m db.(memory_sources) db.(retrieval_traces) db.(retrieval_items) db.
Definition set_sources s db := set_memory_tables db.(memories) s db.(retrieval_traces) db.(retrieval_items) db.
Definition set_traces t db := set_memory_tables db.(memories) db.(memory_sources) t db.(retrieval_items) db.
Definition set_items i db := set_memory_tables db.(memories) db.(memory_sources) db.(retrieval_traces) i db.
Definition set_people p db := set_people_tables p db.(person_names) db.(voice_signatures) db.(signature_key_check) db.
Definition set_names n db := set_people_tables db.(people) n db.(voice_signatures) db.(signature_key_check) db.
Definition set_signatures v db := set_people_tables db.(people) db.(person_names) v db.(signature_key_check) db.
Definition set_key_check k db := set_people_tables db.(people) db.(person_names) db.(voice_signatures) k db.

(** ** Statements *)

Abbreviation sql A := (result A SqliteFailure) (only parsing).

(** A statement answers a value and leaves a database, or fails and leaves the
    one it found. *)
Definition stmt (A : Type) : Type := Database -> sql (A * Database).

(** A constraint that does not hold fails the statement. *)
Definition constraint (holds : bool) : sql unit := if holds then Ok tt else Err Failure_Other.

(** The key AUTOINCREMENT gives; a sequence at its maximum makes the insert fail. *)
Definition next_key {A} (t : table A) : sql Z :=
  if t.(sequence) <? i64_max then Ok (t.(sequence) + 1) else Err Failure_Other.

Definition append {A} (key : Z) (row : A) (t : table A) : table A := Table (t.(rows) ++ [row]) key.

(** [UPDATE ... SET ... WHERE ...]: the number of rows matched and the rows
    after it. A value that leaves the range of a STRICT integer column, or a row
    that fails a CHECK, fails the statement. *)
Fixpoint update_rows {A} (matching : A -> bool) (assign : A -> option A) (holds : A -> bool) (l : list A) : sql (Z * list A) :=
  match l with
  | [] => Ok (0, [])
  | r :: l =>
      let? '(n, l') := update_rows matching assign holds l in
      if matching r then
        let? r' := ok_or (assign r) Failure_Other in
        let? _ := constraint (holds r') in
        Ok (n + 1, r' :: l')
      else Ok (n, r :: l')
  end.

(** [revision + 1] past the range becomes a REAL, which a STRICT column refuses. *)
Definition next_revision (revision : Z) : option Z := if revision <? i64_max then Some (revision + 1) else None.

Definition has_memory (id : Z) (db : Database) : bool := existsb (fun r : memory_row => m_id r =? id) db.(memories).(rows).
Definition has_person (id : Z) (db : Database) : bool := existsb (fun r => r.(p_id) =? id) db.(people).(rows).
Definition has_trace (id : Z) (db : Database) : bool := existsb (fun r => r.(t_id) =? id) db.(retrieval_traces).(rows).

(** An UPDATE of columns of [memories] that no reference depends on. *)
Definition update_memories (matching : memory_row -> bool) (assign : memory_columns -> option memory_columns) : stmt Z :=
  fun db =>
    let? '(n, l) := update_rows matching (fun r => (fun c => MemoryRow c r.(m_subject_person_id)) <$> assign r)
                      (fun r => memory_check r) db.(memories).(rows) in
    Ok (n, set_memories (Table l db.(memories).(sequence)) db).

(** DELETE of memories, with its cascades to sources and retrieval items. *)
Definition delete_memories (matching : memory_row -> bool) : stmt Z :=
  fun db =>
    let gone := List.filter matching db.(memories).(rows) in
    let kept_id id := negb (existsb (fun r : memory_row => m_id r =? id) gone) in
    Ok (zlen gone,
        set_memory_tables (Table (List.filter (fun r => negb (matching r)) db.(memories).(rows)) db.(memories).(sequence))
          (Table (List.filter (fun s => kept_id s.(s_memory_id)) db.(memory_sources).(rows)) db.(memory_sources).(sequence))
          db.(retrieval_traces) (List.filter (fun i => kept_id i.(i_memory_id)) db.(retrieval_items)) db).

(** ** Transactions and programs *)

(** What the engine and the random generator answer, by the number of times
    they were asked within one access. *)
Record Env : Type := { env_failure : nat -> option SqliteFailure; env_nonce : nat -> option (list Z) }.

(** A computation inside a transaction. After an error the transaction is
    dropped, so nothing but the error remains of it. *)
Definition Tx (A : Type) : Type := Env -> nat -> Database -> mresult (A * nat * Database).

(** The accesses of a call, each atomic. *)
Inductive prog (A : Type) : Type :=
| Done (answer : A)
| Access (access : Env -> Database -> Database * prog A).
Arguments Done {A} _.
Arguments Access {A} _.

Fixpoint prog_bind {A B} (p : prog A) (k : A -> prog B) : prog B :=
  match p with
  | Done a => k a
  | Access f => Access (fun env db => let '(db', p') := f env db in (db', prog_bind p' k))
  end.

Definition op (A : Type) : Type := prog (mresult A).

(** [&Connection]: outside a transaction each statement is an access of its own;
    a [Transaction] is a connection too. *)
Class Connection (M : Type -> Type) : Type := {
  lift : forall {A}, mresult A -> M A;
  bind : forall {A B}, M A -> (A -> M B) -> M B;
  execute : forall {A}, stmt A -> M A;
}.

Notation "'let*' x := m 'in' k" := (bind m (fun x => k))
  (at level 10, x binder, m at level 100, k at level 200) : rust_scope.

Definition lift_sql {A} (r : sql A) : mresult A := match r with Ok a => Ok a | Err f => Err (map_sqlite_error f) end.

#[export] Instance tx_connection : Connection Tx := {
  lift A r := fun _ n db => let? a := r in Ok (a, n, db);
  bind A B m k := fun env n db => let? '(a, n, db) := m env n db in k a env n db;
  execute A s := fun env n db =>
    match env.(env_failure) n with
    | Some f => Err (map_sqlite_error f)
    | None => let? '(a, db) := lift_sql (s db) in Ok (a, S n, db)
    end;
}.

#[export] Instance op_connection : Connection op := {
  lift A r := Done r;
  bind A B m k := prog_bind m (fun r => match r with Ok a => k a | Err e => Done (Err e) end);
  execute A s := Access (fun env db =>
    match env.(env_failure) 0%nat with
    | Some f => (db, Done (Err (map_sqlite_error f)))
    | None => match s db with Ok (a, db) => (db, Done (Ok a)) | Err f => (db, Done (Err (map_sqlite_error f))) end
    end);
}.

Definition query {M} `{Connection M} {A} (q : Database -> sql A) : M A :=
  execute (fun db => let? a := q db in Ok (a, db)).

(** BEGIN, the body and COMMIT as one access. *)
Definition transaction {A} (body : Tx A) : op A :=
  Access (fun env db =>
    match (let* _ := query (fun _ => Ok tt) in let* a := body in let* _ := query (fun _ => Ok tt) in lift (Ok a)) env 0%nat db with
    | Ok (a, _, db') => (db', Done (Ok a))
    | Err e => (db, Done (Err e))
    end).

(** [OptionalExtension::optional] on a query of at most one row. *)
Definition first_row {A} (l : list A) : option A := head l.
