(* ===== verification/MemoryStore.v ===== *)
(** * Controlled memory: the store

    [crates/memory/src/sqlite.rs]: the operations of [SqliteMemoryStore] on
    memories, statement by statement, and the checks a connection makes of the
    file it opened; [provider.rs], which retrieves for a turn. [Database] has the tables and the transactions.

    The text of the migrations and the digest of [sha2] are parameters; paths,
    file permissions and the creation of the file are the operating system's. *)

From S2P Require Import Prelude RustStr Errors Privacy MemoryProtocol MemoryRetrieval Database.

Definition SQLITE_APPLICATION_ID : Z := 0x4352544d.
Definition SCHEMA_VERSION : Z := 2.
Definition MAX_MEMORY_LIST_PAGE_ITEMS : Z := 50.
Definition MAX_MEMORY_INSPECTION_HISTORY_ITEMS : Z := 32.
Definition MAX_MEMORY_SCAN_RECORDS : Z := 1024.

(** ** Reading rows *)

Definition parse_kind (value : rstr) : mresult MemoryKind :=
  if bool_decide (value = lit "working") then Ok Working
  else if bool_decide (value = lit "episodic") then Ok Episodic
  else if bool_decide (value = lit "semantic") then Ok Semantic
  else if bool_decide (value = lit "identity") then Ok Identity
  else if bool_decide (value = lit "relationship") then Ok Relationship
  else Err invalid_database_error.

Definition parse_state (value : rstr) : mresult MemoryState :=
  if bool_decide (value = lit "candidate") then Ok State_Candidate
  else if bool_decide (value = lit "active") then Ok State_Active
  else if bool_decide (value = lit "expired") then Ok State_Expired
  else Err invalid_database_error.

Definition parse_provenance_kind (value : rstr) : mresult MemoryProvenanceKind :=
  if bool_decide (value = lit "user_provided") then Ok UserProvided
  else if bool_decide (value = lit "user_edited") then Ok UserEdited
  else if bool_decide (value = lit "completed_exchange") then Ok CompletedExchange
  else if bool_decide (value = lit "application_imported") then Ok ApplicationImported
  else Err invalid_database_error.

Definition parse_retrieval_reason (value : rstr) : mresult MemoryRetrievalReason :=
  if bool_decide (value = lit "pinned_match") then Ok PinnedMatch
  else if bool_decide (value = lit "exact_phrase") then Ok ExactPhrase
  else if bool_decide (value = lit "shared_term") then Ok SharedTerm
  else if bool_decide (value = lit "recent_working") then Ok RecentWorking
  else Err invalid_database_error.

Definition parse_retention (kind : rstr) (expires_at : option Z) (session_id : option Z) : mresult MemoryRetention :=
  if bool_decide (kind = lit "working") then
    let? e := ok_or expires_at invalid_database_error in
    let? e := checked_timestamp e in Ok (Retention_Working e)
  else if bool_decide (kind = lit "session") then
    let? s := ok_or session_id invalid_database_error in Ok (Retention_Session (SessionId_new s))
  else if bool_decide (kind = lit "until") then
    let? e := ok_or expires_at invalid_database_error in
    let? e := checked_timestamp e in Ok (Retention_Until e)
  else if bool_decide (kind = lit "until_deleted") then Ok Retention_UntilDeleted
  else Err invalid_database_error.

Definition retention_columns (retention : MemoryRetention) : mresult (rstr * option Z * option Z) :=
  let? session := transpose_map (fun s => sqlite_integer (SessionId_get s)) (retention_session_id retention) in
  Ok (MemoryRetention_as_str retention, millis <$> retention_expires_at retention, session).

(** [store_to_sql_conversion_error] and [protocol_to_sql_conversion_error]: a
    column that does not convert has no SQLite error code. *)
Definition convert {A E} (r : result A E) : sql A := match r with Ok a => Ok a | Err _ => Err Failure_Other end.

(** [row.get::<_, String>] of a column that is NULL. *)
Definition not_null {A} (column : option A) : sql A := ok_or column Failure_Other.

(** [SELECT max(id)] as a key: the row with the largest identifier. *)
Definition latest (l : list source_row) : option source_row :=
  foldl (fun best s => match best with
                       | Some b => if b.(s_id) <? s.(s_id) then Some s else Some b
                       | None => Some s
                       end) None l.

Definition is_approval (s : source_row) : bool := bool_decide (s.(s_kind) = user_approved).
Definition sources_of (memory_id : Z) (db : Database) : list source_row :=
  List.filter (fun s => (s.(s_memory_id) =? memory_id) && negb (is_approval s)) db.(memory_sources).(rows).
Definition approvals_of (memory_id : Z) (db : Database) : list source_row :=
  List.filter (fun s => (s.(s_memory_id) =? memory_id) && is_approval s) db.(memory_sources).(rows).

Record joined_row : Type := { j_memory : memory_row; j_source : source_row; j_approval : option source_row }.

(** [RECORD_QUERY]. *)
Definition join_row (db : Database) (m : memory_row) : option joined_row :=
  (fun s => {| j_memory := m; j_source := s; j_approval := latest (approvals_of (m_id m) db) |})
    <$> latest (sources_of (m_id m) db).
Definition record_rows (matching : memory_row -> bool) (db : Database) : list joined_row :=
  omap (join_row db) (List.filter matching db.(memories).(rows)).

Definition order_by_id (l : list joined_row) : list joined_row :=
  sort_by (fun a b => m_id a.(j_memory) ?= m_id b.(j_memory)) l.
Definition order_by_id_desc (l : list joined_row) : list joined_row :=
  sort_by (fun a b => m_id b.(j_memory) ?= m_id a.(j_memory)) l.

Definition row_to_provenance (s : source_row) : sql MemoryProvenance :=
  let? kind := convert (parse_provenance_kind s.(s_kind)) in
  let? at_ms := convert (checked_timestamp s.(s_source_timestamp_ms)) in
  convert (MemoryProvenance_new kind s.(s_source_id) at_ms s.(s_actor) s.(s_content_digest)).

Definition row_to_approval (s : source_row) : sql MemoryApprovalEvidence :=
  let? confirmation := not_null s.(s_confirmation_id) in
  let? at_ms := convert (checked_timestamp s.(s_source_timestamp_ms)) in
  let? revision := not_null s.(s_approved_revision) in
  let? revision := convert (checked_unsigned revision) in
  let? digest := not_null s.(s_content_digest) in
  convert (from_stored confirmation s.(s_actor) at_ms revision digest).

Definition optional_approval (a : option source_row) : sql (option MemoryApprovalEvidence) :=
  match a with
  | None => Ok None
  | Some a => if is_none a.(s_confirmation_id) then Ok None else let? e := row_to_approval a in Ok (Some e)
  end.

(** [Iterator::collect] into a [Result]. *)
Fixpoint try_map {A B E} (f : A -> result B E) (l : list A) : result (list B) E :=
  match l with
  | [] => Ok []
  | a :: l => let? b := f a in let? bs := try_map f l in Ok (b :: bs)
  end.

Section Store.
Context `{Sha : Sha256}.

Definition row_to_record (j : joined_row) : sql MemoryRecord :=
  let m := j.(j_memory) in
  let? kind := convert (parse_kind m.(m_kind)) in
  let? state := convert (parse_state m.(m_state)) in
  let content := m.(m_content) in
  let? created_at := convert (checked_timestamp m.(m_created_at_ms)) in
  let? session := convert (transpose_map checked_unsigned m.(m_session_id)) in
  let? retention := convert (parse_retention m.(m_retention_kind) m.(m_expires_at_ms) session) in
  let? provenance := row_to_provenance j.(j_source) in
  let? approval := optional_approval j.(j_approval) in
  let current_approval :=
    if bool_decide (state = State_Candidate) then None
    else match approval with Some e => if matches_content e content then Some e else None | None => None end in
  let? _ := constraint ((0 <=? m.(m_confidence)) && (m.(m_confidence) <=? u16_max)) in
  let? confidence := convert (MemoryConfidence_new m.(m_confidence)) in
  let? draft := convert (MemoryDraft_new kind content provenance confidence created_at retention) in
  let? subject := convert (checked_unsigned m.(m_subject_person_id)) in
  let? subject := convert (PersonId_new subject) in
  let? id := convert (checked_memory_id m.(m_id)) in
  let? updated_at := convert (checked_timestamp m.(m_updated_at_ms)) in
  let? revision := convert (checked_unsigned m.(m_revision)) in
  let? last_used_at := convert (transpose_map checked_timestamp m.(m_last_used_at_ms)) in
  let? reason := convert (transpose_map parse_retrieval_reason m.(m_last_retrieval_reason)) in
  convert (MemoryRecord_new id (draft_with_subject draft subject) state updated_at (m.(m_pinned) =? 1) revision
             current_approval last_used_at reason).

(** [query_row(..., row_to_record).optional()]. *)
Definition record_by_id (memory_id : Z) (db : Database) : sql (option MemoryRecord) :=
  match record_rows (fun m => m_id m =? memory_id) db with
  | [] => Ok None
  | j :: _ => let? r := row_to_record j in Ok (Some r)
  end.

(** ** Writing rows *)

Definition insert_source (memory_id : Z) (p : MemoryProvenance) (created_at : UnixTimestampMillis) : stmt unit :=
  fun db =>
    let? key := next_key db.(memory_sources) in
    let row := {| s_id := key; s_memory_id := memory_id; s_kind := MemoryProvenanceKind_as_str p.(provenance_kind);
                  s_source_id := p.(source_id); s_source_timestamp_ms := p.(source_timestamp).(millis);
                  s_actor := p.(provenance_actor); s_content_digest := p.(provenance_digest); s_confirmation_id := None;
                  s_approved_revision := None; s_created_at_ms := created_at.(millis) |} in
    let? _ := constraint (source_check row && has_memory memory_id db) in
    Ok (tt, set_sources (append key row db.(memory_sources)) db).

Definition insert_approval (memory_id : Z) (e : MemoryApprovalEvidence) (approved_revision : Z)
    (created_at : UnixTimestampMillis) : stmt unit :=
  fun db =>
    let? key := next_key db.(memory_sources) in
    let row := {| s_id := key; s_memory_id := memory_id; s_kind := user_approved;
                  s_source_id := e.(evidence_confirmation_id); s_source_timestamp_ms := e.(evidence_confirmed_at).(millis);
                  s_actor := e.(evidence_actor); s_content_digest := Some e.(evidence_digest);
                  s_confirmation_id := Some e.(evidence_confirmation_id); s_approved_revision := Some approved_revision;
                  s_created_at_ms := created_at.(millis) |} in
    let? _ := constraint (source_check row && has_memory memory_id db) in
    Ok (tt, set_sources (append key row db.(memory_sources)) db).

Definition insert_memory (d : MemoryDraft) (retention_kind : rstr) (expires_at session : option Z) (subject : Z) : stmt Z :=
  fun db =>
    let? key := next_key db.(memories) in
    let row := {| m_id := key; m_kind := MemoryKind_as_str d.(draft_kind); m_state := MemoryState_as_str (initial_state d);
                  m_content := d.(draft_content); m_confidence := confidence_get d.(draft_confidence);
                  m_created_at_ms := d.(draft_created_at).(millis); m_updated_at_ms := d.(draft_created_at).(millis);
                  m_retention_kind := retention_kind; m_expires_at_ms := expires_at; m_session_id := session; m_pinned := 0;
                  m_prior_retention_kind := None; m_prior_expires_at_ms := None; m_prior_session_id := None;
                  m_revision := 1; m_last_used_at_ms := None; m_last_retrieval_reason := None |} in
    let? _ := constraint (memory_check row && has_person subject db) in
    Ok (key, set_memories (append key (MemoryRow row subject) db.(memories)) db).

(** [state = 'expired', updated_at_ms = max(updated_at_ms, ?1), revision = revision + 1]. *)
Definition expire_columns (at_ms : Z) (m : memory_columns) : option memory_columns :=
  (fun revision =>
     {| m_id := m.(m_id); m_kind := m.(m_kind); m_state := lit "expired"; m_content := m.(m_content);
        m_confidence := m.(m_confidence); m_created_at_ms := m.(m_created_at_ms);
        m_updated_at_ms := Z.max m.(m_updated_at_ms) at_ms; m_retention_kind := m.(m_retention_kind);
        m_expires_at_ms := m.(m_expires_at_ms); m_session_id := m.(m_session_id); m_pinned := m.(m_pinned);
        m_prior_retention_kind := m.(m_prior_retention_kind); m_prior_expires_at_ms := m.(m_prior_expires_at_ms);
        m_prior_session_id := m.(m_prior_session_id); m_revision := revision; m_last_used_at_ms := m.(m_last_used_at_ms);
        m_last_retrieval_reason := m.(m_last_retrieval_reason) |}) <$> next_revision m.(m_revision).

Definition is_due (now_ms : Z) (m : memory_columns) : bool :=
  negb (bool_decide (m.(m_state) = lit "expired"))
  && bool_decide (m.(m_retention_kind) ∈ [lit "working"; lit "until"])
  && is_some_and m.(m_expires_at_ms) (fun e => e <=? now_ms).

Definition expire_due_in {M} `{Connection M} (now : UnixTimestampMillis) : M Z :=
  execute (update_memories (fun m => is_due now.(millis) m) (expire_columns now.(millis))).

Definition expire_due (now : UnixTimestampMillis) : op Z := transaction (expire_due_in now).

(** ** Opening the file *)

(** The texts of the two migrations. *)
Context (MIGRATIONS : list rstr).

(** [format!("{hash:016x}")] of the FNV-1a hash. *)
Definition hex_digit (n : Z) : rchar := if n <? 10 then 48 + n else 87 + n.
Definition hex16 (n : Z) : rstr := map (fun i => hex_digit (Z.land (Z.shiftr n (4 * (15 - Z.of_nat i))) 15)) (seq 0 16).
Definition migration_checksum (migration : rstr) : rstr :=
  hex16 (foldl (fun hash byte => (Z.lxor hash byte * 0x100000001b3) mod 2 ^ 64) 0xcbf29ce484222325 (utf8_encode migration)).

(** [SELECT count( * ) FROM pragma_foreign_key_check]. *)
Definition dangling (db : Database) : Z :=
  zlen (List.filter (fun s => negb (has_memory s.(s_memory_id) db)) db.(memory_sources).(rows))
  + zlen (List.filter (fun i => negb (has_memory i.(i_memory_id) db)) db.(retrieval_items))
  + zlen (List.filter (fun i => negb (has_trace i.(i_trace_id) db)) db.(retrieval_items))
  + zlen (List.filter (fun m => negb (has_person m.(m_subject_person_id) db)) db.(memories).(rows))
  + zlen (List.filter (fun n => negb (has_person n.(pn_person_id) db)) db.(person_names))
  + zlen (List.filter (fun v => negb (has_person v.(v_person_id) db)) db.(voice_signatures).(rows)).

Section Connected.
Context {M : Type -> Type} `{Connection M}.

Definition foreign_key_failures : M Z := query (fun db => Ok (dangling db)).

Definition read_user_version : M Z :=
  let* application_id := query (fun db => Ok db.(application_id)) in
  if negb (application_id =? SQLITE_APPLICATION_ID) then lift (Err invalid_database_error)
  else
    let* user_version := query (fun db => Ok db.(user_version)) in
    if SCHEMA_VERSION <? user_version then
      lift (Err (store_error UnsupportedSchema (lit "memory database schema is newer than this runtime")))
    else lift (Ok user_version).

Fixpoint check_migrations (index : Z) (migrations : list rstr) : M unit :=
  match migrations with
  | [] => lift (Ok tt)
  | migration :: rest =>
      let* checksum := query (fun db => Ok (snd <$> List.find (fun v => fst v =? index + 1) db.(schema_migrations))) in
      if negb (bool_decide (checksum = Some (migration_checksum migration))) then lift (Err invalid_database_error)
      else check_migrations (index + 1) rest
  end.

Definition validate_migrations (version : Z) : M unit :=
  let* applied := query (fun db => Ok (zlen db.(schema_migrations))) in
  if negb (applied =? version) then lift (Err invalid_database_error)
  else
    let* _ := check_migrations 0 (take (Z.to_nat version) MIGRATIONS) in
    let* failures := foreign_key_failures in
    if negb (failures =? 0) then lift (Err invalid_database_error) else lift (Ok tt).

Definition validate_database : M unit :=
  let* version := read_user_version in
  if negb (version =? SCHEMA_VERSION) then lift (Err invalid_database_error) else validate_migrations SCHEMA_VERSION.
End Connected.

(** [open_connection] and its pragmas, then the checks. *)
Definition connection : op unit :=
  let* _ := query (fun _ => Ok tt) in
  validate_database.

(** ** Reading memories *)

Definition inspect (memory_id : MemoryId) (now : UnixTimestampMillis) : op MemoryRecord :=
  let* _ := connection in
  let* _ := expire_due now in
  let* id := lift (sqlite_integer (MemoryId_get memory_id)) in
  let* r := query (record_by_id id) in
  lift (ok_or r not_found_error).

Definition list_records (now : UnixTimestampMillis) : op (list MemoryRecord) :=
  let* _ := connection in
  let* _ := expire_due now in
  query (fun db => try_map row_to_record (order_by_id (record_rows (fun _ => true) db))).

Definition validate_limit (limit maximum : Z) (message : rstr) : mresult unit :=
  if (1 <=? limit) && (limit <=? maximum) then Ok tt else Err (store_error LimitExceeded message).

(** A page: its records and where the next one begins. *)
Definition list_page (now : UnixTimestampMillis) (before_id : option MemoryId) (limit : Z)
  : op (list MemoryRecord * option MemoryId) :=
  let* _ := lift (validate_limit limit MAX_MEMORY_LIST_PAGE_ITEMS (lit "memory list page limit must be 1 through 50")) in
  let* _ := connection in
  let* _ := expire_due now in
  let* before := lift (transpose_map (fun id => sqlite_integer (MemoryId_get id)) before_id) in
  let* records := query (fun db =>
      try_map row_to_record
        (take (Z.to_nat (limit + 1)) (order_by_id_desc (record_rows (fun m => is_none_or before (fun b => m_id m <? b)) db)))) in
  let kept := if limit <? zlen records then removelast records else records in
  lift (Ok (kept, if limit <? zlen records then record_id <$> last kept else None)).

Definition inspect_with_sources (memory_id : MemoryId) (now : UnixTimestampMillis) : op MemoryInspection :=
  let* _ := connection in
  let* _ := expire_due now in
  transaction
    (let* id := lift (sqlite_integer (MemoryId_get memory_id)) in
     let* r := query (record_by_id id) in
     let* r := lift (ok_or r not_found_error) in
     let* sources := query (fun db => try_map row_to_provenance (sources_of id db)) in
     let* approvals := query (fun db => try_map row_to_approval (approvals_of id db)) in
     lift (map_db (MemoryInspection_new r sources approvals))).

(** [ORDER BY id DESC LIMIT ?2] of rows kept in the order of their keys. *)
Definition bounded_history {A} (limit : Z) (select : Database -> list source_row) (mapper : source_row -> sql A)
  : Tx (list A * bool) :=
  let* values := query (fun db => try_map mapper (take (Z.to_nat (limit + 1)) (reverse (select db)))) in
  let truncated := limit <? zlen values in
  lift (Ok (reverse (if truncated then removelast values else values), truncated)).

Definition inspect_bounded (memory_id : MemoryId) (now : UnixTimestampMillis) (history_limit : Z)
  : op (MemoryInspection * bool * bool) :=
  let* _ := lift (validate_limit history_limit MAX_MEMORY_INSPECTION_HISTORY_ITEMS
                    (lit "memory inspection history limit must be 1 through 32")) in
  let* _ := connection in
  let* _ := expire_due now in
  transaction
    (let* id := lift (sqlite_integer (MemoryId_get memory_id)) in
     let* r := query (record_by_id id) in
     let* r := lift (ok_or r not_found_error) in
     let* '(sources, sources_truncated) := bounded_history history_limit (sources_of id) row_to_provenance in
     let* '(approvals, approvals_truncated) := bounded_history history_limit (approvals_of id) row_to_approval in
     let* i := lift (map_db (MemoryInspection_new r sources approvals)) in
     lift (Ok (i, sources_truncated, approvals_truncated))).

(** ** Changing memories *)

Definition create_in (draft : MemoryDraft) : Tx Z :=
  let* '(retention_kind, expires_at, session) := lift (retention_columns draft.(draft_retention)) in
  let* subject := lift (sqlite_integer (PersonId_get draft.(draft_subject))) in
  let* subject_exists := query (fun db => Ok (has_person subject db)) in
  if negb subject_exists then lift (Err not_found_error)
  else
    let* memory_id := execute (insert_memory draft retention_kind expires_at session subject) in
    let* _ := execute (insert_source memory_id draft.(draft_provenance) draft.(draft_created_at)) in
    lift (Ok memory_id).

Definition create (draft : MemoryDraft) : op MemoryRecord :=
  let* _ := connection in
  let* memory_id := transaction (create_in draft) in
  let* id := lift (checked_memory_id memory_id) in
  inspect id draft.(draft_created_at).

(** The columns an edit assigns; those of the pin and of the last use stay. *)
Definition edit_columns (content : rstr) (confidence at_ms : Z) (retention_kind : rstr) (expires_at session : option Z)
    (state : rstr) (m : memory_columns) : option memory_columns :=
  (fun revision =>
     {| m_id := m.(m_id); m_kind := m.(m_kind); m_state := state; m_content := content; m_confidence := confidence;
        m_created_at_ms := m.(m_created_at_ms); m_updated_at_ms := at_ms; m_retention_kind := retention_kind;
        m_expires_at_ms := expires_at; m_session_id := session; m_pinned := m.(m_pinned);
        m_prior_retention_kind := m.(m_prior_retention_kind); m_prior_expires_at_ms := m.(m_prior_expires_at_ms);
        m_prior_session_id := m.(m_prior_session_id); m_revision := revision; m_last_used_at_ms := m.(m_last_used_at_ms);
        m_last_retrieval_reason := m.(m_last_retrieval_reason) |}) <$> next_revision m.(m_revision).

Definition edit_in (memory_id : MemoryId) (patch : MemoryPatch) (current : MemoryRecord) (content : rstr)
    (confidence : MemoryConfidence) (retention : MemoryRetention) : Tx unit :=
  let* '(retention_kind, expires_at, session) := lift (retention_columns retention) in
  let content_changed := negb (bool_decide (content = record_content current)) in
  let state :=
    if requires_approval (record_kind current) && bool_decide (current.(record_state) = State_Active) && content_changed
    then State_Candidate else current.(record_state) in
  let* id := lift (sqlite_integer (MemoryId_get memory_id)) in
  let* expected := lift (sqlite_integer patch.(patch_expected_revision)) in
  let* changed := execute (update_memories (fun m => (m_id m =? id) && (m_revision m =? expected))
      (edit_columns content (confidence_get confidence) patch.(edited_at).(millis) retention_kind expires_at session
         (MemoryState_as_str state))) in
  if negb (changed =? 1) then lift (Err conflict_error)
  else execute (insert_source id patch.(patch_provenance) patch.(edited_at)).

Definition edit (memory_id : MemoryId) (patch : MemoryPatch) : op MemoryRecord :=
  let* current := inspect memory_id patch.(edited_at) in
  if negb (current.(revision) =? patch.(patch_expected_revision)) then lift (Err conflict_error)
  else if patch.(edited_at).(millis) <? current.(updated_at).(millis) then lift (Err conflict_error)
  else if current.(pinned) && is_some patch.(patch_retention) then lift (Err conflict_error)
  else
    let content := default (record_content current) patch.(patch_content) in
    let confidence := default (record_confidence current) patch.(patch_confidence) in
    let retention := default (record_retention current) patch.(patch_retention) in
    match MemoryDraft_new (record_kind current) content patch.(patch_provenance) confidence (record_created_at current) retention with
    | Err _ => lift (Err (store_error Conflict (lit "memory edit violates record retention")))
    | Ok _ =>
        let* _ := connection in
        let* _ := transaction (edit_in memory_id patch current content confidence retention) in
        inspect memory_id patch.(edited_at)
    end.

Definition approve_columns (at_ms : Z) (m : memory_columns) : option memory_columns :=
  (fun revision =>
     {| m_id := m.(m_id); m_kind := m.(m_kind); m_state := lit "active"; m_content := m.(m_content);
        m_confidence := m.(m_confidence); m_created_at_ms := m.(m_created_at_ms); m_updated_at_ms := at_ms;
        m_retention_kind := m.(m_retention_kind); m_expires_at_ms := m.(m_expires_at_ms); m_session_id := m.(m_session_id);
        m_pinned := m.(m_pinned); m_prior_retention_kind := m.(m_prior_retention_kind);
        m_prior_expires_at_ms := m.(m_prior_expires_at_ms); m_prior_session_id := m.(m_prior_session_id);
        m_revision := revision; m_last_used_at_ms := m.(m_last_used_at_ms);
        m_last_retrieval_reason := m.(m_last_retrieval_reason) |}) <$> next_revision m.(m_revision).

Definition approve_in (memory_id : MemoryId) (a : MemoryApproval) (current : MemoryRecord) : Tx unit :=
  let* id := lift (sqlite_integer (MemoryId_get memory_id)) in
  let* expected := lift (sqlite_integer a.(expected_revision)) in
  let* changed := execute (update_memories
      (fun m => (m_id m =? id) && (m_revision m =? expected) && bool_decide (m_state m = lit "candidate")
                && bool_decide (m_kind m ∈ [lit "identity"; lit "relationship"]))
      (approve_columns a.(confirmed_at).(millis))) in
  if negb (changed =? 1) then lift (Err conflict_error)
  else
    let evidence := evidence_for a (record_content current) in
    let* approved := lift (sqlite_integer evidence.(approved_revision)) in
    execute (insert_approval id evidence approved a.(confirmed_at)).

Definition approve (memory_id : MemoryId) (a : MemoryApproval) : op MemoryRecord :=
  let* current := inspect memory_id a.(confirmed_at) in
  if negb (current.(revision) =? a.(expected_revision))
     || negb (bool_decide (current.(record_state) = State_Candidate))
     || negb (requires_approval (record_kind current))
     || (a.(confirmed_at).(millis) <? current.(updated_at).(millis))
  then lift (Err conflict_error)
  else
    let* _ := connection in
    let* _ := transaction (approve_in memory_id a current) in
    inspect memory_id a.(confirmed_at).

Definition pin_columns (at_ms : Z) (m : memory_columns) : option memory_columns :=
  (fun revision =>
     {| m_id := m.(m_id); m_kind := m.(m_kind); m_state := m.(m_state); m_content := m.(m_content);
        m_confidence := m.(m_confidence); m_created_at_ms := m.(m_created_at_ms); m_updated_at_ms := at_ms;
        m_retention_kind := lit "until_deleted"; m_expires_at_ms := None; m_session_id := None; m_pinned := 1;
        m_prior_retention_kind := Some m.(m_retention_kind); m_prior_expires_at_ms := m.(m_expires_at_ms);
        m_prior_session_id := m.(m_session_id); m_revision := revision; m_last_used_at_ms := m.(m_last_used_at_ms);
        m_last_retrieval_reason := m.(m_last_retrieval_reason) |}) <$> next_revision m.(m_revision).

(** A NULL in [prior_retention_kind] does not fit the column it is assigned to. *)
Definition unpin_columns (at_ms : Z) (m : memory_columns) : option memory_columns :=
  match m.(m_prior_retention_kind), next_revision m.(m_revision) with
  | Some prior, Some revision =>
      Some {| m_id := m.(m_id); m_kind := m.(m_kind); m_state := m.(m_state); m_content := m.(m_content);
              m_confidence := m.(m_confidence); m_created_at_ms := m.(m_created_at_ms); m_updated_at_ms := at_ms;
              m_retention_kind := prior; m_expires_at_ms := m.(m_prior_expires_at_ms);
              m_session_id := m.(m_prior_session_id); m_pinned := 0; m_prior_retention_kind := None;
              m_prior_expires_at_ms := None; m_prior_session_id := None; m_revision := revision;
              m_last_used_at_ms := m.(m_last_used_at_ms); m_last_retrieval_reason := m.(m_last_retrieval_reason) |}
  | _, _ => None
  end.

Definition set_pinned_in (memory_id : MemoryId) (expected_revision : Z) (pin : bool) (changed_at : UnixTimestampMillis) : Tx unit :=
  let* id := lift (sqlite_integer (MemoryId_get memory_id)) in
  let* expected := lift (sqlite_integer expected_revision) in
  let* changed := execute
      (if pin then
         update_memories (fun m => (m_id m =? id) && (m_revision m =? expected) && (m_pinned m =? 0)
                                   && negb (bool_decide (m_kind m = lit "working")))
           (pin_columns changed_at.(millis))
       else
         update_memories (fun m => (m_id m =? id) && (m_revision m =? expected) && (m_pinned m =? 1)
                                   && is_some (m_prior_retention_kind m))
           (unpin_columns changed_at.(millis))) in
  if negb (changed =? 1) then lift (Err conflict_error) else lift (Ok tt).

Definition set_pinned (memory_id : MemoryId) (expected_revision : Z) (pin : bool) (changed_at : UnixTimestampMillis)
  : op MemoryRecord :=
  let* current := inspect memory_id changed_at in
  if negb (current.(revision) =? expected_revision)
     || bool_decide (current.(record_state) = State_Expired)
     || bool_decide (record_kind current = Working)
     || Bool.eqb current.(pinned) pin
     || (changed_at.(millis) <? current.(updated_at).(millis))
  then lift (Err conflict_error)
  else
    let* _ := connection in
    let* _ := transaction (set_pinned_in memory_id expected_revision pin changed_at) in
    inspect memory_id changed_at.

Definition prune_expired (now : UnixTimestampMillis) : op Z :=
  let* _ := connection in
  expire_due now.

Definition expire_session (session_id : SessionId) (expired_at : UnixTimestampMillis) : op Z :=
  let* _ := connection in
  transaction
    (let* session := lift (sqlite_integer (SessionId_get session_id)) in
     execute (update_memories
       (fun m => negb (bool_decide (m_state m = lit "expired")) && bool_decide (m_retention_kind m = lit "session")
                 && is_some_and (m_session_id m) (fun s => s =? session))
       (expire_columns expired_at.(millis)))).

Definition delete_in (memory_id : MemoryId) (expected_revision : Z) : Tx unit :=
  let* id := lift (sqlite_integer (MemoryId_get memory_id)) in
  let* expected := lift (sqlite_integer expected_revision) in
  let* changed := execute (delete_memories (fun m => (m_id m =? id) && (m_revision m =? expected))) in
  if negb (changed =? 1) then
    let* exists_ := query (fun db => Ok (has_memory id db)) in
    lift (Err (if exists_ then conflict_error else not_found_error))
  else lift (Ok tt).

Definition delete (memory_id : MemoryId) (expected_revision : Z) : op unit :=
  if expected_revision =? 0 then lift (Err conflict_error)
  else
    let* _ := connection in
    transaction (delete_in memory_id expected_revision).

(** ** Retrieval *)

Context `{U : UnicodeTables}.

Definition insert_trace (request : MemoryRetrievalRequest) (turn selected_items used_bytes : Z) (e : MemoryTraceExclusions)
  : stmt Z :=
  fun db =>
    let? key := next_key db.(retrieval_traces) in
    let row := {| t_id := key; t_turn_id := turn; t_created_at_ms := request.(now).(millis);
                  t_maximum_items := request.(maximum_items); t_maximum_bytes := request.(maximum_bytes);
                  t_selected_items := selected_items; t_used_bytes := used_bytes; t_exclusions := e |} in
    let? _ := constraint (trace_check row) in
    Ok (key, set_traces (append key row db.(retrieval_traces)) db).

Definition insert_item (trace memory ordinal : Z) (reason : MemoryRetrievalReason) (content_bytes : Z) : stmt unit :=
  fun db =>
    let row := {| i_trace_id := trace; i_memory_id := memory; i_ordinal := ordinal;
                  i_reason := MemoryRetrievalReason_as_str reason; i_content_bytes := content_bytes |} in
    let? _ := constraint (item_check row && has_trace trace db && has_memory memory db
                && negb (existsb (fun i => (i.(i_trace_id) =? trace) && ((i.(i_ordinal) =? ordinal) || (i.(i_memory_id) =? memory)))
                           db.(retrieval_items))) in
    Ok (tt, set_items (db.(retrieval_items) ++ [row]) db).

Definition use_columns (at_ms : Z) (reason : MemoryRetrievalReason) (m : memory_columns) : option memory_columns :=
  Some {| m_id := m.(m_id); m_kind := m.(m_kind); m_state := m.(m_state); m_content := m.(m_content);
          m_confidence := m.(m_confidence); m_created_at_ms := m.(m_created_at_ms); m_updated_at_ms := m.(m_updated_at_ms);
          m_retention_kind := m.(m_retention_kind); m_expires_at_ms := m.(m_expires_at_ms); m_session_id := m.(m_session_id);
          m_pinned := m.(m_pinned); m_prior_retention_kind := m.(m_prior_retention_kind);
          m_prior_expires_at_ms := m.(m_prior_expires_at_ms); m_prior_session_id := m.(m_prior_session_id);
          m_revision := m.(m_revision); m_last_used_at_ms := Some at_ms;
          m_last_retrieval_reason := Some (MemoryRetrievalReason_as_str reason) |}.

(** The loop over the selection: each item is traced, marked as used and
    presented. [cancellation] counts its polls from the start of the loop. *)
Fixpoint present_items (cancellation : nat -> bool) (poll : nat) (trace_id : RetrievalTraceId) (now : UnixTimestampMillis)
    (ordinal : Z) (selected : list RankedMemory) : Tx (list MemoryContextItem * list MemoryTraceItem) :=
  match selected with
  | [] => lift (Ok ([], []))
  | s :: rest =>
      let r := s.(ranked_record) in
      let* _ := lift (check_cancellation cancellation poll) in
      let* trace := lift (sqlite_integer (RetrievalTraceId_get trace_id)) in
      let* memory := lift (sqlite_integer (MemoryId_get r.(record_id))) in
      let* _ := execute (insert_item trace memory ordinal s.(ranked_reason) (blen (record_content r))) in
      let* _ := execute (update_memories (fun m => m_id m =? memory) (use_columns now.(millis) s.(ranked_reason))) in
      let* item := lift (map_db (MemoryContextItem_new r.(record_id) (record_kind r) (record_content r) s.(ranked_reason))) in
      let* traced := lift (map_db (MemoryTraceItem_new ordinal r.(record_id) (record_kind r) s.(ranked_reason)
                                     (blen (record_content r)))) in
      let* '(items, traces) := present_items cancellation (S poll) trace_id now (ordinal + 1) rest in
      lift (Ok (item :: items, traced :: traces))
  end.

(** The number of polls [select_records] made when it succeeded. *)
Definition selection_polls (records : list MemoryRecord) (s : RankedSelection) : nat :=
  1 + length records + length s.(selected)
  + Z.to_nat (s.(selection_exclusions).(by_item_limit) + s.(selection_exclusions).(by_byte_limit)).

(** [cancellation] counts its polls from the beginning of the transaction. *)
Definition retrieve_in (request : MemoryRetrievalRequest) (cancellation : nat -> bool) : Tx MemoryRetrieval :=
  let* _ := expire_due_in request.(now) in
  let* _ := lift (check_cancellation cancellation 0) in
  let* subject := lift (transpose_map (fun s => sqlite_integer (PersonId_get s)) request.(request_subject)) in
  let* records := query (fun db =>
      try_map row_to_record (take (Z.to_nat (MAX_MEMORY_SCAN_RECORDS + 1))
        (order_by_id (record_rows (fun m => is_none_or subject (fun s => m.(m_subject_person_id) =? s)) db)))) in
  if MAX_MEMORY_SCAN_RECORDS <? zlen records then
    lift (Err (store_error LimitExceeded (lit "memory retrieval scan exceeds 1024 records")))
  else
    let* selection := lift (select_records records request.(MemoryProtocol.query) request.(now) request.(maximum_items)
                              request.(maximum_bytes) (fun n => cancellation (1 + n)%nat)) in
    let polls := (1 + selection_polls records selection)%nat in
    let* _ := lift (check_cancellation cancellation polls) in
    let used_bytes := foldr Z.add 0 (map (fun s => blen (record_content s.(ranked_record))) selection.(selected)) in
    let* turn := lift (sqlite_integer (TurnId_get request.(request_turn_id))) in
    let* key := execute (insert_trace request turn (zlen selection.(selected)) used_bytes selection.(selection_exclusions)) in
    let* trace_id := lift (checked_trace_id key) in
    let* '(items, traces) := present_items (fun n => cancellation (polls + 1 + n)%nat) 0 trace_id request.(now) 0
                               selection.(selected) in
    let* _ := lift (check_cancellation cancellation (polls + 1 + length selection.(selected))%nat) in
    let* trace := lift (map_db (MemoryRetrievalTrace_new trace_id request.(request_turn_id) request.(now) traces
                                  selection.(selection_exclusions))) in
    lift (Ok (MemoryRetrieval_new items trace)).

Definition retrieve (request : MemoryRetrievalRequest) (cancellation : nat -> bool) : op MemoryRetrieval :=
  let* _ := lift (check_cancellation cancellation 0) in
  let* _ := connection in
  transaction (retrieve_in request (fun n => cancellation (1 + n)%nat)).
End Store.

(** ** The provider a turn asks

    [crates/memory/src/provider.rs]: a retrieval for one turn, on a thread of
    its own, with the provider's limits and clock. *)

Definition DEFAULT_MEMORY_ITEMS : Z := 4.
Definition DEFAULT_MEMORY_BYTES : Z := 4 * 1024.

Definition provider_error : MemoryStoreError := MemoryStoreError_new Storage (lit "memory provider operation failed").

(** What [SystemTime::now] says since the epoch, unless it is before it. *)
Definition SystemMemoryClock_now (elapsed_ms : option Z) : mresult UnixTimestampMillis :=
  let? elapsed := ok_or elapsed_ms provider_error in
  if i64_max <? elapsed then Err provider_error
  else match UnixTimestampMillis_new elapsed with Ok t => Ok t | Err _ => Err provider_error end.

(** The store and the clock are the arguments of the calls. *)
Record SqliteMemoryContextProvider : Type := { provider_maximum_items : Z; provider_maximum_bytes : Z }.

Definition SqliteMemoryContextProvider_new : SqliteMemoryContextProvider :=
  {| provider_maximum_items := DEFAULT_MEMORY_ITEMS; provider_maximum_bytes := DEFAULT_MEMORY_BYTES |}.

Definition with_limits (items bytes : Z) (p : SqliteMemoryContextProvider) : mresult SqliteMemoryContextProvider :=
  if negb ((1 <=? items) && (items <=? MAX_MEMORY_RETRIEVAL_ITEMS)) || negb ((1 <=? bytes) && (bytes <=? MAX_MEMORY_RETRIEVAL_BYTES))
  then Err (MemoryStoreError_new Conflict (lit "memory provider limits are invalid"))
  else Ok {| provider_maximum_items := items; provider_maximum_bytes := bytes |}.

Definition execution_location (p : SqliteMemoryContextProvider) : ExecutionLocation := Local.

Section Provider.
Context `{Sha : Sha256} `{U : UnicodeTables} (MIGRATIONS : list rstr).

(** [clock] is what the clock answers when it is read, and [started] whether the
    blocking task was run: once it runs it is joined. *)
Definition provider_retrieve (p : SqliteMemoryContextProvider) (turn_id : TurnId) (query : rstr) (clock : mresult UnixTimestampMillis)
    (cancellation : nat -> bool) (started : bool) : op MemoryRetrieval :=
  if negb started then lift (Err provider_error)
  else
    let* now := lift clock in
    let* request := lift (match MemoryRetrievalRequest_new turn_id query now p.(provider_maximum_items) p.(provider_maximum_bytes) with
                          | Ok r => Ok r
                          | Err _ => Err (MemoryStoreError_new Conflict (lit "memory retrieval request is invalid"))
                          end) in
    retrieve MIGRATIONS request cancellation.
End Provider.
