(* ===== verification/PeopleStore.v ===== *)
(** * Controlled memory: people and voice signatures

    [crates/memory/src/people.rs], [signatures.rs], [sqlite/people.rs] and
    [sqlite/signatures.rs]: the people a store knows, their names, and the
    encrypted signatures of their voices. [Database] has the tables.

    AES-256-GCM and SHA-256 of [ring] are parameters; the nonces of its random
    generator come from the environment of a transaction. *)

From S2P Require Import Prelude RustStr Errors MemoryProtocol MemoryRetrieval Database MemoryStore.

Definition MAX_PEOPLE : Z := 256.
Definition MAX_NAMES_PER_PERSON : Z := 16.
Definition MAX_NAME_BYTES : Z := 128.
Definition MAX_SIGNATURES_PER_PERSON : Z := 64.
Definition KEY_HEX_LEN : Z := 64.
Definition MAX_KEY_ENV_BYTES : Z := 128.
Definition MAX_MODEL_FIELD_BYTES : Z := 128.
Definition MAX_EMBEDDING_DIMENSION : Z := 4096.
Definition KEY_DOMAIN : list Z := utf8_encode (lit "conversation-runtime/voice-signature/key/v1") ++ [0].
Definition SIGNATURE_DOMAIN : list Z := utf8_encode (lit "conversation-runtime/voice-signature/v1") ++ [0].
Definition KEY_CHECK_PLAINTEXT : list Z := utf8_encode (lit "conversation-runtime/voice-signature-key/v1").
Definition KEY_CHECK_AAD : list Z := utf8_encode (lit "key-check").

(** ** People *)

Record PersonName : Type := { name_display : rstr; name_key : rstr }.

Definition is_valid_name (value : rstr) : bool := (blen value <=? MAX_NAME_BYTES) && negb (is_blank value).

Definition PersonName_new (display key : rstr) : mresult PersonName :=
  if negb (is_valid_name display) || negb (is_valid_name key) then
    Err (store_error Conflict (lit "person name must be 1 through 128 bytes and not blank"))
  else Ok {| name_display := display; name_key := key |}.

Inductive PersonMaturity : Type :=
| Provisional
| Mature.

Definition PersonMaturity_as_str (m : PersonMaturity) : rstr :=
  match m with Provisional => lit "provisional" | Mature => lit "mature" end.

Record Person : Type := {
  person_id_of : PersonId;
  person_is_owner : bool;
  person_names_of : list PersonName;
  person_maturity : PersonMaturity;
  person_needs_review : bool;
  person_created_at : UnixTimestampMillis;
}.

Record NewPerson : Type := {
  new_name : PersonName;
  new_needs_review : bool;
  new_created_at : UnixTimestampMillis;
}.

(** ** Statements on people *)

Definition person_id (id : Z) : mresult PersonId :=
  let? id := checked_unsigned id in map_db (PersonId_new id).

Definition names_of (id : Z) (db : Database) : list name_row :=
  List.filter (fun n => n.(pn_person_id) =? id) db.(person_names).

(** [SELECT coalesce(max(ordinal) + 1, 0)]. *)
Definition next_ordinal (id : Z) (db : Database) : Z :=
  foldr (fun n o => Z.max (n.(pn_ordinal) + 1) o) 0 (names_of id db).

Definition insert_name_row (id ordinal : Z) (name : PersonName) : stmt unit :=
  fun db =>
    let row := {| pn_person_id := id; pn_ordinal := ordinal; pn_display := name.(name_display); pn_key := name.(name_key) |} in
    let? _ := constraint (name_check row && has_person id db
                && negb (existsb (fun n => (n.(pn_ordinal) =? ordinal) || bool_decide (n.(pn_key) = name.(name_key))) (names_of id db))) in
    Ok (tt, set_names (db.(person_names) ++ [row]) db).

(** The upsert of the primary name: a name with ordinal 0 is replaced in place. *)
Definition upsert_primary (id : Z) (name : PersonName) : stmt unit :=
  fun db =>
    let row := {| pn_person_id := id; pn_ordinal := 0; pn_display := name.(name_display); pn_key := name.(name_key) |} in
    let primary (n : name_row) := (n.(pn_person_id) =? id) && (n.(pn_ordinal) =? 0) in
    let? _ := constraint (name_check row && has_person id db
                && negb (existsb (fun n => negb (n.(pn_ordinal) =? 0) && bool_decide (n.(pn_key) = name.(name_key))) (names_of id db))) in
    Ok (tt, set_names (if existsb primary db.(person_names)
                       then map (fun n => if primary n then row else n) db.(person_names)
                       else db.(person_names) ++ [row]) db).

Definition update_people (matching : person_row -> bool) (assign : person_row -> person_row) : stmt Z :=
  fun db =>
    let? '(n, l) := update_rows matching (fun r => Some (assign r)) person_check db.(people).(rows) in
    Ok (n, set_people (Table l db.(people).(sequence)) db).

Definition with_review (needs_review : Z) (p : person_row) : person_row :=
  {| p_id := p.(p_id); p_is_owner := p.(p_is_owner); p_maturity := p.(p_maturity); p_needs_review := needs_review;
     p_created_at_ms := p.(p_created_at_ms) |}.
Definition with_maturity (maturity : rstr) (p : person_row) : person_row :=
  {| p_id := p.(p_id); p_is_owner := p.(p_is_owner); p_maturity := maturity; p_needs_review := p.(p_needs_review);
     p_created_at_ms := p.(p_created_at_ms) |}.

(** [DELETE FROM people], with its cascades to names, signatures, and memories
    with what belongs to them. *)
Definition delete_person_row (id : Z) : stmt unit :=
  fun db =>
    let? '(_, db) := delete_memories (fun m => m.(m_subject_person_id) =? id) db in
    Ok (tt, set_people_tables (Table (List.filter (fun p => negb (p.(p_id) =? id)) db.(people).(rows)) db.(people).(sequence))
              (List.filter (fun n => negb (n.(pn_person_id) =? id)) db.(person_names))
              (Table (List.filter (fun v => negb (v.(v_person_id) =? id)) db.(voice_signatures).(rows)) db.(voice_signatures).(sequence))
              db.(signature_key_check) db).

Definition insert_person_row (needs_review : bool) (created_at_ms : Z) : stmt Z :=
  fun db =>
    let? key := next_key db.(people) in
    let row := {| p_id := key; p_is_owner := 0; p_maturity := PersonMaturity_as_str Provisional;
                  p_needs_review := if needs_review then 1 else 0; p_created_at_ms := created_at_ms |} in
    let? _ := constraint (person_check row) in
    Ok (key, set_people (append key row db.(people)) db).

Section Connected.
Context {M : Type -> Type} `{Connection M}.

Definition require_person (id : Z) : M bool :=
  let* p := query (fun db => Ok (first_row (List.filter (fun p => p.(p_id) =? id) db.(people).(rows)))) in
  lift (ok_or ((fun p => p.(p_is_owner) =? 1) <$> p) not_found_error).

Definition has_name_key (id : Z) (key : rstr) : M bool :=
  query (fun db => Ok (existsb (fun n => bool_decide (n.(pn_key) = key)) (names_of id db))).

Definition insert_name (id ordinal : Z) (name : PersonName) : M unit := execute (insert_name_row id ordinal name).

(** [ORDER BY ordinal]. *)
Definition read_names (id : Z) : M (list PersonName) :=
  let* names := query (fun db => Ok (sort_by (fun a b => a.(pn_ordinal) ?= b.(pn_ordinal)) (names_of id db))) in
  lift (try_map (fun n => match PersonName_new n.(pn_display) n.(pn_key) with
                          | Ok n => Ok n
                          | Err _ => Err invalid_database_error
                          end) names).

Definition read_person (id : Z) : M Person :=
  let* p := query (fun db => Ok (first_row (List.filter (fun p => p.(p_id) =? id) db.(people).(rows)))) in
  let* p := lift (ok_or p not_found_error) in
  let* maturity := lift (if bool_decide (p.(p_maturity) = lit "provisional") then Ok Provisional
                         else if bool_decide (p.(p_maturity) = lit "mature") then Ok Mature
                         else Err invalid_database_error) in
  let* pid := lift (person_id id) in
  let* names := read_names id in
  let* created_at := lift (checked_timestamp p.(p_created_at_ms)) in
  lift (Ok {| person_id_of := pid; person_is_owner := p.(p_is_owner) =? 1; person_names_of := names;
              person_maturity := maturity; person_needs_review := p.(p_needs_review) =? 1;
              person_created_at := created_at |}).

Fixpoint read_people (ids : list Z) : M (list Person) :=
  match ids with
  | [] => lift (Ok [])
  | id :: ids => let* p := read_person id in let* ps := read_people ids in lift (Ok (p :: ps))
  end.
End Connected.

Section People.
Context (MIGRATIONS : list rstr).

Abbreviation connection := (connection MIGRATIONS).

Definition list_people : op (list Person) :=
  let* _ := connection in
  let* ids := query (fun db => Ok (sort_by Z.compare (map p_id db.(people).(rows)))) in
  read_people ids.

Definition get_person (id : PersonId) : op Person :=
  let* _ := connection in
  let* id := lift (sqlite_integer (PersonId_get id)) in
  read_person id.

Definition people_named (key : rstr) : op (list PersonId) :=
  let* _ := connection in
  let* ids := query (fun db => Ok (dedup (sort_by Z.compare
      (map pn_person_id (List.filter (fun n => bool_decide (n.(pn_key) = key)) db.(person_names)))))) in
  lift (try_map person_id ids).

Definition create_person_in (person : NewPerson) : Tx Person :=
  let* count := query (fun db => Ok (zlen db.(people).(rows))) in
  if MAX_PEOPLE <=? count then lift (Err (store_error LimitExceeded (lit "memory store holds the maximum number of people")))
  else
    let* id := execute (insert_person_row person.(new_needs_review) person.(new_created_at).(millis)) in
    let* _ := insert_name id 0 person.(new_name) in
    read_person id.

Definition create_person (person : NewPerson) : op Person :=
  let* _ := connection in transaction (create_person_in person).

Definition add_name_in (id : PersonId) (name : PersonName) : Tx Person :=
  let* id := lift (sqlite_integer (PersonId_get id)) in
  let* _ := require_person id in
  let* known := has_name_key id name.(name_key) in
  if (known : bool) then lift (Err conflict_error)
  else
    let* held := query (fun db => Ok (zlen (names_of id db))) in
    if MAX_NAMES_PER_PERSON <=? held then
      lift (Err (store_error LimitExceeded (lit "person holds the maximum number of names")))
    else
      let* ordinal := query (fun db => Ok (next_ordinal id db)) in
      let* _ := insert_name id ordinal name in
      read_person id.

Definition add_name (id : PersonId) (name : PersonName) : op Person :=
  let* _ := connection in transaction (add_name_in id name).

Definition rename_in (id : PersonId) (name : PersonName) : Tx Person :=
  let* id := lift (sqlite_integer (PersonId_get id)) in
  let* _ := require_person id in
  let* _ := execute (fun db => Ok (tt, set_names (List.filter (fun n => negb ((n.(pn_person_id) =? id)
              && bool_decide (n.(pn_key) = name.(name_key)) && negb (n.(pn_ordinal) =? 0))) db.(person_names)) db)) in
  let* _ := execute (upsert_primary id name) in
  let* _ := execute (update_people (fun p => p.(p_id) =? id) (with_review 0)) in
  read_person id.

Definition rename (id : PersonId) (name : PersonName) : op Person :=
  let* _ := connection in transaction (rename_in id name).

Definition mark_mature_in (id : PersonId) : Tx Person :=
  let* id := lift (sqlite_integer (PersonId_get id)) in
  let* changed := execute (update_people (fun p => p.(p_id) =? id) (with_maturity (PersonMaturity_as_str Mature))) in
  if negb (changed =? 1) then lift (Err not_found_error) else read_person id.

Definition mark_mature (id : PersonId) : op Person :=
  let* _ := connection in transaction (mark_mature_in id).

Definition delete_person_in (id : PersonId) : Tx unit :=
  let* id := lift (sqlite_integer (PersonId_get id)) in
  let* is_owner := require_person id in
  if (is_owner : bool) then lift (Err conflict_error) else execute (delete_person_row id).

Definition delete_person (id : PersonId) : op unit :=
  let* _ := connection in transaction (delete_person_in id).

(** The loop that moves the names [into] does not have. *)
Fixpoint move_names (into : Z) (names : list PersonName) : Tx unit :=
  match names with
  | [] => lift (Ok tt)
  | name :: names =>
      let* known := has_name_key into name.(name_key) in
      if (known : bool) then move_names into names
      else
        let* ordinal := query (fun db => Ok (next_ordinal into db)) in
        let* _ := insert_name into ordinal name in
        move_names into names
  end.

Definition move_memories (from into : Z) : stmt unit :=
  fun db => Ok (tt, set_memories (Table (map (fun m => if m.(m_subject_person_id) =? from then MemoryRow m into else m)
                                           db.(memories).(rows)) db.(memories).(sequence)) db).

Definition move_signatures (from into : Z) : stmt unit :=
  fun db => Ok (tt, set_signatures (Table (map (fun v =>
      if v.(v_person_id) =? from then
        {| v_id := v.(v_id); v_person_id := into; v_model_id := v.(v_model_id); v_model_version := v.(v_model_version);
           v_role := v.(v_role); v_dimension := v.(v_dimension); v_speech_ms := v.(v_speech_ms);
           v_created_at_ms := v.(v_created_at_ms); v_source_session_id := v.(v_source_session_id); v_nonce := v.(v_nonce);
           v_ciphertext := v.(v_ciphertext) |}
      else v) db.(voice_signatures).(rows)) db.(voice_signatures).(sequence)) db).

(** The review flag is cleared; maturity is kept or taken from [from]. *)
Definition absorb_maturity (from into : Z) : stmt Z :=
  fun db =>
    let from_mature := existsb (fun p => (p.(p_id) =? from) && bool_decide (p.(p_maturity) = lit "mature")) db.(people).(rows) in
    update_people (fun p => p.(p_id) =? into)
      (fun p => with_review 0 (if from_mature then with_maturity (lit "mature") p else p)) db.

Definition merge_people_in (from into : PersonId) : Tx Person :=
  let* from := lift (sqlite_integer (PersonId_get from)) in
  let* into := lift (sqlite_integer (PersonId_get into)) in
  let* from_is_owner := require_person from in
  let* _ := require_person into in
  if from_is_owner || (from =? into) then lift (Err conflict_error)
  else
    let* _ := execute (move_memories from into) in
    let* _ := execute (move_signatures from into) in
    let* names := read_names from in
    let* _ := move_names into names in
    let* _ := execute (absorb_maturity from into) in
    let* _ := execute (delete_person_row from) in
    read_person into.

Definition merge_people (from into : PersonId) : op Person :=
  let* _ := connection in transaction (merge_people_in from into).
End People.

(** ** Voice signatures *)

(** [ring]: a key is the digest it is made from; sealing with a nonce and
    opening. *)
Class SignatureCrypto : Type := {
  sig_digest : list Z -> list Z;
  sig_seal : list Z -> list Z -> list Z -> list Z -> option (list Z);
  sig_open : list Z -> list Z -> list Z -> list Z -> option (list Z);
}.

(** Opening inverts sealing, and sealing appends a tag of 16 bytes. *)
Class SignatureCryptoLaws (C : SignatureCrypto) : Prop := {
  sig_open_seal : forall key nonce aad plaintext ciphertext,
    sig_seal key nonce aad plaintext = Some ciphertext -> sig_open key nonce aad ciphertext = Some plaintext;
  sig_seal_length : forall key nonce aad plaintext ciphertext,
    sig_seal key nonce aad plaintext = Some ciphertext -> zlen ciphertext = zlen plaintext + 16;
}.

Record SignatureKey : Type := { key_bytes : list Z }.

Definition key_unavailable_error : MemoryStoreError :=
  MemoryStoreError_new KeyUnavailable (lit "voice signature key is unavailable or not 64 hexadecimal characters").
Definition key_mismatch_error : MemoryStoreError :=
  MemoryStoreError_new KeyMismatch (lit "voice signature key does not match the key this store was first used with").
Definition sealing_error : MemoryStoreError :=
  MemoryStoreError_new Storage (lit "voice signature could not be encrypted").

Definition is_environment_name (name : rstr) : bool :=
  negb (is_empty name) && (blen name <=? MAX_KEY_ENV_BYTES)
  && negb (match name with c :: _ => is_ascii_digit c | [] => false end)
  && forallb (fun c => is_ascii_uppercase c || is_ascii_digit c || (c =? 95)) name.

Record SignatureModel : Type := { model_id : rstr; model_version : rstr }.

Definition SignatureModel_new (id version : rstr) : mresult SignatureModel :=
  let valid (value : rstr) := negb (is_empty value) && (blen value <=? MAX_MODEL_FIELD_BYTES) in
  if negb (valid id) || negb (valid version) then
    Err (store_error Conflict (lit "signature model identifier and version must be 1 through 128 bytes"))
  else Ok {| model_id := id; model_version := version |}.

Inductive SignatureRole : Type :=
| Anchor
| Enrolment
| Refinement.

#[export] Instance SignatureRole_eq_dec : EqDecision SignatureRole.
Proof. solve_decision. Defined.

Definition SignatureRole_as_str (r : SignatureRole) : rstr :=
  match r with Anchor => lit "anchor" | Enrolment => lit "enrolment" | Refinement => lit "refinement" end.

Definition SignatureRole_parse (value : rstr) : option SignatureRole :=
  if bool_decide (value = lit "anchor") then Some Anchor
  else if bool_decide (value = lit "enrolment") then Some Enrolment
  else if bool_decide (value = lit "refinement") then Some Refinement
  else None.

(** An [f32] is its bit pattern; it is finite unless its exponent is all ones. *)
Definition is_finite (bits : Z) : bool := negb (Z.land (Z.shiftr bits 23) 255 =? 255).

Record VoiceSignatureDraft : Type := {
  sd_model : SignatureModel;
  sd_role : SignatureRole;
  sd_embedding : list Z;
  sd_speech_ms : Z;
  sd_created_at : UnixTimestampMillis;
  sd_source_session : SessionId;
}.

Definition VoiceSignatureDraft_new (model : SignatureModel) (role : SignatureRole) (embedding : list Z) (speech_ms : Z)
    (created_at : UnixTimestampMillis) (source_session : SessionId) : mresult VoiceSignatureDraft :=
  if is_empty embedding || (MAX_EMBEDDING_DIMENSION <? zlen embedding) || negb (forallb is_finite embedding) then
    Err (store_error Conflict (lit "voice signature must hold 1 through 4096 finite values"))
  else Ok {| sd_model := model; sd_role := role; sd_embedding := embedding; sd_speech_ms := speech_ms;
             sd_created_at := created_at; sd_source_session := source_session |}.

Record VoiceSignature : Type := { signature_id : Z; signature_person : PersonId; signature_draft : VoiceSignatureDraft }.

(** [u32::to_le_bytes] and [f32::to_le_bytes]. *)
Definition le32 (n : Z) : list Z := [n mod 256; n / 256 mod 256; n / 65536 mod 256; n / 16777216 mod 256].

Definition signature_aad (model : SignatureModel) (role : SignatureRole) (dimension : Z) : list Z :=
  SIGNATURE_DOMAIN ++ utf8_encode model.(model_id) ++ [0] ++ utf8_encode model.(model_version) ++ [0]
  ++ utf8_encode (SignatureRole_as_str role) ++ [0] ++ le32 dimension.

(** [chunks_exact(4)] with [f32::from_le_bytes]. *)
Fixpoint from_le32 (bytes : list Z) : list Z :=
  match bytes with
  | a :: b :: c :: d :: rest => (a + 256 * b + 65536 * c + 16777216 * d) :: from_le32 rest
  | _ => []
  end.

Section Signatures.
Context `{C : SignatureCrypto} (MIGRATIONS : list rstr).

Abbreviation connection := (connection MIGRATIONS).

Definition SignatureKey_from_hex (material : rstr) : mresult SignatureKey :=
  let material := map ascii_lower (trim material) in
  if negb (blen material =? KEY_HEX_LEN) || negb (forallb is_ascii_hexdigit material) then Err key_unavailable_error
  else Ok {| key_bytes := sig_digest (KEY_DOMAIN ++ utf8_encode material) |}.

(** [std::env::var] is an argument. *)
Definition SignatureKey_from_environment (var : rstr -> option rstr) (name : rstr) : mresult SignatureKey :=
  if negb (is_environment_name name) then Err key_unavailable_error
  else match var name with
       | None => Err key_unavailable_error
       | Some material => SignatureKey_from_hex material
       end.

Definition seal (key : SignatureKey) (aad plaintext : list Z) : Tx (list Z * list Z) :=
  fun env n db =>
    match env.(env_nonce) n with
    | None => Err sealing_error
    | Some nonce => match sig_seal key.(key_bytes) nonce aad plaintext with
                    | None => Err sealing_error
                    | Some sealed => Ok ((nonce, sealed), S n, db)
                    end
    end.

Definition open (key : SignatureKey) (nonce aad ciphertext : list Z) : option (list Z) :=
  sig_open key.(key_bytes) nonce aad ciphertext.

Definition insert_key_check (nonce ciphertext : list Z) : stmt unit :=
  fun db =>
    let? _ := constraint (is_none db.(signature_key_check) && (zlen nonce =? 12)) in
    Ok (tt, set_key_check (Some (nonce, ciphertext)) db).

Definition check_key (key : SignatureKey) : Tx unit :=
  let* stored := query (fun db => Ok db.(signature_key_check)) in
  match stored with
  | None =>
      let* '(nonce, ciphertext) := seal key KEY_CHECK_AAD KEY_CHECK_PLAINTEXT in
      execute (insert_key_check nonce ciphertext)
  | Some (nonce, ciphertext) =>
      if negb (zlen nonce =? 12) then lift (Err invalid_database_error)
      else match open key nonce KEY_CHECK_AAD ciphertext with
           | Some plaintext => if bool_decide (plaintext = KEY_CHECK_PLAINTEXT) then lift (Ok tt) else lift (Err key_mismatch_error)
           | None => lift (Err key_mismatch_error)
           end
  end.

Definition verify_key (key : SignatureKey) : op unit :=
  let* _ := connection in transaction (check_key key).

Definition insert_signature_row (person : Z) (draft : VoiceSignatureDraft) (dimension session : Z) (nonce ciphertext : list Z)
  : stmt Z :=
  fun db =>
    let? key := next_key db.(voice_signatures) in
    let row := {| v_id := key; v_person_id := person; v_model_id := draft.(sd_model).(model_id);
                  v_model_version := draft.(sd_model).(model_version); v_role := SignatureRole_as_str draft.(sd_role);
                  v_dimension := dimension; v_speech_ms := draft.(sd_speech_ms);
                  v_created_at_ms := draft.(sd_created_at).(millis); v_source_session_id := session;
                  v_nonce := nonce; v_ciphertext := ciphertext |} in
    let? _ := constraint (signature_check row && has_person person db) in
    Ok (key, set_signatures (append key row db.(voice_signatures)) db).

Definition insert_signature_in (key : SignatureKey) (person : PersonId) (draft : VoiceSignatureDraft) : Tx VoiceSignature :=
  let* _ := check_key key in
  let* person_id := lift (sqlite_integer (PersonId_get person)) in
  let* exists_ := query (fun db => Ok (has_person person_id db)) in
  if negb exists_ then lift (Err not_found_error)
  else
    let* held := query (fun db => Ok (zlen (List.filter (fun v => v.(v_person_id) =? person_id) db.(voice_signatures).(rows)))) in
    if MAX_SIGNATURES_PER_PERSON <=? held then
      lift (Err (store_error LimitExceeded (lit "person holds the maximum number of voice signatures")))
    else
      let* dimension := lift (if zlen draft.(sd_embedding) <=? u32_max then Ok (zlen draft.(sd_embedding)) else Err conflict_error) in
      let* '(nonce, ciphertext) := seal key (signature_aad draft.(sd_model) draft.(sd_role) dimension)
                                     (concat (map le32 draft.(sd_embedding))) in
      let* session := lift (sqlite_integer (SessionId_get draft.(sd_source_session))) in
      let* id := execute (insert_signature_row person_id draft dimension session nonce ciphertext) in
      let* id := lift (checked_unsigned id) in
      lift (Ok {| signature_id := id; signature_person := person; signature_draft := draft |}).

Definition add_signature (key : SignatureKey) (person : PersonId) (draft : VoiceSignatureDraft) : op VoiceSignature :=
  let* _ := connection in transaction (insert_signature_in key person draft).

Definition decrypt (key : SignatureKey) (model : SignatureModel) (row : signature_row) : mresult VoiceSignature :=
  let? role := ok_or (SignatureRole_parse row.(v_role)) invalid_database_error in
  let? dimension := if (0 <=? row.(v_dimension)) && (row.(v_dimension) <=? u32_max) then Ok row.(v_dimension) else Err invalid_database_error in
  let? _ := if zlen row.(v_nonce) =? 12 then Ok tt else Err invalid_database_error in
  let? plaintext := ok_or (open key row.(v_nonce) (signature_aad model role dimension) row.(v_ciphertext)) invalid_database_error in
  if negb (zlen plaintext =? dimension * 4) then Err invalid_database_error
  else
    let embedding := from_le32 plaintext in
    let? speech_ms := if (0 <=? row.(v_speech_ms)) && (row.(v_speech_ms) <=? u32_max) then Ok row.(v_speech_ms) else Err invalid_database_error in
    let? created_at := checked_timestamp row.(v_created_at_ms) in
    let? session := checked_unsigned row.(v_source_session_id) in
    let? draft := match VoiceSignatureDraft_new model role embedding speech_ms created_at (SessionId_new session) with
                  | Ok d => Ok d
                  | Err _ => Err invalid_database_error
                  end in
    let? person := person_id row.(v_person_id) in
    let? id := checked_unsigned row.(v_id) in
    Ok {| signature_id := id; signature_person := person; signature_draft := draft |}.

(** [ORDER BY person_id, id]. *)
Definition signature_cmp (a b : signature_row) : comparison :=
  then_with (a.(v_person_id) ?= b.(v_person_id)) (a.(v_id) ?= b.(v_id)).

Definition read_signatures_in (key : SignatureKey) (model : SignatureModel) : Tx (list VoiceSignature) :=
  let* _ := check_key key in
  let* rows := query (fun db => Ok (sort_by signature_cmp (List.filter (fun v =>
      bool_decide (v.(v_model_id) = model.(model_id)) && bool_decide (v.(v_model_version) = model.(model_version)))
      db.(voice_signatures).(rows)))) in
  lift (try_map (decrypt key model) rows).

Definition signatures (key : SignatureKey) (model : SignatureModel) : op (list VoiceSignature) :=
  let* _ := connection in transaction (read_signatures_in key model).

Definition delete_all_signatures : op unit :=
  let* _ := connection in
  transaction (execute (fun db => Ok (tt, set_key_check None (set_signatures (Table [] db.(voice_signatures).(sequence)) db)))).

Definition delete_signature_in (id : Z) : Tx unit :=
  let* id := lift (sqlite_integer id) in
  let* row := query (fun db => Ok (first_row (List.filter (fun v => v.(v_id) =? id) db.(voice_signatures).(rows)))) in
  let* row := lift (ok_or row not_found_error) in
  if negb (bool_decide (SignatureRole_parse row.(v_role) = Some Refinement)) then lift (Err conflict_error)
  else execute (fun db => Ok (tt, set_signatures (Table (List.filter (fun v => negb (v.(v_id) =? id)) db.(voice_signatures).(rows))
                                                    db.(voice_signatures).(sequence)) db)).

Definition remove_signature (id : Z) : op unit :=
  let* _ := connection in transaction (delete_signature_in id).
End Signatures.
