(* ===== verification/MemorySchema.v ===== *)
(** * Controlled memory: versions of the schema

    [crates/memory/src/sqlite.rs]: a new database is made at version 1 and
    brought to version 2 the way an old one is, by
    [migrations/0002_people.sql]: [memories] is rebuilt with the person each
    memory is about, and the tables of people are added with the owner in them. *)

From S2P Require Import Prelude RustStr Errors MemoryProtocol MemoryRetrieval Database MemoryStore.

(** A file at version 1: the memories have no subject and there are no people. *)
Record DatabaseV1 : Type := {
  v1_application_id : Z;
  v1_user_version : Z;
  v1_schema_migrations : list (Z * rstr);
  v1_memories : table memory_columns;
  v1_memory_sources : table source_row;
  v1_retrieval_traces : table trace_row;
  v1_retrieval_items : list item_row;
}.

Section Schema.
Context (MIGRATIONS : list rstr).

Definition migration (index : nat) : rstr := default [] (MIGRATIONS !! index).

(** The owner, the one person of a new database. *)
Definition owner_row : person_row :=
  {| p_id := 1; p_is_owner := 1; p_maturity := lit "provisional"; p_needs_review := 0; p_created_at_ms := 0 |}.

(** The keys the rebuilt table gives out continue where the old one stopped:
    the insert leaves the sequence at the largest key it copied, and the update
    of [sqlite_sequence] brings it to the old value. *)
Definition rebuilt_sequence (t : table memory_columns) : Z :=
  Z.max (foldr (fun m s => Z.max m.(m_id) s) 0 t.(rows)) t.(sequence).

(** [execute_batch(MIGRATIONS\[1\])], its row in [schema_migrations], and the
    version. The caller commits only when no reference dangles. *)
Definition migrated (d : DatabaseV1) : Database :=
  {| application_id := d.(v1_application_id);
     user_version := 2;
     schema_migrations := d.(v1_schema_migrations) ++ [(2, migration_checksum (migration 1))];
     memories := Table (map (fun m => MemoryRow m 1) d.(v1_memories).(rows)) (rebuilt_sequence d.(v1_memories));
     memory_sources := d.(v1_memory_sources);
     retrieval_traces := d.(v1_retrieval_traces);
     retrieval_items := d.(v1_retrieval_items);
     people := Table [owner_row] 1;
     person_names := [];
     voice_signatures := Table [] 0;
     signature_key_check := None |}.

(** What the file holds: version 1, or anything later. *)
Definition stored : Type := DatabaseV1 + Database.

Definition stored_application_id (s : stored) : Z :=
  match s with inl d => d.(v1_application_id) | inr d => d.(application_id) end.
Definition stored_user_version (s : stored) : Z :=
  match s with inl d => d.(v1_user_version) | inr d => d.(user_version) end.

(** [read_user_version] of such a file. *)
Definition stored_version (s : stored) : mresult Z :=
  if negb (stored_application_id s =? SQLITE_APPLICATION_ID) then Err invalid_database_error
  else if SCHEMA_VERSION <? stored_user_version s then
    Err (store_error UnsupportedSchema (lit "memory database schema is newer than this runtime"))
  else Ok (stored_user_version s).

(** [apply_version_2], one transaction. *)
Definition apply_version_2 (failure : option SqliteFailure) (s : stored) : mresult unit * stored :=
  match failure with
  | Some f => (Err (map_sqlite_error f), s)
  | None =>
      match stored_version s with
      | Err e => (Err e, s)
      | Ok version =>
          if negb (version =? 1) then (Ok tt, s)
          else match s with
               | inr _ => (Err storage_error, s)
               | inl d =>
                   if negb (dangling (migrated d) =? 0) then (Err invalid_database_error, s)
                   else (Ok tt, inr (migrated d))
               end
      end
  end.

(** The references of version 1 that do not resolve. *)
Definition dangling_v1 (d : DatabaseV1) : Z :=
  let has (id : Z) := existsb (fun m => m.(m_id) =? id) d.(v1_memories).(rows) in
  let has_t (id : Z) := existsb (fun t => t.(t_id) =? id) d.(v1_retrieval_traces).(rows) in
  zlen (List.filter (fun s => negb (has s.(s_memory_id))) d.(v1_memory_sources).(rows))
  + zlen (List.filter (fun i => negb (has i.(i_memory_id))) d.(v1_retrieval_items))
  + zlen (List.filter (fun i => negb (has_t i.(i_trace_id))) d.(v1_retrieval_items)).

(** [validate_migrations(connection, 1)]. *)
Definition validate_migrations_v1 (d : DatabaseV1) : mresult unit :=
  if negb (zlen d.(v1_schema_migrations) =? 1) then Err invalid_database_error
  else if negb (bool_decide (snd <$> List.find (fun v => fst v =? 1) d.(v1_schema_migrations)
                             = Some (migration_checksum (migration 0)))) then Err invalid_database_error
  else if negb (dangling_v1 d =? 0) then Err invalid_database_error
  else Ok tt.

(** [validate_database] of a file that is not changed meanwhile. *)
Definition validate_stored (s : stored) : mresult unit :=
  let? version := stored_version s in
  if negb (version =? SCHEMA_VERSION) then Err invalid_database_error
  else match s with
       | inl _ => Err invalid_database_error
       | inr db =>
           if negb (zlen db.(schema_migrations) =? SCHEMA_VERSION) then Err invalid_database_error
           else if negb (forallb (fun i => bool_decide (snd <$> List.find (fun v => fst v =? Z.of_nat i + 1) db.(schema_migrations)
                                             = Some (migration_checksum (migration i)))) (seq 0 2))
           then Err invalid_database_error
           else if negb (dangling db =? 0) then Err invalid_database_error
           else Ok tt
       end.

(** Which of the steps of [open] and [initialize_database] fail. *)
Record Faults : Type := {
  creating : option SqliteFailure;
  opening : option SqliteFailure;
  versioning : option SqliteFailure;
  history_checking : option SqliteFailure;
  disabling : option SqliteFailure;
  upgrading : option SqliteFailure;
  enabling : option SqliteFailure;
  validating : option SqliteFailure;
}.

Definition attempt {A} (failure : option SqliteFailure) (r : mresult A) : mresult A :=
  match failure with Some f => Err (map_sqlite_error f) | None => r end.

(** The mode of the file, unless it cannot be read. *)
Definition validate_file_permissions (mode : option Z) : mresult unit :=
  match mode with
  | None => Err storage_error
  | Some mode =>
      if negb (Z.land mode 0x3f =? 0)
      then Err (store_error InvalidPath (lit "memory database permissions allow group or other access")) else Ok tt
  end.

(** Foreign keys are off around the transaction; they go on again whatever came
    of it. *)
Definition upgrade_to_version_2 (f : Faults) (s : stored) : mresult unit * stored :=
  match attempt f.(disabling) (Ok tt) with
  | Err e => (Err e, s)
  | Ok _ =>
      let '(upgraded, s) := apply_version_2 f.(upgrading) s in
      (let? _ := attempt f.(enabling) (Ok tt) in upgraded, s)
  end.

(** [SqliteMemoryStore::open] after the checks of the path: an old file is
    brought to version 2 first. [modes] are the modes the two checks of the
    permissions find, and [meanwhile] is what another process does to the file
    while this one waits for its lock. *)
Definition open (f : Faults) (modes : option Z * option Z) (meanwhile : stored -> stored) (s : stored) : mresult unit * stored :=
  let finish (s : stored) :=
    (let? _ := attempt f.(validating) (validate_stored s) in validate_file_permissions modes.2, s) in
  match (let? _ := attempt f.(opening) (Ok tt) in attempt f.(versioning) (stored_version s)) with
  | Err e => (Err e, s)
  | Ok version =>
      if version =? 1 then
        match (let? _ := validate_file_permissions modes.1 in
               attempt f.(history_checking) (match s with inl d => validate_migrations_v1 d | inr _ => Err invalid_database_error end)) with
        | Err e => (Err e, s)
        | Ok _ => match upgrade_to_version_2 f (meanwhile s) with
                  | (Err e, s) => (Err e, s)
                  | (Ok _, s) => finish s
                  end
        end
      else finish s
  end.

(** [initialize_database] up to the upgrade: the tables of version 1, empty. *)
Definition created : DatabaseV1 :=
  {| v1_application_id := SQLITE_APPLICATION_ID;
     v1_user_version := 1;
     v1_schema_migrations := [(1, migration_checksum (migration 0))];
     v1_memories := Table [] 0;
     v1_memory_sources := Table [] 0;
     v1_retrieval_traces := Table [] 0;
     v1_retrieval_items := [] |}.

(** A new database as [initialize] leaves it. *)
Definition initialized : Database := migrated created.

(** A file whose making fails is removed by the caller. *)
Definition initialize_database (f : Faults) : mresult stored :=
  let? _ := attempt f.(opening) (Ok tt) in
  let? _ := attempt f.(creating) (Ok tt) in
  match upgrade_to_version_2 f (inl created) with
  | (Err e, _) => Err e
  | (Ok _, s) => let? _ := attempt f.(validating) (validate_stored s) in Ok s
  end.
End Schema.
