(* ===== verification/MemoryStoreProofs.v ===== *)
(** * Controlled memory: what every operation keeps

    The invariant of the memory database and how it survives any interleaving
    of the store's calls. [evolves] is what other connections may do between
    two accesses of a call: a row keeps its version or gets a larger revision,
    and keys are not given twice. A call is [safe] when each of its accesses
    keeps the invariant and evolves the database, whatever the others did in
    the meantime, so that what it read stays true of the revision it read. *)

From S2P Require Import Prelude RustStr Errors MemoryProtocol MemoryRetrieval Database MemoryStore PeopleStore MemorySchema.

(** ** Inversion of transactions *)

Section Inversion.
Context {A B : Type}.

Lemma tx_bind_Ok (m : Tx A) (k : A -> Tx B) env n db r :
  bind m k env n db = Ok r -> exists a n' db', m env n db = Ok (a, n', db') /\ k a env n' db' = Ok r.
Proof. cbn. rewrite result_bind_Ok. intros ([[a n'] db'] & E & K). by exists a, n', db'. Qed.

Lemma tx_lift_Ok (r : mresult A) env n db a n' db' :
  lift (M := Tx) r env n db = Ok (a, n', db') -> r = Ok a /\ db' = db.
Proof. cbn. destruct r; cbn; [|done]. by intros [= -> -> ->]. Qed.

Lemma tx_execute_Ok (s : stmt A) env n db a n' db' :
  execute (M := Tx) s env n db = Ok (a, n', db') -> s db = Ok (a, db').
Proof.
  cbn. destruct (env_failure env n); [done|]. destruct (s db) as [[a0 db0]|f]; cbn; [|done]. by intros [= -> _ ->].
Qed.

Lemma tx_query_Ok (q : Database -> sql A) env n db a n' db' :
  query (M := Tx) q env n db = Ok (a, n', db') -> q db = Ok a /\ db' = db.
Proof.
  intros E. apply tx_execute_Ok in E. cbv beta in E. destruct (q db); cbn in E; [|done]. by injection E as -> ->.
Qed.
End Inversion.

(** Take a successful transaction apart, statement by statement. *)
Ltac tx_inv H :=
  lazymatch type of H with
  | bind (M := Tx) _ _ _ _ _ = Ok _ =>
      let a := fresh "a" in let n := fresh "n" in let db := fresh "db" in let E := fresh "E" in let K := fresh "K" in
      apply tx_bind_Ok in H; destruct H as (a & n & db & E & K); tx_inv E; tx_inv K
  | lift (M := Tx) _ _ _ _ = Ok _ => let E := fresh "E" in apply tx_lift_Ok in H; destruct H as [E ?]; subst; try discriminate E
  | execute (M := Tx) _ _ _ _ = Ok _ => apply tx_execute_Ok in H
  | query (M := Tx) _ _ _ _ = Ok _ => let E := fresh "E" in apply tx_query_Ok in H; destruct H as [E ?]; subst
  | (if ?b then _ else _) _ _ _ = Ok _ => let E := fresh "E" in destruct b eqn:E; tx_inv H
  | (match ?x with _ => _ end) _ _ _ = Ok _ => destruct x; tx_inv H
  | _ => idtac
  end.

(** ** Statements *)

Lemma constraint_Ok b : constraint b = Ok tt -> b = true.
Proof. by destruct b. Qed.

Definition updated {A} (matching : A -> bool) (assign : A -> option A) (holds : A -> bool) (r r' : A) : Prop :=
  matching r = false /\ r' = r \/ matching r = true /\ assign r = Some r' /\ holds r' = true.

Lemma update_rows_Ok {A} matching (assign : A -> option A) holds l n l' :
  update_rows matching assign holds l = Ok (n, l') ->
  Forall2 (updated matching assign holds) l l' /\ n = zlen (List.filter matching l).
Proof.
  revert n l'. induction l as [|r l IH]; intros n l'; cbn [update_rows]; [by intros [= <- <-]|].
  destruct (update_rows _ _ _ l) as [[n0 l0]|] eqn:E; cbn [result_bind]; [|done].
  destruct (IH _ _ eq_refl) as [F ->]. cbn [List.filter]. destruct (matching r) eqn:M.
  - destruct (assign r) as [r'|] eqn:S; cbn [ok_or result_bind]; [|done].
    destruct (holds r') eqn:C; cbn; [|done]. intros [= <- <-]. rewrite zlen_cons. split; [|lia].
    constructor; [|done]. right. done.
  - intros [= <- <-]. split; [|done]. constructor; [by left|done].
Qed.

(** One row under [update_memories]. *)
Definition memory_updated (matching : memory_row -> bool) (assign : memory_columns -> option memory_columns)
    (m m' : memory_row) : Prop :=
  matching m = false /\ m' = m
  \/ matching m = true /\ assign m = Some (m_columns m') /\ m_subject_person_id m' = m_subject_person_id m /\ memory_check m' = true.

Lemma update_memories_Ok matching assign db n db' : update_memories matching assign db = Ok (n, db') ->
  exists l, db' = set_memories (Table l db.(memories).(sequence)) db
    /\ Forall2 (memory_updated matching assign) db.(memories).(rows) l
    /\ n = zlen (List.filter matching db.(memories).(rows)).
Proof.
  unfold update_memories. destruct (update_rows _ _ _ _) as [[n0 l0]|] eqn:E; cbn; [|done]. intros [= <- <-].
  apply update_rows_Ok in E as [F ->]. exists l0. split; [done|]. split; [|done].
  eapply Forall2_impl; [exact F|]. intros m m' [[H ->]|(H & S & C)]; [by left|]. right.
  destruct (assign m) as [c|] eqn:A; [|done]. injection S as <-. done.
Qed.

Lemma zlen_filter_one {A} (P : A -> bool) l : zlen (List.filter P l) = 1 -> exists x, x ∈ l /\ P x = true.
Proof.
  intros H. destruct (List.filter P l) as [|x k] eqn:E; [done|]. exists x.
  assert (In x (List.filter P l)) as X by (rewrite E; by left). apply filter_In in X as [X Y]. by rewrite list_elem_of_In.
Qed.

(** ** The latest source *)

Lemma latest_snoc l s : latest (l ++ [s]) =
  match latest l with Some b => if b.(s_id) <? s.(s_id) then Some s else Some b | None => Some s end.
Proof. unfold latest. by rewrite foldl_app. Qed.

Lemma latest_elem l s : latest l = Some s -> s ∈ l.
Proof.
  revert s. induction l as [|x l IH] using rev_ind; intros s; [done|]. rewrite latest_snoc, elem_of_app, list_elem_of_singleton.
  destruct (latest l) as [b|]; [destruct (_ <? _)|]; intros [= <-]; auto.
Qed.

Lemma latest_new l s : Forall (fun x => x.(s_id) < s.(s_id)) l -> latest (l ++ [s]) = Some s.
Proof.
  intros F. rewrite latest_snoc. destruct (latest l) as [b|] eqn:E; [|done].
  apply latest_elem in E. rewrite Forall_forall in F. by rewrite (proj2 (Z.ltb_lt _ _) (F _ E)).
Qed.

Lemma latest_some l : l <> [] -> exists s, latest l = Some s.
Proof.
  induction l as [|x l _] using rev_ind; [done|]. intros _. rewrite latest_snoc. destruct (latest l); [destruct (_ <? _)|]; eauto.
Qed.

(** ** Columns and the values they stand for *)

Lemma parse_kind_Ok s k : parse_kind s = Ok k <-> s = MemoryKind_as_str k.
Proof.
  split; [|intros ->; by destruct k]. unfold parse_kind.
  repeat (case_bool_decide; [by intros [= <-]|]). done.
Qed.

Lemma parse_state_Ok s k : parse_state s = Ok k <-> s = MemoryState_as_str k.
Proof.
  split; [|intros ->; by destruct k]. unfold parse_state.
  repeat (case_bool_decide; [by intros [= <-]|]). done.
Qed.

Lemma MemoryKind_as_str_inj k k' : MemoryKind_as_str k = MemoryKind_as_str k' -> k = k'.
Proof. by destruct k, k'. Qed.

Lemma MemoryState_as_str_inj k k' : MemoryState_as_str k = MemoryState_as_str k' -> k = k'.
Proof. by destruct k, k'. Qed.

(** A retention over its three columns. *)
Record retention_in (kind : option rstr) (expires session : option Z) (r : MemoryRetention) : Prop := {
  ri_kind : kind = Some (MemoryRetention_as_str r);
  ri_expires : expires = millis <$> retention_expires_at r;
  ri_session : session = SessionId_get <$> retention_session_id r;
  ri_expires_nonneg : forall e, expires = Some e -> 0 <= e;
  ri_session_nonneg : forall s, session = Some s -> 0 <= s;
}.

Lemma checked_timestamp_Ok v : 0 <= v -> checked_timestamp v = Ok (UnixTimestampMillis_raw v).
Proof. intros H. unfold checked_timestamp, UnixTimestampMillis_new. by rewrite (proj2 (Z.ltb_ge _ _) H). Qed.

Lemma checked_unsigned_Ok v : 0 <= v -> checked_unsigned v = Ok v.
Proof. intros H. unfold checked_unsigned. by rewrite (proj2 (Z.leb_le _ _) H). Qed.

Lemma parse_retention_in kind e s r : retention_in (Some kind) e s r ->
  transpose_map checked_unsigned s = Ok s /\ parse_retention kind e s = Ok r.
Proof.
  intros [K E S EN SN]. injection K as ->. destruct r as [[t]|[x]|[t]|]; cbn in E, S; subst; cbn [transpose_map];
    rewrite ?checked_unsigned_Ok by auto; cbn [result_bind]; (split; [done|]); unfold parse_retention, MemoryRetention_as_str;
    repeat (case_bool_decide; try done); cbn [ok_or result_bind]; rewrite ?checked_timestamp_Ok by auto; done.
Qed.

Lemma parse_retention_inv kind e s s' r : transpose_map checked_unsigned s = Ok s' -> parse_retention kind e s' = Ok r ->
  kind = MemoryRetention_as_str r /\ (forall x, retention_expires_at r = Some x -> e = Some x.(millis))
  /\ (forall x, retention_session_id r = Some x -> s = Some (SessionId_get x)).
Proof.
  intros T. assert (s' = s) as ->.
  { destruct s as [x|]; cbn in T; [|congruence]. unfold checked_unsigned in T. destruct (0 <=? x); cbn in T; congruence. }
  unfold parse_retention, checked_timestamp, UnixTimestampMillis_new. intros H.
  repeat (case_bool_decide; [subst kind; destruct e, s; cbn in H; try done; split_ifs_in H; cbn in H; try done;
    injection H as <-; cbn; (split_and!; [done|intros ? [=]; by subst..])|]). done.
Qed.

Lemma retention_columns_in r k e s : retention_columns r = Ok (k, e, s) ->
  (forall x, retention_expires_at r = Some x -> 0 <= x.(millis)) ->
  (forall x, retention_session_id r = Some x -> 0 <= SessionId_get x) -> retention_in (Some k) e s r.
Proof.
  unfold retention_columns. destruct r as [t|x|t|]; cbn; unfold sqlite_integer; intros H EN SN; split_ifs_in H; cbn in H;
    try done; injection H as <- <- <-; split; cbn; try done; intros ? [= <-]; auto.
Qed.

(** ** Provenance and approvals *)

Section Invariant.
Context `{Sha : Sha256}.

(** A source reads back as what it is. *)
Definition source_reads (s : source_row) : Prop :=
  if is_approval s then exists e, row_to_approval s = Ok e else exists p, row_to_provenance s = Ok p.

(** An approval is older than the row it belongs to. *)
Definition approval_fits (m : memory_columns) (s : source_row) : Prop :=
  s.(s_source_timestamp_ms) <= m.(m_updated_at_ms) /\ exists r, s.(s_approved_revision) = Some r /\ r < m.(m_revision).

Record typed (m : memory_columns) (k : MemoryKind) (st : MemoryState) (ret : MemoryRetention) : Prop := {
  ty_check : memory_check m = true;
  ty_kind : m.(m_kind) = MemoryKind_as_str k;
  ty_state : m.(m_state) = MemoryState_as_str st;
  ty_content : validate_content m.(m_content) = Ok m.(m_content);
  ty_retention : retention_in (Some m.(m_retention_kind)) m.(m_expires_at_ms) m.(m_session_id) ret;
  ty_valid : validate_retention k (UnixTimestampMillis_raw m.(m_created_at_ms)) ret = Ok tt;
  ty_prior : m.(m_pinned) = 1 -> exists prior,
    retention_in m.(m_prior_retention_kind) m.(m_prior_expires_at_ms) m.(m_prior_session_id) prior
    /\ validate_retention k (UnixTimestampMillis_raw m.(m_created_at_ms)) prior = Ok tt;
}.

(** An active memory of a sensitive kind has its latest approval for the
    content it has now. *)
Definition approved (m : memory_columns) (approvals : list source_row) : Prop :=
  exists a, latest approvals = Some a /\ a.(s_content_digest) = Some (content_digest m.(m_content)).

Record row_ok (db : Database) (m : memory_row) : Prop := {
  ro_typed : exists k st ret, typed m k st ret
    /\ (requires_approval k = true -> st = State_Active -> approved m (approvals_of (m_id m) db));
  ro_source : sources_of (m_id m) db <> [];
  ro_approvals : Forall (approval_fits m) (approvals_of (m_id m) db);
}.

(** What is kept also between the statements of a transaction. *)
Record tables_ok (db : Database) : Prop := {
  tb_keys : NoDup (map (fun m : memory_row => m_id m) db.(memories).(rows));
  tb_ids : Forall (fun m : memory_row => 1 <= m_id m <= db.(memories).(sequence)) db.(memories).(rows);
  tb_sequence : 0 <= db.(memories).(sequence);
  tb_subjects : Forall (fun m : memory_row => 1 <= m.(m_subject_person_id)) db.(memories).(rows);
  tb_source_ids : Forall (fun s => s.(s_id) <= db.(memory_sources).(sequence)) db.(memory_sources).(rows);
  tb_source_memories : Forall (fun s => has_memory s.(s_memory_id) db = true) db.(memory_sources).(rows);
  tb_sources_read : Forall source_reads db.(memory_sources).(rows);
  tb_items : Forall (fun i => has_memory i.(i_memory_id) db = true /\ has_trace i.(i_trace_id) db = true) db.(retrieval_items);
}.

(** The invariant, for all rows but one. *)
Definition ok_but (id : Z) (db : Database) : Prop :=
  tables_ok db /\ Forall (fun m : memory_row => m_id m <> id -> row_ok db m) db.(memories).(rows).

Definition memory_inv (db : Database) : Prop := tables_ok db /\ Forall (row_ok db) db.(memories).(rows).

(** ** What a record says of its row *)

Record describes (m : memory_columns) (r : MemoryRecord) : Prop := {
  de_id : MemoryId_get r.(record_id) = m.(m_id);
  de_kind : m.(m_kind) = MemoryKind_as_str (record_kind r);
  de_state : m.(m_state) = MemoryState_as_str r.(record_state);
  de_content : record_content r = m.(m_content);
  de_confidence : confidence_get (record_confidence r) = m.(m_confidence);
  de_created : (record_created_at r).(millis) = m.(m_created_at_ms);
  de_updated : r.(MemoryProtocol.updated_at).(millis) = m.(m_updated_at_ms);
  de_retention : m.(m_retention_kind) = MemoryRetention_as_str (record_retention r);
  de_expires : forall x, retention_expires_at (record_retention r) = Some x -> m.(m_expires_at_ms) = Some x.(millis);
  de_session : forall x, retention_session_id (record_retention r) = Some x -> m.(m_session_id) = Some (SessionId_get x);
  de_pinned : r.(pinned) = (m.(m_pinned) =? 1);
  de_revision : r.(revision) = m.(m_revision);
}.

Lemma convert_Ok {A E} (r : result A E) a : convert r = Ok a <-> r = Ok a.
Proof. destruct r; cbn; naive_solver. Qed.

Lemma map_db_Ok {A} (r : rresult A) a : map_db r = Ok a <-> r = Ok a.
Proof. destruct r; cbn; naive_solver. Qed.

Lemma checked_timestamp_inv v t : checked_timestamp v = Ok t -> t.(millis) = v /\ 0 <= v.
Proof.
  unfold checked_timestamp. rewrite map_db_Ok. unfold UnixTimestampMillis_new. destruct (v <? 0) eqn:E; [done|]. breflect.
  by intros [= <-].
Qed.

Lemma checked_unsigned_inv v u : checked_unsigned v = Ok u -> u = v /\ 0 <= v.
Proof. unfold checked_unsigned. destruct (0 <=? v) eqn:E; [|done]. breflect. by intros [= <-]. Qed.

Lemma MemoryDraft_new_Ok k c p f t ret d : MemoryDraft_new k c p f t ret = Ok d ->
  validate_content c = Ok c /\ validate_retention k t ret = Ok tt
  /\ d = {| draft_kind := k; draft_content := c; draft_provenance := p; draft_confidence := f; draft_created_at := t;
           draft_retention := ret; draft_subject := PersonId_OWNER |}.
Proof.
  unfold MemoryDraft_new. intros (c' & C & H)%result_bind_Ok. assert (c' = c) as ->.
  { unfold validate_content, bounded_text in C. split_ifs_in C; congruence. }
  apply result_bind_Ok in H as ([] & R & [= <-]). done.
Qed.

Lemma MemoryRecord_new_Ok id d st up pin rev ap used reason r :
  MemoryRecord_new id d st up pin rev ap used reason = Ok r ->
  r = {| record_id := id; record_draft := d; record_state := st; MemoryProtocol.updated_at := up; MemoryProtocol.pinned := pin;
         MemoryProtocol.revision := rev; approval := ap; last_used_at := used; last_retrieval_reason := reason |}.
Proof.
  unfold MemoryRecord_new. intros (? & _ & H)%result_bind_Ok.
  repeat match type of H with (if ?b then _ else _) = _ => destruct b; [done|] end. by injection H as <-.
Qed.

Lemma row_to_record_describes j r : row_to_record j = Ok r ->
  describes j.(j_memory) r /\ PersonId_get r.(record_draft).(draft_subject) = m_subject_person_id j.(j_memory).
Proof.
  unfold row_to_record. intros H.
  repeat match type of H with result_bind _ _ = Ok _ =>
    let a := fresh "a" in let E := fresh "E" in apply result_bind_Ok in H; destruct H as (a & E & H); try rewrite convert_Ok in E end.
  rewrite convert_Ok in H. apply MemoryRecord_new_Ok in H as ->.
  repeat match goal with
  | E : checked_timestamp _ = Ok _ |- _ => apply checked_timestamp_inv in E as [? ?]
  | E : checked_unsigned _ = Ok _ |- _ => apply checked_unsigned_inv in E as [-> ?]
  | E : parse_kind _ = Ok _ |- _ => apply parse_kind_Ok in E
  | E : parse_state _ = Ok _ |- _ => apply parse_state_Ok in E
  | E : MemoryDraft_new _ _ _ _ _ _ = Ok _ |- _ => apply MemoryDraft_new_Ok in E as (_ & _ & ->)
  end.
  match goal with T : transpose_map checked_unsigned _ = Ok _, P : parse_retention _ _ _ = Ok _ |- _ =>
    destruct (parse_retention_inv _ _ _ _ _ T P) as (K & X & S) end.
  split; [split; cbn; try done; try congruence|cbn].
  all: unfold checked_memory_id, PersonId_new, MemoryId_new, MemoryConfidence_new, checked_id in *.
  all: repeat match goal with
  | E : result_bind _ _ = Ok _ |- _ => apply result_bind_Ok in E as (? & ?%checked_unsigned_inv & E)
  | E : map_db _ = Ok _ |- _ => rewrite map_db_Ok in E
  | E : (if ?b then _ else _) = Ok _ |- _ => destruct b; [done|]
  end.
  all: naive_solver.
Qed.

(** ** Every row that is in order reads back *)

Lemma check_true e : check e = true <-> e <> Some false.
Proof. unfold check. rewrite negb_true_iff, bool_decide_eq_false. done. Qed.

Record checked (m : memory_columns) : Prop := {
  ck_created : 0 <= m.(m_created_at_ms) <= m.(m_updated_at_ms);
  ck_confidence : 0 <= m.(m_confidence) <= 1000;
  ck_pinned : m.(m_pinned) = 0 \/ m.(m_pinned) = 1;
  ck_revision : 1 <= m.(m_revision);
  ck_used : forall u, m.(m_last_used_at_ms) = Some u -> m.(m_created_at_ms) <= u;
  ck_reason : forall r, m.(m_last_retrieval_reason) = Some r -> r ∈ retrieval_reasons;
  ck_working : m.(m_kind) = lit "working" -> m.(m_pinned) = 0;
  ck_pin : m.(m_pinned) = 1 -> m.(m_retention_kind) = lit "until_deleted";
}.

Lemma memory_check_checked m : memory_check m = true -> checked m.
Proof.
  unfold memory_check. intros H. breflect. rewrite !check_true in *. split; try lia.
  - intros u E. rewrite E in *. unfold sql_ge in *. destruct (m_created_at_ms m <=? u) eqn:L; [by breflect|]. cbn in *. by rewrite L in *.
  - intros r E. rewrite E in *. unfold sql_in in *. cbn in *. destruct (decide (r ∈ retrieval_reasons)) as [I|I]; [done|].
    by rewrite (bool_decide_eq_false_2 (r ∈ retrieval_reasons)) in * by done.
  - intros E. rewrite E in *. destruct (m_pinned m =? 0) eqn:P; [by breflect|]. done.
  - intros E. rewrite E in *. destruct (decide (m_retention_kind m = lit "until_deleted")) as [I|I]; [done|].
    rewrite (bool_decide_eq_false_2 (m_retention_kind m = lit "until_deleted")) in * by done. done.
Qed.

Lemma row_to_approval_inv a e : row_to_approval a = Ok e ->
  is_some a.(s_confirmation_id) = true /\ a.(s_source_timestamp_ms) = e.(evidence_confirmed_at).(millis)
  /\ a.(s_approved_revision) = Some e.(approved_revision) /\ a.(s_content_digest) = Some e.(evidence_digest).
Proof.
  unfold row_to_approval. destruct (s_confirmation_id a); cbn [not_null ok_or result_bind]; [|done].
  destruct (checked_timestamp _) as [t|] eqn:T; cbn [convert result_bind]; [|done]. apply checked_timestamp_inv in T as [T _].
  destruct (s_approved_revision a) as [r|]; cbn [not_null ok_or result_bind]; [|done].
  destruct (checked_unsigned r) as [u|] eqn:R; cbn [convert result_bind]; [|done]. apply checked_unsigned_inv in R as [-> _].
  destruct (s_content_digest a); cbn [not_null ok_or result_bind]; [|done]. rewrite convert_Ok. unfold from_stored.
  intros (x & _ & H)%result_bind_Ok. apply result_bind_Ok in H as (d & D & H).
  unfold bounded_text in D. split_ifs_in D; try done. injection D as <-. split_ifs_in H; [done|]. injection H as <-. done.
Qed.

Lemma parse_retrieval_reason_known r : r ∈ retrieval_reasons -> exists x, parse_retrieval_reason r = Ok x.
Proof.
  unfold retrieval_reasons. rewrite !elem_of_cons, elem_of_nil.
  intros [->|[->|[->|[->|[]]]]]; by eexists; vm_compute.
Qed.

Lemma sources_of_elem id db s : s ∈ sources_of id db ->
  s ∈ db.(memory_sources).(rows) /\ s.(s_memory_id) = id /\ is_approval s = false.
Proof. rewrite list_elem_of_In. unfold sources_of. rewrite filter_In, <- list_elem_of_In. intros [I H]. by breflect. Qed.

Lemma approvals_of_elem id db s : s ∈ approvals_of id db ->
  s ∈ db.(memory_sources).(rows) /\ s.(s_memory_id) = id /\ is_approval s = true.
Proof. rewrite list_elem_of_In. unfold approvals_of. rewrite filter_In, <- list_elem_of_In. intros [I H]. by breflect. Qed.

Lemma source_provenance db id s : tables_ok db -> s ∈ sources_of id db -> exists p, row_to_provenance s = Ok p.
Proof.
  intros T (I & _ & A)%sources_of_elem. pose proof (tb_sources_read _ T) as F. rewrite Forall_forall in F.
  specialize (F _ I). unfold source_reads in F. by rewrite A in F.
Qed.

Lemma approval_evidence db id s : tables_ok db -> s ∈ approvals_of id db -> exists e, row_to_approval s = Ok e.
Proof.
  intros T (I & _ & A)%approvals_of_elem. pose proof (tb_sources_read _ T) as F. rewrite Forall_forall in F.
  specialize (F _ I). unfold source_reads in F. by rewrite A in F.
Qed.

(** The approval the record shows: the latest one, when it is for the content
    and the memory is not waiting for approval. *)
Lemma current_approval db (m : memory_row) : tables_ok db -> Forall (approval_fits m) (approvals_of (m_id m) db) ->
  exists o, optional_approval (latest (approvals_of (m_id m) db)) = Ok o /\
    (forall e, o = Some e -> e.(evidence_confirmed_at).(millis) <= m_updated_at_ms m /\ e.(approved_revision) < m_revision m) /\
    (approved m (approvals_of (m_id m) db) -> exists e, o = Some e /\ matches_content e (m_content m) = true).
Proof.
  intros T F. destruct (latest _) as [a|] eqn:L; cbn [optional_approval].
  - pose proof (latest_elem _ _ L) as I. destruct (approval_evidence _ _ _ T I) as [e E].
    pose proof (row_to_approval_inv _ _ E) as (C & X & R & D).
    unfold is_none. rewrite C, E. cbn. eexists. split; [done|]. rewrite Forall_forall in F. destruct (F _ I) as [U (r & R' & B)].
    split; [intros ? [= <-]; rewrite R in R'; injection R' as <-; lia|]. intros (a' & L' & D'). rewrite L in L'. injection L' as <-.
    exists e. split; [done|]. apply bool_decide_eq_true. congruence.
  - eexists. split; [done|]. split; [done|]. intros (? & ? & _). congruence.
Qed.

Lemma row_reads db (m : memory_row) : tables_ok db -> m ∈ db.(memories).(rows) -> row_ok db m ->
  exists j r, join_row db m = Some j /\ j.(j_memory) = m /\ row_to_record j = Ok r.
Proof.
  intros T I [(k & st & ret & [C K S V R X P] & A) N F].
  destruct (latest_some _ N) as [s L]. unfold join_row. rewrite L. cbn. eexists.
  enough (E : exists r, row_to_record {| j_memory := m; j_source := s; j_approval := latest (approvals_of (m_id m) db) |} = Ok r)
    by (destruct E as [r E]; exists r; split_and!; [reflexivity|reflexivity|exact E]).
  destruct (source_provenance _ _ _ T (latest_elem _ _ L)) as [p PR]. destruct (current_approval _ _ T F) as (o & O & B & G).
  apply memory_check_checked in C as [C1 C2 C3 C4 C5 C6 C7 C8].
  destruct (parse_retention_in _ _ _ _ R) as [R1 R2].
  unfold row_to_record. cbv zeta. cbn [j_memory j_source j_approval]. rewrite (proj2 (parse_kind_Ok _ _) K), (proj2 (parse_state_Ok _ _) S).
  cbn [convert result_bind]. rewrite checked_timestamp_Ok, R1 by lia. cbn [convert result_bind]. rewrite R2, PR, O. cbn [convert result_bind].
  replace ((0 <=? m_confidence m) && (m_confidence m <=? u16_max)) with true by (unfold u16_max; lia). cbn [constraint result_bind].
  unfold MemoryConfidence_new at 1. rewrite (proj2 (Z.ltb_ge _ _)) by lia. cbn [convert result_bind].
  unfold MemoryDraft_new. rewrite V, X. cbn [convert result_bind].
  pose proof (tb_ids _ T) as TI. rewrite Forall_forall in TI. specialize (TI _ I).
  pose proof (tb_subjects _ T) as TS. rewrite Forall_forall in TS. specialize (TS _ I). cbv beta in TI, TS.
  rewrite checked_unsigned_Ok by lia. cbn [convert result_bind]. unfold PersonId_new, checked_id at 1.
  rewrite (proj2 (Z.eqb_neq _ _)) by lia. cbn [convert result_bind]. unfold checked_memory_id. rewrite checked_unsigned_Ok by lia.
  cbn [result_bind]. unfold MemoryId_new, checked_id. rewrite (proj2 (Z.eqb_neq _ _)) by lia. cbn [map_db convert result_bind].
  rewrite checked_timestamp_Ok, (checked_unsigned_Ok (m_revision m)) by lia. cbn [convert result_bind].
  assert (exists u, transpose_map checked_timestamp (m_last_used_at_ms m) = Ok u /\ (forall t, u = Some t -> m_created_at_ms m <= t.(millis))) as (u & -> & U).
  { destruct (m_last_used_at_ms m) as [x|] eqn:E; cbn; [|by eexists]. specialize (C5 x eq_refl). rewrite checked_timestamp_Ok by lia. cbn.
    eexists. split; [done|]. by intros ? [= <-]. }
  assert (exists q, transpose_map parse_retrieval_reason (m_last_retrieval_reason m) = Ok q) as (q & ->).
  { destruct (m_last_retrieval_reason m) as [x|] eqn:E; cbn; [|by eexists].
    destruct (parse_retrieval_reason_known x) as [y ->]; [by apply C6|]. by eexists. }
  cbn [convert result_bind]. unfold MemoryRecord_new, validate_revision. rewrite (proj2 (Z.eqb_neq _ _)) by lia. cbn [result_bind].
  cbn [draft_with_subject draft_created_at millis draft_kind draft_content].
  rewrite (proj2 (Z.ltb_ge _ _)) by lia.
  replace (is_some_and u _) with false by (symmetry; destruct u as [t|]; cbn; [specialize (U t eq_refl); lia|done]).
  assert (((m_pinned m =? 1) && bool_decide (k = Working)) = false) as ->.
  { case_bool_decide as E; [|by rewrite andb_false_r]. subst k. rewrite K in C7. specialize (C7 eq_refl). lia. }
  set (cur := if bool_decide (st = State_Candidate) then None else _).
  assert (cur = None \/ exists e, cur = Some e /\ o = Some e /\ matches_content e (m_content m) = true) as CUR.
  { unfold cur. case_bool_decide; [by left|]. destruct o as [e|]; [|by left]. destruct (matches_content _ _) eqn:M; [right; by exists e|by left]. }
  replace (is_some_and cur _) with false.
  2:{ symmetry. destruct CUR as [->|(e & -> & -> & M)]; [done|]. cbn. destruct (B e eq_refl) as [B1 B2].
      unfold matches_content in M. rewrite M. cbn. lia. }
  assert ((requires_approval k && bool_decide (st = State_Active) && is_none cur) = false) as ->; [|by eexists].
  destruct (requires_approval k) eqn:Q; [|done]. case_bool_decide as ST; [|done]. cbn. destruct (G (A eq_refl ST)) as (e & -> & M).
  unfold cur. rewrite bool_decide_eq_false_2 by congruence. by rewrite M.
Qed.
End Invariant.

(** ** People *)

(** The one owner is the person 1; whoever is referred to exists; names are
    valid and no person has a name twice; whoever has a name has a primary
    one, and everyone but the owner, and perhaps [unnamed], has. *)
Record people_ok_but (unnamed : Z) (db : Database) : Prop := {
  pp_keys : NoDup (map p_id db.(people).(rows));
  pp_ids : Forall (fun p => 1 <= p.(p_id) <= db.(people).(sequence)) db.(people).(rows);
  pp_owner : has_person 1 db = true;
  pp_single : Forall (fun p => p.(p_is_owner) = 1 <-> p.(p_id) = 1) db.(people).(rows);
  pp_check : Forall (fun p => person_check p = true) db.(people).(rows);
  pp_count : zlen db.(people).(rows) <= MAX_PEOPLE;
  pp_subjects : Forall (fun m : memory_row => has_person m.(m_subject_person_id) db = true) db.(memories).(rows);
  pp_signatures : Forall (fun v => has_person v.(v_person_id) db = true) db.(voice_signatures).(rows);
  pp_named : Forall (fun n => has_person n.(pn_person_id) db = true) db.(person_names);
  pp_names : Forall (fun n => exists x, PersonName_new n.(pn_display) n.(pn_key) = Ok x) db.(person_names);
  pp_name_keys : NoDup (map (fun n => (n.(pn_person_id), n.(pn_key))) db.(person_names));
  pp_ordinals : NoDup (map (fun n => (n.(pn_person_id), n.(pn_ordinal))) db.(person_names));
  pp_ordinals_nonneg : Forall (fun n => 0 <= n.(pn_ordinal)) db.(person_names);
  pp_primary : forall id, names_of id db <> [] -> exists n, n ∈ names_of id db /\ n.(pn_ordinal) = 0;
  pp_all_named : forall p, p ∈ db.(people).(rows) -> p.(p_id) <> 1 -> p.(p_id) <> unnamed -> names_of p.(p_id) db <> [];
}.

Definition people_ok : Database -> Prop := people_ok_but 1.

Definition store_inv `{Sha256} (db : Database) : Prop := memory_inv db /\ people_ok db.
