(* ===== verification/MemoryRely.v ===== *)
(** * Controlled memory: calls among other calls

    A program logic for the store's calls. Between two accesses of a call the
    database is changed by other connections; [rely] bounds how. A call is
    [safe] when every access finds the invariant, keeps it, and changes the
    database within [guarantee], and what it learns on the way holds of the
    database it learnt it from. *)

From S2P Require Import Prelude MemoryRetrieval Database.

(** Induction on programs: a property of whatever an access goes on with. *)
Fixpoint prog_rect_nested {A} (P : prog A -> Prop) (done : forall a, P (Done a))
    (access : forall f, (forall env db, P (f env db).2) -> P (Access f)) (p : prog A) : P p :=
  match p with
  | Done a => done a
  | Access f => access f (fun env db => match f env db as r return P r.2 with (_, p') => prog_rect_nested P done access p' end)
  end.

Section Rely.
Context (inv : Database -> Prop) (rely guarantee : Database -> Database -> Prop).

Fixpoint safe {A} (p : prog A) (Q : A -> Database -> Prop) (db : Database) : Prop :=
  match p with
  | Done a => Q a db
  | Access f => forall env db', rely db db' -> inv db' ->
      let '(db'', p') := f env db' in inv db'' /\ guarantee db' db'' /\ safe p' Q db''
  end.

(** What is learnt from a call that succeeds. *)
Definition safe_op {A} (p : op A) (Q : A -> Database -> Prop) (db : Database) : Prop :=
  safe p (fun r db => match r with Ok a => Q a db | Err _ => True end) db.

Lemma safe_bind {A B} (p : prog A) (k : A -> prog B) Q : forall db,
  safe p (fun a db => safe (k a) Q db) db -> safe (prog_bind p k) Q db.
Proof.
  induction p as [a|f IH] using prog_rect_nested; intros db; cbn [safe prog_bind]; [done|]. intros H env db' R I. specialize (H env db' R I).
  specialize (IH env db'). destruct (f env db') as [db'' p']. destruct H as (I' & G & S). split; [done|]. split; [done|]. by apply IH.
Qed.

Lemma safe_mono {A} (p : prog A) (Q Q' : A -> Database -> Prop) : (forall a db, Q a db -> Q' a db) ->
  forall db, safe p Q db -> safe p Q' db.
Proof.
  intros QQ. induction p as [a|f IH] using prog_rect_nested; intros db; cbn [safe]; [apply QQ|]. intros H env db' R I. specialize (H env db' R I).
  specialize (IH env db'). destruct (f env db') as [db'' p']. destruct H as (I' & G & S). split; [done|]. split; [done|]. by apply IH.
Qed.

Lemma safe_op_bind {A B} (m : op A) (k : A -> op B) Q db :
  safe_op m (fun a db => safe_op (k a) Q db) db -> safe_op (bind m k) Q db.
Proof. intros H. apply safe_bind. eapply safe_mono; [|exact H]. intros [a|e] db'; done. Qed.

Lemma safe_op_lift {A} (r : mresult A) (Q : A -> Database -> Prop) db :
  (forall a, r = Ok a -> Q a db) -> safe_op (lift r) Q db.
Proof. intros H. cbn. destruct r; [by apply H|done]. Qed.

Lemma safe_op_err {A} e (Q : A -> Database -> Prop) db : safe_op (lift (Err e)) Q db.
Proof. done. Qed.

Context (guarantee_refl : forall db, guarantee db db).

Lemma safe_op_query {A} (q : Database -> sql A) (Q : A -> Database -> Prop) db :
  (forall db' a, rely db db' -> inv db' -> q db' = Ok a -> Q a db') -> safe_op (query q) Q db.
Proof using guarantee_refl.
  intros H env db' R I. destruct (env_failure env 0); [by split_and!|].
  destruct (q db') as [a|] eqn:E; cbn; split_and!; try done. by apply H.
Qed.

Lemma safe_op_transaction {A} (body : Tx A) (Q : A -> Database -> Prop) db :
  (forall env n db' a n' db'', rely db db' -> inv db' -> body env n db' = Ok (a, n', db'') ->
     inv db'' /\ guarantee db' db'' /\ Q a db'') -> safe_op (transaction body) Q db.
Proof using guarantee_refl.
  intros H env db' R I.
  set (whole := (let* _ := query (fun _ => Ok tt) in let* a := body in let* _ := query (fun _ => Ok tt) in lift (Ok a)) : Tx A).
  change (let '(db'', p') := match whole env 0%nat db' with
            | Ok (a, _, db') => (db', Done (Ok a))
            | Err e => (db', Done (Err e))
            end in
          inv db'' /\ guarantee db' db'' /\ safe p' (fun r db => match r with Ok a => Q a db | Err _ => True end) db'').
  assert (forall a n db'', whole env 0%nat db' = Ok (a, n, db'') -> exists n0 n1, body env n0 db' = Ok (a, n1, db'')) as W.
  { intros a n db''. unfold whole. cbn. destruct (env_failure env 0); [done|]. cbn.
    destruct (body env 1%nat db') as [[[b n1] db1]|] eqn:B; cbn; [|done]. destruct (env_failure env n1); [done|]. cbn.
    intros [= <- _ <-]. by eexists _, _. }
  destruct (whole env 0%nat db') as [[[a n] db'']|e]; [|by split_and!].
  destruct (W _ _ _ eq_refl) as (n0 & n1 & B). destruct (H _ _ _ _ _ _ R I B) as (I' & G & S). done.
Qed.

(** ** Many calls at once *)

Context (rely_refl : forall db, rely db db) (rely_trans : forall a b c, rely a b -> rely b c -> rely a c)
  (guarantee_rely : forall a b, guarantee a b -> rely a b).

(** A call that is under way. *)
Record thread : Type := Thread { answer : Type; running : prog answer }.

Record world : Type := World { database : Database; threads : list thread }.

(** Which calls may be made. *)
Context (callable : forall A, prog A -> Prop).

(** A call begins, makes its next access, or is given up with its process. *)
Inductive world_step : world -> world -> Prop :=
| step_call w A (p : prog A) : callable A p -> world_step w (World w.(database) (Thread A p :: w.(threads)))
| step_access db before A f after env db' p' : f env db = (db', p') ->
    world_step (World db (before ++ Thread A (Access f) :: after)) (World db' (before ++ Thread A p' :: after))
| step_stop db before t after : world_step (World db (before ++ t :: after)) (World db (before ++ after)).

(** A run with the databases it went through, the last one first. *)
Inductive run (w : world) : list Database -> world -> Prop :=
| run_start : run w [w.(database)] w
| run_step history v v' : run w history v -> world_step v v' -> run w (v'.(database) :: history) v'.

Definition thread_safe (db : Database) (t : thread) : Prop := safe t.(running) (fun _ _ => True) db.

Lemma safe_later {A} (p : prog A) db db' : rely db db' -> safe p (fun _ _ => True) db -> safe p (fun _ _ => True) db'.
Proof using rely_trans. destruct p as [a|f]; intros R; cbn; [done|]. intros H env d R' I. apply H; [by eapply rely_trans|done]. Qed.

Context (callable_safe : forall A (p : prog A) db, callable A p -> safe p (fun _ _ => True) db).

Definition world_ok (w : world) : Prop := inv w.(database) /\ Forall (thread_safe w.(database)) w.(threads).

Lemma world_step_ok w w' : world_ok w -> world_step w w' ->
  world_ok w' /\ (w'.(database) = w.(database) \/ guarantee w.(database) w'.(database)).
Proof using callable_safe rely_refl rely_trans guarantee_rely.
  intros [I F] S. destruct S as [w A p C|db before A f after env db' p' E|db before t after]; cbn in *.
  - split; [|by left]. split; [done|]. constructor; [by apply callable_safe|done].
  - apply Forall_app in F as [F1 F2]. apply Forall_cons in F2 as [S F2]. specialize (S env db (rely_refl db) I). rewrite E in S.
    destruct S as (I' & G & S). split; [|by right]. split; [done|]. cbn.
    assert (L : forall t, thread_safe db t -> thread_safe db' t) by (intros t; apply safe_later; auto).
    apply Forall_app. split; [by eapply Forall_impl|]. constructor; [done|]. by eapply Forall_impl.
  - split; [|by left]. split; [done|]. cbn. apply Forall_app in F as [F1 F2]. apply Forall_cons in F2 as [_ F2]. by apply Forall_app.
Qed.

(** Along a run the invariant holds, and a later database relies on an earlier. *)
Lemma run_ok w history v : world_ok w -> run w history v ->
  world_ok v /\ Forall inv history /\ (exists past, history = v.(database) :: past) /\
  forall i j a b, (i <= j)%nat -> history !! i = Some b -> history !! j = Some a -> rely a b.
Proof using callable_safe rely_refl rely_trans guarantee_rely.
  intros W R. induction R as [|history v v' R (V & F & (past & P) & M) S].
  - split; [done|]. split; [constructor; [apply W|done]|]. split; [by eexists|].
    intros [|i] [|j] a b L; cbn; try done; try lia. by intros [= <-] [= <-].
  - pose proof (world_step_ok _ _ V S) as [V' G]. split; [done|]. split; [constructor; [apply V'|done]|]. split; [by eexists|].
    intros [|i] [|j] a b L; cbn; [by intros [= <-] [= <-]| |lia|apply M; lia].
    intros [= <-] A. assert (rely a v.(database)) as R1 by (apply (M 0%nat j); [lia|by rewrite P|done]).
    destruct G as [->|G]; [done|]. eauto.
Qed.

(** Along a run every change is one a call guaranteed. *)
Lemma run_guaranteed w history v i a b : world_ok w -> run w history v ->
  history !! S i = Some a -> history !! i = Some b -> b = a \/ guarantee a b.
Proof using callable_safe rely_refl rely_trans guarantee_rely.
  intros W R. revert i. induction R as [|history v v' R IH S]; intros i; [by destruct i|].
  destruct (run_ok _ _ _ W R) as (V & _ & (past & ->) & _). pose proof (world_step_ok _ _ V S) as [_ G].
  destruct i as [|i]; cbn; [intros [= <-] [= <-]; by destruct G; auto|]. apply (IH i).
Qed.
End Rely.
