(* ===== verification/MemoryStoreSafety.v ===== *)
(** * Controlled memory: the store's calls are safe

    Each operation on memories keeps the invariant of the database and evolves
    it, whatever other connections do between its accesses. An approval is
    recorded only for the content its memory has at that moment. *)

From S2P Require Import Prelude RustStr Errors MemoryProtocol MemoryRetrieval Database MemoryStore PeopleStore MemorySchema MemoryStoreProofs MemoryRely.

(** ** What may happen to a row *)

(** A row without the columns of its last use: what its revision identifies. *)
Definition version (m : memory_columns) : memory_columns :=
  {| m_id := m.(m_id); m_kind := m.(m_kind); m_state := m.(m_state); m_content := m.(m_content);
     m_confidence := m.(m_confidence); m_created_at_ms := m.(m_created_at_ms); m_updated_at_ms := m.(m_updated_at_ms);
     m_retention_kind := m.(m_retention_kind); m_expires_at_ms := m.(m_expires_at_ms); m_session_id := m.(m_session_id);
     m_pinned := m.(m_pinned); m_prior_retention_kind := m.(m_prior_retention_kind);
     m_prior_expires_at_ms := m.(m_prior_expires_at_ms); m_prior_session_id := m.(m_prior_session_id);
     m_revision := m.(m_revision); m_last_used_at_ms := None; m_last_retrieval_reason := None |}.

(** [m'] is [m] at the same revision or at a later one. *)
Definition succeeds (m m' : memory_columns) : Prop :=
  m.(m_id) = m'.(m_id) /\ (m.(m_revision) < m'.(m_revision) \/ version m = version m').

(** The identity of the file and of its schema. *)
Definition header (db : Database) : Z * Z * list (Z * rstr) := (db.(application_id), db.(user_version), db.(schema_migrations)).

Definition evolves (db db' : Database) : Prop :=
  (db.(memories).(sequence) <= db'.(memories).(sequence) /\ header db' = header db) /\
  forall m' : memory_row, m' ∈ db'.(memories).(rows) -> m_id m' <= db.(memories).(sequence) ->
    exists m : memory_row, m ∈ db.(memories).(rows) /\ succeeds m m'.

Lemma succeeds_refl m : succeeds m m.
Proof. split; [done|by right]. Qed.

Lemma succeeds_trans a b c : succeeds a b -> succeeds b c -> succeeds a c.
Proof.
  intros [I R] [I' R']. split; [congruence|]. destruct R as [R|R], R' as [R'|R'].
  - left. lia.
  - left. apply (f_equal m_revision) in R'. cbn in R'. lia.
  - left. apply (f_equal m_revision) in R. cbn in R. lia.
  - right. congruence.
Qed.

Lemma evolves_refl db : evolves db db.
Proof. split; [done|]. intros m I _. exists m. split; [done|apply succeeds_refl]. Qed.

Lemma evolves_trans a b c : evolves a b -> evolves b c -> evolves a c.
Proof.
  intros [[S H] E] [[S' H'] E']. split; [split; [lia|congruence]|]. intros m I L. destruct (E' m I ltac:(lia)) as (m1 & I1 & X1).
  destruct (E m1 I1) as (m0 & I0 & X0); [destruct X1 as [-> _]; lia|]. exists m0. split; [done|by eapply succeeds_trans].
Qed.

(** The same memories. *)
Lemma evolves_same db db' : db'.(memories) = db.(memories) -> header db' = header db -> evolves db db'.
Proof. intros E H. unfold evolves. rewrite E, H. apply (evolves_refl db). Qed.

Section Safety.
Context `{Sha : Sha256}.

(** A new approval is for a candidate at its current revision and for its
    current content. *)
Definition approvals_justified (db db' : Database) : Prop :=
  forall a, a ∈ db'.(memory_sources).(rows) -> is_approval a = true -> a ∈ db.(memory_sources).(rows) \/
    exists m : memory_row, m ∈ db.(memories).(rows) /\ m_id m = a.(s_memory_id) /\ a.(s_approved_revision) = Some (m_revision m)
      /\ m_state m = lit "candidate" /\ a.(s_content_digest) = Some (content_digest (m_content m)).

Definition guarantee (db db' : Database) : Prop := evolves db db' /\ approvals_justified db db'.

Lemma justified_same db db' : db'.(memory_sources) = db.(memory_sources) -> approvals_justified db db'.
Proof. intros E a I _. left. by rewrite <- E. Qed.

Lemma guarantee_refl db : guarantee db db.
Proof. split; [apply evolves_refl|by apply justified_same]. Qed.

Lemma guarantee_evolves a b : guarantee a b -> evolves a b.
Proof. by intros [E _]. Qed.

(** ** Rows and tables *)

Lemma row_ok_ext db db' m : db'.(memory_sources) = db.(memory_sources) -> row_ok db m -> row_ok db' m.
Proof. intros E [T S A]. split; unfold sources_of, approvals_of in *; by rewrite E. Qed.

(** A row that keeps its approvals: it is no older, and if it is active and
    needs approval, it was and its content is the same. *)
Lemma row_ok_step db (m : memory_row) c subject k st ret : row_ok db m -> typed c k st ret -> m_id c = m_id m ->
  m_updated_at_ms m <= m_updated_at_ms c -> m_revision m <= m_revision c ->
  (requires_approval k = true -> st = State_Active ->
     m_state m = m_state c /\ m_kind m = m_kind c /\ m_content m = m_content c) ->
  row_ok db (MemoryRow c subject).
Proof.
  intros [(k0 & st0 & ret0 & T0 & A0) S0 F0] T E U R C. split; cbn; rewrite E; try done.
  - exists k, st, ret. split; [done|]. intros K ST. destruct (C K ST) as (C1 & C2 & C3). unfold approved. rewrite <- C3.
    apply A0.
    + rewrite (ty_kind _ _ _ _ T0), (ty_kind _ _ _ _ T) in C2. by apply MemoryKind_as_str_inj in C2 as ->.
    + rewrite (ty_state _ _ _ _ T0), (ty_state _ _ _ _ T) in C1. apply MemoryState_as_str_inj in C1 as ->. done.
  - eapply Forall_impl; [done|]. intros s [L (r & Er & B)]. split; [lia|]. exists r. split; [done|lia].
Qed.

Lemma has_memory_true id db : has_memory id db = true <-> exists m : memory_row, m ∈ db.(memories).(rows) /\ m_id m = id.
Proof.
  unfold has_memory. rewrite existsb_exists. split.
  - intros (m & I & E). breflect. exists m. by rewrite list_elem_of_In.
  - intros (m & I & E). exists m. rewrite <- list_elem_of_In. split; [done|]. by apply Z.eqb_eq.
Qed.

Lemma has_person_true id db : has_person id db = true <-> exists p, p ∈ db.(people).(rows) /\ p.(p_id) = id.
Proof.
  unfold has_person. rewrite existsb_exists. split.
  - intros (m & I & E). breflect. exists m. by rewrite list_elem_of_In.
  - intros (m & I & E). exists m. rewrite <- list_elem_of_In. split; [done|]. by apply Z.eqb_eq.
Qed.

(** Rows with the same keys and subjects. *)
Lemma Forall2_map_eq {A B} (R : A -> A -> Prop) (f : A -> B) l k : Forall2 R l k -> (forall x y, R x y -> f y = f x) -> map f k = map f l.
Proof. induction 1 as [|x y l k H F IH]; intros E; cbn; [done|]. f_equal; auto. Qed.

Lemma Forall2_elem_r {A} (R : A -> A -> Prop) l k y : Forall2 R l k -> y ∈ k -> exists x, x ∈ l /\ R x y.
Proof.
  induction 1 as [|x z l k H F IH]; [by rewrite elem_of_nil|]. rewrite elem_of_cons. intros [->|I]; [exists x; split; [left|done]|].
  destruct (IH I) as (x' & I' & R'). exists x'. split; [by right|done].
Qed.

Section Update.
Context (matching : memory_row -> bool) (assign : memory_columns -> option memory_columns) (db : Database) (n : Z) (db' : Database).
Context (run_update : update_memories matching assign db = Ok (n, db')).
Context (keeps_id : forall m c, assign m = Some c -> m_id c = m_id m).

Lemma update_rows_of : exists l, db' = set_memories (Table l db.(memories).(sequence)) db
  /\ Forall2 (memory_updated matching assign) db.(memories).(rows) l.
Proof using run_update. apply update_memories_Ok in run_update as (l & E & F & _). by exists l. Qed.

Lemma memory_updated_id m m' : memory_updated matching assign m m' -> m_id m' = m_id m /\ m_subject_person_id m' = m_subject_person_id m.
Proof using keeps_id. intros [[_ ->]|(_ & A & S & _)]; [done|]. split; [by apply keeps_id|done]. Qed.

Lemma update_keys : map (fun m : memory_row => m_id m) db'.(memories).(rows) = map (fun m : memory_row => m_id m) db.(memories).(rows).
Proof using run_update keeps_id.
  destruct update_rows_of as (l & -> & F). cbn. eapply Forall2_map_eq; [exact F|]. intros x y H. by apply memory_updated_id.
Qed.

Lemma update_has_memory id : has_memory id db' = has_memory id db.
Proof using run_update keeps_id.
  unfold has_memory. pose proof update_keys as K. revert K. generalize (rows (memories db')), (rows (memories db)).
  intros l k. revert k. induction l as [|x l IH]; intros [|y k]; cbn; try done. intros [= -> E]. f_equal. by apply IH.
Qed.

Lemma update_elem (m' : memory_row) : m' ∈ db'.(memories).(rows) -> exists m, m ∈ db.(memories).(rows) /\ memory_updated matching assign m m'.
Proof using run_update. destruct update_rows_of as (l & -> & F). cbn. by apply Forall2_elem_r. Qed.

Lemma update_tables : tables_ok db -> tables_ok db'.
Proof using run_update keeps_id.
  intros [K I S SU SI SM SR IT]. pose proof update_keys as KEYS. pose proof update_has_memory as HM. pose proof update_elem as EL.
  destruct update_rows_of as (l & -> & F). split; try done.
  - by rewrite KEYS.
  - apply Forall_forall. intros m' E. destruct (EL _ E) as (m & M & U). apply memory_updated_id in U as [-> _].
    rewrite Forall_forall in I. by apply I.
  - apply Forall_forall. intros m' E. destruct (EL _ E) as (m & M & U). apply memory_updated_id in U as [_ ->].
    rewrite Forall_forall in SU. by apply SU.
  - eapply Forall_impl; [exact SM|]. intros s H. cbv beta. by rewrite HM.
  - eapply Forall_impl; [exact IT|]. intros i [H1 H2]. cbv beta. by rewrite HM.
Qed.

Lemma update_people_ok : people_ok db -> people_ok db'.
Proof using run_update keeps_id.
  intros P. pose proof (pp_subjects _ _ P) as SU. pose proof update_elem as EL. destruct update_rows_of as (l & -> & F). destruct P; split; try done.
  apply Forall_forall. intros m' E. destruct (EL _ E) as (m & M & U). apply memory_updated_id in U as [_ ->].
  rewrite Forall_forall in SU. by apply SU.
Qed.

Lemma update_evolves : (forall m : memory_row, m ∈ db.(memories).(rows) -> matching m = true -> forall c, assign m = Some c ->
    m_revision m < m_revision c \/ version m = version c) -> evolves db db'.
Proof using run_update keeps_id.
  intros H. pose proof update_elem as EL. destruct update_rows_of as (l & -> & F). split; [done|]. intros m' I L. destruct (EL _ I) as (m & M & U).
  exists m. split; [done|]. pose proof (memory_updated_id _ _ U) as [ID _]. split; [done|].
  destruct U as [[_ ->]|(X & A & _)]; [by right|by eapply H].
Qed.

(** Rows that are not matched stay in order; the matched ones are left to the
    caller. *)
Lemma update_ok_but id : memory_inv db -> (forall m : memory_row, matching m = true -> m_id m = id) -> ok_but id db'.
Proof using run_update keeps_id.
  intros [T R] H. split; [by apply update_tables|]. pose proof update_elem as EL. destruct update_rows_of as (l & -> & F).
  apply Forall_forall. intros m' E N. destruct (EL _ E) as (m & M & U). apply (row_ok_ext db); [done|].
  rewrite Forall_forall in R. destruct U as [[_ ->]|(X & A & _)]; [by apply R|].
  exfalso. apply N. rewrite <- (H m X). by apply keeps_id.
Qed.

Lemma update_inv : memory_inv db -> (forall (m : memory_row) c, m ∈ db.(memories).(rows) -> row_ok db m -> matching m = true ->
    assign m = Some c -> memory_check c = true -> row_ok db (MemoryRow c (m_subject_person_id m))) -> memory_inv db'.
Proof using run_update keeps_id.
  intros [T R] H. split; [by apply update_tables|]. pose proof update_elem as EL. destruct update_rows_of as (l & -> & F).
  apply Forall_forall. intros m' E. destruct (EL _ E) as (m & M & U). apply (row_ok_ext db); [done|].
  rewrite Forall_forall in R. destruct U as [[_ ->]|(X & A & S & C)]; [by apply R|].
  destruct m' as [c sub]. cbn in *. rewrite S. by eapply H; eauto.
Qed.
End Update.

(** ** What the assignments make of a row *)

Lemma next_revision_Some r r' : next_revision r = Some r' -> r' = r + 1.
Proof. unfold next_revision. destruct (_ <? _); congruence. Qed.

(** Take the new columns of an assignment apart. *)
Ltac columns H :=
  match type of H with _ <$> next_revision ?r = Some _ =>
    let N := fresh "N" in destruct (next_revision r) as [?|] eqn:N; [|done]; cbn in H; injection H as <-; apply next_revision_Some in N as ->
  end.

Lemma expire_columns_id t m c : expire_columns t m = Some c -> m_id c = m_id m.
Proof. unfold expire_columns. intros H. by columns H. Qed.
Lemma expire_columns_revision t m c : expire_columns t m = Some c -> m_revision m < m_revision c.
Proof. unfold expire_columns. intros H. columns H. cbn. lia. Qed.

Lemma expire_columns_ok db t (m : memory_row) c : row_ok db m -> expire_columns t m = Some c -> memory_check c = true ->
  row_ok db (MemoryRow c (m_subject_person_id m)).
Proof.
  intros R H C. destruct (ro_typed _ _ R) as (k & st & ret & [X1 X2 X3 X4 X5 X6 X7] & _).
  eapply (row_ok_step _ _ _ _ k State_Expired ret R); unfold expire_columns in H; columns H; try done; cbn in *; lia.
Qed.

Lemma use_columns_id t r m c : use_columns t r m = Some c -> m_id c = m_id m.
Proof. by intros [= <-]. Qed.
Lemma use_columns_version t r m c : use_columns t r m = Some c -> version m = version c.
Proof. by intros [= <-]. Qed.

Lemma use_columns_ok db t r (m : memory_row) c : row_ok db m -> use_columns t r m = Some c -> memory_check c = true ->
  row_ok db (MemoryRow c (m_subject_person_id m)).
Proof.
  intros R [= <-] C. destruct (ro_typed _ _ R) as (k & st & ret & [X1 X2 X3 X4 X5 X6 X7] & _).
  by eapply (row_ok_step _ _ _ _ k st ret R).
Qed.

Lemma pin_columns_id t m c : pin_columns t m = Some c -> m_id c = m_id m.
Proof. unfold pin_columns. intros H. by columns H. Qed.

Lemma validate_until_deleted k t : k <> Working -> validate_retention k t Retention_UntilDeleted = Ok tt.
Proof. by destruct k. Qed.

Lemma pin_columns_ok db t (m : memory_row) c : row_ok db m -> m_updated_at_ms m <= t -> m_kind m <> lit "working" ->
  pin_columns t m = Some c -> memory_check c = true -> row_ok db (MemoryRow c (m_subject_person_id m)).
Proof.
  intros R U K H C. destruct (ro_typed _ _ R) as (k & st & ret & [X1 X2 X3 X4 X5 X6 X7] & _).
  eapply (row_ok_step _ _ _ _ k st Retention_UntilDeleted R); unfold pin_columns in H; columns H; try done; cbn in *; try lia.
  split; cbn; try done; [|intros _; by exists ret]. apply validate_until_deleted. intros ->. by apply K.
Qed.

Lemma unpin_columns_id t m c : unpin_columns t m = Some c -> m_id c = m_id m /\ m_revision m < m_revision c.
Proof.
  unfold unpin_columns. destruct (m_prior_retention_kind m); [|done]. destruct (next_revision _) eqn:N; [|done].
  apply next_revision_Some in N. intros [= <-]. cbn. lia.
Qed.

Lemma unpin_columns_ok db t (m : memory_row) c : row_ok db m -> m_updated_at_ms m <= t -> m_pinned m = 1 ->
  unpin_columns t m = Some c -> memory_check c = true -> row_ok db (MemoryRow c (m_subject_person_id m)).
Proof.
  intros R U P H C. destruct (ro_typed _ _ R) as (k & st & ret & [X1 X2 X3 X4 X5 X6 X7] & _).
  destruct (X7 P) as (prior & PI & PV). pose proof (unpin_columns_id _ _ _ H) as [_ RV].
  unfold unpin_columns in H. destruct (m_prior_retention_kind m) as [prior_kind|]; [|done]. destruct (next_revision _); [|done].
  injection H as <-. eapply (row_ok_step _ _ _ _ k st prior R); try done; cbn in *; lia.
Qed.

(** ** What a call has read *)

Lemma describes_version m m' r : version m = version m' -> describes m r -> describes m' r.
Proof.
  intros V D.
  pose proof (f_equal m_id V); pose proof (f_equal m_kind V); pose proof (f_equal m_state V); pose proof (f_equal m_content V);
    pose proof (f_equal m_confidence V); pose proof (f_equal m_created_at_ms V); pose proof (f_equal m_updated_at_ms V);
    pose proof (f_equal m_retention_kind V); pose proof (f_equal m_expires_at_ms V); pose proof (f_equal m_session_id V);
    pose proof (f_equal m_pinned V); pose proof (f_equal m_revision V). cbn in *. destruct D. split; congruence || naive_solver congruence.
Qed.

(** [r] was read from some row before. *)
Definition knows (r : MemoryRecord) (db : Database) : Prop :=
  exists db0 (m : memory_row), memory_inv db0 /\ evolves db0 db /\ m ∈ db0.(memories).(rows) /\ describes m r.

Lemma knows_later r db db' : knows r db -> evolves db db' -> knows r db'.
Proof. intros (db0 & m & I & E & M & D) E'. exists db0, m. split; [done|]. split; [by eapply evolves_trans|done]. Qed.

Lemma row_unique db (m m' : memory_row) : tables_ok db -> m ∈ db.(memories).(rows) -> m' ∈ db.(memories).(rows) -> m_id m = m_id m' -> m = m'.
Proof.
  intros T M M' E. pose proof (tb_keys _ T) as K. apply list_elem_of_lookup in M as [i M], M' as [j M'].
  assert (i = j) as ->; [|congruence]. eapply NoDup_lookup; [exact K|..]; rewrite list_lookup_fmap; [by rewrite M|]. rewrite M'. cbn. by rewrite E.
Qed.

(** While the revision is the one that was read, so is everything else. *)
Lemma knows_row r db (m : memory_row) : knows r db -> m ∈ db.(memories).(rows) -> m_id m = MemoryId_get r.(record_id) ->
  m_revision m = r.(revision) -> describes m r.
Proof.
  intros (db0 & m0 & [T0 _] & [_ E] & M0 & D) M I R.
  pose proof (tb_ids _ T0) as IDS. rewrite Forall_forall in IDS. pose proof (IDS _ M0) as B. cbv beta in B.
  pose proof (de_id _ _ D) as DI. pose proof (de_revision _ _ D) as DR.
  destruct (E m M ltac:(lia)) as (m1 & M1 & S1 & S2). assert (m1 = m0) as -> by (eapply row_unique; eauto; congruence).
  destruct S2 as [S2|S2]; [lia|]. by eapply describes_version.
Qed.

Lemma knows_read db j m r : memory_inv db -> m ∈ db.(memories).(rows) -> j.(j_memory) = m -> row_to_record j = Ok r -> knows r db.
Proof.
  intros I M <- R. apply row_to_record_describes in R as [D _]. exists db, j.(j_memory). split; [done|]. split; [apply evolves_refl|done].
Qed.

Lemma record_rows_elem matching db j : j ∈ record_rows matching db ->
  j.(j_memory) ∈ db.(memories).(rows) /\ matching j.(j_memory) = true /\ join_row db j.(j_memory) = Some j.
Proof.
  unfold record_rows. rewrite list_elem_of_omap. intros (m & I & E). rewrite list_elem_of_In, filter_In, <- list_elem_of_In in I.
  destruct I as [I M]. assert (j.(j_memory) = m) as ->; [|done].
  unfold join_row in E. destruct (latest (sources_of _ _)); [|done]. by injection E as <-.
Qed.

(** ** New sources *)

Definition with_source (row : source_row) (db : Database) : Database :=
  set_sources (append row.(s_id) row db.(memory_sources)) db.

(** A source that may be added. *)
Record addable (db : Database) (row : source_row) : Prop := {
  ad_id : row.(s_id) = db.(memory_sources).(sequence) + 1;
  ad_memory : has_memory row.(s_memory_id) db = true;
  ad_reads : source_reads row;
}.

Lemma with_source_tables db row : tables_ok db -> addable db row -> tables_ok (with_source row db).
Proof.
  intros [K I S SU SI SM SR IT] [AI AM AR]. split; cbn; try done; apply Forall_app; (split; [|by repeat constructor]); try done.
  eapply Forall_impl; [exact SI|]. cbn. intros s. lia.
Qed.

Lemma with_source_sources db row id : sources_of id (with_source row db) =
  sources_of id db ++ (if (row.(s_memory_id) =? id) && negb (is_approval row) then [row] else []).
Proof. unfold sources_of, with_source. cbn. rewrite List.filter_app. cbn. by destruct (_ && _). Qed.

Lemma with_source_approvals db row id : approvals_of id (with_source row db) =
  approvals_of id db ++ (if (row.(s_memory_id) =? id) && is_approval row then [row] else []).
Proof. unfold approvals_of, with_source. cbn. rewrite List.filter_app. cbn. by destruct (_ && _). Qed.

Lemma with_source_other db row (m : memory_row) : m_id m <> row.(s_memory_id) -> row_ok db m -> row_ok (with_source row db) m.
Proof.
  intros N [T S A]. assert ((row.(s_memory_id) =? m_id m) = false) as E by (apply Z.eqb_neq; congruence).
  split; rewrite ?with_source_sources, ?with_source_approvals, ?E; cbn [andb]; by rewrite app_nil_r.
Qed.

(** A row that is in order but for a source of its own. *)
Record half_ok (db : Database) (m : memory_row) : Prop := {
  ho_typed : exists k st ret, typed m k st ret
    /\ (requires_approval k = true -> st = State_Active -> approved m (approvals_of (m_id m) db));
  ho_approvals : Forall (approval_fits m) (approvals_of (m_id m) db);
}.

Lemma row_ok_half db m : row_ok db m -> half_ok db m.
Proof. intros []. by split. Qed.

Lemma with_provenance_inv db row : ok_but row.(s_memory_id) db -> addable db row -> is_approval row = false ->
  (forall m : memory_row, m ∈ db.(memories).(rows) -> m_id m = row.(s_memory_id) -> half_ok db m) ->
  memory_inv (with_source row db).
Proof.
  intros [T R] A P H. split; [by apply with_source_tables|]. apply Forall_forall. intros m I. change (m ∈ rows (memories db)) in I.
  rewrite Forall_forall in R. destruct (decide (m_id m = row.(s_memory_id))) as [E|N]; [|by apply with_source_other; auto].
  destruct (H m I E) as [HT HA]. split; rewrite ?with_source_sources, ?with_source_approvals, ?E, ?P, ?Z.eqb_refl; cbn [andb negb];
    rewrite ?app_nil_r, <- ?E; try done. by intros [_ X]%app_nil.
Qed.

(** An approval makes its row active. *)
Lemma with_approval_inv db row k ret : ok_but row.(s_memory_id) db -> addable db row -> is_approval row = true ->
  (forall m : memory_row, m ∈ db.(memories).(rows) -> m_id m = row.(s_memory_id) ->
     typed m k State_Active ret /\ sources_of (m_id m) db <> [] /\ Forall (approval_fits m) (approvals_of (m_id m) db)
     /\ approval_fits m row /\ row.(s_content_digest) = Some (content_digest (m_content m))) ->
  memory_inv (with_source row db).
Proof.
  intros [T R] A P H. split; [by apply with_source_tables|]. apply Forall_forall. intros m I. change (m ∈ rows (memories db)) in I.
  rewrite Forall_forall in R. destruct (decide (m_id m = row.(s_memory_id))) as [E|N]; [|by apply with_source_other; auto].
  destruct (H m I E) as (TY & S & F & AF & D).
  split; rewrite ?with_source_sources, ?with_source_approvals, ?E, ?P, ?Z.eqb_refl; cbn [andb negb]; rewrite ?app_nil_r, <- ?E; try done.
  - exists k, State_Active, ret. split; [done|]. intros _ _. exists row. split; [|done]. apply latest_new. apply Forall_forall.
    intros s (IN & _)%approvals_of_elem. pose proof (tb_source_ids _ T) as SI. rewrite Forall_forall in SI. specialize (SI _ IN).
    cbv beta in SI. pose proof (ad_id _ _ A). lia.
  - apply Forall_app. split; [done|]. by apply Forall_singleton.
Qed.

Lemma with_source_people db row : people_ok db -> people_ok (with_source row db).
Proof. by intros []. Qed.

Lemma with_provenance_justified db row : is_approval row = false -> approvals_justified db (with_source row db).
Proof.
  intros P a I A. left. cbn in I. apply elem_of_app in I as [I|I]; [done|]. apply list_elem_of_singleton in I as ->. congruence.
Qed.

(** ** Values the constructors return *)

Definition made_time (t : UnixTimestampMillis) : Prop := exists v, UnixTimestampMillis_new v = Ok t.
Definition made_provenance (p : MemoryProvenance) : Prop :=
  exists k s t a d, MemoryProvenance_new k s t a d = Ok p /\ made_time t.
Definition made_retention (r : MemoryRetention) : Prop :=
  (forall t, retention_expires_at r = Some t -> made_time t) /\ (forall s, retention_session_id r = Some s -> 0 <= SessionId_get s).
Definition made_draft (d : MemoryDraft) : Prop :=
  exists k c p f t r subject d0, MemoryDraft_new k c p f t r = Ok d0 /\ d = draft_with_subject d0 subject
    /\ made_provenance p /\ made_time t /\ made_retention r.
Definition made_patch (p : MemoryPatch) : Prop :=
  exists e c f r t v, MemoryPatch_new e c f r t v = Ok p /\ made_provenance v /\ made_time t /\ (forall x, r = Some x -> made_retention x).
Definition made_approval (a : MemoryApproval) : Prop :=
  exists c v t r, MemoryApproval_new c v t r = Ok a /\ made_time t /\ 0 <= r.

Lemma made_time_nonneg t : made_time t -> 0 <= t.(millis).
Proof. intros (v & H). unfold UnixTimestampMillis_new in H. destruct (v <? 0) eqn:E; [done|]. breflect. by injection H as <-. Qed.

Lemma made_retention_columns r k e s : made_retention r -> retention_columns r = Ok (k, e, s) -> retention_in (Some k) e s r.
Proof. intros [T S] H. apply (retention_columns_in _ _ _ _ H); [|done]. intros x X. by apply made_time_nonneg, T. Qed.

Lemma bounded_text_Ok v m a b w : bounded_text v m a b = Ok w -> w = v /\ bounded_text v m a b = Ok v.
Proof. unfold bounded_text. intros H. split_ifs_in H; try done. by injection H as <-. Qed.

Lemma made_provenance_again p : made_provenance p ->
  MemoryProvenance_new p.(provenance_kind) p.(source_id) p.(source_timestamp) p.(provenance_actor) p.(provenance_digest) = Ok p
  /\ 0 <= p.(source_timestamp).(millis).
Proof.
  intros (k & s & t & a & d & H & T%made_time_nonneg). unfold MemoryProvenance_new in H.
  apply result_bind_Ok in H as (s' & [-> S]%bounded_text_Ok & H). apply result_bind_Ok in H as (a' & [-> A]%bounded_text_Ok & H).
  apply result_bind_Ok in H as (d' & D & [= <-]). cbn. split; [|done]. unfold MemoryProvenance_new. rewrite S, A. cbn.
  destruct d as [x|]; cbn in D; [|by injection D as <-]. destruct (bounded_text x _ _ _) eqn:X; [|done]. injection D as <-.
  apply bounded_text_Ok in X as [-> X]. cbn. by rewrite X.
Qed.

Lemma parse_provenance_kind_str k : parse_provenance_kind (MemoryProvenanceKind_as_str k) = Ok k.
Proof. by destruct k. Qed.

Lemma insert_source_Ok id p t db x db' : made_provenance p -> insert_source id p t db = Ok (x, db') ->
  exists row, db' = with_source row db /\ addable db row /\ row.(s_memory_id) = id /\ is_approval row = false.
Proof.
  intros M. unfold insert_source, next_key. destruct (_ <? _); [|done]. cbn [result_bind].
  destruct (constraint _) as [[]|] eqn:C; [|done]. apply constraint_Ok in C. breflect. intros [= <- <-].
  lazymatch goal with |- exists _, set_sources (append _ ?r _) _ = _ /\ _ => exists r end. split; [done|].
  apply made_provenance_again in M as [P T]. match goal with |- addable _ ?r /\ _ => assert (is_approval r = false) as A by (by destruct p as [[]]) end.
  split_and!; [split; [done|done|]|done|done]. unfold source_reads. rewrite A. unfold row_to_provenance. cbn -[parse_provenance_kind].
  rewrite parse_provenance_kind_str, checked_timestamp_Ok by done. cbn. exists p. rewrite convert_Ok. by destruct p as [? ? [] ? ?].
Qed.
End Safety.
