(* ===== verification/MemoryStoreCalls.v ===== *)
(** * Controlled memory: every call of the store

    The calls on memories, one by one: whatever other connections do between
    their accesses, each keeps the invariant and evolves the database. A
    creation that commits reads back as its draft. *)

From S2P Require Import Prelude RustStr Errors MemoryProtocol MemoryRetrieval Database MemoryStore PeopleStore MemorySchema MemoryStoreProofs MemoryRely MemoryStoreSafety.

Section Calls.
Context `{Sha : Sha256} {ShaLaws : Sha256Laws Sha} (MIGRATIONS : list rstr).

Abbreviation safe_call := (safe_op store_inv evolves guarantee).

Lemma call_bind {A B} (m : op A) (k : A -> op B) Q db :
  safe_call m (fun a db => safe_call (k a) Q db) db -> safe_call (bind m k) Q db.
Proof. apply safe_op_bind. Qed.

Lemma call_mono {A} (p : op A) (Q Q' : A -> Database -> Prop) db :
  safe_call p Q db -> (forall a db, Q a db -> Q' a db) -> safe_call p Q' db.
Proof. intros H QQ. eapply safe_mono; [|exact H]. intros [a|e] d; [apply QQ|done]. Qed.

Lemma call_query {A} (q : Database -> sql A) (Q : A -> Database -> Prop) db :
  (forall db' a, evolves db db' -> store_inv db' -> q db' = Ok a -> Q a db') -> safe_call (query q) Q db.
Proof. apply safe_op_query, guarantee_refl. Qed.

Lemma call_transaction {A} (body : Tx A) (Q : A -> Database -> Prop) db :
  (forall env n db' a n' db'', evolves db db' -> store_inv db' -> body env n db' = Ok (a, n', db'') ->
     store_inv db'' /\ guarantee db' db'' /\ Q a db'') -> safe_call (transaction body) Q db.
Proof. apply safe_op_transaction, guarantee_refl. Qed.

(** ** Calls that only learn that time has passed *)

Definition harmless {A} (p : op A) : Prop := forall db, safe_call p (fun _ db' => evolves db db') db.

Lemma harmless_bind {A B} (m : op A) (k : A -> op B) : harmless m -> (forall a, harmless (k a)) -> harmless (bind m k).
Proof.
  intros M K db. apply call_bind. eapply call_mono; [apply M|]. intros a db' E. eapply call_mono; [apply K|].
  intros b db'' E'. exact (evolves_trans _ _ _ E E').
Qed.

Lemma harmless_lift {A} (r : mresult A) : harmless (lift r).
Proof. intros db. apply safe_op_lift. intros a _. apply evolves_refl. Qed.

Lemma harmless_query {A} (q : Database -> sql A) : harmless (query q).
Proof. intros db. apply call_query. auto. Qed.

Lemma harmless_if {A} (b : bool) (p q : op A) : harmless p -> harmless q -> harmless (if b then p else q).
Proof. by destruct b. Qed.

Lemma harmless_transaction {A} (body : Tx A) :
  (forall env n db a n' db', store_inv db -> body env n db = Ok (a, n', db') -> store_inv db' /\ guarantee db db') ->
  harmless (transaction body).
Proof.
  intros H db. apply call_transaction. intros env n db' a n' db'' E I B. destruct (H _ _ _ _ _ _ I B) as [I' G].
  split; [done|]. split; [done|]. eapply evolves_trans; [exact E|]. by apply guarantee_evolves.
Qed.

#[local] Hint Resolve harmless_bind harmless_lift harmless_query harmless_if : harmless.

Lemma check_migrations_harmless ms : forall i, harmless (check_migrations (M := op) i ms).
Proof. induction ms; intros i; cbn [check_migrations]; auto with harmless. Qed.
#[local] Hint Resolve check_migrations_harmless : harmless.

Lemma validate_database_harmless : harmless (validate_database MIGRATIONS (M := op)).
Proof. unfold validate_database, validate_migrations, read_user_version, foreign_key_failures. auto 20 with harmless. Qed.
#[local] Hint Resolve validate_database_harmless : harmless.

Lemma connection_harmless : harmless (connection MIGRATIONS).
Proof. unfold connection. auto with harmless. Qed.
#[local] Hint Resolve connection_harmless : harmless.

(** ** Expiry *)

Lemma expiry_ok matching t db n db' : store_inv db -> update_memories matching (expire_columns t) db = Ok (n, db') ->
  store_inv db' /\ guarantee db db'.
Proof.
  intros [M P] U. pose proof (expire_columns_id t) as ID. split; [split|split].
  - eapply update_inv; eauto. intros m c _ R _ A C. by eapply expire_columns_ok.
  - by eapply update_people_ok.
  - eapply update_evolves; eauto. intros m _ _ c A. left. by eapply expire_columns_revision.
  - apply update_memories_Ok in U as (l & -> & _). by apply justified_same.
Qed.

Lemma expire_due_harmless now : harmless (expire_due now).
Proof.
  apply harmless_transaction. intros env n db a n' db' I H. unfold expire_due_in in H. tx_inv H. by eapply expiry_ok.
Qed.
#[local] Hint Resolve expire_due_harmless : harmless.

Lemma prune_expired_safe now : harmless (prune_expired MIGRATIONS now).
Proof. unfold prune_expired. auto with harmless. Qed.

Lemma expire_session_safe session at_ : harmless (expire_session MIGRATIONS session at_).
Proof.
  unfold expire_session. apply harmless_bind; [auto with harmless|]. intros _. apply harmless_transaction.
  intros env n db a n' db' I H. tx_inv H. by eapply expiry_ok.
Qed.

(** ** Reading *)

Lemma record_by_id_knows id db r : store_inv db -> record_by_id id db = Ok (Some r) ->
  knows r db /\ MemoryId_get r.(record_id) = id.
Proof.
  intros [I _]. unfold record_by_id. destruct (record_rows _ db) as [|j l] eqn:E; [done|].
  destruct (row_to_record j) as [r'|] eqn:R; [|done]. intros [= <-].
  destruct (record_rows_elem (fun m : memory_row => m_id m =? id) db j) as (M & X & _); [rewrite E; left|]. breflect.
  split; [by eapply knows_read|]. apply row_to_record_describes in R as [D _]. rewrite (de_id _ _ D). done.
Qed.

Lemma inspect_knows id now db :
  safe_call (inspect MIGRATIONS id now) (fun r db' => evolves db db' /\ knows r db' /\ MemoryId_get r.(record_id) = MemoryId_get id) db.
Proof.
  unfold inspect. apply call_bind. eapply call_mono; [apply connection_harmless|]. intros ? d1 E1. apply call_bind.
  eapply call_mono; [apply expire_due_harmless|]. intros ? d2 E2. apply call_bind, safe_op_lift. intros i I.
  apply call_bind, call_query. intros d3 o E3 V O. apply safe_op_lift. intros r R. destruct o as [x|]; [|done]. injection R as <-.
  unfold sqlite_integer in I. destruct (_ <=? _); [|done]. injection I as <-. split; [|by eapply record_by_id_knows].
  exact (evolves_trans _ _ _ E1 (evolves_trans _ _ _ E2 E3)).
Qed.

Lemma inspect_safe id now : harmless (inspect MIGRATIONS id now).
Proof. intros db. eapply call_mono; [apply inspect_knows|]. by intros r d [E _]. Qed.
#[local] Hint Resolve inspect_safe : harmless.

Lemma list_records_safe now : harmless (list_records MIGRATIONS now).
Proof. unfold list_records. auto with harmless. Qed.

Lemma list_page_safe now before limit : harmless (list_page MIGRATIONS now before limit).
Proof. unfold list_page. auto 10 with harmless. Qed.

(** A transaction of queries only. *)
Lemma inspect_with_sources_safe id now : harmless (inspect_with_sources MIGRATIONS id now).
Proof.
  unfold inspect_with_sources. apply harmless_bind; [auto with harmless|]. intros _. apply harmless_bind; [auto with harmless|].
  intros _. apply harmless_transaction. intros env n db a n' db' I H. tx_inv H. split; [done|apply guarantee_refl].
Qed.

Lemma inspect_bounded_safe id now limit : harmless (inspect_bounded MIGRATIONS id now limit).
Proof.
  unfold inspect_bounded. apply harmless_bind; [auto with harmless|]. intros _. apply harmless_bind; [auto with harmless|].
  intros _. apply harmless_bind; [auto with harmless|]. intros _. apply harmless_transaction. intros env n db a n' db' I H.
  unfold bounded_history in H. tx_inv H. split; [done|apply guarantee_refl].
Qed.

(** ** Creating *)

Lemma made_draft_fields d : made_draft d ->
  validate_content d.(draft_content) = Ok d.(draft_content)
  /\ validate_retention d.(draft_kind) d.(draft_created_at) d.(draft_retention) = Ok tt
  /\ made_provenance d.(draft_provenance) /\ made_retention d.(draft_retention).
Proof. intros (k & c & p & f & t & r & s & d0 & (C & R & ->)%MemoryDraft_new_Ok & -> & P & T & X). done. Qed.

Lemma fresh_approvals db id : tables_ok db -> db.(memories).(sequence) < id -> approvals_of id db = [].
Proof.
  intros T L. destruct (approvals_of id db) as [|a l] eqn:E; [done|]. exfalso.
  assert (a ∈ approvals_of id db) as (I & M & _)%approvals_of_elem by (rewrite E; left).
  pose proof (tb_source_memories _ T) as F. rewrite Forall_forall in F. pose proof (F _ I) as H. cbv beta in H.
  apply has_memory_true in H as (m & J & X). pose proof (tb_ids _ T) as B. rewrite Forall_forall in B. specialize (B _ J). cbv beta in B. lia.
Qed.

Lemma has_memory_more id db more k : has_memory id db = true ->
  existsb (fun r : memory_row => m_id r =? id) (rows (Table (db.(memories).(rows) ++ more) k)) = true.
Proof.
  intros H. apply has_memory_true in H as (m & M & X). apply existsb_exists. exists m. cbn.
  rewrite <- list_elem_of_In, elem_of_app. split; [by left|]. by apply Z.eqb_eq.
Qed.

Lemma insert_memory_ok d k e s subject db key db1 : store_inv db -> made_draft d ->
  retention_columns d.(draft_retention) = Ok (k, e, s) -> insert_memory d k e s subject db = Ok (key, db1) ->
  ok_but key db1 /\ people_ok db1 /\ (forall m : memory_row, m ∈ db1.(memories).(rows) -> m_id m = key -> half_ok db1 m)
  /\ evolves db db1 /\ db1.(memory_sources) = db.(memory_sources).
Proof.
  intros [[T R] P] (C & V & _ & MR)%made_draft_fields RC. apply made_retention_columns in RC; [|done]. unfold insert_memory, next_key.
  destruct (_ <? _); [|done]. cbn [result_bind]. destruct (constraint _) as [[]|] eqn:CH; [|done]. apply constraint_Ok in CH.
  apply andb_prop in CH as [CH HP]. intros [= <- <-]. pose proof (tb_ids _ T) as IDS.
  assert (forall m : memory_row, m ∈ db.(memories).(rows) -> m_id m <= db.(memories).(sequence)) as LE.
  { intros m I. rewrite Forall_forall in IDS. specialize (IDS _ I). cbv beta in IDS. lia. }
  split_and!; [split|..].
  - destruct T as [K I S SU SI SM SR IT]. split; cbn; try done.
    + rewrite map_app. apply NoDup_app. split_and!; [done| |apply NoDup_singleton]. intros x X. cbn. rewrite list_elem_of_singleton.
      apply list_elem_of_fmap in X as (m & -> & X). specialize (LE _ X). lia.
    + apply Forall_app. split; [|apply Forall_singleton; cbn; lia]. eapply Forall_impl; [exact I|]. cbn. lia.
    + lia.
    + apply Forall_app. split; [done|]. apply Forall_singleton. cbn. apply has_person_true in HP as (p & PI & <-).
      pose proof (pp_ids _ _ P) as PB. rewrite Forall_forall in PB. specialize (PB _ PI). cbv beta in PB. lia.
    + eapply Forall_impl; [exact SM|]. intros x H. by apply (has_memory_more _ db _ 0).
    + eapply Forall_impl; [exact IT|]. intros x [H1 H2]. split; [|done]. by apply (has_memory_more _ db _ 0).
  - cbn. apply Forall_app. split; [|apply Forall_singleton; cbn; lia]. eapply Forall_impl; [exact R|].
    intros m X _. by apply (row_ok_ext db).
  - destruct P; split; try done. cbn. apply Forall_app. split; [done|]. by apply Forall_singleton.
  - cbn. intros m. rewrite elem_of_app, list_elem_of_singleton. intros [I| ->] E; [specialize (LE _ I); lia|]. cbn in E. split; cbn.
    + exists d.(draft_kind), (initial_state d), d.(draft_retention). split; [split; cbn; try done; by destruct (draft_created_at d)|].
      unfold initial_state. by intros ->.
    + pose proof (fresh_approvals db (sequence (memories db) + 1) T ltac:(lia)) as FA. unfold approvals_of in *. cbn. by rewrite FA.
  - split; cbn; [split; [lia|done]|]. intros m. rewrite elem_of_app, list_elem_of_singleton. intros [I| ->] L; [|cbn in L; lia].
    exists m. split; [done|apply succeeds_refl].
  - done.
Qed.

Lemma create_safe d : made_draft d -> harmless (create MIGRATIONS d).
Proof.
  intros M. unfold create. apply harmless_bind; [auto with harmless|]. intros _. apply harmless_bind; [|auto with harmless].
  apply harmless_transaction. intros env n db a n' db' I H. unfold create_in in H. tx_inv H.
  match goal with X : insert_memory _ _ _ _ _ _ = Ok _ |- _ =>
    eapply insert_memory_ok in X as (OB & P & HF & EV & SS); eauto end.
  match goal with X : insert_source _ _ _ _ = Ok _ |- _ =>
    apply insert_source_Ok in X as (row & -> & AD & RM & NA); [|by apply made_draft_fields] end.
  rewrite <- RM in OB, HF. split; [split; [by apply with_provenance_inv|by apply with_source_people]|]. split.
  - eapply evolves_trans; [exact EV|]. by apply evolves_same.
  - intros x X A. destruct (with_provenance_justified _ row NA x X A) as [J|(m & J & ?)]; left; [by rewrite <- SS|].
    cbn in X. apply elem_of_app in X as [X|X]; [by rewrite <- SS|]. apply list_elem_of_singleton in X as ->. congruence.
Qed.

(** ** Editing *)

Lemma made_patch_fields p : made_patch p ->
  made_provenance p.(patch_provenance) /\ made_time p.(edited_at) /\ (forall r, p.(patch_retention) = Some r -> made_retention r).
Proof.
  intros (e & c & f & r & t & v & H & P & T & R). unfold MemoryPatch_new in H. apply result_bind_Ok in H as (_ & _ & H).
  destruct (_ && _); [done|]. apply result_bind_Ok in H as (c' & _ & H). destruct (negb _); [done|]. by injection H as <-.
Qed.

Lemma sqlite_integer_Ok v w : sqlite_integer v = Ok w -> w = v.
Proof. unfold sqlite_integer. destruct (_ <=? _); congruence. Qed.

Lemma edit_columns_id c f t k e s st m m' : edit_columns c f t k e s st m = Some m' -> m_id m' = m_id m /\ m_revision m < m_revision m'.
Proof.
  unfold edit_columns. destruct (next_revision _) eqn:N; [|done]. apply next_revision_Some in N. intros [= <-]. cbn. lia.
Qed.

(** What an edit checked before it writes. *)
Record edit_checked (patch : MemoryPatch) (current : MemoryRecord) (content : rstr) (retention : MemoryRetention) : Prop := {
  ec_revision : current.(revision) = patch.(patch_expected_revision);
  ec_time : current.(MemoryProtocol.updated_at).(millis) <= patch.(edited_at).(millis);
  ec_pinned : current.(pinned) = true -> patch.(patch_retention) = None;
  ec_content : validate_content content = Ok content;
  ec_retention : validate_retention (record_kind current) (record_created_at current) retention = Ok tt;
  ec_default : retention = default (record_retention current) patch.(patch_retention);
}.

Lemma edit_retention_in patch current content retention (m : memory_row) k0 st0 ret0 k e s : made_patch patch ->
  edit_checked patch current content retention -> describes m current -> typed m k0 st0 ret0 ->
  retention_columns retention = Ok (k, e, s) -> retention_in (Some k) e s retention.
Proof.
  intros (_ & _ & MR)%made_patch_fields C D T RC. pose proof (ec_default _ _ _ _ C) as ->.
  destruct (patch_retention patch) as [r|] eqn:PR; cbn in *; [apply made_retention_columns; auto|].
  apply (retention_columns_in _ _ _ _ RC); intros x X; [apply (de_expires _ _ D) in X|apply (de_session _ _ D) in X];
    pose proof (ty_retention _ _ _ _ T) as [_ _ _ RE RS]; auto.
Qed.

Lemma edit_columns_ok db patch current content confidence retention (m : memory_row) k e s c : made_patch patch ->
  edit_checked patch current content retention -> row_ok db m -> describes m current -> retention_columns retention = Ok (k, e, s) ->
  let state := if requires_approval (record_kind current) && bool_decide (current.(record_state) = State_Active)
                  && negb (bool_decide (content = record_content current)) then State_Candidate else current.(record_state) in
  edit_columns content confidence patch.(edited_at).(millis) k e s (MemoryState_as_str state) m = Some c -> memory_check c = true ->
  row_ok db (MemoryRow c (m_subject_person_id m)).
Proof.
  intros MP EC R D RC state H C. destruct (ro_typed _ _ R) as (k0 & st0 & ret0 & TY & _).
  pose proof (edit_retention_in _ _ _ _ _ _ _ _ _ _ _ MP EC D TY RC) as RI. pose proof (edit_columns_id _ _ _ _ _ _ _ _ _ H) as [_ RV].
  destruct TY as [X1 X2 X3 X4 X5 X6 X7].
  assert (k0 = record_kind current) as -> by (apply MemoryKind_as_str_inj; rewrite <- X2; apply (de_kind _ _ D)).
  assert (UnixTimestampMillis_raw (m_created_at_ms m) = record_created_at current) as CR
    by (rewrite <- (de_created _ _ D); by destruct (record_created_at current)).
  pose proof (de_updated _ _ D) as DU. pose proof (ec_time _ _ _ _ EC) as ET.
  unfold edit_columns in H. destruct (next_revision _); [|done]. injection H as <-.
  apply (row_ok_step db m _ _ (record_kind current) state retention R); cbn in *; try done; try lia.
  - split; cbn; try done; [apply EC|]. rewrite CR. apply EC.
  - intros Q A. unfold state in A. rewrite Q in A. cbn [andb] in A.
    assert (current.(record_state) = State_Active /\ content = record_content current) as [CS CC].
    { destruct (bool_decide (record_state current = State_Active)) eqn:B; breflect; cbn [andb] in A; [|congruence].
      destruct (bool_decide (content = _)) eqn:B2; breflect; cbn in A; [done|congruence]. }
    split_and!; [|done|rewrite CC; symmetry; apply (de_content _ _ D)].
    rewrite (de_state _ _ D), CS. subst state. rewrite CS, Q, CC. by rewrite !bool_decide_eq_true_2 by done.
Qed.

Lemma edit_in_ok id patch current content confidence retention env n db a n' db' : store_inv db -> made_patch patch ->
  knows current db -> MemoryId_get current.(record_id) = MemoryId_get id -> edit_checked patch current content retention ->
  edit_in id patch current content confidence retention env n db = Ok (a, n', db') -> store_inv db' /\ guarantee db db'.
Proof.
  intros [I P] MP K ID EC H. unfold edit_in in H. tx_inv H.
  repeat match goal with X : sqlite_integer _ = Ok _ |- _ => apply sqlite_integer_Ok in X as -> end.
  match goal with X : update_memories _ _ _ = Ok _ |- _ => rename X into U end.
  match goal with X : insert_source _ _ _ _ = Ok _ |- _ => apply insert_source_Ok in X as (row & -> & AD & E & NA); [|by apply made_patch_fields] end.
  pose proof (fun st m c X => proj1 (edit_columns_id content (confidence_get confidence) (millis (edited_at patch)) l o0 o st m c X)) as KI.
  assert (memory_inv db0) as I0.
  { eapply update_inv; eauto. intros m c M R X A C. cbv beta in X. breflect. eapply edit_columns_ok; eauto.
    apply (knows_row _ db); auto; [congruence|]. rewrite (ec_revision _ _ _ _ EC). congruence. }
  pose proof (update_people_ok _ _ _ _ _ U (KI _) P) as P0.
  assert (evolves db db0) as EV by (eapply update_evolves; eauto; intros m _ _ c A; left; by apply edit_columns_id in A as [_ ?]).
  split; [split; [|by apply with_source_people]|split].
  - apply with_provenance_inv; auto; [split; [apply I0|]|]; destruct I0 as [_ R0].
    + eapply Forall_impl; [exact R0|]. auto.
    + intros m M _. rewrite Forall_forall in R0. by apply row_ok_half, R0.
  - eapply evolves_trans; [exact EV|]. by apply evolves_same.
  - intros x X A. left. cbn in X. apply elem_of_app in X as [X|X].
    + apply update_memories_Ok in U as (ll & -> & _). done.
    + apply list_elem_of_singleton in X as ->. congruence.
Qed.

Lemma edit_safe id patch : made_patch patch -> harmless (edit MIGRATIONS id patch).
Proof.
  intros MP db. unfold edit. apply call_bind. eapply call_mono; [apply inspect_knows|]. intros current d1 (E1 & K & ID).
  destruct (negb (_ =? _)) eqn:G1; [done|]. destruct (_ <? _) eqn:G2; [done|]. destruct (_ && _) eqn:G3; [done|].
  destruct (MemoryDraft_new _ _ _ _ _ _) as [d|] eqn:MD; [|done]. apply MemoryDraft_new_Ok in MD as (C & R & _). breflect.
  apply call_bind. eapply call_mono; [apply connection_harmless|]. intros ? d2 E2. apply call_bind, call_transaction.
  intros env n d3 b n' d4 E3 I H.
  edestruct edit_in_ok as [I' G]; [exact I|exact MP| |exact ID| |exact H|].
  - eapply knows_later; [exact K|]. exact (evolves_trans _ _ _ E2 E3).
  - split; try done; try lia. intros PI. rewrite PI in G3. cbn in G3. by destruct (patch_retention patch).
  - split; [done|]. split; [done|]. eapply call_mono; [apply inspect_safe|]. intros r d5 E5.
    exact (evolves_trans _ _ _ E1 (evolves_trans _ _ _ E2 (evolves_trans _ _ _ E3 (evolves_trans _ _ _ (guarantee_evolves _ _ G) E5)))).
Qed.

(** ** Approving *)

Lemma content_digest_valid content : is_sha256_digest (content_digest content) = true /\ blen (content_digest content) = 71
  /\ is_blank (content_digest content) = false.
Proof using ShaLaws.
  unfold content_digest. set (h := sha256_hex _). pose proof (sha256_length (utf8_encode content)) as L. fold h in L.
  pose proof (sha256_hexdigits (utf8_encode content)) as X. fold h in X.
  assert (blen h = 64) as BL.
  { rewrite <- (f_equal Z.of_nat L : Z.of_nat (length h) = 64). clear L. induction h as [|c h IH]; [done|]. cbn in X. breflect.
    change (blen (c :: h)) with (blen ([c] ++ h)). rewrite blen_app, (IH H0). cbn [length].
    assert (blen [c] = 1); [|lia]. unfold is_ascii_hexdigit, is_ascii_digit in H. cbn. unfold len_utf8. destruct (c <? 0x80) eqn:E; [done|]. lia. }
  assert (blen (lit "sha256:" ++ h) = 71) as B by (rewrite blen_app, BL; by vm_compute).
  split_and!; [|exact B|rewrite is_blank_app; by replace (is_blank (lit "sha256:")) with false by (by vm_compute)].
  unfold is_sha256_digest. rewrite B. cbn [Z.eqb andb]. replace (strip_prefix _ _) with (Some h) by (by cbn). exact X.
Qed.

Lemma made_approval_again a : made_approval a ->
  MemoryApproval_new a.(confirmation_id) a.(approval_actor) a.(confirmed_at) a.(expected_revision) = Ok a
  /\ 0 <= a.(confirmed_at).(millis) /\ 0 <= a.(expected_revision).
Proof.
  intros (c & v & t & r & H & T%made_time_nonneg & R). unfold MemoryApproval_new in H.
  apply result_bind_Ok in H as (c' & [-> C]%bounded_text_Ok & H). apply result_bind_Ok in H as (v' & [-> V]%bounded_text_Ok & H).
  apply result_bind_Ok in H as ([] & X & [= <-]). cbn. split; [|done]. unfold MemoryApproval_new. by rewrite C, V, X.
Qed.

Lemma insert_approval_Ok id a content t db x db' : made_approval a ->
  insert_approval id (evidence_for a content) a.(expected_revision) t db = Ok (x, db') ->
  exists row, db' = with_source row db /\ addable db row /\ row.(s_memory_id) = id /\ is_approval row = true
    /\ row.(s_source_timestamp_ms) = a.(confirmed_at).(millis) /\ row.(s_approved_revision) = Some a.(expected_revision)
    /\ row.(s_content_digest) = Some (content_digest content).
Proof using ShaLaws.
  intros (MA & T & R)%made_approval_again. unfold insert_approval, next_key. destruct (_ <? _); [|done]. cbn [result_bind].
  destruct (constraint _) as [[]|] eqn:C; [|done]. apply constraint_Ok in C. apply andb_prop in C as [_ HM]. intros [= <- <-].
  lazymatch goal with |- exists _, set_sources (append _ ?r _) _ = _ /\ _ => exists r end. split; [done|].
  split_and!; [split; [done|done|]|done..]. change (exists e, row_to_approval {| s_id := sequence (memory_sources db) + 1; s_memory_id := id;
    s_kind := user_approved; s_source_id := confirmation_id a; s_source_timestamp_ms := millis (confirmed_at a);
    s_actor := approval_actor a; s_content_digest := Some (content_digest content); s_confirmation_id := Some (confirmation_id a);
    s_approved_revision := Some (expected_revision a); s_created_at_ms := millis t |} = Ok e).
  unfold row_to_approval. cbn [s_confirmation_id s_source_timestamp_ms s_approved_revision s_content_digest s_actor not_null ok_or result_bind].
  rewrite checked_timestamp_Ok, checked_unsigned_Ok by done. cbn [convert result_bind]. unfold from_stored.
  replace (UnixTimestampMillis_raw (millis (confirmed_at a))) with (confirmed_at a) by (by destruct (confirmed_at a)). rewrite MA. cbn [result_bind].
  destruct (content_digest_valid content) as (D & B & N). unfold bounded_text. rewrite N, B. change (MAX_DIGEST_BYTES <? 71) with false. cbn [result_bind]. rewrite D. by eexists.
Qed.

Lemma approve_columns_id t m c : approve_columns t m = Some c ->
  m_id c = m_id m /\ m_revision c = m_revision m + 1 /\ m_updated_at_ms c = t /\ m_content c = m_content m.
Proof.
  unfold approve_columns. destruct (next_revision _) eqn:N; [|done]. apply next_revision_Some in N as ->. by intros [= <-].
Qed.

Lemma approve_in_ok id a current env n db x n' db' : store_inv db -> made_approval a -> knows current db ->
  MemoryId_get current.(record_id) = MemoryId_get id -> current.(revision) = a.(expected_revision) ->
  current.(MemoryProtocol.updated_at).(millis) <= a.(confirmed_at).(millis) ->
  approve_in id a current env n db = Ok (x, n', db') -> store_inv db' /\ guarantee db db'.
Proof using ShaLaws.
  intros [I P] MA K ID RV UP H. unfold approve_in in H. tx_inv H. cbn [evidence_for approved_revision] in *.
  repeat match goal with X : sqlite_integer _ = Ok _ |- _ => apply sqlite_integer_Ok in X as -> end.
  match goal with X : update_memories _ _ _ = Ok _ |- _ => rename X into U end.
  match goal with X : insert_approval _ _ _ _ _ = Ok _ |- _ => apply insert_approval_Ok in X as (row & -> & AD & RM & IA & RT & RR & RD); [|done] end.
  pose proof (fun m c X => proj1 (approve_columns_id (millis (confirmed_at a)) m c X)) as KI.
  pose proof (update_people_ok _ _ _ _ _ U KI P) as P0.
  assert (evolves db db0) as EV by (eapply update_evolves; eauto; intros m _ _ c A; left; apply approve_columns_id in A as (_ & -> & _); lia).
  assert (ok_but (MemoryId_get id) db0) as OB by (eapply update_ok_but; eauto; intros m X; cbv beta in X; by breflect).
  rewrite <- RM in OB. pose proof (update_elem _ _ _ _ _ U) as EL. assert (memory_sources db0 = memory_sources db) as SS
    by (apply update_memories_Ok in U as (l & -> & _); done).
  (* the row that is approved, before and after *)
  pose proof (ad_memory _ _ AD) as HM. apply has_memory_true in HM as (m' & M' & ID'). destruct (EL _ M') as (m & M & MU).
  assert (m_id m = MemoryId_get id) as IDM by (apply memory_updated_id in MU as [<- _]; [congruence|exact KI]).
  match goal with X : negb (?c =? 1) = false |- _ => assert (n_matched : c = 1) by (by breflect) end.
  apply update_memories_Ok in U as (l & -> & F & N). rewrite n_matched in N. symmetry in N. apply zlen_filter_one in N as (m1 & M1 & X1).
  cbv beta in X1. breflect. assert (m1 = m) as -> by (eapply row_unique; [apply I|done|done|congruence]).
  destruct MU as [[X _]|(_ & A & _ & C)]; [exfalso; cbv beta in X; apply not_false_iff_true in X; [done|]; rewrite !andb_true_iff, !Z.eqb_eq, !bool_decide_eq_true; done|].
  assert (describes m current) as D by (apply (knows_row _ db); auto; congruence).
  pose proof (proj2 I) as R. rewrite Forall_forall in R. specialize (R _ M). destruct (ro_typed _ _ R) as (k & st & ret & TY & _).
  pose proof (approve_columns_id _ _ _ A) as (A1 & A2 & A3 & A4). pose proof (de_updated _ _ D) as DU.
  split; [split; [|by apply with_source_people]|split].
  - eapply (with_approval_inv _ _ k ret); [exact OB|exact AD|exact IA|]. intros m2 M2 J2.
    assert (m2 = m') as -> by (eapply row_unique; [apply OB|done|done|congruence]).
    unfold sources_of, approvals_of. rewrite SS, A1. fold (sources_of (m_id m) db) (approvals_of (m_id m) db).
    split_and!; [|apply R| | |rewrite A4, RD, (de_content _ _ D); done].
    + destruct TY as [X1 X2 X3 X4 X5 X6 X7]. unfold approve_columns in A. destruct (next_revision _); [|done]. injection A as A.
      rewrite <- A in *. by split.
    + eapply Forall_impl; [apply R|]. intros s (S1 & r & S2 & S3). split; [lia|]. exists r. split; [done|lia].
    + split; [lia|]. exists (expected_revision a). split; [done|]. lia.
  - eapply evolves_trans; [exact EV|]. by apply evolves_same.
  - intros y Y AY. cbn in Y. apply elem_of_app in Y as [Y|Y]; [by left|]. apply list_elem_of_singleton in Y as ->. right. exists m.
    rewrite RD, RR, (de_content _ _ D). split_and!; congruence.
Qed.

Lemma approve_safe id a : made_approval a -> harmless (approve MIGRATIONS id a).
Proof using ShaLaws.
  intros MA db. unfold approve. apply call_bind. eapply call_mono; [apply inspect_knows|]. intros current d1 (E1 & K & ID).
  destruct (_ || _) eqn:G; [done|]. breflect.
  apply call_bind. eapply call_mono; [apply connection_harmless|]. intros ? d2 E2. apply call_bind, call_transaction.
  intros env n d3 b n' d4 E3 I X.
  edestruct approve_in_ok as [I' GU]; [exact I|exact MA| |exact ID| | |exact X|]; try done.
  - eapply knows_later; [exact K|]. exact (evolves_trans _ _ _ E2 E3).
  - split; [done|]. split; [done|]. eapply call_mono; [apply inspect_safe|]. intros r d5 E5.
    exact (evolves_trans _ _ _ E1 (evolves_trans _ _ _ E2 (evolves_trans _ _ _ E3 (evolves_trans _ _ _ (guarantee_evolves _ _ GU) E5)))).
Qed.

(** ** Pinning *)

Lemma pin_columns_revision t m c : pin_columns t m = Some c -> m_revision m < m_revision c.
Proof. unfold pin_columns. destruct (next_revision _) eqn:N; [|done]. apply next_revision_Some in N. intros [= <-]. cbn. lia. Qed.

Lemma set_pinned_in_ok id expected pin at_ current env n db x n' db' : store_inv db -> knows current db ->
  MemoryId_get current.(record_id) = MemoryId_get id -> current.(revision) = expected ->
  current.(MemoryProtocol.updated_at).(millis) <= at_.(millis) ->
  set_pinned_in id expected pin at_ env n db = Ok (x, n', db') -> store_inv db' /\ guarantee db db'.
Proof.
  intros [I P] K ID RV UP H. unfold set_pinned_in in H. tx_inv H.
  repeat match goal with X : sqlite_integer _ = Ok _ |- _ => apply sqlite_integer_Ok in X; subst end.
  assert (KN : forall m : memory_row, m ∈ db.(memories).(rows) -> m_id m = MemoryId_get id -> m_revision m = revision current ->
    m_updated_at_ms m <= at_.(millis)).
  { intros m M J1 J2. assert (describes m current) as D by (apply (knows_row _ db); auto; congruence). rewrite <- (de_updated _ _ D). done. }
  match goal with X : (if pin then _ else _) _ = Ok _ |- _ => rename X into U end. destruct pin; cbv beta iota in U.
  - pose proof (pin_columns_id at_.(millis)) as KI. split; [split|split].
    + eapply update_inv; eauto. intros m c M R X A C. cbv beta in X. breflect. eapply pin_columns_ok; eauto.
    + by eapply update_people_ok.
    + eapply update_evolves; eauto. intros m _ _ c A. left. by eapply pin_columns_revision.
    + apply update_memories_Ok in U as (l & -> & _). by apply justified_same.
  - pose proof (fun m c X => proj1 (unpin_columns_id at_.(millis) m c X)) as KI. split; [split|split].
    + eapply update_inv; eauto. intros m c M R X A C. cbv beta in X. breflect. eapply unpin_columns_ok; eauto.
    + by eapply update_people_ok.
    + eapply update_evolves; eauto. intros m _ _ c A. left. by apply unpin_columns_id in A as [_ ?].
    + apply update_memories_Ok in U as (l & -> & _). by apply justified_same.
Qed.

Lemma set_pinned_safe id expected pin at_ : harmless (set_pinned MIGRATIONS id expected pin at_).
Proof.
  intros db. unfold set_pinned. apply call_bind. eapply call_mono; [apply inspect_knows|]. intros current d1 (E1 & K & ID).
  destruct (_ || _) eqn:G; [done|]. breflect.
  apply call_bind. eapply call_mono; [apply connection_harmless|]. intros ? d2 E2. apply call_bind, call_transaction.
  intros env n d3 b n' d4 E3 I X.
  edestruct set_pinned_in_ok as [I' GU]; [exact I| |exact ID| | |exact X|]; try done.
  - eapply knows_later; [exact K|]. exact (evolves_trans _ _ _ E2 E3).
  - split; [done|]. split; [done|]. eapply call_mono; [apply inspect_safe|]. intros r d5 E5.
    exact (evolves_trans _ _ _ E1 (evolves_trans _ _ _ E2 (evolves_trans _ _ _ E3 (evolves_trans _ _ _ (guarantee_evolves _ _ GU) E5)))).
Qed.

(** ** Deleting *)

Lemma filter_filter {A} (P Q : A -> bool) l : (forall x, P x = true -> Q x = true) -> List.filter P (List.filter Q l) = List.filter P l.
Proof.
  intros H. induction l as [|x l IH]; cbn; [done|]. destruct (Q x) eqn:E; cbn; destruct (P x) eqn:F; rewrite ?IH; try done.
  apply H in F. congruence.
Qed.

Lemma filter_elem {A} (P : A -> bool) l x : x ∈ List.filter P l <-> x ∈ l /\ P x = true.
Proof. by rewrite !list_elem_of_In, filter_In. Qed.

Lemma filter_Forall {A} (P : A -> bool) (Q : A -> Prop) l : Forall Q l -> Forall Q (List.filter P l).
Proof. rewrite !Forall_forall. intros H x [I _]%filter_elem. auto. Qed.

Lemma filter_NoDup {A B} (P : A -> bool) (f : A -> B) l : NoDup (map f l) -> NoDup (map f (List.filter P l)).
Proof.
  induction l as [|x l IH]; cbn; [done|]. rewrite NoDup_cons. intros [N D]. destruct (P x); [|auto]. cbn. rewrite NoDup_cons. split; [|auto].
  intros X. apply N. apply list_elem_of_fmap in X as (y & E & [Y _]%filter_elem). apply list_elem_of_fmap. by exists y.
Qed.

Section Delete.
Context (matching : memory_row -> bool) (db : Database) (n : Z) (db' : Database).
Context (run_delete : delete_memories matching db = Ok (n, db')) (tables : tables_ok db).

Definition kept_id (id : Z) : bool := negb (existsb (fun r : memory_row => m_id r =? id) (List.filter matching db.(memories).(rows))).

Lemma deleted : db' = set_memory_tables (Table (List.filter (fun r => negb (matching r)) db.(memories).(rows)) db.(memories).(sequence))
  (Table (List.filter (fun s => kept_id s.(s_memory_id)) db.(memory_sources).(rows)) db.(memory_sources).(sequence))
  db.(retrieval_traces) (List.filter (fun i => kept_id i.(i_memory_id)) db.(retrieval_items)) db.
Proof using run_delete. by injection run_delete as _ <-. Qed.

Lemma kept_id_row (m : memory_row) : m ∈ db.(memories).(rows) -> matching m = false -> kept_id (m_id m) = true.
Proof using tables.
  intros I M. unfold kept_id. apply negb_true_iff, not_true_iff_false. rewrite existsb_exists. intros (x & X & E). breflect.
  rewrite <- list_elem_of_In in X. apply filter_elem in X as [X Y]. rewrite (row_unique db x m) in Y by done. congruence.
Qed.

Lemma kept_row (m : memory_row) : m ∈ db'.(memories).(rows) -> m ∈ db.(memories).(rows) /\ matching m = false.
Proof using run_delete. rewrite deleted. cbn. rewrite filter_elem, negb_true_iff. done. Qed.

Lemma delete_row_ok (m : memory_row) : m ∈ db'.(memories).(rows) -> row_ok db m -> row_ok db' m.
Proof using run_delete tables.
  intros (I & M)%kept_row. pose proof (kept_id_row m I M) as K.
  assert (sources_of (m_id m) db' = sources_of (m_id m) db) as S.
  { rewrite deleted. unfold sources_of. cbn. apply filter_filter. intros s X. breflect. congruence. }
  assert (approvals_of (m_id m) db' = approvals_of (m_id m) db) as A.
  { rewrite deleted. unfold approvals_of. cbn. apply filter_filter. intros s X. breflect. congruence. }
  intros []. split; by rewrite ?S, ?A.
Qed.

Lemma delete_tables : tables_ok db'.
Proof using run_delete tables.
  pose proof tables as [K I S SU SI SM SR IT].
  assert (HM : forall id, has_memory id db = true -> kept_id id = true -> existsb (fun r : memory_row => m_id r =? id)
    (List.filter (fun r => negb (matching r)) db.(memories).(rows)) = true).
  { intros id (m & M & E)%has_memory_true Y. apply existsb_exists. exists m. rewrite <- list_elem_of_In, filter_elem. split; [|by apply Z.eqb_eq].
    split; [done|]. apply negb_true_iff, not_true_iff_false. intros MM. unfold kept_id in Y. apply negb_true_iff, not_true_iff_false in Y. apply Y.
    apply existsb_exists. exists m. rewrite <- list_elem_of_In, filter_elem. split; [done|by apply Z.eqb_eq]. }
  rewrite deleted. split; cbn; try done.
  - by apply filter_NoDup.
  - by apply filter_Forall.
  - by apply filter_Forall.
  - by apply filter_Forall.
  - apply Forall_forall. intros s [X Y]%filter_elem. rewrite Forall_forall in SM. by apply HM; [apply SM|].
  - by apply filter_Forall.
  - apply Forall_forall. intros i [X Y]%filter_elem. rewrite Forall_forall in IT. destruct (IT _ X) as [H1 H2]. split; [by apply HM|done].
Qed.

Lemma delete_people : people_ok db -> people_ok db'.
Proof using run_delete. rewrite deleted. intros []. split; try done. cbn. by apply filter_Forall. Qed.

Lemma delete_guarantee : guarantee db db'.
Proof using run_delete.
  split.
  - split; [by rewrite deleted|]. intros m [I _]%kept_row _. exists m. split; [done|apply succeeds_refl].
  - intros a I _. left. rewrite deleted in I. cbn in I. by apply filter_elem in I as [I _].
Qed.
End Delete.

Lemma delete_memories_ok matching db n db' : store_inv db -> delete_memories matching db = Ok (n, db') -> store_inv db' /\ guarantee db db'.
Proof.
  intros [[T R] P] D. split; [split; [split|]|].
  - by eapply delete_tables.
  - apply Forall_forall. intros m M. eapply delete_row_ok; eauto. rewrite Forall_forall in R. apply R. by eapply kept_row.
  - by eapply delete_people.
  - by eapply delete_guarantee.
Qed.

Lemma delete_safe id expected : harmless (delete MIGRATIONS id expected).
Proof.
  unfold delete. apply harmless_if; [auto with harmless|]. apply harmless_bind; [auto with harmless|]. intros _.
  apply harmless_transaction. intros env n db a n' db' I H. unfold delete_in in H. tx_inv H. by eapply delete_memories_ok.
Qed.
End Calls.

(** ** What is created reads back

    With an engine that does not fail, a draft that its constructor made is
    stored, and the record read back is the draft, at its first revision. *)

(** The engine does not fail. *)
Definition quiet (env : Env) : Prop := forall n, env.(env_failure) n = None.

Lemma tx_bind_then {A B} (m : Tx A) (k : A -> Tx B) env n db a n' db' : m env n db = Ok (a, n', db') -> bind m k env n db = k a env n' db'.
Proof. cbn. by intros ->. Qed.

Lemma query_quiet {A} (q : Database -> sql A) env n db a : quiet env -> q db = Ok a -> query (M := Tx) q env n db = Ok (a, Datatypes.S n, db).
Proof. intros Q E. cbn. rewrite Q. cbn. by rewrite E. Qed.

Lemma execute_quiet {A} (s : stmt A) env n db a db' : quiet env -> s db = Ok (a, db') -> execute (M := Tx) s env n db = Ok (a, Datatypes.S n, db').
Proof. intros Q E. cbn. rewrite Q, E. done. Qed.

(** ** Rows that satisfy the constraints *)

Lemma bounded_text_bytes v m a b w : bounded_text v m a b = Ok w -> bytes_within m v = true.
Proof.
  unfold bounded_text, bytes_within. destruct (is_blank v) eqn:B; [done|]. destruct (_ <? _) eqn:L; [done|]. intros _. breflect.
  destruct v as [|c v]; [done|]. pose proof (blen_zlen (c :: v)) as Z. rewrite zlen_cons in Z. pose proof (zlen_nonneg v). apply andb_true_intro. lia.
Qed.

Section Creation.
Context `{Sha : Sha256} {ShaLaws : Sha256Laws Sha}.

(** A draft as every caller has it. *)
Record storable (d : MemoryDraft) : Prop := {
  sb_draft : made_draft d;
  sb_confidence : 0 <= confidence_get d.(draft_confidence) <= 1000;
  sb_created : 0 <= d.(draft_created_at).(millis);
  sb_session : forall s, retention_session_id d.(draft_retention) = Some s -> SessionId_get s <= i64_max;
  sb_subject : PersonId_get d.(draft_subject) <= i64_max;
}.

(** The row [insert_memory] adds. *)
Definition first_row_of (d : MemoryDraft) (key : Z) (k : rstr) (e s : option Z) : memory_columns :=
  {| m_id := key; m_kind := MemoryKind_as_str d.(draft_kind); m_state := MemoryState_as_str (initial_state d);
     m_content := d.(draft_content); m_confidence := confidence_get d.(draft_confidence);
     m_created_at_ms := d.(draft_created_at).(millis); m_updated_at_ms := d.(draft_created_at).(millis);
     m_retention_kind := k; m_expires_at_ms := e; m_session_id := s; m_pinned := 0;
     m_prior_retention_kind := None; m_prior_expires_at_ms := None; m_prior_session_id := None;
     m_revision := 1; m_last_used_at_ms := None; m_last_retrieval_reason := None |}.

Lemma check_nonneg o : (forall x, o = Some x -> 0 <= x) -> check (sql_ge o 0) = true.
Proof. intros H. destruct o as [x|]; [|done]. unfold check, sql_ge. cbn. specialize (H x eq_refl). by rewrite (proj2 (Z.leb_le _ _)). Qed.

Lemma first_row_checked d key k e s : storable d -> retention_columns d.(draft_retention) = Ok (k, e, s) ->
  memory_check (first_row_of d key k e s) = true.
Proof.
  intros [M C CR _ _] RC. destruct (made_draft_fields _ M) as (V & R & _ & MR). apply made_retention_columns in RC; [|done].
  pose proof (ri_expires_nonneg _ _ _ _ RC) as EN. pose proof (ri_session_nonneg _ _ _ _ RC) as SN. destruct RC as [[= ->] -> -> _ _].
  pose proof (bounded_text_bytes _ _ _ _ _ V) as B. unfold memory_check, first_row_of.
  cbn [m_kind m_state m_content m_confidence m_created_at_ms m_updated_at_ms m_retention_kind m_expires_at_ms m_session_id m_pinned
    m_prior_retention_kind m_prior_expires_at_ms m_prior_session_id m_revision m_last_used_at_ms m_last_retrieval_reason].
  rewrite !(check_nonneg _ EN), !(check_nonneg _ SN). change (bytes_within 4096 (draft_content d) = true) in B. rewrite B.
  rewrite !(proj2 (Z.leb_le _ _)) by lia. rewrite !andb_true_l, !andb_true_r.
  destruct (draft_retention d), (draft_kind d); cbn in R; try done; unfold initial_state; destruct (requires_approval _); vm_compute; reflexivity.
Qed.

(** The source [insert_source] adds. *)
Definition provenance_row (key id : Z) (p : MemoryProvenance) (created_at : UnixTimestampMillis) : source_row :=
  {| s_id := key; s_memory_id := id; s_kind := MemoryProvenanceKind_as_str p.(provenance_kind);
     s_source_id := p.(source_id); s_source_timestamp_ms := p.(source_timestamp).(millis);
     s_actor := p.(provenance_actor); s_content_digest := p.(provenance_digest); s_confirmation_id := None;
     s_approved_revision := None; s_created_at_ms := created_at.(millis) |}.

Lemma provenance_row_checked key id p t : made_provenance p -> 0 <= t.(millis) -> source_check (provenance_row key id p t) = true.
Proof.
  intros [P T]%made_provenance_again C. unfold MemoryProvenance_new in P. apply result_bind_Ok in P as (a & A & P).
  apply result_bind_Ok in P as (b & B & P). apply result_bind_Ok in P as (x & X & _). apply bounded_text_bytes in A, B.
  assert (check (bytes_within 256 <$> provenance_digest p) = true) as D.
  { destruct (provenance_digest p) as [y|]; [|done]. cbn in X. destruct (bounded_text y _ _ _) eqn:Y; [|done].
    apply bounded_text_bytes in Y. unfold check. cbn. change (bytes_within 256 y = true) in Y. by rewrite Y. }
  change (bytes_within 512 (source_id p) = true) in A. change (bytes_within 256 (provenance_actor p) = true) in B.
  unfold source_check, provenance_row. cbn [s_kind s_source_id s_source_timestamp_ms s_actor s_content_digest s_confirmation_id s_approved_revision s_created_at_ms].
  rewrite A, B, D, !(proj2 (Z.leb_le _ _)) by lia. by destruct (provenance_kind p).
Qed.

Lemma provenance_row_reads key id p t : made_provenance p -> is_approval (provenance_row key id p t) = false
  /\ row_to_provenance (provenance_row key id p t) = Ok p.
Proof.
  intros [P T]%made_provenance_again. split; [by destruct p as [[]]|]. unfold row_to_provenance. cbn -[parse_provenance_kind].
  rewrite parse_provenance_kind_str, checked_timestamp_Ok by done. cbn. rewrite convert_Ok. by destruct p as [? ? [] ? ?].
Qed.

(** The database a creation leaves. *)
Definition with_created (d : MemoryDraft) (k : rstr) (e s : option Z) (db : Database) : Database :=
  let key := db.(memories).(sequence) + 1 in
  let source := db.(memory_sources).(sequence) + 1 in
  set_sources (append source (provenance_row source key d.(draft_provenance) d.(draft_created_at)) db.(memory_sources))
    (set_memories (append key (MemoryRow (first_row_of d key k e s) (PersonId_get d.(draft_subject))) db.(memories)) db).

Lemma create_in_commits env n db d k e s : quiet env -> storable d -> has_person (PersonId_get d.(draft_subject)) db = true ->
  db.(memories).(sequence) < i64_max -> db.(memory_sources).(sequence) < i64_max ->
  retention_columns d.(draft_retention) = Ok (k, e, s) ->
  exists n', create_in d env n db = Ok (db.(memories).(sequence) + 1, n', with_created d k e s db).
Proof.
  intros Q D P L L' RC. pose proof (first_row_checked d (db.(memories).(sequence) + 1) k e s D RC) as CH. destruct D as [M C CR SS SU].
  unfold create_in. erewrite tx_bind_then by (cbn; rewrite RC; reflexivity). cbv beta iota.
  erewrite tx_bind_then by (cbn; unfold sqlite_integer; rewrite (proj2 (Z.leb_le _ _)) by done; reflexivity).
  erewrite tx_bind_then by (apply query_quiet; [done|rewrite P; reflexivity]). cbn [negb].
  erewrite tx_bind_then.
  2:{ apply execute_quiet; [done|]. unfold insert_memory, next_key. rewrite (proj2 (Z.ltb_lt _ _)) by done. cbn [result_bind].
      fold (first_row_of d (sequence (memories db) + 1) k e s). rewrite CH, P. reflexivity. }
  erewrite tx_bind_then.
  2:{ apply execute_quiet; [done|]. unfold insert_source, next_key. cbn [memory_sources set_memories set_memory_tables]. rewrite (proj2 (Z.ltb_lt _ _)) by done. cbn [result_bind].
      fold (provenance_row (sequence (memory_sources db) + 1) (sequence (memories db) + 1) (draft_provenance d) (draft_created_at d)).
      rewrite provenance_row_checked by (done || by apply made_draft_fields). rewrite andb_true_l.
      assert (has_memory (sequence (memories db) + 1) (set_memories (append (sequence (memories db) + 1)
        (MemoryRow (first_row_of d (sequence (memories db) + 1) k e s) (PersonId_get (draft_subject d))) (memories db)) db) = true) as ->.
      { apply has_memory_true. eexists. split; [cbn; apply elem_of_app; right; apply list_elem_of_singleton; reflexivity|done]. }
      reflexivity. }
  by eexists.
Qed.

(** ** Reading it back *)

Lemma fresh_sources db id : tables_ok db -> db.(memories).(sequence) < id ->
  Forall (fun s => (s.(s_memory_id) =? id) = false) db.(memory_sources).(rows).
Proof.
  intros T L. eapply Forall_impl; [apply (tb_source_memories _ T)|]. intros x (m & I & E)%has_memory_true.
  pose proof (tb_ids _ T) as B. rewrite Forall_forall in B. specialize (B _ I). cbv beta in B. apply Z.eqb_neq. lia.
Qed.

Lemma filter_unmatched {A} (f : A -> bool) l : Forall (fun x => f x = false) l -> List.filter f l = [].
Proof. induction 1 as [|x l E F IH]; cbn; [done|]. by rewrite E. Qed.

(** The first record of a draft. *)
Definition first_record (id : Z) (d : MemoryDraft) : MemoryRecord :=
  {| record_id := MemoryId_raw id; record_draft := d; record_state := initial_state d; updated_at := d.(draft_created_at);
     pinned := false; revision := 1; approval := None; last_used_at := None; last_retrieval_reason := None |}.

Lemma first_row_reads d key k e s source : storable d -> 1 <= key -> 1 <= PersonId_get d.(draft_subject) ->
  retention_columns d.(draft_retention) = Ok (k, e, s) -> row_to_provenance source = Ok d.(draft_provenance) ->
  row_to_record {| j_memory := MemoryRow (first_row_of d key k e s) (PersonId_get d.(draft_subject)); j_source := source; j_approval := None |}
  = Ok (first_record key d).
Proof.
  intros [M C CR _ _] K S RC PR. destruct (made_draft_fields _ M) as (V & R & _ & MR). apply made_retention_columns in RC; [|done].
  destruct (parse_retention_in _ _ _ _ RC) as [R1 R2].
  unfold row_to_record. cbv zeta. cbn [j_memory j_source j_approval m_columns m_subject_person_id first_row_of m_id m_kind m_state m_content
    m_confidence m_created_at_ms m_updated_at_ms m_retention_kind m_expires_at_ms m_session_id m_pinned m_revision m_last_used_at_ms m_last_retrieval_reason].
  rewrite (proj2 (parse_kind_Ok _ _) eq_refl), (proj2 (parse_state_Ok _ _) eq_refl). cbn [convert result_bind].
  rewrite checked_timestamp_Ok, R1 by done. cbn [convert result_bind]. rewrite R2, PR. cbn [convert result_bind optional_approval].
  replace (if bool_decide (initial_state d = State_Candidate) then None else None) with (@None MemoryApprovalEvidence) by (by destruct (bool_decide _)).
  replace ((0 <=? confidence_get (draft_confidence d)) && (confidence_get (draft_confidence d) <=? u16_max)) with true by (unfold u16_max; lia).
  cbn [constraint result_bind]. unfold MemoryConfidence_new at 1. rewrite (proj2 (Z.ltb_ge _ _)) by lia. cbn [convert result_bind].
  unfold MemoryDraft_new. rewrite V. replace (UnixTimestampMillis_raw (millis (draft_created_at d))) with (draft_created_at d) by (by destruct (draft_created_at d)).
  rewrite R. cbn [convert result_bind]. rewrite checked_unsigned_Ok by lia. cbn [convert result_bind]. unfold PersonId_new, checked_id at 1.
  rewrite (proj2 (Z.eqb_neq _ _)) by lia. cbn [convert result_bind]. unfold checked_memory_id. rewrite checked_unsigned_Ok by lia.
  cbn [result_bind]. unfold MemoryId_new, checked_id. rewrite (proj2 (Z.eqb_neq _ _)) by lia. cbn [map_db convert result_bind transpose_map].
  rewrite (checked_unsigned_Ok 1) by lia. cbn [convert result_bind]. unfold MemoryRecord_new. cbn -[requires_approval initial_state].
  rewrite Z.ltb_irrefl. unfold first_record, initial_state. destruct d as [dk dc dp [df] dt dr [ds]]. cbn.
  by destruct (requires_approval dk).
Qed.

Lemma created_reads d k e s db : store_inv db -> storable d -> has_person (PersonId_get d.(draft_subject)) db = true ->
  retention_columns d.(draft_retention) = Ok (k, e, s) ->
  record_by_id (db.(memories).(sequence) + 1) (with_created d k e s db) = Ok (Some (first_record (db.(memories).(sequence) + 1) d)).
Proof.
  intros [[T _] P] D HP RC. assert (1 <= PersonId_get d.(draft_subject)) as SU.
  { apply has_person_true in HP as (p & I & <-). pose proof (pp_ids _ _ P) as B. rewrite Forall_forall in B. specialize (B _ I). cbv beta in B. lia. }
  pose proof (tb_sequence _ T) as TS. set (key := sequence (memories db) + 1). pose proof (fresh_sources db key T ltac:(unfold key; lia)) as F.
  destruct (made_draft_fields _ (sb_draft _ D)) as (_ & _ & MP & _).
  destruct (provenance_row_reads (sequence (memory_sources db) + 1) key _ (draft_created_at d) MP) as [NA PR].
  unfold record_by_id, record_rows. cbn [with_created set_sources set_memories set_memory_tables memories append rows].
  rewrite List.filter_app, (filter_unmatched _ (rows (memories db))).
  2:{ eapply Forall_impl; [apply (tb_ids _ T)|]. intros m B. cbv beta in *. apply Z.eqb_neq. unfold key. lia. }
  cbn [List.filter app]. fold key. cbn [m_id first_row_of m_columns]. rewrite Z.eqb_refl. cbn [omap list_omap].
  unfold join_row, sources_of, approvals_of. cbn [with_created set_sources set_memories set_memory_tables memory_sources append rows m_id m_columns first_row_of].
  rewrite !List.filter_app, !(filter_unmatched _ (rows (memory_sources db))) by (eapply Forall_impl; [exact F|]; intros x E; cbv beta in *; by rewrite E).
  fold key. cbn [List.filter app]. rewrite NA. cbn [s_memory_id provenance_row]. rewrite Z.eqb_refl. cbn [andb negb latest foldl fmap option_fmap option_map].
  rewrite first_row_reads; try done. unfold key. lia.
Qed.
End Creation.
