(* ===== verification/MemoryStoreRetrieval.v ===== *)
(** * Controlled memory: what a retrieval takes from the store

    [SqliteMemoryStore::retrieve] in one transaction: due memories expire, the
    memories of the subject are read, ranked and cut, and the ones selected are
    traced, marked as used and presented. *)

From S2P Require Import Prelude RustStr Errors MemoryProtocol MemoryRetrieval Database MemoryStore PeopleStore MemorySchema MemoryStoreProofs MemoryRely MemoryStoreSafety MemoryStoreCalls.

Section Retrieval.
Context `{Sha : Sha256} {ShaLaws : Sha256Laws Sha} `{U : UnicodeTables} (MIGRATIONS : list rstr).

(** ** Traces and items are beside the memories *)

Lemma store_inv_beside db t i : store_inv db ->
  Forall (fun r => has_memory r.(i_memory_id) db = true /\ existsb (fun x => x.(t_id) =? r.(i_trace_id)) t.(rows) = true) i ->
  store_inv (set_traces t (set_items i db)).
Proof.
  intros [[T R] P] F. split; [split|].
  - by destruct T.
  - eapply Forall_impl; [exact R|]. intros m. by apply row_ok_ext.
  - by destruct P.
Qed.

Lemma insert_trace_Ok request turn items bytes e db key db' : store_inv db -> insert_trace request turn items bytes e db = Ok (key, db') ->
  exists t, db' = set_traces t db /\ store_inv db'.
Proof.
  intros I. unfold insert_trace, next_key. destruct (_ <? _); [|done]. cbn [result_bind]. destruct (constraint _); [|done].
  intros [= <- <-]. eexists. split; [done|]. apply (store_inv_beside db _ db.(retrieval_items) I). eapply Forall_impl; [apply (tb_items db); apply I|].
  intros r [H1 H2]. split; [done|]. cbn. rewrite existsb_app. apply orb_true_iff. by left.
Qed.

Lemma insert_item_Ok trace memory ordinal reason bytes db x db' : store_inv db -> insert_item trace memory ordinal reason bytes db = Ok (x, db') ->
  exists i, db' = set_items i db /\ store_inv db'.
Proof.
  intros I. unfold insert_item. destruct (constraint _) as [[]|] eqn:C; [|done]. apply constraint_Ok in C. breflect. intros [= <- <-]. eexists. split; [done|].
  apply (store_inv_beside db db.(retrieval_traces) _ I). apply Forall_app. split; [apply (tb_items db); apply I|]. by apply Forall_singleton.
Qed.

(** Marking a memory as used. *)
Lemma use_ok id t reason db n db' : store_inv db -> update_memories (fun m => m_id m =? id) (use_columns t reason) db = Ok (n, db') ->
  store_inv db' /\ guarantee db db' /\ db'.(memory_sources) = db.(memory_sources).
Proof.
  intros [M P] X. pose proof (use_columns_id t reason) as ID. split; [split|split; [split|]].
  - eapply update_inv; eauto. intros m c _ R _ A C. by eapply use_columns_ok.
  - by eapply update_people_ok.
  - eapply update_evolves; eauto. intros m _ _ c A. right. by eapply use_columns_version.
  - apply update_memories_Ok in X as (l & -> & _). by apply justified_same.
  - by apply update_memories_Ok in X as (l & -> & _).
Qed.

(** The rows of one moment at another, apart from their last use. *)
Definition same_versions (db db' : Database) : Prop :=
  forall m : memory_row, m ∈ db.(memories).(rows) -> exists m' : memory_row, m' ∈ db'.(memories).(rows)
    /\ version m = version m' /\ m_subject_person_id m = m_subject_person_id m'.

Lemma Forall2_elem_l {A} (R : A -> A -> Prop) l k x : Forall2 R l k -> x ∈ l -> exists y, y ∈ k /\ R x y.
Proof. intros F I. apply Forall2_flip in F. by apply (Forall2_elem_r (flip R) k l). Qed.

Lemma use_versions id t reason db n db' : update_memories (fun m => m_id m =? id) (use_columns t reason) db = Ok (n, db') -> same_versions db db'.
Proof.
  intros (l & -> & F & _)%update_memories_Ok m M. cbn. destruct (Forall2_elem_l _ _ _ _ F M) as (m' & M' & X). exists m'. split; [done|].
  destruct X as [[_ ->]|(_ & A & S & _)]; [done|]. by apply use_columns_version in A.
Qed.

Lemma same_versions_trans a b c : same_versions a b -> same_versions b c -> same_versions a c.
Proof.
  intros X Y m M. destruct (X m M) as (m1 & M1 & V1 & S1). destruct (Y m1 M1) as (m2 & M2 & V2 & S2). exists m2. split_and!; congruence.
Qed.

Lemma present_items_ok cancel trace now selected : forall poll ordinal env n db x n' db', store_inv db ->
  present_items cancel poll trace now ordinal selected env n db = Ok (x, n', db') ->
  store_inv db' /\ evolves db db' /\ db'.(memory_sources) = db.(memory_sources) /\ same_versions db db' /\ x.1 = map context_item selected.
Proof.
  induction selected as [|s selected IH]; intros poll ordinal env n db x n' db' I H; cbn [present_items] in H; tx_inv H.
  { injection E as <-. split_and!; try done; [apply evolves_refl|]. intros m M. by exists m. }
  match goal with X : insert_item _ _ _ _ _ _ = Ok _ |- _ => apply insert_item_Ok in X as (i & -> & I0); [|done] end.
  match goal with X : update_memories _ _ _ = Ok _ |- _ => rename X into X1 end.
  match goal with X : present_items _ _ _ _ _ _ _ _ _ = Ok _ |- _ => rename X into X2 end.
  pose proof (use_versions _ _ _ _ _ _ X1) as V1.
  apply use_ok in X1 as (I1 & G1 & S1); [|done]. destruct (IH _ _ _ _ _ _ _ _ I1 X2) as (I2 & E2' & S2 & V2 & L).
  split_and!; [done| |by rewrite S2, S1|by eapply same_versions_trans|].
  - eapply evolves_trans; [|exact E2']. by apply guarantee_evolves in G1.
  - match goal with X : Ok (_ :: _, _ :: _) = Ok x |- _ => injection X as <- end. cbn in *. rewrite L. f_equal.
    match goal with X : map_db (MemoryContextItem_new _ _ _ _) = Ok _ |- _ => rewrite map_db_Ok in X;
      unfold MemoryContextItem_new, validate_content in X; apply result_bind_Ok in X as (c & [-> _]%bounded_text_Ok & [= <-]) end. done.
Qed.

(** ** What is read is what is there *)

Lemma try_map_elem {A B E} (f : A -> result B E) l k b : try_map f l = Ok k -> b ∈ k -> exists a, a ∈ l /\ f a = Ok b.
Proof.
  revert k. induction l as [|a l IH]; intros k; cbn; [intros [= <-]; by rewrite elem_of_nil|].
  destruct (f a) as [b0|] eqn:F; [|done]. cbn. destruct (try_map f l) as [k0|]; [|done]. cbn. intros [= <-]. rewrite elem_of_cons.
  intros [->|I]; [exists a; split; [left|done]|]. destruct (IH _ eq_refl I) as (x & X & Y). exists x. split; [by right|done].
Qed.

Lemma scanned_record db subject limit records r : try_map row_to_record (take limit (order_by_id (record_rows subject db))) = Ok records ->
  r ∈ records -> exists j, j.(j_memory) ∈ db.(memories).(rows) /\ subject j.(j_memory) = true /\ row_to_record j = Ok r.
Proof.
  intros T I. destruct (try_map_elem _ _ _ _ T I) as (j & J & R). exists j.
  assert (j ∈ record_rows subject db) as X.
  { apply elem_of_take in J as (i & J & _). apply list_elem_of_lookup_2 in J. unfold order_by_id in J. by rewrite sort_by_Permutation in J. }
  apply record_rows_elem in X as (M & S & _). done.
Qed.

(** What a turn may be shown for a request: an active memory of the subject
    that has not expired, approved as it stands if its kind needs that. *)
Definition may_show (db : Database) (request : MemoryRetrievalRequest) (item : MemoryContextItem) : Prop :=
  exists m : memory_row, m ∈ db.(memories).(rows)
    /\ m_id m = MemoryId_get item.(item_memory_id) /\ m_content m = item.(item_content)
    /\ m_kind m = MemoryKind_as_str item.(item_kind) /\ m_state m = lit "active"
    /\ (forall e, m_retention_kind m = lit "working" \/ m_retention_kind m = lit "until" -> m_expires_at_ms m = Some e -> request.(now).(millis) < e)
    /\ (forall s, request.(request_subject) = Some s -> m_subject_person_id m = PersonId_get s)
    /\ (requires_approval item.(item_kind) = true -> approved m (approvals_of (m_id m) db)).

Lemma shown_row db db' request subject j x : store_inv db -> same_versions db db' -> db'.(memory_sources) = db.(memory_sources) ->
  j.(j_memory) ∈ db.(memories).(rows) -> row_to_record j = Ok x.(ranked_record) ->
  transpose_map (fun s => sqlite_integer (PersonId_get s)) request.(request_subject) = Ok subject ->
  is_none_or subject (fun s => m_subject_person_id j.(j_memory) =? s) = true ->
  presentable request.(MemoryProtocol.query) request.(now) x -> may_show db' request (context_item x).
Proof.
  intros [[T R] P] V SS M RR SU SJ (ST & EX & _ & _). apply row_to_record_describes in RR as [D _].
  rewrite Forall_forall in R. destruct (ro_typed _ _ (R _ M)) as (k & st & ret & TY & AP).
  destruct (V _ M) as (m & M' & VV & SB). exists m. split; [done|]. pose proof (describes_version _ _ _ VV D) as D'.
  split_and!; [symmetry; apply (de_id _ _ D')|symmetry; apply (de_content _ _ D')|apply (de_kind _ _ D')| | | |].
  - rewrite (de_state _ _ D'), ST. done.
  - intros e K E. unfold expired in EX. apply orb_false_elim in EX as [_ EX].
    pose proof (de_retention _ _ D') as RK. pose proof (de_expires _ _ D') as RE.
    destruct (record_retention (ranked_record x)) as [t|s|t|]; cbn in *;
      [specialize (RE t eq_refl)|exfalso; rewrite RK in K; by destruct K|specialize (RE t eq_refl)|exfalso; rewrite RK in K; by destruct K];
      rewrite RE in E; injection E as <-; by breflect.
  - intros s RS. rewrite RS in SU. cbn in SU. destruct (sqlite_integer _) eqn:Z; [|done]. apply sqlite_integer_Ok in Z as ->. injection SU as <-.
    cbn in SJ. breflect. congruence.
  - cbn. intros Q. unfold approvals_of. rewrite SS, <- (f_equal m_id VV : m_id j.(j_memory) = m_id m).
    destruct AP as (a & L & DG); [| |exists a; split; [done|]; by rewrite DG, (f_equal m_content VV : m_content j.(j_memory) = m_content m)].
    + assert (k = record_kind (ranked_record x)) as -> by (apply MemoryKind_as_str_inj; rewrite <- (ty_kind _ _ _ _ TY); apply (de_kind _ _ D)). done.
    + apply MemoryState_as_str_inj. rewrite <- (ty_state _ _ _ _ TY), (de_state _ _ D), ST. done.
Qed.

Lemma total_size_sum l : foldr Z.add 0 (map (fun x => blen (context_item x).(item_content)) l) = total_size l.
Proof. induction l as [|x l IH]; [done|]. cbn [map foldr]. rewrite IH. done. Qed.

(** One transaction of [retrieve]: it keeps the invariant, and what it returns
    may be shown. *)
Lemma retrieve_in_ok request cancel env n db r n' db' : store_inv db -> 0 <= request.(maximum_items) ->
  0 <= request.(maximum_bytes) <= u64_max -> retrieve_in request cancel env n db = Ok (r, n', db') ->
  store_inv db' /\ guarantee db db' /\ Forall (may_show db' request) r.(retrieved_items)
  /\ zlen r.(retrieved_items) <= request.(maximum_items)
  /\ foldr Z.add 0 (map (fun i => blen i.(item_content)) r.(retrieved_items)) <= request.(maximum_bytes).
Proof.
  intros I MI MB H. unfold retrieve_in, expire_due_in in H. tx_inv H.
  match goal with X : update_memories _ (expire_columns _) _ = Ok _ |- _ => pose proof X as UX; apply expiry_ok in X as [I1 G1]; [|done] end.
  match goal with X : insert_trace _ _ _ _ _ _ = Ok _ |- _ => apply insert_trace_Ok in X as (t & -> & I0); [|done] end.
  match goal with X : present_items _ _ _ _ _ _ _ _ _ = Ok _ |- _ => apply present_items_ok in X as (I2 & E2' & S2 & V2 & L2); [|done] end.
  match goal with X : Ok (MemoryRetrieval_new _ _) = Ok r |- _ => injection X as <- end. cbn [retrieved_items] in *. cbn in L2. subst.
  match goal with X : select_records _ _ _ _ _ _ = Ok _ |- _ => apply retrieval_selection_sound in X as ((ranking & _ & RK & SUB & _) & ZL & ZB & _); [|done..] end.
  split_and!; [done| | | |].
  - split; [eapply evolves_trans; [apply guarantee_evolves; exact G1|exact E2']|]. apply justified_same. rewrite S2. cbn.
    by apply update_memories_Ok in UX as (l & -> & _).
  - apply Forall_forall. intros item IT. apply list_elem_of_fmap in IT as (x & -> & X).
    assert (x ∈ ranking) as (RI & PR)%RK by (by eapply elem_of_sublist).
    match goal with X : try_map row_to_record _ = Ok _ |- _ => destruct (scanned_record _ _ _ _ _ X RI) as (j & J1 & J2 & J3) end.
    eapply (shown_row db0); [exact I1|exact V2|exact S2|exact J1|exact J3|eassumption|exact J2|exact PR].
  - unfold zlen in *. by rewrite length_map.
  - by rewrite map_map, total_size_sum.
Qed.

Lemma retrieve_safe request cancel : 0 <= request.(maximum_items) -> 0 <= request.(maximum_bytes) <= u64_max ->
  harmless (retrieve MIGRATIONS request cancel).
Proof.
  intros MI MB. unfold retrieve. apply harmless_bind; [apply harmless_lift|]. intros _. apply harmless_bind; [apply connection_harmless|].
  intros _. apply harmless_transaction. intros env n db a n' db' I H. apply retrieve_in_ok in H as (I' & G & _); done.
Qed.
End Retrieval.
