(* ===== verification/PeopleStoreSafety.v ===== *)
(** * Controlled memory: the calls on people are safe

    Each operation on people and on voice signatures keeps the invariant of the
    database and evolves its memories, whatever other connections do between
    its accesses. A signature that was added reads back. *)

From S2P Require Import Prelude RustStr Errors MemoryProtocol MemoryRetrieval Database MemoryStore PeopleStore MemorySchema MemoryStoreProofs MemoryRely MemoryStoreSafety MemoryStoreCalls.

(** The memories and what belongs to them are the same. *)
Definition same_memories (db db' : Database) : Prop :=
  (db'.(memories), db'.(memory_sources), db'.(retrieval_traces), db'.(retrieval_items), header db')
  = (db.(memories), db.(memory_sources), db.(retrieval_traces), db.(retrieval_items), header db).

Lemma same_memories_trans a b c : same_memories a b -> same_memories b c -> same_memories a c.
Proof. unfold same_memories. congruence. Qed.

(** ** Names *)

Definition made_name (n : PersonName) : Prop := exists d k, PersonName_new d k = Ok n.

Lemma made_name_again n : made_name n -> exists x, PersonName_new n.(name_display) n.(name_key) = Ok x.
Proof.
  intros (d & k & H). exists n. unfold PersonName_new in *. destruct (_ || _) eqn:E; [done|]. injection H as <-. cbn. by rewrite E.
Qed.

Lemma names_of_elem id db n : n ∈ names_of id db <-> n ∈ db.(person_names) /\ n.(pn_person_id) = id.
Proof. unfold names_of. rewrite filter_elem, Z.eqb_eq. done. Qed.

Lemma names_of_snoc id row db : names_of id (set_names (db.(person_names) ++ [row]) db) =
  names_of id db ++ (if row.(pn_person_id) =? id then [row] else []).
Proof. unfold names_of. cbn. rewrite List.filter_app. cbn. by destruct (_ =? _). Qed.

Lemma next_ordinal_spec id db : 0 <= next_ordinal id db /\ (forall n, n ∈ names_of id db -> n.(pn_ordinal) < next_ordinal id db)
  /\ (names_of id db = [] -> next_ordinal id db = 0).
Proof.
  unfold next_ordinal. induction (names_of id db) as [|n l (I1 & I2 & I3)]; cbn; [split_and!; try done; intros n; by rewrite elem_of_nil|].
  split_and!; [lia| |done]. intros x. rewrite elem_of_cons. intros [->|X]; [lia|]. specialize (I2 x X). lia.
Qed.

Lemma NoDup_snoc {A B} (f : A -> B) l x : NoDup (map f l) -> (forall y, y ∈ l -> f y <> f x) -> NoDup (map f (l ++ [x])).
Proof.
  intros N H. rewrite map_app. apply NoDup_app. split_and!; [done| |apply NoDup_singleton]. intros b B1. cbn. rewrite list_elem_of_singleton.
  intros ->. apply list_elem_of_fmap in B1 as (y & E & Y). by apply (H y Y).
Qed.

(** A name is added to a person: after the others, or as the first one. *)
Lemma insert_name_ok unnamed id ordinal name db x db' : people_ok_but unnamed db -> made_name name -> 0 <= ordinal ->
  (names_of id db = [] -> ordinal = 0) -> insert_name_row id ordinal name db = Ok (x, db') ->
  people_ok_but unnamed db' /\ same_memories db db'
  /\ db'.(people) = db.(people) /\ names_of id db' <> [].
Proof.
  intros P MN O F. unfold insert_name_row. destruct (constraint _) as [[]|] eqn:C; [|done]. apply constraint_Ok in C. breflect. intros [= <- <-].
  set (row := {| pn_person_id := id; pn_ordinal := ordinal; pn_display := name_display name; pn_key := name_key name |}) in *.
  assert (U : forall n, n ∈ db.(person_names) -> n.(pn_person_id) = id -> n.(pn_ordinal) <> ordinal /\ n.(pn_key) <> name.(name_key)).
  { intros n N E. match goal with X : existsb _ _ = false |- _ => apply not_true_iff_false in X; rewrite existsb_exists in X end.
    split; intros G; match goal with X : ~ _ |- _ => apply X end; exists n; rewrite <- list_elem_of_In, names_of_elem, orb_true_iff, Z.eqb_eq, bool_decide_eq_true; auto. }
  split_and!; try done; [|rewrite names_of_snoc; cbn; rewrite Z.eqb_refl; by intros [_ ?]%app_nil].
  pose proof (pp_primary _ _ P) as PP. pose proof (pp_all_named _ _ P) as PA. destruct P. split; try done.
  - apply Forall_app. split; [done|]. by apply Forall_singleton.
  - apply Forall_app. split; [done|]. apply Forall_singleton. by apply made_name_again.
  - apply NoDup_snoc; [done|]. intros n N [= E1 E2]. by apply (proj2 (U n N E1)).
  - apply NoDup_snoc; [done|]. intros n N [= E1 E2]. by apply (proj1 (U n N E1)).
  - apply Forall_app. split; [done|]. by apply Forall_singleton.
  - intros i. rewrite names_of_snoc. cbn. destruct (id =? i) eqn:E; breflect; [subst i|rewrite app_nil_r; auto]. intros _.
    destruct (names_of id db) as [|n0 l] eqn:L; [exists row; split; [by left|by apply F]|].
    destruct (PP id) as (n & N & Z); [by rewrite L|]. exists n. rewrite elem_of_app, <- L. auto.
  - intros p Q1 Q2 Q3. rewrite names_of_snoc. intros [X _]%app_nil. by apply (PA p).
Qed.

(** Names are dropped, primary ones apart. *)
Lemma drop_names_ok keep db : people_ok db -> (forall n, n.(pn_ordinal) = 0 -> keep n = true) ->
  people_ok (set_names (List.filter keep db.(person_names)) db).
Proof.
  intros P K. assert (E : forall id, names_of id (set_names (List.filter keep db.(person_names)) db) = List.filter keep (names_of id db)).
  { intros id. unfold names_of. cbn. induction (person_names db) as [|n l IH]; cbn; [done|].
    destruct (keep n) eqn:KN, (pn_person_id n =? id) eqn:PN; cbn; rewrite ?KN, ?PN, ?IH; done. }
  assert (N : forall id, names_of id db <> [] -> exists n, n ∈ List.filter keep (names_of id db) /\ pn_ordinal n = 0).
  { intros id H. destruct (pp_primary _ _ P id H) as (n & X & Z). exists n. rewrite filter_elem. auto. }
  pose proof (pp_all_named _ _ P) as PA. destruct P. split; try done; try by apply filter_Forall.
  - by apply filter_NoDup.
  - by apply filter_NoDup.
  - intros id. rewrite E. intros H. apply N. intros Z. rewrite Z in H. done.
  - intros p Q1 Q2 Q3. rewrite E. intros X. destruct (N (p_id p)) as (n & Y & _); [by apply (PA p)|]. rewrite X in Y. by apply elem_of_nil in Y.
Qed.

(** One name is replaced in place. *)
Lemma NoDup_replace {A B} (f : A -> B) (replaced : A -> bool) row l : NoDup (map f l) ->
  (forall x, x ∈ l -> replaced x = false -> f x <> f row) ->
  (forall x y, x ∈ l -> y ∈ l -> replaced x = true -> replaced y = true -> x = y) -> NoDup (map f (map (fun x => if replaced x then row else x) l)).
Proof.
  induction l as [|x l IH]; cbn; [done|]. intros [NX ND]%NoDup_cons D U2. assert (NOT : f (if replaced x then row else x) ∉ map f (map (fun x => if replaced x then row else x) l)).
  - intros (y' & E & (y & -> & Y)%list_elem_of_fmap)%list_elem_of_fmap. destruct (replaced x) eqn:RX.
    + destruct (replaced y) eqn:RY; [|by apply (D y); [right| |]; auto].
      assert (y = x) as -> by (apply U2; [by right|by left|done|done]). apply NX. apply list_elem_of_fmap. by exists x.
    + destruct (replaced y) eqn:RY; [by apply (D x); [left| |]; auto|]. apply NX. apply list_elem_of_fmap. by exists y.
  - apply NoDup_cons. split; [done|]. apply IH; auto.
    + intros y Y. apply D. by right.
    + intros y z Y Z. apply U2; by right.
Qed.

Lemma NoDup_elem_eq {A B} (f : A -> B) l x y : NoDup (map f l) -> x ∈ l -> y ∈ l -> f x = f y -> x = y.
Proof.
  intros N X Y E. apply list_elem_of_lookup in X as [i X], Y as [j Y].
  assert (i = j) as ->; [|congruence]. eapply NoDup_lookup; [exact N|..]; rewrite list_lookup_fmap; [by rewrite X|]. rewrite Y. cbn. by rewrite E.
Qed.

Lemma upsert_primary_ok id name db x db' : people_ok db -> made_name name -> upsert_primary id name db = Ok (x, db') ->
  people_ok db' /\ same_memories db db' /\ db'.(people) = db.(people).
Proof.
  intros P MN. unfold upsert_primary. destruct (constraint _) as [[]|] eqn:C; [|done]. apply constraint_Ok in C. breflect. intros [= <- <-].
  set (row := {| pn_person_id := id; pn_ordinal := 0; pn_display := name_display name; pn_key := name_key name |}) in *.
  set (primary := fun n : name_row => (pn_person_id n =? id) && (pn_ordinal n =? 0)).
  split_and!; try done. match goal with X : existsb _ (names_of id db) = false |- _ => rename X into U end.
  assert (K : forall n, n ∈ db.(person_names) -> primary n = false -> (n.(pn_person_id), n.(pn_key)) <> (id, name.(name_key))).
  { intros n N F [= E1 E2]. apply not_true_iff_false in U. apply U. apply existsb_exists. exists n.
    rewrite <- list_elem_of_In, names_of_elem. split; [done|]. unfold primary in F. rewrite E1, Z.eqb_refl in F. cbn in F. rewrite F. cbn. by apply bool_decide_eq_true. }
  destruct (existsb primary db.(person_names)) eqn:EX.
  - assert (ONE : forall a b, a ∈ db.(person_names) -> b ∈ db.(person_names) -> primary a = true -> primary b = true -> a = b).
    { intros a b A B PA PB. unfold primary in PA, PB. breflect. eapply NoDup_elem_eq; [apply (pp_ordinals _ _ P)|done..|]. congruence. }
    assert (IN : forall (Q : name_row -> Prop), Q row -> Forall Q db.(person_names) -> Forall Q (map (fun n => if primary n then row else n) db.(person_names))).
    { intros Q QR F. apply Forall_forall. intros y (n & -> & N)%list_elem_of_fmap. rewrite Forall_forall in F. destruct (primary n); auto. }
    assert (NO : forall i, names_of i (set_names (map (fun n => if primary n then row else n) db.(person_names)) db)
                           = map (fun n => if primary n then row else n) (names_of i db)).
    { intros i. unfold names_of. cbn. clear. induction (person_names db) as [|n l IH]; cbn; [done|].
      destruct (primary n) eqn:PN; cbn; [unfold primary in PN; breflect; subst id|];
        destruct (pn_person_id n =? i) eqn:PI; cbn; rewrite ?PN, ?IH; try done.
      unfold primary. by rewrite Z.eqb_refl, (proj2 (Z.eqb_eq _ _) ltac:(eassumption)). }
    pose proof (pp_all_named _ _ P) as PA. pose proof (pp_primary _ _ P) as PP. destruct P. split; try done; cbn [person_names set_names set_people_tables].
    + by apply IN.
    + apply IN; [by apply made_name_again|done].
    + apply NoDup_replace; auto.
    + apply NoDup_replace; auto. intros n N F [= E1 E2]. unfold primary in F. rewrite E1, E2, !Z.eqb_refl in F. done.
    + by apply IN.
    + intros i. rewrite NO. intros N. destruct (PP i) as (n & X & Z); [by intros Y; rewrite Y in N|].
      exists (if primary n then row else n). split; [apply list_elem_of_fmap; by exists n|]. by destruct (primary n).
    + intros p Q1 Q2 Q3. rewrite NO. intros Y. apply fmap_nil_inv in Y. by apply (PA p).
  - assert (names_of id db = []) as NIL.
    { destruct (names_of id db) as [|n0 l] eqn:L; [done|]. exfalso. destruct (pp_primary _ _ P id) as (n & N & Z); [by rewrite L|].
      apply names_of_elem in N as [N E]. apply not_true_iff_false in EX. apply EX. apply existsb_exists. exists n. rewrite <- list_elem_of_In.
      split; [done|]. unfold primary. by rewrite E, Z, !Z.eqb_refl. }
    destruct (insert_name_ok 1 id 0 name db tt (set_names (db.(person_names) ++ [row]) db) P MN) as [G _]; try done.
    unfold insert_name_row. rewrite NIL. match goal with X : name_check _ = true |- _ => fold row; rewrite X end.
    match goal with X : has_person _ _ = true |- _ => rewrite X end. done.
Qed.

(** ** Rows of people *)

(** Columns other than the identity of a person. *)
Lemma people_update_ok matching assign db n db' : people_ok db ->
  (forall p, (assign p).(p_id) = p.(p_id) /\ (assign p).(p_is_owner) = p.(p_is_owner)) -> update_people matching assign db = Ok (n, db') ->
  people_ok db' /\ same_memories db db' /\ db'.(person_names) = db.(person_names)
  /\ db'.(voice_signatures) = db.(voice_signatures).
Proof.
  intros P A. unfold update_people. destruct (update_rows _ _ _ _) as [[n0 l]|] eqn:U; [|done]. cbn. intros [= <- <-]. split_and!; try done.
  apply update_rows_Ok in U as [F _]. set (R := updated _ _ _) in F.
  assert (ID : forall p p', R p p' -> p'.(p_id) = p.(p_id) /\ p'.(p_is_owner) = p.(p_is_owner)) by (intros p p' [[_ ->]|(_ & [= <-] & _)]; auto).
  assert (KEYS : map p_id l = map p_id db.(people).(rows)) by (eapply Forall2_map_eq; [exact F|]; intros x y X; by apply ID).
  assert (HP : forall id, has_person id (set_people (Table l db.(people).(sequence)) db) = has_person id db).
  { intros id. unfold has_person. cbn. revert KEYS. generalize (rows (people db)). clear. induction l as [|x l IH]; intros [|y k]; cbn; try done.
    intros [= -> E]. f_equal. by apply IH. }
  assert (EL : forall p', p' ∈ l -> exists p, p ∈ db.(people).(rows) /\ R p p') by (intros p' X; by apply (Forall2_elem_r R _ _ _ F)).
  pose proof (pp_all_named _ _ P) as PA. pose proof (Forall2_length _ _ _ F) as LEN.
  destruct P as [P1 P2 P3 P4 P5 P6 P7 P8 P9 P10 P11 P12 P13 P14 P15]. split; try done; cbn [rows people set_people set_people_tables sequence].
  - by rewrite KEYS.
  - apply Forall_forall. intros p' X. destruct (EL _ X) as (p & Y & [-> _]%ID). rewrite Forall_forall in P2. by apply P2.
  - by rewrite HP.
  - apply Forall_forall. intros p' X. destruct (EL _ X) as (p & Y & [-> ->]%ID). rewrite Forall_forall in P4. by apply P4.
  - apply Forall_forall. intros p' X. destruct (EL _ X) as (p & Y & [[_ ->]|(_ & _ & C)]); [|done]. rewrite Forall_forall in P5. by apply P5.
  - unfold zlen in *. by rewrite <- LEN.
  - eapply Forall_impl; [exact P7|]. intros m. cbv beta. by rewrite HP.
  - eapply Forall_impl; [exact P8|]. intros m. cbv beta. by rewrite HP.
  - eapply Forall_impl; [exact P9|]. intros m. cbv beta. by rewrite HP.
  - intros p' X. destruct (EL _ X) as (p & Y & [-> _]%ID). intros Q1 Q2. by apply (PA p).
Qed.

Lemma insert_person_ok review at_ db key db' : people_ok db -> zlen db.(people).(rows) < MAX_PEOPLE ->
  insert_person_row review at_ db = Ok (key, db') -> people_ok_but key db' /\ names_of key db' = []
  /\ same_memories db db'.
Proof.
  intros P L. unfold insert_person_row, next_key. destruct (_ <? _); [|done]. cbn [result_bind].
  destruct (constraint _) as [[]|] eqn:C; [|done]. apply constraint_Ok in C. intros [= <- <-].
  assert (LE : forall p, p ∈ db.(people).(rows) -> p.(p_id) <= db.(people).(sequence)).
  { intros p X. pose proof (pp_ids _ _ P) as F. rewrite Forall_forall in F. specialize (F _ X). cbv beta in F. lia. }
  assert (HP : forall id, has_person id db = true -> forall row, has_person id (set_people (append (sequence (people db) + 1) row (people db)) db) = true).
  { intros id (p & X & E)%has_person_true row. apply has_person_true. exists p. split; [|done]. cbn. apply elem_of_app. by left. }
  assert (NIL : names_of (sequence (people db) + 1) db = []).
  { destruct (names_of _ db) as [|n l] eqn:E; [done|]. exfalso. assert (n ∈ names_of (sequence (people db) + 1) db) as [N I]%names_of_elem by (rewrite E; left).
    pose proof (pp_named _ _ P) as F. rewrite Forall_forall in F. specialize (F _ N). apply has_person_true in F as (p & X & Y). specialize (LE _ X). lia. }
  assert (0 <= sequence (people db)) as SQ.
  { pose proof (pp_owner _ _ P) as (p & X & Y)%has_person_true. specialize (LE _ X). lia. }
  split_and!; try done. pose proof (pp_owner _ _ P) as OW. pose proof (pp_all_named _ _ P) as PA.
  destruct P as [P1 P2 P3 P4 P5 P6 P7 P8 P9 P10 P11 P12 P13 P14 P15]. split; try done; cbn [rows people set_people set_people_tables append sequence].
  - apply NoDup_snoc; [done|]. intros p X. specialize (LE _ X). cbn. lia.
  - apply Forall_app. split; [|apply Forall_singleton; cbn; lia]. eapply Forall_impl; [exact P2|]. cbn. lia.
  - by apply HP.
  - apply Forall_app. split; [done|]. apply Forall_singleton. cbn. apply has_person_true in OW as (p & X & Y). specialize (LE _ X). lia.
  - apply Forall_app. split; [done|]. by apply Forall_singleton.
  - rewrite zlen_app, zlen_cons, zlen_nil. lia.
  - eapply Forall_impl; [exact P7|]. intros m. cbv beta. intros H. by apply HP.
  - eapply Forall_impl; [exact P8|]. intros m. cbv beta. intros H. by apply HP.
  - eapply Forall_impl; [exact P9|]. intros m. cbv beta. intros H. by apply HP.
  - intros p. rewrite elem_of_app, list_elem_of_singleton. intros [X| ->]; cbn; [|done]. intros Q1 Q2. apply PA; [done|done|].
    specialize (LE _ X). by intros ?.
Qed.

Lemma people_ok_named key db : people_ok_but key db -> names_of key db <> [] -> people_ok db.
Proof.
  intros P N. pose proof (pp_all_named _ _ P) as PA. destruct P. split; try done. intros p X Q1 _. destruct (decide (p_id p = key)) as [->|Q2]; [done|].
  by apply PA.
Qed.

Section People.
Context `{Sha : Sha256} {ShaLaws : Sha256Laws Sha} `{C : SignatureCrypto} (MIGRATIONS : list rstr).

Lemma memory_inv_same db db' : same_memories db db' -> memory_inv db -> memory_inv db'.
Proof.
  intros E [T R]. injection E as E1 E2 E3 E4 _ _ _. split.
  - destruct T. split; unfold has_memory, has_trace in *; by rewrite ?E1, ?E2, ?E3, ?E4.
  - rewrite E1. eapply Forall_impl; [exact R|]. intros m. by apply row_ok_ext.
Qed.

Lemma guarantee_same db db' : same_memories db db' -> guarantee db db'.
Proof. intros E. injection E as E1 E2 E3 E4 H1 H2 H3. split; [apply evolves_same; [done|unfold header; congruence]|by apply justified_same]. Qed.

Lemma has_person_without id other db k : has_person other db = true -> other <> id ->
  existsb (fun r => r.(p_id) =? other) (rows (Table (List.filter (fun p => negb (p.(p_id) =? id)) db.(people).(rows)) k)) = true.
Proof.
  intros (p & X & E)%has_person_true N. apply existsb_exists. exists p. rewrite <- list_elem_of_In. cbn. rewrite filter_elem. split; [|by apply Z.eqb_eq].
  split; [done|]. apply negb_true_iff, Z.eqb_neq. congruence.
Qed.

Lemma delete_person_row_ok id db x db' : store_inv db -> id <> 1 -> delete_person_row id db = Ok (x, db') ->
  store_inv db' /\ guarantee db db' /\ db'.(memory_sources).(rows) ⊆ db.(memory_sources).(rows).
Proof.
  intros I N. unfold delete_person_row. destruct (delete_memories _ db) as [[n db1]|] eqn:D; [|done]. cbn [result_bind]. intros [= <- <-].
  pose proof (kept_row _ _ _ _ D) as KR. pose proof (delete_memories_ok _ _ _ _ I D) as [[I1 P] G].
  set (db2 := set_people_tables _ _ _ _ _).
  assert (HP : forall other, has_person other db1 = true -> other <> id -> has_person other db2 = true) by (intros; by apply has_person_without).
  split_and!; [split; [by apply (memory_inv_same db1)|]|exact G|by injection D as _ <-; intros y [Y _]%filter_elem].
  assert (NO : forall i, i <> id -> names_of i db2 = names_of i db1).
  { intros i J. unfold names_of. cbn. apply filter_filter. intros y Y. breflect. apply negb_true_iff, Z.eqb_neq. congruence. }
  assert (NI : names_of id db2 = []).
  { destruct (names_of id db2) as [|y l] eqn:E; [done|]. assert (y ∈ names_of id db2) as [Y Z]%names_of_elem by (rewrite E; left).
    cbn in Y. apply filter_elem in Y as [_ Y]. apply negb_true_iff, Z.eqb_neq in Y. done. }
  pose proof (pp_all_named _ _ P) as PA. pose proof (pp_primary _ _ P) as PP.
  destruct P as [P1 P2 P3 P4 P5 P6 P7 P8 P9 P10 P11 P12 P13 P14 P15]. split; cbn [rows people person_names voice_signatures memories db2 set_people_tables].
  - by apply filter_NoDup.
  - by apply filter_Forall.
  - apply HP; [done|congruence].
  - by apply filter_Forall.
  - by apply filter_Forall.
  - eapply Z.le_trans; [|exact P6]. unfold zlen. apply inj_le. apply filter_length_le.
  - apply Forall_forall. intros m M. rewrite Forall_forall in P7. apply HP; [by apply P7|]. apply KR in M as [_ M]. by breflect.
  - apply Forall_forall. intros v [V1 V2]%filter_elem. rewrite Forall_forall in P8. apply HP; [by apply P8|]. by breflect.
  - apply Forall_forall. intros v [V1 V2]%filter_elem. rewrite Forall_forall in P9. apply HP; [by apply P9|]. by breflect.
  - by apply filter_Forall.
  - by apply filter_NoDup.
  - by apply filter_NoDup.
  - by apply filter_Forall.
  - intros i H. destruct (decide (i = id)) as [->|J]; [by rewrite NI in H|]. rewrite NO in * by done. auto.
  - intros p [X Y]%filter_elem Q1 Q2. breflect. rewrite NO by done. by apply PA.
Qed.

(** What a merge moves. *)
Lemma move_memories_ok from into db x db' : store_inv db -> has_person into db = true -> move_memories from into db = Ok (x, db') ->
  store_inv db' /\ evolves db db' /\ db'.(people) = db.(people) /\ db'.(memory_sources) = db.(memory_sources).
Proof.
  intros [[T R] P] H [= <- <-]. set (f := fun m : memory_row => if m_subject_person_id m =? from then MemoryRow m into else m).
  assert (F : forall m, m_columns (f m) = m_columns m) by (intros m; unfold f; by destruct (_ =? _)).
  assert (EL : forall m', m' ∈ map f db.(memories).(rows) -> exists m, m ∈ db.(memories).(rows) /\ m' = f m)
    by (intros m' (m & -> & M)%list_elem_of_fmap; by exists m).
  assert (KEYS : map (fun m : memory_row => m_id m) (map f db.(memories).(rows)) = map (fun m : memory_row => m_id m) db.(memories).(rows)).
  { rewrite map_map. apply map_ext. intros m. by rewrite F. }
  assert (HM : forall id, existsb (fun r : memory_row => m_id r =? id) (map f db.(memories).(rows)) = has_memory id db).
  { intros id. unfold has_memory. clear -F. induction (rows (memories db)) as [|m l IH]; cbn; [done|]. by rewrite F, IH. }
  assert (SJ : forall m, m_subject_person_id (f m) = into \/ m_subject_person_id (f m) = m_subject_person_id m)
    by (intros m; unfold f; destruct (_ =? _); auto).
  split_and!; try done; [split; [split|]|].
  - destruct T as [K I S SU SI SM SR IT]. split; cbn; try done; fold f.
    + by rewrite KEYS.
    + apply Forall_forall. intros m' (m & M & ->)%EL. rewrite F. rewrite Forall_forall in I. by apply I.
    + apply Forall_forall. intros m' (m & M & ->)%EL. rewrite Forall_forall in SU. destruct (SJ m) as [->| ->]; [|by apply SU].
      apply has_person_true in H as (p & X & <-). pose proof (pp_ids _ _ P) as PB. rewrite Forall_forall in PB. specialize (PB _ X). cbv beta in PB. lia.
    + eapply Forall_impl; [exact SM|]. intros s X. unfold has_memory. cbn. fold f. by rewrite HM.
    + eapply Forall_impl; [exact IT|]. intros s [X1 X2]. split; [|done]. unfold has_memory. cbn. fold f. by rewrite HM.
  - cbn. fold f. apply Forall_forall. intros m' (m & M & ->)%EL. rewrite Forall_forall in R. destruct (R _ M) as [R1 R2 R3].
    split; rewrite F; done.
  - destruct P as [P1 P2 P3 P4 P5 P6 P7 P8 P9 P10 P11 P12 P13 P14 P15]. split; try done. cbn. fold f.
    apply Forall_forall. intros m' (m & M & ->)%EL. rewrite Forall_forall in P7. destruct (SJ m) as [->| ->]; [done|by apply P7].
  - split; [done|]. cbn. fold f. intros m' (m & M & ->)%EL _. exists m. split; [done|]. rewrite F. apply succeeds_refl.
Qed.

(** Changes of the signatures that refer to people who exist. *)
Lemma signatures_ok v k db : store_inv db -> Forall (fun r => has_person r.(v_person_id) db = true) v.(rows) ->
  store_inv (set_key_check k (set_signatures v db)) /\ guarantee db (set_key_check k (set_signatures v db)).
Proof.
  intros [I P] F. split; [split; [by apply (memory_inv_same db)|]|by apply guarantee_same].
  destruct P as [P1 P2 P3 P4 P5 P6 P7 P8 P9 P10 P11 P12 P13 P14 P15]. by split.
Qed.

Lemma move_signatures_ok from into db x db' : store_inv db -> has_person into db = true -> move_signatures from into db = Ok (x, db') ->
  store_inv db' /\ evolves db db' /\ db'.(people) = db.(people) /\ db'.(memory_sources) = db.(memory_sources).
Proof.
  intros I H [= <- <-]. set (v := Table _ _). change (set_signatures v db) with (set_key_check db.(signature_key_check) (set_signatures v db)).
  destruct (signatures_ok v db.(signature_key_check) db I) as [I' [G _]]; [|done]. destruct I as [_ P]. pose proof (pp_signatures _ _ P) as S.
  apply Forall_forall. intros r (y & -> & Y)%list_elem_of_fmap. rewrite Forall_forall in S. by destruct (_ =? _); [|apply S].
Qed.

(** ** Calls *)

Lemma require_person_Ok id env n db b n' db' : require_person (M := Tx) id env n db = Ok (b, n', db') ->
  db' = db /\ exists p, p ∈ db.(people).(rows) /\ p.(p_id) = id /\ b = (p.(p_is_owner) =? 1).
Proof.
  unfold require_person. intros H. tx_inv H. split; [done|]. injection E0 as <-.
  match goal with X : ok_or _ _ = Ok _ |- _ => rename X into O end. unfold first_row in O. destruct (List.filter _ _) as [|p l] eqn:F; [done|].
  exists p. assert (p ∈ List.filter (fun p => p_id p =? id) (rows (people db))) as [X Y]%filter_elem by (rewrite F; left). breflect.
  cbn in O. by injection O as <-.
Qed.

Lemma try_map_made l k : try_map (fun n => match PersonName_new n.(pn_display) n.(pn_key) with
    | Ok n => Ok n
    | Err _ => Err invalid_database_error
    end) l = Ok k -> Forall made_name k.
Proof.
  revert k. induction l as [|y l IH]; intros k; cbn; [by intros [= <-]|]. destruct (PersonName_new _ _) as [x|] eqn:N; [|done]. cbn.
  destruct (try_map _ l) as [k'|]; [|done]. intros [= <-]. constructor; [eexists _, _; exact N|by apply IH].
Qed.

Lemma read_names_Ok id env n db l n' db' : read_names (M := Tx) id env n db = Ok (l, n', db') -> db' = db /\ Forall made_name l.
Proof. unfold read_names. intros H. tx_inv H. split; [done|]. by eapply try_map_made. Qed.

Lemma read_person_Ok id env n db p n' db' : read_person (M := Tx) id env n db = Ok (p, n', db') -> db' = db.
Proof.
  unfold read_person. intros H. tx_inv H.
  match goal with X : read_names _ _ _ _ = Ok _ |- _ => apply read_names_Ok in X as [-> _] end. done.
Qed.

Ltac sql_ints := repeat match goal with X : sqlite_integer _ = Ok _ |- _ => apply sqlite_integer_Ok in X; subst end.

(** Read what a transaction of people read. *)
Ltac people_reads :=
  repeat match goal with
  | X : require_person _ _ _ _ = Ok _ |- _ => apply require_person_Ok in X as (-> & ?)
  | X : read_person _ _ _ _ = Ok _ |- _ => apply read_person_Ok in X as ->
  | X : read_names _ _ _ _ = Ok _ |- _ => apply read_names_Ok in X as (-> & ?)
  end; sql_ints.

Lemma create_person_safe p : made_name p.(new_name) -> harmless (create_person MIGRATIONS p).
Proof.
  intros MN. apply harmless_bind; [apply connection_harmless|]. intros _. apply harmless_transaction.
  intros env n db a n' db' [I P] H. unfold create_person_in, insert_name in H. tx_inv H. people_reads. breflect.
  match goal with X : Ok (zlen _) = Ok _ |- _ => injection X as <- end.
  match goal with X : insert_person_row _ _ _ = Ok _ |- _ => apply insert_person_ok in X as (P1 & N1 & M1); [|done|done] end.
  match goal with X : insert_name_row _ _ _ _ = Ok _ |- _ => apply (insert_name_ok _ _ _ _ _ _ _ P1) in X as (P2 & M2 & _ & N2); [|done..] end.
  split; [split|].
  - apply (memory_inv_same db); [exact (same_memories_trans _ _ _ M1 M2)|done].
  - by eapply people_ok_named.
  - apply guarantee_same. exact (same_memories_trans _ _ _ M1 M2).
Qed.

Lemma add_name_safe id name : made_name name -> harmless (add_name MIGRATIONS id name).
Proof.
  intros MN. apply harmless_bind; [apply connection_harmless|]. intros _. apply harmless_transaction.
  intros env n db a n' db' [I P] H. unfold add_name_in, insert_name, has_name_key in H. tx_inv H. people_reads.
  match goal with X : Ok (next_ordinal _ _) = Ok _ |- _ => injection X as <- end.
  pose proof (next_ordinal_spec (PersonId_get id) db) as (O1 & _ & O3).
  match goal with X : insert_name_row _ _ _ _ = Ok _ |- _ => apply (insert_name_ok _ _ _ _ _ _ _ P) in X as (P2 & M2 & _); [|done..] end.
  split; [split; [by apply (memory_inv_same db)|done]|by apply guarantee_same].
Qed.

Lemma rename_safe id name : made_name name -> harmless (rename MIGRATIONS id name).
Proof.
  intros MN. apply harmless_bind; [apply connection_harmless|]. intros _. apply harmless_transaction.
  intros env n db a n' db' [I P] H. unfold rename_in in H. tx_inv H. people_reads.
  match goal with X : Ok (tt, _) = Ok _ |- _ => injection X as _ <- end.
  match goal with X : upsert_primary _ _ _ = Ok _ |- _ => apply upsert_primary_ok in X as (P2 & M2 & _); [|apply drop_names_ok; [done|]|done] end.
  2:{ intros y Y. rewrite Y. by rewrite andb_false_r. }
  match goal with X : update_people _ _ _ = Ok _ |- _ => apply people_update_ok in X as (P3 & M3 & _); [|done|done] end.
  pose proof (same_memories_trans _ _ _ M2 M3) as M4. split; [split; [by apply (memory_inv_same db)|done]|by apply guarantee_same].
Qed.

Lemma mark_mature_safe id : harmless (mark_mature MIGRATIONS id).
Proof.
  apply harmless_bind; [apply connection_harmless|]. intros _. apply harmless_transaction.
  intros env n db a n' db' [I P] H. unfold mark_mature_in in H. tx_inv H. people_reads.
  match goal with X : update_people _ _ _ = Ok _ |- _ => apply people_update_ok in X as (P3 & M3 & _); [|done|done] end.
  split; [split; [by apply (memory_inv_same db)|done]|by apply guarantee_same].
Qed.

(** Whoever is not the owner is not the person 1. *)
Lemma not_owner db p : people_ok db -> p ∈ db.(people).(rows) -> (p.(p_is_owner) =? 1) = false -> p.(p_id) <> 1.
Proof. intros P X E. breflect. pose proof (pp_single _ _ P) as S. rewrite Forall_forall in S. specialize (S _ X). cbv beta in S. tauto. Qed.

Lemma delete_person_safe id : harmless (delete_person MIGRATIONS id).
Proof.
  apply harmless_bind; [apply connection_harmless|]. intros _. apply harmless_transaction.
  intros env n db a n' db' I H. unfold delete_person_in in H. tx_inv H. people_reads.
  match goal with X : exists p, _ |- _ => destruct X as (p & X & E1' & E2') end. symmetry in E2'.
  apply delete_person_row_ok in K0 as (I' & G & _); [done|done|]. rewrite <- E1'. eapply not_owner; eauto; apply I.
Qed.

Lemma move_names_ok into names : Forall made_name names -> forall env n db x n' db', store_inv db ->
  move_names into names env n db = Ok (x, n', db') ->
  store_inv db' /\ evolves db db' /\ db'.(people) = db.(people) /\ db'.(memory_sources) = db.(memory_sources).
Proof.
  induction 1 as [|name names MN F IH]; intros env n db x n' db' [I P] H; cbn [move_names] in H; unfold has_name_key, insert_name in H; tx_inv H.
  { split_and!; try done. apply evolves_refl. }
  - by eapply IH.
  - match goal with X : Ok (next_ordinal _ _) = Ok _ |- _ => injection X as <- end.
    pose proof (next_ordinal_spec into db) as (O1 & _ & O3).
    match goal with X : insert_name_row _ _ _ _ = Ok _ |- _ => apply (insert_name_ok _ _ _ _ _ _ _ P) in X as (P2 & M2 & PE & _); [|done..] end. pose proof M2 as [= _ S2 _ _ _ _ _].
    match goal with X : move_names _ _ _ _ _ = Ok _ |- _ => apply IH in X as (I3 & G3 & PE3 & S3); [|split; [by apply (memory_inv_same db)|done]] end.
    split_and!; [done| |congruence|congruence]. eapply evolves_trans; [|exact G3]. by apply guarantee_same.
Qed.

Lemma absorb_maturity_ok from into db n db' : store_inv db -> absorb_maturity from into db = Ok (n, db') ->
  store_inv db' /\ evolves db db' /\ db'.(memory_sources) = db.(memory_sources).
Proof.
  intros [I P] H. unfold absorb_maturity in H. apply people_update_ok in H as (P' & M & _); [|done|by intros p; destruct (existsb _ _)].
  pose proof M as [= _ S _ _ _ _ _]. split_and!; [split; [by apply (memory_inv_same db)|done]|by apply guarantee_same|done].
Qed.

Lemma merge_people_safe from into : harmless (merge_people MIGRATIONS from into).
Proof.
  apply harmless_bind; [apply connection_harmless|]. intros _. apply harmless_transaction.
  intros env n db a n' db' I H. unfold merge_people_in in H. tx_inv H. people_reads. breflect.
  match goal with X : exists p, p ∈ _ /\ p_id p = PersonId_get from /\ _ |- _ => destruct X as (p & PX & PI & PO) end.
  match goal with X : exists p, p ∈ _ /\ p_id p = PersonId_get into /\ _ |- _ => destruct X as (q & QX & QI & _) end.
  assert (HI : has_person (PersonId_get into) db = true) by (apply has_person_true; by exists q).
  assert (NF : PersonId_get from <> 1) by (rewrite <- PI; eapply not_owner; [apply I|done|congruence]).
  match goal with X : move_memories _ _ _ = Ok _ |- _ => apply move_memories_ok in X as (I1 & E1' & PE1 & S1); [|done|done] end.
  match goal with X : move_signatures _ _ _ = Ok _ |- _ => apply move_signatures_ok in X as (I2 & E2' & PE2 & S2); [|done|unfold has_person; by rewrite PE1] end.
  match goal with X : move_names _ _ _ _ _ = Ok _ |- _ => apply move_names_ok in X as (I3 & E3' & _ & S3); [|done|done] end.
  match goal with X : absorb_maturity _ _ _ = Ok _ |- _ => apply absorb_maturity_ok in X as (I4 & E4' & S4); [|done] end.
  match goal with X : delete_person_row _ _ = Ok _ |- _ => apply delete_person_row_ok in X as (I5 & [E5' _] & SUB); [|done|done] end.
  split; [done|]. split.
  - exact (evolves_trans _ _ _ E1' (evolves_trans _ _ _ E2' (evolves_trans _ _ _ E3' (evolves_trans _ _ _ E4' E5')))).
  - intros y Y _. left. apply SUB in Y. by rewrite S4, S3, S2, S1 in Y.
Qed.

(** ** Reading people *)

Lemma read_person_harmless id : harmless (read_person (M := op) id).
Proof.
  unfold read_person, read_names. repeat first [apply harmless_bind; [first [apply harmless_query | apply harmless_lift]|]; intros ? | apply harmless_lift].
  apply harmless_bind; [|intros ?; apply harmless_bind; [apply harmless_lift|intros ?; apply harmless_lift]].
  apply harmless_bind; [apply harmless_query|]. intros ?. apply harmless_lift.
Qed.

Lemma read_people_harmless ids : harmless (read_people (M := op) ids).
Proof.
  induction ids as [|id ids IH]; cbn [read_people]; [apply harmless_lift|]. apply harmless_bind; [apply read_person_harmless|]. intros ?.
  apply harmless_bind; [done|]. intros ?. apply harmless_lift.
Qed.

Lemma list_people_safe : harmless (list_people MIGRATIONS).
Proof.
  apply harmless_bind; [apply connection_harmless|]. intros _. apply harmless_bind; [apply harmless_query|]. apply read_people_harmless.
Qed.

Lemma get_person_safe id : harmless (get_person MIGRATIONS id).
Proof. apply harmless_bind; [apply connection_harmless|]. intros _. apply harmless_bind; [apply harmless_lift|]. apply read_person_harmless. Qed.

Lemma people_named_safe key : harmless (people_named MIGRATIONS key).
Proof.
  apply harmless_bind; [apply connection_harmless|]. intros _. apply harmless_bind; [apply harmless_query|]. intros ?. apply harmless_lift.
Qed.

(** ** Signatures *)

Lemma seal_Ok key aad plaintext env n db x n' db' : seal key aad plaintext env n db = Ok (x, n', db') -> db' = db.
Proof. unfold seal. destruct (env_nonce env n); [|done]. destruct (sig_seal _ _ _ _); [|done]. by intros [= _ _ ->]. Qed.

Lemma check_key_ok key env n db x n' db' : store_inv db -> check_key key env n db = Ok (x, n', db') ->
  store_inv db' /\ guarantee db db' /\ same_memories db db'.
Proof.
  intros I H. unfold check_key in H. apply tx_bind_Ok in H as (stored & m & d & Q & H). apply tx_query_Ok in Q as [[= <-] ->].
  destruct (signature_key_check db) as [[nonce ciphertext]|].
  - destruct (negb _); [by apply tx_lift_Ok in H as [? _]|]. destruct (PeopleStore.open _ _ _ _); [|by apply tx_lift_Ok in H as [? _]].
    destruct (bool_decide _); apply tx_lift_Ok in H as [? ->]; [|done]. split_and!; try done. apply guarantee_refl.
  - apply tx_bind_Ok in H as ([nonce ciphertext] & m1 & d1 & S & H). apply seal_Ok in S as ->. apply tx_execute_Ok in H.
    unfold insert_key_check in H. destruct (constraint _); [|done]. injection H as <- <-.
    destruct (signatures_ok db.(voice_signatures) (Some (nonce, ciphertext)) db I) as [I' G]; [apply I|]. done.
Qed.

Lemma verify_key_safe key : harmless (verify_key MIGRATIONS key).
Proof.
  apply harmless_bind; [apply connection_harmless|]. intros _. apply harmless_transaction. intros env n db a n' db' I H.
  by apply check_key_ok in H as (I' & G & _).
Qed.

Lemma add_signature_safe key person draft : harmless (add_signature MIGRATIONS key person draft).
Proof.
  apply harmless_bind; [apply connection_harmless|]. intros _. apply harmless_transaction. intros env n db a n' db' I H.
  unfold insert_signature_in in H. tx_inv H.
  match goal with X : check_key _ _ _ _ = Ok _ |- _ => apply check_key_ok in X as (I1 & G1 & M1); [|done] end.
  match goal with X : seal _ _ _ _ _ _ = Ok _ |- _ => apply seal_Ok in X as -> end.
  match goal with X : insert_signature_row _ _ _ _ _ _ _ = Ok _ |- _ => rename X into IS end.
  unfold insert_signature_row, next_key in IS. destruct (_ <? _); [|done]. cbn [result_bind] in IS.
  destruct (constraint _) as [[]|] eqn:CN; [|done]. apply constraint_Ok in CN. breflect. injection IS as <- <-.
  match goal with |- store_inv (set_signatures ?v ?d) /\ _ =>
    change (set_signatures v d) with (set_key_check d.(signature_key_check) (set_signatures v d));
    destruct (signatures_ok v d.(signature_key_check) d I1) as [I' [G J]] end.
  - apply Forall_app. split; [apply I1|]. by apply Forall_singleton.
  - split; [done|]. apply guarantee_same. exact (same_memories_trans _ _ _ M1 eq_refl).
Qed.

Lemma signatures_safe key model : harmless (signatures MIGRATIONS key model).
Proof.
  apply harmless_bind; [apply connection_harmless|]. intros _. apply harmless_transaction. intros env n db a n' db' I H.
  unfold read_signatures_in in H. tx_inv H. match goal with X : check_key _ _ _ _ = Ok _ |- _ => by apply check_key_ok in X as (I1 & G1 & _) end.
Qed.

Lemma delete_all_signatures_safe : harmless (delete_all_signatures MIGRATIONS).
Proof.
  apply harmless_bind; [apply connection_harmless|]. intros _. apply harmless_transaction. intros env n db a n' db' I H.
  apply tx_execute_Ok in H. injection H as <- <-. by apply signatures_ok.
Qed.

Lemma remove_signature_safe id : harmless (remove_signature MIGRATIONS id).
Proof.
  apply harmless_bind; [apply connection_harmless|]. intros _. apply harmless_transaction. intros env n db a n' db' I H.
  unfold delete_signature_in in H. tx_inv H. match goal with X : Ok (tt, _) = Ok _ |- _ => injection X as <- <- end.
  match goal with |- store_inv (set_signatures ?v ?d) /\ _ =>
    change (set_signatures v d) with (set_key_check d.(signature_key_check) (set_signatures v d)) end.
  apply signatures_ok; [done|]. cbn. apply filter_Forall. apply I.
Qed.
End People.

(** ** What is stored reads back

    A signature that is stored under a key decrypts under that key to the
    signature it was; its ciphertext is bound to the metadata it is read with. *)

(** ** Values and their bytes *)

Lemma from_le32_le32 l : Forall (fun x => 0 <= x < 2 ^ 32) l -> from_le32 (concat (map le32 l)) = l.
Proof.
  induction 1 as [|x l X F IH]; [done|]. cbn [map concat le32 app from_le32]. rewrite IH. f_equal.
  assert (x / 65536 = x / 256 / 256) as E1 by (by rewrite Z.div_div by lia). assert (x / 16777216 = x / 65536 / 256) as E2 by (by rewrite Z.div_div by lia).
  pose proof (Z.div_mod x 256 ltac:(lia)). pose proof (Z.div_mod (x / 256) 256 ltac:(lia)). pose proof (Z.div_mod (x / 65536) 256 ltac:(lia)).
  rewrite (Z.mod_small (x / 16777216)) by (split; [apply Z.div_pos; lia|apply Z.div_lt_upper_bound; lia]). lia.
Qed.

Lemma zlen_le32 l : zlen (concat (map le32 l)) = 4 * zlen l.
Proof. induction l as [|x l IH]; [done|]. cbn [map concat]. rewrite zlen_app, zlen_cons, IH. change (zlen (le32 x)) with 4. lia. Qed.

Lemma SignatureRole_parse_str r : SignatureRole_parse (SignatureRole_as_str r) = Some r.
Proof. by destruct r. Qed.

Section Signatures.
Context `{C : SignatureCrypto} {Laws : SignatureCryptoLaws C}.

(** A draft as [VoiceSignatureDraft::new] makes it of values that fit their
    types. *)
Record made_signature (d : VoiceSignatureDraft) : Prop := {
  ms_made : VoiceSignatureDraft_new d.(sd_model) d.(sd_role) d.(sd_embedding) d.(sd_speech_ms) d.(sd_created_at) d.(sd_source_session) = Ok d;
  ms_values : Forall (fun x => 0 <= x < 2 ^ 32) d.(sd_embedding);
  ms_speech : 0 <= d.(sd_speech_ms) <= u32_max;
  ms_created : 0 <= d.(sd_created_at).(millis);
  ms_session : 0 <= SessionId_get d.(sd_source_session);
}.

(** The store is used with a key: its check opens under it. *)
Definition bound_to (key : SignatureKey) (db : Database) : Prop :=
  exists nonce ciphertext, db.(signature_key_check) = Some (nonce, ciphertext)
    /\ PeopleStore.open key nonce KEY_CHECK_AAD ciphertext = Some KEY_CHECK_PLAINTEXT.

Lemma check_key_binds key env n db x n' db' : check_key key env n db = Ok (x, n', db') ->
  db'.(voice_signatures) = db.(voice_signatures) /\ bound_to key db'.
Proof using Laws.
  intros H. unfold check_key in H. apply tx_bind_Ok in H as (stored & m & d & Q & H). apply tx_query_Ok in Q as [[= <-] ->].
  destruct (signature_key_check db) as [[nonce ciphertext]|] eqn:K.
  - destruct (negb _); [by apply tx_lift_Ok in H as [? _]|]. destruct (PeopleStore.open _ _ _ _) as [p|] eqn:O; [|by apply tx_lift_Ok in H as [? _]].
    destruct (bool_decide _) eqn:B; apply tx_lift_Ok in H as [? ->]; [|done]. breflect. subst p. split; [done|]. by exists nonce, ciphertext.
  - apply tx_bind_Ok in H as ([nonce ciphertext] & m1 & d1 & S & H). unfold seal in S. destruct (env_nonce env m) as [o|]; [|done].
    destruct (sig_seal _ _ _ _) as [c|] eqn:SE; [|done]. injection S as <- <- _ <-. apply tx_execute_Ok in H. unfold insert_key_check in H.
    destruct (constraint _); [|done]. injection H as _ <-. split; [done|]. exists o, c. split; [done|]. by apply (sig_open_seal _ _ _ _ _ SE).
Qed.

(** A row sealed under a key decrypts under it. *)
Lemma sealed_row_decrypts key person draft row nonce : made_signature draft -> 1 <= PersonId_get person -> 0 <= row.(v_id) ->
  row.(v_role) = SignatureRole_as_str draft.(sd_role) -> row.(v_dimension) = zlen draft.(sd_embedding) -> row.(v_speech_ms) = draft.(sd_speech_ms) ->
  row.(v_created_at_ms) = draft.(sd_created_at).(millis) -> row.(v_source_session_id) = SessionId_get draft.(sd_source_session) ->
  row.(v_person_id) = PersonId_get person -> row.(v_nonce) = nonce -> zlen nonce = 12 -> zlen draft.(sd_embedding) <= u32_max ->
  sig_seal key.(key_bytes) nonce (signature_aad draft.(sd_model) draft.(sd_role) (zlen draft.(sd_embedding)))
    (concat (map le32 draft.(sd_embedding))) = Some row.(v_ciphertext) ->
  decrypt key draft.(sd_model) row = Ok {| signature_id := row.(v_id); signature_person := person; signature_draft := draft |}.
Proof using Laws.
  intros [M V S T N] P I ER ED ES ET EN EP EO L D SE. unfold decrypt, PeopleStore.open.
  rewrite ER, ED, ES, ET, EN, EP, EO, L, SignatureRole_parse_str. cbn [ok_or result_bind]. pose proof (zlen_nonneg draft.(sd_embedding)).
  replace ((0 <=? zlen (sd_embedding draft)) && (zlen (sd_embedding draft) <=? u32_max)) with true by lia. cbn [result_bind Z.eqb Pos.eqb].
  rewrite (sig_open_seal _ _ _ _ _ SE). cbn [ok_or result_bind]. rewrite zlen_le32, from_le32_le32 by done.
  rewrite (proj2 (Z.eqb_eq _ _)) by lia. cbn [negb].
  replace ((0 <=? sd_speech_ms draft) && (sd_speech_ms draft <=? u32_max)) with true by lia. cbn [result_bind].
  rewrite checked_timestamp_Ok, checked_unsigned_Ok by done. cbn [result_bind].
  replace (UnixTimestampMillis_raw (millis (sd_created_at draft))) with (sd_created_at draft) by (by destruct (sd_created_at draft)).
  replace (SessionId_new (SessionId_get (sd_source_session draft))) with (sd_source_session draft) by (by destruct (sd_source_session draft)).
  rewrite M. cbn [result_bind]. unfold person_id. rewrite checked_unsigned_Ok by lia. cbn [result_bind].
  unfold PersonId_new, checked_id. rewrite (proj2 (Z.eqb_neq _ _)) by lia. cbn [map_db result_bind]. rewrite checked_unsigned_Ok by done.
  cbn. by destruct person.
Qed.

(** C23. Signatures read back. When the transaction that adds a signature
    commits, one row is added to the database, with a ciphertext of the size of
    the embedding and a tag, and decrypting the row under the same key gives
    the signature that was added: the person, the model, the role and every
    value; and the store is bound to that key. *)
Theorem signatures_read_back key person draft env n db signature n' db'
  (well_made : made_signature draft) (known : 1 <= PersonId_get person) (keys : 0 <= db.(voice_signatures).(sequence))
  (commits : insert_signature_in key person draft env n db = Ok (signature, n', db')) :
  signature.(signature_person) = person /\ signature.(signature_draft) = draft /\
  exists row, db'.(voice_signatures).(rows) = db.(voice_signatures).(rows) ++ [row]
    /\ zlen row.(v_ciphertext) = 4 * zlen draft.(sd_embedding) + 16
    /\ decrypt key draft.(sd_model) row = Ok signature
    /\ bound_to key db'.
Proof using Laws.
  unfold insert_signature_in in commits. tx_inv commits.
  match goal with X : check_key _ _ _ _ = Ok _ |- _ => apply check_key_binds in X as [KC KB] end.
  match goal with X : seal _ _ _ _ _ _ = Ok _ |- _ => rename X into SE end.
  match goal with X : insert_signature_row _ _ _ _ _ _ _ = Ok _ |- _ => rename X into IS end.
  match goal with X : checked_unsigned _ = Ok _ |- _ => apply checked_unsigned_inv in X as [-> ?] end.
  match goal with X : Ok _ = Ok signature |- _ => injection X as <- end.
  match goal with X : (if _ then Ok _ else _) = Ok _ |- _ => destruct (zlen _ <=? u32_max) eqn:D; [injection X as <-|discriminate X] end.
  unfold sqlite_integer in *. repeat match goal with X : (if _ then Ok _ else _) = Ok _ |- _ => destruct (_ <=? i64_max) in X; [injection X as <-|discriminate X] end.
  unfold seal in SE. destruct (env_nonce _ _) as [o|]; [|done]. destruct (sig_seal _ _ _ _) as [c|] eqn:SS; [|done]. injection SE as -> -> _ ->.
  unfold insert_signature_row, next_key in IS. destruct (_ <? _); [|done]. cbn [result_bind] in IS.
  destruct (constraint _) as [[]|] eqn:CN; [|done]. apply constraint_Ok in CN. unfold signature_check in CN. cbn in CN. breflect. injection IS as <- <-.
  cbn. rewrite KC in *. split; [done|]. split; [done|]. eexists. split_and!; [reflexivity| | |exact KB].
  - cbn. lia.
  - match goal with |- decrypt _ _ ?r = _ => apply (sealed_row_decrypts key person draft r l) end; try done; cbn; lia.
Qed.
End Signatures.

(** ** What the ciphertext is bound to *)

Lemma app_split_at {A} (x : A) l l' r r' : x ∉ l -> x ∉ l' -> l ++ x :: r = l' ++ x :: r' -> l = l' /\ r = r'.
Proof.
  revert l'. induction l as [|a l IH]; intros [|b l']; cbn.
  - by intros _ _ [= ->].
  - rewrite not_elem_of_cons. intros _ [N _] [= -> _]. done.
  - rewrite not_elem_of_cons. intros [N _] _ [= -> _]. done.
  - rewrite !not_elem_of_cons. intros [_ N] [_ N'] [= -> E]. by destruct (IH l' N N' E) as [-> ->].
Qed.

Lemma le32_inj a b : 0 <= a < 2 ^ 32 -> 0 <= b < 2 ^ 32 -> le32 a = le32 b -> a = b.
Proof.
  intros A B E. assert (from_le32 (concat (map le32 [a])) = from_le32 (concat (map le32 [b]))) as F by (cbn [map concat]; by rewrite E).
  rewrite !from_le32_le32 in F by (by apply Forall_singleton). by injection F.
Qed.

Lemma fields_split (p a b c l a' b' c' l' : list Z) : 0 ∉ a -> 0 ∉ b -> 0 ∉ c -> 0 ∉ a' -> 0 ∉ b' -> 0 ∉ c' ->
  p ++ a ++ [0] ++ b ++ [0] ++ c ++ [0] ++ l = p ++ a' ++ [0] ++ b' ++ [0] ++ c' ++ [0] ++ l' -> a = a' /\ b = b' /\ c = c' /\ l = l'.
Proof.
  intros A B X A' B' X' E. apply app_inv_head in E. cbn [app] in E.
  apply app_split_at in E as [-> E]; [|done..]. apply app_split_at in E as [-> E]; [|done..]. by apply app_split_at in E as [-> ->].
Qed.

Lemma role_no_nul r : 0 ∉ utf8_encode (SignatureRole_as_str r).
Proof. apply (bool_decide_unpack _). destruct r; vm_compute; exact I. Qed.

Lemma role_bytes_inj r r' : utf8_encode (SignatureRole_as_str r) = utf8_encode (SignatureRole_as_str r') -> r = r'.
Proof.
  assert (forall r, head (utf8_encode (SignatureRole_as_str r)) = Some (match r with Anchor => 97 | Enrolment => 101 | Refinement => 114 end)) as H
    by (intros []; vm_compute; reflexivity).
  intros E. apply (f_equal head) in E. rewrite !H in E. by destruct r, r'.
Qed.

#[local] Strategy expand [signature_aad].

(** The metadata of a signature is bound to its ciphertext when the model's
    identifier and version have no NUL in them. *)
Lemma signature_aad_binds m m' r r' d d' : 0 <= d < 2 ^ 32 -> 0 <= d' < 2 ^ 32 ->
  Forall (fun s => 0 ∉ utf8_encode s) [model_id m; model_version m; model_id m'; model_version m'] ->
  signature_aad m r d = signature_aad m' r' d' ->
  utf8_encode m.(model_id) = utf8_encode m'.(model_id) /\ utf8_encode m.(model_version) = utf8_encode m'.(model_version) /\ r = r' /\ d = d'.
Proof.
  intros D D' F E. rewrite !Forall_cons in F. destruct F as (N1 & N2 & N3 & N4 & _).
  pose proof (role_no_nul r) as R. pose proof (role_no_nul r') as R'.
  destruct (fields_split SIGNATURE_DOMAIN _ _ _ (le32 d) _ _ _ (le32 d') N1 N2 R N3 N4 R' E) as (E1 & E2 & E3 & E4).
  split; [exact E1|]. split; [exact E2|]. split; [exact (role_bytes_inj _ _ E3)|exact (le32_inj _ _ D D' E4)].
Qed.

(** With a NUL it is not: two models share the metadata of every signature. *)
Lemma signature_aad_ambiguous : exists m m', m <> m'
  /\ SignatureModel_new m.(model_id) m.(model_version) = Ok m /\ SignatureModel_new m'.(model_id) m'.(model_version) = Ok m'
  /\ forall r d, signature_aad m r d = signature_aad m' r d.
Proof.
  exists {| model_id := lit "a"; model_version := [98; 0; 99] |}, {| model_id := [97; 0; 98]; model_version := lit "c" |}.
  split; [done|]. split; [vm_compute; reflexivity|]. split; [vm_compute; reflexivity|]. done.
Qed.

(** ** A signature is added to a new store *)

Definition tag_signatures : SignatureCrypto :=
  {| sig_digest b := b; sig_seal _ _ _ p := Some (p ++ repeat 0 16); sig_open _ _ _ c := Some (take (length c - 16) c) |}.

#[export] Instance tag_signatures_laws : SignatureCryptoLaws tag_signatures.
Proof.
  split; intros key nonce aad p c [= <-].
  - cbn. rewrite length_app. cbn. f_equal. rewrite Nat.add_sub. apply take_app_length.
  - by rewrite zlen_app.
Qed.

Definition sample_signature : VoiceSignatureDraft :=
  {| sd_model := {| model_id := lit "ecapa"; model_version := lit "1" |}; sd_role := Anchor; sd_embedding := [0x3f800000; 0x80000000];
     sd_speech_ms := 900; sd_created_at := UnixTimestampMillis_raw 5; sd_source_session := SessionId_new 3 |}.

Lemma signatures_read_back_witness : exists signature n db',
  insert_signature_in (C := tag_signatures) {| key_bytes := [1] |} PersonId_OWNER sample_signature
    {| env_failure _ := None; env_nonce _ := Some (repeat 7 12) |} 0%nat (initialized [lit "one"; lit "two"]) = Ok (signature, n, db')
  /\ signature.(signature_draft) = sample_signature
  /\ exists row, db'.(voice_signatures).(rows) = [row] /\ decrypt (C := tag_signatures) {| key_bytes := [1] |} sample_signature.(sd_model) row = Ok signature.
Proof.
  destruct (insert_signature_in (C := tag_signatures) {| key_bytes := [1] |} PersonId_OWNER sample_signature
    {| env_failure _ := None; env_nonce _ := Some (repeat 7 12) |} 0%nat (initialized [lit "one"; lit "two"])) as [[[signature n] db']|e] eqn:E;
    [|vm_compute in E; discriminate E].
  exists signature, n, db'. split; [reflexivity|].
  assert (made_signature sample_signature) as M by (split; [vm_compute; reflexivity|apply Forall_cons; split; [|apply Forall_cons; split; [|apply Forall_nil; exact I]]; lia|cbn; ints|cbn; lia|cbn; lia]).
  destruct (signatures_read_back (C := tag_signatures) _ PersonId_OWNER sample_signature _ _ (initialized [lit "one"; lit "two"]) _ _ _ M
    ltac:(cbn; lia) ltac:(cbn; lia) E) as (_ & D & row & R & _ & X & _).
  split; [exact D|]. exists row. split; [exact R|exact X].
Defined.
