(* ===== verification/MemoryStoreClaims.v ===== *)
(** * Controlled memory: what the store guarantees

    Any number of connections, in one process or several, make any calls of the
    store on a new database; their accesses interleave in any order, statements
    fail, and processes die between accesses. What is then true of every
    database the file goes through. *)

From S2P Require Import Prelude RustStr Errors MemoryProtocol MemoryRetrieval Database MemoryStore PeopleStore MemorySchema MemoryStoreProofs MemoryRely MemoryStoreSafety MemoryStoreCalls MemoryStoreRetrieval PeopleStoreSafety.

Section Claims.
Context (Sha : Sha256) (U : UnicodeTables) (C : SignatureCrypto) (one two : rstr).

Abbreviation MIGRATIONS := [one; two].

(** Every call, on values their constructors return. *)
Inductive callable : forall A : Type, prog A -> Prop :=
| call_create d : made_draft d -> callable _ (create MIGRATIONS d)
| call_list now : callable _ (list_records MIGRATIONS now)
| call_list_page now before limit : callable _ (list_page MIGRATIONS now before limit)
| call_inspect id now : callable _ (inspect MIGRATIONS id now)
| call_inspect_with_sources id now : callable _ (inspect_with_sources MIGRATIONS id now)
| call_inspect_bounded id now limit : callable _ (inspect_bounded MIGRATIONS id now limit)
| call_edit id patch : made_patch patch -> callable _ (edit MIGRATIONS id patch)
| call_approve id a : made_approval a -> callable _ (approve MIGRATIONS id a)
| call_set_pinned id expected pin at_ : callable _ (set_pinned MIGRATIONS id expected pin at_)
| call_prune_expired now : callable _ (prune_expired MIGRATIONS now)
| call_expire_session session at_ : callable _ (expire_session MIGRATIONS session at_)
| call_retrieve turn query now items bytes request subject cancellation :
    MemoryRetrievalRequest_new turn query now items bytes = Ok request ->
    callable _ (retrieve MIGRATIONS {| request_turn_id := request.(request_turn_id); MemoryProtocol.query := request.(MemoryProtocol.query);
                                       MemoryProtocol.now := request.(MemoryProtocol.now); maximum_items := request.(maximum_items);
                                       maximum_bytes := request.(maximum_bytes); request_subject := subject |} cancellation)
| call_provider p turn query clock cancellation started :
    callable _ (provider_retrieve MIGRATIONS p turn query clock cancellation started)
| call_delete id expected : callable _ (delete MIGRATIONS id expected)
| call_list_people : callable _ (list_people MIGRATIONS)
| call_get_person id : callable _ (get_person MIGRATIONS id)
| call_people_named key : callable _ (people_named MIGRATIONS key)
| call_create_person p : made_name p.(new_name) -> callable _ (create_person MIGRATIONS p)
| call_add_name id name : made_name name -> callable _ (add_name MIGRATIONS id name)
| call_rename id name : made_name name -> callable _ (rename MIGRATIONS id name)
| call_mark_mature id : callable _ (mark_mature MIGRATIONS id)
| call_delete_person id : callable _ (delete_person MIGRATIONS id)
| call_merge_people from into : callable _ (merge_people MIGRATIONS from into)
| call_verify_key key : callable _ (verify_key MIGRATIONS key)
| call_add_signature key person draft : callable _ (add_signature MIGRATIONS key person draft)
| call_signatures key model : callable _ (signatures MIGRATIONS key model)
| call_remove_signature id : callable _ (remove_signature MIGRATIONS id)
| call_reset_voice_signatures : callable _ (delete_all_signatures MIGRATIONS).

Context {ShaLaws : Sha256Laws Sha}.

Lemma harmless_safe {A} (p : op A) db : harmless p -> safe store_inv evolves guarantee p (fun _ _ => True) db.
Proof. intros H. eapply safe_mono; [|apply H]. done. Qed.

Lemma retrieval_request_limits turn query now items bytes request : MemoryRetrievalRequest_new turn query now items bytes = Ok request ->
  0 <= request.(maximum_items) /\ 0 <= request.(maximum_bytes) <= u64_max.
Proof.
  unfold MemoryRetrievalRequest_new. intros (q & _ & H)%result_bind_Ok. destruct (negb _) eqn:E1; [done|]. destruct (negb _) eqn:E2 in H; [done|].
  injection H as <-. unfold MAX_MEMORY_RETRIEVAL_BYTES in *. breflect. cbn. ints.
Qed.

Lemma provider_safe p turn query clock cancellation started :
  harmless (provider_retrieve (U := U) MIGRATIONS p turn query clock cancellation started).
Proof using ShaLaws.
  unfold provider_retrieve. destruct started; cbn [negb]; [|apply harmless_lift]. apply harmless_bind; [apply harmless_lift|]. intros t.
  destruct (MemoryRetrievalRequest_new _ _ _ _ _) as [request|] eqn:R.
  - apply retrieval_request_limits in R as [MI MB]. by apply retrieve_safe.
  - apply (harmless_lift (Err _)).
Qed.

Lemma callable_safe (A : Type) (p : prog A) db : callable A p -> safe store_inv evolves guarantee p (fun _ _ => True) db.
Proof using ShaLaws.
  intros H. destruct H; apply harmless_safe; auto using create_safe, list_records_safe, list_page_safe, inspect_safe, inspect_with_sources_safe,
    inspect_bounded_safe, edit_safe, approve_safe, set_pinned_safe, prune_expired_safe, expire_session_safe, delete_safe, list_people_safe,
    get_person_safe, people_named_safe, create_person_safe, add_name_safe, rename_safe, mark_mature_safe, delete_person_safe,
    merge_people_safe, verify_key_safe, add_signature_safe, signatures_safe, remove_signature_safe, delete_all_signatures_safe, provider_safe.
  apply retrieval_request_limits in H as [MI MB]. by apply retrieve_safe.
Qed.

(** A run of the store from a new database. *)
Definition store_run : list Database -> world -> Prop := run callable (World (initialized MIGRATIONS) []).

Lemma initialized_inv : store_inv (initialized MIGRATIONS).
Proof.
  split; [split|]; [split; cbn; try done; try constructor|constructor|].
  split; cbn; try done; try (by repeat constructor).
  - apply NoDup_singleton.
  - intros p. rewrite list_elem_of_singleton. by intros ->.
Qed.

Lemma initialized_ok : world_ok store_inv evolves guarantee (World (initialized MIGRATIONS) []).
Proof. split; [apply initialized_inv|constructor]. Qed.

Lemma store_run_ok history v : store_run history v ->
  world_ok store_inv evolves guarantee v /\ Forall store_inv history /\ (exists past, history = v.(database) :: past) /\
  forall i j a b, (i <= j)%nat -> history !! i = Some b -> history !! j = Some a -> evolves a b.
Proof using ShaLaws.
  intros R. eapply run_ok; [apply evolves_refl|apply evolves_trans|apply guarantee_evolves|apply callable_safe|apply initialized_ok|exact R].
Qed.

(** ** Revisions *)

Lemma evolves_version a b (m m' : memory_row) : store_inv a -> store_inv b -> evolves a b -> m ∈ a.(memories).(rows) -> m' ∈ b.(memories).(rows) ->
  m_id m = m_id m' -> succeeds m m'.
Proof.
  intros [[T _] _] _ [_ E] M M' I. pose proof (tb_ids _ T) as B. rewrite Forall_forall in B. specialize (B _ M). cbv beta in B.
  destruct (E m' M' ltac:(lia)) as (m0 & M0 & S). assert (m0 = m) as -> by (eapply row_unique; [exact T|done|done|destruct S; congruence]). done.
Qed.

(** C6. A revision identifies one version of a memory. However calls interleave
    and fail, two databases of a run that have the same memory at the same
    revision agree on every column of it but the two of its last use and the
    person it is about, which a merge of people changes; and its revision never
    goes back. So a change guarded by the revision a client has seen applies to
    what the client has seen, these three columns apart. *)
Theorem revisions_identify_versions history v i j earlier later (m m' : memory_row)
  (from_new : store_run history v) (order : (i <= j)%nat)
  (at_later : history !! i = Some later) (at_earlier : history !! j = Some earlier)
  (before : m ∈ earlier.(memories).(rows)) (after : m' ∈ later.(memories).(rows)) (same : m_id m = m_id m') :
  m_revision m <= m_revision m' /\ (m_revision m = m_revision m' -> version m = version m').
Proof using ShaLaws.
  destruct (store_run_ok _ _ from_new) as (_ & F & _ & E). rewrite Forall_forall in F.
  pose proof (E i j _ _ order at_later at_earlier) as EV.
  assert (succeeds m m') as [_ S].
  { eapply evolves_version; [| |exact EV|done..]; apply F; by eapply list_elem_of_lookup_2. }
  destruct S as [S|S]; [split; [lia|intros; lia]|]. split; [|done]. apply (f_equal m_revision) in S. cbn in S. lia.
Qed.

(** ** Approvals *)

(** An approval is for a candidate as it was at an earlier moment of the run. *)
Definition approval_seen (history : list Database) (i : nat) (a : source_row) : Prop :=
  exists j db (m : memory_row), (i < j)%nat /\ history !! j = Some db /\ m ∈ db.(memories).(rows) /\ m_id m = a.(s_memory_id)
    /\ a.(s_approved_revision) = Some (m_revision m) /\ m_state m = lit "candidate"
    /\ a.(s_content_digest) = Some (content_digest (m_content m)).

Lemma approvals_seen history v : store_run history v -> forall i db a, history !! i = Some db ->
  a ∈ db.(memory_sources).(rows) -> is_approval a = true -> approval_seen history i a.
Proof using ShaLaws.
  intros R. pose proof R as R0. induction R as [|history v v' R IH S].
  - intros [|i] db a; cbn; [|done]. intros [= <-]. cbn. by rewrite elem_of_nil.
  - specialize (IH R).
    assert (SHIFT : forall i a, approval_seen history i a -> approval_seen (v'.(database) :: history) (Datatypes.S i) a).
    { intros i a (j & d & m & L & J & X). exists (Datatypes.S j), d, m. split; [lia|]. done. }
    intros [|i] db a L A Q; [|apply SHIFT; by eapply IH]. cbn in L. injection L as <-.
    destruct (store_run_ok _ _ R) as (W & _ & (past & P) & _).
    destruct (world_step_ok store_inv evolves guarantee evolves_refl evolves_trans guarantee_evolves callable callable_safe _ _ W S) as [_ G].
    assert (OLD : a ∈ v.(database).(memory_sources).(rows) -> approval_seen (v'.(database) :: history) 0 a).
    { intros X. destruct (IH 0%nat v.(database) a) as (j & d & m & J & K & Y); [by rewrite P|done|done|].
      exists (Datatypes.S j), d, m. split; [lia|]. done. }
    destruct G as [E|[_ J]]; [apply OLD; by rewrite <- E|]. destruct (J a A Q) as [X|(m & M & Y)]; [by apply OLD|].
    exists 1%nat, v.(database), m. split; [lia|]. split; [by rewrite P|done].
Qed.

(** C3. Approval binds content. However calls interleave and fail, an identity
    or relationship memory is active only with an approval, its latest, for
    exactly the content it has; and every approval on record was given for a
    candidate that the database held, at the revision and with the content the
    approval names. *)
Theorem approvals_bind_content history v (from_new : store_run history v) :
  (forall m : memory_row, m ∈ v.(database).(memories).(rows) -> m_state m = lit "active" ->
     m_kind m = lit "identity" \/ m_kind m = lit "relationship" -> approved m (approvals_of (m_id m) v.(database))) /\
  (forall a, a ∈ v.(database).(memory_sources).(rows) -> is_approval a = true -> approval_seen history 0 a).
Proof using ShaLaws.
  destruct (store_run_ok _ _ from_new) as ([[[_ R] _] _] & _ & (past & P) & _). split.
  - intros m M S K. rewrite Forall_forall in R. destruct (ro_typed _ _ (R _ M)) as (k & st & ret & T & A). apply A.
    + pose proof (ty_kind _ _ _ _ T) as E. destruct k; try done; rewrite E in K; by destruct K.
    + pose proof (ty_state _ _ _ _ T) as E. destruct st; try done; by rewrite E in S.
  - intros a A Q. eapply approvals_seen; [done|by rewrite P|done|done].
Qed.

(** ** Reading back *)

Lemma MemoryRecord_new_approved id d st up pin rev ap used reason r : MemoryRecord_new id d st up pin rev ap used reason = Ok r ->
  requires_approval (record_kind r) = true -> r.(record_state) = State_Active ->
  exists e, r.(approval) = Some e /\ e.(evidence_digest) = content_digest (record_content r).
Proof.
  intros H. pose proof (MemoryRecord_new_Ok _ _ _ _ _ _ _ _ _ _ H) as ->. unfold MemoryRecord_new in H. cbn. intros Q ->.
  unfold record_kind in Q. cbn in Q. apply result_bind_Ok in H as (_ & _ & H).
  repeat match type of H with (if ?b then _ else _) = _ => destruct b eqn:?; [done|] end. breflect.
  destruct ap as [e|]; [|by rewrite Q in *]. exists e. split; [done|]. cbn in *. breflect. done.
Qed.

Lemma row_to_record_approved j r : row_to_record j = Ok r -> requires_approval (record_kind r) = true -> r.(record_state) = State_Active ->
  exists e, r.(approval) = Some e /\ e.(evidence_digest) = content_digest (record_content r).
Proof.
  unfold row_to_record. intros H.
  repeat match type of H with result_bind _ _ = Ok _ => apply result_bind_Ok in H; destruct H as (? & _ & H) end.
  rewrite convert_Ok in H. by eapply MemoryRecord_new_approved.
Qed.

Lemma try_map_total {A B E} (f : A -> result B E) l : (forall a, a ∈ l -> exists b, f a = Ok b) ->
  exists k, try_map f l = Ok k /\ zlen k = zlen l.
Proof.
  induction l as [|a l IH]; intros H; cbn; [by exists []|]. destruct (H a) as [b ->]; [left|]. cbn.
  destruct IH as (k & -> & L); [intros x X; apply H; by right|]. cbn. eexists. split; [done|]. rewrite !zlen_cons. lia.
Qed.

Lemma record_rows_all db : store_inv db -> zlen (record_rows (fun _ => true) db) = zlen db.(memories).(rows).
Proof.
  intros [[T R] _]. unfold record_rows. rewrite (List.filter_true _ : List.filter (fun _ : memory_row => true) (rows (memories db)) = rows (memories db)).
  assert (F : Forall (fun m => exists j, join_row db m = Some j) db.(memories).(rows)).
  { apply Forall_forall. intros m M. rewrite Forall_forall in R. destruct (row_reads db m T M (R _ M)) as (j & _ & J & _). by exists j. }
  clear T R. induction F as [|m l [j J] F IH]; cbn; [done|]. rewrite J, !zlen_cons. cbn in IH. lia.
Qed.

Lemma no_dangling db : store_inv db -> dangling db = 0.
Proof.
  intros [[T R] P].
  assert (Z : forall A (f : A -> bool) l, Forall (fun x => f x = true) l -> zlen (List.filter (fun x => negb (f x)) l) = 0).
  { intros A f l F. induction F as [|x l X F IH]; cbn; [done|]. by rewrite X. }
  unfold dangling. rewrite (Z _ (fun s => has_memory s.(s_memory_id) db)) by apply T.
  rewrite (Z _ (fun i => has_memory i.(i_memory_id) db)) by (eapply Forall_impl; [apply (tb_items _ T)|]; by intros i [? _]).
  rewrite (Z _ (fun i => has_trace i.(i_trace_id) db)) by (eapply Forall_impl; [apply (tb_items _ T)|]; by intros i [_ ?]).
  rewrite (Z _ (fun m => has_person m.(m_subject_person_id) db)) by apply P.
  rewrite (Z _ (fun n => has_person n.(pn_person_id) db)) by apply P.
  rewrite (Z _ (fun v => has_person v.(v_person_id) db)) by apply P. done.
Qed.



Lemma header_kept history v : store_run history v -> header v.(database) = header (initialized MIGRATIONS).
Proof using ShaLaws.
  intros R. pose proof R as R0. induction R as [|history v v' R IH S]; [done|]. specialize (IH R).
  destruct (store_run_ok _ _ R) as (W & _ & _ & _).
  destruct (world_step_ok store_inv evolves guarantee evolves_refl evolves_trans guarantee_evolves callable callable_safe _ _ W S) as [_ [->|[[[_ E] _] _]]];
    congruence.
Qed.

Lemma check_migrations_accepted env n db : quiet env -> header db = header (initialized MIGRATIONS) ->
  check_migrations (M := Tx) 0 MIGRATIONS env n db = Ok (tt, Datatypes.S (Datatypes.S n), db).
Proof.
  intros Q [= _ _ SM]. cbn [check_migrations].
  erewrite tx_bind_then by (apply query_quiet; [done|rewrite SM; cbn [List.find app fst snd fmap option_fmap option_map Z.eqb Z.add Pos.eqb Pos.add]; reflexivity]).
  rewrite bool_decide_eq_true_2 by done. cbn [negb].
  erewrite tx_bind_then by (apply query_quiet; [done|rewrite SM; cbn [List.find app fst snd fmap option_fmap option_map Z.eqb Z.add Pos.eqb Pos.add]; reflexivity]).
  rewrite bool_decide_eq_true_2 by done. done.
Qed.

(** A connection to such a database is accepted. *)
Lemma validate_database_accepted env n db : quiet env -> header db = header (initialized MIGRATIONS) -> dangling db = 0 ->
  exists n', validate_database MIGRATIONS (M := Tx) env n db = Ok (tt, n', db).
Proof.
  intros Q H D. pose proof H as [= AI UV SM]. unfold validate_database, read_user_version.
  erewrite tx_bind_then; [|erewrite tx_bind_then by (apply query_quiet; [done|rewrite AI; reflexivity]);
    rewrite Z.eqb_refl; cbn [negb]; erewrite tx_bind_then by (apply query_quiet; [done|rewrite UV; reflexivity]); reflexivity].
  cbn [negb Z.eqb SCHEMA_VERSION Pos.eqb]. unfold validate_migrations.
  erewrite tx_bind_then by (apply query_quiet; [done|rewrite SM; reflexivity]). change (negb (_ =? SCHEMA_VERSION)) with false. cbv iota.
  erewrite tx_bind_then by (apply (check_migrations_accepted env _ db Q H)). unfold foreign_key_failures.
  erewrite tx_bind_then by (apply query_quiet; [done|rewrite D; reflexivity]). by eexists.
Qed.

(** C15. The store stays usable. However calls interleave and fail, every
    database of a run is accepted by the checks a connection makes, and the
    listing reads every row of it back: no call leaves a memory that another
    cannot read. A record of a sensitive kind that reads as active carries the
    evidence of its approval. *)
Theorem stored_memories_readable history v env (from_new : store_run history v) (engine : quiet env) :
  (exists n, validate_database MIGRATIONS (M := Tx) env 0%nat v.(database) = Ok (tt, n, v.(database))) /\
  exists records, try_map row_to_record (order_by_id (record_rows (fun _ => true) v.(database))) = Ok records
    /\ zlen records = zlen v.(database).(memories).(rows)
    /\ Forall (fun r => requires_approval (record_kind r) = true -> r.(record_state) = State_Active ->
          exists e, r.(approval) = Some e /\ e.(evidence_digest) = content_digest (record_content r)) records.
Proof using ShaLaws.
  destruct (store_run_ok _ _ from_new) as ([I _] & _). split.
  { apply validate_database_accepted; [done|by eapply header_kept|by apply no_dangling]. }
  destruct (try_map_total row_to_record (order_by_id (record_rows (fun _ => true) v.(database)))) as (records & T & L).
  - intros j J. unfold order_by_id in J. rewrite sort_by_Permutation in J. apply record_rows_elem in J as (M & _ & J).
    destruct I as [[TB R] _]. rewrite Forall_forall in R. destruct (row_reads _ _ TB M (R _ M)) as (j' & r & J' & _ & X). exists r. congruence.
  - exists records. split; [done|]. split.
    + rewrite L, <- record_rows_all by done. unfold order_by_id, zlen. by rewrite sort_by_Permutation.
    + apply Forall_forall. intros r X. destruct (try_map_elem _ _ _ _ T X) as (j & _ & E). by eapply row_to_record_approved.
Qed.

Lemma storable_columns d : storable d -> exists k e s, retention_columns d.(draft_retention) = Ok (k, e, s).
Proof.
  intros D. pose proof (sb_session _ D) as S. unfold retention_columns. destruct (draft_retention d) as [t|x|t|]; cbn; try by eexists _, _, _.
  unfold sqlite_integer. rewrite (proj2 (Z.leb_le _ _) (S x eq_refl)). by eexists _, _, _.
Qed.

(** C17. What is created reads back. On every database of a run, the transaction
    of [create] commits for a draft about a person who is there, while keys are
    left and the engine does not fail: it adds one memory, under a key that no
    memory ever had, and the record read back is the draft itself, at revision
    1, waiting for approval if its kind is sensitive and active otherwise. *)
Theorem created_memories_read_back history v env d (from_new : store_run history v) (engine : quiet env) (draft : storable d)
  (subject : has_person (PersonId_get d.(draft_subject)) v.(database) = true)
  (room : v.(database).(memories).(sequence) < i64_max /\ v.(database).(memory_sources).(sequence) < i64_max) :
  let key := v.(database).(memories).(sequence) + 1 in
  exists n db', create_in d env 0%nat v.(database) = Ok (key, n, db')
    /\ (exists row : memory_row, db'.(memories).(rows) = v.(database).(memories).(rows) ++ [row] /\ m_id row = key)
    /\ Forall (fun earlier => Forall (fun m : memory_row => m_id m < key) earlier.(memories).(rows)) history
    /\ record_by_id key db' = Ok (Some {| record_id := MemoryId_raw key; record_draft := d;
         record_state := if requires_approval d.(draft_kind) then State_Candidate else State_Active;
         updated_at := d.(draft_created_at); pinned := false; revision := 1; approval := None;
         last_used_at := None; last_retrieval_reason := None |}).
Proof using ShaLaws.
  destruct (store_run_ok _ _ from_new) as ([I _] & F & (past & P) & E). intros key. destruct (storable_columns _ draft) as (k & e & s & RC).
  destruct (create_in_commits env 0 v.(database) d k e s) as (n & CM); try done; try apply room.
  exists n, (with_created d k e s v.(database)). split; [exact CM|]. split; [by eexists|]. split; [|by apply created_reads].
  apply Forall_forall. intros db X. pose proof X as (j & J)%list_elem_of_lookup. rewrite Forall_forall in F.
  destruct (E 0%nat j db v.(database)) as [[S _] _]; [lia|by rewrite P|done|]. destruct (F _ X) as [[T _] _].
  eapply Forall_impl; [apply (tb_ids _ T)|]. intros m B. cbv beta in B. unfold key. lia.
Qed.

(** C9. What a retrieval shows a turn. Whenever a retrieval commits on a
    database of a run, each of its items is a memory the database then holds:
    active, about the person asked for, not expired, with its content, and, if
    its kind is sensitive, approved as it stands; and the items keep within the
    limits of the request. *)
Theorem retrieval_shows_only_approved history v turn query_ now_ items bytes request0 subject cancellation env n r n' db'
  (from_new : store_run history v)
  (request_made : MemoryRetrievalRequest_new turn query_ now_ items bytes = Ok request0)
  (request := {| request_turn_id := request0.(request_turn_id); MemoryProtocol.query := request0.(MemoryProtocol.query);
                 MemoryProtocol.now := request0.(MemoryProtocol.now); maximum_items := request0.(maximum_items);
                 maximum_bytes := request0.(maximum_bytes); request_subject := subject |})
  (commits : retrieve_in request cancellation env n v.(database) = Ok (r, n', db')) :
  Forall (may_show db' request) r.(retrieved_items)
  /\ zlen r.(retrieved_items) <= items
  /\ foldr Z.add 0 (map (fun i => blen i.(item_content)) r.(retrieved_items)) <= bytes.
Proof using ShaLaws.
  destruct (store_run_ok _ _ from_new) as ([I _] & _). pose proof (retrieval_request_limits _ _ _ _ _ _ request_made) as [MI MB].
  apply retrieve_in_ok in commits as (_ & _ & S & L & B); [|done..]. split; [done|].
  unfold MemoryRetrievalRequest_new in request_made. apply result_bind_Ok in request_made as (q & _ & H).
  destruct (negb _); [done|]. destruct (negb _) in H; [done|]. by injection H as <-.
Qed.

(** ** People *)

Lemma first_person db p : people_ok db -> p ∈ db.(people).(rows) ->
  first_row (List.filter (fun q => q.(p_id) =? p.(p_id)) db.(people).(rows)) = Some p.
Proof.
  intros P X. unfold first_row. destruct (List.filter _ _) as [|q l] eqn:F.
  - exfalso. assert (p ∈ List.filter (fun q => q.(p_id) =? p.(p_id)) db.(people).(rows)) as Y by (apply filter_elem; by rewrite Z.eqb_refl).
    rewrite F in Y. by apply elem_of_nil in Y.
  - assert (q ∈ List.filter (fun q => q.(p_id) =? p.(p_id)) db.(people).(rows)) as [Y E]%filter_elem by (rewrite F; left). breflect.
    cbn. f_equal. eapply (NoDup_elem_eq p_id); [apply (pp_keys _ _ P)|done..].
Qed.

Lemma read_names_quiet id env n db : quiet env -> people_ok db ->
  exists names n', read_names (M := Tx) id env n db = Ok (names, n', db) /\ zlen names = zlen (names_of id db).
Proof.
  intros Q P. unfold read_names. erewrite tx_bind_then by (apply query_quiet; [done|reflexivity]).
  destruct (try_map_total (fun n => match PersonName_new (pn_display n) (pn_key n) with Ok n => Ok n | Err _ => @Err PersonName _ invalid_database_error end)
    (sort_by (fun a b => pn_ordinal a ?= pn_ordinal b) (names_of id db))) as (names & T & L).
  - intros x X. rewrite sort_by_Permutation in X. apply names_of_elem in X as [X _]. pose proof (pp_names _ _ P) as F. rewrite Forall_forall in F.
    destruct (F _ X) as [y ->]. by eexists.
  - exists names. eexists. cbn. rewrite T. split; [done|]. rewrite L. unfold zlen. by rewrite sort_by_Permutation.
Qed.

Lemma read_person_quiet env n db p : quiet env -> people_ok db -> p ∈ db.(people).(rows) ->
  exists person n', read_person (M := Tx) p.(p_id) env n db = Ok (person, n', db) /\ PersonId_get person.(person_id_of) = p.(p_id)
    /\ person.(person_is_owner) = (p.(p_id) =? 1) /\ (person.(person_names_of) = [] -> p.(p_id) = 1).
Proof.
  intros Q P X. unfold read_person. erewrite tx_bind_then by (apply query_quiet; [done|by rewrite first_person]).
  pose proof (pp_check _ _ P) as CK. rewrite Forall_forall in CK. pose proof (CK _ X) as CP. cbv beta in CP. unfold person_check in CP. breflect.
  pose proof (pp_ids _ _ P) as PB. rewrite Forall_forall in PB. specialize (PB _ X). cbv beta in PB.
  pose proof (pp_single _ _ P) as PS. rewrite Forall_forall in PS. specialize (PS _ X). cbv beta in PS.
  erewrite tx_bind_then by reflexivity.
  assert (exists mt, (if bool_decide (p_maturity p = lit "provisional") then Ok Provisional
     else if bool_decide (p_maturity p = lit "mature") then Ok Mature else @Err PersonMaturity _ invalid_database_error) = Ok mt) as (mt & MT).
  { match goal with Y : p_maturity p ∈ _ |- _ => rewrite !elem_of_cons, elem_of_nil in Y; destruct Y as [->|[->|[]]] end; by eexists; vm_compute. }
  erewrite tx_bind_then by (cbn -[lit]; rewrite MT; reflexivity).
  erewrite tx_bind_then by (cbn; unfold person_id; rewrite checked_unsigned_Ok by lia; cbn; unfold PersonId_new, checked_id;
    rewrite (proj2 (Z.eqb_neq _ _)) by lia; reflexivity).
  match goal with |- context [bind (read_names _) _ env ?k db] => destruct (read_names_quiet (p_id p) env k db Q P) as (names & n' & RN & L) end.
  erewrite tx_bind_then by exact RN. erewrite tx_bind_then by (cbn; rewrite checked_timestamp_Ok by lia; reflexivity).
  eexists _, _. split; [reflexivity|]. cbn. split; [done|]. split.
  - destruct (p_is_owner p =? 1) eqn:E1, (p_id p =? 1) eqn:E2; breflect; tauto.
  - intros ->. destruct (decide (p_id p = 1)) as [|N]; [done|]. exfalso. apply (pp_all_named _ _ P p X N N).
    destruct (names_of (p_id p) db); [done|]. rewrite zlen_cons in L. unfold zlen in L. cbn in L. lia.
Qed.

(** C13. People stay consistent. However calls interleave and fail, merges and
    deletions included, every database of a run has one owner, the person 1,
    and at most 256 people; every memory, name and signature belongs to someone
    who is there; no person has a name twice; and everyone reads back, with a
    name unless it is the owner. *)
Theorem people_stay_consistent history v env (from_new : store_run history v) (engine : quiet env) :
  let db := v.(database) in
  (exists owner, owner ∈ db.(people).(rows) /\ owner.(p_id) = 1 /\ forall p, p ∈ db.(people).(rows) -> p.(p_is_owner) = 1 <-> p = owner) /\
  zlen db.(people).(rows) <= MAX_PEOPLE /\ dangling db = 0 /\
  NoDup (map (fun n => (n.(pn_person_id), n.(pn_key))) db.(person_names)) /\
  forall p, p ∈ db.(people).(rows) -> exists person n, read_person (M := Tx) p.(p_id) env 0%nat db = Ok (person, n, db)
    /\ PersonId_get person.(person_id_of) = p.(p_id) /\ person.(person_is_owner) = (p.(p_id) =? 1)
    /\ (person.(person_names_of) = [] -> p.(p_id) = 1).
Proof using ShaLaws.
  destruct (store_run_ok _ _ from_new) as ([I _] & _). intros db. pose proof (proj2 I) as P. split_and!.
  - pose proof (pp_owner _ _ P) as (o & O & E)%has_person_true. exists o. split; [done|]. split; [done|]. intros p X.
    pose proof (pp_single _ _ P) as S. rewrite Forall_forall in S. rewrite (S _ X). split; [|by intros ->]. intros E'.
    eapply (NoDup_elem_eq p_id); [apply (pp_keys _ _ P)|done..|congruence].
  - apply P.
  - by apply no_dangling.
  - apply P.
  - intros p X. by apply read_person_quiet.
Qed.
End Claims.

(** ** The upgrade of an old file *)

Lemma rebuilt_sequence_bounds t : t.(sequence) <= rebuilt_sequence t /\ Forall (fun m => m.(m_id) <= rebuilt_sequence t) t.(rows).
Proof.
  unfold rebuilt_sequence. split; [lia|]. apply Forall_forall. intros m M.
  assert (m_id m <= foldr (fun m s => Z.max m.(m_id) s) 0 t.(rows)); [|lia].
  induction (rows t) as [|x l IH]; [by apply elem_of_nil in M|]. cbn. apply elem_of_cons in M as [->|M]; [lia|]. specialize (IH M). lia.
Qed.

(** An upgrade leaves a file that validates. *)
Lemma migrated_valid migrations d : stored_version (inl d) = Ok 1 -> validate_migrations_v1 migrations d = Ok tt ->
  dangling (migrated migrations d) = 0 -> validate_stored migrations (inr (migrated migrations d)) = Ok tt.
Proof.
  unfold stored_version, validate_migrations_v1, validate_stored, stored_version. cbn [stored_application_id stored_user_version application_id user_version migrated].
  intros V M D. destruct (negb (v1_application_id d =? _)); [done|]. clear V. cbn [result_bind].
  destruct (v1_schema_migrations d) as [|[k c] [|]] eqn:L; cbn -[migration_checksum] in M; try done.
  2: { rewrite !zlen_cons in M. destruct (negb _) eqn:E in M; [done|]. breflect. pose proof (zlen_nonneg l). lia. }
  destruct (k =? 1) eqn:K; [|by rewrite bool_decide_false in M]. cbn -[migration_checksum] in M. destruct (bool_decide _) eqn:B in M; [|done]. breflect.
  injection B as ->. cbn -[migration_checksum dangling]. rewrite L, D. cbn -[migration_checksum dangling]. rewrite K. change (1 =? Z.of_nat 0 + 1) with true. change (1 =? Z.of_nat 1 + 1) with false.
  change (zlen [_; _] =? SCHEMA_VERSION) with true. cbn -[migration_checksum dangling]. by rewrite !bool_decide_true by done.
Qed.

(** Nothing fails and the file is private. *)
Definition no_faults : Faults :=
  {| creating := None; opening := None; versioning := None; history_checking := None; disabling := None; upgrading := None;
     enabling := None; validating := None |}.

(** What the upgrade keeps. *)
Lemma migrated_keeps migrations d (db := migrated migrations d) : dangling db = 0 ->
  stored_version (inl d) = Ok 1 -> validate_migrations_v1 migrations d = Ok tt ->
  map m_columns db.(memories).(rows) = d.(v1_memories).(rows)
  /\ Forall (fun m => m.(m_subject_person_id) = PersonId_get PersonId_OWNER) db.(memories).(rows)
  /\ db.(memory_sources) = d.(v1_memory_sources) /\ db.(retrieval_traces) = d.(v1_retrieval_traces)
  /\ db.(retrieval_items) = d.(v1_retrieval_items)
  /\ d.(v1_memories).(sequence) <= db.(memories).(sequence)
  /\ Forall (fun m : memory_row => m_id m <= db.(memories).(sequence)) db.(memories).(rows)
  /\ db.(people).(rows) = [owner_row]
  /\ open migrations no_faults (Some 0x180, Some 0x180) id (inr db) = (Ok tt, inr db).
Proof.
  intros D V M. pose proof (migrated_valid _ _ V M D) as W. pose proof (rebuilt_sequence_bounds (v1_memories d)) as [S B]. split_and!; try done.
  - cbn. rewrite map_map. apply map_id.
  - cbn. by apply Forall_map, Forall_true.
  - cbn. by apply Forall_map.
  - unfold open. assert (stored_version (inr db) = Ok 2) as ->.
    { unfold stored_version in *. cbn in *. by destruct (negb _). }
    cbn -[validate_stored]. fold db in W. by rewrite W.
Qed.

(** A file that is, or may become, the upgrade of [d]. *)
Definition upgrading_of (migrations : list rstr) (d : DatabaseV1) (s : stored) : Prop :=
  s = inl d \/ s = inr (migrated migrations d) /\ dangling (migrated migrations d) = 0.

Lemma apply_version_2_either migrations f d s answer s' : upgrading_of migrations d s -> apply_version_2 migrations f s = (answer, s') ->
  upgrading_of migrations d s'.
Proof.
  unfold apply_version_2. intros H. destruct f; [by intros [= _ <-]|]. destruct (stored_version s) as [version|]; [|by intros [= _ <-]].
  destruct (negb _); [by intros [= _ <-]|]. destruct H as [->|[-> D]]; [|intros [= _ <-]; by right].
  destruct (negb _) eqn:D; intros [= _ <-]; [by left|]. breflect. by right.
Qed.

Lemma upgrade_either migrations f d s answer s' : upgrading_of migrations d s -> upgrade_to_version_2 migrations f s = (answer, s') ->
  upgrading_of migrations d s'.
Proof.
  unfold upgrade_to_version_2. intros H. destruct (attempt (disabling f) _); [|by intros [= _ <-]].
  destruct (apply_version_2 _ _ _) as [upgraded s1] eqn:A. intros [= _ <-]. by eapply apply_version_2_either.
Qed.

Lemma validate_stored_v1 migrations d : is_ok (validate_stored migrations (inl d)) = false.
Proof. unfold validate_stored. destruct (stored_version _); [|done]. cbn. by destruct (negb _). Qed.

(** C19. Opening an old file. Whichever steps fail, and whether or not another
    process upgrades the file meanwhile, [open] leaves a file of version 1 as it
    was or at version 2: then every memory is kept with every column and is
    about the owner, with its sources and its retrievals; the owner is the one
    person; no identifier that was ever given is given again; and the file can
    be opened. When [open] succeeds, the file is at version 2. *)
Theorem open_preserves_memories migrations faults modes d meanwhile answer file'
  (others : meanwhile (inl d) = inl d \/
            dangling (migrated migrations d) = 0 /\ meanwhile (inl d) = inr (migrated migrations d))
  (opened : open migrations faults modes meanwhile (inl d) = (answer, file')) :
  file' = inl d /\ is_ok answer = false \/
  exists db, file' = inr db
    /\ map m_columns db.(memories).(rows) = d.(v1_memories).(rows)
    /\ Forall (fun m => m.(m_subject_person_id) = PersonId_get PersonId_OWNER) db.(memories).(rows)
    /\ db.(memory_sources) = d.(v1_memory_sources) /\ db.(retrieval_traces) = d.(v1_retrieval_traces)
    /\ db.(retrieval_items) = d.(v1_retrieval_items)
    /\ d.(v1_memories).(sequence) <= db.(memories).(sequence)
    /\ Forall (fun m : memory_row => m_id m <= db.(memories).(sequence)) db.(memories).(rows)
    /\ db.(people).(rows) = [owner_row]
    /\ open migrations no_faults (Some 0x180, Some 0x180) id file' = (Ok tt, file').
Proof.
  unfold open in opened. destruct (let? _ := _ in _) as [version|e] eqn:V; [|injection opened as <- <-; by left].
  assert (stored_version (inl d) = Ok version) as V1 by (destruct (opening faults); [done|]; by destruct (versioning faults)).
  destruct (version =? 1) eqn:N.
  2: { injection opened as <- <-. left. split; [done|]. pose proof (validate_stored_v1 migrations d).
    destruct (validating faults); [done|]. cbn. by destruct (validate_stored _ _). }
  breflect. subst version. destruct (let? _ := _ in _) as [[]|e] eqn:M in opened; [|injection opened as <- <-; by left].
  assert (validate_migrations_v1 migrations d = Ok tt) as M1
    by (destruct (validate_file_permissions modes.1); [|done]; cbn in M; by destruct (history_checking faults)).
  assert (K : file' = inl d /\ is_ok answer = false \/ file' = inr (migrated migrations d) /\ dangling (migrated migrations d) = 0).
  { destruct (upgrade_to_version_2 _ _ _) as [upgraded s] eqn:E in opened.
    assert (upgrading_of migrations d s) as S by (eapply upgrade_either; [|exact E]; destruct others as [->|[D ->]]; [by left|by right]).
    destruct S as [->|[-> D]]; [left|right; by destruct upgraded; injection opened as <- <-].
    destruct upgraded; injection opened as <- <-; [|done]. split; [done|]. pose proof (validate_stored_v1 migrations d).
    destruct (validating faults); [done|]. cbn. by destruct (validate_stored _ _). }
  destruct K as [K|[-> D]]; [by left|]. right. exists (migrated migrations d). split; [done|]. by apply migrated_keeps.
Qed.

(** ** A run with one caller *)

(** The accesses of a call one after the other, with the databases they leave. *)
Fixpoint solo {A} (env : Env) (p : prog A) (db : Database) (history : list Database) : A * (Database * list Database) :=
  match p with
  | Done a => (a, (db, history))
  | Access f => let '(db', p') := f env db in solo env p' db' (db' :: history)
  end.

Lemma solo_run (callable : forall A, prog A -> Prop) w ts {A} env (p : prog A) : forall db history a db' history',
  run callable w history (World db (Thread A p :: ts)) -> solo env p db history = (a, (db', history')) ->
  run callable w history' (World db' (Thread A (Done a) :: ts)).
Proof.
  induction p as [x|f IH] using prog_rect_nested; intros db history a db' history' R; cbn [solo]; [by intros [= <- <- <-]|].
  specialize (IH env db). destruct (f env db) as [d p'] eqn:F. intros S. eapply IH; [|exact S].
  apply (run_step callable w history (World db (Thread A (Access f) :: ts)) (World d (Thread A p' :: ts))); [done|].
  by apply (step_access callable db [] A f ts env).
Qed.

Lemma solo_call (callable : forall A, prog A -> Prop) w v history {A} env (p : prog A) a db' history' :
  run callable w history v -> callable A p -> solo env p v.(database) (v.(database) :: history) = (a, (db', history')) ->
  run callable w history' (World db' (Thread A (Done a) :: v.(threads))).
Proof.
  intros R C S. eapply solo_run; [|exact S]. destruct v as [db ts].
  apply (run_step callable w history (World db ts) (World db (Thread A p :: ts))); [done|]. by apply (step_call callable (World db ts)).
Qed.

(** An identity memory is proposed and then approved; nothing fails. *)
Definition sample_sha : Sha256 := fun _ => repeat 0x61 64.

#[export] Instance sample_sha_laws : Sha256Laws sample_sha.
Proof. by split. Qed.

Definition sample_crypto : SignatureCrypto :=
  {| sig_digest b := b; sig_seal _ _ _ p := Some (p ++ repeat 0 16); sig_open _ _ _ c := Some (take (length c - 16) c) |}.
Definition sample_env : Env := {| env_failure _ := None; env_nonce _ := None |}.
Definition sample_migrations : list rstr := [lit "one"; lit "two"].

Definition sample_provenance : MemoryProvenance :=
  {| provenance_kind := UserProvided; source_id := lit "turn"; source_timestamp := UnixTimestampMillis_raw 5;
     provenance_actor := lit "user"; provenance_digest := None |}.
Definition sample_draft : MemoryDraft :=
  {| draft_kind := Identity; draft_content := lit "my name is Mira"; draft_provenance := sample_provenance;
     draft_confidence := MemoryConfidence_raw 900; draft_created_at := UnixTimestampMillis_raw 5;
     draft_retention := Retention_UntilDeleted; draft_subject := PersonId_OWNER |}.
Definition sample_approval : MemoryApproval :=
  {| confirmation_id := lit "yes"; approval_actor := lit "user"; confirmed_at := UnixTimestampMillis_raw 7; expected_revision := 1 |}.

Definition sample_create := solo sample_env (create (Sha := sample_sha) sample_migrations sample_draft)
  (initialized sample_migrations) [initialized sample_migrations; initialized sample_migrations].
Definition sample_candidate : Database := sample_create.2.1.
Definition sample_approve := solo sample_env (approve (Sha := sample_sha) sample_migrations (MemoryId_raw 1) sample_approval)
  sample_candidate (sample_candidate :: sample_create.2.2).
Definition sample_active : Database := sample_approve.2.1.

Lemma sample_draft_made : made_draft sample_draft.
Proof.
  assert (made_time (UnixTimestampMillis_raw 5)) as T by (exists 5; reflexivity).
  exists Identity, (lit "my name is Mira"), sample_provenance, (MemoryConfidence_raw 900), (UnixTimestampMillis_raw 5), Retention_UntilDeleted, PersonId_OWNER, sample_draft.
  split_and!; [vm_compute; reflexivity|reflexivity| |done|by split].
  exists UserProvided, (lit "turn"), (UnixTimestampMillis_raw 5), (lit "user"), None. split; [vm_compute; reflexivity|done].
Qed.

Lemma sample_approval_made : made_approval sample_approval.
Proof.
  exists (lit "yes"), (lit "user"), (UnixTimestampMillis_raw 7), 1. split_and!; [vm_compute; reflexivity|by exists 7|lia].
Qed.

Lemma sample_store_run : store_run sample_sha ascii_tables sample_crypto (lit "one") (lit "two") sample_approve.2.2
  (World sample_active [Thread _ (Done sample_approve.1); Thread _ (Done sample_create.1)]).
Proof.
  apply (solo_call _ _ (World sample_candidate [Thread _ (Done sample_create.1)]) sample_create.2.2 sample_env
           (approve (Sha := sample_sha) sample_migrations (MemoryId_raw 1) sample_approval)); [|apply call_approve, sample_approval_made|].
  - apply (solo_call _ _ (World (initialized sample_migrations) []) [initialized sample_migrations] sample_env
             (create (Sha := sample_sha) sample_migrations sample_draft)); [apply run_start|apply call_create, sample_draft_made|].
    unfold sample_candidate, sample_create. cbn [database]. by destruct (solo _ _ _ _) as [a [d h]].
  - unfold sample_active, sample_approve. cbn [database]. by destruct (solo _ _ _ _) as [a [d h]].
Qed.

Definition sample_row (state : rstr) (updated rev : Z) : memory_row := MemoryRow
  {| m_id := 1; m_kind := lit "identity"; m_state := state; m_content := lit "my name is Mira"; m_confidence := 900;
     m_created_at_ms := 5; m_updated_at_ms := updated; m_retention_kind := lit "until_deleted"; m_expires_at_ms := None;
     m_session_id := None; m_pinned := 0; m_prior_retention_kind := None; m_prior_expires_at_ms := None;
     m_prior_session_id := None; m_revision := rev; m_last_used_at_ms := None; m_last_retrieval_reason := None |} 1.

Lemma sample_rows : sample_candidate.(memories).(rows) = [sample_row (lit "candidate") 5 1]
  /\ sample_active.(memories).(rows) = [sample_row (lit "active") 7 2].
Proof. split; vm_compute; reflexivity. Qed.

Lemma revisions_identify_versions_witness :
  sample_approve.2.2 !! 0%nat = Some sample_active /\ sample_approve.2.2 !! 36%nat = Some sample_candidate /\ 1 <= 2.
Proof.
  assert (sample_approve.2.2 !! 0%nat = Some sample_active) as A by (vm_compute; reflexivity).
  assert (sample_approve.2.2 !! 36%nat = Some sample_candidate) as B by (vm_compute; reflexivity).
  split; [exact A|]. split; [exact B|].
  refine (proj1 (revisions_identify_versions sample_sha ascii_tables sample_crypto (lit "one") (lit "two") sample_approve.2.2 _ 0 36
    sample_candidate sample_active (sample_row (lit "candidate") 5 1) (sample_row (lit "active") 7 2) sample_store_run _ A B _ _ _));
    [lia|rewrite (proj1 sample_rows); left|rewrite (proj2 sample_rows); left|reflexivity].
Defined.

Lemma approvals_bind_content_witness : approved (Sha := sample_sha) (sample_row (lit "active") 7 2) (approvals_of 1 sample_active).
Proof.
  refine (proj1 (approvals_bind_content sample_sha ascii_tables sample_crypto (lit "one") (lit "two") sample_approve.2.2 _ sample_store_run)
    (sample_row (lit "active") 7 2) _ _ _); [cbn [database]; rewrite (proj2 sample_rows); left|reflexivity|left; reflexivity].
Defined.

Lemma stored_memories_readable_witness :
  exists records, try_map (row_to_record (Sha := sample_sha)) (order_by_id (record_rows (fun _ => true) sample_active)) = Ok records /\ zlen records = 1.
Proof.
  destruct (stored_memories_readable sample_sha ascii_tables sample_crypto (lit "one") (lit "two") sample_approve.2.2 _ sample_env sample_store_run
    (fun _ => eq_refl)) as (_ & records & R & L & _).
  exists records. split; [exact R|]. cbn [database] in L. rewrite L, (proj2 sample_rows). reflexivity.
Defined.

Lemma created_memories_read_back_witness :
  exists n db', create_in sample_draft sample_env 0%nat sample_active = Ok (2, n, db')
    /\ exists r, record_by_id (Sha := sample_sha) 2 db' = Ok (Some r) /\ r.(record_draft) = sample_draft /\ r.(record_state) = State_Candidate.
Proof.
  assert (sample_active.(memories).(sequence) = 1) as S by (vm_compute; reflexivity).
  destruct (created_memories_read_back sample_sha ascii_tables sample_crypto (lit "one") (lit "two") sample_approve.2.2 _ sample_env sample_draft
    sample_store_run (fun _ => eq_refl)) as (n & db' & C & _ & _ & R).
  - split; [exact sample_draft_made|cbn; lia|cbn; lia|intros ? [=]|vm_compute; discriminate].
  - vm_compute. reflexivity.
  - cbn [database]. rewrite S. split; [|replace (sequence (memory_sources sample_active)) with 2 by (vm_compute; reflexivity)]; ints.
  - cbn [database] in C, R. rewrite S in C, R. exists n, db'. split; [exact C|]. eexists. split; [exact R|]. split; reflexivity.
Defined.

Definition sample_request : MemoryRetrievalRequest :=
  {| request_turn_id := TurnId_new 1; MemoryProtocol.query := lit "name"; MemoryProtocol.now := UnixTimestampMillis_raw 9;
     maximum_items := 4; maximum_bytes := 512; request_subject := None |}.

Definition sample_shown : MemoryContextItem :=
  {| item_memory_id := MemoryId_raw 1; item_kind := Identity; item_content := lit "my name is Mira"; item_reason := ExactPhrase |}.

Lemma sample_retrieve : exists r n db', retrieve_in (Sha := sample_sha) (U := ascii_tables) sample_request (fun _ => false) sample_env 0%nat sample_active
  = Ok (r, n, db') /\ r.(retrieved_items) = [sample_shown].
Proof.
  destruct (retrieve_in (Sha := sample_sha) (U := ascii_tables) sample_request (fun _ => false) sample_env 0%nat sample_active) as [[[r n] db']|e] eqn:E.
  - exists r, n, db'. split; [reflexivity|]. vm_compute in E. injection E as <- _ _. vm_compute. reflexivity.
  - vm_compute in E. discriminate E.
Qed.

Lemma retrieval_shows_only_approved_witness : exists r n db',
  retrieve_in (Sha := sample_sha) (U := ascii_tables) sample_request (fun _ => false) sample_env 0%nat sample_active = Ok (r, n, db')
  /\ may_show (Sha := sample_sha) db' sample_request sample_shown.
Proof.
  destruct sample_retrieve as (r & n & db' & E & I). exists r, n, db'. split; [exact E|].
  pose proof (proj1 (retrieval_shows_only_approved sample_sha ascii_tables sample_crypto (lit "one") (lit "two") sample_approve.2.2 _ (TurnId_new 1)
    (lit "name") (UnixTimestampMillis_raw 9) 4 512 sample_request None (fun _ => false) sample_env 0%nat r n db' sample_store_run eq_refl E)) as F.
  rewrite I in F. exact (Forall_inv F).
Defined.

Lemma people_stay_consistent_witness : exists person n, read_person (M := Tx) 1 sample_env 0%nat sample_active = Ok (person, n, sample_active)
  /\ person.(person_is_owner) = true.
Proof.
  destruct (people_stay_consistent sample_sha ascii_tables sample_crypto (lit "one") (lit "two") sample_approve.2.2 _ sample_env sample_store_run
    (fun _ => eq_refl)) as (_ & _ & _ & _ & P).
  assert (sample_active.(people).(rows) = [owner_row]) as E by (vm_compute; reflexivity). cbn [database] in P. rewrite E in P.
  destruct (P owner_row) as (person & n & R & _ & O & _); [apply list_elem_of_here|]. exists person, n. split; [exact R|exact O].
Defined.

(** A version 1 file with the memory above. *)
Definition sample_old : DatabaseV1 :=
  {| v1_application_id := SQLITE_APPLICATION_ID; v1_user_version := 1;
     v1_schema_migrations := [(1, migration_checksum (lit "one"))];
     v1_memories := Table [m_columns (sample_row (lit "candidate") 5 1)] 3; v1_memory_sources := Table [] 0;
     v1_retrieval_traces := Table [] 0; v1_retrieval_items := [] |}.

Lemma open_preserves_memories_witness :
  open sample_migrations no_faults (Some 0x180, Some 0x180) id (inl sample_old) = (Ok tt, inr (migrated sample_migrations sample_old)) /\
  exists db, map m_columns db.(memories).(rows) = [m_columns (sample_row (lit "candidate") 5 1)] /\ 3 <= db.(memories).(sequence).
Proof.
  assert (open sample_migrations no_faults (Some 0x180, Some 0x180) id (inl sample_old) = (Ok tt, inr (migrated sample_migrations sample_old))) as E
    by (vm_compute; reflexivity).
  split; [exact E|].
  destruct (open_preserves_memories sample_migrations no_faults (Some 0x180, Some 0x180) sample_old id _ _ (or_introl eq_refl) E)
    as [[_ X]|(db & _ & M & _ & _ & _ & _ & S & _)]; [discriminate X|].
  exists db. split; [exact M|exact S].
Defined.

(** ** A listing beside a deletion *)

(** The first [n] accesses of a call. *)
Fixpoint first_accesses {A} (n : nat) (env : Env) (p : prog A) (db : Database) : prog A :=
  match n, p with
  | S n, Access f => let '(db', p') := f env db in first_accesses n env p' db'
  | _, _ => p
  end.

Definition sample_person : NewPerson :=
  {| new_name := {| name_display := lit "Mira"; name_key := lit "mira" |}; new_needs_review := false; new_created_at := UnixTimestampMillis_raw 5 |}.
Definition with_mira : Database := (solo sample_env (create_person sample_migrations sample_person) (initialized sample_migrations) []).2.1.
Definition mira_deleted : Database := (solo sample_env (delete_person sample_migrations (PersonId_raw 2)) with_mira []).2.1.

(** The reads of [list_people] are not one transaction. When a person is deleted
    after the identifiers were read, the listing fails with [NotFound]; when it
    happens between the reads of the person and of the names, the listing has a
    person who is not the owner and has no name. *)
Lemma listing_beside_deletion :
  (solo sample_env (first_accesses 8 sample_env (list_people sample_migrations) with_mira) mira_deleted []).1 = Err not_found_error /\
  exists owner mira, (solo sample_env (first_accesses 11 sample_env (list_people sample_migrations) with_mira) mira_deleted []).1 = Ok [owner; mira]
    /\ mira.(person_is_owner) = false /\ mira.(person_names_of) = [].
Proof. split; [vm_compute; reflexivity|]. eexists _, _. split; [vm_compute; reflexivity|]. split; reflexivity. Qed.
