(* ===== verification/Framing.v ===== *)
(** * Frames on the gateway's pipe

    [apps/runtime-gateway/src/framing.rs]: messages cross the pipe between the
    client and the gateway as frames, a four byte big-endian length and the
    payload.

    The transport is an [AsyncRead] or an [AsyncWrite] of the operating system.
    A [Source] holds the bytes still to arrive, and oracles for how many of them
    each read returns and which reads fail; a [Sink] the bytes it has taken, and
    an oracle for the writes and flushes that fail. *)

From S2P Require Import Prelude RustStr Errors Bytes.

Definition MAX_CLIENT_FRAME_BYTES : Z := 512 * 1024.

Inductive FrameError : Type :=
| Io
| InvalidLength (length : Z)
| Truncated.

Definition validate_length (length : Z) : result unit FrameError :=
  if (1 <=? length) && (length <=? MAX_CLIENT_FRAME_BYTES) then Ok tt else Err (InvalidLength length).

(** ** Reading *)

Record Source : Type := {
  incoming : list Z;
  granularity : nat -> nat;
  read_fails : nat -> bool;
  reads_done : nat;
}.

Definition source_after (s : Source) (rest : list Z) : Source :=
  {| incoming := rest; granularity := s.(granularity); read_fails := s.(read_fails);
     reads_done := S s.(reads_done) |}.

(** [AsyncReadExt::read] into a buffer of [n] bytes: an empty result is the end
    of the stream, otherwise at least one byte is returned. *)
Definition read (s : Source) (n : nat) : result (list Z) FrameError * Source :=
  if s.(read_fails) s.(reads_done) then (Err Io, source_after s s.(incoming))
  else
    let count := Nat.min n (S (s.(granularity) s.(reads_done))) in
    (Ok (take count s.(incoming)), source_after s (drop count s.(incoming))).

(** The loop of [read_complete]: [got] is the part of the buffer filled so far,
    [missing] the rest of it; every read fills at least one byte, so [missing]
    is fuel enough. *)
Fixpoint read_loop (fuel missing : nat) (got : list Z) (s : Source)
  : exec (result (option (list Z)) FrameError * Source) :=
  if bool_decide (missing = 0%nat) then Val (Ok (Some got), s)
  else match fuel with
  | O => Fuel_out
  | S fuel =>
      match read s missing with
      | (Err e, s) => Val (Err e, s)
      | (Ok bytes, s) =>
          if is_empty bytes then Val (if is_empty got then Ok None else Err Truncated, s)
          else read_loop fuel (missing - length bytes) (got ++ bytes) s
      end
  end.

(** The buffer, or [None] when the stream ended before its first byte. *)
Definition read_complete (s : Source) (n : nat) : exec (result (option (list Z)) FrameError * Source) :=
  read_loop n n [] s.

Definition read_frame (s : Source) : exec (result (option (list Z)) FrameError * Source) :=
  let! '(header, s) := read_complete s 4 in
  match header with
  | Err e => Val (Err e, s)
  | Ok None => Val (Ok None, s)
  | Ok (Some header) =>
      let length := be_value header in
      match validate_length length with
      | Err e => Val (Err e, s)
      | Ok _ =>
          let! '(payload, s) := read_complete s (Z.to_nat length) in
          Val (match payload with
               | Err e => Err e
               | Ok None => Err Truncated
               | Ok (Some payload) => Ok (Some payload)
               end, s)
      end
  end.

(** ** Writing *)

(** A failed write leaves a prefix of its bytes behind. *)
Record Sink : Type := {
  outgoing : list Z;
  write_fails : nat -> option nat;
  writes_done : nat;
  acknowledged : nat;
}.

Definition sink_after (s : Sink) (bytes : list Z) (acks : nat) : Sink :=
  {| outgoing := s.(outgoing) ++ bytes; write_fails := s.(write_fails);
     writes_done := S s.(writes_done); acknowledged := acks |}.

(** [AsyncWriteExt::write_all], and [flush] as a write of nothing. *)
Definition write_all (s : Sink) (bytes : list Z) : result unit FrameError * Sink :=
  match s.(write_fails) s.(writes_done) with
  | Some n => (Err Io, sink_after s (take n bytes) s.(acknowledged))
  | None => (Ok tt, sink_after s bytes s.(acknowledged))
  end.

Definition acknowledge (s : Sink) : Sink :=
  {| outgoing := s.(outgoing); write_fails := s.(write_fails); writes_done := s.(writes_done);
     acknowledged := S s.(acknowledged) |}.

(** [on_written] is counted in [acknowledged]. *)
Definition write_frame_with_ack (s : Sink) (payload : list Z) : result unit FrameError * Sink :=
  match validate_length (zlen payload) with
  | Err e => (Err e, s)
  | Ok _ =>
      match write_all s (be_bytes 4 (zlen payload)) with
      | (Err e, s) => (Err e, s)
      | (Ok _, s) =>
          match write_all s payload with
          | (Err e, s) => (Err e, s)
          | (Ok _, s) => write_all (acknowledge s) []
          end
      end
  end.

(** ** Sequences of frames *)

Fixpoint write_frames (s : Sink) (payloads : list (list Z)) : result unit FrameError * Sink :=
  match payloads with
  | [] => (Ok tt, s)
  | payload :: rest =>
      match write_frame_with_ack s payload with
      | (Err e, s) => (Err e, s)
      | (Ok _, s) => write_frames s rest
      end
  end.

(** At most [n] frames read, until the stream ends or fails. *)
Fixpoint read_frames (n : nat) (s : Source) (acc : list (list Z))
  : exec (result (list (list Z)) FrameError * Source) :=
  match n with
  | O => Val (Ok acc, s)
  | S n =>
      let! '(r, s) := read_frame s in
      match r with
      | Err e => Val (Err e, s)
      | Ok None => Val (Ok acc, s)
      | Ok (Some payload) => read_frames n s (acc ++ [payload])
      end
  end.

(** ** What a stream of bytes says

    A frame read off the bytes at once, without the transport. *)

Definition parse_frame (bs : list Z) : result (option (list Z)) FrameError :=
  if is_empty bs then Ok None
  else if bool_decide (length bs < 4)%nat then Err Truncated
  else
    let length := be_value (take 4 bs) in
    if (1 <=? length) && (length <=? MAX_CLIENT_FRAME_BYTES) then
      if zlen (drop 4 bs) <? length then Err Truncated
      else Ok (Some (take (Z.to_nat length) (drop 4 bs)))
    else Err (InvalidLength length).

Definition reliable (s : Source) : Prop := forall n, s.(read_fails) n = false.

Lemma is_empty_nil {A} (l : list A) : is_empty l = true <-> l = [].
Proof. by destruct l. Qed.

Lemma take_is_empty n (l : list Z) : is_empty (take (S n) l) = is_empty l.
Proof. by destruct l. Qed.

(** Whatever the transport's granularity, the loop collects the next [missing]
    bytes, or the end of the stream. *)
Lemma read_loop_reliable fuel missing got s :
  reliable s -> (missing <= fuel)%nat ->
  exists s', reliable s' /\
    if bool_decide (missing <= length s.(incoming))%nat
    then read_loop fuel missing got s = Val (Ok (Some (got ++ take missing s.(incoming))), s') /\
         s'.(incoming) = drop missing s.(incoming)
    else read_loop fuel missing got s
         = Val (if is_empty (got ++ s.(incoming)) then Ok None else Err Truncated, s').
Proof.
  revert missing got s. induction fuel as [|fuel IH]; intros missing got s R L.
  - assert (missing = 0%nat) as -> by lia. exists s. rewrite bool_decide_true by lia. cbn.
    by rewrite app_nil_r.
  - destruct missing as [|m]. { exists s. cbn. by rewrite app_nil_r. }
    cbn [read_loop]. rewrite (bool_decide_false (S m = 0%nat)) by done. unfold read. rewrite R.
    set (count := Nat.min (S m) (S (granularity s (reads_done s)))).
    assert (Hc : exists k, count = S k /\ (k <= m)%nat) by (exists (count - 1)%nat; lia).
    destruct Hc as (k & Ec & Hk). rewrite Ec, take_is_empty.
    set (s1 := source_after s (drop (S k) (incoming s))). assert (R1 : reliable s1) by exact R.
    destruct (incoming s) as [|b bs] eqn:E.
    + cbn [is_empty]. exists s1. split; [done|]. rewrite bool_decide_false by (cbn; lia). by rewrite app_nil_r.
    + cbn [is_empty]. destruct (IH (S m - length (take (S k) (b :: bs)))%nat (got ++ take (S k) (b :: bs)) s1 R1)
        as (s' & R' & H); [cbn; lia|]. exists s'. split; [done|]. change (incoming s1) with (drop (S k) (b :: bs)) in H.
      destruct (decide (S k <= length (b :: bs))%nat) as [D|D].
      * assert (HL : length (take (S k) (b :: bs)) = S k) by (rewrite length_take; lia).
        rewrite HL in H |- *. rewrite length_drop in H.
        destruct (bool_decide (S m <= _)%nat) eqn:Q; breflect.
        -- rewrite bool_decide_true in H by lia. destruct H as [-> ->].
           rewrite <- app_assoc, take_take_drop, drop_drop. replace (S k + (S m - S k))%nat with (S m) by lia. done.
        -- rewrite bool_decide_false in H by lia. rewrite <- app_assoc, take_drop in H. done.
      * rewrite take_ge in H |- * by lia. rewrite drop_ge in H by lia.
        rewrite bool_decide_false by lia. rewrite bool_decide_false in H by (cbn [length]; cbn [length] in D; lia).
        by rewrite app_nil_r in H.
Qed.

Lemma read_complete_reliable n s :
  reliable s -> exists s', reliable s' /\
    if bool_decide (n <= length s.(incoming))%nat
    then read_complete s n = Val (Ok (Some (take n s.(incoming))), s') /\ s'.(incoming) = drop n s.(incoming)
    else read_complete s n = Val (if is_empty s.(incoming) then Ok None else Err Truncated, s').
Proof. intros R. by apply (read_loop_reliable n n []). Qed.

Lemma read_frame_parses s :
  reliable s -> exists s', read_frame s = Val (parse_frame s.(incoming), s') /\ reliable s' /\
    forall payload, parse_frame s.(incoming) = Ok (Some payload) ->
      s'.(incoming) = drop (4 + length payload) s.(incoming).
Proof.
  intros R. unfold read_frame, parse_frame. destruct (read_complete_reliable 4 s R) as (s1 & R1 & H1).
  destruct (incoming s) as [|b bs] eqn:E. { rewrite bool_decide_false in H1 by (cbn; lia). rewrite H1. by exists s1. }
  cbn [is_empty]. destruct (bool_decide (4 <= _)%nat) eqn:Q; breflect.
  2:{ rewrite H1. rewrite (bool_decide_true (_ < _)%nat) by lia. by exists s1. }
  destruct H1 as [-> I1]. rewrite (bool_decide_false (_ < _)%nat) by lia. cbn [exec_bind].
  set (len := be_value (take 4 (b :: bs))). unfold validate_length. destruct (_ && _) eqn:V; [|by exists s1].
  destruct (read_complete_reliable (Z.to_nat len) s1 R1) as (s2 & R2 & H2). rewrite I1 in H2. breflect.
  destruct (bool_decide (Z.to_nat len <= _)%nat) eqn:Q2; breflect.
  - destruct H2 as [-> I2]. rewrite (proj2 (Z.ltb_ge _ _)) by (unfold zlen; lia). exists s2. split_and!; try done.
    intros payload [= <-]. by rewrite I2, drop_drop, length_take, Nat.min_l by done.
  - rewrite H2, (proj2 (Z.ltb_lt _ _)) by (unfold zlen; lia). exists s2. cbn [exec_bind].
    by destruct (is_empty _).
Qed.

Lemma parse_frame_written payload rest :
  1 <= zlen payload <= MAX_CLIENT_FRAME_BYTES ->
  parse_frame (be_bytes 4 (zlen payload) ++ payload ++ rest) = Ok (Some payload).
Proof.
  intros H. unfold parse_frame. set (bs := _ ++ _).
  assert (Hl : length bs = (4 + length (payload ++ rest))%nat) by (unfold bs; by rewrite length_app, be_bytes_length).
  assert (He : is_empty bs = false) by (destruct bs; [done|done]). rewrite He.
  rewrite bool_decide_false by lia.
  replace (take 4 bs) with (be_bytes 4 (zlen payload)) by (unfold bs; by rewrite take_app_length' by by rewrite be_bytes_length).
  replace (drop 4 bs) with (payload ++ rest) by (unfold bs; by rewrite drop_app_length' by by rewrite be_bytes_length).
  rewrite be_value_bytes by (change (256 ^ Z.of_nat 4) with 4294967296; unfold MAX_CLIENT_FRAME_BYTES in H; lia).
  rewrite !(proj2 (Z.leb_le _ _)) by lia. cbn [andb]. rewrite zlen_app, (proj2 (Z.ltb_ge _ _)).
  2:{ pose proof (zlen_nonneg rest). lia. }
  unfold zlen. by rewrite Nat2Z.id, take_app_length.
Qed.

Lemma write_frame_ok s payload s' :
  write_frame_with_ack s payload = (Ok tt, s') ->
  1 <= zlen payload <= MAX_CLIENT_FRAME_BYTES /\
  s'.(outgoing) = s.(outgoing) ++ be_bytes 4 (zlen payload) ++ payload.
Proof.
  unfold write_frame_with_ack, validate_length. destruct (_ && _) eqn:V; [|done]. breflect.
  unfold write_all. destruct (write_fails s _); [done|]. cbn.
  destruct (write_fails s _); [done|]. cbn. destruct (write_fails s _); [done|].
  intros [= <-]. cbn. by rewrite app_nil_r, <- app_assoc.
Qed.

Definition wire_form (payloads : list (list Z)) : list Z :=
  concat (map (fun payload => be_bytes 4 (zlen payload) ++ payload) payloads).

Lemma write_frames_ok payloads s s' :
  write_frames s payloads = (Ok tt, s') ->
  Forall (fun payload => 1 <= zlen payload <= MAX_CLIENT_FRAME_BYTES) payloads /\
  s'.(outgoing) = s.(outgoing) ++ wire_form payloads.
Proof.
  revert s. induction payloads as [|payload payloads IH]; intros s H; cbn in H.
  - simplify_eq. by rewrite app_nil_r.
  - destruct (write_frame_with_ack s payload) as [[[]|] s1] eqn:W; [|done].
    apply write_frame_ok in W as [B E]. destruct (IH _ H) as [F E']. split; [by constructor|].
    rewrite E', E. unfold wire_form. cbn. by rewrite <- !app_assoc.
Qed.

Lemma read_frames_wire payloads s acc :
  Forall (fun payload => 1 <= zlen payload <= MAX_CLIENT_FRAME_BYTES) payloads ->
  reliable s -> s.(incoming) = wire_form payloads ->
  exists s', read_frames (S (length payloads)) s acc = Val (Ok (acc ++ payloads), s').
Proof.
  intros F. revert s acc. induction F as [|payload payloads B F IH]; intros s acc R E;
    destruct (read_frame_parses s R) as (s1 & H & R1 & I).
  - cbn [length read_frames]. rewrite H, E. cbn. rewrite app_nil_r. by exists s1.
  - assert (P : parse_frame s.(incoming) = Ok (Some payload)).
    { rewrite E. unfold wire_form. cbn [map concat]. rewrite <- app_assoc. by apply parse_frame_written. }
    specialize (I _ P). destruct (IH s1 (acc ++ [payload]) R1) as [s' K].
    { rewrite I, E. unfold wire_form. cbn [map concat]. rewrite drop_app_length'; [done|].
      by rewrite length_app, be_bytes_length. }
    cbn [length read_frames]. cbn [length read_frames] in K. rewrite H, P. cbn [exec_bind]. rewrite K.
    exists s'. by rewrite <- app_assoc.
Qed.

(** ** Claims *)

(** Frames survive the pipe. Whatever payloads were written without an
    error, reading the bytes back returns exactly those payloads, in order, and
    then the end of the stream, however the transport splits the bytes over the
    reads. *)
Theorem frames_roundtrip payloads sink sink' source :
  write_frames sink payloads = (Ok tt, sink') -> sink.(outgoing) = [] ->
  reliable source -> source.(incoming) = sink'.(outgoing) ->
  exists source', read_frames (S (length payloads)) source [] = Val (Ok payloads, source').
Proof.
  intros W E R I. apply write_frames_ok in W as [F O]. rewrite E in O.
  apply (read_frames_wire payloads source [] F R). by rewrite I, O.
Qed.

(** Reading a frame decides the stream. Unless the transport itself fails,
    [read_frame] terminates with what the bytes say, independently of how they
    arrive: the payload and the stream after it, the end of the stream before
    any byte, a refusal of a length outside 1..=512 KiB before the payload is
    read, or a truncation. *)
Theorem read_frame_decides source :
  reliable source ->
  exists source', read_frame source = Val (parse_frame source.(incoming), source') /\
    forall payload, parse_frame source.(incoming) = Ok (Some payload) ->
      source'.(incoming) = drop (4 + length payload) source.(incoming) /\
      1 <= zlen payload <= MAX_CLIENT_FRAME_BYTES.
Proof.
  intros R. destruct (read_frame_parses source R) as (s' & H & _ & I). exists s'. split; [done|].
  intros payload P. split; [by apply I|]. unfold parse_frame in P. destruct (is_empty _); [done|].
  destruct (bool_decide _); [done|]. destruct (_ && _) eqn:V; [|done]. breflect.
  destruct (_ <? _) eqn:L; [done|]. breflect. injection P as <-. unfold zlen in *. rewrite length_take. lia.
Qed.

(** An acknowledged frame was handed over whole. [on_written] is called
    exactly when the header and the whole payload went to the transport, even
    if the flush then fails; otherwise the call fails and only a prefix of the
    frame was written. *)
Theorem acknowledged_frame_is_whole sink payload :
  let '(r, sink') := write_frame_with_ack sink payload in
  let frame := be_bytes 4 (zlen payload) ++ payload in
  (sink'.(acknowledged) = S sink.(acknowledged) /\ sink'.(outgoing) = sink.(outgoing) ++ frame) \/
  (sink'.(acknowledged) = sink.(acknowledged) /\ is_ok r = false /\
   exists part, part `prefix_of` frame /\ sink'.(outgoing) = sink.(outgoing) ++ part).
Proof.
  unfold write_frame_with_ack, validate_length. generalize (be_bytes 4 (zlen payload)) as header. intros header.
  destruct (_ && _).
  2:{ right. split_and!; try done. exists []. rewrite app_nil_r. split; [apply prefix_nil|done]. }
  unfold write_all at 1. destruct (write_fails sink _) as [n|].
  { right. split_and!; try done. eexists. split; [|done]. etrans; [apply prefix_take|by apply prefix_app_r]. }
  unfold write_all at 1. cbn. destruct (write_fails sink _) as [n|].
  { right. split_and!; try done. exists (header ++ take n payload).
    split; [apply prefix_app, prefix_take|by rewrite app_assoc]. }
  unfold write_all. cbn. destruct (write_fails sink _) as [n|]; cbn; left;
    rewrite ?take_nil, app_nil_r, <- app_assoc; done.
Qed.

(** ** Witnesses: two frames, the transport returning three bytes a read. *)

Definition sample_sink : Sink :=
  {| outgoing := []; write_fails := fun _ => None; writes_done := 0; acknowledged := 0 |}.

Definition sample_source (bytes : list Z) : Source :=
  {| incoming := bytes; granularity := fun _ => 2%nat; read_fails := fun _ => false; reads_done := 0 |}.

Lemma frames_roundtrip_witness : exists source',
  read_frames 3 (sample_source [0; 0; 0; 2; 7; 8; 0; 0; 0; 5; 1; 2; 3; 4; 5]) []
  = Val (Ok [[7; 8]; [1; 2; 3; 4; 5]], source').
Proof.
  apply (frames_roundtrip [[7; 8]; [1; 2; 3; 4; 5]] sample_sink
    (write_frames sample_sink [[7; 8]; [1; 2; 3; 4; 5]]).2); vm_compute; reflexivity.
Defined.

Lemma read_frame_decides_witness : exists source',
  read_frame (sample_source [0; 8; 0; 1; 9]) = Val (Err (InvalidLength 524289), source').
Proof.
  destruct (read_frame_decides (sample_source [0; 8; 0; 1; 9])) as (s' & H & _); [intros n; reflexivity|].
  exists s'. exact H.
Defined.
